(* ===== verification/_CoqProject ===== *)
-Q . S2P
Prelude.v
GoTime.v
RateLimit.v
Scheduler.v
SqlSyntax.v
WsFrame.v
Utf8.v
Base64.v
Strconv.v
GoFloat.v
GoDate.v
Json.v
JsonText.v
Canonical.v
JsonReads.v
Protocol.v
Transfers.v
GoStrings.v
JsonInteger.v
InputValue.v
ValueFormat.v
Schema.v
Pointer.v
Validation.v
Yaml.v
Compile.v
Compiled.v
Conformance.v
CsvText.v
Sha256.v
Output.v
Normalised.v
Publish.v
ArtifactStore.v
ArtifactInvariant.v
ArtifactSafety.v
Artifacts.v
GatewayCalls.v
GatewayInvariant.v
Gateway.v
GatewayAuth.v
HostFs.v
SaveFiles.v
SaveManifest.v
SaveJournal.v
SaveLogic.v
SaveNames.v
SaveInvariant.v
SavePersist.v
SaveCalls.v
SaveTemps.v
SavePublish.v
SaveRemoval.v
SaveStore.v
SaveFinish.v
SaveRuns.v
SaveThreads.v
SaveSafety.v
SaveSound.v
SaveScan.v
SaveRecovery.v
SaveTickets.v
SaveCrash.v
SavePool.v
SaveRestart.v
SaveIdentity.v
Programs.v
Lifecycle.v
DbProvider.v
Controller.v
Execution.v
ExecutionRuns.v
Executions.v
Admission.v
LegacyMutation.v
