(* ===== verification/Prelude.v ===== *)
(** * Onprest: a verification development

    Onprest gives external callers access to data and functions inside a private network.
    A gateway ([src/internal/gateway]) faces the callers over REST and MCP; an agent
    ([src/internal/agent]) inside the network keeps one WebSocket connection to the gateway
    ([src/internal/ws]), on which requests, replies and windowed file transfers travel
    ([src/internal/protocol]). What a caller may ask is fixed by capabilities: contracts with
    an input schema, an executor and an output policy ([src/internal/contract]). The agent
    checks the input against the contract, runs the executor under a rate limit, and
    publishes data and files through a private artifact store.

    ** How the code is modelled

    Go code is translated function by function. Byte strings are [list Z] of values below
    256, [int64] is [Z] with its wrap-around written out ([wrap64]), a fallible function
    returns [result], a Go map is a [gmap], or an association list in key order where a value
    is compared or printed. Code with a mutex is a step function: every critical section and
    every channel operation is one step, goroutines have explicit program counters, and the
    theorems quantify over all interleavings. What the code cannot control is an argument of
    the model about which nothing, or only what is stated, is assumed: the outcome of calls
    to the operating system, contexts, clocks, random identifiers (assumed distinct), the
    peer, and third-party packages (the YAML parser, regular expressions, character tables,
    [net/mail], [net/url]). The parts of Go's standard library on which results depend
    (UTF-8, base64, [strconv], [time], [encoding/json], [encoding/csv], SHA-256, binary64
    numbers) are modelled as functions, not assumed.

    ** Files

    Foundations. [Prelude]: the result type with its bind, machine integers, loops with
    fuel, sums over maps, boolean reflection. [GoTime], [GoDate]: durations and instants.
    [Utf8], [Base64], [Strconv], [GoFloat], [GoStrings], [Sha256]: text, numbers and digests.

    JSON and contracts. [Json], [JsonText]: values and their text. [Canonical], [JsonReads]:
    [contract/canonical.go], the canonical writer and the bounded decoder. [JsonInteger]:
    [contract/json_integer.go]. [InputValue]: values with file leaves and the one-pass limit
    check of [contract/input.go]. [ValueFormat]: [valueformat/formats.go]. [Schema],
    [Validation]: [validate] and [ValidateInput]. [Pointer]: JSON Pointers of
    [contract/binding.go]. [Yaml], [Compile], [Compiled]: configuration trees and schema
    compilation ([contract/yaml.go], [schema.go], [pattern.go]). [Conformance]: what a schema
    means, independently of the validator. [Normalised]: validating a second time.

    Output. [CsvText]: the CSV writer and the strict CSV reader ([contract/csv_output.go],
    [agent/csv_parser.go]). [Output]: [ProjectOutput] and [WriteCSV]. [Publish]:
    [processOutput] of [contract/output.go] against any stager, reader and context.

    Agent. [RateLimit]: [agent/rate_limit.go]. [SqlSyntax]: [sqlsyntax/sql.go] and parameter
    binding of [agent/sql.go]. [ArtifactStore]: the operations of [agent/artifacts], with
    their invariant in [ArtifactInvariant], lifetimes in [ArtifactSafety] and theorems in
    [Artifacts].

    Wire. [WsFrame]: framing of [ws/ws.go]. [Scheduler]: [ws/scheduler.go]. [Protocol]:
    frames of [protocol/transfer.go]. [Transfers]: windowed transfers of [ws/transfer.go].

    Gateway. [GatewayCalls]: the life of a call on the agent connection
    ([gateway/agent_conn.go]), with its invariant in [GatewayInvariant] and theorems in
    [Gateway]. [GatewayAuth]: challenges, nonces and API keys of [gateway/auth.go].

    Executions. [Programs]: code that shares state as a tree of atomic sections, pools of such
    programs, and a logic for them with a ghost state per program. [Lifecycle]: effects,
    leases, preparation and closing of [agent/providers/lifecycle.go]. [DbProvider]:
    [ExecutePublication] of [agent/provider_db.go] and the transactions of
    [agent/executor.go], against a server whose answers can be lost. [Controller]: [Execute]
    of [agent/controller.go] with its deferred functions, and the public errors of
    [contract/envelope.go]. [Execution], [ExecutionRuns]: the invariant, and the programs that
    keep it. [Executions]: theorems on executions that run together, and with
    [Prepared.Close]. [Admission]: [admit] of the controller. [LegacyMutation]:
    [executeMutation] of [agent/executor.go], for a runner without a controller.

    Crash-safe saving. [HostFs]: files, directories, crashes, and programs as trees of calls
    to the operating system. [SaveFiles]: [agent/filesystem/write.go]. [SaveManifest]: the
    manifests of the save journal as JSON text. [SaveJournal]: [agent/artifacts/save.go],
    from [openSaveJournal] and [Save] to [recoverSaves]. [SaveLogic]: a program logic for
    such programs, with what a program owns and what others may do between two calls.
    [SaveNames], [SaveInvariant]: temporary names, and what makes a state recoverable.
    [SavePersist] to [SaveRuns]: the logic applied to each phase of a save. [SaveThreads],
    [SaveSafety]: saves that run together. [SaveSound], [SaveScan], [SaveRecovery]: recovery
    from a sound journal. [SaveTickets], [SaveCrash], [SavePool]: every crash leaves a sound
    journal. [SaveRestart]: crashes and recoveries in any number. [SaveIdentity]: a torn
    identity of the journal.

    ** What the theorems show

    Contracts: a validated input satisfies the declarative meaning of its schema and its
    limits ([Conformance.input_conforms]); its file leaves are exactly its files
    ([Validation.input_leaves_exact]); statically guaranteed bindings exist
    ([Validation.binding_guaranteed]); compiled schemas satisfy the invariant these theorems
    assume ([Compiled.compiled_wf]); the one-pass limit check agrees with the canonical text
    ([InputValue.limits_exact]); numbers are integers exactly when their text denotes one
    ([JsonInteger.int64_exact]); canonical JSON reads back ([JsonReads.canonical_roundtrip]);
    arguments that were validated are accepted again, unchanged ([Normalised.validated_again]).

    Output: published data conforms to the output schema and the policy
    ([Output.project_output_conforms]); every reader and stage is released on every path
    ([Publish.output_released]); published files are byte for byte what was produced and
    asserted ([Publish.output_files_faithful]); a CSV file is read back by the strict reader
    ([Output.csv_file_reads_back]); copying ends ([Publish.copy_terminates]).

    Artifact store: counters are exact and bounded, the bytes up to what saves with a failed
    clean-up have charged to a store that they poison ([Artifacts.store_accounting]); completed
    files never change and are not removed under a reader ([Artifacts.artifact_immutable],
    [Artifacts.committed_files_fixed]); nothing leaks ([Artifacts.artifacts_reclaimed]).

    Executions: what a caller is told about a database is true, whatever fails or is lost
    ([Executions.outcome_truthful]); executions give back the outputs, connections and files
    that they take ([Executions.executions_give_back]) and are bounded ([Executions.executions_bounded]);
    providers are closed after their last call ([Executions.providers_outlive_calls]) and
    called with valid arguments only ([Executions.providers_called_validly]); executions and
    calls of [Close] end ([Executions.executions_end]); an outcome adds up exactly what was
    observed ([Lifecycle.outcome_exact]); an admitted request is not refused later for what
    was admitted ([Admission.admitted_executes]). Mutations without a controller are truthful
    too ([LegacyMutation.mutations_truthful]), but one that is canceled while it starts keeps
    its connection, and on Oracle its open transaction
    ([LegacyMutation.canceled_start_abandoned], a defect).

    Gateway calls: "not started" is never reported for a request that is or will be written
    ([Gateway.not_started_sound]); no goroutine blocks for good
    ([Gateway.connection_never_stuck]); calls end ([Gateway.calls_end]); body slots are
    accounted for ([Gateway.body_slots_accounted]), but one can be lost when the connection
    ends ([Gateway.body_slot_lost], a defect).

    Authentication: no challenge is used twice ([GatewayAuth.challenge_single_use]), no
    nonce within its window while the clock does not go back ([GatewayAuth.nonce_fresh]), and an accepted API key is configured
    and was compared in full ([GatewayAuth.api_key_sound]).

    Saving files: at every point of interleaved saves, also after a crash, each name holds its
    old file or a complete new one ([SaveSafety.saves_atomic]); what a save reports is true
    ([SaveSafety.saves_reported]); saves that succeed leave nothing behind
    ([SaveSafety.saves_leave_nothing]); after any crashes a recovery succeeds and cleans up
    ([SaveRestart.saves_recovered]). A crash of a save into a directory with a large inode
    leaves a journal that is not recovered ([SaveRestart.large_inode_unrecoverable]), and a
    torn identity keeps the agent from starting ([SaveIdentity.torn_identity_unusable]).

    Wire and scheduling: frames and messages round trip ([WsFrame], [Protocol]); the write
    scheduler is bounded, answers each job once and keeps its order ([Scheduler]); transfers
    stay within their window ([Transfers]).

    Rate limiting and SQL: the limiter implements an exact token bucket on 64-bit integers
    ([RateLimit]); the SQL scanners end, agree with each other outside Oracle
    ([SqlSyntax.single_statement_agrees]), and placeholder replacement is exact
    ([SqlSyntax.build_sql_correct]).

    ** Bounds and fuel

    Loops whose recursion is not structural run on fuel that is proved sufficient: twice the
    length of the text for the JSON decoder ([Canonical.decode_total]), the remaining length
    for the SQL scanners ([SqlSyntax.scanners_terminate]), the bytes left for copying. The
    YAML and schema compilers recurse on 129 less the depth: running out is the code's own
    depth test. Programs are finite trees, so that every run of a pool ends
    ([Programs.pool_terminates]). Everything else recurses on its data. Step relations have no bound on the
    number of steps, callers, stages or transfers. The theorems on saving assume at most
    1,500 files in a save, so that its manifest has fewer items than the decoder's limit of
    100,000; inodes and device numbers below 2^63; random names that do not repeat; saves with
    different targets; and an operating system that answers within the range of its types.
    [HostFs] does not reuse the inode of a file that existed before, and no other process
    changes the directories while saves and recoveries run.
    The theorems on executions assume that the configured limits on files are not negative,
    and of [database/sql] only that a commit or rollback without an error has happened. A
    transaction may be rolled back by the server, or by [database/sql] once its context is
    canceled, at any call that uses it.
    [Normalised] leaves out schemas that list both types of numbers at one place.

    ** Not modelled

    Command lines, logging, services and installers, SQL drivers, HTTP clients and servers,
    the WebAssembly runtime and the SDK are effects or foreign code whose results the modelled
    parts take as arguments. The HTTP, file, CSV and WebAssembly providers enter executions as
    providers that report any effects, return any result or error, or panic before they
    publish; one that publishes itself does so at most once, closes its output when it then
    returns an error, and otherwise returns it ([Controller.foreign_execute]). Reading rows of a
    database, the choice of a connection by the pool, the transport sessions of the agent, the REST and MCP handlers, OpenAPI generation, host services, the
    selection of files and capability loading beyond schemas are not translated. Saving is
    modelled as on Linux, without the variants for Windows and macOS and the hooks of the
    tests. Diagnostics are left out everywhere. *)

From stdpp Require Import gmap strings list fin_maps.
From Stdlib Require Import ZArith Lia.

Open Scope Z_scope.

(* ------------------------------------------------------------------ *)
(** ** Definitions *)

(** Go byte strings: a byte is a [Z] in [0, 256). *)
Abbreviation bytes := (list Z).

Definition is_byte (b : Z) : Prop := 0 <= b < 256.

(** The bytes of an ASCII literal. *)
Definition lit (s : string) : bytes :=
  (fun a => Z.of_N (Ascii.N_of_ascii a)) <$> String.list_ascii_of_string s.

(** [s[i]]; an index out of range is a panic in Go, and reads as [-1], which is
    no byte, here. *)
Definition byte_at (s : bytes) (i : nat) : Z := default (-1) (s !! i).

(** [s[i:j]] and [s[i:]]. *)
Definition slice (s : bytes) (i j : nat) : bytes := take (j - i) (drop i s).
Definition slice_from (s : bytes) (i : nat) : bytes := drop i s.

Definition bytes_eqb (a b : bytes) : bool := bool_decide (a = b).

(** Go's [(value, error)] results; an error is its message. *)
Inductive result (A : Type) : Type :=
| Ok (a : A)
| Err (e : string).
Arguments Ok {A} a.
Arguments Err {A} e.

Definition result_bind {A B} (r : result A) (f : A -> result B) : result B :=
  match r with Ok a => f a | Err e => Err e end.

Declare Scope go_scope.
Delimit Scope go_scope with go.
Notation "'let*' x ':=' r 'in' k" := (result_bind r (fun x => k))
  (at level 10, x pattern, r at level 100, k at level 200) : go_scope.
Open Scope go_scope.

Definition is_ok {A} (r : result A) : bool :=
  match r with Ok _ => true | Err _ => false end.

(** 64-bit signed arithmetic, with its wrap-around. *)
Definition int64_min : Z := - 2 ^ 63.
Definition int64_max : Z := 2 ^ 63 - 1.
Definition wrap64 (z : Z) : Z := (z + 2 ^ 63) mod 2 ^ 64 - 2 ^ 63.
Definition in_int64 (z : Z) : Prop := int64_min <= z <= int64_max.

(** A Go [for] loop: [body] maps the loop variables either to their values at
    the next iteration or to the value the loop leaves with. *)
Fixpoint loop {S R : Type} (fuel : nat) (body : S -> S + R) (s : S) : option R :=
  match fuel with
  | O => None
  | Datatypes.S fuel' =>
      match body s with
      | inl s' => loop fuel' body s'
      | inr r => Some r
      end
  end.

(** Sum of a measure over the values of a finite map. *)
Definition msum `{Countable K} {V} (f : V -> Z) (m : gmap K V) : Z :=
  map_fold (fun _ v acc => f v + acc) 0 m.

(* ------------------------------------------------------------------ *)
(** ** Tactics *)

Create HintDb onprest discriminated.

(** Destruct the innermost boolean test of the goal or of a hypothesis. *)
Ltac case_test :=
  match goal with
  | |- context [if ?b then _ else _] =>
      lazymatch b with context [if _ then _ else _] => fail | _ => destruct b eqn:? end
  | H : context [if ?b then _ else _] |- _ =>
      lazymatch b with context [if _ then _ else _] => fail | _ => destruct b eqn:? end
  end.

(** Destruct the test at the head of a hypothesis about to be introduced. *)
Ltac head_if E :=
  match goal with |- (if ?b then _ else _) = _ -> _ => destruct b eqn:E end.

(** A concrete list of bytes. *)
Ltac all_bytes :=
  repeat (apply Forall_cons_2; [unfold is_byte; lia|]); apply Forall_nil_2.

(** Boolean tests of the code as propositions. *)
Ltac breflect :=
  repeat match goal with
  | H : andb _ _ = true |- _ => apply andb_true_iff in H; destruct H
  | H : orb _ _ = false |- _ => apply orb_false_iff in H; destruct H
  | H : andb _ _ = false |- _ => apply andb_false_iff in H
  | H : orb _ _ = true |- _ => apply orb_true_iff in H
  | H : negb _ = true |- _ => apply negb_true_iff in H
  | H : negb _ = false |- _ => apply negb_false_iff in H
  | H : (_ =? _) = true |- _ => apply Z.eqb_eq in H
  | H : (_ =? _) = false |- _ => apply Z.eqb_neq in H
  | H : (_ <? _) = true |- _ => apply Z.ltb_lt in H
  | H : (_ <? _) = false |- _ => apply Z.ltb_ge in H
  | H : (_ <=? _) = true |- _ => apply Z.leb_le in H
  | H : (_ <=? _) = false |- _ => apply Z.leb_gt in H
  | H : (_ =? _)%nat = true |- _ => apply Nat.eqb_eq in H
  | H : (_ =? _)%nat = false |- _ => apply Nat.eqb_neq in H
  | H : (_ <? _)%nat = true |- _ => apply Nat.ltb_lt in H
  | H : (_ <? _)%nat = false |- _ => apply Nat.ltb_ge in H
  | H : (_ <=? _)%nat = true |- _ => apply Nat.leb_le in H
  | H : (_ <=? _)%nat = false |- _ => apply Nat.leb_gt in H
  | H : bool_decide _ = true |- _ => apply bool_decide_eq_true in H
  | H : bool_decide _ = false |- _ => apply bool_decide_eq_false in H
  end.

(* ------------------------------------------------------------------ *)
(** ** Lemmas: results and machine integers *)

Lemma result_bind_Ok {A B} (r : result A) (f : A -> result B) b :
  result_bind r f = Ok b -> exists a, r = Ok a /\ f a = Ok b.
Proof. destruct r; simpl; [eauto | discriminate]. Qed.

Lemma wrap64_id z : in_int64 z -> wrap64 z = z.
Proof.
  unfold in_int64, int64_min, int64_max, wrap64. intros H.
  rewrite Z.mod_small; lia.
Qed.

Lemma wrap64_range z : in_int64 (wrap64 z).
Proof.
  unfold in_int64, int64_min, int64_max, wrap64.
  pose proof (Z.mod_pos_bound (z + 2 ^ 63) (2 ^ 64)). lia.
Qed.

#[export] Hint Resolve wrap64_id wrap64_range : onprest.

(* ------------------------------------------------------------------ *)
(** ** Lemmas: loops *)

Section Loop.
Context {S R : Type} (body : S -> S + R).

(** A loop whose variables decrease a measure leaves, with any fuel above it. *)
Lemma loop_total (m : S -> nat) (inv : S -> Prop) :
  (forall s s', inv s -> body s = inl s' -> inv s' /\ (m s' < m s)%nat) ->
  forall fuel s, inv s -> (m s < fuel)%nat -> exists r, loop fuel body s = Some r.
Proof.
  intros Hdec fuel. induction fuel as [|fuel IH]; intros s Hs Hm; [lia|]. simpl.
  destruct (body s) as [s'|r] eqn:E; [|by exists r].
  destruct (Hdec _ _ Hs E) as [Hs' Hlt]. apply IH; [done|lia].
Qed.

(** An invariant of the iterations holds of the iteration that leaves. *)
Lemma loop_inv (inv : S -> Prop) (post : R -> Prop) :
  (forall s s', inv s -> body s = inl s' -> inv s') ->
  (forall s r, inv s -> body s = inr r -> post r) ->
  forall fuel s r, inv s -> loop fuel body s = Some r -> post r.
Proof.
  intros Hstep Hexit fuel. induction fuel as [|fuel IH]; intros s r Hs; [done|]. simpl.
  destruct (body s) as [s'|r'] eqn:E; intros Hl.
  - apply (IH s'); [by apply (Hstep s)|done].
  - injection Hl as <-. by apply (Hexit s).
Qed.

Lemma loop_fuel_mono fuel fuel' s r :
  loop fuel body s = Some r -> (fuel <= fuel')%nat -> loop fuel' body s = Some r.
Proof.
  revert fuel' s. induction fuel as [|fuel IH]; intros fuel' s Hl Hle; [done|].
  destruct fuel' as [|fuel']; [lia|]. simpl in *.
  destruct (body s); [apply IH; [done|lia]|done].
Qed.

(** With fuel above the measure, a loop is its own unfolding. *)
Lemma loop_step (m : S -> nat) (inv : S -> Prop) :
  (forall s s', inv s -> body s = inl s' -> inv s' /\ (m s' < m s)%nat) ->
  forall fuel s, inv s -> (m s < fuel)%nat ->
  loop fuel body s = match body s with inl s' => loop fuel body s' | inr r => Some r end.
Proof.
  intros Hdec fuel s Hs Hm. destruct fuel as [|fuel]; [lia|].
  change (loop (Datatypes.S fuel) body s) with
    (match body s with inl s' => loop fuel body s' | inr r => Some r end).
  destruct (body s) as [s'|r] eqn:E; [|done].
  destruct (Hdec _ _ Hs E) as [Hs' Hlt].
  destruct (loop_total m inv Hdec fuel s' Hs') as [r Hr]; [lia|].
  rewrite Hr. symmetry. apply (loop_fuel_mono _ _ _ _ Hr). lia.
Qed.
End Loop.

(* ------------------------------------------------------------------ *)
(** ** Lemmas: sums over maps *)

Section MSum.
Context `{Countable K} {V : Type} (f : V -> Z).
Implicit Types m : gmap K V.

Lemma msum_empty : msum f (∅ : gmap K V) = 0.
Proof. apply map_fold_empty. Qed.

Lemma msum_insert m k v : m !! k = None -> msum f (<[k := v]> m) = f v + msum f m.
Proof.
  intros Hk. unfold msum. rewrite map_fold_insert_L; [done| |done].
  intros. lia.
Qed.

Lemma msum_delete m k v : m !! k = Some v -> msum f (delete k m) = msum f m - f v.
Proof.
  intros Hk. rewrite <- (insert_delete_id m k v Hk) at 2.
  rewrite msum_insert; [lia|apply lookup_delete_eq].
Qed.

Lemma msum_update m k v v' :
  m !! k = Some v -> msum f (<[k := v']> m) = msum f m - f v + f v'.
Proof.
  intros Hk. rewrite <- insert_delete_eq, msum_insert by apply lookup_delete_eq.
  rewrite (msum_delete m k v Hk). lia.
Qed.

Lemma msum_ext m m' : (forall k, f <$> m !! k = f <$> m' !! k) -> msum f m = msum f m'.
Proof.
  intros Hm. assert (f <$> m = f <$> m') as Hf' by (apply map_eq; intros k; by rewrite !lookup_fmap).
  assert (forall m0 : gmap K V, msum f m0 = map_fold (fun _ (z : Z) acc => z + acc) 0 (f <$> m0)) as Hf.
  { intros m0. unfold msum. by rewrite map_fold_fmap. }
  by rewrite !Hf, Hf'.
Qed.

Lemma msum_bounds m lo hi :
  (forall k v, m !! k = Some v -> lo <= f v <= hi) ->
  lo * Z.of_nat (size m) <= msum f m <= hi * Z.of_nat (size m).
Proof.
  induction m as [|k v m Hk IH] using map_ind; intros Hb.
  - rewrite msum_empty, map_size_empty. lia.
  - rewrite msum_insert, map_size_insert_None by done.
    assert (lo <= f v <= hi) by (apply (Hb k); apply lookup_insert_eq).
    assert (lo * Z.of_nat (size m) <= msum f m <= hi * Z.of_nat (size m)).
    { apply IH. intros k' v' Hk'. apply (Hb k').
      rewrite lookup_insert_ne; [done|]. intros ->. congruence. }
    lia.
Qed.

Lemma msum_nonneg m :
  (forall k v, m !! k = Some v -> 0 <= f v) -> 0 <= msum f m.
Proof.
  induction m as [|k v m Hk IH] using map_ind; intros Hb.
  - rewrite msum_empty. lia.
  - rewrite msum_insert by done.
    assert (0 <= f v) by (apply (Hb k); apply lookup_insert_eq).
    assert (0 <= msum f m); [|lia].
    apply IH. intros k' v' Hk'. apply (Hb k').
    rewrite lookup_insert_ne; [done|]. intros ->. congruence.
Qed.
End MSum.
Lemma msum_agree `{Countable K} {V} (f g : V -> Z) (m : gmap K V) :
  (forall k v, m !! k = Some v -> f v = g v) -> msum f m = msum g m.
Proof.
  induction m as [|k v m Hk IH] using map_ind; intros Hb; [by rewrite !msum_empty|].
  rewrite !msum_insert by done. rewrite (Hb k v) by apply lookup_insert_eq. f_equal. apply IH. intros k' v' Hk'. apply (Hb k').
  rewrite lookup_insert_ne; [done|]. intros ->. congruence.
Qed.

(** A filter that keeps everything. *)
Lemma filter_all {A} (P : A -> Prop) `{!forall x, Decision (P x)} (l : list A) :
  Forall P l -> filter P l = l.
Proof.
  induction 1 as [|x l Hx Hl IH]; [done|].
  rewrite filter_cons_True by done. by rewrite IH.
Qed.

(** A decidable fact of all bytes is proved by enumeration. *)
Lemma byte_forall (P : Z -> bool) :
  forallb P (Z.of_nat <$> seq 0 256) = true -> forall b, is_byte b -> P b = true.
Proof.
  intros H b [Hb1 Hb2]. rewrite forallb_forall in H. apply H.
  apply list_elem_of_In, list_elem_of_fmap. exists (Z.to_nat b). split; [lia|].
  apply elem_of_seq. lia.
Qed.

(** Injectivity that leaves its arguments as they are. *)
Lemma Ok_inj {A} (a b : A) : Ok a = Ok b -> a = b.
Proof. by intros [= ->]. Qed.

(** A concrete string consists of bytes, by evaluation. *)
Lemma bytes_forallb s : forallb (fun c => (0 <=? c) && (c <? 256)) s = true -> Forall is_byte s.
Proof.
  rewrite forallb_forall. intros H. apply Forall_forall. intros c Hc.
  apply list_elem_of_In in Hc. specialize (H c Hc). unfold is_byte. breflect. lia.
Qed.
