(* ===== verification/GoTime.v ===== *)
(** * Go's [time] package, as far as the program uses it

    Instants are nanoseconds on one clock; a duration is an [int64] count of
    nanoseconds.  [time_sub] is [Time.Sub] with its saturation, and
    [ParseDuration] follows the standard library's function, its [float64]
    arithmetic on fractions included (binary64 of [SpecFloat]). *)

From stdpp Require Import gmap strings list.
From Stdlib Require Import ZArith Lia SpecFloat.
From S2P Require Import Prelude.
Open Scope Z_scope.

(* ------------------------------------------------------------------ *)
(** ** Definitions *)

Definition Nanosecond : Z := 1.
Definition Microsecond : Z := 1000 * Nanosecond.
Definition Millisecond : Z := 1000 * Microsecond.
Definition Second : Z := 1000 * Millisecond.
Definition Minute : Z := 60 * Second.
Definition Hour : Z := 60 * Minute.

(** [t.Sub(u)]: the difference, saturated at the extreme durations. *)
Definition time_sub (t u : Z) : Z := Z.max int64_min (Z.min int64_max (t - u)).

(** [t.Before(u)] and [t.After(u)]. *)
Definition time_before (t u : Z) : bool := t <? u.
Definition time_after (t u : Z) : bool := u <? t.

Definition f64_of_Z (z : Z) : spec_float := binary_normalize 53 1024 z 0 false.
Definition f64_mul : spec_float -> spec_float -> spec_float := SFmul 53 1024.
Definition f64_div : spec_float -> spec_float -> spec_float := SFdiv 53 1024.

(** Conversion of a finite nonnegative float to an integer, toward zero. *)
Definition f64_trunc (f : spec_float) : Z :=
  match f with
  | S754_finite false m e => if 0 <=? e then Z.pos m * 2 ^ e else Z.pos m / 2 ^ (- e)
  | _ => 0
  end.

Definition is_digit (c : Z) : bool := (48 <=? c) && (c <=? 57).

(** [leadingInt]: the value, the rest, or [None] on overflow. *)
Fixpoint leading_int (x : Z) (s : bytes) : option (Z * bytes) :=
  match s with
  | c :: s' =>
      if is_digit c then
        if 2 ^ 63 / 10 <? x then None
        else let y := x * 10 + (c - 48) in
             if 2 ^ 63 <? y then None else leading_int y s'
      else Some (x, s)
  | [] => Some (x, s)
  end.

(** [leadingFraction]: the digits read before an overflow, their scale, the rest. *)
Fixpoint leading_fraction (x : Z) (scale : spec_float) (overflow : bool) (s : bytes)
    : Z * spec_float * bytes :=
  match s with
  | c :: s' =>
      if is_digit c then
        if overflow then leading_fraction x scale true s'
        else if (2 ^ 63 - 1) / 10 <? x then leading_fraction x scale true s'
        else let y := x * 10 + (c - 48) in
             if 2 ^ 63 <? y then leading_fraction x scale true s'
             else leading_fraction y (f64_mul scale (f64_of_Z 10)) false s'
      else (x, scale, s)
  | [] => (x, scale, s)
  end.

(** The unit name: everything up to the next digit or dot. *)
Fixpoint unit_name (s : bytes) : bytes * bytes :=
  match s with
  | c :: s' =>
      if (c =? 46) || is_digit c then ([], s)
      else let (u, r) := unit_name s' in (c :: u, r)
  | [] => ([], [])
  end.

Definition unit_map (u : bytes) : option Z :=
  if bytes_eqb u (lit "ns") then Some Nanosecond
  else if bytes_eqb u (lit "us") then Some Microsecond
  else if bytes_eqb u ([194; 181] ++ lit "s") then Some Microsecond
  else if bytes_eqb u ([206; 188] ++ lit "s") then Some Microsecond
  else if bytes_eqb u (lit "ms") then Some Millisecond
  else if bytes_eqb u (lit "s") then Some Second
  else if bytes_eqb u (lit "m") then Some Minute
  else if bytes_eqb u (lit "h") then Some Hour
  else None.

(** The optional [.fraction]: digits, scale, rest, whether it had a digit. *)
Definition duration_fraction (s : bytes) : Z * spec_float * bytes * bool :=
  match s with
  | c :: s' =>
      if c =? 46 then
        let '(f, scale, r) := leading_fraction 0 (f64_of_Z 1) false s' in
        (f, scale, r, negb (length s' =? length r)%nat)
      else (0, f64_of_Z 1, s, false)
  | [] => (0, f64_of_Z 1, s, false)
  end.

(** [v*unit] plus the fraction's nanoseconds, [None] on overflow. *)
Definition duration_value (v f : Z) (scale : spec_float) (unit : Z) : option Z :=
  if 2 ^ 63 / unit <? v then None
  else if 0 <? f then
    let w := v * unit + f64_trunc (f64_mul (f64_of_Z f) (f64_div (f64_of_Z unit) scale)) in
    if 2 ^ 63 <? w then None else Some w
  else Some (v * unit).

(** One iteration of [ParseDuration]'s loop over [(d, s)]. *)
Definition duration_body (st : Z * bytes) : (Z * bytes) + option Z :=
  let (d, s) := st in
  match s with
  | [] => inr (Some d)
  | c :: _ =>
      if negb ((c =? 46) || is_digit c) then inr None else
      match leading_int 0 s with
      | None => inr None
      | Some (v, s1) =>
          let pre := negb (length s =? length s1)%nat in
          let '(f, scale, s2, post) := duration_fraction s1 in
          if negb pre && negb post then inr None else
          let (u, s3) := unit_name s2 in
          if bytes_eqb u [] then inr None else
          match unit_map u with
          | None => inr None
          | Some unit =>
              match duration_value v f scale unit with
              | None => inr None
              | Some w => if 2 ^ 63 <? d + w then inr None else inl (d + w, s3)
              end
          end
      end
  end.

(** The optional sign. *)
Definition duration_sign (s : bytes) : bool * bytes :=
  match s with
  | c :: s' => if (c =? 45) || (c =? 43) then (c =? 45, s') else (false, s)
  | [] => (false, s)
  end.

Definition ParseDuration (s : bytes) : result Z :=
  let (neg, s) := duration_sign s in
  if bytes_eqb s (lit "0") then Ok 0 else
  if bytes_eqb s [] then Err "time: invalid duration" else
  match loop (S (length s)) duration_body (0, s) with
  | Some (Some d) =>
      if neg then Ok (wrap64 (- d))
      else if 2 ^ 63 - 1 <? d then Err "time: invalid duration" else Ok d
  | _ => Err "time: invalid duration"
  end.

(* ------------------------------------------------------------------ *)
(** ** Lemmas *)

Lemma time_sub_exact t u : in_int64 (t - u) -> time_sub t u = t - u.
Proof. unfold in_int64, time_sub. lia. Qed.

Lemma time_sub_pos t u : 0 < time_sub t u <-> u < t.
Proof. unfold time_sub, int64_min, int64_max. lia. Qed.

Lemma time_sub_le t u : u <= t -> 0 <= time_sub t u <= t - u.
Proof. unfold time_sub, int64_min, int64_max. lia. Qed.

Lemma time_sub_range t u : in_int64 (time_sub t u).
Proof. unfold in_int64, time_sub, int64_min, int64_max. lia. Qed.

#[export] Hint Resolve time_sub_range : onprest.

Lemma leading_int_nonneg s x y r :
  0 <= x -> leading_int x s = Some (y, r) -> 0 <= y.
Proof.
  revert x. induction s as [|c s IH]; simpl; intros x Hx; [intros [= <- _]; done|].
  destruct (is_digit c) eqn:D; [|intros [= <- _]; done].
  destruct (2 ^ 63 / 10 <? x); [done|]. cbv zeta.
  destruct (2 ^ 63 <? _); [done|]. apply IH.
  unfold is_digit in D. breflect. lia.
Qed.

Lemma f64_trunc_nonneg f : 0 <= f64_trunc f.
Proof.
  destruct f as [| | |[] m e]; simpl; try lia.
  destruct (0 <=? e) eqn:E; breflect.
  - apply Z.mul_nonneg_nonneg; [lia|]. apply Z.pow_nonneg. lia.
  - apply Z.div_pos; [lia|]. apply Z.pow_pos_nonneg; lia.
Qed.

Lemma unit_map_pos u n : unit_map u = Some n -> 0 < n.
Proof.
  unfold unit_map. repeat case_match; intros [= <-]; unfold Hour, Minute, Second,
    Millisecond, Microsecond, Nanosecond; lia.
Qed.

Lemma duration_value_nonneg v f scale unit w :
  0 <= v -> 0 < unit -> duration_value v f scale unit = Some w -> 0 <= w.
Proof.
  intros Hv Hu. unfold duration_value. cbv zeta.
  pose proof (f64_trunc_nonneg (f64_mul (f64_of_Z f) (f64_div (f64_of_Z unit) scale))) as Ht.
  remember (f64_trunc _) as t.
  repeat case_test; intros [= <-]; nia.
Qed.

Lemma duration_body_nonneg d s d' s' :
  0 <= d -> duration_body (d, s) = inl (d', s') -> 0 <= d'.
Proof.
  intros Hd. unfold duration_body. destruct s as [|c s]; [done|].
  destruct (negb _); [done|].
  destruct (leading_int 0 (c :: s)) as [[v s1]|] eqn:Ev; [|done].
  destruct (duration_fraction s1) as [[[f scale] s2] post].
  destruct (_ && _); [done|]. destruct (unit_name s2) as [u s3].
  destruct (bytes_eqb u []); [done|].
  destruct (unit_map u) as [unit|] eqn:Eu; [|done].
  destruct (duration_value v f scale unit) as [w|] eqn:Ew; [|done].
  destruct (2 ^ 63 <? d + w); [done|]. intros [= <- _].
  apply duration_value_nonneg in Ew; [lia| |by eapply unit_map_pos].
  by eapply leading_int_nonneg; [|exact Ev].
Qed.

Lemma duration_body_exit d s d' : duration_body (d, s) = inr (Some d') -> d' = d.
Proof.
  unfold duration_body. destruct s as [|c s]; [by intros [= ->]|].
  destruct (negb _); [done|].
  destruct (leading_int 0 (c :: s)) as [[v s1]|]; [|done].
  destruct (duration_fraction s1) as [[[f scale] s2] post].
  destruct (_ && _); [done|]. destruct (unit_name s2) as [u s3].
  destruct (bytes_eqb u []); [done|].
  destruct (unit_map u) as [unit|]; [|done].
  destruct (duration_value v f scale unit) as [w|]; [|done].
  by destruct (2 ^ 63 <? d + w).
Qed.

(** A parsed duration is an [int64]. *)
Lemma ParseDuration_range s d : ParseDuration s = Ok d -> in_int64 d.
Proof.
  unfold ParseDuration. destruct (duration_sign s) as [neg s'].
  destruct (bytes_eqb s' (lit "0")); [intros [= <-]; unfold in_int64, int64_min, int64_max; lia|].
  destruct (bytes_eqb s' []); [done|].
  destruct (loop _ _ _) as [[d'|]|] eqn:E; try done.
  destruct neg; [intros [= <-]; apply wrap64_range|].
  destruct (2 ^ 63 - 1 <? d') eqn:Hd; [done|]. intros [= <-]. breflect.
  assert (from_option (Z.le 0) True (Some d')) as Hpos.
  { refine (loop_inv duration_body (fun st => 0 <= st.1) (from_option (Z.le 0) True)
              _ _ _ _ _ _ E); [| |simpl; lia].
    - intros [d1 s1] [d2 s2] Hd1. apply duration_body_nonneg, Hd1.
    - intros [d1 s1] [r|] Hd1 Hb; [|done]. apply duration_body_exit in Hb. by subst. }
  simpl in Hpos. unfold in_int64, int64_min, int64_max. lia.
Qed.

Example parse_duration_ok :
  ParseDuration (lit "1m30s") = Ok (90 * Second) /\
  ParseDuration (lit "1.5h") = Ok (90 * Minute) /\
  ParseDuration (lit "300ms") = Ok (300 * Millisecond) /\
  is_ok (ParseDuration (lit "1")) = false.
Proof. vm_compute. auto. Qed.
