(* ===== verification/RateLimit.v ===== *)
(** * The agent's per-capability rate limiter

    Models [internal/agent/rate_limit.go]: a token bucket whose credit is
    counted in token-nanoseconds on [int64], with every operation of the code on
    its machine width.  [take_spec] is the bucket on unbounded integers that the
    code implements. *)

From stdpp Require Import gmap strings list.
From Stdlib Require Import ZArith Lia.
From S2P Require Import Prelude GoTime.
Open Scope Z_scope.

(* ------------------------------------------------------------------ *)
(** ** Definitions *)

Definition rateLimitRejectionLogInterval : Z := Minute.

Record RateLimitDef := { Requests : Z; Per : bytes; Burst : Z }.

Record capabilityRateLimiter := {
  credit : Z;
  capacity : Z;
  cost : Z;
  refill : Z;
  last : Z;
  lastRejectionLog : Z;
  rejectionLogged : bool;
}.

(** [RateLimitDef.lint] *)
Definition lint (r : RateLimitDef) : result unit :=
  if Requests r <=? 0 then Err "requests must be > 0" else
  if bytes_eqb (Per r) [] then Err "per is required" else
  match ParseDuration (Per r) with
  | Err _ => Err "per is invalid"
  | Ok per =>
      if per <=? 0 then Err "per must be > 0" else
      if Burst r <=? 0 then Err "burst must be > 0" else
      if Z.quot int64_max per <? Burst r then Err "burst and per are too large" else
      Ok tt
  end.

(** [mustRateLimitDuration]; [None] is its panic. *)
Definition mustRateLimitDuration (raw : bytes) : option Z :=
  match ParseDuration raw with
  | Err _ => None
  | Ok d => if d <=? 0 then None else Some d
  end.

Definition newCapabilityRateLimiter (def : RateLimitDef) (now : Z)
    : option capabilityRateLimiter :=
  match mustRateLimitDuration (Per def) with
  | None => None
  | Some per =>
      let cap := wrap64 (Burst def * per) in
      Some {| credit := cap; capacity := cap; cost := per; refill := Requests def;
              last := now; lastRejectionLog := 0; rejectionLogged := false |}
  end.

Definition set_bucket (b : capabilityRateLimiter) (c l : Z) : capabilityRateLimiter :=
  {| credit := c; capacity := capacity b; cost := cost b; refill := refill b;
     last := l; lastRejectionLog := lastRejectionLog b;
     rejectionLogged := rejectionLogged b |}.

(** The refill half of [take]. *)
Definition take_refill (b : capabilityRateLimiter) (now : Z) : capabilityRateLimiter :=
  let elapsed := time_sub now (last b) in
  if 0 <? elapsed then
    let deficit := wrap64 (capacity b - credit b) in
    let c :=
      if 0 <? deficit then
        let fillAfter0 := Z.quot deficit (refill b) in
        let fillAfter := if negb (Z.rem deficit (refill b) =? 0)
                         then wrap64 (fillAfter0 + 1) else fillAfter0 in
        if fillAfter <=? elapsed then capacity b
        else wrap64 (credit b + wrap64 (elapsed * refill b))
      else credit b in
    set_bucket b c now
  else b.

(** [take]: the limiter after the call, [allowed] and [logRejection]. *)
Definition take (b : capabilityRateLimiter) (now : Z)
    : capabilityRateLimiter * bool * bool :=
  let b := take_refill b now in
  if cost b <=? credit b then
    (set_bucket b (wrap64 (credit b - cost b)) (last b), true, false)
  else if negb (rejectionLogged b) ||
          (rateLimitRejectionLogInterval <=? time_sub now (lastRejectionLog b)) then
    ({| credit := credit b; capacity := capacity b; cost := cost b; refill := refill b;
        last := last b; lastRejectionLog := now; rejectionLogged := true |}, false, true)
  else (b, false, false).

(** A run of calls: the final limiter, and the [(allowed, logged)] of each. *)
Fixpoint take_run (b : capabilityRateLimiter) (ts : list Z)
    : capabilityRateLimiter * list (bool * bool) :=
  match ts with
  | [] => (b, [])
  | t :: ts' =>
      let '(b', allowed, logged) := take b t in
      let (b'', out) := take_run b' ts' in
      (b'', (allowed, logged) :: out)
  end.

Definition admitted (out : list (bool * bool)) : Z :=
  Z.of_nat (length (filter (fun p => p.1 = true) out)).

(** The times of the sampled rejections of a run, in order. *)
Fixpoint logged_times (ts : list Z) (out : list (bool * bool)) : list Z :=
  match ts, out with
  | t :: ts', (_, true) :: out' => t :: logged_times ts' out'
  | _ :: ts', _ :: out' => logged_times ts' out'
  | _, _ => []
  end.

(** Each time is at least the log interval after the one before it. *)
Fixpoint log_spaced (prev : option Z) (ts : list Z) : bool :=
  match ts with
  | [] => true
  | t :: ts' =>
      match prev with
      | Some p => rateLimitRejectionLogInterval <=? time_sub t p
      | None => true
      end && log_spaced (Some t) ts'
  end.

(** Calls far enough apart that each one's tokens have been refilled. *)
Fixpoint conforming (b : capabilityRateLimiter) (prev : Z) (ts : list Z) : bool :=
  match ts with
  | [] => true
  | t :: ts' => (cost b <=? refill b * time_sub t prev) && conforming b t ts'
  end.

(** Well-formed limiters: positive parameters, the credit within the bucket, the
    capacity an [int64]. *)
Record bucket_ok (b : capabilityRateLimiter) : Prop := {
  ok_cost : 0 < cost b;
  ok_refill : 0 < refill b <= int64_max;
  ok_credit : 0 <= credit b <= capacity b;
  ok_capacity : capacity b <= int64_max;
}.

(** ** The specification: a token bucket on unbounded integers *)

(** Credit after [elapsed] nanoseconds: refilled without rounding, capped. *)
Definition credit_spec (b : capabilityRateLimiter) (now : Z) : Z :=
  Z.min (capacity b) (credit b + Z.max 0 (time_sub now (last b)) * refill b).

Definition allowed_spec (b : capabilityRateLimiter) (now : Z) : bool :=
  cost b <=? credit_spec b now.

(* ------------------------------------------------------------------ *)
(** ** Lemmas *)

Ltac open_ok H :=
  let A := fresh "Hcost" in let B := fresh "Hrefill" in
  let C := fresh "Hcredit" in let D := fresh "Hcap" in
  destruct H as [A B C D].

(** The clamp before the multiplication: below the fill time the product is
    below the deficit, from the fill time on it reaches it. *)
Lemma fill_time deficit refill elapsed :
  0 < deficit -> 0 < refill ->
  let f := if negb (Z.rem deficit refill =? 0) then Z.quot deficit refill + 1
           else Z.quot deficit refill in
  (elapsed < f -> elapsed * refill < deficit) /\ (f <= elapsed -> deficit <= elapsed * refill).
Proof.
  intros Hd Hr. cbv zeta.
  rewrite Z.rem_mod_nonneg, Z.quot_div_nonneg by lia.
  pose proof (Z.div_mod deficit refill ltac:(lia)) as Hdm.
  pose proof (Z.mod_pos_bound deficit refill Hr) as Hm.
  destruct (deficit mod refill =? 0) eqn:E; simpl; breflect; split; intros; nia.
Qed.

Lemma fill_time_range deficit refill :
  0 < deficit <= int64_max -> 0 < refill ->
  in_int64 (Z.quot deficit refill) /\
  ((Z.rem deficit refill =? 0) = false -> in_int64 (Z.quot deficit refill + 1)).
Proof.
  intros Hd Hr. rewrite Z.rem_mod_nonneg, Z.quot_div_nonneg by lia.
  assert (0 <= deficit / refill <= deficit) as Hq.
  { split; [apply Z.div_pos; lia|]. apply Z.div_le_upper_bound; nia. }
  split; [unfold in_int64, int64_min in *; unfold int64_max in *; lia|].
  intros Hz. breflect.
  assert (deficit / refill < deficit).
  { destruct (Z.eq_dec refill 1) as [->|]; [rewrite Z.mod_1_r in Hz; lia|].
    apply Z.div_lt; lia. }
  unfold in_int64, int64_min, int64_max in *. lia.
Qed.

(** The refill of the code is the refill of the specification: no step of it
    overflows [int64]. *)
Lemma take_refill_spec b now :
  bucket_ok b -> take_refill b now =
    set_bucket b (credit_spec b now) (Z.max (last b) now).
Proof.
  intros Hok. open_ok Hok. unfold take_refill, credit_spec.
  pose proof (time_sub_pos now (last b)) as Hpos.
  pose proof (time_sub_range now (last b)) as Hrng.
  remember (time_sub now (last b)) as el. cbv zeta.
  destruct (0 <? el) eqn:E; breflect.
  2:{ rewrite Z.max_l, Z.mul_0_l, Z.add_0_r, Z.min_r, Z.max_l by lia. by destruct b. }
  rewrite (Z.max_r 0 el), (Z.max_r (last b) now) by lia. f_equal.
  assert (in_int64 (capacity b - credit b)) by (unfold in_int64, int64_min, int64_max in *; lia).
  rewrite (wrap64_id (capacity b - credit b)) by done.
  destruct (0 <? capacity b - credit b) eqn:Ed; breflect; [|nia].
  pose proof (fill_time (capacity b - credit b) (refill b) el ltac:(lia) ltac:(lia)) as Hf.
  destruct (fill_time_range (capacity b - credit b) (refill b)) as [Hq Hq1]; [lia|lia|].
  destruct (Z.rem (capacity b - credit b) (refill b) =? 0) eqn:Er; simpl in *.
  - destruct (_ <=? el) eqn:El; breflect; [rewrite Z.min_l; lia|].
    assert (0 <= el * refill b) by nia.
    assert (el * refill b < capacity b - credit b) by (apply Hf; lia).
    rewrite (wrap64_id (el * refill b)) by (unfold in_int64, int64_min, int64_max in *; lia).
    rewrite wrap64_id by (unfold in_int64, int64_min, int64_max in *; lia). lia.
  - rewrite (wrap64_id (_ + 1)) by auto.
    destruct (_ <=? el) eqn:El; breflect; [rewrite Z.min_l; lia|].
    assert (0 <= el * refill b) by nia.
    assert (el * refill b < capacity b - credit b) by (apply Hf; lia).
    rewrite (wrap64_id (el * refill b)) by (unfold in_int64, int64_min, int64_max in *; lia).
    rewrite wrap64_id by (unfold in_int64, int64_min, int64_max in *; lia). lia.
Qed.

Lemma credit_spec_bounds b now :
  bucket_ok b -> credit b <= credit_spec b now <= capacity b.
Proof. intros Hok. open_ok Hok. unfold credit_spec. nia. Qed.

(** [take], as the specification: the new credit, clock and verdict. *)
Lemma take_spec b now b' a l :
  bucket_ok b -> take b now = (b', a, l) ->
  a = allowed_spec b now /\
  credit b' = credit_spec b now - (if a then cost b else 0) /\
  last b' = Z.max (last b) now /\
  capacity b' = capacity b /\ cost b' = cost b /\ refill b' = refill b.
Proof.
  intros Hok. pose proof (credit_spec_bounds b now Hok) as Hb.
  unfold take, allowed_spec. rewrite take_refill_spec by done.
  open_ok Hok. simpl.
  destruct (cost b <=? credit_spec b now) eqn:E; breflect.
  - intros [= <- <- <-]. simpl.
    rewrite wrap64_id by (unfold in_int64, int64_min, int64_max in *; lia). by repeat split.
  - destruct (_ || _); intros [= <- <- <-]; simpl; rewrite Z.sub_0_r; by repeat split.
Qed.

Lemma bucket_ok_take b now b' a l :
  bucket_ok b -> take b now = (b', a, l) -> bucket_ok b'.
Proof.
  intros Hok Ht. pose proof (credit_spec_bounds b now Hok) as Hb.
  destruct (take_spec _ _ _ _ _ Hok Ht) as (Ha & Hc & _ & Hcap & Hco & Hre).
  open_ok Hok. unfold allowed_spec in Ha.
  split; rewrite ?Hcap, ?Hco, ?Hre; try done.
  destruct a; [symmetry in Ha; breflect|]; lia.
Qed.

#[export] Hint Resolve bucket_ok_take : onprest.

Lemma lint_params def :
  lint def = Ok tt -> Requests def <= int64_max ->
  exists per, mustRateLimitDuration (Per def) = Some per /\ 0 < per /\
    0 < Requests def /\ 0 < Burst def * per <= int64_max.
Proof.
  unfold lint, mustRateLimitDuration.
  destruct (Requests def <=? 0) eqn:E1; [done|].
  destruct (bytes_eqb _ _); [done|].
  destruct (ParseDuration (Per def)) as [per|]; [|done].
  destruct (per <=? 0) eqn:E2; [done|].
  destruct (Burst def <=? 0) eqn:E3; [done|].
  destruct (Z.quot int64_max per <? Burst def) eqn:E4; [done|].
  intros _ _. exists per. breflect. split; [done|]. split; [done|]. split; [done|].
  rewrite Z.quot_div_nonneg in E4 by (unfold int64_max; lia).
  pose proof (Z.mul_div_le int64_max per ltac:(lia)). nia.
Qed.

Lemma take_run_cons b t ts :
  take_run b (t :: ts) =
    ((take_run (take b t).1.1 ts).1,
     ((take b t).1.2, (take b t).2) :: (take_run (take b t).1.1 ts).2).
Proof.
  simpl. destruct (take b t) as [[b' a] l]. simpl. by destruct (take_run b' ts).
Qed.

Lemma admitted_cons a l out : admitted ((a, l) :: out) = (if a then 1 else 0) + admitted out.
Proof. unfold admitted. rewrite filter_cons. simpl. destruct a; case_decide; simpl; try done; lia. Qed.

(** What one call and its refill can spend. *)
Lemma take_budget b t :
  bucket_ok b ->
  let b' := (take b t).1.1 in
  cost b * (if (take b t).1.2 then 1 else 0) + credit b' <=
    credit b + refill b * (last b' - last b) /\ last b <= last b'.
Proof.
  intros Hok. destruct (take b t) as [[b' a] l] eqn:E. simpl.
  destruct (take_spec _ _ _ _ _ Hok E) as (_ & Hc & Hl & _).
  rewrite Hc, Hl. unfold credit_spec. open_ok Hok.
  pose proof (time_sub_pos t (last b)). pose proof (time_sub_le t (last b)).
  split; [|lia]. destruct a; nia.
Qed.

Lemma take_params b t :
  bucket_ok b -> let b' := (take b t).1.1 in
  bucket_ok b' /\ cost b' = cost b /\ refill b' = refill b /\ capacity b' = capacity b.
Proof.
  intros Hok. destruct (take b t) as [[b' a] l] eqn:E. simpl.
  pose proof (take_spec _ _ _ _ _ Hok E). split; [eauto with onprest|]. tauto.
Qed.

(* ------------------------------------------------------------------ *)
(** ** Properties *)

(** a definition that passes lint gives a limiter that satisfies the bucket
    invariant, full, without overflow of its capacity; every [take] keeps the
    invariant. *)
Theorem limiter_invariant def now :
  lint def = Ok tt -> Requests def <= int64_max ->
  exists b, newCapabilityRateLimiter def now = Some b /\ bucket_ok b /\
    credit b = Burst def * cost b /\
    forall ts, bucket_ok (take_run b ts).1.
Proof.
  intros Hl Hr. destruct (lint_params def Hl Hr) as (per & Hm & Hp & Hq & Hb).
  unfold newCapabilityRateLimiter. rewrite Hm.
  assert (in_int64 (Burst def * per)) as Hin
    by (unfold in_int64, int64_min, int64_max in *; lia).
  eexists. split; [reflexivity|].
  match goal with |- bucket_ok ?b /\ _ => assert (bucket_ok b) as Hok end.
  { split; simpl; rewrite ?(wrap64_id _ Hin); lia. }
  split; [done|]. split; [apply wrap64_id, Hin|].
  intros ts. clear -Hok.
  match goal with H : bucket_ok ?x |- _ => generalize dependent x end.
  induction ts as [|t ts IH]; intros b Hok; [done|]. simpl.
  destruct (take b t) as [[b' a] l] eqn:Et.
  specialize (IH b' ltac:(eauto with onprest)).
  by destruct (take_run b' ts).
Qed.

Lemma limiter_invariant_witness :
  exists b, newCapabilityRateLimiter {| Requests := 10; Per := lit "1s"; Burst := 3 |} 0 = Some b /\
    bucket_ok b.
Proof.
  destruct (limiter_invariant {| Requests := 10; Per := lit "1s"; Burst := 3 |} 0)
    as (b & H & Hok & _); [vm_compute; reflexivity|vm_compute; discriminate|].
  exists b. split; assumption.
Defined.

(** C28: [take] is the exact token bucket: the verdict and the credit it leaves are
    those of the unbounded specification, which refills every elapsed nanosecond
    without rounding, so that no [int64] operation of the code overflows. *)
Theorem take_exact b now :
  bucket_ok b ->
  (take b now).1.2 = allowed_spec b now /\
  credit (take b now).1.1 =
    credit_spec b now - (if allowed_spec b now then cost b else 0) /\
  last (take b now).1.1 = Z.max (last b) now.
Proof.
  intros Hok. destruct (take b now) as [[b' a] l] eqn:E. simpl.
  destruct (take_spec _ _ _ _ _ Hok E) as (-> & Hc & Hl & _). auto.
Qed.

Definition full_bucket : capabilityRateLimiter :=
  {| credit := 3 * Second; capacity := 3 * Second; cost := Second; refill := 10;
     last := 0; lastRejectionLog := 0; rejectionLogged := false |}.

Lemma full_bucket_ok : bucket_ok full_bucket.
Proof. split; vm_compute; try split; congruence. Qed.

Lemma take_exact_witness :
  (take full_bucket 5).1.2 = true /\ credit (take full_bucket 5).1.1 = 2 * Second.
Proof.
  destruct (take_exact full_bucket 5 full_bucket_ok) as (H & H' & _).
  rewrite H, H'. vm_compute. split; reflexivity.
Defined.

(** whatever the arrival times, the requests a run admits cost at most the
    credit at its start plus the refill of the time that passes: for a fresh limiter,
    at most [burst + requests * elapsed / per] requests. *)
Theorem admission_bound b ts :
  bucket_ok b ->
  cost b * admitted (take_run b ts).2 <=
    credit b + refill b * (last (take_run b ts).1 - last b).
Proof.
  intros Hok. cut (cost b * admitted (take_run b ts).2 + credit (take_run b ts).1 <=
    credit b + refill b * (last (take_run b ts).1 - last b) /\ bucket_ok (take_run b ts).1).
  { intros [H Hok']. open_ok Hok'. lia. }
  revert b Hok. induction ts as [|t ts IH]; intros b Hok.
  { simpl. replace (admitted []) with 0 by done. split; [lia|done]. }
  rewrite take_run_cons. cbn [fst snd]. rewrite admitted_cons.
  destruct (take_budget b t Hok) as [Hb Hl].
  destruct (take_params b t Hok) as (Hok' & Hco & Hre & _).
  destruct (IH _ Hok') as [Hi Hok'']. rewrite Hco, Hre in Hi. split; [lia|done].
Qed.

Lemma admission_bound_witness :
  admitted (take_run full_bucket [0; 0; 0; 0; 0]).2 = 3 /\
  cost full_bucket * admitted (take_run full_bucket [0; 0; 0; 0; 0]).2 <= 3 * Second.
Proof.
  split; [vm_compute; reflexivity|].
  exact (admission_bound full_bucket [0; 0; 0; 0; 0] full_bucket_ok).
Defined.

(** a client that leaves at least [per/requests] between its calls is never
    rejected. *)
Theorem conforming_admitted b ts :
  bucket_ok b -> cost b <= capacity b -> conforming b (last b) ts = true ->
  Forall (fun p => p.1 = true) (take_run b ts).2.
Proof.
  revert b. induction ts as [|t ts IH]; intros b Hok Hcap Hc; [constructor|].
  rewrite take_run_cons. cbn [snd]. simpl in Hc. breflect.
  pose proof (take_params b t Hok) as (Hok' & Hco & Hre & Hca).
  destruct (take b t) as [[b' a] l] eqn:E. cbn [fst snd] in *.
  destruct (take_spec _ _ _ _ _ Hok E) as (Ha & _ & Hl & _).
  assert (0 < time_sub t (last b)) as Hpos by (clear -Hok H; open_ok Hok; nia).
  constructor.
  - simpl. rewrite Ha. unfold allowed_spec, credit_spec. apply Z.leb_le.
    open_ok Hok. rewrite Z.max_r by lia. apply Z.min_glb; lia.
  - apply IH; [done|lia|]. apply (proj1 (time_sub_pos _ _)) in Hpos.
    rewrite Hl, Z.max_r by lia. clear -H0 Hco Hre. revert H0.
    generalize t. induction ts as [|u ts IH]; intros v; simpl; [done|].
    rewrite Hco, Hre. intros [-> ?]%andb_true_iff. simpl. auto.
Qed.

Lemma conforming_admitted_witness :
  Forall (fun p => p.1 = true)
    (take_run full_bucket [Second; 2 * Second; 3 * Second; 4 * Second]).2.
Proof.
  apply (conforming_admitted full_bucket [Second; 2 * Second; 3 * Second; 4 * Second]).
  - exact full_bucket_ok.
  - vm_compute. congruence.
  - vm_compute. reflexivity.
Defined.

(** the sampled rejections of a fresh limiter are at least the log interval
    apart, whatever the request times. *)
Theorem rejection_log_spaced b ts :
  rejectionLogged b = false ->
  log_spaced None (logged_times ts (take_run b ts).2) = true.
Proof.
  intros Hb.
  cut (forall b, log_spaced (if rejectionLogged b then Some (lastRejectionLog b) else None)
                  (logged_times ts (take_run b ts).2) = true).
  { intros H. specialize (H b). by rewrite Hb in H. }
  clear b Hb. induction ts as [|t ts IH]; intros b; [done|].
  rewrite take_run_cons. cbn [snd]. cbn [logged_times].
  specialize (IH (take b t).1.1). revert IH. unfold take.
  assert (forall c, rejectionLogged (take_refill c t) = rejectionLogged c /\
    lastRejectionLog (take_refill c t) = lastRejectionLog c) as Hr.
  { intros c. unfold take_refill. cbv zeta. by destruct (0 <? _). }
  destruct (Hr b) as [Hr1 Hr2]. cbv zeta.
  destruct (cost _ <=? credit _); cbn [fst snd]; [simpl; by rewrite Hr1, Hr2|].
  rewrite Hr1, Hr2.
  destruct (rejectionLogged b) eqn:El; cbn [negb orb].
  - destruct (_ <=? time_sub t _) eqn:Ei; cbn [fst snd]; [|by rewrite Hr1, Hr2].
    simpl. by rewrite Ei.
  - simpl. auto.
Qed.

Lemma rejection_log_spaced_witness :
  log_spaced None (logged_times [0; 0; 0; 0; 0; 1; 2] (take_run full_bucket [0; 0; 0; 0; 0; 1; 2]).2)
    = true.
Proof. apply (rejection_log_spaced full_bucket [0; 0; 0; 0; 0; 1; 2]). reflexivity. Defined.
