(* ===== verification/Scheduler.v ===== *)
(** * The WebSocket write scheduler

    Models [internal/ws/scheduler.go].  [Scheduler] is the struct; [Post] and
    [next] are the two critical sections under its mutex, and [step] interleaves
    them with the loop of [Run], whose program counter is explicit: the jobs a
    [Run] has been given and the results it has sent are part of the state, so
    that the theorems can speak about every job.  The type of jobs is a
    parameter; a job's outcome is chosen by its environment. *)

From stdpp Require Import gmap strings list fin_maps.
From Stdlib Require Import ZArith Lia.
From S2P Require Import Prelude.

(* ------------------------------------------------------------------ *)
(** ** Definitions *)

(** The errors [Run] tells apart with [errors.Is]. *)
Inductive sched_error :=
| Canceled
| DeadlineExceeded
| OtherError (msg : string).

(** [!errors.Is(e, context.Canceled) && !errors.Is(e, context.DeadlineExceeded)] *)
Definition fatal (e : sched_error) : bool :=
  match e with OtherError _ => true | _ => false end.

(** The queue a job is posted to. *)
Inductive class :=
| Control
| Normal
| Transfer (id : bytes).

#[export] Instance class_eq_dec : EqDecision class.
Proof. solve_decision. Defined.

Section Scheduler.
Context {J : Type}.
Local Open Scope nat_scope.

Record Scheduler := {
  ctx_err : option sched_error;
  control : list J;
  normal : list J;
  transfers : gmap bytes (list J);
  order : list bytes;
  wake : bool;
  failed : option sched_error;
  lastNormal : bool;
}.

Definition NewScheduler : Scheduler :=
  {| ctx_err := None; control := []; normal := []; transfers := ∅; order := [];
     wake := false; failed := None; lastNormal := false |}.

(** The queues and the wake-up flag; [notify] leaves the flag set. *)
Definition set_queues (s : Scheduler) (c n : list J) (t : gmap bytes (list J))
    (o : list bytes) (w ln : bool) : Scheduler :=
  {| ctx_err := ctx_err s; control := c; normal := n; transfers := t; order := o;
     wake := w; failed := failed s; lastNormal := ln |}.

Definition notify (s : Scheduler) : Scheduler :=
  set_queues s (control s) (normal s) (transfers s) (order s) true (lastNormal s).

(** [s.transfers[id]], nil when absent. *)
Definition transfer_queue (s : Scheduler) (id : bytes) : list J :=
  default [] (transfers s !! id).

(** [Post]: the state after it, and its error. *)
Definition Post (s : Scheduler) (priority : bool) (transfer : bytes) (j : J)
    : Scheduler * option sched_error :=
  match failed s with
  | Some e => (s, Some e)
  | None =>
  match ctx_err s with
  | Some e => (s, Some e)
  | None =>
      if priority then
        if 256 <=? length (control s) then (s, Some (OtherError "control queue is full"))
        else (notify (set_queues s (control s ++ [j]) (normal s) (transfers s) (order s)
                        (wake s) (lastNormal s)), None)
      else if bytes_eqb transfer [] then
        if 128 <=? length (normal s) then (s, Some (OtherError "request queue is full"))
        else (notify (set_queues s (control s) (normal s ++ [j]) (transfers s) (order s)
                        (wake s) (lastNormal s)), None)
      else
        let q := transfer_queue s transfer in
        if 5 <=? length q then (s, Some (OtherError "transfer queue is full"))
        else
          let o := if length q =? 0 then order s ++ [transfer] else order s in
          (notify (set_queues s (control s) (normal s) (<[transfer := q ++ [j]]> (transfers s))
                     o (wake s) (lastNormal s)), None)
  end
  end.

(** The queue [Post] uses. *)
Definition post_class (priority : bool) (transfer : bytes) : class :=
  if priority then Control else if bytes_eqb transfer [] then Normal else Transfer transfer.

(** [next]: the job it takes, with its queue, and the state after it. *)
Definition next (s : Scheduler) : option (class * J * Scheduler) :=
  match control s with
  | j :: c => Some (Control, j, set_queues s c (normal s) (transfers s) (order s) (wake s) (lastNormal s))
  | [] =>
      let take_transfer :=
        match order s with
        | [] => None
        | id :: o =>
            match transfer_queue s id with
            | [] => None
            | j :: q =>
                if 0 <? length q
                then Some (Transfer id, j, set_queues s (control s) (normal s)
                             (<[id := q]> (transfers s)) (o ++ [id]) (wake s) false)
                else Some (Transfer id, j, set_queues s (control s) (normal s)
                             (delete id (transfers s)) o (wake s) false)
            end
        end in
      match normal s with
      | j :: n =>
          if (length (order s) =? 0) || negb (lastNormal s)
          then Some (Normal, j, set_queues s (control s) n (transfers s) (order s) (wake s) true)
          else take_transfer
      | [] => take_transfer
      end
  end.

(** The jobs of every queue, as [Run]'s deferred drain walks them. *)
Definition queued (s : Scheduler) : list J :=
  control s ++ normal s ++ concat ((map_to_list (transfers s)).*2).

(** ** The [Run] goroutine *)

Inductive pc :=
| AtNext                          (* about to call next *)
| Waiting                         (* in the select *)
| Got (j : J)                     (* holds the job next returned *)
| Leaving                         (* returning: the deferred drain is next *)
| Exited.

Record system := {
  sched : Scheduler;
  run_pc : pc;
  accepted : list (class * J);               (* jobs Post accepted, in order *)
  popped : list (class * J);                 (* jobs next returned, in order *)
  answers : list (J * option sched_error);   (* sends on result channels *)
}.

Definition init_system : system :=
  {| sched := NewScheduler; run_pc := AtNext; accepted := []; popped := []; answers := [] |}.

Definition set_failed (s : Scheduler) (e : sched_error) : Scheduler :=
  {| ctx_err := ctx_err s; control := control s; normal := normal s;
     transfers := transfers s; order := order s; wake := wake s;
     failed := Some e; lastNormal := lastNormal s |}.

Definition cancel_ctx (s : Scheduler) (e : sched_error) : Scheduler :=
  {| ctx_err := Some e; control := control s; normal := normal s;
     transfers := transfers s; order := order s; wake := wake s;
     failed := failed s; lastNormal := lastNormal s |}.

(** The deferred drain: every queued job gets [failed], or [Canceled]. *)
Definition drain_error (s : Scheduler) : sched_error := default Canceled (failed s).
Definition drain_answers (s : Scheduler) : list (J * option sched_error) :=
  (fun j => (j, Some (drain_error s))) <$> queued s.
Definition drained (s : Scheduler) : Scheduler :=
  set_queues s [] [] ∅ [] (wake s) (lastNormal s).

Definition goto (x : system) (s : Scheduler) (p : pc) (ans : list (J * option sched_error))
    : system :=
  {| sched := s; run_pc := p; accepted := accepted x; popped := popped x;
     answers := answers x ++ ans |}.

(** One step of the posters, of the environment, or of [Run]. *)
Inductive step : system -> system -> Prop :=
| step_post x pr tr j s' :
    Post (sched x) pr tr j = (s', None) ->
    step x {| sched := s'; run_pc := run_pc x;
              accepted := accepted x ++ [(post_class pr tr, j)];
              popped := popped x; answers := answers x |}
| step_cancel x e :
    ctx_err (sched x) = None -> step x (goto x (cancel_ctx (sched x) e) (run_pc x) [])
| step_next x c j s' :
    run_pc x = AtNext -> next (sched x) = Some (c, j, s') ->
    step x {| sched := s'; run_pc := Got j; accepted := accepted x;
              popped := popped x ++ [(c, j)]; answers := answers x |}
| step_idle x :
    run_pc x = AtNext -> next (sched x) = None -> step x (goto x (sched x) Waiting [])
| step_wake x :
    run_pc x = Waiting -> wake (sched x) = true ->
    step x (goto x (set_queues (sched x) (control (sched x)) (normal (sched x))
                      (transfers (sched x)) (order (sched x)) false (lastNormal (sched x)))
              AtNext [])
| step_done x e :
    run_pc x = Waiting -> ctx_err (sched x) = Some e -> step x (goto x (sched x) Leaving [])
| step_ctx_exit x j e :
    run_pc x = Got j -> ctx_err (sched x) = Some e ->
    step x (goto x (sched x) Leaving [(j, Some e)])
| step_job_canceled x j e :
    run_pc x = Got j -> ctx_err (sched x) = None -> fatal e = false ->
    step x (goto x (sched x) AtNext [(j, Some e)])
| step_job_ok x j e :
    run_pc x = Got j -> ctx_err (sched x) = None ->
    match e with Some e => fatal e = false | None => True end ->
    step x (goto x (sched x) AtNext [(j, e)])
| step_job_fatal x j e :
    run_pc x = Got j -> ctx_err (sched x) = None -> fatal e = true ->
    step x (goto x (set_failed (sched x) e) Leaving [(j, Some e)])
| step_drain x :
    run_pc x = Leaving ->
    step x (goto x (drained (sched x)) Exited (drain_answers (sched x))).

(** What the theorems speak about: the queue of a class, and the jobs of a class
    in a history. *)
Definition queue_of (s : Scheduler) (c : class) : list J :=
  match c with
  | Control => control s
  | Normal => normal s
  | Transfer id => transfer_queue s id
  end.

Definition of_class (c : class) (l : list (class * J)) : list J :=
  (filter (fun p => p.1 = c) l).*2.

(** The job [Run] holds between [next] and its answer. *)
Definition held (p : pc) : list J := match p with Got j => [j] | _ => [] end.

(** The queues are bounded, and [order] lists once each transfer with jobs. *)
Record wf (s : Scheduler) : Prop := {
  wf_control : length (control s) <= 256;
  wf_normal : length (normal s) <= 128;
  wf_order : NoDup (order s);
  wf_dom : forall id, id ∈ order s <-> is_Some (transfers s !! id);
  wf_queue : forall id q, transfers s !! id = Some q -> 1 <= length q <= 5;
}.

(** [Post]s of ordinary traffic and calls of [next], with the classes taken. *)
Inductive pick_run : Scheduler -> list class -> Scheduler -> Prop :=
| pick_nil s : pick_run s [] s
| pick_post s tr j s1 l s2 :
    Post s false tr j = (s1, None) -> pick_run s1 l s2 -> pick_run s l s2
| pick_next s c j s1 l s2 :
    next s = Some (c, j, s1) -> pick_run s1 l s2 -> pick_run s (c :: l) s2.

Definition reachable (x : system) : Prop := rtc step init_system x.


(* ------------------------------------------------------------------ *)
(** ** Lemmas: the critical sections *)

(** Case analysis of an accepted [Post]. *)
Lemma post_cases s pr tr j s' :
  Post s pr tr j = (s', None) ->
  failed s = None /\ ctx_err s = None /\
  ((pr = true /\ length (control s) < 256 /\
    s' = set_queues s (control s ++ [j]) (normal s) (transfers s) (order s) true (lastNormal s)) \/
   (pr = false /\ tr = [] /\ length (normal s) < 128 /\
    s' = set_queues s (control s) (normal s ++ [j]) (transfers s) (order s) true (lastNormal s)) \/
   (pr = false /\ tr <> [] /\ length (transfer_queue s tr) < 5 /\
    s' = set_queues s (control s) (normal s) (<[tr := transfer_queue s tr ++ [j]]> (transfers s))
           (if length (transfer_queue s tr) =? 0 then order s ++ [tr] else order s)
           true (lastNormal s))).
Proof.
  unfold Post. destruct (failed s); [done|]. destruct (ctx_err s); [done|].
  destruct pr.
  - destruct (256 <=? _) eqn:E; [done|]. intros [= <-]. breflect. naive_solver.
  - unfold bytes_eqb. case_bool_decide.
    + destruct (128 <=? _) eqn:E; [done|]. intros [= <-]. breflect. naive_solver.
    + cbv zeta. destruct (5 <=? _) eqn:E; [done|]. intros [= <-]. breflect.
      do 2 (split; [done|]). right. right. done.
Qed.

(** Case analysis of a call of [next]. *)
Lemma next_cases s c j s' :
  next s = Some (c, j, s') ->
  (c = Control /\ exists l, control s = j :: l /\
     s' = set_queues s l (normal s) (transfers s) (order s) (wake s) (lastNormal s)) \/
  (c = Normal /\ control s = [] /\ (order s = [] \/ lastNormal s = false) /\
   exists l, normal s = j :: l /\
     s' = set_queues s (control s) l (transfers s) (order s) (wake s) true) \/
  (exists id o q, c = Transfer id /\ control s = [] /\ order s = id :: o /\
     (normal s = [] \/ lastNormal s = true) /\ transfer_queue s id = j :: q /\
     s' = set_queues s (control s) (normal s)
            (if 0 <? length q then <[id := q]> (transfers s) else delete id (transfers s))
            (if 0 <? length q then o ++ [id] else o) (wake s) false).
Proof.
  unfold next. destruct (control s) as [|jc lc]; [|intros [= <- <- <-]; left; eauto].
  cbv zeta.
  set (tt := match order s with [] => None | _ => _ end).
  assert (tt = Some (c, j, s') -> (normal s = [] \/ lastNormal s = true) ->
    exists id o q, c = Transfer id /\ [] = @nil J /\ order s = id :: o /\
     (normal s = [] \/ lastNormal s = true) /\ transfer_queue s id = j :: q /\
     s' = set_queues s [] (normal s)
            (if 0 <? length q then <[id := q]> (transfers s) else delete id (transfers s))
            (if 0 <? length q then o ++ [id] else o) (wake s) false) as Htt.
  { unfold tt. destruct (order s) as [|id o]; [done|].
    destruct (transfer_queue s id) as [|jt q] eqn:Eq; [done|].
    destruct (0 <? length q) eqn:El; intros [= <- <- <-] Hn;
      exists id, o, q; rewrite El; naive_solver. }
  destruct (normal s) as [|jn ln] eqn:En; [intros H; right; right; apply Htt; auto|].
  destruct (_ || _) eqn:Eb.
  - intros [= <- <- <-]. right. left. breflect. split; [done|]. split; [done|].
    split; [|eauto]. destruct Eb; breflect; [left; by apply length_zero_iff_nil|by right].
  - breflect. intros H'. right. right. apply Htt; auto.
Qed.

Lemma transfer_queue_insert s c n m o w l id id' q :
  transfer_queue (set_queues s c n (<[id := q]> m) o w l) id' =
    if decide (id' = id) then q else default [] (m !! id').
Proof.
  unfold transfer_queue. simpl. rewrite lookup_insert.
  repeat case_decide; subst; done.
Qed.

Lemma transfer_queue_delete s c n m o w l id id' :
  transfer_queue (set_queues s c n (delete id m) o w l) id' =
    if decide (id' = id) then [] else default [] (m !! id').
Proof.
  unfold transfer_queue. simpl. rewrite lookup_delete.
  repeat case_decide; subst; done.
Qed.

Lemma post_queue s pr tr j s' :
  Post s pr tr j = (s', None) ->
  forall c, queue_of s' c =
    queue_of s c ++ (if decide (c = post_class pr tr) then [j] else []).
Proof.
  intros Hp c. apply post_cases in Hp as (_ & _ & [(-> & _ & ->)|[(-> & -> & _ & ->)|(-> & Ht & _ & ->)]]);
    unfold post_class; simpl.
  1,2: destruct c; simpl; repeat case_decide; simplify_eq; rewrite ?app_nil_r; try done.
  assert (bytes_eqb tr [] = false) as -> by (unfold bytes_eqb; by case_bool_decide).
  destruct c as [| |id]; cbn [queue_of]; rewrite ?transfer_queue_insert; simpl;
    repeat case_decide; simplify_eq; rewrite ?app_nil_r; done.
Qed.

Lemma next_queue s c j s' :
  next s = Some (c, j, s') ->
  forall c', queue_of s c' = (if decide (c' = c) then [j] else []) ++ queue_of s' c'.
Proof.
  intros Hn c'.
  apply next_cases in Hn as [(-> & l & Hc & ->)|[(-> & Hc & _ & l & Hl & ->)|
    (id & o & q & -> & Hc & Ho & _ & Hq & ->)]].
  1,2: destruct c'; simpl; repeat case_decide; simplify_eq; rewrite ?Hc, ?Hl; done.
  destruct c' as [| |id']; simpl; [repeat case_decide; done..|].
  destruct (0 <? length q) eqn:E; rewrite ?transfer_queue_insert, ?transfer_queue_delete;
    repeat case_decide; simplify_eq; try done.
  breflect. destruct q; [done|]. simpl in E. lia.
Qed.

Lemma queued_insert (m : gmap bytes (list J)) id q :
  concat ((map_to_list (<[id := q]> m)).*2) ≡ₚ
    q ++ concat ((map_to_list (delete id m)).*2).
Proof.
  rewrite <- insert_delete_eq, map_to_list_insert by apply lookup_delete_eq. done.
Qed.

Lemma queued_lookup (m : gmap bytes (list J)) id :
  concat ((map_to_list m).*2) ≡ₚ
    default [] (m !! id) ++ concat ((map_to_list (delete id m)).*2).
Proof.
  destruct (m !! id) as [q|] eqn:E; simpl.
  - by rewrite <- (insert_id m id q E) at 1; rewrite queued_insert.
  - by rewrite delete_id.
Qed.

Lemma post_queued s pr tr j s' :
  Post s pr tr j = (s', None) -> queued s' ≡ₚ j :: queued s.
Proof.
  intros Hp. apply post_cases in Hp as (_ & _ & [(_ & _ & ->)|[(_ & _ & _ & ->)|(_ & _ & _ & ->)]]);
    unfold queued; simpl.
  - rewrite <- app_assoc. simpl. by rewrite <- Permutation_middle.
  - rewrite <- !app_assoc. simpl. by rewrite <- !Permutation_middle.
  - rewrite queued_insert, (queued_lookup (transfers s) tr). fold (transfer_queue s tr).
    rewrite <- app_assoc. simpl. by rewrite <- !Permutation_middle.
Qed.

Lemma next_queued s c j s' : next s = Some (c, j, s') -> queued s ≡ₚ j :: queued s'.
Proof.
  intros Hn.
  apply next_cases in Hn as [(-> & l & Hc & ->)|[(-> & Hc & _ & l & Hl & ->)|
    (id & o & q & -> & Hc & Ho & _ & Hq & ->)]]; unfold queued; simpl.
  - by rewrite Hc.
  - by rewrite Hc, Hl.
  - rewrite Hc. simpl. rewrite (queued_lookup (transfers s) id). fold (transfer_queue s id).
    rewrite Hq. destruct (0 <? length q) eqn:E.
    + rewrite queued_insert. simpl. by rewrite <- Permutation_middle.
    + breflect. destruct q; [|simpl in E; lia]. simpl. by rewrite <- Permutation_middle.
Qed.

(** ** Lemmas: the invariant *)

Lemma wf_new : wf NewScheduler.
Proof.
  split; simpl; try lia; [constructor| |by intros ?? ?].
  intros id. rewrite lookup_empty, elem_of_nil. split; [done|by intros [? ?]].
Qed.

Lemma wf_absent s id : wf s -> length (transfer_queue s id) = 0 <-> transfers s !! id = None.
Proof.
  intros Hw. unfold transfer_queue. destruct (transfers s !! id) as [q|] eqn:E; simpl; [|done].
  apply (wf_queue s Hw) in E. split; [lia|done].
Qed.

Lemma wf_post s pr tr j s' : wf s -> Post s pr tr j = (s', None) -> wf s'.
Proof.
  intros Hw Hp. pose proof (wf_absent s tr Hw) as Ha.
  apply post_cases in Hp as (_ & _ & [(_ & Hl & ->)|[(_ & _ & Hl & ->)|(_ & _ & Hl & ->)]]);
    destruct Hw as [H1 H2 H3 H4 H5]; split; simpl; rewrite ?length_app; simpl; try done; try lia.
  - destruct (_ =? 0) eqn:E; breflect; [|done]. apply NoDup_app.
    split; [done|]. split; [|apply NoDup_singleton].
    intros id Hid ->%list_elem_of_singleton. apply H4 in Hid as [q Hq].
    rewrite (proj1 Ha E) in Hq. done.
  - intros id. rewrite lookup_insert. case_decide; subst.
    + split; [eauto|]. intros _. destruct (_ =? 0) eqn:E; breflect; [set_solver|].
      apply H4. destruct (transfers s !! id) eqn:Et; [eauto|]. exfalso. apply E. by apply Ha.
    + destruct (_ =? 0); [|apply H4]. rewrite elem_of_app, list_elem_of_singleton, H4. naive_solver.
  - intros id q. rewrite lookup_insert. case_decide; [|apply H5].
    intros [= <-]. rewrite length_app. simpl. lia.
Qed.

Lemma wf_next s c j s' : wf s -> next s = Some (c, j, s') -> wf s'.
Proof.
  intros [H1 H2 H3 H4 H5] Hn.
  apply next_cases in Hn as [(-> & l & Hc & ->)|[(-> & Hc & _ & l & Hl & ->)|
    (id & o & q & -> & Hc & Ho & _ & Hq & ->)]]; try (split; simpl; rewrite ?Hc, ?Hl in *; simpl in *; done || lia).
  assert (exists q0, transfers s !! id = Some q0 /\ q0 = j :: q) as (q0 & Hq0 & ->).
  { unfold transfer_queue in Hq. destruct (transfers s !! id); simpl in Hq; [eauto|done]. }
  specialize (H5 _ _ Hq0) as Hlen. simpl in Hlen.
  rewrite Ho in H3, H4. apply NoDup_cons in H3 as [Hni Hnd].
  split; simpl; try done; destruct (0 <? length q) eqn:E; breflect; try done.
  - apply NoDup_app. split; [done|]. split; [set_solver|apply NoDup_singleton].
  - intros id'. rewrite lookup_insert. specialize (H4 id'). case_decide; subst; set_solver.
  - intros id'. rewrite lookup_delete. specialize (H4 id'). case_decide; subst.
    + split; [done|by intros [? ?]].
    + rewrite <- H4. set_solver.
  - intros id' q'. rewrite lookup_insert. case_decide; [|apply H5]. intros [= <-]. lia.
  - intros id' q'. rewrite lookup_delete. case_decide; [done|apply H5].
Qed.

(** [next] finds a job whenever a queue holds one: its empty answer means every
    queue is empty, and its indexing of a transfer queue is in range. *)
Lemma next_None s : wf s -> next s = None -> queued s = [].
Proof.
  intros Hw. unfold next. destruct (control s) eqn:Ec; [|done]. cbv zeta.
  destruct (order s) as [|id o] eqn:Eo.
  - destruct (normal s) eqn:En; [|done]. intros _. unfold queued. rewrite Ec, En. simpl.
    assert (transfers s = ∅) as ->; [|by rewrite map_to_list_empty].
    apply map_eq. intros id. rewrite lookup_empty.
    destruct (transfers s !! id) eqn:E; [|done].
    assert (id ∈ order s) as Hid by (apply (wf_dom s Hw); eauto).
    rewrite Eo in Hid. by apply elem_of_nil in Hid.
  - assert (exists j q, transfer_queue s id = j :: q) as (j & q & Hq).
    { assert (is_Some (transfers s !! id)) as [q0 Hq0].
      { apply (wf_dom s Hw). rewrite Eo. set_solver. }
      pose proof (wf_queue s Hw _ _ Hq0). unfold transfer_queue. rewrite Hq0. simpl.
      destruct q0; [simpl in *; lia|eauto]. }
    rewrite Hq. destruct (normal s); repeat case_test; done.
Qed.

(** The invariant of the interleaved system. *)
Record sys_inv (x : system) : Prop := {
  inv_wf : wf (sched x);
  inv_once : (accepted x).*2 ≡ₚ (answers x).*1 ++ held (run_pc x) ++ queued (sched x);
  inv_fifo : run_pc x <> Exited -> forall c,
    of_class c (accepted x) = of_class c (popped x) ++ queue_of (sched x) c;
  inv_wake : run_pc x = Waiting -> wake (sched x) = true \/ queued (sched x) = [];
  inv_stop : run_pc x = Leaving \/ run_pc x = Exited ->
    failed (sched x) <> None \/ ctx_err (sched x) <> None;
  inv_exit : run_pc x = Exited -> queued (sched x) = [];
}.

Lemma of_class_app c l1 l2 : of_class c (l1 ++ l2) = of_class c l1 ++ of_class c l2.
Proof. unfold of_class. by rewrite filter_app, fmap_app. Qed.

Lemma of_class_one c c' j : of_class c [(c', j)] = if decide (c = c') then [j] else [].
Proof. unfold of_class. rewrite filter_cons, filter_nil. simpl. repeat case_decide; subst; done. Qed.

(** A step that leaves the queues alone and answers the job it held. *)
Lemma sys_inv_goto x s p ans :
  sys_inv x -> run_pc x <> Exited -> wf s ->
  queued s = queued (sched x) -> (forall c, queue_of s c = queue_of (sched x) c) ->
  ans.*1 ++ held p = held (run_pc x) ->
  (p = Waiting -> wake s = true \/ queued s = []) ->
  (p = Leaving -> failed s <> None \/ ctx_err s <> None) -> p <> Exited ->
  sys_inv (goto x s p ans).
Proof.
  intros [Hwf Hon Hfi _ _ _] Hpc Hs Hq Hqc Hans Hw Hl Hp. split; simpl; try done.
  - rewrite fmap_app, Hq, <- app_assoc, (app_assoc (ans.*1)), Hans. done.
  - intros _ c. by rewrite Hqc, <- Hfi.
  - intros [H|H]; [by apply Hl|done].
Qed.

Lemma sys_inv_step x y : sys_inv x -> step x y -> sys_inv y.
Proof.
  intros Hi Hst. pose proof Hi as [Hwf Hon Hfi Hwa Hstop Hex].
  destruct Hst as [x pr tr j s' Hp|x e Hc|x c j s' Hpc Hn|x Hpc Hn|x Hpc Hw|x e Hpc Hc|
    x j e Hpc Hc|x j e Hpc Hc _|x j e Hpc Hc _|x j e Hpc Hc _|x Hpc].
  - pose proof (post_cases _ _ _ _ _ Hp) as (Hf & Hc & _).
    assert (run_pc x <> Leaving /\ run_pc x <> Exited) as [Hl He].
    { split; intros Hr; destruct Hstop; auto. }
    split; simpl; try tauto.
    + by eapply wf_post.
    + rewrite fmap_app, (post_queued _ _ _ _ _ Hp), Hon. simpl.
      by rewrite <- !Permutation_middle, app_nil_r.
    + intros _ c. rewrite of_class_app, of_class_one, (post_queue _ _ _ _ _ Hp), app_assoc.
      by rewrite Hfi.
    + intros _. left. apply post_cases in Hp as (_ & _ & Hp). naive_solver.
  - split; simpl; rewrite ?app_nil_r; auto. by destruct Hwf.
  - split; simpl; try done; try by intros [?|?].
    + by eapply wf_next.
    + rewrite Hon, Hpc, (next_queued _ _ _ _ Hn). simpl. done.
    + intros _ c'. rewrite of_class_app, of_class_one, <- app_assoc, <- (next_queue _ _ _ _ Hn).
      apply Hfi. by rewrite Hpc.
  - apply sys_inv_goto; rewrite ?Hpc; try done. intros _. right. by apply next_None.
  - apply sys_inv_goto; rewrite ?Hpc; try done. destruct Hwf. by split.
  - apply sys_inv_goto; rewrite ?Hpc; try done. intros _. right. by rewrite Hc.
  - apply sys_inv_goto; rewrite ?Hpc; try done. intros _. right. by rewrite Hc.
  - apply sys_inv_goto; rewrite ?Hpc; try done.
  - apply sys_inv_goto; rewrite ?Hpc; try done.
  - apply sys_inv_goto; rewrite ?Hpc; try done; [destruct Hwf; by split|]. intros _. by left.
  - split; simpl; try done.
    + destruct Hwf. split; simpl; try lia; [constructor| |by intros ?? ?].
      intros id. rewrite lookup_empty, elem_of_nil. split; [done|by intros [? ?]].
    + rewrite fmap_app, Hon, Hpc. unfold drain_answers, queued at 3. simpl.
      rewrite map_to_list_empty, <- list_fmap_compose. simpl.
      rewrite app_nil_r. f_equiv. by rewrite list_fmap_id.
    + auto.
Qed.

Lemma sys_inv_reachable x : reachable x -> sys_inv x.
Proof.
  intros Hr. unfold reachable in Hr.
  refine (rtc_ind_r (fun y => sys_inv y) init_system _ _ x Hr).
  - split; simpl; try done; [apply wf_new| |by intros [?|?]].
    intros _ []; done.
  - intros y z _ Hs Hy. by eapply sys_inv_step.
Qed.

(** ** Lemmas: waiting times *)

(** How many calls of [next] can pass before the transfer at position [k] of
    [order] is served. *)
Definition transfer_wait (s : Scheduler) (k : nat) : nat :=
  2 * k + (if lastNormal s then 0 else 1).

Lemma pick_post_order s tr j s' k id :
  Post s false tr j = (s', None) -> control s = [] -> order s !! k = Some id ->
  control s' = [] /\ order s' !! k = Some id /\ lastNormal s' = lastNormal s.
Proof.
  intros Hp Hc Hk.
  apply post_cases in Hp as (_ & _ & [(? & _)|[(_ & _ & _ & ->)|(_ & _ & _ & ->)]]); [done|done|].
  simpl. split; [done|]. split; [|done].
  destruct (_ =? 0); [|done]. by apply lookup_app_l_Some.
Qed.

Lemma pick_next_order s c j s' k id :
  wf s -> next s = Some (c, j, s') -> control s = [] -> order s !! k = Some id ->
  c = Transfer id \/
  exists k', control s' = [] /\ order s' !! k' = Some id /\ transfer_wait s' k' < transfer_wait s k.
Proof.
  intros Hw Hn Hc Hk. unfold transfer_wait.
  apply next_cases in Hn as [(-> & l & Hc' & _)|[(-> & _ & Hor & l & Hl & ->)|
    (id' & o & q & -> & _ & Ho & _ & Hq & ->)]]; [congruence| |].
  - right. exists k. simpl. split; [done|]. split; [done|].
    destruct Hor as [Hor|Hor]; [by rewrite Hor in Hk|rewrite Hor; lia].
  - rewrite Ho in Hk. destruct k as [|k]; [left; naive_solver|].
    simpl in Hk. right. exists k. simpl. split; [done|]. split; [|destruct (lastNormal s); lia].
    destruct (0 <? length q); [by apply lookup_app_l_Some|done].
Qed.

(* ------------------------------------------------------------------ *)
(** ** Properties *)

(** in every reachable state the control, request and transfer queues respect
    their bounds (256, 128 and 5), and [order] lists exactly the transfers with
    queued jobs, each once. *)
Theorem scheduler_bounded x : reachable x -> wf (sched x).
Proof. intros Hr. by apply sys_inv_reachable. Qed.

(** C29: every accepted job is answered exactly once: at any time the accepted jobs
    are those answered, the one [Run] holds and those queued; after [Run] has
    returned all of them have been answered. *)
Theorem answered_once x :
  reachable x ->
  (accepted x).*2 ≡ₚ (answers x).*1 ++ held (run_pc x) ++ queued (sched x) /\
  (run_pc x = Exited -> (accepted x).*2 ≡ₚ (answers x).*1).
Proof.
  intros Hr. destruct (sys_inv_reachable x Hr) as [_ Ho _ _ _ He].
  split; [done|]. intros Hx. rewrite Ho, Hx, (He Hx). simpl. by rewrite app_nil_r.
Qed.

(** each queue is first in, first out: the jobs of a class that [next] has
    returned, followed by those still queued, are the accepted ones in order. *)
Theorem class_fifo x c :
  reachable x -> run_pc x <> Exited ->
  of_class c (accepted x) = of_class c (popped x) ++ queue_of (sched x) c.
Proof. intros Hr Hp. by apply (inv_fifo x (sys_inv_reachable x Hr)). Qed.

(** no wake-up is lost: when [Run] sleeps in its select while a job is queued,
    the wake-up flag is set, so [Run] can step. *)
Theorem no_lost_wakeup x :
  reachable x -> run_pc x = Waiting -> queued (sched x) <> [] ->
  wake (sched x) = true /\ exists y, step x y /\ run_pc y = AtNext.
Proof.
  intros Hr Hp Hq. destruct (inv_wake x (sys_inv_reachable x Hr) Hp) as [Hw|]; [|done].
  split; [done|]. eexists. split; [by apply step_wake|done].
Qed.

(** once [Run] is returning, every [Post] fails and changes nothing (so the
    maps the drain has reset are never written). *)
Theorem post_after_exit x pr tr j :
  reachable x -> run_pc x = Leaving \/ run_pc x = Exited ->
  exists e, Post (sched x) pr tr j = (sched x, Some e).
Proof.
  intros Hr Hp. unfold Post.
  destruct (inv_stop x (sys_inv_reachable x Hr) Hp).
  - destruct (failed (sched x)); [eauto|done].
  - destruct (failed (sched x)); [eauto|]. destruct (ctx_err (sched x)); [eauto|done].
Qed.

(** round robin: with no control traffic, the transfer at position [k] of
    [order] is served within [2k + 2] calls of [next], whatever is posted meanwhile. *)
Theorem transfer_served s k id l s' :
  wf s -> control s = [] -> order s !! k = Some id ->
  pick_run s l s' -> 2 * k + 2 <= length l -> Transfer id ∈ l.
Proof.
  intros Hw Hc Hk Hrun Hlen.
  assert (transfer_wait s k < length l) as Hlt
    by (unfold transfer_wait; destruct (lastNormal s); lia).
  clear Hlen. revert k Hw Hc Hk Hlt.
  induction Hrun as [|s tr j s1 l s2 Hp Hrun IH|s c j s1 l s2 Hn Hrun IH];
    intros k Hw Hc Hk Hlt; [simpl in Hlt; lia| |].
  - destruct (pick_post_order _ _ _ _ _ _ Hp Hc Hk) as (Hc' & Hk' & Hl').
    apply (IH k); [by eapply wf_post|done|done|].
    unfold transfer_wait in *. by rewrite Hl'.
  - destruct (pick_next_order _ _ _ _ _ _ Hw Hn Hc Hk) as [->|(k' & Hc' & Hk' & Hm)]; [set_solver|].
    right. simpl in Hlt. apply (IH k'); [by eapply wf_next|done|done|lia].
Qed.

(** ordinary requests do not starve either: with no control traffic, a queued
    request is served within two calls of [next]. *)
Theorem normal_served s l s' :
  control s = [] -> normal s <> [] -> pick_run s l s' -> 2 <= length l -> Normal ∈ l.
Proof.
  intros Hc Hn Hrun Hlen.
  assert ((if lastNormal s then 1 else 0) < length l) as Hlt by (destruct (lastNormal s); lia).
  clear Hlen. revert Hc Hn Hlt.
  induction Hrun as [|s tr j s1 l s2 Hp Hrun IH|s c j s1 l s2 Hx Hrun IH];
    intros Hc Hn Hlt; [simpl in Hlt; lia| |].
  - apply post_cases in Hp as (_ & _ & [(? & _)|[(_ & _ & _ & ->)|(_ & _ & _ & ->)]]); [done| |];
      apply IH; try done. simpl. by destruct (normal s).
  - apply next_cases in Hx as [(-> & ? & Hc' & _)|[(-> & _)|(id & o & q & -> & _ & _ & Hor & _ & ->)]];
      [congruence|set_solver|].
    right. destruct Hor as [|Hl]; [done|]. rewrite Hl in Hlt. simpl in Hlt.
    apply IH; [done|done|simpl; lia].
Qed.

End Scheduler.
Arguments Scheduler J : clear implicits.
Arguments system J : clear implicits.

(** ** Witnesses *)

(** Two control jobs around a transfer job, and [Run] asleep before them. *)
Definition sample_asleep : system nat :=
  goto init_system NewScheduler Waiting [].
Definition sample_posted : system nat :=
  {| sched := (Post NewScheduler false (lit "t1") 7%nat).1; run_pc := Waiting;
     accepted := [(Transfer (lit "t1"), 7%nat)]; popped := []; answers := [] |}.

Lemma sample_posted_reachable : reachable sample_posted.
Proof.
  unfold reachable. apply (rtc_l _ _ sample_asleep).
  - apply step_idle; reflexivity.
  - apply rtc_once. apply (step_post sample_asleep false (lit "t1") 7%nat). reflexivity.
Qed.

Lemma scheduler_bounded_witness : wf (sched sample_posted).
Proof. apply (scheduler_bounded sample_posted sample_posted_reachable). Defined.

Lemma answered_once_witness : (accepted sample_posted).*2 ≡ₚ [7%nat].
Proof.
  destruct (answered_once sample_posted sample_posted_reachable) as [H _]. exact H.
Defined.

Lemma class_fifo_witness :
  of_class (Transfer (lit "t1")) (accepted sample_posted) = [] ++ [7%nat].
Proof.
  apply (class_fifo sample_posted (Transfer (lit "t1")) sample_posted_reachable).
  discriminate.
Defined.

Lemma no_lost_wakeup_witness : wake (sched sample_posted) = true.
Proof.
  destruct (no_lost_wakeup sample_posted sample_posted_reachable) as [H _];
    [reflexivity|vm_compute; discriminate|exact H].
Defined.

Definition sample_canceled : system nat :=
  goto (goto sample_asleep (cancel_ctx NewScheduler Canceled) Waiting [])
    (cancel_ctx NewScheduler Canceled) Leaving [].

Lemma sample_canceled_reachable : reachable sample_canceled.
Proof.
  unfold reachable. apply (rtc_l _ _ sample_asleep); [apply step_idle; reflexivity|].
  eapply rtc_l; [apply (step_cancel sample_asleep Canceled); reflexivity|].
  apply rtc_once.
  apply (step_done (goto sample_asleep (cancel_ctx NewScheduler Canceled) Waiting []) Canceled);
    reflexivity.
Qed.

Lemma post_after_exit_witness :
  exists e, Post (sched sample_canceled) true [] 1%nat = (sched sample_canceled, Some e).
Proof.
  apply (post_after_exit sample_canceled true [] 1%nat sample_canceled_reachable).
  left. reflexivity.
Defined.

(** One request and two transfers, each with queued work. *)
Definition sample_busy : Scheduler nat :=
  (Post (Post (Post (Post NewScheduler false [] 1%nat).1 false (lit "a") 2%nat).1
     false (lit "b") 3%nat).1 false [] 4%nat).1.

Lemma sample_busy_wf : wf sample_busy.
Proof.
  unfold sample_busy.
  repeat (eapply wf_post; [|apply surjective_pairing]). apply wf_new.
Qed.

Lemma sample_busy_run :
  exists s', pick_run sample_busy [Normal; Transfer (lit "a"); Normal; Transfer (lit "b")] s'.
Proof.
  eexists. do 4 (eapply pick_next; [vm_compute; reflexivity|]). apply pick_nil.
Qed.

Lemma transfer_served_witness :
  Transfer (lit "b") ∈ [Normal; Transfer (lit "a"); Normal; Transfer (lit "b")].
Proof.
  destruct sample_busy_run as [s' Hs].
  apply (transfer_served sample_busy 1 (lit "b") _ s' sample_busy_wf); [reflexivity..|exact Hs|simpl; lia].
Defined.

Lemma normal_served_witness :
  Normal ∈ [Normal; Transfer (lit "a"); Normal; Transfer (lit "b")].
Proof.
  destruct sample_busy_run as [s' Hs].
  apply (normal_served sample_busy _ s'); [reflexivity|discriminate|exact Hs|simpl; lia].
Defined.
