(* ===== verification/SqlSyntax.v ===== *)
(** * The SQL lexical contract and placeholder replacement

    Models [internal/sqlsyntax/sql.go] and the pure part of
    [internal/agent/sql.go].  Positions are indices into the byte string as in
    the code.  A helper that walks forward carries both the index [i] and the
    rest [query[i:]], on which it recurses; the scanners are [loop]s over the
    index.  [lexemes] is the lexical structure that [Parameters] and [buildSQL]
    are proved to follow. *)

From stdpp Require Import gmap strings list.
From Stdlib Require Import ZArith Lia.
From S2P Require Import Prelude.
Open Scope Z_scope.

(* ------------------------------------------------------------------ *)
(** ** Definitions *)

Inductive Operation := NoOperation | Select | Insert | Update | Delete.

Definition Mutation (o : Operation) : bool :=
  match o with NoOperation | Select => false | _ => true end.

Record Classification := {
  Keyword : bytes;
  Op : Operation;
  Single : bool;
  ReturnsRows : bool;
}.

Definition isIdent (b : Z) : bool :=
  (b =? 95) || ((97 <=? b) && (b <=? 122)) || ((65 <=? b) && (b <=? 90)).
Definition isDigit (b : Z) : bool := (48 <=? b) && (b <=? 57).
Definition isWord (b : Z) : bool := isIdent b || isDigit b.

(** [for i < len(s) && (isIdent(s[i]) || isDigit(s[i])) { i++ }] *)
Fixpoint word_len (s : bytes) : nat :=
  match s with
  | c :: s' => if isWord c then S (word_len s') else O
  | [] => O
  end.

Definition ParameterName (s : bytes) : bytes * nat :=
  if (length s =? 0)%nat || negb (isIdent (byte_at s 0)) then ([], O)
  else let i := S (word_len (drop 1 s)) in (take i s, i).

(** [skipSQLQuoted] from index [i], with [s = query[i:]]. *)
Fixpoint skip_quoted_from (s : bytes) (i : nat) (quote : Z) (backslashEscapes : bool) : nat :=
  match s with
  | [] => i
  | c :: s' =>
      match s' with
      | d :: s'' =>
          if backslashEscapes && (c =? 92) then skip_quoted_from s'' (i + 2) quote backslashEscapes
          else if negb (c =? quote) then skip_quoted_from s' (i + 1) quote backslashEscapes
          else if d =? quote then skip_quoted_from s'' (i + 2) quote backslashEscapes
          else (i + 1)%nat
      | [] => (i + 1)%nat
      end
  end.

Definition skipSQLQuoted (query : bytes) (start : nat) (quote : Z) (backslashEscapes : bool) : nat :=
  skip_quoted_from (drop (start + 1) query) (start + 1) quote backslashEscapes.

Definition isPostgresEscapeStringPrefix (query : bytes) (quote : nat) : bool :=
  if (quote =? 0)%nat ||
     (negb (byte_at query (quote - 1) =? 101) && negb (byte_at query (quote - 1) =? 69))
  then false
  else (quote =? 1)%nat || negb (isIdent (byte_at query (quote - 2))).

Fixpoint skip_bracket_from (s : bytes) (i : nat) : nat :=
  match s with
  | [] => i
  | c :: s' =>
      if negb (c =? 93) then skip_bracket_from s' (i + 1)
      else match s' with
           | d :: s'' => if d =? 93 then skip_bracket_from s'' (i + 2) else (i + 1)%nat
           | [] => (i + 1)%nat
           end
  end.

Definition skipSQLBracketIdentifier (query : bytes) (start : nat) : nat :=
  skip_bracket_from (drop (start + 1) query) (start + 1).

Definition isOracleAlternativeQuotePrefix (query : bytes) (quote : nat) : bool :=
  if (length query <=? quote + 2)%nat ||
     (negb (byte_at query quote =? 113) && negb (byte_at query quote =? 81)) ||
     negb (byte_at query (quote + 1) =? 39)
  then false
  else (quote =? 0)%nat || negb (isIdent (byte_at query (quote - 1))).

Definition oracle_closing (opening : Z) : Z :=
  if opening =? 91 then 93 else
  if opening =? 40 then 41 else
  if opening =? 123 then 125 else
  if opening =? 60 then 62 else opening.

Fixpoint skip_oracle_from (s : bytes) (i : nat) (closing : Z) : nat :=
  match s with
  | [] => i
  | c :: s' =>
      match s' with
      | d :: _ => if (c =? closing) && (d =? 39) then (i + 2)%nat
                  else skip_oracle_from s' (i + 1) closing
      | [] => (i + 1)%nat
      end
  end.

Definition skipOracleAlternativeQuote (query : bytes) (start : nat) : nat :=
  skip_oracle_from (drop (start + 3) query) (start + 3) (oracle_closing (byte_at query (start + 2))).

(** [strings.IndexByte] and [strings.Index]. *)
Fixpoint IndexByte (s : bytes) (c : Z) : option nat :=
  match s with
  | [] => None
  | d :: s' => if d =? c then Some O else S <$> IndexByte s' c
  end.

Fixpoint Index (s sub : bytes) : option nat :=
  if bytes_eqb (take (length sub) s) sub then Some O
  else match s with
       | [] => None
       | _ :: s' => S <$> Index s' sub
       end.

Definition skipSQLLineComment (query : bytes) (start : nat) : nat :=
  match IndexByte (drop (start + 2) query) 10 with
  | Some e => (start + 2 + e + 1)%nat
  | None => length query
  end.

Fixpoint skip_block_from (s : bytes) (i : nat) (nested : bool) (depth : nat) : nat :=
  match s with
  | [] => i
  | c :: s' =>
      match s' with
      | [] => (i + 1)%nat
      | d :: s'' =>
          if (c =? 47) && (d =? 42) && nested then skip_block_from s'' (i + 2) nested (depth + 1)
          else if (c =? 42) && (d =? 47) then
            if (depth - 1 =? 0)%nat then (i + 2)%nat
            else skip_block_from s'' (i + 2) nested (depth - 1)
          else skip_block_from s' (i + 1) nested depth
      end
  end.

Definition skipSQLBlockComment (driver : string) (query : bytes) (start : nat) : nat :=
  skip_block_from (drop (start + 2) query) (start + 2)
    ((driver =? "postgres")%string || (driver =? "sqlserver")%string) 1.

(** [skipSQLDollarQuote]; [None] is its false second result. *)
Definition skipSQLDollarQuote (query : bytes) (start : nat) : option nat :=
  let endTag := (start + 1 + word_len (drop (start + 1) query))%nat in
  if (length query <=? endTag)%nat || negb (byte_at query endTag =? 36) then None
  else
    let tag := slice query start (endTag + 1) in
    match Index (drop (endTag + 1) query) tag with
    | None => Some (length query)
    | Some e => Some (endTag + 1 + e + length tag)%nat
    end.

(** [start+1 < len(query) && query[start:start+2] == "ab"] *)
Definition pair_at (query : bytes) (start : nat) (a b : Z) : bool :=
  (start + 1 <? length query)%nat && (byte_at query start =? a) && (byte_at query (start + 1) =? b).

(** [ProtectedRegionEnd]; [None] is its false second result. *)
Definition ProtectedRegionEnd (driver : string) (query : bytes) (start : nat) : option nat :=
  let c := byte_at query start in
  if c =? 39 then
    Some (skipSQLQuoted query start 39
            ((driver =? "postgres")%string && isPostgresEscapeStringPrefix query start))
  else if c =? 34 then Some (skipSQLQuoted query start 34 false)
  else if (driver =? "mysql")%string && (c =? 96) then Some (skipSQLQuoted query start 96 false)
  else if (driver =? "sqlserver")%string && (c =? 91) then
    Some (skipSQLBracketIdentifier query start)
  else if (driver =? "oracle")%string && isOracleAlternativeQuotePrefix query start then
    Some (skipOracleAlternativeQuote query start)
  else if pair_at query start 45 45 then Some (skipSQLLineComment query start)
  else if pair_at query start 47 42 then Some (skipSQLBlockComment driver query start)
  else if (driver =? "postgres")%string && (c =? 36) then skipSQLDollarQuote query start
  else None.

(** One iteration of [onlySQLTrivia]. *)
Definition trivia_body (driver : string) (query : bytes) (i : nat) : nat + bool :=
  if (length query <=? i)%nat then inr true else
  let c := byte_at query i in
  if (c =? 32) || (c =? 9) || (c =? 13) || (c =? 10) then inl (i + 1)%nat
  else if pair_at query i 45 45 then inl (skipSQLLineComment query i)
  else if pair_at query i 47 42 then inl (skipSQLBlockComment driver query i)
  else inr false.

Definition onlySQLTrivia (driver : string) (query : bytes) : bool :=
  default false (loop (S (length query)) (trivia_body driver query) O).

(** [strings.ToLower] on an ASCII word. *)
Definition ToLower (s : bytes) : bytes :=
  (fun b => if (65 <=? b) && (b <=? 90) then b + 32 else b) <$> s.

(** One iteration of [scanSQLTokens]. *)
Definition scan_body (driver : string) (query : bytes) (st : nat * list bytes * bool)
    : (nat * list bytes * bool) + (list bytes * bool) :=
  let '(i, tokens, single) := st in
  if (length query <=? i)%nat then inr (tokens, single) else
  match ProtectedRegionEnd driver query i with
  | Some next => inl (next, tokens, single)
  | None =>
      let c := byte_at query i in
      if c =? 59 then
        inl ((i + 1)%nat, tokens,
             if negb (onlySQLTrivia driver (drop (i + 1) query)) then false else single)
      else if isIdent c then
        let j := (i + word_len (drop i query))%nat in
        inl (j, tokens ++ [ToLower (slice query i j)], single)
      else inl ((i + 1)%nat, tokens, single)
  end.

Definition scanSQLTokens (driver : string) (query : bytes) : list bytes * bool :=
  default ([], true) (loop (S (length query)) (scan_body driver query) (O, [], true)).

(** One iteration of [hasSingleSQLStatement]. *)
Definition single_body (driver : string) (query : bytes) (i : nat) : nat + bool :=
  if (length query <=? i)%nat then inr true else
  match ProtectedRegionEnd driver query i with
  | Some next => inl next
  | None =>
      if byte_at query i =? 59 then inr (onlySQLTrivia driver (drop (i + 1) query))
      else inl (i + 1)%nat
  end.

Definition hasSingleSQLStatement (driver : string) (query : bytes) : bool :=
  default true (loop (S (length query)) (single_body driver query) O).

Definition operation_of (keyword : bytes) : Operation :=
  if bytes_eqb keyword (lit "select") then Select
  else if bytes_eqb keyword (lit "insert") then Insert
  else if bytes_eqb keyword (lit "update") then Update
  else if bytes_eqb keyword (lit "delete") then Delete
  else NoOperation.

Definition Classify (driver : string) (query : bytes) : Classification :=
  let (tokens, single) := scanSQLTokens driver query in
  match tokens with
  | [] => {| Keyword := []; Op := NoOperation; Single := single; ReturnsRows := false |}
  | keyword :: rest =>
      let op := operation_of keyword in
      {| Keyword := keyword; Op := op; Single := single;
         ReturnsRows := Mutation op &&
           existsb (fun token => bytes_eqb token (lit "returning") ||
                                 ((driver =? "sqlserver")%string && bytes_eqb token (lit "output")))
             rest |}
  end.

(** One iteration of [Parameters]. *)
Definition parameters_body (driver : string) (query : bytes) (st : nat * list bytes)
    : (nat * list bytes) + list bytes :=
  let '(i, names) := st in
  if (length query <=? i)%nat then inr names else
  match ProtectedRegionEnd driver query i with
  | Some n => inl (n, names)
  | None =>
      if byte_at query i =? 58 then
        if (i + 1 <? length query)%nat && (byte_at query (i + 1) =? 58)
        then inl ((i + 2)%nat, names)
        else
          let (name, n) := ParameterName (drop (i + 1) query) in
          if (0 <? n)%nat then inl ((i + (n + 1))%nat, names ++ [name])
          else inl ((i + 1)%nat, names)
      else inl ((i + 1)%nat, names)
  end.

Definition Parameters (driver : string) (query : bytes) : list bytes :=
  default [] (loop (S (length query)) (parameters_body driver query) (O, [])).

(** [%d] of a nonnegative integer. *)
Fixpoint decimal_digits (fuel : nat) (n : Z) (acc : bytes) : bytes :=
  match fuel with
  | O => acc
  | S fuel' =>
      let acc' := (48 + n mod 10) :: acc in
      if n <? 10 then acc' else decimal_digits fuel' (n / 10) acc'
  end.
Definition decimal (n : Z) : bytes := decimal_digits 20 n [].

Definition placeholder (driver : string) (idx : Z) : bytes :=
  if (driver =? "postgres")%string then lit "$" ++ decimal idx
  else if (driver =? "sqlserver")%string then lit "@p" ++ decimal idx
  else if (driver =? "oracle")%string then lit ":" ++ decimal idx
  else lit "?".

Definition validateSQLShape (query : bytes) : result unit :=
  if bytes_eqb query [] then Err "sql is empty" else Ok tt.

Section Build.
Context {V : Type}.

(** One iteration of [buildSQL] over [(p, i, out, args)]. *)
Definition build_body (driver : string) (query : bytes) (params : gmap bytes V)
    (st : nat * Z * bytes * list V) : (nat * Z * bytes * list V) + result (bytes * list V) :=
  let '(p, i, out, args) := st in
  if (length query <=? p)%nat then inr (Ok (out, args)) else
  let ch := byte_at query p in
  match ProtectedRegionEnd driver query p with
  | Some next => inl (next, i, out ++ slice query p next, args)
  | None =>
      if ch =? 58 then
        if (p + 1 <? length query)%nat && (byte_at query (p + 1) =? 58)
        then inl ((p + 2)%nat, i, out ++ lit "::", args)
        else
          let (name, n) := ParameterName (drop (p + 1) query) in
          if (0 <? n)%nat then
            match params !! name with
            | None => inr (Err "missing sql param")
            | Some v => inl ((p + (1 + n))%nat, i + 1, out ++ placeholder driver (i + 1), args ++ [v])
            end
          else inl ((p + 1)%nat, i, out ++ [ch], args)
      else inl ((p + 1)%nat, i, out ++ [ch], args)
  end.

Definition buildSQL (driver : string) (query : bytes) (params : gmap bytes V)
    : result (bytes * list V) :=
  let* _ := validateSQLShape query in
  default (Err "unreachable") (loop (S (length query)) (build_body driver query params) (O, 0, [], [])).

End Build.

Definition buildExplainSQL (driver : string) (query : bytes) : option bytes :=
  if (driver =? "postgres")%string || (driver =? "mysql")%string then Some (lit "EXPLAIN " ++ query)
  else if (driver =? "oracle")%string then Some (lit "EXPLAIN PLAN FOR " ++ query)
  else None.

(** ** The lexical structure placeholder replacement works on *)

Inductive lexeme :=
| Protected (text : bytes)     (* quoted text or a comment *)
| Cast                         (* a double colon *)
| Param (name : bytes)         (* a named parameter, its colon left out *)
| Plain (c : Z).

Definition lexeme_source (x : lexeme) : bytes :=
  match x with
  | Protected t => t
  | Cast => lit "::"
  | Param n => lit ":" ++ n
  | Plain c => [c]
  end.

(** The lexeme at an index, and the index behind it. *)
Definition lexeme_at (driver : string) (query : bytes) (i : nat) : lexeme * nat :=
  match ProtectedRegionEnd driver query i with
  | Some n => (Protected (slice query i n), n)
  | None =>
      if byte_at query i =? 58 then
        if (i + 1 <? length query)%nat && (byte_at query (i + 1) =? 58)
        then (Cast, (i + 2)%nat)
        else
          let (name, n) := ParameterName (drop (i + 1) query) in
          if (0 <? n)%nat then (Param name, (i + (n + 1))%nat)
          else (Plain (byte_at query i), (i + 1)%nat)
      else (Plain (byte_at query i), (i + 1)%nat)
  end.

Fixpoint lexemes_from (fuel : nat) (driver : string) (query : bytes) (i : nat) : list lexeme :=
  match fuel with
  | O => []
  | S fuel' =>
      if (length query <=? i)%nat then []
      else let (x, j) := lexeme_at driver query i in x :: lexemes_from fuel' driver query j
  end.

Definition lexemes (driver : string) (query : bytes) : list lexeme :=
  lexemes_from (length query) driver query O.

Definition lexeme_params (l : list lexeme) : list bytes :=
  omap (fun x => match x with Param n => Some n | _ => None end) l.

(** The statement text: the source of every lexeme but a parameter, which becomes
    the next placeholder. *)
Fixpoint render (driver : string) (i : Z) (l : list lexeme) : bytes :=
  match l with
  | [] => []
  | Param _ :: l' => placeholder driver (i + 1) ++ render driver (i + 1) l'
  | x :: l' => lexeme_source x ++ render driver i l'
  end.

(* ------------------------------------------------------------------ *)
(** ** Lemmas: bounds of the regions *)

Ltac skip_bounds s :=
  induction s as [s IH] using (induction_ltof1 _ (@length Z)); unfold ltof in IH.

Lemma skip_quoted_bounds s i quote bs :
  (i <= skip_quoted_from s i quote bs <= i + length s)%nat.
Proof.
  revert i. skip_bounds s. intros i. destruct s as [|c [|d s]]; simpl; [lia|lia|].
  pose proof (IH (d :: s) ltac:(simpl; lia) (i + 1)%nat) as H1. simpl in H1.
  pose proof (IH s ltac:(simpl; lia) (i + 2)%nat) as H2.
  repeat case_test; lia.
Qed.

Lemma skip_bracket_bounds s i : (i <= skip_bracket_from s i <= i + length s)%nat.
Proof.
  revert i. skip_bounds s. intros i. destruct s as [|c s]; simpl; [lia|].
  pose proof (IH s ltac:(simpl; lia) (i + 1)%nat).
  destruct s as [|d s]; [case_test; simpl; lia|].
  pose proof (IH s ltac:(simpl; lia) (i + 2)%nat). simpl in *. repeat case_test; lia.
Qed.

Lemma skip_oracle_bounds s i closing :
  (i <= skip_oracle_from s i closing <= i + length s)%nat.
Proof.
  revert i. induction s as [|c s IH]; intros i; simpl; [lia|].
  specialize (IH (i + 1)%nat). destruct s as [|d s]; simpl in *; [lia|]. case_test; lia.
Qed.

Lemma skip_block_bounds s i nested depth :
  (i <= skip_block_from s i nested depth <= i + length s)%nat.
Proof.
  revert i depth. skip_bounds s. intros i depth. destruct s as [|c [|d s]]; simpl; [lia|lia|].
  pose proof (IH (d :: s) ltac:(simpl; lia) (i + 1)%nat depth) as H1. simpl in H1.
  pose proof (IH s ltac:(simpl; lia) (i + 2)%nat (depth + 1)%nat).
  pose proof (IH s ltac:(simpl; lia) (i + 2)%nat (depth - 1)%nat).
  repeat case_test; lia.
Qed.

Lemma word_len_le s : (word_len s <= length s)%nat.
Proof. induction s; simpl; [lia|]. case_test; lia. Qed.

Lemma IndexByte_lt s c e : IndexByte s c = Some e -> (e < length s)%nat.
Proof.
  revert e. induction s as [|d s IH]; intros e; simpl; [done|].
  destruct (d =? c); [intros [= <-]; lia|].
  destruct (IndexByte s c) as [e'|]; [|done]. intros [= <-]. specialize (IH _ eq_refl). lia.
Qed.

Lemma Index_le s sub e : Index s sub = Some e -> (e + length sub <= length s)%nat.
Proof.
  revert e. induction s as [|d s IH]; intros e; cbn [Index]; unfold bytes_eqb; case_bool_decide as E.
  1,3: intros [= <-]; apply (f_equal length) in E; rewrite length_take in E; simpl in *; lia.
  - done.
  - destruct (Index s sub) as [e'|]; [|done]. intros [= <-]. specialize (IH _ eq_refl). simpl. lia.
Qed.

Lemma pair_at_lt q i a b : pair_at q i a b = true -> (i + 1 < length q)%nat.
Proof. unfold pair_at. intros H. breflect. lia. Qed.

Lemma pair_at_fst q i a b : pair_at q i a b = true -> byte_at q i = a.
Proof. unfold pair_at. intros H. by breflect. Qed.

Lemma line_comment_bounds q i :
  (i + 1 < length q)%nat -> (i + 2 <= skipSQLLineComment q i <= length q)%nat.
Proof.
  intros Hi. unfold skipSQLLineComment.
  destruct (IndexByte _ _) as [e|] eqn:E; [|lia].
  apply IndexByte_lt in E. rewrite length_drop in E. lia.
Qed.

Lemma block_comment_bounds d q i :
  (i + 1 < length q)%nat -> (i + 2 <= skipSQLBlockComment d q i <= length q)%nat.
Proof.
  intros Hi. unfold skipSQLBlockComment.
  match goal with |- context [skip_block_from ?s ?j ?n ?k] =>
    pose proof (skip_block_bounds s j n k) as H end.
  rewrite length_drop in H. lia.
Qed.

Lemma quoted_bounds q i quote bs :
  (i < length q)%nat -> (i < skipSQLQuoted q i quote bs <= length q)%nat.
Proof.
  intros Hi. unfold skipSQLQuoted.
  pose proof (skip_quoted_bounds (drop (i + 1) q) (i + 1) quote bs) as H.
  rewrite length_drop in H. lia.
Qed.

Lemma dollar_bounds q i n :
  (i < length q)%nat -> skipSQLDollarQuote q i = Some n -> (i < n <= length q)%nat.
Proof.
  intros Hi. unfold skipSQLDollarQuote. cbv zeta.
  pose proof (word_len_le (drop (i + 1) q)) as Hw. rewrite length_drop in Hw.
  destruct (_ || _) eqn:E; [done|]. breflect.
  destruct (Index _ _) as [e|] eqn:Ei; intros [= <-]; [|lia].
  apply Index_le in Ei. rewrite length_drop in Ei. lia.
Qed.

(** A protected region is never empty and stays within the query. *)
Lemma protected_bounds d q i n :
  (i < length q)%nat -> ProtectedRegionEnd d q i = Some n -> (i < n <= length q)%nat.
Proof.
  intros Hi. unfold ProtectedRegionEnd. cbv zeta.
  destruct (_ =? 39); [intros [= <-]; by apply quoted_bounds|].
  destruct (_ =? 34); [intros [= <-]; by apply quoted_bounds|].
  destruct ((d =? "mysql")%string && _); [intros [= <-]; by apply quoted_bounds|].
  destruct ((d =? "sqlserver")%string && (_ =? 91)).
  { intros [= <-]. unfold skipSQLBracketIdentifier.
    pose proof (skip_bracket_bounds (drop (i + 1) q) (i + 1)) as H.
    rewrite length_drop in H. lia. }
  destruct ((d =? "oracle")%string && _) eqn:Eo.
  { intros [= <-]. apply andb_true_iff in Eo as [_ Eo].
    unfold isOracleAlternativeQuotePrefix in Eo. destruct (_ || _) eqn:E in Eo; [done|]. breflect.
    unfold skipOracleAlternativeQuote.
    match goal with |- context [skip_oracle_from ?s ?j ?c] =>
      pose proof (skip_oracle_bounds s j c) as H2 end.
    rewrite length_drop in H2. lia. }
  destruct (pair_at q i 45 45) eqn:E1.
  { intros [= <-]. apply pair_at_lt in E1. pose proof (line_comment_bounds q i E1). lia. }
  destruct (pair_at q i 47 42) eqn:E2.
  { intros [= <-]. apply pair_at_lt in E2. pose proof (block_comment_bounds d q i E2). lia. }
  destruct ((d =? "postgres")%string && _); [by apply dollar_bounds|done].
Qed.

Lemma ParameterName_spec s name n :
  ParameterName s = (name, n) -> (0 < n)%nat -> name = take n s /\ (n <= length s)%nat.
Proof.
  unfold ParameterName. destruct (_ || _) eqn:E; [intros [= <- <-]; lia|].
  intros [= <- <-] _. split; [done|]. breflect.
  pose proof (word_len_le (drop 1 s)) as H1. rewrite length_drop in H1. lia.
Qed.

(* ------------------------------------------------------------------ *)
(** ** Lemmas: the loops *)

Lemma byte_at_drop q k j : byte_at (drop k q) j = byte_at q (k + j).
Proof. unfold byte_at. by rewrite lookup_drop. Qed.

Lemma trivia_dec d q i j :
  trivia_body d q i = inl j -> (length q - j < length q - i)%nat.
Proof.
  unfold trivia_body. destruct (length q <=? i)%nat eqn:E; [done|]. breflect. cbv zeta.
  destruct (_ || _); [intros [= <-]; lia|].
  destruct (pair_at q i 45 45) eqn:E1.
  { intros [= <-]. apply pair_at_lt in E1. pose proof (line_comment_bounds q i E1). lia. }
  destruct (pair_at q i 47 42) eqn:E2; [|done].
  intros [= <-]. apply pair_at_lt in E2. pose proof (block_comment_bounds d q i E2). lia.
Qed.

Lemma single_dec d q i j :
  single_body d q i = inl j -> (length q - j < length q - i)%nat.
Proof.
  unfold single_body. destruct (length q <=? i)%nat eqn:E; [done|]. breflect.
  destruct (ProtectedRegionEnd d q i) as [n|] eqn:Ep.
  { intros [= <-]. apply protected_bounds in Ep; lia. }
  destruct (_ =? 59); [done|]. intros [= <-]. lia.
Qed.

Lemma isIdent_word c : isIdent c = true -> isWord c = true.
Proof. unfold isWord. by intros ->. Qed.

Lemma drop_byte_at q i : (i < length q)%nat -> drop i q = byte_at q i :: drop (S i) q.
Proof.
  intros Hi. destruct (lookup_lt_is_Some_2 q i Hi) as [x Hx].
  unfold byte_at. rewrite Hx. simpl. by apply drop_S.
Qed.

Lemma scan_dec d q st st' :
  scan_body d q st = inl st' -> (length q - st'.1.1 < length q - st.1.1)%nat.
Proof.
  destruct st as [[i toks] sg]. unfold scan_body.
  destruct (length q <=? i)%nat eqn:E; [done|]. breflect.
  destruct (ProtectedRegionEnd d q i) as [n|] eqn:Ep.
  { intros [= <-]. simpl. apply protected_bounds in Ep; lia. }
  cbv zeta. destruct (_ =? 59); [intros [= <-]; simpl; lia|].
  destruct (isIdent _) eqn:Ei; intros [= <-]; simpl; [|lia].
  rewrite drop_byte_at by done. simpl. rewrite isIdent_word by done. lia.
Qed.

Definition scan_from d q i toks sg := loop (S (length q)) (scan_body d q) (i, toks, sg).
Definition single_from d q i := loop (S (length q)) (single_body d q) i.
Definition trivia_from d q i := loop (S (length q)) (trivia_body d q) i.

Lemma scan_unfold d q i toks sg :
  scan_from d q i toks sg =
    match scan_body d q (i, toks, sg) with
    | inl (i', toks', sg') => scan_from d q i' toks' sg'
    | inr r => Some r
    end.
Proof.
  unfold scan_from.
  rewrite (loop_step _ (fun st => length q - st.1.1)%nat (fun _ => True)) at 1;
    [by destruct (scan_body d q (i, toks, sg)) as [[[? ?] ?]|]| |done|simpl; lia].
  intros s s' _ H. split; [done|]. by eapply scan_dec.
Qed.

Lemma single_unfold d q i :
  single_from d q i =
    match single_body d q i with inl i' => single_from d q i' | inr r => Some r end.
Proof.
  unfold single_from. apply (loop_step _ (fun i => length q - i)%nat (fun _ => True)); [|done|lia].
  intros s s' _ H. split; [done|]. by eapply single_dec.
Qed.

Lemma trivia_unfold d q i :
  trivia_from d q i =
    match trivia_body d q i with inl i' => trivia_from d q i' | inr r => Some r end.
Proof.
  unfold trivia_from. apply (loop_step _ (fun i => length q - i)%nat (fun _ => True)); [|done|lia].
  intros s s' _ H. split; [done|]. by eapply trivia_dec.
Qed.

(* ------------------------------------------------------------------ *)
(** ** Lemmas: classification and single statements agree *)

Ltac bool_simpl :=
  repeat (progress (rewrite ?andb_false_r, ?orb_true_r, ?andb_true_r, ?orb_false_r); simpl).

(** Outside Oracle no protected region starts with a letter or a digit. *)
Lemma word_unprotected d q i :
  d <> "oracle"%string -> isWord (byte_at q i) = true -> ProtectedRegionEnd d q i = None.
Proof.
  intros Hd Hw. unfold ProtectedRegionEnd. cbv zeta.
  assert (byte_at q i = 95 \/ 97 <= byte_at q i <= 122 \/ 65 <= byte_at q i <= 90 \/
          48 <= byte_at q i <= 57) as Hc.
  { unfold isWord, isIdent, isDigit in Hw. lia. }
  unfold pair_at.
  destruct (byte_at q i =? 39) eqn:?; [lia|].
  destruct (byte_at q i =? 34) eqn:?; [lia|].
  destruct (byte_at q i =? 96) eqn:?; [lia|]. rewrite andb_false_r.
  destruct (byte_at q i =? 91) eqn:?; [lia|]. rewrite andb_false_r.
  destruct (String.eqb_spec d "oracle"); [done|]. simpl.
  destruct (byte_at q i =? 45) eqn:?; [lia|]. rewrite !andb_false_r.
  destruct (byte_at q i =? 47) eqn:?; [lia|]. rewrite !andb_false_r.
  destruct (byte_at q i =? 36) eqn:?; [lia|]. by rewrite andb_false_r.
Qed.

Lemma space_unprotected d q i :
  (byte_at q i = 32 \/ byte_at q i = 9 \/ byte_at q i = 13 \/ byte_at q i = 10) ->
  ProtectedRegionEnd d q i = None.
Proof.
  intros Hc. unfold ProtectedRegionEnd, isOracleAlternativeQuotePrefix, pair_at. cbv zeta.
  by destruct Hc as [->|[->|[->| ->]]]; simpl; bool_simpl.
Qed.

Lemma line_protected d q i :
  pair_at q i 45 45 = true -> ProtectedRegionEnd d q i = Some (skipSQLLineComment q i).
Proof.
  intros Hp. unfold ProtectedRegionEnd, isOracleAlternativeQuotePrefix. cbv zeta.
  rewrite Hp, (pair_at_fst _ _ _ _ Hp). simpl.
  by bool_simpl.
Qed.

Lemma block_protected d q i :
  pair_at q i 47 42 = true -> ProtectedRegionEnd d q i = Some (skipSQLBlockComment d q i).
Proof.
  intros Hp. pose proof (pair_at_fst _ _ _ _ Hp) as Hc.
  assert (pair_at q i 45 45 = false) as Hn.
  { unfold pair_at. rewrite Hc. simpl. by rewrite andb_false_r. }
  unfold ProtectedRegionEnd, isOracleAlternativeQuotePrefix. cbv zeta. rewrite Hn, Hp, Hc. simpl.
  by bool_simpl.
Qed.

(** The comment skippers read a suffix as they read the whole. *)
Lemma line_comment_drop q k j :
  (k <= length q)%nat -> skipSQLLineComment q (k + j) = (k + skipSQLLineComment (drop k q) j)%nat.
Proof.
  intros Hk. unfold skipSQLLineComment. rewrite drop_drop, length_drop, Nat.add_assoc.
  destruct (IndexByte _ _); lia.
Qed.

Lemma skip_block_shift s k i nested depth :
  skip_block_from s (k + i) nested depth = (k + skip_block_from s i nested depth)%nat.
Proof.
  revert i depth. skip_bounds s. intros i depth. destruct s as [|c [|d s]]; simpl; [lia|lia|].
  pose proof (IH (d :: s) ltac:(simpl; lia) (i + 1)%nat depth) as H1. cbn [skip_block_from] in H1.
  pose proof (IH s ltac:(simpl; lia) (i + 2)%nat (depth + 1)%nat) as H2.
  pose proof (IH s ltac:(simpl; lia) (i + 2)%nat (depth - 1)%nat) as H3.
  rewrite !Nat.add_assoc in H1, H2, H3. rewrite H1, H2, H3. repeat case_test; lia.
Qed.

Lemma block_comment_drop d q k j :
  skipSQLBlockComment d q (k + j) = (k + skipSQLBlockComment d (drop k q) j)%nat.
Proof.
  unfold skipSQLBlockComment. by rewrite drop_drop, !Nat.add_assoc, <- Nat.add_assoc, skip_block_shift.
Qed.

Lemma pair_at_drop q k j a b : pair_at (drop k q) j a b = pair_at q (k + j) a b.
Proof.
  unfold pair_at. rewrite !byte_at_drop, length_drop, !Nat.add_assoc. f_equal. f_equal.
  destruct (j + 1 <? length q - k)%nat eqn:E; destruct (k + j + 1 <? length q)%nat eqn:E'; breflect;
    try done; lia.
Qed.

(** Text that is only trivia holds no statement separator. *)
Lemma trivia_single d q k j :
  (k <= length q)%nat -> trivia_from d (drop k q) j = Some true ->
  single_from d q (k + j) = Some true.
Proof.
  intros Hk. remember (length q - (k + j))%nat as m eqn:Hm. revert j Hm.
  induction (lt_wf m) as [m _ IH]. intros j Hm Ht.
  rewrite trivia_unfold in Ht. rewrite single_unfold.
  destruct (trivia_body d (drop k q) j) as [j'|[]] eqn:Eb; [| |done].
  2:{ revert Eb. unfold trivia_body, single_body. rewrite length_drop.
      destruct (length q - k <=? j)%nat eqn:E; cbv zeta;
        [|by repeat case_test]. breflect.
      assert ((length q <=? k + j)%nat = true) as -> by (apply Nat.leb_le; lia). done. }
  pose proof (trivia_dec _ _ _ _ Eb) as Hdec. rewrite length_drop in Hdec.
  assert (single_body d q (k + j) = inl (k + j')%nat) as ->.
  { revert Eb. unfold trivia_body, single_body. rewrite length_drop, byte_at_drop, !pair_at_drop.
    destruct (length q - k <=? j)%nat eqn:E; [done|]. breflect.
    assert ((length q <=? k + j)%nat = false) as -> by (apply Nat.leb_gt; lia). cbv zeta.
    destruct (_ || _) eqn:Es.
    - intros [= <-]. rewrite space_unprotected by (unfold pair_at in *; lia).
      destruct (_ =? 59) eqn:E59; [lia|]. f_equal. lia.
    - destruct (pair_at q (k + j) 45 45) eqn:E1.
      { intros [= <-]. rewrite line_protected by done. by rewrite line_comment_drop. }
      destruct (pair_at q (k + j) 47 42) eqn:E2; [|done].
      intros [= <-]. rewrite block_protected by done. by rewrite block_comment_drop. }
  apply (IH (length q - (k + j'))%nat); [lia|done|done].
Qed.

Lemma single_word d q i n :
  d <> "oracle"%string -> (n <= word_len (drop i q))%nat ->
  single_from d q i = single_from d q (i + n).
Proof.
  intros Hd. revert i. induction n as [|n IH]; intros i Hn; [by rewrite Nat.add_0_r|].
  assert (i < length q)%nat as Hi.
  { pose proof (word_len_le (drop i q)) as H. rewrite length_drop in H. lia. }
  rewrite drop_byte_at in Hn by done. simpl in Hn.
  destruct (isWord (byte_at q i)) eqn:Ew; [|lia].
  rewrite single_unfold. unfold single_body at 1.
  assert ((length q <=? i)%nat = false) as -> by (apply Nat.leb_gt; lia).
  rewrite word_unprotected by done.
  assert ((byte_at q i =? 59) = false) as ->.
  { unfold isWord, isIdent, isDigit in Ew. lia. }
  replace (i + S n)%nat with ((i + 1) + n)%nat by lia. apply IH.
  rewrite Nat.add_1_r. lia.
Qed.

Lemma scan_false d q i toks : exists toks', scan_from d q i toks false = Some (toks', false).
Proof.
  remember (length q - i)%nat as m eqn:Hm. revert i toks Hm.
  induction (lt_wf m) as [m _ IH]. intros i toks Hm. rewrite scan_unfold.
  destruct (scan_body d q (i, toks, false)) as [[[i' toks'] sg']|[toks' sg']] eqn:Eb.
  - pose proof (scan_dec _ _ _ _ Eb) as Hdec. simpl in Hdec.
    assert (sg' = false) as ->.
    { revert Eb. unfold scan_body. repeat (case_match; try done); by intros [= _ _ <-]. }
    apply (IH (length q - i')%nat); [lia|done].
  - exists toks'. revert Eb. unfold scan_body.
    destruct (_ <=? _)%nat; [by intros [= <- <-]|]. repeat (case_match; try done).
Qed.

Lemma scan_single d q i toks :
  d <> "oracle"%string ->
  exists toks' sg, scan_from d q i toks true = Some (toks', sg) /\ single_from d q i = Some sg.
Proof.
  intros Hd. remember (length q - i)%nat as m eqn:Hm. revert i toks Hm.
  induction (lt_wf m) as [m _ IH]. intros i toks Hm. rewrite scan_unfold.
  unfold scan_body. destruct (length q <=? i)%nat eqn:El.
  { exists toks, true. split; [done|]. rewrite single_unfold. unfold single_body. by rewrite El. }
  breflect.
  assert (single_from d q i = match single_body d q i with
            inl i' => single_from d q i' | inr r => Some r end) as Hs by apply single_unfold.
  unfold single_body in Hs. rewrite (proj2 (Nat.leb_gt _ _) El) in Hs.
  destruct (ProtectedRegionEnd d q i) as [n|] eqn:Ep.
  { rewrite Hs. apply protected_bounds in Ep; [|done]. apply (IH (length q - n)%nat); [lia|done]. }
  cbv zeta. destruct (byte_at q i =? 59) eqn:E59.
  - rewrite Hs. destruct (onlySQLTrivia d (drop (i + 1) q)) eqn:Et; simpl.
    + destruct (IH (length q - (i + 1))%nat ltac:(lia) (i + 1)%nat toks eq_refl) as (t' & sg & H1 & H2).
      exists t', sg. split; [done|].
      unfold onlySQLTrivia in Et. fold (trivia_from d (drop (i + 1) q) 0) in Et.
      destruct (trivia_from _ _ _) as [[]|] eqn:Ef; try done.
      apply trivia_single in Ef; [|lia]. rewrite Nat.add_0_r in Ef. congruence.
    + destruct (scan_false d q (i + 1) toks) as [t' ->]. eauto.
  - destruct (isIdent (byte_at q i)) eqn:Ei.
    + rewrite (single_word d q i (word_len (drop i q))) by done.
      apply (IH (length q - (i + word_len (drop i q)))%nat); [|done].
      rewrite drop_byte_at by done. simpl. rewrite isIdent_word by done. lia.
    + rewrite Hs. apply (IH (length q - (i + 1))%nat); [lia|done].
Qed.

(* ------------------------------------------------------------------ *)
(** ** Lemmas: placeholder replacement follows the lexemes *)

Lemma lexeme_at_bounds d q i x j :
  (i < length q)%nat -> lexeme_at d q i = (x, j) -> (i < j <= length q)%nat.
Proof.
  intros Hi. unfold lexeme_at. destruct (ProtectedRegionEnd d q i) as [n|] eqn:Ep.
  { intros [= <- <-]. by apply (protected_bounds d). }
  destruct (_ =? 58); [|intros [= <- <-]; lia].
  destruct (_ && _) eqn:E; [intros [= <- <-]; breflect; lia|].
  destruct (ParameterName _) as [name n] eqn:En.
  destruct (0 <? n)%nat eqn:E0; intros [= <- <-]; [|lia]. breflect.
  apply ParameterName_spec in En as [_ Hn]; [|done]. rewrite length_drop in Hn. lia.
Qed.

Lemma slice_one q i : (i < length q)%nat -> slice q i (i + 1) = [byte_at q i].
Proof. intros Hi. unfold slice. rewrite drop_byte_at by done. by replace (i + 1 - i)%nat with 1%nat by lia. Qed.

Lemma slice_split q i k j :
  (i <= k <= j)%nat -> slice q i j = slice q i k ++ slice q k j.
Proof.
  intros H. unfold slice. replace (j - i)%nat with ((k - i) + (j - k))%nat by lia.
  rewrite <- take_take_drop. f_equal. rewrite drop_drop. by replace (i + (k - i))%nat with k by lia.
Qed.

(** The source text of a lexeme is the text it was read from. *)
Lemma lexeme_at_source d q i x j :
  (i < length q)%nat -> lexeme_at d q i = (x, j) -> lexeme_source x = slice q i j.
Proof.
  intros Hi. unfold lexeme_at. destruct (ProtectedRegionEnd d q i) as [n|]; [by intros [= <- <-]|].
  destruct (byte_at q i =? 58) eqn:E58; [|intros [= <- <-]; by rewrite slice_one].
  breflect. destruct (_ && _) eqn:E.
  - intros [= <- <-]. breflect. rewrite (slice_split q i (i + 1)) by lia.
    replace (i + 2)%nat with (i + 1 + 1)%nat by lia. rewrite !slice_one by lia.
    by rewrite E58, H0.
  - destruct (ParameterName _) as [name n] eqn:En.
    destruct (0 <? n)%nat eqn:E0; intros [= <- <-]; [|by rewrite slice_one].
    breflect. apply ParameterName_spec in En as [-> Hn]; [|done].
    rewrite (slice_split q i (i + 1)), slice_one, E58 by lia. simpl. f_equal.
    unfold slice. f_equal. lia.
Qed.

Lemma lexemes_unfold fuel d q i :
  (length q - i <= fuel)%nat ->
  lexemes_from fuel d q i =
    if (length q <=? i)%nat then []
    else (lexeme_at d q i).1 :: lexemes_from (length q - (lexeme_at d q i).2) d q (lexeme_at d q i).2.
Proof.
  revert i. induction fuel as [fuel IHf] using lt_wf_ind. intros i Hf.
  destruct fuel as [|fuel]; simpl.
  { by rewrite (proj2 (Nat.leb_le _ _)) by lia. }
  destruct (length q <=? i)%nat eqn:E; [done|]. breflect.
  destruct (lexeme_at d q i) as [x j] eqn:Ex. simpl. f_equal.
  apply lexeme_at_bounds in Ex; [|done].
  rewrite (IHf fuel ltac:(lia)) by lia.
  destruct (length q <=? j)%nat eqn:Ej; breflect.
  { by replace (length q - j)%nat with 0%nat by lia. }
  by rewrite (IHf (length q - j)%nat ltac:(lia) j) by lia; rewrite (proj2 (Nat.leb_gt _ _) Ej).
Qed.

Definition lexemes_at d q i := lexemes_from (length q - i) d q i.

Lemma lexemes_at_cons d q i x j :
  (i < length q)%nat -> lexeme_at d q i = (x, j) ->
  lexemes_at d q i = x :: lexemes_at d q j.
Proof.
  intros Hi Hx. unfold lexemes_at. rewrite (lexemes_unfold _ d q i) by lia.
  by rewrite (proj2 (Nat.leb_gt _ _) Hi), Hx.
Qed.

Lemma lexemes_at_nil d q i : (length q <= i)%nat -> lexemes_at d q i = [].
Proof. intros Hi. unfold lexemes_at. by replace (length q - i)%nat with 0%nat by lia. Qed.

(** Induction along the lexemes of a query. *)
Lemma lexemes_ind d q (P : nat -> list lexeme -> Prop) :
  (forall i, (length q <= i)%nat -> P i []) ->
  (forall i x j, (i < length q)%nat -> (i < j <= length q)%nat -> lexeme_at d q i = (x, j) ->
     P j (lexemes_at d q j) -> P i (x :: lexemes_at d q j)) ->
  forall i, P i (lexemes_at d q i).
Proof.
  intros Hn Hc i. remember (length q - i)%nat as m eqn:Hm. revert i Hm.
  induction (lt_wf m) as [m _ IH]. intros i Hm.
  destruct (Nat.le_gt_cases (length q) i) as [Hi|Hi]; [rewrite lexemes_at_nil; auto|].
  destruct (lexeme_at d q i) as [x j] eqn:Ex.
  rewrite (lexemes_at_cons d q i x j) by done.
  pose proof (lexeme_at_bounds _ _ _ _ _ Hi Ex).
  apply Hc; try done. apply (IH (length q - j)%nat); lia.
Qed.

Section BuildLemmas.
Context {V : Type} (d : string) (q : bytes) (params : gmap bytes V).

(** [buildSQL]'s loop as a function of the remaining lexemes. *)
Fixpoint build_lexemes (l : list lexeme) (i : Z) (out : bytes) (args : list V)
    : result (bytes * list V) :=
  match l with
  | [] => Ok (out, args)
  | Param n :: l' =>
      match params !! n with
      | None => Err "missing sql param"
      | Some v => build_lexemes l' (i + 1) (out ++ placeholder d (i + 1)) (args ++ [v])
      end
  | x :: l' => build_lexemes l' i (out ++ lexeme_source x) args
  end.

Definition build_from (p : nat) (i : Z) (out : bytes) (args : list V) :=
  loop (S (length q)) (build_body d q params) (p, i, out, args).

(** One iteration of [buildSQL] handles one lexeme. *)
Lemma build_body_lexeme p i out args x j :
  (p < length q)%nat -> lexeme_at d q p = (x, j) ->
  build_body d q params (p, i, out, args) =
    match x with
    | Param n =>
        match params !! n with
        | None => inr (Err "missing sql param")
        | Some v => inl (j, i + 1, out ++ placeholder d (i + 1), args ++ [v])
        end
    | _ => inl (j, i, out ++ lexeme_source x, args)
    end.
Proof.
  intros Hp. unfold build_body, lexeme_at. rewrite (proj2 (Nat.leb_gt _ _) Hp).
  cbv zeta. destruct (ProtectedRegionEnd d q p) as [n|]; [by intros [= <- <-]|].
  destruct (byte_at q p =? 58); [|by intros [= <- <-]].
  destruct (_ && _); [by intros [= <- <-]|].
  destruct (ParameterName _) as [name n]. destruct (0 <? n)%nat; intros [= <- <-]; [|done].
  destruct (params !! name); [|done]. do 4 f_equal. lia.
Qed.

Lemma build_dec st st' :
  build_body d q params st = inl st' -> (length q - st'.1.1.1 < length q - st.1.1.1)%nat.
Proof.
  destruct st as [[[p i] out] args]. intros Hb.
  destruct (Nat.le_gt_cases (length q) p) as [Hp|Hp].
  { unfold build_body in Hb. by rewrite (proj2 (Nat.leb_le _ _) Hp) in Hb. }
  destruct (lexeme_at d q p) as [x j] eqn:Ex.
  rewrite (build_body_lexeme _ _ _ _ x j) in Hb by done.
  apply lexeme_at_bounds in Ex; [|done]. destruct x; repeat case_match; simplify_eq; simpl; lia.
Qed.

Lemma build_from_lexemes p :
  forall i out args, build_from p i out args = Some (build_lexemes (lexemes_at d q p) i out args).
Proof.
  assert (forall p i out args, build_from p i out args =
    match build_body d q params (p, i, out, args) with
    | inl (p', i', out', args') => build_from p' i' out' args' | inr r => Some r end) as Hunf.
  { intros p' i out args. unfold build_from at 1.
    rewrite (loop_step _ (fun st => length q - st.1.1.1)%nat (fun _ => True)); [|by intros; eauto using build_dec|done|simpl; lia].
    by destruct (build_body d q params (p', i, out, args)) as [[[[? ?] ?] ?]|]. }
  refine (lexemes_ind d q (fun p l => forall i out args,
    build_from p i out args = Some (build_lexemes l i out args)) _ _ p).
  - intros p' Hp i out args. rewrite Hunf. unfold build_body.
    by rewrite (proj2 (Nat.leb_le _ _) Hp).
  - intros p' x j Hp Hj Hx IH i out args.
    rewrite Hunf, (build_body_lexeme _ _ _ _ x j) by done.
    destruct x; simpl; try by rewrite IH. destruct (params !! name); [by rewrite IH|done].
Qed.

Lemma build_lexemes_spec l i out args :
  build_lexemes l i out args =
    match mapM (fun n => params !! n) (lexeme_params l) with
    | None => Err "missing sql param"
    | Some vs => Ok (out ++ render d i l, args ++ vs)
    end.
Proof.
  revert i out args. induction l as [|x l IH]; intros i out args; simpl.
  { by rewrite !app_nil_r. }
  destruct x as [t| |n|c]; simpl; try (rewrite IH; destruct (mapM _ _); [|done]; by rewrite <- app_assoc).
  destruct (params !! n) as [v|]; simpl; [|done].
  rewrite IH. unfold lexeme_params. destruct (mapM _ _); simpl; [|done]. by rewrite <- !app_assoc.
Qed.
End BuildLemmas.

Lemma parameters_from_lexemes d q p :
  forall names, loop (S (length q)) (parameters_body d q) (p, names) =
    Some (names ++ lexeme_params (lexemes_at d q p)).
Proof.
  assert (forall p names x j, (p < length q)%nat -> lexeme_at d q p = (x, j) ->
    parameters_body d q (p, names) =
      inl (j, match x with Param n => names ++ [n] | _ => names end)) as Hb.
  { intros p' names x j Hp. unfold parameters_body, lexeme_at. rewrite (proj2 (Nat.leb_gt _ _) Hp).
    destruct (ProtectedRegionEnd d q p') as [n|]; [by intros [= <- <-]|].
    destruct (byte_at q p' =? 58); [|by intros [= <- <-]].
    destruct (_ && _); [by intros [= <- <-]|].
    destruct (ParameterName _) as [name n]. by destruct (0 <? n)%nat; intros [= <- <-]. }
  assert (forall st, loop (S (length q)) (parameters_body d q) st =
    match parameters_body d q st with
    | inl st' => loop (S (length q)) (parameters_body d q) st' | inr r => Some r end) as Hunf.
  { intros st. apply (loop_step _ (fun st => length q - st.1)%nat (fun _ => True)); [|done|lia].
    intros [p' names] st' _ Hs. split; [done|].
    destruct (Nat.le_gt_cases (length q) p') as [Hp|Hp].
    { unfold parameters_body in Hs. by rewrite (proj2 (Nat.leb_le _ _) Hp) in Hs. }
    destruct (lexeme_at d q p') as [x j] eqn:Ex. rewrite (Hb p' names x j Hp Ex) in Hs.
    apply lexeme_at_bounds in Ex; [|done]. simplify_eq. simpl. lia. }
  refine (lexemes_ind d q (fun p l => forall names, loop (S (length q)) (parameters_body d q) (p, names) =
    Some (names ++ lexeme_params l)) _ _ p).
  - intros p' Hp names. rewrite Hunf. unfold parameters_body.
    rewrite (proj2 (Nat.leb_le _ _) Hp). by rewrite app_nil_r.
  - intros p' x j Hp Hj Hx IH names. rewrite Hunf, (Hb p' names x j Hp Hx), IH.
    destruct x; simpl; try done. by rewrite <- app_assoc.
Qed.

Lemma lexemes_source d q p : concat (lexeme_source <$> lexemes_at d q p) = drop p q.
Proof.
  refine (lexemes_ind d q (fun p l => concat (lexeme_source <$> l) = drop p q) _ _ p).
  - intros i Hi. by rewrite drop_ge.
  - intros i x j Hi Hj Hx IH. rewrite fmap_cons. cbn [concat].
    rewrite IH, (lexeme_at_source d q i x j) by done.
    unfold slice. rewrite <- (take_drop (j - i) (drop i q)) at 2. f_equal.
    rewrite drop_drop. f_equal. lia.
Qed.

Lemma lexemes_whole d q : lexemes d q = lexemes_at d q 0.
Proof. unfold lexemes, lexemes_at. by rewrite Nat.sub_0_r. Qed.

(* ------------------------------------------------------------------ *)
(** ** Properties *)

(** a protected region (quoted text, a comment, a dollar or alternative quote)
    found at a position of the query ends strictly behind it and within the query,
    for every driver: every scanner that jumps to its end makes progress, and never
    indexes out of range behind it. *)
Theorem protected_region_progress (driver : string) (query : bytes) (start next : nat) :
  (start < length query)%nat -> ProtectedRegionEnd driver query start = Some next ->
  (start < next <= length query)%nat.
Proof. apply protected_bounds. Qed.

Lemma protected_region_progress_witness :
  (7 < 12 <= length (lit "select 'a;b' x"))%nat.
Proof.
  apply (protected_region_progress "postgres" (lit "select 'a;b' x") 7 12);
    [simpl; lia|vm_compute; reflexivity].
Defined.

(** the scanners terminate: with the fuel the definitions give them, the loops
    of [scanSQLTokens], [hasSingleSQLStatement], [Parameters] and [buildSQL] leave
    with a result, so none of the definitions falls back to its default. *)
Theorem scanners_terminate {V} (driver : string) (query : bytes) (params : gmap bytes V) :
  is_Some (loop (S (length query)) (scan_body driver query) (O, [], true)) /\
  is_Some (loop (S (length query)) (single_body driver query) O) /\
  is_Some (loop (S (length query)) (parameters_body driver query) (O, [])) /\
  is_Some (loop (S (length query)) (build_body driver query params) (O, 0, [], [])).
Proof.
  split; [|split; [|split]].
  - apply (loop_total _ (fun st => length query - st.1.1)%nat (fun _ => True)); [|done|simpl; lia].
    intros s s' _ H. split; [done|]. by eapply scan_dec.
  - apply (loop_total _ (fun i => length query - i)%nat (fun _ => True)); [|done|lia].
    intros s s' _ H. split; [done|]. by eapply single_dec.
  - rewrite parameters_from_lexemes. eauto.
  - fold (build_from driver query params 0 0 [] []). rewrite build_from_lexemes. eauto.
Qed.

(** outside Oracle, the classifier's [Single] flag is exactly the
    single-statement check: the text behind a separator is only trivia. *)
Theorem single_statement_agrees (driver : string) (query : bytes) :
  driver <> "oracle"%string ->
  Single (Classify driver query) = hasSingleSQLStatement driver query.
Proof.
  intros Hd. unfold Classify, scanSQLTokens, hasSingleSQLStatement.
  fold (scan_from driver query 0 [] true). fold (single_from driver query 0).
  destruct (scan_single driver query 0 [] Hd) as (toks & sg & -> & ->). simpl.
  by destruct toks.
Qed.

Lemma single_statement_agrees_witness :
  Single (Classify "postgres" (lit "select 1; -- done")) = true.
Proof.
  rewrite (single_statement_agrees "postgres" (lit "select 1; -- done"));
    [vm_compute; reflexivity|discriminate].
Defined.

(** the lexemes of a query are its text: nothing is lost or added between them. *)
Theorem lexemes_roundtrip (driver : string) (query : bytes) :
  concat (lexeme_source <$> lexemes driver query) = query.
Proof. rewrite lexemes_whole, lexemes_source. apply drop_0. Qed.

(** C30: [buildSQL] binds exactly the parameters that [Parameters] reports, in order
    of occurrence: the statement it returns is the query with every parameter
    lexeme replaced by the next placeholder and all other lexemes, quoted text and
    comments included, unchanged; it fails exactly when one of them has no value. *)
Theorem build_sql_correct {V} (driver : string) (query : bytes) (params : gmap bytes V) :
  query <> [] ->
  buildSQL driver query params =
    match mapM (fun name => params !! name) (Parameters driver query) with
    | None => Err "missing sql param"
    | Some args => Ok (render driver 0 (lexemes driver query), args)
    end.
Proof.
  intros Hq. unfold buildSQL, validateSQLShape, bytes_eqb.
  rewrite bool_decide_eq_false_2 by done. cbn [result_bind].
  pose proof (build_from_lexemes driver query params 0 0 [] []) as Hb. unfold build_from in Hb.
  rewrite Hb, <- lexemes_whole. cbn [default from_option].
  rewrite build_lexemes_spec. unfold Parameters.
  rewrite parameters_from_lexemes, <- lexemes_whole. done.
Qed.

Lemma build_sql_correct_witness :
  buildSQL "postgres" (lit "select ':a', x::int from t where id = :id")
    {[lit "id" := 42]} = Ok (lit "select ':a', x::int from t where id = $1", [42]).
Proof.
  rewrite (build_sql_correct "postgres"); [vm_compute; reflexivity|discriminate].
Defined.
