(* ===== verification/WsFrame.v ===== *)
(** * WebSocket framing

    Models the framing of [internal/ws/ws.go]: [readFrame], [writeFrameStart],
    [ReadText] and [writeFull].  The connection is the list of bytes still to be
    read; the mask a client draws from [crypto/rand] is an argument.  [ReadText]
    returns what the peer sees of it too: the frames it answers with and the calls
    of the pong handler. *)

From stdpp Require Import gmap strings list.
From Stdlib Require Import ZArith Lia.
From S2P Require Import Prelude.
Open Scope Z_scope.

(* ------------------------------------------------------------------ *)
(** ** Definitions *)

Definition maxMessageSize : Z := 16 * 2 ^ 20.

Definition len (s : bytes) : Z := Z.of_nat (length s).

(** [io.ReadFull] of [n] bytes: the bytes and the rest of the stream. *)
Definition ReadFull (n : nat) (s : bytes) : result (bytes * bytes) :=
  if (length s <? n)%nat
  then Err (if (length s =? 0)%nat then "EOF" else "unexpected EOF")
  else Ok (take n s, drop n s).

(** [binary.BigEndian]: [n] bytes of a value, and the value of bytes. *)
Fixpoint be_encode (n : nat) (v : Z) : bytes :=
  match n with
  | O => []
  | S n' => be_encode n' (v / 256) ++ [v mod 256]
  end.
Definition be_decode (s : bytes) : Z := foldl (fun acc b => acc * 256 + b) 0 s.

(** [payload[i] ^= mask[i%4]], from index [i]. *)
Fixpoint apply_mask (mask : bytes) (i : nat) (p : bytes) : bytes :=
  match p with
  | [] => []
  | b :: p' => Z.lxor b (byte_at mask (i mod 4)) :: apply_mask mask (S i) p'
  end.

Record ws_frame := { fin : bool; op : Z; payload : bytes }.

(** The extended payload length, from the seven bits of the second byte. *)
Definition read_length (l : Z) (s : bytes) : result (Z * bytes) :=
  if l =? 126 then
    let* (b, s) := ReadFull 2 s in
    let l := be_decode b in
    if l <? 126 then Err "non-canonical websocket frame length" else Ok (l, s)
  else if l =? 127 then
    let* (b, s) := ReadFull 8 s in
    let l := be_decode b in
    if negb (Z.land l (2 ^ 63) =? 0) || (l <=? 65535)
    then Err "invalid websocket frame length" else Ok (l, s)
  else Ok (l, s).

(** [readFrame]: the frame and the rest of the stream. *)
Definition readFrame (isClient : bool) (s : bytes) : result (ws_frame * bytes) :=
  let* (h, s) := ReadFull 2 s in
  let h0 := byte_at h 0 in
  let h1 := byte_at h 1 in
  let fin := negb (Z.land h0 128 =? 0) in
  if negb (Z.land h0 112 =? 0) then Err "websocket extensions are not supported" else
  let op := Z.land h0 15 in
  let masked := negb (Z.land h1 128 =? 0) in
  if Bool.eqb masked isClient then
    (if isClient then Err "server websocket frame must not be masked"
     else Err "client websocket frame must be masked")
  else
  let* (l, s) := read_length (Z.land h1 127) s in
  if (8 <=? op) && (negb fin || (125 <? l)) then Err "invalid websocket control frame" else
  if maxMessageSize <? l then Err "websocket frame too large" else
  let* (mask, s) := (if masked then ReadFull 4 s else Ok ([0; 0; 0; 0], s)) in
  let* (p, s) := ReadFull (Z.to_nat l) s in
  Ok ({| fin := fin; op := op; payload := if masked then apply_mask mask 0 p else p |}, s).

(** The header bytes [writeFrameStart] lays out before the mask. *)
Definition frame_header (isClient : bool) (b0 : Z) (n : Z) : bytes :=
  let maskBit := if isClient then 128 else 0 in
  if n <? 126 then [b0; Z.lor maskBit n]
  else if n <=? 65535 then [b0; Z.lor maskBit 126] ++ be_encode 2 n
  else [b0; Z.lor maskBit 127] ++ be_encode 8 n.

(** [writeFrameStart]: the frame handed to [writeFull], after [start] has agreed. *)
Definition writeFrameStart (isClient : bool) (mask : bytes) (start : result unit)
    (op : Z) (p : bytes) : result bytes :=
  if (8 <=? op) && (125 <? len p) then Err "websocket control payload too large" else
  let* _ := start in
  Ok (frame_header isClient (Z.lor 128 op) (len p) ++
      (if isClient then mask ++ apply_mask mask 0 p else p)).

(** [WriteText], and a ping with its own check. *)
Definition WriteText (isClient : bool) (mask : bytes) (p : bytes) : result bytes :=
  writeFrameStart isClient mask (Ok tt) 1 p.
Definition WritePing (isClient : bool) (mask : bytes) (p : bytes) : result bytes :=
  if 125 <? len p then Err "websocket ping payload too large"
  else writeFrameStart isClient mask (Ok tt) 9 p.

(** [writeFull] against a writer that takes [n] bytes of each call and may fail:
    the bytes written and the error; [None] when the writer does not return. *)
Fixpoint writeFull (script : list (nat * option string)) (p : bytes)
    : option (bytes * result unit) :=
  match p with
  | [] => Some ([], Ok tt)
  | _ =>
      match script with
      | [] => None
      | (n, Some e) :: _ => Some (take n p, Err e)
      | (n, None) :: script' =>
          if (n =? 0)%nat then Some ([], Err "short write")
          else match writeFull script' (drop n p) with
               | Some (w, r) => Some (take n p ++ w, r)
               | None => None
               end
      end
  end.

(** What [ReadText] does besides reading. *)
Inductive effect :=
| SendPong (p : bytes)
| SendClose (p : bytes)
| PongHandler.

(** One iteration of [ReadText] over the message so far, whether a fragmented
    message has begun, the effects so far and the stream. [pong] is the outcome of
    writing a pong, [closeSent] whether a close frame has been sent before. *)
Definition read_state : Type := bytes * bool * list effect * bytes.

Definition read_body (isClient closeSent : bool) (pong : bytes -> result unit) (st : read_state)
    : read_state + (result bytes * list effect * bytes) :=
  let '(message, fragmented, eff, s) := st in
  match readFrame isClient s with
  | Err e => inr (Err e, eff, s)
  | Ok (f, s) =>
      let p := payload f in
      if op f =? 0 then
        if negb fragmented then inr (Err "unexpected websocket continuation frame", eff, s) else
        if maxMessageSize <? len message + len p then inr (Err "websocket message too large", eff, s) else
        if fin f then inr (Ok (message ++ p), eff, s) else inl (message ++ p, fragmented, eff, s)
      else if op f =? 1 then
        if fragmented then inr (Err "new websocket data frame during fragmented message", eff, s) else
        if fin f then inr (Ok p, eff, s) else inl (message ++ p, true, eff, s)
      else if op f =? 2 then inr (Err "binary websocket messages are not supported", eff, s)
      else if op f =? 8 then
        if len p =? 1 then inr (Err "invalid websocket close payload", eff, s)
        else inr (Err "EOF", if closeSent then eff else eff ++ [SendClose p], s)
      else if op f =? 9 then
        match pong p with
        | Err e => inr (Err e, eff, s)
        | Ok _ => inl (message, fragmented, eff ++ [SendPong p], s)
        end
      else if op f =? 10 then inl (message, fragmented, eff ++ [PongHandler], s)
      else inr (Err "unsupported websocket opcode", eff, s)
  end.

Definition ReadText (isClient closeSent : bool) (pong : bytes -> result unit) (s : bytes)
    : result bytes * list effect * bytes :=
  default (Err "unreachable", [], s)
    (loop (S (length s)) (read_body isClient closeSent pong) ([], false, [], s)).

(** A frame on the wire, as [writeFrameStart] lays it out, with either [fin] bit. *)
Definition encode_frame (isClient : bool) (mask : bytes) (f : ws_frame) : bytes :=
  frame_header isClient (if fin f then Z.lor 128 (op f) else op f) (len (payload f)) ++
  (if isClient then mask ++ apply_mask mask 0 (payload f) else payload f).

(** The frames a peer may send: an opcode of four bits, control frames final and
    short, nothing above the message bound, bytes throughout. *)
Definition frame_ok (f : ws_frame) : Prop :=
  0 <= op f < 16 /\ (8 <= op f -> fin f = true /\ len (payload f) <= 125) /\
  len (payload f) <= maxMessageSize /\ Forall is_byte (payload f).

Definition mask_ok (mask : bytes) : Prop := length mask = 4%nat /\ Forall is_byte mask.

(** A text message sent in fragments, pings between them allowed. *)
Fixpoint fragments (first : bool) (parts : list (list bytes * bytes)) : list ws_frame :=
  match parts with
  | [] => []
  | (pings, part) :: rest =>
      ((fun p => {| fin := true; op := 9; payload := p |}) <$> pings) ++
      {| fin := match rest with [] => true | _ => false end;
         op := if first then 1 else 0; payload := part |} :: fragments false rest
  end.

(** Frames on the wire, each with its mask. *)
Definition wire (isClient : bool) (l : list (bytes * ws_frame)) : bytes :=
  concat ((fun mf => encode_frame isClient mf.1 mf.2) <$> l).

(* ------------------------------------------------------------------ *)
(** ** Lemmas: bytes and bits *)

Lemma lxor_byte a b : is_byte a -> is_byte b -> is_byte (Z.lxor a b).
Proof.
  unfold is_byte. intros Ha Hb. split; [apply Z.lxor_nonneg; lia|].
  destruct (Z.eq_dec (Z.lxor a b) 0) as [->|Hn]; [lia|].
  assert (0 <= Z.lxor a b) by (apply Z.lxor_nonneg; lia).
  apply (Z.log2_lt_pow2 (Z.lxor a b) 8); [lia|].
  pose proof (Z.log2_lxor a b ltac:(lia) ltac:(lia)).
  assert (Z.log2 a < 8) by (destruct (Z.eq_dec a 0) as [->|]; [done|apply Z.log2_lt_pow2; lia]).
  assert (Z.log2 b < 8) by (destruct (Z.eq_dec b 0) as [->|]; [done|apply Z.log2_lt_pow2; lia]).
  lia.
Qed.

Lemma length_apply_mask mask i p : length (apply_mask mask i p) = length p.
Proof. revert i. induction p; intros i; simpl; auto. Qed.

Lemma apply_mask_twice mask i p : apply_mask mask i (apply_mask mask i p) = p.
Proof.
  revert i. induction p as [|b p IH]; intros i; [done|]. cbn [apply_mask].
  rewrite IH, Z.lxor_assoc, Z.lxor_nilpotent, Z.lxor_0_r. done.
Qed.

Lemma byte_at_is_byte s i : (i < length s)%nat -> Forall is_byte s -> is_byte (byte_at s i).
Proof.
  intros Hi Hs. destruct (lookup_lt_is_Some_2 s i Hi) as [x Hx].
  unfold byte_at. rewrite Hx. simpl. by apply (Forall_lookup_1 _ _ _ _ Hs Hx).
Qed.

Lemma apply_mask_bytes mask i p :
  mask_ok mask -> Forall is_byte p -> Forall is_byte (apply_mask mask i p).
Proof.
  intros [Hl Hm] Hp. revert i. induction Hp as [|b p Hb Hp IH]; intros i; constructor; [|apply IH].
  apply lxor_byte; [done|]. apply byte_at_is_byte; [|done].
  rewrite Hl. apply Nat.mod_upper_bound. lia.
Qed.

Lemma length_be_encode n v : length (be_encode n v) = n.
Proof. revert v. induction n as [|n IH]; intros v; [done|]. simpl. rewrite length_app, IH. simpl. lia. Qed.

Lemma be_decode_app s b : be_decode (s ++ [b]) = be_decode s * 256 + b.
Proof. unfold be_decode. by rewrite foldl_app. Qed.

Lemma be_decode_encode n v : 0 <= v < 256 ^ Z.of_nat n -> be_decode (be_encode n v) = v.
Proof.
  revert v. induction n as [|n IH]; intros v Hv.
  - simpl in Hv. change (be_decode (be_encode 0 v)) with 0. lia.
  - cbn [be_encode]. rewrite be_decode_app, IH.
    + pose proof (Z.div_mod v 256). lia.
    + rewrite Nat2Z.inj_succ, Z.pow_succ_r in Hv by lia.
      split; [apply Z.div_pos; lia|]. apply Z.div_lt_upper_bound; lia.
Qed.

Lemma be_decode_range s : Forall is_byte s -> 0 <= be_decode s < 256 ^ Z.of_nat (length s).
Proof.
  induction s as [|b s IH] using rev_ind; intros Hs; [unfold be_decode; simpl; lia|].
  apply Forall_app in Hs as [Hs Hb]. apply Forall_inv in Hb. unfold is_byte in Hb.
  rewrite be_decode_app, length_app. simpl length.
  rewrite Nat2Z.inj_add, Z.pow_add_r by lia. specialize (IH Hs).
  change (256 ^ Z.of_nat 1) with 256. lia.
Qed.

Lemma be_encode_decode s : Forall is_byte s -> be_encode (length s) (be_decode s) = s.
Proof.
  induction s as [|b s IH] using rev_ind; intros Hs; [done|].
  apply Forall_app in Hs as [Hs Hb]. apply Forall_inv in Hb. unfold is_byte in Hb.
  rewrite be_decode_app, length_app, Nat.add_1_r. cbn [be_encode].
  rewrite Z.add_comm, Z.div_add, Z.mod_add, Z.div_small, Z.mod_small, Z.add_0_l by lia.
  by rewrite IH.
Qed.

Lemma be_encode_bytes n v : Forall is_byte (be_encode n v).
Proof.
  revert v. induction n as [|n IH]; intros v; [constructor|]. cbn [be_encode].
  apply Forall_app. split; [apply IH|]. constructor; [|constructor].
  unfold is_byte. pose proof (Z.mod_pos_bound v 256). lia.
Qed.

(** The two header bytes, bit by bit. *)
Lemma first_byte_bits (o : Z) (f : bool) :
  0 <= o < 16 ->
  let b := if f then Z.lor 128 o else o in
  negb (Z.land b 128 =? 0) = f /\ Z.land b 112 = 0 /\ Z.land b 15 = o /\ is_byte b.
Proof.
  intros Ho. cbv zeta.
  pose proof (byte_forall (fun o => if o <? 16 then
    (Z.land (Z.lor 128 o) 128 =? 128) && (Z.land (Z.lor 128 o) 112 =? 0) &&
    (Z.land (Z.lor 128 o) 15 =? o) && (Z.land o 128 =? 0) && (Z.land o 112 =? 0) &&
    (Z.land o 15 =? o) && (Z.lor 128 o =? 128 + o) else true) ltac:(vm_compute; reflexivity) o) as H.
  unfold is_byte in *. rewrite (proj2 (Z.ltb_lt o 16)) in H by lia.
  specialize (H ltac:(lia)). breflect.
  destruct f; (split; [|split; [|split]]); try lia.
Qed.

Lemma second_byte_bits (l : Z) (m : bool) :
  0 <= l < 128 ->
  let b := Z.lor (if m then 128 else 0) l in
  negb (Z.land b 128 =? 0) = m /\ Z.land b 127 = l /\ is_byte b.
Proof.
  intros Hl. cbv zeta.
  pose proof (byte_forall (fun l => if l <? 128 then
    (Z.land (Z.lor 128 l) 128 =? 128) && (Z.land (Z.lor 128 l) 127 =? l) &&
    (Z.land l 128 =? 0) && (Z.land l 127 =? l) && (Z.lor 128 l =? 128 + l) else true)
    ltac:(vm_compute; reflexivity) l) as H.
  unfold is_byte in *. rewrite (proj2 (Z.ltb_lt l 128)) in H by lia.
  specialize (H ltac:(lia)). breflect.
  destruct m; rewrite ?Z.lor_0_l; (split; [|split]); try lia.
Qed.

Lemma header_byte_join (b : Z) :
  is_byte b -> Z.land b 112 = 0 ->
  b = (if negb (Z.land b 128 =? 0) then Z.lor 128 (Z.land b 15) else Z.land b 15) /\
  0 <= Z.land b 15 < 16.
Proof.
  intros Hb Hr.
  pose proof (byte_forall (fun b => if Z.land b 112 =? 0 then
    (b =? (if negb (Z.land b 128 =? 0) then Z.lor 128 (Z.land b 15) else Z.land b 15)) &&
    (0 <=? Z.land b 15) && (Z.land b 15 <? 16) else true) ltac:(vm_compute; reflexivity) b Hb) as H.
  cbv beta in H. rewrite Hr in H. simpl (0 =? 0) in H. cbv iota in H. breflect. lia.
Qed.

Lemma length_byte_join (b : Z) :
  is_byte b ->
  b = Z.lor (if negb (Z.land b 128 =? 0) then 128 else 0) (Z.land b 127) /\ 0 <= Z.land b 127 < 128.
Proof.
  intros Hb.
  pose proof (byte_forall (fun b =>
    (b =? Z.lor (if negb (Z.land b 128 =? 0) then 128 else 0) (Z.land b 127)) &&
    (0 <=? Z.land b 127) && (Z.land b 127 <? 128)) ltac:(vm_compute; reflexivity) b Hb) as H.
  cbv beta in H. breflect. lia.
Qed.

(* ------------------------------------------------------------------ *)
(** ** Lemmas: reading what was written *)

Lemma ReadFull_app a s : ReadFull (length a) (a ++ s) = Ok (a, s).
Proof.
  unfold ReadFull. rewrite length_app.
  destruct (_ <? _)%nat eqn:E; breflect; [lia|]. by rewrite take_app_length, drop_app_length.
Qed.

Lemma ReadFull_Ok n s a r : ReadFull n s = Ok (a, r) -> s = a ++ r /\ length a = n.
Proof.
  unfold ReadFull. destruct (_ <? _)%nat eqn:E; [done|]. intros [= <- <-]. breflect.
  rewrite take_drop, length_take. split; [done|lia].
Qed.

(** The length field of a header. *)
Definition length_field (n : Z) : Z := if n <? 126 then n else if n <=? 65535 then 126 else 127.
Definition length_extra (n : Z) : bytes :=
  if n <? 126 then [] else if n <=? 65535 then be_encode 2 n else be_encode 8 n.

Lemma frame_header_split isClient b0 n :
  frame_header isClient b0 n =
    [b0; Z.lor (if isClient then 128 else 0) (length_field n)] ++ length_extra n.
Proof. unfold frame_header, length_field, length_extra. cbv zeta. by repeat case_test. Qed.

Lemma length_field_range n : 0 <= n -> 0 <= length_field n < 128.
Proof. unfold length_field. intros. repeat case_test; breflect; lia. Qed.

Lemma land_2_63 l : 0 <= l < 2 ^ 63 -> Z.land l (2 ^ 63) = 0.
Proof.
  intros Hl. apply Z.bits_inj'. intros i Hi. rewrite Z.land_spec, Z.bits_0, Z.pow2_bits_eqb by lia.
  destruct (Z.eqb_spec 63 i); [|by rewrite andb_false_r]. subst.
  rewrite andb_true_r. apply Z.testbit_false; [lia|]. by rewrite Z.div_small by lia.
Qed.

Lemma read_length_encode n s :
  0 <= n <= maxMessageSize -> read_length (length_field n) (length_extra n ++ s) = Ok (n, s).
Proof.
  unfold maxMessageSize. intros Hn. unfold read_length, length_field, length_extra.
  destruct (n <? 126) eqn:E1; breflect.
  - destruct (n =? 126) eqn:E2; breflect; [lia|]. destruct (n =? 127) eqn:E3; breflect; [lia|]. done.
  - destruct (n <=? 65535) eqn:E2; breflect.
    + simpl (126 =? 126). cbv iota. rewrite <- (length_be_encode 2 n) at 1. rewrite ReadFull_app.
      cbn [result_bind]. cbv zeta. rewrite be_decode_encode by (simpl; lia).
      by rewrite (proj2 (Z.ltb_ge _ _)) by lia.
    + simpl (127 =? 126). simpl (127 =? 127). cbv iota.
      rewrite <- (length_be_encode 8 n) at 1. rewrite ReadFull_app.
      cbn [result_bind]. cbv zeta. rewrite be_decode_encode by (change (256 ^ Z.of_nat 8) with (2 ^ 64); lia).
      rewrite land_2_63 by lia. simpl. by rewrite (proj2 (Z.leb_gt _ _)) by lia.
Qed.

Lemma read_length_Ok l s n r :
  0 <= l < 128 -> Forall is_byte s -> read_length l s = Ok (n, r) -> n <= maxMessageSize ->
  l = length_field n /\ s = length_extra n ++ r /\ 0 <= n.
Proof.
  unfold maxMessageSize. intros Hl Hs. unfold read_length, length_field, length_extra.
  destruct (l =? 126) eqn:E1; [|destruct (l =? 127) eqn:E2]; breflect.
  - destruct (ReadFull 2 s) as [[b s']|] eqn:Er; [|done]. cbn [result_bind]. cbv zeta.
    apply ReadFull_Ok in Er as [-> Hb]. apply Forall_app in Hs as [Hbb _].
    pose proof (be_decode_range b Hbb) as Hr. rewrite Hb in Hr. simpl in Hr.
    destruct (be_decode b <? 126) eqn:E; [done|]. intros [= <- <-] _.
    rewrite (proj2 (Z.leb_le (be_decode b) 65535)) by lia. rewrite E.
    pose proof (be_encode_decode b Hbb) as He. rewrite Hb in He. rewrite He.
    split; [lia|]. split; [done|lia].
  - destruct (ReadFull 8 s) as [[b s']|] eqn:Er; [|done]. cbn [result_bind]. cbv zeta.
    apply ReadFull_Ok in Er as [-> Hb]. apply Forall_app in Hs as [Hbb _].
    pose proof (be_decode_range b Hbb) as Hr.
    destruct (_ || _) eqn:E; [done|]. intros [= <- <-] Hmax. breflect.
    rewrite (proj2 (Z.leb_gt (be_decode b) 65535)), (proj2 (Z.ltb_ge (be_decode b) 126)) by lia.
    pose proof (be_encode_decode b Hbb) as He. rewrite Hb in He. rewrite He.
    split; [lia|]. split; [done|lia].
  - intros [= <- <-] _. rewrite (proj2 (Z.ltb_lt l 126)) by lia. split; [done|]. split; [done|lia].
Qed.

Lemma read_encode_frame isClient mask f s :
  frame_ok f -> mask_ok mask ->
  readFrame (negb isClient) (encode_frame isClient mask f ++ s) = Ok (f, s).
Proof.
  intros (Hop & Hctl & Hlen & _) [Hml _]. unfold readFrame, encode_frame.
  set (b0 := if fin f then Z.lor 128 (op f) else op f).
  set (n := len (payload f)).
  assert (0 <= n) as Hn by (unfold n, len; lia).
  rewrite frame_header_split, <- !app_assoc.
  set (b1 := Z.lor (if isClient then 128 else 0) (length_field n)).
  change 2%nat with (length [b0; b1]) at 1. rewrite ReadFull_app. cbn [result_bind]. cbv zeta.
  change (byte_at [b0; b1] 0) with b0. change (byte_at [b0; b1] 1) with b1.
  destruct (first_byte_bits (op f) (fin f) Hop) as (Hf & Hr & Ho & _). fold b0 in Hf, Hr, Ho.
  destruct (second_byte_bits (length_field n) isClient (length_field_range n Hn)) as (Hm & Hl & _).
  fold b1 in Hm, Hl. rewrite Hf, Hr, Ho, Hm, Hl. simpl (negb (0 =? 0)). cbv iota.
  assert (Bool.eqb isClient (negb isClient) = false) as -> by by destruct isClient.
  rewrite read_length_encode by lia. cbn [result_bind].
  assert ((8 <=? op f) && (negb (fin f) || (125 <? n)) = false) as ->.
  { destruct (8 <=? op f) eqn:E; [|done]. breflect. destruct (Hctl E) as [-> H]. simpl.
    apply Z.ltb_ge. unfold n. lia. }
  rewrite (proj2 (Z.ltb_ge maxMessageSize n)) by done.
  assert (Z.to_nat n = length (payload f)) as Hnn by (unfold n, len; lia).
  destruct isClient.
  - rewrite <- app_assoc. rewrite <- Hml, ReadFull_app. cbn [result_bind].
    rewrite Hnn, <- (length_apply_mask mask 0 (payload f)), ReadFull_app. cbn [result_bind].
    rewrite apply_mask_twice. by destruct f.
  - cbn [result_bind]. rewrite Hnn, ReadFull_app. cbn [result_bind]. by destruct f.
Qed.

Lemma readFrame_Ok isClient s f r :
  Forall is_byte s -> readFrame isClient s = Ok (f, r) ->
  frame_ok f /\ exists mask, mask_ok mask /\ s = encode_frame (negb isClient) mask f ++ r.
Proof.
  intros Hs. unfold readFrame.
  destruct (ReadFull 2 s) as [[h s1]|] eqn:E1; [|done]. cbn [result_bind]. cbv zeta.
  apply ReadFull_Ok in E1 as [-> Hh]. apply Forall_app in Hs as [Hhb Hs1].
  destruct h as [|b0 [|b1 [|]]]; try done.
  change (byte_at [b0; b1] 0) with b0. change (byte_at [b0; b1] 1) with b1.
  apply Forall_cons in Hhb as [Hb0 Hb1]. apply Forall_inv in Hb1.
  destruct (negb (Z.land b0 112 =? 0)) eqn:Er; [done|]. breflect.
  destruct (Bool.eqb _ isClient) eqn:Em; [by destruct isClient|].
  assert (negb (Z.land b1 128 =? 0) = negb isClient) as Hm
    by (destruct (negb (Z.land b1 128 =? 0)), isClient; done).
  destruct (length_byte_join b1 Hb1) as [Hj1 Hl]. destruct (header_byte_join b0 Hb0 Er) as [Hj0 Ho].
  destruct (read_length (Z.land b1 127) s1) as [[l s2]|] eqn:E2; [|done]. cbn [result_bind].
  destruct (_ && _) eqn:Ec; [done|].
  destruct (maxMessageSize <? l) eqn:El; [done|]. breflect.
  destruct (read_length_Ok _ _ _ _ Hl Hs1 E2 El) as (Hf & -> & Hl0).
  apply Forall_app in Hs1 as [_ Hs2].
  rewrite Hm in *. destruct isClient; cbn [negb] in *.
  - cbn [result_bind]. destruct (ReadFull (Z.to_nat l) s2) as [[p s3]|] eqn:E4; [|done].
    cbn [result_bind]. apply ReadFull_Ok in E4 as [-> Hp]. intros [= <- <-].
    apply Forall_app in Hs2 as [Hpb _].
    assert (len p = l) as Hlp by (unfold len; lia).
    split; [|exists [0; 0; 0; 0]; split; [split; [done|]|]].
    + unfold frame_ok. simpl. rewrite Hlp. split; [lia|]. split; [|by split].
      intros H8. rewrite (proj2 (Z.leb_le _ _) H8) in Ec. simpl in Ec. breflect.
      destruct Ec as [|Ec]; [done|]. breflect. split; [by apply negb_true_iff, Z.eqb_neq|lia].
    + repeat constructor; unfold is_byte; lia.
    + unfold encode_frame. simpl. rewrite Hlp, frame_header_split, <- Hf.
      rewrite <- Hj0. rewrite <- !app_assoc. by rewrite Hj1 at 1.
  - destruct (ReadFull 4 s2) as [[mask s3]|] eqn:E3; [|done]. cbn [result_bind].
    destruct (ReadFull (Z.to_nat l) s3) as [[p s4]|] eqn:E4; [|done].
    cbn [result_bind]. apply ReadFull_Ok in E4 as [-> Hp]. apply ReadFull_Ok in E3 as [-> Hml].
    intros [= <- <-]. apply Forall_app in Hs2 as [Hmb Hpb]. apply Forall_app in Hpb as [Hpb _].
    assert (len (apply_mask mask 0 p) = l) as Hlp by (unfold len; rewrite length_apply_mask; lia).
    split; [|exists mask; split; [done|]].
    + unfold frame_ok. simpl. rewrite Hlp. split; [lia|].
      split; [|split; [done|by apply apply_mask_bytes]].
      intros H8. rewrite (proj2 (Z.leb_le _ _) H8) in Ec. simpl in Ec. breflect.
      destruct Ec as [|Ec]; [done|]. breflect. split; [by apply negb_true_iff, Z.eqb_neq|lia].
    + unfold encode_frame. simpl. rewrite Hlp, frame_header_split, <- Hf, <- Hj0, apply_mask_twice.
      rewrite <- !app_assoc. by rewrite Hj1 at 1.
Qed.

(* ------------------------------------------------------------------ *)
(** ** Lemmas: messages *)

Lemma read_length_rest l s n r : read_length l s = Ok (n, r) -> (length r <= length s)%nat.
Proof.
  unfold read_length. destruct (l =? 126); [|destruct (l =? 127)].
  - destruct (ReadFull 2 s) as [[b s']|] eqn:E; [|done]. cbn [result_bind]. cbv zeta.
    apply ReadFull_Ok in E as [-> _]. case_test; [done|]. intros [= <- <-]. rewrite length_app. lia.
  - destruct (ReadFull 8 s) as [[b s']|] eqn:E; [|done]. cbn [result_bind]. cbv zeta.
    apply ReadFull_Ok in E as [-> _]. case_test; [done|]. intros [= <- <-]. rewrite length_app. lia.
  - by intros [= <- <-].
Qed.

Lemma readFrame_rest isClient s f r :
  readFrame isClient s = Ok (f, r) ->
  (length r + 2 <= length s)%nat /\ len (payload f) <= maxMessageSize.
Proof.
  unfold readFrame. destruct (ReadFull 2 s) as [[h s1]|] eqn:E1; [|done]. cbn [result_bind]. cbv zeta.
  apply ReadFull_Ok in E1 as [-> Hh].
  destruct (negb (Z.land (byte_at h 0) 112 =? 0)); [done|]. destruct (Bool.eqb _ _); [by destruct isClient|].
  destruct (read_length _ s1) as [[l s2]|] eqn:E2; [|done]. cbn [result_bind].
  apply read_length_rest in E2. destruct (_ && _); [done|].
  destruct (maxMessageSize <? l) eqn:El; [done|]. breflect.
  set (masked := negb (Z.land (byte_at h 1) 128 =? 0)).
  destruct (if masked then ReadFull 4 s2 else _) as [[mask s3]|] eqn:E3; [|done]. cbn [result_bind].
  assert (length s3 <= length s2)%nat.
  { destruct masked; [|by injection E3 as _ <-]. apply ReadFull_Ok in E3 as [-> _]. rewrite length_app. lia. }
  destruct (ReadFull (Z.to_nat l) s3) as [[p s4]|] eqn:E4; [|done]. cbn [result_bind].
  apply ReadFull_Ok in E4 as [-> Hp]. intros [= <- <-]. simpl. rewrite !length_app in *.
  split; [lia|]. unfold len. unfold maxMessageSize in *.
  destruct masked; rewrite ?length_apply_mask; lia.
Qed.

Section Messages.
Context (isClient closeSent : bool) (pong : bytes -> result unit).
Abbreviation body := (read_body isClient closeSent pong).

Lemma read_body_dec st st' : body st = inl st' -> (length st'.2 < length st.2)%nat.
Proof.
  destruct st as [[[m fr] eff] s]. unfold read_body.
  destruct (readFrame isClient s) as [[f r]|] eqn:E; [|done].
  apply readFrame_rest in E as [Hr _]. cbv zeta.
  repeat case_match; try done; intros [= <-]; simpl; lia.
Qed.

(** The message collected so far is within bounds, and empty before a fragment. *)
Definition read_inv (st : read_state) : Prop :=
  let '(m, fr, _, _) := st in len m <= maxMessageSize /\ (fr = false -> m = []).

Lemma read_inv_step st st' : read_inv st -> body st = inl st' -> read_inv st'.
Proof.
  destruct st as [[[m fr] eff] s]. intros [Hm Hf]. unfold read_body.
  destruct (readFrame isClient s) as [[f r]|] eqn:E; [|done].
  apply readFrame_rest in E as [_ Hl]. cbv zeta.
  destruct (op f =? 0).
  - destruct (negb fr) eqn:Ef; [done|]. destruct (_ <? _) eqn:El; [done|].
    destruct (fin f); [done|]. intros [= <-]. breflect. subst. unfold len in *.
    simpl. unfold len. rewrite length_app. split; [lia|done].
  - destruct (op f =? 1).
    + destruct fr; [done|]. destruct (fin f); [done|]. intros [= <-].
      rewrite (Hf eq_refl). simpl. split; [done|done].
    + repeat case_match; try done; intros [= <-]; by split.
Qed.

Lemma read_inv_exit st m eff r :
  read_inv st -> body st = inr (Ok m, eff, r) -> len m <= maxMessageSize.
Proof.
  destruct st as [[[m0 fr] eff0] s]. intros [Hm Hf]. unfold read_body.
  destruct (readFrame isClient s) as [[f r']|] eqn:E; [|done].
  apply readFrame_rest in E as [_ Hl]. cbv zeta.
  destruct (op f =? 0).
  - destruct (negb fr); [done|]. destruct (_ <? _) eqn:El; [done|].
    destruct (fin f); [|done]. intros [= <- _ _]. breflect. unfold len in *. rewrite length_app. lia.
  - destruct (op f =? 1).
    + destruct fr; [done|]. destruct (fin f); [|done]. by intros [= <- _ _].
    + repeat case_match; try done.
Qed.

Definition read_from (st : read_state) := loop (S (length st.2)) body st.

Lemma read_from_unfold st :
  read_from st = match body st with inl st' => read_from st' | inr r => Some r end.
Proof.
  unfold read_from at 1.
  rewrite (loop_step body (fun st => length st.2) (fun _ => True)); [|eauto using read_body_dec|done|lia].
  destruct (body st) as [st'|r] eqn:E; [|done].
  destruct (loop_total body (fun st => length st.2) (fun _ => True)) with (fuel := S (length st'.2)) (s := st')
    as [r Hr]; [eauto using read_body_dec|done|lia|].
  unfold read_from. rewrite Hr. apply (loop_fuel_mono _ _ _ _ _ Hr).
  apply read_body_dec in E. lia.
Qed.
End Messages.

(** One frame of the wire, read by the other side: a ping between fragments, and a
    fragment of a text message. *)
Section Wire.
Context (isClient closeSent : bool) (pong : bytes -> result unit) (mask : bytes) (Hmask : mask_ok mask).
Abbreviation reader := (read_from (negb isClient) closeSent pong).

Lemma read_wire_ping m fr eff p s :
  frame_ok {| fin := true; op := 9; payload := p |} -> pong p = Ok tt ->
  reader (m, fr, eff, encode_frame isClient mask {| fin := true; op := 9; payload := p |} ++ s) =
    reader (m, fr, eff ++ [SendPong p], s).
Proof.
  intros Hf Hp. rewrite read_from_unfold. unfold read_body. rewrite read_encode_frame by done.
  simpl. by rewrite Hp.
Qed.

Lemma read_wire_data m (fr : bool) eff (final : bool) p s :
  let f := {| fin := final; op := if fr then 0 else 1; payload := p |} in
  frame_ok f -> (fr = false -> m = []) -> len m + len p <= maxMessageSize ->
  reader (m, fr, eff, encode_frame isClient mask f ++ s) =
    if final then Some (Ok (m ++ p), eff, s) else reader (m ++ p, true, eff, s).
Proof.
  cbv zeta. intros Hf Hm Hl. rewrite read_from_unfold. unfold read_body.
  rewrite read_encode_frame by done. destruct fr; simpl.
  - rewrite (proj2 (Z.ltb_ge _ _)) by done. by destruct final.
  - rewrite (Hm eq_refl). by destruct final.
Qed.
End Wire.

(** The pings of a fragmented message, in order. *)
Definition pings_of (parts : list (list bytes * bytes)) : list bytes := concat parts.*1.

Section Fragments.
Context (isClient closeSent : bool) (pong : bytes -> result unit).
Abbreviation reader := (read_from (negb isClient) closeSent pong).

Lemma read_wire_pings ps l m fr eff s :
  l.*2 = ((fun p => {| fin := true; op := 9; payload := p |}) <$> ps) ->
  Forall mask_ok l.*1 -> Forall frame_ok l.*2 -> Forall (fun p => pong p = Ok tt) ps ->
  reader (m, fr, eff, wire isClient l ++ s) = reader (m, fr, eff ++ (SendPong <$> ps), s).
Proof.
  revert l eff. induction ps as [|p ps IH]; intros l eff Hl Hm Hf Hp.
  - destruct l; [|done]. simpl. by rewrite app_nil_r.
  - destruct l as [|[mask f] l]; [done|]. simpl in Hl. injection Hl as -> Hl.
    apply Forall_cons in Hm as [Hm1 Hm]. apply Forall_cons in Hf as [Hf1 Hf].
    apply Forall_cons in Hp as [Hp1 Hp]. unfold wire. rewrite fmap_cons. cbn [concat fst snd].
    rewrite <- app_assoc, read_wire_ping by done. fold (wire isClient l).
    rewrite IH by done. by rewrite <- app_assoc.
Qed.

Lemma read_wire_fragments parts l m fr eff s :
  parts <> [] -> l.*2 = fragments (negb fr) parts ->
  Forall mask_ok l.*1 -> Forall frame_ok l.*2 -> (fr = false -> m = []) ->
  Forall (fun p => pong p = Ok tt) (pings_of parts) ->
  len m + len (concat parts.*2) <= maxMessageSize ->
  reader (m, fr, eff, wire isClient l ++ s) =
    Some (Ok (m ++ concat parts.*2), eff ++ (SendPong <$> pings_of parts), s).
Proof.
  revert l m fr eff. induction parts as [|[ps part] parts IH]; intros l m fr eff Hne Hl Hm Hf Hfr Hp Hlen; [done|].
  cbn [fragments] in Hl. apply fmap_app_inv in Hl as (l1 & l2 & Hl1 & Hl2 & ->).
  destruct l2 as [|[mask f] l2]; [done|]. simpl in Hl2. injection Hl2 as <- Hl2. symmetry in Hl1, Hl2. change (l2.*2 = fragments false parts) in Hl2.
  rewrite fmap_app in Hm. rewrite fmap_app in Hf. apply Forall_app in Hm as [Hm1 Hm2]. apply Forall_app in Hf as [Hf1 Hf2].
  apply Forall_cons in Hm2 as [Hmk Hm2]. apply Forall_cons in Hf2 as [Hfk Hf2].
  unfold pings_of in *. simpl in Hp. apply Forall_app in Hp as [Hp1 Hp2].
  change (concat ((ps, part) :: parts).*2) with (part ++ concat parts.*2) in *.
  unfold len in Hlen. rewrite length_app in Hlen.
  assert (0 <= len (concat parts.*2)) by (unfold len; lia).
  unfold wire. rewrite fmap_app, concat_app. fold (wire isClient l1). rewrite <- app_assoc.
  rewrite (read_wire_pings ps) by done.
  rewrite fmap_cons. cbn [concat fst snd]. rewrite <- app_assoc. fold (wire isClient l2).
  replace (if negb fr then 1 else 0) with (if fr then 0 else 1) in * by by destruct fr.
  rewrite read_wire_data; [|done|done|done|unfold len in *; lia].
  destruct parts as [|[ps' part'] parts'].
  - destruct l2; [|done]. simpl. by rewrite !app_nil_r.
  - rewrite (IH l2 (m ++ part) true); try done.
    + unfold pings_of. cbn [fmap list_fmap concat fst snd]. by rewrite !fmap_app, <- !app_assoc.
    + unfold len in *. rewrite length_app. lia.
Qed.
End Fragments.

(** [ReadText] is the loop from an empty message. *)
Lemma ReadText_from isClient closeSent pong s r :
  read_from isClient closeSent pong ([], false, [], s) = Some r ->
  ReadText isClient closeSent pong s = r.
Proof. unfold ReadText, read_from. simpl length. by intros ->. Qed.

Lemma read_from_total isClient closeSent pong st :
  exists r, read_from isClient closeSent pong st = Some r.
Proof.
  unfold read_from.
  eapply (loop_total _ (fun st => length st.2) (fun _ => True)); [|done|lia].
  eauto using read_body_dec.
Qed.

Lemma read_from_bounded isClient closeSent pong st m eff r :
  read_inv st -> read_from isClient closeSent pong st = Some (Ok m, eff, r) -> len m <= maxMessageSize.
Proof.
  remember (length st.2) as n eqn:Hn. revert st Hn.
  induction n as [n IH] using lt_wf_ind. intros st Hn Hi. rewrite read_from_unfold.
  destruct (read_body _ _ _ _) as [st'|r'] eqn:E.
  - apply (IH (length st'.2)); [|done|by eapply read_inv_step].
    apply read_body_dec in E. lia.
  - intros [= ->]. by eapply read_inv_exit.
Qed.

Lemma writeFull_prefix script p w r :
  writeFull script p = Some (w, r) -> exists q, p = w ++ q /\ (r = Ok tt -> q = []).
Proof.
  revert p w r. induction script as [|[n [e|]] script IH]; intros [|b p] w r; cbn [writeFull];
    try done; try (intros [= <- <-]; by exists []).
  - intros [= <- <-]. exists (drop n (b :: p)). by rewrite take_drop.
  - destruct (n =? 0)%nat; [intros [= <- <-]; by exists (b :: p)|].
    destruct (writeFull script (drop n (b :: p))) as [[w' r']|] eqn:E; [|done].
    intros [= <- <-]. apply IH in E as (q & Hq & Hr). exists q.
    by rewrite <- app_assoc, <- Hq, take_drop.
Qed.

Lemma writeFull_total script p :
  Forall (fun s => s.2 = None /\ (0 < s.1)%nat) script -> (length p <= length script)%nat ->
  writeFull script p = Some (p, Ok tt).
Proof.
  revert p. induction script as [|[n o] script IH]; intros [|b p] Hs Hl; cbn [writeFull]; try done.
  - simpl in Hl. lia.
  - apply Forall_cons in Hs as [[Ho Hn] Hs]. simpl in Ho, Hn. subst o.
    rewrite (proj2 (Nat.eqb_neq n 0)) by lia.
    rewrite IH; [by rewrite take_drop|done|].
    rewrite length_drop. simpl in *. lia.
Qed.

(* ------------------------------------------------------------------ *)
(** ** Properties *)

(** what one side writes, the other side reads back: a text message written by a
    client (masked) or a server (unmasked) is read by the opposite end as that
    message, no side effect is triggered and the rest of the stream is untouched. *)
Theorem text_roundtrip isClient closeSent pong mask p rest :
  mask_ok mask -> Forall is_byte p -> len p <= maxMessageSize ->
  exists w, WriteText isClient mask p = Ok w /\
    ReadText (negb isClient) closeSent pong (w ++ rest) = (Ok p, [], rest).
Proof.
  intros Hm Hp Hl. eexists. split; [reflexivity|]. apply ReadText_from.
  apply (read_wire_data isClient closeSent pong mask Hm [] false [] true p rest); [|done|done].
  unfold frame_ok. simpl. repeat split; try lia; done.
Qed.

Lemma text_roundtrip_witness :
  exists w, WriteText true [1; 2; 3; 255] [104; 105] = Ok w /\
    ReadText false false (fun _ => Ok tt) (w ++ [7]) = (Ok [104; 105], [], [7]).
Proof.
  apply (text_roundtrip true false (fun _ => Ok tt) [1; 2; 3; 255] [104; 105] [7]).
  - split; [reflexivity|]. all_bytes.
  - all_bytes.
  - vm_compute. discriminate.
Defined.

(** the frame encoding is canonical: bytes are accepted by [readFrame] exactly
    when they are the encoding of a frame within the protocol's limits, in the
    shortest length form, masked exactly when it comes from a client; the frame
    returned is that one and the bytes after it are left unread. *)
Theorem frame_canonical isClient s f rest :
  Forall is_byte s ->
  readFrame isClient s = Ok (f, rest) <->
  (frame_ok f /\ exists mask, mask_ok mask /\ s = encode_frame (negb isClient) mask f ++ rest).
Proof.
  intros Hs. split; [by apply readFrame_Ok|].
  intros (Hf & mask & Hm & ->). rewrite <- (negb_involutive isClient) at 1. by apply read_encode_frame.
Qed.

Lemma frame_canonical_witness :
  readFrame true [129; 2; 104; 105; 7] = Ok ({| fin := true; op := 1; payload := [104; 105] |}, [7]) <->
  (frame_ok {| fin := true; op := 1; payload := [104; 105] |} /\
   exists mask, mask_ok mask /\
    [129; 2; 104; 105; 7] = encode_frame (negb true) mask {| fin := true; op := 1; payload := [104; 105] |} ++ [7]).
Proof. apply (frame_canonical true). all_bytes. Defined.

(** a text message sent in fragments, with pings between the fragments, is
    reassembled exactly: the reader returns the concatenation of the fragments,
    answers every ping in order and leaves the following bytes alone. *)
Theorem fragments_reassembled isClient closeSent pong parts l rest :
  parts <> [] -> l.*2 = fragments true parts ->
  Forall mask_ok l.*1 -> Forall frame_ok l.*2 ->
  Forall (fun p => pong p = Ok tt) (pings_of parts) ->
  len (concat parts.*2) <= maxMessageSize ->
  ReadText (negb isClient) closeSent pong (wire isClient l ++ rest) =
    (Ok (concat parts.*2), SendPong <$> pings_of parts, rest).
Proof.
  intros Hne Hl Hm Hf Hp Hlen. apply ReadText_from.
  by rewrite (read_wire_fragments isClient closeSent pong parts l [] false []).
Qed.

Lemma fragments_reassembled_witness :
  ReadText false false (fun _ => Ok tt)
    (wire true [([1; 2; 3; 4], {| fin := false; op := 1; payload := [104] |});
                ([5; 6; 7; 8], {| fin := true; op := 9; payload := [33] |});
                ([9; 10; 11; 12], {| fin := true; op := 0; payload := [105] |})] ++ [7]) =
    (Ok [104; 105], [SendPong [33]], [7]).
Proof.
  apply (fragments_reassembled true false (fun _ => Ok tt) [([], [104]); ([[33]], [105])]).
  - discriminate.
  - reflexivity.
  - repeat (apply Forall_cons_2; [split; [reflexivity|all_bytes]|]). apply Forall_nil_2.
  - simpl. repeat (apply Forall_cons_2; [repeat split; simpl; try lia; try done; all_bytes|]).
    apply Forall_nil_2.
  - apply Forall_cons_2; [reflexivity|apply Forall_nil_2].
  - vm_compute. discriminate.
Defined.

(** whatever the peer sends, [ReadText] returns after at most one frame per byte,
    and a message it returns never exceeds the 16 MiB bound, fragmented or not. *)
Theorem read_text_bounded isClient closeSent pong s :
  read_from isClient closeSent pong ([], false, [], s) =
    Some (ReadText isClient closeSent pong s) /\
  (forall m eff rest, ReadText isClient closeSent pong s = (Ok m, eff, rest) -> len m <= maxMessageSize).
Proof.
  destruct (read_from_total isClient closeSent pong ([], false, [], s)) as [r Hr].
  rewrite (ReadText_from _ _ _ _ _ Hr). split; [done|].
  intros m eff rest ->. by eapply read_from_bounded; [|exact Hr].
Qed.

(** [writeFull] reports success only when every byte has been written, in order;
    on an error the bytes written are a prefix; and a writer that makes progress on
    every call always gets it to success. *)
Theorem write_full_correct script p :
  (forall w r, writeFull script p = Some (w, r) -> exists q, p = w ++ q /\ (r = Ok tt -> q = [])) /\
  (Forall (fun s => s.2 = None /\ (0 < s.1)%nat) script -> (length p <= length script)%nat ->
    writeFull script p = Some (p, Ok tt)).
Proof. split; [intros w r; apply writeFull_prefix|apply writeFull_total]. Qed.
