(* ===== verification/Utf8.v ===== *)
(** * UTF-8 as Go decodes it
    [utf8.DecodeRune], [utf8.EncodeRune], [utf8.ValidString] and
    [utf8.RuneCountInString] of the standard library on byte lists, with the two
    round trips. The protocol, the JSON text and the CSV reader are built on them. *)
From Stdlib Require Import ZArith Lia.
From stdpp Require Import base list.
From S2P Require Import Prelude.
Local Open Scope Z_scope.

(** The replacement character a decoding error yields. *)
Definition runeError : Z := 65533.

Definition valid_rune (r : Z) : bool :=
  ((0 <=? r) && (r <? 55296)) || ((57344 <=? r) && (r <=? 1114111)).

(** A continuation byte within the range the leading byte allows. *)
Definition cont (lo hi b : Z) : bool := (lo <=? b) && (b <=? hi).

(** [utf8.DecodeRune]: the rune and its width; an error is [(runeError, 1)]. *)
Definition DecodeRune (s : bytes) : Z * nat :=
  match s with
  | [] => (runeError, 0%nat)
  | b0 :: s1 =>
      if b0 <? 128 then (b0, 1%nat)
      else if b0 <? 194 then (runeError, 1%nat)
      else if b0 <? 224 then
        match s1 with
        | b1 :: _ => if cont 128 191 b1 then ((b0 - 192) * 64 + (b1 - 128), 2%nat) else (runeError, 1%nat)
        | [] => (runeError, 1%nat)
        end
      else if b0 <? 240 then
        match s1 with
        | b1 :: b2 :: _ =>
            if cont (if b0 =? 224 then 160 else 128) (if b0 =? 237 then 159 else 191) b1 && cont 128 191 b2
            then ((b0 - 224) * 4096 + (b1 - 128) * 64 + (b2 - 128), 3%nat) else (runeError, 1%nat)
        | _ => (runeError, 1%nat)
        end
      else if b0 <? 245 then
        match s1 with
        | b1 :: b2 :: b3 :: _ =>
            if cont (if b0 =? 240 then 144 else 128) (if b0 =? 244 then 143 else 191) b1
               && cont 128 191 b2 && cont 128 191 b3
            then ((b0 - 240) * 262144 + (b1 - 128) * 4096 + (b2 - 128) * 64 + (b3 - 128), 4%nat)
            else (runeError, 1%nat)
        | _ => (runeError, 1%nat)
        end
      else (runeError, 1%nat)
  end.

(** [utf8.EncodeRune]; a value that is not a rune is encoded as the replacement. *)
Definition EncodeRune (r0 : Z) : bytes :=
  let r := if valid_rune r0 then r0 else runeError in
  if r <? 128 then [r]
  else if r <? 2048 then [192 + r / 64; 128 + r mod 64]
  else if r <? 65536 then [224 + r / 4096; 128 + r / 64 mod 64; 128 + r mod 64]
  else [240 + r / 262144; 128 + r / 4096 mod 64; 128 + r / 64 mod 64; 128 + r mod 64].

(** A [range] over a string: every rune with its width. *)
Fixpoint runes_fuel (fuel : nat) (s : bytes) : list (Z * nat) :=
  match fuel, s with
  | S fuel, _ :: _ => let '(r, w) := DecodeRune s in (r, w) :: runes_fuel fuel (drop w s)
  | _, _ => []
  end.
Definition runes (s : bytes) : list (Z * nat) := runes_fuel (length s) s.

Definition bad_rune (p : Z * nat) : bool := (p.1 =? runeError) && (p.2 =? 1)%nat.

Definition ValidString (s : bytes) : bool := forallb (fun p => negb (bad_rune p)) (runes s).
Definition RuneCountInString (s : bytes) : nat := length (runes s).
Definition ContainsRune (s : bytes) (r : Z) : bool := existsb (fun p => p.1 =? r) (runes s).

(* ------------------------------------------------------------------ *)
(** ** Lemmas *)

Lemma DecodeRune_width (s : bytes) : s <> [] -> (1 <= (DecodeRune s).2 <= length s)%nat.
Proof.
  destruct s as [|b0 s1]; [done|intros _]. unfold DecodeRune.
  repeat (case_match; simpl; try lia).
Qed.

Ltac zdiv := Z.to_euclidean_division_equations; lia.

(** Decoding what [EncodeRune] wrote. *)
Lemma decode_encode_rune r s :
  valid_rune r = true -> DecodeRune (EncodeRune r ++ s) = (r, length (EncodeRune r)).
Proof.
  intros Hr. unfold EncodeRune. rewrite Hr. unfold valid_rune in Hr.
  apply orb_true_iff in Hr.
  assert (0 <= r < 55296 \/ 57344 <= r <= 1114111) as Hr' by (destruct Hr; breflect; lia).
  clear Hr. destruct (Z.ltb_spec r 128); [|destruct (Z.ltb_spec r 2048); [|destruct (Z.ltb_spec r 65536)]];
    cbn [app length DecodeRune].
  - by rewrite (proj2 (Z.ltb_lt _ _)).
  - rewrite !(proj2 (Z.ltb_ge _ _)), (proj2 (Z.ltb_lt _ 224)) by zdiv.
    unfold cont. rewrite !(proj2 (Z.leb_le _ _)) by zdiv. simpl. f_equal. zdiv.
  - rewrite !(proj2 (Z.ltb_ge (224 + _) _)), (proj2 (Z.ltb_lt _ 240)) by zdiv.
    unfold cont. destruct (Z.eqb_spec (224 + r / 4096) 224), (Z.eqb_spec (224 + r / 4096) 237);
      rewrite !(proj2 (Z.leb_le _ _)) by zdiv; simpl; f_equal; zdiv.
  - rewrite !(proj2 (Z.ltb_ge (240 + _) _)), (proj2 (Z.ltb_lt _ 245)) by zdiv.
    unfold cont. destruct (Z.eqb_spec (240 + r / 262144) 240), (Z.eqb_spec (240 + r / 262144) 244);
      rewrite !(proj2 (Z.leb_le _ _)) by zdiv; simpl; f_equal; zdiv.
Qed.

(** What decodes without an error is the encoding of a rune. *)
Lemma decode_rune_ok s r w :
  s <> [] -> Forall is_byte s -> DecodeRune s = (r, w) -> bad_rune (r, w) = false ->
  valid_rune r = true /\ take w s = EncodeRune r.
Proof.
  destruct s as [|b0 s1]; [done|]. intros _ Hs. apply Forall_cons in Hs as [Hb0 _].
  unfold is_byte in Hb0. unfold DecodeRune.
  assert (bad_rune (runeError, 1%nat) = true) as Hbad by done.
  destruct (Z.ltb_spec b0 128).
  { intros [= <- <-] _. assert (valid_rune b0 = true) as Hv.
    { unfold valid_rune. rewrite (proj2 (Z.leb_le 0 b0)), (proj2 (Z.ltb_lt b0 55296)) by lia. done. }
    split; [done|]. unfold EncodeRune. rewrite Hv, (proj2 (Z.ltb_lt b0 128)) by lia. done. }
  destruct (Z.ltb_spec b0 194); [intros [= <- <-]; congruence|].
  destruct (Z.ltb_spec b0 224); [|destruct (Z.ltb_spec b0 240); [|destruct (Z.ltb_spec b0 245)]].
  - destruct s1 as [|b1 s]; [intros [= <- <-]; congruence|].
    destruct (cont _ _ b1) eqn:E1; [|intros [= <- <-]; congruence]. unfold cont in E1. breflect.
    intros [= <- <-] _. set (r := _ + _).
    assert (valid_rune r = true) as Hv by (unfold valid_rune; apply orb_true_iff; left; apply andb_true_iff; lia).
    split; [done|]. unfold EncodeRune. rewrite Hv.
    rewrite (proj2 (Z.ltb_ge r 128)), (proj2 (Z.ltb_lt r 2048)) by lia.
    simpl. repeat f_equal; unfold r; zdiv.
  - destruct s1 as [|b1 [|b2 s]]; try (intros [= <- <-]; congruence).
    destruct (cont _ _ b1 && _) eqn:E1; [|intros [= <- <-]; congruence]. unfold cont in E1. breflect.
    intros [= <- <-] _. set (r := _ + _).
    assert (2048 <= r < 55296 \/ 57344 <= r < 65536) as Hr.
    { destruct (Z.eqb_spec b0 224), (Z.eqb_spec b0 237); unfold r; lia. }
    assert (valid_rune r = true) as Hv.
    { unfold valid_rune. apply orb_true_iff. rewrite !andb_true_iff. lia. }
    split; [done|]. unfold EncodeRune. rewrite Hv.
    rewrite (proj2 (Z.ltb_ge r 128)), (proj2 (Z.ltb_ge r 2048)), (proj2 (Z.ltb_lt r 65536)) by lia.
    assert (128 <= b1 <= 191) by (destruct (b0 =? 224), (b0 =? 237); lia).
    simpl. repeat f_equal; unfold r; zdiv.
  - destruct s1 as [|b1 [|b2 [|b3 s]]]; try (intros [= <- <-]; congruence).
    destruct (cont _ _ b1 && _ && _) eqn:E1; [|intros [= <- <-]; congruence]. unfold cont in E1. breflect.
    intros [= <- <-] _. set (r := _ + _).
    assert (65536 <= r <= 1114111) as Hr.
    { destruct (Z.eqb_spec b0 240), (Z.eqb_spec b0 244); unfold r; lia. }
    assert (valid_rune r = true) as Hv.
    { unfold valid_rune. apply orb_true_iff. rewrite !andb_true_iff. lia. }
    split; [done|]. unfold EncodeRune. rewrite Hv.
    rewrite !(proj2 (Z.ltb_ge r _)) by lia.
    assert (128 <= b1 <= 191) by (destruct (b0 =? 240), (b0 =? 244); lia).
    simpl. repeat f_equal; unfold r; zdiv.
  - intros [= <- <-]; congruence.
Qed.

Lemma runes_fuel_enough fuel s : (length s <= fuel)%nat -> runes_fuel fuel s = runes s.
Proof.
  unfold runes. remember (length s) as n eqn:Hn. revert fuel s Hn.
  induction n as [n IH] using lt_wf_ind. intros fuel s Hn Hf.
  destruct s as [|b s]; [by destruct fuel, n|]. destruct fuel as [|fuel]; [simpl in Hn; lia|].
  destruct n as [|n]; [done|]. cbn [runes_fuel].
  pose proof (DecodeRune_width (b :: s)) as Hw. destruct (DecodeRune (b :: s)) as [r w]. simpl snd in Hw.
  specialize (Hw ltac:(done)).
  assert (length (drop w (b :: s)) < S n)%nat as Hd by (rewrite length_drop; lia).
  rewrite (IH _ Hd fuel _ eq_refl) by lia.
  by rewrite (IH _ Hd n _ eq_refl) by lia.
Qed.

Lemma runes_cons s :
  s <> [] -> runes s = DecodeRune s :: runes (drop (DecodeRune s).2 s).
Proof.
  intros Hs. pose proof (DecodeRune_width s Hs) as Hw.
  unfold runes at 1. destruct s as [|b s]; [done|]. cbn [length runes_fuel].
  destruct (DecodeRune (b :: s)) as [r w]. simpl snd in *. f_equal.
  apply runes_fuel_enough. rewrite length_drop. simpl. lia.
Qed.

Lemma EncodeRune_nonempty r : EncodeRune r <> [].
Proof. unfold EncodeRune. cbv zeta. repeat case_match; done. Qed.

Lemma runes_encode r s :
  valid_rune r = true -> runes (EncodeRune r ++ s) = (r, length (EncodeRune r)) :: runes s.
Proof.
  intros Hr. rewrite runes_cons.
  - rewrite (decode_encode_rune r s Hr). simpl. by rewrite drop_app_length.
  - pose proof (EncodeRune_nonempty r). by destruct (EncodeRune r).
Qed.

Lemma encoded_not_bad r : valid_rune r = true -> bad_rune (r, length (EncodeRune r)) = false.
Proof.
  intros Hr. unfold bad_rune. simpl. destruct (Z.eqb_spec r runeError) as [->|]; [done|done].
Qed.

(** A valid string is the encoding of its runes. *)
Lemma ValidString_runes s :
  Forall is_byte s -> ValidString s = true ->
  Forall (fun p => valid_rune p.1 = true) (runes s) /\ s = concat ((fun p => EncodeRune p.1) <$> runes s).
Proof.
  remember (length s) as n eqn:Hn. revert s Hn.
  induction n as [n IH] using lt_wf_ind. intros s -> Hs. unfold ValidString.
  destruct (decide (s = [])) as [->|Hne]; [done|].
  pose proof (DecodeRune_width s Hne) as Hw. rewrite (runes_cons s Hne).
  destruct (DecodeRune s) as [r w] eqn:E. simpl snd in *. cbn [forallb].
  rewrite andb_true_iff, negb_true_iff. intros [Hb Hv].
  destruct (decode_rune_ok s r w Hne Hs E Hb) as [Hr Ht].
  destruct (IH (length (drop w s))) with (s := drop w s) as [H1 H2];
    [rewrite length_drop; lia|done|by apply Forall_drop|done|].
  split; [by constructor|]. rewrite fmap_cons. cbn [concat fst]. rewrite <- H2, <- Ht.
  by rewrite take_drop.
Qed.

Lemma ValidString_encoded rs :
  Forall (fun r => valid_rune r = true) rs -> ValidString (concat (EncodeRune <$> rs)) = true.
Proof.
  unfold ValidString. induction 1 as [|r rs Hr Hrs IH]; [done|].
  rewrite fmap_cons. cbn [concat]. rewrite runes_encode by done. cbn [forallb].
  by rewrite encoded_not_bad.
Qed.

(** An ASCII string is valid and has one rune per byte. *)
Lemma runes_ascii s : Forall (fun b => 0 <= b < 128) s -> runes s = (fun b => (b, 1%nat)) <$> s.
Proof.
  induction 1 as [|b s Hb Hs IH]; [done|]. rewrite runes_cons by done. unfold DecodeRune.
  rewrite (proj2 (Z.ltb_lt b 128)) by lia.
  rewrite fmap_cons, <- IH. by cbn [snd drop].
Qed.
