(* ===== verification/Base64.v ===== *)
(** * Standard base64 as Go encodes and decodes it
    [base64.StdEncoding.EncodeToString], [EncodedLen] and the strict decoder
    ([base64.StdEncoding.Strict().DecodeString]), which drops carriage returns and
    line feeds wherever they appear, requires the padding and refuses trailing bits. *)
From Stdlib Require Import ZArith Lia.
From stdpp Require Import base list.
From S2P Require Import Prelude.
Local Open Scope Z_scope.

(** The alphabet: a value below 64 to its character, and back. *)
Definition b64_char (v : Z) : Z :=
  if v <? 26 then 65 + v else if v <? 52 then 97 + (v - 26) else if v <? 62 then 48 + (v - 52)
  else if v =? 62 then 43 else 47.
Definition b64_value (c : Z) : option Z :=
  if (65 <=? c) && (c <=? 90) then Some (c - 65)
  else if (97 <=? c) && (c <=? 122) then Some (c - 97 + 26)
  else if (48 <=? c) && (c <=? 57) then Some (c - 48 + 52)
  else if c =? 43 then Some 62 else if c =? 47 then Some 63 else None.

Definition pad : Z := 61.

Fixpoint EncodeToString (s : bytes) : bytes :=
  match s with
  | [] => []
  | [a] => [b64_char (a / 4); b64_char (a mod 4 * 16); pad; pad]
  | [a; b] => [b64_char (a / 4); b64_char (a mod 4 * 16 + b / 16); b64_char (b mod 16 * 4); pad]
  | a :: b :: c :: s =>
      b64_char (a / 4) :: b64_char (a mod 4 * 16 + b / 16) ::
      b64_char (b mod 16 * 4 + c / 64) :: b64_char (c mod 64) :: EncodeToString s
  end.

Definition EncodedLen (n : Z) : Z := (n + 2) / 3 * 4.

(** The characters the decoder passes over. *)
Definition strip_newlines (s : bytes) : bytes := filter (fun c => c <> 10 /\ c <> 13) s.

(** The quanta of four characters; only the last may carry padding, and its unused
    bits are zero. *)
Fixpoint decode_quanta (s : bytes) : option bytes :=
  match s with
  | [] => Some []
  | c1 :: c2 :: c3 :: c4 :: s =>
      match b64_value c1, b64_value c2, b64_value c3, b64_value c4 with
      | Some v1, Some v2, Some v3, Some v4 =>
          match decode_quanta s with
          | Some r => Some (v1 * 4 + v2 / 16 :: v2 mod 16 * 16 + v3 / 4 :: v3 mod 4 * 64 + v4 :: r)
          | None => None
          end
      | Some v1, Some v2, Some v3, None =>
          if (c4 =? pad) && (v3 mod 4 =? 0) && bool_decide (s = [])
          then Some [v1 * 4 + v2 / 16; v2 mod 16 * 16 + v3 / 4] else None
      | Some v1, Some v2, None, None =>
          if (c3 =? pad) && (c4 =? pad) && (v2 mod 16 =? 0) && bool_decide (s = [])
          then Some [v1 * 4 + v2 / 16] else None
      | _, _, _, _ => None
      end
  | _ => None
  end.

Definition DecodeString (s : bytes) : option bytes := decode_quanta (strip_newlines s).

(* ------------------------------------------------------------------ *)
(** ** Lemmas *)

Lemma b64_value_char v : 0 <= v < 64 -> b64_value (b64_char v) = Some v.
Proof.
  intros Hv. unfold b64_char, b64_value.
  repeat case_test; breflect; try (f_equal; lia); exfalso; lia.
Qed.

Lemma b64_value_pad : b64_value pad = None.
Proof. done. Qed.

Lemma b64_char_plain v : 0 <= v < 64 -> b64_char v <> 10 /\ b64_char v <> 13.
Proof. intros Hv. unfold b64_char. repeat case_test; breflect; lia. Qed.

Lemma three_bytes_ind (P : bytes -> Prop) :
  P [] -> (forall a, P [a]) -> (forall a b, P [a; b]) ->
  (forall a b c s, P s -> P (a :: b :: c :: s)) -> forall s, P s.
Proof.
  intros H0 H1 H2 H3 s. remember (length s) as n eqn:Hn. revert s Hn.
  induction n as [n IH] using lt_wf_ind. intros [|a [|b [|c s]]] ->; auto.
  apply H3, (IH (length s)); simpl; lia.
Qed.

Ltac zdiv := Z.to_euclidean_division_equations; lia.

Lemma encode_no_newlines s : Forall is_byte s -> strip_newlines (EncodeToString s) = EncodeToString s.
Proof.
  intros Hs. unfold strip_newlines. apply filter_all. revert Hs.
  induction s as [|a|a b|a b c s IH] using three_bytes_ind; intros Hs; cbn [EncodeToString];
    repeat (apply Forall_cons in Hs as [? Hs]); unfold is_byte in *;
    repeat (apply Forall_cons_2; [first [apply b64_char_plain; zdiv|done]|]); auto.
Qed.

Lemma decode_quanta_encode s : Forall is_byte s -> decode_quanta (EncodeToString s) = Some s.
Proof.
  induction s as [|a|a b|a b c s IH] using three_bytes_ind; intros Hs; [done|..];
    repeat (apply Forall_cons in Hs as [? Hs]); unfold is_byte in *;
    cbn [EncodeToString decode_quanta]; rewrite !b64_value_char by zdiv; rewrite ?b64_value_pad.
  - replace ((a mod 4 * 16) mod 16) with 0 by zdiv. simpl. f_equal. f_equal. zdiv.
  - replace ((b mod 16 * 4) mod 4) with 0 by zdiv. simpl. repeat f_equal; zdiv.
  - rewrite IH by done. repeat f_equal; zdiv.
Qed.

(** Encoding then decoding is the identity on bytes. *)
Lemma DecodeString_encode s : Forall is_byte s -> DecodeString (EncodeToString s) = Some s.
Proof. intros Hs. unfold DecodeString. rewrite encode_no_newlines by done. by apply decode_quanta_encode. Qed.

Lemma length_EncodeToString s : Z.of_nat (length (EncodeToString s)) = EncodedLen (Z.of_nat (length s)).
Proof.
  unfold EncodedLen. induction s as [|a|a b|a b c s IH] using three_bytes_ind; [done..|].
  cbn [EncodeToString length]. rewrite !Nat2Z.inj_succ, IH. zdiv.
Qed.

Lemma EncodedLen_mono a b : a <= b -> EncodedLen a <= EncodedLen b.
Proof. unfold EncodedLen. intros. zdiv. Qed.
