(* ===== verification/Strconv.v ===== *)
(** * Numbers as text
    [strconv.FormatInt], [strconv.ParseInt] in base ten and [strconv.ParseUint] in
    base sixteen, on byte strings, with their round trip. *)
From Stdlib Require Import ZArith Lia.
From stdpp Require Import base list option.
From S2P Require Import Prelude.
Local Open Scope Z_scope.

Definition isdigit (c : Z) : bool := (48 <=? c) && (c <=? 57).

(** The value of a string of decimal digits. *)
Definition digits_value (s : bytes) : Z := foldl (fun acc c => acc * 10 + (c - 48)) 0 s.

(** The decimal digits of a natural number below [10 ^ fuel]. *)
Fixpoint decimal_digits (fuel : nat) (n : Z) (acc : bytes) : bytes :=
  match fuel with
  | O => acc
  | S fuel =>
      let acc := 48 + n mod 10 :: acc in
      if n <? 10 then acc else decimal_digits fuel (n / 10) acc
  end.

Definition FormatInt (n : Z) : bytes :=
  if n <? 0 then 45 :: decimal_digits 20 (- n) [] else decimal_digits 20 n [].

(** [ParseInt(s, 10, 64)]. *)
Definition ParseInt (s : bytes) : option Z :=
  let '(neg, ds) := match s with
                    | c :: r => if c =? 45 then (true, r) else if c =? 43 then (false, r) else (false, s)
                    | [] => (false, s)
                    end in
  if negb (forallb isdigit ds) || bool_decide (ds = []) then None else
  let n := if neg then - digits_value ds else digits_value ds in
  if (int64_min <=? n) && (n <=? int64_max) then Some n else None.

Definition hexval (c : Z) : option Z :=
  if isdigit c then Some (c - 48)
  else if (97 <=? c) && (c <=? 102) then Some (c - 87)
  else if (65 <=? c) && (c <=? 70) then Some (c - 55) else None.

(** [ParseUint(s, 16, 16)]: hexadecimal digits only, below 65536. *)
Definition ParseUint16 (s : bytes) : option Z :=
  match s with
  | [] => None
  | _ => foldl (fun acc c =>
           match acc, hexval c with
           | Some a, Some v => if a * 16 + v <? 65536 then Some (a * 16 + v) else None
           | _, _ => None
           end) (Some 0) s
  end.

(* ------------------------------------------------------------------ *)
(** ** Lemmas *)

Lemma digits_value_app a b :
  digits_value (a ++ b) = digits_value a * 10 ^ Z.of_nat (length b) + digits_value b.
Proof.
  unfold digits_value. rewrite foldl_app. generalize (foldl (fun acc c => acc * 10 + (c - 48)) 0 a).
  induction b as [|c b IH]; intros x; [simpl; lia|]. cbn [foldl].
  rewrite IH. rewrite (IH (0 * 10 + (c - 48))). cbn [length]. rewrite Nat2Z.inj_succ, Z.pow_succ_r by lia. lia.
Qed.

Lemma digits_value_cons c s :
  digits_value (c :: s) = (c - 48) * 10 ^ Z.of_nat (length s) + digits_value s.
Proof. change (c :: s) with ([c] ++ s). by rewrite digits_value_app. Qed.

Lemma isdigit_range c : isdigit c = true <-> 48 <= c <= 57.
Proof. unfold isdigit. rewrite andb_true_iff. lia. Qed.

Lemma digits_value_range s :
  forallb isdigit s = true -> 0 <= digits_value s < 10 ^ Z.of_nat (length s).
Proof.
  induction s as [|c s IH]; [by unfold digits_value|]. cbn [forallb]. rewrite andb_true_iff, isdigit_range.
  intros [Hc Hs]. rewrite digits_value_cons. cbn [length]. rewrite Nat2Z.inj_succ, Z.pow_succ_r by lia.
  specialize (IH Hs). nia.
Qed.

Lemma digits_value_zeros n : digits_value (replicate n 48) = 0.
Proof. induction n as [|n IH]; [done|]. cbn [replicate]. rewrite digits_value_cons, IH. lia. Qed.

Lemma forallb_digits_app a b : forallb isdigit (a ++ b) = forallb isdigit a && forallb isdigit b.
Proof. apply forallb_app. Qed.

Lemma decimal_digits_acc fuel n acc :
  decimal_digits fuel n acc = decimal_digits fuel n [] ++ acc.
Proof.
  revert n acc. induction fuel as [|fuel IH]; intros n acc; [done|]. cbn [decimal_digits].
  destruct (n <? 10); [done|]. rewrite IH, (IH _ [_]). by rewrite <- app_assoc.
Qed.

Lemma decimal_digits_spec fuel n :
  0 <= n < 10 ^ Z.of_nat fuel -> (0 < fuel)%nat ->
  let s := decimal_digits fuel n [] in
  forallb isdigit s = true /\ s <> [] /\ digits_value s = n.
Proof.
  revert n. induction fuel as [|fuel IH]; intros n Hn Hf; [lia|].
  cbn [decimal_digits]. cbv zeta.
  assert (isdigit (48 + n mod 10) = true) as Hd.
  { apply isdigit_range. pose proof (Z.mod_pos_bound n 10). lia. }
  destruct (Z.ltb_spec n 10).
  - rewrite Z.mod_small by lia. split; [simpl; rewrite <- (Z.mod_small n 10) by lia; by rewrite Hd|].
    split; [done|]. unfold digits_value. simpl. lia.
  - rewrite Nat2Z.inj_succ, Z.pow_succ_r in Hn by lia.
    destruct fuel as [|fuel]; [simpl in Hn; lia|].
    destruct (IH (n / 10)) as (H1 & H2 & H3); [|lia|].
    { split; [apply Z.div_pos; lia|apply Z.div_lt_upper_bound; lia]. }
    rewrite decimal_digits_acc, forallb_digits_app, digits_value_app, H1, H3.
    split; [simpl; by rewrite Hd|]. split; [by destruct (decimal_digits (S fuel) (n / 10) [])|].
    unfold digits_value. simpl. pose proof (Z.div_mod n 10). lia.
Qed.

Lemma decimal_first_digit fuel n c s :
  0 <= n < 10 ^ Z.of_nat fuel -> (0 < fuel)%nat -> decimal_digits fuel n [] = c :: s -> isdigit c = true.
Proof.
  intros Hn Hf E. destruct (decimal_digits_spec fuel n Hn Hf) as (H & _).
  rewrite E in H. cbn [forallb] in H. by apply andb_true_iff in H as [? _].
Qed.

(** A plain digit string parses to its value when that fits. *)
Lemma ParseInt_digits ds :
  forallb isdigit ds = true -> ds <> [] ->
  ParseInt ds = if digits_value ds <=? int64_max then Some (digits_value ds) else None.
Proof.
  intros Hd Hne. unfold ParseInt.
  assert (match ds with
          | c :: r => if c =? 45 then (true, r) else if c =? 43 then (false, r) else (false, ds)
          | [] => (false, ds) end = (false, ds)) as ->.
  { destruct ds as [|c r]; [done|]. cbn [forallb] in Hd. apply andb_true_iff in Hd as [Hc _].
    apply isdigit_range in Hc. destruct (Z.eqb_spec c 45), (Z.eqb_spec c 43); lia || done. }
  rewrite Hd, bool_decide_false by done. simpl negb. simpl orb. cbv iota zeta.
  pose proof (digits_value_range ds Hd). unfold int64_min.
  by rewrite (proj2 (Z.leb_le (- 2 ^ 63) _)) by lia.
Qed.

Lemma ParseInt_neg ds :
  forallb isdigit ds = true -> ds <> [] ->
  ParseInt (45 :: ds) = if int64_min <=? - digits_value ds then Some (- digits_value ds) else None.
Proof.
  intros Hd Hne. unfold ParseInt. change (45 =? 45) with true. cbv iota beta.
  rewrite Hd, bool_decide_false by done. simpl negb. simpl orb. cbv iota zeta.
  pose proof (digits_value_range ds Hd). unfold int64_max.
  rewrite (proj2 (Z.leb_le _ (2 ^ 63 - 1))) by lia. by rewrite andb_true_r.
Qed.

(** Printing an [int64] and reading it back. *)
Lemma ParseInt_FormatInt n : in_int64 n -> ParseInt (FormatInt n) = Some n.
Proof.
  unfold in_int64. intros Hn. unfold FormatInt.
  assert (0 <= Z.abs n < 10 ^ Z.of_nat 20) as Hb by (unfold int64_min, int64_max in Hn; lia).
  destruct (decimal_digits_spec 20 (Z.abs n) Hb ltac:(lia)) as (H1 & H2 & H3).
  destruct (Z.ltb_spec n 0).
  - rewrite Z.abs_neq in * by lia. rewrite ParseInt_neg by done. rewrite H3, Z.opp_involutive.
    by rewrite (proj2 (Z.leb_le _ _)) by lia.
  - rewrite Z.abs_eq in * by lia. rewrite ParseInt_digits by done. rewrite H3.
    by rewrite (proj2 (Z.leb_le _ _)) by lia.
Qed.
