(* ===== verification/GoFloat.v ===== *)
(** * binary64 numbers as decimal text
    [strconv.ParseFloat] on JSON number text (correctly rounded, an error when the
    value overflows) and [strconv.FormatFloat] with format [g] and the shortest
    precision that reads back, by exact integer arithmetic. *)
From Stdlib Require Import ZArith Lia SpecFloat.
From stdpp Require Import base list option strings.
From S2P Require Import Prelude Strconv.
Local Open Scope Z_scope.

(** Sign, digits and exponent of number text: [digits * 10 ^ exponent]. *)
Fixpoint split_digits (s : bytes) : bytes * bytes :=
  match s with
  | c :: s' => if isdigit c then let '(d, r) := split_digits s' in (c :: d, r) else ([], s)
  | [] => ([], [])
  end.

Definition parse_exponent (s : bytes) : Z :=
  match s with
  | e :: s' =>
      if (e =? 101) || (e =? 69) then
        match s' with
        | c :: r => if c =? 45 then - digits_value r else if c =? 43 then digits_value r else digits_value s'
        | [] => 0
        end
      else 0
  | [] => 0
  end.

Definition parse_decimal (s : bytes) : bool * Z * Z :=
  let '(neg, s) := match s with
                   | c :: r => if c =? 45 then (true, r) else (false, s)
                   | [] => (false, s) end in
  let '(whole, r) := split_digits s in
  let '(frac, r) := match r with
                    | d :: r' => if d =? 46 then split_digits r' else ([], r)
                    | [] => ([], r) end in
  (neg, digits_value (whole ++ frac), parse_exponent r - Z.of_nat (length frac)).

(** The number of decimal digits of a positive number below [10 ^ fuel]. *)
Fixpoint decimal_length (fuel : nat) (n : Z) : Z :=
  match fuel with
  | O => 0
  | S fuel => if n <? 10 then 1 else 1 + decimal_length fuel (n / 10)
  end.

(** [m * 10 ^ e] rounded to nearest, ties to even. Far outside the range of
    binary64 the result needs no arithmetic. *)
Definition f64_of_decimal (neg : bool) (m e : Z) : spec_float :=
  match m with
  | Zpos p =>
      let nd := decimal_length (Pos.to_nat (Pos.size p)) m in
      if 310 <? nd + e then S754_infinity neg
      else if nd + e <? -330 then S754_zero neg
      else if 0 <=? e then
        binary_normalize 53 1024 ((if neg then -1 else 1) * m * 10 ^ e) 0 neg
      else SFdiv 53 1024 (S754_finite neg p 0) (S754_finite false (Z.to_pos (10 ^ (- e))) 0)
  | _ => S754_zero neg
  end.

(** [json.Number.Float64]: [None] on a range error. *)
Definition ParseFloat (s : bytes) : option spec_float :=
  let '(neg, m, e) := parse_decimal s in
  match f64_of_decimal neg m e with
  | S754_infinity _ | S754_nan => None
  | f => Some f
  end.

(** [a * 2 ^ ea <= b * 10 ^ eb] on non-negative mantissas. *)
Definition scale (base e : Z) : Z := if 0 <=? e then base ^ e else 1.
Definition le_2_10 (a ea b eb : Z) : bool :=
  a * scale 2 ea * scale 10 (- eb) <=? b * scale 10 eb * scale 2 (- ea).
Definition le_10_2 (b eb a ea : Z) : bool :=
  b * scale 10 eb * scale 2 (- ea) <=? a * scale 2 ea * scale 10 (- eb).

(** The position of the decimal point: [10 ^ (dp - 1) <= m * 2 ^ e < 10 ^ dp]. *)
Fixpoint decimal_point (fuel : nat) (dp m e : Z) : Z :=
  match fuel with
  | O => dp
  | S fuel => if le_10_2 1 dp m e then decimal_point fuel (dp + 1) m e else dp
  end.

(** Whether the decimal [q * 10 ^ k] reads back as the float [m * 2 ^ e]. *)
Definition reads_back (m e q k : Z) : bool :=
  let even := Z.even m in
  let low := if (m =? 2 ^ 52) && (-1074 <? e) then 4 * m - 1 else 4 * m - 2 in
  let high := 4 * m + 2 in
  let above := if even then le_2_10 low (e - 2) q k else negb (le_10_2 q k low (e - 2)) in
  let below := if even then le_10_2 q k high (e - 2) else negb (le_2_10 high (e - 2) q k) in
  above && below.

(** The shortest digits, nearest to the value among those of that length. *)
Fixpoint shortest (fuel : nat) (p m e dp : Z) : Z * Z :=
  match fuel with
  | O => (0, 0)
  | S fuel =>
      let k := dp - p in
      let num := m * scale 2 e * scale 10 (- k) in
      let den := scale 10 k * scale 2 (- e) in
      let q := num / den in
      let r := num mod den in
      let lo := reads_back m e q k in
      let hi := reads_back m e (q + 1) k in
      let up := (den <? 2 * r) || ((2 * r =? den) && Z.odd q) in
      if lo && hi then ((if up then q + 1 else q), k)
      else if lo then (q, k)
      else if hi then (q + 1, k)
      else shortest fuel (p + 1) m e dp
  end.

Fixpoint trim_zeros (fuel : nat) (q k : Z) : Z * Z :=
  match fuel with
  | O => (q, k)
  | S fuel => if (q mod 10 =? 0) && negb (q =? 0) then trim_zeros fuel (q / 10) (k + 1) else (q, k)
  end.

(** Layout of format [g] with the shortest precision. *)
Definition format_digits (q k : Z) : bytes :=
  let ds := decimal_digits 20 q [] in
  let nd := Z.of_nat (length ds) in
  let dp := nd + k in
  let exp := dp - 1 in
  if (exp <? -4) || (6 <=? exp) then
    take 1 ds ++ (if 1 <? nd then 46 :: drop 1 ds else []) ++
    101 :: (if exp <? 0 then 45 else 43) ::
    (if Z.abs exp <? 10 then [48] else []) ++ decimal_digits 20 (Z.abs exp) []
  else if dp <=? 0 then 48 :: 46 :: replicate (Z.to_nat (- dp)) 48 ++ ds
  else if nd <=? dp then ds ++ replicate (Z.to_nat (dp - nd)) 48
  else take (Z.to_nat dp) ds ++ 46 :: drop (Z.to_nat dp) ds.

(** [FormatFloat(x, 'g', -1, 64)] of a finite number. *)
Definition FormatFloat (f : spec_float) : bytes :=
  match f with
  | S754_zero neg => (if neg : bool then [45] else []) ++ [48]
  | S754_finite neg m e =>
      let dp := decimal_point 4 ((Z.log2 (Zpos m) + e) * 30103 / 100000 - 1) (Zpos m) e in
      let '(q, k) := shortest 17 1 (Zpos m) e dp in
      let '(q, k) := trim_zeros 20 q k in
      (if neg : bool then [45] else []) ++ format_digits q k
  | S754_infinity neg => (if neg : bool then lit "-Inf" else lit "+Inf")
  | S754_nan => lit "NaN"
  end.

(* ------------------------------------------------------------------ *)
(** ** Values *)

(** Number text as the canonical writer prints it. *)
Definition reformat (s : bytes) : option bytes := FormatFloat <$> ParseFloat s.

Lemma reformat_examples :
  reformat (lit "0.1") = Some (lit "0.1") /\ reformat (lit "1e2") = Some (lit "100") /\
  reformat (lit "123456789.0") = Some (lit "1.23456789e+08") /\
  reformat (lit "-0.00001") = Some (lit "-1e-05") /\
  reformat (lit "0.30000000000000004") = Some (lit "0.30000000000000004") /\
  reformat (lit "9007199254740993.0") = Some (lit "9.007199254740992e+15") /\
  reformat (lit "1125899906842624.25") = Some (lit "1.1258999068426242e+15") /\
  reformat (lit "1e23") = Some (lit "1e+23") /\
  reformat (lit "1e400") = None /\ reformat (lit "1e-999999999999") = Some (lit "0").
Proof. vm_compute. repeat split. Qed.
