(* ===== verification/GoDate.v ===== *)
(** * Instants as RFC 3339 text
    [time.Time] values as an instant in nanoseconds since 1 January of year 1 UTC and
    the offset of their zone in seconds, with [MarshalJSON]'s text (RFC 3339 with
    nanoseconds, trailing zeros dropped) and the parser behind [UnmarshalJSON]. *)
From Stdlib Require Import ZArith Lia.
From stdpp Require Import base list option strings.
From S2P Require Import Prelude Strconv.
Local Open Scope Z_scope.

Record Time := { instant : Z; zone : Z }.
Definition IsZero (t : Time) : bool := instant t =? 0.
Definition Before (t u : Time) : bool := instant t <? instant u.
Definition Add (t : Time) (d : Z) : Time := {| instant := instant t + d; zone := zone t |}.

(** Days from 1 March of year 0 to a date, and back, in the proleptic Gregorian
    calendar: years begin in March, so that the leap day is the last. *)
Definition month_days (mp : Z) : Z := (153 * mp + 2) / 5.
Definition days_of_civil (y m d : Z) : Z :=
  let y' := if m <=? 2 then y - 1 else y in
  let mp := (m + 9) mod 12 in
  365 * y' + y' / 4 - y' / 100 + y' / 400 + month_days mp + d - 1.
Definition civil_of_days (n : Z) : Z * Z * Z :=
  let era := n / 146097 in
  let doe := n mod 146097 in
  let yoe := (doe - doe / 1460 + doe / 36524 - doe / 146096) / 365 in
  let doy := doe - (365 * yoe + yoe / 4 - yoe / 100) in
  let mp := (5 * doy + 2) / 153 in
  let m := if mp <? 10 then mp + 3 else mp - 9 in
  (yoe + era * 400 + (if m <=? 2 then 1 else 0), m, doy - month_days mp + 1).

(** 1 January of year 1. *)
Definition epoch_days : Z := 306.
Definition nanos_per_second : Z := 1000000000.

Definition is_leap (y : Z) : bool := (y mod 4 =? 0) && (negb (y mod 100 =? 0) || (y mod 400 =? 0)).
Definition days_in (m y : Z) : Z :=
  if m =? 2 then (if is_leap y then 29 else 28)
  else if (m =? 4) || (m =? 6) || (m =? 9) || (m =? 11) then 30 else 31.

(** [n] digits of a number, and of a fraction without its trailing zeros. *)
Fixpoint fixed_digits (n : nat) (v : Z) : bytes :=
  match n with
  | O => []
  | S n => fixed_digits n (v / 10) ++ [48 + v mod 10]
  end.
Fixpoint drop_trailing_zeros (s : bytes) : bytes :=
  match s with
  | [] => []
  | c :: s => match drop_trailing_zeros s with
              | [] => if c =? 48 then [] else [c]
              | t => c :: t
              end
  end.

Definition format_zone (z : Z) : bytes :=
  if z =? 0 then [90] else
  (if z <? 0 then 45 else 43) :: fixed_digits 2 (Z.abs z / 3600) ++ 58 :: fixed_digits 2 (Z.abs z / 60 mod 60).

(** [Time.MarshalJSON] without its quotes; the year must have four digits and the
    offset whole minutes below a day. *)
Definition MarshalTime (t : Time) : result bytes :=
  let local := instant t + zone t * nanos_per_second in
  let secs := local / nanos_per_second in
  let nanos := local mod nanos_per_second in
  let '(y, m, d) := civil_of_days (secs / 86400 + epoch_days) in
  let sod := secs mod 86400 in
  if (y <? 0) || (9999 <? y) || (86400 <=? Z.abs (zone t)) || negb (zone t mod 60 =? 0) then Err "Time.MarshalJSON" else
  let frac := drop_trailing_zeros (fixed_digits 9 nanos) in
  Ok (fixed_digits 4 y ++ 45 :: fixed_digits 2 m ++ 45 :: fixed_digits 2 d ++ 84 ::
      fixed_digits 2 (sod / 3600) ++ 58 :: fixed_digits 2 (sod / 60 mod 60) ++ 58 :: fixed_digits 2 (sod mod 60) ++
      (match frac with [] => [] | _ => 46 :: frac end) ++ format_zone (zone t)).

(** [n] digits as a number within bounds, and the rest. *)
Definition read_digits (n : nat) (lo hi : Z) (s : bytes) : option (Z * bytes) :=
  let ds := take n s in
  if (length ds =? n)%nat && forallb isdigit ds && (lo <=? digits_value ds) && (digits_value ds <=? hi)
  then Some (digits_value ds, drop n s) else None.
Definition read_char (c : Z) (s : bytes) : option bytes :=
  match s with x :: r => if x =? c then Some r else None | [] => None end.

Fixpoint span_digits (s : bytes) : bytes * bytes :=
  match s with
  | c :: r => if isdigit c then let '(d, t) := span_digits r in (c :: d, t) else ([], s)
  | [] => ([], [])
  end.

(** The fraction of a second; digits past the ninth are dropped. *)
Definition read_fraction (s : bytes) : option (Z * bytes) :=
  match s with
  | c :: r =>
      if c =? 46 then
        match span_digits r with
        | ([], _) => None
        | (ds, t) => Some (digits_value (take 9 (ds ++ replicate 9 48)), t)
        end
      else Some (0, s)
  | [] => Some (0, s)
  end.

Definition read_zone (s : bytes) : option Z :=
  match s with
  | [c] => if c =? 90 then Some 0 else None
  | c :: r =>
      if (c =? 43) || (c =? 45) then
        match read_digits 2 0 23 r with
        | None => None
        | Some (h, r) =>
            match read_char 58 r with
            | None => None
            | Some r =>
                match read_digits 2 0 59 r with
                | Some (m, []) => Some ((if c =? 45 then -1 else 1) * (h * 3600 + m * 60))
                | _ => None
                end
            end
        end
      else None
  | [] => None
  end.

(** The strict RFC 3339 parser of [UnmarshalJSON] on the text between the quotes. *)
Definition UnmarshalTime (s : bytes) : option Time :=
  '(y, s) ← read_digits 4 0 9999 s; s ← read_char 45 s;
  '(m, s) ← read_digits 2 1 12 s; s ← read_char 45 s;
  '(d, s) ← read_digits 2 1 (days_in m y) s; s ← read_char 84 s;
  '(h, s) ← read_digits 2 0 23 s; s ← read_char 58 s;
  '(mi, s) ← read_digits 2 0 59 s; s ← read_char 58 s;
  '(sec, s) ← read_digits 2 0 59 s;
  '(ns, s) ← read_fraction s;
  z ← read_zone s;
  Some {| instant := ((days_of_civil y m d - epoch_days) * 86400 + h * 3600 + mi * 60 + sec - z) * nanos_per_second + ns;
          zone := z |}.

(* ------------------------------------------------------------------ *)
(** ** Lemmas: the calendar *)

(** The year and day of a day of the 400-year era; the last day of a year that
    begins in March is a leap day. *)
Lemma year_of_era doe :
  0 <= doe < 146097 ->
  let yoe := (doe - doe / 1460 + doe / 36524 - doe / 146096) / 365 in
  let doy := doe - (365 * yoe + yoe / 4 - yoe / 100) in
  0 <= yoe < 400 /\ 0 <= doy <= 365 /\
  (doy = 365 -> (yoe + 1) mod 4 = 0 /\ ((yoe + 1) mod 100 <> 0 \/ (yoe + 1) mod 400 = 0)).
Proof. intros H. cbv zeta. Z.to_euclidean_division_equations. lia. Qed.

(** The month and day of a day of the year. *)
Lemma month_of_year doy :
  0 <= doy <= 365 ->
  let mp := (5 * doy + 2) / 153 in
  let d := doy - month_days mp + 1 in
  0 <= mp <= 11 /\ 1 <= d /\
  d <= (if mp =? 11 then 29 else if (mp =? 1) || (mp =? 3) || (mp =? 6) || (mp =? 8) then 30 else 31) /\
  (mp = 11 -> d = 29 -> doy = 365).
Proof.
  intros H. cbv zeta. unfold month_days.
  assert (0 <= (5 * doy + 2) / 153 <= 11) as Hm by (Z.to_euclidean_division_equations; lia).
  remember ((5 * doy + 2) / 153) as mp eqn:Emp.
  assert (mp = 0 \/ mp = 1 \/ mp = 2 \/ mp = 3 \/ mp = 4 \/ mp = 5 \/ mp = 6 \/ mp = 7 \/ mp = 8 \/ mp = 9 \/
    mp = 10 \/ mp = 11) as Hc by lia.
  repeat destruct Hc as [Hc|Hc]; rewrite Hc in *; simpl; Z.to_euclidean_division_equations; lia.
Qed.

Lemma leap_shift y e : is_leap (y + 400 * e) = is_leap y.
Proof.
  unfold is_leap. f_equal; [|f_equal].
  - f_equal. replace (y + 400 * e) with (y + (100 * e) * 4) by lia. by apply Z.mod_add.
  - do 2 f_equal. replace (y + 400 * e) with (y + (4 * e) * 100) by lia. by apply Z.mod_add.
  - f_equal. replace (y + 400 * e) with (y + e * 400) by lia. by apply Z.mod_add.
Qed.

Lemma civil_roundtrip n :
  let '(y, m, d) := civil_of_days n in
  days_of_civil y m d = n /\ 1 <= m <= 12 /\ 1 <= d <= days_in m y.
Proof.
  pose proof (Z.mod_pos_bound n 146097 ltac:(lia)) as Hb. unfold civil_of_days. cbv zeta.
  destruct (year_of_era _ Hb) as (Hy & Hd & Hl).
  set (yoe := (_ - _ + _ - _) / 365) in *.
  set (doy := n mod 146097 - (365 * yoe + yoe / 4 - yoe / 100)) in *.
  destruct (month_of_year doy Hd) as (Hm & Hd1 & Hd2 & Hf). set (mp := (5 * doy + 2) / 153) in *.
  set (era := n / 146097).
  assert (n = era * 146097 + n mod 146097) as Hn by (unfold era; pose proof (Z.div_mod n 146097); lia).
  assert (era * 146097 + doy + (365 * yoe + yoe / 4 - yoe / 100) = n) as Hn' by (unfold doy; lia).
  set (m := if mp <? 10 then mp + 3 else mp - 9).
  assert (m = (mp + 2) mod 12 + 1 /\ 1 <= m <= 12 /\ (m + 9) mod 12 = mp /\ (m <=? 2) = (10 <=? mp)) as (Hm1 & Hm2 & Hm3 & Hm4).
  { unfold m. destruct (Z.ltb_spec mp 10), (Z.leb_spec 10 mp); try lia;
      (split; [|split; [lia|split]]); Z.to_euclidean_division_equations; lia. }
  split; [|split; [done|]].
  - unfold days_of_civil. rewrite Hm3, Hm4. fold mp.
    replace (if 10 <=? mp then _ else _) with (yoe + era * 400) by (destruct (10 <=? mp); lia).
    replace ((yoe + era * 400) / 4) with (yoe / 4 + era * 100) by (Z.to_euclidean_division_equations; lia).
    replace ((yoe + era * 400) / 100) with (yoe / 100 + era * 4) by (Z.to_euclidean_division_equations; lia).
    replace ((yoe + era * 400) / 400) with era by (Z.to_euclidean_division_equations; lia). lia.
  - split; [done|]. rewrite Hm4. unfold days_in.
    destruct (Z.eqb_spec m 2) as [E|].
    + assert (mp = 11) as E11 by (unfold m in E; destruct (mp <? 10); lia). rewrite E11 in *.
      change (10 <=? 11) with true. cbv iota. replace (yoe + era * 400 + 1) with (yoe + 1 + 400 * era) by lia.
      rewrite leap_shift. simpl in Hd2. destruct (is_leap (yoe + 1)) eqn:El; [lia|].
      destruct (Z.eq_dec (doy - month_days 11 + 1) 29) as [E29|]; [|lia].
      destruct (Hl (Hf eq_refl E29)) as [H4 H100]. unfold is_leap in El. rewrite H4 in El. simpl in El.
      apply orb_false_iff in El as [E1 E2]. breflect. lia.
    + unfold m in *. clear Hl Hf Hn Hn' Hm3 Hm1.
      destruct (Z.ltb_spec mp 10); repeat case_test; breflect; lia.
Qed.

(* ------------------------------------------------------------------ *)
(** ** Lemmas: the text *)

Lemma fixed_digits_spec n v :
  0 <= v < 10 ^ Z.of_nat n ->
  length (fixed_digits n v) = n /\ forallb isdigit (fixed_digits n v) = true /\ digits_value (fixed_digits n v) = v.
Proof.
  revert v. induction n as [|n IH]; intros v Hv; [simpl in Hv; repeat split; unfold digits_value; simpl; lia|].
  rewrite Nat2Z.inj_succ, Z.pow_succ_r in Hv by lia. cbn [fixed_digits].
  destruct (IH (v / 10)) as (H1 & H2 & H3).
  { split; [apply Z.div_pos; lia|apply Z.div_lt_upper_bound; lia]. }
  pose proof (Z.mod_pos_bound v 10). rewrite length_app, forallb_digits_app, digits_value_app, H1, H2, H3.
  split; [simpl; lia|]. split; [simpl; rewrite andb_true_r; apply isdigit_range; lia|].
  unfold digits_value. simpl. pose proof (Z.div_mod v 10). lia.
Qed.

Lemma read_fixed n lo hi v r :
  0 <= v < 10 ^ Z.of_nat n -> lo <= v <= hi -> read_digits n lo hi (fixed_digits n v ++ r) = Some (v, r).
Proof.
  intros Hv Hb. destruct (fixed_digits_spec n v Hv) as (H1 & H2 & H3). unfold read_digits.
  assert (take n (fixed_digits n v ++ r) = fixed_digits n v) as -> by (rewrite <- H1 at 1; apply take_app_length).
  assert (drop n (fixed_digits n v ++ r) = r) as -> by (rewrite <- H1 at 1; apply drop_app_length).
  by rewrite H1, H2, H3, Nat.eqb_refl, !(proj2 (Z.leb_le _ _)) by lia.
Qed.

Lemma drop_zeros_pad s :
  exists k, s = drop_trailing_zeros s ++ replicate k 48.
Proof.
  induction s as [|c s (k & IH)]; [by exists 0%nat|]. cbn [drop_trailing_zeros].
  destruct (drop_trailing_zeros s) as [|x t] eqn:E.
  - destruct (Z.eqb_spec c 48) as [->|].
    + exists (S k). rewrite IH at 1. done.
    + exists k. rewrite IH at 1. done.
  - exists k. rewrite IH at 1. done.
Qed.

Lemma span_digits_all ds r :
  forallb isdigit ds = true -> match r with [] => True | c :: _ => isdigit c = false end ->
  span_digits (ds ++ r) = (ds, r).
Proof.
  intros Hd Hr. induction ds as [|c ds IH].
  - destruct r as [|c r]; [done|]. cbn. by rewrite Hr.
  - cbn [forallb] in Hd. apply andb_true_iff in Hd as [Hc Hd]. cbn [app span_digits]. rewrite Hc. by rewrite IH.
Qed.

Lemma forallb_prefix (a b : bytes) : forallb isdigit (a ++ b) = true -> forallb isdigit a = true.
Proof. rewrite forallb_digits_app, andb_true_iff. tauto. Qed.

Lemma read_fraction_format nanos r :
  0 <= nanos < nanos_per_second ->
  match r with [] => True | c :: _ => isdigit c = false /\ c <> 46 end ->
  let frac := drop_trailing_zeros (fixed_digits 9 nanos) in
  read_fraction ((match frac with [] => [] | _ => 46 :: frac end) ++ r) = Some (nanos, r).
Proof.
  intros Hn Hr. cbv zeta. destruct (fixed_digits_spec 9 nanos) as (H1 & H2 & H3); [exact Hn|].
  destruct (drop_zeros_pad (fixed_digits 9 nanos)) as (k & Hk).
  remember (drop_trailing_zeros (fixed_digits 9 nanos)) as frac eqn:Ef. clear Ef.
  destruct frac as [|c f].
  - cbn [app] in Hk. rewrite Hk, digits_value_zeros in H3. subst nanos.
    destruct r as [|x r]; [done|]. destruct Hr as [_ Hx]. cbn [app read_fraction].
    by rewrite (proj2 (Z.eqb_neq x 46)).
  - rewrite Hk in H1, H2, H3. apply forallb_prefix in H2. cbn [app read_fraction].
    change (46 =? 46) with true. cbv iota.
    change (c :: f ++ r) with ((c :: f) ++ r).
    rewrite (span_digits_all (c :: f) r); [|done|by destruct r; [|destruct Hr]].
    do 2 f_equal. rewrite <- H3. f_equal.
    assert (length (c :: f) <= 9)%nat by (rewrite <- H1, length_app; lia).
    rewrite take_app, take_ge by lia. f_equal. rewrite length_app, length_replicate in H1.
    rewrite take_replicate. f_equal. lia.
Qed.

Lemma read_zone_format z :
  Z.abs z < 86400 -> z mod 60 = 0 -> read_zone (format_zone z) = Some z.
Proof.
  intros Hz Hm. unfold format_zone. destruct (Z.eqb_spec z 0) as [->|Hne]; [done|].
  set (h := Z.abs z / 3600). set (mi := Z.abs z / 60 mod 60).
  assert (Z.abs z = h * 3600 + mi * 60) as Hd by (unfold h, mi; Z.to_euclidean_division_equations; lia).
  assert (0 <= h <= 23) as Hh by (unfold h; Z.to_euclidean_division_equations; lia).
  assert (0 <= mi <= 59) as Hmi by (unfold mi; Z.to_euclidean_division_equations; lia).
  destruct (fixed_digits 2 h ++ 58 :: fixed_digits 2 mi) as [|x y] eqn:E.
  { apply (f_equal length) in E. rewrite length_app in E. simpl in E. lia. }
  unfold read_zone. rewrite <- E.
  rewrite read_fixed by lia. cbn [read_char]. change (58 =? 58) with true. cbv iota.
  rewrite <- (app_nil_r (fixed_digits 2 mi)), read_fixed by lia.
  destruct (Z.ltb_spec z 0); simpl; f_equal; lia.
Qed.

Lemma zone_head z : match format_zone z with [] => True | c :: _ => isdigit c = false /\ c <> 46 end.
Proof. unfold format_zone. destruct (z =? 0); [done|]. by destruct (z <? 0). Qed.

(** An instant that has an RFC 3339 text is read back from it. *)
Lemma UnmarshalTime_Marshal t s : MarshalTime t = Ok s -> UnmarshalTime s = Some t.
Proof.
  unfold MarshalTime. cbv zeta.
  set (local := instant t + zone t * nanos_per_second). set (secs := local / nanos_per_second).
  pose proof (civil_roundtrip (secs / 86400 + epoch_days)) as Hc.
  destruct (civil_of_days (secs / 86400 + epoch_days)) as [[y m] d]. destruct Hc as (Hd & Hm & Hdd).
  destruct (_ || _) eqn:E; [done|]. apply orb_false_iff in E as [E Ez]. apply orb_false_iff in E as [E Ea].
  apply orb_false_iff in E as [E1 E2]. breflect.
  pose proof (Z.mod_pos_bound local nanos_per_second ltac:(done)) as Hn.
  pose proof (Z.mod_pos_bound secs 86400 ltac:(lia)) as Hs. intros Heq%Ok_inj. rewrite <- Heq. clear Heq.
  assert (d <= 31) by (unfold days_in in Hdd; repeat case_test; lia).
  assert (0 <= secs mod 86400 / 3600 <= 23 /\ 0 <= secs mod 86400 / 60 mod 60 <= 59 /\
    0 <= secs mod 86400 mod 60 <= 59) as (Hh & Hmi & Hse) by (Z.to_euclidean_division_equations; lia).
  unfold UnmarshalTime. cbn [mbind option_bind].
  rewrite read_fixed by lia. cbn [mbind option_bind read_char]. change (45 =? 45) with true. cbv iota. cbn [mbind option_bind].
  rewrite read_fixed by lia. cbn [mbind option_bind read_char]. change (45 =? 45) with true. cbv iota. cbn [mbind option_bind].
  rewrite read_fixed by lia. cbn [mbind option_bind read_char]. change (84 =? 84) with true. cbv iota. cbn [mbind option_bind].
  rewrite read_fixed by lia. cbn [mbind option_bind read_char]. change (58 =? 58) with true. cbv iota. cbn [mbind option_bind].
  rewrite read_fixed by lia. cbn [mbind option_bind read_char]. change (58 =? 58) with true. cbv iota. cbn [mbind option_bind].
  rewrite read_fixed by lia. cbn [mbind option_bind].
  rewrite read_fraction_format by (done || apply zone_head). cbn [mbind option_bind].
  rewrite read_zone_format by (done || lia). cbn [mbind option_bind].
  destruct t as [i z]. simpl in *. do 2 f_equal. rewrite Hd.
  assert (local = secs * nanos_per_second + local mod nanos_per_second) as Hl
    by (unfold secs; pose proof (Z.div_mod local nanos_per_second ltac:(done)); lia).
  assert (secs = secs / 86400 * 86400 + secs mod 86400) by (pose proof (Z.div_mod secs 86400); lia).
  assert (secs mod 86400 = secs mod 86400 / 3600 * 3600 + secs mod 86400 / 60 mod 60 * 60 + secs mod 86400 mod 60)
    by (Z.to_euclidean_division_equations; lia).
  unfold local in Hl at 1. simpl in Hl. unfold nanos_per_second in *. lia.
Qed.

(** The text of an instant is ASCII. *)
Definition time_char (c : Z) : Prop := 43 <= c <= 90.

Lemma fixed_digits_chars n v : Forall time_char (fixed_digits n v).
Proof.
  revert v. induction n as [|n IH]; intros v; [constructor|]. cbn [fixed_digits]. apply Forall_app. split; [apply IH|].
  constructor; [|constructor]. pose proof (Z.mod_pos_bound v 10). unfold time_char. lia.
Qed.

Lemma drop_zeros_chars s : Forall time_char s -> Forall time_char (drop_trailing_zeros s).
Proof.
  induction 1 as [|c s Hc Hs IH]; [constructor|]. cbn [drop_trailing_zeros].
  destruct (drop_trailing_zeros s); [destruct (c =? 48)|]; auto using Forall_nil_2, Forall_cons_2.
Qed.

Lemma MarshalTime_chars t s : MarshalTime t = Ok s -> Forall time_char s.
Proof.
  unfold MarshalTime. cbv zeta. destruct (civil_of_days _) as [[y m] d]. destruct (_ || _); [done|].
  intros Heq%Ok_inj. rewrite <- Heq. clear Heq.
  pose proof (fixed_digits_chars) as Hd.
  pose proof (drop_zeros_chars _ (Hd 9%nat ((instant t + zone t * nanos_per_second) mod nanos_per_second))) as Hz.
  assert (Forall time_char (match drop_trailing_zeros
    (fixed_digits 9 ((instant t + zone t * nanos_per_second) mod nanos_per_second)) with [] => [] | _ =>
    46 :: drop_trailing_zeros (fixed_digits 9 ((instant t + zone t * nanos_per_second) mod nanos_per_second)) end)) as Hf.
  { destruct (drop_trailing_zeros _); [apply Forall_nil_2|]. by apply Forall_cons_2; [unfold time_char; lia|]. }
  assert (Forall time_char (format_zone (zone t))) as Hzone.
  { unfold format_zone. destruct (zone t =? 0); [apply Forall_cons_2; [unfold time_char; lia|apply Forall_nil_2]|].
    apply Forall_cons_2; [destruct (zone t <? 0); unfold time_char; lia|].
    apply Forall_app. split; [apply Hd|]. apply Forall_cons_2; [unfold time_char; lia|apply Hd]. }
  rewrite !Forall_app, Forall_cons, !Forall_app, Forall_cons, !Forall_app, Forall_cons, !Forall_app, Forall_cons,
    !Forall_app, Forall_cons, !Forall_app.
  unfold time_char at 2 4 6 8 10. repeat (split; [first [apply Hd|lia]|]). done.
Qed.
