(* ===== verification/Json.v ===== *)
(** * JSON values as the code holds them
    The dynamic types the decoders produce ([nil], [bool], [string], [int64],
    [json.Number], [float64], [[]any] and [map[string]any]), objects as association
    lists in increasing key order (so that equal maps are equal lists), and the order
    on keys that [sort.Strings] uses. *)
From Stdlib Require Import ZArith Lia SpecFloat.
From stdpp Require Import base list option sorting.
From S2P Require Import Prelude.
Local Open Scope Z_scope.

Unset Elimination Schemes.
Inductive json : Type :=
| JNull
| JBool (b : bool)
| JStr (s : bytes)
| JInt (n : Z)
| JNumber (text : bytes)
| JFloat (f : spec_float)
| JArr (l : list json)
| JObj (m : list (bytes * json)).
Set Elimination Schemes.

Section JsonInd.
Context (P : json -> Prop).
Context (HNull : P JNull) (HBool : forall b, P (JBool b)) (HStr : forall s, P (JStr s))
  (HInt : forall n, P (JInt n)) (HNumber : forall t, P (JNumber t)) (HFloat : forall f, P (JFloat f))
  (HArr : forall l, Forall P l -> P (JArr l))
  (HObj : forall m, Forall (fun kv => P kv.2) m -> P (JObj m)).

Fixpoint json_ind (j : json) : P j :=
  match j with
  | JNull => HNull
  | JBool b => HBool b
  | JStr s => HStr s
  | JInt n => HInt n
  | JNumber t => HNumber t
  | JFloat f => HFloat f
  | JArr l => HArr l ((fix go l : Forall P l :=
      match l with [] => Forall_nil_2 P | x :: l => Forall_cons_2 P x l (json_ind x) (go l) end) l)
  | JObj m => HObj m ((fix go m : Forall (fun kv => P kv.2) m :=
      match m with
      | [] => Forall_nil_2 _
      | x :: m => Forall_cons_2 (fun kv => P kv.2) x m (json_ind x.2) (go m)
      end) m)
  end.
End JsonInd.

(** The order of [sort.Strings]. *)
Fixpoint bytes_ltb (a b : bytes) : bool :=
  match a, b with
  | [], [] => false
  | [], _ :: _ => true
  | _ :: _, [] => false
  | x :: a, y :: b => (x <? y) || ((x =? y) && bytes_ltb a b)
  end.
Definition bytes_lt (a b : bytes) : Prop := bytes_ltb a b = true.

(** [m[k]] and [m[k] = v] on an object; a map of any values. *)
Section Maps.
Context {V : Type}.
Fixpoint obj_lookup (k : bytes) (m : list (bytes * V)) : option V :=
  match m with
  | [] => None
  | (k', v) :: m => if bytes_eqb k k' then Some v else obj_lookup k m
  end.
Fixpoint obj_insert (k : bytes) (v : V) (m : list (bytes * V)) : list (bytes * V) :=
  match m with
  | [] => [(k, v)]
  | (k', v') :: m' =>
      if bytes_eqb k k' then (k, v) :: m'
      else if bytes_ltb k k' then (k, v) :: m
      else (k', v') :: obj_insert k v m'
  end.
Definition obj_has (k : bytes) (m : list (bytes * V)) : bool :=
  match obj_lookup k m with Some _ => true | None => false end.
(** A map literal. *)
Definition obj_of_list (l : list (bytes * V)) : list (bytes * V) :=
  foldl (fun m kv => obj_insert kv.1 kv.2 m) [] l.
(** The representation invariant: keys strictly increasing. *)
Definition obj_sorted (m : list (bytes * V)) : Prop := StronglySorted bytes_lt m.*1.
End Maps.

Definition as_string (j : json) : option bytes := match j with JStr s => Some s | _ => None end.
Definition as_object (j : json) : option (list (bytes * json)) := match j with JObj m => Some m | _ => None end.
Definition as_array (j : json) : option (list json) := match j with JArr l => Some l | _ => None end.
Definition as_int (j : json) : option Z := match j with JInt n => Some n | _ => None end.
Definition as_bool (j : json) : option bool := match j with JBool b => Some b | _ => None end.

(** Every object of a value in key order. *)
Unset Elimination Schemes.
Inductive wf_json : json -> Prop :=
| wf_null : wf_json JNull
| wf_bool b : wf_json (JBool b)
| wf_str s : wf_json (JStr s)
| wf_int n : wf_json (JInt n)
| wf_number t : wf_json (JNumber t)
| wf_float f : wf_json (JFloat f)
| wf_arr l : Forall wf_json l -> wf_json (JArr l)
| wf_obj m : obj_sorted m -> Forall (fun kv => wf_json kv.2) m -> wf_json (JObj m).
Set Elimination Schemes.

(* ------------------------------------------------------------------ *)
(** ** Lemmas *)

Lemma bytes_ltb_irrefl a : bytes_ltb a a = false.
Proof. induction a as [|x a IH]; [done|]. cbn [bytes_ltb]. rewrite Z.ltb_irrefl, Z.eqb_refl. done. Qed.

Lemma bytes_lt_trans a b c : bytes_lt a b -> bytes_lt b c -> bytes_lt a c.
Proof.
  unfold bytes_lt. revert b c. induction a as [|x a IH]; intros [|y b] [|z c]; try done.
  cbn [bytes_ltb]. rewrite !orb_true_iff, !andb_true_iff, !Z.ltb_lt, !Z.eqb_eq.
  intros [H|[H1 H]] [H'|[H1' H']]; try (left; lia). right. split; [lia|]. by eapply IH.
Qed.

#[export] Instance bytes_lt_transitive : Transitive bytes_lt.
Proof. intros a b c. apply bytes_lt_trans. Qed.

Lemma bytes_ltb_total a b : bytes_ltb a b = false -> a <> b -> bytes_ltb b a = true.
Proof.
  revert b. induction a as [|x a IH]; intros [|y b]; try done. cbn [bytes_ltb].
  rewrite orb_false_iff, andb_false_iff, Z.ltb_ge, Z.eqb_neq, orb_true_iff, andb_true_iff, Z.ltb_lt, Z.eqb_eq.
  intros [H1 H2] Hne. destruct (Z.eq_dec x y) as [->|]; [|lia].
  right. split; [done|]. apply IH; [destruct H2; congruence|congruence].
Qed.

Lemma bytes_lt_neq a b : bytes_lt a b -> a <> b.
Proof. intros H ->. unfold bytes_lt in H. by rewrite bytes_ltb_irrefl in H. Qed.

Section MapLemmas.
Context {V : Type}.
Implicit Types m : list (bytes * V).

Lemma obj_insert_keys k v m x : x ∈ (obj_insert k v m).*1 -> x = k \/ x ∈ m.*1.
Proof.
  induction m as [|[k' v'] m IH]; simpl.
  - rewrite !elem_of_cons. intros [?|?]; auto.
  - destruct (bytes_eqb k k') eqn:E.
    + unfold bytes_eqb in E. apply bool_decide_eq_true in E as ->. simpl. rewrite !elem_of_cons. tauto.
    + destruct (bytes_ltb k k'); simpl; rewrite !elem_of_cons; [tauto|]. intros [?|H]; [tauto|].
      destruct (IH H); tauto.
Qed.

Lemma obj_insert_sorted k v m : obj_sorted m -> obj_sorted (obj_insert k v m).
Proof.
  unfold obj_sorted. induction m as [|[k' v'] m IH]; simpl; [repeat constructor|].
  intros Hs. inversion_clear Hs as [|? ? Hm Hk]. destruct (bytes_eqb k k') eqn:E.
  - apply bool_decide_eq_true in E as ->. by constructor.
  - destruct (bytes_ltb k k') eqn:El.
    + simpl. constructor; [by constructor|]. constructor; [done|].
      eapply Forall_impl; [exact Hk|]. intros y Hy. by eapply bytes_lt_trans.
    + simpl. constructor; [by apply IH|]. apply Forall_forall. intros y Hy.
      destruct (obj_insert_keys k v m y Hy) as [->|Hin].
      * apply bytes_ltb_total; [done|]. by apply bool_decide_eq_false in E.
      * by eapply (proj1 (Forall_forall _ _) Hk).
Qed.

Lemma obj_lookup_insert k v m : obj_lookup k (obj_insert k v m) = Some v.
Proof.
  assert (bytes_eqb k k = true) as Hr by (by apply bool_decide_eq_true).
  induction m as [|[k' v'] m IH]; simpl; [by rewrite Hr|].
  destruct (bytes_eqb k k') eqn:E; simpl; [by rewrite Hr|].
  destruct (bytes_ltb k k'); simpl; [by rewrite Hr|by rewrite E].
Qed.

Lemma obj_lookup_insert_ne k k' v m : k <> k' -> obj_lookup k (obj_insert k' v m) = obj_lookup k m.
Proof.
  intros Hne. induction m as [|[k2 v2] m IH]; simpl.
  - unfold bytes_eqb. by rewrite bool_decide_false.
  - destruct (bytes_eqb k' k2) eqn:E; simpl.
    + apply bool_decide_eq_true in E as ->. unfold bytes_eqb. by rewrite bool_decide_false.
    + destruct (bytes_ltb k' k2); simpl; [|by rewrite IH]. unfold bytes_eqb. by rewrite (bool_decide_false (k = k')).
Qed.

(** Appending a key above all others is how a sorted object is rebuilt. *)
Lemma obj_insert_last k v m : Forall (fun x => bytes_lt x k) m.*1 -> obj_insert k v m = m ++ [(k, v)].
Proof.
  induction m as [|[k' v'] m IH]; [done|]. simpl. intros H. apply Forall_cons in H as [Hk H].
  unfold bytes_eqb. rewrite bool_decide_false by (intros ->; by apply bytes_lt_neq in Hk).
  destruct (bytes_ltb k k') eqn:E; [|by rewrite IH].
  exfalso. eapply bytes_lt_neq; [eapply bytes_lt_trans; [exact Hk|exact E]|done].
Qed.

Lemma obj_lookup_Some k v m : obj_lookup k m = Some v -> (k, v) ∈ m.
Proof.
  induction m as [|[k' v'] m IH]; [done|]. simpl. destruct (bytes_eqb k k') eqn:E.
  - apply bool_decide_eq_true in E as ->. intros [= ->]. apply elem_of_cons. by left.
  - intros H. apply elem_of_cons. right. auto.
Qed.

Lemma obj_lookup_None k m : obj_lookup k m = None <-> k ∉ m.*1.
Proof.
  induction m as [|[k' v'] m IH]; simpl; [split; [intros _; apply not_elem_of_nil|done]|].
  rewrite not_elem_of_cons. destruct (bytes_eqb k k') eqn:E.
  - apply bool_decide_eq_true in E as ->. split; [done|intros [? _]; done].
  - apply bool_decide_eq_false in E. rewrite IH. tauto.
Qed.

Lemma obj_insert_perm k v m : k ∉ m.*1 -> obj_insert k v m ≡ₚ (k, v) :: m.
Proof.
  induction m as [|[k' v'] m IH]; [done|]. intros H. rewrite fmap_cons, not_elem_of_cons in H. destruct H as [Hne H]. simpl in *.
  unfold bytes_eqb. rewrite bool_decide_false by done. destruct (bytes_ltb k k'); [done|].
  rewrite IH by done. constructor.
Qed.

(** A map built from distinct keys holds exactly the pairs given. *)
Lemma obj_of_list_perm (l : list (bytes * V)) : NoDup l.*1 -> obj_of_list l ≡ₚ l.
Proof.
  unfold obj_of_list. assert (forall l o, NoDup (l ++ o).*1 -> foldl (fun m kv => obj_insert kv.1 kv.2 m) o l ≡ₚ l ++ o) as H.
  { clear l. induction l as [|[k v] l IH]; intros o Hnd; [done|]. cbn [foldl fst snd].
    rewrite fmap_app in Hnd. cbn in Hnd. apply NoDup_cons in Hnd as [Hk Hnd]. rewrite not_elem_of_app in Hk. destruct Hk as [Hk1 Hk2].
    assert (obj_insert k v o ≡ₚ (k, v) :: o) as Hp by (by apply obj_insert_perm). rewrite IH.
    - rewrite Hp. symmetry. apply Permutation_middle.
    - rewrite fmap_app. rewrite Hp. cbn. rewrite <- Permutation_middle. apply NoDup_cons.
      rewrite not_elem_of_app. done. }
  intros Hnd. rewrite H by (by rewrite app_nil_r). by rewrite app_nil_r.
Qed.

Lemma obj_of_list_sorted (l : list (bytes * V)) : obj_sorted (obj_of_list l).
Proof.
  unfold obj_of_list. assert (forall l o, obj_sorted o -> obj_sorted (foldl (fun m kv => obj_insert kv.1 kv.2 m) o l)) as H.
  { clear l. induction l as [|kv l IH]; intros o Ho; [done|]. cbn [foldl]. apply IH. by apply obj_insert_sorted. }
  apply H. constructor.
Qed.

Lemma obj_sorted_NoDup m : obj_sorted m -> NoDup m.*1.
Proof.
  unfold obj_sorted. induction (m.*1) as [|k l IH]; intros H; [constructor|]. inversion_clear H as [|? ? Hl Hk].
  constructor; [|by apply IH]. intros Hin. apply (proj1 (Forall_forall _ _) Hk) in Hin. by apply bytes_lt_neq in Hin.
Qed.

(** Two sorted maps with the same lookups are the same. *)
Lemma obj_sorted_lookup k v m : obj_sorted m -> (k, v) ∈ m -> obj_lookup k m = Some v.
Proof.
  induction m as [|[k' v'] m IH]; [intros _ H; by apply elem_of_nil in H|].
  intros Hs Hin. unfold obj_sorted in Hs. cbn in Hs. inversion_clear Hs as [|? ? Hm Hk]. simpl.
  apply elem_of_cons in Hin as [[= -> ->]|Hin]; [unfold bytes_eqb; by rewrite bool_decide_true|].
  unfold bytes_eqb. rewrite bool_decide_false; [by apply IH|].
  intros ->. assert (k' ∈ m.*1) as Hk' by (apply list_elem_of_fmap; by exists (k', v)).
  apply (proj1 (Forall_forall _ _) Hk) in Hk'. by apply bytes_lt_neq in Hk'.
Qed.
End MapLemmas.
