(* ===== verification/JsonText.v ===== *)
(** * JSON text as the standard library writes and reads it
    The string encoder of [encoding/json] with HTML escaping off, the lexical forms its
    scanner accepts, and [json.Decoder]'s token reader with its state machine. *)
From Stdlib Require Import ZArith Lia SpecFloat.
From stdpp Require Import base list option strings.
From S2P Require Import Prelude Utf8 Strconv GoFloat Json.
Local Open Scope Z_scope.

Definition hexdigit (v : Z) : Z := if v <? 10 then 48 + v else 87 + v.

(** ** Strings *)

(** How the encoder writes one rune of a string; [bad] is an invalid byte. *)
Definition escape_rune (p : Z * nat) : bytes :=
  let r := p.1 in
  if bad_rune p then lit "\ufffd"
  else if r <? 128 then
    if (r =? 34) || (r =? 92) then [92; r]
    else if 32 <=? r then [r]
    else if r =? 8 then lit "\b" else if r =? 12 then lit "\f" else if r =? 10 then lit "\n"
    else if r =? 13 then lit "\r" else if r =? 9 then lit "\t"
    else lit "\u00" ++ [hexdigit (r / 16); hexdigit (r mod 16)]
  else if r =? 8232 then lit "\u2028" else if r =? 8233 then lit "\u2029"
  else EncodeRune r.

Definition quote_body (s : bytes) : bytes := concat (escape_rune <$> runes s).
Definition quote (s : bytes) : bytes := 34 :: quote_body s ++ [34].

(** Four hexadecimal digits. *)
Definition hex4 (s : bytes) : option Z :=
  match s with
  | a :: b :: c :: d :: _ =>
      match hexval a, hexval b, hexval c, hexval d with
      | Some a, Some b, Some c, Some d => Some (((a * 16 + b) * 16 + c) * 16 + d)
      | _, _, _, _ => None
      end
  | _ => None
  end.

(** [utf16.DecodeRune] of a surrogate pair. *)
Definition utf16_decode (r1 r2 : Z) : option Z :=
  if (55296 <=? r1) && (r1 <? 56320) && (56320 <=? r2) && (r2 <? 57344)
  then Some ((r1 - 55296) * 1024 + (r2 - 56320) + 65536) else None.
Definition is_surrogate (r : Z) : bool := (55296 <=? r) && (r <? 57344).

(** What [\u] stands for, with the characters after its four digits: a surrogate
    pair is one rune, any other surrogate the replacement character. *)
Definition unicode_escape (r : Z) (s : bytes) : bytes * bytes :=
  if is_surrogate r then
    match s with
    | b :: u :: t =>
        match (if (b =? 92) && (u =? 117) then hex4 t else None) with
        | Some r2 =>
            match utf16_decode r r2 with
            | Some d => (EncodeRune d, drop 4 t)
            | None => (EncodeRune runeError, s)
            end
        | None => (EncodeRune runeError, s)
        end
    | _ => (EncodeRune runeError, s)
    end
  else (EncodeRune r, s).

Definition simple_escape (e : Z) : option Z :=
  if (e =? 34) || (e =? 92) || (e =? 47) then Some e
  else if e =? 98 then Some 8 else if e =? 102 then Some 12 else if e =? 110 then Some 10
  else if e =? 114 then Some 13 else if e =? 116 then Some 9 else None.

(** The contents of a string literal after its opening quote, and the rest. *)
Fixpoint lex_string (fuel : nat) (s : bytes) : option (bytes * bytes) :=
  match fuel with
  | O => None
  | S fuel =>
      match s with
      | [] => None
      | c :: s' =>
          if c =? 34 then Some ([], s')
          else if c =? 92 then
            match s' with
            | [] => None
            | e :: s'' =>
                if e =? 117 then
                  match hex4 s'' with
                  | None => None
                  | Some r =>
                      let '(out, rest) := unicode_escape r (drop 4 s'') in
                      match lex_string fuel rest with
                      | Some (t, r) => Some (out ++ t, r)
                      | None => None
                      end
                  end
                else
                  match simple_escape e with
                  | None => None
                  | Some b =>
                      match lex_string fuel s'' with
                      | Some (t, r) => Some (b :: t, r)
                      | None => None
                      end
                  end
            end
          else if c <? 32 then None
          else
            let '(r, w) := DecodeRune s in
            match lex_string fuel (drop w s) with
            | Some (t, rest) => Some (EncodeRune r ++ t, rest)
            | None => None
            end
      end
  end.

(** ** Numbers *)

Fixpoint take_digits (s : bytes) : bytes * bytes :=
  match s with
  | c :: s' => if isdigit c then let '(d, r) := take_digits s' in (c :: d, r) else ([], s)
  | [] => ([], [])
  end.

Definition lex_exponent (s : bytes) : option (bytes * bytes) :=
  match s with
  | e :: s' =>
      if (e =? 101) || (e =? 69) then
        let '(sign, s'') := match s' with
                            | c :: r => if (c =? 43) || (c =? 45) then ([c], r) else ([], s')
                            | [] => ([], s') end in
        match take_digits s'' with
        | ([], _) => None
        | (d, r) => Some (e :: sign ++ d, r)
        end
      else Some ([], s)
  | [] => Some ([], s)
  end.

Definition lex_fraction (s : bytes) : option (bytes * bytes) :=
  match s with
  | d :: s' =>
      if d =? 46 then
        match take_digits s' with ([], _) => None | (ds, r) => Some (d :: ds, r) end
      else Some ([], s)
  | [] => Some ([], s)
  end.

Definition lex_unsigned (s : bytes) : option (bytes * bytes) :=
  match s with
  | [] => None
  | c :: r =>
      if negb (isdigit c) then None else
      let '(whole, r) := if c =? 48 then ([c], r) else take_digits s in
      match lex_fraction r with
      | None => None
      | Some (frac, r) =>
          match lex_exponent r with
          | None => None
          | Some (ex, r) => Some (whole ++ frac ++ ex, r)
          end
      end
  end.

Definition prepend (p : bytes) (x : option (bytes * bytes)) : option (bytes * bytes) :=
  match x with Some (t, r) => Some (p ++ t, r) | None => None end.

Definition lex_number (s : bytes) : option (bytes * bytes) :=
  match s with
  | c :: r => if c =? 45 then prepend [c] (lex_unsigned r) else lex_unsigned s
  | [] => None
  end.

(** ** The encoder *)

(** [json.Marshal] of a float: plain digits between 1e-6 and 1e21, otherwise an
    exponent without a leading zero. *)
Definition encode_digits (q k : Z) : bytes :=
  let ds := decimal_digits 20 q [] in
  let nd := Z.of_nat (length ds) in
  let dp := nd + k in
  let exp := dp - 1 in
  if (exp <? -6) || (21 <=? exp) then
    take 1 ds ++ (if 1 <? nd then 46 :: drop 1 ds else []) ++
    101 :: (if exp <? 0 then 45 else 43) :: decimal_digits 20 (Z.abs exp) []
  else if dp <=? 0 then 48 :: 46 :: replicate (Z.to_nat (- dp)) 48 ++ ds
  else if nd <=? dp then ds ++ replicate (Z.to_nat (dp - nd)) 48
  else take (Z.to_nat dp) ds ++ 46 :: drop (Z.to_nat dp) ds.
Definition encode_float (f : spec_float) : result bytes :=
  match f with
  | S754_zero neg => Ok ((if neg : bool then [45] else []) ++ [48])
  | S754_finite neg m e =>
      let dp := decimal_point 4 ((Z.log2 (Zpos m) + e) * 30103 / 100000 - 1) (Zpos m) e in
      let '(q, k) := shortest 17 1 (Zpos m) e dp in
      let '(q, k) := trim_zeros 20 q k in
      Ok ((if neg : bool then [45] else []) ++ encode_digits q k)
  | _ => Err "json: unsupported value"
  end.

(** A number's text is written as it is, if it is one. *)
Definition encode_number (text : bytes) : result bytes :=
  match lex_number text with
  | Some (_, []) => Ok text
  | _ => Err "json: invalid number literal"
  end.

Fixpoint encode_items (first : bool) (l : list (result bytes)) : result bytes :=
  match l with
  | [] => Ok []
  | x :: l =>
      let* a := x in
      let* b := encode_items false l in
      Ok ((if first then [] else [44]) ++ a ++ b)
  end.
Fixpoint encode_members (first : bool) (m : list (bytes * result bytes)) : result bytes :=
  match m with
  | [] => Ok []
  | (k, x) :: m =>
      let* a := x in
      let* b := encode_members false m in
      Ok ((if first then [] else [44]) ++ quote k ++ 58 :: a ++ b)
  end.

(** [json.Encoder] with HTML escaping off. The members of an object are written in
    the order of the list: increasing keys for a map, field order for a struct. *)
Fixpoint encode_json (v : json) : result bytes :=
  match v with
  | JNull => Ok (lit "null")
  | JBool b => Ok (if b then lit "true" else lit "false")
  | JStr s => Ok (quote s)
  | JInt n => Ok (FormatInt n)
  | JNumber text => encode_number text
  | JFloat f => encode_float f
  | JArr l => let* body := encode_items true (map encode_json l) in Ok (91 :: body ++ [93])
  | JObj m =>
      let* body := encode_members true (map (fun kv => (kv.1, encode_json kv.2)) m) in Ok (123 :: body ++ [125])
  end.

(** ** The token reader *)

Inductive token :=
| TDelim (c : Z)
| TNull
| TBool (b : bool)
| TStr (s : bytes)
| TNum (text : bytes).

Inductive tokenState :=
| TopValue | ArrayStart | ArrayValue | ArrayComma
| ObjectStart | ObjectKey | ObjectColon | ObjectValue | ObjectComma.

Record decoder := { dec_state : tokenState; dec_stack : list tokenState; dec_rest : bytes }.
Definition NewDecoder (data : bytes) : decoder :=
  {| dec_state := TopValue; dec_stack := []; dec_rest := data |}.

Inductive token_result := TEOF | TErr | TOk (t : token) (d : decoder).

Definition isSpace (c : Z) : bool := (c =? 32) || (c =? 9) || (c =? 13) || (c =? 10).
Fixpoint skip_space (s : bytes) : bytes :=
  match s with
  | c :: r => if isSpace c then skip_space r else s
  | [] => []
  end.

Definition value_allowed (s : tokenState) : bool :=
  match s with TopValue | ArrayStart | ArrayValue | ObjectValue => true | _ => false end.
Definition value_end (s : tokenState) : tokenState :=
  match s with ArrayStart | ArrayValue => ArrayComma | ObjectValue => ObjectComma | s => s end.

(** A literal, number or string that starts the remaining text. *)
Definition scan_value (s : bytes) : option (token * bytes) :=
  match s with
  | [] => None
  | c :: r =>
      if c =? 34 then
        match lex_string (length s) r with Some (t, r) => Some (TStr t, r) | None => None end
      else if bytes_eqb (take 4 s) (lit "true") then Some (TBool true, drop 4 s)
      else if bytes_eqb (take 5 s) (lit "false") then Some (TBool false, drop 5 s)
      else if bytes_eqb (take 4 s) (lit "null") then Some (TNull, drop 4 s)
      else match lex_number s with Some (t, r) => Some (TNum t, r) | None => None end
  end.

(** [Decoder.Token]; [fuel] counts the separators it passes. *)
Fixpoint token_fuel (fuel : nat) (d : decoder) : token_result :=
  match fuel with
  | O => TErr
  | S fuel =>
      let st := dec_state d in
      match skip_space (dec_rest d) with
      | [] => TEOF
      | (c :: r) as s =>
          if (c =? 91) || (c =? 123) then
            if negb (value_allowed st) then TErr else
            TOk (TDelim c) {| dec_state := if c =? 91 then ArrayStart else ObjectStart;
                              dec_stack := st :: dec_stack d; dec_rest := r |}
          else if (c =? 93) || (c =? 125) then
            if (match st with
                | ArrayStart | ArrayComma => c =? 93
                | ObjectStart | ObjectComma => c =? 125
                | _ => false end)
            then match dec_stack d with
                 | st' :: stack => TOk (TDelim c) {| dec_state := value_end st'; dec_stack := stack; dec_rest := r |}
                 | [] => TErr
                 end
            else TErr
          else if c =? 58 then
            match st with
            | ObjectColon => token_fuel fuel {| dec_state := ObjectValue; dec_stack := dec_stack d; dec_rest := r |}
            | _ => TErr
            end
          else if c =? 44 then
            match st with
            | ArrayComma => token_fuel fuel {| dec_state := ArrayValue; dec_stack := dec_stack d; dec_rest := r |}
            | ObjectComma => token_fuel fuel {| dec_state := ObjectKey; dec_stack := dec_stack d; dec_rest := r |}
            | _ => TErr
            end
          else if (c =? 34) && (match st with ObjectStart | ObjectKey => true | _ => false end) then
            match scan_value s with
            | Some (t, r) => TOk t {| dec_state := ObjectColon; dec_stack := dec_stack d; dec_rest := r |}
            | None => TErr
            end
          else if negb (value_allowed st) then TErr
          else
            match scan_value s with
            | Some (t, r) => TOk t {| dec_state := value_end st; dec_stack := dec_stack d; dec_rest := r |}
            | None => TErr
            end
      end
  end.
Definition Token (d : decoder) : token_result := token_fuel 3 d.

(** [Decoder.More]. *)
Definition More (d : decoder) : bool :=
  match skip_space (dec_rest d) with
  | c :: _ => negb ((c =? 93) || (c =? 125))
  | [] => false
  end.

(* ------------------------------------------------------------------ *)
(** ** Lemmas: strings *)

Lemma hexval_hexdigit v : 0 <= v < 16 -> hexval (hexdigit v) = Some v.
Proof.
  intros Hv. unfold hexdigit, hexval, isdigit. repeat case_test; breflect; try (f_equal; lia); exfalso; lia.
Qed.

(** The escaped form of a valid rune. *)
Definition escape (r : Z) : bytes := escape_rune (r, length (EncodeRune r)).

Lemma EncodeRune_ascii r : 0 <= r < 128 -> EncodeRune r = [r].
Proof.
  intros Hr. unfold EncodeRune, valid_rune.
  rewrite (proj2 (Z.leb_le 0 r)), (proj2 (Z.ltb_lt r 55296)) by lia. simpl.
  by rewrite (proj2 (Z.ltb_lt r 128)) by lia.
Qed.

(** One escaped control character. *)
Lemma lex_control fuel r t :
  0 <= r < 32 -> lex_string (S fuel) (escape r ++ t) = prepend [r] (lex_string fuel t).
Proof.
  intros Hr. unfold escape, escape_rune. rewrite EncodeRune_ascii by lia. cbn [length].
  assert (bad_rune (r, 1%nat) = false) as ->.
  { unfold bad_rune, runeError. simpl. by rewrite (proj2 (Z.eqb_neq r 65533)) by lia. }
  cbn [fst]. rewrite (proj2 (Z.ltb_lt r 128)), (proj2 (Z.eqb_neq r 34)), (proj2 (Z.eqb_neq r 92)),
    (proj2 (Z.leb_gt 32 r)) by lia. cbn [orb].
  destruct (Z.eqb_spec r 8) as [->|]; [done|]. destruct (Z.eqb_spec r 12) as [->|]; [done|].
  destruct (Z.eqb_spec r 10) as [->|]; [done|]. destruct (Z.eqb_spec r 13) as [->|]; [done|].
  destruct (Z.eqb_spec r 9) as [->|]; [done|].
  change (lit "\u00") with [92; 117; 48; 48]. cbn [app lex_string].
  change (92 =? 34) with false. change (92 =? 92) with true. change (117 =? 117) with true.
  cbv iota. unfold hex4.
  rewrite !hexval_hexdigit by (Z.to_euclidean_division_equations; lia).
  change (hexval 48) with (Some 0). cbv iota.
  replace (((0 * 16 + 0) * 16 + r / 16) * 16 + r mod 16) with r by (Z.to_euclidean_division_equations; lia).
  unfold unicode_escape, is_surrogate. rewrite (proj2 (Z.leb_gt 55296 r)) by lia. cbn [andb drop].
  rewrite EncodeRune_ascii by lia. done.
Qed.

Lemma EncodeRune_first r :
  128 <= r -> valid_rune r = true -> exists b t, EncodeRune r = b :: t /\ 194 <= b.
Proof.
  intros Hr Hv. unfold EncodeRune. rewrite Hv.
  rewrite (proj2 (Z.ltb_ge r 128)) by lia.
  destruct (Z.ltb_spec r 2048); [|destruct (Z.ltb_spec r 65536)]; eexists _, _; (split; [reflexivity|]);
    Z.to_euclidean_division_equations; lia.
Qed.

Lemma lex_raw fuel r t :
  valid_rune r = true -> 32 <= r -> r <> 34 -> r <> 92 ->
  lex_string (S fuel) (EncodeRune r ++ t) = prepend (EncodeRune r) (lex_string fuel t).
Proof.
  intros Hv Hr H34 H92. pose proof (decode_encode_rune r t Hv) as Hd.
  assert (exists b s, EncodeRune r = b :: s /\ 32 <= b /\ b <> 34 /\ b <> 92) as (b & s & E & Hb & Hb1 & Hb2).
  { destruct (Z.lt_ge_cases r 128); [exists r, []; by rewrite EncodeRune_ascii by lia|].
    destruct (EncodeRune_first r) as (b & s & E & Hb); [lia|done|]. exists b, s. split; [done|lia]. }
  rewrite E in Hd |- *. cbn [app lex_string] in *.
  rewrite (proj2 (Z.eqb_neq b 34)), (proj2 (Z.eqb_neq b 92)), (proj2 (Z.ltb_ge b 32)) by lia.
  rewrite Hd, E. change (drop (length (b :: s)) (b :: s ++ t)) with (drop (length (b :: s)) ((b :: s) ++ t)).
  by rewrite drop_app_length.
Qed.

(** The lexer undoes one escaped rune per unit of fuel. *)
Lemma lex_escape fuel r t :
  valid_rune r = true -> lex_string (S fuel) (escape r ++ t) = prepend (EncodeRune r) (lex_string fuel t).
Proof.
  intros Hv. assert (0 <= r) as H0.
  { unfold valid_rune in Hv. apply orb_true_iff in Hv as [H|H]; breflect; lia. }
  destruct (Z.lt_ge_cases r 32); [rewrite EncodeRune_ascii by lia; by apply lex_control|].
  unfold escape, escape_rune. rewrite (encoded_not_bad r Hv). cbn [fst].
  destruct (Z.ltb_spec r 128).
  - rewrite (EncodeRune_ascii r) by lia.
    destruct (Z.eqb_spec r 34) as [->|]; [done|]. destruct (Z.eqb_spec r 92) as [->|]; [done|]. simpl orb.
    rewrite (proj2 (Z.leb_le 32 r)) by lia. rewrite <- (EncodeRune_ascii r) by lia. by apply lex_raw.
  - destruct (Z.eqb_spec r 8232) as [->|]; [done|]. destruct (Z.eqb_spec r 8233) as [->|]; [done|].
    apply lex_raw; [done|lia..].
Qed.

Lemma lex_escapes fuel rs t :
  Forall (fun r => valid_rune r = true) rs -> (length rs < fuel)%nat ->
  lex_string fuel (concat (escape <$> rs) ++ 34 :: t) = Some (concat (EncodeRune <$> rs), t).
Proof.
  intros Hv. revert fuel. induction Hv as [|r rs Hr Hrs IH]; intros fuel Hf.
  - destruct fuel; [simpl in Hf; lia|done].
  - destruct fuel as [|fuel]; [simpl in Hf; lia|]. rewrite !fmap_cons. cbn [concat].
    rewrite <- app_assoc, lex_escape by done. rewrite IH by (simpl in Hf; lia). done.
Qed.

Lemma runes_of_encoded rs :
  Forall (fun r => valid_rune r = true) rs ->
  runes (concat (EncodeRune <$> rs)) = (fun r => (r, length (EncodeRune r))) <$> rs.
Proof.
  induction 1 as [|r rs Hr Hrs IH]; [done|]. rewrite !fmap_cons. cbn [concat].
  rewrite runes_encode by done. by rewrite IH.
Qed.

(** A valid string as the runes it encodes, the form the lemmas below use. *)
Lemma valid_string_runes s :
  Forall is_byte s -> ValidString s = true ->
  exists rs, Forall (fun r => valid_rune r = true) rs /\ s = concat (EncodeRune <$> rs) /\
    quote_body s = concat (escape <$> rs).
Proof.
  intros Hb Hv. destruct (ValidString_runes s Hb Hv) as [H1 H2]. exists (runes s).*1.
  assert (Forall (fun r => valid_rune r = true) (runes s).*1) as H1' by (by apply Forall_fmap).
  assert (s = concat (EncodeRune <$> (runes s).*1)) as H2'.
  { rewrite H2 at 1. rewrite <- list_fmap_compose. done. }
  split; [done|]. split; [done|]. unfold quote_body. rewrite H2' at 1.
  rewrite runes_of_encoded by done. by rewrite <- !list_fmap_compose.
Qed.

Lemma length_escapes rs :
  Forall (fun r => valid_rune r = true) rs -> (length rs <= length (concat (escape <$> rs)))%nat.
Proof.
  induction 1 as [|r rs Hr Hrs IH]; [done|]. rewrite fmap_cons. cbn [concat length]. rewrite length_app.
  assert (0 < length (escape r))%nat; [|lia].
  unfold escape, escape_rune. rewrite encoded_not_bad by done. cbn [fst].
  pose proof (EncodeRune_nonempty r). repeat case_test; simpl; try lia.
  destruct (EncodeRune r); simpl; [done|lia].
Qed.

(** What the encoder wrote, the lexer reads back. *)
Lemma lex_quote s t fuel :
  Forall is_byte s -> ValidString s = true -> (length (quote_body s) < fuel)%nat ->
  lex_string fuel (quote_body s ++ 34 :: t) = Some (s, t).
Proof.
  intros Hb Hv Hf. destruct (valid_string_runes s Hb Hv) as (rs & Hr & -> & E).
  rewrite E in *. pose proof (length_escapes rs Hr). by apply lex_escapes; [|lia].
Qed.
