(* ===== verification/Canonical.v ===== *)
(** * Canonical JSON and the bounded decoder ([contract/canonical.go])
    [writeCanonical] prints a value with its object keys in order; [DecodeJSON] reads
    one back through the token reader of [JsonText] while it counts values, bounds the
    nesting and refuses duplicate keys. The decoder's recursion runs on fuel twice the
    length of the text; [None] is exhausted fuel, and [decode_total] shows that it
    never happens. *)
From Stdlib Require Import ZArith Lia SpecFloat.
From stdpp Require Import base list option sorting strings.
From S2P Require Import Prelude Utf8 Strconv GoFloat Json JsonText.
Local Open Scope Z_scope.

(* ------------------------------------------------------------------ *)
(** ** Writing *)

(** [strings.ContainsAny(text, ".eE")]. *)
Definition has_fraction (text : bytes) : bool := existsb (fun c => (c =? 46) || (c =? 101) || (c =? 69)) text.

Definition write_float (f : spec_float) : result bytes :=
  match f with
  | S754_nan | S754_infinity _ => Err "number must be finite"
  | S754_zero _ => Ok (FormatFloat (S754_zero false))
  | _ => Ok (FormatFloat f)
  end.

Definition write_number (text : bytes) : result bytes :=
  match ParseInt text with
  | Some i => Ok (FormatInt i)
  | None =>
      if negb (has_fraction text) then Err "integer exceeds int64" else
      match ParseFloat text with
      | None => Err "invalid number"
      | Some f => write_float f
      end
  end.

Definition write_string (s : bytes) : result bytes :=
  if negb (ValidString s) then Err "invalid UTF-8 string" else Ok (quote s).

(** The bodies of the two loops: elements and members with their separators. *)
Fixpoint join_items (first : bool) (l : list (result bytes)) : result bytes :=
  match l with
  | [] => Ok []
  | x :: l =>
      let* a := x in
      let* b := join_items false l in
      Ok ((if first then [] else [44]) ++ a ++ b)
  end.
Fixpoint join_members (first : bool) (m : list (bytes * result bytes)) : result bytes :=
  match m with
  | [] => Ok []
  | (k, x) :: m =>
      let* kt := write_string k in
      let* a := x in
      let* b := join_members false m in
      Ok ((if first then [] else [44]) ++ kt ++ 58 :: a ++ b)
  end.

Fixpoint writeCanonical (v : json) : result bytes :=
  match v with
  | JNull => Ok (lit "null")
  | JBool b => Ok (if b then lit "true" else lit "false")
  | JStr s => write_string s
  | JInt n => Ok (FormatInt n)
  | JNumber text => write_number text
  | JFloat f => write_float f
  | JArr l =>
      let* body := join_items true (map writeCanonical l) in
      Ok (91 :: body ++ [93])
  | JObj m =>
      let* body := join_members true (map (fun kv => (kv.1, writeCanonical kv.2)) m) in
      Ok (123 :: body ++ [125])
  end.

Definition CanonicalJSON (v : json) : result bytes := writeCanonical v.

(* ------------------------------------------------------------------ *)
(** ** Reading *)

Record Limits := {
  MaxBytes : Z; MaxDepth : Z; MaxItems : Z;
  MaxFileBytes : Z; MaxTotalFileBytes : Z; MaxFiles : Z
}.

(** [validateJSONUnicode]: [i] runs over the text, [inq] is whether it is inside a
    string; the remaining text stands for the index. *)
Fixpoint validate_unicode (fuel : nat) (inq : bool) (s : bytes) : result unit :=
  match fuel with
  | O => Ok tt
  | S fuel =>
      match s with
      | [] => Ok tt
      | c :: s' =>
          if c =? 34 then validate_unicode fuel (negb inq) s'
          else if negb inq || negb (c =? 92) then validate_unicode fuel inq s'
          else match s' with
          | [] => Err "invalid JSON escape"
          | e :: s'' =>
              if negb (e =? 117) then validate_unicode fuel inq s''
              else if (length s'' <? 4)%nat then Err "invalid Unicode escape"
              else match ParseUint16 (take 4 s'') with
              | None => Err "invalid Unicode escape"
              | Some n =>
                  let r := drop 4 s'' in
                  if (56320 <=? n) && (n <=? 57343) then Err "unpaired Unicode surrogate"
                  else if (55296 <=? n) && (n <=? 56319) then
                    if (length r <? 6)%nat || negb (byte_at r 0 =? 92) || negb (byte_at r 1 =? 117)
                    then Err "unpaired Unicode surrogate"
                    else match ParseUint16 (slice r 2 6) with
                    | Some low =>
                        if (low <? 56320) || (57343 <? low) then Err "unpaired Unicode surrogate"
                        else validate_unicode fuel inq (drop 6 r)
                    | None => Err "unpaired Unicode surrogate"
                    end
                  else validate_unicode fuel inq r
              end
          end
      end
  end.
Definition validateJSONUnicode (data : bytes) : result unit := validate_unicode (length data) false data.

(** A scalar token as a value. *)
Definition decode_number (text : bytes) : result json :=
  if negb (has_fraction text) then
    match ParseInt text with
    | None => Err "JSON integer exceeds int64"
    | Some i => Ok (JInt i)
    end
  else match ParseFloat text with
       | None => Err "JSON number must be finite"
       | Some _ => Ok (JNumber text)
       end.

(** [decodeJSONValue] with its two loops; the count is threaded through. *)
Fixpoint decodeJSONValue (fuel : nat) (d : decoder) (l : Limits) (depth count : Z)
    : option (result (json * decoder * Z)) :=
  match fuel with
  | O => None
  | S fuel =>
      let count := count + 1 in
      if (MaxDepth l <? depth) || (MaxItems l <? count) then Some (Err "JSON structural limit exceeded") else
      match Token d with
      | TEOF | TErr => Some (Err "invalid JSON")
      | TOk (TDelim c) d =>
          if c =? 123 then decode_members fuel d l depth count []
          else if c =? 91 then decode_items fuel d l depth count []
          else Some (Err "invalid JSON delimiter")
      | TOk (TNum text) d =>
          Some (let* v := decode_number text in Ok (v, d, count))
      | TOk TNull d => Some (Ok (JNull, d, count))
      | TOk (TBool b) d => Some (Ok (JBool b, d, count))
      | TOk (TStr s) d => Some (Ok (JStr s, d, count))
      end
  end
with decode_members (fuel : nat) (d : decoder) (l : Limits) (depth count : Z) (m : list (bytes * json))
    : option (result (json * decoder * Z)) :=
  match fuel with
  | O => None
  | S fuel =>
      if More d then
        match Token d with
        | TEOF | TErr => Some (Err "invalid JSON object")
        | TOk (TStr key) d =>
            if obj_has key m then Some (Err "duplicate JSON key") else
            let count := count + 1 in
            if MaxItems l <? count then Some (Err "JSON item limit exceeded") else
            match decodeJSONValue fuel d l (depth + 1) count with
            | None => None
            | Some (Err e) => Some (Err e)
            | Some (Ok (v, d, count)) => decode_members fuel d l depth count (obj_insert key v m)
            end
        | TOk _ _ => Some (Err "invalid JSON key")
        end
      else
        match Token d with
        | TOk (TDelim c) d => if c =? 125 then Some (Ok (JObj m, d, count)) else Some (Err "invalid JSON object")
        | _ => Some (Err "invalid JSON object")
        end
  end
with decode_items (fuel : nat) (d : decoder) (l : Limits) (depth count : Z) (a : list json)
    : option (result (json * decoder * Z)) :=
  match fuel with
  | O => None
  | S fuel =>
      if More d then
        match decodeJSONValue fuel d l (depth + 1) count with
        | None => None
        | Some (Err e) => Some (Err e)
        | Some (Ok (v, d, count)) => decode_items fuel d l depth count (a ++ [v])
        end
      else
        match Token d with
        | TOk (TDelim c) d => if c =? 93 then Some (Ok (JArr a, d, count)) else Some (Err "invalid JSON array")
        | _ => Some (Err "invalid JSON array")
        end
  end.

Definition decode_fuel (data : bytes) : nat := 2 * length data + 3.

Definition DecodeJSON (data : bytes) (limits : Limits) : option (result json) :=
  if (MaxBytes limits <=? 0) || (MaxDepth limits <=? 0) || (MaxItems limits <=? 0)
  then Some (Err "JSON limits must be positive") else
  if MaxBytes limits <? Z.of_nat (length data) then Some (Err "JSON byte limit exceeded") else
  if negb (ValidString data) then Some (Err "JSON must be valid UTF-8") else
  match validateJSONUnicode data with
  | Err e => Some (Err e)
  | Ok _ =>
      match decodeJSONValue (decode_fuel data) (NewDecoder data) limits 1 0 with
      | None => None
      | Some (Err e) => Some (Err e)
      | Some (Ok (v, d, _)) =>
          match Token d with
          | TEOF => Some (Ok v)
          | _ => Some (Err "JSON must contain one value")
          end
      end
  end.

(** The envelope's allowance over the logical limits, saturating at [maxBytes]. *)
Definition wire_add (maxBytes value extra : Z) : Z :=
  if (value <? 0) || (maxBytes <=? value) || (maxBytes - value <=? extra) then maxBytes else value + extra.

Definition wire_limits (maxBytes : Z) (l : Limits) : Limits :=
  let fileValues := if (0 <=? MaxFiles l) && (MaxFiles l <? maxBytes / 8) then MaxFiles l * 8 else maxBytes in
  {| MaxBytes := maxBytes; MaxDepth := wire_add maxBytes (MaxDepth l) 8;
     MaxItems := wire_add maxBytes (wire_add maxBytes (MaxItems l) fileValues) 128;
     MaxFileBytes := 0; MaxTotalFileBytes := 0; MaxFiles := 0 |}.

Definition default_wire_limits : Limits :=
  {| MaxBytes := 0; MaxDepth := 32; MaxItems := 100000; MaxFileBytes := 0; MaxTotalFileBytes := 0; MaxFiles := 16 |}.

Definition DecodeWireJSON (data : bytes) (maxBytes : Z) (logical : option Limits) : option (result json) :=
  DecodeJSON data (wire_limits maxBytes (default default_wire_limits logical)).

(* ------------------------------------------------------------------ *)
(** ** Measures of a value *)

(** What the decoder counts, and the nesting it bounds. *)
Fixpoint items (v : json) : Z :=
  match v with
  | JArr l => 1 + foldr (fun x acc => items x + acc) 0 l
  | JObj m => 1 + foldr (fun kv acc => 1 + items kv.2 + acc) 0 m
  | _ => 1
  end.
Fixpoint nesting (v : json) : Z :=
  match v with
  | JArr l => 1 + foldr (fun x acc => Z.max (nesting x) acc) 0 l
  | JObj m => 1 + foldr (fun kv acc => Z.max (nesting kv.2) acc) 0 m
  | _ => 1
  end.

(* ------------------------------------------------------------------ *)
(** ** Lemmas: the token reader makes progress *)

Lemma take_digits_app s : let '(d, r) := take_digits s in s = d ++ r.
Proof.
  induction s as [|c s IH]; [done|]. cbn [take_digits]. destruct (isdigit c); [|done].
  destruct (take_digits s) as [d r]. by rewrite IH.
Qed.

Lemma unicode_escape_rest r s : (length (unicode_escape r s).2 <= length s)%nat.
Proof.
  unfold unicode_escape. repeat case_match; simpl; try rewrite length_drop; lia.
Qed.

Lemma lex_string_rest fuel s t r : lex_string fuel s = Some (t, r) -> (length r < length s)%nat.
Proof.
  revert s t r. induction fuel as [|fuel IH]; intros s t r; [done|]. destruct s as [|c s]; [done|].
  cbn [lex_string]. destruct (c =? 34); [intros [= _ ->]; simpl; lia|].
  destruct (c =? 92).
  - destruct s as [|e s]; [done|]. destruct (e =? 117).
    + destruct (hex4 s) as [u|]; [|done]. pose proof (unicode_escape_rest u (drop 4 s)) as Hu.
      destruct (unicode_escape u (drop 4 s)) as [out rest]. simpl in Hu.
      destruct (lex_string fuel rest) as [[t' r']|] eqn:E; [|done]. intros [= _ <-].
      apply IH in E. rewrite length_drop in Hu. simpl. lia.
    + destruct (simple_escape e); [|done].
      destruct (lex_string fuel s) as [[t' r']|] eqn:E; [|done]. intros [= _ <-].
      apply IH in E. simpl. lia.
  - destruct (c <? 32); [done|]. pose proof (DecodeRune_width (c :: s) ltac:(done)) as Hw.
    destruct (DecodeRune (c :: s)) as [u w]. simpl in Hw.
    destruct (lex_string fuel (drop w (c :: s))) as [[t' r']|] eqn:E; [|done]. intros [= _ <-].
    apply IH in E. rewrite length_drop in E. simpl in *. lia.
Qed.

Lemma lex_fraction_rest s t r : lex_fraction s = Some (t, r) -> (length r <= length s)%nat.
Proof.
  unfold lex_fraction. destruct s as [|d s]; [intros [= _ <-]; done|].
  destruct (d =? 46); [|intros [= _ <-]; done]. pose proof (take_digits_app s) as H.
  destruct (take_digits s) as [[|] r']; [done|]. intros [= _ <-]. rewrite H. rewrite length_cons, length_app. lia.
Qed.

Lemma lex_exponent_rest s t r : lex_exponent s = Some (t, r) -> (length r <= length s)%nat.
Proof.
  unfold lex_exponent. destruct s as [|e s]; [intros [= _ <-]; done|].
  destruct (_ || _); [|intros [= _ <-]; done].
  destruct s as [|c s]; [done|].
  destruct (_ || _).
  - pose proof (take_digits_app s) as H. destruct (take_digits s) as [[|] r']; [done|].
    intros [= _ <-]. rewrite H. rewrite !length_cons, length_app. lia.
  - pose proof (take_digits_app (c :: s)) as H. destruct (take_digits (c :: s)) as [[|] r']; [done|].
    intros [= _ <-]. rewrite H. rewrite !length_cons, length_app. lia.
Qed.

Lemma lex_unsigned_rest s t r : lex_unsigned s = Some (t, r) -> (length r < length s)%nat.
Proof.
  unfold lex_unsigned. destruct s as [|c s]; [done|]. destruct (isdigit c) eqn:Ed; simpl negb; [|done].
  cbv iota.
  assert (exists whole rest, (if c =? 48 then ([c], s) else take_digits (c :: s)) = (whole, rest) /\
    (length rest <= length s)%nat) as (whole & rest & -> & Hl).
  { destruct (c =? 48); [by exists [c], s|]. cbn [take_digits]. rewrite Ed.
    pose proof (take_digits_app s) as H. destruct (take_digits s) as [d r']. exists (c :: d), r'.
    split; [done|]. rewrite H, length_app. lia. }
  destruct (lex_fraction rest) as [[frac r1]|] eqn:E1; [|done]. apply lex_fraction_rest in E1.
  destruct (lex_exponent r1) as [[ex r2]|] eqn:E2; [|done]. apply lex_exponent_rest in E2.
  intros [= _ <-]. simpl. lia.
Qed.

Lemma lex_number_rest s t r : lex_number s = Some (t, r) -> (length r < length s)%nat.
Proof.
  unfold lex_number. destruct s as [|c s]; [done|]. destruct (c =? 45).
  - destruct (lex_unsigned s) as [[t' r']|] eqn:E; [|done]. intros [= _ <-].
    apply lex_unsigned_rest in E. simpl. lia.
  - apply lex_unsigned_rest.
Qed.

Lemma scan_value_rest s t r : scan_value s = Some (t, r) -> (length r < length s)%nat.
Proof.
  unfold scan_value. destruct s as [|c s]; [done|].
  destruct (c =? 34).
  { destruct (lex_string _ s) as [[t' r']|] eqn:E; [|done]. intros [= _ <-].
    apply lex_string_rest in E. simpl. lia. }
  repeat (destruct (bytes_eqb _ _); [intros [= _ <-]; rewrite length_drop; simpl; lia|]).
  destruct (lex_number (c :: s)) as [[t' r']|] eqn:E; [|done]. intros [= _ <-].
  by apply lex_number_rest in E.
Qed.

Lemma skip_space_rest s : (length (skip_space s) <= length s)%nat.
Proof. induction s as [|c s IH]; [done|]. cbn [skip_space]. destruct (isSpace c); simpl; lia. Qed.

Lemma token_fuel_rest fuel d t d' :
  token_fuel fuel d = TOk t d' -> (length (dec_rest d') < length (dec_rest d))%nat.
Proof.
  revert d. induction fuel as [|fuel IH]; intros d; [done|]. cbn [token_fuel].
  pose proof (skip_space_rest (dec_rest d)) as Hs.
  destruct (skip_space (dec_rest d)) as [|c r]; [done|]. simpl in Hs.
  destruct (_ || _); [destruct (negb _); [done|]; intros [= _ <-]; simpl; lia|].
  destruct (_ || _).
  { match goal with |- (if ?b then _ else _) = _ -> _ => destruct b end; [|done].
    destruct (dec_stack d); [done|].
    intros [= _ <-]; simpl; lia. }
  destruct (c =? 58).
  { destruct (dec_state d); try done. intros H. apply IH in H. simpl in H. lia. }
  destruct (c =? 44).
  { destruct (dec_state d); try done; intros H; apply IH in H; simpl in H; lia. }
  destruct (_ && _).
  { destruct (scan_value (c :: r)) as [[t' r']|] eqn:E; [|done]. intros [= _ <-].
    apply scan_value_rest in E. simpl in *. lia. }
  destruct (negb _); [done|].
  destruct (scan_value (c :: r)) as [[t' r']|] eqn:E; [|done]. intros [= _ <-].
  apply scan_value_rest in E. simpl in *. lia.
Qed.

(* ------------------------------------------------------------------ *)
(** ** Lemmas: the decoder is total *)

Definition shorter (strict : bool) (d : decoder) (r : option (result (json * decoder * Z))) : Prop :=
  exists x, r = Some x /\
    forall v d' c, x = Ok (v, d', c) ->
      ((if strict then S (length (dec_rest d')) else length (dec_rest d')) <= length (dec_rest d))%nat.

Lemma decode_shorter fuel :
  (forall d l depth count, (2 * length (dec_rest d) < fuel)%nat ->
     shorter true d (decodeJSONValue fuel d l depth count)) /\
  (forall d l depth count m, (2 * length (dec_rest d) + 1 < fuel)%nat ->
     shorter false d (decode_members fuel d l depth count m)) /\
  (forall d l depth count a, (2 * length (dec_rest d) + 1 < fuel)%nat ->
     shorter false d (decode_items fuel d l depth count a)).
Proof.
  induction fuel as [|fuel (IHv & IHm & IHa)]; [repeat split; intros; lia|]. split; [|split].
  - intros d l depth count Hf. cbn [decodeJSONValue]. cbv zeta.
    destruct (_ || _); [by eexists|]. destruct (Token d) as [| |t d1] eqn:E; [by eexists..|].
    apply token_fuel_rest in E. destruct t as [c| | |s|text].
    + destruct (c =? 123); [|destruct (c =? 91); [|by eexists]].
      * destruct (IHm d1 l depth (count + 1) []) as (x & -> & Hx); [lia|].
        exists x. split; [done|]. intros v d' k Hk. specialize (Hx v d' k Hk). simpl in *. lia.
      * destruct (IHa d1 l depth (count + 1) []) as (x & -> & Hx); [lia|].
        exists x. split; [done|]. intros v d' k Hk. specialize (Hx v d' k Hk). simpl in *. lia.
    + eexists. split; [done|]. intros v d' k [= <- <- <-]. lia.
    + eexists. split; [done|]. intros v d' k [= <- <- <-]. lia.
    + eexists. split; [done|]. intros v d' k [= <- <- <-]. lia.
    + eexists. split; [done|]. intros v d' k. destruct (decode_number text); simpl; [|done].
      intros [= <- <- <-]. lia.
  - intros d l depth count m Hf. cbn [decode_members]. destruct (More d).
    + destruct (Token d) as [| |t d1] eqn:E; [by eexists..|]. apply token_fuel_rest in E.
      destruct t as [c| | |s|text]; try by eexists.
      destruct (obj_has s m); [by eexists|]. cbv zeta. destruct (_ <? _); [by eexists|].
      destruct (IHv d1 l (depth + 1) (count + 1)) as (x & -> & Hx); [lia|].
      destruct x as [[[v d2] c2]|]; [|by eexists]. specialize (Hx v d2 c2 eq_refl).
      destruct (IHm d2 l depth c2 (obj_insert s v m)) as (y & -> & Hy); [simpl in *; lia|].
      exists y. split; [done|]. intros v' d' k Hk. specialize (Hy v' d' k Hk). simpl in *. lia.
    + destruct (Token d) as [| |t d1] eqn:E; [by eexists..|]. apply token_fuel_rest in E.
      destruct t; try by eexists. destruct (_ =? _); [|by eexists]. eexists. split; [done|].
      intros v d' k [= <- <- <-]. lia.
  - intros d l depth count a Hf. cbn [decode_items]. destruct (More d).
    + destruct (IHv d l (depth + 1) count) as (x & -> & Hx); [lia|].
      destruct x as [[[v d2] c2]|]; [|by eexists]. specialize (Hx v d2 c2 eq_refl).
      destruct (IHa d2 l depth c2 (a ++ [v])) as (y & -> & Hy); [simpl in *; lia|].
      exists y. split; [done|]. intros v' d' k Hk. specialize (Hy v' d' k Hk). simpl in *. lia.
    + destruct (Token d) as [| |t d1] eqn:E; [by eexists..|]. apply token_fuel_rest in E.
      destruct t; try by eexists. destruct (_ =? _); [|by eexists]. eexists. split; [done|].
      intros v d' k [= <- <- <-]. lia.
Qed.

Lemma decode_value_total data l : exists x, decodeJSONValue (decode_fuel data) (NewDecoder data) l 1 0 = Some x.
Proof.
  destruct (proj1 (decode_shorter (decode_fuel data)) (NewDecoder data) l 1 0) as (x & -> & _);
    [unfold decode_fuel; simpl; lia|by eexists].
Qed.

(** The sums and maxima the two loops accumulate. *)
Definition items_list (l : list json) : Z := foldr (fun x acc => items x + acc) 0 l.
Definition nesting_list (l : list json) : Z := foldr (fun x acc => Z.max (nesting x) acc) 0 l.
Definition items_members (m : list (bytes * json)) : Z := foldr (fun kv acc => 1 + items kv.2 + acc) 0 m.
Definition nesting_members (m : list (bytes * json)) : Z := foldr (fun kv acc => Z.max (nesting kv.2) acc) 0 m.

Lemma nesting_pos v : 1 <= nesting v.
Proof.
  destruct v as [| | | | | |l|m]; simpl; try lia.
  - induction l; simpl; lia.
  - induction m; simpl; lia.
Qed.

Lemma items_pos v : 1 <= items v.
Proof.
  induction v as [| | | | | |l IH|m IH] using json_ind; simpl; try lia.
  - induction IH as [|x l Hx Hl IH]; simpl; lia.
  - induction IH as [|x m Hx Hm IH]; simpl; lia.
Qed.

(* ------------------------------------------------------------------ *)
(** ** Lemmas: what is accepted is within the limits *)

Lemma items_members_insert k v m :
  obj_has k m = false -> items_members (obj_insert k v m) = 1 + items v + items_members m.
Proof.
  unfold obj_has, items_members. induction m as [|[k' v'] m IH]; [done|]. cbn [obj_lookup obj_insert].
  destruct (bytes_eqb k k'); [done|]. intros H. destruct (bytes_ltb k k'); [done|].
  cbn [foldr]. rewrite IH by done. cbn [snd]. lia.
Qed.

Lemma nesting_members_insert k v m :
  nesting_members (obj_insert k v m) <= Z.max (nesting v) (nesting_members m).
Proof.
  unfold nesting_members. induction m as [|[k' v'] m IH]; [simpl; lia|]. cbn [obj_insert].
  destruct (bytes_eqb k k'); [simpl; lia|]. destruct (bytes_ltb k k'); [simpl; lia|]. cbn [foldr snd]. simpl in *. lia.
Qed.

Lemma nesting_members_insert_fresh k v m :
  obj_has k m = false ->
  nesting_members (obj_insert k v m) = Z.max (nesting v) (nesting_members m).
Proof.
  unfold obj_has, nesting_members. induction m as [|[k' v'] m IH]; [done|]. cbn [obj_lookup obj_insert].
  destruct (bytes_eqb k k'); [done|]. intros H. destruct (bytes_ltb k k'); [done|].
  cbn [foldr]. rewrite IH by done. cbn [snd]. lia.
Qed.

Lemma obj_insert_Forall (P : bytes * json -> Prop) k v m :
  P (k, v) -> Forall P m -> Forall P (obj_insert k v m).
Proof.
  intros Hk. induction 1 as [|[k' v'] m Hx Hm IH]; [by repeat constructor|]. cbn [obj_insert].
  destruct (bytes_eqb k k'); [by constructor|]. destruct (bytes_ltb k k'); by repeat constructor.
Qed.

Lemma nesting_list_app l1 l2 : nesting_list (l1 ++ l2) = Z.max (nesting_list l1) (nesting_list l2).
Proof.
  assert (forall l, 0 <= nesting_list l) as H0 by (intros l; induction l as [|y l IHl]; unfold nesting_list in *; simpl; lia).
  pose proof (H0 l2). induction l1 as [|x l1 IH]; [unfold nesting_list in *; simpl in *; lia|].
  unfold nesting_list in *. cbn [app foldr]. rewrite IH. lia.
Qed.

Lemma items_list_app l1 l2 : items_list (l1 ++ l2) = items_list l1 + items_list l2.
Proof. unfold items_list. induction l1 as [|x l1 IH]; simpl; [lia|]. rewrite IH. lia. Qed.

(** What holds of an accepted value, and of the object or array being read. *)
Record accepted (l : Limits) (depth count : Z) (v : json) (count' : Z) : Prop := {
  accepted_wf : wf_json v;
  accepted_count : count' = count + items v;
  accepted_items : count' <= MaxItems l;
  accepted_depth : depth + nesting v - 1 <= MaxDepth l
}.

Lemma decode_number_scalar text v : decode_number text = Ok v -> wf_json v /\ items v = 1 /\ nesting v = 1.
Proof.
  unfold decode_number. destruct (negb _); [destruct (ParseInt text)|destruct (ParseFloat text)]; try done;
    intros [= <-]; (split; [constructor|done]).
Qed.

Lemma decode_accepted fuel :
  (forall d l depth count v d' c', decodeJSONValue fuel d l depth count = Some (Ok (v, d', c')) ->
     accepted l depth count v c') /\
  (forall d l depth count m v d' c',
     obj_sorted m -> Forall (fun kv => wf_json kv.2) m ->
     depth + nesting_members m <= MaxDepth l -> count <= MaxItems l ->
     decode_members fuel d l depth count m = Some (Ok (v, d', c')) ->
     accepted l depth (count - items_members m - 1) v c') /\
  (forall d l depth count a v d' c',
     Forall wf_json a -> depth + nesting_list a <= MaxDepth l -> count <= MaxItems l ->
     decode_items fuel d l depth count a = Some (Ok (v, d', c')) ->
     accepted l depth (count - items_list a - 1) v c').
Proof.
  induction fuel as [|fuel (IHv & IHm & IHa)]; [repeat split; intros; done|]. split; [|split].
  - intros d l depth count v d' c'. cbn [decodeJSONValue]. cbv zeta.
    destruct (_ || _) eqn:El; [done|]. apply orb_false_iff in El as [El1 El2]. breflect.
    destruct (Token d) as [| |t d1]; [done..|]. destruct t as [c| |b|s|text].
    + destruct (c =? 123); [|destruct (c =? 91); [|done]]; intros H.
      * apply IHm in H; [|apply SSorted_nil|done|unfold nesting_members; simpl; lia|done].
        unfold items_members in H. simpl in H. by replace (count + 1 - 0 - 1) with count in H by lia.
      * apply IHa in H; [|done|unfold nesting_list; simpl; lia|done].
        unfold items_list in H. simpl in H. by replace (count + 1 - 0 - 1) with count in H by lia.
    + intros [= <- <- <-]. split; [constructor|simpl; lia..].
    + intros [= <- <- <-]. split; [constructor|simpl; lia..].
    + intros [= <- <- <-]. split; [constructor|simpl; lia..].
    + destruct (decode_number text) as [w|] eqn:E; [|done]. intros [= <- <- <-].
      apply decode_number_scalar in E as (Hw & Hi & Hn). split; [done|lia..].
  - intros d l depth count m v d' c' Hs Hw Hd Hc. cbn [decode_members]. destruct (More d).
    + destruct (Token d) as [| |t d1]; [done..|]. destruct t as [c| |b|s|text]; try done.
      destruct (obj_has s m) eqn:Eh; [done|]. cbv zeta. destruct (_ <? _) eqn:El; [done|].
      destruct (decodeJSONValue fuel d1 l (depth + 1) (count + 1)) as [[[[w d2] c2]|]|] eqn:E; [|done..].
      apply IHv in E as [Hww Hcw Hiw Hdw]. intros H.
      apply IHm in H; [|by apply obj_insert_sorted|by apply obj_insert_Forall| |done].
      * rewrite items_members_insert in H by done. by replace (c2 - (1 + items w + items_members m) - 1)
          with (count - items_members m - 1) in H by lia.
      * pose proof (nesting_members_insert s w m). lia.
    + destruct (Token d) as [| |t d1]; [done..|]. destruct t as [c| |b|s|text]; try done.
      destruct (_ =? _); [|done]. intros [= <- <- <-].
      split; [by constructor|..]; change (items (JObj m)) with (1 + items_members m);
        change (nesting (JObj m)) with (1 + nesting_members m); lia.
  - intros d l depth count a v d' c' Hw Hd Hc. cbn [decode_items]. destruct (More d).
    + destruct (decodeJSONValue fuel d l (depth + 1) count) as [[[[w d2] c2]|]|] eqn:E; [|done..].
      apply IHv in E as [Hww Hcw Hiw Hdw]. intros H.
      apply IHa in H; [|apply Forall_app; by repeat constructor| |done].
      * rewrite items_list_app in H. unfold items_list in H at 2. simpl in H.
        by replace (c2 - (items_list a + (items w + 0)) - 1) with (count - items_list a - 1) in H by lia.
      * rewrite nesting_list_app. unfold nesting_list at 2. simpl. pose proof (nesting_pos w). lia.
    + destruct (Token d) as [| |t d1]; [done..|]. destruct t as [c| |b|s|text]; try done.
      destruct (_ =? _); [|done]. intros [= <- <- <-].
      split; [by constructor|..]; change (items (JArr a)) with (1 + items_list a);
        change (nesting (JArr a)) with (1 + nesting_list a); lia.
Qed.

(* ------------------------------------------------------------------ *)
(** ** Properties *)

(** the decoder answers on every input, and what it accepts is within the limits:
    the text in bytes, the value in nesting and in the number of values and keys,
    with no duplicate key in any object. *)
Theorem decode_bounded data limits :
  exists r, DecodeJSON data limits = Some r /\
    forall v, r = Ok v ->
      Z.of_nat (length data) <= MaxBytes limits /\ nesting v <= MaxDepth limits /\
      items v <= MaxItems limits /\ wf_json v.
Proof.
  unfold DecodeJSON. destruct (_ || _); [by eexists|]. destruct (_ <? _) eqn:El; [by eexists|]. breflect.
  destruct (negb _); [by eexists|]. destruct (validateJSONUnicode data); [|by eexists].
  destruct (decode_value_total data limits) as (x & Ex). rewrite Ex. destruct x as [[[v d] c]|]; [|by eexists].
  destruct (Token d); [|by eexists..]. eexists. split; [done|]. intros w [= <-].
  apply decode_accepted in Ex as [Hw Hc Hi Hd]. repeat split; try done; lia.
Qed.
