(* ===== verification/JsonReads.v ===== *)
(** * Decoding what was encoded
    The text the JSON encoder and the canonical writer produce is read back by the
    bounded decoder of [Canonical] as the value it was written from. [reads v s] is
    what a text needs for that: it opens like a value, keeps the surrogate scan in
    step, is valid UTF-8 and decodes to [v] wherever a value may stand. *)
From Stdlib Require Import ZArith Lia SpecFloat.
From stdpp Require Import base list option sorting strings.
From S2P Require Import Prelude Utf8 Strconv GoFloat Json JsonText Canonical.
Local Open Scope Z_scope.

(* ------------------------------------------------------------------ *)
(** ** The values of the round trip *)

(** Values whose canonical text decodes to themselves: no floating-point numbers and no
    [json.Number], valid strings, [int64] integers, objects listed in key order (the order
    in which the model represents a Go map). *)
Unset Elimination Schemes.
Inductive plain : json -> Prop :=
| plain_null : plain JNull
| plain_bool b : plain (JBool b)
| plain_str s : Forall is_byte s -> ValidString s = true -> plain (JStr s)
| plain_int n : in_int64 n -> plain (JInt n)
| plain_arr l : Forall plain l -> plain (JArr l)
| plain_obj m :
    obj_sorted m -> Forall (fun k => Forall is_byte k /\ ValidString k = true) m.*1 ->
    Forall (fun kv => plain kv.2) m -> plain (JObj m).
Set Elimination Schemes.

(** Values the encoder writes and the decoder reads back: the decoder's numbers are
    [int64] or text with a fraction or exponent; keys are distinct, in any order. *)
Unset Elimination Schemes.
Inductive encodable : json -> Prop :=
| enc_null : encodable JNull
| enc_bool b : encodable (JBool b)
| enc_str s : Forall is_byte s -> ValidString s = true -> encodable (JStr s)
| enc_int n : in_int64 n -> encodable (JInt n)
| enc_number t : lex_number t = Some (t, []) -> has_fraction t = true -> is_Some (ParseFloat t) -> encodable (JNumber t)
| enc_arr l : Forall encodable l -> encodable (JArr l)
| enc_obj m :
    NoDup m.*1 -> Forall (fun k => Forall is_byte k /\ ValidString k = true) m.*1 ->
    Forall (fun kv => encodable kv.2) m -> encodable (JObj m).
Set Elimination Schemes.

(** The value as a map holds it: members in key order. *)
Fixpoint normal (v : json) : json :=
  match v with
  | JArr l => JArr (map normal l)
  | JObj m => JObj (obj_of_list (map (fun kv => (kv.1, normal kv.2)) m))
  | v => v
  end.

(* ------------------------------------------------------------------ *)
(** ** Lemmas: the text is valid UTF-8 with paired surrogates *)

Definition utf8_text (s : bytes) : Prop :=
  exists rs, Forall (fun r => valid_rune r = true) rs /\ s = concat (EncodeRune <$> rs).

Lemma utf8_text_app a b : utf8_text a -> utf8_text b -> utf8_text (a ++ b).
Proof.
  intros (ra & Ha & ->) (rb & Hb & ->). exists (ra ++ rb).
  split; [by apply Forall_app|]. by rewrite fmap_app, concat_app.
Qed.

Lemma ascii_rune r : 0 <= r < 128 -> valid_rune r = true.
Proof.
  intros Hr. unfold valid_rune. rewrite (proj2 (Z.leb_le 0 r)), (proj2 (Z.ltb_lt r 55296)) by lia. done.
Qed.

Lemma utf8_text_ascii s : Forall (fun c => 0 <= c < 128) s -> utf8_text s.
Proof.
  intros Hs. exists s. split; [eapply Forall_impl; [exact Hs|]; intros; by apply ascii_rune|].
  induction Hs as [|c s Hc Hs IH]; [done|]. rewrite fmap_cons. cbn [concat].
  rewrite EncodeRune_ascii by done. simpl. by rewrite <- IH.
Qed.

Lemma utf8_text_rune r : valid_rune r = true -> utf8_text (EncodeRune r).
Proof. intros Hr. exists [r]. split; [by constructor|]. simpl. by rewrite app_nil_r. Qed.

Ltac ascii := repeat (apply Forall_cons_2; [lia|]); apply Forall_nil_2.

Lemma ascii_text s : forallb (fun c => (0 <=? c) && (c <? 128)) s = true -> Forall (fun c => 0 <= c < 128) s.
Proof.
  rewrite forallb_forall. intros H. apply Forall_forall. intros c Hc.
  apply list_elem_of_In in Hc. specialize (H c Hc). breflect. lia.
Qed.

Lemma utf8_escape r : valid_rune r = true -> utf8_text (escape r).
Proof.
  intros Hv. unfold escape, escape_rune. rewrite encoded_not_bad by done. cbn [fst].
  assert (0 <= r) by (unfold valid_rune in Hv; apply orb_true_iff in Hv as [H|H]; breflect; lia).
  destruct (Z.ltb_spec r 128).
  - assert (forall v, 0 <= v < 16 -> 0 <= hexdigit v < 128) as Hh by (intros v Hv'; unfold hexdigit; case_test; lia).
    apply utf8_text_ascii. destruct (_ || _); [ascii|]. destruct (Z.leb_spec 32 r); [ascii|].
    repeat (destruct (r =? _); [by apply ascii_text|]). apply Forall_app. split; [by apply ascii_text|].
    repeat (apply Forall_cons_2; [apply Hh; Z.to_euclidean_division_equations; lia|]). apply Forall_nil_2.
  - destruct (r =? 8232); [by apply utf8_text_ascii, ascii_text|].
    destruct (r =? 8233); [by apply utf8_text_ascii, ascii_text|]. by apply utf8_text_rune.
Qed.

Lemma utf8_quote s : Forall is_byte s -> ValidString s = true -> utf8_text (quote s).
Proof.
  intros Hb Hv. destruct (valid_string_runes s Hb Hv) as (rs & Hr & _ & E). unfold quote. rewrite E.
  apply (utf8_text_app [34]); [apply utf8_text_ascii; ascii|].
  apply utf8_text_app; [|apply utf8_text_ascii; ascii]. clear E.
  induction Hr as [|r rs Hr Hrs IH]; [by exists []|]. rewrite fmap_cons. cbn [concat].
  apply utf8_text_app; [by apply utf8_escape|done].
Qed.

(** [validate_unicode] with the fuel the code's index bound gives it. *)
Definition validate (inq : bool) (s : bytes) : result unit := validate_unicode (length s) inq s.

Lemma validate_fuel fuel inq s : (length s <= fuel)%nat -> validate_unicode fuel inq s = validate inq s.
Proof.
  unfold validate. remember (length s) as n eqn:Hn. revert fuel s inq Hn.
  induction n as [n IH] using lt_wf_ind. intros fuel s inq Hn Hf.
  destruct s as [|c s]; [by destruct fuel, n|]. destruct fuel as [|fuel]; [simpl in Hn; lia|].
  destruct n as [|n]; [done|].
  assert (forall t q, (length t <= length s)%nat ->
    validate_unicode fuel q t = validate_unicode n q t) as Hgo.
  { intros t q Ht. simpl in Hn.
    rewrite (IH (length t) ltac:(lia) fuel t q eq_refl) by lia.
    by rewrite (IH (length t) ltac:(lia) n t q eq_refl) by lia. }
  cbn [validate_unicode]. destruct (c =? 34); [by apply Hgo|]. destruct (_ || _); [by apply Hgo|].
  destruct s as [|e s]; [done|]. destruct (negb _); [apply Hgo; simpl; lia|]. destruct (_ <? _)%nat; [done|].
  destruct (ParseUint16 _); [|done]. cbv zeta. destruct (_ && _); [done|].
  destruct (_ && _); [|apply Hgo; rewrite length_drop; simpl; lia].
  destruct (_ || _); [done|]. destruct (ParseUint16 _); [|done]. destruct (_ || _); [done|].
  apply Hgo. rewrite !length_drop. simpl. lia.
Qed.

(** The scan as an equation without fuel. *)
Definition validate_hex (inq : bool) (s : bytes) : result unit :=
  if (length s <? 4)%nat then Err "invalid Unicode escape"
  else match ParseUint16 (take 4 s) with
  | None => Err "invalid Unicode escape"
  | Some n =>
      let r := drop 4 s in
      if (56320 <=? n) && (n <=? 57343) then Err "unpaired Unicode surrogate"
      else if (55296 <=? n) && (n <=? 56319) then
        if (length r <? 6)%nat || negb (byte_at r 0 =? 92) || negb (byte_at r 1 =? 117)
        then Err "unpaired Unicode surrogate"
        else match ParseUint16 (slice r 2 6) with
        | Some low =>
            if (low <? 56320) || (57343 <? low) then Err "unpaired Unicode surrogate"
            else validate inq (drop 6 r)
        | None => Err "unpaired Unicode surrogate"
        end
      else validate inq r
  end.

Lemma validate_cons inq c s :
  validate inq (c :: s) =
    if c =? 34 then validate (negb inq) s
    else if negb inq || negb (c =? 92) then validate inq s
    else match s with
         | [] => Err "invalid JSON escape"
         | e :: s => if negb (e =? 117) then validate inq s else validate_hex inq s
         end.
Proof.
  unfold validate at 1. change (length (c :: s)) with (S (length s)).
  remember (length s) as n eqn:Hn. cbn [validate_unicode].
  destruct (c =? 34); [by rewrite validate_fuel by lia|].
  destruct (_ || _); [by rewrite validate_fuel by lia|]. destruct s as [|e s]; [done|]. simpl in Hn.
  destruct (negb _); [by rewrite validate_fuel by lia|]. unfold validate_hex. cbv zeta.
  by rewrite !validate_fuel by (rewrite ?length_drop; lia).
Qed.

(** Text that leaves the scan where it was: outside strings, or inside one. *)
Definition clean (inq : bool) (s : bytes) : Prop := forall t, validate inq (s ++ t) = validate inq t.

Lemma clean_app inq a b : clean inq a -> clean inq b -> clean inq (a ++ b).
Proof. intros Ha Hb t. by rewrite <- app_assoc, Ha, Hb. Qed.

Lemma clean_nil inq : clean inq [].
Proof. done. Qed.

Lemma clean_char inq c : c <> 34 -> (inq = true -> c <> 92) -> clean inq [c].
Proof.
  intros H34 H92 t. cbn [app]. rewrite validate_cons.
  rewrite (proj2 (Z.eqb_neq c 34)) by done.
  destruct inq; simpl negb; simpl orb; [|done]. rewrite (proj2 (Z.eqb_neq c 92)) by auto. done.
Qed.

Lemma clean_chars inq s : Forall (fun c => c <> 34 /\ c <> 92) s -> clean inq s.
Proof.
  induction 1 as [|c s [Hc1 Hc2] Hs IH]; [apply clean_nil|].
  apply (clean_app _ [c]); [apply clean_char; auto|done].
Qed.

(** A two-character escape, and an escape of a scalar value. *)
Lemma clean_escape e : e <> 117 -> clean true [92; e].
Proof.
  intros He t. cbn [app]. rewrite validate_cons. change (92 =? 34) with false. change (92 =? 92) with true.
  simpl orb. cbv iota. by rewrite (proj2 (Z.eqb_neq e 117)) by done.
Qed.

Lemma clean_unicode h n :
  length h = 4%nat -> ParseUint16 h = Some n -> n < 55296 -> clean true (92 :: 117 :: h).
Proof.
  intros Hl Hn Hlt t. cbn [app]. rewrite validate_cons.
  change (92 =? 34) with false. change (92 =? 92) with true. change (117 =? 117) with true.
  simpl orb. simpl negb. cbv iota. unfold validate_hex.
  rewrite (proj2 (Nat.ltb_ge _ 4)) by (rewrite length_app; lia).
  replace 4%nat with (length h). rewrite take_app_length, drop_app_length, Hn. cbv zeta.
  rewrite (proj2 (Z.leb_gt 56320 n)), (proj2 (Z.leb_gt 55296 n)) by lia. done.
Qed.

Lemma control_escape_hex r :
  0 <= r < 32 -> ParseUint16 ([48; 48] ++ [hexdigit (r / 16); hexdigit (r mod 16)]) = Some r.
Proof.
  intros Hr.
  pose proof (byte_forall (fun r => if r <? 32 then
    match ParseUint16 ([48; 48] ++ [hexdigit (r / 16); hexdigit (r mod 16)]) with
    | Some v => v =? r | None => false end else true)
    ltac:(vm_compute; reflexivity) r ltac:(unfold is_byte; lia)) as H.
  cbv beta in H. rewrite (proj2 (Z.ltb_lt r 32)) in H by lia.
  destruct (ParseUint16 _); [|done]. by apply Z.eqb_eq in H as ->.
Qed.

Lemma EncodeRune_high r : 128 <= r -> valid_rune r = true -> Forall (fun c => c <> 34 /\ c <> 92) (EncodeRune r).
Proof.
  intros Hr Hv. unfold EncodeRune. rewrite Hv. rewrite (proj2 (Z.ltb_ge r 128)) by lia.
  destruct (Z.ltb_spec r 2048); [|destruct (Z.ltb_spec r 65536)];
    repeat (apply Forall_cons_2; [Z.to_euclidean_division_equations; lia|]); apply Forall_nil_2.
Qed.

Lemma clean_escaped r : valid_rune r = true -> clean true (escape r).
Proof.
  intros Hv. unfold escape, escape_rune. rewrite encoded_not_bad by done. cbn [fst].
  assert (0 <= r) by (unfold valid_rune in Hv; apply orb_true_iff in Hv as [H|H]; breflect; lia).
  destruct (Z.ltb_spec r 128).
  - destruct (_ || _) eqn:E.
    { apply clean_escape. apply orb_true_iff in E as [E|E]; breflect; lia. }
    apply orb_false_iff in E as [E1 E2]. breflect.
    destruct (Z.leb_spec 32 r); [by apply clean_char|].
    repeat (destruct (r =? _); [by apply clean_escape|]).
    apply (clean_unicode ([48; 48] ++ [hexdigit (r / 16); hexdigit (r mod 16)]) r); [done|by apply control_escape_hex|lia].
  - destruct (r =? 8232); [by apply (clean_unicode _ 8232)|].
    destruct (r =? 8233); [by apply (clean_unicode _ 8233)|]. by apply clean_chars, EncodeRune_high.
Qed.

Lemma clean_quote s : Forall is_byte s -> ValidString s = true -> clean false (quote s).
Proof.
  intros Hb Hv t. destruct (valid_string_runes s Hb Hv) as (rs & Hr & _ & E). unfold quote. rewrite E.
  assert (clean true (concat (escape <$> rs))) as Hc.
  { clear E. induction Hr as [|r rs Hr Hrs IH]; [apply clean_nil|]. rewrite fmap_cons. cbn [concat].
    apply clean_app; [by apply clean_escaped|done]. }
  cbn [app]. rewrite validate_cons. change (34 =? 34) with true. cbv iota. simpl negb.
  rewrite <- app_assoc, Hc. cbn [app]. by rewrite validate_cons.
Qed.

(* ------------------------------------------------------------------ *)
(** ** Lemmas: scalars *)

Abbreviation dec st stack rest := {| dec_state := st; dec_stack := stack; dec_rest := rest |}.

(** What may follow a number: nothing, or a character that does not continue it. *)
Definition delimited (s : bytes) : Prop :=
  match s with
  | [] => True
  | c :: _ => isdigit c = false /\ c <> 46 /\ c <> 101 /\ c <> 69
  end.

(** The characters a value starts with: no space, separator or closing bracket. *)
Definition opens_value (c : Z) : bool :=
  negb (isSpace c) && negb ((c =? 93) || (c =? 125)) && negb (c =? 58) && negb (c =? 44).

Lemma skip_space_head c s : isSpace c = false -> skip_space (c :: s) = c :: s.
Proof. intros H. cbn [skip_space]. by rewrite H. Qed.

(** A scalar at a place where a value is allowed. *)
Lemma Token_scalar st stack c s t r :
  value_allowed st = true -> opens_value c = true -> (c =? 91) || (c =? 123) = false ->
  scan_value (c :: s) = Some (t, r) ->
  Token (dec st stack (c :: s)) = TOk t (dec (value_end st) stack r).
Proof.
  intros Ha Ho Hb Hs. unfold opens_value in Ho. breflect.
  unfold Token. cbn [token_fuel dec_state dec_stack dec_rest].
  rewrite skip_space_head by done.
  rewrite (proj2 (orb_false_iff _ _)) by (split; by apply Z.eqb_neq).
  rewrite (proj2 (orb_false_iff (c =? 93) _)) by (split; by apply Z.eqb_neq).
  rewrite (proj2 (Z.eqb_neq c 58)), (proj2 (Z.eqb_neq c 44)) by done.
  rewrite Hs. destruct st; try done; by rewrite andb_false_r.
Qed.

(** The key of an object member. *)
Lemma Token_key st stack s t r :
  st = ObjectStart \/ st = ObjectKey -> scan_value (34 :: s) = Some (t, r) ->
  Token (dec st stack (34 :: s)) = TOk t (dec ObjectColon stack r).
Proof.
  intros Hst Hs. unfold Token. cbn [token_fuel dec_state dec_stack dec_rest].
  rewrite skip_space_head by done. change (34 =? 91) with false. change (34 =? 123) with false.
  change (34 =? 93) with false. change (34 =? 125) with false. change (34 =? 58) with false.
  change (34 =? 44) with false. simpl orb. cbv iota. rewrite Hs. by destruct Hst as [-> | ->].
Qed.

Lemma scan_quote s r :
  Forall is_byte s -> ValidString s = true -> scan_value (quote s ++ r) = Some (TStr s, r).
Proof.
  intros Hb Hv. unfold quote. cbn [app]. rewrite <- app_assoc. cbn [app]. unfold scan_value.
  change (34 =? 34) with true. cbv iota. rewrite lex_quote; [done..|]. simpl. rewrite length_app. lia.
Qed.

Lemma decimal_digits_zero fuel n r :
  0 <= n < 10 ^ Z.of_nat fuel -> decimal_digits fuel n [] = 48 :: r -> r = [].
Proof.
  revert n r. induction fuel as [|fuel IH]; intros n r Hn; [done|]. cbn [decimal_digits].
  destruct (Z.ltb_spec n 10); [by intros [= _ <-]|]. rewrite decimal_digits_acc.
  rewrite Nat2Z.inj_succ, Z.pow_succ_r in Hn by lia.
  assert (0 <= n / 10 < 10 ^ Z.of_nat fuel) as Hd.
  { split; [apply Z.div_pos; lia|apply Z.div_lt_upper_bound; lia]. }
  destruct fuel as [|fuel]; [simpl in Hd; assert (1 <= n / 10) by (apply Z.div_le_lower_bound; lia); lia|].
  destruct (decimal_digits_spec (S fuel) (n / 10) Hd ltac:(lia)) as (_ & Hne & Hv).
  destruct (decimal_digits (S fuel) (n / 10) []) as [|c t] eqn:E; [done|]. cbn [app].
  intros [= -> _]. rewrite (IH _ _ Hd E) in Hv. unfold digits_value in Hv. simpl in Hv.
  assert (1 <= n / 10) by (apply Z.div_le_lower_bound; lia). lia.
Qed.

Lemma take_digits_all ds r : forallb isdigit ds = true -> delimited r -> take_digits (ds ++ r) = (ds, r).
Proof.
  intros Hd Hr. induction ds as [|c ds IH].
  - destruct r as [|c r]; [done|]. destruct Hr as [Hc _]. cbn. by rewrite Hc.
  - cbn [forallb] in Hd. apply andb_true_iff in Hd as [Hc Hd]. cbn [app take_digits]. rewrite Hc.
    by rewrite IH.
Qed.

Lemma lex_unsigned_digits n r :
  0 <= n < 10 ^ 20 -> delimited r ->
  lex_unsigned (decimal_digits 20 n [] ++ r) = Some (decimal_digits 20 n [], r).
Proof.
  intros Hn Hr. destruct (decimal_digits_spec 20 n Hn ltac:(lia)) as (Hd & Hne & _).
  pose proof (decimal_digits_zero 20 n) as Hz.
  remember (decimal_digits 20 n []) as ds eqn:Eds. clear Eds.
  destruct ds as [|c ds]; [done|]. cbn [app lex_unsigned].
  assert (lex_fraction r = Some ([], r)) as Ef.
  { destruct r as [|x r]; [done|]. destruct Hr as (_ & H46 & _). unfold lex_fraction.
    by rewrite (proj2 (Z.eqb_neq x 46)). }
  assert (lex_exponent r = Some ([], r)) as Ee.
  { destruct r as [|x r]; [done|]. destruct Hr as (_ & _ & H1 & H2). unfold lex_exponent.
    by rewrite (proj2 (Z.eqb_neq x 101)), (proj2 (Z.eqb_neq x 69)). }
  assert ((if c =? 48 then ([c], ds ++ r) else take_digits (c :: ds ++ r)) = (c :: ds, r)) as ->.
  { destruct (Z.eqb_spec c 48) as [->|]; [by rewrite (Hz ds Hn eq_refl)|].
    by apply (take_digits_all (c :: ds) r). }
  cbn [forallb] in Hd. apply andb_true_iff in Hd as [-> _]. simpl negb. cbv iota.
  rewrite Ef, Ee. simpl. by rewrite app_nil_r.
Qed.

Lemma lex_int n r : in_int64 n -> delimited r -> lex_number (FormatInt n ++ r) = Some (FormatInt n, r).
Proof.
  intros Hn Hr. unfold in_int64, int64_min, int64_max in Hn. unfold FormatInt.
  destruct (Z.ltb_spec n 0).
  - cbn [app lex_number]. change (45 =? 45) with true. cbv iota. by rewrite lex_unsigned_digits by (done || lia).
  - destruct (decimal_digits_spec 20 n ltac:(lia) ltac:(lia)) as (Hd & Hne & _).
    pose proof (lex_unsigned_digits n r ltac:(lia) Hr) as Hl.
    destruct (decimal_digits 20 n []) as [|c ds]; [done|]. cbn [app lex_number] in *.
    cbn [forallb] in Hd. apply andb_true_iff in Hd as [Hc _]. apply isdigit_range in Hc.
    by rewrite (proj2 (Z.eqb_neq c 45)) by lia.
Qed.

(** The characters of a printed integer. *)
Lemma FormatInt_chars n :
  in_int64 n -> FormatInt n <> [] /\ Forall (fun c => isdigit c = true \/ c = 45) (FormatInt n).
Proof.
  intros Hn. unfold in_int64, int64_min, int64_max in Hn. unfold FormatInt.
  assert (forall k, 0 <= k < 10 ^ 20 -> decimal_digits 20 k [] <> [] /\
    Forall (fun c => isdigit c = true \/ c = 45) (decimal_digits 20 k [])) as Hk.
  { intros k Hk. destruct (decimal_digits_spec 20 k Hk ltac:(lia)) as (Hd & Hne & _). split; [done|].
    rewrite forallb_forall in Hd. apply Forall_forall. intros c Hc. left. by apply Hd, list_elem_of_In. }
  destruct (Z.ltb_spec n 0); [|apply Hk; lia]. split; [done|]. constructor; [by right|]. apply Hk; lia.
Qed.

Lemma int_no_fraction n : in_int64 n -> has_fraction (FormatInt n) = false.
Proof.
  intros Hn. destruct (FormatInt_chars n Hn) as [_ H]. unfold has_fraction.
  induction H as [|c s Hc Hs IH]; [done|]. cbn [existsb]. rewrite IH, orb_false_r.
  destruct Hc as [Hc|Hc]; [apply isdigit_range in Hc|]; apply orb_false_iff; rewrite orb_false_iff; lia.
Qed.

Lemma scan_int n r :
  in_int64 n -> delimited r -> scan_value (FormatInt n ++ r) = Some (TNum (FormatInt n), r).
Proof.
  intros Hn Hr. pose proof (lex_int n r Hn Hr) as Hl. destruct (FormatInt_chars n Hn) as [Hne Hc].
  destruct (FormatInt n) as [|c s]; [done|]. cbn [app] in *. unfold scan_value.
  apply Forall_cons in Hc as [Hc _].
  assert (45 <= c <= 57) as Hc' by (destruct Hc as [Hc|Hc]; [apply isdigit_range in Hc|]; lia).
  rewrite (proj2 (Z.eqb_neq c 34)) by lia.
  assert (forall n k x w, lit w = x :: k -> x <> c -> bytes_eqb (take (S n) (c :: s ++ r)) (lit w) = false) as Hw.
  { intros k n' x w Hw Hx. apply bool_decide_eq_false. rewrite Hw. cbn [take]. by intros [= ? _]. }
  rewrite (Hw 3%nat (lit "rue") 116 "true" eq_refl), (Hw 4%nat (lit "alse") 102 "false" eq_refl),
    (Hw 3%nat (lit "ull") 110 "null" eq_refl) by lia.
  by rewrite Hl.
Qed.

(* ------------------------------------------------------------------ *)
(** ** Lemmas: the round trip *)

(** Decoding depends on the decoder only through its next token. *)
Lemma decode_same_token fuel d d' l depth count :
  Token d = Token d' -> decodeJSONValue fuel d l depth count = decodeJSONValue fuel d' l depth count.
Proof. intros H. destruct fuel; [done|]. cbn [decodeJSONValue]. by rewrite H. Qed.

Lemma opens_value_no_sep c :
  opens_value c = true -> isSpace c = false /\ (c =? 58) = false /\ (c =? 44) = false.
Proof. unfold opens_value. rewrite !andb_true_iff, !negb_true_iff. tauto. Qed.

(** A separator before a value or a key is passed over. *)
Lemma Token_comma stack c s :
  opens_value c = true -> Token (dec ArrayComma stack (44 :: c :: s)) = Token (dec ArrayValue stack (c :: s)).
Proof.
  intros H. destruct (opens_value_no_sep c H) as (H1 & H2 & H3).
  unfold Token. cbn [token_fuel dec_state dec_stack dec_rest]. rewrite (skip_space_head 44) by done.
  change ((44 =? 91) || (44 =? 123)) with false. change ((44 =? 93) || (44 =? 125)) with false.
  change (44 =? 58) with false. change (44 =? 44) with true. cbv iota.
  cbn [token_fuel dec_state dec_stack dec_rest]. by rewrite skip_space_head, H2, H3.
Qed.

Lemma Token_colon stack c s :
  opens_value c = true -> Token (dec ObjectColon stack (58 :: c :: s)) = Token (dec ObjectValue stack (c :: s)).
Proof.
  intros H. destruct (opens_value_no_sep c H) as (H1 & H2 & H3).
  unfold Token. cbn [token_fuel dec_state dec_stack dec_rest]. rewrite (skip_space_head 58) by done.
  change ((58 =? 91) || (58 =? 123)) with false. change ((58 =? 93) || (58 =? 125)) with false.
  change (58 =? 58) with true. cbv iota.
  cbn [token_fuel dec_state dec_stack dec_rest]. by rewrite skip_space_head, H2, H3.
Qed.

Lemma Token_comma_key stack s t r :
  scan_value (34 :: s) = Some (t, r) ->
  Token (dec ObjectComma stack (44 :: 34 :: s)) = TOk t (dec ObjectColon stack r).
Proof.
  intros H. rewrite <- (Token_key ObjectKey stack s t r (or_intror eq_refl) H). done.
Qed.

Lemma Token_open st stack c s :
  value_allowed st = true -> c = 91 \/ c = 123 ->
  Token (dec st stack (c :: s)) =
    TOk (TDelim c) (dec (if c =? 91 then ArrayStart else ObjectStart) (st :: stack) s).
Proof.
  intros Ha Hc. unfold Token. cbn [token_fuel dec_state dec_stack dec_rest].
  rewrite skip_space_head by (by destruct Hc as [-> | ->]).
  rewrite Ha. by destruct Hc as [-> | ->].
Qed.

Lemma Token_close st st' stack c s :
  match st with ArrayStart | ArrayComma => c = 93 | ObjectStart | ObjectComma => c = 125 | _ => False end ->
  More (dec st (st' :: stack) (c :: s)) = false /\
  Token (dec st (st' :: stack) (c :: s)) = TOk (TDelim c) (dec (value_end st') stack s).
Proof. intros H. destruct st; try done; by subst. Qed.

Definition decodes (v : json) (s : bytes) : Prop :=
  forall fuel st stack rest l depth count,
    value_allowed st = true -> delimited rest -> (2 * length s < fuel)%nat ->
    depth + nesting v - 1 <= MaxDepth l -> count + items v <= MaxItems l ->
    decodeJSONValue fuel (dec st stack (s ++ rest)) l depth count =
      Some (Ok (v, dec (value_end st) stack rest, count + items v)).

Record reads (v : json) (s : bytes) : Prop := {
  text_opens : exists c s', s = c :: s' /\ opens_value c = true;
  text_clean : clean false s;
  text_utf8 : utf8_text s;
  text_decodes : decodes v s
}.

Lemma within_limits v l depth count :
  depth + nesting v - 1 <= MaxDepth l -> count + items v <= MaxItems l ->
  (MaxDepth l <? depth) || (MaxItems l <? count + 1) = false.
Proof.
  intros Hd Hi. pose proof (nesting_pos v). pose proof (items_pos v).
  apply orb_false_iff. rewrite !Z.ltb_ge. lia.
Qed.

(** A scalar whose token decodes to it. *)
Lemma decodes_scalar v c s t :
  opens_value c = true -> (c =? 91) || (c =? 123) = false -> items v = 1 -> nesting v = 1 ->
  (forall r, delimited r -> scan_value (c :: s ++ r) = Some (t, r)) ->
  match t with
  | TDelim _ => False
  | TNum x => decode_number x = Ok v
  | TNull => v = JNull | TBool b => v = JBool b | TStr x => v = JStr x
  end -> decodes v (c :: s).
Proof.
  intros Ho Hb Hi Hn Hs Ht [|fuel] st stack rest l depth count Ha Hr Hf Hd Hc; [simpl in Hf; lia|].
  cbn [decodeJSONValue]. cbv zeta. rewrite (within_limits v) by done.
  cbn [app]. rewrite (Token_scalar st stack c (s ++ rest) t rest Ha Ho Hb (Hs rest Hr)).
  rewrite Hi. destruct t; try done; by subst || by rewrite Ht.
Qed.

Lemma text_null : reads JNull (lit "null").
Proof.
  split; [by exists 110, (lit "ull")|by apply clean_chars; repeat constructor|
    by apply utf8_text_ascii, ascii_text|].
  by apply (decodes_scalar JNull 110 (lit "ull") TNull).
Qed.

Lemma text_bool b : reads (JBool b) (if b then lit "true" else lit "false").
Proof.
  destruct b.
  - split; [by exists 116, (lit "rue")|by apply clean_chars; repeat constructor|
      by apply utf8_text_ascii, ascii_text|].
    by apply (decodes_scalar (JBool true) 116 (lit "rue") (TBool true)).
  - split; [by exists 102, (lit "alse")|by apply clean_chars; repeat constructor|
      by apply utf8_text_ascii, ascii_text|].
    by apply (decodes_scalar (JBool false) 102 (lit "alse") (TBool false)).
Qed.

Lemma text_str s : Forall is_byte s -> ValidString s = true -> reads (JStr s) (quote s).
Proof.
  intros Hb Hv. split.
  - by exists 34, (quote_body s ++ [34]).
  - by apply clean_quote.
  - by apply utf8_quote.
  - apply (decodes_scalar (JStr s) 34 (quote_body s ++ [34]) (TStr s)); try done.
    intros r _. exact (scan_quote s r Hb Hv).
Qed.

Lemma text_int n : in_int64 n -> reads (JInt n) (FormatInt n).
Proof.
  intros Hn. destruct (FormatInt_chars n Hn) as [Hne Hc].
  assert (Forall (fun c => 45 <= c <= 57) (FormatInt n)) as Hr.
  { eapply Forall_impl; [exact Hc|]. intros c [H|H]; [apply isdigit_range in H|]; lia. }
  pose proof (fun r => scan_int n r Hn) as Hs.
  assert (decode_number (FormatInt n) = Ok (JInt n)) as Hd.
  { unfold decode_number. by rewrite int_no_fraction, ParseInt_FormatInt. }
  remember (FormatInt n) as s eqn:Es. split.
  - destruct s as [|c s]; [done|]. exists c, s. split; [done|]. apply Forall_cons in Hc as [Hc _].
    destruct Hc as [Hc| ->]; [|done]. apply isdigit_range in Hc. unfold opens_value, isSpace.
    rewrite !andb_true_iff, !negb_true_iff, !orb_false_iff, !Z.eqb_neq. lia.
  - apply clean_chars. eapply Forall_impl; [exact Hr|]. simpl. lia.
  - apply utf8_text_ascii. eapply Forall_impl; [exact Hr|]. simpl. lia.
  - destruct s as [|c s]; [done|]. apply Forall_cons in Hc as [Hc _].
    assert (45 <= c <= 57 /\ c <> 46 /\ c <> 47) as Hc'.
    { destruct Hc as [Hc| ->]; [|lia]. apply isdigit_range in Hc. lia. }
    apply (decodes_scalar (JInt n) c s (TNum (c :: s))); try done.
    + unfold opens_value, isSpace. rewrite !andb_true_iff, !negb_true_iff, !orb_false_iff, !Z.eqb_neq. lia.
    + apply orb_false_iff. lia.
Qed.


(** Number text is lexed the same with something after it that does not continue it. *)
Lemma take_digits_more s d s' r :
  take_digits s = (d, s') -> s' <> [] \/ delimited r -> take_digits (s ++ r) = (d, s' ++ r).
Proof.
  revert d s'. induction s as [|c s IH]; intros d s' H Hr.
  - simpl in H. injection H as <- <-. destruct Hr as [|Hr]; [done|]. destruct r as [|x r]; [done|].
    destruct Hr as [Hx _]. simpl. by rewrite Hx.
  - cbn [take_digits app] in *. destruct (isdigit c); [|by injection H as <- <-].
    destruct (take_digits s) as [d0 s0]. injection H as <- <-. by rewrite (IH d0 s0).
Qed.

Lemma lex_exponent_end s t r : lex_exponent s = Some (t, []) -> delimited r -> lex_exponent (s ++ r) = Some (t, r).
Proof.
  intros H Hr. destruct s as [|e s].
  - simpl in H. injection H as <-. destruct r as [|x r]; [done|]. destruct Hr as (_ & _ & H1 & H2). cbn.
    by rewrite (proj2 (Z.eqb_neq x 101)), (proj2 (Z.eqb_neq x 69)).
  - cbn [lex_exponent app] in *. destruct (_ || _); [|by injection H as _ ?].
    destruct s as [|c s]; [done|]. cbn [app].
    destruct (_ || _).
    + destruct (take_digits s) as [d0 s0] eqn:E. destruct d0 as [|x d0]; [done|]. injection H as <- ->.
      by rewrite (take_digits_more s (x :: d0) [] r E (or_intror Hr)).
    + destruct (take_digits (c :: s)) as [d0 s0] eqn:E. destruct d0 as [|x d0]; [done|]. injection H as <- ->.
      rewrite (app_comm_cons s r c), (take_digits_more (c :: s) (x :: d0) [] r E (or_intror Hr)). done.
Qed.

Lemma lex_fraction_more s t s' r :
  lex_fraction s = Some (t, s') -> s' <> [] \/ delimited r -> lex_fraction (s ++ r) = Some (t, s' ++ r).
Proof.
  intros H Hr. destruct s as [|d s].
  - simpl in H. injection H as <- <-. destruct Hr as [|Hr]; [done|]. destruct r as [|x r]; [done|].
    destruct Hr as (_ & Hx & _). cbn. by rewrite (proj2 (Z.eqb_neq x 46)).
  - cbn [lex_fraction app] in *. destruct (d =? 46); [|by injection H as <- <-].
    destruct (take_digits s) as [d0 s0] eqn:E. destruct d0 as [|x d0]; [done|]. injection H as <- <-.
    by rewrite (take_digits_more s (x :: d0) s0 r E Hr).
Qed.

Lemma lex_unsigned_end s t r : lex_unsigned s = Some (t, []) -> delimited r -> lex_unsigned (s ++ r) = Some (t, r).
Proof.
  intros H Hr. destruct s as [|c s]; [done|]. cbn [lex_unsigned app] in *.
  destruct (isdigit c); [|done]. simpl negb in *. cbv iota in *.
  destruct (if c =? 48 then ([c], s) else take_digits (c :: s)) as [whole s1] eqn:E1.
  destruct (lex_fraction s1) as [[frac s2]|] eqn:E2; [|done].
  destruct (lex_exponent s2) as [[ex s3]|] eqn:E3; [|done]. injection H as <- ->.
  assert (s1 <> [] \/ delimited r) as H1 by tauto.
  assert ((if c =? 48 then ([c], s ++ r) else take_digits (c :: s ++ r)) = (whole, s1 ++ r)) as ->.
  { destruct (c =? 48); [by injection E1 as <- <-|]. by apply (take_digits_more (c :: s)). }
  assert (lex_fraction (s1 ++ r) = Some (frac, s2 ++ r)) as -> by (apply lex_fraction_more; [done|tauto]).
  by rewrite (lex_exponent_end s2 ex r E3 Hr).
Qed.

Lemma lex_number_end s t r : lex_number s = Some (t, []) -> delimited r -> lex_number (s ++ r) = Some (t, r).
Proof.
  intros H Hr. destruct s as [|c s]; [done|]. cbn [lex_number app] in *. destruct (c =? 45).
  - destruct (lex_unsigned s) as [[u s1]|] eqn:E; [|done]. simpl in H. injection H as <- ->.
    by rewrite (lex_unsigned_end s u r E Hr).
  - by apply (lex_unsigned_end (c :: s)).
Qed.

(** The characters of a number. *)
Definition number_char (c : Z) : bool :=
  isdigit c || (c =? 43) || (c =? 45) || (c =? 46) || (c =? 69) || (c =? 101).

Lemma take_digits_chars s : forallb number_char (take_digits s).1 = true.
Proof.
  induction s as [|c s IH]; [done|]. cbn [take_digits]. destruct (isdigit c) eqn:E; [|done].
  destruct (take_digits s) as [d r]. simpl in *. rewrite IH. unfold number_char. by rewrite E.
Qed.

Lemma lex_unsigned_chars s t r : lex_unsigned s = Some (t, r) -> forallb number_char t = true.
Proof.
  destruct s as [|c s]; [done|]. cbn [lex_unsigned]. destruct (isdigit c) eqn:Ed; [|done]. simpl negb. cbv iota.
  destruct (if c =? 48 then ([c], s) else take_digits (c :: s)) as [whole s1] eqn:E1.
  assert (forallb number_char whole = true) as Hw.
  { destruct (c =? 48); [injection E1 as <- _; simpl; unfold number_char; by rewrite Ed|].
    pose proof (take_digits_chars (c :: s)). by rewrite E1 in H. }
  destruct (lex_fraction s1) as [[frac s2]|] eqn:E2; [|done].
  assert (forallb number_char frac = true) as Hf.
  { destruct s1 as [|x s1]; [by injection E2 as <- _|]. cbn [lex_fraction] in E2.
    destruct (Z.eqb_spec x 46) as [->|]; [|by injection E2 as <- _]. pose proof (take_digits_chars s1) as H.
    destruct (take_digits s1) as [[|y d] s0]; [done|]. injection E2 as <- _. exact H. }
  destruct (lex_exponent s2) as [[ex s3]|] eqn:E3; [|done].
  assert (forallb number_char ex = true) as He.
  { destruct s2 as [|x s2]; [by injection E3 as <- _|]. cbn [lex_exponent] in E3.
    destruct (_ || _) eqn:Ex; [|by injection E3 as <- _].
    assert (number_char x = true) as Hx by (apply orb_true_iff in Ex as [Ex|Ex]; breflect; by subst).
    destruct s2 as [|y s2]; [done|]. destruct ((y =? 43) || (y =? 45)) eqn:Ey.
    - assert (number_char y = true) as Hy by (apply orb_true_iff in Ey as [Ey|Ey]; breflect; by subst).
      pose proof (take_digits_chars s2) as H. destruct (take_digits s2) as [[|z d] s0]; [done|].
      injection E3 as <- _. cbn [forallb app] in *. by rewrite Hx, Hy.
    - pose proof (take_digits_chars (y :: s2)) as H. destruct (take_digits (y :: s2)) as [[|z d] s0]; [done|].
      injection E3 as <- _. cbn [forallb app] in *. by rewrite Hx. }
  intros [= <- _]. by rewrite !forallb_app, Hw, Hf, He.
Qed.

Lemma lex_number_chars s t r : lex_number s = Some (t, r) -> forallb number_char t = true.
Proof.
  destruct s as [|c s]; [done|]. cbn [lex_number]. destruct (Z.eqb_spec c 45) as [->|].
  - destruct (lex_unsigned s) as [[u s1]|] eqn:E; [|done]. intros [= <- _]. simpl.
    by rewrite (lex_unsigned_chars s u s1 E).
  - apply lex_unsigned_chars.
Qed.

Lemma number_char_range c : number_char c = true -> 43 <= c <= 101 /\ c <> 44 /\ c <> 58 /\ c <> 91 /\ c <> 92 /\ c <> 93.
Proof.
  unfold number_char, isdigit. rewrite !orb_true_iff, andb_true_iff. intros H.
  repeat destruct H as [H|H]; breflect; lia.
Qed.

Lemma scan_number t r :
  lex_number t = Some (t, []) -> delimited r -> scan_value (t ++ r) = Some (TNum t, r).
Proof.
  intros Ht Hr. pose proof (lex_number_end t t r Ht Hr) as Hl. pose proof (lex_number_chars t t [] Ht) as Hc.
  destruct t as [|c s]; [done|]. cbn [app forallb] in *. unfold scan_value.
  apply andb_true_iff in Hc as [Hc _]. apply number_char_range in Hc.
  rewrite (proj2 (Z.eqb_neq c 34)) by lia.
  assert (forall n k x w, lit w = x :: k -> x <> c -> bytes_eqb (take (S n) (c :: s ++ r)) (lit w) = false) as Hw.
  { intros k n' x w Hw Hx. apply bool_decide_eq_false. rewrite Hw. cbn [take]. by intros [= ? _]. }
  rewrite (Hw 3%nat (lit "rue") 116 "true" eq_refl), (Hw 4%nat (lit "alse") 102 "false" eq_refl),
    (Hw 3%nat (lit "ull") 110 "null" eq_refl) by lia.
  by rewrite Hl.
Qed.

Lemma text_number t :
  lex_number t = Some (t, []) -> has_fraction t = true -> is_Some (ParseFloat t) -> reads (JNumber t) t.
Proof.
  intros Ht Hf [f Hp]. pose proof (lex_number_chars t t [] Ht) as Hc.
  assert (Forall (fun c => 43 <= c <= 101 /\ c <> 44 /\ c <> 58 /\ c <> 91 /\ c <> 92 /\ c <> 93) t) as Hr.
  { rewrite forallb_forall in Hc. apply Forall_forall. intros c Hin. by apply number_char_range, Hc, list_elem_of_In. }
  pose proof (fun r => scan_number t r Ht) as Hs.
  assert (decode_number t = Ok (JNumber t)) as Hd by (unfold decode_number; by rewrite Hf, Hp).
  destruct t as [|c s]; [done|]. pose proof Hr as Hr'. apply Forall_cons in Hr' as [Hc1 _].
  assert (opens_value c = true) as Ho.
  { unfold opens_value, isSpace. rewrite !andb_true_iff, !negb_true_iff, !orb_false_iff, !Z.eqb_neq. lia. }
  split.
  - by exists c, s.
  - apply clean_chars. eapply Forall_impl; [exact Hr|]. simpl. lia.
  - apply utf8_text_ascii. eapply Forall_impl; [exact Hr|]. simpl. lia.
  - apply (decodes_scalar (JNumber (c :: s)) c s (TNum (c :: s))); try done. apply orb_false_iff. lia.
Qed.

(* ------------------------------------------------------------------ *)
(** ** Lemmas: arrays *)

Fixpoint item_texts (first : bool) (ss : list bytes) : bytes :=
  match ss with
  | [] => []
  | s :: ss => (if first then [] else [44]) ++ s ++ item_texts false ss
  end.

(** The elements of an array, after their opening bracket. *)
Definition decodes_items (first : bool) (l : list json) (body : bytes) : Prop :=
  forall fuel st stack rest lim depth count a,
    (2 * length body + 1 < fuel)%nat ->
    depth + nesting_list l <= MaxDepth lim -> count + items_list l <= MaxItems lim ->
    decode_items fuel (dec (if first then ArrayStart else ArrayComma) (st :: stack) (body ++ 93 :: rest)) lim depth count a =
      Some (Ok (JArr (a ++ l), dec (value_end st) stack rest, count + items_list l)).

Lemma More_opens st stack c s : opens_value c = true -> More (dec st stack (c :: s)) = true.
Proof.
  unfold opens_value, More. rewrite !andb_true_iff, !negb_true_iff. intros [[[H1 H2] _] _].
  cbn [dec_rest]. rewrite skip_space_head by done. by rewrite H2.
Qed.

Lemma items_list_nonneg l : 0 <= items_list l.
Proof. induction l as [|x l IH]; unfold items_list in *; simpl; [lia|]. pose proof (items_pos x). lia. Qed.

Lemma reads_items first l ss :
  Forall2 reads l ss ->
  clean false (item_texts first ss) /\ utf8_text (item_texts first ss) /\ decodes_items first l (item_texts first ss).
Proof.
  intros Hl. revert first. induction Hl as [|v s l ss Hv Hl IH]; intros first; cbn [item_texts].
  - split; [apply clean_nil|]. split; [by exists []|].
    intros [|fuel] st stack rest lim depth count a Hf _ _; [lia|]. cbn [decode_items app].
    destruct (Token_close (if first then ArrayStart else ArrayComma) st stack 93 rest) as [-> ->]; [by destruct first|].
    unfold items_list. simpl. rewrite app_nil_r, Z.add_0_r. done.
  - destruct (IH false) as (Cb & Ub & Db). destruct Hv as [(c & s' & -> & Ho) Cs Us Ds].
    split; [|split].
    + apply clean_app; [destruct first; [apply clean_nil|by apply clean_char]|by apply clean_app].
    + apply utf8_text_app; [destruct first; [by exists []|by apply utf8_text_ascii, ascii_text]|by apply utf8_text_app].
    + remember (item_texts false ss) as b eqn:Eb.
      intros [|fuel] st stack rest lim depth count a Hf Hd Hi; [lia|]. cbn [decode_items].
      unfold nesting_list, items_list in Hd, Hi. cbn [foldr] in Hd, Hi.
      fold (nesting_list l) in Hd. fold (items_list l) in Hi. pose proof (items_list_nonneg l).
      rewrite !length_app in Hf.
      assert (delimited (b ++ 93 :: rest)) as Hdel by (subst b; by destruct ss).
      assert (More (dec (if first then ArrayStart else ArrayComma) (st :: stack)
        (((if first then [] else [44]) ++ (c :: s') ++ b) ++ 93 :: rest)) = true) as ->.
      { destruct first; [by apply More_opens|done]. }
      rewrite (decode_same_token fuel _ (dec (if first then ArrayStart else ArrayValue) (st :: stack) ((c :: s') ++ b ++ 93 :: rest))).
      2:{ destruct first; cbn [app]; rewrite <- ?app_assoc; [done|]. by apply Token_comma. }
      rewrite Ds; [|by destruct first|done|simpl in *; lia|lia|lia].
      replace (value_end (if first then ArrayStart else ArrayValue)) with ArrayComma by by destruct first.
      rewrite (Db fuel st stack rest lim depth (count + items v) (a ++ [v])); [|simpl in *; lia|lia|lia].
      rewrite <- app_assoc. unfold items_list. cbn [foldr app]. do 3 f_equal. lia.
Qed.

Lemma reads_arr l ss : Forall2 reads l ss -> reads (JArr l) (91 :: item_texts true ss ++ [93]).
Proof.
  intros Hl. destruct (reads_items true l ss Hl) as (Cb & Ub & Db). remember (item_texts true ss) as body. split.
  - by exists 91, (body ++ [93]).
  - apply (clean_app _ [91]); [by apply clean_char|]. apply clean_app; [done|by apply clean_char].
  - apply (utf8_text_app [91]); [by apply utf8_text_ascii, ascii_text|].
    apply utf8_text_app; [done|by apply utf8_text_ascii, ascii_text].
  - intros [|fuel] st stack rest lim depth count Ha Hr Hf Hd Hi; [lia|].
    cbn [decodeJSONValue]. cbv zeta. rewrite (within_limits (JArr l)) by done.
    cbn [app]. rewrite (Token_open st stack 91) by auto. change (91 =? 123) with false. change (91 =? 91) with true.
    cbv iota. rewrite <- app_assoc. cbn [app].
    change (nesting (JArr l)) with (1 + nesting_list l) in Hd. change (items (JArr l)) with (1 + items_list l) in *.
    rewrite (Db fuel st stack rest lim depth (count + 1) []); [|simpl in Hf; rewrite length_app in Hf; simpl in Hf; lia|lia|lia].
    cbn [app]. do 3 f_equal. lia.
Qed.

(** One member: its key, the colon and its value. *)
Lemma decode_one_member (first : bool) fuel st stack k v s r lim depth count acc :
  Forall is_byte k -> ValidString k = true -> reads v s -> delimited r ->
  obj_has k acc = false -> (2 * length s < fuel)%nat ->
  depth + nesting v <= MaxDepth lim -> count + 1 + items v <= MaxItems lim ->
  decode_members (S fuel) (dec (if first then ObjectStart else ObjectComma) (st :: stack)
    (((if first then [] else [44]) ++ quote k ++ 58 :: s) ++ r)) lim depth count acc =
  decode_members fuel (dec ObjectComma (st :: stack) r) lim depth (count + (1 + items v)) (obj_insert k v acc).
Proof.
  intros Hb Hv Ht Hr Hk Hf Hd Hi. destruct Ht as [(c & s' & -> & Ho) _ _ Ds]. pose proof (items_pos v).
  cbn [decode_members].
  assert (More (dec (if first then ObjectStart else ObjectComma) (st :: stack)
    (((if first then [] else [44]) ++ quote k ++ 58 :: c :: s') ++ r)) = true) as -> by by destruct first.
  assert (Token (dec (if first then ObjectStart else ObjectComma) (st :: stack)
    (((if first then [] else [44]) ++ quote k ++ 58 :: c :: s') ++ r)) =
    TOk (TStr k) (dec ObjectColon (st :: stack) (58 :: c :: s' ++ r))) as ->.
  { pose proof (scan_quote k (58 :: c :: s' ++ r) Hb Hv) as Hs.
    unfold quote in *. cbn [app] in Hs. destruct first; cbn [app]; rewrite <- app_assoc.
    - apply Token_key; [by left|done].
    - by apply Token_comma_key. }
  rewrite Hk. cbv zeta. rewrite (proj2 (Z.ltb_ge _ _)) by lia.
  rewrite (decode_same_token fuel _ (dec ObjectValue (st :: stack) ((c :: s') ++ r))) by by apply Token_colon.
  rewrite Ds; [|done|done|simpl in *; lia|lia|lia]. simpl value_end. f_equal. lia.
Qed.


(* ------------------------------------------------------------------ *)
(** ** Lemmas: objects *)

Fixpoint member_texts (first : bool) (ms : list (bytes * bytes)) : bytes :=
  match ms with
  | [] => []
  | (k, s) :: ms => (if first then [] else [44]) ++ quote k ++ 58 :: s ++ member_texts false ms
  end.

Definition insert_all (m acc : list (bytes * json)) : list (bytes * json) :=
  foldl (fun m kv => obj_insert kv.1 kv.2 m) acc m.

(** The members of an object, after its opening brace; [acc] holds those read. *)
Definition decodes_members (first : bool) (m : list (bytes * json)) (body : bytes) : Prop :=
  forall fuel st stack rest lim depth count acc,
    (2 * length body + 1 < fuel)%nat ->
    NoDup m.*1 -> Forall (fun k => obj_has k acc = false) m.*1 ->
    depth + nesting_members m <= MaxDepth lim -> count + items_members m <= MaxItems lim ->
    decode_members fuel (dec (if first then ObjectStart else ObjectComma) (st :: stack) (body ++ 125 :: rest)) lim depth count acc =
      Some (Ok (JObj (insert_all m acc), dec (value_end st) stack rest, count + items_members m)).

Lemma items_members_nonneg m : 0 <= items_members m.
Proof.
  induction m as [|kv m IH]; unfold items_members in *; simpl; [lia|]. pose proof (items_pos kv.2). lia.
Qed.

Lemma obj_has_insert k k' (v : json) m : k <> k' -> obj_has k (obj_insert k' v m) = obj_has k m.
Proof. intros H. unfold obj_has. by rewrite obj_lookup_insert_ne. Qed.

(** A member and its text: the same key, valid, and a value that reads. *)
Definition member_reads (kv : bytes * json) (ks : bytes * bytes) : Prop :=
  ks.1 = kv.1 /\ Forall is_byte kv.1 /\ ValidString kv.1 = true /\ reads kv.2 ks.2.

Lemma reads_members first m ms :
  Forall2 member_reads m ms ->
  clean false (member_texts first ms) /\ utf8_text (member_texts first ms) /\
  decodes_members first m (member_texts first ms).
Proof.
  intros Hl. revert first. induction Hl as [|[k v] [k' s] m ms (Ek & Hkb & Hkv & Hv) Hl IH]; intros first;
    cbn [member_texts].
  - split; [apply clean_nil|]. split; [by exists []|].
    intros [|fuel] st stack rest lim depth count a Hf _ _ _ _; [lia|]. cbn [decode_members app].
    destruct (Token_close (if first then ObjectStart else ObjectComma) st stack 125 rest) as [-> ->]; [by destruct first|].
    unfold items_members. simpl. rewrite Z.add_0_r. done.
  - simpl in Ek, Hkb, Hkv, Hv. subst k'. destruct (IH false) as (Cb & Ub & Db). split; [|split].
    + apply clean_app; [destruct first; [apply clean_nil|by apply clean_char]|].
      apply clean_app; [by apply clean_quote|]. apply (clean_app _ [58]); [by apply clean_char|].
      apply clean_app; [apply (text_clean _ _ Hv)|done].
    + apply utf8_text_app; [destruct first; [by exists []|by apply utf8_text_ascii, ascii_text]|].
      apply utf8_text_app; [by apply utf8_quote|]. apply (utf8_text_app [58]); [by apply utf8_text_ascii, ascii_text|].
      apply utf8_text_app; [apply (text_utf8 _ _ Hv)|done].
    + remember (member_texts false ms) as b eqn:Eb.
      intros [|fuel] st stack rest lim depth count acc Hf Hnd Hfr Hd Hi; [lia|].
      unfold nesting_members, items_members in Hd, Hi. cbn [foldr snd] in Hd, Hi.
      fold (nesting_members m) in Hd. fold (items_members m) in Hi. pose proof (items_members_nonneg m).
      rewrite !length_app, length_cons, length_app in Hf.
      rewrite fmap_cons in Hnd, Hfr. apply NoDup_cons in Hnd as [Hk Hnd]. apply Forall_cons in Hfr as [Hka Hfr].
      simpl in Hk, Hka.
      assert (delimited (b ++ 125 :: rest)) as Hdel by (subst b; by destruct ms as [|[? ?] ?]).
      assert (((if first then [] else [44]) ++ quote k ++ 58 :: s ++ b) ++ 125 :: rest =
        ((if first then [] else [44]) ++ quote k ++ 58 :: s) ++ b ++ 125 :: rest) as ->.
      { rewrite <- !app_assoc. cbn [app]. by rewrite <- !app_assoc. }
      rewrite (decode_one_member first fuel st stack k v s); [|done|done|done|done|done|lia|lia|lia].
      rewrite (Db fuel st stack rest lim depth (count + (1 + items v)) (obj_insert k v acc)); [|lia|done| |lia|lia].
      * unfold items_members. cbn [foldr snd]. do 3 f_equal. lia.
      * apply Forall_forall. intros x Hx. rewrite obj_has_insert by (intros ->; done).
        by apply (proj1 (Forall_forall _ _) Hfr).
Qed.

Lemma items_insert_all m acc :
  NoDup m.*1 -> Forall (fun k => obj_has k acc = false) m.*1 ->
  items_members (insert_all m acc) = items_members acc + items_members m /\
  nesting_members (insert_all m acc) = Z.max (nesting_members acc) (nesting_members m).
Proof.
  assert (forall l, 0 <= nesting_members l) as H0
    by (intros l; induction l as [|y l IHl]; unfold nesting_members in *; simpl; lia).
  revert acc. induction m as [|[k v] m IH]; intros acc Hnd Hfr.
  - specialize (H0 acc). unfold insert_all, items_members, nesting_members in *. simpl. lia.
  - rewrite fmap_cons in Hnd, Hfr. apply NoDup_cons in Hnd as [Hk Hnd]. apply Forall_cons in Hfr as [Hka Hfr].
    change (insert_all ((k, v) :: m) acc) with (insert_all m (obj_insert k v acc)).
    destruct (IH (obj_insert k v acc)) as [-> ->]; [done| |].
    + apply Forall_forall. intros x Hx. rewrite obj_has_insert by (intros ->; done).
      by apply (proj1 (Forall_forall _ _) Hfr).
    + rewrite items_members_insert, nesting_members_insert_fresh by done.
      unfold items_members, nesting_members. cbn [foldr snd]. lia.
Qed.

Lemma reads_obj m ms :
  Forall2 member_reads m ms -> NoDup m.*1 -> reads (JObj (obj_of_list m)) (123 :: member_texts true ms ++ [125]).
Proof.
  intros Hl Hnd. destruct (reads_members true m ms Hl) as (Cb & Ub & Db). remember (member_texts true ms) as body.
  assert (Forall (fun k => obj_has k ([] : list (bytes * json)) = false) m.*1) as Hfr by (apply Forall_forall; done).
  destruct (items_insert_all m [] Hnd Hfr) as [Hit Hne]. change (items_members []) with 0 in Hit.
  change (nesting_members []) with 0 in Hne.
  assert (0 <= nesting_members m) by (clear; induction m as [|y l IHl]; unfold nesting_members in *; simpl; lia).
  split.
  - by exists 123, (body ++ [125]).
  - apply (clean_app _ [123]); [by apply clean_char|]. apply clean_app; [done|by apply clean_char].
  - apply (utf8_text_app [123]); [by apply utf8_text_ascii, ascii_text|].
    apply utf8_text_app; [done|by apply utf8_text_ascii, ascii_text].
  - intros [|fuel] st stack rest lim depth count Ha Hr Hf Hd Hi; [lia|].
    cbn [decodeJSONValue]. cbv zeta. rewrite (within_limits (JObj (obj_of_list m))) by done.
    cbn [app]. rewrite (Token_open st stack 123) by auto. change (123 =? 123) with true. change (123 =? 91) with false.
    cbv iota. rewrite <- app_assoc. cbn [app].
    change (nesting (JObj (obj_of_list m))) with (1 + nesting_members (insert_all m [])) in Hd.
    change (items (JObj (obj_of_list m))) with (1 + items_members (insert_all m [])) in *.
    rewrite (Db fuel st stack rest lim depth (count + 1) []);
      [|simpl in Hf; rewrite length_app in Hf; simpl in Hf; lia|done|done|lia|lia].
    rewrite Hit. do 3 f_equal. lia.
Qed.

(* ------------------------------------------------------------------ *)
(** ** Lemmas: the encoder and the canonical writer *)

Lemma encode_items_texts first ss : encode_items first (map Ok ss) = Ok (item_texts first ss).
Proof. revert first. induction ss as [|s ss IH]; intros first; [done|]. simpl. by rewrite IH. Qed.

Lemma encode_members_texts first ms :
  encode_members first (map (fun ks => (ks.1, Ok ks.2)) ms) = Ok (member_texts first ms).
Proof. revert first. induction ms as [|[k s] ms IH]; intros first; [done|]. simpl. by rewrite IH. Qed.

Lemma normal_keys m : (map (fun kv : bytes * json => (kv.1, normal kv.2)) m).*1 = m.*1.
Proof. induction m as [|[k v] m IH]; [done|]. cbn [map]. rewrite !fmap_cons. by rewrite IH. Qed.

(** The encoder succeeds on an encodable value and its text reads as that value. *)
Lemma encode_reads v : encodable v -> exists s, encode_json v = Ok s /\ reads (normal v) s.
Proof.
  induction v as [|b|s|n|t|f|l IH|m IH] using json_ind; intros Hp; inversion Hp as [| | | |? Hl Hf Hpf|? Hal|? Hnd Hk Ham]; subst.
  - eexists; split; [done|apply text_null].
  - eexists; split; [done|apply text_bool].
  - eexists; split; [done|by apply text_str].
  - eexists; split; [done|by apply text_int].
  - exists t. split; [cbn; unfold encode_number; by rewrite Hl|by apply text_number].
  - assert (exists ss, map encode_json l = map Ok ss /\ Forall2 reads (map normal l) ss) as (ss & E & Hss).
    { clear Hp. induction IH as [|x l Hx Hl IH]; [by exists []|]. apply Forall_cons in Hal as [Hx' Hal].
      destruct (Hx Hx') as (s & Es & Hs). destruct (IH Hal) as (ss & E & Hss). exists (s :: ss).
      simpl. rewrite Es, E. split; [done|by constructor]. }
    exists (91 :: item_texts true ss ++ [93]). cbn [encode_json normal]. rewrite E, encode_items_texts.
    split; [done|by apply reads_arr].
  - assert (exists ms, map (fun kv => (kv.1, encode_json kv.2)) m = map (fun ks => (ks.1, Ok ks.2)) ms /\
      Forall2 member_reads (map (fun kv => (kv.1, normal kv.2)) m) ms) as (ms & E & Hms).
    { clear Hp Hnd. induction IH as [|[k x] m Hx Hm IH]; [by exists []|].
      apply Forall_cons in Ham as [Hx' Ham]. rewrite fmap_cons in Hk. apply Forall_cons in Hk as [[Hkb Hkv] Hk].
      destruct (Hx Hx') as (s & Es & Hs). destruct (IH Hk Ham) as (ms & E & Hms). exists ((k, s) :: ms).
      simpl in *. rewrite Es, E. split; [done|by constructor]. }
    exists (123 :: member_texts true ms ++ [125]). cbn [encode_json normal]. rewrite E, encode_members_texts.
    split; [done|]. apply reads_obj; [done|by rewrite normal_keys].
Qed.

Lemma sorted_nodup (m : list (bytes * json)) : obj_sorted m -> NoDup m.*1.
Proof.
  unfold obj_sorted. induction m as [|[k v] m IH]; [constructor|]. cbn. intros H.
  inversion_clear H as [|? ? Hs Hf]. constructor; [|by apply IH]. intros Hk.
  apply (proj1 (Forall_forall _ _) Hf) in Hk. by apply bytes_lt_neq in Hk.
Qed.

Lemma insert_all_sorted m acc : obj_sorted (acc ++ m) -> insert_all m acc = acc ++ m.
Proof.
  revert acc. induction m as [|[k v] m IH]; intros acc Hs; [by rewrite app_nil_r|].
  change (insert_all ((k, v) :: m) acc) with (insert_all m (obj_insert k v acc)).
  rewrite obj_insert_last.
  - rewrite IH; rewrite <- app_assoc; done.
  - unfold obj_sorted in Hs. rewrite fmap_app in Hs. apply Forall_forall. intros x Hx.
    induction acc as [|[k' v'] acc IHa]; [by apply elem_of_nil in Hx|]. cbn in Hs, Hx.
    inversion_clear Hs as [|? ? Hs' Hf]. apply elem_of_cons in Hx as [->|Hx]; [|by apply IHa].
    apply Forall_app in Hf as [_ Hf]. by apply Forall_cons in Hf as [Hf _].
Qed.

(** On a plain value the canonical writer is the encoder, and the value is in order. *)
Lemma plain_encodable v : plain v -> encodable v /\ normal v = v /\ writeCanonical v = encode_json v.
Proof.
  induction v as [|b|s|n|t|f|l IH|m IH] using json_ind; intros Hp; inversion Hp as [| | | |? Hal|? Hs Hk Ham]; subst.
  - repeat split; constructor.
  - repeat split; constructor.
  - repeat split; [by constructor|]. cbn. unfold write_string. by match goal with H : ValidString s = true |- _ => rewrite H end.
  - repeat split; by constructor.
  - assert (Forall (fun v => encodable v /\ normal v = v /\ writeCanonical v = encode_json v) l) as H.
    { rewrite Forall_forall in *. auto. }
    clear IH Hal Hp. split; [apply enc_arr; eapply Forall_impl; [exact H|]; by intros x (? & _)|].
    cbn [normal writeCanonical encode_json].
    assert (map normal l = l /\ map writeCanonical l = map encode_json l) as [-> ->].
    { induction H as [|x l (_ & Hx1 & Hx2) Hl [IH1 IH2]]; [done|]. simpl. by rewrite Hx1, Hx2, IH1, IH2. }
    done.
  - assert (Forall (fun kv => encodable kv.2 /\ normal kv.2 = kv.2 /\ writeCanonical kv.2 = encode_json kv.2) m) as H.
    { rewrite Forall_forall in IH. rewrite Forall_forall in Ham. rewrite Forall_forall. auto. }
    clear IH Ham Hp. split; [apply enc_obj; [by apply sorted_nodup|done|eapply Forall_impl; [exact H|]; by intros x (? & _)]|].
    cbn [normal writeCanonical encode_json].
    assert (map (fun kv => (kv.1, normal kv.2)) m = m /\
      map (fun kv => (kv.1, writeCanonical kv.2)) m = map (fun kv => (kv.1, encode_json kv.2)) m) as [-> ->].
    { clear Hs Hk. induction H as [|[k x] m (_ & Hx1 & Hx2) Hl [IH1 IH2]]; [done|]. simpl in *.
      by rewrite Hx1, Hx2, IH1, IH2. }
    split; [f_equal; by apply (insert_all_sorted m [])|]. clear H Hs. f_equal.
    assert (forall first, join_members first (map (fun kv => (kv.1, encode_json kv.2)) m) =
      encode_members first (map (fun kv => (kv.1, encode_json kv.2)) m)) as H; [|by rewrite H].
    induction m as [|[k x] m IH]; intros first; [done|]. rewrite fmap_cons in Hk. apply Forall_cons in Hk as [[_ Hkv] Hk].
    cbn [map join_members encode_members fst snd] in *. unfold write_string. rewrite Hkv. simpl negb. cbv iota.
    cbn [result_bind]. by rewrite IH.
Qed.

Lemma plain_text v : plain v -> exists s, writeCanonical v = Ok s /\ reads v s.
Proof.
  intros Hp. destruct (plain_encodable v Hp) as (He & Hn & Hw).
  destruct (encode_reads v He) as (s & Es & Hs). exists s. rewrite Hw. by rewrite Hn in Hs.
Qed.

Lemma decode_reads v s limits :
  reads v s -> Z.of_nat (length s) <= MaxBytes limits ->
  nesting v <= MaxDepth limits -> items v <= MaxItems limits -> DecodeJSON s limits = Some (Ok v).
Proof.
  intros [(c & s' & Es & Ho) Hc Hu Hd] Hb Hn Hi. unfold DecodeJSON.
  pose proof (nesting_pos v). pose proof (items_pos v).
  assert (0 < Z.of_nat (length s)) by (rewrite Es; simpl; lia).
  rewrite !(proj2 (Z.leb_gt _ 0)) by lia. simpl orb. cbv iota. rewrite (proj2 (Z.ltb_ge _ _)) by lia.
  destruct Hu as (rs & Hrs & Eu). assert (ValidString s = true) as -> by (rewrite Eu; by apply ValidString_encoded).
  simpl negb. cbv iota. assert (validateJSONUnicode s = Ok tt) as ->.
  { specialize (Hc []). rewrite app_nil_r in Hc. exact Hc. }
  specialize (Hd (decode_fuel s) TopValue [] [] limits 1 0). rewrite app_nil_r in Hd. unfold NewDecoder.
  rewrite Hd; [done|done|done|unfold decode_fuel; lia|lia|lia].
Qed.

(* ------------------------------------------------------------------ *)
(** ** Properties *)

(** C31: canonical text is a faithful image of a plain value, one of null, booleans, valid
    UTF-8 strings, [int64] integers, arrays and objects in key order, without floating-point
    numbers and without [json.Number]: it is printed without error and the bounded decoder
    reads the text back to that very value, whenever the limits admit the size of the text
    and the nesting and number of values. *)
Theorem canonical_roundtrip v :
  plain v ->
  exists s, CanonicalJSON v = Ok s /\
    forall limits, Z.of_nat (length s) <= MaxBytes limits -> nesting v <= MaxDepth limits ->
      items v <= MaxItems limits -> DecodeJSON s limits = Some (Ok v).
Proof.
  intros Hp. destruct (plain_text v Hp) as (s & Ew & Hs). exists s. split; [done|].
  intros limits. by apply decode_reads.
Qed.

Lemma canonical_roundtrip_witness :
  exists s, CanonicalJSON (JObj [([97], JArr [JInt (-7); JStr ([120; 92; 121])]); ([98], JNull)]) = Ok s /\
    forall limits, Z.of_nat (length s) <= MaxBytes limits ->
      nesting (JObj [([97], JArr [JInt (-7); JStr ([120; 92; 121])]); ([98], JNull)]) <= MaxDepth limits ->
      items (JObj [([97], JArr [JInt (-7); JStr ([120; 92; 121])]); ([98], JNull)]) <= MaxItems limits ->
      DecodeJSON s limits = Some (Ok (JObj [([97], JArr [JInt (-7); JStr ([120; 92; 121])]); ([98], JNull)])).
Proof.
  apply canonical_roundtrip. apply plain_obj.
  - repeat constructor.
  - simpl. repeat (apply Forall_cons_2; [split; [all_bytes|reflexivity]|]); apply Forall_nil_2.
  - apply Forall_cons_2; [|apply Forall_cons_2; [apply plain_null|apply Forall_nil_2]].
    apply plain_arr. apply Forall_cons_2; [apply plain_int; vm_compute; split; discriminate|].
    apply Forall_cons_2; [apply plain_str; [all_bytes|reflexivity]|apply Forall_nil_2].
Defined.

(** canonical text identifies the value: two such values with the same text are
    equal, so a digest of the text is a digest of the value. *)
Theorem canonical_injective v w :
  plain v -> plain w -> (CanonicalJSON v = CanonicalJSON w <-> v = w).
Proof.
  intros Hv Hw. split; [|by intros ->]. intros E. destruct (plain_text v Hv) as (s & Es & Hs), (plain_text w Hw) as (t & Et & Ht).
  unfold CanonicalJSON in E. rewrite Es, Et in E. injection E as ->.
  set (l := {| MaxBytes := Z.of_nat (length t); MaxDepth := Z.max (nesting v) (nesting w);
    MaxItems := Z.max (items v) (items w); MaxFileBytes := 0; MaxTotalFileBytes := 0; MaxFiles := 0 |}).
  pose proof (decode_reads v t l Hs ltac:(simpl; lia) ltac:(simpl; lia) ltac:(simpl; lia)).
  pose proof (decode_reads w t l Ht ltac:(simpl; lia) ltac:(simpl; lia) ltac:(simpl; lia)). congruence.
Qed.

Lemma canonical_injective_witness :
  CanonicalJSON (JArr [JInt 1; JBool true]) = CanonicalJSON (JArr [JStr [49]; JBool true]) <->
  JArr [JInt 1; JBool true] = JArr [JStr [49]; JBool true].
Proof.
  apply canonical_injective; apply plain_arr; apply Forall_cons_2.
  - apply plain_int. vm_compute. split; discriminate.
  - apply Forall_cons_2; [apply plain_bool|apply Forall_nil_2].
  - apply plain_str; [all_bytes|reflexivity].
  - apply Forall_cons_2; [apply plain_bool|apply Forall_nil_2].
Defined.

