(* ===== verification/Protocol.v ===== *)
(** * The transfer protocol's frames ([protocol/transfer.go])
    The frame record, its fixed table of fields, the identifier and chunk checks, and
    the JSON form in both directions. [json.Unmarshal] into the frame is applied to
    text the bounded decoder has accepted, so it is modelled on the decoded value: a
    string field takes a string, a count an [int64], a time an RFC 3339 string, and
    [null] leaves the zero value. *)
From Stdlib Require Import ZArith Lia.
From stdpp Require Import base list option strings.
From S2P Require Import Prelude Utf8 Base64 Strconv GoDate Json JsonText Canonical JsonReads.
Local Open Scope Z_scope.

Definition ChunkBytes : Z := Z.shiftl 64 10.
Definition TransferWindow : Z := 4.
Definition ConnectionWindow : Z := 32.
Definition ManagementBytes : Z := Z.shiftl 1 20.
Definition CommitBytes : Z := Z.shiftl 16 20.

Record FileBinding := { fb_pointer : bytes; fb_file_id : bytes }.

(** [Params] and [Files] are nil-able: [None] is nil. *)
Record Frame := {
  Type_ : bytes; ID : bytes; TransferID : bytes; Capability : bytes; CallerBinding : bytes;
  DefinitionHash : bytes; InputDeadline : Time; Pointer : bytes; Name : bytes; MIMEType : bytes;
  FileID : bytes; Sequence : Z; DataBase64 : bytes; Size : Z; SizeBytes : Z; SHA256 : bytes;
  Params : option (list (bytes * json)); Files : option (list FileBinding)
}.

Definition zero_time : Time := {| instant := 0; zone := 0 |}.
Definition zero_frame : Frame :=
  {| Type_ := []; ID := []; TransferID := []; Capability := []; CallerBinding := [];
     DefinitionHash := []; InputDeadline := zero_time; Pointer := []; Name := []; MIMEType := [];
     FileID := []; Sequence := 0; DataBase64 := []; Size := 0; SizeBytes := 0; SHA256 := [];
     Params := None; Files := None |}.

(** The field table: each kind with its field names. *)
Definition fields : list (bytes * list bytes) :=
  [(lit "request_begin", lit <$> ["id"; "capability"; "caller_binding"; "definition_hash"; "input_deadline"]);
   (lit "request_accept", lit <$> ["id"]);
   (lit "input_open", lit <$> ["id"; "transfer_id"; "pointer"; "name"; "mime_type"]);
   (lit "input_accept", lit <$> ["id"; "transfer_id"]);
   (lit "input_ready", lit <$> ["id"; "transfer_id"; "file_id"; "size_bytes"; "sha256"]);
   (lit "request_commit", lit <$> ["id"; "params"; "files"]);
   (lit "transfer_open", lit <$> ["id"; "transfer_id"; "file_id"]);
   (lit "transfer_chunk", lit <$> ["id"; "transfer_id"; "sequence"; "data_base64"]);
   (lit "transfer_end", lit <$> ["id"; "transfer_id"; "size"; "sha256"]);
   (lit "transfer_cancel", lit <$> ["id"; "transfer_id"]);
   (lit "ack", lit <$> ["transfer_id"; "sequence"])].
Definition fields_of (kind : bytes) : option (list bytes) := obj_lookup kind fields.

Definition IsTransferType (kind : bytes) : bool :=
  match fields_of kind with Some _ => true | None => false end.

Definition ValidID (id : bytes) : bool :=
  negb (bytes_eqb id []) && (Z.of_nat (length id) <=? 256) && ValidString id && negb (ContainsRune id 0).

Definition FrameLimit (kind : bytes) : Z :=
  if bytes_eqb kind (lit "request_commit") then CommitBytes else ManagementBytes.

(** [Chunk]: the bytes of a chunk frame. *)
Definition Chunk (f : Frame) : result bytes :=
  if EncodedLen ChunkBytes <? Z.of_nat (length (DataBase64 f)) then Err "chunk too large" else
  match DecodeString (DataBase64 f) with
  | None => Err "invalid chunk"
  | Some b =>
      if (Z.of_nat (length b) =? 0) || (ChunkBytes <? Z.of_nat (length b)) ||
         negb (bytes_eqb (EncodeToString b) (DataBase64 f))
      then Err "invalid chunk" else Ok b
  end.

(* ------------------------------------------------------------------ *)
(** ** Writing *)

Definition binding_json (b : FileBinding) : json :=
  JObj [(lit "pointer", JStr (fb_pointer b)); (lit "file_id", JStr (fb_file_id b))].

(** The value of a field; a time is written by its own marshaller. *)
Definition field_value (f : Frame) (key : bytes) : result json :=
  if bytes_eqb key (lit "id") then Ok (JStr (ID f))
  else if bytes_eqb key (lit "transfer_id") then Ok (JStr (TransferID f))
  else if bytes_eqb key (lit "capability") then Ok (JStr (Capability f))
  else if bytes_eqb key (lit "caller_binding") then Ok (JStr (CallerBinding f))
  else if bytes_eqb key (lit "definition_hash") then Ok (JStr (DefinitionHash f))
  else if bytes_eqb key (lit "input_deadline") then let* t := MarshalTime (InputDeadline f) in Ok (JStr t)
  else if bytes_eqb key (lit "pointer") then Ok (JStr (Pointer f))
  else if bytes_eqb key (lit "name") then Ok (JStr (Name f))
  else if bytes_eqb key (lit "mime_type") then Ok (JStr (MIMEType f))
  else if bytes_eqb key (lit "file_id") then Ok (JStr (FileID f))
  else if bytes_eqb key (lit "sequence") then Ok (JInt (Sequence f))
  else if bytes_eqb key (lit "data_base64") then Ok (JStr (DataBase64 f))
  else if bytes_eqb key (lit "size") then Ok (JInt (Size f))
  else if bytes_eqb key (lit "size_bytes") then Ok (JInt (SizeBytes f))
  else if bytes_eqb key (lit "sha256") then Ok (JStr (SHA256 f))
  else if bytes_eqb key (lit "params") then Ok (match Params f with Some m => JObj m | None => JNull end)
  else if bytes_eqb key (lit "files") then
    Ok (match Files f with Some l => JArr (binding_json <$> l) | None => JNull end)
  else Ok JNull.

Fixpoint fill_fields (f : Frame) (keys : list bytes) (m : list (bytes * json)) : result (list (bytes * json)) :=
  match keys with
  | [] => Ok m
  | k :: keys => let* v := field_value f k in fill_fields f keys (obj_insert k v m)
  end.

Definition frame_object (f : Frame) : result (list (bytes * json)) :=
  match fields_of (Type_ f) with
  | None => Err "unsupported transfer frame"
  | Some names => fill_fields f names [(lit "type", JStr (Type_ f))]
  end.

Definition MarshalJSON (f : Frame) : result bytes :=
  let* m := frame_object f in encode_json (JObj m).

(* ------------------------------------------------------------------ *)
(** ** Reading *)

Definition string_field (m : list (bytes * json)) (k : bytes) : result bytes :=
  match obj_lookup k m with
  | None | Some JNull => Ok []
  | Some (JStr s) => Ok s
  | Some _ => Err "json: cannot unmarshal into string"
  end.
Definition int_field (m : list (bytes * json)) (k : bytes) : result Z :=
  match obj_lookup k m with
  | None | Some JNull => Ok 0
  | Some (JInt n) => Ok n
  | Some _ => Err "json: cannot unmarshal into int64"
  end.
Definition time_field (m : list (bytes * json)) (k : bytes) : result Time :=
  match obj_lookup k m with
  | None | Some JNull => Ok zero_time
  | Some (JStr s) => match UnmarshalTime s with Some t => Ok t | None => Err "parsing time" end
  | Some _ => Err "Time.UnmarshalJSON"
  end.
Definition params_field (m : list (bytes * json)) : result (option (list (bytes * json))) :=
  match obj_lookup (lit "params") m with
  | None | Some JNull => Ok None
  | Some (JObj p) => Ok (Some p)
  | Some _ => Err "json: cannot unmarshal into map"
  end.

(** [json.Unmarshal] matches the names of a file binding without regard to case. *)
Definition ascii_lower (s : bytes) : bytes := (fun c => if (65 <=? c) && (c <=? 90) then c + 32 else c) <$> s.
Fixpoint binding_members (b : FileBinding) (m : list (bytes * json)) : result FileBinding :=
  match m with
  | [] => Ok b
  | (k, v) :: m =>
      let isp := bytes_eqb (ascii_lower k) (lit "pointer") in
      let isf := bytes_eqb (ascii_lower k) (lit "file_id") in
      if isp || isf then
        match v with
        | JNull => binding_members b m
        | JStr s => binding_members (if isp then {| fb_pointer := s; fb_file_id := fb_file_id b |}
                                     else {| fb_pointer := fb_pointer b; fb_file_id := s |}) m
        | _ => Err "json: cannot unmarshal into string"
        end
      else binding_members b m
  end.
Definition binding_field (v : json) : result FileBinding :=
  match v with
  | JNull => Ok {| fb_pointer := []; fb_file_id := [] |}
  | JObj m => binding_members {| fb_pointer := []; fb_file_id := [] |} m
  | _ => Err "json: cannot unmarshal into FileBinding"
  end.
Fixpoint bindings (l : list json) : result (list FileBinding) :=
  match l with
  | [] => Ok []
  | v :: l => let* b := binding_field v in let* r := bindings l in Ok (b :: r)
  end.
Definition files_field (m : list (bytes * json)) : result (option (list FileBinding)) :=
  match obj_lookup (lit "files") m with
  | None | Some JNull => Ok None
  | Some (JArr l) => let* r := bindings l in Ok (Some r)
  | Some _ => Err "json: cannot unmarshal into []FileBinding"
  end.

Definition unmarshal_frame (m : list (bytes * json)) : result Frame :=
  let* ty := string_field m (lit "type") in
  let* id := string_field m (lit "id") in
  let* tid := string_field m (lit "transfer_id") in
  let* cap := string_field m (lit "capability") in
  let* cb := string_field m (lit "caller_binding") in
  let* dh := string_field m (lit "definition_hash") in
  let* dl := time_field m (lit "input_deadline") in
  let* pt := string_field m (lit "pointer") in
  let* nm := string_field m (lit "name") in
  let* mt := string_field m (lit "mime_type") in
  let* fid := string_field m (lit "file_id") in
  let* sq := int_field m (lit "sequence") in
  let* da := string_field m (lit "data_base64") in
  let* sz := int_field m (lit "size") in
  let* sb := int_field m (lit "size_bytes") in
  let* sh := string_field m (lit "sha256") in
  let* pa := params_field m in
  let* fi := files_field m in
  Ok {| Type_ := ty; ID := id; TransferID := tid; Capability := cap; CallerBinding := cb;
        DefinitionHash := dh; InputDeadline := dl; Pointer := pt; Name := nm; MIMEType := mt;
        FileID := fid; Sequence := sq; DataBase64 := da; Size := sz; SizeBytes := sb; SHA256 := sh;
        Params := pa; Files := fi |}.

(** The decoder's reading of [type] before the limit is known. A text whose keys are
    repeated or differ from [type] in case is refused by what follows, whatever the limit. *)
Definition peek_limits : Limits :=
  {| MaxBytes := int64_max; MaxDepth := int64_max; MaxItems := int64_max;
     MaxFileBytes := 0; MaxTotalFileBytes := 0; MaxFiles := 0 |}.
Definition peek_type (raw : bytes) : bytes :=
  match DecodeJSON raw peek_limits with
  | Some (Ok (JObj m)) => match obj_lookup (lit "type") m with Some (JStr s) => s | _ => [] end
  | _ => []
  end.

(** A file binding of the commit's text has exactly its two fields. *)
Definition binding_exact (v : json) : bool :=
  match v with
  | JObj b =>
      (length b =? 2)%nat &&
      match obj_lookup (lit "pointer") b with None | Some JNull => false | _ => true end &&
      match obj_lookup (lit "file_id") b with None | Some JNull => false | _ => true end
  | _ => false
  end.

(** The checks on a typed frame, by kind. *)
Definition check_commit (m : list (bytes * json)) (f : Frame) : result Frame :=
  match obj_lookup (lit "params") m, Files f with
  | Some (JObj params), Some files =>
      match obj_lookup (lit "files") m with
      | Some (JArr l) =>
          if negb (forallb binding_exact l) then Err "invalid file binding fields" else
          if negb (forallb (fun b => ValidID (fb_file_id b) && (Z.of_nat (length (fb_pointer b)) <=? 4096)) files)
          then Err "invalid file binding" else
          Ok {| Type_ := Type_ f; ID := ID f; TransferID := TransferID f; Capability := Capability f;
                CallerBinding := CallerBinding f; DefinitionHash := DefinitionHash f;
                InputDeadline := InputDeadline f; Pointer := Pointer f; Name := Name f; MIMEType := MIMEType f;
                FileID := FileID f; Sequence := Sequence f; DataBase64 := DataBase64 f; Size := Size f;
                SizeBytes := SizeBytes f; SHA256 := SHA256 f; Params := Some params; Files := Files f |}
      | _ => Err "panic: files is not an array"
      end
  | _, _ => Err "invalid commit"
  end.

Definition check_frame (kind : bytes) (names : list bytes) (m : list (bytes * json)) (f : Frame) : result Frame :=
  if (negb (bytes_eqb kind (lit "ack")) && negb (ValidID (ID f))) ||
     (bool_decide (lit "transfer_id" ∈ names) && negb (ValidID (TransferID f)))
  then Err "invalid transfer identity" else
  if (Sequence f <? 0) || (Size f <? 0) || (SizeBytes f <? 0) then Err "invalid transfer count" else
  let* f := (if bytes_eqb kind (lit "request_commit") then check_commit m f else Ok f) in
  if bytes_eqb kind (lit "request_begin") &&
     (negb (ValidID (CallerBinding f)) || negb (ValidID (Capability f)) || negb (ValidID (DefinitionHash f)) ||
      IsZero (InputDeadline f))
  then Err "invalid begin" else
  if bytes_eqb kind (lit "input_open") &&
     ((4096 <? Z.of_nat (length (Pointer f))) || (255 <? Z.of_nat (length (Name f))) || (255 <? Z.of_nat (length (MIMEType f))))
  then Err "invalid input metadata" else
  if bytes_eqb kind (lit "transfer_chunk") then let* _ := Chunk f in Ok f else Ok f.

Definition decode_object (m : list (bytes * json)) : result Frame :=
  let kind := match obj_lookup (lit "type") m with Some (JStr s) => s | _ => [] end in
  match fields_of kind with
  | None => Err "unsupported transfer frame"
  | Some names =>
      if negb (forallb (fun k => obj_has k m) names) then Err "incomplete transfer frame" else
      if negb (forallb (fun kv => bool_decide (kv.1 ∈ lit "type" :: names)) m) then Err "unexpected transfer field" else
      let* f := unmarshal_frame m in
      check_frame kind names m f
  end.

Definition DecodeFrame (raw : bytes) (logical : option Limits) : result Frame :=
  match DecodeWireJSON raw (FrameLimit (peek_type raw)) logical with
  | None => Err "out of fuel"
  | Some (Err e) => Err e
  | Some (Ok (JObj m)) => decode_object m
  | Some (Ok _) => Err "invalid transfer frame"
  end.

(* ------------------------------------------------------------------ *)
(** ** Frames the protocol sends *)

Definition text_ok (s : bytes) : Prop := Forall is_byte s /\ ValidString s = true.

(** The frame with every field outside its kind's table at its zero value. *)
Definition keep {A} (names : list bytes) (k : string) (x z : A) : A :=
  if bool_decide (lit k ∈ names) then x else z.
Definition only_fields (names : list bytes) (f : Frame) : Frame :=
  {| Type_ := Type_ f; ID := keep names "id" (ID f) []; TransferID := keep names "transfer_id" (TransferID f) [];
     Capability := keep names "capability" (Capability f) [];
     CallerBinding := keep names "caller_binding" (CallerBinding f) [];
     DefinitionHash := keep names "definition_hash" (DefinitionHash f) [];
     InputDeadline := keep names "input_deadline" (InputDeadline f) zero_time;
     Pointer := keep names "pointer" (Pointer f) []; Name := keep names "name" (Name f) [];
     MIMEType := keep names "mime_type" (MIMEType f) []; FileID := keep names "file_id" (FileID f) [];
     Sequence := keep names "sequence" (Sequence f) 0; DataBase64 := keep names "data_base64" (DataBase64 f) [];
     Size := keep names "size" (Size f) 0; SizeBytes := keep names "size_bytes" (SizeBytes f) 0;
     SHA256 := keep names "sha256" (SHA256 f) []; Params := keep names "params" (Params f) None;
     Files := keep names "files" (Files f) None |}.

(** The strings of a frame are text, its counts are counts, and a commit's parameters
    are a value the encoder writes, in key order. *)
Record frame_data (f : Frame) : Prop := {
  data_strings : Forall text_ok [Type_ f; ID f; TransferID f; Capability f; CallerBinding f; DefinitionHash f;
    Pointer f; Name f; MIMEType f; FileID f; DataBase64 f; SHA256 f];
  data_counts : 0 <= Sequence f <= int64_max /\ 0 <= Size f <= int64_max /\ 0 <= SizeBytes f <= int64_max;
  data_params : forall p, Params f = Some p -> encodable (JObj p) /\ normal (JObj p) = JObj p;
  data_files : forall l b, Files f = Some l -> b ∈ l -> text_ok (fb_pointer b) /\ text_ok (fb_file_id b)
}.

(** The identities and bounds [DecodeFrame] asks of each kind. *)
Record frame_valid (names : list bytes) (f : Frame) : Prop := {
  valid_id : Type_ f <> lit "ack" -> ValidID (ID f) = true;
  valid_transfer : lit "transfer_id" ∈ names -> ValidID (TransferID f) = true;
  valid_commit : Type_ f = lit "request_commit" -> exists p l, Params f = Some p /\ Files f = Some l /\
    Forall (fun b => ValidID (fb_file_id b) = true /\ Z.of_nat (length (fb_pointer b)) <= 4096) l;
  valid_begin : Type_ f = lit "request_begin" ->
    ValidID (CallerBinding f) = true /\ ValidID (Capability f) = true /\ ValidID (DefinitionHash f) = true /\
    IsZero (InputDeadline f) = false /\ is_ok (MarshalTime (InputDeadline f)) = true;
  valid_open : Type_ f = lit "input_open" ->
    Z.of_nat (length (Pointer f)) <= 4096 /\ Z.of_nat (length (Name f)) <= 255 /\ Z.of_nat (length (MIMEType f)) <= 255;
  valid_chunk : Type_ f = lit "transfer_chunk" -> exists b,
    Forall is_byte b /\ 0 < Z.of_nat (length b) <= ChunkBytes /\ DataBase64 f = EncodeToString b
}.

(** An acknowledgement and its text. *)
Definition example_ack : Frame :=
  {| Type_ := lit "ack"; ID := []; TransferID := [116; 49]; Capability := []; CallerBinding := [];
     DefinitionHash := []; InputDeadline := zero_time; Pointer := []; Name := []; MIMEType := [];
     FileID := []; Sequence := 3; DataBase64 := []; Size := 0; SizeBytes := 0; SHA256 := [];
     Params := None; Files := None |}.
Definition example_text : bytes :=
  lit "{" ++ [34] ++ lit "sequence" ++ [34] ++ lit ":3," ++ [34] ++ lit "transfer_id" ++
  [34; 58; 34; 116; 49; 34; 44; 34] ++ lit "type" ++ [34; 58; 34] ++ lit "ack" ++ [34] ++ lit "}".

(* ------------------------------------------------------------------ *)
(** ** Lemmas: chunks *)

Lemma Chunk_encoded f b :
  Forall is_byte b -> 0 < Z.of_nat (length b) <= ChunkBytes -> DataBase64 f = EncodeToString b -> Chunk f = Ok b.
Proof.
  intros Hb Hl E. unfold Chunk. rewrite E, length_EncodeToString.
  rewrite (proj2 (Z.ltb_ge _ _)) by (apply EncodedLen_mono; lia).
  rewrite DecodeString_encode by done.
  rewrite (proj2 (Z.eqb_neq _ 0)), (proj2 (Z.ltb_ge _ _)) by lia. unfold bytes_eqb.
  by rewrite bool_decide_true.
Qed.

Lemma Chunk_Ok f b :
  Chunk f = Ok b -> 0 < Z.of_nat (length b) <= ChunkBytes /\ DataBase64 f = EncodeToString b.
Proof.
  unfold Chunk. destruct (_ <? _); [done|]. destruct (DecodeString (DataBase64 f)) as [c|]; [|done].
  destruct (_ || _) eqn:E; [done|]. intros [= ->]. apply orb_false_iff in E as [E E3].
  apply orb_false_iff in E as [E1 E2]. breflect. unfold bytes_eqb in E3. apply bool_decide_eq_true in E3. split; [lia|done].
Qed.

(* ------------------------------------------------------------------ *)
(** ** Lemmas: the object of a frame *)

Lemma fill_fields_sorted f keys m m' : obj_sorted m -> fill_fields f keys m = Ok m' -> obj_sorted m'.
Proof.
  revert m. induction keys as [|k keys IH]; intros m Hs; cbn [fill_fields]; [by intros [= <-]|].
  destruct (field_value f k); [|done]. cbn [result_bind]. apply IH. by apply obj_insert_sorted.
Qed.

Lemma fill_fields_lookup f keys m m' k :
  NoDup keys -> fill_fields f keys m = Ok m' ->
  obj_lookup k m' = if bool_decide (k ∈ keys) then match field_value f k with Ok v => Some v | Err _ => None end
                    else obj_lookup k m.
Proof.
  revert m. induction keys as [|k0 keys IH]; intros m Hnd; cbn [fill_fields].
  - intros [= <-]. by rewrite bool_decide_false by apply not_elem_of_nil.
  - apply NoDup_cons in Hnd as [Hk Hnd]. destruct (field_value f k0) as [v|] eqn:Ev; [|done]. cbn [result_bind].
    intros H. rewrite (IH _ Hnd H). destruct (decide (k = k0)) as [->|Hne].
    + rewrite (bool_decide_false (k0 ∈ keys)), (bool_decide_true (k0 ∈ k0 :: keys)) by (done || by left).
      by rewrite obj_lookup_insert, Ev.
    + rewrite obj_lookup_insert_ne by done. destruct (decide (k ∈ keys)) as [Hin|Hin].
      * by rewrite !bool_decide_true by (by right || done).
      * rewrite !bool_decide_false; [done| |done]. intros [?|?]%elem_of_cons; done.
Qed.

Lemma fill_fields_total f keys m :
  Forall (fun k => is_ok (field_value f k) = true) keys -> exists m', fill_fields f keys m = Ok m'.
Proof.
  intros H. revert m. induction H as [|k keys Hk Hks IH]; intros m; cbn [fill_fields]; [by eexists|].
  destruct (field_value f k); [|done]. apply IH.
Qed.

(** Reading a string, a count or the time of the object a frame was written to. *)
Lemma obj_lookup_map (g : json -> json) k m :
  obj_lookup k (map (fun kv => (kv.1, g kv.2)) m) = g <$> obj_lookup k m.
Proof. induction m as [|[k' v] m IH]; [done|]. simpl. destruct (bytes_eqb k k'); done. Qed.

(** Facts of the field table, by evaluation. *)
Definition table_entry_ok (kn : bytes * list bytes) : bool :=
  bool_decide (NoDup kn.2) && bool_decide (lit "type" ∉ kn.2) &&
  (bytes_eqb kn.1 (lit "ack") || bool_decide (lit "id" ∈ kn.2)) &&
  forallb (fun k => forallb (fun c => (0 <=? c) && (c <? 128)) k) kn.2 &&
  forallb (fun c => (0 <=? c) && (c <? 128)) kn.1.

Lemma table_ok kind names : fields_of kind = Some names -> table_entry_ok (kind, names) = true.
Proof.
  intros H. apply obj_lookup_Some in H.
  assert (forallb table_entry_ok fields = true) as Ht by (vm_compute; reflexivity).
  rewrite forallb_forall in Ht. by apply Ht, list_elem_of_In.
Qed.

Section RoundTrip.
Context (f : Frame) (names : list bytes) (m : list (bytes * json)).
Context (Hn : fields_of (Type_ f) = Some names) (Hm : frame_object f = Ok m).

Let m' := map (fun kv => (kv.1, normal kv.2)) m.

Lemma frame_lookup k :
  obj_lookup k m' = if bool_decide (k ∈ names) then match field_value f k with Ok v => Some (normal v) | Err _ => None end
                    else if bytes_eqb k (lit "type") then Some (JStr (Type_ f)) else None.
Proof.
  unfold m'. rewrite obj_lookup_map. unfold frame_object in Hm. rewrite Hn in Hm.
  pose proof (table_ok _ _ Hn) as Ht. unfold table_entry_ok in Ht. breflect. simpl in *.
  rewrite (fill_fields_lookup f names [(lit "type", JStr (Type_ f))] m k) by done.
  destruct (bool_decide (k ∈ names)); [by destruct (field_value f k)|].
  cbn [obj_lookup]. by destruct (bytes_eqb k (lit "type")).
Qed.

Lemma frame_string k x :
  bytes_eqb (lit k) (lit "type") = false -> field_value f (lit k) = Ok (JStr x) ->
  string_field m' (lit k) = Ok (keep names k x []).
Proof.
  intros Hk Hv. unfold string_field. rewrite frame_lookup, Hv, Hk. unfold keep.
  by destruct (bool_decide (lit k ∈ names)).
Qed.

Lemma frame_int k x :
  bytes_eqb (lit k) (lit "type") = false -> field_value f (lit k) = Ok (JInt x) ->
  int_field m' (lit k) = Ok (keep names k x 0).
Proof.
  intros Hk Hv. unfold int_field. rewrite frame_lookup, Hv, Hk. unfold keep.
  by destruct (bool_decide (lit k ∈ names)).
Qed.

Lemma frame_time :
  (lit "input_deadline" ∈ names -> is_ok (MarshalTime (InputDeadline f)) = true) ->
  time_field m' (lit "input_deadline") = Ok (keep names "input_deadline" (InputDeadline f) zero_time).
Proof.
  intros Ht. unfold time_field. rewrite frame_lookup.
  change (field_value f (lit "input_deadline")) with (let* t := MarshalTime (InputDeadline f) in Ok (JStr t)).
  unfold keep. destruct (bool_decide (lit "input_deadline" ∈ names)) eqn:E; [|done].
  apply bool_decide_eq_true in E. specialize (Ht E).
  destruct (MarshalTime (InputDeadline f)) as [t|] eqn:Em; [|done]. cbn [result_bind normal].
  by rewrite (UnmarshalTime_Marshal _ _ Em).
Qed.

Lemma frame_params :
  (forall p, Params f = Some p -> normal (JObj p) = JObj p) ->
  params_field m' = Ok (keep names "params" (Params f) None).
Proof.
  intros Hp. unfold params_field. rewrite frame_lookup.
  change (field_value f (lit "params")) with (Ok (match Params f with Some m => JObj m | None => JNull end)).
  unfold keep. destruct (bool_decide (lit "params" ∈ names)); [|done].
  destruct (Params f) as [p|]; [|done]. by rewrite (Hp p eq_refl).
Qed.

Lemma bindings_written l : bindings (map normal (binding_json <$> l)) = Ok l.
Proof.
  induction l as [|[p i] l IH]; [done|]. rewrite fmap_cons. cbn [map bindings].
  change (binding_field (normal (binding_json {| fb_pointer := p; fb_file_id := i |})))
    with (Ok {| fb_pointer := p; fb_file_id := i |}).
  cbn [result_bind]. by rewrite IH.
Qed.

Lemma frame_files : files_field m' = Ok (keep names "files" (Files f) None).
Proof.
  unfold files_field. rewrite frame_lookup.
  change (field_value f (lit "files"))
    with (Ok (match Files f with Some l => JArr (binding_json <$> l) | None => JNull end)).
  unfold keep. destruct (bool_decide (lit "files" ∈ names)); [|done].
  destruct (Files f) as [l|]; [|done]. cbn [normal]. by rewrite bindings_written.
Qed.

Lemma frame_type : string_field m' (lit "type") = Ok (Type_ f).
Proof.
  unfold string_field. rewrite frame_lookup. pose proof (table_ok _ _ Hn) as Ht. unfold table_entry_ok in Ht.
  breflect. simpl in *. by rewrite bool_decide_false.
Qed.

(** The typed frame is the one that was written. *)
Lemma unmarshal_written :
  (lit "input_deadline" ∈ names -> is_ok (MarshalTime (InputDeadline f)) = true) ->
  (forall p, Params f = Some p -> normal (JObj p) = JObj p) ->
  unmarshal_frame m' = Ok (only_fields names f).
Proof.
  intros Ht Hp. unfold unmarshal_frame.
  rewrite frame_type, (frame_string "id" (ID f)), (frame_string "transfer_id" (TransferID f)),
    (frame_string "capability" (Capability f)), (frame_string "caller_binding" (CallerBinding f)),
    (frame_string "definition_hash" (DefinitionHash f)), (frame_time Ht), (frame_string "pointer" (Pointer f)),
    (frame_string "name" (Name f)), (frame_string "mime_type" (MIMEType f)), (frame_string "file_id" (FileID f)),
    (frame_int "sequence" (Sequence f)), (frame_string "data_base64" (DataBase64 f)), (frame_int "size" (Size f)),
    (frame_int "size_bytes" (SizeBytes f)), (frame_string "sha256" (SHA256 f)), (frame_params Hp), frame_files
    by reflexivity.
  done.
Qed.

Lemma written_keys k : k ∈ m'.*1 -> k ∈ lit "type" :: names.
Proof.
  intros Hk. assert (obj_lookup k m' <> None) as Hl by (rewrite obj_lookup_None; by intros ?).
  rewrite frame_lookup in Hl. apply elem_of_cons. destruct (bool_decide (k ∈ names)) eqn:E.
  - right. by apply bool_decide_eq_true in E.
  - destruct (bytes_eqb k (lit "type")) eqn:Et; [|done]. left. by apply bool_decide_eq_true in Et.
Qed.

Lemma fields_written k : k ∈ names -> exists v, field_value f k = Ok v.
Proof.
  unfold frame_object in Hm. rewrite Hn in Hm. clear Hn m'. revert Hm. generalize [(lit "type", JStr (Type_ f))].
  induction names as [|k0 ks IH]; intros acc; cbn [fill_fields]; [intros _ H; by apply elem_of_nil in H|].
  destruct (field_value f k0) as [v|] eqn:E; [|done]. cbn [result_bind]. intros H [->|Hk]%elem_of_cons; [by exists v|].
  by apply (IH (obj_insert k0 v acc)).
Qed.

Lemma written_complete : forallb (fun k => obj_has k m') names = true.
Proof.
  apply forallb_forall. intros k Hk. apply list_elem_of_In in Hk. unfold obj_has. rewrite frame_lookup.
  rewrite bool_decide_true by done. by destruct (fields_written k Hk) as [v ->].
Qed.

Lemma written_allowed : forallb (fun kv => bool_decide (kv.1 ∈ lit "type" :: names)) m' = true.
Proof.
  apply forallb_forall. intros kv Hkv. apply list_elem_of_In in Hkv. apply bool_decide_eq_true, written_keys.
  apply list_elem_of_fmap. by exists kv.
Qed.

Lemma binding_encodable b :
  text_ok (fb_pointer b) -> text_ok (fb_file_id b) -> encodable (binding_json b).
Proof.
  intros [Hp1 Hp2] [Hf1 Hf2]. apply enc_obj.
  - by apply (bool_decide_unpack (NoDup [lit "pointer"; lit "file_id"])).
  - repeat (apply Forall_cons_2; [split; [vm_compute; repeat constructor; discriminate|reflexivity]|]). apply Forall_nil_2.
  - repeat (apply Forall_cons_2; [by apply enc_str|]). apply Forall_nil_2.
Qed.

Lemma time_text_ok t s : MarshalTime t = Ok s -> text_ok s.
Proof.
  intros H. apply MarshalTime_chars in H.
  assert (Forall (fun b => 0 <= b < 128) s) as Ha by (eapply Forall_impl; [exact H|]; unfold time_char; lia).
  split; [eapply Forall_impl; [exact Ha|]; unfold is_byte; lia|].
  destruct (utf8_text_ascii s Ha) as (rs & Hr & ->). by apply ValidString_encoded.
Qed.

Lemma field_encodable k v : frame_data f -> field_value f k = Ok v -> encodable v.
Proof.
  intros [Hs (Hq & Hz & Hb) Hp Hfi]. repeat (apply Forall_cons in Hs as [[? ?] Hs]).
  assert (forall n, 0 <= n <= int64_max -> encodable (JInt n)) as Hint.
  { intros n Hn'. apply enc_int. unfold in_int64, int64_min. lia. }
  unfold field_value.
  repeat (destruct (bytes_eqb k _); [first
    [ intros [= <-]; by apply enc_str | intros [= <-]; by apply Hint
    | destruct (MarshalTime (InputDeadline f)) as [t|] eqn:E; [|done]; cbn [result_bind]; intros [= <-];
      apply time_text_ok in E as [? ?]; by apply enc_str
    | intros [= <-]; destruct (Params f) as [p|]; [by apply Hp|constructor]
    | intros [= <-]; destruct (Files f) as [l|]; [|constructor]; apply enc_arr; apply Forall_fmap, Forall_forall;
      intros b Hb'; apply binding_encodable; by eapply Hfi ]|]).
  intros [= <-]. constructor.
Qed.

Lemma object_encodable : frame_data f -> encodable (JObj m) /\ normal (JObj m) = JObj m'.
Proof.
  intros Hd. pose proof Hm as Hm'. unfold frame_object in Hm'. rewrite Hn in Hm'.
  assert (obj_sorted m) as Hs by (eapply fill_fields_sorted; [|exact Hm']; repeat constructor).
  assert (obj_sorted m') as Hs' by (unfold obj_sorted, m'; rewrite normal_keys; done).
  split; [|cbn [normal]; f_equal; by apply (insert_all_sorted m' [])].
  apply enc_obj; [by apply sorted_nodup| |].
  - apply Forall_forall. intros k Hk. assert (k ∈ m'.*1) as Hk' by (unfold m'; by rewrite normal_keys).
    apply written_keys in Hk'. pose proof (table_ok _ _ Hn) as Ht. unfold table_entry_ok in Ht. breflect. simpl in *.
    assert (Forall (fun b => 0 <= b < 128) k) as Ha.
    { apply elem_of_cons in Hk' as [->|Hk']; [by apply ascii_text|]. apply ascii_text.
      match goal with H : forallb _ names = true |- _ => rewrite forallb_forall in H; apply H end. by apply list_elem_of_In. }
    split; [eapply Forall_impl; [exact Ha|]; unfold is_byte; lia|].
    destruct (utf8_text_ascii k Ha) as (rs & Hr & ->). by apply ValidString_encoded.
  - apply Forall_forall. intros [k v] Hkv. simpl.
    pose proof (obj_sorted_lookup k v m Hs Hkv) as Hl.
    pose proof (table_ok _ _ Hn) as Ht. unfold table_entry_ok in Ht. breflect. simpl in *.
    rewrite (fill_fields_lookup f names [(lit "type", JStr (Type_ f))] m k) in Hl by done.
    destruct (bool_decide (k ∈ names)).
    + destruct (field_value f k) as [w|] eqn:E; [|done]. injection Hl as <-. by eapply field_encodable.
    + cbn [obj_lookup] in Hl. destruct (bytes_eqb k (lit "type")); [|done]. injection Hl as <-.
      destruct Hd as [Hs0 _ _ _]. apply Forall_cons in Hs0 as [[? ?] _]. by apply enc_str.
Qed.

(** The checks pass on a valid frame. *)
Lemma bindings_exact l : forallb binding_exact (map normal (binding_json <$> l)) = true.
Proof. induction l as [|[p i] l IH]; [done|]. rewrite fmap_cons. cbn [map forallb]. by rewrite IH. Qed.

Lemma check_commit_written :
  (forall p, Params f = Some p -> normal (JObj p) = JObj p) -> frame_valid names f ->
  Type_ f = lit "request_commit" -> check_commit m' f = Ok f.
Proof.
  intros Hp Hv Ht. destruct (valid_commit _ _ Hv Ht) as (p & l & Ep & El & Hl).
  assert (names = lit <$> ["id"; "params"; "files"]) as Hnames by (rewrite Ht in Hn; by injection Hn as <-).
  unfold check_commit. rewrite !frame_lookup, Hnames, El.
  change (bool_decide (lit "params" ∈ lit <$> ["id"; "params"; "files"])) with true.
  change (bool_decide (lit "files" ∈ lit <$> ["id"; "params"; "files"])) with true. cbv iota.
  change (field_value f (lit "params")) with (Ok (match Params f with Some m => JObj m | None => JNull end)).
  change (field_value f (lit "files"))
    with (Ok (match Files f with Some l => JArr (binding_json <$> l) | None => JNull end)).
  rewrite Ep, El, (Hp p Ep). cbn [normal]. rewrite bindings_exact. cbn [negb].
  assert (forallb (fun b => ValidID (fb_file_id b) && (Z.of_nat (length (fb_pointer b)) <=? 4096)) l = true) as ->.
  { clear El. induction Hl as [|b l [H1 H2] Hl IH]; [done|]. cbn [forallb]. rewrite H1, IH, (proj2 (Z.leb_le _ _)) by lia. done. }
  cbn [negb]. f_equal. destruct f. simpl in *. by subst.
Qed.

Lemma check_written :
  frame_data f -> frame_valid names f -> check_frame (Type_ f) names m' f = Ok f.
Proof.
  intros Hd Hv. pose proof (data_counts _ Hd) as (Hq & Hz & Hb). unfold check_frame.
  assert ((negb (bytes_eqb (Type_ f) (lit "ack")) && negb (ValidID (ID f))) ||
     (bool_decide (lit "transfer_id" ∈ names) && negb (ValidID (TransferID f))) = false) as ->.
  { apply orb_false_iff. split.
    - destruct (bytes_eqb (Type_ f) (lit "ack")) eqn:E; [done|]. apply bool_decide_eq_false in E.
      by rewrite (valid_id _ _ Hv E).
    - destruct (bool_decide (lit "transfer_id" ∈ names)) eqn:E; [|done]. apply bool_decide_eq_true in E.
      by rewrite (valid_transfer _ _ Hv E). }
  rewrite !(proj2 (Z.ltb_ge _ 0)) by lia. cbn [orb].
  assert ((if bytes_eqb (Type_ f) (lit "request_commit") then check_commit m' f else Ok f) = Ok f) as ->.
  { destruct (bytes_eqb (Type_ f) (lit "request_commit")) eqn:E; [|done]. apply bool_decide_eq_true in E.
    apply check_commit_written; [|done|done]. intros p Hp. by apply (data_params _ Hd). }
  cbn [result_bind].
  destruct (bytes_eqb (Type_ f) (lit "request_begin")) eqn:E1.
  { apply bool_decide_eq_true in E1. destruct (valid_begin _ _ Hv E1) as (-> & -> & -> & -> & _).
    rewrite E1. reflexivity. }
  cbn [andb]. destruct (bytes_eqb (Type_ f) (lit "input_open")) eqn:E2.
  { apply bool_decide_eq_true in E2. destruct (valid_open _ _ Hv E2) as (H1 & H2 & H3).
    rewrite !(proj2 (Z.ltb_ge _ _)) by lia. rewrite E2. reflexivity. }
  cbn [andb]. destruct (bytes_eqb (Type_ f) (lit "transfer_chunk")) eqn:E3; [|done].
  apply bool_decide_eq_true in E3. destruct (valid_chunk _ _ Hv E3) as (b & H1 & H2 & H3).
  by rewrite (Chunk_encoded f b H1 H2 H3).
Qed.
End RoundTrip.

Lemma deadline_kind kind names :
  fields_of kind = Some names -> lit "input_deadline" ∈ names -> kind = lit "request_begin".
Proof.
  intros H Hin. apply obj_lookup_Some in H.
  assert (forallb (fun kn => negb (bool_decide (lit "input_deadline" ∈ kn.2)) || bytes_eqb kn.1 (lit "request_begin")) fields = true)
    as Ht by (vm_compute; reflexivity).
  rewrite forallb_forall in Ht. specialize (Ht (kind, names) ltac:(by apply list_elem_of_In)). simpl in Ht.
  rewrite bool_decide_true in Ht by done. by apply bool_decide_eq_true in Ht.
Qed.

(** Only the time can fail to be written. *)
Lemma field_value_ok f k : k <> lit "input_deadline" -> is_ok (field_value f k) = true.
Proof.
  intros Hk. unfold field_value.
  assert (bytes_eqb k (lit "input_deadline") = false) as -> by (by apply bool_decide_eq_false).
  repeat (destruct (bytes_eqb k _); [reflexivity|]). reflexivity.
Qed.

(** Only the fields of its kind matter to the text of a frame. *)
Lemma keep_in {A} names k (x z : A) : lit k ∈ names -> keep names k x z = x.
Proof. intros H. unfold keep. by rewrite bool_decide_true. Qed.
Lemma keep_twice {A} names k (x z : A) : keep names k (keep names k x z) z = keep names k x z.
Proof. unfold keep. by destruct (bool_decide _). Qed.
Lemma only_fields_twice names f : only_fields names (only_fields names f) = only_fields names f.
Proof. unfold only_fields. cbn [Type_ ID TransferID Capability CallerBinding DefinitionHash InputDeadline Pointer Name MIMEType FileID Sequence DataBase64 Size SizeBytes SHA256 Params Files]. by rewrite !keep_twice. Qed.
Lemma field_sent names f k : k ∈ names -> field_value (only_fields names f) k = field_value f k.
Proof.
  intros Hk. unfold field_value.
  repeat (destruct (bytes_eqb k _) eqn:E; [apply bool_decide_eq_true in E; subst k; unfold only_fields;
    cbn [ID TransferID Capability CallerBinding DefinitionHash InputDeadline Pointer Name MIMEType FileID Sequence DataBase64 Size SizeBytes SHA256 Params Files];
    by rewrite keep_in|clear E]).
  done.
Qed.
Lemma fill_sent names f keys : keys ⊆ names -> forall m, fill_fields (only_fields names f) keys m = fill_fields f keys m.
Proof.
  induction keys as [|k keys IH]; intros Hk m; [done|]. cbn [fill_fields]. rewrite field_sent by (apply Hk; left).
  destruct (field_value f k); [|done]. cbn [result_bind]. apply IH. intros x Hx. apply Hk. by right.
Qed.
Lemma object_sent f names : fields_of (Type_ f) = Some names -> frame_object f = frame_object (only_fields names f).
Proof. intros Hn. unfold frame_object. change (Type_ (only_fields names f)) with (Type_ f). rewrite Hn. by rewrite fill_sent. Qed.

Lemma object_exists f names :
  fields_of (Type_ f) = Some names -> frame_valid names f -> exists m, frame_object f = Ok m.
Proof.
  intros Hn Hv. unfold frame_object. rewrite Hn. apply fill_fields_total. apply Forall_forall. intros k Hk.
  destruct (decide (k = lit "input_deadline")) as [->|Hne]; [|by apply field_value_ok].
  destruct (valid_begin _ _ Hv (deadline_kind _ _ Hn Hk)) as (_ & _ & _ & _ & H).
  change (field_value f (lit "input_deadline")) with (let* t := MarshalTime (InputDeadline f) in Ok (JStr t)).
  by destruct (MarshalTime (InputDeadline f)).
Qed.

(** The object a frame was written to is decoded as the frame. *)
Lemma decode_written f names m :
  fields_of (Type_ f) = Some names -> only_fields names f = f -> frame_data f -> frame_valid names f ->
  frame_object f = Ok m -> exists m', normal (JObj m) = JObj m' /\ decode_object m' = Ok f /\
    obj_lookup (lit "type") m' = Some (JStr (Type_ f)).
Proof.
  intros Hn Ho Hd Hv Hm. eexists. split; [by apply (object_encodable f names m Hn Hm Hd)|].
  set (m' := map _ m).
  assert (obj_lookup (lit "type") m' = Some (JStr (Type_ f))) as Ht.
  { unfold m'. rewrite (frame_lookup f names m Hn Hm). pose proof (table_ok _ _ Hn) as Ht. unfold table_entry_ok in Ht.
    breflect. simpl in *. by rewrite bool_decide_false. }
  split; [|done]. unfold decode_object. rewrite Ht, Hn.
  unfold m'. rewrite (written_complete f names m Hn Hm), (written_allowed f names m Hn Hm). cbn [negb].
  rewrite (unmarshal_written f names m Hn Hm).
  - cbn [result_bind]. rewrite Ho. by apply check_written.
  - intros Hk. by apply (valid_begin _ _ Hv (deadline_kind _ _ Hn Hk)).
  - intros p Hp. by apply (data_params _ Hd).
Qed.

(* ------------------------------------------------------------------ *)
(** ** Lemmas: what is accepted *)

Lemma unmarshal_type m g :
  unmarshal_frame m = Ok g -> Type_ g = match obj_lookup (lit "type") m with Some (JStr s) => s | _ => [] end.
Proof.
  unfold unmarshal_frame. destruct (string_field m (lit "type")) as [ty|] eqn:E; [|done]. cbn [result_bind].
  repeat match goal with |- (let* _ := ?r in _) = _ -> _ => destruct r; [cbn [result_bind]|done] end.
  intros H. apply Ok_inj in H as <-. cbn [Type_]. unfold string_field in E.
  destruct (obj_lookup (lit "type") m) as [[]|]; try done; by injection E as <-.
Qed.

Lemma check_commit_Ok m g f :
  check_commit m g = Ok f ->
  (Type_ f = Type_ g /\ ID f = ID g /\ TransferID f = TransferID g /\ Sequence f = Sequence g /\ Size f = Size g /\
   SizeBytes f = SizeBytes g /\ DataBase64 f = DataBase64 g) /\
  exists p l, Params f = Some p /\ Files f = Some l /\
    Forall (fun b => ValidID (fb_file_id b) = true /\ Z.of_nat (length (fb_pointer b)) <= 4096) l.
Proof.
  unfold check_commit. destruct (obj_lookup (lit "params") m) as [[| | | | | | |p]|]; try done.
  destruct (Files g) as [l|] eqn:El; [|done]. destruct (obj_lookup (lit "files") m) as [[| | | | | |a|]|]; try done.
  destruct (negb _); [done|]. destruct (negb _) eqn:E; [done|]. intros [= <-]. split; [done|].
  exists p, l. split; [done|]. split; [done|]. breflect. rewrite forallb_forall in E. apply Forall_forall. intros b Hb.
  specialize (E b (proj1 (list_elem_of_In _ _) Hb)). breflect. split; [done|lia].
Qed.

Lemma check_frame_valid kind names m g f :
  fields_of kind = Some names -> Type_ g = kind -> check_frame kind names m g = Ok f ->
  fields_of (Type_ f) = Some names /\
  (Type_ f <> lit "ack" -> ValidID (ID f) = true) /\
  (lit "transfer_id" ∈ names -> ValidID (TransferID f) = true) /\
  0 <= Sequence f /\ 0 <= Size f /\ 0 <= SizeBytes f /\
  (Type_ f = lit "request_commit" -> exists p l, Params f = Some p /\ Files f = Some l /\
     Forall (fun b => ValidID (fb_file_id b) = true /\ Z.of_nat (length (fb_pointer b)) <= 4096) l) /\
  (Type_ f = lit "transfer_chunk" -> exists b, Chunk f = Ok b).
Proof.
  intros En Ek. unfold check_frame. head_if Ei; [done|]. head_if Ec; [done|].
  apply orb_false_iff in Ei as [Ei1 Ei2]. apply orb_false_iff in Ec as [Ec Ec3]. apply orb_false_iff in Ec as [Ec1 Ec2].
  apply Z.ltb_ge in Ec1, Ec2, Ec3.
  destruct (if bytes_eqb kind (lit "request_commit") then check_commit m g else Ok g) as [h|] eqn:Eh; [|done].
  cbn [result_bind]. head_if Ebg; [done|]. head_if Eo; [done|]. intros H.
  assert (f = h /\ (kind = lit "transfer_chunk" -> exists b, Chunk f = Ok b)) as [-> Hch].
  { destruct (bytes_eqb kind (lit "transfer_chunk")) eqn:E3.
    - destruct (Chunk h) as [b|] eqn:Eb; [|done]. injection H as <-. split; [done|]. by exists b.
    - injection H as <-. split; [done|]. intros ->. by apply bool_decide_eq_false in E3. }
  assert ((Type_ h = Type_ g /\ ID h = ID g /\ TransferID h = TransferID g /\ Sequence h = Sequence g /\ Size h = Size g /\
     SizeBytes h = SizeBytes g /\ DataBase64 h = DataBase64 g) /\
     (kind = lit "request_commit" -> exists p l, Params h = Some p /\ Files h = Some l /\
       Forall (fun b => ValidID (fb_file_id b) = true /\ Z.of_nat (length (fb_pointer b)) <= 4096) l)) as [Hs Hc].
  { destruct (bytes_eqb kind (lit "request_commit")) eqn:E1.
    - apply check_commit_Ok in Eh as [? ?]. done.
    - injection Eh as ->. split; [done|]. intros ->. by apply bool_decide_eq_false in E1. }
  destruct Hs as (-> & -> & -> & -> & -> & -> & _). rewrite Ek. repeat split; try done.
  - intros Hne. destruct (bytes_eqb kind (lit "ack")) eqn:E; [by apply bool_decide_eq_true in E|].
    simpl in Ei1. by apply negb_false_iff in Ei1.
  - intros Hin. rewrite bool_decide_true in Ei2 by done. by apply negb_false_iff in Ei2.
Qed.

(* ------------------------------------------------------------------ *)
(** ** Properties *)

(** C32: a frame survives the wire: if the fields that its kind carries hold text and counts,
    with valid identities and bounds, the frame is written without error, whatever its other
    fields hold, and when the text is within the size limit of its kind, a nesting of 40 and
    100,256 values, decoding it gives the frame with those other fields at their zero value. *)
Theorem frame_roundtrip f names :
  fields_of (Type_ f) = Some names -> frame_data (only_fields names f) -> frame_valid names (only_fields names f) ->
  exists m s, frame_object f = Ok m /\ MarshalJSON f = Ok s /\
    (Z.of_nat (length s) <= FrameLimit (Type_ f) -> nesting (normal (JObj m)) <= 40 ->
     items (normal (JObj m)) <= 100256 -> DecodeFrame s None = Ok (only_fields names f)).
Proof.
  intros Hn Hd Hv. destruct (object_exists (only_fields names f) names Hn Hv) as [m Hm].
  destruct (object_encodable (only_fields names f) names m Hn Hm Hd) as [He _]. destruct (encode_reads _ He) as (s & Es & Hs).
  exists m, s. split; [by rewrite (object_sent f names Hn)|].
  split; [unfold MarshalJSON; by rewrite (object_sent f names Hn), Hm|]. intros Hl Hne Hit.
  destruct (decode_written (only_fields names f) names m Hn (only_fields_twice names f) Hd Hv Hm) as (m' & Em & Hdec & Hty). rewrite Em in *.
  assert (FrameLimit (Type_ f) <= 16777216 /\ 1048576 <= FrameLimit (Type_ f)) as [Hf1 Hf2].
  { unfold FrameLimit. destruct (bytes_eqb _ _); by vm_compute. }
  assert (peek_type s = Type_ f) as Hp.
  { unfold peek_type. rewrite (decode_reads _ _ _ Hs); [by rewrite Hty|cbn [MaxBytes MaxDepth MaxItems peek_limits]; unfold int64_max; lia..]. }
  unfold DecodeFrame, DecodeWireJSON. rewrite Hp.
  rewrite (decode_reads _ _ _ Hs); [done|cbn [MaxBytes wire_limits]; lia|..].
  - cbn [default MaxDepth wire_limits default_wire_limits]. unfold wire_add.
    rewrite (proj2 (Z.leb_gt _ 32)), (proj2 (Z.leb_gt _ 8)) by lia. cbn [orb Z.ltb Z.compare]. lia.
  - cbn [default MaxItems MaxFiles wire_limits default_wire_limits]. unfold wire_add.
    assert (131072 <= FrameLimit (Type_ f) / 8) by (apply Z.div_le_lower_bound; lia).
    rewrite (proj2 (Z.ltb_lt 16 _)) by lia. cbn [andb Z.leb Z.compare].
    rewrite (proj2 (Z.leb_gt _ 100000)) by lia. change (16 * 8) with 128.
    rewrite (proj2 (Z.leb_gt (FrameLimit (Type_ f) - 100000) 128)) by lia.
    change ((100000 <? 0) || false || false) with false. cbv iota. change (100000 + 128) with 100128.
    rewrite (proj2 (Z.leb_gt _ 100128)), (proj2 (Z.leb_gt (_ - 100128) 128)) by lia. cbn [orb Z.ltb Z.compare]. lia.
Qed.

(** An acknowledgement with a size, which its kind does not carry. *)
Definition example_sized : Frame :=
  {| Type_ := lit "ack"; ID := []; TransferID := [116; 49]; Capability := []; CallerBinding := [];
     DefinitionHash := []; InputDeadline := zero_time; Pointer := []; Name := []; MIMEType := [];
     FileID := []; Sequence := 3; DataBase64 := []; Size := 9; SizeBytes := 0; SHA256 := [];
     Params := None; Files := None |}.
Lemma frame_roundtrip_witness :
  exists m, frame_object example_sized = Ok m /\ DecodeFrame example_text None = Ok example_ack.
Proof.
  destruct (frame_roundtrip example_sized (lit <$> ["transfer_id"; "sequence"])) as (m & s & Hm & Hs & Hd).
  - reflexivity.
  - split.
    + repeat (apply Forall_cons_2; [split; [apply bytes_forallb|]; reflexivity|]); apply Forall_nil_2.
    + vm_compute. repeat split; discriminate.
    + discriminate.
    + discriminate.
  - split; try discriminate; [intros H; exfalso; by apply H|reflexivity].
  - exists m. split; [exact Hm|]. vm_compute in Hs. injection Hs as <-. vm_compute in Hm. injection Hm as <-.
    apply Hd; by vm_compute.
Defined.

(** the payload of a chunk frame is exactly the bytes whose standard base64 is the
    frame's text: [Chunk] accepts the canonical encoding of 1 to 65536 bytes and
    nothing else, so no two texts carry the same chunk. *)
Theorem chunk_exact f b :
  Forall is_byte b ->
  Chunk f = Ok b <-> (0 < Z.of_nat (length b) <= ChunkBytes /\ DataBase64 f = EncodeToString b).
Proof. intros Hb. split; [apply Chunk_Ok|]. intros [Hl E]. by apply Chunk_encoded. Qed.

Lemma chunk_exact_witness :
  Chunk {| Type_ := lit "transfer_chunk"; ID := [105]; TransferID := [116]; Capability := []; CallerBinding := [];
     DefinitionHash := []; InputDeadline := zero_time; Pointer := []; Name := []; MIMEType := [];
     FileID := []; Sequence := 0; DataBase64 := [97; 71; 107; 61]; Size := 0; SizeBytes := 0; SHA256 := [];
     Params := None; Files := None |} = Ok [104; 105].
Proof.
  apply (chunk_exact _ [104; 105]); [all_bytes|]. split; [vm_compute; split; [reflexivity|discriminate]|reflexivity].
Defined.

(** what [DecodeFrame] accepts is a frame of a known kind with valid identities and
    counts: the request id unless it is an acknowledgement, the transfer id where the
    kind has one, no negative count, bindings within bounds for a commit, and a
    decodable payload for a chunk. *)
Theorem decoded_frame_valid raw logical f :
  DecodeFrame raw logical = Ok f ->
  exists names, fields_of (Type_ f) = Some names /\
    (Type_ f <> lit "ack" -> ValidID (ID f) = true) /\
    (lit "transfer_id" ∈ names -> ValidID (TransferID f) = true) /\
    0 <= Sequence f /\ 0 <= Size f /\ 0 <= SizeBytes f /\
    (Type_ f = lit "request_commit" -> exists p l, Params f = Some p /\ Files f = Some l /\
       Forall (fun b => ValidID (fb_file_id b) = true /\ Z.of_nat (length (fb_pointer b)) <= 4096) l) /\
    (Type_ f = lit "transfer_chunk" -> exists b, Chunk f = Ok b).
Proof.
  unfold DecodeFrame. destruct (DecodeWireJSON _ _ _) as [[[| | | | | | |m]|]|]; try done.
  unfold decode_object. set (kind := match obj_lookup (lit "type") m with Some (JStr s) => s | _ => [] end).
  destruct (fields_of kind) as [names|] eqn:En; [|done]. destruct (negb _); [done|]. destruct (negb _); [done|].
  destruct (unmarshal_frame m) as [g|] eqn:Eg; [|done]. cbn [result_bind].
  intros H. apply (check_frame_valid kind names m g f En) in H; [|by apply unmarshal_type in Eg]. by exists names.
Qed.

Lemma decoded_frame_valid_witness :
  exists names, fields_of (Type_ example_ack) = Some names /\
    (lit "transfer_id" ∈ names -> ValidID (TransferID example_ack) = true).
Proof.
  destruct (decoded_frame_valid example_text None example_ack) as (names & Hn & _ & Ht & _); [vm_compute; reflexivity|].
  by exists names.
Defined.
