(* ===== verification/Transfers.v ===== *)
(** * Windowed transfers ([ws/transfer.go])
    One endpoint of the transfer protocol. [Transfers] is the struct with the heap of
    its [wireTransfer] objects, which the goroutines hold by pointer while the maps
    hold them by id; every critical section under the mutex is one function. [step]
    interleaves those sections: the receiving and sending goroutines have explicit
    program counters, and the callbacks handed to [send] are kept apart from the
    goroutine that posted them, since one may still run after its [send] returned. *)
From Stdlib Require Import ZArith Lia.
From stdpp Require Import gmap strings list fin_maps relations.
From S2P Require Import Prelude GoTime Protocol.
Local Open Scope Z_scope.

Inductive transfer_error := ErrProtocol | ErrNotFound | ErrCapacity | CtxCanceled.

Record retiredTransfer := {
  r_expiry : Z; r_request : bytes;
  r_sending : bool; r_canceled : bool; r_ending : bool;
  r_next : Z; r_acked : Z; r_sent : Z
}.

Record receiveItem := { item_frame : Frame; item_body : bytes }.

(** [w_canceled] is whether the transfer's context is done. *)
Record wireTransfer := {
  w_id : bytes; w_request : bytes; w_sending : bool; w_canceled : bool;
  w_queue : list receiveItem;
  w_next : Z; w_acked : Z; w_sent : Z;
  w_ending : bool; w_granted : bool; w_expiry : Z;
  w_stopped : bool
}.

(** A pointer to a [wireTransfer]. *)
Abbreviation ptr := nat.

Record Transfers := {
  t_done : bool;
  live : gmap bytes ptr;
  recent : gmap bytes retiredTransfer;
  retained : Z;
  closed : bool;
  heap : gmap ptr wireTransfer;
  fresh_ptr : ptr
}.

Definition NewTransfers : Transfers :=
  {| t_done := false; live := ∅; recent := ∅; retained := 0; closed := false; heap := ∅; fresh_ptr := 0%nat |}.

(** Record updates. *)
Definition set_heap (t : Transfers) (h : gmap ptr wireTransfer) : Transfers :=
  {| t_done := t_done t; live := live t; recent := recent t; retained := retained t; closed := closed t;
     heap := h; fresh_ptr := fresh_ptr t |}.
Definition set_retained (t : Transfers) (n : Z) : Transfers :=
  {| t_done := t_done t; live := live t; recent := recent t; retained := n; closed := closed t;
     heap := heap t; fresh_ptr := fresh_ptr t |}.
Definition set_recent (t : Transfers) (r : gmap bytes retiredTransfer) : Transfers :=
  {| t_done := t_done t; live := live t; recent := r; retained := retained t; closed := closed t;
     heap := heap t; fresh_ptr := fresh_ptr t |}.
Definition set_counts (v : wireTransfer) (n a s : Z) : wireTransfer :=
  {| w_id := w_id v; w_request := w_request v; w_sending := w_sending v; w_canceled := w_canceled v;
     w_queue := w_queue v; w_next := n; w_acked := a; w_sent := s; w_ending := w_ending v;
     w_granted := w_granted v; w_expiry := w_expiry v; w_stopped := w_stopped v |}.
Definition set_flags (v : wireTransfer) (canceled ending granted : bool) : wireTransfer :=
  {| w_id := w_id v; w_request := w_request v; w_sending := w_sending v; w_canceled := canceled;
     w_queue := w_queue v; w_next := w_next v; w_acked := w_acked v; w_sent := w_sent v; w_ending := ending;
     w_granted := granted; w_expiry := w_expiry v; w_stopped := w_stopped v |}.
Definition set_queue (v : wireTransfer) (q : list receiveItem) : wireTransfer :=
  {| w_id := w_id v; w_request := w_request v; w_sending := w_sending v; w_canceled := w_canceled v;
     w_queue := q; w_next := w_next v; w_acked := w_acked v; w_sent := w_sent v; w_ending := w_ending v;
     w_granted := w_granted v; w_expiry := w_expiry v; w_stopped := w_stopped v |}.
Definition cancel (v : wireTransfer) : wireTransfer := set_flags v true (w_ending v) (w_granted v).
Definition stop (v : wireTransfer) : wireTransfer :=
  {| w_id := w_id v; w_request := w_request v; w_sending := w_sending v; w_canceled := true;
     w_queue := w_queue v; w_next := w_next v; w_acked := w_acked v; w_sent := w_sent v; w_ending := w_ending v;
     w_granted := w_granted v; w_expiry := w_expiry v; w_stopped := true |}.

(** [t.live[id]], and whether it is the object [p]. *)
Definition live_object (t : Transfers) (id : bytes) : option (ptr * wireTransfer) :=
  match live t !! id with
  | Some p => match heap t !! p with Some v => Some (p, v) | None => None end
  | None => None
  end.
Definition is_live (t : Transfers) (p : ptr) (v : wireTransfer) : bool :=
  bool_decide (live t !! w_id v = Some p).
Definition update (t : Transfers) (p : ptr) (v : wireTransfer) : Transfers := set_heap t (<[p := v]> (heap t)).

(* ------------------------------------------------------------------ *)
(** ** Critical sections *)

(** The object [add] makes. *)
Definition new_transfer (request id : bytes) (sending : bool) (deadline : Z) : wireTransfer :=
  {| w_id := id; w_request := request; w_sending := sending; w_canceled := false; w_queue := [];
     w_next := 0; w_acked := 0; w_sent := 0; w_ending := false; w_granted := false; w_expiry := deadline;
     w_stopped := false |}.

(** [add]: [ctxErr] is whether the caller's context is done, [deadline] its deadline. *)
Definition add (t : Transfers) (now : Z) (ctxErr : bool) (deadline : option Z) (request id : bytes) (sending : bool)
    : Transfers * (transfer_error + ptr) :=
  if closed t then (t, inl CtxCanceled) else
  if ctxErr then (t, inl CtxCanceled) else
  if t_done t then (t, inl CtxCanceled) else
  let t := set_recent t (filter (fun kd => now < r_expiry kd.2) (recent t)) in
  if (ConnectionWindow / TransferWindow <=? Z.of_nat (size (live t))) ||
     (4096 <=? Z.of_nat (size (live t)) + Z.of_nat (size (recent t)))
  then (t, inl ErrCapacity) else
  if negb (ValidID request) || negb (ValidID id) || bool_decide (is_Some (live t !! id)) ||
     bool_decide (is_Some (recent t !! id))
  then (t, inl ErrProtocol) else
  match deadline with
  | None => (t, inl ErrProtocol)
  | Some d =>
      let p := fresh_ptr t in
      ({| t_done := t_done t; live := <[id := p]> (live t); recent := recent t; retained := retained t;
          closed := closed t; heap := <[p := new_transfer request id sending d]> (heap t); fresh_ptr := S p |}, inr p)
  end.

(** [retire(v, err)]: [failed] is whether [err] is an error. *)
Definition retire (t : Transfers) (p : ptr) (failed : bool) : Transfers :=
  match heap t !! p with
  | None => t
  | Some v =>
      let t := if is_live t p v then
        {| t_done := t_done t; live := delete (w_id v) (live t);
           recent := <[w_id v := {| r_expiry := w_expiry v + 5 * Second; r_request := w_request v;
             r_sending := w_sending v; r_canceled := failed || w_canceled v; r_ending := w_ending v;
             r_next := w_next v; r_acked := w_acked v; r_sent := w_sent v |}]> (recent t);
           retained := retained t - (w_next v - w_acked v); closed := closed t; heap := heap t;
           fresh_ptr := fresh_ptr t |}
        else t in
      update t p (stop v)
  end.

Definition Grant (t : Transfers) (id : bytes) : Transfers * option transfer_error :=
  match live_object t id with
  | None => (t, Some ErrProtocol)
  | Some (p, v) =>
      if w_sending v || w_granted v then (t, Some ErrProtocol)
      else (update t p (set_flags v (w_canceled v) (w_ending v) true), None)
  end.

(** [receive] sets the grant in a critical section of its own after [add]. *)
Definition set_granted (t : Transfers) (p : ptr) (granted : bool) : Transfers :=
  match heap t !! p with
  | None => t
  | Some v => update t p (set_flags v (w_canceled v) (w_ending v) granted)
  end.

(** The receiving goroutine takes an item off its queue. *)
Definition dequeue (t : Transfers) (p : ptr) : option (receiveItem * Transfers) :=
  match heap t !! p with
  | Some v => match w_queue v with
              | item :: q => Some (item, update t p (set_queue v q))
              | [] => None
              end
  | None => None
  end.

(** The [grant] callback of an acknowledgement, and the callback of a chunk. *)
Definition ack_granted (t : Transfers) (p : ptr) : Transfers :=
  match heap t !! p with
  | Some v =>
      if is_live t p v
      then set_retained (update t p (set_counts v (w_next v) (w_acked v + 1) (w_sent v))) (retained t - 1)
      else t
  | None => t
  end.
Definition chunk_started (t : Transfers) (p : ptr) : Transfers :=
  match heap t !! p with
  | Some v =>
      if is_live t p v then update t p (set_counts v (w_next v) (w_acked v) (w_sent v + 1)) else t
  | None => t
  end.

(** The sending goroutine reserves a slot before it reads, gives it back when nothing
    was read, and waits for every acknowledgement before its end. *)
Definition reserve (t : Transfers) (p : ptr) : option Transfers :=
  match heap t !! p with
  | Some v =>
      if (w_next v - w_acked v <? TransferWindow) && (retained t <? ConnectionWindow)
      then Some (set_retained (update t p (set_counts v (w_next v + 1) (w_acked v) (w_sent v))) (retained t + 1))
      else None
  | None => None
  end.
Definition unreserve (t : Transfers) (p : ptr) : Transfers :=
  match heap t !! p with
  | Some v => set_retained (update t p (set_counts v (w_next v - 1) (w_acked v) (w_sent v))) (retained t - 1)
  | None => t
  end.
Definition drained (t : Transfers) (p : ptr) : bool :=
  match heap t !! p with
  | Some v => w_sent v =? w_acked v
  | None => false
  end.

(** [Handle] on an id that is not live: what a canceled transfer still accepts. *)
Definition set_retired (r : retiredTransfer) (ending : bool) (n a : Z) : retiredTransfer :=
  {| r_expiry := r_expiry r; r_request := r_request r; r_sending := r_sending r; r_canceled := r_canceled r;
     r_ending := ending; r_next := n; r_acked := a; r_sent := r_sent r |}.
Definition kind_is (f : Frame) (k : string) : bool := bytes_eqb (Type_ f) (lit k).

Definition handle_retired (t : Transfers) (now : Z) (f : Frame) : Transfers * option transfer_error :=
  let refuse := (t, Some (if kind_is f "transfer_cancel" then ErrNotFound else ErrProtocol)) in
  match recent t !! TransferID f with
  | None => refuse
  | Some r =>
      if r_canceled r && (now <? r_expiry r) then
        if kind_is f "ack" && r_sending r && (Sequence f =? r_acked r) && (r_acked r <? r_sent r) then
          (set_recent t (<[TransferID f := set_retired r (r_ending r) (r_next r) (r_acked r + 1)]> (recent t)), None)
        else if negb (bytes_eqb (ID f) (r_request r)) then (t, Some ErrProtocol)
        else if kind_is f "transfer_cancel" then (t, None)
        else if negb (r_sending r) && negb (r_ending r) then
          if kind_is f "transfer_chunk" && (Sequence f =? r_next r) && (r_next r - r_acked r <? TransferWindow) then
            (set_recent t (<[TransferID f := set_retired r (r_ending r) (r_next r + 1) (r_acked r)]> (recent t)), None)
          else if kind_is f "transfer_end" then
            (set_recent t (<[TransferID f := set_retired r true (r_next r) (r_acked r)]> (recent t)), None)
          else refuse
        else refuse
      else refuse
  end.

(** The queue of a receiver holds five items. *)
Definition queue_capacity : nat := 5.
Definition enqueue (t : Transfers) (p : ptr) (v : wireTransfer) (item : receiveItem) : Transfers * option transfer_error :=
  if (length (w_queue v) <? queue_capacity)%nat then (update t p (set_queue v (w_queue v ++ [item])), None)
  else (update t p v, Some ErrProtocol).

Definition Handle (t : Transfers) (now : Z) (f : Frame) : Transfers * option transfer_error :=
  match live_object t (TransferID f) with
  | None => handle_retired t now f
  | Some (p, v) =>
      if kind_is f "ack" then
        if negb (w_sending v) || negb (Sequence f =? w_acked v) || (w_sent v <=? w_acked v) then (t, Some ErrProtocol)
        else (set_retained (update t p (set_counts v (w_next v) (w_acked v + 1) (w_sent v))) (retained t - 1), None)
      else if negb (bytes_eqb (ID f) (w_request v)) then (t, Some ErrProtocol)
      else if kind_is f "transfer_cancel" then (update t p (cancel v), None)
      else if w_sending v || w_ending v || negb (w_granted v) then (t, Some ErrProtocol)
      else if kind_is f "transfer_chunk" then
        if negb (Sequence f =? w_next v) || (TransferWindow <=? w_next v - w_acked v) || (ConnectionWindow <=? retained t)
        then (t, Some ErrProtocol)
        else match Chunk f with
        | Err _ => (t, Some ErrProtocol)
        | Ok b =>
            enqueue (set_retained t (retained t + 1)) p (set_counts v (w_next v + 1) (w_acked v) (w_sent v))
              {| item_frame := f; item_body := b |}
        end
      else if kind_is f "transfer_end" then
        enqueue t p (set_flags v (w_canceled v) true (w_granted v)) {| item_frame := f; item_body := [] |}
      else (t, Some ErrProtocol)
  end.

(** Cancellation of the live transfers that satisfy a test. *)
Definition cancel_live (t : Transfers) (test : wireTransfer -> bool) : Transfers :=
  set_heap t (map_imap (fun p v => Some (if is_live t p v && test v then cancel v else v)) (heap t)).
Definition CancelRequest (t : Transfers) (id : bytes) : Transfers :=
  cancel_live t (fun v => bytes_eqb (w_request v) id).
Definition Cancel (t : Transfers) (id : bytes) : Transfers := cancel_live t (fun v => bytes_eqb (w_id v) id).
Definition Close (t : Transfers) : Transfers :=
  let t := cancel_live t (fun _ => true) in
  {| t_done := t_done t; live := live t; recent := recent t; retained := retained t; closed := true;
     heap := heap t; fresh_ptr := fresh_ptr t |}.

(* ------------------------------------------------------------------ *)
(** ** The goroutines *)

(** What [reader.Read] reported besides its bytes. *)
Inductive read_end := MoreData | AtEOF | ReadFailed.

(** Program counters. [RAcking], [SSending] and [SEnding] are goroutines inside [t.send],
    [Retiring] one in its deferred [retire]. *)
Inductive proc :=
| RStart (granted : bool)
| RWait
| RAcking
| SOpening
| SReserve
| SRead
| SSending (after : read_end)
| SDrain
| SEnding
| Retiring (failed : bool)
| Exited.

(** Callbacks given to [send] that have not run. *)
Inductive callback := AckCallback (p : ptr) (seq : Z) | ChunkCallback (p : ptr) (seq : Z).
#[export] Instance read_end_eq_dec : EqDecision read_end.
Proof. solve_decision. Defined.
#[export] Instance proc_eq_dec : EqDecision proc.
Proof. solve_decision. Defined.
Definition callback_ptr (c : callback) : ptr := match c with AckCallback p _ | ChunkCallback p _ => p end.

Record system := { tr : Transfers; procs : gmap ptr proc; pending : list callback }.
Definition init_system : system := {| tr := NewTransfers; procs := ∅; pending := [] |}.

Definition goto (s : system) (t : Transfers) (p : ptr) (k : proc) : system :=
  {| tr := t; procs := <[p := k]> (procs s); pending := pending s |}.
Definition post (s : system) (t : Transfers) (p : ptr) (k : proc) (c : callback) : system :=
  {| tr := t; procs := <[p := k]> (procs s); pending := c :: pending s |}.
Definition act (s : system) (t : Transfers) : system :=
  {| tr := t; procs := procs s; pending := pending s |}.

(** A callback runs at most once, at any time after it was handed to [send]. *)
Definition run_callback (s : system) (c : callback) (rest : list callback) : system :=
  {| tr := match c with AckCallback p _ => ack_granted (tr s) p | ChunkCallback p _ => chunk_started (tr s) p end;
     procs := procs s; pending := rest |}.

Definition is_end (i : receiveItem) : bool := kind_is (item_frame i) "transfer_end".

(** Whether the transfer's or the connection's context is done. *)
Definition ctx_done (t : Transfers) (p : ptr) : bool :=
  t_done t || match heap t !! p with Some v => w_canceled v | None => false end.

(** The receiving goroutine. *)
Inductive receive_step : system -> system -> Prop :=
| step_receive s now e d request id granted t p :
    add (tr s) now e d request id false = (t, inr p) -> receive_step s (goto s t p (RStart granted))
| step_receive_refused s now e d request id t err :
    add (tr s) now e d request id false = (t, inl err) -> receive_step s (act s t)
| step_receive_granted s p granted :
    procs s !! p = Some (RStart granted) -> receive_step s (goto s (set_granted (tr s) p granted) p RWait)
| step_write s p item t :
    procs s !! p = Some RWait -> dequeue (tr s) p = Some (item, t) -> is_end item = false ->
    receive_step s (post s t p RAcking (AckCallback p (Sequence (item_frame item))))
| step_write_failed s p item t :
    procs s !! p = Some RWait -> dequeue (tr s) p = Some (item, t) -> is_end item = false ->
    receive_step s (goto s t p (Retiring true))
| step_end s p item t failed :
    procs s !! p = Some RWait -> dequeue (tr s) p = Some (item, t) -> is_end item = true ->
    receive_step s (goto s t p (Retiring failed))
| step_acked s p :
    procs s !! p = Some RAcking -> receive_step s (goto s (tr s) p RWait)
| step_ack_failed s p :
    procs s !! p = Some RAcking -> receive_step s (goto s (tr s) p (Retiring true)).

(** The sending goroutine. *)
Inductive send_step : system -> system -> Prop :=
| step_send s now e d request id t p :
    add (tr s) now e d request id true = (t, inr p) -> send_step s (goto s t p SOpening)
| step_send_refused s now e d request id t err :
    add (tr s) now e d request id true = (t, inl err) -> send_step s (act s t)
| step_opened s p :
    procs s !! p = Some SOpening -> send_step s (goto s (tr s) p SReserve)
| step_open_failed s p :
    procs s !! p = Some SOpening -> send_step s (goto s (tr s) p (Retiring true))
| step_reserve s p t :
    procs s !! p = Some SReserve -> reserve (tr s) p = Some t -> send_step s (goto s t p SRead)
| step_read s p v after :
    procs s !! p = Some SRead -> heap (tr s) !! p = Some v ->
    send_step s (post s (tr s) p (SSending after) (ChunkCallback p (w_next v - 1)))
| step_budget_failed s p :
    procs s !! p = Some SRead -> send_step s (goto s (tr s) p (Retiring true))
| step_read_nothing s p after :
    procs s !! p = Some SRead ->
    send_step s (goto s (unreserve (tr s) p) p (match after with AtEOF => SDrain | _ => Retiring true end))
| step_sent s p after :
    procs s !! p = Some (SSending after) ->
    send_step s (goto s (tr s) p (match after with MoreData => SReserve | AtEOF => SDrain | ReadFailed => Retiring true end))
| step_send_failed s p after :
    procs s !! p = Some (SSending after) -> send_step s (goto s (tr s) p (Retiring true))
| step_drained s p :
    procs s !! p = Some SDrain -> drained (tr s) p = true -> send_step s (goto s (tr s) p SEnding)
| step_ended s p failed :
    procs s !! p = Some SEnding -> send_step s (goto s (tr s) p (Retiring failed)).

(** Both, the callbacks, the connection that delivers frames, and the callers. *)
Inductive shared_step : system -> system -> Prop :=
| step_canceled s p k :
    procs s !! p = Some k -> (k = RWait \/ k = SReserve \/ k = SDrain) -> ctx_done (tr s) p = true ->
    shared_step s (goto s (tr s) p (Retiring true))
| step_retire s p failed :
    procs s !! p = Some (Retiring failed) -> shared_step s (goto s (retire (tr s) p failed) p Exited)
| step_callback s c a b :
    pending s = a ++ c :: b -> shared_step s (run_callback s c (a ++ b))
| step_handle s now f t r : Handle (tr s) now f = (t, r) -> shared_step s (act s t)
| step_grant s id t r : Grant (tr s) id = (t, r) -> shared_step s (act s t)
| step_cancel s id : shared_step s (act s (Cancel (tr s) id))
| step_cancel_request s id : shared_step s (act s (CancelRequest (tr s) id))
| step_close s : shared_step s (act s (Close (tr s)))
| step_deadline s p v : heap (tr s) !! p = Some v -> shared_step s (act s (update (tr s) p (cancel v)))
| step_done s : shared_step s (act s
    {| t_done := true; live := live (tr s); recent := recent (tr s); retained := retained (tr s);
       closed := closed (tr s); heap := heap (tr s); fresh_ptr := fresh_ptr (tr s) |}).

Definition step (s s' : system) : Prop := receive_step s s' \/ send_step s s' \/ shared_step s s'.

Definition reachable (s : system) : Prop := rtc step init_system s.

(* ------------------------------------------------------------------ *)
(** ** The invariant *)

(** The objects the live map holds. *)
Definition live_map (t : Transfers) : gmap bytes wireTransfer := omap (fun p => heap t !! p) (live t).
Definition in_window (v : wireTransfer) : Z := w_next v - w_acked v.

Definition chunks (q : list receiveItem) : Z := Z.of_nat (length (filter (fun i => is_end i = false) q)).
Definition ends (q : list receiveItem) : Z := Z.of_nat (length (filter (fun i => is_end i = true) q)).
Definition pending_of (p : ptr) (l : list callback) : Z :=
  Z.of_nat (length (filter (fun c => callback_ptr c = p) l)).
(** The slot a sender has reserved and not yet posted. *)
Definition slack (k : option proc) : Z := match k with Some SRead => 1 | _ => 0 end.

(** A live transfer: its window, the sender's count of frames and the receiver's queue. *)
Record transfer_ok (k : option proc) (pend : Z) (v : wireTransfer) : Prop := {
  ok_window : in_window v <= TransferWindow;
  ok_sender : w_sending v = true ->
    0 <= w_acked v <= w_sent v /\ w_sent v + pend + slack k <= w_next v /\ w_queue v = [];
  ok_receiver : w_sending v = false ->
    chunks (w_queue v) + pend <= in_window v /\ ends (w_queue v) <= (if w_ending v then 1 else 0) /\ slack k = 0
}.

(** Who holds a live transfer: a goroutine of its direction that has not retired. *)
Definition serves (k : proc) (sending : bool) : Prop :=
  match k with
  | RStart _ | RWait | RAcking => sending = false
  | SOpening | SReserve | SRead | SSending _ | SDrain | SEnding => sending = true
  | Retiring _ => True
  | Exited => False
  end.

Record inv (s : system) : Prop := {
  inv_objects : forall id p, live (tr s) !! id = Some p ->
    exists v k, heap (tr s) !! p = Some v /\ w_id v = id /\ procs s !! p = Some k /\ serves k (w_sending v) /\
      transfer_ok (Some k) (pending_of p (pending s)) v;
  inv_procs : forall p k, procs s !! p = Some k -> k <> Exited ->
    exists v, heap (tr s) !! p = Some v /\ live (tr s) !! w_id v = Some p;
  inv_fresh : forall p v, heap (tr s) !! p = Some v -> (p < fresh_ptr (tr s))%nat;
  inv_callbacks : forall c, c ∈ pending s -> exists v, heap (tr s) !! callback_ptr c = Some v /\
    w_sending v = match c with AckCallback _ _ => false | ChunkCallback _ _ => true end;
  inv_disjoint : forall id, is_Some (live (tr s) !! id) -> recent (tr s) !! id = None;
  inv_live : (size (live (tr s)) <= 8)%nat;
  inv_recent : (size (live (tr s)) + size (recent (tr s)) <= 4096)%nat;
  inv_retained : retained (tr s) = msum in_window (live_map (tr s))
}.

(* ------------------------------------------------------------------ *)
(** ** Example states *)

Definition demo_frame (kind : string) (seq : Z) (data : bytes) : Frame :=
  {| Type_ := lit kind; ID := [114]; TransferID := [116]; Capability := []; CallerBinding := [];
     DefinitionHash := []; InputDeadline := zero_time; Pointer := []; Name := []; MIMEType := [];
     FileID := []; Sequence := seq; DataBase64 := data; Size := 0; SizeBytes := 0; SHA256 := [];
     Params := None; Files := None |}.

(** A receiver that is granted and waits, and a sender about to reserve. *)
Definition demo_receiver : system :=
  let s := goto init_system (add NewTransfers 0 false (Some 100) [114] [116] false).1 0%nat (RStart true) in
  goto s (set_granted (tr s) 0 true) 0%nat RWait.
Definition demo_sender : system :=
  let s := goto init_system (add NewTransfers 0 false (Some 100) [114] [116] true).1 0%nat SOpening in
  goto s (tr s) 0%nat SReserve.
Definition demo_object (sending granted : bool) : wireTransfer :=
  set_flags (new_transfer [114] [116] sending 100) false false granted.

(** The receiver's context is canceled and its goroutine is about to retire. *)
Definition demo_failed : system :=
  let s := act demo_receiver (Close (tr demo_receiver)) in goto s (tr s) 0%nat (Retiring true).

(* ------------------------------------------------------------------ *)
(** ** Lemmas: updates *)

Lemma pending_of_cons p c l : pending_of p (c :: l) = (if bool_decide (callback_ptr c = p) then 1 else 0) + pending_of p l.
Proof.
  unfold pending_of. rewrite filter_cons. case_decide; [rewrite bool_decide_true by done|rewrite bool_decide_false by done];
    simpl; lia.
Qed.

Lemma pending_of_app p a b : pending_of p (a ++ b) = pending_of p a + pending_of p b.
Proof. unfold pending_of. rewrite filter_app, length_app. lia. Qed.

Lemma pending_of_nonneg p l : 0 <= pending_of p l.
Proof. unfold pending_of. lia. Qed.

Lemma pending_of_none p l : (forall c, c ∈ l -> callback_ptr c <> p) -> pending_of p l = 0.
Proof.
  induction l as [|c l IH]; intros H; [done|]. rewrite pending_of_cons, bool_decide_false by (apply H; by left).
  rewrite IH; [done|]. intros c' Hc'. apply H. by right.
Qed.

Lemma update_same t p v : heap t !! p = Some v -> set_retained (update t p v) (retained t) = t.
Proof. intros H. unfold set_retained, update, set_heap. simpl. rewrite insert_id by done. by destruct t. Qed.

Lemma update_retained t p v : update t p v = set_retained (update t p v) (retained t).
Proof. by destruct t. Qed.

Lemma live_map_lookup t id : live_map t !! id = live t !! id ≫= (fun p => heap t !! p).
Proof. unfold live_map. apply lookup_omap. Qed.

(** Writing through a live pointer changes the live map at its id only. *)
Lemma live_map_update t p id v r :
  live t !! id = Some p -> (forall id', live t !! id' = Some p -> id' = id) ->
  live_map (set_retained (update t p v) r) = <[id := v]> (live_map t).
Proof.
  intros Hid Hinj. apply map_eq. intros i. rewrite live_map_lookup. simpl. destruct (decide (i = id)) as [->|Hne].
  - rewrite Hid. simpl. by rewrite !lookup_insert_eq.
  - rewrite lookup_insert_ne by done. rewrite live_map_lookup. destruct (live t !! i) as [q|] eqn:E; [|done]. simpl.
    rewrite lookup_insert_ne; [done|]. intros ->. by apply Hne, Hinj.
Qed.

Lemma live_map_dead t p v r :
  (forall id, live t !! id <> Some p) -> live_map (set_retained (update t p v) r) = live_map t.
Proof.
  intros H. apply map_eq. intros i. rewrite !live_map_lookup. simpl. destruct (live t !! i) as [q|] eqn:E; [|done]. simpl.
  rewrite lookup_insert_ne; [done|]. intros ->. by eapply H.
Qed.

Lemma live_map_insert (lv : gmap bytes ptr) (hp : gmap ptr wireTransfer) id p v :
  (forall i, lv !! i <> Some p) ->
  omap (fun q => <[p := v]> hp !! q) (<[id := p]> lv) = <[id := v]> (omap (fun q => hp !! q) lv).
Proof.
  intros H. apply map_eq. intros i. rewrite lookup_omap. destruct (decide (i = id)) as [->|Hne].
  - rewrite !lookup_insert_eq. simpl. by rewrite lookup_insert_eq.
  - rewrite !lookup_insert_ne by done. rewrite lookup_omap. destruct (lv !! i) as [q|] eqn:E; [|done]. simpl.
    rewrite lookup_insert_ne; [done|]. intros ->. by eapply H.
Qed.

Section Invariant.
Context (s : system) (Hinv : inv s).

Lemma inv_unique p id id' : live (tr s) !! id = Some p -> live (tr s) !! id' = Some p -> id' = id.
Proof.
  intros H H'. destruct (inv_objects s Hinv _ _ H) as (v & k & Hv & Hid & _).
  destruct (inv_objects s Hinv _ _ H') as (v' & k' & Hv' & Hid' & _). congruence.
Qed.

(** One live transfer moves: its object, its goroutine and its callbacks. *)
Lemma inv_touch p v v' k' l r' :
  live (tr s) !! w_id v = Some p -> heap (tr s) !! p = Some v ->
  w_id v' = w_id v -> w_sending v' = w_sending v -> serves k' (w_sending v') ->
  transfer_ok (Some k') (pending_of p l) v' -> r' = retained (tr s) + in_window v' - in_window v ->
  (forall q, q <> p -> pending_of q l = pending_of q (pending s)) ->
  (forall c, c ∈ l -> c ∈ pending s \/ callback_ptr c = p /\
    w_sending v = match c with AckCallback _ _ => false | ChunkCallback _ _ => true end) ->
  inv {| tr := set_retained (update (tr s) p v') r'; procs := <[p := k']> (procs s); pending := l |}.
Proof.
  intros Hl Hp Hid Hs Hserve Hok -> Hpend Hcb. split; simpl.
  - intros id q Hq. destruct (decide (q = p)) as [->|Hne].
    + rewrite (inv_unique p (w_id v) id Hl Hq). exists v', k'. rewrite !lookup_insert_eq. by rewrite Hid.
    + destruct (inv_objects s Hinv _ _ Hq) as (w & k & Hw & Hwid & Hk & Hsv & Ht).
      exists w, k. rewrite !lookup_insert_ne by done. rewrite Hpend by done. done.
  - intros q k Hk Hex. destruct (decide (q = p)) as [->|Hne].
    + exists v'. rewrite lookup_insert_eq, Hid. done.
    + rewrite lookup_insert_ne in Hk by done. destruct (inv_procs s Hinv q k Hk Hex) as (w & Hw & Hwl).
      exists w. by rewrite lookup_insert_ne.
  - intros q w Hw. destruct (decide (q = p)) as [->|Hne]; [by eapply (inv_fresh s Hinv)|].
    rewrite lookup_insert_ne in Hw by done. by eapply (inv_fresh s Hinv).
  - intros c Hc. destruct (decide (callback_ptr c = p)) as [E|Hne].
    + exists v'. rewrite E, lookup_insert_eq. split; [done|]. rewrite Hs.
      destruct (Hcb c Hc) as [Hold|[_ Hk]]; [|done].
      destruct (inv_callbacks s Hinv c Hold) as (w & Hw & Hws). rewrite E in Hw. congruence.
    + destruct (Hcb c Hc) as [Hold|[? _]]; [|done]. destruct (inv_callbacks s Hinv c Hold) as (w & Hw & Hws).
      exists w. by rewrite lookup_insert_ne.
  - apply (inv_disjoint s Hinv).
  - apply (inv_live s Hinv).
  - apply (inv_recent s Hinv).
  - rewrite (live_map_update _ _ (w_id v)); [|done|intros id' H'; by eapply inv_unique].
    rewrite (msum_update _ _ _ v); [|by rewrite live_map_lookup, Hl].
    pose proof (inv_retained s Hinv). lia.
Qed.

(** Writing through a pointer that is not live changes nothing. *)
Lemma inv_dead p v v' l :
  (forall id, live (tr s) !! id <> Some p) -> heap (tr s) !! p = Some v -> w_sending v' = w_sending v ->
  (forall q, q <> p -> pending_of q l = pending_of q (pending s)) -> (forall c, c ∈ l -> c ∈ pending s) ->
  inv {| tr := update (tr s) p v'; procs := procs s; pending := l |}.
Proof.
  intros Hl Hp Hs Hpend Hcb. split; simpl.
  - intros id q Hq. destruct (inv_objects s Hinv _ _ Hq) as (w & k & Hw & Hwid & Hk & Hsv & Ht).
    assert (q <> p) by (intros ->; by eapply Hl). exists w, k. rewrite !lookup_insert_ne by done. rewrite Hpend by done. done.
  - intros q k Hk Hex. destruct (inv_procs s Hinv q k Hk Hex) as (w & Hw & Hwl).
    assert (q <> p) by (intros ->; by eapply Hl). exists w. by rewrite lookup_insert_ne.
  - intros q w Hw. destruct (decide (q = p)) as [->|Hne]; [by eapply (inv_fresh s Hinv)|].
    rewrite lookup_insert_ne in Hw by done. by eapply (inv_fresh s Hinv).
  - intros c Hc. destruct (inv_callbacks s Hinv c (Hcb c Hc)) as (w & Hw & Hws).
    destruct (decide (callback_ptr c = p)) as [E|Hne].
    + exists v'. rewrite E, lookup_insert_eq. split; [done|]. rewrite E in Hw. congruence.
    + exists w. by rewrite lookup_insert_ne.
  - apply (inv_disjoint s Hinv).
  - apply (inv_live s Hinv).
  - apply (inv_recent s Hinv).
  - rewrite update_retained, live_map_dead by done. apply (inv_retained s Hinv).
Qed.

(** A goroutine moves without touching its transfer. *)
Lemma inv_goto p v k k' :
  procs s !! p = Some k -> k <> Exited -> heap (tr s) !! p = Some v ->
  serves k' (w_sending v) -> slack (Some k') = 0 -> inv (goto s (tr s) p k').
Proof.
  intros Hk Hex Hp Hserve Hsl. destruct (inv_procs s Hinv p k Hk Hex) as (w & Hw & Hl).
  rewrite Hp in Hw. injection Hw as <-. unfold goto. rewrite <- (update_same (tr s) p v Hp).
  destruct (inv_objects s Hinv _ _ Hl) as (w & k0 & Hw & _ & _ & _ & [Hwin Hsn Hrc]). rewrite Hp in Hw. injection Hw as <-.
  apply (inv_touch p v v k' (pending s)); try done; [|simpl; lia|by left].
  split; [done| |].
  - intros E. destruct (Hsn E) as (H1 & H2 & H3). rewrite Hsl. unfold slack in H2. repeat case_match; repeat split; try done; lia.
  - intros E. destruct (Hrc E) as (H1 & H2 & H3). by rewrite Hsl.
Qed.

(** The object of a goroutine that runs. *)
Lemma inv_proc p k :
  procs s !! p = Some k -> k <> Exited ->
  exists v, heap (tr s) !! p = Some v /\ live (tr s) !! w_id v = Some p /\ serves k (w_sending v) /\
    transfer_ok (Some k) (pending_of p (pending s)) v.
Proof.
  intros Hk Hex. destruct (inv_procs s Hinv p k Hk Hex) as (v & Hp & Hl).
  destruct (inv_objects s Hinv _ _ Hl) as (w & k0 & Hw & _ & Hk0 & Hs & Ht).
  rewrite Hp in Hw. injection Hw as <-. rewrite Hk in Hk0. injection Hk0 as <-. by exists v.
Qed.

(** Nothing but a live transfer's object, counts or flags changes. *)
Lemma inv_object p v v' k r' :
  live (tr s) !! w_id v = Some p -> heap (tr s) !! p = Some v -> procs s !! p = Some k ->
  w_id v' = w_id v -> w_sending v' = w_sending v ->
  transfer_ok (Some k) (pending_of p (pending s)) v' -> r' = retained (tr s) + in_window v' - in_window v ->
  inv (act s (set_retained (update (tr s) p v') r')).
Proof.
  intros Hl Hp Hk Hid Hs Hok Hr. unfold act. rewrite <- (insert_id (procs s) p k Hk).
  destruct (inv_objects s Hinv _ _ Hl) as (w & k0 & Hw & _ & Hk0 & Hserve & _).
  rewrite Hp in Hw. injection Hw as <-. rewrite Hk in Hk0. injection Hk0 as <-.
  apply (inv_touch p v v' k (pending s) r'); try done; [by rewrite Hs|by left].
Qed.

(** Only the retired transfers change, and none appears. *)
Lemma inv_recents r :
  (forall id, recent (tr s) !! id = None -> r !! id = None) -> (size r <= size (recent (tr s)))%nat ->
  inv (act s (set_recent (tr s) r)).
Proof.
  intros Hsub Hsize. destruct Hinv as [H1 H2 H3 H4 H5 H6 H7 H8]. split; simpl; try done.
  - intros id Hid. by apply Hsub, H5.
  - lia.
Qed.

(** Only the flags of the connection change. *)
Lemma inv_connection d c :
  inv (act s {| t_done := d; live := live (tr s); recent := recent (tr s); retained := retained (tr s);
    closed := c; heap := heap (tr s); fresh_ptr := fresh_ptr (tr s) |}).
Proof. by destruct Hinv as [H1 H2 H3 H4 H5 H6 H7 H8]. Qed.

(** Cancellation touches nothing the invariant reads. *)
Lemma cancel_ok k n v : transfer_ok k n v -> transfer_ok k n (cancel v).
Proof. by intros [H1 H2 H3]. Qed.

Lemma inv_cancels test :
  inv (act s (cancel_live (tr s) test)).
Proof.
  set (g := fun (p : ptr) v => if is_live (tr s) p v && test v then cancel v else v).
  assert (forall p, heap (cancel_live (tr s) test) !! p = g p <$> heap (tr s) !! p) as Hh.
  { intros p. unfold cancel_live. simpl. rewrite map_lookup_imap. by destruct (heap (tr s) !! p). }
  assert (forall p v, w_id (g p v) = w_id v /\ w_sending (g p v) = w_sending v /\ in_window (g p v) = in_window v /\
    forall k n, transfer_ok k n v -> transfer_ok k n (g p v)) as Hg.
  { intros p v. unfold g. destruct (_ && _); [|done]. split; [done|]. split; [done|]. split; [done|]. intros k n. apply cancel_ok. }
  destruct Hinv as [H1 H2 H3 H4 H5 H6 H7 H8]. split; cbn [tr procs pending act]; try done.
  - intros id p Hl. destruct (H1 id p Hl) as (v & k & Hv & Hid & Hk & Hs & Ht). exists (g p v), k.
    destruct (Hg p v) as (G1 & G2 & G3 & G4).
    rewrite Hh, Hv, G1, G2. repeat (split; [done|]). by apply G4.
  - intros p k Hk Hex. destruct (H2 p k Hk Hex) as (v & Hv & Hl). exists (g p v).
    rewrite Hh, Hv. destruct (Hg p v) as (-> & _). done.
  - intros p v Hv. rewrite Hh in Hv.
    destruct (heap (tr s) !! p) eqn:E; [|done]. by eapply H3.
  - intros c Hc. destruct (H4 c Hc) as (v & Hv & Hs). exists (g (callback_ptr c) v).
    rewrite Hh, Hv. destruct (Hg (callback_ptr c) v) as (_ & -> & _). done.
  - change (retained (cancel_live (tr s) test)) with (retained (tr s)). rewrite H8.
    apply msum_ext. intros id. rewrite !live_map_lookup. change (live (cancel_live (tr s) test)) with (live (tr s)).
    destruct (live (tr s) !! id) as [p|]; [|done]. cbn [mbind option_bind].
    rewrite Hh.
    destruct (heap (tr s) !! p) as [v|]; [|done]. simpl. by destruct (Hg p v) as (_ & _ & -> & _).
Qed.
End Invariant.

(* ------------------------------------------------------------------ *)
(** ** Lemmas: every step keeps the invariant *)

Lemma chunks_cons i q : chunks (i :: q) = (if is_end i then 0 else 1) + chunks q.
Proof. unfold chunks. rewrite filter_cons. destruct (is_end i); simpl; lia. Qed.
Lemma ends_cons i q : ends (i :: q) = (if is_end i then 1 else 0) + ends q.
Proof. unfold ends. rewrite filter_cons. destruct (is_end i); simpl; lia. Qed.
Lemma chunks_app q i : chunks (q ++ [i]) = chunks q + (if is_end i then 0 else 1).
Proof. unfold chunks. rewrite filter_app, length_app, filter_cons. destruct (is_end i); simpl; lia. Qed.
Lemma ends_app q i : ends (q ++ [i]) = ends q + (if is_end i then 1 else 0).
Proof. unfold ends. rewrite filter_app, length_app, filter_cons. destruct (is_end i); simpl; lia. Qed.
Lemma chunks_nonneg q : 0 <= chunks q.
Proof. unfold chunks. lia. Qed.
Lemma ends_nonneg q : 0 <= ends q.
Proof. unfold ends. lia. Qed.
Lemma queue_length q : Z.of_nat (length q) = chunks q + ends q.
Proof.
  induction q as [|i q IH]; [done|]. rewrite chunks_cons, ends_cons. cbn [length]. destruct (is_end i); lia.
Qed.

Ltac unfold_ok := unfold in_window, TransferWindow, ConnectionWindow in *; simpl in *.

Lemma inv_init : inv init_system.
Proof.
  split; simpl; try (intros; by simplify_map_eq).
  - intros c Hc. by apply elem_of_nil in Hc.
  - rewrite map_size_empty. lia.
  - rewrite !map_size_empty. lia.
Qed.

(** [add] makes a live transfer, or only forgets retired ones that have expired. *)
Lemma add_refused s now e d request id sending t err :
  inv s -> add (tr s) now e d request id sending = (t, inl err) -> inv (act s t).
Proof.
  intros Hinv. unfold add. destruct (closed (tr s)); [intros [= <- _]; by destruct s|].
  destruct e; [intros [= <- _]; by destruct s|]. destruct (t_done (tr s)); [intros [= <- _]; by destruct s|].
  cbv zeta. set (r := filter _ (recent (tr s))).
  assert (inv (act s (set_recent (tr s) r))) as H'.
  { apply inv_recents; [done| |].
    - intros i Hi. unfold r. by apply map_lookup_filter_None_2; left.
    - apply map_size_filter. }
  head_if E1; [by intros [= <- _]|]. head_if E2; [by intros [= <- _]|]. destruct d; [done|]. by intros [= <- _].
Qed.

Lemma add_live s now e d request id sending t p k :
  inv s -> add (tr s) now e d request id sending = (t, inr p) ->
  serves k sending -> slack (Some k) = 0 -> inv (goto s t p k).
Proof.
  intros Hinv. unfold add. destruct (closed (tr s)); [done|]. destruct e; [done|]. destruct (t_done (tr s)); [done|].
  cbv zeta. set (r := filter _ (recent (tr s))).
  assert (inv (act s (set_recent (tr s) r))) as H'.
  { apply inv_recents; [done| |].
    - intros i Hi. unfold r. by apply map_lookup_filter_None_2; left.
    - apply map_size_filter. }
  clearbody r. head_if E1; [done|]. head_if E2; [done|]. destruct d as [d|]; [|done].
  intros [= <- <-] Hserve Hsl. apply orb_false_iff in E1 as [E1a E1b].
  apply orb_false_iff in E2 as [E2 E2d]. apply orb_false_iff in E2 as [_ E2c]. cbn [set_recent live recent] in *.
  apply bool_decide_eq_false in E2c, E2d. apply eq_None_not_Some in E2c. apply eq_None_not_Some in E2d.
  apply Z.leb_gt in E1a, E1b. change (ConnectionWindow / TransferWindow) with 8 in E1a.
  destruct H' as [H1 H2 H3 H4 H5 H6 H7 H8]. cbn [act tr procs pending set_recent live recent heap fresh_ptr retained] in *.
  set (n := fresh_ptr (tr s)) in *.
  assert (heap (tr s) !! n = None) as Hn.
  { destruct (heap (tr s) !! n) eqn:E; [|done]. apply H3 in E. unfold n in E. lia. }
  assert (forall i, live (tr s) !! i <> Some n) as Hln.
  { intros i Hi. destruct (H1 i n Hi) as (v & k0 & Hv & _). congruence. }
  assert (pending_of n (pending s) = 0) as Hpn.
  { apply pending_of_none. intros c Hc Hcn. destruct (H4 c Hc) as (v & Hv & _). congruence. }
  split; simpl.
  - intros i q Hq. destruct (decide (i = id)) as [->|Hne].
    + rewrite lookup_insert_eq in Hq. injection Hq as <-. eexists _, k. rewrite !lookup_insert_eq.
      repeat (split; [done|]). rewrite Hpn. split; unfold_ok; [lia| |]; intros; rewrite Hsl; done.
    + rewrite lookup_insert_ne in Hq by done. destruct (H1 i q Hq) as (v & k0 & Hv & Hi & Hk & Hs & Ht).
      assert (q <> n) by (intros ->; congruence). exists v, k0. by rewrite !lookup_insert_ne.
  - intros q k0 Hk Hex. destruct (decide (q = n)) as [->|Hne].
    + eexists. rewrite !lookup_insert_eq. split; [done|]. simpl. by rewrite lookup_insert_eq.
    + rewrite lookup_insert_ne in Hk by done. destruct (H2 q k0 Hk Hex) as (v & Hv & Hl). exists v.
      rewrite lookup_insert_ne by done. split; [done|]. rewrite lookup_insert_ne; [done|]. intros E. congruence.
  - intros q v Hv. destruct (decide (q = n)) as [->|Hne]; [lia|]. rewrite lookup_insert_ne in Hv by done.
    apply H3 in Hv. unfold n. lia.
  - intros c Hc. destruct (H4 c Hc) as (v & Hv & Hs). exists v. rewrite lookup_insert_ne; [done|]. intros E. congruence.
  - intros i Hi. destruct (decide (i = id)) as [->|Hne]; [done|]. rewrite lookup_insert_ne in Hi by done. auto.
  - rewrite map_size_insert_None by done. lia.
  - rewrite map_size_insert_None by done. lia.
  - unfold live_map at 1. simpl. rewrite live_map_insert by done.
    rewrite msum_insert by (rewrite lookup_omap; by rewrite E2c). rewrite H8. unfold live_map. simpl. unfold in_window at 2. simpl. lia.
Qed.

(** A goroutine moves and rewrites its object. *)
Lemma inv_move s p v v' k k' l r' :
  inv s -> procs s !! p = Some k -> k <> Exited -> heap (tr s) !! p = Some v ->
  w_id v' = w_id v -> w_sending v' = w_sending v -> serves k' (w_sending v) ->
  transfer_ok (Some k') (pending_of p l) v' -> r' = retained (tr s) + in_window v' - in_window v ->
  (l = pending s \/ exists c, l = c :: pending s /\ callback_ptr c = p /\
    w_sending v = match c with AckCallback _ _ => false | ChunkCallback _ _ => true end) ->
  inv {| tr := set_retained (update (tr s) p v') r'; procs := <[p := k']> (procs s); pending := l |}.
Proof.
  intros Hinv Hk Hex Hp Hid Hs Hserve Hok Hr Hl.
  destruct (inv_procs s Hinv p k Hk Hex) as (w & Hw & Hlive). rewrite Hp in Hw. injection Hw as <-.
  apply (inv_touch s Hinv p v v' k' l r'); try done.
  - by rewrite Hs.
  - intros q Hq. destruct Hl as [->|(c & -> & Hc & _)]; [done|].
    rewrite pending_of_cons, bool_decide_false by congruence. lia.
  - intros c Hc. destruct Hl as [->|(c' & -> & Hcp & Hcs)]; [by left|].
    apply elem_of_cons in Hc as [->|Hc]; [by right|by left].
Qed.

Lemma set_granted_inv s p granted :
  inv s -> procs s !! p = Some (RStart granted) -> inv (goto s (set_granted (tr s) p granted) p RWait).
Proof.
  intros Hinv Hk. destruct (inv_proc s Hinv p _ Hk) as (v & Hp & Hl & Hs & [H1 H2 H3]); [done|].
  unfold set_granted. rewrite Hp. unfold goto. rewrite update_retained.
  apply (inv_move s p v _ _ _ _ _ Hinv Hk); try done; try (by left); try (unfold_ok; lia).
Qed.

(** Taking an item off the queue, whatever the goroutine does next. *)
Lemma dequeue_inv s p item t k' l :
  inv s -> procs s !! p = Some RWait -> dequeue (tr s) p = Some (item, t) ->
  serves k' false -> slack (Some k') = 0 ->
  (l = pending s \/ is_end item = false /\ exists n, l = AckCallback p n :: pending s) ->
  inv {| tr := t; procs := <[p := k']> (procs s); pending := l |}.
Proof.
  intros Hinv Hk Hd Hserve Hsl Hl. destruct (inv_proc s Hinv p _ Hk) as (v & Hp & _ & Hs & [H1 H2 H3]); [done|].
  unfold dequeue in Hd. rewrite Hp in Hd. destruct (w_queue v) as [|i q] eqn:Eq; [done|]. injection Hd as <- <-.
  rewrite update_retained. simpl in Hs. destruct (H3 Hs) as (H3a & H3b & _). rewrite chunks_cons in H3a. rewrite ends_cons in H3b.
  apply (inv_move s p v _ _ _ _ _ Hinv Hk); try done; try (unfold_ok; lia); [by rewrite Hs| |].
  - split; unfold_ok; [done|congruence|]. intros _. rewrite Hsl.
    destruct Hl as [->|(Hi & n & ->)]; [|rewrite Hi in H3a, H3b; rewrite pending_of_cons, bool_decide_true by done];
      destruct (is_end i); repeat split; try done; lia.
  - destruct Hl as [->|(_ & n & ->)]; [by left|right; eauto].
Qed.

Lemma reserve_inv s p t :
  inv s -> procs s !! p = Some SReserve -> reserve (tr s) p = Some t -> inv (goto s t p SRead).
Proof.
  intros Hinv Hk Hr. destruct (inv_proc s Hinv p _ Hk) as (v & Hp & _ & Hs & [H1 H2 H3]); [done|].
  unfold reserve in Hr. rewrite Hp in Hr. destruct (_ && _) eqn:E in Hr; [|done]. injection Hr as <-. breflect.
  simpl in Hs. apply (inv_move s p v _ _ _ _ _ Hinv Hk); try done; try (by left); try (unfold_ok; lia).
  destruct (H2 Hs) as (H2a & H2b & H2c). split; unfold_ok; [lia| |congruence]. intros _. repeat split; try done; lia.
Qed.

Lemma unreserve_inv s p k' :
  inv s -> procs s !! p = Some SRead -> serves k' true -> slack (Some k') = 0 ->
  inv (goto s (unreserve (tr s) p) p k').
Proof.
  intros Hinv Hk Hserve Hsl. destruct (inv_proc s Hinv p _ Hk) as (v & Hp & _ & Hs & [H1 H2 H3]); [done|].
  unfold unreserve. rewrite Hp. simpl in Hs.
  apply (inv_move s p v _ _ _ _ _ Hinv Hk); try done; try (by left); try (unfold_ok; lia); [by rewrite Hs|].
  destruct (H2 Hs) as (H2a & H2b & H2c). split; unfold_ok; [lia| |congruence].
  intros _. rewrite Hsl. repeat split; try done; lia.
Qed.

Lemma read_inv s p v after :
  inv s -> procs s !! p = Some SRead -> heap (tr s) !! p = Some v ->
  inv (post s (tr s) p (SSending after) (ChunkCallback p (w_next v - 1))).
Proof.
  intros Hinv Hk Hp. destruct (inv_proc s Hinv p _ Hk) as (w & Hw & _ & Hs & [H1 H2 H3]); [done|].
  rewrite Hp in Hw. injection Hw as <-. unfold post. rewrite <- (update_same (tr s) p v Hp). simpl in Hs.
  apply (inv_move s p v _ _ _ _ _ Hinv Hk); try done; try (simpl; lia); [|right; eauto].
  destruct (H2 Hs) as (H2a & H2b & H2c). split; [done| |congruence].
  intros _. rewrite pending_of_cons, bool_decide_true by done. unfold_ok. repeat split; try done; lia.
Qed.

(** Leaving the live map: the window of the transfer is given back. *)
Lemma live_map_delete (lv : gmap bytes ptr) (hp : gmap ptr wireTransfer) id p v :
  lv !! id = Some p -> (forall i, lv !! i = Some p -> i = id) ->
  omap (fun q => <[p := v]> hp !! q) (delete id lv) = delete id (omap (fun q => hp !! q) lv).
Proof.
  intros Hid Hu. apply map_eq. intros i. rewrite lookup_omap. destruct (decide (i = id)) as [->|Hne].
  - by rewrite !lookup_delete_eq.
  - rewrite !lookup_delete_ne by done. rewrite lookup_omap. destruct (lv !! i) as [q|] eqn:E; [|done]. simpl.
    rewrite lookup_insert_ne; [done|]. intros ->. by apply Hne, Hu.
Qed.

Lemma retire_inv s p failed :
  inv s -> procs s !! p = Some (Retiring failed) -> inv (goto s (retire (tr s) p failed) p Exited).
Proof.
  intros Hinv Hk. destruct (inv_proc s Hinv p _ Hk) as (v & Hp & Hl & _ & _); [done|].
  pose proof (fun id Hid => inv_unique s Hinv p (w_id v) id Hl Hid) as Hu.
  destruct Hinv as [H1 H2 H3 H4 H5 H6 H7 H8]. unfold retire. rewrite Hp. unfold is_live. rewrite bool_decide_true by done.
  assert (size (live (tr s)) = S (size (delete (w_id v) (live (tr s))))) as Hsize.
  { rewrite map_size_delete_Some by done.
    assert (size (live (tr s)) <> 0%nat); [|lia]. apply map_size_ne_0_lookup. by eexists _, _. }
  split; simpl.
  - intros id q Hq. apply lookup_delete_Some in Hq as [Hne Hq]. destruct (H1 id q Hq) as (w & k & Hw & Hid & Hk' & Hs & Ht).
    assert (q <> p) by (intros ->; apply Hne; symmetry; auto). exists w, k. by rewrite !lookup_insert_ne.
  - intros q k Hq Hex. destruct (decide (q = p)) as [->|Hne]; [by rewrite lookup_insert_eq in Hq; injection Hq as <-|].
    rewrite lookup_insert_ne in Hq by done. destruct (H2 q k Hq Hex) as (w & Hw & Hwl). exists w.
    rewrite lookup_insert_ne by done. split; [done|]. rewrite lookup_delete_ne; [done|]. intros E. congruence.
  - intros q w Hw. destruct (decide (q = p)) as [->|Hne]; [eauto|]. rewrite lookup_insert_ne in Hw by done. eauto.
  - intros c Hc. destruct (H4 c Hc) as (w & Hw & Hs). destruct (decide (callback_ptr c = p)) as [E|Hne].
    + exists (stop v). rewrite E, lookup_insert_eq. split; [done|]. rewrite E in Hw. simpl. congruence.
    + exists w. by rewrite lookup_insert_ne.
  - intros id Hid. destruct (decide (id = w_id v)) as [->|Hne]; [rewrite lookup_delete_eq in Hid; by destruct Hid|].
    rewrite lookup_delete_ne in Hid by done. rewrite lookup_insert_ne by done. auto.
  - lia.
  - rewrite map_size_insert_None by (apply H5; by eexists). lia.
  - rewrite H8. unfold live_map. simpl. rewrite live_map_delete by done.
    rewrite (msum_delete _ _ _ v) by (rewrite lookup_omap; by rewrite Hl). unfold in_window. lia.
Qed.

(** A callback that finds its transfer retired does nothing. *)
Lemma callback_dead s p v a c b :
  inv s -> pending s = a ++ c :: b -> callback_ptr c = p -> heap (tr s) !! p = Some v -> is_live (tr s) p v = false ->
  inv {| tr := tr s; procs := procs s; pending := a ++ b |}.
Proof.
  intros Hinv Hpend Hc Hp Hl. apply bool_decide_eq_false in Hl.
  assert (update (tr s) p v = tr s) as <- by (rewrite update_retained; by apply update_same).
  apply (inv_dead s Hinv p v); try done.
  - intros id Hid. destruct (inv_objects s Hinv id p Hid) as (w & k & Hw & Hwid & _). congruence.
  - intros q Hq. rewrite Hpend, !pending_of_app, pending_of_cons, bool_decide_false by congruence. lia.
  - intros c' Hc'. rewrite Hpend. apply elem_of_app. apply elem_of_app in Hc' as [?|?]; [by left|right; by right].
Qed.

(** A callback that finds its transfer live moves one of its counts. *)
Lemma callback_live s p v v' a c b r' :
  inv s -> pending s = a ++ c :: b -> callback_ptr c = p -> heap (tr s) !! p = Some v -> live (tr s) !! w_id v = Some p ->
  w_id v' = w_id v -> w_sending v' = w_sending v -> r' = retained (tr s) + in_window v' - in_window v ->
  (forall k, transfer_ok (Some k) (pending_of p (pending s)) v -> transfer_ok (Some k) (pending_of p (pending s) - 1) v') ->
  inv {| tr := set_retained (update (tr s) p v') r'; procs := procs s; pending := a ++ b |}.
Proof.
  intros Hinv Hpend Hc Hp Hl Hid Hs Hr Hok. destruct (inv_objects s Hinv _ _ Hl) as (w & k & Hw & _ & Hk & Hserve & Ht).
  rewrite Hp in Hw. injection Hw as <-.
  rewrite <- (insert_id (procs s) p k Hk).
  apply (inv_touch s Hinv p v); try done.
  - by rewrite Hs.
  - assert (pending_of p (a ++ b) = pending_of p (pending s) - 1) as ->.
    { rewrite Hpend, !pending_of_app, pending_of_cons, bool_decide_true by done. lia. }
    by apply Hok.
  - intros q Hq. rewrite Hpend, !pending_of_app, pending_of_cons, bool_decide_false by congruence. lia.
  - intros c' Hc'. left. rewrite Hpend. apply elem_of_app. apply elem_of_app in Hc' as [?|?]; [by left|right; by right].
Qed.

Lemma run_callback_inv s c a b : inv s -> pending s = a ++ c :: b -> inv (run_callback s c (a ++ b)).
Proof.
  intros Hinv Hpend. destruct (inv_callbacks s Hinv c) as (v & Hv & Hs); [rewrite Hpend; set_solver|].
  assert (1 <= pending_of (callback_ptr c) (pending s)) as Hpos.
  { rewrite Hpend, pending_of_app, pending_of_cons, bool_decide_true by done.
    pose proof (pending_of_nonneg (callback_ptr c) a). pose proof (pending_of_nonneg (callback_ptr c) b). lia. }
  unfold run_callback. destruct c as [p n|p n]; simpl in *; unfold ack_granted, chunk_started; rewrite Hv;
    (destruct (is_live (tr s) p v) eqn:E; [|by eapply callback_dead]); apply bool_decide_eq_true in E;
    [|rewrite update_retained]; (eapply (callback_live _ _ v); [done..|unfold_ok; lia|]).
  - intros k [H1 H2 H3]. destruct (H3 Hs) as (? & ? & ?). pose proof (chunks_nonneg (w_queue v)).
    split; unfold_ok; [lia|congruence|]. intros _. repeat split; try done; lia.
  - intros k [H1 H2 H3]. destruct (H2 Hs) as (? & ? & ?). split; unfold_ok; [lia| |congruence].
    intros _. repeat split; try done; lia.
Qed.

Lemma kind_is_other f k k' : kind_is f k = true -> bytes_eqb (lit k) (lit k') = false -> kind_is f k' = false.
Proof. unfold kind_is, bytes_eqb. intros H. apply bool_decide_eq_true in H. by rewrite H. Qed.

Lemma live_object_live t id p v : live_object t id = Some (p, v) -> live t !! id = Some p /\ heap t !! p = Some v.
Proof. unfold live_object. destruct (live t !! id) as [q|]; [|done]. destruct (heap t !! q) eqn:E; [|done]. by intros [= <- <-]. Qed.

Lemma handle_retired_inv s now f t r : inv s -> handle_retired (tr s) now f = (t, r) -> inv (act s t).
Proof.
  intros Hinv. unfold handle_retired. cbv zeta.
  assert (inv (act s (tr s))) as Hsame by (by destruct s).
  destruct (recent (tr s) !! TransferID f) as [x|] eqn:E; [|by intros [= <- _]].
  assert (forall y, inv (act s (set_recent (tr s) (<[TransferID f := y]> (recent (tr s)))))) as Hset.
  { intros y. apply inv_recents; [done| |rewrite map_size_insert_Some by (by eexists); done].
    intros id Hid. rewrite lookup_insert_ne; [done|]. congruence. }
  repeat (head_if Et; clear Et; try by intros [= <- _]; auto).
Qed.

(** An item is queued for a receiver whose window already counts it. *)
Lemma enqueue_inv s p v v' item k r t res :
  inv s -> live (tr s) !! w_id v = Some p -> heap (tr s) !! p = Some v -> procs s !! p = Some k ->
  w_id v' = w_id v -> w_sending v' = w_sending v -> w_sending v = false -> w_queue v' = w_queue v ->
  in_window v' = in_window v + (if is_end item then 0 else 1) -> in_window v' <= TransferWindow ->
  w_ending v = false -> w_ending v' = is_end item -> r = retained (tr s) + in_window v' - in_window v ->
  enqueue (set_retained (tr s) r) p v' item = (t, res) -> inv (act s t).
Proof.
  intros Hinv Hl Hp Hk Hid Hs Hrec Hq Hw Hwin He He' Hr. destruct (inv_objects s Hinv _ _ Hl) as (w & k0 & Hw0 & _ & Hk0 & _ & [H1 H2 H3]).
  rewrite Hp in Hw0. injection Hw0 as <-. rewrite Hk in Hk0. injection Hk0 as <-. destruct (H3 Hrec) as (G1 & G2 & G3).
  rewrite He in G2. pose proof (ends_nonneg (w_queue v)).
  assert (forall x, update (set_retained (tr s) r) p x = set_retained (update (tr s) p x) r) as Hu by done.
  unfold enqueue. rewrite !Hu, Hq. clear Hu. head_if Efull; intros [= <- _].
  - apply (inv_object s Hinv p v _ k); try done. split; [done| |].
    + intros E. simpl in E. congruence.
    + intros _. cbn [w_queue set_queue w_ending]. rewrite chunks_app, ends_app, He'.
      change (in_window (set_queue v' (w_queue v ++ [item]))) with (in_window v').
      destruct (is_end item); repeat split; try done; lia.
  - apply (inv_object s Hinv p v _ k); try done. split; [done|congruence|].
    intros _. rewrite Hq, He'. destruct (is_end item); repeat split; try done; lia.
Qed.

Lemma Handle_inv s now f t r : inv s -> Handle (tr s) now f = (t, r) -> inv (act s t).
Proof.
  intros Hinv. unfold Handle. assert (inv (act s (tr s))) as Hsame by (by destruct s).
  destruct (live_object (tr s) (TransferID f)) as [[p v]|] eqn:E; [|by apply handle_retired_inv].
  apply live_object_live in E as [Hl Hp].
  destruct (inv_objects s Hinv _ _ Hl) as (w & k & Hw & Hid & Hk & Hserve & Hok). rewrite Hp in Hw. injection Hw as <-.
  rewrite <- Hid in Hl. head_if Eack.
  { head_if Et; [by intros [= <- _]|]. intros [= <- _]. breflect.
    apply (inv_object s Hinv p v _ k); try done; [|unfold_ok; lia]. destruct Hok as [W1 W2 W3].
    destruct (W2 ltac:(done)) as (G1 & G2 & G3). split; unfold_ok; [lia| |congruence]. intros _. repeat split; try done; lia. }
  head_if Eid; [by intros [= <- _]|]. head_if Ec.
  { intros [= <- _]. rewrite update_retained. apply (inv_object s Hinv p v _ k); try done; [|unfold_ok; lia]. by apply cancel_ok. }
  head_if Eg; [by intros [= <- _]|]. breflect. head_if Ek.
  - head_if Et; [by intros [= <- _]|]. destruct (Chunk f) as [b|]; [|by intros [= <- _]]. breflect.
    assert (kind_is f "transfer_end" = false) as Hend by (by eapply kind_is_other).
    eapply (enqueue_inv s p v); try done; unfold is_end; simpl; rewrite ?Hend; unfold_ok; try done; lia.
  - head_if Ee; [|by intros [= <- _]]. replace (tr s) with (set_retained (tr s) (retained (tr s))) at 1 by (by destruct (tr s)).
    eapply (enqueue_inv s p v); try done; unfold is_end; simpl; rewrite ?Ee; unfold_ok; try done; try lia. by destruct Hok.
Qed.

Lemma Grant_inv s id t r : inv s -> Grant (tr s) id = (t, r) -> inv (act s t).
Proof.
  intros Hinv. unfold Grant. destruct (live_object (tr s) id) as [[p v]|] eqn:E; [|intros [= <- _]; by destruct s].
  apply live_object_live in E as [Hl Hp].
  destruct (inv_objects s Hinv _ _ Hl) as (w & k & Hw & Hid & Hk & Hserve & Hok). rewrite Hp in Hw. injection Hw as <-.
  head_if Et; [intros [= <- _]; by destruct s|]. intros [= <- _]. rewrite update_retained.
  apply (inv_object s Hinv p v _ k); try done; [congruence| |unfold_ok; lia]. by destruct Hok.
Qed.

Lemma deadline_inv s p v : inv s -> heap (tr s) !! p = Some v -> inv (act s (update (tr s) p (cancel v))).
Proof.
  intros Hinv Hp. destruct (decide (live (tr s) !! w_id v = Some p)) as [Hl|Hl].
  - destruct (inv_objects s Hinv _ _ Hl) as (w & k & Hw & Hid & Hk & Hserve & Hok). rewrite Hp in Hw. injection Hw as <-.
    rewrite update_retained. apply (inv_object s Hinv p v _ k); try done; [|unfold_ok; lia]. by apply cancel_ok.
  - apply (inv_dead s Hinv p v); try done. intros id Hid.
    destruct (inv_objects s Hinv id p Hid) as (w & k & Hw & Hwid & _). congruence.
Qed.

Lemma jump_inv s p k k' :
  inv s -> procs s !! p = Some k -> k <> Exited -> (forall b, serves k b -> serves k' b) -> slack (Some k') = 0 ->
  inv (goto s (tr s) p k').
Proof.
  intros Hinv Hk Hex Hserve Hsl. destruct (inv_proc s Hinv p k Hk Hex) as (v & Hp & _ & Hs & _).
  by eapply (inv_goto s Hinv p v); eauto.
Qed.

Lemma receive_step_inv s s' : inv s -> receive_step s s' -> inv s'.
Proof.
  intros Hinv Hstep. destruct Hstep.
  - by eapply add_live.
  - by eapply add_refused.
  - by apply set_granted_inv.
  - eapply dequeue_inv; try done. right; eauto.
  - eapply dequeue_inv; try done. by left.
  - eapply dequeue_inv; try done. by left.
  - by eapply jump_inv.
  - by eapply jump_inv.
Qed.

Lemma send_step_inv s s' : inv s -> send_step s s' -> inv s'.
Proof.
  intros Hinv Hstep. destruct Hstep.
  - by eapply add_live.
  - by eapply add_refused.
  - by eapply jump_inv.
  - by eapply jump_inv.
  - by apply reserve_inv.
  - by apply read_inv.
  - by eapply jump_inv.
  - apply unreserve_inv; try done; by destruct after.
  - eapply jump_inv; try done; by destruct after.
  - by eapply jump_inv.
  - by eapply jump_inv.
  - by eapply jump_inv.
Qed.

Lemma shared_step_inv s s' : inv s -> shared_step s s' -> inv s'.
Proof.
  intros Hinv Hstep. destruct Hstep.
  - eapply jump_inv; try done; naive_solver.
  - by apply retire_inv.
  - by apply run_callback_inv.
  - by eapply Handle_inv.
  - by eapply Grant_inv.
  - by apply inv_cancels.
  - by apply inv_cancels.
  - apply (inv_connection (act s (cancel_live (tr s) (fun _ => true)))). by apply inv_cancels.
  - by apply deadline_inv.
  - by apply inv_connection.
Qed.

Lemma step_inv s s' : inv s -> step s s' -> inv s'.
Proof.
  intros Hinv [H|[H|H]]; [by eapply receive_step_inv|by eapply send_step_inv|by eapply shared_step_inv].
Qed.

Lemma reachable_inv s : reachable s -> inv s.
Proof. intros H. revert s H. apply rtc_ind_r; [apply inv_init|]. intros y z _ Hs Hy. by eapply step_inv. Qed.

(** The windows of the live transfers, and what they add up to. *)
Lemma window_bounds s id p :
  inv s -> live (tr s) !! id = Some p -> exists v, heap (tr s) !! p = Some v /\ 0 <= in_window v <= TransferWindow.
Proof.
  intros Hinv Hl. destruct (inv_objects s Hinv id p Hl) as (v & k & Hv & _ & _ & _ & [H1 H2 H3]). exists v. split; [done|].
  pose proof (pending_of_nonneg p (pending s)). pose proof (chunks_nonneg (w_queue v)).
  destruct (w_sending v) eqn:E; [destruct (H2 eq_refl) as (? & ? & _)|destruct (H3 eq_refl) as (? & _)]; unfold in_window in *.
  - assert (0 <= slack (Some k)) by (by destruct k). lia.
  - lia.
Qed.

Lemma live_map_size t : (size (live_map t) <= size (live t))%nat.
Proof.
  unfold live_map. rewrite <- !size_dom. apply subseteq_size. intros i. rewrite !elem_of_dom, lookup_omap.
  intros [v Hv]. by destruct (live t !! i).
Qed.

Lemma live_map_window s id v : inv s -> live_map (tr s) !! id = Some v -> 0 <= in_window v <= TransferWindow.
Proof.
  intros Hinv Hv. rewrite live_map_lookup in Hv. destruct (live (tr s) !! id) as [p|] eqn:E; [|done].
  destruct (window_bounds s id p Hinv E) as (w & Hw & Hb). simpl in Hv. congruence.
Qed.

(** While a live window is open, the connection's window is open too. *)
Lemma retained_bound s : inv s -> 0 <= retained (tr s) <= ConnectionWindow.
Proof.
  intros Hinv. rewrite (inv_retained s Hinv).
  pose proof (msum_bounds in_window (live_map (tr s)) 0 TransferWindow (fun k v Hk => live_map_window s k v Hinv Hk)).
  pose proof (live_map_size (tr s)). pose proof (inv_live s Hinv). unfold TransferWindow, ConnectionWindow in *. lia.
Qed.

Lemma retained_open s id p v :
  inv s -> live (tr s) !! id = Some p -> heap (tr s) !! p = Some v -> in_window v < TransferWindow ->
  retained (tr s) < ConnectionWindow.
Proof.
  intros Hinv Hl Hp Hw. rewrite (inv_retained s Hinv).
  assert (live_map (tr s) !! id = Some v) as Hm by (rewrite live_map_lookup, Hl; done).
  pose proof (msum_delete in_window _ _ _ Hm).
  pose proof (msum_bounds in_window (delete id (live_map (tr s))) 0 TransferWindow) as Hb.
  assert (size (live_map (tr s)) = S (size (delete id (live_map (tr s))))) as Hsize.
  { rewrite map_size_delete_Some by done.
    assert (size (live_map (tr s)) <> 0%nat); [|lia]. apply map_size_ne_0_lookup. by eexists _, _. }
  assert (0 * Z.of_nat (size (delete id (live_map (tr s)))) <= msum in_window (delete id (live_map (tr s))) <=
    TransferWindow * Z.of_nat (size (delete id (live_map (tr s))))).
  { apply Hb. intros i w Hi. apply lookup_delete_Some in Hi as [_ Hi]. by eapply live_map_window. }
  pose proof (live_map_size (tr s)). pose proof (inv_live s Hinv). unfold TransferWindow, ConnectionWindow in *. lia.
Qed.

(** The queue of a receiver has room for every item its window admits. *)
Lemma queue_room s id p v :
  inv s -> live (tr s) !! id = Some p -> heap (tr s) !! p = Some v -> w_sending v = false -> w_ending v = false ->
  (length (w_queue v) < queue_capacity)%nat.
Proof.
  intros Hinv Hl Hp Hs He. destruct (inv_objects s Hinv id p Hl) as (w & k & Hw & _ & _ & _ & [H1 H2 H3]).
  rewrite Hp in Hw. injection Hw as <-. destruct (H3 Hs) as (G1 & G2 & _). rewrite He in G2.
  pose proof (queue_length (w_queue v)). pose proof (pending_of_nonneg p (pending s)).
  unfold queue_capacity, TransferWindow in *. lia.
Qed.

(* ------------------------------------------------------------------ *)
(** ** Properties *)

(** in every state the goroutines, callbacks and frames can reach, the retained
    counter is the sum of the live transfers' windows; it stays within 32, every window
    within 4, at most 8 transfers are live, and with the retired ones at most 4096. *)
Theorem transfers_bounded s :
  reachable s ->
  retained (tr s) = msum in_window (live_map (tr s)) /\ 0 <= retained (tr s) <= ConnectionWindow /\
  (forall id v, live_map (tr s) !! id = Some v -> 0 <= in_window v <= TransferWindow) /\
  (size (live (tr s)) <= 8)%nat /\ (size (live (tr s)) + size (recent (tr s)) <= 4096)%nat /\
  (forall id, is_Some (live (tr s) !! id) -> recent (tr s) !! id = None).
Proof.
  intros Hr. apply reachable_inv in Hr as Hinv. split; [apply inv_retained, Hinv|]. split; [by apply retained_bound|].
  split; [intros id v; by apply live_map_window|]. split; [apply Hinv|]. split; [apply Hinv|]. apply (inv_disjoint s Hinv).
Qed.

(** a live, granted receiver that has not seen its end takes every chunk of its
    request that is next in sequence and inside its own window: the connection's window
    and the queue of five never refuse it. *)
Theorem handle_accepts_chunk s now f p v b :
  reachable s -> live_object (tr s) (TransferID f) = Some (p, v) ->
  w_sending v = false -> w_ending v = false -> w_granted v = true ->
  Type_ f = lit "transfer_chunk" -> ID f = w_request v -> Sequence f = w_next v -> in_window v < TransferWindow ->
  Chunk f = Ok b ->
  Handle (tr s) now f =
    (set_retained (update (tr s) p (set_queue (set_counts v (w_next v + 1) (w_acked v) (w_sent v))
       (w_queue v ++ [{| item_frame := f; item_body := b |}]))) (retained (tr s) + 1), None).
Proof.
  intros Hr Hl Hs He Hg Ht Hid Hseq Hw Hb. apply reachable_inv in Hr as Hinv.
  pose proof (live_object_live _ _ _ _ Hl) as [Hlive Hp].
  pose proof (retained_open s _ p v Hinv Hlive Hp Hw) as Hopen. pose proof (queue_room s _ p v Hinv Hlive Hp Hs He) as Hroom.
  unfold Handle, kind_is. rewrite Hl, Ht, Hid, Hs, He, Hg, Hseq, Hb. unfold bytes_eqb. rewrite (bool_decide_true (w_request v = w_request v)) by done.
  change (bool_decide (lit "transfer_chunk" = lit "ack")) with false.
  change (bool_decide (lit "transfer_chunk" = lit "transfer_cancel")) with false.
  change (bool_decide (lit "transfer_chunk" = lit "transfer_chunk")) with true. simpl.
  rewrite Z.eqb_refl. unfold in_window in Hw. rewrite (proj2 (Z.leb_gt _ _)), (proj2 (Z.leb_gt _ _)) by lia. simpl.
  unfold enqueue. simpl. apply Nat.ltb_lt in Hroom. by rewrite Hroom.
Qed.

(** a sender in its reservation loop is blocked exactly when its own four chunks
    are all unacknowledged; the other transfers of the connection never block it. *)
Theorem reserve_blocked_iff s p v :
  reachable s -> procs s !! p = Some SReserve -> heap (tr s) !! p = Some v ->
  (reserve (tr s) p = None <-> in_window v = TransferWindow).
Proof.
  intros Hr Hk Hp. apply reachable_inv in Hr as Hinv.
  destruct (inv_proc s Hinv p _ Hk) as (w & Hw & Hl & _ & Hok); [done|]. rewrite Hp in Hw. injection Hw as <-.
  pose proof (retained_open s _ p v Hinv Hl Hp) as Hopen. destruct Hok as [Hwin _ _].
  unfold reserve. rewrite Hp. fold (in_window v). destruct (Z.ltb_spec (in_window v) TransferWindow) as [H|H].
  - rewrite (proj2 (Z.ltb_lt _ _)) by auto. simpl. split; [done|lia].
  - simpl. split; [lia|done].
Qed.

(** after a transfer fails, the frames its peer may still have sent are not protocol
    violations: until five seconds past its deadline the retired receiver accepts the next
    chunk inside its window, its end, and a cancel. *)
Theorem retired_tolerates s now f p v :
  reachable s -> procs s !! p = Some (Retiring true) -> heap (tr s) !! p = Some v ->
  w_sending v = false -> w_ending v = false -> now < w_expiry v + 5 * Second ->
  TransferID f = w_id v -> ID f = w_request v ->
  (Type_ f = lit "transfer_chunk" /\ Sequence f = w_next v /\ in_window v < TransferWindow) \/
  Type_ f = lit "transfer_end" \/ Type_ f = lit "transfer_cancel" ->
  (Handle (retire (tr s) p true) now f).2 = None.
Proof.
  intros Hr Hk Hp Hs He Hnow Hid Hrq Hf. apply reachable_inv in Hr as Hinv.
  destruct (inv_proc s Hinv p _ Hk) as (w & Hw & Hl & _ & _); [done|]. rewrite Hp in Hw. injection Hw as <-.
  unfold retire. rewrite Hp. unfold is_live. rewrite bool_decide_true by done.
  unfold Handle, live_object. simpl. rewrite Hid, lookup_delete_eq.
  unfold handle_retired. simpl. rewrite Hid, lookup_insert_eq. simpl. rewrite (proj2 (Z.ltb_lt _ _)) by done.
  unfold kind_is. rewrite Hs, He, Hrq, andb_false_r. simpl. unfold bytes_eqb. rewrite bool_decide_true by done. simpl.
  destruct Hf as [(-> & -> & Hwin)|[-> | ->]]; try reflexivity. unfold in_window in Hwin.
  rewrite Z.eqb_refl, (proj2 (Z.ltb_lt _ _)) by done. reflexivity.
Qed.

(* ------------------------------------------------------------------ *)
(** ** Witnesses *)

Lemma demo_receiver_reachable : reachable demo_receiver.
Proof.
  eapply rtc_l; [left; eapply (step_receive init_system 0 false (Some 100) [114] [116] true); vm_compute; reflexivity|].
  apply rtc_once. left. apply (step_receive_granted _ 0%nat true). reflexivity.
Qed.

Lemma demo_sender_reachable : reachable demo_sender.
Proof.
  eapply rtc_l; [right; left; eapply (step_send init_system 0 false (Some 100) [114] [116]); vm_compute; reflexivity|].
  apply rtc_once. right. left. apply step_opened. reflexivity.
Qed.

Lemma transfers_bounded_witness : retained (tr demo_receiver) = msum in_window (live_map (tr demo_receiver)).
Proof. apply (transfers_bounded demo_receiver). exact demo_receiver_reachable. Defined.

Lemma handle_accepts_chunk_witness : (Handle (tr demo_receiver) 0 (demo_frame "transfer_chunk" 0 [97; 71; 107; 61])).2 = None.
Proof.
  rewrite (handle_accepts_chunk demo_receiver 0 (demo_frame "transfer_chunk" 0 [97; 71; 107; 61]) 0%nat
    (demo_object false true) [104; 105] demo_receiver_reachable); reflexivity.
Defined.

Lemma reserve_blocked_iff_witness :
  reserve (tr demo_sender) 0%nat = None <-> in_window (demo_object true false) = TransferWindow.
Proof. apply (reserve_blocked_iff demo_sender 0%nat _ demo_sender_reachable); reflexivity. Defined.

Lemma demo_failed_reachable : reachable demo_failed.
Proof.
  eapply rtc_r; [eapply rtc_r; [exact demo_receiver_reachable|right; right; apply step_close]|].
  right. right. apply (step_canceled _ 0%nat RWait); [reflexivity|by left|vm_compute; reflexivity].
Qed.

Lemma retired_tolerates_witness : (Handle (retire (tr demo_failed) 0%nat true) 50 (demo_frame "transfer_end" 0 [])).2 = None.
Proof.
  apply (retired_tolerates demo_failed 50 _ 0%nat (cancel (demo_object false true)) demo_failed_reachable); try reflexivity.
  right. left. reflexivity.
Defined.
