(* ===== verification/GoStrings.v ===== *)
(** * The parts of package [strings] the contract code uses
    On byte strings: cutting at a byte, trimming, splitting, replacing one byte by a
    string, and membership of a string in a list. *)
From Stdlib Require Import ZArith Lia.
From stdpp Require Import base list option sorting strings.
From S2P Require Import Prelude Json.
Local Open Scope Z_scope.

(** Everything before the first byte that satisfies [p], and what follows that byte. *)
Fixpoint cut_at (p : Z -> bool) (s : bytes) : bytes * option bytes :=
  match s with
  | [] => ([], None)
  | c :: r => if p c then ([], Some r) else let '(a, b) := cut_at p r in (c :: a, b)
  end.

(** [strings.HasPrefix] with a one-byte prefix. *)
Definition has_prefix (c : Z) (s : bytes) : bool :=
  match s with d :: _ => d =? c | [] => false end.

(** [strings.TrimLeft] and [strings.TrimRight] with a cutset of one byte. *)
Fixpoint trim_left (c : Z) (s : bytes) : bytes :=
  match s with d :: r => if d =? c then trim_left c r else s | [] => [] end.
Definition trim_right (c : Z) (s : bytes) : bytes := reverse (trim_left c (reverse s)).

(** [strings.Split] at a byte. *)
Fixpoint split_at (c : Z) (s : bytes) : list bytes :=
  match s with
  | [] => [[]]
  | d :: r =>
      if d =? c then [] :: split_at c r
      else match split_at c r with a :: l => (d :: a) :: l | [] => [[d]] end
  end.

(** [strings.ReplaceAll] of a one-byte string. *)
Definition replace_byte (c : Z) (by_ : bytes) (s : bytes) : bytes :=
  concat ((fun d => if d =? c then by_ else [d]) <$> s).

(** ASCII lower case. *)
Definition lower (c : Z) : Z := if (65 <=? c) && (c <=? 90) then c + 32 else c.

(** Membership of a string in a list of strings. *)
Definition contains (a : list bytes) (v : bytes) : bool := existsb (fun s => bytes_eqb s v) a.

(** [sort.Strings]. *)
Fixpoint insert_sorted (s : bytes) (l : list bytes) : list bytes :=
  match l with
  | [] => [s]
  | x :: r => if bytes_ltb x s then x :: insert_sorted s r else s :: l
  end.
Definition sort_strings (l : list bytes) : list bytes := foldr insert_sorted [] l.

(* ------------------------------------------------------------------ *)
(** ** Lemmas *)

Lemma bytes_eqb_true a b : bytes_eqb a b = true <-> a = b.
Proof. unfold bytes_eqb. apply bool_decide_eq_true. Qed.
Lemma bytes_eqb_false a b : bytes_eqb a b = false <-> a <> b.
Proof. unfold bytes_eqb. apply bool_decide_eq_false. Qed.
Lemma bytes_eqb_refl a : bytes_eqb a a = true.
Proof. by apply bytes_eqb_true. Qed.

Lemma contains_elem a v : contains a v = true <-> v ∈ a.
Proof.
  unfold contains. rewrite existsb_exists. split.
  - intros (x & Hx & E). apply bytes_eqb_true in E as ->. by apply list_elem_of_In.
  - intros H. exists v. rewrite bytes_eqb_refl. by rewrite <- list_elem_of_In.
Qed.

Lemma contains_false a v : contains a v = false <-> v ∉ a.
Proof. rewrite <- contains_elem. by destruct (contains a v). Qed.

Lemma cut_at_none p s : forallb (fun c => negb (p c)) s = true -> cut_at p s = (s, None).
Proof.
  induction s as [|c s IH]; [done|]. simpl. intros H. apply andb_true_iff in H as [H1 H2].
  apply negb_true_iff in H1. by rewrite H1, IH.
Qed.

Lemma cut_at_some p s c r :
  forallb (fun c => negb (p c)) s = true -> p c = true -> cut_at p (s ++ c :: r) = (s, Some r).
Proof.
  intros H Hc. induction s as [|d s IH]; simpl; [by rewrite Hc|].
  simpl in H. apply andb_true_iff in H as [H1 H2]. apply negb_true_iff in H1. by rewrite H1, IH.
Qed.

Lemma trim_left_app c s : exists n, s = replicate n c ++ trim_left c s.
Proof.
  induction s as [|d s [n IH]]; [by exists O|]. simpl. destruct (Z.eqb_spec d c) as [->|].
  - exists (S n). simpl. by rewrite <- IH.
  - by exists O.
Qed.

Lemma trim_left_head c s d r : trim_left c s = d :: r -> d <> c.
Proof.
  induction s as [|x s IH]; [done|]. simpl. destruct (Z.eqb_spec x c); [done|]. congruence.
Qed.

Lemma trim_right_app c s : exists n, s = trim_right c s ++ replicate n c.
Proof.
  destruct (trim_left_app c (reverse s)) as [n Hn]. exists n. unfold trim_right.
  rewrite <- (reverse_involutive s) at 1. rewrite Hn at 1. rewrite reverse_app, reverse_replicate. done.
Qed.

Lemma trim_right_last c s d r : trim_right c s = r ++ [d] -> d <> c.
Proof.
  unfold trim_right. intros H. assert (trim_left c (reverse s) = d :: reverse r) as H'.
  { rewrite <- (reverse_involutive (trim_left c (reverse s))), H, reverse_app. done. }
  by apply trim_left_head in H'.
Qed.

Lemma split_at_nonempty c s : split_at c s <> [].
Proof. destruct s as [|d s]; [done|]. simpl. destruct (d =? c); [done|]. by destruct (split_at c s). Qed.
