(* ===== verification/JsonInteger.v ===== *)
(** * Integrality of JSON number text ([contract/json_integer.go])
    The code decides whether number text denotes an integer without expanding its
    exponent, which it accumulates up to a saturation bound. [number_text] writes the
    grammar, [denotes] the exact rational value; [int64_exact] relates the two. *)
From Stdlib Require Import ZArith Lia.
From stdpp Require Import base list option strings.
From S2P Require Import Prelude Strconv Json GoStrings.
Local Open Scope Z_scope.

Definition is_e (c : Z) : bool := (c =? 101) || (c =? 69).
Definition is_dot (c : Z) : bool := c =? 46.
Definition decimalDigits (s : bytes) : bool := forallb isdigit s.

(** The loop over the digits of the exponent. *)
Definition saturate (s : bytes) : Z :=
  foldl (fun exp c => if exp <? Z.shiftl 1 40 then exp * 10 + (c - 48) else exp) 0 s.

Definition exponent_value (e : option bytes) : option Z :=
  match e with
  | None => Some 0
  | Some s =>
      let '(sign, s) := if has_prefix 43 s || has_prefix 45 s
                        then ((if has_prefix 45 s then -1 else 1), drop 1 s) else (1, s) in
      if bytes_eqb s [] || negb (decimalDigits s) then None else Some (saturate s * sign)
  end.

(** The sign, the digits without leading or trailing zeros and the number of zeros
    that follow them; [None] is [ok = false]. *)
Definition integralJSONNumber (text : bytes) : option (bool * bytes * Z) :=
  let negative := has_prefix 45 text in
  let s := if negative then drop 1 text else text in
  let '(mantissa, exponent) := cut_at is_e s in
  let '(whole, fraction) := cut_at is_dot mantissa in
  let bad := match fraction with Some f => bytes_eqb f [] || negb (decimalDigits f) | None => false end in
  if bytes_eqb whole [] || negb (decimalDigits whole) || bad then None else
  let fraction := default [] fraction in
  match exponent_value exponent with
  | None => None
  | Some exp =>
      let significand := trim_left 48 (whole ++ fraction) in
      if bytes_eqb significand [] then Some (negative, [], 0) else
      let trimmed := trim_right 48 significand in
      let exp := exp - Z.of_nat (length fraction) + Z.of_nat (length significand - length trimmed) in
      if exp <? 0 then None else Some (negative, trimmed, exp)
  end.

Definition JSONNumberIsInteger (text : bytes) : bool :=
  match integralJSONNumber text with Some _ => true | None => false end.

Definition JSONNumberInt64 (text : bytes) : option Z :=
  match integralJSONNumber text with
  | None => None
  | Some (negative, digits, zeros) =>
      if bytes_eqb digits [] then Some 0 else
      if 19 <? Z.of_nat (length digits) + zeros then None else
      let s := digits ++ replicate (Z.to_nat zeros) 48 in
      ParseInt (if negative then 45 :: s else s)
  end.

(* ------------------------------------------------------------------ *)
(** ** The grammar and the value *)

(** Number text by its parts: the exponent has its letter, its optional sign and its digits. *)
Record number := {
  n_negative : bool; n_whole : bytes; n_fraction : option bytes;
  n_exponent : option (bool * option bool * bytes)
}.

Definition digit_string (s : bytes) : Prop := s <> [] /\ forallb isdigit s = true.
Record valid_number (p : number) : Prop := {
  valid_whole : digit_string (n_whole p);
  valid_fraction : forall f, n_fraction p = Some f -> digit_string f;
  valid_exponent : forall u s d, n_exponent p = Some (u, s, d) -> digit_string d
}.

Definition exponent_text (e : bool * option bool * bytes) : bytes :=
  let '(upper, sign, d) := e in
  (if upper : bool then 69 else 101) :: (match sign with Some true => [45] | Some false => [43] | None => [] end) ++ d.
Definition number_text (p : number) : bytes :=
  (if n_negative p then [45] else []) ++ n_whole p ++
  (match n_fraction p with Some f => 46 :: f | None => [] end) ++
  (match n_exponent p with Some e => exponent_text e | None => [] end).

Definition number_exponent (p : number) : Z :=
  match n_exponent p with
  | None => 0
  | Some (_, sign, d) => if decide (sign = Some true) then - digits_value d else digits_value d
  end.
(** The exponent as the code accumulates it. *)
Definition saturated_exponent (p : number) : Z :=
  match n_exponent p with
  | None => 0
  | Some (_, sign, d) => if decide (sign = Some true) then - saturate d else saturate d
  end.
(** The value is [mantissa * 10 ^ scale]. *)
Definition mantissa (p : number) : Z :=
  (if n_negative p then -1 else 1) * digits_value (n_whole p ++ default [] (n_fraction p)).
Definition scale (p : number) : Z := number_exponent p - Z.of_nat (length (default [] (n_fraction p))).
Definition denotes (p : number) (n : Z) : Prop :=
  n * 10 ^ Z.max 0 (- scale p) = mantissa p * 10 ^ Z.max 0 (scale p).

(* ------------------------------------------------------------------ *)
(** ** Lemmas *)

Lemma saturate_spec s :
  forallb isdigit s = true ->
  saturate s = digits_value s \/ Z.shiftl 1 40 <= saturate s <= digits_value s.
Proof.
  unfold saturate, digits_value. change (Z.shiftl 1 40) with 1099511627776.
  assert (forall s a x, forallb isdigit s = true -> 0 <= a -> (a = x \/ 1099511627776 <= a <= x) ->
    let a' := foldl (fun exp c => if exp <? 1099511627776 then exp * 10 + (c - 48) else exp) a s in
    let x' := foldl (fun acc c => acc * 10 + (c - 48)) x s in a' = x' \/ 1099511627776 <= a' <= x') as H.
  { clear s. induction s as [|c s IH]; intros a x Hs Ha H; [done|]. cbn [foldl forallb] in *.
    apply andb_true_iff in Hs as [Hc Hs]. apply isdigit_range in Hc. apply IH; [done|destruct (Z.ltb_spec a 1099511627776); lia|].
    destruct (Z.ltb_spec a 1099511627776); lia. }
  intros Hs. by apply H; [| |left].
Qed.

(** The digits split into leading zeros, a significand that starts and ends with a
    non-zero digit, and trailing zeros. *)
Lemma significand_spec s :
  forallb isdigit s = true ->
  let sg := trim_left 48 s in let t := trim_right 48 sg in
  digits_value s = digits_value t * 10 ^ Z.of_nat (length sg - length t) /\
  forallb isdigit t = true /\
  (sg = [] -> digits_value s = 0) /\
  (sg <> [] -> t <> [] /\ digits_value t mod 10 <> 0 /\ 10 ^ (Z.of_nat (length t) - 1) <= digits_value t) /\
  (length t <= length s)%nat /\ (length sg <= length s)%nat.
Proof.
  intros Hs sg t. destruct (trim_left_app 48 s) as [a Ha]. fold sg in Ha.
  destruct (trim_right_app 48 sg) as [b Hb]. fold t in Hb.
  assert (length sg - length t = b)%nat as Hlen by (rewrite Hb, length_app, length_replicate; lia).
  assert (digits_value s = digits_value t * 10 ^ Z.of_nat b) as Hval.
  { rewrite Ha, digits_value_app, digits_value_zeros, Hb, digits_value_app, digits_value_zeros, length_replicate. lia. }
  assert (forallb isdigit t = true) as Ht.
  { rewrite Ha, Hb, !forallb_digits_app, !andb_true_iff in Hs. tauto. }
  split; [by rewrite Hlen|]. split; [done|].
  assert (sg = [] -> t = []) as Hst. { intros E. rewrite E in Hb. symmetry in Hb. by apply app_nil in Hb as [-> _]. }
  split; [intros E; rewrite Hval, Hst by done; done|].
  split; [|split; [rewrite Ha, Hb, !length_app; lia|rewrite Ha, length_app; lia]].
  intros Hne. assert (t <> []) as Htne.
  { intros E. rewrite E in Hb. simpl in Hb. destruct b; [done|].
    assert (trim_left 48 s = 48 :: replicate b 48) as E' by done. by apply trim_left_head in E'. }
  split; [done|]. split.
  - destruct (exists_last Htne) as (r & d & E). assert (d <> 48) as Hd by (by eapply trim_right_last; fold t; exact E).
    rewrite E, digits_value_app. rewrite E, forallb_digits_app in Ht. apply andb_true_iff in Ht as [_ Ht].
    cbn [forallb] in Ht. rewrite andb_true_r in Ht. apply isdigit_range in Ht. simpl (length [d]). change (10 ^ Z.of_nat 1) with 10.
    unfold digits_value at 2. simpl. rewrite Z.add_comm, Z.mod_add by lia. rewrite Z.mod_small; lia.
  - destruct t as [|d r] eqn:E; [done|]. assert (d <> 48) as Hd.
    { apply (trim_left_head 48 s d (r ++ replicate b 48)). fold sg. by rewrite Hb. }
    cbn [forallb] in Ht. apply andb_true_iff in Ht as [Hdd Hr]. apply isdigit_range in Hdd.
    rewrite digits_value_cons. pose proof (digits_value_range r Hr). cbn [length].
    replace (Z.of_nat (S (length r)) - 1) with (Z.of_nat (length r)) by lia.
    assert (0 < 10 ^ Z.of_nat (length r)) by (apply Z.pow_pos_nonneg; lia). nia.
Qed.

Lemma digits_no q s :
  (forall c, isdigit c = true -> q c = false) -> forallb isdigit s = true -> forallb (fun c => negb (q c)) s = true.
Proof.
  intros Hq. induction s as [|c s IH]; [done|]. cbn [forallb]. intros H. apply andb_true_iff in H as [Hc H].
  by rewrite (Hq c Hc), IH.
Qed.
Lemma digit_not_e c : isdigit c = true -> is_e c = false.
Proof. intros H. apply isdigit_range in H. unfold is_e. destruct (Z.eqb_spec c 101), (Z.eqb_spec c 69); lia || done. Qed.
Lemma digit_not_dot c : isdigit c = true -> is_dot c = false.
Proof. intros H. apply isdigit_range in H. unfold is_dot. destruct (Z.eqb_spec c 46); lia || done. Qed.
Lemma digit_not_sign s c : digit_string s -> c = 43 \/ c = 45 -> has_prefix c s = false.
Proof.
  intros [Hne Hs] Hc. destruct s as [|d s]; [done|]. cbn [forallb] in Hs. apply andb_true_iff in Hs as [Hd _].
  apply isdigit_range in Hd. simpl. destruct (Z.eqb_spec d c); lia || done.
Qed.

Lemma exponent_text_value sign d :
  digit_string d ->
  exponent_value (Some ((match sign with Some true => [45] | Some false => [43] | None => [] end) ++ d)) =
    Some (if decide (sign = Some true) then - saturate d else saturate d).
Proof.
  intros [Hne Hd]. pose proof (digit_not_sign d 43 (conj Hne Hd)) as H1. pose proof (digit_not_sign d 45 (conj Hne Hd)) as H2.
  unfold exponent_value. destruct sign as [[|]|]; simpl.
  - rewrite drop_0, (proj2 (bytes_eqb_false d [])) by done. unfold decimalDigits. rewrite Hd. simpl. f_equal. lia.
  - rewrite drop_0, (proj2 (bytes_eqb_false d [])) by done. unfold decimalDigits. rewrite Hd. simpl. f_equal. lia.
  - rewrite H1, H2 by auto. simpl. rewrite (proj2 (bytes_eqb_false d [])) by done.
    unfold decimalDigits. rewrite Hd. simpl. f_equal. lia.
Qed.

(** The mantissa of number text, with its fraction cut off. *)
Lemma mantissa_cut whole (fraction : option bytes) :
  digit_string whole -> (forall f, fraction = Some f -> digit_string f) ->
  let text := whole ++ match fraction with Some f => 46 :: f | None => [] end in
  forallb (fun c => negb (is_e c)) text = true /\ cut_at is_dot text = (whole, fraction).
Proof.
  intros [_ Hw] Hf text. unfold text. destruct fraction as [f|].
  - destruct (Hf f eq_refl) as [_ Hfd]. split.
    + rewrite forallb_app. rewrite (digits_no is_e whole digit_not_e Hw). simpl. by apply (digits_no is_e f digit_not_e).
    + apply cut_at_some; [by apply (digits_no is_dot _ digit_not_dot)|done].
  - rewrite app_nil_r. split; [by apply (digits_no is_e _ digit_not_e)|]. apply cut_at_none. by apply (digits_no is_dot _ digit_not_dot).
Qed.

Lemma integral_number_text p :
  valid_number p ->
  integralJSONNumber (number_text p) =
    let sg := trim_left 48 (n_whole p ++ default [] (n_fraction p)) in
    if bytes_eqb sg [] then Some (n_negative p, [], 0) else
    let t := trim_right 48 sg in
    let exp := saturated_exponent p - Z.of_nat (length (default [] (n_fraction p))) + Z.of_nat (length sg - length t) in
    if exp <? 0 then None else Some (n_negative p, t, exp).
Proof.
  intros [Hw Hf He]. unfold integralJSONNumber, number_text.
  destruct (mantissa_cut (n_whole p) (n_fraction p) Hw Hf) as [Hno Hcut].
  set (m := n_whole p ++ match n_fraction p with Some f => 46 :: f | None => [] end) in *.
  assert (forall r, n_whole p ++ (match n_fraction p with Some f => 46 :: f | None => [] end) ++ r = m ++ r) as Hm
    by (intros r; unfold m; by rewrite <- app_assoc).
  rewrite Hm. clear Hm. set (e := match n_exponent p with Some e => exponent_text e | None => [] end).
  assert (has_prefix 45 ((if n_negative p then [45] else []) ++ m ++ e) = n_negative p) as Hneg.
  { destruct (n_negative p); [done|]. pose proof (digit_not_sign _ 45 Hw ltac:(auto)) as H.
    unfold m. destruct Hw as [Hne _]. by destruct (n_whole p). }
  rewrite Hneg.
  assert ((if n_negative p then drop 1 ((if n_negative p then [45] else []) ++ m ++ e)
    else (if n_negative p then [45] else []) ++ m ++ e) = m ++ e) as -> by (by destruct (n_negative p)).
  assert (exists x, cut_at is_e (m ++ e) = (m, x) /\ exponent_value x = Some (saturated_exponent p)) as (x & -> & Hx).
  { unfold e, saturated_exponent. destruct (n_exponent p) as [[[u sg] d]|] eqn:E.
    - eexists. split; [apply cut_at_some; [done|by destruct u]|]. apply exponent_text_value. by eapply He.
    - exists None. rewrite app_nil_r. split; [by apply cut_at_none|done]. }
  rewrite Hcut, Hx. destruct Hw as [Hne Hd]. rewrite (proj2 (bytes_eqb_false _ _)) by done. unfold decimalDigits. rewrite Hd. simpl.
  destruct (n_fraction p) as [f|]; [|done]. destruct (Hf f eq_refl) as [Hfne Hfd].
  rewrite (proj2 (bytes_eqb_false _ _)) by done. by rewrite Hfd.
Qed.

(** [t * 10 ^ k * 10 ^ s] is the integer [n] exactly when the powers are not negative. *)
Lemma power_integral n t k s :
  t mod 10 <> 0 -> 0 <= k ->
  (n * 10 ^ Z.max 0 (- s) = t * 10 ^ k * 10 ^ Z.max 0 s <-> 0 <= s + k /\ n = t * 10 ^ (s + k)).
Proof.
  intros Ht Hk. destruct (Z.le_ge_cases 0 s) as [Hs|Hs].
  - rewrite Z.max_l, Z.max_r, Z.pow_0_r, Z.mul_1_r by lia. rewrite <- Z.mul_assoc, <- Z.pow_add_r by lia.
    rewrite (Z.add_comm k s). split; [intros ->; split; [lia|done]|by intros [_ ->]].
  - rewrite Z.max_r, Z.max_l, Z.pow_0_r, Z.mul_1_r by lia. destruct (Z.le_gt_cases 0 (s + k)) as [Hsk|Hsk].
    + assert (10 ^ k = 10 ^ (s + k) * 10 ^ (- s)) as -> by (rewrite <- Z.pow_add_r by lia; f_equal; lia).
      assert (0 < 10 ^ (- s)) by (apply Z.pow_pos_nonneg; lia). rewrite Z.mul_assoc.
      split; [intros E; split; [done|]; by apply Z.mul_reg_r in E; [|lia]|by intros [_ ->]].
    + split; [|intros [? _]; lia]. intros E. exfalso. apply Ht.
      assert (10 ^ (- s) = 10 * 10 ^ (- s - k - 1) * 10 ^ k) as Hp.
      { rewrite <- (Z.pow_1_r 10) at 2. rewrite <- !Z.pow_add_r by lia. f_equal. lia. }
      rewrite Hp, !Z.mul_assoc in E. assert (0 < 10 ^ k) by (apply Z.pow_pos_nonneg; lia).
      apply Z.mul_reg_r in E; [|lia]. rewrite <- E, <- Z.mul_assoc, (Z.mul_comm 10), Z.mul_assoc. apply Z.mod_mul. lia.
Qed.

(** The exponent the code uses agrees with the exact one in what it decides. *)
Lemma saturated_agrees p :
  valid_number p ->
  saturated_exponent p = number_exponent p \/
  2 ^ 40 <= saturated_exponent p <= number_exponent p \/ number_exponent p <= saturated_exponent p <= - 2 ^ 40.
Proof.
  intros [_ _ He]. unfold saturated_exponent, number_exponent. destruct (n_exponent p) as [[[u sg] d]|]; [|by left].
  destruct (He u sg d eq_refl) as [_ Hd]. pose proof (saturate_spec d Hd) as H. change (Z.shiftl 1 40) with (2 ^ 40) in H.
  case_decide; lia.
Qed.

Section Exact.
Context (p : number) (Hp : valid_number p) (Hlen : Z.of_nat (length (number_text p)) < 2 ^ 39).

Local Abbreviation digits := (n_whole p ++ default [] (n_fraction p)).
Local Abbreviation sg := (trim_left 48 digits).
Local Abbreviation t := (trim_right 48 sg).
Local Abbreviation zeros := (Z.of_nat (length sg - length t)).

Lemma digits_ok : forallb isdigit digits = true.
Proof.
  destruct Hp as [[_ Hw] Hf _]. rewrite forallb_digits_app, Hw. destruct (n_fraction p) as [f|]; [|done].
  by destruct (Hf f eq_refl).
Qed.

Lemma digits_length : Z.of_nat (length digits) < 2 ^ 39 /\ Z.of_nat (length (default [] (n_fraction p))) <= Z.of_nat (length digits).
Proof.
  rewrite length_app. split; [|lia]. unfold number_text in Hlen. rewrite !length_app in Hlen.
  destruct (n_fraction p); simpl in *; lia.
Qed.

Lemma denotes_zero n : sg = [] -> (denotes p n <-> n = 0).
Proof.
  intros E. unfold denotes, mantissa. destruct (significand_spec _ digits_ok) as (_ & _ & H & _). rewrite (H E).
  rewrite Z.mul_0_r, Z.mul_0_l. assert (0 < 10 ^ Z.max 0 (- scale p)) by (apply Z.pow_pos_nonneg; lia). nia.
Qed.

Lemma denotes_digits n :
  sg <> [] -> (denotes p n <-> 0 <= scale p + zeros /\
    n = (if n_negative p then -1 else 1) * digits_value t * 10 ^ (scale p + zeros)).
Proof.
  intros E. destruct (significand_spec _ digits_ok) as (Hv & _ & _ & H & _). destruct (H E) as (_ & Hm & _).
  unfold denotes, mantissa. rewrite Hv, Z.mul_assoc. apply power_integral; [|lia].
  destruct (n_negative p); [|by rewrite Z.mul_1_l]. intros E'. apply Hm.
  Z.to_euclidean_division_equations. lia.
Qed.
End Exact.

Lemma denotes_small p n :
  valid_number p -> Z.of_nat (length (number_text p)) < 2 ^ 39 ->
  let sg := trim_left 48 (n_whole p ++ default [] (n_fraction p)) in let t := trim_right 48 sg in
  let zeros := Z.of_nat (length sg - length t) in
  sg <> [] -> denotes p n -> in_int64 n -> Z.of_nat (length t) + (scale p + zeros) <= 19.
Proof.
  intros Hp Hlen sg t zeros E Hn Hi. destruct (proj1 (denotes_digits p Hp n E) Hn) as [H0 ->].
  destruct (significand_spec _ (digits_ok p Hp)) as (_ & _ & _ & H & _). destruct (H E) as (Hne & _ & Hlo). fold sg t in Hlo, Hne, H0, Hi.
  destruct (Z.le_gt_cases (Z.of_nat (length t) + (scale p + zeros)) 19) as [|Hgt]; [done|]. exfalso.
  assert (0 < Z.of_nat (length t)) by (destruct t; [done|simpl; lia]).
  assert (10 ^ 19 <= digits_value t * 10 ^ (scale p + zeros)) as Hbig.
  { transitivity (10 ^ (Z.of_nat (length t) - 1 + (scale p + zeros))); [apply Z.pow_le_mono_r; lia|].
    rewrite Z.pow_add_r by lia. apply Z.mul_le_mono_nonneg_r; [lia|done]. }
  unfold in_int64, int64_min, int64_max in Hi. fold zeros in Hi. destruct (n_negative p); lia.
Qed.

Lemma JSONNumberInt64_some p n :
  valid_number p -> Z.of_nat (length (number_text p)) < 2 ^ 39 ->
  (JSONNumberInt64 (number_text p) = Some n <-> denotes p n /\ in_int64 n).
Proof.
  intros Hp Hlen. unfold JSONNumberInt64. rewrite integral_number_text by done. cbv zeta.
  set (sg := trim_left 48 _). destruct (bytes_eqb sg []) eqn:Esg.
  { apply bytes_eqb_true in Esg. rewrite bytes_eqb_refl, (denotes_zero p Hp n Esg). unfold in_int64, int64_min, int64_max.
    split; [intros [= <-]; lia|by intros [-> _]]. }
  apply bytes_eqb_false in Esg. set (t := trim_right 48 sg).
  pose proof (denotes_digits p Hp n Esg) as Hd. pose proof (denotes_small p n Hp Hlen Esg) as Hsmall.
  destruct (significand_spec _ (digits_ok p Hp)) as (_ & Htd & _ & H & Hl1 & Hl2). destruct (H Esg) as (Htne & Htm & Hlo). clear H.
  fold sg t in Hd, Hsmall, Htd, Htne, Htm, Hlo, Hl1, Hl2. pose proof (digits_length p Hlen) as [Hdl Hfl].
  set (k := Z.of_nat (length sg - length t)) in *. set (lf := Z.of_nat (length (default [] (n_fraction p)))) in *.
  assert (scale p = number_exponent p - lf) as Hscale by done.
  destruct (saturated_agrees p Hp) as [Hs|[Hs|Hs]].
  2: { destruct (Z.ltb_spec (saturated_exponent p - lf + k) 0); [lia|]. rewrite (proj2 (bytes_eqb_false t [])) by done.
       rewrite (proj2 (Z.ltb_lt _ _)) by lia. split; [done|]. intros [H1 H2]. specialize (Hsmall H1 H2). lia. }
  2: { destruct (Z.ltb_spec (saturated_exponent p - lf + k) 0); [|lia]. split; [done|]. intros [H1 _].
       apply Hd in H1 as [H1 _]. lia. }
  rewrite Hs, <- Hscale. destruct (Z.ltb_spec (scale p + k) 0).
  { split; [done|]. intros [H1 _]. apply Hd in H1 as [H1 _]. lia. }
  rewrite (proj2 (bytes_eqb_false t [])) by done. destruct (Z.ltb_spec 19 (Z.of_nat (length t) + (scale p + k))).
  { split; [done|]. intros [H1 H2]. specialize (Hsmall H1 H2). lia. }
  set (s := t ++ replicate (Z.to_nat (scale p + k)) 48).
  assert (digits_value s = digits_value t * 10 ^ (scale p + k)) as Hv.
  { unfold s. rewrite digits_value_app, digits_value_zeros, length_replicate, Z2Nat.id by lia. lia. }
  assert (forallb isdigit s = true) as Hsd.
  { unfold s. rewrite forallb_digits_app, Htd. simpl. clear. induction (Z.to_nat (scale p + k)); [done|]. simpl. done. }
  assert (s <> []) as Hsne by (unfold s; by destruct t). pose proof (digits_value_range s Hsd).
  rewrite Hd. unfold in_int64, int64_min, int64_max. destruct (n_negative p).
  - rewrite ParseInt_neg by done. rewrite Hv in *. unfold int64_min. destruct (Z.leb_spec (- 2 ^ 63) (- (digits_value t * 10 ^ (scale p + k)))).
    + split; [intros [= <-]; lia|]. intros [[_ ->] _]. f_equal. lia.
    + split; [done|]. lia.
  - rewrite ParseInt_digits by done. rewrite Hv in *. unfold int64_max. destruct (Z.leb_spec (digits_value t * 10 ^ (scale p + k)) (2 ^ 63 - 1)).
    + split; [intros [= <-]; lia|]. intros [[_ ->] _]. f_equal. lia.
    + split; [done|]. lia.
Qed.

Lemma JSONNumberIsInteger_iff p :
  valid_number p -> Z.of_nat (length (number_text p)) < 2 ^ 39 ->
  (JSONNumberIsInteger (number_text p) = true <-> exists n, denotes p n).
Proof.
  intros Hp Hlen. unfold JSONNumberIsInteger. rewrite integral_number_text by done. cbv zeta.
  set (sg := trim_left 48 _). destruct (bytes_eqb sg []) eqn:Esg.
  { apply bytes_eqb_true in Esg. split; [|done]. intros _. exists 0. by apply (denotes_zero p Hp). }
  apply bytes_eqb_false in Esg. set (t := trim_right 48 sg). pose proof (fun n => denotes_digits p Hp n Esg) as Hd.
  destruct (significand_spec _ (digits_ok p Hp)) as (_ & _ & _ & _ & Hl1 & Hl2). fold sg t in Hd, Hl1, Hl2.
  pose proof (digits_length p Hlen) as [Hdl Hfl]. unfold scale in Hd.
  pose proof (saturated_agrees p Hp) as Hs.
  destruct (Z.ltb_spec (saturated_exponent p - Z.of_nat (length (default [] (n_fraction p))) + Z.of_nat (length sg - length t)) 0).
  - split; [done|]. intros [n Hn]. apply Hd in Hn as [Hn _]. lia.
  - split; [|done]. intros _. eexists. apply Hd. split; [lia|done].
Qed.

(* ------------------------------------------------------------------ *)
(** ** Properties *)

(** on number text of any shape (shorter than 2^39 bytes) the integer test is exact
    although the exponent is never expanded: the text is accepted as an integer exactly
    when its rational value is one, and the [int64] returned is that value, absent
    exactly when it does not fit. *)
Theorem int64_exact p :
  valid_number p -> Z.of_nat (length (number_text p)) < 2 ^ 39 ->
  (JSONNumberIsInteger (number_text p) = true <-> exists n, denotes p n) /\
  (forall n, JSONNumberInt64 (number_text p) = Some n <-> denotes p n /\ in_int64 n).
Proof.
  intros Hp Hlen. split; [by apply JSONNumberIsInteger_iff|]. intros n. by apply JSONNumberInt64_some.
Qed.

(** [-12.50e1] is -125. *)
Lemma int64_exact_witness :
  number_text {| n_negative := true; n_whole := [49; 50]; n_fraction := Some [53; 48];
    n_exponent := Some (false, None, [49]) |} = lit "-12.50e1" /\
  JSONNumberInt64 (lit "-12.50e1") = Some (-125).
Proof.
  split; [reflexivity|].
  apply (int64_exact {| n_negative := true; n_whole := [49; 50]; n_fraction := Some [53; 48];
    n_exponent := Some (false, None, [49]) |}).
  - split; [split; [done|reflexivity]| |]; intros; simpl in *; simplify_eq; split; done.
  - vm_compute. reflexivity.
  - split; vm_compute; [reflexivity|split; discriminate].
Defined.
