(* ===== verification/InputValue.v ===== *)
(** * Input values and their limits ([contract/input.go], [contract/types.go])
    The dynamic values the contract code validates: JSON values and the file leaves a
    receiver has taken ownership of. [checkJSONLimits] bounds the nesting, the number
    of values and the size of the canonical text of a value without writing that text;
    [limits_exact] relates it to the text that [CanonicalInput] writes. [int] and
    [int64] are one constructor, since the code converts the first to the second. A Go
    map is visited in an unspecified order; the model visits it in key order, which
    decides only which of several errors is reported. Values are trees: the code's test
    for cyclic objects never fires on them. *)
From Stdlib Require Import ZArith Lia SpecFloat.
From stdpp Require Import base list option strings.
From S2P Require Import Prelude Utf8 Strconv GoFloat Json JsonText Canonical GoStrings.
Local Open Scope Z_scope.

Record FileValue := {
  fv_Pointer : bytes; fv_ID : bytes; fv_Name : bytes; fv_MIMEType : bytes; fv_SHA256 : bytes;
  fv_RequestID : bytes; fv_SizeBytes : Z
}.

Unset Elimination Schemes.
Inductive value : Type :=
| VNull
| VBool (b : bool)
| VStr (s : bytes)
| VInt (n : Z)
| VNumber (text : bytes)
| VFloat (f : spec_float)
| VArr (l : list value)
| VObj (m : list (bytes * value))
| VFile (f : FileValue).
Set Elimination Schemes.

Section ValueInd.
Context (P : value -> Prop).
Context (HNull : P VNull) (HBool : forall b, P (VBool b)) (HStr : forall s, P (VStr s))
  (HInt : forall n, P (VInt n)) (HNumber : forall t, P (VNumber t)) (HFloat : forall f, P (VFloat f))
  (HArr : forall l, Forall P l -> P (VArr l))
  (HObj : forall m, Forall (fun kv => P kv.2) m -> P (VObj m)) (HFile : forall f, P (VFile f)).

Fixpoint value_ind (v : value) : P v :=
  match v with
  | VNull => HNull
  | VBool b => HBool b
  | VStr s => HStr s
  | VInt n => HInt n
  | VNumber t => HNumber t
  | VFloat f => HFloat f
  | VArr l => HArr l ((fix go l : Forall P l :=
      match l with [] => Forall_nil_2 P | x :: l => Forall_cons_2 P x l (value_ind x) (go l) end) l)
  | VObj m => HObj m ((fix go m : Forall (fun kv => P kv.2) m :=
      match m with
      | [] => Forall_nil_2 _
      | x :: m => Forall_cons_2 (fun kv => P kv.2) x m (value_ind x.2) (go m)
      end) m)
  | VFile f => HFile f
  end.
End ValueInd.

(** The value as [CanonicalJSON] takes it; a file is no JSON value. *)
Fixpoint to_json (v : value) : option json :=
  match v with
  | VNull => Some JNull
  | VBool b => Some (JBool b)
  | VStr s => Some (JStr s)
  | VInt n => Some (JInt n)
  | VNumber t => Some (JNumber t)
  | VFloat f => Some (JFloat f)
  | VArr l => JArr <$> mapM to_json l
  | VObj m => JObj <$> mapM (fun kv => pair kv.1 <$> to_json kv.2) m
  | VFile _ => None
  end.
Definition canonical_value (v : value) : result bytes :=
  match to_json v with Some j => CanonicalJSON j | None => Err "unsupported canonical value" end.

(** ** Canonical input *)

Definition file_members (f : FileValue) : list (bytes * json) :=
  obj_of_list [(lit "name", JStr (fv_Name f)); (lit "mime_type", JStr (fv_MIMEType f));
               (lit "size_bytes", JInt (fv_SizeBytes f)); (lit "sha256", JStr (fv_SHA256 f))].
Fixpoint canonicalInput (v : value) : json :=
  match v with
  | VFile f => JObj (file_members f)
  | VObj m => JObj (map (fun kv => (kv.1, canonicalInput kv.2)) m)
  | VArr l => JArr (map canonicalInput l)
  | VNull => JNull
  | VBool b => JBool b
  | VStr s => JStr s
  | VInt n => JInt n
  | VNumber t => JNumber t
  | VFloat f => JFloat f
  end.
Definition CanonicalInput (v : value) : result bytes := CanonicalJSON (canonicalInput v).

(** ** File names *)

Definition IsControl (r : Z) : bool := (r <? 32) || ((127 <=? r) && (r <? 160)).

Definition ValidateBasename (s : bytes) : result unit :=
  if negb (ValidString s) || (Z.of_nat (length s) <? 1) || (255 <? Z.of_nat (length s)) ||
     bytes_eqb s (lit ".") || bytes_eqb s (lit "..") || existsb (fun c => (c =? 47) || (c =? 92)) s
  then Err "invalid file basename"
  else if existsb (fun p => IsControl p.1) (runes s) then Err "invalid file basename" else Ok tt.

(** ** Limits *)

Definition rune_bytes (r : Z) : Z :=
  if (r =? 92) || (r =? 34) || (r =? 8) || (r =? 12) || (r =? 10) || (r =? 13) || (r =? 9) then 2
  else if (r =? 8232) || (r =? 8233) then 6
  else if r <? 32 then 6 else Z.of_nat (length (EncodeRune r)).
Definition jsonStringBytes (s : bytes) : result Z :=
  if negb (ValidString s) then Err "invalid UTF-8 string"
  else Ok (foldl (fun n p => n + rune_bytes p.1) 2 (runes s)).

Definition addBytes (l : Limits) (n bytesUsed : Z) : result Z :=
  if (n <? 0) || (MaxBytes l - bytesUsed <? n) then Err "input JSON byte limit exceeded" else Ok (bytesUsed + n).

(** A loop that threads the counters and stops at the first error. *)
Definition fold_visit {A} (f : A -> Z * Z -> result (Z * Z)) : list A -> Z * Z -> result (Z * Z) :=
  fix go l st := match l with
                 | [] => Ok st
                 | x :: l => let* st := f x st in go l st
                 end.

(** The size of a file leaf: the object that stands for it. *)
Fixpoint file_strings (l : Limits) (n : Z) (values : list bytes) : result Z :=
  match values with
  | [] => Ok n
  | x :: values =>
      let* k := jsonStringBytes x in
      if MaxBytes l - n <? k then Err "input JSON byte limit exceeded" else file_strings l (n + k) values
  end.
Definition file_keys (n : Z) : Z :=
  foldl (fun n key => match jsonStringBytes key with Ok k => n + (k + 1) | Err _ => n + 1 end) n
    [lit "name"; lit "mime_type"; lit "size_bytes"; lit "sha256"].

(** [visit]: the counters are the values seen and the bytes used. *)
Fixpoint visit (l : Limits) (v : value) (d : Z) (st : Z * Z) : result (Z * Z) :=
  let '(count, used) := st in
  let count := count + 1 in
  if (MaxDepth l <? d) || (MaxItems l <? count) then Err "input JSON structural limit exceeded" else
  match v with
  | VNull => let* used := addBytes l 4 used in Ok (count, used)
  | VBool b => let* used := addBytes l (if b then 4 else 5) used in Ok (count, used)
  | VStr s => let* n := jsonStringBytes s in let* used := addBytes l n used in Ok (count, used)
  | VInt n => let* used := addBytes l (Z.of_nat (length (FormatInt n))) used in Ok (count, used)
  | VNumber t => let* b := CanonicalJSON (JNumber t) in
                 let* used := addBytes l (Z.of_nat (length b)) used in Ok (count, used)
  | VFloat f => let* b := CanonicalJSON (JFloat f) in
                let* used := addBytes l (Z.of_nat (length b)) used in Ok (count, used)
  | VFile f =>
      let* _ := ValidateBasename (fv_Name f) in
      let n := 5 + Z.of_nat (length (FormatInt (fv_SizeBytes f))) in
      let* n := file_strings l (file_keys n) [fv_Name f; fv_MIMEType f; fv_SHA256 f] in
      let* used := addBytes l n used in Ok (count, used)
  | VObj m =>
      let* used := addBytes l (2 + Z.max 0 (Z.of_nat (length m) - 1)) used in
      fold_visit (fun kv st =>
        let '(count, used) := st in
        let* n := jsonStringBytes kv.1 in
        let* used := addBytes l (n + 1) used in
        let count := count + 1 in
        if MaxItems l <? count then Err "input JSON item limit exceeded" else visit l kv.2 (d + 1) (count, used))
        m (count, used)
  | VArr a =>
      let* used := addBytes l (2 + Z.max 0 (Z.of_nat (length a) - 1)) used in
      fold_visit (fun x st => visit l x (d + 1) st) a (count, used)
  end.

Definition checkJSONLimits (v : value) (l : Limits) : result unit :=
  if (MaxBytes l <=? 0) || (MaxDepth l <=? 0) || (MaxItems l <=? 0) then Err "input JSON limits must be positive" else
  let* _ := visit l v 1 (0, 0) in Ok tt.

(** ** The measures the limits are about *)

(** Values and keys; a file leaf is one value. *)
Fixpoint value_items (v : value) : Z :=
  match v with
  | VArr l => 1 + foldr (fun x acc => value_items x + acc) 0 l
  | VObj m => 1 + foldr (fun kv acc => 1 + value_items kv.2 + acc) 0 m
  | _ => 1
  end.
Fixpoint value_nesting (v : value) : Z :=
  match v with
  | VArr l => 1 + foldr (fun x acc => Z.max (value_nesting x) acc) 0 l
  | VObj m => 1 + foldr (fun kv acc => Z.max (value_nesting kv.2) acc) 0 m
  | _ => 1
  end.
(** Every file leaf has a valid name. *)
Fixpoint names_ok (v : value) : bool :=
  match v with
  | VArr l => forallb names_ok l
  | VObj m => forallb (fun kv => names_ok kv.2) m
  | VFile f => is_ok (ValidateBasename (fv_Name f))
  | _ => true
  end.

(* ------------------------------------------------------------------ *)
(** ** Lemmas *)

Lemma rune_bytes_escape p : bad_rune p = false -> rune_bytes p.1 = Z.of_nat (length (escape_rune p)).
Proof.
  intros Hb. unfold rune_bytes, escape_rune. rewrite Hb. destruct p as [r w]. simpl.
  destruct (Z.eqb_spec r 92) as [->|]; [done|]. destruct (Z.eqb_spec r 34) as [->|]; [done|].
  destruct (Z.eqb_spec r 8) as [->|]; [done|]. destruct (Z.eqb_spec r 12) as [->|]; [done|].
  destruct (Z.eqb_spec r 10) as [->|]; [done|]. destruct (Z.eqb_spec r 13) as [->|]; [done|].
  destruct (Z.eqb_spec r 9) as [->|]; [done|]. destruct (Z.eqb_spec r 8232) as [->|]; [done|].
  destruct (Z.eqb_spec r 8233) as [->|]; [done|]. cbn [orb].
  destruct (Z.ltb_spec r 32), (Z.ltb_spec r 128), (Z.leb_spec 32 r); try lia; try done.
  unfold EncodeRune, valid_rune. repeat case_test; breflect; try lia; done.
Qed.

Lemma jsonStringBytes_quote s : jsonStringBytes s = let* t := write_string s in Ok (Z.of_nat (length t)).
Proof.
  unfold jsonStringBytes, write_string. destruct (ValidString s) eqn:E; [|done]. cbn [negb result_bind]. f_equal.
  unfold quote, quote_body. unfold ValidString in E. cbn [length]. rewrite length_app. cbn [length].
  assert (forall l n, forallb (fun p => negb (bad_rune p)) l = true ->
    foldl (fun n p => n + rune_bytes p.1) n l = n + Z.of_nat (length (concat (escape_rune <$> l)))) as H.
  { induction l as [|p l IH]; intros n Hl; [simpl; lia|]. cbn [forallb] in Hl. apply andb_true_iff in Hl as [Hp Hl].
    cbn [foldl]. rewrite IH by done. rewrite fmap_cons. cbn [concat]. rewrite length_app.
    apply negb_true_iff in Hp. rewrite (rune_bytes_escape p Hp). lia. }
  rewrite H by done. lia.
Qed.

(** The text a value contributes, and what the counters say of it. *)
Definition text_of (v : value) : result bytes := CanonicalJSON (canonicalInput v).

Record fits (l : Limits) (d : Z) (st : Z * Z) (v : value) (st' : Z * Z) : Prop := {
  fits_names : names_ok v = true;
  fits_text : exists t, text_of v = Ok t /\ st'.2 = st.2 + Z.of_nat (length t);
  fits_count : st'.1 = st.1 + value_items v;
  fits_bytes : st'.2 <= MaxBytes l;
  fits_items : st'.1 <= MaxItems l;
  fits_depth : d + value_nesting v - 1 <= MaxDepth l
}.

Lemma addBytes_ok l n used used' :
  0 <= n -> (addBytes l n used = Ok used' <-> used' = used + n /\ used' <= MaxBytes l).
Proof.
  intros Hn. unfold addBytes. rewrite (proj2 (Z.ltb_ge n 0)) by lia. simpl.
  destruct (Z.ltb_spec (MaxBytes l - used) n); split; intros H'.
  - done.
  - lia.
  - apply Ok_inj in H'. lia.
  - destruct H' as [-> _]. done.
Qed.

Lemma visit_scalar l d count used st' (r : result bytes) :
  (if (MaxDepth l <? d) || (MaxItems l <? count + 1) then Err "input JSON structural limit exceeded" else
   let* b := r in let* used := addBytes l (Z.of_nat (length b)) used in Ok (count + 1, used)) = Ok st' <->
  (exists t, r = Ok t /\ st'.2 = used + Z.of_nat (length t)) /\ st'.1 = count + 1 /\ st'.2 <= MaxBytes l /\
  st'.1 <= MaxItems l /\ d <= MaxDepth l.
Proof.
  destruct (Z.ltb_spec (MaxDepth l) d), (Z.ltb_spec (MaxItems l) (count + 1)); cbn [orb];
    try (split; [done|intros (_ & E1 & _ & E2 & E3); lia]).
  destruct r as [t|]; cbn [result_bind]; [|split; [done|intros ((? & ? & _) & _); done]].
  destruct (addBytes l (Z.of_nat (length t)) used) as [u|] eqn:E; cbn [result_bind].
  - apply addBytes_ok in E; [|lia]. split.
    + intros H'. apply Ok_inj in H' as <-. simpl. split; [exists t; split; [done|lia]|lia].
    + intros ((t' & Et & E1) & E2 & E3 & E4 & E5). apply Ok_inj in Et as <-. destruct st' as [a b]. simpl in *. subst. f_equal. f_equal. lia.
  - split; [done|]. intros ((t' & Et & E1) & E2 & E3 & _). apply Ok_inj in Et as <-.
    assert (addBytes l (Z.of_nat (length t)) used = Ok st'.2) as E' by (apply addBytes_ok; lia). congruence.
Qed.

Definition total_length (ts : list bytes) : Z := foldr (fun t acc => Z.of_nat (length t) + acc) 0 ts.

Lemma total_length_nonneg ts : 0 <= total_length ts.
Proof. induction ts as [|t ts IH]; simpl; lia. Qed.

(** The loops of the writer succeed when every element does, with the commas. *)
Lemma join_items_length first rs n :
  (exists body, join_items first rs = Ok body /\ Z.of_nat (length body) = n) <->
  (exists ts, Forall2 (fun r t => r = Ok t) rs ts /\
    n = total_length ts + (if first : bool then Z.max 0 (Z.of_nat (length rs) - 1) else Z.of_nat (length rs))).
Proof.
  revert first n. induction rs as [|r rs IH]; intros first n.
  - split; [intros (b & E & <-); apply Ok_inj in E as <-; exists []; by destruct first|].
    intros (ts & H & ->). apply Forall2_nil_inv_l in H as ->. exists []. by destruct first.
  - cbn [join_items]. split.
    + intros (body & E & <-). destruct r as [a|]; [|done]. cbn [result_bind] in E.
      destruct (join_items false rs) as [b|] eqn:Eb; [|done]. apply Ok_inj in E as <-.
      destruct (proj1 (IH false (Z.of_nat (length b)))) as (ts & Hts & E'); [by exists b|].
      exists (a :: ts). split; [by constructor|]. cbn [total_length foldr length]. fold (total_length ts).
      rewrite !length_app. destruct first; simpl length; lia.
    + intros (ts & H & ->). apply Forall2_cons_inv_l in H as (a & ts' & -> & H & ->). cbn [result_bind].
      destruct (proj2 (IH false (total_length ts' + Z.of_nat (length rs)))) as (b & -> & Hb); [by exists ts'|].
      eexists. split; [reflexivity|]. rewrite !length_app. cbn [total_length foldr length]. fold (total_length ts').
      destruct first; simpl length; lia.
Qed.

Lemma join_members_items first m :
  join_members first m = join_items first ((fun kx => let* k := write_string kx.1 in let* a := kx.2 in Ok (k ++ 58 :: a)) <$> m).
Proof.
  revert first. induction m as [|[k x] m IH]; intros first; [done|]. rewrite fmap_cons. cbn [join_members join_items].
  rewrite IH. simpl. destruct (write_string k) as [kt|]; [|done]. cbn [result_bind]. destruct x as [a|]; [|done]. cbn [result_bind].
  destruct (join_items _ _) as [b|]; [|done]. cbn [result_bind]. by rewrite <- !app_assoc.
Qed.

Lemma value_items_pos v : 1 <= value_items v.
Proof.
  induction v as [| | | | | |l IH|m IH|] using value_ind; simpl; try lia.
  - assert (0 <= foldr (fun x acc => value_items x + acc) 0 l); [|lia]. induction IH as [|x l Hx _ IHl]; simpl; lia.
  - assert (0 <= foldr (fun kv acc => 1 + value_items kv.2 + acc) 0 m); [|lia]. induction IH as [|x l Hx _ IHl]; simpl in *; lia.
Qed.

Lemma value_nesting_pos v : 1 <= value_nesting v.
Proof.
  destruct v; simpl; try lia.
  - assert (0 <= foldr (fun x acc => Z.max (value_nesting x) acc) 0 l); [|lia]. induction l; simpl; lia.
  - assert (0 <= foldr (fun kv acc => Z.max (value_nesting kv.2) acc) 0 m); [|lia]. induction m; simpl; lia.
Qed.

(** A loop over children whose visits are exact. *)
Section Children.
Context {A : Type} (l : Limits) (D : Z) (f : A -> Z * Z -> result (Z * Z)).
Context (name : A -> bool) (text : A -> result bytes) (items nesting : A -> Z).
Context (items_pos : forall x, 0 <= items x).

Record child_fits (st : Z * Z) (x : A) (st' : Z * Z) : Prop := {
  child_names : name x = true;
  child_text : exists t, text x = Ok t /\ st'.2 = st.2 + Z.of_nat (length t);
  child_count : st'.1 = st.1 + items x;
  child_bytes : st'.2 <= MaxBytes l;
  child_items : st'.1 <= MaxItems l;
  child_depth : D + nesting x <= MaxDepth l
}.

Lemma fold_visit_fits a st st' :
  Forall (fun x => forall st st', 0 <= st.2 -> (f x st = Ok st' <-> child_fits st x st')) a ->
  0 <= st.2 -> st.2 <= MaxBytes l -> st.1 <= MaxItems l -> D <= MaxDepth l ->
  (fold_visit f a st = Ok st' <->
    forallb name a = true /\
    (exists ts, Forall2 (fun x t => text x = Ok t) a ts /\ st'.2 = st.2 + total_length ts) /\
    st'.1 = st.1 + foldr (fun x acc => items x + acc) 0 a /\ st'.2 <= MaxBytes l /\ st'.1 <= MaxItems l /\
    D + foldr (fun x acc => Z.max (nesting x) acc) 0 a <= MaxDepth l).
Proof.
  intros Hf. revert st st'. induction Hf as [|x a Hx _ IH]; intros st st' H0 Hb Hi Hd.
  - simpl. split.
    + intros E. apply Ok_inj in E as <-. repeat split; try done; try lia. exists []. split; [constructor|simpl; lia].
    + intros (_ & (ts & Ht & E1) & E2 & _). apply Forall2_nil_inv_l in Ht as ->. simpl in E1.
      destruct st, st'; simpl in *. f_equal. f_equal; lia.
  - cbn [fold_visit forallb foldr]. assert (0 <= foldr (fun x acc => items x + acc) 0 a) as Hpos.
    { clear - items_pos. induction a as [|y a IH]; simpl; [lia|]. specialize (items_pos y). lia. }
    split.
    + intros E. destruct (f x st) as [st1|] eqn:Ex; [|done]. cbn [result_bind] in E.
      apply Hx in Ex; [|done]. destruct Ex as [X1 (t & Xt & X2) X3 X4 X5 X6]. fold (fold_visit f) in E.
      apply IH in E; try lia. destruct E as (E1 & (ts & Ets & E2) & E3 & E4 & E5 & E6).
      split; [by rewrite X1, E1|]. split; [exists (t :: ts); split; [by constructor|simpl; lia]|]. lia.
    + intros (E1 & (ts & Ets & E2) & E3 & E4 & E5 & E6). apply andb_true_iff in E1 as [En E1].
      apply Forall2_cons_inv_l in Ets as (t & ts' & Et & Ets & ->). cbn [total_length foldr] in E2. fold (total_length ts') in E2.
      pose proof (total_length_nonneg ts'). pose proof (items_pos x) as Hp.
      assert (f x st = Ok (st.1 + items x, st.2 + Z.of_nat (length t))) as ->.
      { apply Hx; [done|]. split; simpl; try done; try lia. by exists t. }
      cbn [result_bind]. fold (fold_visit f). apply IH; simpl; try lia.
      repeat split; try done; try lia. exists ts'. split; [done|lia].
Qed.
End Children.

Definition member_text (kv : bytes * value) : result bytes :=
  let* k := write_string kv.1 in let* a := text_of kv.2 in Ok (k ++ 58 :: a).

Lemma text_of_arr a :
  text_of (VArr a) = let* body := join_items true (text_of <$> a) in Ok (91 :: body ++ [93]).
Proof. unfold text_of, CanonicalJSON. cbn [canonicalInput writeCanonical]. by rewrite map_map. Qed.

Lemma text_of_obj m :
  text_of (VObj m) = let* body := join_items true (member_text <$> m) in Ok (123 :: body ++ [125]).
Proof.
  unfold text_of, CanonicalJSON. cbn [canonicalInput writeCanonical]. rewrite map_map, join_members_items.
  assert (forall m, (fun kx : bytes * result bytes => let* k := write_string kx.1 in let* a := kx.2 in Ok (k ++ 58 :: a)) <$>
    map (fun kv : bytes * value => ((kv.1, canonicalInput kv.2).1, writeCanonical (kv.1, canonicalInput kv.2).2)) m = member_text <$> m) as ->; [|done].
  induction m0 as [|kv m0 IH]; [done|]. cbn [map]. rewrite !fmap_cons. f_equal. exact IH.
Qed.

Lemma file_keys_eq n : file_keys n = n + 41.
Proof. change (file_keys n) with (n + (6 + 1) + (11 + 1) + (12 + 1) + (8 + 1)). lia. Qed.

(** The size of a file leaf is the size of the object that stands for it. *)
Lemma text_of_file f n :
  (exists t, text_of (VFile f) = Ok t /\ Z.of_nat (length t) = n) <->
  exists a b c, write_string (fv_Name f) = Ok a /\ write_string (fv_MIMEType f) = Ok b /\ write_string (fv_SHA256 f) = Ok c /\
    n = file_keys (5 + Z.of_nat (length (FormatInt (fv_SizeBytes f)))) + total_length [a; b; c].
Proof.
  assert (file_members f = [(lit "mime_type", JStr (fv_MIMEType f)); (lit "name", JStr (fv_Name f));
    (lit "sha256", JStr (fv_SHA256 f)); (lit "size_bytes", JInt (fv_SizeBytes f))]) as Hm by reflexivity.
  assert (forall k, ValidString k = true -> write_string k = Ok (quote k)) as Hk by (intros k E; unfold write_string; by rewrite E).
  unfold text_of, CanonicalJSON. cbn [canonicalInput]. rewrite Hm, file_keys_eq. cbn [writeCanonical map fst snd join_members].
  rewrite !Hk by reflexivity. cbn [result_bind]. cbn [total_length foldr].
  assert (length (quote (lit "mime_type")) = 11%nat) as L1 by reflexivity.
  assert (length (quote (lit "name")) = 6%nat) as L2 by reflexivity.
  assert (length (quote (lit "sha256")) = 8%nat) as L3 by reflexivity.
  assert (length (quote (lit "size_bytes")) = 12%nat) as L4 by reflexivity.
  destruct (write_string (fv_MIMEType f)) as [b|]; cbn [result_bind]; [|split; [intros (? & ? & _); done|intros (? & ? & ? & _ & ? & _); done]].
  destruct (write_string (fv_Name f)) as [a|]; cbn [result_bind]; [|split; [intros (? & ? & _); done|intros (? & ? & ? & ? & _); done]].
  destruct (write_string (fv_SHA256 f)) as [c|]; cbn [result_bind]; [|split; [intros (? & ? & _); done|intros (? & ? & ? & _ & _ & ? & _); done]].
  split.
  - intros (t & E & <-). apply Ok_inj in E as <-. exists a, b, c. do 3 (split; [done|]).
    repeat first [rewrite length_app|cbn [length]]. rewrite L1, L2, L3, L4. lia.
  - intros (a' & b' & c' & Ea & Eb & Ec & ->). apply Ok_inj in Ea as <-. apply Ok_inj in Eb as <-. apply Ok_inj in Ec as <-.
    eexists. split; [reflexivity|]. repeat first [rewrite length_app|cbn [length]]. rewrite L1, L2, L3, L4. lia.
Qed.

Lemma file_strings_ok l n values n' :
  values <> [] \/ n <= MaxBytes l ->
  (file_strings l n values = Ok n' <->
    n' <= MaxBytes l /\ exists ts, Forall2 (fun s t => write_string s = Ok t) values ts /\ n' = n + total_length ts).
Proof.
  revert n. induction values as [|x values IH]; intros n Hn.
  - destruct Hn as [Hn|Hn]; [done|]. simpl.
    split; [intros E; apply Ok_inj in E as <-; split; [done|]; exists []; split; [constructor|simpl; lia]|].
    intros (_ & ts & H & ->). apply Forall2_nil_inv_l in H as ->. simpl. f_equal. lia.
  - cbn [file_strings]. rewrite jsonStringBytes_quote. destruct (write_string x) as [t|] eqn:Ex; cbn [result_bind].
    + destruct (Z.ltb_spec (MaxBytes l - n) (Z.of_nat (length t))).
      * split; [done|]. intros (Hb & ts & Hts & ->). apply Forall2_cons_inv_l in Hts as (t' & ts' & E' & _ & ->).
        rewrite Ex in E'. apply Ok_inj in E' as <-. simpl in Hb. pose proof (total_length_nonneg ts'). unfold total_length in *. lia.
      * rewrite IH by (right; lia). split.
        -- intros (Hb & ts & Hts & ->). split; [done|]. exists (t :: ts). split; [by constructor|simpl; lia].
        -- intros (Hb & ts & Hts & ->). apply Forall2_cons_inv_l in Hts as (t' & ts' & E' & Hts & ->).
           rewrite Ex in E'. apply Ok_inj in E' as <-. split; [done|]. exists ts'. split; [done|simpl; lia].
    + split; [done|]. intros (_ & ts & Hts & _). apply Forall2_cons_inv_l in Hts as (t' & ts' & E' & _). congruence.
Qed.

Lemma visit_file l d st f st' : 0 <= st.2 -> (visit l (VFile f) d st = Ok st' <-> fits l d st (VFile f) st').
Proof.
  intros H0. destruct st as [count used]. simpl in H0. cbn [visit].
  destruct (Z.ltb_spec (MaxDepth l) d), (Z.ltb_spec (MaxItems l) (count + 1)); cbn [orb];
    try (split; [done|intros [_ _ E1 _ E2 E3]; simpl in *; lia]).
  destruct (ValidateBasename (fv_Name f)) as [u|] eqn:En; cbn [result_bind];
    [|split; [done|intros [E _ _ _ _ _]; cbn [names_ok] in E; by rewrite En in E]].
  set (n0 := file_keys _). assert (0 <= n0) as Hn0 by (unfold n0; rewrite file_keys_eq; lia).
  pose proof (text_of_file f) as Ht. fold n0 in Ht.
  assert (forall n, file_strings l n0 [fv_Name f; fv_MIMEType f; fv_SHA256 f] = Ok n <->
    n <= MaxBytes l /\ exists t, text_of (VFile f) = Ok t /\ Z.of_nat (length t) = n) as Hs.
  { intros n. rewrite file_strings_ok by (by left). rewrite Ht. split.
    - intros (Hb & ts & Hts & ->). split; [done|]. apply Forall2_cons_inv_l in Hts as (a & ts1 & Ea & Hts & ->).
      apply Forall2_cons_inv_l in Hts as (b & ts2 & Eb & Hts & ->). apply Forall2_cons_inv_l in Hts as (c & ts3 & Ec & Hts & ->).
      apply Forall2_nil_inv_l in Hts as ->. by exists a, b, c.
    - intros (Hb & a & b & c & Ea & Eb & Ec & ->). split; [done|]. exists [a; b; c]. split; [repeat constructor; done|done]. }
  remember (file_strings l n0 [fv_Name f; fv_MIMEType f; fv_SHA256 f]) as r eqn:E. clear E.
  destruct r as [n|]; cbn [result_bind].
  - destruct (proj1 (Hs n) eq_refl) as (Hb & t & Et & El). destruct (addBytes l n used) as [u'|] eqn:Ea; cbn [result_bind].
    + apply addBytes_ok in Ea; [|lia]. split.
      * intros E'. apply Ok_inj in E' as <-. split; simpl; try lia; [by rewrite En|exists t; split; [done|lia]].
      * intros [_ (t' & Et' & E1) E2 E3 E4 E5]. rewrite Et in Et'. apply Ok_inj in Et' as <-. destruct st'; simpl in *.
        f_equal. f_equal; lia.
    + split; [done|]. intros [_ (t' & Et' & E1) E2 E3 E4 E5]. rewrite Et in Et'. apply Ok_inj in Et' as <-. simpl in *.
      assert (addBytes l n used = Ok st'.2) as E' by (apply addBytes_ok; lia). congruence.
  - split; [done|]. intros [_ (t & Et & E1) _ E3 _ _]. simpl in *.
    assert (Z.of_nat (length t) <= MaxBytes l) as Hle by lia.
    pose proof (proj2 (Hs (Z.of_nat (length t))) (conj Hle (ex_intro _ t (conj Et eq_refl)))). done.
Qed.

(** The part of a visit that both kinds of children share. *)
Lemma visit_children {A} l d count used (v : value) (o c : Z) (a : list A) f name text items nesting st' :
  0 <= used ->
  (forall t, text_of v = Ok t <-> exists body, join_items true (text <$> a) = Ok body /\ t = o :: body ++ [c]) ->
  names_ok v = forallb name a -> value_items v = 1 + foldr (fun x acc => items x + acc) 0 a ->
  value_nesting v = 1 + foldr (fun x acc => Z.max (nesting x) acc) 0 a -> (forall x, 0 <= items x) ->
  Forall (fun x => forall st st', 0 <= st.2 -> (f x st = Ok st' <-> child_fits l d name text items nesting st x st')) a ->
  ((if (MaxDepth l <? d) || (MaxItems l <? count + 1) then Err "input JSON structural limit exceeded" else
    let* used := addBytes l (2 + Z.max 0 (Z.of_nat (length a) - 1)) used in fold_visit f a (count + 1, used)) = Ok st' <->
   fits l d (count, used) v st').
Proof.
  intros H0 Htext Hnames Hitems Hnest Hpos Hf.
  assert (forall n, (exists t, text_of v = Ok t /\ Z.of_nat (length t) = n) <->
    exists ts, Forall2 (fun x t => text x = Ok t) a ts /\ n = 2 + Z.max 0 (Z.of_nat (length a) - 1) + total_length ts) as Ht.
  { intros n. transitivity (exists body, join_items true (text <$> a) = Ok body /\ Z.of_nat (length body) = n - 2).
    - split.
      + intros (t & Et & <-). apply Htext in Et as (body & Eb & ->). exists body. split; [done|]. simpl. rewrite length_app. simpl. lia.
      + intros (body & Eb & El). eexists. split; [apply Htext; by exists body|]. simpl. rewrite length_app. simpl. lia.
    - rewrite join_items_length, length_fmap. split; intros (ts & Hts & E); exists ts; (split; [|lia]); by apply Forall2_fmap_l in Hts || apply Forall2_fmap_l. }
  destruct (Z.ltb_spec (MaxDepth l) d), (Z.ltb_spec (MaxItems l) (count + 1)); cbn [orb];
    try (split; [done|intros [_ _ E1 _ E2 E3]; simpl in *; pose proof (value_items_pos v); pose proof (value_nesting_pos v); lia]).
  destruct (addBytes l _ used) as [u|] eqn:Ea; cbn [result_bind].
  - apply addBytes_ok in Ea as [-> Hb]; [|lia]. rewrite (fold_visit_fits l d f name text items nesting) by (simpl; done || lia).
    simpl. split.
    + intros (E1 & (ts & Hts & E2) & E3 & E4 & E5 & E6). split; simpl; [congruence| |lia|lia|lia|lia].
      destruct (proj2 (Ht (2 + Z.max 0 (Z.of_nat (length a) - 1) + total_length ts))) as (t & Et & El); [by exists ts|].
      exists t. split; [done|lia].
    + intros [E1 (t & Et & E2) E3 E4 E5 E6]. simpl in *. destruct (proj1 (Ht (Z.of_nat (length t)))) as (ts & Hts & El); [by exists t|].
      split; [congruence|]. split; [exists ts; split; [done|lia]|lia].
  - split; [done|]. intros [E1 (t & Et & E2) E3 E4 E5 E6]. simpl in *.
    destruct (proj1 (Ht (Z.of_nat (length t)))) as (ts & Hts & El); [by exists t|]. pose proof (total_length_nonneg ts).
    assert (addBytes l (2 + Z.max 0 (Z.of_nat (length a) - 1)) used = Ok (used + (2 + Z.max 0 (Z.of_nat (length a) - 1)))) as E'
      by (apply addBytes_ok; lia). congruence.
Qed.

(** One member: its key, then its value one level down. *)
Lemma visit_member l d (kv : bytes * value) count used st' :
  (forall d st st', 0 <= st.2 -> (visit l kv.2 d st = Ok st' <-> fits l d st kv.2 st')) -> 0 <= used ->
  ((let* n := jsonStringBytes kv.1 in let* used := addBytes l (n + 1) used in
    if MaxItems l <? count + 1 then Err "input JSON item limit exceeded" else visit l kv.2 (d + 1) (count + 1, used)) = Ok st' <->
   child_fits l d (fun kv => names_ok kv.2) member_text (fun kv => 1 + value_items kv.2) (fun kv => value_nesting kv.2) (count, used) kv st').
Proof.
  intros IH H0. rewrite jsonStringBytes_quote. pose proof (value_items_pos kv.2).
  assert (forall t, member_text kv = Ok t <-> exists k a, write_string kv.1 = Ok k /\ text_of kv.2 = Ok a /\ t = k ++ 58 :: a) as Hm.
  { intros t. unfold member_text. destruct (write_string kv.1) as [k|]; cbn [result_bind]; [|split; [done|by intros (? & ? & ? & _)]].
    destruct (text_of kv.2) as [a|]; cbn [result_bind]; [|split; [done|by intros (? & ? & _ & ? & _)]].
    split; [intros E; apply Ok_inj in E as <-; by exists k, a|by intros (? & ? & E1 & E2 & ->); apply Ok_inj in E1 as <-; apply Ok_inj in E2 as <-]. }
  destruct (write_string kv.1) as [k|]; cbn [result_bind].
  - destruct (addBytes l (Z.of_nat (length k) + 1) used) as [u|] eqn:Ea; cbn [result_bind].
    + apply addBytes_ok in Ea as [-> Hb]; [|lia]. destruct (Z.ltb_spec (MaxItems l) (count + 1)).
      * split; [done|]. intros [_ _ E _ E' _]. simpl in *. lia.
      * rewrite IH by (simpl; lia). split.
        -- intros [E1 (a & Et & E2) E3 E4 E5 E6]. simpl in *. split; simpl; try done; try lia.
           exists (k ++ 58 :: a). split; [apply Hm; by exists k, a|]. rewrite length_app. simpl. lia.
        -- intros [E1 (t & Et & E2) E3 E4 E5 E6]. simpl in *. apply Hm in Et as (k' & a & Ek & Ea & ->).
           apply Ok_inj in Ek as <-. rewrite length_app in E2. simpl in E2. split; simpl; try done; try lia. exists a. split; [done|lia].
    + split; [done|]. intros [E1 (t & Et & E2) E3 E4 E5 E6]. simpl in *. apply Hm in Et as (k' & a & Ek & _ & ->).
      apply Ok_inj in Ek as <-. rewrite length_app in E2. simpl in E2.
      assert (addBytes l (Z.of_nat (length k) + 1) used = Ok (used + (Z.of_nat (length k) + 1))) by (apply addBytes_ok; lia). congruence.
  - split; [done|]. intros [_ (t & Et & _) _ _ _ _]. apply Hm in Et as (? & ? & ? & _). done.
Qed.

Lemma visit_fits l v : forall d st st', 0 <= st.2 -> (visit l v d st = Ok st' <-> fits l d st v st').
Proof.
  assert (forall v r d count used st', text_of v = r -> names_ok v = true -> value_items v = 1 -> value_nesting v = 1 ->
    ((if (MaxDepth l <? d) || (MaxItems l <? count + 1) then Err "input JSON structural limit exceeded" else
      let* b := r in let* used := addBytes l (Z.of_nat (length b)) used in Ok (count + 1, used)) = Ok st' <->
     fits l d (count, used) v st')) as Hs.
  { intros w r d count used st' Hr Hn Hi Hd. rewrite visit_scalar. split.
    - intros (E1 & E2 & E3 & E4 & E5). split; simpl; try done; try lia. by rewrite Hr.
    - intros [E1 E2 E3 E4 E5 E6]. simpl in *. rewrite Hr in E2. repeat split; try done; lia. }
  induction v as [|b|s|n|t|f|a IH|m IH|f] using value_ind; intros d [count used] st' H0; simpl in H0.
  - apply (Hs VNull (Ok (lit "null"))); done.
  - destruct b; [apply (Hs (VBool true) (Ok (lit "true")))|apply (Hs (VBool false) (Ok (lit "false")))]; done.
  - cbn [visit]. rewrite jsonStringBytes_quote. rewrite <- (Hs (VStr s) (write_string s) d count used st' eq_refl) by done.
    by destruct (write_string s).
  - apply (Hs (VInt n) _ d count used st' eq_refl); done.
  - apply (Hs (VNumber t) _ d count used st' eq_refl); done.
  - apply (Hs (VFloat f) _ d count used st' eq_refl); done.
  - apply (visit_children l d count used (VArr a) 91 93 a _ names_ok text_of value_items value_nesting); try done.
    + intros t. rewrite text_of_arr. destruct (join_items _ _) as [body|]; cbn [result_bind].
      * split; [intros E; apply Ok_inj in E as <-; by exists body|by intros (b & E & ->); apply Ok_inj in E as <-].
      * split; [done|by intros (? & ? & _)].
    + intros x. pose proof (value_items_pos x). lia.
    + eapply Forall_impl; [exact IH|]. intros x Hx st st1 Hst. cbn beta in Hx. pose proof (Hx (d + 1) st st1 Hst) as Hx'. rewrite Hx'.
      split; intros [E1 E2 E3 E4 E5 E6]; split; try done; lia.
  - apply (visit_children l d count used (VObj m) 123 125 m _ (fun kv => names_ok kv.2) member_text
      (fun kv => 1 + value_items kv.2) (fun kv => value_nesting kv.2)); try done.
    + intros t. rewrite text_of_obj. destruct (join_items _ _) as [body|]; cbn [result_bind].
      * split; [intros E; apply Ok_inj in E as <-; by exists body|by intros (b & E & ->); apply Ok_inj in E as <-].
      * split; [done|by intros (? & ? & _)].
    + intros x. pose proof (value_items_pos x.2). lia.
    + eapply Forall_impl; [exact IH|]. intros kv Hkv [c u] st1 Hst. by apply visit_member.
  - by apply visit_file.
Qed.

Lemma checkJSONLimits_ok v l :
  checkJSONLimits v l = Ok tt <->
  0 < MaxBytes l /\ 0 < MaxDepth l /\ 0 < MaxItems l /\ names_ok v = true /\
  value_nesting v <= MaxDepth l /\ value_items v <= MaxItems l /\
  exists t, CanonicalInput v = Ok t /\ Z.of_nat (length t) <= MaxBytes l.
Proof.
  unfold checkJSONLimits. pose proof (value_items_pos v). pose proof (value_nesting_pos v).
  destruct (Z.leb_spec (MaxBytes l) 0), (Z.leb_spec (MaxDepth l) 0), (Z.leb_spec (MaxItems l) 0); cbn [orb];
    try (split; [done|lia]).
  pose proof (fun st' => visit_fits l v 1 (0, 0) st' ltac:(simpl; lia)) as Hv.
  destruct (visit l v 1 (0, 0)) as [st'|e]; cbn [result_bind].
  - split; [|done]. intros _. destruct (proj1 (Hv st') eq_refl) as [E1 (t & Et & E2) E3 E4 E5 E6]. simpl in *.
    repeat (split; [done || lia|]). exists t. split; [exact Et|lia].
  - split; [done|]. intros (_ & _ & _ & E1 & E2 & E3 & t & Et & El).
    enough (Err e = Ok (value_items v, Z.of_nat (length t))) by done. apply Hv. split; simpl; try done; try lia. by exists t.
Qed.

(* ------------------------------------------------------------------ *)
(** ** Properties *)

(** the streaming limit check is exact: with positive limits it accepts a value
    exactly when the canonical text of the value (which it never writes) can be written
    and fits the byte limit, the nesting and the number of values fit theirs, and every
    file leaf has a valid name. *)
Theorem limits_exact v l :
  checkJSONLimits v l = Ok tt <->
  0 < MaxBytes l /\ 0 < MaxDepth l /\ 0 < MaxItems l /\ names_ok v = true /\
  value_nesting v <= MaxDepth l /\ value_items v <= MaxItems l /\
  exists t, CanonicalInput v = Ok t /\ Z.of_nat (length t) <= MaxBytes l.
Proof. apply checkJSONLimits_ok. Qed.
