(* ===== verification/ValueFormat.v ===== *)
(** * String formats ([valueformat/formats.go])
    [Validate] with what it uses of [time.Parse] (layouts [2006-01-02] and RFC 3339) and
    its fixed UUID expression. [net/mail] and [net/url] are the argument [engines],
    about which nothing is assumed: whether [mail.ParseAddress] accepts a string, and
    the scheme [url.Parse] finds, if it accepts. *)
From Stdlib Require Import ZArith Lia.
From stdpp Require Import base list option strings.
From S2P Require Import Prelude Strconv GoDate GoStrings.
Local Open Scope Z_scope.

Record engines := { ParseAddress_ok : bytes -> bool; Parse_scheme : bytes -> option bytes }.

(** ** [time.Parse] *)

(** [getnum]: two digits, or one when the field is not fixed. *)
Definition getnum (fixed : bool) (s : bytes) : option (Z * bytes) :=
  match s with
  | a :: r =>
      if negb (isdigit a) then None else
      match r with
      | b :: r' => if isdigit b then Some ((a - 48) * 10 + (b - 48), r')
                   else if fixed then None else Some (a - 48, r)
      | [] => if fixed then None else Some (a - 48, r)
      end
  | [] => None
  end.
(** A field within a range. *)
Definition field (fixed : bool) (lo hi : Z) (s : bytes) : option (Z * bytes) :=
  '(n, r) ← getnum fixed s; if (lo <=? n) && (n <=? hi) then Some (n, r) else None.
Definition long_year (s : bytes) : option (Z * bytes) :=
  let y := take 4 s in
  if (length y =? 4)%nat && forallb isdigit y then Some (digits_value y, drop 4 s) else None.

(** The date; the day is checked against its month. *)
Definition parse_date (s : bytes) : option bytes :=
  '(y, s) ← long_year s; s ← read_char 45 s; '(m, s) ← field true 1 12 s; s ← read_char 45 s;
  '(d, s) ← getnum true s; if (1 <=? d) && (d <=? days_in m y) then Some s else None.

(** A fraction after the seconds, which the layout does not mention. *)
Definition skip_fraction (s : bytes) : bytes :=
  match s with
  | c :: d :: r =>
      if ((c =? 46) || (c =? 44)) && isdigit d then (span_digits (d :: r)).2 else s
  | _ => s
  end.
(** [Z07:00]. *)
Definition parse_zone (s : bytes) : option bytes :=
  match s with
  | c :: r =>
      if c =? 90 then Some r else
      if (Z.of_nat (length s) <? 6) || negb (byte_at s 3 =? 58) then None else
      '(h, _) ← getnum true (slice s 1 3); '(m, _) ← getnum true (slice s 4 6);
      if (24 <? h) || (60 <? m) || negb ((c =? 43) || (c =? 45)) then None else Some (drop 6 s)
  | [] => None
  end.

Definition parse_date_only (s : bytes) : bool :=
  match parse_date s with Some [] => true | _ => false end.
Definition parse_RFC3339 (s : bytes) : bool :=
  match
    s ← parse_date s; s ← read_char 84 s; '(_, s) ← field false 0 23 s; s ← read_char 58 s;
    '(_, s) ← field true 0 59 s; s ← read_char 58 s; '(_, s) ← field true 0 59 s;
    parse_zone (skip_fraction s)
  with Some [] => true | _ => false end.

(** ** The UUID expression *)

Definition is_hex (c : Z) : bool := match hexval c with Some _ => true | None => false end.
Definition uuid_shape : list (Z -> bool) :=
  let hex n := replicate n is_hex in
  let dash := [fun c => c =? 45] in
  hex 8%nat ++ dash ++ hex 4%nat ++ dash ++ [fun c => (49 <=? c) && (c <=? 53)] ++ hex 3%nat ++ dash ++
  [fun c => (c =? 56) || (c =? 57) || (c =? 97) || (c =? 98) || (c =? 65) || (c =? 66)] ++ hex 3%nat ++ dash ++ hex 12%nat.
Fixpoint matches (shape : list (Z -> bool)) (s : bytes) : bool :=
  match shape, s with
  | [], [] => true
  | p :: shape, c :: s => p c && matches shape s
  | _, _ => false
  end.

Section Validate.
Context (lib : engines).

Definition Validate (format value : bytes) : result unit :=
  if bytes_eqb format [] then Ok tt
  else if bytes_eqb format (lit "email") then
    if ParseAddress_ok lib value then Ok tt else Err "must be email"
  else if bytes_eqb format (lit "uuid") then
    if matches uuid_shape value then Ok tt else Err "must be uuid"
  else if bytes_eqb format (lit "date") then
    if parse_date_only value then Ok tt else Err "must be date"
  else if bytes_eqb format (lit "date-time") then
    if parse_RFC3339 value then Ok tt else Err "must be date-time"
  else if bytes_eqb format (lit "uri") then
    match Parse_scheme lib value with
    | None => Err "must be uri"
    | Some scheme => if bytes_eqb scheme [] then Err "must include URI scheme" else Ok tt
    end
  else Err "unsupported format".
End Validate.

(* ------------------------------------------------------------------ *)
(** ** Examples *)

Lemma format_examples :
  parse_date_only (lit "2024-02-29") = true /\ parse_date_only (lit "2023-02-29") = false /\
  parse_RFC3339 (lit "2024-02-29T7:08:09,25+09:00") = true /\ parse_RFC3339 (lit "2024-02-29T24:00:00Z") = false /\
  matches uuid_shape (lit "123e4567-e89b-42d3-a456-426614174000") = true /\
  matches uuid_shape (lit "123e4567-e89b-62d3-a456-426614174000") = false.
Proof. vm_compute. repeat split. Qed.
