(* ===== verification/Schema.v ===== *)
(** * Schemas and input validation ([contract/types.go], [contract/schema.go], [contract/input.go])
    The compiled schema and [validate], which checks a value against it and returns the
    normalised value with the file leaves it met. A compiled regular expression is the
    function [MatchString] of its object. Error values are the reasons without the
    position that [fail] puts before them. [validate] recurses on the schema; the
    schema-less children ([&Schema{Nullable: true}]) are validated by [free], which
    recurses on the value, and [free_schema_validate] shows it is the same function. *)
From Stdlib Require Import ZArith Lia SpecFloat.
From stdpp Require Import base list option strings.
From S2P Require Import Prelude Utf8 Strconv GoFloat Json JsonText Canonical GoStrings JsonInteger InputValue ValueFormat.
Local Open Scope Z_scope.

(** ** Types *)

Record FileConstraints := {
  fc_Extensions : list bytes; fc_MIMETypes : list bytes; fc_MaxBytes : Z; fc_AllowEmpty : bool
}.

Unset Elimination Schemes.
Inductive PatternNode := MkPatternNode {
  pn_Kind : bytes; pn_Text : bytes; pn_Ranges : list Z; pn_Children : list PatternNode;
  pn_Min : Z; pn_Max : Z; pn_Lazy : bool
}.
Set Elimination Schemes.
Record Pattern := { p_AST : PatternNode; p_GoExpression : bytes; MatchString : bytes -> bool }.

Record schema_data := {
  Types : list bytes; PropertyOrder : list bytes; PropertiesSet : bool; AdditionalAllowed : bool;
  Required : list bytes; Default : value; DefaultSet : bool; Nullable : bool;
  Constraints : list (bytes * value); File : option FileConstraints; SPattern : option Pattern;
  patternSource : bytes; normalized : list (bytes * value); output : bool
}.

Unset Elimination Schemes.
Inductive Schema := MkSchema {
  sdata : schema_data; Properties : list (bytes * Schema); Items : option Schema; Additional : option Schema
}.
Set Elimination Schemes.

Section SchemaInd.
Context (P : Schema -> Prop).
Definition opt_holds (o : option Schema) : Prop := match o with Some s => P s | None => True end.
Context (H : forall d props items additional, Forall (fun kv => P kv.2) props -> opt_holds items -> opt_holds additional ->
  P (MkSchema d props items additional)).
Fixpoint Schema_ind (s : Schema) : P s :=
  match s with
  | MkSchema d props items additional =>
      H d props items additional
        ((fix go m : Forall (fun kv => P kv.2) m :=
            match m with
            | [] => Forall_nil_2 _
            | x :: m => Forall_cons_2 (fun kv => P kv.2) x m (Schema_ind x.2) (go m)
            end) props)
        (match items as o return opt_holds o with Some s => Schema_ind s | None => I end)
        (match additional as o return opt_holds o with Some s => Schema_ind s | None => I end)
  end.
End SchemaInd.

Record FileLeaf := { leaf_Pointer : bytes; leaf_Value : FileValue; leaf_Schema : Schema }.

Definition empty_data : schema_data :=
  {| Types := []; PropertyOrder := []; PropertiesSet := false; AdditionalAllowed := false; Required := [];
     Default := VNull; DefaultSet := false; Nullable := false; Constraints := []; File := None; SPattern := None;
     patternSource := []; normalized := []; output := false |}.
(** [&Schema{Nullable: true, Constraints: map[string]any{}}]. *)
Definition free_data : schema_data :=
  {| Types := []; PropertyOrder := []; PropertiesSet := false; AdditionalAllowed := false; Required := [];
     Default := VNull; DefaultSet := false; Nullable := true; Constraints := []; File := None; SPattern := None;
     patternSource := []; normalized := []; output := false |}.
Definition free_schema : Schema := MkSchema free_data [] None None.
Definition set_File (d : schema_data) (f : FileConstraints) (norm : list (bytes * value)) : schema_data :=
  {| Types := Types d; PropertyOrder := PropertyOrder d; PropertiesSet := PropertiesSet d;
     AdditionalAllowed := AdditionalAllowed d; Required := Required d; Default := Default d;
     DefaultSet := DefaultSet d; Nullable := Nullable d; Constraints := Constraints d; File := Some f;
     SPattern := SPattern d; patternSource := patternSource d; normalized := norm; output := output d |}.

Fixpoint HasFiles (s : Schema) : bool :=
  match s with
  | MkSchema d props items additional =>
      match File d with Some _ => true | None => false end ||
      match items with Some i => HasFiles i | None => false end ||
      match additional with Some a => HasFiles a | None => false end ||
      existsb (fun kv => HasFiles kv.2) props
  end.

(** ** Files *)

(** [mime.ParseMediaType] accepts [s] unchanged, without parameters and in lower case:
    two tokens around a slash. *)
Definition is_token_char (c : Z) : bool :=
  (32 <? c) && (c <? 127) && negb (existsb (fun x => c =? x) (lit "()<>@,;:\/[]?=" ++ [34])).
Definition mime_char (c : Z) : bool := is_token_char c && (lower c =? c) && negb (c =? 42).
Definition validMIME (s : bytes) : bool :=
  match cut_at (fun c => c =? 47) s with
  | (t, Some sub) => negb (bytes_eqb t []) && negb (bytes_eqb sub []) && forallb mime_char t && forallb mime_char sub
  | (_, None) => false
  end.

Definition digest_ok (s : bytes) : bool :=
  (length s =? 64)%nat && forallb (fun c => isdigit c || ((97 <=? c) && (c <=? 102))) s.
Definition asciiLower (s : bytes) : bytes := lower <$> s.

(** [strings.LastIndexByte]: what follows the last dot, when the dot is neither first nor last. *)
Definition extension (name : bytes) : option bytes :=
  match cut_at (fun c => c =? 46) (reverse name) with
  | (e, Some stem) => if bytes_eqb stem [] || bytes_eqb e [] then None else Some (reverse e)
  | (_, None) => None
  end.

Definition validate_constraints (f : FileConstraints) (v : FileValue) : result unit :=
  let* _ := ValidateBasename (fv_Name v) in
  if negb (validMIME (fv_MIMEType v)) then Err "invalid file MIME type"
  else if (fv_SizeBytes v <? 0) || (fc_MaxBytes f <=? 0) || (fc_MaxBytes f <? fv_SizeBytes v) then Err "file byte limit exceeded"
  else if (fv_SizeBytes v =? 0) && negb (fc_AllowEmpty f) then Err "empty file is forbidden"
  else if negb (digest_ok (fv_SHA256 v)) then Err "invalid file digest"
  else if negb (bool_decide (fc_MIMETypes f = [])) && negb (contains (fc_MIMETypes f) (fv_MIMEType v))
  then Err "file MIME type is forbidden"
  else if negb (bool_decide (fc_Extensions f = [])) &&
    negb (match extension (fv_Name v) with Some e => contains (fc_Extensions f) (asciiLower e) | None => false end)
  then Err "file extension is forbidden"
  else Ok tt.

(** The constraint in force for one request. *)
Definition effective (f : FileConstraints) (limit : option Z) : FileConstraints :=
  match limit with
  | Some n =>
      if 0 <? n then
        {| fc_Extensions := fc_Extensions f; fc_MIMETypes := fc_MIMETypes f;
           fc_MaxBytes := if fc_MaxBytes f =? 0 then n else Z.min (fc_MaxBytes f) n; fc_AllowEmpty := fc_AllowEmpty f |}
      else f
  | None => f
  end.

(** ** Numbers *)

(** [float64(n)], and the exact value [m * 2 ^ e] of a number. *)
Definition float_of_int (n : Z) : spec_float := binary_normalize 53 1024 n 0 false.
Definition is_finite (f : spec_float) : bool :=
  match f with S754_nan | S754_infinity _ => false | _ => true end.
Definition dyadic (f : spec_float) : Z * Z :=
  match f with
  | S754_finite s m e => ((if s : bool then Zneg m else Zpos m), e)
  | _ => (0, 0)
  end.

(** [math.Trunc(n) == n] and [int64(n)] on [m * 2 ^ e]. *)
Definition dyadic_integer (me : Z * Z) : option Z :=
  let '(m, e) := me in
  if 0 <=? e then Some (m * 2 ^ e) else if m mod 2 ^ (- e) =? 0 then Some (m / 2 ^ (- e)) else None.

Definition exactInteger (v : value) : option Z :=
  match v with
  | VInt n => Some n
  | VNumber t => JSONNumberInt64 t
  | VFloat f =>
      if negb (is_finite f) then None else
      match dyadic_integer (dyadic f) with
      | Some n => if Z.shiftl 1 53 <? Z.abs n then None else Some n
      | None => None
      end
  | _ => None
  end.

Definition finiteNumber (v : value) : option spec_float :=
  match v with
  | VInt n => Some (float_of_int n)
  | VFloat f => if is_finite f then Some f else None
  | VNumber t => ParseFloat t
  | _ => None
  end.

(** [numberRat] and [compareNumbers], on the exact values. *)
Definition numberRat (v : value) : Z * Z :=
  match v with VInt n => (n, 0) | VFloat f => dyadic f | _ => (0, 0) end.
Definition compareNumbers (a b : value) : comparison :=
  let '(m, e) := numberRat a in
  let '(n, k) := numberRat b in
  let low := Z.min e k in
  Z.compare (m * 2 ^ (e - low)) (n * 2 ^ (k - low)).

(** ** Enumerations and bounds *)

Definition equalJSON (a b : value) : bool :=
  match canonical_value a, canonical_value b with
  | Ok x, Ok y => bytes_eqb x y
  | _, _ => false
  end.

Definition validateEnumConst (d : schema_data) (v : value) : result unit :=
  let found := match obj_lookup (lit "enum") (Constraints d) with
               | Some (VArr a) => existsb (equalJSON v) a
               | _ => true
               end in
  if negb found then Err "not in enum" else
  match obj_lookup (lit "const") (Constraints d) with
  | Some c => if equalJSON v c then Ok tt else Err "does not equal const"
  | None => Ok tt
  end.

(** An [int64] constraint. *)
Definition int_constraint (d : schema_data) (k : string) : option Z :=
  match obj_lookup (lit k) (Constraints d) with Some (VInt n) => Some n | _ => None end.

Definition bound_holds (k : string) (c : comparison) : bool :=
  if String.eqb k "minimum" then match c with Lt => false | _ => true end
  else if String.eqb k "maximum" then match c with Gt => false | _ => true end
  else if String.eqb k "exclusiveMinimum" then match c with Gt => true | _ => false end
  else match c with Lt => true | _ => false end.
Definition numeric_bounds : list string := ["minimum"; "maximum"; "exclusiveMinimum"; "exclusiveMaximum"].
Definition check_bounds (d : schema_data) (v : value) : result unit :=
  if forallb (fun k => match obj_lookup (lit k) (Constraints d) with
                       | Some b => bound_holds k (compareNumbers v b)
                       | None => true
                       end) numeric_bounds
  then Ok tt else Err "outside numeric bounds".

(** ** Validation *)

(** The JSON type of a value that is neither null nor a file. *)
Definition json_type (v : value) : option string :=
  match v with
  | VStr _ => Some "string"
  | VBool _ => Some "boolean"
  | VObj _ => Some "object"
  | VArr _ => Some "array"
  | VInt _ | VNumber _ | VFloat _ => Some "number"
  | VNull | VFile _ => None
  end.

(** A number that is not taken as an integer. *)
Definition validate_float (d : schema_data) (v : value) : result value :=
  match finiteNumber v with
  | None => Err "must be finite number"
  | Some n =>
      match Types d, v with
      | [], VInt i => Ok (VInt i)
      | [], VNumber t =>
          if negb (has_fraction t) then
            match ParseInt t with Some i => Ok (VInt i) | None => Err "integer exceeds int64" end
          else Ok (VFloat n)
      | [], _ => Ok (VFloat n)
      | _ :: _, VInt i => if output d then Ok (VInt i) else Ok (VFloat n)
      | _ :: _, _ => Ok (VFloat n)
      end
  end.

(** The type of a value after a number has been normalised, with the value. *)
Definition normalize (d : schema_data) (v : value) : result (string * value) :=
  match json_type v with
  | None => Err "unsupported JSON value"
  | Some t =>
      if negb (String.eqb t "number") then Ok (t, v) else
      if contains (Types d) (lit "integer") then
        match exactInteger v with
        | Some n => Ok ("integer"%string, VInt n)
        | None =>
            if negb (contains (Types d) (lit "number")) then Err "must be int64 integer"
            else let* v := validate_float d v in Ok ("number"%string, v)
        end
      else let* v := validate_float d v in Ok ("number"%string, v)
  end.

Definition type_allowed (d : schema_data) (t : string) : bool :=
  bool_decide (Types d = []) || contains (Types d) (lit t) ||
  (String.eqb t "integer" && contains (Types d) (lit "number")).

(** Where the file leaves go: [None] is a nil pointer. *)
Abbreviation leaves := (option (list FileLeaf)).
Abbreviation validator := (value -> bytes -> leaves -> result (value * leaves)).

Definition escapePointer (s : bytes) : bytes := replace_byte 47 (lit "~1") (replace_byte 126 (lit "~0") s).

Fixpoint result_map {A B} (f : A -> result B) (l : list A) : result (list B) :=
  match l with
  | [] => Ok []
  | x :: l => let* y := f x in let* r := result_map f l in Ok (y :: r)
  end.

(** A value that no schema describes. *)
Fixpoint free (v : value) : result value :=
  match v with
  | VNull => Ok VNull
  | VBool b => Ok (VBool b)
  | VStr s => if ValidString s then Ok (VStr s) else Err "must be valid UTF-8"
  | VInt _ | VNumber _ | VFloat _ => validate_float free_data v
  | VArr l =>
      let* a := (fix go l := match l with
                             | [] => Ok []
                             | x :: l => let* y := free x in let* r := go l in Ok (y :: r)
                             end) l in
      Ok (VArr a)
  | VObj m =>
      if negb (forallb (fun kv => ValidString kv.1) m) then Err "invalid UTF-8 key" else
      let* o := (fix go m o := match m with
                               | [] => Ok o
                               | kv :: m => let* y := free kv.2 in go m (obj_insert kv.1 y o)
                               end) m [] in
      Ok (VObj o)
  | VFile _ => Err "unsupported JSON value"
  end.
Definition validate_free : validator := fun v _ lv => let* x := free v in Ok (x, lv).

(** What an object's loop needs of the schema of a property. *)
Record property := { pr_default : option value; pr_validate : validator }.

Section Validate.
Context (lib : engines) (defaults : bool) (fileLimit : option Z).

Definition validate_null (d : schema_data) : result value :=
  if Nullable d then Ok VNull
  else if output d then Err "null is not allowed"
  else if negb (bool_decide (Types d = [])) && negb (contains (Types d) (lit "null")) then Err "null is not allowed"
  else let* _ := validateEnumConst d VNull in Ok VNull.

(** A file leaf; [rebuild] is the schema with other data. *)
Definition validate_file (d : schema_data) (fc : FileConstraints) (rebuild : schema_data -> Schema) : validator :=
  fun v pointer lv =>
  match v with
  | VFile f =>
      if bytes_eqb (fv_ID f) [] || bytes_eqb (fv_RequestID f) [] then Err "file ownership is missing"
      else if negb (bytes_eqb (fv_Pointer f) pointer) then Err "file input position does not match"
      else
        let eff := effective fc fileLimit in
        let* _ := validate_constraints eff f in
        let leaf := rebuild (set_File d eff (obj_insert (lit "max_bytes") (VInt (fc_MaxBytes eff)) (normalized d))) in
        Ok (VFile f, (fun l => l ++ [{| leaf_Pointer := pointer; leaf_Value := f; leaf_Schema := leaf |}]) <$> lv)
  | _ => Err "must be a receiver-owned file"
  end.

Definition validate_string (d : schema_data) (x : bytes) : result unit :=
  if negb (ValidString x) then Err "must be valid UTF-8" else
  let n := Z.of_nat (RuneCountInString x) in
  if match int_constraint d "minLength" with Some lo => n <? lo | None => false end then Err "below minLength"
  else if match int_constraint d "maxLength" with Some hi => hi <? n | None => false end then Err "above maxLength"
  else if match SPattern d with Some p => negb (MatchString p x) | None => false end then Err "does not match pattern"
  else match obj_lookup (lit "format") (Constraints d) with
       | Some (VStr f) => Validate lib f x
       | _ => Ok tt
       end.

(** The first loop over an object: its keys. *)
Definition check_keys (d : schema_data) (declared : bytes -> bool) (x : list (bytes * value)) : result unit :=
  if negb (forallb (fun kv => ValidString kv.1) x) then Err "invalid UTF-8 key"
  else if existsb (fun kv => negb (declared kv.1) && contains (Types d) (lit "object") && negb (AdditionalAllowed d)) x
  then Err "unknown property" else Ok tt.

(** The loop over the declared properties, in declaration order. *)
Fixpoint validate_properties (d : schema_data) (child : bytes -> option property) (x : list (bytes * value))
    (pointer : bytes) (order : list bytes) (o : list (bytes * value)) (lv : leaves)
    : result (list (bytes * value) * leaves) :=
  match order with
  | [] => Ok (o, lv)
  | k :: order =>
      match child k with
      | None => Err "nil pointer dereference"
      | Some c =>
          match (match obj_lookup k x with
                 | Some v => Some v
                 | None => if defaults then pr_default c else None
                 end) with
          | None =>
              if contains (Required d) k then Err "required property missing"
              else validate_properties d child x pointer order o lv
          | Some v =>
              let* r := pr_validate c v (pointer ++ 47 :: escapePointer k) lv in
              validate_properties d child x pointer order (obj_insert k r.1 o) r.2
          end
      end
  end.

(** The loop over the other keys, in key order. *)
Fixpoint validate_additional (additional : validator) (pointer : bytes) (x o : list (bytes * value)) (lv : leaves)
    : result (list (bytes * value) * leaves) :=
  match x with
  | [] => Ok (o, lv)
  | (k, v) :: x =>
      let* r := additional v (pointer ++ 47 :: escapePointer k) lv in
      validate_additional additional pointer x (obj_insert k r.1 o) r.2
  end.

(** The loop over the elements of an array. *)
Fixpoint validate_items (item : validator) (pointer : bytes) (i : Z) (x : list value) (lv : leaves)
    : result (list value * leaves) :=
  match x with
  | [] => Ok ([], lv)
  | v :: x =>
      let* r := item v (pointer ++ 47 :: FormatInt i) lv in
      let* rest := validate_items item pointer (i + 1) x r.2 in
      Ok (r.1 :: rest.1, rest.2)
  end.

Definition validate_object (d : schema_data) (child : bytes -> option property) (additional : validator)
    (x : list (bytes * value)) (pointer : bytes) (lv : leaves) : result (list (bytes * value) * leaves) :=
  let declared k := match child k with Some _ => true | None => false end in
  let* _ := check_keys d declared x in
  let* r := validate_properties d child x pointer (PropertyOrder d) [] lv in
  validate_additional additional pointer (filter (fun kv => declared kv.1 = false) x) r.1 r.2.

Definition validate_array (d : schema_data) (item : validator) (x : list value) (pointer : bytes) (lv : leaves)
    : result (list value * leaves) :=
  if match int_constraint d "minItems" with Some lo => Z.of_nat (length x) <? lo | None => false end then Err "below minItems"
  else if match int_constraint d "maxItems" with Some hi => hi <? Z.of_nat (length x) | None => false end then Err "above maxItems"
  else validate_items item pointer 0 x lv.

(** A normalised value of an allowed type. *)
Definition validate_typed (d : schema_data) (child : bytes -> option property) (item additional : validator) : validator :=
  fun v pointer lv =>
  match v with
  | VStr x => let* _ := validate_string d x in Ok (v, lv)
  | VObj x => let* r := validate_object d child additional x pointer lv in Ok (VObj r.1, r.2)
  | VArr x => let* r := validate_array d item x pointer lv in Ok (VArr r.1, r.2)
  | _ => Ok (v, lv)
  end.

Definition validate_value (d : schema_data) (child : bytes -> option property) (item additional : validator) : validator :=
  fun v pointer lv =>
  let* tv := normalize d v in
  if negb (type_allowed d tv.1) then Err "type does not match schema" else
  let* r := validate_typed d child item additional tv.2 pointer lv in
  let* _ := (if String.eqb tv.1 "integer" || String.eqb tv.1 "number" then check_bounds d r.1 else Ok tt) in
  let* _ := validateEnumConst d r.1 in
  Ok r.

(** [validate]. *)
Fixpoint validate (s : Schema) : validator :=
  match s with
  | MkSchema d props items additional =>
      fun v pointer lv =>
      match v with
      | VNull => let* x := validate_null d in Ok (x, lv)
      | _ =>
          match File d with
          | Some fc => validate_file d fc (fun d' => MkSchema d' props items additional) v pointer lv
          | None =>
              let children := map (fun kv : bytes * Schema => (kv.1,
                {| pr_default := (let c := sdata kv.2 in if DefaultSet c then Some (Default c) else None);
                   pr_validate := validate kv.2 |})) props in
              validate_value d (fun k => obj_lookup k children)
                (match items with Some i => validate i | None => validate_free end)
                (match additional with Some a => validate a | None => validate_free end) v pointer lv
          end
      end
  end.
End Validate.

(** ** [ValidateInput] *)

Definition total_bytes (l : Limits) (fs : list FileLeaf) : result Z :=
  foldl (fun acc f =>
    let* total := acc in
    let n := fv_SizeBytes (leaf_Value f) in
    if (0 <? MaxFileBytes l) && (MaxFileBytes l <? n) then Err "input file byte limit exceeded"
    else if int64_max - total <? n then Err "input file bytes overflow"
    else Ok (total + n)) (Ok 0) fs.

Definition ValidateInput (lib : engines) (s : Schema) (input : list (bytes * value)) (l : Limits)
    : result (list (bytes * value) * list FileLeaf) :=
  let* _ := checkJSONLimits (VObj input) l in
  let* r := validate lib true (Some (MaxFileBytes l)) s (VObj input) [] (Some []) in
  let fs := default [] r.2 in
  if (0 <? MaxFiles l) && (MaxFiles l <? Z.of_nat (length fs)) then Err "input file count limit exceeded" else
  let* total := total_bytes l fs in
  if (0 <? MaxTotalFileBytes l) && (MaxTotalFileBytes l <? total) then Err "input total file byte limit exceeded" else
  let* _ := checkJSONLimits r.1 l in
  match r.1 with
  | VObj m => Ok (m, fs)
  | _ => Err "interface conversion"
  end.

(* ------------------------------------------------------------------ *)
(** ** Lemmas *)

Lemma validate_items_free p i l lv :
  validate_items validate_free p i l lv =
  let* a := (fix go l := match l with [] => Ok [] | x :: l => let* y := free x in let* r := go l in Ok (y :: r) end) l in Ok (a, lv).
Proof.
  revert i lv. induction l as [|v l IH]; intros i lv; [done|]. cbn [validate_items]. unfold validate_free at 1.
  destruct (free v) as [y|e]; [|done]. cbn [result_bind fst snd]. rewrite IH.
  match goal with |- context [result_bind ?r (fun a => Ok (a, lv))] => by destruct r end.
Qed.
Lemma validate_additional_free p m o lv :
  validate_additional validate_free p m o lv =
  let* o := (fix go m o := match m with [] => Ok o | kv :: m => let* y := free kv.2 in go m (obj_insert kv.1 y o) end) m o in Ok (o, lv).
Proof.
  revert o lv. induction m as [|[k v] m IH]; intros o lv; [done|]. cbn [validate_additional]. unfold validate_free at 1.
  cbn [snd fst]. destruct (free v) as [y|e]; [|done]. cbn [result_bind fst snd]. by rewrite IH.
Qed.
Lemma check_keys_free (m : list (bytes * value)) declared :
  check_keys free_data declared m = if negb (forallb (fun kv => ValidString kv.1) m) then Err "invalid UTF-8 key" else Ok tt.
Proof.
  unfold check_keys. destruct (negb (forallb _ m)); [done|]. destruct (existsb _ m) eqn:E; [|done].
  apply existsb_exists in E as (kv & _ & E). by rewrite !andb_false_r in E.
Qed.

(** [free] is [validate] of the schema that the code makes for undescribed children. *)
Lemma free_schema_validate lib defaults limit v p lv :
  validate lib defaults limit free_schema v p lv = validate_free v p lv.
Proof.
  unfold free_schema, validate_free. destruct v as [|b|s|n|t|f|a|m|]; try done.
  - cbn. unfold validate_string. by destruct (ValidString s).
  - cbn - [validate_value free]. unfold validate_value, normalize, validate_float. cbn - [finiteNumber free ParseInt has_fraction]. cbn [free].
    unfold validate_float. cbn - [finiteNumber ParseInt has_fraction].
    by destruct (finiteNumber (VNumber t)), (has_fraction t), (ParseInt t).
  - cbn - [validate_value free]. unfold validate_value, normalize, validate_float. cbn - [finiteNumber free]. cbn [free]. unfold validate_float.
    cbn - [finiteNumber]. by destruct (finiteNumber (VFloat f)).
  - cbn - [free validate_items validateEnumConst]. rewrite validate_items_free. cbn [free].
    match goal with |- context [result_bind ?r (fun a => Ok (a, lv))] => by destruct r end.
  - cbn - [free validate_typed validateEnumConst]. unfold validate_typed, validate_object. cbn - [free check_keys validate_additional validateEnumConst filter]. rewrite check_keys_free. cbn [free].
    destruct (negb _); [done|]. cbn [result_bind fst snd]. rewrite filter_all by (by apply Forall_forall). rewrite validate_additional_free.
    match goal with |- context [result_bind ?r (fun o => Ok (o, lv))] => by destruct r end.
Qed.
