(* ===== verification/Pointer.v ===== *)
(** * JSON Pointers ([contract/binding.go], [contract/csv_output.go])
    Escaping and unescaping of reference tokens, the lookup of a pointer in a value, and
    the two static resolutions of a pointer in a schema: [ResolvePointer] for input
    bindings, with whether the position is guaranteed to exist, and
    [resolveOutputPointer]. *)
From Stdlib Require Import ZArith Lia.
From stdpp Require Import base list option strings.
From S2P Require Import Prelude Strconv Json GoStrings InputValue Schema.
Local Open Scope Z_scope.

Fixpoint unescapePointer (s : bytes) : result bytes :=
  match s with
  | [] => Ok []
  | c :: r =>
      if negb (c =? 126) then let* t := unescapePointer r in Ok (c :: t) else
      match r with
      | d :: r' =>
          if d =? 48 then let* t := unescapePointer r' in Ok (126 :: t)
          else if d =? 49 then let* t := unescapePointer r' in Ok (47 :: t)
          else Err "invalid JSON Pointer escape"
      | [] => Err "invalid JSON Pointer escape"
      end
  end.

(** An array index: decimal digits without a leading zero. *)
Definition index_syntax (token : bytes) : bool :=
  negb (bytes_eqb token [] || ((1 <? Z.of_nat (length token)) && has_prefix 48 token)) && forallb isdigit token.

(** The reference tokens of a pointer. *)
Definition pointer_tokens (pointer : bytes) : list bytes := split_at 47 (drop 1 pointer).

(** ** Lookup in a value *)

Definition output_step (v : value) (raw : bytes) : result value :=
  let* token := unescapePointer raw in
  match v with
  | VObj m => match obj_lookup token m with Some x => Ok x | None => Err "CSV pointer is missing" end
  | VArr l =>
      if negb (index_syntax token) then Err "invalid CSV array index" else
      let index := digits_value token in
      if (2 ^ 63 <=? index) || (Z.of_nat (length l) <=? index) then Err "CSV array index is missing" else
      match l !! Z.to_nat index with Some x => Ok x | None => Err "CSV array index is missing" end
  | _ => Err "CSV pointer traverses a scalar"
  end.
Fixpoint output_tokens (v : value) (tokens : list bytes) : result value :=
  match tokens with
  | [] => Ok v
  | t :: tokens => let* x := output_step v t in output_tokens x tokens
  end.
Definition outputPointer (v : value) (pointer : bytes) : result value :=
  if bytes_eqb pointer [] then Ok v
  else if negb (has_prefix 47 pointer) then Err "invalid CSV pointer"
  else output_tokens v (pointer_tokens pointer).

(** ** Resolution in a schema *)

Definition child_default_set (s : Schema) : bool := DefaultSet (sdata s).

Definition resolve_step (cur : Schema) (guaranteed : bool) (raw : bytes) : result (Schema * bool) :=
  let* token := unescapePointer raw in
  let d := sdata cur in
  let guaranteed := guaranteed && negb (contains (Types d) (lit "null")) in
  if contains (Types d) (lit "object") then
    match obj_lookup token (Properties cur) with
    | None => Err "binding must reference a declared property"
    | Some child => Ok (child, guaranteed && (contains (Required d) token || child_default_set child))
    end
  else if contains (Types d) (lit "array") then
    if negb (index_syntax token) then Err "invalid binding array index" else
    match ParseInt token, Items cur with
    | Some i, Some item =>
        let min := match int_constraint d "minItems" with Some n => n | None => 0 end in
        Ok (item, guaranteed && (i <? min))
    | _, _ => Err "binding index has no declared item schema"
    end
  else Err "binding traverses a scalar or unconstrained schema".
Fixpoint resolve_tokens (cur : Schema) (guaranteed : bool) (tokens : list bytes) : result (Schema * bool) :=
  match tokens with
  | [] => Ok (cur, guaranteed)
  | t :: tokens => let* r := resolve_step cur guaranteed t in resolve_tokens r.1 r.2 tokens
  end.
Definition ResolvePointer (s : Schema) (pointer : bytes) : result (Schema * bool) :=
  if bytes_eqb pointer [] then Ok (s, true)
  else if negb (has_prefix 47 pointer) then Err "binding must be an RFC6901 JSON Pointer"
  else resolve_tokens s true (pointer_tokens pointer).

(** [&Schema{Nullable: true}]. *)
Definition output_step_schema (cur : Schema) (raw : bytes) : result Schema :=
  let* key := unescapePointer raw in
  let d := sdata cur in
  if bool_decide (Types d = []) then Ok free_schema
  else if contains (Types d) (lit "object") then
    match obj_lookup key (Properties cur) with
    | Some child => Ok child
    | None =>
        if negb (AdditionalAllowed d) then Err "CSV from references excluded output property"
        else Ok (default free_schema (Additional cur))
    end
  else if contains (Types d) (lit "array") then
    if negb (index_syntax key) then Err "invalid output array index" else
    match ParseInt key with
    | None => Err "invalid output array index"
    | Some _ => Ok (default free_schema (Items cur))
    end
  else Err "CSV from traverses known scalar".
Fixpoint output_tokens_schema (cur : Schema) (tokens : list bytes) : result Schema :=
  match tokens with
  | [] => Ok cur
  | t :: tokens => let* c := output_step_schema cur t in output_tokens_schema c tokens
  end.
Definition resolveOutputPointer (s : Schema) (pointer : bytes) : result Schema :=
  if bytes_eqb pointer [] then Ok s
  else if negb (has_prefix 47 pointer) then Err "output binding must be RFC6901 Pointer"
  else output_tokens_schema s (pointer_tokens pointer).

(* ------------------------------------------------------------------ *)
(** ** Lemmas *)

Lemma escapePointer_cons c s :
  escapePointer (c :: s) = (if c =? 126 then lit "~0" else if c =? 47 then lit "~1" else [c]) ++ escapePointer s.
Proof.
  unfold escapePointer, replace_byte. rewrite fmap_cons. cbn [concat]. rewrite fmap_app, concat_app. f_equal.
  destruct (Z.eqb_spec c 126) as [->|]; [done|]. rewrite fmap_cons. simpl. destruct (c =? 47); by rewrite ?app_nil_r.
Qed.

(** Unescaping undoes escaping. *)
Lemma unescape_escape s : unescapePointer (escapePointer s) = Ok s.
Proof.
  induction s as [|c s IH]; [done|]. rewrite escapePointer_cons. destruct (Z.eqb_spec c 126) as [->|H1].
  - cbn. by rewrite IH.
  - destruct (Z.eqb_spec c 47) as [->|H2]; cbn; [by rewrite IH|].
    rewrite (proj2 (Z.eqb_neq c 126)) by done. simpl. by rewrite IH.
Qed.

(** Escaped tokens have no separator, so splitting a pointer gives them back. *)
Definition no_slash (t : bytes) : Prop := Forall (fun c => c <> 47) t.

Lemma escape_no_slash s : no_slash (escapePointer s).
Proof.
  unfold no_slash. induction s as [|c s IH]; [constructor|]. rewrite escapePointer_cons. apply Forall_app. split; [|done].
  destruct (Z.eqb_spec c 126); [repeat constructor; done|]. destruct (Z.eqb_spec c 47); [repeat constructor; done|].
  by repeat constructor.
Qed.

Lemma format_no_slash n : 0 <= n < 10 ^ 20 -> no_slash (FormatInt n) /\ forallb isdigit (FormatInt n) = true /\ FormatInt n <> [].
Proof.
  intros Hn. unfold FormatInt. rewrite (proj2 (Z.ltb_ge n 0)) by lia.
  destruct (decimal_digits_spec 20 n ltac:(lia) ltac:(lia)) as (H & Hne & _). split; [|done].
  apply Forall_forall. intros c Hc. rewrite forallb_forall in H. apply list_elem_of_In, H, isdigit_range in Hc. lia.
Qed.

Lemma split_at_no c t : Forall (fun d => d <> c) t -> split_at c t = [t].
Proof.
  induction t as [|d t IH]; [done|]. intros H. apply Forall_cons in H as [Hd H]. simpl.
  rewrite (proj2 (Z.eqb_neq d c)) by done. by rewrite IH.
Qed.

Lemma split_at_app c t s : Forall (fun d => d <> c) t -> split_at c (t ++ c :: s) = t :: split_at c s.
Proof.
  induction t as [|d t IH]; intros H; simpl; [by rewrite Z.eqb_refl|].
  apply Forall_cons in H as [Hd H]. rewrite (proj2 (Z.eqb_neq d c)) by done. by rewrite IH.
Qed.

(** The text of a pointer with given tokens. *)
Definition pointer_text (tokens : list bytes) : bytes := concat ((fun t => 47 :: t) <$> tokens).

Lemma pointer_tokens_text t ts :
  Forall no_slash (t :: ts) -> pointer_tokens (pointer_text (t :: ts)) = t :: ts.
Proof.
  unfold pointer_tokens, pointer_text. rewrite fmap_cons. cbn [concat]. simpl. rewrite drop_0. revert t.
  induction ts as [|u ts IH]; intros t H; apply Forall_cons in H as [Ht H].
  - simpl. rewrite app_nil_r. by apply split_at_no.
  - rewrite fmap_cons. cbn [concat]. simpl. rewrite split_at_app by done. f_equal. by apply IH.
Qed.

Lemma pointer_text_app ts t : pointer_text (ts ++ [t]) = pointer_text ts ++ 47 :: t.
Proof. unfold pointer_text. rewrite fmap_app, concat_app. simpl. by rewrite app_nil_r. Qed.

Lemma outputPointer_tokens v ts : Forall no_slash ts -> outputPointer v (pointer_text ts) = output_tokens v ts.
Proof.
  destruct ts as [|t ts]; [done|]. intros H. unfold outputPointer.
  rewrite (proj2 (bytes_eqb_false _ _)) by done. simpl has_prefix. cbn [negb]. by rewrite pointer_tokens_text.
Qed.

Lemma output_tokens_app v ts t : output_tokens v (ts ++ t) = let* x := output_tokens v ts in output_tokens x t.
Proof.
  revert v. induction ts as [|u ts IH]; intros v; [done|]. simpl. destruct (output_step v u); [|done]. simpl. apply IH.
Qed.

(** The two steps that validation makes. *)
Lemma output_step_key m k : output_step (VObj m) (escapePointer k) = match obj_lookup k m with Some x => Ok x | None => Err "CSV pointer is missing" end.
Proof. unfold output_step. by rewrite unescape_escape. Qed.

Lemma decimal_head fuel n :
  0 < n < 10 ^ Z.of_nat fuel -> exists c s, decimal_digits fuel n [] = c :: s /\ c <> 48.
Proof.
  revert n. induction fuel as [|fuel IH]; intros n Hn; [simpl in Hn; lia|]. simpl. destruct (Z.ltb_spec n 10).
  - eexists _, _. split; [done|]. rewrite Z.mod_small; lia.
  - rewrite Nat2Z.inj_succ, Z.pow_succ_r in Hn by lia.
    destruct (IH (n / 10)) as (c & s & E & Hc); [Z.to_euclidean_division_equations; lia|].
    rewrite decimal_digits_acc, E. by exists c, (s ++ [48 + n mod 10]).
Qed.

Lemma index_format n :
  0 <= n < 2 ^ 63 -> unescapePointer (FormatInt n) = Ok (FormatInt n) /\ index_syntax (FormatInt n) = true /\
    digits_value (FormatInt n) = n.
Proof.
  intros Hn. destruct (format_no_slash n ltac:(lia)) as (_ & Hd & Hne). split; [|split].
  - clear Hne. induction (FormatInt n) as [|c s IH]; [done|]. cbn [forallb] in Hd. apply andb_true_iff in Hd as [Hc Hd].
    apply isdigit_range in Hc. simpl. rewrite (proj2 (Z.eqb_neq c 126)) by lia. simpl. by rewrite IH.
  - unfold index_syntax. rewrite Hd, (proj2 (bytes_eqb_false _ _)) by done. cbn [orb]. rewrite andb_true_r.
    unfold FormatInt. rewrite (proj2 (Z.ltb_ge n 0)) by lia. destruct (Z.eq_dec n 0) as [->|]; [done|].
    destruct (decimal_head 20 n ltac:(lia)) as (c & s & -> & Hc). simpl. rewrite (proj2 (Z.eqb_neq c 48)) by done.
    by rewrite andb_false_r.
  - unfold FormatInt. rewrite (proj2 (Z.ltb_ge n 0)) by lia. by destruct (decimal_digits_spec 20 n ltac:(lia) ltac:(lia)) as (_ & _ & H).
Qed.

Lemma output_step_index l i x :
  Z.of_nat i < 2 ^ 63 -> l !! i = Some x -> output_step (VArr l) (FormatInt (Z.of_nat i)) = Ok x.
Proof.
  intros Hi Hx. destruct (index_format (Z.of_nat i) ltac:(lia)) as (H1 & H2 & H3). unfold output_step. rewrite H1. cbn [result_bind].
  rewrite H2, H3. cbn [negb]. pose proof (lookup_lt_Some _ _ _ Hx). rewrite (proj2 (Z.leb_gt (2 ^ 63) _)), (proj2 (Z.leb_gt _ _)) by lia.
  cbn [orb]. by rewrite Nat2Z.id, Hx.
Qed.
