(* ===== verification/Validation.v ===== *)
(** * What validation guarantees
    Properties of [validate] and [ValidateInput]: the value returned conforms to the
    schema, the file leaves are exactly the files of that value, a position that
    [ResolvePointer] calls guaranteed exists in it, and validating it again changes
    nothing. *)
From Stdlib Require Import ZArith Lia SpecFloat.
From stdpp Require Import base list option sorting strings.
From S2P Require Import Prelude Utf8 Strconv GoFloat Json JsonText Canonical GoStrings JsonInteger InputValue ValueFormat Schema Pointer.
Local Open Scope Z_scope.

(** Objects in key order, everywhere in a value. *)
Unset Elimination Schemes.
Inductive wf_value : value -> Prop :=
| wfv_null : wf_value VNull
| wfv_bool b : wf_value (VBool b)
| wfv_str s : wf_value (VStr s)
| wfv_int n : wf_value (VInt n)
| wfv_number t : wf_value (VNumber t)
| wfv_float f : wf_value (VFloat f)
| wfv_file f : wf_value (VFile f)
| wfv_arr l : Forall wf_value l -> wf_value (VArr l)
| wfv_obj m : obj_sorted m -> Forall (fun kv => wf_value kv.2) m -> wf_value (VObj m).
Set Elimination Schemes.

(** What the compiler guarantees of a schema: distinct properties, each declared; the
    required ones among them; properties only on objects, items only on arrays; files
    without children; and a well-formed default. *)
Record data_wf (d : schema_data) (props : list (bytes * Schema)) (items : option Schema) : Prop := {
  wf_order : NoDup (PropertyOrder d);
  wf_declared : forall k, k ∈ PropertyOrder d <-> k ∈ props.*1;
  wf_required : forall k, k ∈ Required d -> k ∈ PropertyOrder d;
  wf_properties : props <> [] -> forall t, t ∈ Types d -> t = lit "object" \/ t = lit "null";
  wf_items : items <> None -> forall t, t ∈ Types d -> t = lit "array" \/ t = lit "null";
  wf_file : File d <> None -> props = [] /\ items = None;
  wf_default : wf_value (Default d)
}.
Unset Elimination Schemes.
Inductive schema_wf : Schema -> Prop :=
| SchemaWf d props items additional :
    data_wf d props items -> obj_sorted props -> Forall (fun kv => schema_wf kv.2) props ->
    (forall i, items = Some i -> schema_wf i) -> (forall a, additional = Some a -> schema_wf a) ->
    schema_wf (MkSchema d props items additional).
Set Elimination Schemes.

(** The files of a value with the positions where they stand. *)
Fixpoint files_at (pointer : bytes) (v : value) : list (bytes * FileValue) :=
  match v with
  | VFile f => [(pointer, f)]
  | VObj m => concat (map (fun kv => files_at (pointer ++ 47 :: escapePointer kv.1) kv.2) m)
  | VArr l =>
      (fix go i l := match l with
                     | [] => []
                     | x :: l => files_at (pointer ++ 47 :: FormatInt i) x ++ go (i + 1) l
                     end) 0 l
  | _ => []
  end.
Definition leaf_pair (f : FileLeaf) : bytes * FileValue := (leaf_Pointer f, leaf_Value f).
Definition add_leaves (lv : leaves) (new : list FileLeaf) : leaves := (fun l => l ++ new) <$> lv.

(* ------------------------------------------------------------------ *)
(** ** Lemmas: the loops *)

Lemma add_leaves_nil lv : add_leaves lv [] = lv.
Proof. unfold add_leaves. destruct lv as [l|]; simpl; [by rewrite app_nil_r|done]. Qed.
Lemma add_leaves_app lv a b : add_leaves (add_leaves lv a) b = add_leaves lv (a ++ b).
Proof. unfold add_leaves. destruct lv as [l|]; simpl; [by rewrite app_assoc|done]. Qed.

(** One entry a loop has made: its key, its value and the leaves found in it. *)
Record entry := { e_key : bytes; e_value : value; e_leaves : list FileLeaf }.
Definition entry_pair (e : entry) : bytes * value := (e_key e, e_value e).
Definition entries_leaves (es : list entry) : list FileLeaf := concat (e_leaves <$> es).

Section Loops.
Context (lib : engines) (defaults : bool) (fileLimit : option Z).

(** What the loop over the declared properties takes as the value of a property. *)
Definition source (child : property) (x : list (bytes * value)) (k : bytes) : option value :=
  match obj_lookup k x with Some v => Some v | None => if defaults then pr_default child else None end.

Lemma properties_spec (R : bytes -> property -> value -> bytes -> value -> list FileLeaf -> Prop) d child x pointer :
  (forall k c v p lv v' lv', child k = Some c -> pr_validate c v p lv = Ok (v', lv') ->
    exists new, lv' = add_leaves lv new /\ R k c v p v' new) ->
  forall order o lv o' lv',
  validate_properties defaults d child x pointer order o lv = Ok (o', lv') ->
  exists es, o' = foldl (fun m kv => obj_insert kv.1 kv.2 m) o (entry_pair <$> es) /\
    lv' = add_leaves lv (entries_leaves es) /\ sublist (e_key <$> es) order /\
    Forall (fun e => exists c v, child (e_key e) = Some c /\ source c x (e_key e) = Some v /\
      R (e_key e) c v (pointer ++ 47 :: escapePointer (e_key e)) (e_value e) (e_leaves e)) es /\
    (forall k, k ∈ order -> k ∉ (e_key <$> es) -> (k ∉ Required d) /\ exists c, child k = Some c /\ source c x k = None).
Proof.
  intros HR. induction order as [|k order IH]; intros o lv o' lv'; cbn [validate_properties].
  - intros E. apply Ok_inj in E. injection E as <- <-. exists []. rewrite add_leaves_nil. by repeat split; try constructor.
  - destruct (child k) as [c|] eqn:Ec; [|done]. fold (source c x k). destruct (source c x k) as [v|] eqn:Es.
    + destruct (pr_validate c v _ lv) as [[v' lv1]|] eqn:Ev; [|done]. cbn [result_bind fst snd]. intros E.
      destruct (HR k c v _ lv v' lv1 Ec Ev) as (new & -> & Hnew).
      destruct (IH _ _ _ _ E) as (es & -> & -> & Hsub & Hes & Hmiss).
      exists ({| e_key := k; e_value := v'; e_leaves := new |} :: es). rewrite add_leaves_app.
      split; [done|]. split; [done|]. split; [by apply sublist_skip|]. split.
      * constructor; [|done]. by exists c, v.
      * intros j Hj Hn. rewrite fmap_cons, not_elem_of_cons in Hn. destruct Hn as [Hne Hn].
        apply elem_of_cons in Hj as [->|Hj]; [done|]. by apply Hmiss.
    + destruct (contains (Required d) k) eqn:Er; [done|]. intros E.
      destruct (IH _ _ _ _ E) as (es & -> & -> & Hsub & Hes & Hmiss). exists es.
      split; [done|]. split; [done|]. split; [by apply sublist_cons|]. split; [done|].
      intros j Hj Hn. apply elem_of_cons in Hj as [->|Hj]; [|by apply Hmiss].
      split; [by apply contains_false|]. by exists c.
Qed.

Lemma additional_spec (R : value -> bytes -> value -> list FileLeaf -> Prop) additional pointer :
  (forall v p lv v' lv', additional v p lv = Ok (v', lv') -> exists new, lv' = add_leaves lv new /\ R v p v' new) ->
  forall x o lv o' lv',
  validate_additional additional pointer x o lv = Ok (o', lv') ->
  exists es, o' = foldl (fun m kv => obj_insert kv.1 kv.2 m) o (entry_pair <$> es) /\
    lv' = add_leaves lv (entries_leaves es) /\
    Forall2 (fun kv e => e_key e = kv.1 /\ R kv.2 (pointer ++ 47 :: escapePointer kv.1) (e_value e) (e_leaves e)) x es.
Proof.
  intros HR. induction x as [|[k v] x IH]; intros o lv o' lv'; cbn [validate_additional].
  - intros E. apply Ok_inj in E. injection E as <- <-. exists []. rewrite add_leaves_nil. by repeat split; try constructor.
  - destruct (additional v _ lv) as [[v' lv1]|] eqn:Ev; [|done]. cbn [result_bind fst snd]. intros E.
    destruct (HR v _ lv v' lv1 Ev) as (new & -> & Hnew). destruct (IH _ _ _ _ E) as (es & -> & -> & Hes).
    exists ({| e_key := k; e_value := v'; e_leaves := new |} :: es). rewrite add_leaves_app. repeat split; try done. by constructor.
Qed.

Lemma items_spec (R : value -> bytes -> value -> list FileLeaf -> Prop) item pointer :
  (forall v p lv v' lv', item v p lv = Ok (v', lv') -> exists new, lv' = add_leaves lv new /\ R v p v' new) ->
  forall x i lv a lv',
  validate_items item pointer i x lv = Ok (a, lv') ->
  exists es, a = e_value <$> es /\ lv' = add_leaves lv (entries_leaves es) /\ length es = length x /\
    forall n v e, x !! n = Some v -> es !! n = Some e ->
      R v (pointer ++ 47 :: FormatInt (i + Z.of_nat n)) (e_value e) (e_leaves e).
Proof.
  intros HR. induction x as [|v x IH]; intros i lv a lv'; cbn [validate_items].
  - intros E. apply Ok_inj in E. injection E as <- <-. exists []. rewrite add_leaves_nil. done.
  - destruct (item v _ lv) as [[v' lv1]|] eqn:Ev; [|done]. cbn [result_bind fst snd].
    destruct (validate_items item pointer (i + 1) x lv1) as [[rest lv2]|] eqn:Er; [|done]. cbn [result_bind fst snd].
    intros E. apply Ok_inj in E. injection E as <- <-.
    destruct (HR v _ lv v' lv1 Ev) as (new & -> & Hnew). destruct (IH _ _ _ _ Er) as (es & -> & -> & Hlen & Hes).
    exists ({| e_key := []; e_value := v'; e_leaves := new |} :: es). rewrite add_leaves_app.
    split; [done|]. split; [done|]. split; [simpl; by rewrite Hlen|]. intros [|n] w e Hw He.
    + injection Hw as <-. injection He as <-. simpl. by rewrite Z.add_0_r.
    + simpl in Hw, He. specialize (Hes n w e Hw He). replace (i + Z.of_nat (S n)) with (i + 1 + Z.of_nat n) by lia. done.
Qed.
End Loops.

(* ------------------------------------------------------------------ *)
(** ** Lemmas: a rule for validation *)

Definition no_children (v : value) : bool := match v with VObj _ | VArr _ => false | _ => true end.

(** The value of a property: the one given, or its default. *)
Definition property_source (defaults : bool) (c : Schema) (x : list (bytes * value)) (k : bytes) : option value :=
  match obj_lookup k x with
  | Some v => Some v
  | None => if defaults then (if DefaultSet (sdata c) then Some (Default (sdata c)) else None) else None
  end.
Definition declared (props : list (bytes * Schema)) (k : bytes) : bool :=
  match obj_lookup k props with Some _ => true | None => false end.

Section Rule.
Context (lib : engines) (defaults : bool) (fileLimit : option Z).
Context (Q : Schema -> value -> bytes -> value -> list FileLeaf -> Prop).

(** What an object's validation has checked; [es] are the entries of the declared
    properties, [es'] those of the other keys. *)
Record object_checked (s : Schema) (x : list (bytes * value)) (p : bytes) (es es' : list entry) : Prop := {
  oc_keys : check_keys (sdata s) (declared (Properties s)) x = Ok tt;
  oc_order : sublist (e_key <$> es) (PropertyOrder (sdata s));
  oc_entries : Forall (fun e => exists c v, obj_lookup (e_key e) (Properties s) = Some c /\
    property_source defaults c x (e_key e) = Some v /\
    Q c v (p ++ 47 :: escapePointer (e_key e)) (e_value e) (e_leaves e)) es;
  oc_missing : forall k, k ∈ PropertyOrder (sdata s) -> k ∉ (e_key <$> es) ->
    (k ∉ Required (sdata s)) /\ exists c, obj_lookup k (Properties s) = Some c /\ property_source defaults c x k = None;
  oc_additional : Forall2 (fun kv e => e_key e = kv.1 /\
    Q (default free_schema (Additional s)) kv.2 (p ++ 47 :: escapePointer kv.1) (e_value e) (e_leaves e))
    (filter (fun kv => declared (Properties s) kv.1 = false) x) es';
  oc_type : type_allowed (sdata s) "object" = true;
  oc_enum : validateEnumConst (sdata s) (VObj (obj_of_list (entry_pair <$> (es ++ es')))) = Ok tt
}.

Record array_checked (s : Schema) (x : list value) (p : bytes) (es : list entry) : Prop := {
  ac_min : forall n, int_constraint (sdata s) "minItems" = Some n -> n <= Z.of_nat (length x);
  ac_max : forall n, int_constraint (sdata s) "maxItems" = Some n -> Z.of_nat (length x) <= n;
  ac_length : length es = length x;
  ac_entries : forall n v e, x !! n = Some v -> es !! n = Some e ->
    Q (default free_schema (Items s)) v (p ++ 47 :: FormatInt (Z.of_nat n)) (e_value e) (e_leaves e);
  ac_type : type_allowed (sdata s) "array" = true;
  ac_enum : validateEnumConst (sdata s) (VArr (e_value <$> es)) = Ok tt
}.

(** A scalar, after its number has been normalised. *)
Record scalar_checked (d : schema_data) (v : value) (t : string) (v' : value) : Prop := {
  sc_normal : normalize d v = Ok (t, v');
  sc_type : type_allowed d t = true;
  sc_string : forall x, v' = VStr x -> validate_string lib d x = Ok tt;
  sc_bounds : t = "integer"%string \/ t = "number"%string -> check_bounds d v' = Ok tt;
  sc_enum : validateEnumConst d v' = Ok tt
}.

Context (Hfree : forall v p v', free v = Ok v' -> Q free_schema v p v' []).
Context (Hnull : forall s p, validate_null (sdata s) = Ok VNull -> Q s VNull p VNull []).
Context (Hfile : forall s fc f p v' new, File (sdata s) = Some fc ->
  validate_file fileLimit (sdata s) fc (fun d' => MkSchema d' (Properties s) (Items s) (Additional s)) (VFile f) p (Some []) = Ok (v', Some new) ->
  Q s (VFile f) p v' new).
Context (Hscalar : forall s v p t v', File (sdata s) = None -> no_children v' = true ->
  scalar_checked (sdata s) v t v' -> Q s v p v' []).
Context (Hobj : forall s x p es es', File (sdata s) = None -> object_checked s x p es es' ->
  Q s (VObj x) p (VObj (obj_of_list (entry_pair <$> (es ++ es')))) (entries_leaves (es ++ es'))).
Context (Harr : forall s x p es, File (sdata s) = None -> array_checked s x p es ->
  Q s (VArr x) p (VArr (e_value <$> es)) (entries_leaves es)).

Definition good_validator (s : Schema) (val : validator) : Prop :=
  forall v p lv v' lv', val v p lv = Ok (v', lv') -> exists new, lv' = add_leaves lv new /\ Q s v p v' new.

Lemma free_good : good_validator free_schema validate_free.
Proof.
  intros v p lv v' lv' E. unfold validate_free in E. destruct (free v) as [w|] eqn:Ef; [|done]. apply Ok_inj in E.
  injection E as <- <-. exists []. rewrite add_leaves_nil. split; [done|]. by apply Hfree.
Qed.

Lemma file_good s fc v p lv v' lv' :
  File (sdata s) = Some fc ->
  validate_file fileLimit (sdata s) fc (fun d' => MkSchema d' (Properties s) (Items s) (Additional s)) v p lv = Ok (v', lv') ->
  exists new, lv' = add_leaves lv new /\ Q s v p v' new.
Proof.
  intros Hf E. unfold validate_file in E. destruct v as [| | | | | | | |f]; try done.
  destruct (_ || _) eqn:E1 in E; [done|]. destruct (negb _) eqn:E2 in E; [done|].
  destruct (validate_constraints _ f) as [[]|] eqn:E3; [|done]. cbn [result_bind] in E. apply Ok_inj in E. injection E as <- <-.
  eexists. split; [reflexivity|]. eapply Hfile; [exact Hf|]. unfold validate_file. rewrite E1, E2, E3. reflexivity.
Qed.

Definition child_property (c : Schema) : property :=
  {| pr_default := if DefaultSet (sdata c) then Some (Default (sdata c)) else None;
     pr_validate := validate lib defaults fileLimit c |}.

Definition child_list (props : list (bytes * Schema)) : list (bytes * property) :=
  map (fun kv => (kv.1, child_property kv.2)) props.

Lemma child_lookup k props : obj_lookup k (child_list props) = child_property <$> obj_lookup k props.
Proof. induction props as [|[k' c] props IH]; [done|]. simpl. by destruct (bytes_eqb k k'). Qed.

Section Node.
Context (d : schema_data) (props : list (bytes * Schema)) (items additional : option Schema).
Context (HF : File d = None).
Context (IHprops : Forall (fun kv => good_validator kv.2 (validate lib defaults fileLimit kv.2)) props).
Context (item more : validator).
Context (IHitems : good_validator (default free_schema items) item).
Context (IHadditional : good_validator (default free_schema additional) more).
Local Abbreviation node := (MkSchema d props items additional).
Local Abbreviation child := (fun k => obj_lookup k (child_list props)).

Lemma object_good x p lv o lv' :
  validate_object defaults d child more x p lv = Ok (o, lv') -> type_allowed d "object" = true ->
  validateEnumConst d (VObj o) = Ok tt -> exists new, lv' = add_leaves lv new /\ Q node (VObj x) p (VObj o) new.
Proof.
  unfold validate_object. intros E Ht Hen. apply result_bind_Ok in E as ([] & Ek & E).
  apply result_bind_Ok in E as ([o1 lv1] & Ep & E). cbn [fst snd] in E.
  assert (forall k, match child k with Some _ => true | None => false end = declared props k) as Hdec.
  { intros k. unfold declared. rewrite child_lookup. by destruct (obj_lookup k props). }
  apply (properties_spec defaults (fun k c v q v' new => exists cs, obj_lookup k props = Some cs /\ c = child_property cs /\ Q cs v q v' new)) in Ep.
  2: { intros k c v q lv2 v' lv3 Hc Hv. rewrite child_lookup in Hc. destruct (obj_lookup k props) as [cs|] eqn:El; [|done]. injection Hc as <-.
       apply obj_lookup_Some in El as Hin. destruct (proj1 (Forall_forall _ _) IHprops _ Hin v q lv2 v' lv3 Hv) as (new & -> & HQ).
       exists new. split; [done|]. by exists cs. }
  destruct Ep as (es & -> & -> & Hsub & Hes & Hmiss).
  apply (additional_spec (Q (default free_schema additional))) in E; [|exact IHadditional].
  destruct E as (es' & -> & -> & Hes'). exists (entries_leaves (es ++ es')).
  assert (foldl (fun m kv => obj_insert kv.1 kv.2 m) (foldl (fun m kv => obj_insert kv.1 kv.2 m) [] (entry_pair <$> es)) (entry_pair <$> es')
    = obj_of_list (entry_pair <$> (es ++ es'))) as Ho by (unfold obj_of_list; by rewrite fmap_app, foldl_app).
  rewrite Ho in *. split; [rewrite add_leaves_app; unfold entries_leaves; by rewrite fmap_app, concat_app|].
  apply Hobj; [done|]. split; try done.
  - rewrite <- Ek. cbn [sdata Properties]. unfold check_keys.
    assert (forall l : list (bytes * value), existsb (fun kv => negb (declared props kv.1) && contains (Types d) (lit "object") && negb (AdditionalAllowed d)) l =
      existsb (fun kv => negb (match child kv.1 with Some _ => true | None => false end) && contains (Types d) (lit "object") && negb (AdditionalAllowed d)) l) as ->;
      [|done]. induction l as [|kv l IH]; [done|]. cbn [existsb]. by rewrite IH, Hdec.
  - eapply Forall_impl; [exact Hes|]. intros e (c & v & Hc & Hsrc & cs & Hcs & -> & HQ). cbn [Properties]. exists cs, v.
    split; [done|]. split; [|done]. unfold source, property_source in *. by destruct (obj_lookup (e_key e) x), defaults.
  - intros k Hk Hn. destruct (Hmiss k Hk Hn) as (Hr & c & Hc & Hsrc). split; [done|]. cbn [Properties].
    rewrite child_lookup in Hc. destruct (obj_lookup k props) as [cs|]; [|done]. injection Hc as <-. exists cs. split; [done|].
    unfold source, property_source in *. by destruct (obj_lookup k x), defaults.
  - cbn [Properties Additional].
    assert (filter (fun kv : bytes * value => declared props kv.1 = false) x =
      filter (fun kv : bytes * value => (match child kv.1 with Some _ => true | None => false end) = false) x) as ->; [|done].
    apply list_filter_iff. intros kv. by rewrite Hdec.
Qed.

Lemma array_good x p lv a lv' :
  validate_array d item x p lv = Ok (a, lv') -> type_allowed d "array" = true ->
  validateEnumConst d (VArr a) = Ok tt -> exists new, lv' = add_leaves lv new /\ Q node (VArr x) p (VArr a) new.
Proof.
  unfold validate_array. intros E Ht Hen. destruct (match int_constraint d "minItems" with Some lo => _ | None => _ end) eqn:Emin; [done|].
  destruct (match int_constraint d "maxItems" with Some hi => _ | None => _ end) eqn:Emax; [done|].
  apply (items_spec (Q (default free_schema items))) in E; [|exact IHitems].
  destruct E as (es & -> & -> & Hlen & Hes). exists (entries_leaves es). split; [done|].
  apply Harr; [done|]. split; try done.
  - intros n Hn. cbn [sdata] in Hn. rewrite Hn in Emin. apply Z.ltb_ge in Emin. lia.
  - intros n Hn. cbn [sdata] in Hn. rewrite Hn in Emax. apply Z.ltb_ge in Emax. lia.
Qed.
End Node.

Lemma validate_value_good d props items additional item more :
  File d = None ->
  Forall (fun kv => good_validator kv.2 (validate lib defaults fileLimit kv.2)) props ->
  good_validator (default free_schema items) item -> good_validator (default free_schema additional) more ->
  forall v p lv v' lv',
  validate_value lib defaults d (fun k => obj_lookup k (child_list props)) item more v p lv = Ok (v', lv') ->
  exists new, lv' = add_leaves lv new /\ Q (MkSchema d props items additional) v p v' new.
Proof.
  intros HF Hp Hi Ha v p lv v' lv' E. unfold validate_value in E. apply result_bind_Ok in E as ([t v1] & En & E). cbn [fst snd] in E.
  destruct (type_allowed d t) eqn:Et; [|done]. cbn [negb] in E. apply result_bind_Ok in E as ([v2 lv2] & Ev & E).
  apply result_bind_Ok in E as ([] & Eb & E). apply result_bind_Ok in E as ([] & Ee & E). apply Ok_inj in E. injection E as <- <-.
  cbn [fst snd] in *.
  assert (no_children v1 = true -> v2 = v1 /\ lv2 = lv /\ (forall x, v1 = VStr x -> validate_string lib d x = Ok tt)) as Hsc.
  { intros Hn. destruct v1; try done; try (apply Ok_inj in Ev; injection Ev as <- <-; done).
    cbn [validate_typed] in Ev. apply result_bind_Ok in Ev as ([] & Es & Ev). apply Ok_inj in Ev. injection Ev as <- <-.
    split; [done|]. split; [done|]. by intros x [= <-]. }
  destruct (no_children v1) eqn:Hn.
  - destruct (Hsc eq_refl) as (-> & -> & Hstr). exists []. rewrite add_leaves_nil. split; [done|].
    eapply Hscalar; [done|done|]. split; try done. intros [->| ->]; done.
  - assert (v1 = v /\ json_type v = Some t) as [-> Ht].
    { unfold normalize in En. destruct (json_type v) as [t0|] eqn:Ej; [|done].
      destruct (negb (t0 =? "number")%string) eqn:E0; [apply Ok_inj in En; by injection En as <- <-|].
      assert (forall w, validate_float d v = Ok w -> no_children w = true) as Hfl.
      { unfold validate_float. intros w. destruct (finiteNumber v); [|done]. destruct (Types d), v; try done;
          repeat case_match; try done; intros Ew; apply Ok_inj in Ew as <-; done. }
      destruct (contains (Types d) (lit "integer")).
      - destruct (exactInteger v); [apply Ok_inj in En; injection En as _ <-; done|]. destruct (negb (contains (Types d) (lit "number"))); [done|].
        apply result_bind_Ok in En as (w & Ew & En). apply Ok_inj in En. injection En as _ <-. rewrite (Hfl w Ew) in Hn. done.
      - apply result_bind_Ok in En as (w & Ew & En). apply Ok_inj in En. injection En as _ <-. rewrite (Hfl w Ew) in Hn. done. }
    destruct v; try done; injection Ht as <-; cbn [validate_typed] in Ev; apply result_bind_Ok in Ev as ([r lv3] & Er & Ev);
      apply Ok_inj in Ev; injection Ev as <- <-; cbn [fst snd] in *.
    + by eapply array_good.
    + by eapply object_good.
Qed.

(** The rule: a relation closed under the cases holds of every successful validation. *)
Lemma validation_rule s : good_validator s (validate lib defaults fileLimit s).
Proof.
  induction s as [d props items additional IHp IHi IHa] using Schema_ind. intros v p lv v' lv' E.
  assert (v = VNull \/ v <> VNull) as [->|Hv] by (destruct v; auto; by right).
  { cbn [validate] in E. apply result_bind_Ok in E as (w & En & E). apply Ok_inj in E. injection E as <- <-.
    exists []. rewrite add_leaves_nil. split; [done|]. assert (w = VNull) as ->.
    { unfold validate_null in En. repeat case_match; try done; try (by apply Ok_inj in En);
        apply result_bind_Ok in En as (? & _ & En); by apply Ok_inj in En. }
    by apply Hnull. }
  destruct (File d) as [fc|] eqn:HF.
  { apply (file_good (MkSchema d props items additional) fc); [done|]. cbn [validate] in E. rewrite HF in E. by destruct v. }
  eapply (validate_value_good d props items additional _ _ HF IHp); [| |cbn [validate] in E; rewrite HF in E; destruct v; exact E || done].
  - destruct items as [i|]; [exact IHi|apply free_good].
  - destruct additional as [a|]; [exact IHa|apply free_good].
Qed.
End Rule.

(* ------------------------------------------------------------------ *)
(** ** Lemmas: values without a schema *)

Lemma free_items_Forall2 l a :
  (fix go l := match l with
               | [] => Ok []
               | x :: l => let* y := free x in let* r := go l in Ok (y :: r)
               end) l = Ok a -> Forall2 (fun x y => free x = Ok y) l a.
Proof.
  revert a. induction l as [|x l IH]; intros a E; [apply Ok_inj in E as <-; constructor|].
  apply result_bind_Ok in E as (y & Ey & E). apply result_bind_Ok in E as (r & Er & E). apply Ok_inj in E as <-.
  constructor; [done|]. by apply IH.
Qed.

Lemma free_members_Forall2 m o o' :
  (fix go m o := match m with
                 | [] => Ok o
                 | kv :: m => let* y := free kv.2 in go m (obj_insert kv.1 y o)
                 end) m o = Ok o' ->
  exists l, o' = foldl (fun m kv => obj_insert kv.1 kv.2 m) o l /\
    Forall2 (fun (kv : bytes * value) (kw : bytes * value) => kw.1 = kv.1 /\ free kv.2 = Ok kw.2) m l.
Proof.
  revert o. induction m as [|[k v] m IH]; intros o E.
  - apply Ok_inj in E as <-. by exists [].
  - apply result_bind_Ok in E as (y & Ey & E). apply IH in E as (l & -> & Hl). exists ((k, y) :: l). split; [done|]. by constructor.
Qed.

(** Mapping the values of a sorted object keeps it sorted as it is. *)
Lemma obj_of_list_id {V} (l : list (bytes * V)) : obj_sorted l -> obj_of_list l = l.
Proof.
  unfold obj_of_list. assert (forall l o : list (bytes * V), obj_sorted (o ++ l) -> foldl (fun m kv => obj_insert kv.1 kv.2 m) o l = o ++ l) as H.
  { clear l. induction l as [|[k v] l IH]; intros o Ho; [by rewrite app_nil_r|]. cbn [foldl fst snd].
    rewrite obj_insert_last.
    - rewrite IH by (by rewrite <- app_assoc). by rewrite <- app_assoc.
    - unfold obj_sorted in Ho. rewrite fmap_app in Ho. apply Forall_forall. intros x Hx.
      eapply (StronglySorted_app_1_elem_of bytes_lt); [exact Ho|done|]. left. }
  intros Hl. by rewrite H.
Qed.

Lemma free_obj m o :
  free (VObj m) = Ok (VObj o) -> obj_sorted m ->
  o.*1 = m.*1 /\ Forall2 (fun kv kw => kw.1 = kv.1 /\ free kv.2 = Ok kw.2) m o /\ forallb (fun kv => ValidString kv.1) m = true.
Proof.
  cbn [free]. intros E Hm. destruct (forallb _ m) eqn:Hk; [|done]. cbn [negb] in E.
  apply result_bind_Ok in E as (o' & E & E'). apply Ok_inj in E'. injection E' as ->.
  apply free_members_Forall2 in E as (l & -> & Hl). assert (l.*1 = m.*1) as Hkeys.
  { clear -Hl. induction Hl as [|kv kw m l [H1 _] _ IH]; [done|]. by rewrite !fmap_cons, IH, H1. }
  assert (obj_sorted l) as Hs by (unfold obj_sorted; by rewrite Hkeys).
  pose proof (obj_of_list_id l Hs) as Hid. unfold obj_of_list in Hid. rewrite Hid. done.
Qed.

Lemma free_kind v v' : free v = Ok v' ->
  match v with
  | VObj m => exists o, v' = VObj o
  | VArr l => exists a, v' = VArr a /\ Forall2 (fun x y => free x = Ok y) l a
  | VNull => v' = VNull
  | VBool b => v' = VBool b
  | VStr s => v' = VStr s /\ ValidString s = true
  | VFile _ => False
  | VInt n => v' = VInt n
  | VNumber _ | VFloat _ => validate_float free_data v = Ok v'
  end.
Proof.
  destruct v; cbn [free]; intros E; try done; try (by apply Ok_inj in E).
  - destruct (ValidString s) eqn:Es; [|done]. by apply Ok_inj in E as <-.
  - apply result_bind_Ok in E as (a & Ea & E). apply Ok_inj in E as <-. exists a. split; [done|]. by apply free_items_Forall2.
  - destruct (negb _); [done|]. apply result_bind_Ok in E as (o & _ & E). apply Ok_inj in E as <-. by exists o.
Qed.

Lemma validate_float_scalar d v v' : validate_float d v = Ok v' -> (exists n, v' = VInt n) \/ (exists f, v' = VFloat f).
Proof.
  unfold validate_float. destruct (finiteNumber v); [|done]. destruct (Types d), v; repeat case_match; try done;
    intros E; apply Ok_inj in E as <-; eauto.
Qed.

Lemma free_wf v : forall v' p, wf_value v -> free v = Ok v' -> wf_value v' /\ files_at p v' = [].
Proof.
  induction v as [|b|s|n|t|f|l IH|m IH|f] using value_ind; intros v' p Hwf E; apply free_kind in E as Hk; cbn in Hk.
  - subst. split; [constructor|done].
  - subst. split; [constructor|done].
  - destruct Hk as [-> _]. split; [constructor|done].
  - subst. split; [constructor|done].
  - apply validate_float_scalar in Hk as [[n ->]|[f ->]]; (split; [constructor|done]).
  - apply validate_float_scalar in Hk as [[n ->]|[g ->]]; (split; [constructor|done]).
  - destruct Hk as (a & -> & Hall). inversion_clear Hwf as [| | | | | | |? Hl|]. cbn [files_at]. split.
    + constructor. clear E. revert IH Hl. induction Hall as [|x y l a Hxy _ IHa]; intros IH Hl; [constructor|].
      apply Forall_cons in IH as [Hx IH]. apply Forall_cons in Hl as [Hlx Hl]. constructor; [by eapply (Hx y [])|]. by apply IHa.
    + clear E. generalize 0. revert IH Hl. induction Hall as [|x y l a Hxy _ IHa]; intros IH Hl i; [done|].
      apply Forall_cons in IH as [Hx IH]. apply Forall_cons in Hl as [Hlx Hl].
      destruct (Hx y (p ++ 47 :: FormatInt i) Hlx Hxy) as [_ ->]. simpl. by apply IHa.
  - destruct Hk as [o ->]. inversion_clear Hwf as [| | | | | | | |? Hm Hv]. destruct (free_obj m o E Hm) as (Hkeys & Hall & _). cbn [files_at]. split.
    + constructor; [unfold obj_sorted; by rewrite Hkeys|]. clear E Hkeys Hm. revert IH Hv.
      induction Hall as [|x y l a [_ Hxy] _ IHa]; intros IH Hv; [constructor|].
      apply Forall_cons in IH as [Hx IH]. apply Forall_cons in Hv as [Hvx Hv]. constructor; [by eapply (Hx y.2 [])|]. by apply IHa.
    + clear E Hkeys Hm. revert IH Hv. induction Hall as [|x y l a [_ Hxy] _ IHa]; intros IH Hv; [done|].
      apply Forall_cons in IH as [Hx IH]. apply Forall_cons in Hv as [Hvx Hv]. cbn [map concat].
      destruct (Hx y.2 (p ++ 47 :: escapePointer y.1) Hvx Hxy) as [_ ->]. simpl. by apply IHa.
  - done.
Qed.

(* ------------------------------------------------------------------ *)
(** ** Lemmas: the leaves are the files of the result *)

Lemma concat_map_perm {A B} (f : A -> list B) l l' : l ≡ₚ l' -> concat (map f l) ≡ₚ concat (map f l').
Proof.
  induction 1 as [|x l l' _ IH|x y l|l1 l2 l3 _ IH1 _ IH2]; simpl; [done|by rewrite IH| |by etrans].
  rewrite !app_assoc. f_equiv. apply Permutation_app_comm.
Qed.

Lemma fmap_sublist {A B} (f : A -> B) l l' : sublist l l' -> sublist (f <$> l) (f <$> l').
Proof. induction 1; by constructor. Qed.

(** The entries of an object have distinct keys. *)
Lemma entries_NoDup Q defaults s x p es es' :
  schema_wf s -> obj_sorted x -> object_checked defaults Q s x p es es' -> NoDup ((entry_pair <$> (es ++ es')).*1).
Proof.
  intros Hs Hx [_ Hsub Hes _ Hadd _ _]. destruct Hs as [d props items additional Hd _ _ _ _]. cbn [sdata Properties] in *.
  assert (forall l, (entry_pair <$> l).*1 = e_key <$> l) as Hk by (intros l; rewrite <- list_fmap_compose; done).
  rewrite Hk, fmap_app. apply NoDup_app. split; [|split].
  - eapply sublist_NoDup; [apply (wf_order _ _ _ Hd)|exact Hsub].
  - intros k Hin Hin'. apply list_elem_of_fmap in Hin as (e & -> & He). rewrite Forall_forall in Hes.
    destruct (Hes e He) as (c & v & Hc & _). apply list_elem_of_fmap in Hin' as (e' & Heq & He').
    apply list_elem_of_lookup in He' as (i & Hi). destruct (Forall2_lookup_r _ _ _ _ _ Hadd Hi) as (kv & Hkv & Hkey & _).
    assert (kv ∈ filter (fun kv => declared props kv.1 = false) x) as Hin by (by eapply list_elem_of_lookup_2).
    apply list_elem_of_filter in Hin as [Hdec _]. unfold declared in Hdec. rewrite <- Hkey, <- Heq, Hc in Hdec. done.
  - assert (e_key <$> es' = (filter (fun kv => declared props kv.1 = false) x).*1) as ->.
    { clear -Hadd. induction Hadd as [|kv e l l' [H _] _ IH]; [done|]. by rewrite !fmap_cons, IH, H. }
    eapply sublist_NoDup; [exact (obj_sorted_NoDup x Hx)|apply fmap_sublist, sublist_filter].
Qed.

Definition leaves_ok (s : Schema) (v : value) (p : bytes) (v' : value) (new : list FileLeaf) : Prop :=
  schema_wf s -> wf_value v -> wf_value v' /\ leaf_pair <$> new ≡ₚ files_at p v'.

Lemma source_wf defaults c x k v :
  schema_wf c -> wf_value (VObj x) -> property_source defaults c x k = Some v -> wf_value v.
Proof.
  intros Hc Hx. unfold property_source. inversion_clear Hx as [| | | | | | | |? Hm Hv]. destruct (obj_lookup k x) as [w|] eqn:E.
  - intros [= <-]. apply obj_lookup_Some in E. by apply (proj1 (Forall_forall _ _) Hv (k, w)).
  - destruct Hc as [d ? ? ? Hd]. cbn [sdata]. destruct defaults, (DefaultSet d); try done. intros [= <-]. apply (wf_default _ _ _ Hd).
Qed.

Lemma child_wf s k c : schema_wf s -> obj_lookup k (Properties s) = Some c -> schema_wf c.
Proof.
  intros [d props items additional _ _ Hp _ _] E. apply obj_lookup_Some in E. by apply (proj1 (Forall_forall _ _) Hp (k, c)).
Qed.
Lemma free_schema_wf : schema_wf free_schema.
Proof.
  constructor; [|constructor|constructor|done|done]. split; simpl; try done; try constructor; try (intros; by apply not_elem_of_nil in H).
Qed.
Lemma additional_wf s : schema_wf s -> schema_wf (default free_schema (Additional s)).
Proof. intros [d props items additional _ _ _ _ Ha]. cbn. destruct additional; [by apply Ha|apply free_schema_wf]. Qed.
Lemma items_wf s : schema_wf s -> schema_wf (default free_schema (Items s)).
Proof. intros [d props items additional _ _ _ Hi _]. cbn. destruct items; [by apply Hi|apply free_schema_wf]. Qed.

(** The leaves of entries against the files of their values. *)
Lemma entries_files (g : entry -> list (bytes * FileValue)) es :
  Forall (fun e => leaf_pair <$> e_leaves e ≡ₚ g e) es -> leaf_pair <$> entries_leaves es ≡ₚ concat (map g es).
Proof.
  induction 1 as [|e es He _ IH]; [done|]. unfold entries_leaves in *. rewrite fmap_cons. cbn [concat map].
  by rewrite fmap_app, He, IH.
Qed.

Lemma files_at_arr p a :
  files_at p (VArr a) = concat (imap (fun i x => files_at (p ++ 47 :: FormatInt (Z.of_nat i)) x) a).
Proof.
  cbn [files_at]. assert (forall i, (fix go i l := match l with
      | [] => [] | x :: l => files_at (p ++ 47 :: FormatInt i) x ++ go (i + 1) l end) (Z.of_nat i) a =
    concat (imap (fun j x => files_at (p ++ 47 :: FormatInt (Z.of_nat (i + j))) x) a)) as H.
  { induction a as [|x a IH]; intros i; [done|]. rewrite imap_cons. cbn [concat]. rewrite Nat.add_0_r. f_equal.
    replace (Z.of_nat i + 1) with (Z.of_nat (S i)) by lia. rewrite IH. f_equal. apply imap_ext. intros j y _. simpl. do 4 f_equal. lia. }
  apply (H 0%nat).
Qed.

Lemma object_leaves defaults s x p es es' :
  object_checked defaults leaves_ok s x p es es' -> schema_wf s -> wf_value (VObj x) ->
  wf_value (VObj (obj_of_list (entry_pair <$> (es ++ es')))) /\
  leaf_pair <$> entries_leaves (es ++ es') ≡ₚ files_at p (VObj (obj_of_list (entry_pair <$> (es ++ es')))).
Proof.
  intros Hoc Hs Hx. inversion Hx as [| | | | | | | |? Hsorted Hvals]; subst.
  pose proof (entries_NoDup _ _ _ _ _ _ _ Hs Hsorted Hoc) as Hnd. apply obj_of_list_perm in Hnd as Hperm.
  assert (Forall (fun e => wf_value (e_value e) /\
    leaf_pair <$> e_leaves e ≡ₚ files_at (p ++ 47 :: escapePointer (e_key e)) (e_value e)) (es ++ es')) as Hall.
  { apply Forall_app. split.
    - eapply Forall_impl; [apply (oc_entries _ _ _ _ _ _ _ Hoc)|]. intros e (c & v & Hc & Hsrc & HQ).
      apply HQ; [by eapply child_wf|by eapply source_wf; [eapply child_wf|..]].
    - apply Forall_forall. intros e He. apply list_elem_of_lookup in He as (i & Hi).
      destruct (Forall2_lookup_r _ _ _ _ _ (oc_additional _ _ _ _ _ _ _ Hoc) Hi) as (kv & Hkv & Hkey & HQ).
      assert (kv ∈ x) as Hin. { apply list_elem_of_lookup_2, list_elem_of_filter in Hkv. by destruct Hkv. }
      rewrite Hkey. apply HQ; [by apply additional_wf|]. by apply (proj1 (Forall_forall _ _) Hvals). }
  split.
  - constructor; [apply obj_of_list_sorted|]. rewrite Hperm. apply Forall_fmap. eapply Forall_impl; [exact Hall|]. by intros e [? _].
  - cbn [files_at]. rewrite (concat_map_perm _ _ _ Hperm).
    rewrite (entries_files (fun e => files_at (p ++ 47 :: escapePointer (e_key e)) (e_value e))) by (eapply Forall_impl; [exact Hall|]; by intros e [_ ?]).
    assert (forall l, map (fun kv : bytes * value => files_at (p ++ 47 :: escapePointer kv.1) kv.2) (entry_pair <$> l) =
      map (fun e => files_at (p ++ 47 :: escapePointer (e_key e)) (e_value e)) l) as ->; [|done].
    induction l as [|e l IH]; [done|]. rewrite fmap_cons. cbn [map]. by rewrite IH.
Qed.

Lemma array_leaves s x p es :
  array_checked leaves_ok s x p es -> schema_wf s -> wf_value (VArr x) ->
  wf_value (VArr (e_value <$> es)) /\ leaf_pair <$> entries_leaves es ≡ₚ files_at p (VArr (e_value <$> es)).
Proof.
  intros [_ _ Hlen Hes _ _] Hs Hx. inversion Hx as [| | | | | | |? Hvals|]; subst.
  assert (forall n e, es !! n = Some e -> wf_value (e_value e) /\
    leaf_pair <$> e_leaves e ≡ₚ files_at (p ++ 47 :: FormatInt (Z.of_nat n)) (e_value e)) as Hall.
  { intros n e He. destruct (x !! n) as [v|] eqn:Ev.
    - apply (Hes n v e Ev He); [by apply items_wf|]. apply (proj1 (Forall_forall _ _) Hvals). by eapply list_elem_of_lookup_2.
    - apply lookup_ge_None in Ev. apply lookup_lt_Some in He. lia. }
  split.
  - constructor. apply Forall_fmap, Forall_lookup. intros n e He. by apply (Hall n).
  - rewrite files_at_arr.
    assert (forall k, (forall n e, es !! n = Some e -> leaf_pair <$> e_leaves e ≡ₚ files_at (p ++ 47 :: FormatInt (Z.of_nat (k + n))) (e_value e)) ->
      leaf_pair <$> entries_leaves es ≡ₚ concat (imap (fun i x => files_at (p ++ 47 :: FormatInt (Z.of_nat (k + i))) x) (e_value <$> es))) as H.
    { clear. induction es as [|e es' IH]; intros k Hk; [done|]. unfold entries_leaves in *. rewrite !fmap_cons, imap_cons. cbn [concat].
      rewrite fmap_app. f_equiv; [by apply (Hk 0%nat)|]. rewrite (IH (S k)).
      - apply reflexive_eq. f_equal. apply imap_ext. intros i y _. simpl. do 4 f_equal. lia.
      - intros n e' He'. replace (S k + n)%nat with (k + S n)%nat by lia. by apply (Hk (S n)). }
    apply (H 0%nat). intros n e He. by apply Hall.
Qed.

(** Normalising changes numbers only. *)
Lemma normalize_cases d v t v' :
  normalize d v = Ok (t, v') ->
  (v' = v /\ json_type v = Some t /\ t <> "number"%string) \/
  (json_type v = Some "number"%string /\ ((exists n, v' = VInt n) \/ exists f, v' = VFloat f) /\
   (t = "integer"%string /\ contains (Types d) (lit "integer") = true /\ (exists n, exactInteger v = Some n /\ v' = VInt n) \/
    t = "number"%string /\ (contains (Types d) (lit "integer") = true -> exactInteger v = None /\ contains (Types d) (lit "number") = true) /\
    validate_float d v = Ok v')).
Proof.
  unfold normalize. destruct (json_type v) as [t0|] eqn:Ej; [|done]. destruct (String.eqb_spec t0 "number") as [->|Hne]; cbn [negb].
  - intros E. right. split; [done|]. destruct (contains (Types d) (lit "integer")).
    + destruct (exactInteger v) as [n|] eqn:Ei.
      * apply Ok_inj in E. injection E as <- <-. split; [left; eauto|]. left. eauto.
      * destruct (contains (Types d) (lit "number")) eqn:En; [|done]. cbn [negb] in E.
        apply result_bind_Ok in E as (w & Ew & E). apply Ok_inj in E. injection E as <- <-.
        split; [by eapply validate_float_scalar|]. right. done.
    + apply result_bind_Ok in E as (w & Ew & E). apply Ok_inj in E. injection E as <- <-.
      split; [by eapply validate_float_scalar|]. right. done.
  - intros E. apply Ok_inj in E. injection E as <- <-. by left.
Qed.

Lemma normalize_leaf d v t v' p :
  normalize d v = Ok (t, v') -> no_children v' = true -> wf_value v' /\ leaf_pair <$> [] ≡ₚ files_at p v'.
Proof.
  intros E Hn. apply normalize_cases in E as [(-> & Hj & _)|(_ & [[n ->]|[f ->]] & _)].
  - destruct v; try done; (split; [constructor|done]).
  - split; [constructor|done].
  - split; [constructor|done].
Qed.

Lemma validate_leaves lib defaults fileLimit s v p lv v' lv' :
  validate lib defaults fileLimit s v p lv = Ok (v', lv') ->
  exists new, lv' = add_leaves lv new /\ leaves_ok s v p v' new.
Proof.
  apply (validation_rule lib defaults fileLimit leaves_ok).
  - intros w q w' E _ Hw. destruct (free_wf w w' q Hw E) as [H1 H2]. split; [done|]. by rewrite H2.
  - intros c q _ _ _. split; [constructor|done].
  - intros c fc f q w' new _ E _ _. unfold validate_file in E. destruct (_ || _); [done|]. destruct (negb _); [done|].
    apply result_bind_Ok in E as (_ & _ & E). apply Ok_inj in E. injection E as <- <-. split; [constructor|done].
  - intros c w q t w' _ Hn Hsc _ _. destruct Hsc as [Hnorm _ _ _ _].
    by apply (normalize_leaf (sdata c) w t w' q).
  - intros c x q es es' _ Hoc Hc Hx. by eapply object_leaves.
  - intros c x q es _ Hac Hc Hx. by eapply array_leaves.
Qed.

(** A file is found at its position. *)
Lemma item_small l i x : l !! i = Some x -> value_items x + Z.of_nat i < value_items (VArr l).
Proof.
  cbn [value_items]. revert i. induction l as [|y l IH]; intros i H; [done|]. destruct i as [|i].
  - injection H as ->. cbn [foldr]. assert (0 <= foldr (fun x acc => value_items x + acc) 0 l); [|lia].
    clear. induction l as [|y l IH]; simpl; [lia|]. pose proof (value_items_pos y). lia.
  - cbn [foldr]. specialize (IH i H). pose proof (value_items_pos y). lia.
Qed.
Lemma member_small m kv : kv ∈ m -> value_items kv.2 < value_items (VObj m).
Proof.
  cbn [value_items]. induction m as [|x m IH]; intros H; [by apply elem_of_nil in H|]. cbn [foldr].
  assert (0 <= foldr (fun kv acc => 1 + value_items kv.2 + acc) 0 m).
  { clear. induction m as [|y m IH]; simpl; [lia|]. pose proof (value_items_pos y.2). lia. }
  apply elem_of_cons in H as [->|H]; [lia|]. specialize (IH H). pose proof (value_items_pos x.2). lia.
Qed.

Lemma files_at_resolve v : forall ts q f,
  wf_value v -> value_items v <= int64_max -> (q, f) ∈ files_at (pointer_text ts) v ->
  exists ts', Forall no_slash ts' /\ q = pointer_text (ts ++ ts') /\ output_tokens v ts' = Ok (VFile f).
Proof.
  induction v as [|b|s|n|t|g|l IH|m IH|g] using value_ind; intros ts q f Hwf Hsmall Hin; try (by apply elem_of_nil in Hin).
  - rewrite files_at_arr in Hin. inversion_clear Hwf as [| | | | | | |? Hvals|].
    apply list_elem_of_In, in_concat in Hin as (fs & Hfs & Hin). apply list_elem_of_In in Hin.
    apply list_elem_of_In, list_elem_of_lookup in Hfs as (i & Hi).
    rewrite list_lookup_imap in Hi. destruct (l !! i) as [x|] eqn:Ex; [|done]. injection Hi as <-. rewrite <- pointer_text_app in Hin.
    assert (x ∈ l) as Hx by (by eapply list_elem_of_lookup_2). pose proof (item_small l i x Ex). pose proof (value_items_pos x).
    unfold int64_max in *. destruct (proj1 (Forall_forall _ _) IH x Hx (ts ++ [FormatInt (Z.of_nat i)]) q f) as (ts' & Hns & -> & Hout);
      [by apply (proj1 (Forall_forall _ _) Hvals)|lia|exact Hin|].
    exists (FormatInt (Z.of_nat i) :: ts'). split; [constructor; [by apply format_no_slash; lia|done]|].
    split; [by rewrite <- app_assoc|]. cbn [output_tokens]. rewrite (output_step_index l i x) by (lia || done). done.
  - cbn [files_at] in Hin. inversion_clear Hwf as [| | | | | | | |? Hsorted Hvals].
    apply list_elem_of_In, in_concat in Hin as (fs & Hfs & Hin). apply list_elem_of_In in Hin.
    apply in_map_iff in Hfs as (kv & <- & Hkv). apply list_elem_of_In in Hkv. rewrite <- pointer_text_app in Hin. pose proof (member_small m kv Hkv).
    destruct (proj1 (Forall_forall _ _) IH kv Hkv (ts ++ [escapePointer kv.1]) q f) as (ts' & Hns & -> & Hout);
      [by apply (proj1 (Forall_forall _ _) Hvals)|lia|exact Hin|].
    exists (escapePointer kv.1 :: ts'). split; [constructor; [apply escape_no_slash|done]|].
    split; [by rewrite <- app_assoc|]. cbn [output_tokens]. rewrite output_step_key.
    rewrite (obj_sorted_lookup kv.1 kv.2 m) by (done || by destruct kv). done.
  - cbn [files_at] in Hin. apply list_elem_of_singleton in Hin as [= -> ->]. exists []. split; [constructor|]. by rewrite app_nil_r.
Qed.

Lemma ValidateInput_inv lib s input l m fs :
  ValidateInput lib s input l = Ok (m, fs) ->
  checkJSONLimits (VObj input) l = Ok tt /\
  validate lib true (Some (MaxFileBytes l)) s (VObj input) [] (Some []) = Ok (VObj m, Some fs) /\
  (0 < MaxFiles l -> Z.of_nat (length fs) <= MaxFiles l) /\
  (exists total, total_bytes l fs = Ok total /\ (0 < MaxTotalFileBytes l -> total <= MaxTotalFileBytes l)) /\
  checkJSONLimits (VObj m) l = Ok tt.
Proof.
  unfold ValidateInput. intros E. apply result_bind_Ok in E as ([] & E1 & E). apply result_bind_Ok in E as ([v lv] & E2 & E). cbn [fst snd] in E.
  destruct (_ && _) eqn:E3 in E; [done|]. apply result_bind_Ok in E as (total & E4 & E). destruct (_ && _) eqn:E5 in E; [done|].
  apply result_bind_Ok in E as ([] & E6 & E). destruct v as [| | | | | | |o|]; try done. apply Ok_inj in E. injection E as <- <-.
  destruct (validate_leaves _ _ _ _ _ _ _ _ _ E2) as (new & -> & _). simpl in *.
  split; [done|]. split; [done|]. split; [intros H; rewrite (proj2 (Z.ltb_lt _ _) H) in E3; simpl in E3; lia|].
  split; [|done]. exists total. split; [done|]. intros H. rewrite (proj2 (Z.ltb_lt _ _) H) in E5. simpl in E5. lia.
Qed.

(* ------------------------------------------------------------------ *)
(** ** Lemmas: guaranteed positions *)

(** No node of an input schema is nullable by itself. *)
Fixpoint never_null (s : Schema) : bool :=
  match s with
  | MkSchema d props items additional =>
      negb (Nullable d) && forallb (fun kv => never_null kv.2) props &&
      match items with Some i => never_null i | None => true end &&
      match additional with Some a => never_null a | None => true end
  end.

(** A validated value is of a type its schema names. *)
Definition admits (d : schema_data) (v : value) : Prop :=
  match v with
  | VNull => Nullable d = true \/ Types d = [] \/ lit "null" ∈ Types d
  | VFile _ => File d <> None
  | VNumber _ => False
  | VInt _ => File d = None /\ type_allowed d "integer" = true
  | VFloat _ => File d = None /\ type_allowed d "number" = true
  | VStr _ => File d = None /\ type_allowed d "string" = true
  | VBool _ => File d = None /\ type_allowed d "boolean" = true
  | VArr _ => File d = None /\ type_allowed d "array" = true
  | VObj _ => File d = None /\ type_allowed d "object" = true
  end.

Definition guarantees (s : Schema) (v : value) (p : bytes) (v' : value) (new : list FileLeaf) : Prop :=
  schema_wf s -> wf_value v -> admits (sdata s) v' /\
  (never_null s = true -> forall tokens c, resolve_tokens s true tokens = Ok (c, true) ->
    exists x, output_tokens v' tokens = Ok x /\ admits (sdata c) x).

Lemma resolve_tokens_false s tokens c : resolve_tokens s false tokens = Ok (c, true) -> False.
Proof.
  revert s. induction tokens as [|t tokens IH]; intros s E; [by apply Ok_inj in E|]. cbn [resolve_tokens] in E.
  apply result_bind_Ok in E as ([c1 g] & E1 & E). cbn [fst snd] in E. assert (g = false) as ->; [|by eapply IH].
  unfold resolve_step in E1. apply result_bind_Ok in E1 as (tok & _ & E1). cbn [andb] in E1.
  repeat case_match; try done; apply Ok_inj in E1; by injection E1.
Qed.

Lemma resolve_tokens_cons s t tokens c :
  resolve_tokens s true (t :: tokens) = Ok (c, true) ->
  exists c1, resolve_step s true t = Ok (c1, true) /\ resolve_tokens c1 true tokens = Ok (c, true).
Proof.
  cbn [resolve_tokens]. intros E. apply result_bind_Ok in E as ([c1 [|]] & E1 & E); [by exists c1|]. by apply resolve_tokens_false in E.
Qed.

Lemma index_value token i :
  index_syntax token = true -> ParseInt token = Some i -> digits_value token = i /\ 0 <= i < 2 ^ 63.
Proof.
  unfold index_syntax. intros H E. apply andb_true_iff in H as [H1 H2]. apply negb_true_iff, orb_false_iff in H1 as [H1 _].
  apply bytes_eqb_false in H1. rewrite ParseInt_digits in E by done. unfold int64_max in E.
  pose proof (digits_value_range token H2). destruct (Z.leb_spec (digits_value token) (2 ^ 63 - 1)); [|done].
  injection E as <-. lia.
Qed.

(** A guaranteed step: into a declared property that is required or has a default, or
    to an index below the minimum length. *)
Lemma resolve_step_cases s t c1 :
  resolve_step s true t = Ok (c1, true) ->
  exists token, unescapePointer t = Ok token /\ (lit "null" ∉ Types (sdata s)) /\
  ((lit "object" ∈ Types (sdata s) /\ obj_lookup token (Properties s) = Some c1 /\
    (token ∈ Required (sdata s) \/ DefaultSet (sdata c1) = true)) \/
   (lit "array" ∈ Types (sdata s) /\ Items s = Some c1 /\ index_syntax token = true /\ 0 <= digits_value token < 2 ^ 63 /\
    exists min, int_constraint (sdata s) "minItems" = Some min /\ digits_value token < min)).
Proof.
  unfold resolve_step. intros E. apply result_bind_Ok in E as (token & Et & E). exists token. split; [done|].
  destruct (contains (Types (sdata s)) (lit "null")) eqn:En; cbn [negb andb] in E.
  { repeat case_match; try done; apply Ok_inj in E; by injection E. }
  apply contains_false in En. split; [done|]. destruct (contains (Types (sdata s)) (lit "object")) eqn:Eo.
  - left. apply contains_elem in Eo. split; [done|]. destruct (obj_lookup token (Properties s)) as [c|] eqn:El; [|done].
    apply Ok_inj in E. injection E as <- Eg. split; [done|]. apply orb_true_iff in Eg as [Eg|Eg]; [left; by apply contains_elem|by right].
  - right. destruct (contains (Types (sdata s)) (lit "array")) eqn:Ea; [|done]. apply contains_elem in Ea. split; [done|].
    destruct (index_syntax token) eqn:Ex; [|done]. cbn [negb] in E. destruct (ParseInt token) as [i|] eqn:Ei; [|done].
    destruct (Items s) as [it|]; [|done]. apply Ok_inj in E. injection E as <- Eg. split; [done|]. split; [done|].
    destruct (index_value token i Ex Ei) as [Hv Hr]. rewrite Hv. split; [done|].
    destruct (int_constraint (sdata s) "minItems") as [n|]; [exists n; split; [done|]; lia|]. lia.
Qed.

(** The types of a schema with properties or items. *)
Lemma typed_only d k t :
  (forall t, t ∈ Types d -> t = lit k \/ t = lit "null") -> lit k ∈ Types d -> lit "number" <> lit k ->
  type_allowed d t = true -> lit t = lit k \/ lit t = lit "null".
Proof.
  intros H Hin Hk Ht. unfold type_allowed in Ht. rewrite bool_decide_false in Ht by (intros E; rewrite E in Hin; by apply elem_of_nil in Hin).
  apply orb_true_iff in Ht as [Ht|Ht]; [by apply contains_elem, H in Ht|].
  apply andb_true_iff in Ht as [_ Ht]. apply contains_elem, H in Ht as [?|?]; done.
Qed.

Lemma admits_scalar d v t v' :
  File d = None -> no_children v' = true -> normalize d v = Ok (t, v') -> type_allowed d t = true -> admits d v'.
Proof.
  intros HF Hn E Ht. apply normalize_cases in E as [(-> & Hj & Hne)|(_ & Hv & H)].
  - destruct v; try done; injection Hj as <-; done.
  - assert (type_allowed d "number" = true -> type_allowed d "integer" = true) as Hni.
    { unfold type_allowed. simpl.
      by destruct (bool_decide _), (contains (Types d) (lit "number")), (contains (Types d) (lit "integer")). }
    destruct H as [(-> & _ & n & _ & ->)|(-> & _ & _)]; [done|]. destruct Hv as [[n ->]|[f ->]]; [|done]. split; [done|]. by apply Hni.
Qed.

(** A validated value of a schema that a guaranteed step enters is an object or array. *)
Lemma step_kind s t c1 v' :
  schema_wf s -> never_null s = true -> resolve_step s true t = Ok (c1, true) -> admits (sdata s) v' ->
  match v' with
  | VObj _ => exists token, unescapePointer t = Ok token /\ obj_lookup token (Properties s) = Some c1 /\
      (token ∈ Required (sdata s) \/ DefaultSet (sdata c1) = true)
  | VArr _ => exists token, unescapePointer t = Ok token /\ Items s = Some c1 /\ index_syntax token = true /\
      0 <= digits_value token < 2 ^ 63 /\ exists min, int_constraint (sdata s) "minItems" = Some min /\ digits_value token < min
  | _ => False
  end.
Proof.
  intros Hs Hnn Hr Ha. apply resolve_step_cases in Hr as (token & Hu & Hnull & Hcase).
  destruct Hs as [d props items additional Hd _ _ _ _]. cbn [sdata Properties Items] in *.
  cbn [never_null] in Hnn. assert (Nullable d = false) as Hn by (destruct (Nullable d); [done|done]).
  assert (forall k, (lit k ∈ Types d) -> lit k <> lit "null" -> (forall t, t ∈ Types d -> t = lit k \/ t = lit "null") ->
    lit "number" <> lit k -> File d = None -> match v' with VObj _ => k = "object"%string \/ lit "object" = lit k
      | VArr _ => k = "array"%string \/ lit "array" = lit k | VFile _ | VNull | VNumber _ => False
      | VStr _ => lit "string" = lit k | VBool _ => lit "boolean" = lit k | VInt _ => lit "integer" = lit k | VFloat _ => lit "number" = lit k end) as Hkind.
  { intros k Hk Hkn Hall Hknum HF.
    destruct v'; cbn [admits] in Ha; try done; try (destruct Ha as [_ Ha]; apply (typed_only d k) in Ha as [?|?]; [|done..]; auto; congruence).
    destruct Ha as [Ha|[Ha|Ha]]; [congruence|rewrite Ha in Hk; by apply elem_of_nil in Hk|done]. }
  destruct Hcase as [(Ho & Hl & Hreq)|(Ha' & Hi & Hix & Hr & Hmin)].
  - assert (props <> []) as Hp by (by intros ->). assert (File d = None) as HF.
    { destruct (File d) eqn:EF; [|done]. destruct (wf_file _ _ _ Hd) as [? _]; [by rewrite EF|done]. }
    specialize (Hkind "object"%string Ho ltac:(done) (wf_properties _ _ _ Hd Hp) ltac:(done) HF).
    destruct v'; try done; [by destruct Hkind|]. by exists token.
  - assert (items <> None) as Hp by (by rewrite Hi). assert (File d = None) as HF.
    { destruct (File d) eqn:EF; [|done]. destruct (wf_file _ _ _ Hd) as [_ ?]; [by rewrite EF|done]. }
    specialize (Hkind "array"%string Ha' ltac:(done) (wf_items _ _ _ Hd Hp) ltac:(done) HF).
    destruct v'; try done; [|by destruct Hkind]. by exists token.
Qed.

Lemma never_null_child s k c : never_null s = true -> obj_lookup k (Properties s) = Some c -> never_null c = true.
Proof.
  destruct s as [d props items additional]. cbn [never_null Properties]. rewrite !andb_true_iff, forallb_forall.
  intros [[[_ H] _] _] E. apply obj_lookup_Some, list_elem_of_In in E. by apply (H (k, c)).
Qed.
Lemma never_null_items s c : never_null s = true -> Items s = Some c -> never_null c = true.
Proof. destruct s as [d props items additional]. cbn [never_null Items]. rewrite !andb_true_iff. intros [[_ H] _] E. by rewrite E in H. Qed.

(** Looking up the entry of a key in the object that was built. *)
Lemma entries_lookup es e :
  NoDup ((entry_pair <$> es).*1) -> e ∈ es -> obj_lookup (e_key e) (obj_of_list (entry_pair <$> es)) = Some (e_value e).
Proof.
  intros Hnd He. apply obj_sorted_lookup; [apply obj_of_list_sorted|]. rewrite (obj_of_list_perm _ Hnd).
  apply list_elem_of_fmap. by exists e.
Qed.

Lemma object_guarantees s x p es es' :
  File (sdata s) = None -> object_checked true guarantees s x p es es' ->
  guarantees s (VObj x) p (VObj (obj_of_list (entry_pair <$> (es ++ es')))) (entries_leaves (es ++ es')).
Proof.
  intros HF Hoc Hs Hx. assert (admits (sdata s) (VObj (obj_of_list (entry_pair <$> (es ++ es'))))) as Ha.
  { split; [done|]. apply (oc_type _ _ _ _ _ _ _ Hoc). }
  split; [done|]. intros Hnn [|t tokens] c Hr; [apply Ok_inj in Hr; injection Hr as <-; by eexists|].
  apply resolve_tokens_cons in Hr as (c1 & H1 & Hr). pose proof (step_kind s t c1 _ Hs Hnn H1 Ha) as (token & Hu & Hl & Hreq).
  inversion Hx as [| | | | | | | |? Hsorted Hvals]; subst. pose proof (entries_NoDup _ _ _ _ _ _ _ Hs Hsorted Hoc) as Hnd.
  assert (token ∈ (e_key <$> es)) as Hin.
  { destruct (decide (token ∈ (e_key <$> es))) as [|Hno]; [done|]. exfalso.
    destruct (oc_missing _ _ _ _ _ _ _ Hoc token) as (Hnr & c2 & Hc2 & Hsrc).
    - destruct Hs as [d props items additional Hd _ _ _ _]. cbn [sdata Properties] in *. apply (wf_declared _ _ _ Hd).
      apply obj_lookup_Some in Hl. apply list_elem_of_fmap. by exists (token, c1).
    - done.
    - rewrite Hl in Hc2. injection Hc2 as <-. destruct Hreq as [Hreq|Hdef]; [done|].
      unfold property_source in Hsrc. rewrite Hdef in Hsrc. by destruct (obj_lookup token x). }
  apply list_elem_of_fmap in Hin as (e & -> & He).
  destruct (proj1 (Forall_forall _ _) (oc_entries _ _ _ _ _ _ _ Hoc) e He) as (c2 & v & Hc2 & Hsrc & HQ).
  rewrite Hl in Hc2. injection Hc2 as <-. cbn [output_tokens]. unfold output_step. rewrite Hu. cbn [result_bind].
  rewrite (entries_lookup (es ++ es') e Hnd) by (apply elem_of_app; by left). cbn [result_bind].
  assert (schema_wf c1) as Hc1 by (by eapply child_wf).
  apply (HQ Hc1); [by eapply source_wf|by eapply never_null_child|done].
Qed.

Lemma array_guarantees s x p es :
  File (sdata s) = None -> array_checked guarantees s x p es -> guarantees s (VArr x) p (VArr (e_value <$> es)) (entries_leaves es).
Proof.
  intros HF [Hmin _ Hlen Hes Ht _] Hs Hx. assert (admits (sdata s) (VArr (e_value <$> es))) as Ha by done.
  split; [done|]. intros Hnn [|t tokens] c Hr; [apply Ok_inj in Hr; injection Hr as <-; by eexists|].
  apply resolve_tokens_cons in Hr as (c1 & H1 & Hr).
  pose proof (step_kind s t c1 _ Hs Hnn H1 Ha) as (token & Hu & Hi & Hix & Hr' & min & Hm & Hlt).
  specialize (Hmin min Hm). set (n := Z.to_nat (digits_value token)).
  destruct (x !! n) as [v|] eqn:Ev; [|apply lookup_ge_None in Ev; lia].
  destruct (es !! n) as [e|] eqn:Ee; [|apply lookup_ge_None in Ee; lia].
  cbn [output_tokens]. unfold output_step. rewrite Hu. cbn [result_bind]. rewrite Hix. cbn [negb]. rewrite length_fmap.
  rewrite (proj2 (Z.leb_gt _ _)), (proj2 (Z.leb_gt _ _)) by lia. cbn [orb]. fold n. rewrite list_lookup_fmap, Ee. cbn [fmap option_fmap option_map result_bind].
  specialize (Hes n v e Ev Ee). rewrite Hi in Hes. cbn [default] in Hes. inversion Hx as [| | | | | | |? Hvals|]; subst.
  apply Hes; [destruct Hs as [? ? ? ? _ _ _ Hsi _]; by apply Hsi| |by eapply never_null_items|done].
  apply (proj1 (Forall_forall _ _) Hvals). by eapply list_elem_of_lookup_2.
Qed.

(** A scalar has no positions below it. *)
Lemma scalar_guarantees s v p v' new :
  admits (sdata s) v' -> no_children v' = true -> guarantees s v p v' new.
Proof.
  intros Ha Hn Hs Hv. split; [done|]. intros Hnn [|t tokens] c Hr; [apply Ok_inj in Hr; injection Hr as <-; by eexists|].
  apply resolve_tokens_cons in Hr as (c1 & H1 & _). pose proof (step_kind s t c1 v' Hs Hnn H1 Ha) as Hkind. by destruct v'.
Qed.

Lemma free_guarantees v p v' : free v = Ok v' -> guarantees free_schema v p v' [].
Proof.
  intros E _ _. split; [|done]. apply free_kind in E. destruct v; cbn in E.
  - subst. by left.
  - by subst.
  - by destruct E as [-> _].
  - by subst.
  - by apply validate_float_scalar in E as [[n ->]|[f ->]].
  - by apply validate_float_scalar in E as [[n ->]|[g ->]].
  - by destruct E as (a & -> & _).
  - by destruct E as [o ->].
  - done.
Qed.

Lemma validate_guarantees lib fileLimit s v p lv v' lv' :
  validate lib true fileLimit s v p lv = Ok (v', lv') -> exists new, lv' = add_leaves lv new /\ guarantees s v p v' new.
Proof.
  apply (validation_rule lib true fileLimit guarantees).
  - intros w q w' E. by apply free_guarantees.
  - intros c q E. apply scalar_guarantees; [|done]. unfold validate_null in E. cbn [admits].
    destruct (Nullable (sdata c)); [by left|]. right. destruct (output (sdata c)); [done|].
    destruct (bool_decide (Types (sdata c) = [])) eqn:Et; [left; by apply bool_decide_eq_true in Et|].
    destruct (contains (Types (sdata c)) (lit "null")) eqn:En; [|done]. right. by apply contains_elem.
  - intros c fc f q w' new HF E. assert (w' = VFile f) as ->.
    { unfold validate_file in E. destruct (_ || _); [done|]. destruct (negb _); [done|].
      apply result_bind_Ok in E as (_ & _ & E). apply Ok_inj in E. by injection E as <- _. }
    apply scalar_guarantees; [|done]. cbn [admits]. by rewrite HF.
  - intros c w q t w' HF Hn [Hnorm Ht _ _ _]. apply scalar_guarantees; [by eapply admits_scalar|done].
  - intros c x q es es' HF Hoc. by apply object_guarantees.
  - intros c x q es HF Hac. by apply array_guarantees.
Qed.

(* ------------------------------------------------------------------ *)
(** ** Properties *)

(** C33: for a well-formed schema and input, and an item limit within int64, the file
    leaves [ValidateInput] returns are exactly the files of the normalised
    input, each with the JSON Pointer at which it stands: following that pointer in the
    result gives the file back. *)
Theorem input_leaves_exact lib s input l m fs :
  schema_wf s -> wf_value (VObj input) -> MaxItems l <= int64_max ->
  ValidateInput lib s input l = Ok (m, fs) ->
  leaf_pair <$> fs ≡ₚ files_at [] (VObj m) /\
  Forall (fun leaf => outputPointer (VObj m) (leaf_Pointer leaf) = Ok (VFile (leaf_Value leaf))) fs.
Proof.
  intros Hs Hi Hmax E. apply ValidateInput_inv in E as (_ & E & _ & _ & El). apply validate_leaves in E as (new & Enew & Hok).
  injection Enew as <-. destruct (Hok Hs Hi) as [Hwf Hperm]. split; [done|]. apply Forall_forall. intros leaf Hleaf.
  assert (leaf_pair leaf ∈ files_at (pointer_text []) (VObj m)) as Hin.
  { change (pointer_text []) with (@nil Z). rewrite <- Hperm. apply list_elem_of_fmap. by exists leaf. }
  apply checkJSONLimits_ok in El as (_ & _ & _ & _ & _ & Hit & _).
  apply files_at_resolve in Hin as (ts & Hns & Hp & Hout); [|done|lia].
  rewrite Hp, outputPointer_tokens by done. done.
Qed.

(** C34: a position that [ResolvePointer] declares guaranteed exists in every input that
    passes validation, and the value there is of a type its schema names: a binding that
    was accepted as required never misses at run time. *)
Theorem binding_guaranteed lib s input l m fs pointer c :
  schema_wf s -> never_null s = true -> wf_value (VObj input) ->
  ResolvePointer s pointer = Ok (c, true) -> ValidateInput lib s input l = Ok (m, fs) ->
  exists x, outputPointer (VObj m) pointer = Ok x /\ admits (sdata c) x.
Proof.
  intros Hs Hnn Hi Hr E. apply ValidateInput_inv in E as (_ & E & _). apply validate_guarantees in E as (new & _ & Hg).
  destruct (Hg Hs Hi) as [Ha Hres]. unfold ResolvePointer in Hr. unfold outputPointer.
  destruct (bytes_eqb pointer []); [apply Ok_inj in Hr; injection Hr as <-; by eexists|].
  destruct (negb (has_prefix 47 pointer)); [done|]. by apply (Hres Hnn).
Qed.

(** ** Witnesses *)

(** A required string and a required file. *)
Definition set_Types (d : schema_data) (t : list bytes) : schema_data :=
  {| Types := t; PropertyOrder := PropertyOrder d; PropertiesSet := PropertiesSet d;
     AdditionalAllowed := AdditionalAllowed d; Required := Required d; Default := Default d; DefaultSet := DefaultSet d;
     Nullable := Nullable d; Constraints := Constraints d; File := File d; SPattern := SPattern d;
     patternSource := patternSource d; normalized := normalized d; output := output d |}.
Definition example_string : Schema := MkSchema (set_Types empty_data [lit "string"]) [] None None.
Definition example_file_leaf : Schema :=
  MkSchema (set_File (set_Types empty_data [lit "file"])
    {| fc_Extensions := []; fc_MIMETypes := []; fc_MaxBytes := 100; fc_AllowEmpty := false |} []) [] None None.
Definition example_schema : Schema :=
  MkSchema {| Types := [lit "object"]; PropertyOrder := [lit "title"; lit "doc"]; PropertiesSet := true;
    AdditionalAllowed := false; Required := [lit "doc"; lit "title"]; Default := VNull; DefaultSet := false;
    Nullable := false; Constraints := []; File := None; SPattern := None; patternSource := []; normalized := [];
    output := false |} [(lit "doc", example_file_leaf); (lit "title", example_string)] None None.
Definition example_file : FileValue :=
  {| fv_Pointer := lit "/doc"; fv_ID := lit "f1"; fv_Name := lit "a.txt"; fv_MIMEType := lit "text/plain";
     fv_SHA256 := replicate 64 48; fv_RequestID := lit "r1"; fv_SizeBytes := 5 |}.
Definition example_input : list (bytes * value) := [(lit "doc", VFile example_file); (lit "title", VStr (lit "hello"))].
Definition example_limits : Limits :=
  {| MaxBytes := 1000; MaxDepth := 8; MaxItems := 100; MaxFileBytes := 100; MaxTotalFileBytes := 100; MaxFiles := 4 |}.
Definition example_engines : engines := {| ParseAddress_ok := fun _ => false; Parse_scheme := fun _ => None |}.

Lemma example_leaf_wf t f n : schema_wf (MkSchema (set_File (set_Types empty_data t) f n) [] None None).
Proof. constructor; [split; simpl; try done; try constructor; by intros ? ?%elem_of_nil|constructor|constructor|done|done]. Qed.
Lemma example_string_wf : schema_wf example_string.
Proof. constructor; [split; simpl; try done; try constructor; by intros ? ?%elem_of_nil|constructor|constructor|done|done]. Qed.
Lemma example_wf : schema_wf example_schema.
Proof.
  constructor; [split; simpl| | |done|done].
  - by apply (bool_decide_unpack _).
  - intros k. rewrite !elem_of_cons. tauto.
  - intros k. rewrite !elem_of_cons. tauto.
  - intros _ t ->%list_elem_of_singleton. by left.
  - done.
  - done.
  - constructor.
  - repeat constructor.
  - apply Forall_cons. split; [apply example_leaf_wf|]. apply Forall_singleton, example_string_wf.
Qed.
Lemma example_input_wf : wf_value (VObj example_input).
Proof. repeat constructor. Qed.

Lemma input_leaves_exact_witness : exists m fs,
  ValidateInput example_engines example_schema example_input example_limits = Ok (m, fs) /\ length fs = 1%nat /\
  Forall (fun leaf => outputPointer (VObj m) (leaf_Pointer leaf) = Ok (VFile (leaf_Value leaf))) fs.
Proof.
  eexists _, _. split; [vm_compute; reflexivity|]. split; [reflexivity|].
  apply (input_leaves_exact example_engines example_schema example_input example_limits).
  - apply example_wf.
  - apply example_input_wf.
  - done.
  - vm_compute. reflexivity.
Defined.

Lemma binding_guaranteed_witness : exists m fs,
  ValidateInput example_engines example_schema example_input example_limits = Ok (m, fs) /\
  exists x, outputPointer (VObj m) (lit "/title") = Ok x /\ admits (sdata example_string) x.
Proof.
  eexists _, _. split; [vm_compute; reflexivity|].
  eapply (binding_guaranteed example_engines example_schema example_input example_limits).
  - apply example_wf.
  - reflexivity.
  - apply example_input_wf.
  - reflexivity.
  - vm_compute. reflexivity.
Defined.
