(* ===== verification/Yaml.v ===== *)
(** * Configuration values ([contract/yaml.go])
    The value tree that [decodeNode] builds from the node graph of the YAML library, and
    the typed accessors over it. A graph is a store of nodes, since an alias points to
    another node; what the library makes of boolean and integer scalars is the argument
    [scalars], of which nothing is assumed. [decodeNode] recurses at most 128 levels
    deep: the fuel is 129 less the depth, so that running out of fuel is the code's
    depth test. *)
From Stdlib Require Import ZArith Lia SpecFloat.
From stdpp Require Import base gmap list option strings.
From S2P Require Import Prelude Utf8 Strconv GoFloat Json GoStrings InputValue.
Local Open Scope Z_scope.

Unset Elimination Schemes.
Inductive raw : Type :=
| RNull
| RBool (b : bool)
| RStr (s : bytes)
| RInt (n : Z)
| RFloat (f : spec_float)
| RList (l : list raw)
| RMap (m : list (bytes * raw)).
Set Elimination Schemes.

Section RawInd.
Context (P : raw -> Prop).
Context (HNull : P RNull) (HBool : forall b, P (RBool b)) (HStr : forall s, P (RStr s)) (HInt : forall n, P (RInt n))
  (HFloat : forall f, P (RFloat f)) (HList : forall l, Forall P l -> P (RList l))
  (HMap : forall m, Forall (fun kv => P kv.2) m -> P (RMap m)).
Fixpoint raw_ind (r : raw) : P r :=
  match r with
  | RNull => HNull
  | RBool b => HBool b
  | RStr s => HStr s
  | RInt n => HInt n
  | RFloat f => HFloat f
  | RList l => HList l ((fix go l : Forall P l :=
      match l with [] => Forall_nil_2 P | x :: l => Forall_cons_2 P x l (raw_ind x) (go l) end) l)
  | RMap m => HMap m ((fix go m : Forall (fun kv => P kv.2) m :=
      match m with
      | [] => Forall_nil_2 _
      | x :: m => Forall_cons_2 (fun kv => P kv.2) x m (raw_ind x.2) (go m)
      end) m)
  end.
End RawInd.

(** [rawMap]: the keys in declaration order with their values. *)
Abbreviation rawMap := (list (bytes * raw)).
Definition has (m : rawMap) (k : string) : bool := obj_has (lit k) m.
Definition get (m : rawMap) (k : string) : raw := default RNull (obj_lookup (lit k) m).

(** ** Accessors *)

Definition object (v : raw) : result rawMap := match v with RMap m => Ok m | _ => Err "must be a map" end.
Definition map_object (m : rawMap) (k : string) : result rawMap := if negb (has m k) then Ok [] else object (get m k).
Definition known (m : rawMap) (keys : list string) : result unit :=
  if forallb (fun kv => existsb (fun k => bytes_eqb kv.1 (lit k)) keys) m then Ok tt else Err "unknown field".
Definition str (v : raw) : result bytes :=
  match v with RStr s => if ValidString s then Ok s else Err "must be a UTF-8 string" | _ => Err "must be a UTF-8 string" end.
Definition requiredString (m : rawMap) (k : string) : result bytes :=
  let* s := str (get m k) in if bytes_eqb s [] then Err "must not be empty" else Ok s.
Definition stringDefault (m : rawMap) (k : string) (d : bytes) : result bytes :=
  if negb (has m k) then Ok d else str (get m k).
Definition boolDefault (m : rawMap) (k : string) (d : bool) : result bool :=
  if negb (has m k) then Ok d else match get m k with RBool b => Ok b | _ => Err "must be boolean" end.
Definition intDefault (m : rawMap) (k : string) (d min : Z) : result Z :=
  if negb (has m k) then Ok d else
  match get m k with RInt n => if n <? min then Err "must be an integer" else Ok n | _ => Err "must be an integer" end.
Definition rlist (v : raw) : result (list raw) := match v with RList l => Ok l | _ => Err "must be a list" end.

Fixpoint strings_loop (nonempty : bool) (l : list raw) (out : list bytes) : result (list bytes) :=
  match l with
  | [] => Ok out
  | v :: l =>
      match str v with
      | Err _ => Err "contains an invalid string"
      | Ok s =>
          if nonempty && bytes_eqb s [] then Err "contains an invalid string"
          else if contains out s then Err "contains duplicates"
          else strings_loop nonempty l (out ++ [s])
      end
  end.
Definition stringsList (v : raw) (nonempty : bool) : result (list bytes) :=
  let* l := rlist v in strings_loop nonempty l [].

Fixpoint plain (v : raw) : value :=
  match v with
  | RMap m => VObj (obj_of_list (map (fun kv => (kv.1, plain kv.2)) m))
  | RList l => VArr (map plain l)
  | RNull => VNull
  | RBool b => VBool b
  | RStr s => VStr s
  | RInt n => VInt n
  | RFloat f => VFloat f
  end.

(** ** [strconv.ParseFloat] on arbitrary text *)

Definition hex_value (s : bytes) : Z := foldl (fun acc c => acc * 16 + default 0 (hexval c)) 0 s.
Definition is_hexdigit (c : Z) : bool := match hexval c with Some _ => true | None => false end.
(** An exponent: an optional sign and at least one digit. *)
Definition signed_digits (s : bytes) : option Z :=
  let '(neg, d) := match s with
                   | c :: r => if c =? 45 then (true, r) else if c =? 43 then (false, r) else (false, s)
                   | [] => (false, s) end in
  if bool_decide (d = []) || negb (forallb isdigit d) then None
  else Some (if neg then - digits_value d else digits_value d).
(** Digits with at most one point, [p] deciding what a digit is: the digits and how many follow the point. *)
Definition mantissa_digits (p : Z -> bool) (s : bytes) : option (bytes * Z) :=
  let '(whole, frac) := cut_at (fun c => c =? 46) s in
  let frac := default [] frac in
  if bool_decide (whole ++ frac = []) || negb (forallb p (whole ++ frac)) then None
  else Some (whole ++ frac, Z.of_nat (length frac)).
Definition parse_float_text (s : bytes) : option spec_float :=
  let '(neg, s) := match s with
                   | c :: r => if c =? 45 then (true, r) else if c =? 43 then (false, r) else (false, s)
                   | [] => (false, s) end in
  if has_prefix 48 s && match drop 1 s with c :: _ => (c =? 120) || (c =? 88) | [] => false end then
    match cut_at (fun c => (c =? 112) || (c =? 80)) (drop 2 s) with
    | (mant, Some e) =>
        '(ds, n) ← mantissa_digits is_hexdigit mant; e ← signed_digits e;
        Some (binary_normalize 53 1024 (if neg then - hex_value ds else hex_value ds) (e - 4 * n) neg)
    | (_, None) => None
    end
  else
    match cut_at (fun c => (c =? 101) || (c =? 69)) s with
    | (mant, e) =>
        '(ds, n) ← mantissa_digits isdigit mant;
        e ← match e with Some e => signed_digits e | None => Some 0 end;
        Some (f64_of_decimal neg (digits_value ds) (e - n))
    end.
(** A finite number, with negative zero made zero. *)
Definition yaml_float (text : bytes) : result spec_float :=
  match parse_float_text (filter (fun c => c <> 95) text) with
  | Some (S754_finite s m e) => Ok (S754_finite s m e)
  | Some (S754_zero _) => Ok (S754_zero false)
  | _ => Err "number must be finite"
  end.

(** ** The node graph *)

Inductive node_kind := DocumentNode | MappingNode | SequenceNode | ScalarNode | AliasNode.
#[export] Instance node_kind_eq_dec : EqDecision node_kind.
Proof. solve_decision. Defined.

(** A pointer to a node; a missing pointer is [nil]. *)
Abbreviation node_ptr := nat.
Record Node := {
  Kind : node_kind; Tag : bytes; Value : bytes; Alias : option node_ptr; Content : list node_ptr
}.
Abbreviation graph := (gmap node_ptr Node).

(** [n.Decode] of a boolean and of an [int64] scalar. *)
Record scalars := { Decode_bool : Node -> option bool; Decode_int : Node -> option Z }.

Section Decode.
Context (lib : scalars) (g : graph).

Definition tag_is (n : Node) (t : string) : bool := bytes_eqb (Tag n) (lit t).

Definition decode_scalar (n : Node) : result raw :=
  if tag_is n "!!str" then Ok (RStr (Value n))
  else if tag_is n "!!null" then Ok RNull
  else if tag_is n "!!bool" then match Decode_bool lib n with Some b => Ok (RBool b) | None => Err "invalid boolean" end
  else if tag_is n "!!int" then match Decode_int lib n with Some i => Ok (RInt i) | None => Err "integer exceeds int64" end
  else if tag_is n "!!float" then let* f := yaml_float (Value n) in Ok (RFloat f)
  else Err "unsupported YAML scalar tag".

(** The pairs of a mapping; an odd element at the end panics in the code and cannot occur. *)
Fixpoint pairs (l : list node_ptr) : list (node_ptr * node_ptr) :=
  match l with
  | k :: v :: l => (k, v) :: pairs l
  | _ => []
  end.

(** The keys of a merge source that are not there yet. *)
Fixpoint merge_keys (sm m : rawMap) : rawMap :=
  match sm with
  | [] => m
  | (k, v) :: sm => merge_keys sm (if obj_has k m then m else m ++ [(k, v)])
  end.
(** [m.keys] and [m.values[k] = v]: an existing key keeps its place. *)
Fixpoint put (k : bytes) (v : raw) (m : rawMap) : rawMap :=
  match m with
  | [] => [(k, v)]
  | (k', v') :: m => if bytes_eqb k k' then (k, v) :: m else (k', v') :: put k v m
  end.

(** The loops of a mapping, over the decoder of its children. *)
Section Mapping.
Context (decode : node_ptr -> result raw).

Fixpoint merge_sources (sources : list node_ptr) (m : rawMap) : result rawMap :=
  match sources with
  | [] => Ok m
  | s :: sources => let* v := decode s in let* sm := object v in merge_sources sources (merge_keys sm m)
  end.
(** The first pass: merge entries; [merged] is [direct["<<"]]. *)
Fixpoint merge_pass (l : list (node_ptr * node_ptr)) (merged : bool) (m : rawMap) : result rawMap :=
  match l with
  | [] => Ok m
  | (k, v) :: l =>
      match g !! k, g !! v with
      | Some kn, Some vn =>
          if negb (tag_is kn "!!merge") then merge_pass l merged m
          else if merged then Err "duplicate YAML merge"
          else
            let sources := if decide (Kind vn = SequenceNode) then Content vn else [v] in
            let* m := merge_sources sources m in merge_pass l true m
      | _, _ => Err "nil pointer dereference"
      end
  end.
(** The second pass: the mapping's own keys, which must be distinct strings. *)
Fixpoint direct_pass (l : list (node_ptr * node_ptr)) (direct : list bytes) (m : rawMap) : result rawMap :=
  match l with
  | [] => Ok m
  | (k, v) :: l =>
      match g !! k with
      | Some kn =>
          if tag_is kn "!!merge" then direct_pass l direct m
          else if negb (bool_decide (Kind kn = ScalarNode)) || negb (tag_is kn "!!str")
          then Err "configuration key must be a string"
          else if contains direct (Value kn) then Err "duplicate configuration key"
          else let* x := decode v in direct_pass l (Value kn :: direct) (put (Value kn) x m)
      | None => Err "nil pointer dereference"
      end
  end.
Fixpoint decode_list (l : list node_ptr) : result (list raw) :=
  match l with
  | [] => Ok []
  | c :: l => let* x := decode c in let* r := decode_list l in Ok (x :: r)
  end.
End Mapping.

Fixpoint decodeNode (fuel : nat) (p : option node_ptr) (stack : list node_ptr) : result raw :=
  match fuel, p with
  | S fuel, Some p =>
      match g !! p with
      | None => Err "configuration nesting or alias cycle exceeds limit"
      | Some n =>
          if bool_decide (p ∈ stack) then Err "configuration nesting or alias cycle exceeds limit" else
          let stack := p :: stack in
          let decode q := decodeNode fuel (Some q) stack in
          if decide (Kind n = AliasNode) then decodeNode fuel (Alias n) stack
          else if tag_is n "!!null" then Ok RNull
          else if (bool_decide (Kind n = MappingNode) && negb (tag_is n "!!map")) ||
                  (bool_decide (Kind n = SequenceNode) && negb (tag_is n "!!seq"))
          then Err "unsupported YAML collection tag"
          else match Kind n with
               | MappingNode =>
                   let l := pairs (Content n) in
                   let* m := merge_pass decode l false [] in
                   let* m := direct_pass decode l
                     (if existsb (fun kv => match g !! kv.1 with Some kn => tag_is kn "!!merge" | None => false end) l
                      then [lit "<<"] else []) m in
                   Ok (RMap m)
               | SequenceNode => let* l := decode_list decode (Content n) in Ok (RList l)
               | ScalarNode => decode_scalar n
               | _ => Err "invalid YAML node"
               end
      end
  | _, _ => Err "configuration nesting or alias cycle exceeds limit"
  end.
End Decode.

(** ** [decodeYAML] *)

(** What the library's decoder yields for a text: an error, one document with its node
    graph and the contents of the document node, or more than one document. *)
Inductive documents := Malformed | Document (g : graph) (content : list node_ptr) | SeveralDocuments.

Definition decodeYAML (lib : scalars) (parse : bytes -> documents) (data : bytes) : result rawMap :=
  if negb (ValidString data) then Err "configuration must be valid UTF-8" else
  match parse data with
  | Malformed => Err "invalid YAML configuration"
  | SeveralDocuments => Err "configuration must contain one YAML document"
  | Document g [p] => let* v := decodeNode lib g 129 (Some p) [] in object v
  | Document _ _ => Err "configuration must be a map"
  end.

(* ------------------------------------------------------------------ *)
(** ** Lemmas *)

(** Every map of a value has distinct keys. *)
Unset Elimination Schemes.
Inductive wf_raw : raw -> Prop :=
| wfr_null : wf_raw RNull
| wfr_bool b : wf_raw (RBool b)
| wfr_str s : wf_raw (RStr s)
| wfr_int n : wf_raw (RInt n)
| wfr_float f : wf_raw (RFloat f)
| wfr_list l : Forall wf_raw l -> wf_raw (RList l)
| wfr_map m : NoDup m.*1 -> Forall (fun kv => wf_raw kv.2) m -> wf_raw (RMap m).
Set Elimination Schemes.

Lemma put_keys k v m x : x ∈ (put k v m).*1 <-> x = k \/ x ∈ m.*1.
Proof.
  induction m as [|[k' v'] m IH]; simpl.
  - rewrite list_elem_of_singleton. split; [auto|]. intros [?|H]; [done|]. by apply elem_of_nil in H.
  - destruct (bytes_eqb k k') eqn:E.
    + apply bytes_eqb_true in E as ->. simpl. rewrite !elem_of_cons. tauto.
    + simpl. rewrite !elem_of_cons, IH. tauto.
Qed.

Lemma put_wf k v m :
  NoDup m.*1 -> Forall (fun kv => wf_raw kv.2) m -> wf_raw v -> NoDup (put k v m).*1 /\ Forall (fun kv => wf_raw kv.2) (put k v m).
Proof.
  intros Hnd Hm Hv. induction m as [|[k' v'] m IH]; simpl.
  - split; [apply NoDup_singleton|by repeat constructor].
  - cbn in Hnd. apply NoDup_cons in Hnd as [Hk Hnd]. apply Forall_cons in Hm as [Hv' Hm]. destruct (bytes_eqb k k') eqn:E.
    + apply bytes_eqb_true in E as ->. cbn. split; [by apply NoDup_cons|by constructor].
    + apply bytes_eqb_false in E. destruct (IH Hnd Hm) as [H1 H2]. cbn. split; [|by constructor].
      apply NoDup_cons. split; [|done]. rewrite put_keys. intros [?|?]; [by subst|done].
Qed.

Lemma merge_keys_wf sm m :
  NoDup m.*1 -> Forall (fun kv => wf_raw kv.2) m -> Forall (fun kv => wf_raw kv.2) sm ->
  NoDup (merge_keys sm m).*1 /\ Forall (fun kv => wf_raw kv.2) (merge_keys sm m).
Proof.
  revert m. induction sm as [|[k v] sm IH]; intros m Hnd Hm Hsm; [done|]. apply Forall_cons in Hsm as [Hv Hsm]. cbn [merge_keys].
  destruct (obj_has k m) eqn:E; [by apply IH|]. unfold obj_has in E. destruct (obj_lookup k m) eqn:El; [done|].
  apply obj_lookup_None in El. apply IH; [|by apply Forall_app; split; [|repeat constructor]|done].
  rewrite fmap_app. apply NoDup_app. split; [done|]. split; [|apply NoDup_singleton].
  intros x Hx Hx'. cbn in Hx'. apply list_elem_of_singleton in Hx' as ->. done.
Qed.

Section DecodeWf.
Context (lib : scalars) (g : graph).

Lemma mapping_wf decode l merged m m' :
  (forall q r, decode q = Ok r -> wf_raw r) -> NoDup m.*1 -> Forall (fun kv => wf_raw kv.2) m ->
  merge_pass g decode l merged m = Ok m' -> NoDup m'.*1 /\ Forall (fun kv => wf_raw kv.2) m'.
Proof.
  intros Hd. assert (forall ss m m', NoDup m.*1 -> Forall (fun kv => wf_raw kv.2) m -> merge_sources decode ss m = Ok m' ->
    NoDup m'.*1 /\ Forall (fun kv => wf_raw kv.2) m') as Hs.
  { induction ss as [|q ss IH]; intros n n' Hn Hw E; [by apply Ok_inj in E as <-|]. cbn [merge_sources] in E.
    apply result_bind_Ok in E as (v & Ev & E). apply result_bind_Ok in E as (sm & Es & E). apply Hd in Ev.
    destruct v; try done. apply Ok_inj in Es as ->. inversion_clear Ev as [| | | | | |? ? Hsm].
    destruct (merge_keys_wf sm n Hn Hw Hsm) as [H1 H2]. by eapply IH. }
  revert merged m. induction l as [|[k v] l IH]; intros merged m Hn Hw E; cbn [merge_pass] in E; [by apply Ok_inj in E as <-|].
  destruct (g !! k) as [kn|]; [|done]. destruct (g !! v) as [vn|]; [|done]. destruct (negb _); [by eapply IH|].
  destruct merged; [done|]. apply result_bind_Ok in E as (n & En & E). apply Hs in En as [H1 H2]; [|done..]. by eapply IH.
Qed.

Lemma direct_wf decode l direct m m' :
  (forall q r, decode q = Ok r -> wf_raw r) -> NoDup m.*1 -> Forall (fun kv => wf_raw kv.2) m ->
  direct_pass g decode l direct m = Ok m' -> NoDup m'.*1 /\ Forall (fun kv => wf_raw kv.2) m'.
Proof.
  intros Hd. revert direct m. induction l as [|[k v] l IH]; intros direct m Hn Hw E; cbn [direct_pass] in E; [by apply Ok_inj in E as <-|].
  destruct (g !! k) as [kn|]; [|done]. destruct (tag_is kn "!!merge"); [by eapply IH|]. destruct (_ || _); [done|].
  destruct (contains direct (Value kn)); [done|]. apply result_bind_Ok in E as (x & Ex & E). apply Hd in Ex.
  destruct (put_wf (Value kn) x m Hn Hw Ex) as [H1 H2]. by eapply IH.
Qed.

(** What is decoded has distinct keys everywhere. *)
Lemma decodeNode_wf fuel p stack r : decodeNode lib g fuel p stack = Ok r -> wf_raw r.
Proof.
  revert p stack r. induction fuel as [|fuel IH]; intros p stack r E; [done|]. cbn [decodeNode] in E. destruct p as [p|]; [|done].
  destruct (g !! p) as [n|]; [|done]. destruct (bool_decide _); [done|]. cbv zeta in E.
  destruct (decide (Kind n = AliasNode)); [by eapply IH|]. destruct (tag_is n "!!null"); [apply Ok_inj in E as <-; constructor|].
  destruct (_ || _); [done|].
  assert (forall q x, decodeNode lib g fuel (Some q) (p :: stack) = Ok x -> wf_raw x) as Hd by (intros q x; apply IH).
  destruct (Kind n); try done.
  - apply result_bind_Ok in E as (m & Em & E). apply result_bind_Ok in E as (m' & Em' & E). apply Ok_inj in E as <-.
    apply mapping_wf in Em as [H1 H2]; [|exact Hd|constructor|constructor].
    apply direct_wf in Em' as [H3 H4]; [|exact Hd|done|done]. by constructor.
  - apply result_bind_Ok in E as (l & El & E). apply Ok_inj in E as <-. constructor. revert l El. generalize (Content n).
    induction l as [|q c IHc]; intros l El; cbn [decode_list] in El; [apply Ok_inj in El as <-; constructor|].
    apply result_bind_Ok in El as (x & Ex & El). apply result_bind_Ok in El as (l' & El' & El). apply Ok_inj in El as <-.
    constructor; [by eapply Hd|by apply IHc].
  - unfold decode_scalar in E. repeat case_match; try done; try (apply Ok_inj in E as <-; constructor).
    apply result_bind_Ok in E as (f & _ & E). apply Ok_inj in E as <-. constructor.
Qed.
End DecodeWf.

Lemma decodeYAML_wf lib parse data m : decodeYAML lib parse data = Ok m -> wf_raw (RMap m).
Proof.
  unfold decodeYAML. destruct (negb _); [done|]. destruct (parse data) as [|g [|p [|]]|]; try done. intros E.
  apply result_bind_Ok in E as (v & Ev & E). apply decodeNode_wf in Ev. destruct v; try done. by apply Ok_inj in E as ->.
Qed.
