(* ===== verification/Compile.v ===== *)
(** * Compiling schemas ([contract/schema.go], [contract/input.go], [contract/pattern.go], [contract/config.go])
    [compileSchema] turns a configuration value into a [Schema]. It recurses at most 128
    levels deep: the fuel is 129 less the depth, and running out of it is the code's
    depth test. The parser and the matcher of package [regexp] are the argument
    [regexps], of which nothing is assumed; what the code does before and after them is
    modelled. Error values are the reasons without the field names in front of them. *)
From Stdlib Require Import ZArith Lia SpecFloat.
From stdpp Require Import base list option sorting strings.
From S2P Require Import Prelude Utf8 Strconv Json JsonText Canonical GoStrings InputValue ValueFormat Schema Yaml.
Local Open Scope Z_scope.

(** ** Byte sizes *)

Definition unit_size (u : bytes) : option Z :=
  if bytes_eqb u [] || bytes_eqb u (lit "B") then Some 1
  else if bytes_eqb u (lit "KiB") || bytes_eqb u (lit "KB") then Some (Z.shiftl 1 10)
  else if bytes_eqb u (lit "MiB") || bytes_eqb u (lit "MB") then Some (Z.shiftl 1 20)
  else if bytes_eqb u (lit "GiB") || bytes_eqb u (lit "GB") then Some (Z.shiftl 1 30)
  else None.

Definition ByteSize (v : raw) : result Z :=
  match v with
  | RInt n => if 0 <? n then Ok n else Err "byte capacity must be positive"
  | RStr s =>
      let '(ds, u) := take_digits s in
      match unit_size u with
      | None => Err "invalid byte capacity"
      | Some mul =>
          if bytes_eqb ds [] then Err "invalid byte capacity" else
          match ParseInt ds with
          | None => Err "byte capacity must be positive int64"
          | Some n =>
              if n <=? 0 then Err "byte capacity must be positive int64"
              else if int64_max / mul <? n then Err "byte capacity overflows int64"
              else Ok (n * mul)
          end
      end
  | _ => Err "byte capacity must be integer or unit string"
  end.

(** ** Patterns *)

Inductive Op :=
| OpNoMatch | OpEmptyMatch | OpLiteral | OpCharClass | OpAnyCharNotNL | OpAnyChar | OpBeginLine | OpEndLine
| OpBeginText | OpEndText | OpWordBoundary | OpNoWordBoundary | OpCapture | OpStar | OpPlus | OpQuest
| OpRepeat | OpConcat | OpAlternate.
#[export] Instance Op_eq_dec : EqDecision Op.
Proof. solve_decision. Defined.
Definition op_string (o : Op) : string :=
  match o with
  | OpNoMatch => "NoMatch" | OpEmptyMatch => "EmptyMatch" | OpLiteral => "Literal" | OpCharClass => "CharClass"
  | OpAnyCharNotNL => "AnyCharNotNL" | OpAnyChar => "AnyChar" | OpBeginLine => "BeginLine" | OpEndLine => "EndLine"
  | OpBeginText => "BeginText" | OpEndText => "EndText" | OpWordBoundary => "WordBoundary"
  | OpNoWordBoundary => "NoWordBoundary" | OpCapture => "Capture" | OpStar => "Star" | OpPlus => "Plus"
  | OpQuest => "Quest" | OpRepeat => "Repeat" | OpConcat => "Concat" | OpAlternate => "Alternate"
  end.
(** [syntax.Regexp]; [re_NonGreedy] is its flag. *)
Unset Elimination Schemes.
Inductive Regexp := MkRegexp {
  re_Op : Op; re_NonGreedy : bool; re_Sub : list Regexp; re_Rune : list Z; re_Min : Z; re_Max : Z
}.
Set Elimination Schemes.
(** [syntax.Parse], and [String] followed by [regexp.Compile]: the expression and its matcher. *)
Record regexps := { syntax_Parse : bytes -> option Regexp; regexp_Compile : Regexp -> option (bytes * (bytes -> bool)) }.

Definition any_char : Regexp :=
  {| re_Op := OpCharClass; re_NonGreedy := false; re_Sub := [];
     re_Rune := [0; 9; 11; 12; 14; 8231; 8234; 1114111]; re_Min := 0; re_Max := 0 |}.
Fixpoint normalizePattern (r : Regexp) : Regexp :=
  let sub := map normalizePattern (re_Sub r) in
  let r' := MkRegexp (re_Op r) (re_NonGreedy r) sub (re_Rune r) (re_Min r) (re_Max r) in
  if decide (re_Op r = OpCapture) then default r' (head sub)
  else if decide (re_Op r = OpAnyCharNotNL \/ re_Op r = OpAnyChar) then any_char else r'.
Fixpoint patternNode (r : Regexp) : PatternNode :=
  {| pn_Kind := lit (op_string (re_Op r));
     pn_Text := if decide (re_Op r = OpLiteral) then concat (EncodeRune <$> re_Rune r) else [];
     pn_Ranges := if decide (re_Op r = OpCharClass) then re_Rune r else [];
     pn_Children := map patternNode (re_Sub r);
     pn_Min := re_Min r; pn_Max := re_Max r; pn_Lazy := re_NonGreedy r |}.
Fixpoint pattern_normalized (n : PatternNode) : value :=
  let kind_eq k := bytes_eqb (pn_Kind n) (lit k) in
  VObj (obj_of_list (
    [(lit "kind", VStr (pn_Kind n))] ++
    (if kind_eq "Literal"%string then [(lit "text", VStr (pn_Text n))] else []) ++
    (match pn_Ranges n with [] => [] | rs => [(lit "ranges", VArr (VInt <$> rs))] end) ++
    (match pn_Children n with [] => [] | _ => [(lit "children", VArr (map pattern_normalized (pn_Children n)))] end) ++
    (if kind_eq "Repeat"%string then [(lit "min", VInt (pn_Min n)); (lit "max", VInt (pn_Max n))] else []) ++
    (if pn_Lazy n then [(lit "lazy", VBool true)] else []))).

(** Characters that may follow a backslash outside a class. *)
Definition plain_escape (c : Z) : bool :=
  existsb (fun x => c =? x) (lit "\/nrtfvdDwW.*+?()[]{}^$|").
Definition quantifier (c : Z) : bool := existsb (fun x => c =? x) (lit "*+?{").

(** [{n}], [{n,}] or [{n,m}]. *)
Definition repetition_ok (body : bytes) : bool :=
  match split_at 44 body with
  | [a] => negb (bytes_eqb a []) && forallb isdigit a
  | [a; b] => negb (bytes_eqb a []) && forallb isdigit a && forallb isdigit b
  | _ => false
  end.

(** The check of the source text; [fuel] is its length, and every round consumes a byte. *)
Fixpoint pattern_scan (fuel : nat) (inClass afterAnchor : bool) (s : bytes) : result unit :=
  match fuel with
  | O => if inClass then Err "unterminated pattern class" else Ok tt
  | S fuel =>
      match s with
      | [] => if inClass then Err "unterminated pattern class" else Ok tt
      | c :: r =>
          if negb inClass && afterAnchor && quantifier c then Err "quantifier after an anchor is unsupported"
          else if c =? 92 then
            match r with
            | [] => Err "incomplete pattern escape"
            | e :: r =>
                if plain_escape e then pattern_scan fuel inClass false r
                else if e =? 45 then
                  if negb inClass then Err "hyphen escape is class-only" else pattern_scan fuel inClass false r
                else if e =? 120 then
                  match r with
                  | a :: b :: r => if is_hexdigit a && is_hexdigit b then pattern_scan fuel inClass false r else Err "invalid hex escape"
                  | _ => Err "invalid hex escape"
                  end
                else Err "unsupported pattern escape"
            end
          else if inClass then
            if c =? 91 then Err "nested or POSIX class is unsupported"
            else pattern_scan fuel (negb (c =? 93)) false r
          else if c =? 91 then
            let after := if has_prefix 94 r then drop 1 r else r in
            if has_prefix 93 after then Err "class starting with ']' is unsupported" else pattern_scan fuel true false r
          else if (c =? 94) || (c =? 36) then pattern_scan fuel false true r
          else if (c =? 93) || (c =? 125) then Err "unescaped pattern syntax character"
          else if (c =? 40) && has_prefix 63 r then
            match drop 1 r with
            | d :: r => if d =? 58 then pattern_scan fuel false false r else Err "unsupported pattern group"
            | [] => Err "unsupported pattern group"
            end
          else if c =? 123 then
            match cut_at (fun d => d =? 125) r with
            | (body, Some rest) => if repetition_ok body then pattern_scan fuel false false rest else Err "invalid repetition"
            | (_, None) => Err "invalid repetition"
            end
          else pattern_scan fuel false false r
      end
  end.

(** The ECMA escape of a slash, which Go's parser does not accept. *)
Fixpoint unescape_slash (s : bytes) : bytes :=
  match s with
  | c :: r =>
      if c =? 92 then
        match r with
        | d :: r' => (if d =? 47 then [] else [92]) ++ d :: unescape_slash r'
        | [] => [c]
        end
      else c :: unescape_slash r
  | [] => []
  end.

Definition CompilePattern (re : regexps) (source : bytes) : result Pattern :=
  if negb (ValidString source) then Err "pattern must contain Unicode scalars" else
  let* _ := pattern_scan (length source) false false source in
  match syntax_Parse re (unescape_slash source) with
  | None => Err "invalid common pattern"
  | Some tree =>
      let tree := normalizePattern tree in
      match regexp_Compile re tree with
      | None => Err "invalid generated pattern"
      | Some (expr, matcher) => Ok {| p_AST := patternNode tree; p_GoExpression := expr; MatchString := matcher |}
      end
  end.

(** ** Files *)

Definition extension_char (c : Z) : bool :=
  isdigit c || ((65 <=? c) && (c <=? 90)) || ((97 <=? c) && (c <=? 122)).
Definition extension_ok (s : bytes) : bool :=
  match s with
  | c :: r => extension_char c && (length r <=? 31)%nat && forallb (fun c => extension_char c || (c =? 95) || (c =? 45)) r
  | [] => false
  end.
Fixpoint extensions_loop (l : list raw) (out : list bytes) : result (list bytes) :=
  match l with
  | [] => Ok out
  | v :: l =>
      match str v with
      | Ok s =>
          if negb (extension_ok s) then Err "invalid file extension" else
          let s := asciiLower s in
          extensions_loop l (if contains out s then out else out ++ [s])
      | Err _ => Err "invalid file extension"
      end
  end.

Definition compileFile (m : rawMap) : result FileConstraints :=
  let* extensions := (if has m "extensions" then
    let* a := rlist (get m "extensions") in let* l := extensions_loop a [] in Ok (sort_strings l) else Ok []) in
  let* mimes := (if has m "mime_types" then
    let* a := stringsList (get m "mime_types") true in
    if forallb validMIME a then Ok (sort_strings a) else Err "invalid lowercase MIME type" else Ok []) in
  let* max := (if has m "max_bytes" then ByteSize (get m "max_bytes") else Ok 0) in
  let* allow := boolDefault m "allow_empty" true in
  Ok {| fc_Extensions := extensions; fc_MIMETypes := mimes; fc_MaxBytes := max; fc_AllowEmpty := allow |}.

(** ** Schemas *)

Definition schemaKeys : list string :=
  ["type"; "description"; "properties"; "items"; "required"; "additionalProperties"; "enum"; "const"; "minimum";
   "maximum"; "exclusiveMinimum"; "exclusiveMaximum"; "minLength"; "maxLength"; "pattern"; "format"; "minItems"; "maxItems"].
Definition schema_keys (m : rawMap) (input : bool) : list string :=
  match get m "type" with
  | RStr t => if bytes_eqb t (lit "file") then ["type"; "description"; "extensions"; "max_bytes"; "mime_types"; "allow_empty"]
              else schemaKeys ++ [if input then "default"%string else "nullable"%string]
  | _ => schemaKeys ++ [if input then "default"%string else "nullable"%string]
  end.
Definition type_names : list bytes :=
  lit <$> ["string"; "integer"; "number"; "boolean"; "object"; "array"; "null"; "file"].

(** The declared types. *)
Definition compile_types (m : rawMap) : result (list bytes) :=
  let* types := (if negb (has m "type") then Ok [] else
    match get m "type" with
    | RStr v => Ok [v]
    | RList l =>
        match stringsList (RList l) true with
        | Ok (t :: ts) => Ok (t :: ts)
        | _ => Err "type must be a nonempty type union"
        end
    | _ => Err "type must be a string or union"
    end) in
  if forallb (contains type_names) types then Ok types else Err "unsupported schema type".

(** The root of an input is an object; properties and items imply their type. *)
Definition root_types (m : rawMap) (root : bool) (types : list bytes) : result (list bytes) :=
  if negb root then Ok types
  else if has m "type" && negb (bool_decide (types = [lit "object"])) then Err "input root must be object"
  else if has m "items" then Err "input root cannot be array"
  else Ok [lit "object"].
Definition infer_types (m : rawMap) (types : list bytes) : result (list bytes) :=
  if has m "properties" && has m "items" then Err "properties and items are exclusive" else
  let inferred := if has m "items" then Some (lit "array") else if has m "properties" then Some (lit "object") else None in
  match inferred with
  | None => Ok types
  | Some t =>
      if bool_decide (types = []) then Ok [t]
      else if negb (contains types t) || (2 <? length types)%nat ||
              ((length types =? 2)%nat && negb (contains types (lit "null")))
      then Err "structural type contradicts explicit type" else Ok types
  end.
(** An output schema is nullable unless it says otherwise; [null] leaves its types. *)
Definition without (a : list bytes) (v : bytes) : list bytes := filter (fun s => s <> v) a.
Definition nullable_types (m : rawMap) (input : bool) (types : list bytes) : result (bool * list bytes) :=
  if input then Ok (false, types) else
  let* v := boolDefault m "nullable" true in
  if negb v && contains types (lit "null") then Err "nullable false contradicts null type"
  else Ok (v, if contains types (lit "null") && (1 <? length types)%nat then without types (lit "null") else types).

Definition string_list (l : list bytes) : value := VArr (VStr <$> l).
Definition normalized_types (types : list bytes) : list (bytes * value) :=
  match types with
  | [] => []
  | [t] => [(lit "type", VStr t)]
  | _ => [(lit "type", string_list types)]
  end.

(** Numeric bounds: finite numbers, on a numeric type. *)
Fixpoint numeric_constraints (m : rawMap) (types : list bytes) (ks : list string) : result (list (bytes * value)) :=
  match ks with
  | [] => Ok []
  | k :: ks =>
      if negb (has m k) then numeric_constraints m types ks
      else if negb (contains types (lit "number")) && negb (contains types (lit "integer"))
      then Err "numeric constraints require a numeric type"
      else
        let* v := match get m k with RInt n => Ok (VInt n) | RFloat f => Ok (VFloat f) | _ => Err "numeric bound must be finite number" end in
        let* r := numeric_constraints m types ks in Ok ((lit k, v) :: r)
  end.
Fixpoint size_constraints (m : rawMap) (types : list bytes) (ks : list (string * string)) : result (list (bytes * value)) :=
  match ks with
  | [] => Ok []
  | (k, t) :: ks =>
      if negb (has m k) then size_constraints m types ks
      else if negb (contains types (lit t)) then Err "constraint requires its type"
      else let* v := intDefault m k 0 0 in let* r := size_constraints m types ks in Ok ((lit k, VInt v) :: r)
  end.
Definition size_pair_ok (c : list (bytes * value)) (lo hi : string) : bool :=
  match obj_lookup (lit lo) c, obj_lookup (lit hi) c with
  | Some (VInt a), Some (VInt b) => a <=? b
  | _, _ => true
  end.
Definition bounds_intersect (c : list (bytes * value)) (lo hi : string) : bool :=
  match obj_lookup (lit lo) c, obj_lookup (lit hi) c with
  | Some a, Some b =>
      match compareNumbers a b with
      | Gt => false
      | Eq => negb (String.eqb lo "exclusiveMinimum" || String.eqb hi "exclusiveMaximum")
      | Lt => true
      end
  | _, _ => true
  end.
Definition formats : list bytes := [] :: (lit <$> ["email"; "uuid"; "date"; "date-time"; "uri"]).

(** Distinct values of an enumeration, in the order of their canonical texts. *)
Fixpoint insert_by_text (t : bytes) (v : value) (l : list (bytes * value)) : list (bytes * value) :=
  match l with
  | [] => [(t, v)]
  | (t', v') :: r => if bytes_ltb t' t then (t', v') :: insert_by_text t v r else (t, v) :: l
  end.

Section Compile.
Context (lib : engines) (re : regexps).

(** [s.validate(v, "", defaults, nil)]. *)
Definition validate_value_static (s : Schema) (defaults : bool) (v : value) : result value :=
  let* r := validate lib defaults None s v [] None in Ok r.1.

Fixpoint enum_loop (s : Schema) (l : list value) (out : list (bytes * value)) : result (list (bytes * value)) :=
  match l with
  | [] => Ok out
  | v :: l =>
      let* n := validate_value_static s false v in
      let* t := canonical_value n in
      if existsb (fun tv => bytes_eqb t tv.1) out then Err "enum values must be unique"
      else enum_loop s l (insert_by_text t n out)
  end.

(** The pattern and the format, on a string type. *)
Definition compile_pattern (m : rawMap) (types : list bytes) : result (option (bytes * Pattern)) :=
  if negb (has m "pattern") then Ok None
  else if negb (contains types (lit "string")) then Err "pattern requires string type"
  else let* v := str (get m "pattern") in let* p := CompilePattern re v in Ok (Some (v, p)).
Definition compile_format (m : rawMap) (types : list bytes) : result (list (bytes * value)) :=
  if negb (has m "format") then Ok []
  else if negb (contains types (lit "string")) then Err "format requires string type"
  else let* v := str (get m "format") in
       if contains formats v then Ok [(lit "format", VStr v)] else Err "unsupported format".

Section Children.
Context (child : rawMap -> result Schema).

Fixpoint compile_properties (p : rawMap) : result (list (bytes * Schema)) :=
  match p with
  | [] => Ok []
  | (k, v) :: p =>
      let* sm := object v in let* c := child sm in let* r := compile_properties p in Ok ((k, c) :: r)
  end.

(** The keywords of an object: the required names, whether other keys are allowed, and their schema. *)
Definition compile_object (m : rawMap) (types : list bytes) (input propertiesSet passthrough : bool) (names : list bytes)
    : result (list bytes * bool * option Schema) :=
  if (has m "required" || has m "additionalProperties") && negb (contains types (lit "object"))
  then Err "object constraints require object type"
  else if negb (contains types (lit "object")) then Ok ([], false, None)
  else
    let* required := (if has m "required" then
      let* r := stringsList (get m "required") true in
      if forallb (contains names) r then Ok (sort_strings r) else Err "required must name a declared property"
      else Ok []) in
    let allowed := negb input && (negb propertiesSet || passthrough) in
    if negb (has m "additionalProperties") then Ok (required, allowed, None) else
    match get m "additionalProperties" with
    | RBool b => Ok (required, b, None)
    | RMap v =>
        let* c := child v in
        if input && HasFiles c then Err "dynamic additionalProperties cannot contain file" else Ok (required, true, Some c)
    | _ => Err "additionalProperties must be boolean or schema"
    end.
End Children.

Definition compile_description (m : rawMap) : result (list (bytes * value)) :=
  if has m "description" then let* v := str (get m "description") in Ok [(lit "description", VStr v)] else Ok [].

(** A file leaf. *)
Definition compile_file_schema (m : rawMap) (input root : bool) (types : list bytes) (description : list (bytes * value)) : result Schema :=
  if negb input || negb (length types =? 1)%nat || root then Err "file is an input leaf type only" else
  let* f := compileFile m in
  let norm := description ++ [(lit "type", VStr (lit "file")); (lit "extensions", string_list (fc_Extensions f));
    (lit "mime_types", string_list (fc_MIMETypes f)); (lit "allow_empty", VBool (fc_AllowEmpty f))] ++
    (if 0 <? fc_MaxBytes f then [(lit "max_bytes", VInt (fc_MaxBytes f))] else []) in
  Ok (MkSchema {| Types := types; PropertyOrder := []; PropertiesSet := false; AdditionalAllowed := false;
    Required := []; Default := VNull; DefaultSet := false; Nullable := negb input; Constraints := []; File := Some f;
    SPattern := None; patternSource := []; normalized := obj_of_list norm; output := negb input |} [] None None).

(** The enumeration, the constant and the default are checked by the schema built so far. *)
Definition with_value (s : Schema) (k : string) (v : value) : Schema :=
  let d := sdata s in
  MkSchema {| Types := Types d; PropertyOrder := PropertyOrder d; PropertiesSet := PropertiesSet d;
    AdditionalAllowed := AdditionalAllowed d; Required := Required d; Default := Default d; DefaultSet := DefaultSet d;
    Nullable := Nullable d; Constraints := obj_insert (lit k) v (Constraints d); File := File d; SPattern := SPattern d;
    patternSource := patternSource d; normalized := obj_insert (lit k) v (normalized d); output := output d |}
    (Properties s) (Items s) (Additional s).
Definition with_default (s : Schema) (v : value) : Schema :=
  let d := sdata s in
  MkSchema {| Types := Types d; PropertyOrder := PropertyOrder d; PropertiesSet := PropertiesSet d;
    AdditionalAllowed := AdditionalAllowed d; Required := Required d; Default := v; DefaultSet := true;
    Nullable := Nullable d; Constraints := Constraints d; File := File d; SPattern := SPattern d;
    patternSource := patternSource d; normalized := obj_insert (lit "default") v (normalized d); output := output d |}
    (Properties s) (Items s) (Additional s).

Definition compile_enum (m : rawMap) (s : Schema) : result Schema :=
  if negb (has m "enum") then Ok s else
  match get m "enum" with
  | RList (x :: l) =>
      let* out := enum_loop s (plain <$> x :: l) [] in Ok (with_value s "enum" (VArr (snd <$> out)))
  | _ => Err "enum must be a nonempty list"
  end.
Definition compile_const (m : rawMap) (s : Schema) : result Schema :=
  if negb (has m "const") then Ok s else
  let* n := validate_value_static s false (plain (get m "const")) in Ok (with_value s "const" n).
Definition compile_default (m : rawMap) (input : bool) (s : Schema) : result Schema :=
  if negb (input && has m "default") then Ok s
  else if HasFiles s then Err "default cannot synthesize request-owned files"
  else let* n := validate_value_static s true (plain (get m "default")) in Ok (with_default s n).

Fixpoint compileSchema (fuel : nat) (m : rawMap) (input root passthrough : bool) : result Schema :=
  match fuel with
  | O => Err "schema nesting exceeds limit"
  | S fuel =>
      let child sm := compileSchema fuel sm input false passthrough in
      let* _ := known m (schema_keys m input) in
      let* description := compile_description m in
      let* types := compile_types m in
      if contains types (lit "file") then compile_file_schema m input root types description else
      let* types := root_types m root types in
      let* types := infer_types m types in
      let* nt := nullable_types m input types in
      let types := sort_strings nt.2 in
      let* props := (if has m "properties" then let* p := object (get m "properties") in compile_properties child p else Ok []) in
      let* items := (if has m "items" then let* im := object (get m "items") in let* c := child im in Ok (Some c) else Ok None) in
      let* obj := compile_object child m types input (has m "properties") passthrough props.*1 in
      let* nums := numeric_constraints m types numeric_bounds in
      let* sizes := size_constraints m types
        [("minLength", "string"); ("maxLength", "string"); ("minItems", "array"); ("maxItems", "array")]%string in
      if negb (size_pair_ok sizes "minLength" "maxLength" && size_pair_ok sizes "minItems" "maxItems") then Err "minimum exceeds maximum"
      else if negb (bounds_intersect nums "minimum" "maximum" && bounds_intersect nums "minimum" "exclusiveMaximum" &&
        bounds_intersect nums "exclusiveMinimum" "maximum" && bounds_intersect nums "exclusiveMinimum" "exclusiveMaximum")
      then Err "numeric bounds have no intersection" else
      let* pattern := compile_pattern m types in
      let* format := compile_format m types in
      if bool_decide (types = []) && (has m "enum" || has m "const")
      then Err "constraints without structure require an explicit type" else
      let '(required, allowed, additional) := obj in
      let norm := description ++ (if input then [] else [(lit "nullable", VBool nt.1)]) ++ normalized_types types ++
        (if has m "properties" then [(lit "properties", VObj (obj_of_list ((fun kc => (kc.1, VObj (normalized (sdata kc.2)))) <$> props)))] else []) ++
        (match items with Some c => [(lit "items", VObj (normalized (sdata c)))] | None => [] end) ++
        (if contains types (lit "object") then
          [(lit "required", string_list required);
           (lit "additionalProperties", match additional with Some c => VObj (normalized (sdata c)) | None => VBool allowed end)] else []) ++
        nums ++ sizes ++
        (match pattern with Some (_, p) => [(lit "pattern", pattern_normalized (p_AST p))] | None => [] end) ++ format in
      let s := MkSchema {| Types := types; PropertyOrder := props.*1; PropertiesSet := has m "properties";
        AdditionalAllowed := allowed; Required := required; Default := VNull; DefaultSet := false;
        Nullable := (if input then false else nt.1); Constraints := obj_of_list (nums ++ sizes ++ format); File := None;
        SPattern := snd <$> pattern; patternSource := default [] (fst <$> pattern); normalized := obj_of_list norm;
        output := negb input |} (obj_of_list props) items additional in
      let* s := compile_enum m s in
      let* s := compile_const m s in
      compile_default m input s
  end.

Definition CompileSchema (yaml : scalars) (parse : bytes -> documents) (data : bytes) (input : bool) : result Schema :=
  let* m := decodeYAML yaml parse data in compileSchema 129 m input input false.
End Compile.

(** [resolveFileLimits]: the policy's limit on every file leaf, as a new schema. *)
Definition set_max (f : FileConstraints) (n : Z) : FileConstraints :=
  {| fc_Extensions := fc_Extensions f; fc_MIMETypes := fc_MIMETypes f; fc_MaxBytes := n; fc_AllowEmpty := fc_AllowEmpty f |}.
Definition set_norm (d : schema_data) (file : option FileConstraints) (norm : list (bytes * value)) : schema_data :=
  {| Types := Types d; PropertyOrder := PropertyOrder d; PropertiesSet := PropertiesSet d;
     AdditionalAllowed := AdditionalAllowed d; Required := Required d; Default := Default d; DefaultSet := DefaultSet d;
     Nullable := Nullable d; Constraints := Constraints d; File := file; SPattern := SPattern d;
     patternSource := patternSource d; normalized := norm; output := output d |}.
Fixpoint resolveFileLimits (max : Z) (s : Schema) : result Schema :=
  match s with
  | MkSchema d props items additional =>
      let* file := (match File d with
        | None => Ok None
        | Some f =>
            if max <=? 0 then Err "file policy is missing"
            else if fc_MaxBytes f =? 0 then Ok (Some (set_max f max))
            else if max <? fc_MaxBytes f then Err "file max_bytes exceeds policy" else Ok (Some f)
        end) in
      let norm := match file with Some f => obj_insert (lit "max_bytes") (VInt (fc_MaxBytes f)) (normalized d) | None => normalized d end in
      let* props := (fix go l := match l with
        | [] => Ok []
        | kc :: l => let* c := resolveFileLimits max kc.2 in let* r := go l in Ok ((kc.1, c) :: r)
        end) props in
      let* items := (match items with None => Ok None | Some i => let* c := resolveFileLimits max i in Ok (Some c) end) in
      let norm := if PropertiesSet d && negb (bool_decide (props = []))
        then obj_insert (lit "properties") (VObj ((fun kc => (kc.1, VObj (normalized (sdata kc.2)))) <$> props)) norm else norm in
      let norm := match items with Some c => obj_insert (lit "items") (VObj (normalized (sdata c))) norm | None => norm end in
      Ok (MkSchema (set_norm d file norm) props items additional)
  end.
