(* ===== verification/Compiled.v ===== *)
(** * What compilation guarantees
    Every schema that [CompileSchema] accepts satisfies the invariant [schema_wf] that
    the theorems about validation assume, whatever the YAML library and the regular
    expression engine do; an input schema has no implicitly nullable node. *)
From Stdlib Require Import ZArith Lia SpecFloat.
From stdpp Require Import base gmap list option sorting strings.
From S2P Require Import Prelude Utf8 Strconv Json JsonText Canonical GoStrings InputValue ValueFormat Schema Pointer Validation Yaml Compile.
Local Open Scope Z_scope.

(* ------------------------------------------------------------------ *)
(** ** Lemmas *)

Lemma insert_sorted_perm s l : insert_sorted s l ≡ₚ s :: l.
Proof. induction l as [|x l IH]; [done|]. simpl. destruct (bytes_ltb x s); [|done]. rewrite IH. constructor. Qed.
Lemma sort_strings_perm l : sort_strings l ≡ₚ l.
Proof. induction l as [|x l IH]; [done|]. unfold sort_strings in *. cbn [foldr]. by rewrite insert_sorted_perm, IH. Qed.

Lemma plain_wf r : wf_value (plain r).
Proof.
  induction r as [| | | | |l IH|m IH] using raw_ind; try constructor.
  - induction IH as [|x l Hx _ IHl]; [constructor|by constructor].
  - apply obj_of_list_sorted.
  - unfold obj_of_list. assert (forall l (o : list (bytes * value)), Forall (fun kv => wf_value kv.2) l -> Forall (fun kv => wf_value kv.2) o ->
      Forall (fun kv => wf_value kv.2) (foldl (fun m kv => obj_insert kv.1 kv.2 m) o l)) as H.
    { clear. induction l as [|[k v] l IH]; intros o Hl Ho; [done|]. apply Forall_cons in Hl as [Hv Hl]. cbn [foldl]. apply IH; [done|].
      clear -Hv Ho. induction Ho as [|[k' v'] o Hv' Ho IHo]; simpl; [by repeat constructor|].
      destruct (bytes_eqb k k'); [by constructor|]. destruct (bytes_ltb k k'); by repeat constructor. }
    apply H; [|constructor]. induction IH as [|x m Hx _ IHm]; [constructor|by constructor].
Qed.

(** The types of a schema with properties or with items. *)
Lemma two_types (types : list bytes) a b :
  a <> b -> contains types a = true -> (length types <= 2)%nat -> (length types = 2%nat -> contains types b = true) ->
  forall t, t ∈ types -> t = a \/ t = b.
Proof.
  intros Hne Ha Hlen Hb t Ht. apply contains_elem in Ha. destruct types as [|x [|y [|]]]; simpl in Hlen; try lia.
  - by apply elem_of_nil in Ht.
  - apply list_elem_of_singleton in Ha, Ht. left. congruence.
  - specialize (Hb eq_refl). apply contains_elem in Hb. rewrite !elem_of_cons, elem_of_nil in *. naive_solver.
Qed.

Lemma infer_types_structural m types types' k t0 :
  infer_types m types = Ok types' ->
  (k = "properties"%string /\ t0 = lit "object" \/ k = "items"%string /\ t0 = lit "array") -> has m k = true ->
  forall t, t ∈ types' -> t = t0 \/ t = lit "null".
Proof.
  unfold infer_types. intros E Hk Hh. destruct (has m "properties" && has m "items") eqn:Eb; [done|].
  assert ((if has m "items" then Some (lit "array") else if has m "properties" then Some (lit "object") else None) = Some t0) as Ei.
  { destruct Hk as [[-> ->]|[-> ->]]; rewrite Hh in *; [|done]. cbn [andb] in Eb. by rewrite Eb. }
  rewrite Ei in E. case_bool_decide; [apply Ok_inj in E as <-; intros t Ht; left; by apply list_elem_of_singleton in Ht|].
  destruct (_ || _) eqn:Ec in E; [done|]. apply Ok_inj in E as <-.
  apply orb_false_iff in Ec as [Ec E3]. apply orb_false_iff in Ec as [E1 E2]. apply negb_false_iff in E1.
  apply Nat.ltb_ge in E2. apply (two_types types t0 (lit "null")); [by destruct Hk as [[_ ->]|[_ ->]]|done|done|].
  intros El. rewrite El in E3. simpl in E3. by apply negb_false_iff in E3.
Qed.

Lemma nullable_types_sub m input types r t :
  nullable_types m input types = Ok r -> t ∈ r.2 -> t ∈ types.
Proof.
  unfold nullable_types. destruct input; [intros E; by apply Ok_inj in E as <-|]. intros E.
  apply result_bind_Ok in E as (v & _ & E). destruct (_ && _); [done|]. apply Ok_inj in E as <-. cbn [snd].
  destruct (_ && _); [|done]. unfold without. rewrite list_elem_of_filter. tauto.
Qed.

Lemma get_wf m k : wf_raw (RMap m) -> wf_raw (get m k).
Proof.
  intros H. inversion_clear H as [| | | | | |? _ Hm]. unfold get. destruct (obj_lookup (lit k) m) as [v|] eqn:E; [|constructor].
  apply obj_lookup_Some in E. by apply (proj1 (Forall_forall _ _) Hm (lit k, v)).
Qed.

Section Wf.
Context (lib : engines) (re : regexps).

(** Adding a constraint or a default keeps the invariant. *)
Lemma with_value_wf s k v : schema_wf s -> schema_wf (with_value s k v).
Proof. intros [d props items additional [H1 H2 H3 H4 H5 H6 H7] Hs Hp Hi Ha]. by constructor. Qed.
Lemma with_default_wf s v : schema_wf s -> wf_value v -> schema_wf (with_default s v).
Proof. intros [d props items additional [H1 H2 H3 H4 H5 H6 H7] Hs Hp Hi Ha] Hv. by constructor. Qed.
Lemma with_value_never_null s k v : never_null (with_value s k v) = never_null s.
Proof. by destruct s. Qed.
Lemma with_default_never_null s v : never_null (with_default s v) = never_null s.
Proof. by destruct s. Qed.

Lemma static_wf s df v n : schema_wf s -> wf_value v -> validate_value_static lib s df v = Ok n -> wf_value n.
Proof.
  intros Hs Hv E. unfold validate_value_static in E. apply result_bind_Ok in E as ([w lv] & E & E'). apply Ok_inj in E' as <-.
  apply validate_leaves in E as (new & _ & H). by destruct (H Hs Hv).
Qed.

(** The three checks at the end of compilation. *)
Lemma finish_wf m input s s' :
  (let* s := compile_enum lib m s in let* s := compile_const lib m s in compile_default lib m input s) = Ok s' ->
  schema_wf s -> schema_wf s' /\ never_null s' = never_null s.
Proof.
  intros E Hs. apply result_bind_Ok in E as (s1 & E1 & E). apply result_bind_Ok in E as (s2 & E2 & E).
  assert (schema_wf s1 /\ never_null s1 = never_null s) as [H1 N1].
  { unfold compile_enum in E1. destruct (negb _); [by apply Ok_inj in E1 as <-|]. destruct (get m "enum"); try done. destruct l; [done|].
    apply result_bind_Ok in E1 as (out & _ & E1). apply Ok_inj in E1 as <-. split; [by apply with_value_wf|apply with_value_never_null]. }
  assert (schema_wf s2 /\ never_null s2 = never_null s) as [H2 N2].
  { unfold compile_const in E2. destruct (negb _); [by apply Ok_inj in E2 as <-|].
    apply result_bind_Ok in E2 as (n & _ & E2). apply Ok_inj in E2 as <-. split; [by apply with_value_wf|by rewrite with_value_never_null]. }
  unfold compile_default in E. destruct (negb _); [by apply Ok_inj in E as <-|]. destruct (HasFiles s2); [done|].
  apply result_bind_Ok in E as (n & En & E). apply Ok_inj in E as <-. split; [|by rewrite with_default_never_null].
  apply with_default_wf; [done|]. eapply static_wf; [exact H2|apply plain_wf|exact En].
Qed.

Lemma compile_file_wf m input root types description s :
  compile_file_schema m input root types description = Ok s -> schema_wf s /\ (input = true -> never_null s = true).
Proof.
  unfold compile_file_schema. destruct (_ || _); [done|]. intros E. apply result_bind_Ok in E as (f & _ & E). apply Ok_inj in E as <-. split.
  - constructor; [|constructor|constructor|done|done]. split; simpl; try done; try constructor; by intros ? ?%elem_of_nil.
  - by intros ->.
Qed.

(** What holds of every schema the recursive call compiles holds of the properties, the
    items and the additional properties. *)
Lemma compile_properties_good child (P : Schema -> Prop) p props :
  (forall sm s, wf_raw (RMap sm) -> child sm = Ok s -> P s) -> Forall (fun kv => wf_raw kv.2) p ->
  compile_properties child p = Ok props -> props.*1 = p.*1 /\ Forall (fun kc => P kc.2) props.
Proof.
  intros Hc Hp. revert props. induction Hp as [|[k v] p Hv _ IH]; intros props E; cbn [compile_properties] in E; [by apply Ok_inj in E as <-|].
  apply result_bind_Ok in E as (sm & Es & E). apply result_bind_Ok in E as (c & Ec & E). apply result_bind_Ok in E as (r & Er & E).
  apply Ok_inj in E as <-. destruct (IH r Er) as [H1 H2]. rewrite !fmap_cons, H1. split; [done|]. constructor; [|done].
  destruct v; try done. apply Ok_inj in Es as ->. by eapply Hc.
Qed.

Lemma compile_object_good child (P : Schema -> Prop) m types input ps pt names r :
  (forall sm s, wf_raw (RMap sm) -> child sm = Ok s -> P s) -> wf_raw (RMap m) ->
  compile_object child m types input ps pt names = Ok r ->
  (forall k, k ∈ r.1.1 -> k ∈ names) /\ (forall a, r.2 = Some a -> P a).
Proof.
  intros Hc Hm. pose proof (get_wf m "additionalProperties" Hm) as Ha.
  unfold compile_object. destruct (_ && _); [done|]. destruct (negb _); [intros E; apply Ok_inj in E as <-; split; [by intros ? ?%elem_of_nil|done]|].
  intros E. apply result_bind_Ok in E as (req & Er & E).
  assert (forall k, k ∈ req -> k ∈ names) as Hreq.
  { destruct (has m "required"); [|apply Ok_inj in Er as <-; by intros ? ?%elem_of_nil].
    apply result_bind_Ok in Er as (l & _ & Er). destruct (forallb (contains names) l) eqn:Ef; [|done]. apply Ok_inj in Er as <-.
    intros k Hk. rewrite sort_strings_perm in Hk. rewrite forallb_forall in Ef. apply contains_elem, Ef. by apply list_elem_of_In. }
  destruct (negb _); [apply Ok_inj in E as <-; done|]. destruct (get m "additionalProperties") eqn:Eg; try done.
  - by apply Ok_inj in E as <-.
  - apply result_bind_Ok in E as (c & Ec & E). destruct (_ && _); [done|]. apply Ok_inj in E as <-. split; [done|].
    cbn. intros a [= <-]. by eapply Hc.
Qed.

Definition good (input : bool) (s : Schema) : Prop := schema_wf s /\ (input = true -> never_null s = true).

(** The invariant of the node itself, from its parts. *)
Lemma node_good m input types0 types props (p : rawMap) items obj d :
  wf_raw (RMap m) -> infer_types m types0 = Ok types -> (forall t, t ∈ Types d -> t ∈ types) ->
  (has m "properties" = true /\ props.*1 = p.*1 /\ NoDup p.*1 \/ props = []) -> Forall (fun kc => good input kc.2) props ->
  (forall i, items = Some i -> has m "items" = true /\ good input i) ->
  (forall k, k ∈ Required d -> k ∈ props.*1) -> (forall a, obj = Some a -> good input a) ->
  PropertyOrder d = props.*1 -> Default d = VNull -> File d = None -> (input = true -> Nullable d = false) ->
  good input (MkSchema d (obj_of_list props) items obj).
Proof.
  intros Hm Hinf Htypes Hprops Hgood Hitems Hreq Hadd Hord Hdef Hfile Hnull.
  assert (NoDup props.*1) as Hnd by (destruct Hprops as [(_ & -> & ?)| ->]; [done|constructor]).
  apply obj_of_list_perm in Hnd as Hperm. assert (Forall (fun kc => good input kc.2) (obj_of_list props)) as Hg by (by rewrite Hperm).
  split.
  - constructor; [split|apply obj_of_list_sorted|by eapply Forall_impl; [exact Hg|intros ? []]|intros i Hi; by destruct (Hitems i Hi) as [_ []]|intros a Ha; by destruct (Hadd a Ha)].
    + by rewrite Hord.
    + intros k. by rewrite Hord, Hperm.
    + intros k. rewrite Hord. apply Hreq.
    + intros Hne t Ht. destruct Hprops as [(Hh & _)| ->]; [|by destruct Hne].
      eapply infer_types_structural; [exact Hinf|by left|done|by apply Htypes].
    + intros Hne t Ht. destruct items as [i|]; [|done]. destruct (Hitems i eq_refl) as [Hh _].
      eapply infer_types_structural; [exact Hinf|by right|done|by apply Htypes].
    + by rewrite Hfile.
    + rewrite Hdef. constructor.
  - intros Hin. cbn [never_null]. rewrite (Hnull Hin). cbn [negb andb]. rewrite !andb_true_iff. repeat split.
    + apply forallb_forall. intros kc Hkc%list_elem_of_In. rewrite Forall_forall in Hg. by apply (Hg kc Hkc).
    + destruct items as [i|]; [|done]. by apply (Hitems i eq_refl).
    + destruct obj as [a|]; [|done]. by apply (Hadd a eq_refl).
Qed.

Lemma compileSchema_good fuel m input root pt s :
  wf_raw (RMap m) -> compileSchema lib re fuel m input root pt = Ok s -> good input s.
Proof.
  revert m root s. induction fuel as [|fuel IH]; intros m root s Hm E; [done|]. cbn [compileSchema] in E. cbv zeta in E.
  set (child := fun sm => compileSchema lib re fuel sm input false pt) in E.
  assert (forall sm s, wf_raw (RMap sm) -> child sm = Ok s -> good input s) as Hc by (intros sm s'; apply IH).
  apply result_bind_Ok in E as (? & _ & E). apply result_bind_Ok in E as (description & _ & E). apply result_bind_Ok in E as (t1 & _ & E).
  destruct (contains t1 (lit "file")); [by eapply compile_file_wf|]. apply result_bind_Ok in E as (t2 & _ & E).
  apply result_bind_Ok in E as (t3 & Hinf & E). apply result_bind_Ok in E as (nt & Hnt & E).
  apply result_bind_Ok in E as (props & Hp & E). apply result_bind_Ok in E as (items & Hi & E).
  apply result_bind_Ok in E as ([[req allowed] additional] & Hobj & E). apply result_bind_Ok in E as (nums & _ & E).
  apply result_bind_Ok in E as (sizes & _ & E). destruct (negb _); [done|]. destruct (negb _) in E; [done|].
  apply result_bind_Ok in E as (pattern & _ & E). apply result_bind_Ok in E as (format & _ & E). destruct (_ && _); [done|].
  apply (compile_object_good _ (good input)) in Hobj as [Hreq Hadd]; [|done|done].
  assert (exists p : rawMap, (has m "properties" = true /\ props.*1 = p.*1 /\ NoDup p.*1 \/ props = []) /\ Forall (fun kc => good input kc.2) props) as (p & Hps & Hg).
  { destruct (has m "properties"); [|apply Ok_inj in Hp as <-; exists []; auto].
    apply result_bind_Ok in Hp as (p & Ep & Hp). pose proof (get_wf m "properties" Hm) as Hw. destruct (get m "properties"); try done.
    apply Ok_inj in Ep as ->. inversion_clear Hw as [| | | | | |? Hnd Hall].
    apply (compile_properties_good _ (good input)) in Hp as [Hk Hg]; [|done|done]. exists p. auto. }
  match type of E with context [compile_enum _ _ ?n] => assert (good input n) as [Hs Hn] end.
  { apply (node_good m input t2 t3 props p); cbn; auto.
    - intros t. rewrite sort_strings_perm. by eapply nullable_types_sub.
    - intros i ->. destruct (has m "items"); [|done]. split; [done|]. apply result_bind_Ok in Hi as (im & Eim & Hi).
      apply result_bind_Ok in Hi as (c & Ec & Hi). apply Ok_inj in Hi as [= ->]. pose proof (get_wf m "items" Hm) as Hw.
      destruct (get m "items"); try done. apply Ok_inj in Eim as ->. by eapply Hc.
    - by intros ->. }
  apply finish_wf in E as [H1 H2]; [|done]. split; [done|]. rewrite H2. done.
Qed.
End Wf.

(** ** Resolved file limits *)

(** Every file leaf outside additional properties has a limit within the policy's. *)
Fixpoint files_limited (max : Z) (s : Schema) : bool :=
  match s with
  | MkSchema d props items _ =>
      match File d with Some f => (fc_MaxBytes f <=? max) && negb (fc_MaxBytes f =? 0) | None => true end &&
      forallb (fun kc => files_limited max kc.2) props && match items with Some i => files_limited max i | None => true end
  end.

Definition resolve_properties (max : Z) :=
  fix go (l : list (bytes * Schema)) : result (list (bytes * Schema)) := match l with
  | [] => Ok []
  | kc :: l => let* c := resolveFileLimits max kc.2 in let* r := go l in Ok ((kc.1, c) :: r)
  end.
Lemma resolve_properties_spec max (P : Schema -> Prop) l r :
  Forall (fun kc => forall c, resolveFileLimits max kc.2 = Ok c -> P c) l -> resolve_properties max l = Ok r ->
  r.*1 = l.*1 /\ Forall (fun kc => P kc.2) r.
Proof.
  intros H. revert r. induction H as [|kc l Hk _ IH]; intros r E; cbn [resolve_properties] in E; [by apply Ok_inj in E as <-|].
  apply result_bind_Ok in E as (c & Ec & E). apply result_bind_Ok in E as (r' & Er & E). apply Ok_inj in E as <-.
  destruct (IH r' Er) as [H1 H2]. rewrite !fmap_cons, H1. split; [done|]. constructor; [by apply Hk|done].
Qed.

Lemma good_inv input d props items additional :
  good input (MkSchema d props items additional) ->
  Forall (fun kc => good input kc.2) props /\ (forall i, items = Some i -> good input i) /\
  (forall a, additional = Some a -> good input a) /\ (input = true -> Nullable d = false) /\
  data_wf d props items /\ obj_sorted props.
Proof.
  intros [Hwf Hnn]. inversion_clear Hwf as [? ? ? ? Hd Hs Hp Hi Ha]. cbn [never_null] in Hnn. rewrite !andb_true_iff, forallb_forall in Hnn.
  split; [|split; [|split; [|split; [|by split]]]].
  - apply Forall_forall. intros kc Hkc. split; [by apply (proj1 (Forall_forall _ _) Hp)|]. intros Hin.
    destruct (Hnn Hin) as [[[_ Hall] _] _]. apply Hall. by apply list_elem_of_In.
  - intros i ->. split; [by apply Hi|]. intros Hin. by destruct (Hnn Hin) as [[_ ?] _].
  - intros a ->. split; [by apply Ha|]. intros Hin. by destruct (Hnn Hin) as [_ ?].
  - intros Hin. destruct (Hnn Hin) as [[[Hn _] _] _]. by apply negb_true_iff in Hn.
Qed.

(** The converse, for a node whose data differ in the file constraints and the normal form only. *)
Lemma good_rebuild input d props items ps its additional file norm :
  data_wf d props items -> ps.*1 = props.*1 -> (its = None <-> items = None) -> obj_sorted props ->
  (file = None <-> File d = None) -> Forall (fun kc => good input kc.2) ps -> (forall i, its = Some i -> good input i) ->
  (forall a, additional = Some a -> good input a) -> (input = true -> Nullable d = false) ->
  good input (MkSchema (set_norm d file norm) ps its additional).
Proof.
  intros [H1 H2 H3 H4 H5 H6 H7] Hk Hits Hsorted Hfile Hps Hi Ha Hnull.
  assert (props = [] <-> ps = []) as Hnil by (split; intros ->; [destruct ps|destruct props]; done).
  split.
  - constructor; [|unfold obj_sorted; by rewrite Hk|by eapply Forall_impl; [exact Hps|intros ? []]|intros i E; by apply (Hi i E)|intros a E; by apply (Ha a E)].
    split; cbn; try done; [by rewrite Hk|tauto|tauto|]. rewrite Hfile, <- Hnil, Hits. tauto.
  - intros Hin. cbn. rewrite (Hnull Hin). cbn. rewrite !andb_true_iff. split; [split|].
    + apply forallb_forall. intros kc Hkc%list_elem_of_In. by apply (proj1 (Forall_forall _ _) Hps kc Hkc).
    + destruct its as [i|]; [|done]. by apply (Hi i eq_refl).
    + destruct additional as [a|]; [|done]. by apply (Ha a eq_refl).
Qed.

Lemma resolve_good input max s s' :
  resolveFileLimits max s = Ok s' -> good input s -> good input s' /\ files_limited max s' = true.
Proof.
  revert s'. induction s as [d props items additional IHp IHi IHa] using Schema_ind. intros s' E Hgood.
  destruct (good_inv _ _ _ _ _ Hgood) as (Hgp & Hgi & Hga & Hnull & Hd & Hsorted).
  cbn [resolveFileLimits] in E. apply result_bind_Ok in E as (file & Ef & E). cbv zeta in E.
  apply result_bind_Ok in E as (ps & Ep & E). apply result_bind_Ok in E as (its & Ei & E). apply Ok_inj in E as <-.
  apply (resolve_properties_spec _ (fun c => good input c /\ files_limited max c = true)) in Ep as [Hk Hps].
  2:{ apply Forall_forall. intros kc Hkc c Ec. apply (proj1 (Forall_forall _ _) IHp kc Hkc c Ec). by apply (proj1 (Forall_forall _ _) Hgp). }
  assert ((its = None <-> items = None) /\ forall i, its = Some i -> good input i /\ files_limited max i = true) as [Hits Hi].
  { destruct items as [i|]; [|by apply Ok_inj in Ei as <-]. apply result_bind_Ok in Ei as (c & Ec & Ei). apply Ok_inj in Ei as <-.
    split; [done|]. intros ? [= <-]. apply (IHi c Ec). by apply Hgi. }
  assert ((file = None <-> File d = None) /\ match file with Some f => (fc_MaxBytes f <=? max) && negb (fc_MaxBytes f =? 0) | None => true end = true) as [Hf Hlim].
  { destruct (File d) as [f|]; [|by apply Ok_inj in Ef as <-]. destruct (max <=? 0) eqn:?; [done|]. destruct (fc_MaxBytes f =? 0) eqn:?.
    - apply Ok_inj in Ef as <-. split; [done|]. cbn. lia.
    - destruct (max <? fc_MaxBytes f) eqn:?; [done|]. apply Ok_inj in Ef as <-. split; [done|]. lia. }
  split.
  - eapply good_rebuild; try done; [by eapply Forall_impl; [exact Hps|intros ? []]|]. intros i E. by apply Hi.
  - cbn. rewrite !andb_true_iff. split; [split; [done|]|].
    + apply forallb_forall. intros kc Hkc%list_elem_of_In. by apply (proj1 (Forall_forall _ _) Hps kc Hkc).
    + destruct its as [i|]; [|done]. by apply (Hi i eq_refl).
Qed.

(* ------------------------------------------------------------------ *)
(** ** Properties *)

(** C35: whatever the YAML library, the regular expression engine and the format parsers
    do, a schema that [CompileSchema] accepts satisfies the invariant that validation
    relies on at every node: ordered properties without duplicates, required names that
    are declared, children only under the types that have them and a well-formed default.
    An input schema has no implicitly nullable node. Resolving the file limits of a
    policy into it keeps both and gives every file leaf a limit within the policy's. *)
Theorem compiled_wf lib re yaml parse data input s :
  CompileSchema lib re yaml parse data input = Ok s ->
  schema_wf s /\ (input = true -> never_null s = true) /\
  forall max s', resolveFileLimits max s = Ok s' ->
    schema_wf s' /\ (input = true -> never_null s' = true) /\ files_limited max s' = true.
Proof.
  unfold CompileSchema. intros E. apply result_bind_Ok in E as (m & Em & E). apply decodeYAML_wf in Em.
  apply compileSchema_good in E as Hg; [|done]. destruct Hg as [H1 H2]. split; [done|]. split; [done|].
  intros max s' E'. apply (resolve_good input) in E' as [[H3 H4] H5]; [done|by split].
Qed.

(** ** Witness *)

(** [properties: {a: {type: string}}] as the YAML library presents it. *)
Definition example_scalar (v : string) : Node :=
  {| Kind := ScalarNode; Tag := lit "!!str"; Value := lit v; Alias := None; Content := [] |}.
Definition example_mapping (l : list nat) : Node :=
  {| Kind := MappingNode; Tag := lit "!!map"; Value := []; Alias := None; Content := l |}.
Definition example_graph : gmap nat Node := list_to_map
  [(0%nat, example_mapping [1%nat; 2%nat]); (1%nat, example_scalar "properties"); (2%nat, example_mapping [3%nat; 4%nat]);
   (3%nat, example_scalar "a"); (4%nat, example_mapping [5%nat; 6%nat]); (5%nat, example_scalar "type"); (6%nat, example_scalar "string")].
Definition example_regexps : regexps := {| syntax_Parse := fun _ => None; regexp_Compile := fun _ => None |}.
Definition example_scalars : scalars := {| Decode_bool := fun _ => None; Decode_int := fun _ => None |}.
Definition example_parse : bytes -> documents := fun _ => Document example_graph [0%nat].
Definition example_result : Schema := Eval vm_compute in
  match CompileSchema example_engines example_regexps example_scalars example_parse [] true with Ok s => s | Err _ => free_schema end.
Lemma example_compiled : CompileSchema example_engines example_regexps example_scalars example_parse [] true = Ok example_result.
Proof. vm_compute. reflexivity. Qed.

Lemma compiled_wf_witness : PropertyOrder (sdata example_result) = [lit "a"] /\ schema_wf example_result /\ never_null example_result = true.
Proof.
  destruct (compiled_wf example_engines example_regexps example_scalars example_parse [] true example_result example_compiled) as (H1 & H2 & _).
  split; [reflexivity|]. split; [exact H1|exact (H2 eq_refl)].
Defined.
