(* ===== verification/Conformance.v ===== *)
(** * What a schema means
    [conforms] says, without reference to the validator, which values a compiled schema
    admits; every value that [validate] returns conforms to its schema. *)
From Stdlib Require Import ZArith Lia SpecFloat.
From stdpp Require Import base list option sorting strings.
From S2P Require Import Prelude Utf8 Strconv Json JsonText Canonical GoStrings InputValue ValueFormat Schema Pointer Validation.
Local Open Scope Z_scope.

Section Spec.
Context (lib : engines) (limit : option Z).

Definition constraint (d : schema_data) (k : string) : option value := obj_lookup (lit k) (Constraints d).

(** One of the enumerated values, and the constant. *)
Definition enumerated (d : schema_data) (v : value) : Prop :=
  (forall a, constraint d "enum" = Some (VArr a) -> exists x, x ∈ a /\ equalJSON v x = true) /\
  (forall c, constraint d "const" = Some c -> equalJSON v c = true).

Definition text_admitted (d : schema_data) (s : bytes) : Prop :=
  ValidString s = true /\
  (forall n, int_constraint d "minLength" = Some n -> n <= Z.of_nat (RuneCountInString s)) /\
  (forall n, int_constraint d "maxLength" = Some n -> Z.of_nat (RuneCountInString s) <= n) /\
  (forall p, SPattern d = Some p -> MatchString p s = true) /\
  (forall f, constraint d "format" = Some (VStr f) -> Validate lib f s = Ok tt).

(** The bounds, on exact values. *)
Definition number_admitted (d : schema_data) (v : value) : Prop :=
  (forall b, constraint d "minimum" = Some b -> compareNumbers v b <> Lt) /\
  (forall b, constraint d "maximum" = Some b -> compareNumbers v b <> Gt) /\
  (forall b, constraint d "exclusiveMinimum" = Some b -> compareNumbers v b = Gt) /\
  (forall b, constraint d "exclusiveMaximum" = Some b -> compareNumbers v b = Lt).

(** The types; an empty list of types admits all of them. *)
Definition typed (d : schema_data) (t : string) : Prop := Types d = [] \/ lit t ∈ Types d.
Definition scalar_admitted (d : schema_data) (v : value) : Prop :=
  match v with
  | VBool _ => typed d "boolean"
  | VStr s => typed d "string" /\ text_admitted d s
  | VInt _ => (typed d "integer" \/ typed d "number") /\ number_admitted d v
  | VFloat _ => typed d "number" /\ number_admitted d v
  | _ => False
  end.

Definition null_admitted (d : schema_data) : Prop :=
  Nullable d = true \/ output d = false /\ typed d "null" /\ enumerated d VNull.

(** A file belongs to a request and satisfies the constraints in force. *)
Definition file_admitted (fc : FileConstraints) (f : FileValue) : Prop :=
  fv_ID f <> [] /\ fv_RequestID f <> [] /\ validate_constraints (effective fc limit) f = Ok tt.

(** Whether keys that the schema does not name may occur. *)
Definition open_object (d : schema_data) : Prop := lit "object" ∈ Types d -> AdditionalAllowed d = true.

Unset Elimination Schemes.
Inductive conforms : Schema -> value -> Prop :=
| Conforms_null s : null_admitted (sdata s) -> conforms s VNull
| Conforms_file s fc f : File (sdata s) = Some fc -> file_admitted fc f -> conforms s (VFile f)
| Conforms_scalar s v :
    File (sdata s) = None -> scalar_admitted (sdata s) v -> enumerated (sdata s) v -> conforms s v
| Conforms_array s l :
    File (sdata s) = None -> typed (sdata s) "array" -> enumerated (sdata s) (VArr l) ->
    (forall n, int_constraint (sdata s) "minItems" = Some n -> n <= Z.of_nat (length l)) ->
    (forall n, int_constraint (sdata s) "maxItems" = Some n -> Z.of_nat (length l) <= n) ->
    (forall x, x ∈ l -> conforms (default free_schema (Items s)) x) -> conforms s (VArr l)
| Conforms_object s m :
    File (sdata s) = None -> typed (sdata s) "object" -> enumerated (sdata s) (VObj m) ->
    (forall k, k ∈ Required (sdata s) -> k ∈ m.*1) ->
    (forall k c x, (k, x) ∈ m -> obj_lookup k (Properties s) = Some c -> conforms c x) ->
    (forall k x, (k, x) ∈ m -> obj_lookup k (Properties s) = None -> ValidString k = true /\ open_object (sdata s)) ->
    (forall k x, (k, x) ∈ m -> obj_lookup k (Properties s) = None -> conforms (default free_schema (Additional s)) x) ->
    conforms s (VObj m).
Set Elimination Schemes.

(* ------------------------------------------------------------------ *)
(** ** Lemmas *)

Lemma enum_admitted d v : validateEnumConst d v = Ok tt -> enumerated d v.
Proof.
  unfold validateEnumConst, enumerated, constraint. intros E. destruct (negb _) eqn:En in E; [done|]. apply negb_false_iff in En. split.
  - intros a Ha. rewrite Ha in En. apply existsb_exists in En as (x & Hx & Ex). exists x. split; [by apply list_elem_of_In|done].
  - intros c Hc. rewrite Hc in E. by destruct (equalJSON v c).
Qed.

Lemma string_admitted d x : validate_string lib d x = Ok tt -> text_admitted d x.
Proof.
  unfold validate_string, text_admitted, constraint. destruct (ValidString x); [|done]. cbn [negb].
  destruct (int_constraint d "minLength") as [lo|]; [destruct (Z.ltb_spec (Z.of_nat (RuneCountInString x)) lo); [done|]|];
    (destruct (int_constraint d "maxLength") as [hi|]; [destruct (Z.ltb_spec hi (Z.of_nat (RuneCountInString x))); [done|]|]);
    (destruct (SPattern d) as [p|]; [destruct (MatchString p x) eqn:Em; cbn [negb]; [|done]|]);
    intros E; (repeat split; [intros ? [= <-]; lia || done|intros ? [= <-]; lia || done|intros ? [= <-]; done|intros f Hf; by rewrite Hf in E]) ||
    (repeat split; intros; simplify_eq; try lia; try done; rewrite H in E; done).
Qed.

Lemma bounds_admitted d v : check_bounds d v = Ok tt -> number_admitted d v.
Proof.
  unfold check_bounds, number_admitted, constraint. destruct (forallb _ _) eqn:E; [|done]. intros _. rewrite forallb_forall in E.
  assert (forall k b, In k numeric_bounds -> obj_lookup (lit k) (Constraints d) = Some b -> bound_holds k (compareNumbers v b) = true) as H.
  { intros k b Hk Hb. specialize (E k Hk). by rewrite Hb in E. }
  repeat split; intros b Hb; eapply H in Hb; try (by cbn; auto); unfold bound_holds in Hb; cbn in Hb; by destruct (compareNumbers v b).
Qed.

Lemma type_admitted d t : type_allowed d t = true -> typed d t \/ t = "integer"%string /\ typed d "number".
Proof.
  unfold type_allowed, typed. rewrite !orb_true_iff, andb_true_iff, bool_decide_eq_true, !contains_elem.
  intros [[H|H]|[H1 H2]]; auto. apply String.eqb_eq in H1. auto.
Qed.

Lemma scalar_conforms s v t v' :
  File (sdata s) = None -> no_children v' = true -> scalar_checked lib (sdata s) v t v' -> conforms s v'.
Proof.
  intros HF Hn [Hnorm Ht Hstr Hb He]. apply Conforms_scalar; [done| |by apply enum_admitted]. apply type_admitted in Ht.
  apply normalize_cases in Hnorm as [(-> & Hj & Hne)|(_ & Hk & Hcase)].
  - destruct v; try done; injection Hj as <-; try done; cbn; destruct Ht as [Ht|[? _]]; try done. split; [done|].
    by apply string_admitted, Hstr.
  - assert (number_admitted (sdata s) v') as Hadm by (apply bounds_admitted, Hb; destruct Hcase as [(-> & _)|(-> & _)]; auto).
    destruct Hcase as [(-> & _ & n & _ & ->)|(-> & _)].
    + split; [|done]. by destruct Ht as [Ht|[_ Ht]]; auto.
    + destruct Ht as [Ht|[? _]]; [|done]. destruct Hk as [[n ->]|[f ->]]; cbn; auto.
Qed.

Lemma free_conforms v : forall v', wf_value v -> free v = Ok v' -> conforms free_schema v'.
Proof.
  assert (forall t, typed free_data t) as Hty by (by left).
  assert (forall v, enumerated free_data v) as Hen by (by split).
  assert (forall v, number_admitted free_data v) as Hnum by (by repeat split).
  induction v as [|b|s|n|t|f|l IH|m IH|f] using value_ind; intros v' Hwf E; apply free_kind in E as Hk; cbn in Hk.
  - subst. apply Conforms_null. by left.
  - subst. by apply Conforms_scalar; [|apply Hty|].
  - destruct Hk as [-> Hs]. apply Conforms_scalar; [done|split; [apply Hty|by split]|done].
  - subst. apply Conforms_scalar; [done|split; [left; apply Hty|done]|done].
  - apply validate_float_scalar in Hk as [[n ->]|[f ->]]; (apply Conforms_scalar; [done| |done]); split; auto.
  - apply validate_float_scalar in Hk as [[n ->]|[g ->]]; (apply Conforms_scalar; [done| |done]); split; auto.
  - destruct Hk as (a & -> & Hall). inversion_clear Hwf as [| | | | | | |? Hl|]. apply Conforms_array; try done.
    intros x Hx. apply list_elem_of_lookup in Hx as (i & Hi). destruct (Forall2_lookup_r _ _ _ _ _ Hall Hi) as (y & Hy & Ey).
    apply list_elem_of_lookup_2 in Hy. cbn. eapply (proj1 (Forall_forall _ _) IH y Hy); [|exact Ey]. by apply (proj1 (Forall_forall _ _) Hl).
  - destruct Hk as [o ->]. inversion_clear Hwf as [| | | | | | | |? Hm Hv]. destruct (free_obj m o E Hm) as (_ & Hall & Hkeys).
    assert (forall k x, (k, x) ∈ o -> exists y, (k, y) ∈ m /\ free y = Ok x) as Ho.
    { intros k x Hx. apply list_elem_of_lookup in Hx as (i & Hi). destruct (Forall2_lookup_r _ _ _ _ _ Hall Hi) as ([k' y] & Hy & Ek & Ey).
      cbn in Ek, Ey. subst k'. exists y. split; [by eapply list_elem_of_lookup_2|done]. }
    apply Conforms_object; try done; [by intros k ?%elem_of_nil| |].
    + intros k x Hx _. destruct (Ho k x Hx) as (y & Hy & _). split; [|by intros ?%elem_of_nil]. rewrite forallb_forall in Hkeys.
      apply list_elem_of_In in Hy. by apply (Hkeys (k, y)).
    + intros k x Hx _. destruct (Ho k x Hx) as (y & Hy & Ey). cbn. eapply (proj1 (Forall_forall _ _) IH (k, y) Hy); [|exact Ey].
      by apply (proj1 (Forall_forall _ _) Hv (k, y)).
  - done.
Qed.

(** What validation is to show of a schema and a value. *)
Definition conforming (s : Schema) (v : value) (p : bytes) (v' : value) (new : list FileLeaf) : Prop :=
  schema_wf s -> wf_value v -> conforms s v'.

Lemma array_conforms s x p es :
  File (sdata s) = None -> array_checked conforming s x p es -> conforming s (VArr x) p (VArr (e_value <$> es)) (entries_leaves es).
Proof.
  intros HF [Hmin Hmax Hlen Hes Ht He] Hs Hx. inversion_clear Hx as [| | | | | | |? Hvals|].
  apply type_admitted in Ht as [Ht|[? _]]; [|done].
  apply Conforms_array; [done|done|by apply enum_admitted|by rewrite length_fmap, Hlen|by rewrite length_fmap, Hlen|].
  intros y Hy. apply list_elem_of_fmap in Hy as (e & -> & Hin). apply list_elem_of_lookup in Hin as (n & Hn).
  destruct (x !! n) as [v|] eqn:Ev; [|apply lookup_ge_None in Ev; apply lookup_lt_Some in Hn; lia].
  apply (Hes n v e Ev Hn); [by apply items_wf|]. apply (proj1 (Forall_forall _ _) Hvals). by eapply list_elem_of_lookup_2.
Qed.

Lemma object_conforms defaults s x p es es' :
  File (sdata s) = None -> object_checked defaults conforming s x p es es' ->
  conforming s (VObj x) p (VObj (obj_of_list (entry_pair <$> (es ++ es')))) (entries_leaves (es ++ es')).
Proof.
  intros HF Hoc Hs Hx. inversion Hx as [| | | | | | | |? Hsorted Hvals]; subst.
  pose proof (entries_NoDup _ _ _ _ _ _ _ Hs Hsorted Hoc) as Hnd. apply obj_of_list_perm in Hnd as Hperm.
  destruct Hoc as [Hkeys Hsub Hes Hmiss Hadd Ht He]. apply type_admitted in Ht as [Ht|[? _]]; [|done].
  assert (forall k v, (k, v) ∈ obj_of_list (entry_pair <$> (es ++ es')) ->
    (exists c w q new, obj_lookup k (Properties s) = Some c /\ property_source defaults c x k = Some w /\ conforming c w q v new) \/
    (exists w q new, obj_lookup k (Properties s) = None /\ (k, w) ∈ x /\ conforming (default free_schema (Additional s)) w q v new)) as Hcases.
  { intros k v Hin. rewrite Hperm in Hin. apply list_elem_of_fmap in Hin as (e & [= -> ->] & Hin). apply elem_of_app in Hin as [Hin|Hin].
    - left. rewrite Forall_forall in Hes. destruct (Hes e Hin) as (c & w & Hc & Hsrc & HQ). eauto 10.
    - right. apply list_elem_of_lookup in Hin as (i & Hi). destruct (Forall2_lookup_r _ _ _ _ _ Hadd Hi) as ([k w] & Hkv & Hkey & HQ).
      apply list_elem_of_lookup_2, list_elem_of_filter in Hkv as [Hd Hin]. cbn in *. subst k. unfold declared in Hd.
      destruct (obj_lookup (e_key e) (Properties s)); [done|]. eauto 10. }
  unfold check_keys in Hkeys. destruct (forallb _ x) eqn:Hv in Hkeys; [|done]. destruct (existsb _ x) eqn:Hu in Hkeys; [done|].
  apply Conforms_object; [done|done|by apply enum_admitted| | | |].
  - intros k Hk. assert ((obj_of_list (entry_pair <$> (es ++ es'))).*1 ≡ₚ (entry_pair <$> (es ++ es')).*1) as -> by (by rewrite Hperm).
    rewrite <- list_fmap_compose. apply list_elem_of_fmap. assert (k ∈ PropertyOrder (sdata s)) as Ho.
    { destruct Hs as [d props items additional Hd]. by apply (wf_required _ _ _ Hd). }
    destruct (decide (k ∈ e_key <$> es)) as [Hin|Hn]; [|by destruct (Hmiss k Ho Hn)].
    apply list_elem_of_fmap in Hin as (e & -> & Hin). exists e. split; [done|]. apply elem_of_app. by left.
  - intros k c v Hin Hc. destruct (Hcases k v Hin) as [(c' & w & q & new & Hc' & Hsrc & HQ)|(w & q & new & Hc' & _)]; [|congruence].
    rewrite Hc in Hc'. injection Hc' as <-. assert (schema_wf c) as Hcw by (by eapply child_wf). apply HQ; [done|by eapply source_wf].
  - intros k v Hin Hc. destruct (Hcases k v Hin) as [(c' & w & q & new & Hc' & _)|(w & q & new & _ & Hw & _)]; [congruence|]. split.
    + rewrite forallb_forall in Hv. apply list_elem_of_In in Hw. by apply (Hv (k, w)).
    + intros Hobj. apply contains_elem in Hobj. destruct (AdditionalAllowed (sdata s)) eqn:Ea; [done|].
      assert (existsb (fun kv => negb (declared (Properties s) kv.1) && contains (Types (sdata s)) (lit "object") && negb (AdditionalAllowed (sdata s))) x = true) as Hex.
      { apply existsb_exists. exists (k, w). split; [by apply list_elem_of_In|]. unfold declared. cbn [fst]. by rewrite Hc, Hobj, Ea. }
      rewrite Ea in Hex. congruence.
  - intros k v Hin Hc. destruct (Hcases k v Hin) as [(c' & w & q & new & Hc' & _)|(w & q & new & _ & Hw & HQ)]; [congruence|].
    apply HQ; [by apply additional_wf|]. by apply (proj1 (Forall_forall _ _) Hvals (k, w)).
Qed.

(** Every value that validation returns conforms to the schema. *)
Lemma validate_conforms defaults s v p lv v' lv' :
  validate lib defaults limit s v p lv = Ok (v', lv') -> schema_wf s -> wf_value v -> conforms s v'.
Proof.
  intros E. apply (validation_rule lib defaults limit conforming) in E as (new & _ & H); [exact H| | | | | |].
  - intros w q w' Ef _ Hw. by eapply free_conforms.
  - intros c q E0 _ _. apply Conforms_null. unfold validate_null in E0. destruct (Nullable (sdata c)) eqn:En; [by left|].
    destruct (output (sdata c)) eqn:Eo; [done|]. destruct (_ && _) eqn:Et in E0; [done|]. apply result_bind_Ok in E0 as ([] & Ee & _).
    right. split; [done|]. split; [|by apply enum_admitted]. unfold typed. apply andb_false_iff in Et as [Et|Et].
    + left. apply negb_false_iff in Et. by apply bool_decide_eq_true in Et.
    + right. apply negb_false_iff in Et. by apply contains_elem.
  - intros c fc f q w' leaves HF E0 _ _. unfold validate_file in E0. destruct (_ || _) eqn:Eo in E0; [done|]. destruct (negb _); [done|].
    apply result_bind_Ok in E0 as ([] & Ec & E0). apply Ok_inj in E0. injection E0 as <- _. apply orb_false_iff in Eo as [E1 E2].
    apply bytes_eqb_false in E1, E2. by eapply Conforms_file.
  - intros c w q t w' HF Hn Hsc _ _. by eapply scalar_conforms.
  - intros c x q es es' HF Hoc. by eapply object_conforms.
  - intros c x q es HF Hac. by eapply array_conforms.
Qed.
End Spec.

(* ------------------------------------------------------------------ *)
(** ** Properties *)

(** C4: an accepted input conforms to the compiled schema: the normalised arguments satisfy every
    constraint the schema states (types, required and undeclared properties, enumerations and
    constants, numeric bounds, lengths, patterns, formats, and the limits on file leaves), with
    the defaults filled in, and they are again within the limits on bytes, nesting and values. *)
Theorem input_conforms lib s input l m fs :
  ValidateInput lib s input l = Ok (m, fs) -> schema_wf s -> wf_value (VObj input) ->
  conforms lib (Some (MaxFileBytes l)) s (VObj m) /\ checkJSONLimits (VObj m) l = Ok tt.
Proof.
  intros E Hs Hv. apply ValidateInput_inv in E as (_ & E & _ & _ & El). split; [|done]. by eapply validate_conforms.
Qed.

(** ** Witness *)

Lemma input_conforms_witness : exists m fs,
  ValidateInput example_engines example_schema example_input example_limits = Ok (m, fs) /\
  conforms example_engines (Some 100) example_schema (VObj m).
Proof.
  eexists _, _. split; [vm_compute; reflexivity|].
  eapply (input_conforms example_engines example_schema example_input example_limits).
  - vm_compute. reflexivity.
  - apply example_wf.
  - apply example_input_wf.
Defined.
