(* ===== verification/CsvText.v ===== *)
(** * CSV text ([contract/csv_output.go], [agent/csv_parser.go])
    The records that [WriteCSV] writes, over a model of [encoding/csv]'s writer and of the
    4096-byte buffer in front of [csvTerminatorWriter], and the strict reader of the CSV
    provider. The Shift_JIS table of [golang.org/x/text] is the argument [sjis]: the rune
    of a pair of bytes, or nothing. A destination is a function on a state of its own, so
    that it may fail or write short at any call. *)
From Stdlib Require Import ZArith Lia.
From stdpp Require Import base list option strings.
From S2P Require Import Prelude Utf8 GoStrings.
Local Open Scope Z_scope.

(** ** Reading characters *)

Record csvCharacters := {
  c_input : bytes;               (* what the buffered reader has left *)
  c_encoding : bytes;
  c_cancel : option nat          (* calls of [next] before the context is done *)
}.
Definition set_input (c : csvCharacters) (s : bytes) : csvCharacters :=
  {| c_input := s; c_encoding := c_encoding c; c_cancel := Nat.pred <$> c_cancel c |}.

Section Characters.
Context (sjis : Z -> Z -> option Z).

(** The code points that CP932 and JIS X 0208 assign differently. *)
Definition shift_jis_rune (b trail r : Z) : Z :=
  let pair := b * 256 + trail in
  if pair =? 33120 then 12316 else if pair =? 33121 then 8214 else if pair =? 33148 then 8722
  else if pair =? 33169 then 162 else if pair =? 33170 then 163 else if pair =? 33226 then 172 else r.

(** A character of an encoding other than UTF-8, from its first byte, with the bytes after it. *)
Definition next_double (encoding : bytes) (b : Z) (s : bytes) : result Z * bytes :=
  let cp932 := bytes_eqb encoding (lit "cp932") in
  let shift_jis := bytes_eqb encoding (lit "shift_jis") in
  if b <? 128 then (Ok b, s)
  else if (161 <=? b) && (b <=? 223) then (Ok (b + 65377 - 161), s)
  else if cp932 && (b =? 128) then (Ok 128, s)
  else if cp932 && (b =? 160) then (Ok 63728, s)
  else if cp932 && (253 <=? b) then (Ok (63729 + (b - 253)), s)
  else if negb (((129 <=? b) && (b <=? 159)) || ((224 <=? b) && (b <=? 252))) || (shift_jis && ((b =? 135) || (234 <? b)))
  then (Err "invalid CSV encoding lead", s)
  else match s with
  | [] => (Err "unexpected EOF", s)
  | trail :: s =>
      if (trail <? 64) || (trail =? 127) || (252 <? trail) then (Err "invalid CSV encoding trail", s)
      else if (240 <=? b) && (b <=? 249)
      then (Ok (57344 + (b - 240) * 188 + (if 128 <=? trail then trail - 64 - 1 else trail - 64)), s)
      else match sjis b trail with
      | None => (Err "invalid CSV encoding pair", s)
      | Some r =>
          if r =? runeError then (Err "unassigned CSV encoding pair", s)
          else (Ok (if shift_jis then shift_jis_rune b trail r else r), s)
      end
  end.

(** [next]: a character, or [None] at the end of the input. *)
Definition next (c : csvCharacters) : csvCharacters * result (option Z) :=
  match c_cancel c with
  | Some O => (c, Err "context canceled")
  | _ =>
      match c_input c with
      | [] => (set_input c [], Ok None)
      | b :: s =>
          if bytes_eqb (c_encoding c) (lit "utf-8") then
            let '(r, n) := DecodeRune (b :: s) in
            let c := set_input c (drop n (b :: s)) in
            if (r =? runeError) && (n =? 1)%nat then (c, Err "invalid UTF-8 CSV") else (c, Ok (Some r))
          else
            let '(r, s) := next_double (c_encoding c) b s in
            (set_input c s, let* r := r in Ok (Some r))
      end
  end.

(** ** Reading records *)

(** The states 0 to 3 of a field: empty so far, inside quotes, after a quote that ends it
    or starts a doubled one, and unquoted. *)
Inductive field_state := FieldStart | InQuotes | AfterQuote | Unquoted.
#[export] Instance field_state_eq_dec : EqDecision field_state.
Proof. solve_decision. Defined.

(** [string(value)]. *)
Definition rune_string (value : list Z) : bytes := concat (EncodeRune <$> value).

(** [read]: one record, or [None] at the end of the input. A blank line starts the
    record anew. Every round takes a character, so that one round more than there are
    bytes is enough ([csv_read_fuel]). *)
Fixpoint read_record (delimiter : Z) (fuel : nat) (c : csvCharacters) (fields : list bytes) (value : list Z)
    (state : field_state) (started : bool) : csvCharacters * result (option (list bytes)) :=
  match fuel with
  | O => (c, Err "out of fuel")
  | S fuel =>
      let finish := fields ++ [rune_string value] in
      let '(c, r) := next c in
      match r with
      | Err e => (c, Err e)
      | Ok None =>
          if decide (state = InQuotes) then (c, Err "unterminated CSV quote")
          else if negb started then (c, Ok None)
          else (c, Ok (Some finish))
      | Ok (Some r) =>
          if decide (state = InQuotes) then
            if r =? 34 then read_record delimiter fuel c fields value AfterQuote started
            else read_record delimiter fuel c fields (value ++ [r]) InQuotes started
          else if bool_decide (state = AfterQuote) && (r =? 34)
          then read_record delimiter fuel c fields (value ++ [r]) InQuotes started
          else if r =? delimiter then read_record delimiter fuel c finish [] FieldStart true
          else if (r =? 10) || (r =? 13) then
            let '(c, cr) := (if r =? 13 then
              let '(c, n) := next c in
              (c, match n with
                  | Err e => Err e
                  | Ok (Some n) => if n =? 10 then Ok tt else Err "bare CR outside quoted CSV field"
                  | Ok None => Err "bare CR outside quoted CSV field"
                  end)
              else (c, Ok tt)) in
            match cr with
            | Err e => (c, Err e)
            | Ok _ => if negb started then read_record delimiter fuel c [] [] FieldStart false else (c, Ok (Some finish))
            end
          else if decide (state = AfterQuote) then (c, Err "unexpected character after CSV quote")
          else if r =? 34 then
            if bool_decide (state <> FieldStart) then (c, Err "quote in unquoted CSV field")
            else read_record delimiter fuel c fields value InQuotes true
          else read_record delimiter fuel c fields (value ++ [r]) Unquoted true
      end
  end.
Definition csv_read (delimiter : Z) (c : csvCharacters) : csvCharacters * result (option (list bytes)) :=
  read_record delimiter (S (length (c_input c))) c [] [] FieldStart false.

(** The records up to the end of the input, as the provider's loop reads them. *)
Fixpoint read_all (delimiter : Z) (fuel : nat) (c : csvCharacters) : result (list (list bytes)) :=
  match fuel with
  | O => Err "out of fuel"
  | S fuel =>
      let '(c, r) := csv_read delimiter c in
      match r with
      | Err e => Err e
      | Ok None => Ok []
      | Ok (Some record) => let* l := read_all delimiter fuel c in Ok (record :: l)
      end
  end.
End Characters.

(** ** Writing records *)

(** [unicode.IsSpace]. *)
Definition IsSpace (r : Z) : bool :=
  ((9 <=? r) && (r <=? 13)) || (r =? 32) || (r =? 133) || (r =? 160) || (r =? 5760) ||
  ((8192 <=? r) && (r <=? 8202)) || (r =? 8232) || (r =? 8233) || (r =? 8239) || (r =? 8287) || (r =? 12288).

(** [csv.Writer.fieldNeedsQuotes] and the quoting of a field, for a comma. *)
Definition special (c : Z) : bool := (c =? 10) || (c =? 13) || (c =? 34) || (c =? 44).
Definition fieldNeedsQuotes (field : bytes) : bool :=
  if bytes_eqb field [] then false
  else if bytes_eqb field [92; 46] then true
  else existsb special field || IsSpace (DecodeRune field).1.
Definition csv_field (field : bytes) : bytes :=
  if fieldNeedsQuotes field then 34 :: concat ((fun c => if c =? 34 then [34; 34] else [c]) <$> field) ++ [34] else field.

(** The text of a record as [csv.Writer] ends it. *)
Fixpoint csv_fields (record : list bytes) : bytes :=
  match record with
  | [] => []
  | [f] => csv_field f
  | f :: r => csv_field f ++ 44 :: csv_fields r
  end.
Definition csv_record (record : list bytes) : bytes := csv_fields record ++ [10].

(** [bufio.Writer]: full buffers, and what [Flush] finds at the end. *)
Fixpoint buffers (fuel : nat) (s : bytes) : list bytes :=
  match fuel, s with
  | S fuel, _ :: _ => take 4096 s :: buffers fuel (drop 4096 s)
  | _, _ => []
  end.
Definition bufio_writes (s : bytes) : list bytes := buffers (length s) s.

Section Writer.
(** [io.Writer]: the new state, the count and the error. *)
Context {W : Type} (dest : W -> bytes -> W * Z * option string).

Record csvTerminatorWriter := { t_last : Z; t_pending : bool }.

(** [csvTerminatorWriter.Write]. *)
Definition terminator_write (w : W) (t : csvTerminatorWriter) (p : bytes) : W * csvTerminatorWriter * Z * option string :=
  match p with
  | [] => (w, t, 0, None)
  | _ :: _ =>
      let held := (if t_pending t then
        let '(w, n, e) := dest w [t_last t] in
        (w, match e with Some e => Some e | None => if n =? 1 then None else Some "short write"%string end)
        else (w, None)) in
      match held with
      | (w, Some e) => (w, t, 0, Some e)
      | (w, None) =>
          let body := take (length p - 1) p in
          let '(w, n, e) := dest w body in
          match e with
          | Some e => (w, t, n, Some e)
          | None =>
              if negb (n =? Z.of_nat (length body)) then (w, t, n, Some "short write"%string)
              else (w, {| t_last := byte_at p (length p - 1); t_pending := true |}, Z.of_nat (length p), None)
          end
      end
  end.

(** The buffer's flushes, until one fails. *)
Fixpoint flush_all (w : W) (t : csvTerminatorWriter) (l : list bytes) : W * csvTerminatorWriter * option string :=
  match l with
  | [] => (w, t, None)
  | p :: l =>
      let '(w, t, n, e) := terminator_write w t p in
      match e with
      | Some e => (w, t, Some e)
      | None => if n <? Z.of_nat (length p) then (w, t, Some "short write"%string) else flush_all w t l
      end
  end.

(** [csvTerminatorWriter.finish]. *)
Definition terminator_finish (w : W) (t : csvTerminatorWriter) : W * option string :=
  if negb (t_pending t) || negb (t_last t =? 10) then (w, Some "CSV record termination is invalid"%string) else
  let '(w, n, e) := dest w [13; 10] in
  (w, match e with Some e => Some e | None => if n =? 2 then None else Some "short write"%string end).

(** [writeRecord]. *)
Definition writeRecord (w : W) (record : list bytes) : W * option string :=
  let '(w, t, e) := flush_all w {| t_last := 0; t_pending := false |} (bufio_writes (csv_record record)) in
  match e with
  | Some e => (w, Some e)
  | None => terminator_finish w t
  end.
Fixpoint write_records (w : W) (l : list (list bytes)) : W * option string :=
  match l with
  | [] => (w, None)
  | r :: l => match writeRecord w r with (w, Some e) => (w, Some e) | (w, None) => write_records w l end
  end.
End Writer.

(** ** Formulas *)

(** [strings.TrimLeftFunc(v, unicode.IsSpace)]. *)
Fixpoint trim_space (fuel : nat) (v : bytes) : bytes :=
  match fuel, v with
  | S fuel, _ :: _ => let '(r, n) := DecodeRune v in if IsSpace r then trim_space fuel (drop n v) else v
  | _, _ => v
  end.
Definition trimmed (v : bytes) : bytes := trim_space (length v) v.
Definition leading (v : bytes) : bytes := take (length v - length (trimmed v)) v.

Definition formula_char (c : Z) : bool := (c =? 61) || (c =? 43) || (c =? 45) || (c =? 64).
Definition escapeFormula (v : bytes) : bytes :=
  if existsb (fun c => (c =? 9) || (c =? 13)) (leading v) ||
     match trimmed v with c :: _ => formula_char c | [] => false end
  then 39 :: v else v.

(* ------------------------------------------------------------------ *)
(** ** Lemmas on reading *)

Section Reading.
Context (sjis : Z -> Z -> option Z).

Lemma next_double_shrinks encoding b s : (length (next_double sjis encoding b s).2 <= length s)%nat.
Proof. unfold next_double. destruct s as [|t s]; repeat case_match; simpl; lia. Qed.

(** A character takes at least a byte. *)
Lemma next_shrinks c c' r : next sjis c = (c', Ok (Some r)) -> (length (c_input c') < length (c_input c))%nat.
Proof.
  unfold next. intros E. destruct (c_input c) as [|b s]; [by destruct (c_cancel c) as [[|n]|]|].
  assert (c_cancel c <> Some O) as Hc by (intros Hc; by rewrite Hc in E).
  assert ((if bytes_eqb (c_encoding c) (lit "utf-8") then
    let '(r, n) := DecodeRune (b :: s) in
    let c := set_input c (drop n (b :: s)) in
    if (r =? runeError) && (n =? 1)%nat then (c, Err "invalid UTF-8 CSV") else (c, Ok (Some r))
    else let '(r, s) := next_double sjis (c_encoding c) b s in (set_input c s, let* r := r in Ok (Some r))) = (c', Ok (Some r))) as E'
    by (destruct (c_cancel c) as [[|n]|]; done).
  clear E. destruct (bytes_eqb _ _).
  - pose proof (DecodeRune_width (b :: s) ltac:(done)) as Hw. destruct (DecodeRune (b :: s)) as [r' n]. cbn [snd] in Hw.
    destruct (_ && _); [done|]. injection E' as <- _. cbn [c_input set_input]. rewrite length_drop. simpl in *. lia.
  - pose proof (next_double_shrinks (c_encoding c) b s) as Hn. destruct (next_double _ _ _ _) as [d s']. injection E' as <- _. simpl in *. lia.
Qed.

Lemma next_double_error encoding b s e : (next_double sjis encoding b s).1 = Err e -> e <> "out of fuel"%string.
Proof. unfold next_double. destruct s; repeat case_match; intros [= <-]; done. Qed.
Lemma next_error c c' e : next sjis c = (c', Err e) -> e <> "out of fuel"%string.
Proof.
  unfold next. intros E. destruct (c_cancel c) as [[|n]|]; [by simplify_eq| |];
    (destruct (c_input c) as [|b s]; [done|]; destruct (bytes_eqb _ _);
    [destruct (DecodeRune (b :: s)); destruct (_ && _); by simplify_eq|
     pose proof (next_double_error (c_encoding c) b s) as He; destruct (next_double _ _ _ _) as [[r|e'] s']; cbn in E; simplify_eq; by apply He]).
Qed.

(** One round more than there are bytes is enough. *)
Lemma csv_read_fuel delimiter fuel c fields value state started :
  (length (c_input c) < fuel)%nat -> (read_record sjis delimiter fuel c fields value state started).2 <> Err "out of fuel".
Proof.
  revert c fields value state started. induction fuel as [|fuel IH]; intros c fields value state started Hf; [lia|].
  cbn [read_record]. destruct (next sjis c) as [c1 r] eqn:E.
  destruct r as [[r|]|e]; [|by repeat case_match|apply next_error in E; cbn; congruence].
  apply next_shrinks in E as Hs. assert (length (c_input c1) < fuel)%nat as Hl by lia.
  case_decide; [case_match; by apply IH|]. case_match; [by apply IH|]. case_match; [by apply IH|].
  destruct ((r =? 10) || (r =? 13)); [|repeat case_match; try done; by apply IH].
  destruct (r =? 13).
  - destruct (next sjis c1) as [c2 [[n|]|e]] eqn:E2; cbn; [|done|apply next_error in E2; congruence].
    destruct (n =? 10); [|done]. apply next_shrinks in E2. destruct started; [done|]. cbn. apply IH. lia.
  - destruct started; [done|]. cbn. by apply IH.
Qed.

(** *** Reading UTF-8 without cancellation *)

Definition utf8_chars (s : bytes) : csvCharacters := {| c_input := s; c_encoding := lit "utf-8"; c_cancel := None |}.

Lemma next_rune r s : valid_rune r = true -> next sjis (utf8_chars (EncodeRune r ++ s)) = (utf8_chars s, Ok (Some r)).
Proof.
  intros Hr. unfold next. cbn [c_cancel c_input c_encoding utf8_chars]. destruct (EncodeRune r ++ s) as [|b t] eqn:E.
  - apply app_eq_nil in E as [E _]. by apply EncodeRune_nonempty in E.
  - rewrite bytes_eqb_refl, <- E, (decode_encode_rune r s Hr), drop_app_length. pose proof (encoded_not_bad r Hr) as Hb.
    unfold bad_rune in Hb. cbn [fst snd] in Hb. by rewrite Hb.
Qed.

(** A plain character of an unquoted field. *)
Definition plain_char (r : Z) : bool := valid_rune r && negb (special r).

Lemma plain_char_spec r : plain_char r = true -> valid_rune r = true /\ r <> 10 /\ r <> 13 /\ r <> 34 /\ r <> 44.
Proof. unfold plain_char, special. rewrite andb_true_iff, negb_true_iff, !orb_false_iff, !Z.eqb_neq. tauto. Qed.

(** The reader has enough fuel, which it keeps as it goes on. *)
Definition read_from (fuel : nat) (s : bytes) fields value state started :=
  read_record sjis 44 fuel (utf8_chars s) fields value state started.

Lemma length_encode r : (1 <= length (EncodeRune r))%nat.
Proof. pose proof (EncodeRune_nonempty r). destruct (EncodeRune r); [done|simpl; lia]. Qed.

Lemma read_plain rs : forall fuel s fields value state started,
  Forall (fun r => plain_char r = true) rs -> state = FieldStart \/ state = Unquoted ->
  (length (rune_string rs ++ s) < fuel)%nat ->
  exists fuel', (length s < fuel')%nat /\
  read_from fuel (rune_string rs ++ s) fields value state started =
  read_from fuel' s fields (value ++ rs) (match rs with [] => state | _ => Unquoted end) (match rs with [] => started | _ => true end).
Proof.
  induction rs as [|r rs IH]; intros fuel s fields value state started Hrs Hstate Hf.
  - exists fuel. rewrite app_nil_r. done.
  - apply Forall_cons in Hrs as [Hr Hrs]. apply plain_char_spec in Hr as (Hv & H1 & H2 & H3 & H4).
    unfold rune_string in *. rewrite fmap_cons in *. cbn [concat] in *. rewrite <- app_assoc in *.
    pose proof (length_encode r). rewrite length_app in Hf. destruct fuel as [|fuel]; [lia|].
    edestruct (IH fuel s fields (value ++ [r]) Unquoted true) as (fuel' & Hf' & E); [done|by right|lia|].
    exists fuel'. split; [done|]. rewrite <- app_assoc in E. cbn in E.
    unfold read_from in *. cbn [read_record]. rewrite next_rune by done.
    rewrite decide_False by (by destruct Hstate as [-> | ->]).
    rewrite bool_decide_false by (by destruct Hstate as [-> | ->]). cbn [andb].
    rewrite !(proj2 (Z.eqb_neq _ _)) by done. cbn [orb]. rewrite decide_False by (by destruct Hstate as [-> | ->]).
    rewrite E. by destruct rs.
Qed.

(** The bytes between the quotes of a field. *)
Definition doubled (field : bytes) : bytes := concat ((fun c => if c =? 34 then [34; 34] else [c]) <$> field).

Lemma encode_bytes r : valid_rune r = true ->
  (0 <= r < 128 /\ EncodeRune r = [r]) \/ (128 <= r /\ Forall (fun c => 128 <= c) (EncodeRune r)).
Proof.
  intros Hv. unfold EncodeRune. rewrite Hv. destruct (Z.ltb_spec r 128).
  - left. split; [|done]. unfold valid_rune in Hv. lia.
  - right. split; [done|]. destruct (Z.ltb_spec r 2048); [|destruct (Z.ltb_spec r 65536)];
      repeat (apply Forall_cons_2; [Z.to_euclidean_division_equations; lia|]); apply Forall_nil_2.
Qed.
Lemma doubled_app a b : doubled (a ++ b) = doubled a ++ doubled b.
Proof. unfold doubled. by rewrite fmap_app, concat_app. Qed.
Lemma doubled_rune r : valid_rune r = true -> doubled (EncodeRune r) = if r =? 34 then [34; 34] else EncodeRune r.
Proof.
  intros Hv. destruct (encode_bytes r Hv) as [[_ ->]|[Hr H]].
  - unfold doubled. cbn. by destruct (r =? 34).
  - rewrite (proj2 (Z.eqb_neq r 34)) by lia. unfold doubled. induction H as [|c l Hc _ IH]; [done|].
    rewrite fmap_cons. cbn [concat]. by rewrite IH, (proj2 (Z.eqb_neq c 34)) by lia.
Qed.

Lemma read_quote fuel (s : bytes) fields value state started :
  (S (length s) < fuel)%nat ->
  (state = FieldStart -> exists fuel', (length s < fuel')%nat /\ read_from fuel (34 :: s) fields value state started = read_from fuel' s fields value InQuotes true) /\
  (state = InQuotes -> exists fuel', (length s < fuel')%nat /\ read_from fuel (34 :: s) fields value state started = read_from fuel' s fields value AfterQuote started) /\
  (state = AfterQuote -> exists fuel', (length s < fuel')%nat /\ read_from fuel (34 :: s) fields value state started = read_from fuel' s fields (value ++ [34]) InQuotes started).
Proof.
  intros Hf. destruct fuel as [|fuel]; [lia|]. cbn in Hf. unfold read_from. cbn [read_record]. change (34 :: s) with (EncodeRune 34 ++ s).
  rewrite next_rune by done. split; [|split]; intros ->; exists fuel; (split; [lia|]); done.
Qed.

Lemma read_quoted rs : forall fuel s fields value started,
  Forall (fun r => valid_rune r = true) rs -> (length (doubled (rune_string rs) ++ s) < fuel)%nat ->
  exists fuel', (length s < fuel')%nat /\
  read_from fuel (doubled (rune_string rs) ++ s) fields value InQuotes started = read_from fuel' s fields (value ++ rs) InQuotes started.
Proof.
  induction rs as [|r rs IH]; intros fuel s fields value started Hrs Hf.
  - exists fuel. by rewrite app_nil_r.
  - apply Forall_cons in Hrs as [Hr Hrs]. unfold rune_string in *. rewrite fmap_cons in *. cbn [concat] in *.
    rewrite doubled_app, doubled_rune in * by done. rewrite <- app_assoc in *. destruct (Z.eqb_spec r 34) as [->|Hne].
    + cbn [app] in *. destruct (read_quote fuel (34 :: doubled (concat (EncodeRune <$> rs)) ++ s) fields value InQuotes started) as (_ & H1 & _); [done|].
      destruct (H1 eq_refl) as (f1 & Hf1 & E1).
      destruct (read_quote f1 (doubled (concat (EncodeRune <$> rs)) ++ s) fields value AfterQuote started) as (_ & _ & H2); [done|].
      destruct (H2 eq_refl) as (f2 & Hf2 & E2). destruct (IH f2 s fields (value ++ [34]) started) as (f3 & Hf3 & E3); [done|done|].
      exists f3. rewrite <- app_assoc in E3. split; [done|]. by rewrite E1, E2, E3.
    + pose proof (length_encode r). rewrite length_app in Hf. destruct fuel as [|fuel]; [lia|].
      destruct (IH fuel s fields (value ++ [r]) started) as (f & Hf' & E); [done|lia|]. exists f. split; [done|].
      rewrite <- app_assoc in E. cbn in E. rewrite <- E. unfold read_from. cbn [read_record]. rewrite next_rune by done.
      rewrite decide_True by done. by rewrite (proj2 (Z.eqb_neq r 34)).
Qed.

Lemma existsb_special rs : Forall (fun r => valid_rune r = true) rs -> existsb special (rune_string rs) = false ->
  Forall (fun r => plain_char r = true) rs.
Proof.
  unfold rune_string. induction 1 as [|r rs Hr _ IH]; [constructor|]. rewrite fmap_cons. cbn [concat]. rewrite existsb_app, orb_false_iff.
  intros [H1 H2]. constructor; [|by apply IH]. unfold plain_char. rewrite Hr. cbn. destruct (encode_bytes r Hr) as [[_ E]|[Hge _]].
  - rewrite E in H1. cbn in H1. by rewrite orb_false_r in H1; rewrite H1.
  - unfold special. rewrite !(proj2 (Z.eqb_neq _ _)) by lia. done.
Qed.

Lemma read_field rs fuel s fields started :
  Forall (fun r => valid_rune r = true) rs -> (length (csv_field (rune_string rs) ++ s) < fuel)%nat ->
  exists fuel' state started', (length s < fuel')%nat /\ state <> InQuotes /\ (started' = started \/ started' = true) /\
  (rune_string rs <> [] -> started' = true) /\
  read_from fuel (csv_field (rune_string rs) ++ s) fields [] FieldStart started = read_from fuel' s fields rs state started'.
Proof.
  intros Hrs Hf. unfold csv_field in *. destruct (fieldNeedsQuotes (rune_string rs)) eqn:Eq.
  - fold (doubled (rune_string rs)) in *. cbn [app] in *. rewrite <- app_assoc in *. cbn [app] in *.
    destruct (read_quote fuel (doubled (rune_string rs) ++ 34 :: s) fields [] FieldStart started) as (H1 & _ & _); [done|].
    destruct (H1 eq_refl) as (f1 & Hf1 & E1). destruct (read_quoted rs f1 (34 :: s) fields [] true) as (f2 & Hf2 & E2); [done|done|].
    destruct (read_quote f2 s fields ([] ++ rs) InQuotes true) as (_ & H3 & _); [done|]. destruct (H3 eq_refl) as (f3 & Hf3 & E3).
    exists f3, AfterQuote, true. rewrite E1, E2, E3. repeat split; auto; done.
  - assert (existsb special (rune_string rs) = false) as Hsp.
    { unfold fieldNeedsQuotes in Eq. destruct (bytes_eqb (rune_string rs) []) eqn:E; [apply bytes_eqb_true in E; by rewrite E|].
      destruct (bytes_eqb (rune_string rs) [92; 46]); [done|]. by apply orb_false_iff in Eq as [? _]. }
    destruct (read_plain rs fuel s fields [] FieldStart started) as (f & Hf' & E); [by apply existsb_special|by left|done|].
    exists f, (match rs with [] => FieldStart | _ => Unquoted end), (match rs with [] => started | _ => true end).
    rewrite E. destruct rs; repeat split; auto; done.
Qed.

Lemma read_comma fuel (s : bytes) fields value state started :
  (S (length s) < fuel)%nat -> state <> InQuotes ->
  exists fuel', (length s < fuel')%nat /\
  read_from fuel (44 :: s) fields value state started = read_from fuel' s (fields ++ [rune_string value]) [] FieldStart true.
Proof.
  intros Hf Hst. destruct fuel as [|fuel]; [lia|]. exists fuel. split; [lia|]. unfold read_from. cbn [read_record].
  change (44 :: s) with (EncodeRune 44 ++ s). rewrite next_rune by done. rewrite decide_False by done. by rewrite andb_false_r.
Qed.
Lemma read_crlf fuel (s : bytes) fields value state :
  (S (S (length s)) < fuel)%nat -> state <> InQuotes ->
  read_from fuel (13 :: 10 :: s) fields value state true = (utf8_chars s, Ok (Some (fields ++ [rune_string value]))).
Proof.
  intros Hf Hst. destruct fuel as [|fuel]; [lia|]. unfold read_from. cbn [read_record].
  change (13 :: 10 :: s) with (EncodeRune 13 ++ EncodeRune 10 ++ s). rewrite next_rune by done.
  rewrite decide_False by done. rewrite andb_false_r. cbn - [next utf8_chars EncodeRune]. by rewrite next_rune.
Qed.

(** A record with its end of line. A single empty field would be a blank line. *)
Definition record_ok (record : list bytes) : Prop := record <> [] /\ record <> [[]].

Lemma csv_fields_cons f l : l <> [] -> csv_fields (f :: l) = csv_field f ++ 44 :: csv_fields l.
Proof. by destruct l. Qed.
Lemma read_fields rss : forall fuel s fields started,
  rss <> [] -> Forall (Forall (fun r => valid_rune r = true)) rss ->
  (started = true \/ record_ok (rune_string <$> rss)) ->
  (length (csv_fields (rune_string <$> rss) ++ 13%Z :: 10%Z :: s) < fuel)%nat ->
  read_from fuel (csv_fields (rune_string <$> rss) ++ 13 :: 10 :: s) fields [] FieldStart started =
  (utf8_chars s, Ok (Some (fields ++ (rune_string <$> rss)))).
Proof.
  induction rss as [|rs rss IH]; intros fuel s fields started Hne Hv Hst Hf; [done|]. apply Forall_cons in Hv as [Hrs Hv].
  rewrite fmap_cons in *. destruct rss as [|rs2 rss].
  - cbn [csv_fields fmap list_fmap] in *.
    destruct (read_field rs fuel (13 :: 10 :: s) fields started) as (f & st & sd & Hf' & Hst' & Hsd & Hsd' & E); [done|done|].
    rewrite E. assert (sd = true) as ->; [|apply read_crlf; [simpl in Hf'; lia|done]].
    destruct Hst as [-> |[_ Hne']]; [by destruct Hsd|]. apply Hsd'. intros E0. apply Hne'. by rewrite E0.
  - rewrite csv_fields_cons in * by done. rewrite <- app_assoc in *. cbn [app] in *.
    destruct (read_field rs fuel (44 :: csv_fields (rune_string <$> (rs2 :: rss)) ++ 13 :: 10 :: s) fields started)
      as (f & st & sd & Hf' & Hst' & _ & _ & E); [done|done|]. rewrite E.
    destruct (read_comma f (csv_fields (rune_string <$> (rs2 :: rss)) ++ 13 :: 10 :: s) fields rs st sd) as (f2 & Hf2 & E2); [done|done|].
    rewrite E2, IH by auto. by rewrite <- app_assoc.
Qed.

(** A field that is valid UTF-8 is the text of its runes. *)
Definition field_ok (f : bytes) : Prop := Forall is_byte f /\ ValidString f = true.
Lemma field_runes f : field_ok f -> exists rs, Forall (fun r => valid_rune r = true) rs /\ f = rune_string rs.
Proof.
  intros [Hb Hv]. destruct (ValidString_runes f Hb Hv) as [H1 H2]. exists ((runes f).*1). split; [by rewrite Forall_fmap|].
  unfold rune_string. by rewrite <- list_fmap_compose.
Qed.
Lemma record_runes record : Forall field_ok record ->
  exists rss, Forall (Forall (fun r => valid_rune r = true)) rss /\ record = rune_string <$> rss.
Proof.
  induction 1 as [|f record Hf _ (rss & Hrss & ->)]; [by exists []|]. destruct (field_runes f Hf) as (rs & Hrs & ->).
  exists (rs :: rss). split; [by constructor|done].
Qed.

Definition csv_line (record : list bytes) : bytes := csv_fields record ++ [13; 10].
Lemma csv_line_app r s : csv_line r ++ s = csv_fields r ++ 13 :: 10 :: s.
Proof. unfold csv_line. by rewrite <- app_assoc. Qed.
(** A blank line is skipped. *)
Lemma read_blank fuel (s : bytes) : (S (S (length s)) < fuel)%nat ->
  exists fuel', (length s < fuel')%nat /\ read_from fuel (13 :: 10 :: s) [] [] FieldStart false = read_from fuel' s [] [] FieldStart false.
Proof.
  intros Hf. destruct fuel as [|fuel]; [lia|]. exists fuel. split; [lia|]. unfold read_from. cbn [read_record].
  change (13 :: 10 :: s) with (EncodeRune 13 ++ EncodeRune 10 ++ s). rewrite next_rune by done.
  cbn - [next utf8_chars EncodeRune]. by rewrite next_rune.
Qed.
Fixpoint skip_blank (records : list (list bytes)) : list (list bytes) :=
  match records with [[]] :: records => skip_blank records | _ => records end.
Definition nonblank (record : list bytes) : bool := bool_decide (record <> [[]]).

Lemma read_next records : forall fuel,
  Forall (fun r => Forall field_ok r /\ r <> []) records -> (length (concat (csv_line <$> records)) < fuel)%nat ->
  read_from fuel (concat (csv_line <$> records)) [] [] FieldStart false =
  match skip_blank records with
  | [] => (utf8_chars [], Ok None)
  | r :: rest => (utf8_chars (concat (csv_line <$> rest)), Ok (Some r))
  end.
Proof.
  induction records as [|r records IH]; intros fuel Hr Hf.
  - destruct fuel as [|fuel]; [lia|done].
  - apply Forall_cons in Hr as [[Hr Hne] Hrs]. rewrite fmap_cons in *. cbn [concat] in *. destruct (decide (r = [[]])) as [->|Hb].
    + rewrite csv_line_app in *. cbn [csv_fields] in *. change (csv_field []) with (@nil Z) in *. cbn [app skip_blank] in *.
      destruct (read_blank fuel (concat (csv_line <$> records))) as (f & Hf' & E); [done|]. rewrite E. by apply IH.
    + assert (skip_blank (r :: records) = r :: records) as -> by (by destruct r as [|[|] [|]]).
      destruct (record_runes r Hr) as (rss & Hv & ->). rewrite csv_line_app in *.
      apply (read_fields rss fuel _ [] false); [by intros ->|done|by right|done].
Qed.
Lemma skip_blank_nonblank records :
  filter (fun r => nonblank r = true) records =
  match skip_blank records with [] => [] | r :: rest => r :: filter (fun r => nonblank r = true) rest end.
Proof.
  induction records as [|r records IH]; [done|]. destruct (decide (r = [[]])) as [->|Hb].
  - rewrite filter_cons_False by done. exact IH.
  - rewrite filter_cons_True by (by apply bool_decide_eq_true). by destruct r as [|[|] [|]].
Qed.
Lemma skip_blank_suffix records : exists l, records = l ++ skip_blank records.
Proof.
  induction records as [|r records (l & E)]; [by exists []|]. destruct (decide (r = [[]])) as [->|Hb].
  - exists ([[]] :: l). cbn. by f_equal.
  - exists []. by destruct r as [|[|] [|]].
Qed.

(** The text of records is read back, except for those that are blank lines. *)
Lemma read_all_lines fuel : forall records,
  Forall (fun r => Forall field_ok r /\ r <> []) records -> (length records < fuel)%nat ->
  read_all sjis 44 fuel (utf8_chars (concat (csv_line <$> records))) = Ok (filter (fun r => nonblank r = true) records).
Proof.
  induction fuel as [|fuel IH]; intros records H Hf; [lia|]. cbn [read_all]. unfold csv_read. cbn [c_input utf8_chars].
  pose proof (read_next records (S (length (concat (csv_line <$> records)))) H (Nat.lt_succ_diag_r _)) as E.
  unfold read_from, utf8_chars in E |- *. rewrite E, skip_blank_nonblank. destruct (skip_blank_suffix records) as (l & El).
  destruct (skip_blank records) as [|r rest]; [done|]. rewrite El, Forall_app, Forall_cons in H. rewrite El, length_app in Hf. simpl in Hf.
  fold (utf8_chars (concat (csv_line <$> rest))). rewrite IH; [done|tauto|lia].
Qed.
End Reading.

(** ** Lemmas on writing *)

(** A destination that reports how much of each call it has taken. *)
Class LawfulWriter {W} (dest : W -> bytes -> W * Z * option string) (taken : W -> bytes) := {
  lawful_count : forall w p w' n e, dest w p = (w', n, e) -> 0 <= n <= Z.of_nat (length p);
  lawful_taken : forall w p w' n e, dest w p = (w', n, e) -> taken w' = taken w ++ take (Z.to_nat n) p
}.

Section Writing.
Context {W : Type} (dest : W -> bytes -> W * Z * option string) (taken : W -> bytes) `{!LawfulWriter dest taken}.

(** What the terminator was given: what the destination has, and the byte held back. *)
Definition held (t : csvTerminatorWriter) : bytes := if t_pending t then [t_last t] else [].

Lemma dest_full w p w' : dest w p = (w', Z.of_nat (length p), None) -> taken w' = taken w ++ p.
Proof. intros E. apply lawful_taken in E. rewrite Nat2Z.id, firstn_all in E. done. Qed.
Lemma dest_prefix w p w' n e : dest w p = (w', n, e) -> exists q, taken w' = taken w ++ q /\ q `prefix_of` p.
Proof. intros E. apply lawful_taken in E. exists (take (Z.to_nat n) p). split; [done|]. exists (drop (Z.to_nat n) p). by rewrite take_drop. Qed.

Lemma last_byte (p : bytes) : p <> [] -> take (length p - 1) p ++ [byte_at p (length p - 1)] = p.
Proof.
  intros Hp. destruct p as [|x p _] using rev_ind; [done|]. rewrite length_app. cbn [length]. rewrite Nat.add_sub.
  rewrite take_app_length. unfold byte_at. by rewrite lookup_app_r, Nat.sub_diag by lia.
Qed.

(** The destination has a prefix [q] of what it is to get, and never its last byte. *)
Definition behind (q p : bytes) : Prop := q `prefix_of` p /\ (length q <= length p - 1)%nat.
Lemma behind_nil p : behind [] p.
Proof. split; [apply prefix_nil|simpl; lia]. Qed.
Lemma behind_app q p r : behind q p -> behind q (p ++ r).
Proof. intros [H1 H2]. split; [by apply prefix_app_r|rewrite length_app; lia]. Qed.

Lemma terminator_write_ok w t p w' t' n e :
  terminator_write dest w t p = (w', t', n, e) ->
  (e = None -> n = Z.of_nat (length p) /\ taken w' ++ held t' = taken w ++ held t ++ p) /\
  (exists q, taken w' = taken w ++ q /\ behind q (held t ++ p)).
Proof.
  intros E. unfold terminator_write in E. destruct p as [|b p].
  { injection E as <- <- <- <-. rewrite !app_nil_r. split; [done|]. exists []. split; [by rewrite app_nil_r|apply behind_nil]. }
  cbv zeta in E. remember (b :: p) as p' eqn:Hp'. assert (p' <> []) as Hne by (by subst). clear Hp'.
  pose proof (last_byte p' Hne) as Hlast. assert (1 <= length p')%nat as Hlen by (destruct p'; [done|simpl; lia]).
  destruct (if t_pending t then _ else _) as [w1 [e1|]] eqn:Eh.
  { injection E as <- <- <- <-. split; [done|]. unfold held. destruct (t_pending t); [|done].
    destruct (dest w [t_last t]) as [[w2 n2] e2] eqn:Ed. injection Eh as <- _. apply dest_prefix in Ed as (q & Hq & Hp).
    exists q. split; [done|]. split; [by apply prefix_app_r|]. apply prefix_length in Hp. rewrite length_app. simpl in *. lia. }
  assert (taken w1 = taken w ++ held t) as Hw1.
  { unfold held. destruct (t_pending t); [|injection Eh as <-; by rewrite app_nil_r].
    destruct (dest w [t_last t]) as [[w2 n2] [e2|]] eqn:Ed; [done|]. destruct (Z.eqb_spec n2 1) as [->|]; [|done].
    injection Eh as <-. by apply (dest_full w [t_last t]). }
  set (body := take (length p' - 1) p') in *. destruct (dest w1 body) as [[w2 n2] e2] eqn:Ed.
  assert (exists q, taken w2 = taken w ++ q /\ behind q (held t ++ p')) as Hq.
  { apply dest_prefix in Ed as (q & Hq & Hp). exists (held t ++ q). rewrite Hq, Hw1, app_assoc. split; [done|]. split.
    - apply prefix_app. etrans; [exact Hp|]. exists [byte_at p' (length p' - 1)]. done.
    - apply prefix_length in Hp. unfold body in Hp. rewrite length_take in Hp. rewrite !length_app. lia. }
  destruct e2 as [e2|]; [injection E as <- <- <- <-; by split|].
  destruct (Z.eqb_spec n2 (Z.of_nat (length body))) as [->|]; cbn [negb] in E; [|injection E as <- <- <- <-; by split].
  injection E as <- <- <- <-. split; [|done]. intros _. split; [done|]. apply dest_full in Ed. cbn [held t_pending t_last].
  by rewrite Ed, Hw1, <- !app_assoc, Hlast.
Qed.

Lemma flush_all_ok l : forall w t w' t' e, flush_all dest w t l = (w', t', e) ->
  (e = None -> taken w' ++ held t' = taken w ++ held t ++ concat l) /\
  (exists q, taken w' = taken w ++ q /\ behind q (held t ++ concat l)).
Proof.
  induction l as [|p l IH]; intros w t w' t' e E; cbn [flush_all concat] in *.
  - injection E as <- <- <-. rewrite !app_nil_r. split; [done|]. exists []. split; [by rewrite app_nil_r|apply behind_nil].
  - destruct (terminator_write dest w t p) as [[[w1 t1] n1] e1] eqn:Et.
    destruct (terminator_write_ok _ _ _ _ _ _ _ Et) as [Hok (q & Hq & Hp)].
    assert (exists q, taken w1 = taken w ++ q /\ behind q (held t ++ p ++ concat l)) as Hpre.
    { exists q. split; [done|]. rewrite app_assoc. by apply behind_app. }
    destruct e1 as [e1|]; [injection E as <- <- <-; by split|]. destruct (Hok eq_refl) as [-> Hc].
    rewrite Z.ltb_irrefl in E. apply IH in E as [H1 (q2 & Hq2 & [Hp2 Hl2])]. split.
    + intros He. rewrite (H1 He), app_assoc, Hc, <- !app_assoc. done.
    + exists (q ++ q2). rewrite Hq2, Hq, app_assoc. split; [done|]. rewrite Hq, <- app_assoc in Hc. apply app_inv_head in Hc.
      destruct Hp as [_ Hl]. rewrite <- Hc, length_app in Hl. rewrite app_assoc, <- Hc, <- app_assoc. split; [by apply prefix_app|].
      rewrite !length_app in *. lia.
Qed.

Lemma buffers_concat fuel s : (length s <= fuel)%nat -> concat (buffers fuel s) = s.
Proof.
  revert s. induction fuel as [|fuel IH]; intros [|b s] Hf; try done; [simpl in Hf; lia|].
  cbn [buffers concat]. rewrite IH; [by rewrite take_drop|]. rewrite length_drop. simpl in *. lia.
Qed.

(** A record is written in full, with its own end of line, or a prefix of it is. *)
Lemma writeRecord_ok w record w' e : writeRecord dest w record = (w', e) ->
  (e = None -> taken w' = taken w ++ csv_line record) /\ (exists q, taken w' = taken w ++ q /\ q `prefix_of` csv_line record).
Proof.
  unfold writeRecord. destruct (flush_all dest w _ _) as [[w1 t1] e1] eqn:Ef. intros E.
  destruct (flush_all_ok _ _ _ _ _ _ Ef) as [Hok (q & Hq & Hp)]. unfold bufio_writes in *.
  rewrite buffers_concat in * by done. cbn [held t_pending app] in *. unfold csv_record, csv_line in *.
  assert (q `prefix_of` csv_fields record) as Hq'.
  { destruct Hp as [Hp Hl]. rewrite length_app in Hl. simpl in Hl. destruct Hp as [k Hk].
    apply (f_equal (take (length q))) in Hk as Ht. rewrite take_app_length, take_app_le in Ht by lia.
    rewrite <- Ht. exists (drop (length q) (csv_fields record)). by rewrite take_drop. }
  assert (exists q, taken w1 = taken w ++ q /\ q `prefix_of` csv_fields record ++ [13; 10]) as Hpre
    by (exists q; split; [done|by apply prefix_app_r]).
  destruct e1 as [e1|]; [injection E as <- <-; by split|].
  unfold terminator_finish in E. destruct (t_pending t1) eqn:Ep; [|injection E as <- <-; by split].
  destruct (Z.eqb_spec (t_last t1) 10) as [E10|]; [|injection E as <- <-; by split]. cbn [negb orb] in E.
  specialize (Hok eq_refl). unfold held in Hok. rewrite Ep, E10, app_assoc in Hok. apply app_inj_tail in Hok as [Hok _].
  destruct (dest w1 [13; 10]) as [[w2 n2] e2] eqn:Ed. injection E as <- <-. split.
  - destruct e2 as [e2|]; [done|]. destruct (Z.eqb_spec n2 2) as [->|]; [|done]. intros _.
    apply (dest_full w1 [13; 10]) in Ed. by rewrite Ed, Hok, app_assoc.
  - apply dest_prefix in Ed as (q2 & -> & Hq2). exists (csv_fields record ++ q2). rewrite Hok, app_assoc. split; [done|by apply prefix_app].
Qed.

Lemma write_records_ok l : forall w w' e, write_records dest w l = (w', e) ->
  (e = None -> taken w' = taken w ++ concat (csv_line <$> l)) /\
  (exists q, taken w' = taken w ++ q /\ q `prefix_of` concat (csv_line <$> l)).
Proof.
  induction l as [|r l IH]; intros w w' e E; cbn [write_records] in E.
  - injection E as <- <-. rewrite app_nil_r. split; [done|]. exists []. by rewrite app_nil_r.
  - rewrite fmap_cons. cbn [concat]. destruct (writeRecord dest w r) as [w1 e1] eqn:Er. apply writeRecord_ok in Er as [H1 (q & Hq & Hp)].
    destruct e1 as [e1|]; [injection E as <- <-; split; [done|]; exists q; split; [done|by apply prefix_app_r]|].
    specialize (H1 eq_refl). apply IH in E as [H2 (q2 & Hq2 & Hp2)]. rewrite H1 in *. split.
    + intros He. by rewrite (H2 He), app_assoc.
    + exists (csv_line r ++ q2). rewrite Hq2, app_assoc. split; [done|by apply prefix_app].
Qed.
End Writing.

(** A relation that every call of the destination respects is respected by a record. *)
Section Related.
Context {W : Type} (dest : W -> bytes -> W * Z * option string) (R : W -> W -> Prop) `{!PreOrder R}.
Context (dest_related : forall w p w' n e, dest w p = (w', n, e) -> R w w').

Lemma terminator_related w t p w' t' n e : terminator_write dest w t p = (w', t', n, e) -> R w w'.
Proof.
  unfold terminator_write. intros E. destruct p as [|b p]; [by injection E as <- _ _ _|].
  destruct (if t_pending t then _ else _) as [w1 e1] eqn:Eh. assert (R w w1) as H1.
  { destruct (t_pending t); [|by injection Eh as <- _]. destruct (dest w _) as [[w2 n2] e2] eqn:Ed. injection Eh as <- _. by eapply dest_related. }
  destruct e1; [by injection E as <- _ _ _|]. destruct (dest w1 _) as [[w2 n2] e2] eqn:Ed. apply dest_related in Ed.
  etrans; [exact H1|]. destruct e2; [by injection E as <- _ _ _|]. by destruct (negb _); injection E as <- _ _ _.
Qed.
Lemma flush_related l : forall w t w' t' e, flush_all dest w t l = (w', t', e) -> R w w'.
Proof.
  induction l as [|p l IH]; intros w t w' t' e E; cbn [flush_all] in E; [by injection E as <- _ _|].
  destruct (terminator_write dest w t p) as [[[w1 t1] n1] e1] eqn:Et. apply terminator_related in Et. etrans; [exact Et|].
  destruct e1; [by injection E as <- _ _|]. destruct (_ <? _); [by injection E as <- _ _|by eapply IH].
Qed.
Lemma writeRecord_related w record w' e : writeRecord dest w record = (w', e) -> R w w'.
Proof.
  unfold writeRecord. destruct (flush_all dest w _ _) as [[w1 t1] e1] eqn:Ef. apply flush_related in Ef. intros E. etrans; [exact Ef|].
  destruct e1; [by injection E as <- _|]. unfold terminator_finish in E. destruct (_ || _); [by injection E as <- _|].
  destruct (dest w1 _) as [[w2 n2] e2] eqn:Ed. injection E as <- _. by eapply dest_related.
Qed.
End Related.

(** ** Lemmas on formulas *)

(** What a spreadsheet takes for text: no tab or carriage return before the first
    character, which starts no formula. *)
Definition formula_safe (v : bytes) : Prop :=
  existsb (fun c => (c =? 9) || (c =? 13)) (leading v) = false /\
  match trimmed v with c :: _ => formula_char c = false | [] => True end.

Lemma escapeFormula_safe v : formula_safe (escapeFormula v).
Proof.
  unfold escapeFormula. destruct (_ || _) eqn:E.
  - assert (trimmed (39 :: v) = 39 :: v) as Ht by done. split; [|by rewrite Ht]. unfold leading. by rewrite Ht, Nat.sub_diag.
  - apply orb_false_iff in E as [E1 E2]. split; [done|]. by destruct (trimmed v).
Qed.
