(* ===== verification/Sha256.v ===== *)
(** * SHA-256 as [crypto/sha256] computes it
    The digest of a byte list and its hexadecimal text, executable, with the shape that the
    checks of digests in the program rely on. *)
From Stdlib Require Import ZArith Lia.
From stdpp Require Import base list strings.
From S2P Require Import Prelude.
Local Open Scope Z_scope.

(** ** Words of 32 bits *)

Definition add32 (a b : Z) : Z := (a + b) mod 2 ^ 32.
Definition rotr (x n : Z) : Z := Z.lor (Z.shiftr x n) (Z.shiftl x (32 - n) mod 2 ^ 32).
Definition not32 (x : Z) : Z := 2 ^ 32 - 1 - x.
Definition word_bytes (n : nat) (x : Z) : bytes := (fun i => Z.shiftr x (8 * Z.of_nat i) mod 256) <$> rev (seq 0 n).
Definition bytes_word (s : bytes) : Z := foldl (fun acc b => acc * 256 + b) 0 s.

Definition round_constants : list Z :=
  [1116352408; 1899447441; 3049323471; 3921009573; 961987163; 1508970993; 2453635748; 2870763221;
   3624381080; 310598401; 607225278; 1426881987; 1925078388; 2162078206; 2614888103; 3248222580;
   3835390401; 4022224774; 264347078; 604807628; 770255983; 1249150122; 1555081692; 1996064986;
   2554220882; 2821834349; 2952996808; 3210313671; 3336571891; 3584528711; 113926993; 338241895;
   666307205; 773529912; 1294757372; 1396182291; 1695183700; 1986661051; 2177026350; 2456956037;
   2730485921; 2820302411; 3259730800; 3345764771; 3516065817; 3600352804; 4094571909; 275423344;
   430227734; 506948616; 659060556; 883997877; 958139571; 1322822218; 1537002063; 1747873779;
   1955562222; 2024104815; 2227730452; 2361852424; 2428436474; 2756734187; 3204031479; 3329325298].
Definition initial_state : list Z :=
  [1779033703; 3144134277; 1013904242; 2773480762; 1359893119; 2600822924; 528734635; 1541459225].

(** ** Blocks *)

Definition word_at (w : list Z) (i : nat) : Z := default 0 (w !! i).
(** The schedule, newest word first. *)
Fixpoint schedule (n : nat) (w : list Z) : list Z :=
  match n with
  | O => w
  | S n =>
      let x := word_at w 14 in let y := word_at w 1 in
      let s0 := Z.lxor (Z.lxor (rotr x 7) (rotr x 18)) (Z.shiftr x 3) in
      let s1 := Z.lxor (Z.lxor (rotr y 17) (rotr y 19)) (Z.shiftr y 10) in
      schedule n (add32 (add32 (word_at w 15) s0) (add32 (word_at w 6) s1) :: w)
  end.
Definition step (st : list Z) (kw : Z * Z) : list Z :=
  match st with
  | [a; b; c; d; e; f; g; h] =>
      let s1 := Z.lxor (Z.lxor (rotr e 6) (rotr e 11)) (rotr e 25) in
      let ch := Z.lxor (Z.land e f) (Z.land (not32 e) g) in
      let t1 := add32 (add32 h s1) (add32 ch (add32 kw.1 kw.2)) in
      let s0 := Z.lxor (Z.lxor (rotr a 2) (rotr a 13)) (rotr a 22) in
      let maj := Z.lxor (Z.lxor (Z.land a b) (Z.land a c)) (Z.land b c) in
      [add32 t1 (add32 s0 maj); a; b; c; add32 d t1; e; f; g]
  | _ => st
  end.
Fixpoint chunks (n fuel : nat) (s : bytes) : list bytes :=
  match fuel, s with
  | S fuel, _ :: _ => take n s :: chunks n fuel (drop n s)
  | _, _ => []
  end.
Definition block (st : list Z) (b : bytes) : list Z :=
  let w := rev (schedule 48 (rev (bytes_word <$> chunks 4 16 b))) in
  zip_with add32 st (foldl step st (zip round_constants w)).

(** ** The digest *)

Definition padded (s : bytes) : bytes :=
  let n := Z.of_nat (length s) in
  s ++ 128 :: replicate (Z.to_nat ((55 - n) mod 64)) 0 ++ word_bytes 8 (8 * n).
Definition sha256 (s : bytes) : bytes :=
  concat (word_bytes 4 <$> foldl block initial_state (chunks 64 (length (padded s)) (padded s))).

(** [hex.EncodeToString]. *)
Definition hex_digit (d : Z) : Z := if d <? 10 then 48 + d else 87 + d.
Definition hex (s : bytes) : bytes := concat ((fun b => [hex_digit (b / 16); hex_digit (b mod 16)]) <$> s).
Definition hex_sha256 (s : bytes) : bytes := hex (sha256 s).

(* ------------------------------------------------------------------ *)
(** ** Lemmas *)

(** The test vectors of FIPS 180-4 with zero, one and two blocks. *)
Lemma sha256_vectors :
  hex_sha256 [] = lit "e3b0c44298fc1c149afbf4c8996fb92427ae41e4649b934ca495991b7852b855" /\
  hex_sha256 (lit "abc") = lit "ba7816bf8f01cfea414140de5dae2223b00361a396177a9cb410ff61f20015ad" /\
  hex_sha256 (lit "abcdbcdecdefdefgefghfghighijhijkijkljklmklmnlmnomnopnopq") =
    lit "248d6a61d20638b8e5c026930c3e6039a33ce45964ff2167f6ecedd419db06c1".
Proof. split; [|split]; vm_compute; reflexivity. Qed.

Lemma step_length st kw : length (step st kw) = length st.
Proof. by destruct st as [|? [|? [|? [|? [|? [|? [|? [|? [|]]]]]]]]]. Qed.
Lemma steps_length l : forall st, length (foldl step st l) = length st.
Proof. induction l as [|kw l IH]; intros st; [done|]. cbn [foldl]. by rewrite IH, step_length. Qed.
Lemma blocks_length l : forall st, length (foldl block st l) = length st.
Proof.
  induction l as [|b l IH]; intros st; [done|]. cbn [foldl]. rewrite IH. unfold block.
  rewrite length_zip_with, steps_length. lia.
Qed.
Lemma word_bytes_length n x : length (word_bytes n x) = n.
Proof. unfold word_bytes. by rewrite length_fmap, length_rev, length_seq. Qed.
Lemma concat_length_const {A B} (f : A -> list B) n l : (forall x, length (f x) = n) -> length (concat (f <$> l)) = (length l * n)%nat.
Proof. intros H. induction l as [|x l IH]; [done|]. rewrite fmap_cons. cbn [concat length]. rewrite length_app, IH, H. lia. Qed.

Lemma sha256_length s : length (sha256 s) = 32%nat.
Proof.
  unfold sha256. rewrite (concat_length_const _ 4) by (intros; apply word_bytes_length). by rewrite blocks_length.
Qed.
Lemma sha256_bytes s : Forall is_byte (sha256 s).
Proof.
  unfold sha256. apply Forall_concat, Forall_fmap, Forall_forall. intros x _. apply Forall_fmap, Forall_forall.
  intros i _. cbn. unfold is_byte. apply Z.mod_pos_bound. lia.
Qed.

(** A lower-case hexadecimal text of 64 characters. *)
Definition hex_char (c : Z) : bool := ((48 <=? c) && (c <=? 57)) || ((97 <=? c) && (c <=? 102)).
Lemma hex_digit_char d : 0 <= d < 16 -> hex_char (hex_digit d) = true.
Proof. intros H. unfold hex_char, hex_digit. destruct (Z.ltb_spec d 10); lia. Qed.
Lemma hex_sha256_shape s : length (hex_sha256 s) = 64%nat /\ Forall (fun c => hex_char c = true) (hex_sha256 s).
Proof.
  unfold hex_sha256, hex. split; [by rewrite (concat_length_const _ 2), sha256_length|].
  apply Forall_concat, Forall_fmap. eapply Forall_impl; [apply sha256_bytes|]. intros b Hb. unfold is_byte in Hb. cbn.
  repeat constructor; apply hex_digit_char; Z.to_euclidean_division_equations; lia.
Qed.

(** Two texts of digests are equal exactly when the digests are. *)
Lemma hex_digit_inj a b : 0 <= a < 16 -> 0 <= b < 16 -> hex_digit a = hex_digit b -> a = b.
Proof. intros Ha Hb. unfold hex_digit. destruct (Z.ltb_spec a 10), (Z.ltb_spec b 10); lia. Qed.
Lemma hex_inj s : forall t, Forall is_byte s -> Forall is_byte t -> hex s = hex t -> s = t.
Proof.
  unfold hex. induction s as [|a s IH]; intros [|b t] Hs Ht E; try done. apply Forall_cons in Hs as [Ha Hs], Ht as [Hb Ht].
  rewrite !fmap_cons in E. cbn [concat app] in E. injection E as E1 E2 E. f_equal; [|by apply IH].
  unfold is_byte in *. apply hex_digit_inj in E1; [|Z.to_euclidean_division_equations; lia..].
  apply hex_digit_inj in E2; [|Z.to_euclidean_division_equations; lia..].
  Z.to_euclidean_division_equations; lia.
Qed.
