(* ===== verification/Output.v ===== *)
(** * Output projection and CSV files ([contract/output.go], [contract/csv_output.go])
    [ProjectOutput] selects and validates what a provider returned, [WriteCSV] writes rows
    to a destination. An error is its category ([OUTPUT_INVALID], [LIMIT_EXCEEDED]) or the
    error of the context; the cause inside an [OutputError] is for diagnostics only. *)
From Stdlib Require Import ZArith Lia SpecFloat.
From stdpp Require Import base list option sorting strings.
From S2P Require Import Prelude Utf8 Strconv GoFloat Json JsonText Canonical GoStrings InputValue ValueFormat Schema Pointer Validation Conformance CsvText.
Local Open Scope Z_scope.

(** ** The definition *)

(** The settings of generated or original files. *)
Record OutputFiles := {
  of_format : bytes; of_from : bytes; of_columns : option (list bytes); of_formula_escape : bool;
  of_filename : bytes; of_mime_type : option bytes; of_rest : bytes
}.
Record Capability := {
  cap_Schema : Schema; cap_Data : bool; cap_Files : option OutputFiles; cap_Mode : bytes;
  cap_Type : bytes; cap_Operation : bytes; cap_Policy : list (bytes * Z)
}.

Definition policyInt (c : Capability) (key : string) : Z := default 0 (obj_lookup (lit key) (cap_Policy c)).
Definition outputLimits (c : Capability) : Limits :=
  {| MaxBytes := policyInt c "max_output_bytes"; MaxDepth := policyInt c "max_json_depth";
     MaxItems := policyInt c "max_json_items"; MaxFileBytes := 0; MaxTotalFileBytes := 0; MaxFiles := 0 |}.
Definition rowProvider (c : Capability) : bool :=
  bytes_eqb (cap_Type c) (lit "csv") || bytes_eqb (cap_Type c) (lit "db") && bytes_eqb (cap_Operation c) (lit "select").
Definition dmlProvider (c : Capability) : bool :=
  bytes_eqb (cap_Type c) (lit "db") && negb (bytes_eqb (cap_Operation c) (lit "select")).
Definition passthrough (c : Capability) : bool := bytes_eqb (cap_Mode c) (lit "passthrough").

(** [invalidOutput] keeps a context error and a category. *)
Definition kept_error (e : string) : bool :=
  String.eqb e "context canceled" || String.eqb e "context deadline exceeded" ||
  String.eqb e "LIMIT_EXCEEDED" || String.eqb e "OUTPUT_INVALID".
Definition invalidOutput (e : string) : string := if kept_error e then e else "OUTPUT_INVALID".
Definition invalid {A} (r : result A) : result A :=
  match r with Ok a => Ok a | Err e => Err (invalidOutput e) end.

(** ** Checks *)

(** [strings.Contains(e, "limit exceeded")]. *)
Definition limit_error (e : string) : bool :=
  match String.index 0 "limit exceeded" e with Some _ => true | None => false end.
Fixpoint no_files (v : value) : bool :=
  match v with
  | VFile _ => false
  | VObj m => forallb (fun kv => no_files kv.2) m
  | VArr l => forallb no_files l
  | _ => true
  end.
Definition checkOutputJSON (v : value) (l : Limits) : result unit :=
  match checkJSONLimits v l with
  | Err e => Err (if limit_error e then "LIMIT_EXCEEDED" else invalidOutput e)
  | Ok _ => if no_files v then Ok tt else Err "OUTPUT_INVALID"
  end.

(** Column names are nonempty, valid and distinct. *)
Fixpoint columns_loop (seen columns : list bytes) : bool :=
  match columns with
  | [] => true
  | c :: columns =>
      negb (bytes_eqb c [] || negb (ValidString c) || contains seen c) && columns_loop (c :: seen) columns
  end.
Definition validateColumns (columns : list bytes) : result unit :=
  if columns_loop [] columns then Ok tt else Err "invalid or duplicate provider column metadata".

(** ** Projection *)

Fixpoint project (s : Schema) (v : value) : value :=
  match s with
  | MkSchema d props items additional =>
      match v with
      | VObj x =>
          let children := map (fun kc : bytes * Schema => (kc.1, project kc.2)) props in
          VObj (omap (fun kv : bytes * value =>
            match obj_lookup kv.1 children with
            | Some child => Some (kv.1, child kv.2)
            | None =>
                if negb (contains (Types d) (lit "object")) || AdditionalAllowed d
                then Some (kv.1, match additional with Some a => project a kv.2 | None => kv.2 end)
                else None
            end) x)
      | VArr l => match items with Some i => VArr (map (project i) l) | None => VArr l end
      | _ => v
      end
  end.
Definition projectValue (s : Schema) (v : value) (passthrough : bool) : value := if passthrough then v else project s v.

(** The shape of a row provider's data: an array of objects that have the declared columns. *)
Definition declared_columns (c : Capability) : list bytes :=
  if negb (passthrough c) then match Items (cap_Schema c) with Some i => PropertyOrder (sdata i) | None => [] end else [].
Definition check_row (c : Capability) (v : value) : bool :=
  match v with VObj row => forallb (fun k => obj_has k row) (declared_columns c) | _ => false end.
Definition check_rows (c : Capability) (data : value) (columns : list bytes) : result unit :=
  if MaxItems (outputLimits c) <? Z.of_nat (length columns) then Err "LIMIT_EXCEEDED" else
  match data with
  | VArr rows =>
      let* _ := invalid (validateColumns columns) in
      if negb (forallb (contains columns) (declared_columns c)) then Err "OUTPUT_INVALID"
      else if forallb (check_row c) rows then Ok tt else Err "OUTPUT_INVALID"
  | _ => Err "OUTPUT_INVALID"
  end.
(** A mutation returns its count and nothing else. *)
Definition dml_count (data : value) : result value :=
  match data with
  | VObj [(k, v)] =>
      match (if bytes_eqb k (lit "count") then exactInteger v else None) with
      | Some n => if n <? 0 then Err "OUTPUT_INVALID" else Ok (VObj [(lit "count", VInt n)])
      | None => Err "OUTPUT_INVALID"
      end
  | _ => Err "OUTPUT_INVALID"
  end.

Section Project.
Context (lib : engines).

Definition raw_limits (l : Limits) : Limits :=
  {| MaxBytes := int64_max; MaxDepth := MaxDepth l; MaxItems := MaxItems l; MaxFileBytes := MaxFileBytes l;
     MaxTotalFileBytes := MaxTotalFileBytes l; MaxFiles := MaxFiles l |}.

Definition ProjectOutput (c : Capability) (data : value) (columns : list bytes) : result value :=
  let l := outputLimits c in
  let* _ := checkOutputJSON data (raw_limits l) in
  let* data := (if rowProvider c then let* _ := check_rows c data columns in Ok data
                else if dmlProvider c then dml_count data else Ok data) in
  let* r := invalid (validate lib false None (cap_Schema c) (projectValue (cap_Schema c) data (passthrough c)) [] None) in
  let* _ := checkOutputJSON r.1 l in
  Ok r.1.
End Project.

(** ** CSV *)

Definition csvCell (v : value) (escape : bool) : result bytes :=
  match v with
  | VNull => Ok []
  | VStr x => Ok (if escape then escapeFormula x else x)
  | VBool _ | VInt _ | VFloat _ => canonical_value v
  | _ => Err "CSV cell must be a JSON scalar"
  end.

(** The published columns. *)
Definition csv_columns (c : Capability) (f : OutputFiles) (metadata : list bytes) : result (list bytes) :=
  let* columns := (match of_columns f with
    | Some columns => Ok columns
    | None =>
        let* schema := (if bytes_eqb (of_from f) [] then Ok (cap_Schema c) else invalid (resolveOutputPointer (cap_Schema c) (of_from f))) in
        Ok (match Items schema with
            | Some i =>
                if contains (Types (sdata i)) (lit "object") && negb (AdditionalAllowed (sdata i))
                then filter (fun name => obj_has name (Properties i) = true) metadata else metadata
            | None => metadata
            end)
    end) in
  if bool_decide (columns = []) then Err "OUTPUT_INVALID" else
  let* _ := invalid (validateColumns columns) in
  if rowProvider c && negb (forallb (contains metadata) columns) then Err "OUTPUT_INVALID" else Ok columns.

Definition csv_header (f : OutputFiles) (columns : list bytes) : list bytes :=
  if of_formula_escape f then escapeFormula <$> columns else columns.
Fixpoint csv_row (f : OutputFiles) (row : list (bytes * value)) (columns : list bytes) : result (list bytes) :=
  match columns with
  | [] => Ok []
  | name :: columns =>
      let* cell := csvCell (default VNull (obj_lookup name row)) (of_formula_escape f) in
      let* r := csv_row f row columns in Ok (cell :: r)
  end.

Section WriteCSV.
Context {W : Type} (dest : W -> bytes -> W * Z * option string).

Definition publish_record (w : W) (record : list bytes) : W * option string :=
  let '(w, e) := writeRecord dest w record in (w, invalidOutput <$> e).
Fixpoint write_rows (f : OutputFiles) (columns : list bytes) (w : W) (rows : list value) : W * option string :=
  match rows with
  | [] => (w, None)
  | VObj row :: rows =>
      match csv_row f row columns with
      | Err e => (w, Some (invalidOutput e))
      | Ok record =>
          match publish_record w record with
          | (w, Some e) => (w, Some e)
          | (w, None) => write_rows f columns w rows
          end
      end
  | _ :: _ => (w, Some "OUTPUT_INVALID"%string)
  end.

Definition WriteCSV (w : W) (c : Capability) (f : OutputFiles) (projected : value) (metadata : list bytes) : W * option string :=
  match outputPointer projected (of_from f) with
  | Ok (VArr rows) =>
      match csv_columns c f metadata with
      | Err e => (w, Some e)
      | Ok columns =>
          match publish_record w (csv_header f columns) with
          | (w, Some e) => (w, Some e)
          | (w, None) => write_rows f columns w rows
          end
      end
  | Ok _ => (w, Some "OUTPUT_INVALID"%string)
  | Err e => (w, Some (invalidOutput e))
  end.
End WriteCSV.

(* ------------------------------------------------------------------ *)
(** ** Lemmas on projection *)

Lemma omap_keys_sublist {A B} (g : bytes * A -> option (bytes * B)) x :
  (forall kv kw, g kv = Some kw -> kw.1 = kv.1) -> sublist (omap g x).*1 x.*1.
Proof.
  intros Hg. induction x as [|kv x IH]; [constructor|]. cbn [omap list_omap]. destruct (g kv) as [kw|] eqn:E.
  - rewrite !fmap_cons, (Hg _ _ E). by apply sublist_skip.
  - rewrite fmap_cons. by apply sublist_cons.
Qed.
Lemma sorted_sublist (l k : list bytes) : sublist l k -> StronglySorted bytes_lt k -> StronglySorted bytes_lt l.
Proof.
  intros H. induction H as [|x l k H IH|x l k H IH]; intros Hs; [constructor| |]; apply StronglySorted_inv in Hs as [Hs Hx].
  - constructor; [by apply IH|]. apply Forall_forall. intros y Hy. apply (proj1 (Forall_forall _ _) Hx). by eapply elem_of_sublist.
  - by apply IH.
Qed.

(** Selection keeps a value well formed. *)
Lemma children_lookup props k :
  obj_lookup k (map (fun kc : bytes * Schema => (kc.1, project kc.2)) props) = project <$> obj_lookup k props.
Proof. induction props as [|[k' c] props IH]; [done|]. simpl. by destruct (bytes_eqb k k'). Qed.

Lemma project_wf s : forall v, wf_value v -> wf_value (project s v).
Proof.
  induction s as [d props items additional IHp IHi IHa] using Schema_ind. intros v Hv. destruct Hv as [| | | | | | |l Hl|m Hm Hv]; try constructor.
  - cbn [project]. destruct items as [i|]; [|by constructor]. constructor. apply Forall_map. eapply Forall_impl; [exact Hl|]. apply IHi.
  - eapply sorted_sublist; [apply omap_keys_sublist|exact Hm]. intros kv kw. rewrite children_lookup. repeat case_match; intros [= <-]; done.
  - apply Forall_forall. intros kw Hkw. apply list_elem_of_omap in Hkw as (kv & Hkv & E). rewrite children_lookup in E.
    assert (wf_value kv.2) as Hw by (by apply (proj1 (Forall_forall _ _) Hv)).
    destruct (obj_lookup kv.1 props) as [c|] eqn:Ec; cbn in E.
    + injection E as <-. apply obj_lookup_Some in Ec. by apply (proj1 (Forall_forall _ _) IHp _ Ec).
    + destruct (_ || _); [|done]. injection E as <-. destruct additional as [a|]; [by apply IHa|done].
Qed.

Lemma invalid_Ok {A} (r : result A) a : invalid r = Ok a -> r = Ok a.
Proof. by destruct r. Qed.
Lemma checkOutputJSON_ok v l : checkOutputJSON v l = Ok tt -> checkJSONLimits v l = Ok tt /\ no_files v = true.
Proof. unfold checkOutputJSON. destruct (checkJSONLimits v l) as [[]|]; [|done]. by destruct (no_files v). Qed.

Lemma ProjectOutput_inv lib c data columns v :
  ProjectOutput lib c data columns = Ok v -> wf_value data ->
  exists data', wf_value data' /\ validate lib false None (cap_Schema c) data' [] None = Ok (v, None) /\
    checkJSONLimits v (outputLimits c) = Ok tt /\ no_files v = true.
Proof.
  unfold ProjectOutput. intros E Hd. apply result_bind_Ok in E as ([] & _ & E). apply result_bind_Ok in E as (data' & Ed & E).
  apply result_bind_Ok in E as ([w lv] & Ev & E). apply invalid_Ok in Ev. apply result_bind_Ok in E as ([] & Ec & E). apply Ok_inj in E as <-.
  assert (wf_value data') as Hd'.
  { destruct (rowProvider c); [apply result_bind_Ok in Ed as ([] & _ & Ed); by apply Ok_inj in Ed as <-|].
    destruct (dmlProvider c); [|by apply Ok_inj in Ed as <-]. unfold dml_count in Ed.
    destruct data as [| | | | | | |[|[k x] [|]]|]; try done. destruct (if bytes_eqb _ _ then _ else _); [|done]. destruct (_ <? 0); [done|].
    apply Ok_inj in Ed as <-. repeat constructor. }
  exists (projectValue (cap_Schema c) data' (passthrough c)). split; [unfold projectValue; destruct (passthrough c); [done|by apply project_wf]|].
  apply validate_leaves in Ev as Hl. destruct Hl as (new & El & _). cbn in El. subst lv. split; [done|]. by apply checkOutputJSON_ok.
Qed.

(** ** Lemmas on cells *)

Definition ascii (s : bytes) : Prop := Forall (fun c => 0 <= c < 128) s.
Lemma ascii_app a b : ascii a -> ascii b -> ascii (a ++ b).
Proof. apply Forall_app_2. Qed.
Lemma decimal_ascii fuel : forall n acc, ascii acc -> ascii (decimal_digits fuel n acc).
Proof.
  induction fuel as [|fuel IH]; intros n acc H; [done|]. cbn [decimal_digits]. cbv zeta.
  assert (ascii (48 + n mod 10 :: acc)) as H' by (constructor; [Z.to_euclidean_division_equations; lia|done]).
  case_match; [done|by apply IH].
Qed.
Lemma decimal_nonempty fuel n acc : acc <> [] \/ (0 < fuel)%nat -> decimal_digits fuel n acc <> [].
Proof.
  revert n acc. induction fuel as [|fuel IH]; intros n acc H; [by destruct H; [|lia]|]. cbn [decimal_digits]. cbv zeta.
  case_match; [done|]. apply IH. by left.
Qed.
Lemma FormatInt_ascii n : ascii (FormatInt n) /\ FormatInt n <> [].
Proof.
  unfold FormatInt. destruct (n <? 0); (split; [|try done; apply decimal_nonempty; right; lia]).
  - constructor; [lia|]. apply decimal_ascii. constructor.
  - apply decimal_ascii. constructor.
Qed.
Lemma format_digits_ascii q k : ascii (format_digits q k) /\ format_digits q k <> [].
Proof.
  unfold format_digits. set (ds := decimal_digits 20 q []).
  assert (ascii ds) as Hd by (apply decimal_ascii; constructor). assert (ds <> []) as Hne by (apply decimal_nonempty; right; lia).
  assert (forall n, ascii (take n ds) /\ ascii (drop n ds)) as Hs by (intros n; split; [by apply Forall_take|by apply Forall_drop]).
  assert (forall n, ascii (replicate n 48)) as Hr by (intros n; apply Forall_replicate; lia).
  assert (forall c, 43 <= c <= 101 -> forall s, ascii s -> ascii (c :: s)) as Hc by (intros c ? s ?; constructor; [lia|done]).
  assert (ascii []) as Hn by constructor.
  repeat case_match; (split; [|by (destruct ds; done) || (intros E; apply app_eq_nil in E; destruct E; done)]);
    repeat first [apply ascii_app | apply Hc; [lia|] | apply Hs | apply Hr | done | apply decimal_ascii].
Qed.
Lemma FormatFloat_ascii neg m e : ascii (FormatFloat (S754_finite neg m e)) /\ FormatFloat (S754_finite neg m e) <> [].
Proof.
  unfold FormatFloat. destruct (shortest _ _ _ _ _) as [q k]. destruct (trim_zeros _ _ _) as [q' k'].
  destruct (format_digits_ascii q' k') as [H1 H2]. split.
  - apply ascii_app; [|done]. destruct neg; [constructor; [lia|]|]; constructor.
  - intros E. by apply app_eq_nil in E as [_ E].
Qed.

Lemma ascii_field s : ascii s -> field_ok s.
Proof.
  intros H. split; [eapply Forall_impl; [exact H|]; unfold is_byte; lia|]. unfold ValidString. rewrite runes_ascii by done.
  induction H as [|c s Hc _ IH]; [done|]. rewrite fmap_cons. cbn [forallb]. rewrite IH. unfold bad_rune, runeError. cbn [fst snd].
  by rewrite (proj2 (Z.eqb_neq c 65533)) by lia.
Qed.

(** A predicate on the strings of a value, its keys apart. *)
Fixpoint strings_all (P : bytes -> bool) (v : value) : bool :=
  match v with
  | VStr s => P s
  | VArr l => forallb (strings_all P) l
  | VObj m => forallb (fun kv => strings_all P kv.2) m
  | _ => true
  end.
Lemma strings_lookup P m k v : strings_all P (VObj m) = true -> obj_lookup k m = Some v -> strings_all P v = true.
Proof.
  cbn. intros H E. apply obj_lookup_Some in E. apply (proj1 (forallb_forall _ _) H (k, v)). by apply list_elem_of_In.
Qed.
Lemma strings_element P l i v : strings_all P (VArr l) = true -> l !! i = Some v -> strings_all P v = true.
Proof. cbn. intros H E. apply (proj1 (forallb_forall _ _) H v). apply list_elem_of_In. by eapply list_elem_of_lookup_2. Qed.
Lemma strings_pointer P tokens : forall v w, strings_all P v = true -> output_tokens v tokens = Ok w -> strings_all P w = true.
Proof.
  induction tokens as [|t tokens IH]; intros v w Hv E; cbn [output_tokens] in E; [by apply Ok_inj in E as <-|].
  apply result_bind_Ok in E as (x & Ex & E). apply (IH x w); [|done]. unfold output_step in Ex.
  apply result_bind_Ok in Ex as (token & _ & Ex). destruct v; try done.
  - destruct (negb _); [done|]. destruct (_ || _); [done|]. destruct (_ !! _) eqn:El; [|done]. apply Ok_inj in Ex as <-. by eapply strings_element.
  - destruct (obj_lookup _ _) eqn:El; [|done]. apply Ok_inj in Ex as <-. by eapply strings_lookup.
Qed.
Lemma strings_outputPointer P v pointer w : strings_all P v = true -> outputPointer v pointer = Ok w -> strings_all P w = true.
Proof.
  unfold outputPointer. intros Hv. destruct (bytes_eqb _ _); [intros E; by apply Ok_inj in E as <-|].
  destruct (negb _); [done|]. by apply strings_pointer.
Qed.

(** The limit check looks at every string. *)
Lemma fold_visit_all {A} (f : A -> Z * Z -> result (Z * Z)) (P : A -> bool) l : forall st st',
  Forall (fun x => forall st st', f x st = Ok st' -> P x = true) l -> fold_visit f l st = Ok st' -> forallb P l = true.
Proof.
  induction l as [|x l IH]; intros st st' H E; [done|]. apply Forall_cons in H as [Hx H]. cbn in E.
  apply result_bind_Ok in E as (s1 & E1 & E). cbn. rewrite (Hx _ _ E1). by apply (IH s1 st').
Qed.
Lemma visit_strings l v : forall d st st', visit l v d st = Ok st' -> strings_all ValidString v = true.
Proof.
  induction v as [|b|s|n|t|f|a IH|m IH|f] using value_ind; intros d [count used] st' E; try done; cbn [visit] in E; (destruct (_ || _); [done|]).
  - apply result_bind_Ok in E as (n & En & _). unfold jsonStringBytes in En. cbn. by destruct (ValidString s).
  - apply result_bind_Ok in E as (u & _ & E). apply fold_visit_all with (P := strings_all ValidString) in E; [done|].
    eapply Forall_impl; [exact IH|]. intros x Hx st st1. apply Hx.
  - apply result_bind_Ok in E as (u & _ & E). apply fold_visit_all with (P := fun kv => strings_all ValidString kv.2) in E; [done|].
    eapply Forall_impl; [exact IH|]. intros kv Hkv [c u'] st1 E'. apply result_bind_Ok in E' as (? & _ & E'). apply result_bind_Ok in E' as (? & _ & E').
    destruct (_ <? _); [done|]. by eapply Hkv.
Qed.
Lemma checkJSONLimits_strings v l : checkJSONLimits v l = Ok tt -> strings_all ValidString v = true.
Proof.
  unfold checkJSONLimits. destruct (_ || _); [done|]. intros E. apply result_bind_Ok in E as (st & E & _). by eapply visit_strings.
Qed.

(** ** Lemmas on records *)

Definition is_bytes (s : bytes) : bool := forallb (fun c => (0 <=? c) && (c <? 256)) s.
Lemma field_ok_intro s : is_bytes s = true -> ValidString s = true -> field_ok s.
Proof. intros H1 H2. split; [by apply bytes_forallb|done]. Qed.
Lemma field_ok_escape s : field_ok s -> field_ok (escapeFormula s).
Proof.
  intros [H1 H2]. unfold escapeFormula. destruct (_ || _); [|done]. split; [constructor; [unfold is_byte; lia|done]|].
  unfold ValidString in *. change (39 :: s) with (EncodeRune 39 ++ s). by rewrite runes_encode.
Qed.
Lemma escapeFormula_nonempty s : s <> [] -> escapeFormula s <> [].
Proof. unfold escapeFormula. by destruct (_ || _). Qed.

Lemma write_float_ascii f t : write_float f = Ok t -> ascii t.
Proof.
  unfold write_float. repeat case_match; intros E; try done; apply Ok_inj in E as <-; first [apply FormatFloat_ascii | apply FormatInt_ascii | by repeat constructor].
Qed.

Definition text_value (v : value) : Prop := strings_all is_bytes v = true /\ strings_all ValidString v = true.
Lemma csvCell_field v escape cell : text_value v -> csvCell v escape = Ok cell -> field_ok cell.
Proof.
  intros [H1 H2]. destruct v as [|b|s|n|t|f|a|m|f]; cbn [csvCell]; unfold canonical_value, CanonicalJSON; cbn [to_json writeCanonical]; intros E; try done.
  - apply Ok_inj in E as <-. apply ascii_field. constructor.
  - apply Ok_inj in E as <-. destruct b; (apply field_ok_intro; reflexivity).
  - apply Ok_inj in E as <-. destruct escape; [apply field_ok_escape|]; by apply field_ok_intro.
  - apply Ok_inj in E as <-. apply ascii_field, FormatInt_ascii.
  - apply ascii_field. by eapply write_float_ascii.
Qed.
Lemma csv_row_fields f row columns : forall record, text_value (VObj row) -> csv_row f row columns = Ok record ->
  Forall field_ok record /\ length record = length columns.
Proof.
  induction columns as [|name columns IH]; intros record Hr E; cbn in E; [by apply Ok_inj in E as <-|].
  apply result_bind_Ok in E as (cell & Ec & E). apply result_bind_Ok in E as (r & Er & E). apply Ok_inj in E as <-.
  apply IH in Er as [H1 H2]; [|done]. split; [|cbn; by rewrite H2]. constructor; [|done]. eapply csvCell_field; [|exact Ec].
  destruct (obj_lookup name row) eqn:El; [|by split]. destruct Hr. split; by eapply strings_lookup.
Qed.

(** The record of a row. *)
Definition row_record (f : OutputFiles) (columns : list bytes) (v : value) (record : list bytes) : Prop :=
  exists row, v = VObj row /\ csv_row f row columns = Ok record.

Section Rows.
Context {W : Type} (dest : W -> bytes -> W * Z * option string).

Lemma publish_None w record w' : publish_record dest w record = (w', None) -> writeRecord dest w record = (w', None).
Proof. unfold publish_record. destruct (writeRecord dest w record) as [w1 [e|]]; cbn; congruence. Qed.
Lemma write_rows_None f columns rows : forall w w', write_rows dest f columns w rows = (w', None) ->
  exists records, Forall2 (row_record f columns) rows records /\ write_records dest w records = (w', None).
Proof.
  induction rows as [|v rows IH]; intros w w' E; cbn [write_rows] in E; [exists []; by split; [constructor|]|].
  destruct v as [| | | | | | |row|]; try done. destruct (csv_row f row columns) as [record|] eqn:Er; [|done].
  destruct (publish_record dest w record) as [w1 [e|]] eqn:Ep; [done|]. apply publish_None in Ep.
  apply IH in E as (records & HF & E). exists (record :: records). split; [constructor; [by exists row|done]|]. cbn. by rewrite Ep.
Qed.
End Rows.

Section RelatedRows.
Context {W : Type} (dest : W -> bytes -> W * Z * option string) (R : W -> W -> Prop) `{!PreOrder R}.
Context (dest_related : forall w p w' n e, dest w p = (w', n, e) -> R w w').

Lemma publish_related w record w' e : publish_record dest w record = (w', e) -> R w w'.
Proof.
  unfold publish_record. destruct (writeRecord dest w record) as [w1 e1] eqn:Ew. intros [= <- _]. by eapply writeRecord_related.
Qed.
Lemma write_rows_related f columns rows : forall w w' e, write_rows dest f columns w rows = (w', e) -> R w w'.
Proof.
  induction rows as [|v rows IH]; intros w w' e E; cbn [write_rows] in E; [by injection E as <- _|].
  destruct v as [| | | | | | |row|]; try by injection E as <- _. destruct (csv_row f row columns); [|by injection E as <- _].
  destruct (publish_record dest w _) as [w1 [e1|]] eqn:Ep; apply publish_related in Ep; [by injection E as <- _|].
  etrans; [exact Ep|by eapply IH].
Qed.
Lemma WriteCSV_related c f v metadata w w' e : WriteCSV dest w c f v metadata = (w', e) -> R w w'.
Proof.
  unfold WriteCSV. destruct (outputPointer v (of_from f)) as [[| | | | | |rows| |]|]; try by intros [= <- _].
  destruct (csv_columns c f metadata); [|by intros [= <- _]].
  destruct (publish_record dest w _) as [w1 [e1|]] eqn:Ep; apply publish_related in Ep; [by intros [= <- _]|].
  intros E. etrans; [exact Ep|]. by eapply write_rows_related.
Qed.
End RelatedRows.

Lemma columns_loop_ok columns : forall seen, columns_loop seen columns = true -> Forall (fun n => n <> [] /\ ValidString n = true) columns.
Proof.
  induction columns as [|n columns IH]; intros seen H; [constructor|]. cbn in H. apply andb_true_iff in H as [H H'].
  rewrite negb_true_iff, !orb_false_iff, negb_false_iff in H. destruct H as [[H1 H2] _]. constructor; [|by eapply IH]. split; [by intros ->|done].
Qed.
Lemma csv_columns_ok c f metadata columns :
  Forall (fun n => is_bytes n = true) (default metadata (of_columns f)) -> csv_columns c f metadata = Ok columns ->
  columns <> [] /\ Forall (fun n => n <> [] /\ field_ok n) columns.
Proof.
  intros Hb E. unfold csv_columns in E. apply result_bind_Ok in E as (cs & Ec & E). case_bool_decide as Hne; [done|].
  apply result_bind_Ok in E as ([] & Ev & E). destruct (_ && _); [done|]. apply Ok_inj in E as <-. split; [done|].
  apply invalid_Ok in Ev. unfold validateColumns in Ev. destruct (columns_loop [] cs) eqn:El; [|done]. apply columns_loop_ok in El.
  assert (Forall (fun n => is_bytes n = true) cs) as Hcs.
  { destruct (of_columns f) as [fc|]; cbn in Hb; [by apply Ok_inj in Ec as <-|]. apply result_bind_Ok in Ec as (schema & _ & Ec).
    apply Ok_inj in Ec as <-. destruct (Items schema) as [i|]; [|done]. destruct (_ && _); [|done].
    apply Forall_forall. intros n Hn. apply list_elem_of_filter in Hn as [_ Hn]. by apply (proj1 (Forall_forall _ _) Hb). }
  apply Forall_forall. intros n Hn. destruct (proj1 (Forall_forall _ _) El n Hn) as [? ?]. split; [done|].
  apply field_ok_intro; [|done]. by apply (proj1 (Forall_forall _ _) Hcs).
Qed.
Lemma csv_header_ok f columns : columns <> [] -> Forall (fun n => n <> [] /\ field_ok n) columns ->
  csv_header f columns <> [] /\ Forall field_ok (csv_header f columns) /\ nonblank (csv_header f columns) = true.
Proof.
  intros Hne H. unfold csv_header, nonblank. rewrite bool_decide_eq_true. destruct columns as [|n columns]; [done|]. apply Forall_cons in H as [[Hn Hf] H].
  assert (Forall field_ok columns) as Hc by (eapply Forall_impl; [exact H|]; by intros ? [_ ?]).
  destruct (of_formula_escape f).
  - rewrite fmap_cons. pose proof (escapeFormula_nonempty n Hn). repeat split; [done| |congruence].
    constructor; [by apply field_ok_escape|]. apply Forall_fmap. eapply Forall_impl; [exact Hc|]. apply field_ok_escape.
  - repeat split; [done|by constructor|congruence].
Qed.

(** The file: the header and the records, each on a line of its own. *)
Lemma WriteCSV_text {W} (dest : W -> bytes -> W * Z * option string) taken `{!LawfulWriter dest taken} c f v metadata w w' :
  WriteCSV dest w c f v metadata = (w', None) ->
  exists columns rows records, csv_columns c f metadata = Ok columns /\ outputPointer v (of_from f) = Ok (VArr rows) /\
    Forall2 (row_record f columns) rows records /\
    taken w' = taken w ++ concat (csv_line <$> csv_header f columns :: records).
Proof.
  unfold WriteCSV. destruct (outputPointer v (of_from f)) as [[| | | | | |rows| |]|] eqn:Ep; try done.
  destruct (csv_columns c f metadata) as [columns|] eqn:Ec; [|done].
  destruct (publish_record dest w _) as [w1 [e|]] eqn:Eh; [done|]. apply publish_None in Eh. intros E.
  apply write_rows_None in E as (records & HF & E). exists columns, rows, records. repeat (split; [done|]).
  assert (write_records dest w (csv_header f columns :: records) = (w', None)) as Ew by (cbn; by rewrite Eh).
  apply (write_records_ok dest taken) in Ew as [Ew _]. by apply Ew.
Qed.
Lemma rows_fields f columns rows records : columns <> [] -> text_value (VArr rows) -> Forall2 (row_record f columns) rows records ->
  Forall (fun r => Forall field_ok r /\ r <> []) records.
Proof.
  intros Hne Ht HF. induction HF as [|v record rows records (row & -> & Er) _ IH]; [constructor|].
  destruct Ht as [H1 H2]. cbn in H1, H2. apply andb_true_iff in H1 as [H1 H1'], H2 as [H2 H2']. constructor; [|by apply IH; split].
  apply csv_row_fields in Er as [H3 H4]; [|by split]. split; [done|]. intros ->. by destruct columns.
Qed.

(* ------------------------------------------------------------------ *)
(** ** Properties *)

(** C5: what is published conforms to the declared schema: a result of [ProjectOutput] satisfies
    every constraint of the schema (types, required and undeclared properties, enumerations,
    bounds, lengths, patterns and formats), holds no file value, and its canonical text, its
    nesting and its number of values are within the policy's limits. *)
Theorem project_output_conforms lib c data columns v :
  ProjectOutput lib c data columns = Ok v -> schema_wf (cap_Schema c) -> wf_value data ->
  conforms lib None (cap_Schema c) v /\ no_files v = true /\
  value_nesting v <= policyInt c "max_json_depth" /\ value_items v <= policyInt c "max_json_items" /\
  exists t, CanonicalInput v = Ok t /\ Z.of_nat (length t) <= policyInt c "max_output_bytes".
Proof.
  intros E Hs Hd. destruct (ProjectOutput_inv _ _ _ _ _ E Hd) as (d' & Hd' & Ev & El & Hn).
  apply checkJSONLimits_ok in El as (_ & _ & _ & _ & H1 & H2 & H3). split; [|done].
  by eapply validate_conforms.
Qed.

(** C27: a CSV file reads back as what was published: when [WriteCSV] succeeds on projected
    data, to any destination that reports how much it takes of every call, the text it has
    added is one that the strict reader of the CSV provider accepts, and the records read are the
    header and the records of the rows in order, except that a record of one empty cell is a blank line. *)
Theorem csv_file_reads_back {W} (dest : W -> bytes -> W * Z * option string) taken `{!LawfulWriter dest taken}
    sjis lib c f data metadata v w w' :
  ProjectOutput lib c data metadata = Ok v -> wf_value data -> strings_all is_bytes v = true ->
  Forall (fun n => is_bytes n = true) (default metadata (of_columns f)) ->
  WriteCSV dest w c f v metadata = (w', None) ->
  exists columns rows records text, csv_columns c f metadata = Ok columns /\ outputPointer v (of_from f) = Ok (VArr rows) /\
    Forall2 (row_record f columns) rows records /\ taken w' = taken w ++ text /\
    read_all sjis 44 (length rows + 2) (utf8_chars text) = Ok (csv_header f columns :: filter (fun r => nonblank r = true) records).
Proof.
  intros E Hd Hb Hm Ew. destruct (ProjectOutput_inv _ _ _ _ _ E Hd) as (_ & _ & _ & El & _). apply checkJSONLimits_strings in El.
  destruct (WriteCSV_text dest taken c f v metadata w w' Ew) as (columns & rows & records & Ec & Ep & HF & Ht).
  destruct (csv_columns_ok c f metadata columns Hm Ec) as [Hne Hcs]. destruct (csv_header_ok f columns Hne Hcs) as (H1 & H2 & H3).
  exists columns, rows, records, (concat (csv_line <$> csv_header f columns :: records)). repeat (split; [done|]).
  rewrite read_all_lines.
  - by rewrite filter_cons_True.
  - constructor; [done|]. eapply rows_fields; [exact Hne| |exact HF]. split; by eapply strings_outputPointer.
  - apply Forall2_length in HF. simpl. lia.
Qed.

(** with [formula_escape], no string of a published file starts a formula in a spreadsheet:
    the first character after white space is none of [=], [+], [-] and [@], and the white space
    has no tab or carriage return; the text is the cell itself, or the cell after an apostrophe. *)
Theorem escaped_cells_safe s cell :
  csvCell (VStr s) true = Ok cell -> formula_safe cell /\ (cell = s \/ cell = 39 :: s /\ ~ formula_safe s).
Proof.
  cbn. intros E. apply Ok_inj in E as <-. split; [apply escapeFormula_safe|]. unfold escapeFormula, formula_safe.
  destruct (existsb _ (leading s)); cbn; [right; split; [done|by intros [? _]]|].
  destruct (trimmed s) as [|ch t]; [by left|]. destruct (formula_char ch); [right|by left]. split; [done|]. by intros [_ ?].
Qed.

(** ** Witnesses *)

(** Rows with one string column, published as a CSV file with escaped formulas. *)
Definition example_item : Schema :=
  MkSchema {| Types := [lit "object"]; PropertyOrder := [lit "name"]; PropertiesSet := true;
    AdditionalAllowed := false; Required := [lit "name"]; Default := VNull; DefaultSet := false;
    Nullable := false; Constraints := []; File := None; SPattern := None; patternSource := []; normalized := [];
    output := true |} [(lit "name", example_string)] None None.
Definition example_rows_schema : Schema := MkSchema (set_Types empty_data [lit "array"]) [] (Some example_item) None.
Definition example_capability : Capability :=
  {| cap_Schema := example_rows_schema; cap_Data := true; cap_Files := None; cap_Mode := lit "project"; cap_Type := lit "csv";
     cap_Operation := []; cap_Policy := [(lit "max_output_bytes", 1000); (lit "max_json_depth", 8); (lit "max_json_items", 100)] |}.
Definition example_files : OutputFiles :=
  {| of_format := lit "csv"; of_from := []; of_columns := None; of_formula_escape := true; of_filename := lit "a.csv";
     of_mime_type := Some (lit "text/csv"); of_rest := lit "direct" |}.
Definition example_row (s : string) : value := VObj [(lit "name", VStr (lit s)); (lit "secret", VInt 1)].
Definition example_rows : value := VArr [example_row "=1+1"; example_row "a,b"; example_row ""].
Definition example_projected : value :=
  VArr ((fun s => VObj [(lit "name", VStr (lit s))]) <$> ["=1+1"; "a,b"; ""]%string).

(** A destination that takes everything. *)
Definition append_writer (w p : bytes) : bytes * Z * option string := (w ++ p, Z.of_nat (length p), None).
#[export] Instance append_lawful : LawfulWriter append_writer (fun w => w).
Proof.
  split; intros w p w' n e [= <- <- <-]; [lia|]. by rewrite Nat2Z.id, firstn_all.
Qed.

Lemma example_item_wf : schema_wf example_item.
Proof.
  constructor; [split; simpl; try done| | |done|done].
  - by apply (bool_decide_unpack _).
  - by intros _ t ->%list_elem_of_singleton; left.
  - constructor.
  - repeat constructor.
  - apply Forall_singleton, example_string_wf.
Qed.
Lemma example_rows_wf : schema_wf example_rows_schema /\ wf_value example_rows.
Proof.
  split; [|repeat constructor]. constructor; [split; simpl; try done| | | |done].
  - constructor.
  - by intros _ t ->%list_elem_of_singleton; left.
  - constructor.
  - constructor.
  - constructor.
  - intros i [= <-]. apply example_item_wf.
Qed.
Lemma example_projects : ProjectOutput example_engines example_capability example_rows [lit "name"; lit "secret"] = Ok example_projected.
Proof. vm_compute. reflexivity. Qed.

Lemma project_output_conforms_witness :
  ProjectOutput example_engines example_capability example_rows [lit "name"; lit "secret"] = Ok example_projected /\
  conforms example_engines None example_rows_schema example_projected.
Proof.
  split; [apply example_projects|].
  apply (project_output_conforms example_engines example_capability example_rows [lit "name"; lit "secret"]); [apply example_projects|apply example_rows_wf|apply example_rows_wf].
Defined.

Lemma csv_file_reads_back_witness : exists text,
  WriteCSV append_writer [] example_capability example_files example_projected [lit "name"; lit "secret"] = (text, None) /\
  exists columns rows records text', csv_columns example_capability example_files [lit "name"; lit "secret"] = Ok columns /\
    outputPointer example_projected [] = Ok (VArr rows) /\ Forall2 (row_record example_files columns) rows records /\ text = [] ++ text' /\
    read_all (fun _ _ => None) 44 (length rows + 2) (utf8_chars text') =
      Ok (csv_header example_files columns :: filter (fun r => nonblank r = true) records).
Proof.
  eexists. split; [vm_compute; reflexivity|].
  eapply (csv_file_reads_back append_writer (fun w => w) (fun _ _ => None) example_engines example_capability example_files example_rows).
  - apply example_projects.
  - apply example_rows_wf.
  - reflexivity.
  - repeat constructor.
  - vm_compute. reflexivity.
Defined.

Lemma escaped_cells_safe_witness : csvCell (VStr (lit "=1+1")) true = Ok (39 :: lit "=1+1") /\ formula_safe (39 :: lit "=1+1").
Proof. split; [reflexivity|]. apply (escaped_cells_safe (lit "=1+1")). reflexivity. Defined.
