(* ===== verification/Normalised.v ===== *)
(** * Validation is done once and for all
    The agent validates the arguments of a request when it admits the request, and again
    when it executes it. Arguments that were normalised by [ValidateInput] are accepted again,
    and normalising them again changes nothing. *)
From Stdlib Require Import ZArith Lia SpecFloat.
From stdpp Require Import base list option sorting strings.
From S2P Require Import Prelude Utf8 Strconv Json JsonText Canonical GoStrings InputValue ValueFormat Schema Pointer Validation Conformance Output.
Local Open Scope Z_scope.

(** A schema that does not list both types of numbers: a text such as 4503599627370496.00000000000001
    is no integer, but the nearest binary64 number is, so such a schema normalises it twice. *)
Fixpoint numbers_apart (s : Schema) : bool :=
  match s with
  | MkSchema d props items additional =>
      negb (contains (Types d) (lit "integer") && contains (Types d) (lit "number")) &&
      forallb (fun kv => numbers_apart kv.2) props &&
      match items with Some i => numbers_apart i | None => true end &&
      match additional with Some a => numbers_apart a | None => true end
  end.
(** Finite numbers and valid keys, as the limits on bytes imply. *)
Fixpoint writable (v : value) : bool :=
  match v with
  | VFloat f => is_finite f
  | VArr l => forallb writable l
  | VObj m => forallb (fun kv => ValidString kv.1 && writable kv.2) m
  | _ => true
  end.

(* ------------------------------------------------------------------ *)
(** ** Lemmas: what the limits imply *)

Lemma visit_writable l v : forall d st st', visit l v d st = Ok st' -> writable v = true.
Proof.
  induction v as [|b|s|n|t|f|a IH|m IH|f] using value_ind; intros d [count used] st' E; try done; cbn [visit] in E; destruct (_ || _) in E; try done.
  - apply result_bind_Ok in E as (b & Eb & _). by destruct f.
  - apply result_bind_Ok in E as (u & _ & E). eapply fold_visit_all; [|exact E]. eapply Forall_impl; [exact IH|]. cbn. eauto.
  - apply result_bind_Ok in E as (u & _ & E). eapply fold_visit_all; [|exact E]. eapply Forall_impl; [exact IH|]. intros kv Hkv [c2 u2] st2 E2. cbn beta in E2.
    apply result_bind_Ok in E2 as (n & En & E2). apply result_bind_Ok in E2 as (u3 & _ & E2). destruct (_ <? _) in E2; [done|]. unfold jsonStringBytes in En. destruct (ValidString kv.1); [|done]. by eapply Hkv.
Qed.
Lemma limits_writable v l : checkJSONLimits v l = Ok tt -> writable v = true.
Proof. unfold checkJSONLimits. destruct (_ || _); [done|]. intros E. apply result_bind_Ok in E as (st & E & _). by eapply visit_writable. Qed.

(** ** Lemmas: numbers *)

Lemma float_again d v v' : validate_float d v = Ok v' -> writable v' = true -> validate_float d v' = Ok v'.
Proof.
  unfold validate_float. destruct (finiteNumber v) as [n|]; [|done]. intros E Hf.
  assert ((exists i, v' = VInt i /\ (Types d = [] \/ output d = true)) \/ v' = VFloat n) as [(i & -> & Hd)| ->].
  { destruct (Types d), v; repeat case_match; try done; apply Ok_inj in E as <-; eauto 10. }
  - cbn. destruct Hd as [-> | ->]; [done|]. by destruct (Types d).
  - cbn in *. rewrite Hf. by destruct (Types d).
Qed.
Lemma normalize_again d v t v' : negb (contains (Types d) (lit "integer") && contains (Types d) (lit "number")) = true ->
  normalize d v = Ok (t, v') -> writable v' = true -> normalize d v' = Ok (t, v').
Proof.
  intros Ha E Hf. pose proof E as E0. apply normalize_cases in E as [(-> & _ & _)|(_ & Hk & Hcase)]; [done|]. unfold normalize.
  assert (json_type v' = Some "number"%string) as -> by (by destruct Hk as [[n ->]|[f ->]]). cbn [negb String.eqb Ascii.eqb Bool.eqb].
  destruct Hcase as [(-> & -> & n & _ & ->)|(-> & Hi & Hv)]; [done|]. destruct (contains (Types d) (lit "integer")).
  - destruct (Hi eq_refl) as [_ Hn]. by rewrite Hn in Ha.
  - by rewrite (float_again d v v' Hv Hf).
Qed.

(** ** Lemmas: values without a schema *)

Lemma free_again v : forall v', wf_value v -> free v = Ok v' -> writable v' = true -> free v' = Ok v'.
Proof.
  induction v as [|b|s|n|t|f|l IH|m IH|f] using value_ind; intros v' Hwf E Hf; apply free_kind in E as Hk; cbn in Hk; try (by subst).
  - destruct Hk as [-> Hs]. cbn. by rewrite Hs.
  - pose proof (float_again _ _ _ Hk Hf) as Ha. by apply validate_float_scalar in Hk as [[n ->]|[g ->]].
  - pose proof (float_again _ _ _ Hk Hf) as Ha. by apply validate_float_scalar in Hk as [[n ->]|[g ->]].
  - destruct Hk as (a & -> & Ha). inversion_clear Hwf as [| | | | | | |? Hl|]. cbn [free]. clear E. cbn [writable] in Hf.
    assert ((fix go l := match l with [] => Ok [] | x :: l => let* y := free x in let* r := go l in Ok (y :: r) end) a = Ok a) as ->; [|done].
    induction Ha as [|x y l a Hx _ IHa]; [done|]. inversion_clear IH as [|? ? I1 I2]. inversion_clear Hl as [|? ? W1 W2]. apply andb_true_iff in Hf as [F1 F2].
    rewrite (I1 y W1 Hx F1). cbn. by rewrite (IHa I2 F2 W2).
  - destruct Hk as [o ->]. inversion_clear Hwf as [| | | | | | | |? Hm Hv]. destruct (free_obj m o E Hm) as (Hkeys & Hall & Hvalid). clear E. cbn [free].
    assert (forallb (fun kv : bytes * value => ValidString kv.1) o = true) as ->.
    { clear -Hall Hvalid. induction Hall as [|kv kw m o [E _] _ IH]; [done|]. apply andb_true_iff in Hvalid as [V1 V2]. cbn. by rewrite E, V1, IH. }
    assert (forall acc, (fix go m o := match m with [] => Ok o | kv :: m => let* y := free kv.2 in go m (obj_insert kv.1 y o) end) o acc = Ok (foldl (fun m kv => obj_insert kv.1 kv.2 m) acc o)) as Hgo.
    { clear Hkeys Hvalid Hm. cbn [writable] in Hf. induction Hall as [|kv kw m o [_ Hx] _ IHa]; intros acc; [done|]. inversion_clear IH as [|? ? I1 I2]. inversion_clear Hv as [|? ? W1 W2]. apply andb_true_iff in Hf as [[_ F1]%andb_true_iff F2].
      rewrite (I1 _ W1 Hx F1). cbn. by apply IHa. }
    rewrite Hgo. cbn. fold (obj_of_list o). rewrite obj_of_list_id; [done|]. unfold obj_sorted. by rewrite Hkeys.
Qed.

(* ------------------------------------------------------------------ *)
(** ** Lemmas: the loops, on values that validate to themselves *)

#[local] Arguments entries_leaves : simpl never.
#[local] Arguments add_leaves : simpl never.
Abbreviation inserted o l := (foldl (fun m kv => obj_insert kv.1 kv.2 m) o l).
Lemma entries_leaves_cons e es : entries_leaves (e :: es) = e_leaves e ++ entries_leaves es.
Proof. done. Qed.
Lemma properties_again defaults d child x pointer order : forall es o lv, NoDup order -> sublist (e_key <$> es) order ->
  (forall e, e ∈ es -> exists c, child (e_key e) = Some c /\ obj_lookup (e_key e) x = Some (e_value e) /\
    forall lv, pr_validate c (e_value e) (pointer ++ 47 :: escapePointer (e_key e)) lv = Ok (e_value e, add_leaves lv (e_leaves e))) ->
  (forall k, k ∈ order -> k ∉ e_key <$> es -> (k ∉ Required d) /\ exists c, child k = Some c /\ source defaults c x k = None) ->
  validate_properties defaults d child x pointer order o lv = Ok (inserted o (entry_pair <$> es), add_leaves lv (entries_leaves es)).
Proof.
  induction order as [|k order IH]; intros es o lv Hnd Hsub Hes Hmiss.
  - apply sublist_nil_r, fmap_nil_inv in Hsub as ->. cbn. by rewrite add_leaves_nil.
  - apply NoDup_cons in Hnd as [Hk Hnd]. cbn [validate_properties]. apply sublist_cons_r in Hsub as [Hsub|(l & El & Hsub)].
    + assert (k ∉ e_key <$> es) as Hn by (intros Hin; apply Hk; eapply sublist_subseteq; done). destruct (Hmiss k ltac:(left) Hn) as (Hr & c & Hc & Hsrc). rewrite Hc. fold (source defaults c x k). rewrite Hsrc.
      assert (contains (Required d) k = false) as -> by (by apply contains_false). apply IH; try done. intros j Hj. apply Hmiss. by right.
    + destruct es as [|e es]; [done|]. rewrite fmap_cons in El. injection El as <- <-. destruct (Hes e ltac:(left)) as (c & Hc & Hl & Hv). rewrite Hc, Hl, Hv. cbn [result_bind fst snd fmap list_fmap foldl].
      rewrite entries_leaves_cons, <- add_leaves_app. apply IH; try done; [intros e' He'; apply Hes; by right|]. intros j Hj Hn. apply Hmiss; [by right|]. rewrite fmap_cons, not_elem_of_cons. split; [by intros ->|done].
Qed.
Lemma additional_again additional pointer es : forall o lv,
  (forall e, e ∈ es -> forall lv, additional (e_value e) (pointer ++ 47 :: escapePointer (e_key e)) lv = Ok (e_value e, add_leaves lv (e_leaves e))) ->
  validate_additional additional pointer (entry_pair <$> es) o lv = Ok (inserted o (entry_pair <$> es), add_leaves lv (entries_leaves es)).
Proof.
  induction es as [|e es IH]; intros o lv Hes; cbn; [by rewrite add_leaves_nil|]. rewrite (Hes e ltac:(left)). cbn [result_bind fst snd]. rewrite IH by (intros e' He'; apply Hes; by right).
  by rewrite entries_leaves_cons, <- add_leaves_app.
Qed.
Lemma items_again item pointer es : forall i lv,
  (forall n e, es !! n = Some e -> forall lv, item (e_value e) (pointer ++ 47 :: FormatInt (i + Z.of_nat n)) lv = Ok (e_value e, add_leaves lv (e_leaves e))) ->
  validate_items item pointer i (e_value <$> es) lv = Ok (e_value <$> es, add_leaves lv (entries_leaves es)).
Proof.
  induction es as [|e es IH]; intros i lv Hes; cbn; [by rewrite add_leaves_nil|]. pose proof (Hes 0%nat e eq_refl) as H0. rewrite Z.add_0_r in H0. rewrite H0. cbn [result_bind fst snd].
  rewrite IH; [cbn; by rewrite entries_leaves_cons, <- add_leaves_app|]. intros n e' He' lv'. replace (i + 1 + Z.of_nat n) with (i + Z.of_nat (S n)) by lia. by apply (Hes (S n)).
Qed.

(** The entries of undeclared keys, found again in the result. *)
Lemma sorted_perm_eq (l l' : list (bytes * value)) : obj_sorted l -> obj_sorted l' -> l ≡ₚ l' -> l = l'.
Proof.
  intros Hl Hl' Hp. assert (forall k, obj_lookup k l = obj_lookup k l') as Hlk.
  { intros k. destruct (obj_lookup k l) as [v|] eqn:E.
    - apply obj_lookup_Some in E. rewrite Hp in E. symmetry. by apply obj_sorted_lookup.
    - destruct (obj_lookup k l') as [v|] eqn:E'; [|done]. apply obj_lookup_Some in E'. rewrite <- Hp in E'. apply obj_sorted_lookup in E'; [congruence|done]. }
  assert (l.*1 = l'.*1) as Hk by (apply (StronglySorted_unique_strong bytes_lt); [|done|done|by rewrite Hp]; intros a b _ _ Hab Hba; exfalso; by apply (bytes_lt_neq a a); [eapply bytes_lt_trans|]).
  clear Hp. revert l' Hl' Hlk Hk. induction l as [|[k v] l IH]; intros [|[k' v'] l'] Hl' Hlk Hk; try done. cbn in Hk. injection Hk as <- Hk.
  pose proof (Hlk k) as Hv. cbn in Hv. rewrite bytes_eqb_refl in Hv. injection Hv as <-. f_equal.
  pose proof (obj_sorted_NoDup _ Hl) as N1. pose proof (obj_sorted_NoDup _ Hl') as N2. inversion_clear N1 as [|? ? M1 _]. inversion_clear N2 as [|? ? M2 _].
  unfold obj_sorted in *. cbn in Hl, Hl'. inversion_clear Hl as [|? ? S1 _]. inversion_clear Hl' as [|? ? S2 _]. apply IH; try done.
  intros j. specialize (Hlk j). cbn in Hlk. destruct (bytes_eqb j k) eqn:E; [|done]. apply bytes_eqb_true in E as ->.
  assert (forall m : list (bytes * value), k ∉ m.*1 -> obj_lookup k m = None) as Hnone.
  { intros m Hm. destruct (obj_lookup k m) as [w|] eqn:Ew; [|done]. apply obj_lookup_Some in Ew. destruct Hm. apply list_elem_of_fmap. by exists (k, w). }
  by rewrite !Hnone.
Qed.

(* ------------------------------------------------------------------ *)
(** ** Lemmas: schemas *)

Lemma filter_none {A} (P : A -> Prop) `{!forall x, Decision (P x)} (l : list A) : (forall x, x ∈ l -> ~ P x) -> filter P l = [].
Proof. induction l as [|x l IH]; intros Hn; [done|]. rewrite filter_cons_False by (apply Hn; left). apply IH. intros y Hy. apply Hn. by right. Qed.

Lemma check_keys_ext d f g (x : list (bytes * value)) : (forall k, f k = g k) -> check_keys d f x = check_keys d g x.
Proof.
  intros H. unfold check_keys. assert (forall a b l, existsb (fun kv : bytes * value => negb (f kv.1) && a && b) l = existsb (fun kv => negb (g kv.1) && a && b) l) as ->; [|done].
  intros a b. induction l as [|kv l IH]; [done|]. cbn [existsb]. by rewrite IH, H.
Qed.

Section Again.
Context (lib : engines) (limit : option Z).
Abbreviation validate := (validate lib true limit).
Abbreviation child_list := (child_list lib true limit).
(** What was validated once. *)
Definition steady (s : Schema) (v : value) (p : bytes) (v' : value) (new : list FileLeaf) : Prop :=
  schema_wf s -> numbers_apart s = true -> wf_value v -> writable v' = true -> forall lv, validate s v' p lv = Ok (v', add_leaves lv new).

Lemma validate_node s v p lv : v <> VNull -> File (sdata s) = None -> validate s v p lv =
  validate_value lib true (sdata s) (fun k => obj_lookup k (child_list (Properties s)))
    (match Items s with Some i => validate i | None => validate_free end) (match Additional s with Some a => validate a | None => validate_free end) v p lv.
Proof. destruct s as [d props items additional]. cbn [Schema.validate sdata]. intros Hv ->. by destruct v. Qed.
Lemma validate_optional o v p lv : (match o with Some i => validate i | None => validate_free end) v p lv = validate (default free_schema o) v p lv.
Proof. destruct o; [done|]. cbn [default]. by rewrite free_schema_validate. Qed.
Lemma apart_child s k c : numbers_apart s = true -> obj_lookup k (Properties s) = Some c -> numbers_apart c = true.
Proof. destruct s as [d props items additional]. cbn. rewrite !andb_true_iff. intros [[[_ H] _] _] E%obj_lookup_Some. rewrite forallb_forall in H. apply list_elem_of_In in E. by apply (H (k, c)). Qed.
Lemma apart_optional s : numbers_apart s = true -> numbers_apart (default free_schema (Items s)) = true /\ numbers_apart (default free_schema (Additional s)) = true /\
  negb (contains (Types (sdata s)) (lit "integer") && contains (Types (sdata s)) (lit "number")) = true.
Proof. destruct s as [d props items additional]. cbn [numbers_apart Items Additional sdata]. rewrite !andb_true_iff. intros [[[H1 _] H2] H3]. by destruct items, additional. Qed.

Lemma scalar_steady s v p t v' : File (sdata s) = None -> no_children v' = true -> scalar_checked lib (sdata s) v t v' -> steady s v p v' [].
Proof.
  intros HF Hn [Hnorm Ht Hstr Hb He] _ Ha _ Hf lv. destruct (apart_optional s Ha) as (_ & _ & Hd). pose proof (normalize_again _ _ _ _ Hd Hnorm Hf) as Hagain.
  assert (v' <> VNull /\ forall f, v' <> VFile f) as [Hnull Hfile] by (by apply normalize_cases in Hnorm as [(-> & Hj & _)|(_ & [[n ->]|[f ->]] & _)]; [destruct v|..]).
  rewrite validate_node by done. unfold validate_value. rewrite Hagain. cbn [result_bind fst snd]. rewrite Ht. cbn [negb]. rewrite add_leaves_nil.
  assert (forall child item more, validate_typed lib true (sdata s) child item more v' p lv = Ok (v', lv)) as -> by (intros; destruct v'; try done; cbn; by rewrite Hstr).
  cbn [result_bind fst snd]. destruct (_ || _) eqn:E.
  - rewrite Hb by (apply orb_true_iff in E as [->%String.eqb_eq | ->%String.eqb_eq]; auto). cbn. by rewrite He.
  - cbn. by rewrite He.
Qed.
Lemma array_steady s x p es : File (sdata s) = None -> array_checked steady s x p es -> steady s (VArr x) p (VArr (e_value <$> es)) (entries_leaves es).
Proof.
  intros HF [Hmin Hmax Hlen Hes Ht He] Hs Ha Hx Hf lv. destruct (apart_optional s Ha) as (Hi & _). inversion_clear Hx as [| | | | | | |? Hvals|].
  rewrite validate_node by done. unfold validate_value. cbn [normalize json_type String.eqb Ascii.eqb Bool.eqb negb result_bind fst snd]. rewrite Ht. cbn [negb validate_typed]. unfold validate_array. rewrite length_fmap, Hlen.
  assert ((match int_constraint (sdata s) "minItems" with Some lo => Z.of_nat (length x) <? lo | None => false end) = false) as -> by (destruct (int_constraint (sdata s) "minItems"); [|done]; apply Z.ltb_ge; auto).
  assert ((match int_constraint (sdata s) "maxItems" with Some hi => hi <? Z.of_nat (length x) | None => false end) = false) as -> by (destruct (int_constraint (sdata s) "maxItems"); [|done]; apply Z.ltb_ge; auto).
  rewrite items_again; [cbn; by rewrite He|]. intros n e Hn lv'. rewrite Z.add_0_l, validate_optional. destruct (x !! n) as [v|] eqn:Ev; [|apply lookup_ge_None in Ev; apply lookup_lt_Some in Hn; lia].
  apply (Hes n v e Ev Hn); [by apply items_wf|done|apply (proj1 (Forall_forall _ _) Hvals); by eapply list_elem_of_lookup_2|].
  cbn [writable] in Hf. rewrite forallb_forall in Hf. apply Hf, list_elem_of_In, list_elem_of_fmap. exists e. split; [done|]. by eapply list_elem_of_lookup_2.
Qed.
Lemma entry_found es es' e : NoDup (entry_pair <$> (es ++ es')).*1 -> e ∈ es ++ es' -> obj_lookup (e_key e) (obj_of_list (entry_pair <$> (es ++ es'))) = Some (e_value e).
Proof. intros Hnd He. apply obj_sorted_lookup; [apply obj_of_list_sorted|]. rewrite obj_of_list_perm by done. apply list_elem_of_fmap. by exists e. Qed.
Lemma entry_missing es es' k : k ∉ e_key <$> (es ++ es') -> NoDup (entry_pair <$> (es ++ es')).*1 -> obj_lookup k (obj_of_list (entry_pair <$> (es ++ es'))) = None.
Proof.
  intros Hk Hnd. destruct (obj_lookup k _) as [v|] eqn:E; [|done]. apply obj_lookup_Some in E. rewrite obj_of_list_perm in E by done. apply list_elem_of_fmap in E as (e & [= -> ->] & He). destruct Hk. apply list_elem_of_fmap. by exists e.
Qed.
(** The undeclared keys of a result are those of the input, in the same order. *)
Lemma undeclared_found s x p es es' : schema_wf s -> obj_sorted x -> object_checked true steady s x p es es' ->
  filter (fun kv => declared (Properties s) kv.1 = false) (obj_of_list (entry_pair <$> (es ++ es'))) = entry_pair <$> es'.
Proof.
  intros Hs Hx Hoc. pose proof (entries_NoDup _ _ _ _ _ _ _ Hs Hx Hoc) as Hnd. destruct Hoc as [_ _ Hes _ Hadd _ _]. apply sorted_perm_eq.
  - unfold obj_sorted. eapply sorted_sublist; [apply fmap_sublist, sublist_filter|apply obj_of_list_sorted].
  - unfold obj_sorted. assert ((entry_pair <$> es').*1 = (filter (fun kv => declared (Properties s) kv.1 = false) x).*1) as ->.
    { clear -Hadd. induction Hadd as [|kv e l l' [H _] _ IH]; [done|]. rewrite !fmap_cons, IH. cbn. by rewrite H. }
    eapply sorted_sublist; [apply fmap_sublist, sublist_filter|done].
  - rewrite obj_of_list_perm by done. rewrite fmap_app, filter_app. assert (filter (fun kv : bytes * value => declared (Properties s) kv.1 = false) (entry_pair <$> es) = []) as ->.
    { apply filter_none. intros kv Hin Hd. apply list_elem_of_fmap in Hin as (e & -> & He). rewrite Forall_forall in Hes. destruct (Hes e He) as (c & v & Hc & _). unfold declared in Hd. cbn in Hd. by rewrite Hc in Hd. }
    cbn [app]. rewrite filter_all; [done|]. apply Forall_forall. intros kv Hin. apply list_elem_of_fmap in Hin as (e & -> & He). apply list_elem_of_lookup in He as (i & Hi).
    destruct (Forall2_lookup_r _ _ _ _ _ Hadd Hi) as (kw & Hkw & Hkey & _). apply list_elem_of_lookup_2, list_elem_of_filter in Hkw as [Hd _]. cbn. by rewrite Hkey.
Qed.
Lemma entry_writable es e : writable (VObj (obj_of_list (entry_pair <$> es))) = true -> NoDup (entry_pair <$> es).*1 -> e ∈ es -> ValidString (e_key e) = true /\ writable (e_value e) = true.
Proof.
  cbn [writable]. rewrite forallb_forall. intros H Hnd He. apply andb_true_iff, (H (e_key e, e_value e)). apply list_elem_of_In. rewrite obj_of_list_perm by done. apply list_elem_of_fmap. by exists e.
Qed.
Lemma keys_again s x p es es' : schema_wf s -> obj_sorted x -> object_checked true steady s x p es es' -> writable (VObj (obj_of_list (entry_pair <$> (es ++ es')))) = true ->
  check_keys (sdata s) (declared (Properties s)) (obj_of_list (entry_pair <$> (es ++ es'))) = Ok tt.
Proof.
  intros Hs Hx Hoc Hw. pose proof (entries_NoDup _ _ _ _ _ _ _ Hs Hx Hoc) as Hnd. unfold check_keys.
  assert (forall kv, kv ∈ obj_of_list (entry_pair <$> (es ++ es')) -> exists e, kv = entry_pair e /\ e ∈ es ++ es') as Hin by (intros kv Hkv; rewrite obj_of_list_perm in Hkv by done; by apply list_elem_of_fmap in Hkv).
  assert (forallb (fun kv : bytes * value => ValidString kv.1) (obj_of_list (entry_pair <$> (es ++ es'))) = true) as ->.
  { apply forallb_forall. intros kv Hkv. apply list_elem_of_In, Hin in Hkv as (e & -> & He). by apply (entry_writable _ e Hw Hnd He). }
  cbn [negb]. destruct (existsb _ _) eqn:E; [|done]. apply existsb_exists in E as (kv & Hkv & E). apply list_elem_of_In, Hin in Hkv as (e & -> & He). cbn [fst entry_pair] in E.
  destruct Hoc as [Hkeys _ Hes _ Hadd _ _]. apply elem_of_app in He as [He|He].
  - rewrite Forall_forall in Hes. destruct (Hes e He) as (c & v & Hc & _). unfold declared in E. by rewrite Hc in E.
  - apply list_elem_of_lookup in He as (i & Hi). destruct (Forall2_lookup_r _ _ _ _ _ Hadd Hi) as (kw & Hkw & Hkey & _). apply list_elem_of_lookup_2, list_elem_of_filter in Hkw as [_ Hkw].
    unfold check_keys in Hkeys. destruct (forallb _ x); [|done]. destruct (existsb _ x) eqn:Ex; [done|]. cbn in Hkeys. rewrite Hkey in E. apply not_true_iff_false in Ex. destruct Ex. apply existsb_exists. exists kw. split; [by apply list_elem_of_In|done].
Qed.
Lemma object_steady s x p es es' : File (sdata s) = None -> object_checked true steady s x p es es' ->
  steady s (VObj x) p (VObj (obj_of_list (entry_pair <$> (es ++ es')))) (entries_leaves (es ++ es')).
Proof.
  intros HF Hoc Hs Ha Hx Hw lv. destruct (apart_optional s Ha) as (_ & Hadditional & _). inversion Hx as [| | | | | | | |? Hsorted Hvals]; subst.
  pose proof (entries_NoDup _ _ _ _ _ _ _ Hs Hsorted Hoc) as Hnd. pose proof (keys_again _ _ _ _ _ Hs Hsorted Hoc Hw) as Hkeys. pose proof (undeclared_found _ _ _ _ _ Hs Hsorted Hoc) as Hfilter. destruct Hoc as [_ Hsub Hes Hmiss Hadd Ht He].
  set (o := obj_of_list (entry_pair <$> (es ++ es'))) in *. rewrite validate_node by done. unfold validate_value. cbn [normalize json_type String.eqb Ascii.eqb Bool.eqb negb result_bind fst snd]. rewrite Ht. cbn [negb validate_typed].
  assert (validate_object true (sdata s) (fun k => obj_lookup k (child_list (Properties s))) (match Additional s with Some a => validate a | None => validate_free end) o p lv = Ok (o, add_leaves lv (entries_leaves (es ++ es')))) as ->; [|cbn; by rewrite He].
  assert (forall k, match obj_lookup k (child_list (Properties s)) with Some _ => true | None => false end = declared (Properties s) k) as Hdec by (intros k; unfold declared; rewrite child_lookup; by destruct (obj_lookup k (Properties s))).
  unfold validate_object. assert (check_keys (sdata s) (fun k => match obj_lookup k (child_list (Properties s)) with Some _ => true | None => false end) o = Ok tt) as ->.
  { rewrite <- Hkeys. by apply check_keys_ext. }
  cbn [result_bind]. rewrite (properties_again _ _ _ _ _ _ es); [|by destruct Hs as [d ? ? ? Hd]; apply (wf_order _ _ _ Hd)|done| |].
  - cbn [result_bind fst snd]. assert (filter (fun kv : bytes * value => (match obj_lookup kv.1 (child_list (Properties s)) with Some _ => true | None => false end) = false) o = entry_pair <$> es') as ->.
    { rewrite <- Hfilter. apply list_filter_iff. intros kv. by rewrite Hdec. }
    rewrite additional_again.
    + unfold o, obj_of_list. rewrite fmap_app, foldl_app, add_leaves_app. unfold entries_leaves. by rewrite fmap_app, concat_app.
    + intros e Hin lv'. rewrite validate_optional. destruct (entry_writable _ e Hw Hnd ltac:(apply elem_of_app; by right)) as [_ Hwe]. apply list_elem_of_lookup in Hin as (i & Hi). destruct (Forall2_lookup_r _ _ _ _ _ Hadd Hi) as (kw & Hkw & Hkey & HQ).
      apply list_elem_of_lookup_2, list_elem_of_filter in Hkw as [_ Hkw]. rewrite Hkey. apply HQ; [by apply additional_wf|done|by apply (proj1 (Forall_forall _ _) Hvals)|done].
  - intros e Hin. rewrite Forall_forall in Hes. destruct (Hes e Hin) as (c & v & Hc & Hsrc & HQ). exists (child_property lib true limit c). rewrite child_lookup, Hc. split; [done|]. split; [apply entry_found; [done|apply elem_of_app; by left]|].
    destruct (entry_writable _ e Hw Hnd ltac:(apply elem_of_app; by left)) as [_ Hwe]. intros lv'. assert (schema_wf c) as Hcw by (by eapply child_wf). apply HQ; [done|exact (apart_child s _ c Ha Hc)|by eapply source_wf|done].
  - intros k Hk Hn. destruct (Hmiss k Hk Hn) as (Hr & c & Hc & Hsrc). split; [done|]. exists (child_property lib true limit c). rewrite child_lookup, Hc. split; [done|]. unfold source, o. rewrite entry_missing; [|..|done].
    + unfold property_source in Hsrc. cbn. by destruct (obj_lookup k x).
    + rewrite fmap_app. apply not_elem_of_app. split; [done|]. intros Hin. apply list_elem_of_fmap in Hin as (e & -> & Hin). apply list_elem_of_lookup in Hin as (i & Hi). destruct (Forall2_lookup_r _ _ _ _ _ Hadd Hi) as (kw & Hkw & Hkey & _).
      apply list_elem_of_lookup_2, list_elem_of_filter in Hkw as [Hd _]. unfold declared in Hd. by rewrite <- Hkey, Hc in Hd.
Qed.
Lemma validate_again s v p lv v' lv' : validate s v p lv = Ok (v', lv') -> exists new, lv' = add_leaves lv new /\ steady s v p v' new.
Proof.
  apply (validation_rule lib true limit steady).
  - intros w q w' Ef _ _ Hw Hf lv2. rewrite free_schema_validate, add_leaves_nil. unfold validate_free. by rewrite (free_again w w' Hw Ef Hf).
  - intros [d props items additional] q E _ _ _ _ lv2. cbn in *. by rewrite E, add_leaves_nil.
  - intros [d props items additional] fc f q w' new HF E _ _ _ _ lv2. cbn in HF. unfold validate_file in E. cbn [sdata Properties Items Additional] in E. destruct (_ || _) eqn:E1 in E; [done|]. destruct (negb _) eqn:E2 in E; [done|].
    apply result_bind_Ok in E as ([] & E3 & E). apply Ok_inj in E. injection E as <- <-. cbn [Schema.validate]. rewrite HF. unfold validate_file. by rewrite E1, E2, E3.
  - intros c w q t w' HF Hn Hsc. by eapply scalar_steady.
  - intros c x q es es' HF Hoc. by apply object_steady.
  - intros c x q es HF Hac. by apply array_steady.
Qed.
End Again.

(** Validation is idempotent: arguments that [ValidateInput] has normalised are accepted by it
    again, with the same files, and normalising them again does not change them. *)
Lemma validated_again lib s input l m fs : ValidateInput lib s input l = Ok (m, fs) -> schema_wf s -> numbers_apart s = true -> wf_value (VObj input) ->
  ValidateInput lib s m l = Ok (m, fs).
Proof.
  intros E Hs Ha Hv. apply ValidateInput_inv in E as (_ & E & Hfiles & (total & Ht & Htotal) & El). pose proof (limits_writable _ _ El) as Hw.
  apply validate_again in E as (new & Hnew & Hsteady). change (Some fs = Some new) in Hnew. injection Hnew as <-. unfold ValidateInput. rewrite El. cbn [result_bind]. rewrite (Hsteady Hs Ha Hv Hw). change (add_leaves (Some []) fs) with (Some fs). cbn [result_bind fst snd]. change (default [] (Some fs)) with fs.
  assert (forall a b, (0 < a -> b <= a) -> (0 <? a) && (a <? b) = false) as Hlim by (intros a b H; destruct (Z.ltb_spec 0 a), (Z.ltb_spec a b); try done; lia).
  rewrite (Hlim _ _ Hfiles), Ht. cbn [result_bind]. by rewrite (Hlim _ _ Htotal), El.
Qed.
(** A schema that lists both types normalises some numbers in two steps. *)
Lemma both_numbers_unsteady : let s := MkSchema (set_Types empty_data [lit "integer"; lit "number"]) [] None None in
  let f := S754_finite false 4503599627370496 0 in
  validate example_engines true None s (VNumber (lit "4503599627370496.00000000000001")) [] None = Ok (VFloat f, None) /\
    validate example_engines true None s (VFloat f) [] None = Ok (VInt 4503599627370496, None).
Proof. split; vm_compute; reflexivity. Qed.
