(* ===== verification/Publish.v ===== *)
(** * Publication of output ([contract/output.go])
    [processOutput] stages generated or original files and gives them out only when every
    stream has passed. The stager, its stages, the readers of the provider and the context
    are interfaces: [OutputWorld] is a state with their methods, each of which may fail or
    behave differently at every call. [p_log] records what was asked of them. A hash is the
    bytes that were written to it. *)
From Stdlib Require Import ZArith Lia.
From stdpp Require Import base sets list option strings.
From S2P Require Import Prelude Sha256 Json JsonText Canonical GoStrings InputValue ValueFormat Schema Pointer Validation CsvText Output.
Local Open Scope Z_scope.

(** ** Interfaces *)

Record ArtifactMetadata := { am_Name : bytes; am_MIMEType : bytes; am_SizeBytes : Z; am_SHA256 : bytes }.

(** Stages and the readers they open are numbers, the readers of the provider are numbered
    by their position. [None] is a nil interface. [Read] gives the bytes it has put
    into the buffer, or [None] for a count that is negative. *)
Class OutputWorld (W : Type) := {
  ctx_Err : W -> W * option string;
  has_stager : bool;
  Begin : W -> bytes -> bytes -> W * option nat * option string;
  stage_Write : W -> nat -> bytes -> W * Z * option string;
  stage_Close : W -> nat -> W * option string;
  stage_Finish : W -> nat -> ArtifactMetadata -> W * option nat * option string;
  stage_Abort : W -> nat -> W * option string;
  reader_Close : W -> nat -> W * option string;
  source_Read : W -> nat -> W * option bytes * option string;
  source_Close : W -> nat -> W * option string
}.

(** A reader of the provider: whether it has a [Close] method. *)
Record ProviderFile := {
  pf_Name : bytes; pf_MIMEType : bytes; pf_Reader : option bool; pf_SizeBytes : option Z; pf_SHA256 : bytes
}.
Record ProviderResult := {
  ps_ReturnedRows : option Z; ps_AffectedRows : option Z; ps_Data : value; ps_Columns : list bytes; ps_Files : list ProviderFile
}.

Inductive event :=
| EBegin (stage : nat) | ERead (i : nat) (data : bytes) | EWrite (stage : nat) (data : bytes) | EFinish (reader : nat)
| EAbort (stage : nat) | EReaderClose (reader : nat) | ESourceClose (i : nat).

Section Publish.
Context {W : Type} `{!OutputWorld W} (lib : engines).

Record pstate := { p_world : W; p_log : list event }.
Definition with_world (s : pstate) (w : W) : pstate := {| p_world := w; p_log := p_log s |}.
Definition logged (s : pstate) (w : W) (e : event) : pstate := {| p_world := w; p_log := p_log s ++ [e] |}.

Definition poll (s : pstate) : pstate * option string :=
  let '(w, e) := ctx_Err (p_world s) in (with_world s w, e).

(** ** [PreparedOutput] *)

Record PreparedOutput := {
  po_ReturnedRows : option Z; po_AffectedRows : option Z; po_Data : value;
  po_Files : list (ArtifactMetadata * nat); po_stages : list nat; po_closed : bool
}.
Fixpoint close_readers (s : pstate) (l : list (ArtifactMetadata * nat)) : pstate :=
  match l with
  | [] => s
  | (_, r) :: l => close_readers (logged s (reader_Close (p_world s) r).1 (EReaderClose r)) l
  end.
Fixpoint abort_stages (s : pstate) (l : list nat) : pstate :=
  match l with
  | [] => s
  | g :: l => abort_stages (logged s (stage_Abort (p_world s) g).1 (EAbort g)) l
  end.
Definition Close (s : pstate) (o : PreparedOutput) : pstate * PreparedOutput :=
  if po_closed o then (s, o) else
  (abort_stages (close_readers s (po_Files o)) (po_stages o),
   {| po_ReturnedRows := po_ReturnedRows o; po_AffectedRows := po_AffectedRows o; po_Data := po_Data o;
      po_Files := po_Files o; po_stages := po_stages o; po_closed := true |}).

(** ** [artifactWriter] *)

Record artifactWriter := {
  aw_s : pstate; aw_dest : nat; aw_hash : bytes; aw_remaining : Z; aw_size : Z
}.
Definition aw_with (a : artifactWriter) (s : pstate) : artifactWriter :=
  {| aw_s := s; aw_dest := aw_dest a; aw_hash := aw_hash a; aw_remaining := aw_remaining a; aw_size := aw_size a |}.
Definition aw_took (a : artifactWriter) (w : W) (data : bytes) : artifactWriter :=
  {| aw_s := logged (aw_s a) w (EWrite (aw_dest a) data); aw_dest := aw_dest a; aw_hash := aw_hash a ++ data;
     aw_remaining := aw_remaining a - Z.of_nat (length data); aw_size := aw_size a + Z.of_nat (length data) |}.

Definition chunk_size : nat := Z.to_nat 65536.
(** One chunk: how much of it was written. *)
Definition aw_chunk (a : artifactWriter) (chunk : bytes) : artifactWriter * Z * option string :=
  let '(s, e) := poll (aw_s a) in
  match e with
  | Some e => (aw_with a s, 0, Some e)
  | None =>
      let '(w, n, e) := stage_Write (p_world s) (aw_dest a) chunk in
      if (n <? 0) || (Z.of_nat (length chunk) <? n) then (aw_with a (with_world s w), 0, Some "OUTPUT_INVALID"%string) else
      let a := (if 0 <? n then aw_took (aw_with a s) w (take (Z.to_nat n) chunk) else aw_with a (with_world s w)) in
      match e with
      | Some e => (a, n, Some (invalidOutput e))
      | None => (a, n, if n =? Z.of_nat (length chunk) then None else Some "OUTPUT_INVALID"%string)
      end
  end.
Fixpoint aw_loop (fuel : nat) (a : artifactWriter) (p : bytes) (total : Z) : artifactWriter * Z * option string :=
  match fuel, p with
  | S fuel, _ :: _ =>
      let chunk := take chunk_size p in
      let '(a, n, e) := aw_chunk a chunk in
      match e with
      | Some e => (a, total + n, Some e)
      | None => aw_loop fuel a (drop (length chunk) p) (total + n)
      end
  | _, _ => (a, total, None)
  end.
Definition aw_Write (a : artifactWriter) (p : bytes) : artifactWriter * Z * option string :=
  let '(s, e) := poll (aw_s a) in
  let a := aw_with a s in
  match e with
  | Some e => (a, 0, Some e)
  | None =>
      if aw_remaining a <? Z.of_nat (length p) then (a, 0, Some "LIMIT_EXCEEDED"%string)
      else aw_loop (length p) a p 0
  end.

(** ** [copyArtifact] to the writer and a second hash *)

(** [io.MultiWriter(w, hash).Write]. *)
Definition multi_write (a : artifactWriter) (h : bytes) (p : bytes) : artifactWriter * bytes * Z * option string :=
  let '(a, n, e) := aw_Write a p in
  match e with
  | Some e => (a, h, n, Some e)
  | None => if negb (n =? Z.of_nat (length p)) then (a, h, n, Some "short write"%string) else (a, h ++ p, Z.of_nat (length p), None)
  end.

(** Fuel: every read that is not empty uses up some of the writer's limit, and a hundred
    empty ones in a row are an error ([copy_fuel_enough]). *)
Definition copy_loop (i : nat) : nat -> artifactWriter -> bytes -> Z -> Z -> artifactWriter * bytes * Z * option string :=
  fix copy_loop fuel a h total empty :=
  match fuel with
  | O => (a, h, total, Some "out of fuel"%string)
  | S fuel =>
      let '(s, e) := poll (aw_s a) in
      let a := aw_with a s in
      match e with
      | Some e => (a, h, total, Some e)
      | None =>
          let '(w, data, e) := source_Read (p_world s) i in
          match data with
          | None => (aw_with a (with_world s w), h, total, Some "OUTPUT_INVALID"%string)
          | Some data =>
              let a := aw_with a (logged s w (ERead i data)) in
              if 65536 <? Z.of_nat (length data) then (a, h, total, Some "OUTPUT_INVALID"%string) else
              let '(a, h, written, empty, we) := (if 0 <? Z.of_nat (length data)
                then let '(a, h, written, we) := multi_write a h data in (a, h, written, 0, we)
                else (a, h, 0, empty + 1, if 100 <? empty + 1 then Some "OUTPUT_INVALID"%string else None)) in
              match we, e with
              | Some we, _ => (a, h, total + written, Some we)
              | None, None => copy_loop fuel a h (total + written) empty
              | None, Some e => (a, h, total + written, if String.eqb e "EOF" then None else Some (invalidOutput e))
              end
          end
      end
  end.
Definition copy_fuel (a : artifactWriter) : nat := Z.to_nat ((Z.max 0 (aw_remaining a) + 1) * 102).
Definition copyArtifact (i : nat) (a : artifactWriter) : artifactWriter * bytes * Z * option string :=
  copy_loop i (copy_fuel a) a [] 0 0.

(** ** [processOutput] *)

(** The variables that its closures share. *)
Record proc := { q_s : pstate; q_ready : PreparedOutput; q_closed : list bool; q_total : Z }.
Definition q_with (q : proc) (s : pstate) : proc := {| q_s := s; q_ready := q_ready q; q_closed := q_closed q; q_total := q_total q |}.
Definition q_poll (q : proc) : proc * option string := let '(s, e) := poll (q_s q) in (q_with q s, e).

Definition closeSource (files : list ProviderFile) (i : nat) (q : proc) : proc * option string :=
  if default true (q_closed q !! i) then (q, None) else
  let q := {| q_s := q_s q; q_ready := q_ready q; q_closed := <[i := true]> (q_closed q); q_total := q_total q |} in
  match files !! i with
  | Some f =>
      if default false (pf_Reader f) then
        let '(w, e) := source_Close (p_world (q_s q)) i in (q_with q (logged (q_s q) w (ESourceClose i)), e)
      else (q, None)
  | None => (q, None)
  end.

Definition set_stages (o : PreparedOutput) (l : list nat) : PreparedOutput :=
  {| po_ReturnedRows := po_ReturnedRows o; po_AffectedRows := po_AffectedRows o; po_Data := po_Data o;
     po_Files := po_Files o; po_stages := l; po_closed := po_closed o |}.
Definition set_files (o : PreparedOutput) (l : list (ArtifactMetadata * nat)) : PreparedOutput :=
  {| po_ReturnedRows := po_ReturnedRows o; po_AffectedRows := po_AffectedRows o; po_Data := po_Data o;
     po_Files := l; po_stages := po_stages o; po_closed := po_closed o |}.
Definition set_data (o : PreparedOutput) (v : value) : PreparedOutput :=
  {| po_ReturnedRows := po_ReturnedRows o; po_AffectedRows := po_AffectedRows o; po_Data := v;
     po_Files := po_Files o; po_stages := po_stages o; po_closed := po_closed o |}.

Definition file_limit (c : Capability) (q : proc) : Z :=
  Z.min (policyInt c "max_output_file_bytes") (policyInt c "max_total_output_file_bytes" - q_total q).

(** After the bytes are written: [Close], the context and [Finish]. *)
Definition finishFile (q : proc) (name mime : bytes) (g : nat) (a : artifactWriter) : proc * option string :=
  let s := aw_s a in
  let '(w, e) := stage_Close (p_world s) g in
  let s := with_world s w in
  match e with
  | Some e => (q_with q s, Some (invalidOutput e))
  | None =>
      let '(s, e) := poll s in
      match e with
      | Some e => (q_with q s, Some e)
      | None =>
          let metadata := {| am_Name := name; am_MIMEType := mime; am_SizeBytes := aw_size a; am_SHA256 := hex_sha256 (aw_hash a) |} in
          let '(w, reader, e) := stage_Finish (p_world s) g metadata in
          let s := (match reader with Some r => logged s w (EFinish r) | None => with_world s w end) in
          match e, reader with
          | Some e, Some r => (q_with q (logged s (reader_Close (p_world s) r).1 (EReaderClose r)), Some (invalidOutput e))
          | Some e, None => (q_with q s, Some (invalidOutput e))
          | None, None => (q_with q s, Some "OUTPUT_INVALID"%string)
          | None, Some r =>
              ({| q_s := s; q_ready := set_files (q_ready q) (po_Files (q_ready q) ++ [(metadata, r)]);
                  q_closed := q_closed q; q_total := q_total q + aw_size a |}, None)
          end
      end
  end.
Definition makeFile (c : Capability) (name mime : bytes) (write : artifactWriter -> artifactWriter * option string) (q : proc) : proc * option string :=
  match ValidateBasename name with
  | Err e => (q, Some (invalidOutput e))
  | Ok _ =>
      if negb (validMIME mime) then (q, Some "OUTPUT_INVALID"%string)
      else if negb has_stager then (q, Some "OUTPUT_INVALID"%string) else
      let '(w, stage, e) := Begin (p_world (q_s q)) name mime in
      match e, stage with
      | Some e, _ => (q_with q (with_world (q_s q) w), Some (invalidOutput e))
      | None, None => (q_with q (with_world (q_s q) w), Some "OUTPUT_INVALID"%string)
      | None, Some g =>
          let s := logged (q_s q) w (EBegin g) in
          let q := {| q_s := s; q_ready := set_stages (q_ready q) (po_stages (q_ready q) ++ [g]); q_closed := q_closed q; q_total := q_total q |} in
          let a := {| aw_s := s; aw_dest := g; aw_hash := []; aw_remaining := file_limit c q; aw_size := 0 |} in
          let '(a, e) := write a in
          match e with
          | Some e => (q_with q (with_world (aw_s a) (stage_Close (p_world (aw_s a)) g).1), Some e)
          | None => finishFile q name mime g a
          end
      end
  end.

(** The body of an original file. *)
Definition write_source (i : nat) (f : ProviderFile) (a : artifactWriter) : artifactWriter * option string :=
  let '(a, h, size, e) := copyArtifact i a in
  match e with
  | Some e => (a, Some e)
  | None =>
      if (match pf_SizeBytes f with Some n => negb (size =? n) | None => false end) ||
         negb (bytes_eqb (pf_SHA256 f) []) && negb (bytes_eqb (hex_sha256 h) (pf_SHA256 f))
      then (a, Some "OUTPUT_INVALID"%string) else (a, None)
  end.
Definition bad_integrity (f : ProviderFile) : bool :=
  (match pf_SizeBytes f with Some n => n <? 0 | None => false end) ||
  negb (bytes_eqb (pf_SHA256 f) []) && negb (digest_ok (pf_SHA256 f)).

Fixpoint originals (c : Capability) (fs : OutputFiles) (all : list ProviderFile) (i : nat) (l : list ProviderFile) (q : proc) : proc * option string :=
  match l with
  | [] => (q, None)
  | f :: l =>
      let mime := default (pf_MIMEType f) (of_mime_type fs) in
      match pf_Reader f with
      | None => (q, Some "OUTPUT_INVALID"%string)
      | Some _ =>
          if bad_integrity f then (q, Some "OUTPUT_INVALID"%string) else
          let '(q, e) := makeFile c (pf_Name f) mime (write_source i f) q in
          let '(q, closeErr) := closeSource all i q in
          match e, closeErr with
          | Some e, _ => (q, Some e)
          | None, Some e => (q, Some (invalidOutput e))
          | None, None => originals c fs all (S i) l q
          end
      end
  end.

Definition generateCSV (c : Capability) : bool :=
  match cap_Files c with Some f => bytes_eqb (of_format f) (lit "csv") | None => false end.

(** The data that is given out. *)
Definition ready_data (c : Capability) (projected : value) : result value :=
  if rowProvider c then
    match projected with
    | VArr rows => Ok (VObj [(lit "count", VInt (Z.of_nat (length rows))); (lit "rows", projected)])
    | _ => Err "interface conversion"
    end
  else Ok projected.
Definition publish_data (c : Capability) (source : ProviderResult) (o : PreparedOutput) : result (PreparedOutput * value) :=
  let* projected := (if cap_Data c || generateCSV c then ProjectOutput lib c (ps_Data source) (ps_Columns source) else Ok VNull) in
  if cap_Data c then
    let* d := ready_data c projected in
    let* _ := checkOutputJSON d (outputLimits c) in
    Ok (set_data o d, projected)
  else Ok (o, projected).

Definition publish_files (c : Capability) (source : ProviderResult) (delivery : bool) (projected : value) (f : OutputFiles) (q : proc) : proc * option string :=
  let count := if generateCSV c then 1 else Z.of_nat (length (ps_Files source)) in
  if policyInt c "max_output_files" <? count then (q, Some "LIMIT_EXCEEDED"%string)
  else if delivery && bytes_eqb (of_rest f) (lit "direct") && negb (count =? 1) then (q, Some "OUTPUT_INVALID"%string) else
  let '(q, e) := (if generateCSV c
    then makeFile c (of_filename f) (default [] (of_mime_type f)) (fun a => WriteCSV aw_Write a c f projected (ps_Columns source)) q
    else originals c f (ps_Files source) 0 (ps_Files source) q) in
  match e with
  | Some e => (q, Some e)
  | None => q_poll q
  end.

(** The body, before its deferred function. *)
Definition process_body (c : Capability) (source : ProviderResult) (delivery : bool) (q : proc) : proc * option string :=
  let '(q, e) := q_poll q in
  match e with
  | Some e => (q, Some e)
  | None =>
      if generateCSV c && negb (bool_decide (ps_Files source = [])) then (q, Some "OUTPUT_INVALID"%string) else
      match publish_data c source (q_ready q) with
      | Err e => (q, Some e)
      | Ok (ready, projected) =>
          let q := {| q_s := q_s q; q_ready := ready; q_closed := q_closed q; q_total := q_total q |} in
          match cap_Files c with
          | None => (q, None)
          | Some f => publish_files c source delivery projected f q
          end
      end
  end.

Fixpoint close_sources (all : list ProviderFile) (l : list nat) (q : proc) (err : option string) : proc * option string :=
  match l with
  | [] => (q, err)
  | i :: l =>
      let '(q, e) := closeSource all i q in
      close_sources all l q (match err, e with None, Some e => Some (invalidOutput e) | _, _ => err end)
  end.

Definition processOutput (s : pstate) (c : Capability) (source : ProviderResult) (delivery : bool) : pstate * result PreparedOutput :=
  let ready := {| po_ReturnedRows := ps_ReturnedRows source; po_AffectedRows := ps_AffectedRows source; po_Data := VNull;
                  po_Files := []; po_stages := []; po_closed := false |} in
  let q := {| q_s := s; q_ready := ready; q_closed := replicate (length (ps_Files source)) false; q_total := 0 |} in
  let '(q, err) := process_body c source delivery q in
  let '(q, err) := close_sources (ps_Files source) (seq 0 (length (ps_Files source))) q err in
  let '(q, err) := (match err with Some e => (q, Some e) | None => q_poll q end) in
  match err with
  | Some e => ((Close (q_s q) (q_ready q)).1, Err e)
  | None => (q_s q, Ok (q_ready q))
  end.

(* ------------------------------------------------------------------ *)
(** ** Lemmas on the log *)

Definition begun (l : list event) : list nat := omap (fun e => match e with EBegin g => Some g | _ => None end) l.
Definition aborted (l : list event) : list nat := omap (fun e => match e with EAbort g => Some g | _ => None end) l.
Definition opened (l : list event) : list nat := omap (fun e => match e with EFinish r => Some r | _ => None end) l.
Definition readers_closed (l : list event) : list nat := omap (fun e => match e with EReaderClose r => Some r | _ => None end) l.
Definition sources_closed (l : list event) : list nat := omap (fun e => match e with ESourceClose i => Some i | _ => None end) l.
Definition written (g : nat) (l : list event) : bytes :=
  concat (omap (fun e => match e with EWrite g' d => if decide (g = g') then Some d else None | _ => None end) l).
Definition readb (i : nat) (l : list event) : bytes :=
  concat (omap (fun e => match e with ERead i' d => if decide (i = i') then Some d else None | _ => None end) l).

Lemma written_app g a b : written g (a ++ b) = written g a ++ written g b.
Proof. unfold written. by rewrite omap_app, concat_app. Qed.
Lemma readb_app i a b : readb i (a ++ b) = readb i a ++ readb i b.
Proof. unfold readb. by rewrite omap_app, concat_app. Qed.

(** The events of a body that writes to [g] and reads from [i]. *)
Definition body_event (g i : nat) (e : event) : Prop :=
  match e with EWrite g' _ => g' = g | ERead i' _ => i' = i | _ => False end.

Lemma body_events g i l : Forall (body_event g i) l ->
  begun l = [] /\ aborted l = [] /\ opened l = [] /\ readers_closed l = [] /\ sources_closed l = [] /\
  (forall g', g' <> g -> written g' l = []) /\ (forall i', i' <> i -> readb i' l = []).
Proof.
  induction 1 as [|e l He _ (H1 & H2 & H3 & H4 & H5 & H6 & H7)]; [done|].
  unfold begun, aborted, opened, readers_closed, sources_closed, written, readb in *.
  destruct e; try done; cbn in He; subst; cbn;
    refine (conj H1 (conj H2 (conj H3 (conj H4 (conj H5 (conj _ _)))))); intros x Hx; try (rewrite decide_False by done); auto.
Qed.

(** ** Lemmas on the writer *)

(** [a'] follows [a] by the events [l]. *)
Record wrote (i : nat) (a a' : artifactWriter) (l : list event) : Prop := {
  wr_dest : aw_dest a' = aw_dest a;
  wr_log : p_log (aw_s a') = p_log (aw_s a) ++ l;
  wr_body : Forall (body_event (aw_dest a) i) l;
  wr_hash : aw_hash a' = aw_hash a ++ written (aw_dest a) l;
  wr_size : aw_size a' = aw_size a + Z.of_nat (length (written (aw_dest a) l));
  wr_left : aw_remaining a' = aw_remaining a - Z.of_nat (length (written (aw_dest a) l));
  wr_bound : Z.of_nat (length (written (aw_dest a) l)) <= Z.max 0 (aw_remaining a)
}.
Lemma wrote_nil i a a' :
  aw_dest a' = aw_dest a -> p_log (aw_s a') = p_log (aw_s a) -> aw_hash a' = aw_hash a -> aw_size a' = aw_size a ->
  aw_remaining a' = aw_remaining a -> wrote i a a' [].
Proof. intros. split; cbn; rewrite ?app_nil_r; try done; try lia. Qed.
Lemma wrote_trans i a b c l m : wrote i a b l -> wrote i b c m -> wrote i a c (l ++ m).
Proof.
  intros [D1 L1 B1 H1 S1 R1 C1] [D2 L2 B2 H2 S2 R2 C2]. rewrite D1 in *. split; try congruence.
  - by rewrite L2, L1, app_assoc.
  - by apply Forall_app.
  - by rewrite H2, H1, written_app, app_assoc.
  - rewrite written_app, length_app. lia.
  - rewrite written_app, length_app. lia.
  - rewrite written_app, length_app. lia.
Qed.
Lemma wrote_took i a w d : Z.of_nat (length d) <= aw_remaining a -> wrote i a (aw_took a w d) [EWrite (aw_dest a) d].
Proof.
  intros H. split; cbn; unfold written; cbn; rewrite ?decide_True by done; cbn; rewrite ?app_nil_r; try done; try lia.
  by repeat constructor.
Qed.
Lemma wrote_read i a w d : wrote i a (aw_with a (logged (aw_s a) w (ERead i d))) [ERead i d].
Proof. split; cbn; rewrite ?app_nil_r; try done; try lia. by repeat constructor. Qed.

Lemma wrote_same i a s : p_log s = p_log (aw_s a) -> wrote i a (aw_with a s) [].
Proof. intros. by apply wrote_nil. Qed.
Lemma poll_log s s' e : poll s = (s', e) -> p_log s' = p_log s.
Proof. unfold poll. destruct (ctx_Err (p_world s)) as [w e']. by intros [= <- <-]. Qed.

Lemma aw_chunk_ok i a chunk a' n e : aw_chunk a chunk = (a', n, e) -> Z.of_nat (length chunk) <= aw_remaining a ->
  exists l, (wrote i a a' l /\ forall j, readb j l = []) /\ 0 <= n <= Z.of_nat (length chunk) /\ written (aw_dest a) l = take (Z.to_nat n) chunk /\
    (e = None -> n = Z.of_nat (length chunk)).
Proof.
  unfold aw_chunk. intros E Hr. destruct (poll (aw_s a)) as [s e0] eqn:Ep. apply poll_log in Ep.
  destruct e0 as [e0|]; [injection E as <- <- <-; exists []; split; [split; [by apply wrote_same|done]|split; [lia|done]]|].
  destruct (stage_Write _ _ _) as [[w k] e1]. destruct (Z.ltb_spec k 0); cbn [orb] in E;
    [injection E as <- <- <-; exists []; split; [split; [by apply wrote_same|done]|split; [lia|done]]|].
  destruct (Z.ltb_spec (Z.of_nat (length chunk)) k); [injection E as <- <- <-; exists []; split; [split; [by apply wrote_same|done]|split; [lia|done]]|].
  assert (exists l, wrote i a (if 0 <? k then aw_took (aw_with a s) w (take (Z.to_nat k) chunk) else aw_with a (with_world s w)) l /\
    written (aw_dest a) l = take (Z.to_nat k) chunk /\ forall j, readb j l = []) as (l & Hl & Hw & Hrd).
  { destruct (Z.ltb_spec 0 k).
    - exists ([] ++ [EWrite (aw_dest a) (take (Z.to_nat k) chunk)]). split.
      + eapply wrote_trans; [by apply (wrote_same i a s)|]. apply (wrote_took i (aw_with a s)). rewrite length_take. cbn. lia.
      + unfold written. cbn. rewrite decide_True by done. cbn. by rewrite app_nil_r.
    - exists []. split; [by apply wrote_same|]. by replace k with 0 by lia. }
  exists l. destruct e1 as [e1|]; injection E as <- <- <-; (split; [done|]); (split; [lia|]); (split; [done|]); [done|].
  destruct (Z.eqb_spec k (Z.of_nat (length chunk))); [done|done].
Qed.

Lemma aw_loop_ok i fuel : forall a p total a' n e, aw_loop fuel a p total = (a', n, e) -> Z.of_nat (length p) <= aw_remaining a ->
  exists l, (wrote i a a' l /\ forall j, readb j l = []) /\ 0 <= n - total <= Z.of_nat (length p) /\ written (aw_dest a) l = take (Z.to_nat (n - total)) p /\
    (e = None -> (length p <= fuel)%nat -> n - total = Z.of_nat (length p)).
Proof.
  induction fuel as [|fuel IH]; intros a p total a' n e E Hr.
  { injection E as <- <- <-. exists []. rewrite Z.sub_diag. split; [split; [by apply wrote_nil|done]|]. split; [lia|]. split; [done|]. simpl. lia. }
  destruct p as [|b p]; [injection E as <- <- <-; exists []; rewrite Z.sub_diag; split; [split; [by apply wrote_nil|done]|split; [simpl; lia|done]]|].
  cbn [aw_loop] in E. set (p' := b :: p) in *. assert (1 <= length p')%nat as Hlen by (simpl; lia). clearbody p'. clear b p.
  set (chunk := take chunk_size p') in *. destruct (aw_chunk a chunk) as [[a1 n1] e1] eqn:Ec.
  assert (1 <= length chunk <= length p')%nat as Hcl by (unfold chunk; rewrite length_take; unfold chunk_size; lia).
  destruct (aw_chunk_ok i _ _ _ _ _ Ec) as (l1 & [Hl1 Hr1] & Hn1 & Hw1 & Hok1); [lia|].
  assert (take (Z.to_nat n1) chunk = take (Z.to_nat n1) p') as Ht1
    by (unfold chunk; rewrite take_take; f_equal; unfold chunk in *; rewrite length_take in *; lia).
  destruct e1 as [e1|].
  - injection E as <- <- <-. exists l1. replace (total + n1 - total) with n1 by lia. split; [done|]. split; [lia|].
    split; [congruence|done].
  - specialize (Hok1 eq_refl). pose proof (wr_left _ _ _ _ Hl1) as Hleft. rewrite Hw1, length_take in Hleft.
    apply IH in E as (l2 & [Hl2 Hr2] & Hn2 & Hw2 & Hok2); [|rewrite length_drop; lia].
    rewrite length_drop in *. rewrite (wr_dest _ _ _ _ Hl1) in Hw2. exists (l1 ++ l2). split; [split; [by eapply wrote_trans|intros x; by rewrite readb_app, ?Hrl, ?Hr1, Hr2]|]. split; [lia|]. split.
    + rewrite written_app, Hw1, Hw2, Ht1, take_drop_commute. rewrite <- (take_drop (Z.to_nat n1) (take (Z.to_nat (n - total)) p')).
      rewrite take_take. f_equal; [f_equal; lia|]. f_equal; [lia|]. f_equal. lia.
    + intros He Hf. specialize (Hok2 He). lia.
Qed.

Lemma aw_Write_ok i a p a' n e : aw_Write a p = (a', n, e) ->
  exists l, (wrote i a a' l /\ forall j, readb j l = []) /\ 0 <= n <= Z.of_nat (length p) /\ written (aw_dest a) l = take (Z.to_nat n) p /\
    (e = None -> n = Z.of_nat (length p)).
Proof.
  unfold aw_Write. intros E. destruct (poll (aw_s a)) as [s e0] eqn:Ep. apply poll_log in Ep.
  assert (exists l, wrote i a (aw_with a s) l /\ written (aw_dest a) l = [] /\ forall j, readb j l = []) as (l & Hl & Hw & Hrl) by (exists []; by split; [apply wrote_same|]).
  destruct e0 as [e0|]; [injection E as <- <- <-; exists l; split; [done|split; [lia|done]]|].
  destruct (Z.ltb_spec (aw_remaining (aw_with a s)) (Z.of_nat (length p))); [injection E as <- <- <-; exists l; split; [done|split; [lia|done]]|].
  apply (aw_loop_ok i) in E as (l2 & [Hl2 Hr2] & Hn2 & Hw2 & Hok2); [|done]. rewrite Z.sub_0_r in *. exists (l ++ l2).
  split; [split; [by eapply wrote_trans|intros x; by rewrite readb_app, ?Hrl, ?Hr1, Hr2]|]. split; [done|]. split; [by rewrite written_app, Hw|]. intros He. by apply Hok2.
Qed.

#[export] Instance aw_lawful : LawfulWriter aw_Write aw_hash.
Proof.
  split; intros a p a' n e E; apply (aw_Write_ok 0) in E as (l & [Hl _] & Hn & Hw & _); [done|].
  by rewrite (wr_hash _ _ _ _ Hl), Hw.
Qed.

(** What a body may do with the writer. *)
Definition writes (i : nat) (a a' : artifactWriter) : Prop := exists l, wrote i a a' l.
#[export] Instance writes_preorder i : PreOrder (writes i).
Proof.
  split.
  - intros a. exists []. by apply wrote_nil.
  - intros a b c (l & Hl) (m & Hm). exists (l ++ m). by eapply wrote_trans.
Qed.
Lemma WriteCSV_writes i c f v metadata a a' e : WriteCSV aw_Write a c f v metadata = (a', e) -> writes i a a'.
Proof.
  apply (WriteCSV_related aw_Write (writes i)). intros b p b' n e' E. apply (aw_Write_ok i) in E as (l & [Hl _] & _). by exists l.
Qed.

(** The loop writes what it reads, and hashes it. *)
Lemma copy_loop_ok i fuel : forall a h total empty a' h' total' e, copy_loop i fuel a h total empty = (a', h', total', e) ->
  exists l, wrote i a a' l /\
    (e = None -> readb i l = written (aw_dest a) l /\ h' = h ++ readb i l /\ total' = total + Z.of_nat (length (readb i l))).
Proof.
  induction fuel as [|fuel IH]; intros a h total empty a' h' total' e E; cbn [copy_loop] in E.
  { injection E as <- <- <- <-. exists []. split; [by apply wrote_nil|done]. }
  destruct (poll (aw_s a)) as [s e0] eqn:Ep. apply poll_log in Ep.
  destruct e0 as [e0|]; [injection E as <- <- <- <-; exists []; split; [by apply wrote_same|done]|].
  destruct (source_Read (p_world s) i) as [[w data] e1].
  destruct data as [data|]; [|injection E as <- <- <- <-; exists []; split; [by apply wrote_nil|done]].
  assert (wrote i a (aw_with (aw_with a s) (logged s w (ERead i data))) [ERead i data]) as Hr.
  { change [ERead i data] with ([] ++ [ERead i data]). eapply wrote_trans; [by apply (wrote_same i a s)|]. apply (wrote_read i (aw_with a s)). }
  destruct (65536 <? _); [injection E as <- <- <- <-; exists [ERead i data]; by split|].
  set (a1 := aw_with (aw_with a s) (logged s w (ERead i data))) in *.
  destruct (if 0 <? Z.of_nat (length data) then _ else _) as [[[[a2 h2] n2] empty2] we] eqn:Em.
  assert (exists l, wrote i a a2 l /\ (we = None -> readb i l = written (aw_dest a) l /\ h2 = h ++ readb i l /\ n2 = Z.of_nat (length (readb i l))))
    as (l & Hl & Hok).
  { assert (readb i [ERead i data] = data) as Hrd by (unfold readb; cbn; rewrite decide_True by done; cbn; by rewrite app_nil_r).
    destruct (Z.ltb_spec 0 (Z.of_nat (length data))).
    - unfold multi_write in Em. destruct (aw_Write a1 data) as [[a3 n3] e3] eqn:Ew. apply (aw_Write_ok i) in Ew as (lw & [Hlw Hnr] & Hn & Hw & Hfull).
      exists ([ERead i data] ++ lw). split; [destruct e3; [|destruct (negb _)]; injection Em as <- _ _ _ _; by eapply wrote_trans|].
      intros ->. destruct e3 as [|]; [done|]. rewrite (Hfull eq_refl), Z.eqb_refl in Em. cbn [negb] in Em. injection Em as _ <- <- _.
      rewrite readb_app, written_app, Hrd, Hnr, app_nil_r. change (written (aw_dest a) [ERead i data]) with (@nil Z).
      change (aw_dest a1) with (aw_dest a) in Hw. rewrite Hw, (Hfull eq_refl), Nat2Z.id, firstn_all. done.
    - exists [ERead i data]. injection Em as <- <- <- _ <-. split; [done|]. intros _. rewrite Hrd. destruct data; [|simpl in *; lia].
      by rewrite app_nil_r. }
  destruct we as [we|]; [injection E as <- <- <- <-; exists l; by split|]. destruct (Hok eq_refl) as (H1 & H2 & H3).
  destruct e1 as [e1|].
  - injection E as <- <- <- <-. exists l. split; [done|]. intros _. subst. done.
  - apply IH in E as (m & Hm & Hok'). exists (l ++ m). split; [by eapply wrote_trans|]. intros He. destruct (Hok' He) as (H4 & H5 & H6).
    rewrite (wr_dest _ _ _ _ Hl) in H4. rewrite readb_app, written_app, H5, H6, H2, H3, H4, H1, length_app, <- app_assoc. repeat split. lia.
Qed.

(** The loop ends: the fuel never decides its result. *)
Lemma multi_write_left a h data a' h' n : multi_write a h data = (a', h', n, None) ->
  aw_remaining a' = aw_remaining a - Z.of_nat (length data) /\ Z.of_nat (length data) <= Z.max 0 (aw_remaining a).
Proof.
  unfold multi_write. destruct (aw_Write a data) as [[a1 n1] e1] eqn:Ew. apply (aw_Write_ok 0) in Ew as (l & [Hl _] & Hn & Hw & Hfull).
  destruct e1; [done|]. destruct (negb _); [done|]. intros [= <- _ _]. pose proof (wr_left _ _ _ _ Hl) as H1. pose proof (wr_bound _ _ _ _ Hl) as H2.
  rewrite (Hfull eq_refl), Nat2Z.id, firstn_all in Hw. rewrite Hw in *. done.
Qed.
Definition copy_measure (a : artifactWriter) (empty : Z) : Z := Z.max 0 (aw_remaining a) * 102 + (101 - empty).
Lemma copy_fuel_enough i fuel : forall fuel' a h total empty, 0 <= empty <= 100 ->
  copy_measure a empty < Z.of_nat fuel -> copy_measure a empty < Z.of_nat fuel' ->
  copy_loop i fuel a h total empty = copy_loop i fuel' a h total empty.
Proof.
  induction fuel as [|fuel IH]; intros fuel' a h total empty He Hf Hf'; unfold copy_measure in *; [lia|]. destruct fuel' as [|fuel']; [lia|].
  cbn [copy_loop]. destruct (poll (aw_s a)) as [s [e0|]]; [done|]. destruct (source_Read (p_world s) i) as [[w [data|]] e1]; [|done].
  destruct (65536 <? _); [done|]. destruct (Z.ltb_spec 0 (Z.of_nat (length data))).
  - destruct (multi_write _ h data) as [[[a2 h2] n2] [we|]] eqn:Em; [done|]. apply multi_write_left in Em as [H1 H2]. cbn in H1, H2.
    destruct e1; [done|]. apply IH; lia.
  - destruct (Z.ltb_spec 100 (empty + 1)); [done|]. destruct e1; [done|]. apply IH; cbn; lia.
Qed.

(** ** Lemmas on files *)

(** What holds between the steps of [processOutput]: the stages are those begun, nothing is
    aborted, and a reader that was opened is held or closed. *)
Record held_open (q : proc) : Prop := {
  ho_begun : begun (p_log (q_s q)) = po_stages (q_ready q);
  ho_aborted : aborted (p_log (q_s q)) = [];
  ho_readers : opened (p_log (q_s q)) ≡ₚ readers_closed (p_log (q_s q)) ++ (po_Files (q_ready q)).*2;
  ho_written : forall g, g ∉ begun (p_log (q_s q)) -> written g (p_log (q_s q)) = [];
  ho_closed : po_closed (q_ready q) = false
}.
(** [q'] follows [q] and has not closed a source. *)
Record follows (q q' : proc) : Prop := {
  fo_flags : q_closed q' = q_closed q;
  fo_sources : sources_closed (p_log (q_s q')) = sources_closed (p_log (q_s q));
  fo_data : po_Data (q_ready q') = po_Data (q_ready q)
}.

(** A published file describes the bytes that its stage has. *)
Definition describes (c : Capability) (log : list event) (g : nat) (f : ArtifactMetadata) : Prop :=
  0 <= am_SizeBytes f <= policyInt c "max_output_file_bytes" /\
  (NoDup (begun log) -> am_SizeBytes f = Z.of_nat (length (written g log)) /\ am_SHA256 f = hex_sha256 (written g log)).
Definition sizes (l : list (ArtifactMetadata * nat)) : Z := foldr (fun f acc => am_SizeBytes f.1 + acc) 0 l.
Record complete (c : Capability) (q : proc) : Prop := {
  co_files : Forall2 (fun g f => describes c (p_log (q_s q)) g f.1) (po_stages (q_ready q)) (po_Files (q_ready q));
  co_readers : readers_closed (p_log (q_s q)) = [];
  co_total : q_total q = sizes (po_Files (q_ready q));
  co_bound : q_total q <= policyInt c "max_total_output_file_bytes"
}.

Lemma begun_app a b : begun (a ++ b) = begun a ++ begun b.
Proof. apply omap_app. Qed.
Lemma aborted_app a b : aborted (a ++ b) = aborted a ++ aborted b.
Proof. apply omap_app. Qed.
Lemma opened_app a b : opened (a ++ b) = opened a ++ opened b.
Proof. apply omap_app. Qed.
Lemma readers_closed_app a b : readers_closed (a ++ b) = readers_closed a ++ readers_closed b.
Proof. apply omap_app. Qed.
Lemma sources_closed_app a b : sources_closed (a ++ b) = sources_closed a ++ sources_closed b.
Proof. apply omap_app. Qed.

(** What a call of [makeFile] does: nothing, a stage without a file, or a file. *)
Definition begin_stage (q : proc) (g : nat) : PreparedOutput := set_stages (q_ready q) (po_stages (q_ready q) ++ [g]).
Inductive made (c : Capability) (i : nat) (Q : nat -> list event -> Prop) (q q' : proc) : option string -> Prop :=
| made_nothing e :
    p_log (q_s q') = p_log (q_s q) -> q_ready q' = q_ready q -> q_closed q' = q_closed q -> made c i Q q q' (Some e)
| made_stage g l tail e :
    p_log (q_s q') = p_log (q_s q) ++ EBegin g :: l ++ tail -> Forall (body_event g i) l ->
    tail = [] \/ (exists r, tail = [EFinish r; EReaderClose r]) ->
    q_ready q' = begin_stage q g -> q_closed q' = q_closed q -> made c i Q q q' (Some e)
| made_file g l r f :
    p_log (q_s q') = p_log (q_s q) ++ EBegin g :: l ++ [EFinish r] -> Forall (body_event g i) l -> Q g l ->
    q_ready q' = set_files (begin_stage q g) (po_Files (q_ready q) ++ [(f, r)]) -> q_closed q' = q_closed q ->
    q_total q' = q_total q + am_SizeBytes f -> am_SizeBytes f = Z.of_nat (length (written g l)) ->
    am_SHA256 f = hex_sha256 (written g l) -> am_SizeBytes f <= Z.max 0 (file_limit c q) -> made c i Q q q' None.

Definition body_ok (i : nat) (Q : nat -> list event -> Prop) (write : artifactWriter -> artifactWriter * option string) : Prop :=
  forall a a' e, write a = (a', e) -> aw_hash a = [] -> exists l, wrote i a a' l /\ (e = None -> Q (aw_dest a) l).

Lemma makeFile_made c i Q name mime write q q' e : body_ok i Q write -> makeFile c name mime write q = (q', e) -> made c i Q q q' e.
Proof.
  intros Hb. unfold makeFile. destruct (ValidateBasename name) as [u|]; [|intros [= <- <-]; by apply made_nothing].
  destruct (negb _); [intros [= <- <-]; by apply made_nothing|]. destruct (negb _); [intros [= <- <-]; by apply made_nothing|].
  destruct (Begin _ _ _) as [[w stage] [e0|]]; [intros [= <- <-]; by apply made_nothing|].
  destruct stage as [g|]; [|intros [= <- <-]; by apply made_nothing].
  destruct (write _) as [a e1] eqn:Ew. destruct (Hb _ _ _ Ew eq_refl) as (l & Hl & HQ). destruct Hl as [_ Llog Lbody Lhash Lsize _ Lbound]. cbn in *.
  assert (forall s tail, p_log s = p_log (aw_s a) ++ tail -> p_log s = p_log (q_s q) ++ EBegin g :: l ++ tail) as Hlog.
  { intros s tail ->. rewrite Llog, <- !app_assoc. done. }
  assert (forall s, p_log s = p_log (aw_s a) -> p_log s = p_log (q_s q) ++ EBegin g :: l ++ []) as Hlog0.
  { intros s Hs. apply Hlog. by rewrite app_nil_r. }
  destruct e1 as [e1|].
  { intros [= <- <-]. eapply (made_stage _ _ _ _ _ g l []); [by apply Hlog0|done|by left|done|done]. }
  unfold finishFile. destruct (stage_Close _ _) as [w1 [e2|]].
  { intros [= <- <-]. eapply (made_stage _ _ _ _ _ g l []); [by apply Hlog0|done|by left|done|done]. }
  destruct (poll _) as [s2 [e3|]] eqn:Ep; apply poll_log in Ep; cbn in Ep.
  { intros [= <- <-]. eapply (made_stage _ _ _ _ _ g l []); [by apply Hlog0|done|by left|done|done]. }
  destruct (stage_Finish _ _ _) as [[w3 [r|]] [e4|]]; intros [= <- <-]; cbn.
  - eapply (made_stage _ _ _ _ _ g l [EFinish r; EReaderClose r]); [|done|right; by exists r|done|done].
    apply Hlog. cbn. by rewrite Ep, <- app_assoc.
  - eapply (made_file _ _ _ _ _ g l r); cbn; [|done|by apply HQ|done|done|done|cbn; lia|cbn; by rewrite Lhash|].
    + apply (Hlog (logged s2 w3 (EFinish r))). cbn. by rewrite Ep.
    + unfold file_limit in *. cbn in *. lia.
  - eapply (made_stage _ _ _ _ _ g l []); [by apply Hlog0|done|by left|done|done].
  - eapply (made_stage _ _ _ _ _ g l []); [by apply Hlog0|done|by left|done|done].
Qed.

(** *** Logs that grow *)

Lemma log_parts g i l tail : Forall (body_event g i) l -> tail = [] \/ (exists r, tail = [EFinish r; EReaderClose r]) \/ (exists r, tail = [EFinish r]) ->
  begun (EBegin g :: l ++ tail) = [g] /\ aborted (EBegin g :: l ++ tail) = [] /\ opened (EBegin g :: l ++ tail) = opened tail /\
  readers_closed (EBegin g :: l ++ tail) = readers_closed tail /\ sources_closed (EBegin g :: l ++ tail) = [] /\
  (forall g', written g' (EBegin g :: l ++ tail) = if decide (g' = g) then written g l else []) /\
  (forall i', readb i' (EBegin g :: l ++ tail) = if decide (i' = i) then readb i l else []).
Proof.
  intros Hl Htail. destruct (body_events g i l Hl) as (H1 & H2 & H3 & H4 & H5 & H6 & H7).
  change (EBegin g :: l ++ tail) with ([EBegin g] ++ l ++ tail).
  assert (begun tail = [] /\ aborted tail = [] /\ sources_closed tail = [] /\ (forall g', written g' tail = []) /\ (forall i', readb i' tail = []))
    as (T1 & T2 & T3 & T4 & T5) by (destruct Htail as [-> |[[r ->]|[r ->]]]; done).
  rewrite !begun_app, !aborted_app, !opened_app, !readers_closed_app, !sources_closed_app, H1, H2, H3, H4, H5, T1, T2, T3.
  repeat (split; [done|]). split; intros x; rewrite ?written_app, ?readb_app, ?T4, ?T5, ?app_nil_r; case_decide as Hd; subst; try done; cbn [app].
  - by apply H6.
  - by apply H7.
Qed.

Lemma made_held c i Q q q' e : made c i Q q q' e -> held_open q -> held_open q' /\ follows q q'.
Proof.
  intros Hm [B A R Wr C]. destruct Hm as [e Hlog Hr Hc|g l tail e Hlog Hl Htail Hr Hc|g l r f Hlog Hl _ Hr Hc _ _ _ _].
  - split; [split; rewrite ?Hlog, ?Hr; done|split; [done|by rewrite Hlog|by rewrite Hr]].
  - destruct (log_parts g i l tail Hl) as (P1 & P2 & P3 & P4 & P5 & P6 & _); [tauto|]. split; [split|split; [done| |]]; rewrite ?Hlog, ?Hr; cbn.
    + by rewrite begun_app, P1, B.
    + by rewrite aborted_app, P2, A.
    + rewrite opened_app, readers_closed_app, P3, P4, R. destruct Htail as [-> |[r ->]]; cbn; rewrite ?app_nil_r; [done|]. rewrite <- !app_assoc. apply Permutation_app_head, Permutation_app_comm.
    + intros g' Hg'. rewrite begun_app, P1 in Hg'. rewrite written_app, P6, decide_False, Wr by set_solver. done.
    + done.
    + by rewrite sources_closed_app, P5, app_nil_r.
    + done.
  - destruct (log_parts g i l [EFinish r] Hl) as (P1 & P2 & P3 & P4 & P5 & P6 & _); [eauto|]. split; [split|split; [done| |]]; rewrite ?Hlog, ?Hr; cbn.
    + by rewrite begun_app, P1, B.
    + by rewrite aborted_app, P2, A.
    + rewrite opened_app, readers_closed_app, P3, P4, R, app_nil_r, fmap_app. cbn. by rewrite <- app_assoc.
    + intros g' Hg'. rewrite begun_app, P1 in Hg'. rewrite written_app, P6, decide_False, Wr by set_solver. done.
    + done.
    + by rewrite sources_closed_app, P5, app_nil_r.
    + done.
Qed.

Lemma sizes_app a b : sizes (a ++ b) = sizes a + sizes b.
Proof. unfold sizes. induction a as [|x a IH]; [done|]. cbn [app foldr]. rewrite IH. lia. Qed.

Lemma made_complete c i Q q q' :
  made c i Q q q' None -> held_open q -> complete c q -> 0 <= policyInt c "max_output_file_bytes" -> complete c q'.
Proof.
  intros Hm [B A R Wr C] [F Rc T Bd] Hpos. inversion Hm as [|?|g l r f Hlog Hl _ Hr _ Ht Hs Hsha Hb E]. unfold file_limit in Hb.
  destruct (log_parts g i l [EFinish r] Hl) as (P1 & _ & _ & P4 & _ & P6 & _); [eauto|].
  assert (forall g', NoDup (begun (p_log (q_s q'))) -> g' ∈ begun (p_log (q_s q)) -> written g' (p_log (q_s q')) = written g' (p_log (q_s q))) as Hold.
  { intros g' Hnd Hg'. rewrite Hlog, begun_app, P1 in Hnd. apply NoDup_app in Hnd as (_ & Hnd & _). rewrite Hlog, written_app, P6.
    rewrite decide_False by (intros ->; by apply (Hnd g), list_elem_of_singleton). by rewrite app_nil_r. }
  split; rewrite ?Hr; cbn.
  - apply Forall2_app.
    + rewrite Forall2_same_length_lookup in F |- *. destruct F as [F1 F2]. split; [done|]. intros k g' f' Hg Hf. destruct (F2 k g' f' Hg Hf) as [D1 D2].
      split; [done|]. intros Hnd. rewrite Hold; [|done|rewrite B; by eapply list_elem_of_lookup_2]. apply D2.
      rewrite Hlog, begun_app in Hnd. by apply NoDup_app in Hnd as (? & _).
    + constructor; [|constructor]. cbn. split; [lia|]. intros Hnd. rewrite Hlog, written_app, P6, decide_True by done.
      rewrite Wr; [done|]. intros Hin. rewrite Hlog, begun_app, P1 in Hnd. apply NoDup_app in Hnd as (_ & Hnd & _). apply (Hnd g Hin). set_solver.
  - by rewrite Hlog, readers_closed_app, P4, Rc.
  - rewrite sizes_app, Ht, T. cbn. lia.
  - lia.
Qed.

(** *** Closing sources *)

Definition closable (files : list ProviderFile) (i : nat) : Prop := exists f, files !! i = Some f /\ pf_Reader f = Some true.
(** The flags say which sources have been closed, and no source is closed twice. *)
Record sources_ok (files : list ProviderFile) (q : proc) : Prop := {
  so_length : length (q_closed q) = length files;
  so_nodup : NoDup (sources_closed (p_log (q_s q)));
  so_closed : forall i, i ∈ sources_closed (p_log (q_s q)) <-> closable files i /\ q_closed q !! i = Some true
}.
Lemma follows_sources files q q' : follows q q' -> sources_ok files q -> sources_ok files q'.
Proof. intros [F1 F2 _] [S1 S2 S3]. split; rewrite ?F1, ?F2; done. Qed.

Lemma closeSource_ok files i q q' e : closeSource files i q = (q', e) -> sources_ok files q ->
  sources_ok files q' /\ (i < length files -> q_closed q' !! i = Some true)%nat /\
  (forall j, q_closed q !! j = Some true -> q_closed q' !! j = Some true) /\
  q_ready q' = q_ready q /\ q_total q' = q_total q /\
  (p_log (q_s q') = p_log (q_s q) \/ p_log (q_s q') = p_log (q_s q) ++ [ESourceClose i]).
Proof.
  intros E Hs. destruct Hs as [S1 S2 S3]. unfold closeSource in E. destruct (q_closed q !! i) as [[|]|] eqn:Ei; cbn [default from_option] in E.
  - injection E as <- <-. split; [by split|]. split; [done|]. split; [done|]. auto.
  - cbn in E. assert (i < length files)%nat as Hi by (rewrite <- S1; by eapply lookup_lt_Some).
    destruct (files !! i) as [f|] eqn:Ef; [|by apply lookup_ge_None in Ef; lia].
    assert (forall j, q_closed q !! j = Some true -> <[i:=true]> (q_closed q) !! j = Some true) as Hkeep.
    { intros j Hj. destruct (decide (i = j)) as [->|]; [congruence|]. by rewrite list_lookup_insert_ne. }
    assert (<[i:=true]> (q_closed q) !! i = Some true) as Hnew by (apply list_lookup_insert_eq; lia).
    assert (forall j, j <> i -> <[i:=true]> (q_closed q) !! j = q_closed q !! j) as Hother by (intros j Hj; by apply list_lookup_insert_ne).
    assert (i ∉ sources_closed (p_log (q_s q))) as Hni by (rewrite S3; intros [_ ?]; congruence).
    destruct (default false (pf_Reader f)) eqn:Er.
    + destruct (source_Close _ i) as [w e']. injection E as <- <-. cbn. split_and!; auto. split; cbn.
      * by rewrite length_insert.
      * rewrite sources_closed_app. cbn. apply NoDup_app. split; [done|]. split; [|apply NoDup_singleton]. intros x Hx ->%list_elem_of_singleton. done.
      * intros j. rewrite sources_closed_app, elem_of_app, S3. cbn. rewrite list_elem_of_singleton. destruct (decide (j = i)) as [->|Hj].
        -- rewrite Hnew. split; [|tauto]. intros _. split; [|done]. exists f. split; [done|]. by destruct (pf_Reader f) as [[|]|].
        -- rewrite Hother by done. tauto.
    + injection E as <- <-. cbn. split_and!; auto. split; cbn; [by rewrite length_insert|done|].
      intros j. rewrite S3. destruct (decide (j = i)) as [->|Hj]; [|by rewrite Hother]. rewrite Hnew, Ei. split; [by intros [_ ?]|].
      intros [(f' & Ef' & Hf') _]. rewrite Ef in Ef'. injection Ef' as <-. by rewrite Hf' in Er.
  - injection E as <- <-. split; [by split|]. split; [|auto]. intros Hi. apply lookup_ge_None in Ei. lia.
Qed.

(** The other facts do not see a source that is closed, or the world. *)
Record alike (q q' : proc) : Prop := {
  al_log : exists l, p_log (q_s q') = p_log (q_s q) ++ l /\ Forall (fun e => exists i, e = ESourceClose i) l;
  al_ready : q_ready q' = q_ready q;
  al_total : q_total q' = q_total q
}.
Lemma closes_log l : Forall (fun e => exists i, e = ESourceClose i) l ->
  begun l = [] /\ aborted l = [] /\ opened l = [] /\ readers_closed l = [] /\ (forall g, written g l = []) /\ (forall i, readb i l = []).
Proof.
  induction 1 as [|e l (i & ->) _ (H1 & H2 & H3 & H4 & H5 & H6)]; [done|].
  unfold begun, aborted, opened, readers_closed, written, readb in *. cbn. done.
Qed.
Lemma alike_log q q' : alike q q' ->
  begun (p_log (q_s q')) = begun (p_log (q_s q)) /\ aborted (p_log (q_s q')) = aborted (p_log (q_s q)) /\
  opened (p_log (q_s q')) = opened (p_log (q_s q)) /\ readers_closed (p_log (q_s q')) = readers_closed (p_log (q_s q)) /\
  (forall g, written g (p_log (q_s q')) = written g (p_log (q_s q))) /\ (forall i, readb i (p_log (q_s q')) = readb i (p_log (q_s q))).
Proof.
  intros [(l & -> & Hl) _ _]. destruct (closes_log l Hl) as (H1 & H2 & H3 & H4 & H5 & H6).
  rewrite begun_app, aborted_app, opened_app, readers_closed_app, H1, H2, H3, H4, !app_nil_r. repeat (split; [done|]).
  split; intros x; rewrite ?written_app, ?readb_app, ?H5, ?H6; apply app_nil_r.
Qed.
Lemma alike_held q q' : alike q q' -> held_open q -> held_open q'.
Proof.
  intros Ha [B A R Wr C]. destruct (alike_log q q' Ha) as (H1 & H2 & H3 & H4 & H5 & _). destruct Ha as [_ Hr _].
  split; rewrite ?H1, ?H2, ?H3, ?H4, ?Hr; try done. intros g Hg. rewrite H5. auto.
Qed.
Lemma alike_complete c q q' : alike q q' -> complete c q -> complete c q'.
Proof.
  intros Ha [F Rc T Bd]. destruct (alike_log q q' Ha) as (H1 & H2 & H3 & H4 & H5 & _). destruct Ha as [_ Hr Ht].
  split; rewrite ?H4, ?Hr, ?Ht; try done. eapply Forall2_impl; [exact F|]. unfold describes. intros g f. by rewrite H1, H5.
Qed.

(** The assertions that a provider makes about a file. *)
Definition integrity (f : ProviderFile) (d : bytes) : Prop :=
  (forall n, pf_SizeBytes f = Some n -> Z.of_nat (length d) = n) /\ (pf_SHA256 f <> [] -> hex_sha256 d = pf_SHA256 f).
Definition copies (files : list ProviderFile) (i g : nat) (l : list event) : Prop :=
  readb i l = written g l /\ forall f, files !! i = Some f -> integrity f (readb i l).

(** The stage of an original file has the bytes of its reader, and they are what was asserted. *)
Record copied (files : list ProviderFile) (i : nat) (q : proc) : Prop := {
  cp_length : length (po_stages (q_ready q)) = i;
  cp_unread : forall k, (i <= k)%nat -> readb k (p_log (q_s q)) = [];
  cp_stages : forall k g, po_stages (q_ready q) !! k = Some g -> NoDup (begun (p_log (q_s q))) ->
    written g (p_log (q_s q)) = readb k (p_log (q_s q));
  cp_integrity : forall k f, (k < i)%nat -> files !! k = Some f -> integrity f (readb k (p_log (q_s q)))
}.
Lemma alike_copied files i q q' : alike q q' -> copied files i q -> copied files i q'.
Proof.
  intros Ha [L U C I]. destruct (alike_log q q' Ha) as (H1 & _ & _ & _ & H5 & H6). destruct Ha as [_ Hr _].
  split; rewrite ?Hr; try done; [intros k Hk; rewrite H6; auto| |intros k f; rewrite H6; auto].
  intros k g Hg Hnd. rewrite H1 in Hnd. rewrite H5, H6. auto.
Qed.
Lemma made_copied c files i q q' : made c i (copies files i) q q' None -> held_open q -> copied files i q -> copied files (S i) q'.
Proof.
  intros Hm [B _ _ Wr _] [L U C I]. inversion Hm as [|?|g l r f Hlog Hl [HQ Hint] Hr _ _ _ _ _ E].
  destruct (log_parts g i l [EFinish r] Hl) as (P1 & _ & _ & _ & _ & P6 & P7); [eauto|]. split; rewrite ?Hr; cbn.
  - rewrite length_app, L. simpl. lia.
  - intros k Hk. rewrite Hlog, readb_app, P7, decide_False by lia. rewrite U by lia. done.
  - intros k g' Hg Hnd. rewrite Hlog, begun_app, P1 in Hnd. apply NoDup_app in Hnd as (Hnd & Hg' & _).
    rewrite Hlog, written_app, readb_app, P6, P7. apply lookup_app_Some in Hg as [Hg|[Hge Hg]].
    + pose proof (lookup_lt_Some _ _ _ Hg). assert (g' ∈ begun (p_log (q_s q))) as Hin by (rewrite B; by eapply list_elem_of_lookup_2).
      rewrite !decide_False by (lia || (intros ->; apply (Hg' g Hin); set_solver)). rewrite !app_nil_r. auto.
    + apply list_lookup_singleton_Some in Hg as [Hk <-]. replace k with i by lia. rewrite !decide_True by done.
      rewrite Wr by (intros Hin; apply (Hg' g Hin); set_solver). by rewrite U, HQ by lia.
  - intros k f' Hk Hf'. rewrite Hlog, readb_app, P7. destruct (decide (k = i)) as [->|]; [rewrite U by lia; by apply Hint|].
    rewrite app_nil_r. apply I; [lia|done].
Qed.

Lemma write_source_ok files i f : files !! i = Some f -> body_ok i (copies files i) (write_source i f).
Proof.
  intros Hf a a' e E Hh. unfold write_source, copyArtifact in E. destruct (copy_loop _ _ _ _ _ _) as [[[a1 h1] n1] e1] eqn:Ec.
  apply copy_loop_ok in Ec as (l & Hl & Hok). exists l.
  destruct e1 as [e1|]; [by injection E as <- <-|]. destruct (Hok eq_refl) as (H1 & -> & ->). cbn [app] in E. rewrite Z.add_0_l in E.
  destruct (_ || _) eqn:Ei in E; injection E as <- <-; (split; [done|]); [done|]. intros _. split; [done|]. intros f' Hf'.
  rewrite Hf in Hf'. injection Hf' as <-. apply orb_false_iff in Ei as [E1 E2]. split.
  - intros n Hn. rewrite Hn in E1. apply negb_false_iff in E1. lia.
  - intros Hne. apply andb_false_iff in E2 as [E2|E2]; apply negb_false_iff in E2; by apply bytes_eqb_true in E2.
Qed.

Lemma closeSource_alike files i q q' e : closeSource files i q = (q', e) -> sources_ok files q -> alike q q'.
Proof.
  intros E Hs. apply closeSource_ok in E as (_ & _ & _ & Hr & Ht & Hl); [|done]. split; [|done|done].
  destruct Hl as [Hl|Hl]; [exists []; by rewrite app_nil_r|exists [ESourceClose i]]. split; [done|]. repeat constructor. by exists i.
Qed.

Lemma originals_ok c fs all : 0 <= policyInt c "max_output_file_bytes" -> forall l i q q' e,
  originals c fs all i l q = (q', e) -> drop i all = l -> (i <= length all)%nat -> held_open q -> sources_ok all q ->
  held_open q' /\ sources_ok all q' /\ po_Data (q_ready q') = po_Data (q_ready q) /\ (e = None -> complete c q -> copied all i q -> complete c q' /\ copied all (length all) q').
Proof.
  intros Hpos. induction l as [|f l IH]; intros i q q' e E Hd Hi Hh Hs; cbn [originals] in E.
  { injection E as <- <-. split; [done|]. split; [done|]. split; [done|]. intros _ Hc Hcp. split; [done|].
    apply (f_equal length) in Hd. rewrite length_drop in Hd. cbn in Hd. by replace (length all) with i by lia. }
  destruct (pf_Reader f); [|by injection E as <- <-]. destruct (bad_integrity f); [by injection E as <- <-|].
  assert (all !! i = Some f) as Hf by (apply (f_equal (.!! 0%nat)) in Hd; by rewrite lookup_drop, Nat.add_0_r in Hd).
  destruct (makeFile _ _ _ _ _) as [q1 e1] eqn:Em. apply (makeFile_made c i (copies all i)) in Em; [|by apply write_source_ok].
  destruct (made_held _ _ _ _ _ _ Em Hh) as [Hh1 Hfo]. apply (follows_sources all) in Hfo as Hs1; [|done].
  destruct (closeSource all i q1) as [q2 e2] eqn:Ec. apply closeSource_alike in Ec as Ha; [|done].
  apply closeSource_ok in Ec as (Hs2 & _); [|done]. apply (alike_held _ _ Ha) in Hh1 as Hh2.
  assert (po_Data (q_ready q2) = po_Data (q_ready q)) as Hd2 by (rewrite (al_ready _ _ Ha); apply Hfo).
  destruct e1 as [e1|]; [by injection E as <- <-|]. destruct e2 as [e2|]; [by injection E as <- <-|].
  apply IH in E as (H1 & H2 & H0 & H3); [| |by eapply lookup_lt_Some|done|done].
  - split; [done|]. split; [done|]. split; [congruence|]. intros He Hc Hcp. apply H3; [done| |].
    + eapply alike_complete; [exact Ha|]. by eapply made_complete.
    + eapply alike_copied; [exact Ha|]. by eapply made_copied.
  - rewrite <- Nat.add_1_r, <- drop_drop, Hd. done.
Qed.

(** *** The whole function *)

(** A generated file is the text of the header and the records. *)
Definition csv_text (c : Capability) (f : OutputFiles) (projected : value) (metadata : list bytes) (text : bytes) : Prop :=
  exists columns rows records, csv_columns c f metadata = Ok columns /\ outputPointer projected (of_from f) = Ok (VArr rows) /\
    Forall2 (row_record f columns) rows records /\ text = concat (csv_line <$> csv_header f columns :: records).
Lemma csv_body_ok i c f projected metadata :
  body_ok i (fun g l => csv_text c f projected metadata (written g l)) (fun a => WriteCSV aw_Write a c f projected metadata).
Proof.
  intros a a' e E Hh. apply (WriteCSV_writes i) in E as Hw. destruct Hw as (l & Hl). exists l. split; [done|]. intros ->.
  apply (WriteCSV_text aw_Write aw_hash) in E as (columns & rows & records & H1 & H2 & H3 & H4).
  exists columns, rows, records. repeat (split; [done|]). by rewrite (wr_hash _ _ _ _ Hl), Hh in H4.
Qed.

(** What the files of an output are: none, the generated one, or the originals. *)
Definition files_of (c : Capability) (source : ProviderResult) (projected : value) (log : list event) (stages : list nat) : Prop :=
  match cap_Files c with
  | None => stages = []
  | Some f =>
      if generateCSV c then exists g, stages = [g] /\ (NoDup (begun log) -> csv_text c f projected (ps_Columns source) (written g log))
      else length stages = length (ps_Files source) /\
        forall k g pf, stages !! k = Some g -> ps_Files source !! k = Some pf -> NoDup (begun log) ->
          written g log = readb k log /\ integrity pf (written g log)
  end.
Definition count_ok (c : Capability) (o : PreparedOutput) : Prop :=
  cap_Files c <> None -> Z.of_nat (length (po_Files o)) <= policyInt c "max_output_files".

Lemma poll_inv q q' e : q_poll q = (q', e) -> exists s, q' = q_with q s /\ p_log s = p_log (q_s q).
Proof. unfold q_poll. destruct (poll (q_s q)) as [s e'] eqn:Ep. apply poll_log in Ep. intros [= <- <-]. by exists s. Qed.
Lemma poll_alike q q' e : q_poll q = (q', e) -> alike q q' /\ follows q q'.
Proof.
  intros (s & -> & Ep)%poll_inv. split; split; cbn; try done.
  - exists []. by rewrite app_nil_r.
  - by rewrite Ep.
Qed.

Definition started (q : proc) : Prop :=
  p_log (q_s q) = [] /\ po_stages (q_ready q) = [] /\ po_Files (q_ready q) = [] /\ po_closed (q_ready q) = false /\ q_total q = 0.
Lemma started_facts c files q : started q -> 0 <= policyInt c "max_total_output_file_bytes" -> q_closed q = replicate (length files) false ->
  held_open q /\ sources_ok files q /\ complete c q /\ copied files 0 q.
Proof.
  intros (H1 & H2 & H3 & H4 & H5) Hp Hc. split; [|split; [|split]]; split; rewrite ?H1, ?H2, ?H3, ?H4, ?H5, ?Hc, ?length_replicate; try done; try (intros; lia); try constructor.
  - by intros ?%elem_of_nil.
  - intros [_ [? _]%lookup_replicate]. done.
Qed.

Lemma publish_files_ok c source delivery projected f q q' e :
  publish_files c source delivery projected f q = (q', e) -> cap_Files c = Some f ->
  0 <= policyInt c "max_output_file_bytes" -> 0 <= policyInt c "max_total_output_file_bytes" ->
  started q -> q_closed q = replicate (length (ps_Files source)) false ->
  held_open q' /\ sources_ok (ps_Files source) q' /\ po_Data (q_ready q') = po_Data (q_ready q) /\
  (e = None -> complete c q' /\ count_ok c (q_ready q') /\ files_of c source projected (p_log (q_s q')) (po_stages (q_ready q'))).
Proof.
  intros E Hcf Hp1 Hp2 Hst Hcl. destruct (started_facts c (ps_Files source) q Hst Hp2 Hcl) as (Hh & Hs & Hc & Hcp).
  unfold publish_files in E. destruct (Z.ltb_spec (policyInt c "max_output_files") (if generateCSV c then 1 else Z.of_nat (length (ps_Files source)))) as [|Hcount];
    [by injection E as <- <-|]. destruct (_ && _); [by injection E as <- <-|].
  destruct (if generateCSV c then _ else _) as [q1 e1] eqn:Em.
  assert (held_open q1 /\ sources_ok (ps_Files source) q1 /\ po_Data (q_ready q1) = po_Data (q_ready q) /\
    (e1 = None -> complete c q1 /\ count_ok c (q_ready q1) /\ files_of c source projected (p_log (q_s q1)) (po_stages (q_ready q1)))) as (H1 & H2 & H0 & H3).
  { unfold files_of, count_ok. rewrite Hcf. destruct (generateCSV c).
    - apply (makeFile_made c 0 (fun g l => csv_text c f projected (ps_Columns source) (written g l))) in Em; [|apply csv_body_ok].
      destruct (made_held _ _ _ _ _ _ Em Hh) as [Hh1 Hfo]. apply (follows_sources (ps_Files source)) in Hfo as Hs1; [|done].
      split; [done|]. split; [done|]. split; [apply Hfo|]. intros ->. apply made_complete in Em as Hc1; [|done..]. split; [done|].
      inversion Em as [|?|g l r m Hlog Hl HQ Hr _ _ _ _ _ E']. destruct Hst as (S1 & S2 & S3 & _). rewrite Hlog, S1, Hr.
      split; [intros _; cbn; rewrite S3; cbn; lia|]. exists g. split; [cbn; by rewrite S2|]. intros _. rewrite app_nil_l.
      destruct (log_parts g 0 l [EFinish r] Hl) as (_ & _ & _ & _ & _ & P6 & _); [eauto|]. by rewrite P6, decide_True.
    - apply (originals_ok c f (ps_Files source) Hp1) in Em as (H1 & H2 & H0 & H3); [|done|lia|done|done]. split; [done|]. split; [done|]. split; [done|].
      intros He. destruct (H3 He Hc Hcp) as [Hc1 [L U C I]]. split; [done|]. split.
      + intros _. apply co_files, Forall2_length in Hc1. rewrite <- Hc1, L. done.
      + split; [done|]. intros k g pf Hg Hpf Hnd. rewrite (C k g Hg Hnd). split; [done|]. apply I; [|done]. by eapply lookup_lt_Some. }
  destruct e1 as [e1|]; [by injection E as <- <-|]. apply poll_alike in E as [Ha Hfo]. destruct (H3 eq_refl) as (H4 & H5 & H6).
  split; [by eapply alike_held|]. split; [by eapply follows_sources|]. split; [by rewrite (fo_data _ _ Hfo)|]. intros _. split; [by eapply alike_complete|].
  destruct (alike_log _ _ Ha) as (A1 & _ & _ & _ & A5 & A6). rewrite (al_ready _ _ Ha). split; [done|].
  unfold files_of in *. rewrite Hcf in *. destruct (generateCSV c).
  - destruct H6 as (g & Hg & Ht). exists g. split; [done|]. rewrite A1, A5. done.
  - destruct H6 as [H6 H7]. split; [done|]. intros k g pf. rewrite A1, A5, A6. auto.
Qed.

(** The data that goes with the files. *)
Definition data_of (c : Capability) (source : ProviderResult) (projected : value) (v : value) : Prop :=
  (cap_Data c || generateCSV c = true -> ProjectOutput lib c (ps_Data source) (ps_Columns source) = Ok projected) /\
  if cap_Data c then ready_data c projected = Ok v /\ checkOutputJSON v (outputLimits c) = Ok tt else v = VNull.

Lemma publish_data_ok c source o o' projected : publish_data c source o = Ok (o', projected) -> po_Data o = VNull ->
  data_of c source projected (po_Data o') /\ po_Files o' = po_Files o /\ po_stages o' = po_stages o /\ po_closed o' = po_closed o.
Proof.
  unfold publish_data, data_of. intros E Hn. apply result_bind_Ok in E as (v & Ev & E). destruct (cap_Data c); cbn in *.
  - apply result_bind_Ok in E as (d & Ed & E). apply result_bind_Ok in E as ([] & Ec & E). apply Ok_inj in E. by injection E as <- <-.
  - apply Ok_inj in E. injection E as <- <-. split; [|done]. split; [|done]. intros Hg. by rewrite Hg in Ev.
Qed.

(** The outcome of the body: what holds of it in any case, and when it succeeds. *)
Record body_outcome (c : Capability) (source : ProviderResult) (q : proc) (e : option string) : Prop := {
  bo_held : held_open q;
  bo_sources : sources_ok (ps_Files source) q;
  bo_success : e = None -> complete c q /\ count_ok c (q_ready q) /\
    exists projected, data_of c source projected (po_Data (q_ready q)) /\ files_of c source projected (p_log (q_s q)) (po_stages (q_ready q))
}.
Lemma process_body_ok c source delivery q q' e :
  process_body c source delivery q = (q', e) ->
  0 <= policyInt c "max_output_file_bytes" -> 0 <= policyInt c "max_total_output_file_bytes" ->
  started q -> po_Data (q_ready q) = VNull -> q_closed q = replicate (length (ps_Files source)) false -> body_outcome c source q' e.
Proof.
  unfold process_body. intros E Hp1 Hp2 Hst Hn Hcl. destruct (q_poll q) as [q1 e1] eqn:Ep. apply poll_inv in Ep as (s & -> & Hs).
  assert (started (q_with q s)) as Hst1 by (destruct Hst as (S1 & Hst); split; [cbn; congruence|done]).
  destruct (started_facts c (ps_Files source) _ Hst1 Hp2 Hcl) as (Hh & Hso & Hc & _).
  assert (forall e, body_outcome c source (q_with q s) (Some e)) as Hfail by done.
  destruct e1 as [e1|]; [injection E as <- <-; apply Hfail|]. destruct (_ && _); [injection E as <- <-; apply Hfail|].
  destruct (publish_data c source _) as [[ready projected]|e2] eqn:Ed; [|injection E as <- <-; apply Hfail].
  apply publish_data_ok in Ed as (Hd & D1 & D2 & D3); [|done].
  set (q2 := {| q_s := q_s (q_with q s); q_ready := ready; q_closed := q_closed (q_with q s); q_total := q_total (q_with q s) |}) in *.
  assert (started q2) as Hst2 by (destruct Hst1 as (S1 & S2 & S3 & S4 & S5); repeat split; cbn in *; congruence).
  destruct (started_facts c (ps_Files source) q2 Hst2 Hp2 Hcl) as (Hh2 & Hso2 & Hc2 & _).
  destruct (cap_Files c) as [f|] eqn:Ecf.
  - apply publish_files_ok in E as (H1 & H2 & H0 & H3); [|done..]. split; [done|done|].
    intros He. destruct (H3 He) as (H4 & H5 & H6). split; [done|]. split; [done|]. exists projected. split; [by rewrite H0|done].
  - injection E as <- <-. split; [done|done|]. intros _. split; [done|]. split; [intros ?; congruence|]. exists projected. split; [done|].
    unfold files_of. rewrite Ecf. apply Hst2.
Qed.

Lemma alike_refl q : alike q q.
Proof. split; [exists []; by rewrite app_nil_r|done|done]. Qed.
Lemma alike_trans a b c : alike a b -> alike b c -> alike a c.
Proof.
  intros [(l & Hl & HL) R1 T1] [(m & Hm & HM) R2 T2]. split; [|congruence|congruence]. exists (l ++ m).
  rewrite Hm, Hl, app_assoc. split; [done|by apply Forall_app].
Qed.
Lemma close_sources_ok files l : forall q err q' err', close_sources files l q err = (q', err') -> sources_ok files q ->
  alike q q' /\ sources_ok files q' /\ (err' = None -> err = None) /\
  (forall i, q_closed q !! i = Some true -> q_closed q' !! i = Some true) /\
  (forall i, i ∈ l -> (i < length files)%nat -> q_closed q' !! i = Some true).
Proof.
  induction l as [|i l IH]; intros q err q' err' E Hs; cbn [close_sources] in E.
  - injection E as <- <-. split; [apply alike_refl|]. split; [done|]. split; [done|]. split; [done|]. by intros i ?%elem_of_nil.
  - destruct (closeSource files i q) as [q1 e1] eqn:Ec. apply closeSource_alike in Ec as Ha; [|done].
    apply closeSource_ok in Ec as (Hs1 & Hi & Hk & _); [|done]. apply IH in E as (H1 & H2 & H3 & H4 & H5); [|done].
    split; [by eapply alike_trans|]. split; [done|]. split; [destruct err; [|done]; intros He; by apply H3 in He|].
    split; [auto|]. intros j [-> |Hj]%elem_of_cons Hlt; auto.
Qed.

(** Closing gives back every reader and every stage, once. *)
Lemma close_readers_log l : forall s, p_log (close_readers s l) = p_log s ++ (EReaderClose <$> l.*2).
Proof.
  induction l as [|[m r] l IH]; intros s; [by rewrite app_nil_r|]. cbn [close_readers]. rewrite IH. cbn. by rewrite <- app_assoc.
Qed.
Lemma abort_stages_log l : forall s, p_log (abort_stages s l) = p_log s ++ (EAbort <$> l).
Proof. induction l as [|g l IH]; intros s; [by rewrite app_nil_r|]. cbn [abort_stages]. rewrite IH. cbn. by rewrite <- app_assoc. Qed.
Lemma closing_log (rs gs : list nat) : let l := (EReaderClose <$> rs) ++ (EAbort <$> gs) in
  begun l = [] /\ aborted l = gs /\ opened l = [] /\ readers_closed l = rs /\ sources_closed l = [].
Proof.
  assert (begun (EReaderClose <$> rs) = [] /\ aborted (EReaderClose <$> rs) = [] /\ opened (EReaderClose <$> rs) = [] /\
    readers_closed (EReaderClose <$> rs) = rs /\ sources_closed (EReaderClose <$> rs) = []) as (R1 & R2 & R3 & R4 & R5).
  { induction rs as [|r rs (H1 & H2 & H3 & H4 & H5)]; [done|].
    unfold begun, aborted, opened, readers_closed, sources_closed in *. cbn. by rewrite H4. }
  assert (begun (EAbort <$> gs) = [] /\ aborted (EAbort <$> gs) = gs /\ opened (EAbort <$> gs) = [] /\
    readers_closed (EAbort <$> gs) = [] /\ sources_closed (EAbort <$> gs) = []) as (G1 & G2 & G3 & G4 & G5).
  { induction gs as [|g gs (H1 & H2 & H3 & H4 & H5)]; [done|].
    unfold begun, aborted, opened, readers_closed, sources_closed in *. cbn. by rewrite H2. }
  cbv zeta. rewrite begun_app, aborted_app, opened_app, readers_closed_app, sources_closed_app, R1, R2, R3, R4, R5, G1, G2, G3, G4, G5, !app_nil_r. done.
Qed.
Lemma Close_log s o : po_closed o = false -> p_log (Close s o).1 = p_log s ++ (EReaderClose <$> (po_Files o).*2) ++ (EAbort <$> po_stages o).
Proof. unfold Close. intros ->. cbn [fst]. by rewrite abort_stages_log, close_readers_log, <- app_assoc. Qed.

(** What [processOutput] leaves behind. *)
Lemma processOutput_outcome w c source delivery s r :
  processOutput {| p_world := w; p_log := [] |} c source delivery = (s, r) ->
  0 <= policyInt c "max_output_file_bytes" -> 0 <= policyInt c "max_total_output_file_bytes" ->
  exists q, body_outcome c source q (match r with Ok _ => None | Err e => Some e end) /\
    (forall i, (i < length (ps_Files source))%nat -> q_closed q !! i = Some true) /\
    match r with Ok o => s = q_s q /\ o = q_ready q | Err _ => s = (Close (q_s q) (q_ready q)).1 end.
Proof.
  unfold processOutput. intros E Hp1 Hp2. destruct (process_body _ _ _ _) as [q1 e1] eqn:Eb. apply process_body_ok in Eb; [|done..].
  destruct (close_sources _ _ _ _) as [q2 e2] eqn:Ec. apply close_sources_ok in Ec as (Ha & Hs & He & _ & Hall); [|apply Eb].
  assert (body_outcome c source q2 e2) as Hb.
  { destruct Eb as [B1 B2 B3]. split; [by eapply alike_held|done|]. intros Hn. destruct (B3 (He Hn)) as (C1 & C2 & proj & C3 & C4).
    destruct (alike_log _ _ Ha) as (A1 & _ & _ & _ & A5 & A6). rewrite (al_ready _ _ Ha). split; [by eapply alike_complete|]. split; [done|].
    exists proj. split; [done|]. unfold files_of in *. destruct (cap_Files c); [|done]. destruct (generateCSV c).
    - destruct C4 as (g & Hg & Ht). exists g. split; [done|]. by rewrite A1, A5.
    - destruct C4 as [C4 C5]. split; [done|]. intros k g pf. rewrite A1, A5, A6. auto. }
  assert (forall i, (i < length (ps_Files source))%nat -> q_closed q2 !! i = Some true) as Hcl by (intros i Hi; apply Hall; [apply elem_of_seq; lia|done]).
  destruct e2 as [e2|]; [injection E as <- <-; by exists q2|].
  destruct (q_poll q2) as [q3 e3] eqn:Ep. apply poll_inv in Ep as (s' & -> & Hlog).
  assert (body_outcome c source (q_with q2 s') e3) as Hb'.
  { destruct Hb as [B1 B2 B3]. split; [destruct B1|destruct B2|intros _; destruct (B3 eq_refl) as ([C1 C2 C3 C4] & C5 & C6); split; [|split]];
      try split; cbn; rewrite ?Hlog; done. }
  exists (q_with q2 s'). destruct e3 as [e3|]; injection E as <- <-; done.
Qed.

Lemma Close_twice s o : Close (Close s o).1 (Close s o).2 = Close s o.
Proof. unfold Close. destruct (po_closed o) eqn:E; cbn [fst snd po_closed]; by rewrite ?E. Qed.

(** All that was begun or opened is given back. *)
Definition given_back (log : list event) : Prop := aborted log = begun log /\ readers_closed log ≡ₚ opened log.
Lemma close_gives_back q : held_open q -> given_back (p_log (Close (q_s q) (q_ready q)).1) /\
  sources_closed (p_log (Close (q_s q) (q_ready q)).1) = sources_closed (p_log (q_s q)).
Proof.
  intros [B A R Wr C]. rewrite Close_log by done. destruct (closing_log (po_Files (q_ready q)).*2 (po_stages (q_ready q))) as (L1 & L2 & L3 & L4 & L5).
  unfold given_back. rewrite begun_app, aborted_app, opened_app, readers_closed_app, sources_closed_app, L1, L2, L3, L4, L5, A, B, !app_nil_r. done.
Qed.
Lemma sources_all files q : sources_ok files q -> (forall i, (i < length files)%nat -> q_closed q !! i = Some true) ->
  NoDup (sources_closed (p_log (q_s q))) /\ forall i, i ∈ sources_closed (p_log (q_s q)) <-> closable files i.
Proof.
  intros [S1 S2 S3] Hall. split; [done|]. intros i. rewrite S3. split; [tauto|]. intros Hc. split; [done|].
  apply Hall. destruct Hc as (f & Hf & _). by eapply lookup_lt_Some.
Qed.

(* ------------------------------------------------------------------ *)
(** ** Properties *)

(** C12: whatever the stager, its stages, the provider's readers and the context do, and however
    [processOutput] ends, it closes every closable reader of the provider exactly once. When it
    fails it aborts exactly the stages that were begun, in order, and closes exactly the readers
    that were opened. When it succeeds it has aborted and closed none of them, [Close] on the
    result gives all of them back, and a second [Close] does nothing. *)
Theorem output_released w c source delivery s r :
  processOutput {| p_world := w; p_log := [] |} c source delivery = (s, r) ->
  0 <= policyInt c "max_output_file_bytes" -> 0 <= policyInt c "max_total_output_file_bytes" ->
  NoDup (sources_closed (p_log s)) /\ (forall i, i ∈ sources_closed (p_log s) <-> closable (ps_Files source) i) /\
  match r with
  | Err _ => given_back (p_log s)
  | Ok o => aborted (p_log s) = [] /\ readers_closed (p_log s) = [] /\ given_back (p_log (Close s o).1) /\
      Close (Close s o).1 (Close s o).2 = Close s o
  end.
Proof.
  intros E Hp1 Hp2. destruct (processOutput_outcome _ _ _ _ _ _ E Hp1 Hp2) as (q & [B1 B2 B3] & Hall & Hr).
  destruct (sources_all _ q B2 Hall) as [Hnd Hcl]. destruct (close_gives_back q B1) as [Hg Hsc]. destruct r as [o|e].
  - destruct Hr as [-> ->]. split; [done|]. split; [done|]. split; [apply B1|]. split; [by apply (B3 eq_refl)|]. split; [done|].
    apply Close_twice.
  - subst s. by rewrite Hsc.
Qed.

(** C14: an output that is given out is complete and true: there is a stage for every file, at most the
    configured number of them, and the size and digest of each are those of the bytes that its stage
    accepted, within the limit for a file and together within the limit for all. A generated file is
    the CSV text of the projected rows; an original file has exactly the bytes that its reader gave,
    and they have the size and the digest that the provider asserted. *)
Theorem output_files_faithful w c source delivery s o :
  processOutput {| p_world := w; p_log := [] |} c source delivery = (s, Ok o) ->
  0 <= policyInt c "max_output_file_bytes" -> 0 <= policyInt c "max_total_output_file_bytes" ->
  begun (p_log s) = po_stages o /\ opened (p_log s) ≡ₚ (po_Files o).*2 /\ count_ok c o /\
  Forall2 (fun g f => describes c (p_log s) g f.1) (po_stages o) (po_Files o) /\
  sizes (po_Files o) <= policyInt c "max_total_output_file_bytes" /\
  exists projected, data_of c source projected (po_Data o) /\ files_of c source projected (p_log s) (po_stages o).
Proof.
  intros E Hp1 Hp2. destruct (processOutput_outcome _ _ _ _ _ _ E Hp1 Hp2) as (q & [B1 B2 B3] & _ & -> & ->).
  destruct (B3 eq_refl) as ([F Rc T Bd] & Hn & Hp). destruct B1 as [B A R Wr C]. rewrite Rc in R. rewrite <- T. done.
Qed.

(** copying a file ends for every reader, also one that never reports its end: the result of
    [copyArtifact] does not depend on the bound on its rounds, because every read that is not empty
    uses up part of the limit and a hundred empty reads in a row are an error. *)
Theorem copy_terminates i a fuel : (copy_fuel a <= fuel)%nat -> copy_loop i fuel a [] 0 0 = copyArtifact i a.
Proof. intros Hf. unfold copyArtifact. apply copy_fuel_enough; unfold copy_fuel, copy_measure in *; lia. Qed.
End Publish.

(** ** Witnesses *)

(** A stager that takes everything, and a reader that gives two bytes and then its end. *)
Record example_world := { ew_next : nat; ew_reads : nat }.
#[export] Instance example_output_world : OutputWorld example_world := {
  ctx_Err w := (w, None);
  has_stager := true;
  Begin w _ _ := ({| ew_next := S (ew_next w); ew_reads := ew_reads w |}, Some (ew_next w), None);
  stage_Write w _ p := (w, Z.of_nat (length p), None);
  stage_Close w _ := (w, None);
  stage_Finish w g _ := (w, Some g, None);
  stage_Abort w _ := (w, None);
  reader_Close w _ := (w, None);
  source_Read w _ := ({| ew_next := ew_next w; ew_reads := S (ew_reads w) |},
    if (ew_reads w =? 0)%nat then Some (lit "hi") else Some [], if (ew_reads w =? 0)%nat then None else Some "EOF"%string);
  source_Close w _ := (w, None)
}.
Definition example_source : ProviderResult :=
  {| ps_ReturnedRows := None; ps_AffectedRows := None; ps_Data := VNull; ps_Columns := [];
     ps_Files := [{| pf_Name := lit "a.txt"; pf_MIMEType := lit "text/plain"; pf_Reader := Some true; pf_SizeBytes := Some 2; pf_SHA256 := [] |}] |}.
Definition example_originals : OutputFiles :=
  {| of_format := lit "original"; of_from := []; of_columns := None; of_formula_escape := false; of_filename := [];
     of_mime_type := None; of_rest := lit "direct" |}.
Definition example_file_capability : Capability :=
  {| cap_Schema := free_schema; cap_Data := false; cap_Files := Some example_originals; cap_Mode := lit "project"; cap_Type := lit "file";
     cap_Operation := []; cap_Policy := [(lit "max_output_files", 1); (lit "max_output_file_bytes", 3); (lit "max_total_output_file_bytes", 3)] |}.
Definition example_start : pstate := {| p_world := {| ew_next := 0; ew_reads := 0 |}; p_log := [] |}.
Definition example_run := Eval vm_compute in processOutput example_engines example_start example_file_capability example_source true.
Definition example_prepared : PreparedOutput := Eval vm_compute in
  match example_run.2 with Ok o => o | Err _ =>
    {| po_ReturnedRows := None; po_AffectedRows := None; po_Data := VNull; po_Files := []; po_stages := []; po_closed := true |} end.
Lemma example_run_ok : processOutput example_engines example_start example_file_capability example_source true = (example_run.1, Ok example_prepared).
Proof. vm_compute. reflexivity. Qed.

Lemma output_released_witness : length (po_Files example_prepared) = 1%nat /\ given_back (p_log (Close example_run.1 example_prepared).1).
Proof.
  split; [reflexivity|].
  destruct (output_released example_engines {| ew_next := 0; ew_reads := 0 |} example_file_capability example_source true
    example_run.1 (Ok example_prepared) example_run_ok) as (_ & _ & _ & _ & H & _); [by vm_compute|by vm_compute|exact H].
Defined.
Lemma output_files_faithful_witness : begun (p_log example_run.1) = po_stages example_prepared /\ sizes (po_Files example_prepared) <= 3.
Proof.
  destruct (output_files_faithful example_engines {| ew_next := 0; ew_reads := 0 |} example_file_capability example_source true
    example_run.1 example_prepared example_run_ok) as (H1 & _ & _ & _ & H2 & _); [by vm_compute|by vm_compute|exact (conj H1 H2)].
Defined.
Definition example_writer : artifactWriter := {| aw_s := example_start; aw_dest := 0; aw_hash := []; aw_remaining := 3; aw_size := 0 |}.
Lemma copy_terminates_witness : copy_loop 0 1000 example_writer [] 0 0 = copyArtifact 0 example_writer.
Proof. apply (copy_terminates 0 example_writer 1000). vm_compute. lia. Defined.
