(* ===== verification/ArtifactStore.v ===== *)
(** * Private artifacts of the agent ([agent/artifacts/store.go], [input.go], [output.go], [scratch.go])
    The store's tables, the stages being written or read, and the requests, scopes and
    reservations that own them. Every operation runs under the store's mutex and is one
    function on the state. The operating system, contexts, the clock and the source of
    random identifiers are the [environment]: functions of the number of calls made so
    far, so that any of them may fail or change at every call. An error is its category.
    A stage is known by its identifier; [s_stages] is the table of the store, [s_gone] has
    the stages that were removed from it and are still referred to. *)
From Stdlib Require Import ZArith Lia.
From stdpp Require Import base gmap sets list option strings.
From coqutil Require Import Datatypes.RecordSettersUsingExistingGetters.
From S2P Require Import Prelude Utf8 Sha256 Strconv Json JsonText Canonical GoStrings InputValue ValueFormat Schema Pointer Validation Publish.
Local Open Scope Z_scope.
#[global] Arguments const {E} newValue / _.

(** ** Data *)

Record Owner := { RequestID : bytes; CallerBinding : bytes; ow_Capability : bytes; DefinitionHash : bytes; AuthGeneration : bytes }.
#[export] Instance Owner_eq_dec : EqDecision Owner.
Proof. solve_decision. Defined.
#[export] Instance ArtifactMetadata_eq_dec : EqDecision ArtifactMetadata.
Proof. solve_decision. Defined.

Definition owner_text (s : bytes) : bool :=
  negb (bytes_eqb s [] || (256 <? Z.of_nat (length s)) || negb (ValidString s) || ContainsRune s 0).
Definition valid (o : Owner) : bool :=
  forallb owner_text [RequestID o; CallerBinding o; ow_Capability o; DefinitionHash o; AuthGeneration o].
Definition scratch_owner : Owner :=
  {| RequestID := lit "scratch"; CallerBinding := lit "scratch"; ow_Capability := lit "scratch";
     DefinitionHash := lit "scratch"; AuthGeneration := lit "scratch" |}.

Record Options := { QuotaBytes : Z; MaxPending : Z; MaxObjects : Z; TransferTimeout : Z }.
Inductive stage_kind := InputStage | OutputStage.
#[export] Instance stage_kind_eq_dec : EqDecision stage_kind.
Proof. solve_decision. Defined.
Record StageInfo := { in_owner : Owner; in_kind : stage_kind; in_name : bytes; in_mime : bytes; in_ctx : nat }.
(** [st_data] is what the hash has been given; [st_file] says whether the file is open. *)
Record Stage := {
  st_info : StageInfo; st_file : bool; st_data : bytes; st_size : Z; st_reserved : Z; st_sealed : bool; st_ready : bool;
  st_retained : bool; st_retired : bool; st_writeErr : option string; st_readers : gset nat; st_request : option nat;
  st_scope : option nat; st_expires : Z
}.
Record Reader := { rd_stage : bytes; rd_ctx : nat; rd_closed : bool }.

Inductive request_state := Receiving | RequestReady | Executing | Aborted | Released.
#[export] Instance request_state_eq_dec : EqDecision request_state.
Proof. solve_decision. Defined.
Record Request := {
  rq_owner : Owner; rq_schema : Schema; rq_limits : Limits; rq_deadline : Z; rq_ctx : nat; rq_execution : option nat;
  rq_state : request_state; rq_files : gmap bytes bytes; rq_bytes : Z; rq_started : bool
}.
Record OutputLimits := { MaxOutputFileBytes : Z; MaxTotalBytes : Z; MaxOutputFiles : Z; TTL : Z }.
Record OutputScope := { sc_owner : Owner; sc_limits : OutputLimits; sc_stages : list bytes; sc_bytes : Z; sc_published : bool }.
Record Descriptor := { ds_ID : bytes; ds_metadata : ArtifactMetadata; ds_ExpiresAt : Z }.

Record Store := {
  s_options : Options; s_used : Z; s_readers : Z; s_closed : bool; s_poisoned : bool; s_closeErr : option string;
  s_stages : gmap bytes Stage; s_gone : gmap bytes Stage; s_requests : gmap bytes nat; s_reservations : gmap nat Z;
  s_request_heap : gmap nat Request; s_reader_heap : gmap nat Reader; s_scope_heap : gmap nat OutputScope;
  s_canceled : gset nat; s_next : nat; s_tick : nat
}.

(** The checks of [Open] on its options, the directory apart, and the store it makes. *)
Definition options_valid (o : Options) : bool :=
  negb ((QuotaBytes o <? 1) || (MaxPending o <? 1) || ((int64_max - 3) / 2 <? MaxPending o) || (MaxObjects o <? 1) ||
        (MaxObjects o =? int64_max) || (TransferTimeout o <=? 0) || (300 * 10 ^ 9 <? TransferTimeout o)).
Definition new_store (o : Options) : Store :=
  {| s_options := o; s_used := 0; s_readers := 0; s_closed := false; s_poisoned := false; s_closeErr := None;
     s_stages := ∅; s_gone := ∅; s_requests := ∅; s_reservations := ∅; s_request_heap := ∅; s_reader_heap := ∅;
     s_scope_heap := ∅; s_canceled := ∅; s_next := 1; s_tick := 0 |}.

(** ** Paths in the input schema *)

Fixpoint hasFile (s : Schema) : bool :=
  match s with
  | MkSchema d props items _ =>
      match File d with Some _ => true | None => false end ||
      match items with Some i => hasFile i | None => false end ||
      existsb (fun kv => hasFile kv.2) props
  end.
Definition schema_step (s : Schema) (raw : bytes) : option Schema :=
  match unescapePointer raw with
  | Err _ => None
  | Ok token =>
      match Items s with
      | Some i =>
          if negb (forallb isdigit token) || bytes_eqb token [] || (2 ^ 63 <=? digits_value token) ||
             negb (bytes_eqb (FormatInt (digits_value token)) token) then None
          else match obj_lookup (lit "maxItems") (Constraints (sdata s)) with
               | Some (VInt maximum) => if maximum <=? digits_value token then None else Some i
               | _ => Some i
               end
      | None => obj_lookup token (Properties s)
      end
  end.
Definition schemaAt (s : Schema) (pointer : bytes) : option Schema :=
  if bytes_eqb pointer [] then Some s
  else if negb (has_prefix 47 pointer) then None
  else foldl (fun cur raw => match cur with Some s => schema_step s raw | None => None end) (Some s) (pointer_tokens pointer).

(** ** Environment *)

Record environment := {
  io_error : nat -> option string;            (* the outcome of a call to the operating system *)
  io_count : nat -> Z;                        (* the count that a write reports *)
  ctx_state : nat -> nat -> option string;    (* the error of a context, from outside the store *)
  clock : nat -> Z;
  random : nat -> bytes                         (* [rand.Read], in hexadecimal *)
}.

Section Operations.
Context (env : environment) (lib : engines).

Definition execution_failed {A} (e : option A) : option string := (fun _ => "EXECUTION_FAILED"%string) <$> e.
Definition first_error (a b : option string) : option string := match a with Some _ => a | None => b end.
Definition call (s : Store) : Store * option string := (s <| s_tick ::= S |>, io_error env (s_tick s)).
Definition now (s : Store) : Z := clock env (s_tick s).
(** [context.Background()] is number 0. *)
Definition ctx_error (s : Store) (c : nat) : option string :=
  if (c =? 0)%nat then None else if decide (c ∈ s_canceled s) then Some "context canceled"%string else ctx_state env c (s_tick s).
Definition cancel (s : Store) (c : nat) : Store := s <| s_canceled ::= union {[c]} |>.
Definition poison (s : Store) : Store := s <| s_poisoned := true |>.

Definition stage (s : Store) (id : bytes) : option Stage :=
  match s_stages s !! id with Some st => Some st | None => s_gone s !! id end.
Definition set_stage (s : Store) (id : bytes) (st : Stage) : Store :=
  match s_stages s !! id with
  | Some _ => s <| s_stages ::= insert id st |>
  | None => s <| s_gone ::= insert id st |>
  end.
Definition set_request (s : Store) (rid : nat) (r : Request) : Store := s <| s_request_heap ::= insert rid r |>.

Definition available (s : Store) : option string :=
  if s_closed s then Some "NOT_FOUND"%string else if s_poisoned s then Some "DEPENDENCY_UNAVAILABLE"%string else None.
Definition reserveLocked (s : Store) (n : Z) : Store * option string :=
  match available s with
  | Some e => (s, Some e)
  | None => if (n <? 0) || (QuotaBytes (s_options s) - s_used s <? n) then (s, Some "LIMIT_EXCEEDED"%string)
            else (s <| s_used ::= Z.add n |>, None)
  end.
Definition objects (s : Store) : Z := Z.of_nat (size (s_stages s)) + Z.of_nat (size (s_reservations s)).

(** ** Reservations *)

Definition Reserve (s : Store) (n : Z) : Store * result nat :=
  if n <? 1 then (s, Err "VALIDATION_FAILED")
  else if MaxObjects (s_options s) <=? objects s then (s, Err "BUSY") else
  match reserveLocked s n with
  | (s, Some e) => (s, Err e)
  | (s, None) => (s <| s_reservations ::= insert (s_next s) n |> <| s_next ::= S |>, Ok (s_next s))
  end.
(** A reservation that was released is no longer in the table. *)
Definition Release (s : Store) (r : nat) : Store :=
  match s_reservations s !! r with
  | Some n => s <| s_used ::= fun u => u - n |> <| s_reservations ::= delete r |>
  | None => s
  end.

(** What a save whose clean-up failed does to the store: its reservation stays, raised to the
    [total] that it measured with no regard to the quota, and the store admits nothing more. *)
Definition retain (r : nat) (total : Z) (s : Store) : Store * unit :=
  let s := match s_reservations s !! r with
           | Some bytes => if (bytes <? total) && (total - bytes <=? int64_max - s_used s)
                           then s <| s_used ::= fun u => u + (total - bytes) |> <| s_reservations ::= insert r total |> else s
           | None => s
           end in
  (s <| s_poisoned := true |>, tt).

(** ** Stages *)

Definition newStage (s : Store) (ctx : nat) (o : Owner) (k : stage_kind) (name media : bytes) : Store * result bytes :=
  match available s with
  | Some e => (s, Err e)
  | None =>
  if negb (valid o) then (s, Err "VALIDATION_FAILED") else
  match ctx_error s ctx with
  | Some _ => (s, Err "EXECUTION_FAILED")
  | None =>
  if negb (is_ok (ValidateBasename name)) || negb (validMIME media) then (s, Err "VALIDATION_FAILED")
  else if MaxObjects (s_options s) <=? objects s then (s, Err "BUSY") else
  match call s with
  | (s, Some _) => (s, Err "EXECUTION_FAILED")
  | (s, None) =>
  let id := random env (s_tick s) in
  match call s with
  | (s, Some _) => (s, Err "EXECUTION_FAILED")
  | (s, None) =>
  let discard s := (match call s with (s, Some _) => (poison s, Err "EXECUTION_FAILED") | (s, None) => (s, Err "EXECUTION_FAILED") end) in
  match call s with
  | (s, Some _) => discard s
  | (s, None) =>
  match call s with
  | (s, Some _) => discard s
  | (s, None) =>
      (s <| s_stages ::= insert id
         {| st_info := {| in_owner := o; in_kind := k; in_name := name; in_mime := media; in_ctx := ctx |}; st_file := true;
            st_data := []; st_size := 0; st_reserved := 0; st_sealed := false; st_ready := false; st_retained := false;
            st_retired := false; st_writeErr := None; st_readers := ∅; st_request := None; st_scope := None; st_expires := 0 |} |>,
       Ok id)
  end end end end end end.

(** The limits of the owner of a stage on a write of [n] bytes. *)
Definition leaf_limit (r : Request) (id : bytes) : Z :=
  match filter (fun kv : bytes * bytes => kv.2 = id) (map_to_list (rq_files r)) with
  | (pointer, _) :: _ =>
      match schemaAt (rq_schema r) pointer with
      | Some node => match File (sdata node) with Some f => Z.min (MaxFileBytes (rq_limits r)) (fc_MaxBytes f) | None => MaxFileBytes (rq_limits r) end
      | None => MaxFileBytes (rq_limits r)
      end
  | [] => MaxFileBytes (rq_limits r)
  end.
Definition request_refuses (s : Store) (id : bytes) (st : Stage) (n : Z) : bool :=
  match st_request st ≫= (s_request_heap s !!.) with
  | Some r => negb (bool_decide (rq_state r = Receiving)) || (leaf_limit r id - st_size st <? n) || (MaxTotalFileBytes (rq_limits r) - rq_bytes r <? n)
  | None => false
  end.
Definition scope_refuses (s : Store) (st : Stage) (n : Z) : bool :=
  match st_scope st ≫= (s_scope_heap s !!.) with
  | Some v => (MaxOutputFileBytes (sc_limits v) - st_size st <? n) || (MaxTotalBytes (sc_limits v) - sc_bytes v <? n)
  | None => false
  end.
(** The owner's counter of bytes. *)
Definition count_bytes (s : Store) (st : Stage) (n : Z) : Store :=
  let s := match st_request st ≫= (s_request_heap s !!.) with
           | Some r => s <| s_request_heap ::= insert (default 0%nat (st_request st)) (r <| rq_bytes ::= Z.add n |>) |>
           | None => s
           end in
  match st_scope st ≫= (s_scope_heap s !!.) with
  | Some v => s <| s_scope_heap ::= insert (default 0%nat (st_scope st)) (v <| sc_bytes ::= Z.add n |>) |>
  | None => s
  end.
(** The write itself: reported count and error, both made consistent. *)
Definition disk_write (s : Store) (p : bytes) : Store * Z * option string :=
  let n := io_count env (s_tick s) in
  let '(s, e) := call s in
  let '(n, e) := if (n <? 0) || (Z.of_nat (length p) <? n) then (0, Some "short write"%string) else (n, e) in
  (s, n, match e with Some _ => e | None => if n =? Z.of_nat (length p) then None else Some "short write"%string end).
Definition Write (s : Store) (id : bytes) (p : bytes) : Store * Z * option string :=
  match stage s id with
  | None => (s, 0, Some "NOT_FOUND"%string)
  | Some st =>
      if st_retired st || st_sealed st || bool_decide (is_Some (st_writeErr st)) then (s, 0, Some "CONFLICT"%string) else
      match ctx_error s (in_ctx (st_info st)) with
      | Some _ => (s, 0, Some "EXECUTION_FAILED"%string)
      | None =>
      let n64 := Z.of_nat (length p) in
      if 65536 <? n64 then (s, 0, Some "LIMIT_EXCEEDED"%string)
      else if request_refuses s id st n64 then (s, 0, Some "LIMIT_EXCEEDED"%string)
      else if scope_refuses s st n64 then (s, 0, Some "LIMIT_EXCEEDED"%string) else
      let prepaid := Z.min n64 (st_reserved st) in
      match reserveLocked s (n64 - prepaid) with
      | (s, Some e) => (s, 0, Some e)
      | (s, None) =>
          let '(s, n, e) := disk_write s p in
          let s := s <| s_used ::= fun u => u - (n64 - n) |> in
          let s := set_stage s id (st <| st_reserved ::= fun x => x - prepaid |> <| st_size ::= Z.add n |>
                                      <| st_data ::= fun d => d ++ take (Z.to_nat n) p |>
                                      <| st_writeErr := match e with Some _ => e | None => st_writeErr st end |>) in
          (count_bytes s st n, n, execution_failed e)
      end
      end
  end.

Definition sealLocked (s : Store) (id : bytes) (st : Stage) : Store * option string :=
  if st_retired st then (s, Some "NOT_FOUND"%string)
  else if st_sealed st then (s, execution_failed (st_writeErr st)) else
  let s := s <| s_used ::= fun u => u - st_reserved st |> in
  let ctx := ctx_error s (in_ctx (st_info st)) in
  let '(s, synced) := call s in
  let '(s, closed) := call s in
  let err := first_error (st_writeErr st) (first_error ctx (first_error synced closed)) in
  (set_stage s id (st <| st_sealed := true |> <| st_reserved := 0 |> <| st_file := false |> <| st_writeErr := err |>), execution_failed err).
Definition CloseStage (s : Store) (id : bytes) : Store * option string :=
  match stage s id with Some st => sealLocked s id st | None => (s, Some "NOT_FOUND"%string) end.

Definition metadata (st : Stage) : ArtifactMetadata :=
  {| am_Name := in_name (st_info st); am_MIMEType := in_mime (st_info st); am_SizeBytes := st_size st; am_SHA256 := hex_sha256 (st_data st) |}.

(** *** Removal *)

Definition releaseSlotLocked (s : Store) (rid : nat) : Store :=
  match s_request_heap s !! rid with
  | Some r =>
      if negb (bool_decide (rq_state r = Released)) then s
      else if existsb (fun kv => bool_decide (is_Some (s_stages s !! kv.2))) (map_to_list (rq_files r)) then s
      else if bool_decide (s_requests s !! RequestID (rq_owner r) = Some rid) then s <| s_requests ::= delete (RequestID (rq_owner r)) |>
      else s
  | None => s
  end.
Definition cleanupLocked (s : Store) (id : bytes) : Store * option string :=
  match stage s id with
  | None => (s, None)
  | Some st =>
      if negb (st_retired st) || negb (bool_decide (st_readers st = ∅)) then (s, None) else
      let closing := (if st_file st then
          match call s with
          | (s, Some _) => (poison s, st, Some "EXECUTION_FAILED"%string)
          | (s, None) => (set_stage s id (st <| st_file := false |>), st <| st_file := false |>, None)
          end else (s, st, None)) in
      match closing with
      | (s, _, Some e) => (s, Some e)
      | (s, st, None) =>
          match s_stages s !! id with
          | None => (s, None)
          | Some _ =>
              match call s with
              | (s, Some _) => (poison s, Some "EXECUTION_FAILED"%string)
              | (s, None) =>
                  let s := s <| s_used ::= fun u => u - (st_size st + st_reserved st) |>
                             <| s_stages ::= delete id |> <| s_gone ::= insert id (st <| st_reserved := 0 |>) |> in
                  (match st_request st with Some rid => releaseSlotLocked s rid | None => s end, None)
              end
          end
      end
  end.
Definition retire (s : Store) (id : bytes) : Store :=
  match stage s id with Some st => set_stage s id (st <| st_retired := true |>) | None => s end.
(** A loop over stages that retires and cleans up each. *)
Fixpoint retire_all (s : Store) (l : list bytes) : Store * option string :=
  match l with
  | [] => (s, None)
  | id :: l => let '(s, e) := cleanupLocked (retire s id) id in let '(s, e') := retire_all s l in (s, first_error e e')
  end.

(** *** Readers *)

Definition openLocked (s : Store) (id : bytes) (st : Stage) (ctx : nat) : Store * result nat :=
  if negb (st_ready st) || st_retired st then (s, Err "NOT_FOUND") else
  match ctx_error s ctx with
  | Some _ => (s, Err "EXECUTION_FAILED")
  | None =>
      if MaxObjects (s_options s) <=? s_readers s then (s, Err "BUSY") else
      match call s with
      | (s, Some _) => (s, Err "EXECUTION_FAILED")
      | (s, None) =>
          let r := s_next s in
          ((set_stage s id (st <| st_readers ::= union {[r]} |>))
             <| s_readers ::= Z.add 1 |> <| s_reader_heap ::= insert r {| rd_stage := id; rd_ctx := S r; rd_closed := false |} |>
             <| s_next := S (S r) |>, Ok r)
      end
  end.
Definition closeLocked (s : Store) (r : nat) : Store * option string :=
  match s_reader_heap s !! r with
  | None => (s, None)
  | Some rd =>
      if rd_closed rd then (s, None) else
      match call (cancel s (rd_ctx rd)) with
      | (s, Some _) => (poison s, Some "EXECUTION_FAILED"%string)
      | (s, None) =>
          let s := s <| s_reader_heap ::= insert r {| rd_stage := rd_stage rd; rd_ctx := rd_ctx rd; rd_closed := true |} |>
                     <| s_readers ::= fun n => n - 1 |> in
          let s := match stage s (rd_stage rd) with
                   | Some st => set_stage s (rd_stage rd) (st <| st_readers ::= fun x => x ∖ {[r]} |>) | None => s end in
          cleanupLocked s (rd_stage rd)
      end
  end.
Definition CloseReader (s : Store) (r : nat) : Store * option string := closeLocked s r.
Fixpoint close_all (s : Store) (l : list nat) : Store * option string :=
  match l with
  | [] => (s, None)
  | r :: l => let '(s, e) := closeLocked s r in let '(s, e') := close_all s l in (s, first_error e e')
  end.

Definition Finish (s : Store) (id : bytes) (m : ArtifactMetadata) : Store * result nat :=
  match stage s id with
  | None => (s, Err "NOT_FOUND")
  | Some st =>
      if negb (bool_decide (in_kind (st_info st) = OutputStage)) || negb (st_sealed st) || st_ready st || st_retired st ||
         bool_decide (is_Some (st_writeErr st)) || bool_decide (is_Some (ctx_error s (in_ctx (st_info st))))
      then (s, Err "OUTPUT_INVALID")
      else if negb (bool_decide (m = metadata st)) then (s, Err "OUTPUT_INVALID") else
      let st := st <| st_ready := true |> in
      openLocked (set_stage s id st) id st 0
  end.

(** ** Requests *)

Definition stop (s : Store) (r : Request) : Store :=
  let s := cancel s (rq_ctx r) in match rq_execution r with Some c => cancel s c | None => s end.
Definition abortLocked (s : Store) (rid : nat) : Store :=
  match s_request_heap s !! rid with
  | Some r => if bool_decide (rq_state r = Released) then s else set_request (stop s r) rid (r <| rq_state := Aborted |>)
  | None => s
  end.
Definition releaseStoppedLocked (s : Store) (rid : nat) : Store * option string :=
  match s_request_heap s !! rid with
  | Some r =>
      let s := set_request (stop s r) rid (r <| rq_state := Released |>) in
      let '(s, e) := retire_all s (map_to_list (rq_files r)).*2 in
      (releaseSlotLocked s rid, e)
  | None => (s, None)
  end.
Definition AbortStage (s : Store) (id : bytes) : Store * option string :=
  match stage s id with
  | None => (s, None)
  | Some st =>
      match st_request st with
      | Some rid =>
          let s := abortLocked s rid in
          match s_request_heap s !! rid with
          | Some r => if rq_started r && negb (bool_decide (rq_state r = Released)) then (s, None) else releaseStoppedLocked s rid
          | None => (s, None)
          end
      | None => if st_retained st then (s, None) else cleanupLocked (retire s id) id
      end
  end.

Record capability := { ca_Name : bytes; ca_Input : Schema; ca_Limits : Limits }.
Definition BeginInput (s : Store) (ctx : nat) (ctx_deadline : option Z) (o : Owner) (c : capability) (deadline : option Z) : Store * result nat :=
  match available s with
  | Some e => (s, Err e)
  | None =>
      if negb (valid o) || negb (bytes_eqb (ca_Name c) (ow_Capability o)) || negb (hasFile (ca_Input c)) then (s, Err "VALIDATION_FAILED")
      else if bool_decide (is_Some (s_requests s !! RequestID o)) then (s, Err "CONFLICT")
      else if MaxPending (s_options s) <=? Z.of_nat (size (s_requests s)) then (s, Err "BUSY") else
      let maximum := now s + TransferTimeout (s_options s) in
      let deadline := (match deadline with Some d => if maximum <? d then maximum else d | None => maximum end) in
      let deadline := (match ctx_deadline with Some d => if d <? deadline then d else deadline | None => deadline end) in
      if negb (now s <? deadline) || bool_decide (is_Some (ctx_error s ctx)) then (s, Err "EXECUTION_TIMEOUT") else
      let l := ca_Limits c in
      if (MaxFileBytes l <? 1) || (MaxTotalFileBytes l <? MaxFileBytes l) || (MaxFiles l <? 1) then (s, Err "VALIDATION_FAILED") else
      let rid := s_next s in
      let r := {| rq_owner := o; rq_schema := ca_Input c; rq_limits := l; rq_deadline := deadline; rq_ctx := S rid; rq_execution := None;
                  rq_state := Receiving; rq_files := ∅; rq_bytes := 0; rq_started := false |} in
      ((set_request s rid r) <| s_requests ::= insert (RequestID o) rid |> <| s_next := S (S rid) |>, Ok rid)
  end.
Definition check (s : Store) (r : Request) (o : Owner) (state : request_state) : option string :=
  if negb (bool_decide (rq_owner r = o)) then Some "PERMISSION_DENIED"%string else
  match available s with
  | Some e => Some e
  | None =>
      if negb (bool_decide (rq_state r = state)) then Some "CONFLICT"%string
      else if negb (bool_decide (state = Executing)) && bool_decide (is_Some (ctx_error s (rq_ctx r))) then Some "EXECUTION_TIMEOUT"%string
      else None
  end.

(** A request that the store has made, in the given state. *)
Definition with_request {A} (s : Store) (rid : nat) (o : Owner) (state : request_state) (f : Request -> Store * result A) : Store * result A :=
  match s_request_heap s !! rid with
  | None => (s, Err "NOT_FOUND")
  | Some r => match check s r o state with Some e => (s, Err e) | None => f r end
  end.

Definition NewFile (s : Store) (rid : nat) (o : Owner) (pointer name media : bytes) : Store * result bytes :=
  with_request s rid o Receiving (fun r =>
    match schemaAt (rq_schema r) pointer with
    | None => (s, Err "VALIDATION_FAILED")
    | Some node =>
        if bool_decide (File (sdata node) = None) then (s, Err "VALIDATION_FAILED")
        else if bool_decide (is_Some (rq_files r !! pointer)) then (s, Err "CONFLICT")
        else if MaxFiles (rq_limits r) <=? Z.of_nat (size (rq_files r)) then (s, Err "LIMIT_EXCEEDED") else
        match newStage s (rq_ctx r) o InputStage name media with
        | (s, Err e) => (s, Err e)
        | (s, Ok id) =>
            let s := s <| s_stages ::= alter (fun st => st <| st_request := Some rid |>) id |> in
            (set_request s rid (r <| rq_files ::= insert pointer id |>), Ok id)
        end
    end).

Definition file_value (o : Owner) (pointer : bytes) (id : bytes) (st : Stage) : FileValue :=
  {| fv_Pointer := pointer; fv_ID := id; fv_Name := in_name (st_info st); fv_MIMEType := in_mime (st_info st);
     fv_SHA256 := hex_sha256 (st_data st); fv_RequestID := RequestID o; fv_SizeBytes := st_size st |}.
Definition Complete (s : Store) (rid : nat) (o : Owner) (id : bytes) (size : Z) (digest : bytes) : Store * result FileValue :=
  with_request s rid o Receiving (fun r =>
    match stage s id with
    | None => (s, Err "VALIDATION_FAILED")
    | Some st =>
        if negb (bool_decide (st_request st = Some rid)) || negb (bool_decide (in_owner (st_info st) = o)) || st_retired st || negb (st_sealed st) ||
           st_ready st || bool_decide (is_Some (st_writeErr st)) then (s, Err "VALIDATION_FAILED")
        else if negb (st_size st =? size) || negb (bytes_eqb (hex_sha256 (st_data st)) digest) then (s, Err "VALIDATION_FAILED") else
        let pointer := default [] (head ((filter (fun kv : bytes * bytes => kv.2 = id) (map_to_list (rq_files r))).*1)) in
        let v := file_value o pointer id st in
        match schemaAt (rq_schema r) pointer ≫= (fun node => File (sdata node)) with
        | None => (s, Err "VALIDATION_FAILED")
        | Some f =>
            match validate_constraints f v with
            | Err _ => (s, Err "VALIDATION_FAILED")
            | Ok _ => (set_stage s id (st <| st_ready := true |>), Ok v)
            end
        end
    end).

Definition leaf_matches (s : Store) (r : Request) (o : Owner) (seen : list bytes) (leaf : FileLeaf) : option bytes :=
  match rq_files r !! leaf_Pointer leaf with
  | None => None
  | Some id =>
      match stage s id with
      | None => None
      | Some st =>
          let v := leaf_Value leaf in
          if negb (st_ready st) || st_retired st || bool_decide (id ∈ seen) || negb (bytes_eqb (fv_ID v) (id)) ||
             negb (bytes_eqb (fv_RequestID v) (RequestID o)) || negb (bytes_eqb (fv_Pointer v) (leaf_Pointer leaf)) then None
          else if negb (bytes_eqb (fv_Name v) (in_name (st_info st))) || negb (bytes_eqb (fv_MIMEType v) (in_mime (st_info st))) ||
             negb (fv_SizeBytes v =? st_size st) || negb (bytes_eqb (fv_SHA256 v) (hex_sha256 (st_data st))) then None
          else Some id
      end
  end.
Fixpoint leaves_match (s : Store) (r : Request) (o : Owner) (seen : list bytes) (l : list FileLeaf) : bool :=
  match l with
  | [] => true
  | leaf :: l => match leaf_matches s r o seen leaf with Some id => leaves_match s r o (id :: seen) l | None => false end
  end.
Definition Commit (s : Store) (rid : nat) (o : Owner) (params : list (bytes * value)) : Store * result (list (bytes * value)) :=
  with_request s rid o Receiving (fun r =>
    match ValidateInput lib (rq_schema r) params (rq_limits r) with
    | Err _ => (s, Err "VALIDATION_FAILED")
    | Ok (normalized, leaves) =>
        if negb (length leaves =? size (rq_files r))%nat then (s, Err "VALIDATION_FAILED")
        else if negb (leaves_match s r o [] leaves) then (s, Err "VALIDATION_FAILED")
        else (set_request s rid (r <| rq_state := RequestReady |>), Ok normalized)
    end).
Definition Start (s : Store) (rid : nat) (o : Owner) (execution : nat) : Store * result unit :=
  with_request s rid o RequestReady (fun r =>
    if bool_decide (is_Some (ctx_error s execution)) then (s, Err "EXECUTION_TIMEOUT") else
    let c := s_next s in
    (cancel ((set_request s rid (r <| rq_state := Executing |> <| rq_started := true |> <| rq_execution := Some c |>)) <| s_next ::= S |>) (rq_ctx r), Ok tt)).
Definition OpenInput (s : Store) (rid : nat) (o : Owner) (v : FileValue) : Store * result nat :=
  with_request s rid o Executing (fun r =>
    match rq_files r !! fv_Pointer v with
    | None => (s, Err "PERMISSION_DENIED")
    | Some id =>
        match stage s id with
        | None => (s, Err "PERMISSION_DENIED")
        | Some st =>
            if negb (bytes_eqb (id) (fv_ID v)) || negb (bytes_eqb (fv_RequestID v) (RequestID o)) then (s, Err "PERMISSION_DENIED")
            else if negb (bytes_eqb (fv_Name v) (in_name (st_info st))) || negb (bytes_eqb (fv_MIMEType v) (in_mime (st_info st))) ||
               negb (fv_SizeBytes v =? st_size st) || negb (bytes_eqb (fv_SHA256 v) (hex_sha256 (st_data st))) then (s, Err "VALIDATION_FAILED")
            else openLocked s id st (default 0%nat (rq_execution r))
        end
    end).
Definition AbortRequest (s : Store) (rid : nat) (o : Owner) : Store * result unit :=
  match s_request_heap s !! rid with
  | Some r => if bool_decide (o = rq_owner r) then (abortLocked s rid, Ok tt) else (s, Err "PERMISSION_DENIED")
  | None => (s, Err "NOT_FOUND")
  end.
Definition ReleaseStopped (s : Store) (rid : nat) (o : Owner) : Store * option string :=
  match s_request_heap s !! rid with
  | Some r => if bool_decide (o = rq_owner r) then releaseStoppedLocked s rid else (s, Some "PERMISSION_DENIED"%string)
  | None => (s, Some "NOT_FOUND"%string)
  end.

(** ** Output *)

Definition Output (s : Store) (o : Owner) (l : OutputLimits) : Store * result nat :=
  match available s with
  | Some e => (s, Err e)
  | None =>
      if negb (valid o) || (MaxOutputFileBytes l <? 1) || (MaxTotalBytes l <? MaxOutputFileBytes l) || (MaxOutputFiles l <? 1) || (TTL l <=? 0)
      then (s, Err "VALIDATION_FAILED")
      else (s <| s_scope_heap ::= insert (s_next s) {| sc_owner := o; sc_limits := l; sc_stages := []; sc_bytes := 0; sc_published := false |} |>
              <| s_next ::= S |>, Ok (s_next s))
  end.
Definition BeginOutput (s : Store) (vid : nat) (ctx : nat) (name media : bytes) : Store * result bytes :=
  match s_scope_heap s !! vid with
  | None => (s, Err "NOT_FOUND")
  | Some v =>
      if sc_published v then (s, Err "CONFLICT")
      else if MaxOutputFiles (sc_limits v) <=? Z.of_nat (length (sc_stages v)) then (s, Err "LIMIT_EXCEEDED") else
      match newStage s ctx (sc_owner v) OutputStage name media with
      | (s, Err e) => (s, Err e)
      | (s, Ok id) =>
          (s <| s_stages ::= alter (fun st => st <| st_scope := Some vid |>) id |>
             <| s_scope_heap ::= insert vid (v <| sc_stages ::= fun l => l ++ [id] |>) |>, Ok id)
      end
  end.
(** A file of [Retain]: its metadata, and its reader when it is one of the store's. *)
Definition retainable (s : Store) (id : bytes) (f : ArtifactMetadata * option nat) : bool :=
  match stage s id, f.2 ≫= (s_reader_heap s !!.) with
  | Some st, Some rd => bytes_eqb (rd_stage rd) id && negb (rd_closed rd) && st_ready st && negb (st_retired st) && bool_decide (f.1 = metadata st)
  | _, _ => false
  end.
Definition retain_stage (expiry : Z) (s : Store) (id : bytes) : Store :=
  match stage s id with Some st => set_stage s id (st <| st_retained := true |> <| st_expires := expiry |>) | None => s end.
Definition Retain (s : Store) (vid : nat) (files : list (ArtifactMetadata * option nat)) : Store * result (list Descriptor) :=
  match s_scope_heap s !! vid with
  | None => (s, Err "NOT_FOUND")
  | Some v =>
      match available s with
      | Some e => (s, Err e)
      | None =>
          if sc_published v || negb (length files =? length (sc_stages v))%nat then (s, Err "OUTPUT_INVALID")
          else if negb (forallb (fun p => retainable s p.1 p.2) (zip (sc_stages v) files)) then (s, Err "OUTPUT_INVALID") else
          let expiry := now s + TTL (sc_limits v) in
          let out := omap (fun id => (fun st => {| ds_ID := id; ds_metadata := metadata st; ds_ExpiresAt := expiry |}) <$> stage s id) (sc_stages v) in
          ((foldl (retain_stage expiry) s (sc_stages v)) <| s_scope_heap ::= insert vid (v <| sc_published := true |>) |>, Ok out)
      end
  end.
Definition OpenOutput (s : Store) (ctx : nat) (o : Owner) (id : bytes) : Store * result nat :=
  match available s with
  | Some e => (s, Err e)
  | None =>
      match s_stages s !! id with
      | None => (s, Err "NOT_FOUND")
      | Some st =>
          if negb (bool_decide (in_kind (st_info st) = OutputStage)) || negb (st_retained st) || negb (bool_decide (in_owner (st_info st) = o)) ||
             negb (now s <? st_expires st) then (s, Err "NOT_FOUND")
          else openLocked s id st ctx
      end
  end.

Definition expired (t : Z) (s : Store) (r : Request) : bool :=
  negb (rq_started r) && (bool_decide (rq_state r = Receiving) || bool_decide (rq_state r = RequestReady) || bool_decide (rq_state r = Aborted)) &&
  (negb (t <? rq_deadline r) || bool_decide (is_Some (ctx_error s (rq_ctx r)))).
Definition sweep_request (t : Z) (s : Store) (rid : nat) : Store * option string :=
  match s_request_heap s !! rid with
  | Some r => if expired t s r then
      let '(s, e) := retire_all (set_request (cancel s (rq_ctx r)) rid (r <| rq_state := Released |>)) (map_to_list (rq_files r)).*2 in
      (releaseSlotLocked s rid, e) else (s, None)
  | None => (s, None)
  end.
Fixpoint sweep_requests (t : Z) (s : Store) (l : list nat) : Store * option string :=
  match l with
  | [] => (s, None)
  | rid :: l => let '(s, e) := sweep_request t s rid in let '(s, e') := sweep_requests t s l in (s, first_error e e')
  end.
Fixpoint sweep_stages (t : Z) (s : Store) (l : list bytes) : Store * option string :=
  match l with
  | [] => (s, None)
  | id :: l =>
      let '(s, e) := (match s_stages s !! id with
        | Some st => if st_retained st && negb (t <? st_expires st) then cleanupLocked (retire s id) id else (s, None)
        | None => (s, None)
        end) in
      let '(s, e') := sweep_stages t s l in (s, first_error e e')
  end.
Definition Sweep (s : Store) : Store * option string :=
  let t := now s in
  let '(s, e) := sweep_requests t s (map_to_list (s_requests s)).*2 in
  let '(s, e') := sweep_stages t s (map_to_list (s_stages s)).*1 in
  (s, first_error e e').

Definition revoke_request (generation : bytes) (s : Store) (rid : nat) : Store :=
  match s_request_heap s !! rid with
  | Some r => if bytes_eqb (AuthGeneration (rq_owner r)) generation then set_request (stop s r) rid (r <| rq_state := Aborted |>) else s
  | None => s
  end.
Definition cancel_reader (s : Store) (r : nat) : Store :=
  match s_reader_heap s !! r with Some rd => cancel s (rd_ctx rd) | None => s end.
Fixpoint revoke_stages (generation : bytes) (s : Store) (l : list bytes) : Store * option string :=
  match l with
  | [] => (s, None)
  | id :: l =>
      let '(s, e) := (match s_stages s !! id with
        | Some st =>
            if bool_decide (in_kind (st_info st) = OutputStage) && bytes_eqb (AuthGeneration (in_owner (st_info st))) generation
            then cleanupLocked (foldl cancel_reader (retire s id) (elements (st_readers st))) id else (s, None)
        | None => (s, None)
        end) in
      let '(s, e') := revoke_stages generation s l in (s, first_error e e')
  end.
Definition RevokeGeneration (s : Store) (generation : bytes) : Store * option string :=
  let s := foldl (revoke_request generation) s (map_to_list (s_requests s)).*2 in
  revoke_stages generation s (map_to_list (s_stages s)).*1.

(** ** Scratch space *)

Definition NewScratch (s : Store) (ctx : nat) (name media : bytes) (n : Z) : Store * result bytes :=
  if n <? 0 then (s, Err "VALIDATION_FAILED") else
  match reserveLocked s n with
  | (s, Some e) => (s, Err e)
  | (s, None) =>
      match newStage s ctx scratch_owner OutputStage name media with
      | (s, Err e) => (s <| s_used ::= fun u => u - n |>, Err e)
      | (s, Ok id) => (s <| s_stages ::= alter (fun st => st <| st_reserved := n |>) id |>, Ok id)
      end
  end.
Definition BeginScratch (s : Store) (ctx : nat) (name media : bytes) : Store * result bytes :=
  newStage s ctx scratch_owner OutputStage name media.

(** ** Shutdown *)

Definition shutdown_request (s : Store) (rid : nat) : Store :=
  match s_request_heap s !! rid with Some r => set_request (stop s r) rid (r <| rq_state := Released |>) | None => s end.
Fixpoint shutdown_stages (s : Store) (l : list bytes) : Store * option string :=
  match l with
  | [] => (s, None)
  | id :: l =>
      let '(s, e) := close_all s (match s_stages s !! id with Some st => elements (st_readers st) | None => [] end) in
      let '(s, e2) := cleanupLocked (retire s id) id in
      let '(s, e3) := shutdown_stages s l in (s, first_error e (first_error e2 e3))
  end.
Definition CloseStore (s : Store) : Store * option string :=
  if s_closed s then (s, s_closeErr s) else
  let s := foldl shutdown_request (s <| s_closed := true |>) (map_to_list (s_requests s)).*2 in
  let '(s, e) := shutdown_stages s (map_to_list (s_stages s)).*1 in
  let '(s, e2) := call s in
  let e := first_error e (execution_failed e2) in
  (s <| s_closeErr := e |>, e).

(** ** Runs *)

(** The calls that the rest of the agent can make. *)
Inductive operation :=
| OpReserve (n : Z) | OpRelease (r : nat) | OpRetainSave (r : nat) (total : Z)
| OpWrite (id p : bytes) | OpCloseStage (id : bytes) | OpFinish (id : bytes) (m : ArtifactMetadata) | OpAbortStage (id : bytes)
| OpCloseReader (r : nat)
| OpBeginInput (ctx : nat) (d : option Z) (o : Owner) (c : capability) (deadline : option Z)
| OpNewFile (rid : nat) (o : Owner) (pointer name media : bytes)
| OpComplete (rid : nat) (o : Owner) (id : bytes) (n : Z) (digest : bytes)
| OpCommit (rid : nat) (o : Owner) (params : list (bytes * value)) | OpStart (rid : nat) (o : Owner) (execution : nat)
| OpOpenInput (rid : nat) (o : Owner) (v : FileValue) | OpAbortRequest (rid : nat) (o : Owner) | OpReleaseStopped (rid : nat) (o : Owner)
| OpOutput (o : Owner) (l : OutputLimits) | OpBeginOutput (v ctx : nat) (name media : bytes)
| OpRetain (v : nat) (files : list (ArtifactMetadata * option nat)) | OpOpenOutput (ctx : nat) (o : Owner) (id : bytes)
| OpSweep | OpRevoke (generation : bytes) | OpNewScratch (ctx : nat) (name media : bytes) (n : Z)
| OpBeginScratch (ctx : nat) (name media : bytes) | OpClose.
Definition run (s : Store) (op : operation) : Store :=
  match op with
  | OpReserve n => (Reserve s n).1
  | OpRelease r => Release s r
  | OpRetainSave r total => (retain r total s).1
  | OpWrite id p => (Write s id p).1.1
  | OpCloseStage id => (CloseStage s id).1
  | OpFinish id m => (Finish s id m).1
  | OpAbortStage id => (AbortStage s id).1
  | OpCloseReader r => (CloseReader s r).1
  | OpBeginInput ctx d o c deadline => (BeginInput s ctx d o c deadline).1
  | OpNewFile rid o pointer name media => (NewFile s rid o pointer name media).1
  | OpComplete rid o id n digest => (Complete s rid o id n digest).1
  | OpCommit rid o params => (Commit s rid o params).1
  | OpStart rid o execution => (Start s rid o execution).1
  | OpOpenInput rid o v => (OpenInput s rid o v).1
  | OpAbortRequest rid o => (AbortRequest s rid o).1
  | OpReleaseStopped rid o => (ReleaseStopped s rid o).1
  | OpOutput o l => (Output s o l).1
  | OpBeginOutput v ctx name media => (BeginOutput s v ctx name media).1
  | OpRetain v files => (Retain s v files).1
  | OpOpenOutput ctx o id => (OpenOutput s ctx o id).1
  | OpSweep => (Sweep s).1
  | OpRevoke generation => (RevokeGeneration s generation).1
  | OpNewScratch ctx name media n => (NewScratch s ctx name media n).1
  | OpBeginScratch ctx name media => (BeginScratch s ctx name media).1
  | OpClose => (CloseStore s).1
  end.
(** The bytes that the failed clean-ups of saves charge beyond the quota's control, along a run. *)
Definition charged (s : Store) (op : operation) : N :=
  match op with OpRetainSave r total => Z.to_N (s_used (retain r total s).1 - s_used s) | _ => 0%N end.
Fixpoint overcharge (s : Store) (ops : list operation) : N :=
  match ops with [] => 0%N | op :: ops => (charged s op + overcharge (run s op) ops)%N end.
End Operations.
