(* ===== verification/ArtifactInvariant.v ===== *)
(** * What holds of the artifact store after any sequence of calls
    The accounting of bytes, objects, leases and requests, and the ties between the tables
    of [ArtifactStore], are kept by every operation whatever the operating system, the
    contexts and the clock do. The only assumption is that random identifiers differ. *)
From Stdlib Require Import ZArith Lia.
From stdpp Require Import base gmap sets list option strings.
From coqutil Require Import Datatypes.RecordSettersUsingExistingGetters.
From S2P Require Import Prelude Utf8 Sha256 Strconv Json JsonText Canonical GoStrings InputValue ValueFormat Schema Pointer Validation Publish ArtifactStore.
Local Open Scope Z_scope.

Definition weight (st : Stage) : Z := st_size st + st_reserved st.
Definition leases (st : Stage) : Z := Z.of_nat (size (st_readers st)).

Record stage_ok (st : Stage) : Prop := {
  sk_size : st_size st = Z.of_nat (length (st_data st));
  sk_reserved : 0 <= st_reserved st;
  sk_sealed : st_sealed st = true -> st_reserved st = 0;
  sk_ready : st_ready st = true -> st_sealed st = true /\ st_writeErr st = None;
  sk_readers : st_readers st <> ∅ -> st_ready st = true;
  sk_retained : st_retained st = true -> st_ready st = true
}.

Lemma alter_insert_known (m : gmap bytes Stage) f id st : m !! id = Some st -> alter f id m = <[id := f st]> m.
Proof.
  intros Hl. apply map_eq. intros i. destruct (decide (i = id)) as [->|Hne]; [by rewrite lookup_alter_eq, lookup_insert_eq, Hl|].
  by rewrite lookup_alter_ne, lookup_insert_ne.
Qed.

Section Invariant.
Context (env : environment) (lib : engines) (extra : N).

Definition request_owner (s : Store) (rid : nat) : option Owner := rq_owner <$> s_request_heap s !! rid.
Record inv (s : Store) : Prop := {
  v_used : s_used s = msum weight (s_stages s) + msum (fun n => n) (s_reservations s);
  v_quota : s_used s <= QuotaBytes (s_options s) + Z.of_N extra;
  v_stages : map_Forall (fun _ st => stage_ok st) (s_stages s);
  v_gone : map_Forall (fun _ st => st_retired st = true /\ st_readers st = ∅) (s_gone s);
  v_disjoint : s_stages s ##ₘ s_gone s;
  v_reservations : map_Forall (fun r n => 1 <= n /\ (r < s_next s)%nat) (s_reservations s);
  v_objects : objects s <= MaxObjects (s_options s);
  v_readers : s_readers s = msum leases (s_stages s);
  v_leases : s_readers s <= MaxObjects (s_options s);
  v_held : forall id st r, s_stages s !! id = Some st -> r ∈ st_readers st ->
    exists c, s_reader_heap s !! r = Some {| rd_stage := id; rd_ctx := c; rd_closed := false |};
  v_open : forall r rd, s_reader_heap s !! r = Some rd -> (r < s_next s)%nat /\
    (rd_closed rd = false -> exists st, s_stages s !! rd_stage rd = Some st /\ r ∈ st_readers st);
  v_requests : forall k rid, s_requests s !! k = Some rid -> RequestID <$> request_owner s rid = Some k;
  v_heap : forall rid, is_Some (request_owner s rid) -> (rid < s_next s)%nat;
  v_pending : Z.of_nat (size (s_requests s)) <= MaxPending (s_options s);
  v_ids : forall id, is_Some (s_stages s !! id) \/ is_Some (s_gone s !! id) -> exists t, (t < s_tick s)%nat /\ id = random env t
}.

(** ** What an operation may leave as it is *)

(** [s'] differs from [s] outside the tables of stages, in what the invariant ignores. *)
Record frame (s s' : Store) : Prop := {
  f_options : s_options s' = s_options s;
  f_gone : s_gone s' = s_gone s;
  f_requests : s_requests s' = s_requests s;
  f_reservations : s_reservations s' = s_reservations s;
  f_reader_heap : s_reader_heap s' = s_reader_heap s;
  f_readers : s_readers s' = s_readers s;
  f_owners : forall rid, request_owner s' rid = request_owner s rid;
  f_next : (s_next s <= s_next s')%nat;
  f_tick : (s_tick s <= s_tick s')%nat
}.
Lemma frame_refl s : frame s s.
Proof. split; eauto. Qed.
Lemma frame_trans a b c : frame a b -> frame b c -> frame a c.
Proof.
  intros [A1 A2 A3 A4 A5 A6 A7 A8 A9] [B1 B2 B3 B4 B5 B6 B7 B8 B9]. split; try congruence; try lia.
Qed.

(** A live stage is replaced, and the accounts follow. *)
Lemma inv_update s s' id st st' :
  inv s -> frame s s' -> s_stages s !! id = Some st -> s_stages s' = <[id := st']> (s_stages s) -> stage_ok st' ->
  st_readers st' = st_readers st -> s_used s' = s_used s - weight st + weight st' -> s_used s' <= QuotaBytes (s_options s) + Z.of_N extra -> inv s'.
Proof.
  intros [U Q S G D R O C L H P Rq Hp Pe I] [F1 F2 F3 F4 F5 F6 F7 F8 F9] Hid Hst Hok Hrd Hu Hq.
  split; rewrite ?F1, ?F2, ?F3, ?F4, ?F5, ?F6, ?Hst; unfold objects; rewrite ?F1, ?F2, ?F3, ?F4, ?F5, ?F6, ?Hst; try done.
  - rewrite (msum_update _ _ _ _ st' Hid). lia.
  - by apply map_Forall_insert_2.
  - apply map_disjoint_insert_l_2; [|done]. apply (map_disjoint_Some_l _ _ _ _ D Hid).
  - intros r n Hr. destruct (R r n Hr). split; lia.
  - rewrite map_size_insert_Some by eauto. exact O.
  - rewrite (msum_update _ _ _ _ st' Hid). unfold leases at 2 3. rewrite Hrd. lia.
  - intros id' st0 r [[<- <-]|[Hne Hl]]%lookup_insert_Some Hr; [apply (H id st); [done|by rewrite <- Hrd]|by apply (H id' st0)].
  - intros r rd Hr. destruct (P r rd Hr) as [P1 P2]. split; [lia|]. intros Hc. destruct (P2 Hc) as (st0 & Hl & Hin).
    destruct (decide (id = rd_stage rd)) as [->|Hne]; [exists st'; rewrite lookup_insert_eq, Hrd; split; [done|congruence]|exists st0; by rewrite lookup_insert_ne].
  - intros k rid Hk. rewrite F7. by apply Rq.
  - intros rid Hr. rewrite F7 in Hr. apply Hp in Hr. lia.
  - intros id' Hl. destruct (I id') as (t & Ht & ->).
    + destruct Hl as [[x [[<- _]|[_ Hl]]%lookup_insert_Some]|Hl]; eauto.
    + exists t. split; [lia|done].
Qed.

(** Nothing that the invariant sees has changed. *)
Lemma inv_frame s s' : inv s -> frame s s' -> s_stages s' = s_stages s -> s_used s' = s_used s -> inv s'.
Proof.
  intros [U Q S G D R O C L H P Rq Hp Pe I] [F1 F2 F3 F4 F5 F6 F7 F8 F9] Hst Hu.
  split; rewrite ?F1, ?F2, ?F3, ?F4, ?F5, ?F6, ?Hst, ?Hu; unfold objects; rewrite ?F1, ?F2, ?F3, ?F4, ?F5, ?F6, ?Hst; try done.
  - intros r n Hr. destruct (R r n Hr). split; lia.
  - intros r rd Hr. destruct (P r rd Hr) as [P1 P2]. split; [lia|done].
  - intros k rid Hk. rewrite F7. by apply Rq.
  - intros rid Hr. rewrite F7 in Hr. apply Hp in Hr. lia.
  - intros id' Hl. destruct (I id' Hl) as (t & Ht & ->). exists t. split; [lia|done].
Qed.

(** *** Frames of the small steps *)

Ltac frame_solve := split; cbn; intros; eauto; try lia.

Lemma frame_call s s' e : call env s = (s', e) -> frame s s' /\ s_stages s' = s_stages s /\ s_used s' = s_used s.
Proof. intros [= <- _]. split; [frame_solve|done]. Qed.
Lemma frame_cancel s c : frame s (cancel s c).
Proof. frame_solve. Qed.
Lemma frame_poison s : frame s (poison s).
Proof. frame_solve. Qed.
Lemma frame_request s rid r r' : s_request_heap s !! rid = Some r -> rq_owner r' = rq_owner r -> frame s (set_request s rid r').
Proof.
  intros Hr Ho. split; cbn; eauto. intros rid0. unfold request_owner. cbn. destruct (decide (rid = rid0)) as [->|Hne].
  - rewrite lookup_insert_eq, Hr. cbn. by f_equal.
  - by rewrite lookup_insert_ne.
Qed.
Lemma frame_stop s r : frame s (stop s r).
Proof. unfold stop. destruct (rq_execution r); frame_solve. Qed.
Lemma stop_same s r : s_stages (stop s r) = s_stages s /\ s_used (stop s r) = s_used s /\ s_request_heap (stop s r) = s_request_heap s /\
  s_poisoned (stop s r) = s_poisoned s /\ s_tick (stop s r) = s_tick s.
Proof. unfold stop. by destruct (rq_execution r). Qed.

Lemma stage_live s id st : inv s -> stage s id = Some st -> st_retired st = false \/ st_readers st <> ∅ -> s_stages s !! id = Some st.
Proof.
  intros Hi E H. unfold stage in E. destruct (s_stages s !! id) as [st0|] eqn:El; [congruence|].
  apply (v_gone _ Hi) in E as [E1 E2]. destruct H; congruence.
Qed.
Lemma set_stage_live s id st0 st : s_stages s !! id = Some st0 -> set_stage s id st = s <| s_stages ::= insert id st |>.
Proof. unfold set_stage. by intros ->. Qed.

Lemma reserve_spec s n s' e : reserveLocked s n = (s', e) ->
  match e with Some _ => s' = s | None => s' = s <| s_used ::= Z.add n |> /\ 0 <= n /\ n + s_used s <= QuotaBytes (s_options s) end.
Proof.
  unfold reserveLocked. destruct (available s); [by intros [= <- <-]|]. destruct (_ || _) eqn:E; intros [= <- <-]; [done|]. breflect. split; [done|lia].
Qed.

(** ** Writing *)

Lemma count_bytes_frame s st n : frame s (count_bytes s st n) /\ s_stages (count_bytes s st n) = s_stages s /\ s_used (count_bytes s st n) = s_used s.
Proof.
  unfold count_bytes. set (s1 := match st_request st ≫= _ with Some r => _ | None => s end).
  assert (frame s s1 /\ s_stages s1 = s_stages s /\ s_used s1 = s_used s) as (F1 & F2 & F3).
  { unfold s1. destruct (st_request st) as [rid|]; cbn; [|split; [apply frame_refl|done]].
    destruct (s_request_heap s !! rid) as [r|] eqn:Er; [|split; [apply frame_refl|done]]. split; [|done].
    by apply (frame_request s rid r (r <| rq_bytes ::= Z.add n |>)). }
  destruct (st_scope st ≫= _); [|done]. split; [|done]. eapply frame_trans; [exact F1|]. frame_solve.
Qed.
Lemma disk_write_spec s p s' n e : disk_write env s p = (s', n, e) ->
  frame s s' /\ s_stages s' = s_stages s /\ s_used s' = s_used s /\ 0 <= n <= Z.of_nat (length p) /\ (e = None -> n = Z.of_nat (length p)).
Proof.
  unfold disk_write. destruct (call env s) as [s1 e1] eqn:Ec. apply frame_call in Ec as (F & F2 & F3).
  destruct ((io_count env (s_tick s) <? 0) || _) eqn:Eb; intros [= <- <- <-].
  - repeat (split; [done|]). split; [lia|done].
  - repeat (split; [done|]). breflect. split; [lia|]. destruct e1; [done|]. destruct (Z.eqb_spec (io_count env (s_tick s)) (Z.of_nat (length p))); done.
Qed.

Lemma Write_inv s id p : inv s -> inv (Write env s id p).1.1.
Proof.
  intros Hi. unfold Write. destruct (stage s id) as [st|] eqn:Es; [|done].
  destruct (_ || _) eqn:Eb; [done|]. breflect. destruct (ctx_error env s _); [done|].
  apply stage_live in Es as Hl; [|done|by left]. pose proof (v_stages _ Hi _ _ Hl) as [K1 K2 K3 K4 K5 K6].
  destruct (65536 <? _); [done|]. destruct (request_refuses s id st _); [done|]. destruct (scope_refuses s st _); [done|].
  destruct (reserveLocked s _) as [s1 [e1|]] eqn:Er; apply reserve_spec in Er; [by subst|]. destruct Er as (-> & Hn & Hq).
  destruct (disk_write env _ p) as [[s2 n] e2] eqn:Ed. apply disk_write_spec in Ed as (F1 & F2 & F3 & F4 & _). cbn in F2, F3.
  cbn [fst]. set (st' := st <| st_reserved ::= _ |> <| st_size ::= _ |> <| st_data ::= _ |> <| st_writeErr := _ |>).
  set (s3 := s2 <| s_used ::= _ |>). assert (s_stages s3 !! id = Some st) as Hl3 by (cbn; by rewrite F2).
  rewrite (set_stage_live s3 id st st' Hl3). destruct (count_bytes_frame (s3 <| s_stages ::= insert id st' |>) st n) as (C1 & C2 & C3).
  cbn in C2, C3. rewrite F2 in C2. rewrite F3 in C3. eapply (inv_update s _ id st st'); [done| |done|done| |done| |].
  - eapply frame_trans; [|exact C1]. eapply frame_trans; [|eapply (frame_trans _ s2); [exact F1|]]; frame_solve.
  - split; cbn; try done; try lia.
    + rewrite length_app, length_take. lia.
    + intros Hs. congruence.
    + intros Hr. destruct (K4 Hr). congruence.
  - rewrite C3. unfold weight. cbn. lia.
  - rewrite C3. lia.
Qed.

Lemma seal_inv s id st : inv s -> stage s id = Some st -> inv (sealLocked env s id st).1.
Proof.
  intros Hi Es. unfold sealLocked. destruct (st_retired st) eqn:Er; [done|]. destruct (st_sealed st) eqn:Ese; [done|].
  apply stage_live in Es as Hl; [|done|by left]. pose proof (v_stages _ Hi _ _ Hl) as [K1 K2 K3 K4 K5 K6].
  cbn [fst call]. match goal with |- context [set_stage _ id ?y] => set (st' := y) end.
  eapply (inv_update s _ id st st'); [done| |done| | |done| |].
  - unfold set_stage. cbn. rewrite Hl. frame_solve.
  - unfold set_stage. cbn. rewrite Hl. done.
  - split; cbn; try done; try lia. intros Hr. destruct (K4 Hr). congruence.
  - unfold set_stage. cbn. rewrite Hl. unfold weight. cbn. lia.
  - unfold set_stage. cbn. rewrite Hl. cbn. pose proof (v_quota _ Hi). lia.
Qed.

(** ** Stages that come and go *)

Lemma inv_remove s id st st' :
  inv s -> s_stages s !! id = Some st -> st_readers st = ∅ -> st_retired st' = true -> st_readers st' = ∅ ->
  inv (s <| s_used ::= fun u => u - weight st |> <| s_stages ::= delete id |> <| s_gone ::= insert id st' |>).
Proof.
  intros [U Q S G D R O C L H P Rq Hp Pe I] Hl Hr Hret Hrd. pose proof (S _ _ Hl) as [K1 K2 _ _ _ _]. unfold objects in *. split; cbn; try done; unfold objects; cbn.
  - rewrite (msum_delete _ _ _ _ Hl). lia.
  - unfold weight. lia.
  - by apply map_Forall_delete.
  - apply map_Forall_insert_2; [done|done].
  - apply map_disjoint_insert_r_2; [apply lookup_delete_eq|]. by apply map_disjoint_delete_l.
  - rewrite map_size_delete_Some by eauto. lia.
  - rewrite (msum_delete _ _ _ _ Hl). unfold leases. rewrite Hr, size_empty. fold leases. lia.
  - intros id' st0 r [_ Hl']%lookup_delete_Some. by apply H.
  - intros r rd Hrr. destruct (P r rd Hrr) as [P1 P2]. split; [done|]. intros Hc. destruct (P2 Hc) as (st0 & Hl0 & Hin).
    exists st0. rewrite lookup_delete_ne; [done|]. intros E. rewrite <- E, Hl in Hl0. injection Hl0 as <-. set_solver.
  - intros id' Hx. apply I. destruct Hx as [[x [_ Hx]%lookup_delete_Some]|[x [[<- _]|[_ Hx]]%lookup_insert_Some]]; eauto.
Qed.

Lemma inv_slot s rid : inv s -> inv (releaseSlotLocked s rid).
Proof.
  intros Hi. unfold releaseSlotLocked. destruct (s_request_heap s !! rid) as [r|]; [|done]. destruct (negb _); [done|].
  destruct (existsb _ _); [done|]. destruct (bool_decide _); [|done].
  destruct Hi as [U Q S G D R O C L H P Rq Hp Pe I]. split; try done; cbn.
  - intros k rid' [_ Hk]%lookup_delete_Some. by apply Rq.
  - etrans; [|exact Pe]. apply inj_le, map_subseteq_size, delete_subseteq.
Qed.

(** ** Clean-up *)

Lemma retire_stage_inv s id : inv s -> inv (retire s id).
Proof.
  intros Hi. unfold retire. destruct (stage s id) as [st|] eqn:Es; [|done]. unfold stage in Es. unfold set_stage.
  destruct (s_stages s !! id) as [st0|] eqn:El.
  - injection Es as ->. pose proof (v_stages _ Hi _ _ El) as [K1 K2 K3 K4 K5 K6].
    eapply (inv_update s _ id st); [done|frame_solve|done|done|by split|done|unfold weight; cbn; lia|apply Hi].
  - destruct (v_gone _ Hi _ _ Es) as [_ Hrd]. destruct Hi as [U Q S G D R O C L H P Rq Hp Pe I]. split; try done; cbn.
    + by apply map_Forall_insert_2.
    + by apply map_disjoint_insert_r_2.
    + intros id' [Hx|[x [[<- _]|[_ Hx]]%lookup_insert_Some]]; eauto.
Qed.
Lemma cleanup_inv s id : inv s -> inv (cleanupLocked env s id).1.
Proof.
  intros Hi. unfold cleanupLocked. destruct (stage s id) as [st|] eqn:Es; [|done].
  destruct (_ || _) eqn:Eb; [done|]. breflect. unfold stage in Es.
  assert (forall s st, inv s -> s_stages s !! id = Some st -> st_readers st = ∅ -> st_retired st = true ->
    inv (match call env s with
         | (s, Some _) => (poison s, Some "EXECUTION_FAILED"%string)
         | (s, None) =>
             let s := s <| s_used ::= fun u => u - (st_size st + st_reserved st) |>
                        <| s_stages ::= delete id |> <| s_gone ::= insert id (st <| st_reserved := 0 |>) |> in
             (match st_request st with Some rid => releaseSlotLocked s rid | None => s end, None)
         end).1) as Hremove.
  { intros s0 st0 Hi0 Hl0 Hr0 Hret. destruct (call env s0) as [s1 e1] eqn:Ec. apply frame_call in Ec as (F1 & F2 & F3).
    assert (inv s1) as Hi1 by (by eapply inv_frame). destruct e1 as [e1|]; cbn [fst].
    - eapply inv_frame; [exact Hi1|apply frame_poison|done|done].
    - assert (inv (s1 <| s_used ::= fun u => u - (st_size st0 + st_reserved st0) |> <| s_stages ::= delete id |> <| s_gone ::= insert id (st0 <| st_reserved := 0 |>) |>)) as Hrm.
      { apply (inv_remove s1 id st0); [done|by rewrite F2|done|done|done]. }
      destruct (st_request st0); [by apply inv_slot|done]. }
  destruct (st_file st) eqn:Ef.
  - destruct (call env s) as [s1 e1] eqn:Ec. apply frame_call in Ec as (F1 & F2 & F3). assert (inv s1) as Hi1 by (by eapply inv_frame).
    destruct e1 as [e1|]; [eapply inv_frame; [exact Hi1|apply frame_poison|done|done]|].
    destruct (s_stages s !! id) as [st0|] eqn:El.
    + injection Es as ->. rewrite (set_stage_live s1 id st) by (by rewrite F2).
      set (s2 := s1 <| s_stages ::= insert id (st <| st_file := false |>) |>). assert (s_stages s2 !! id = Some (st <| st_file := false |>)) as Hl2 by apply lookup_insert_eq.
      rewrite Hl2. apply Hremove; [|done|done|done].
      eapply (inv_update s1 s2 id st (st <| st_file := false |>)); [done|frame_solve|by rewrite F2|done| |done|cbn; unfold weight; cbn; lia|apply Hi1].
      pose proof (v_stages _ Hi _ _ El) as [K1 K2 K3 K4 K5 K6]. by split.
    + unfold set_stage. rewrite F2, El. cbn. rewrite F2, El. cbn.
      destruct Hi1 as [U Q S G D R O C L Hh P Rq Hp Pe I]. split; try done; cbn.
      * apply map_Forall_insert_2; [by split|done].
      * apply map_disjoint_insert_r_2; [by rewrite F2|done].
      * intros id' [Hx|[x [[<- _]|[_ Hx]]%lookup_insert_Some]]; [eauto| |eauto]. apply I. right. rewrite (f_gone _ _ F1). eauto.
  - destruct (s_stages s !! id) as [st0|] eqn:El; [injection Es as ->; by apply Hremove|done].
Qed.
Lemma retire_all_inv l : forall s, inv s -> inv (retire_all env s l).1.
Proof.
  induction l as [|id l IH]; intros s Hi; [done|]. cbn [retire_all]. pose proof (cleanup_inv _ id (retire_stage_inv _ id Hi)) as H1.
  destruct (cleanupLocked env (retire s id) id) as [s1 e1]. specialize (IH s1 H1). by destruct (retire_all env s1 l).
Qed.

(** ** Readers *)

Lemma open_inv s id st ctx : inv s -> stage s id = Some st -> inv (openLocked env s id st ctx).1.
Proof.
  intros Hi Es. unfold openLocked. destruct (_ || _) eqn:Eb; [done|]. breflect. destruct (ctx_error env s ctx); [done|].
  destruct (Z.leb_spec (MaxObjects (s_options s)) (s_readers s)); [done|].
  apply stage_live in Es as Hl; [|done|by left]. destruct (call env s) as [s1 e1] eqn:Ec. apply frame_call in Ec as (F1 & F2 & F3).
  assert (inv s1) as Hi1 by (by eapply inv_frame). destruct e1; [done|]. cbn [fst].
  rewrite (set_stage_live s1 id st) by (by rewrite F2). assert (s_stages s1 !! id = Some st) as Hl1 by (by rewrite F2).
  assert (s_reader_heap s1 !! s_next s1 = None) as Hnew by (apply eq_None_not_Some; intros [rd Hrd]; destruct (v_open _ Hi1 _ _ Hrd); lia).
  assert (s_next s1 ∉ st_readers st) as Hni by (intros Hin; destruct (v_held _ Hi1 _ _ _ Hl1 Hin) as (c & Hc); congruence).
  pose proof (v_stages _ Hi1 _ _ Hl1) as [K1 K2 K3 K4 K5 K6].
  pose proof (f_options _ _ F1) as Fo. pose proof (f_readers _ _ F1) as Fr. destruct Hi1 as [U Q S G D R O C L Hh P Rq Hp Pe I]. unfold objects in *.
  split; cbn; unfold objects; cbn; try done.
  - rewrite (msum_update _ _ _ _ _ Hl1). unfold weight. cbn. fold weight. lia.
  - apply map_Forall_insert_2; [by split|done].
  - apply map_disjoint_insert_l_2; [|done]. apply (map_disjoint_Some_l _ _ _ _ D Hl1).
  - intros r n Hr. destruct (R r n Hr). split; lia.
  - by rewrite map_size_insert_Some by eauto.
  - rewrite (msum_update _ _ _ _ _ Hl1). unfold leases at 2 3. cbn. rewrite size_union, size_singleton by set_solver. lia.
  - rewrite Fo. lia.
  - intros id' st0 r [[<- <-]|[Hne Hlk]]%lookup_insert_Some Hr.
    + cbn in Hr. apply elem_of_union in Hr as [->%elem_of_singleton|Hr]; [rewrite lookup_insert_eq; by eexists|].
      rewrite lookup_insert_ne by congruence. by apply (Hh id st).
    + rewrite lookup_insert_ne; [by apply (Hh id' st0)|]. intros <-. destruct (Hh _ _ _ Hlk Hr) as (c & Hc). congruence.
  - intros r rd [[<- <-]|[Hne Hr]]%lookup_insert_Some.
    + cbn. split; [lia|]. intros _. eexists. rewrite lookup_insert_eq. split; [done|]. cbn. set_solver.
    + destruct (P r rd Hr) as [P1 P2]. split; [lia|]. intros Hc. destruct (P2 Hc) as (st0 & Hl0 & Hin).
      destruct (decide (id = rd_stage rd)) as [->|Hn]; [|exists st0; by rewrite lookup_insert_ne].
      rewrite Hl1 in Hl0. injection Hl0 as <-. eexists. rewrite lookup_insert_eq. split; [done|]. cbn. set_solver.
  - intros rid Hx. specialize (Hp rid Hx). lia.
  - intros id' Hx. apply I. destruct Hx as [[x [[<- _]|[_ Hx]]%lookup_insert_Some]|Hx]; eauto.
Qed.

Lemma inv_close s r rd st :
  inv s -> s_reader_heap s !! r = Some rd -> rd_closed rd = false -> s_stages s !! rd_stage rd = Some st -> r ∈ st_readers st ->
  inv (s <| s_reader_heap ::= insert r {| rd_stage := rd_stage rd; rd_ctx := rd_ctx rd; rd_closed := true |} |> <| s_readers ::= fun n => n - 1 |>
         <| s_stages ::= insert (rd_stage rd) (st <| st_readers ::= fun x => x ∖ {[r]} |>) |>).
Proof.
  intros Hi Hr Hc Hl Hin. pose proof (v_stages _ Hi _ _ Hl) as [K1 K2 K3 K4 K5 K6].
  destruct Hi as [U Q S G D R O C L Hh P Rq Hp Pe I]. unfold objects in *. split; cbn; unfold objects; cbn; try done.
  - rewrite (msum_update _ _ _ _ _ Hl). unfold weight. cbn. fold weight. lia.
  - apply map_Forall_insert_2; [split; cbn; try done|done]. intros Hne. apply K5. set_solver.
  - apply map_disjoint_insert_l_2; [|done]. apply (map_disjoint_Some_l _ _ _ _ D Hl).
  - by rewrite map_size_insert_Some by eauto.
  - rewrite (msum_update _ _ _ _ _ Hl). unfold leases at 2 3. cbn. rewrite size_difference by set_solver. rewrite size_singleton.
    assert (0 < size (st_readers st))%nat; [|lia]. destruct (decide (size (st_readers st) = 0)%nat) as [E|]; [|lia].
    apply size_empty_inv in E. set_solver.
  - lia.
  - intros id' st0 r' [[<- <-]|[Hne Hlk]]%lookup_insert_Some Hr'.
    + cbn in Hr'. rewrite lookup_insert_ne by set_solver. apply (Hh (rd_stage rd) st); [done|set_solver].
    + rewrite lookup_insert_ne; [by apply (Hh id' st0)|]. intros <-. destruct (Hh _ _ _ Hlk Hr') as (c & Hc'). rewrite Hr in Hc'. by injection Hc' as ->.
  - intros r' rd' [[<- <-]|[Hne Hr']]%lookup_insert_Some; [cbn; split; [by apply (P r rd)|done]|].
    destruct (P r' rd' Hr') as [P1 P2]. split; [done|]. intros Hc'. destruct (P2 Hc') as (st0 & Hl0 & Hin0).
    destruct (decide (rd_stage rd = rd_stage rd')) as [E|Hn]; [|exists st0; by rewrite lookup_insert_ne].
    rewrite <- E in *. rewrite Hl in Hl0. injection Hl0 as <-. eexists. rewrite lookup_insert_eq. split; [done|]. cbn. set_solver.
  - intros id' Hx. apply I. destruct Hx as [[x [[<- _]|[_ Hx]]%lookup_insert_Some]|Hx]; eauto.
Qed.
Lemma close_inv s r : inv s -> inv (closeLocked env s r).1.
Proof.
  intros Hi. unfold closeLocked. destruct (s_reader_heap s !! r) as [rd|] eqn:Er; [|done]. destruct (rd_closed rd) eqn:Ec; [done|].
  destruct (call env (cancel s (rd_ctx rd))) as [s1 e1] eqn:Eca. apply frame_call in Eca as (F1 & F2 & F3).
  assert (frame s s1) as F by (eapply frame_trans; [apply frame_cancel|exact F1]).
  assert (inv s1) as Hi1 by (by eapply (inv_frame s)). destruct e1; [eapply inv_frame; [exact Hi1|apply frame_poison|done|done]|].
  destruct (v_open _ Hi _ _ Er) as [_ Hop]. destruct (Hop Ec) as (st & Hl & Hin). cbn in F2.
  assert (stage (s1 <| s_reader_heap ::= insert r {| rd_stage := rd_stage rd; rd_ctx := rd_ctx rd; rd_closed := true |} |> <| s_readers ::= fun n => n - 1 |>) (rd_stage rd) = Some st)
    as Hst by (unfold stage; cbn; by rewrite F2, Hl).
  rewrite Hst. apply cleanup_inv. rewrite (set_stage_live _ _ st) by (cbn; by rewrite F2).
  eapply (inv_close s1 r rd st); [done|by rewrite (f_reader_heap _ _ F)|done|by rewrite F2|done].
Qed.
Lemma close_all_inv l : forall s, inv s -> inv (close_all env s l).1.
Proof.
  induction l as [|r l IH]; intros s Hi; [done|]. cbn [close_all]. pose proof (close_inv s r Hi) as H1.
  destruct (closeLocked env s r) as [s1 e1]. specialize (IH s1 H1). by destruct (close_all env s1 l).
Qed.

(** ** Every operation *)

Lemma Reserve_inv s n : inv s -> inv (Reserve s n).1.
Proof.
  intros Hi. unfold Reserve. destruct (Z.ltb_spec n 1); [done|]. destruct (Z.leb_spec (MaxObjects (s_options s)) (objects s)); [done|].
  destruct (reserveLocked s n) as [s1 e1] eqn:Er. apply reserve_spec in Er. destruct e1; [by subst|]. destruct Er as (-> & Hn & Hq). cbn.
  assert (s_reservations s !! s_next s = None) as Hnew by (apply eq_None_not_Some; intros [x Hx]; destruct (v_reservations _ Hi _ _ Hx); lia).
  destruct Hi as [U Q S G D R O C L Hh P Rq Hp Pe I]. unfold objects in *. split; cbn; unfold objects; cbn; try done.
  - rewrite msum_insert by done. lia.
  - lia.
  - apply map_Forall_insert_2; [lia|]. intros r m Hr. destruct (R r m Hr). lia.
  - rewrite map_size_insert_None by done. lia.
  - intros r rd Hr. destruct (P r rd Hr). split; [lia|done].
  - intros rid Hx. specialize (Hp rid Hx). lia.
Qed.
Lemma Release_inv s r : inv s -> inv (Release s r).
Proof.
  intros Hi. unfold Release. destruct (s_reservations s !! r) as [n|] eqn:Er; [|done]. pose proof (v_reservations _ Hi _ _ Er).
  destruct Hi as [U Q S G D R O C L Hh P Rq Hp Pe I]. unfold objects in *. split; cbn; unfold objects; cbn; try done.
  - rewrite (msum_delete _ _ _ _ Er). lia.
  - lia.
  - by apply map_Forall_delete.
  - rewrite map_size_delete_Some by eauto. lia.
Qed.
Lemma Finish_inv s id m : inv s -> inv (Finish env s id m).1.
Proof.
  intros Hi. unfold Finish. destruct (stage s id) as [st|] eqn:Es; [|done]. destruct (_ || _) eqn:Eb; [done|]. breflect. destruct (bool_decide (m = metadata st)); [|done].
  apply stage_live in Es as Hl; [|done|by left]. pose proof (v_stages _ Hi _ _ Hl) as [K1 K2 K3 K4 K5 K6].
  cbn [negb]. rewrite (set_stage_live s id st) by done. apply open_inv; [|unfold stage; cbn; by rewrite lookup_insert_eq].
  eapply (inv_update s _ id st (st <| st_ready := true |>)); [done|frame_solve|done|done| |done|cbn; unfold weight; cbn; lia|apply Hi].
  split; cbn; try done. intros _. split; [done|]. destruct (st_writeErr st); [|done]. exfalso. eauto.
Qed.

Lemma request_frame s rid r r' : inv s -> s_request_heap s !! rid = Some r -> rq_owner r' = rq_owner r -> inv (set_request (stop s r) rid r').
Proof.
  intros Hi Hr Ho. destruct (stop_same s r) as (H1 & H2 & H3 & _).
  eapply (inv_frame s); [done| |done|done]. eapply frame_trans; [apply (frame_stop s r)|]. eapply frame_request; [by rewrite H3|done].
Qed.
Lemma abort_inv s rid : inv s -> inv (abortLocked s rid).
Proof.
  intros Hi. unfold abortLocked. destruct (s_request_heap s !! rid) as [r|] eqn:Er; [|done]. destruct (bool_decide _); [done|]. by eapply request_frame.
Qed.
Lemma release_inv s rid : inv s -> inv (releaseStoppedLocked env s rid).1.
Proof.
  intros Hi. unfold releaseStoppedLocked. destruct (s_request_heap s !! rid) as [r|] eqn:Er; [|done].
  match goal with |- context [retire_all env ?x ?l] => pose proof (retire_all_inv l x) as H; destruct (retire_all env x l) as [s1 e1] end.
  apply inv_slot, H. by eapply request_frame.
Qed.
Lemma AbortStage_inv s id : inv s -> inv (AbortStage env s id).1.
Proof.
  intros Hi. unfold AbortStage. destruct (stage s id) as [st|] eqn:Es; [|done]. destruct (st_request st) as [rid|].
  - pose proof (abort_inv s rid Hi) as Ha. destruct (s_request_heap (abortLocked s rid) !! rid) as [r|]; [|done]. destruct (_ && _); [done|]. by apply release_inv.
  - destruct (st_retained st); [done|]. by apply cleanup_inv, retire_stage_inv.
Qed.
Lemma BeginInput_inv s ctx d o c deadline : inv s -> inv (BeginInput env s ctx d o c deadline).1.
Proof.
  intros Hi. unfold BeginInput. destruct (available s); [done|]. destruct (_ || _); [done|].
  destruct (bool_decide (is_Some (s_requests s !! RequestID o))) eqn:Ek; [done|]. destruct (Z.leb_spec (MaxPending (s_options s)) (Z.of_nat (size (s_requests s)))); [done|].
  cbv zeta. destruct (_ || _); [done|]. destruct (_ || _); [done|]. cbn [fst]. breflect.
  assert (s_requests s !! RequestID o = None) as Hn by (by apply eq_None_not_Some).
  destruct Hi as [U Q S G D R O C L Hh P Rq Hp Pe I]. split; cbn; try done.
  - intros r n Hr. destruct (R r n Hr). lia.
  - intros r rd Hr. destruct (P r rd Hr). split; [lia|done].
  - unfold request_owner in *. cbn. intros k rid [[<- <-]|[Hne Hk]]%lookup_insert_Some; [by rewrite lookup_insert_eq|].
    rewrite lookup_insert_ne; [by apply Rq|]. intros <-. specialize (Rq _ _ Hk). specialize (Hp (s_next s)).
    destruct (s_request_heap s !! s_next s); [|done]. cbn in Hp. specialize (Hp ltac:(eauto)). lia.
  - intros rid. unfold request_owner in *. cbn. intros [x Hx]. destruct (decide (s_next s = rid)) as [->|Hne]; [lia|].
    rewrite lookup_insert_ne in Hx by done. specialize (Hp rid ltac:(eauto)). lia.
  - rewrite map_size_insert_None by done. lia.
Qed.

Lemma with_request_inv {A} s rid o state (f : Request -> Store * result A) :
  inv s -> (forall r, s_request_heap s !! rid = Some r -> rq_owner r = o -> rq_state r = state -> inv (f r).1) ->
  inv (with_request env s rid o state f).1.
Proof.
  intros Hi Hf. unfold with_request. destruct (s_request_heap s !! rid) as [r|] eqn:Er; [|done]. unfold check.
  destruct (bool_decide (rq_owner r = o)) eqn:Eo; [|done]. cbn [negb]. destruct (available s); [done|].
  destruct (bool_decide (rq_state r = state)) eqn:Est; [|done]. cbn [negb]. destruct (_ && _); [done|]. breflect. by apply Hf.
Qed.
(** A stage is changed in what the accounts ignore. *)
Lemma inv_stage s id st st' : inv s -> s_stages s !! id = Some st -> stage_ok st' -> st_readers st' = st_readers st -> weight st' = weight st ->
  inv (set_stage s id st').
Proof.
  intros Hi Hl Hok Hr Hw. rewrite (set_stage_live s id st) by done.
  eapply (inv_update s _ id st st'); [done|frame_solve|done|done|done|done|cbn; lia|apply Hi].
Qed.
Lemma Complete_inv s rid o id n digest : inv s -> inv (Complete env s rid o id n digest).1.
Proof.
  intros Hi. apply with_request_inv; [done|]. intros r Hr _ _. destruct (stage s id) as [st|] eqn:Es; [|done]. destruct (_ || _) eqn:Eb; [done|]. breflect.
  destruct (negb (st_size st =? n) || _); [done|]. cbv zeta. destruct (_ ≫= _); [|done]. destruct (validate_constraints _ _); [|done]. cbn [fst].
  apply stage_live in Es as Hl; [|done|by left]. pose proof (v_stages _ Hi _ _ Hl) as [K1 K2 K3 K4 K5 K6].
  eapply inv_stage; [done|done| |done|done]. split; cbn; try done. intros _. split; [done|]. destruct (st_writeErr st); [|done]. exfalso. eauto.
Qed.
Lemma Commit_inv s rid o params : inv s -> inv (Commit env lib s rid o params).1.
Proof.
  intros Hi. apply with_request_inv; [done|]. intros r Hr _ _. destruct (ValidateInput _ _ _ _) as [[m leaves]|]; [|done]. destruct (negb _); [done|].
  destruct (negb _); [done|]. eapply inv_frame; [done| |done|done]. by eapply frame_request.
Qed.
Lemma Start_inv s rid o execution : inv s -> inv (Start env s rid o execution).1.
Proof.
  intros Hi. apply with_request_inv; [done|]. intros r Hr _ _. destruct (bool_decide _); [done|]. cbv zeta. cbn [fst].
  eapply (inv_frame s); [done| |done|done]. match goal with |- context [set_request s rid ?x] => apply (frame_trans _ (set_request s rid x)); [by apply (frame_request s rid r)|frame_solve] end.
Qed.
Lemma OpenInput_inv s rid o v : inv s -> inv (OpenInput env s rid o v).1.
Proof.
  intros Hi. apply with_request_inv; [done|]. intros r Hr _ _. destruct (rq_files r !! _) as [id|]; [|done]. destruct (stage s id) as [st|] eqn:Es; [|done].
  destruct (_ || _); [done|]. destruct (_ || _ || _ || _); [done|]. by apply open_inv.
Qed.
Lemma AbortRequest_inv s rid o : inv s -> inv (AbortRequest s rid o).1.
Proof. intros Hi. unfold AbortRequest. destruct (s_request_heap s !! rid); [|done]. destruct (bool_decide _); [by apply abort_inv|done]. Qed.
Lemma ReleaseStopped_inv s rid o : inv s -> inv (ReleaseStopped env s rid o).1.
Proof. intros Hi. unfold ReleaseStopped. destruct (s_request_heap s !! rid); [|done]. destruct (bool_decide _); [by apply release_inv|done]. Qed.
Lemma Output_inv s o l : inv s -> inv (Output s o l).1.
Proof.
  intros Hi. unfold Output. destruct (available s); [done|]. destruct (_ || _); [done|]. eapply inv_frame; [done| |done|done]. frame_solve.
Qed.
Lemma retain_inv expiry s id : inv s -> (forall st, stage s id = Some st -> st_ready st = true /\ st_retired st = false) -> inv (retain_stage expiry s id).
Proof.
  intros Hi Hr. unfold retain_stage. destruct (stage s id) as [st|] eqn:Es; [|done]. destruct (Hr st eq_refl) as [Hr1 Hr2].
  apply stage_live in Es as Hl; [|done|by left]. pose proof (v_stages _ Hi _ _ Hl) as [K1 K2 K3 K4 K5 K6]. eapply inv_stage; [done|done| |done|done].
  by split.
Qed.
(** [retain_stage] keeps every stage ready and not retired. *)
Lemma retain_keeps expiry s id id' st' : stage (retain_stage expiry s id) id' = Some st' ->
  exists st, stage s id' = Some st /\ st_ready st' = st_ready st /\ st_retired st' = st_retired st.
Proof.
  unfold retain_stage. destruct (stage s id) as [st|] eqn:Es; [|by exists st']. unfold set_stage, stage in *.
  destruct (s_stages s !! id) as [st0|] eqn:El; cbn.
  - injection Es as ->. destruct (decide (id = id')) as [->|Hne].
    + rewrite lookup_insert_eq, El. intros [= <-]. by exists st.
    + rewrite lookup_insert_ne by done. intros E. by exists st'.
  - destruct (decide (id = id')) as [->|Hne].
    + rewrite El, lookup_insert_eq. intros [= <-]. rewrite Es. by exists st.
    + rewrite lookup_insert_ne by done. intros E. by exists st'.
Qed.
Lemma retain_all_inv expiry l : forall s, inv s -> Forall (fun id => forall st, stage s id = Some st -> st_ready st = true /\ st_retired st = false) l ->
  inv (foldl (retain_stage expiry) s l).
Proof.
  induction l as [|id l IH]; intros s Hi Hl; [done|]. apply Forall_cons in Hl as [H1 Hl]. cbn. apply IH; [by apply retain_inv|].
  eapply Forall_impl; [exact Hl|]. intros id' Hid st' Hst'. apply retain_keeps in Hst' as (st & Hst & -> & ->). by apply Hid.
Qed.
Lemma retainable_stages s (ids : list bytes) (files : list (ArtifactMetadata * option nat)) :
  length files = length ids -> forallb (fun p => retainable s p.1 p.2) (zip ids files) = true ->
  Forall (fun id => forall st, stage s id = Some st -> st_ready st = true /\ st_retired st = false) ids.
Proof.
  intros El Ef. apply Forall_forall. intros id Hid st Hst. apply list_elem_of_lookup in Hid as (k & Hk). destruct (lookup_lt_is_Some_2 files k) as [f Hfk].
  { apply lookup_lt_Some in Hk. lia. }
  rewrite forallb_forall in Ef. assert (retainable s id f = true) as Hre.
  { apply (Ef (id, f)). apply list_elem_of_In, list_elem_of_lookup. exists k. by apply lookup_zip_Some. }
  unfold retainable in Hre. rewrite Hst in Hre. destruct (_ ≫= _); [|done]. breflect. done.
Qed.
Lemma Retain_inv s v files : inv s -> inv (Retain env s v files).1.
Proof.
  intros Hi. unfold Retain. destruct (s_scope_heap s !! v) as [sc|] eqn:Ev; [|done]. destruct (available s); [done|]. destruct (_ || _) eqn:El; [done|]. breflect.
  destruct (forallb _ _) eqn:Ef; [|done]. cbn [negb fst]. eapply inv_frame; [|frame_solve|done|done]. apply retain_all_inv; [done|].
  by eapply retainable_stages.
Qed.
Lemma OpenOutput_inv s ctx o id : inv s -> inv (OpenOutput env s ctx o id).1.
Proof.
  intros Hi. unfold OpenOutput. destruct (available s); [done|]. destruct (s_stages s !! id) as [st|] eqn:El; [|done]. destruct (_ || _); [done|].
  apply open_inv; [done|]. unfold stage. by rewrite El.
Qed.

Lemma sweep_request_inv t s rid : inv s -> inv (sweep_request env t s rid).1.
Proof.
  intros Hi. unfold sweep_request. destruct (s_request_heap s !! rid) as [r|] eqn:Er; [|done]. destruct (expired env t s r); [|done].
  match goal with |- context [retire_all env ?x ?l] => pose proof (retire_all_inv l x) as H; destruct (retire_all env x l) as [s1 e1] end.
  apply inv_slot, H. eapply (inv_frame s); [done| |done|done]. eapply frame_trans; [apply (frame_cancel s (rq_ctx r))|]. by eapply frame_request.
Qed.
Lemma sweep_requests_inv t l : forall s, inv s -> inv (sweep_requests env t s l).1.
Proof.
  induction l as [|rid l IH]; intros s Hi; [done|]. cbn [sweep_requests]. pose proof (sweep_request_inv t s rid Hi) as H1.
  destruct (sweep_request env t s rid) as [s1 e1]. specialize (IH s1 H1). by destruct (sweep_requests env t s1 l).
Qed.
Lemma sweep_stages_inv t l : forall s, inv s -> inv (sweep_stages env t s l).1.
Proof.
  induction l as [|id l IH]; intros s Hi; [done|]. cbn [sweep_stages].
  assert (inv (match s_stages s !! id with
    | Some st => if st_retained st && negb (t <? st_expires st) then cleanupLocked env (retire s id) id else (s, None) | None => (s, None) end).1) as H1.
  { destruct (s_stages s !! id); [|done]. destruct (_ && _); [|done]. by apply cleanup_inv, retire_stage_inv. }
  destruct (match s_stages s !! id with Some _ => _ | None => _ end) as [s1 e1]. specialize (IH s1 H1). by destruct (sweep_stages env t s1 l).
Qed.
Lemma Sweep_inv s : inv s -> inv (Sweep env s).1.
Proof.
  intros Hi. unfold Sweep. pose proof (sweep_requests_inv (now env s) (map_to_list (s_requests s)).*2 s Hi) as H1.
  destruct (sweep_requests _ _ _ _) as [s1 e1]. pose proof (sweep_stages_inv (now env s) (map_to_list (s_stages s1)).*1 s1 H1) as H2.
  by destruct (sweep_stages _ _ _ _).
Qed.
Lemma cancel_readers_frame l : forall s, frame s (foldl cancel_reader s l) /\ s_stages (foldl cancel_reader s l) = s_stages s /\ s_used (foldl cancel_reader s l) = s_used s.
Proof.
  induction l as [|r l IH]; intros s; [split; [apply frame_refl|done]|]. cbn. destruct (IH (cancel_reader s r)) as (F & H1 & H2).
  assert (frame s (cancel_reader s r) /\ s_stages (cancel_reader s r) = s_stages s /\ s_used (cancel_reader s r) = s_used s) as (F0 & H3 & H4).
  { unfold cancel_reader. by destruct (s_reader_heap s !! r). }
  split; [by eapply frame_trans|]. split; congruence.
Qed.
Lemma revoke_stages_inv g l : forall s, inv s -> inv (revoke_stages env g s l).1.
Proof.
  induction l as [|id l IH]; intros s Hi; [done|]. cbn [revoke_stages].
  match goal with |- inv (let '(_, _) := ?x in _).1 => assert (inv x.1) as H1 end.
  { destruct (s_stages s !! id) as [st|]; [|done]. destruct (_ && _); [|done]. apply cleanup_inv.
    destruct (cancel_readers_frame (elements (st_readers st)) (retire s id)) as (F & H1 & H2). eapply inv_frame; [by apply retire_stage_inv|done|done|done]. }
  destruct (match s_stages s !! id with Some _ => _ | None => _ end) as [s1 e1]. specialize (IH s1 H1). by destruct (revoke_stages env g s1 l).
Qed.
Lemma revoke_requests_inv g l : forall s, inv s -> inv (foldl (revoke_request g) s l).
Proof.
  induction l as [|rid l IH]; intros s Hi; [done|]. cbn. apply IH. unfold revoke_request. destruct (s_request_heap s !! rid) as [r|] eqn:Er; [|done].
  destruct (bytes_eqb _ _); [by eapply request_frame|done].
Qed.
Lemma shutdown_requests_inv l : forall s, inv s -> inv (foldl shutdown_request s l).
Proof.
  induction l as [|rid l IH]; intros s H0; [done|]. cbn. apply IH. unfold shutdown_request.
  destruct (s_request_heap s !! rid) as [r|] eqn:Er; [by eapply request_frame|done].
Qed.
Lemma CloseStore_inv s : inv s -> inv (CloseStore env s).1.
Proof.
  intros Hi. unfold CloseStore. destruct (s_closed s); [done|].
  assert (forall l s, inv s -> inv (shutdown_stages env s l).1) as Hst.
  { induction l as [|id l IH]; intros s0 H0; [done|]. cbn [shutdown_stages].
    match goal with |- context [close_all env s0 ?x] => pose proof (close_all_inv x s0 H0) as H1; destruct (close_all env s0 x) as [s1 e1] end. cbn [fst] in H1.
    pose proof (cleanup_inv _ id (retire_stage_inv _ id H1)) as H2. destruct (cleanupLocked env (retire s1 id) id) as [s2 e2].
    specialize (IH s2 H2). by destruct (shutdown_stages env s2 l). }
  match goal with |- context [shutdown_stages env ?x ?l] => assert (inv (shutdown_stages env x l).1) as H1; [|destruct (shutdown_stages env x l) as [s1 e1]] end.
  { apply Hst, shutdown_requests_inv. eapply (inv_frame s); [done|frame_solve|done|done]. }
  cbn [call fst]. eapply (inv_frame s1); [done|frame_solve|done|done].
Qed.

Lemma new_store_inv o : options_valid o = true -> inv (new_store o).
Proof.
  unfold options_valid. intros H. breflect. assert (0 <= MaxObjects o) by lia. split; cbn; unfold objects; cbn; rewrite ?map_size_empty, ?msum_empty; try done; try lia.
  - by intros rid [x Hx].
  - by intros id [[? ?]|[? ?]].
Qed.

(** ** New stages *)

Context (random_distinct : forall i j, random env i = random env j -> i = j).

Lemma inv_new s s' id t st :
  inv s -> frame s s' -> s_stages s' = <[id := st]> (s_stages s) -> id = random env t -> (s_tick s <= t < s_tick s')%nat ->
  stage_ok st -> weight st = 0 -> st_readers st = ∅ -> s_used s' = s_used s -> objects s < MaxObjects (s_options s) -> inv s'.
Proof.
  intros Hi [F1 F2 F3 F4 F5 F6 F7 F8 F9] Hst Hid Ht Hok Hw Hrd Hu Ho.
  assert (s_stages s !! id = None /\ s_gone s !! id = None) as [Hn Hg].
  { split; apply eq_None_not_Some; intros Hl; (destruct (v_ids _ Hi id) as (t0 & Htl & E); [auto|]);
      rewrite Hid in E; apply random_distinct in E; lia. }
  destruct Hi as [U Q S G D R O C L H P Rq Hp Pe I]. unfold objects in *.
  split; rewrite ?F1, ?F2, ?F3, ?F4, ?F5, ?F6, ?Hst, ?Hu; unfold objects; rewrite ?F1, ?F2, ?F3, ?F4, ?F5, ?F6, ?Hst; try done.
  - rewrite msum_insert by done. lia.
  - by apply map_Forall_insert_2.
  - by apply map_disjoint_insert_l_2.
  - intros r n Hr. destruct (R r n Hr). split; lia.
  - rewrite map_size_insert_None by done. lia.
  - rewrite msum_insert by done. unfold leases at 1. rewrite Hrd, size_empty. lia.
  - intros id' st0 r [[<- <-]|[Hne Hl]]%lookup_insert_Some Hr; [set_solver|by apply (H id' st0)].
  - intros r rd Hr. destruct (P r rd Hr) as [P1 P2]. split; [lia|]. intros Hc. destruct (P2 Hc) as (st0 & Hl & Hin).
    exists st0. rewrite lookup_insert_ne by (intros ->; congruence). done.
  - intros k rid Hk. rewrite F7. by apply Rq.
  - intros rid Hr. rewrite F7 in Hr. apply Hp in Hr. lia.
  - intros id' Hl. destruct (decide (id' = id)) as [->|Hne]; [exists t; split; [lia|done]|].
    destruct (I id') as (t0 & Ht' & ->); [|exists t0; split; [lia|done]]. destruct Hl as [Hl|Hl]; [left|by right]. by rewrite lookup_insert_ne in Hl.
Qed.


Definition fresh_stage (st : Stage) : Prop :=
  st_size st = 0 /\ st_data st = [] /\ st_reserved st = 0 /\ st_sealed st = false /\ st_ready st = false /\ st_retained st = false /\
  st_retired st = false /\ st_readers st = ∅ /\ st_request st = None /\ st_scope st = None.
Lemma fresh_ok st : fresh_stage st -> stage_ok st /\ weight st = 0.
Proof.
  intros (H1 & H2 & H3 & H4 & H5 & H6 & H7 & H8 & _). split; [split; try congruence; [by rewrite H1, H2|lia]|unfold weight; lia].
Qed.

(** What [newStage] leaves: the store as it was, or with one fresh stage. *)
Definition made_stage (s s' : Store) (r : result bytes) : Prop :=
  frame s s' /\ s_used s' = s_used s /\ s_request_heap s' = s_request_heap s /\ s_scope_heap s' = s_scope_heap s /\
  (s_poisoned s = true -> s_poisoned s' = true) /\
  match r with
  | Err _ => s_stages s' = s_stages s
  | Ok id => exists t st, s_stages s' = <[id := st]> (s_stages s) /\ id = random env t /\ (s_tick s <= t < s_tick s')%nat /\
      fresh_stage st /\ objects s < MaxObjects (s_options s) /\ s_poisoned s' = s_poisoned s
  end.
Lemma newStage_spec s ctx o k name media s' r : newStage env s ctx o k name media = (s', r) -> made_stage s s' r.
Proof.
  assert (forall s' e, s_stages s' = s_stages s -> frame s s' -> s_used s' = s_used s -> s_request_heap s' = s_request_heap s ->
    s_scope_heap s' = s_scope_heap s -> (s_poisoned s = true -> s_poisoned s' = true) -> made_stage s s' (Err e)) as Hf.
  { intros s1 e H1 H2 H3 H4 H5 H6. repeat (split; [done|]). done. }
  unfold newStage. destruct (available s); [intros [= <- <-]; by apply Hf; [|apply frame_refl| | | |]|].
  destruct (negb (valid o)); [intros [= <- <-]; by apply Hf; [|apply frame_refl| | | |]|].
  destruct (ctx_error env s ctx); [intros [= <- <-]; by apply Hf; [|apply frame_refl| | | |]|].
  destruct (_ || _); [intros [= <- <-]; by apply Hf; [|apply frame_refl| | | |]|].
  destruct (Z.leb_spec (MaxObjects (s_options s)) (objects s)); [intros [= <- <-]; by apply Hf; [|apply frame_refl| | | |]|].
  cbn [call]. destruct (io_error env (s_tick s)); [intros [= <- <-]; apply Hf; try done; frame_solve|].
  cbn [call]. match goal with |- context [io_error env ?t] => destruct (io_error env t) end; [intros [= <- <-]; apply Hf; try done; frame_solve|].
  match goal with |- context [io_error env ?t] => destruct (io_error env t) end;
    [match goal with |- context [io_error env ?t] => destruct (io_error env t) end; intros [= <- <-]; apply Hf; try done; frame_solve|].
  match goal with |- context [io_error env ?t] => destruct (io_error env t) end;
    [match goal with |- context [io_error env ?t] => destruct (io_error env t) end; intros [= <- <-]; apply Hf; try done; frame_solve|].
  intros [= <- <-]. split; [frame_solve|]. repeat (split; [done|]). eexists _, _. split; [cbn; reflexivity|]. split; [reflexivity|].
  split; [cbn; lia|]. split; [done|]. done.
Qed.
Lemma made_stage_inv s s' r : inv s -> made_stage s s' r -> inv s'.
Proof.
  intros Hi (F & U & _ & _ & _ & H). destruct r as [id|e]; [|by eapply inv_frame]. destruct H as (t & st & Hs & Hid & Ht & Hf & Ho & _).
  destruct (fresh_ok st Hf) as [H1 H2]. eapply (inv_new s s' id t st); try done. apply Hf.
Qed.

(** A stage that was just made gets its owner. *)
Lemma inv_alter s s' id (f : Stage -> Stage) :
  inv s -> frame s s' -> s_stages s' = alter f id (s_stages s) -> s_used s' = s_used s -> (forall st, st_readers (f st) = st_readers st) ->
  (forall st, weight (f st) = weight st) -> (forall st, stage_ok st -> stage_ok (f st)) -> inv s'.
Proof.
  intros Hi F Hs U Hr Hw Hk. destruct (s_stages s !! id) as [st|] eqn:El.
  - eapply (inv_update s s' id st (f st)); [done|done|done| |by apply Hk, (v_stages _ Hi id)|done|by rewrite U, Hw; lia|rewrite U; apply Hi].
    rewrite Hs. by apply alter_insert_known.
  - eapply inv_frame; [done|done| |done]. rewrite Hs. apply map_eq. intros i. destruct (decide (i = id)) as [->|Hne]; [by rewrite lookup_alter_eq, El|].
    by rewrite lookup_alter_ne by done.
Qed.

Lemma NewFile_inv s rid o pointer name media : inv s -> inv (NewFile env s rid o pointer name media).1.
Proof.
  intros Hi. apply with_request_inv; [done|]. intros r Hr _ _. destruct (schemaAt _ _) as [node|]; [|done]. destruct (bool_decide _); [done|].
  destruct (bool_decide _); [done|]. destruct (_ <=? _); [done|]. destruct (newStage _ _ _ _ _ _ _) as [s1 [id|e]] eqn:En; apply newStage_spec in En;
    pose proof (made_stage_inv _ _ _ Hi En) as Hi1; [|done]. destruct En as (F & U & Hh & _). cbn [fst].
  assert (inv (s1 <| s_stages ::= alter (fun st => st <| st_request := Some rid |>) id |>)) as H2.
  { eapply (inv_alter s1 _ id (fun st => st <| st_request := Some rid |>)); [done|frame_solve|done|done|done|done|intros st [K1 K2 K3 K4 K5 K6]; by split]. }
  eapply inv_frame; [exact H2| |done|done]. eapply frame_request; [cbn; rewrite Hh; exact Hr|done].
Qed.
Lemma BeginOutput_inv s v ctx name media : inv s -> inv (BeginOutput env s v ctx name media).1.
Proof.
  intros Hi. unfold BeginOutput. destruct (s_scope_heap s !! v) as [sc|] eqn:Ev; [|done]. destruct (sc_published sc); [done|]. destruct (_ <=? _); [done|].
  destruct (newStage _ _ _ _ _ _ _) as [s1 [id|e]] eqn:En; apply newStage_spec in En; pose proof (made_stage_inv _ _ _ Hi En) as Hi1; [|done]. cbn [fst].
  eapply (inv_alter s1 _ id (fun st => st <| st_scope := Some v |>)); [done|frame_solve|done|done|done|done|intros st [K1 K2 K3 K4 K5 K6]; by split].
Qed.
Lemma made_scratch s n s2 r : made_stage (s <| s_used ::= Z.add n |>) s2 r -> made_stage s (s2 <| s_used ::= fun u => u - n |>) r.
Proof.
  intros ([F1 F2 F3 F4 F5 F6 F7 F8 F9] & U & H1 & H2 & H3 & H4). split; [by split|]. cbn in U. split; [cbn; lia|]. done.
Qed.
Lemma NewScratch_inv s ctx name media n : inv s -> inv (NewScratch env s ctx name media n).1.
Proof.
  intros Hi. unfold NewScratch. destruct (Z.ltb_spec n 0); [done|]. destruct (reserveLocked s n) as [s1 e1] eqn:Er. apply reserve_spec in Er.
  destruct e1; [by subst|]. destruct Er as (-> & _ & Hq). destruct (newStage _ _ _ _ _ _ _) as [s2 r] eqn:En. apply newStage_spec in En.
  apply made_scratch in En. pose proof (made_stage_inv _ _ _ Hi En) as Hi2. destruct r as [id|e]; [|done]. cbn [fst].
  destruct En as (F & U & _ & _ & _ & t & st & Hs & _ & _ & Hf & _). cbn in Hs, U.
  assert (s_stages (s2 <| s_used ::= fun u => u - n |>) !! id = Some st) as Hl by (cbn; by rewrite Hs, lookup_insert_eq).
  destruct Hf as (E1 & E2 & E3 & E4 & E5 & E6 & E7 & E8 & E9).
  eapply (inv_update _ _ id st (st <| st_reserved := n |>) Hi2); [frame_solve|done| | |done| |].
  - cbn. by apply alter_insert_known.
  - split; cbn; try congruence; try lia. by rewrite E1, E2.
  - cbn. unfold weight. cbn. lia.
  - pose proof (f_options _ _ F) as Fo. cbn in Fo |- *. rewrite Fo. lia.
Qed.

(** ** Any operation *)

Lemma run_plain_inv s op : (forall r total, op <> OpRetainSave r total) -> inv s -> inv (run env lib s op).
Proof.
  intros Hch Hi. destruct op; cbn [run];
    [apply Reserve_inv|apply Release_inv|by destruct (Hch r total)|apply Write_inv| |apply Finish_inv|apply AbortStage_inv|apply close_inv|apply BeginInput_inv|apply NewFile_inv|
     apply Complete_inv|apply Commit_inv|apply Start_inv|apply OpenInput_inv|apply AbortRequest_inv|apply ReleaseStopped_inv|apply Output_inv|
     apply BeginOutput_inv|apply Retain_inv|apply OpenOutput_inv|apply Sweep_inv|apply revoke_stages_inv, revoke_requests_inv|apply NewScratch_inv| |apply CloseStore_inv];
    try done.
  - unfold CloseStage. destruct (stage s id) as [st|] eqn:Es; [by apply seal_inv|done].
  - unfold BeginScratch. destruct (newStage _ _ _ _ _ _ _) as [s1 r] eqn:En. apply newStage_spec in En. by eapply made_stage_inv.
Qed.
End Invariant.

Lemma inv_more env a b s : inv env a s -> (a <= b)%N -> inv env b s.
Proof. intros [U Q S G D R O C L H P Rq Hp Pe I] Hab. split; try done. lia. Qed.
Lemma retain_save_inv env a s r total : inv env a s -> inv env (a + charged s (OpRetainSave r total)) (retain r total s).1.
Proof.
  intros Hi. cbn [charged].
  assert (inv env a (s <| s_poisoned := true |>)) as Hp by (eapply (inv_frame env a s); [exact Hi|apply frame_poison|done|done]).
  unfold retain. destruct (s_reservations s !! r) as [n|] eqn:Er; [|by eapply inv_more; [exact Hp|lia]].
  destruct (_ && _) eqn:Eb; [|by eapply inv_more; [exact Hp|lia]]. breflect. destruct Hi as [U Q S G D R O C L Hh P Rq Hpp Pe I].
  unfold objects in *. split; cbn; try done; unfold objects; cbn.
  - rewrite (msum_update _ _ _ _ total Er). lia.
  - lia.
  - apply map_Forall_insert_2; [|done]. destruct (R r n Er). split; [lia|done].
  - by rewrite map_size_insert_Some by eauto.
Qed.
Lemma run_inv env lib a s op : (forall i j, random env i = random env j -> i = j) -> inv env a s -> inv env (a + charged s op) (run env lib s op).
Proof.
  intros Hr Hi. assert ((exists r total, op = OpRetainSave r total) \/ forall r total, op <> OpRetainSave r total) as [(r & total & ->)|H].
  - destruct op; eauto; right; discriminate.
  - by apply retain_save_inv.
  - eapply inv_more; [by apply run_plain_inv|lia].
Qed.
Lemma runs_inv env lib ops : (forall i j, random env i = random env j -> i = j) ->
  forall a s, inv env a s -> inv env (a + overcharge env lib s ops) (foldl (run env lib) s ops).
Proof.
  intros Hr. induction ops as [|op ops IH]; intros a s Hi; [by rewrite N.add_0_r|]. cbn [foldl overcharge]. rewrite N.add_assoc. by apply IH, run_inv.
Qed.

