(* ===== verification/ArtifactSafety.v ===== *)
(** * Lifetimes of private artifacts
    On top of the accounts of [ArtifactInvariant]: completed bytes never change, a stage
    is not removed under a reader, and a stage that nobody needs is removed, unless a
    failed clean-up has poisoned the store. *)
From Stdlib Require Import ZArith Lia.
From stdpp Require Import base gmap sets list option strings.
From coqutil Require Import Datatypes.RecordSettersUsingExistingGetters.
From S2P Require Import Prelude Utf8 Sha256 Strconv Json JsonText Canonical GoStrings InputValue ValueFormat Schema Pointer Validation Publish ArtifactStore ArtifactInvariant.
Local Open Scope Z_scope.

(** A stage that should have been removed. *)
Definition dirty (st : Stage) : Prop := st_retired st = true /\ st_readers st = ∅.
(** What an operation may do to the others: a completed stage keeps its bytes, and a stage
    is dirty afterwards only if it was before, or the store is poisoned. *)
Definition same_bytes (st st' : Stage) : Prop :=
  st_info st' = st_info st /\ (st_ready st = true -> st_ready st' = true /\ st_data st' = st_data st /\ st_size st' = st_size st).

Section Lifetime.
Context (env : environment) (lib : engines) (extra : N).
Abbreviation inv := (inv env extra).

Record calm (s s' : Store) : Prop := {
  ca_poisoned : s_poisoned s = true -> s_poisoned s' = true;
  ca_dirty : s_poisoned s' = true \/ forall id st', s_stages s' !! id = Some st' -> dirty st' -> exists st, s_stages s !! id = Some st /\ dirty st;
  ca_bytes : forall id st, stage s id = Some st -> exists st', stage s' id = Some st' /\ same_bytes st st'
}.
Lemma same_bytes_refl st : same_bytes st st.
Proof. done. Qed.
Lemma same_bytes_trans a b c : same_bytes a b -> same_bytes b c -> same_bytes a c.
Proof.
  intros [H1 H2] [H3 H4]. split; [congruence|]. intros Hr. destruct (H2 Hr) as (E1 & E2 & E3). destruct (H4 E1) as (E4 & E5 & E6).
  split; [done|]. split; congruence.
Qed.
Lemma calm_refl s : calm s s.
Proof. split; [done|right; eauto|]. intros id st Hs. exists st. by split. Qed.
Lemma calm_trans a b c : calm a b -> calm b c -> calm a c.
Proof.
  intros [A1 A2 A3] [B1 B2 B3]. split; [auto| |].
  - destruct B2 as [B2|B2]; [by left|]. destruct A2 as [A2|A2]; [left; auto|]. right. intros id st' Hs Hd.
    destruct (B2 id st' Hs Hd) as (st1 & Hs1 & Hd1). eauto.
  - intros id st Hs. destruct (A3 id st Hs) as (st1 & Hs1 & Hb1). destruct (B3 id st1 Hs1) as (st2 & Hs2 & Hb2).
    exists st2. split; [done|]. by eapply same_bytes_trans.
Qed.

(** Steps that do not touch the stages. *)
Lemma calm_same s s' : s_stages s' = s_stages s -> s_gone s' = s_gone s -> (s_poisoned s = true -> s_poisoned s' = true) -> calm s s'.
Proof.
  intros H1 H2 H3. split; [done|right; rewrite H1; eauto|]. intros id st Hs. exists st. split; [|done]. unfold stage in *. by rewrite H1, H2.
Qed.
Lemma calm_call s s' e : call env s = (s', e) -> calm s s' /\ s_poisoned s' = s_poisoned s.
Proof. intros [= <- _]. split; [by apply calm_same|done]. Qed.
Lemma calm_cancel s c : calm s (cancel s c).
Proof. by apply calm_same. Qed.
Lemma calm_poison s : calm s (poison s).
Proof. by apply calm_same. Qed.
Lemma calm_request s rid r : calm s (set_request s rid r).
Proof. by apply calm_same. Qed.
Lemma calm_stop s r : calm s (stop s r).
Proof. unfold stop. destruct (rq_execution r); by apply calm_same. Qed.

(** A live stage is replaced by one that is not dirty. *)
Lemma calm_insert s s' id st st' :
  s_stages s !! id = Some st -> s_stages s' = <[id := st']> (s_stages s) -> s_gone s' = s_gone s ->
  (s_poisoned s = true -> s_poisoned s' = true) -> same_bytes st st' -> (dirty st' -> dirty st) -> calm s s'.
Proof.
  intros Hl Hs Hg Hp Hb Hd. split; [done| |].
  - right. rewrite Hs. intros id' st0 [[<- <-]|[Hne Hl']]%lookup_insert_Some Hd'; eauto.
  - intros id' st0 Hs0. unfold stage in *. rewrite Hs, Hg. destruct (decide (id = id')) as [->|Hne].
    + rewrite Hl in Hs0. injection Hs0 as <-. rewrite lookup_insert_eq. by exists st'.
    + rewrite lookup_insert_ne by done. exists st0. by split.
Qed.
Lemma calm_new s s' r : made_stage env s s' r -> inv s -> (forall i j, random env i = random env j -> i = j) -> calm s s'.
Proof.
  intros (F & _ & _ & _ & Hp & H) Hi Hd. destruct r as [id|e]; [|apply calm_same; [done|apply F|done]].
  destruct H as (t & st & Hs & Hid & Ht & Hf & _ & _). assert (s_stages s !! id = None /\ s_gone s !! id = None) as [Hn Hg].
  { split; apply eq_None_not_Some; intros Hl; (destruct (v_ids _ _ _ Hi id) as (t0 & Htl & E); [auto|]); rewrite Hid in E; apply Hd in E; lia. }
  split; [done| |].
  - right. rewrite Hs. intros id' st0 [[<- <-]|[Hne Hl']]%lookup_insert_Some [Hd1 Hd2]; [|by exists st0]. destruct Hf as (_ & _ & _ & _ & _ & _ & E & _). congruence.
  - intros id' st0 Hs0. exists st0. split; [|done]. unfold stage in *. rewrite Hs, (f_gone _ _ F), lookup_insert_ne; [done|]. intros <-. rewrite Hn in Hs0. congruence.
Qed.

(** ** Clean-up *)

Lemma slot_stages s rid : s_stages (releaseSlotLocked s rid) = s_stages s /\ s_gone (releaseSlotLocked s rid) = s_gone s /\ s_poisoned (releaseSlotLocked s rid) = s_poisoned s.
Proof. unfold releaseSlotLocked. repeat case_match; done. Qed.
Lemma calm_slot s rid : calm s (releaseSlotLocked s rid).
Proof. destruct (slot_stages s rid) as (H1 & H2 & H3). by apply calm_same; rewrite ?H3. Qed.

(** [s'] follows from [s] by steps that end with [id] removed, not dirty, or the store poisoned. *)
Record settled (id : bytes) (s s' : Store) : Prop := {
  se_poisoned : s_poisoned s = true -> s_poisoned s' = true;
  se_dirty : s_poisoned s' = true \/ forall id' st', s_stages s' !! id' = Some st' -> dirty st' ->
    id' <> id /\ exists st, s_stages s !! id' = Some st /\ dirty st;
  se_bytes : forall id' st, stage s id' = Some st -> exists st', stage s' id' = Some st' /\ same_bytes st st'
}.
Lemma settled_after s s1 s2 id : calm s s1 -> settled id s1 s2 -> settled id s s2.
Proof.
  intros [A1 A2 A3] [B1 B2 B3]. split; [auto| |].
  - destruct B2 as [B2|B2]; [by left|]. destruct A2 as [A2|A2]; [left; auto|]. right. intros id' st' Hs Hd.
    destruct (B2 id' st' Hs Hd) as (Hne & st1 & Hs1 & Hd1). eauto.
  - intros id' st Hs. destruct (A3 id' st Hs) as (st1 & Hs1 & Hb1). destruct (B3 id' st1 Hs1) as (st2 & Hs2 & Hb2).
    exists st2. split; [done|]. by eapply same_bytes_trans.
Qed.
Lemma settled_before s s1 s2 id : settled id s s1 -> calm s1 s2 -> settled id s s2.
Proof.
  intros [A1 A2 A3] [B1 B2 B3]. split; [auto| |].
  - destruct B2 as [B2|B2]; [by left|]. destruct A2 as [A2|A2]; [left; auto|]. right. intros id' st' Hs Hd.
    destruct (B2 id' st' Hs Hd) as (st1 & Hs1 & Hd1). eauto.
  - intros id' st Hs. destruct (A3 id' st Hs) as (st1 & Hs1 & Hb1). destruct (B3 id' st1 Hs1) as (st2 & Hs2 & Hb2).
    exists st2. split; [done|]. by eapply same_bytes_trans.
Qed.
Lemma settled_poison s s' id : calm s s' -> settled id s (poison s').
Proof.
  intros Hc. assert (calm s (poison s')) as [A1 A2 A3] by (eapply calm_trans; [exact Hc|apply calm_poison]). split; [done|by left|done].
Qed.
Lemma settled_clean s id : (forall st, s_stages s !! id = Some st -> ~ dirty st) -> settled id s s.
Proof.
  intros H. split; [done| |intros id' st Hs; by exists st]. right. intros id' st' Hs Hd. split; [|by exists st'].
  intros ->. by apply (H st').
Qed.

Lemma remove_settled s id st : inv s -> s_stages s !! id = Some st ->
  settled id s (match call env s with
    | (s, Some _) => (poison s, Some "EXECUTION_FAILED"%string)
    | (s, None) =>
        let s := s <| s_used ::= fun u => u - (st_size st + st_reserved st) |>
                   <| s_stages ::= delete id |> <| s_gone ::= insert id (st <| st_reserved := 0 |>) |> in
        (match st_request st with Some rid => releaseSlotLocked s rid | None => s end, None)
    end).1.
Proof.
  intros Hi Hl. destruct (call env s) as [s1 e1] eqn:Ec. injection Ec as <- _. destruct e1 as [e1|]; cbn [fst]; [by apply settled_poison, calm_same|].
  match goal with |- context [releaseSlotLocked ?x _] => set (s2 := x) end.
  assert (settled id s s2) as H2.
  { split; [done| |].
    - right. unfold s2. cbn. intros id' st' [Hne Hs]%lookup_delete_Some Hd. split; [done|by exists st'].
    - intros id' st0 Hs0. unfold stage in *. unfold s2. cbn. destruct (decide (id = id')) as [->|Hne].
      + rewrite lookup_delete_eq, lookup_insert_eq. rewrite Hl in Hs0. injection Hs0 as <-. by eexists.
      + rewrite lookup_delete_ne, lookup_insert_ne by done. by exists st0. }
  destruct (st_request st); [|done]. eapply settled_before; [exact H2|apply calm_slot].
Qed.
Lemma cleanup_settled s id : inv s -> settled id s (cleanupLocked env s id).1.
Proof.
  intros Hi. unfold cleanupLocked. destruct (stage s id) as [st|] eqn:Es.
  2:{ cbn [fst]; apply settled_clean. intros st Hl. unfold stage in Es. by rewrite Hl in Es. }
  destruct (_ || _) eqn:Eb.
  { cbn [fst]; apply settled_clean. intros st0 Hl [Hd1 Hd2]. unfold stage in Es. rewrite Hl in Es. injection Es as ->. rewrite Hd1, Hd2 in Eb. breflect. by destruct Eb. }
  breflect. destruct (st_file st) eqn:Ef.
  - destruct (call env s) as [s1 e1] eqn:Ec. pose proof (frame_call env s s1 e1 Ec) as (F1 & F2 & F3). destruct (calm_call s s1 e1 Ec) as [C1 _].
    assert (inv s1) as Hi1 by (by eapply inv_frame). destruct e1 as [e1|]; [by apply settled_poison|].
    unfold stage in Es. destruct (s_stages s !! id) as [st0|] eqn:El.
    + injection Es as ->. rewrite (set_stage_live s1 id st) by (by rewrite F2).
      set (s2 := s1 <| s_stages ::= insert id (st <| st_file := false |>) |>).
      assert (s_stages s2 !! id = Some (st <| st_file := false |>)) as Hl2 by apply lookup_insert_eq. rewrite Hl2.
      assert (calm s1 s2) as C2 by (eapply (calm_insert s1 s2 id st); [by rewrite F2|done|done|done|done|done]).
      eapply settled_after; [eapply calm_trans; [exact C1|exact C2]|]. apply (remove_settled s2 id (st <| st_file := false |>)); [|done].
      eapply (inv_update env extra s1 s2 id st (st <| st_file := false |>)); [done|by split|by rewrite F2|done| |done|cbn; unfold weight; cbn; lia|apply Hi1].
      pose proof (v_stages _ _ _ Hi _ _ El) as [K1 K2 K3 K4 K5 K6]. by split.
    + unfold set_stage. rewrite F2, El. cbn. rewrite F2, El. cbn. split; [cbn; apply C1| |].
      * right. cbn. rewrite F2. intros id' st' Hs Hd. split; [intros ->; congruence|by exists st'].
      * intros id' st0 Hs0. unfold stage in *. cbn. rewrite F2. destruct (decide (id = id')) as [->|Hne].
        -- rewrite El in *. rewrite lookup_insert_eq. rewrite Es in Hs0. injection Hs0 as <-. by eexists.
        -- rewrite lookup_insert_ne by done. rewrite (f_gone _ _ F1). by exists st0.
  - unfold stage in Es. destruct (s_stages s !! id) as [st0|] eqn:El; [injection Es as ->; by apply remove_settled|].
    cbn [fst]; apply settled_clean. intros st0 Hl. congruence.
Qed.

(** Retiring and cleaning up is calm. *)
Lemma settled_calm s s1 s2 id : settled id s1 s2 -> (forall id', id' <> id -> s_stages s1 !! id' = s_stages s !! id') -> s_poisoned s1 = s_poisoned s ->
  (forall id' st, stage s id' = Some st -> exists st', stage s1 id' = Some st' /\ same_bytes st st') -> calm s s2.
Proof.
  intros [B1 B2 B3] Hs Hp Hb. split; [rewrite <- Hp; auto| |].
  - destruct B2 as [B2|B2]; [by left|right]. intros id' st' Hs' Hd. destruct (B2 id' st' Hs' Hd) as (Hne & st1 & Hs1 & Hd1). rewrite Hs in Hs1 by done. eauto.
  - intros id' st Hst. destruct (Hb id' st Hst) as (st1 & Hs1 & Hb1). destruct (B3 id' st1 Hs1) as (st2 & Hs2 & Hb2).
    exists st2. split; [done|]. by eapply same_bytes_trans.
Qed.
Lemma set_stage_facts s id st st' : stage s id = Some st -> same_bytes st st' ->
  (forall id', id' <> id -> s_stages (set_stage s id st') !! id' = s_stages s !! id') /\ s_poisoned (set_stage s id st') = s_poisoned s /\
  (forall id' st0, stage s id' = Some st0 -> exists st1, stage (set_stage s id st') id' = Some st1 /\ same_bytes st0 st1).
Proof.
  intros Hs Hb. unfold set_stage, stage in *. destruct (s_stages s !! id) as [x|] eqn:El; cbn.
  - injection Hs as ->. split; [intros id' Hne; by rewrite lookup_insert_ne|]. split; [done|]. intros id' st0 H0. destruct (decide (id = id')) as [->|Hne].
    + rewrite El in H0. injection H0 as <-. rewrite lookup_insert_eq. by exists st'.
    + rewrite lookup_insert_ne by done. by exists st0.
  - split; [done|]. split; [done|]. intros id' st0 H0. destruct (decide (id = id')) as [->|Hne].
    + rewrite El in *. rewrite lookup_insert_eq. rewrite Hs in H0. injection H0 as <-. by exists st'.
    + rewrite lookup_insert_ne by done. by exists st0.
Qed.
Lemma retire_cleanup_calm s id : inv s -> calm s (cleanupLocked env (retire s id) id).1.
Proof.
  intros Hi. pose proof (cleanup_settled _ id (retire_stage_inv env extra s id Hi)) as Hs. unfold retire in *. destruct (stage s id) as [st|] eqn:Es.
  - destruct (set_stage_facts s id st (st <| st_retired := true |>) Es) as (H1 & H2 & H3); [done|]. by eapply settled_calm.
  - eapply settled_calm; [exact Hs|done|done|]. intros id' st0 H0. by exists st0.
Qed.
Lemma retire_all_calm l : forall s, inv s -> calm s (retire_all env s l).1.
Proof.
  induction l as [|id l IH]; intros s Hi; [apply calm_refl|]. cbn [retire_all]. pose proof (retire_cleanup_calm s id Hi) as H1.
  pose proof (cleanup_inv env extra _ id (retire_stage_inv env extra _ id Hi)) as H2. destruct (cleanupLocked env (retire s id) id) as [s1 e1]. cbn [fst] in *.
  specialize (IH s1 H2). destruct (retire_all env s1 l) as [s2 e2]. cbn [fst] in *. by eapply calm_trans.
Qed.

(** ** Every operation is calm *)

Lemma count_bytes_same s st n : s_stages (count_bytes s st n) = s_stages s /\ s_gone (count_bytes s st n) = s_gone s /\ s_poisoned (count_bytes s st n) = s_poisoned s.
Proof. unfold count_bytes. destruct (st_request st ≫= _), (st_scope st ≫= _); done. Qed.
Lemma Write_calm s id p : inv s -> calm s (Write env s id p).1.1.
Proof.
  intros Hi. unfold Write. destruct (stage s id) as [st|] eqn:Es; [|apply calm_refl].
  destruct (_ || _) eqn:Eb; [apply calm_refl|]. breflect. destruct (ctx_error env s _); [apply calm_refl|].
  eapply stage_live in Es as Hl; [|exact Hi|by left]. pose proof (v_stages _ _ _ Hi _ _ Hl) as [K1 K2 K3 K4 K5 K6].
  destruct (65536 <? _); [apply calm_refl|]. destruct (request_refuses s id st _); [apply calm_refl|]. destruct (scope_refuses s st _); [apply calm_refl|].
  destruct (reserveLocked s _) as [s1 [e1|]] eqn:Er; apply reserve_spec in Er; [subst; apply calm_refl|]. destruct Er as (-> & Hn & Hq).
  destruct (disk_write env _ p) as [[s2 n] e2] eqn:Ed.
  assert (s_stages s2 = s_stages s /\ s_gone s2 = s_gone s /\ s_poisoned s2 = s_poisoned s) as (D1 & D2 & D3).
  { unfold disk_write in Ed. cbn in Ed. destruct (_ || _) in Ed; by injection Ed as <- _ _. }
  cbn [fst]. match goal with |- context [set_stage ?x id ?y] => set (s3 := x); set (st' := y) end.
  assert (s_stages s3 !! id = Some st) as Hl3 by (unfold s3; cbn; by rewrite D1).
  rewrite (set_stage_live s3 id st st' Hl3). destruct (count_bytes_same (s3 <| s_stages ::= insert id st' |>) st n) as (C1 & C2 & C3).
  eapply (calm_insert s _ id st st'); [done| | | | |].
  - rewrite C1. unfold s3. cbn. by rewrite D1.
  - by rewrite C2.
  - by rewrite C3; unfold s3; cbn; rewrite D3.
  - split; [done|]. intros Hr. destruct (K4 Hr). congruence.
  - intros [Hd _]. cbn in Hd. congruence.
Qed.
Lemma calm_set s id st st' : inv s -> stage s id = Some st -> st_retired st = false -> same_bytes st st' -> st_retired st' = false -> calm s (set_stage s id st').
Proof.
  intros Hi Hs Hr Hb Hr'. eapply stage_live in Hs as Hl; [|exact Hi|by left]. rewrite (set_stage_live s id st) by done.
  eapply (calm_insert s _ id st st'); [done|done|done|done|done|]. intros [Hd _]. congruence.
Qed.
Lemma seal_calm s id st : inv s -> stage s id = Some st -> calm s (sealLocked env s id st).1.
Proof.
  intros Hi Es. unfold sealLocked. destruct (st_retired st) eqn:Er; [apply calm_refl|]. destruct (st_sealed st) eqn:Ese; [apply calm_refl|].
  eapply stage_live in Es as Hl; [|exact Hi|by left]. pose proof (v_stages _ _ _ Hi _ _ Hl) as [K1 K2 K3 K4 K5 K6].
  cbn [fst call]. match goal with |- context [set_stage _ id ?y] => set (st' := y) end. unfold set_stage. cbn. rewrite Hl.
  eapply (calm_insert s _ id st st'); [done|done|done|done| |].
  - split; [done|]. intros Hr. destruct (K4 Hr). congruence.
  - intros [Hd _]. cbn in Hd. congruence.
Qed.
Lemma open_calm s id st ctx : inv s -> stage s id = Some st -> calm s (openLocked env s id st ctx).1.
Proof.
  intros Hi Es. unfold openLocked. destruct (_ || _) eqn:Eb; [apply calm_refl|]. breflect. destruct (ctx_error env s ctx); [apply calm_refl|].
  destruct (_ <=? _); [apply calm_refl|]. cbn [call]. destruct (io_error env (s_tick s)); [by apply calm_same|]. cbn [fst].
  eapply stage_live in Es as Hl; [|exact Hi|by left]. unfold set_stage. cbn. rewrite Hl.
  eapply (calm_insert s _ id st); [done|cbn; done|done|done|done|]. intros [Hd _]. cbn in Hd. congruence.
Qed.
Lemma close_calm s r : inv s -> calm s (closeLocked env s r).1.
Proof.
  intros Hi. unfold closeLocked. destruct (s_reader_heap s !! r) as [rd|] eqn:Er; [|apply calm_refl]. destruct (rd_closed rd) eqn:Ec; [apply calm_refl|].
  cbn [call]. match goal with |- context [io_error env ?t] => destruct (io_error env t) end; [by apply calm_same|].
  destruct (v_open _ _ _ Hi _ _ Er) as [_ Hop]. destruct (Hop Ec) as (st & Hl & Hin).
  match goal with |- context [stage ?x _] => set (s1 := x) end. assert (stage s1 (rd_stage rd) = Some st) as Hst by (unfold stage, s1; cbn; by rewrite Hl).
  rewrite Hst. rewrite (set_stage_live s1 _ st) by done.
  assert (inv (s1 <| s_stages ::= insert (rd_stage rd) (st <| st_readers ::= fun x => x ∖ {[r]} |>) |>)) as Hi1.
  { eapply (inv_close env extra ((cancel s (rd_ctx rd)) <| s_tick ::= S |>) r rd st); [|done|done|done|done]. eapply (inv_frame env extra s); [done|by split; cbn; eauto|done|done]. }
  eapply settled_calm; [apply cleanup_settled, Hi1| |done|].
  - intros id' Hne. cbn. by rewrite lookup_insert_ne.
  - intros id' st0 H0. unfold stage in *. cbn. destruct (decide (rd_stage rd = id')) as [<-|Hne].
    + rewrite lookup_insert_eq. rewrite Hl in H0. injection H0 as <-. by eexists.
    + rewrite lookup_insert_ne by done. by exists st0.
Qed.
Lemma Finish_calm s id m : inv s -> calm s (Finish env s id m).1.
Proof.
  intros Hi. unfold Finish. destruct (stage s id) as [st|] eqn:Es; [|apply calm_refl]. destruct (_ || _) eqn:Eb; [apply calm_refl|].
  destruct (bool_decide (m = metadata st)); [|apply calm_refl]. cbn [negb]. breflect.
  eapply stage_live in Es as Hl; [|exact Hi|by left]. pose proof (v_stages _ _ _ Hi _ _ Hl) as [K1 K2 K3 K4 K5 K6].
  assert (calm s (set_stage s id (st <| st_ready := true |>))) as C1 by (by eapply calm_set).
  eapply calm_trans; [exact C1|]. apply open_calm.
  - eapply inv_stage; [done|done| |done|done]. split; cbn; try done. intros _. split; [done|]. destruct (st_writeErr st); [|done]. exfalso. eauto.
  - rewrite (set_stage_live s id st) by done. unfold stage. cbn. by rewrite lookup_insert_eq.
Qed.
Lemma stop_request_calm s rid r r' : calm s (set_request (stop s r) rid r').
Proof. eapply calm_trans; [apply calm_stop|apply calm_request]. Qed.
Lemma abort_calm s rid : calm s (abortLocked s rid).
Proof.
  unfold abortLocked. destruct (s_request_heap s !! rid) as [r|]; [|apply calm_refl]. destruct (bool_decide _); [apply calm_refl|apply stop_request_calm].
Qed.
Lemma release_calm s rid : inv s -> calm s (releaseStoppedLocked env s rid).1.
Proof.
  intros Hi. unfold releaseStoppedLocked. destruct (s_request_heap s !! rid) as [r|] eqn:Er; [|apply calm_refl].
  assert (inv (set_request (stop s r) rid (r <| rq_state := Released |>))) as Hi1 by (by eapply request_frame).
  pose proof (retire_all_calm (map_to_list (rq_files r)).*2 _ Hi1) as H1. destruct (retire_all env _ _) as [s1 e1]. cbn [fst] in *.
  eapply calm_trans; [apply (stop_request_calm s rid r)|]. eapply calm_trans; [exact H1|apply calm_slot].
Qed.
Lemma AbortStage_calm s id : inv s -> calm s (AbortStage env s id).1.
Proof.
  intros Hi. unfold AbortStage. destruct (stage s id) as [st|] eqn:Es; [|apply calm_refl]. destruct (st_request st) as [rid|].
  - destruct (s_request_heap (abortLocked s rid) !! rid) as [r|]; [|apply abort_calm]. destruct (_ && _); [apply abort_calm|].
    eapply calm_trans; [apply abort_calm|apply release_calm]. by apply abort_inv.
  - destruct (st_retained st); [apply calm_refl|by apply retire_cleanup_calm].
Qed.

Lemma with_request_calm {A} s rid o state (f : Request -> Store * result A) :
  (forall r, s_request_heap s !! rid = Some r -> calm s (f r).1) -> calm s (with_request env s rid o state f).1.
Proof.
  intros Hf. unfold with_request. destruct (s_request_heap s !! rid) as [r|] eqn:Er; [|apply calm_refl].
  destruct (check env s r o state); [apply calm_refl|]. by apply Hf.
Qed.
Lemma retain_calm expiry s id : inv s -> (forall st, stage s id = Some st -> st_ready st = true /\ st_retired st = false) -> calm s (retain_stage expiry s id).
Proof.
  intros Hi Hr. unfold retain_stage. destruct (stage s id) as [st|] eqn:Es; [|apply calm_refl]. destruct (Hr st eq_refl) as [_ Hr2]. by eapply calm_set.
Qed.
Lemma retain_all_calm expiry l : forall s, inv s -> Forall (fun id => forall st, stage s id = Some st -> st_ready st = true /\ st_retired st = false) l ->
  calm s (foldl (retain_stage expiry) s l).
Proof.
  induction l as [|id l IH]; intros s Hi Hl; [apply calm_refl|]. apply Forall_cons in Hl as [H1 Hl]. cbn.
  eapply calm_trans; [by apply retain_calm|]. apply IH; [by apply retain_inv|].
  eapply Forall_impl; [exact Hl|]. intros id' Hid st' Hst'. apply retain_keeps in Hst' as (st & Hst & -> & ->). by apply Hid.
Qed.
Lemma Retain_calm s v files : inv s -> calm s (Retain env s v files).1.
Proof.
  intros Hi. unfold Retain. destruct (s_scope_heap s !! v) as [sc|] eqn:Ev; [|apply calm_refl]. destruct (available s); [apply calm_refl|].
  destruct (_ || _) eqn:El; [apply calm_refl|]. breflect. destruct (forallb _ _) eqn:Ef; [|apply calm_refl]. cbn [negb fst].
  eapply (calm_trans _ (foldl (retain_stage (now env s + TTL (sc_limits sc))) s (sc_stages sc))); [|by apply calm_same]. apply retain_all_calm; [done|]. eapply retainable_stages; [done|exact Ef].
Qed.
Lemma Complete_calm s rid o id n digest : inv s -> calm s (Complete env s rid o id n digest).1.
Proof.
  intros Hi. apply with_request_calm. intros r Hr. destruct (stage s id) as [st|] eqn:Es; [|apply calm_refl]. destruct (_ || _) eqn:Eb; [apply calm_refl|].
  destruct (negb (st_size st =? n) || _); [apply calm_refl|]. cbv zeta. destruct (_ ≫= _); [|apply calm_refl].
  destruct (validate_constraints _ _); [|apply calm_refl]. cbn [fst]. breflect. by eapply calm_set.
Qed.
Lemma sweep_request_calm t s rid : inv s -> calm s (sweep_request env t s rid).1.
Proof.
  intros Hi. unfold sweep_request. destruct (s_request_heap s !! rid) as [r|] eqn:Er; [|apply calm_refl]. destruct (expired env t s r); [|apply calm_refl].
  assert (inv (set_request (cancel s (rq_ctx r)) rid (r <| rq_state := Released |>))) as Hi1.
  { eapply (inv_frame env extra s); [done| |done|done]. eapply frame_trans; [apply (frame_cancel s (rq_ctx r))|]. by eapply frame_request. }
  pose proof (retire_all_calm (map_to_list (rq_files r)).*2 _ Hi1) as H1. destruct (retire_all env _ _) as [s1 e1]. cbn [fst] in *.
  eapply calm_trans; [apply (calm_cancel s (rq_ctx r))|]. eapply calm_trans; [apply calm_request|]. eapply calm_trans; [exact H1|apply calm_slot].
Qed.
Lemma sweep_requests_calm t l : forall s, inv s -> calm s (sweep_requests env t s l).1.
Proof.
  induction l as [|rid l IH]; intros s Hi; [apply calm_refl|]. cbn [sweep_requests]. pose proof (sweep_request_inv env extra t s rid Hi) as H1.
  pose proof (sweep_request_calm t s rid Hi) as H2. destruct (sweep_request env t s rid) as [s1 e1]. specialize (IH s1 H1).
  destruct (sweep_requests env t s1 l). by eapply calm_trans.
Qed.
Lemma sweep_stages_calm t l : forall s, inv s -> calm s (sweep_stages env t s l).1.
Proof.
  induction l as [|id l IH]; intros s Hi; [apply calm_refl|]. cbn [sweep_stages].
  match goal with |- calm s (let '(_, _) := ?x in _).1 => assert (calm s x.1 /\ inv x.1) as [H1 H2] end.
  { destruct (s_stages s !! id); [|split; [apply calm_refl|done]]. destruct (_ && _); [|split; [apply calm_refl|done]].
    split; [by apply retire_cleanup_calm|by apply cleanup_inv, retire_stage_inv]. }
  destruct (match s_stages s !! id with Some _ => _ | None => _ end) as [s1 e1]. specialize (IH s1 H2). destruct (sweep_stages env t s1 l). by eapply calm_trans.
Qed.
Lemma Sweep_calm s : inv s -> calm s (Sweep env s).1.
Proof.
  intros Hi. unfold Sweep. pose proof (sweep_requests_calm (now env s) (map_to_list (s_requests s)).*2 s Hi) as H1.
  pose proof (sweep_requests_inv env extra (now env s) (map_to_list (s_requests s)).*2 s Hi) as H2. destruct (sweep_requests _ _ _ _) as [s1 e1].
  pose proof (sweep_stages_calm (now env s) (map_to_list (s_stages s1)).*1 s1 H2) as H3. destruct (sweep_stages _ _ _ _). by eapply calm_trans.
Qed.
Lemma cancel_readers_same l : forall s, s_stages (foldl cancel_reader s l) = s_stages s /\ s_gone (foldl cancel_reader s l) = s_gone s /\
  s_poisoned (foldl cancel_reader s l) = s_poisoned s.
Proof.
  induction l as [|r l IH]; intros s; [done|]. cbn. destruct (IH (cancel_reader s r)) as (H1 & H2 & H3). rewrite H1, H2, H3.
  unfold cancel_reader. by destruct (s_reader_heap s !! r).
Qed.
Lemma revoke_stages_calm g l : forall s, inv s -> calm s (revoke_stages env g s l).1.
Proof.
  induction l as [|id l IH]; intros s Hi; [apply calm_refl|]. cbn [revoke_stages].
  match goal with |- calm s (let '(_, _) := ?x in _).1 => assert (calm s x.1 /\ inv x.1) as [H1 H2] end.
  { destruct (s_stages s !! id) as [st|] eqn:El; [|split; [apply calm_refl|done]]. destruct (_ && _); [|split; [apply calm_refl|done]].
    destruct (cancel_readers_frame (elements (st_readers st)) (retire s id)) as (F & H1 & H2).
    assert (inv (foldl cancel_reader (retire s id) (elements (st_readers st)))) as Hi1 by (eapply inv_frame; [by apply retire_stage_inv|done|done|done]).
    split; [|by apply cleanup_inv]. destruct (cancel_readers_same (elements (st_readers st)) (retire s id)) as (E1 & E2 & E3).
    assert (stage s id = Some st) as Es by (unfold stage; by rewrite El). unfold retire in *. rewrite Es in *.
    destruct (set_stage_facts s id st (st <| st_retired := true |>) Es) as (G1 & G2 & G3); [done|].
    eapply settled_calm; [apply cleanup_settled, Hi1| | |].
    - intros id' Hne. rewrite E1. by apply G1.
    - by rewrite E3.
    - intros id' st0 H0. destruct (G3 id' st0 H0) as (st1 & Hs1 & Hb). exists st1. split; [|done]. unfold stage in *. by rewrite E1, E2. }
  destruct (match s_stages s !! id with Some _ => _ | None => _ end) as [s1 e1]. specialize (IH s1 H2). destruct (revoke_stages env g s1 l). by eapply calm_trans.
Qed.
Lemma requests_calm (f : Store -> nat -> Store) l : (forall s rid, calm s (f s rid)) -> forall s, calm s (foldl f s l).
Proof. intros Hf. induction l as [|rid l IH]; intros s; [apply calm_refl|]. cbn. eapply calm_trans; [apply Hf|apply IH]. Qed.
Lemma revoke_request_calm g s rid : calm s (revoke_request g s rid).
Proof. unfold revoke_request. destruct (s_request_heap s !! rid); [|apply calm_refl]. destruct (bytes_eqb _ _); [apply stop_request_calm|apply calm_refl]. Qed.
Lemma shutdown_request_calm s rid : calm s (shutdown_request s rid).
Proof. unfold shutdown_request. destruct (s_request_heap s !! rid); [apply stop_request_calm|apply calm_refl]. Qed.
Lemma close_all_calm l : forall s, inv s -> calm s (close_all env s l).1.
Proof.
  induction l as [|r l IH]; intros s Hi; [apply calm_refl|]. cbn [close_all]. pose proof (close_inv env extra s r Hi) as H1. pose proof (close_calm s r Hi) as H2.
  destruct (closeLocked env s r) as [s1 e1]. specialize (IH s1 H1). destruct (close_all env s1 l). by eapply calm_trans.
Qed.

(** ** Shutdown *)

Lemma shutdown_stages_calm l : forall s, inv s -> calm s (shutdown_stages env s l).1 /\ inv (shutdown_stages env s l).1.
Proof.
  induction l as [|id l IH]; intros s Hi; [split; [apply calm_refl|done]|]. cbn [shutdown_stages].
  match goal with |- context [close_all env s ?x] => pose proof (close_all_calm x s Hi) as C1; pose proof (close_all_inv env extra x s Hi) as H1;
    destruct (close_all env s x) as [s1 e1] end. cbn [fst] in *.
  pose proof (retire_cleanup_calm s1 id H1) as C2. pose proof (cleanup_inv env extra _ id (retire_stage_inv env extra _ id H1)) as H2.
  destruct (cleanupLocked env (retire s1 id) id) as [s2 e2]. cbn [fst] in *. destruct (IH s2 H2) as [C3 H3].
  destruct (shutdown_stages env s2 l) as [s3 e3]. cbn [fst] in *. split; [|done]. eapply calm_trans; [exact C1|]. by eapply calm_trans.
Qed.
Lemma CloseStore_calm s : inv s -> calm s (CloseStore env s).1.
Proof.
  intros Hi. unfold CloseStore. destruct (s_closed s); [apply calm_refl|].
  set (s1 := foldl shutdown_request _ _). assert (calm s s1 /\ inv s1) as [C1 H1].
  { split; [eapply calm_trans; [|apply requests_calm, shutdown_request_calm]; by apply calm_same|].
    apply shutdown_requests_inv. eapply (inv_frame env extra s); [done|by split|done|done]. }
  destruct (shutdown_stages_calm (map_to_list (s_stages s1)).*1 s1 H1) as [C2 _]. destruct (shutdown_stages _ _ _) as [s2 e2]. cbn [fst] in *.
  cbn [call fst]. eapply calm_trans; [exact C1|]. eapply calm_trans; [exact C2|by apply calm_same].
Qed.

Context (random_distinct : forall i j, random env i = random env j -> i = j).

Lemma NewFile_calm s rid o pointer name media : inv s -> calm s (NewFile env s rid o pointer name media).1.
Proof.
  intros Hi. apply with_request_calm. intros r Hr. destruct (schemaAt _ _) as [node|]; [|apply calm_refl]. destruct (bool_decide _); [apply calm_refl|].
  destruct (bool_decide _); [apply calm_refl|]. destruct (_ <=? _); [apply calm_refl|].
  destruct (newStage _ _ _ _ _ _ _) as [s1 [id|e]] eqn:En; apply newStage_spec in En; pose proof (calm_new _ _ _ En Hi random_distinct) as C1; [|done].
  cbn [fst]. eapply calm_trans; [exact C1|]. eapply calm_trans; [|apply calm_request]. destruct En as (_ & _ & _ & _ & _ & t & st & Hs & _ & _ & Hf & _).
  apply (calm_insert _ _ id st (st <| st_request := Some rid |>)); [by rewrite Hs, lookup_insert_eq| |done|done|done|done].
  cbn. apply alter_insert_known. by rewrite Hs, lookup_insert_eq.
Qed.

Lemma made_calm s s1 id f : made_stage env s s1 (Ok id) -> inv s -> (forall st, same_bytes st (f st)) -> (forall st, st_retired (f st) = st_retired st) ->
  calm s (s1 <| s_stages ::= alter f id |>).
Proof.
  intros En Hi Hb Hr. pose proof (calm_new _ _ _ En Hi random_distinct) as C1. destruct En as (_ & _ & _ & _ & _ & t & st & Hs & _ & _ & Hf & _).
  eapply calm_trans; [exact C1|]. assert (s_stages s1 !! id = Some st) as Hl by (by rewrite Hs, lookup_insert_eq).
  apply (calm_insert _ _ id st (f st)); [done|by apply alter_insert_known|done|done|done|].
  intros [Hd _]. rewrite Hr in Hd. destruct Hf as (_ & _ & _ & _ & _ & _ & E & _). congruence.
Qed.
Lemma BeginOutput_calm s v ctx name media : inv s -> calm s (BeginOutput env s v ctx name media).1.
Proof.
  intros Hi. unfold BeginOutput. destruct (s_scope_heap s !! v) as [sc|] eqn:Ev; [|apply calm_refl]. destruct (sc_published sc); [apply calm_refl|].
  destruct (_ <=? _); [apply calm_refl|]. destruct (newStage _ _ _ _ _ _ _) as [s1 [id|e]] eqn:En; apply newStage_spec in En; cbn [fst];
    [|by apply (calm_new _ _ _ En Hi)]. eapply (calm_trans _ (s1 <| s_stages ::= alter (fun st => st <| st_scope := Some v |>) id |>)); [by apply made_calm|by apply calm_same].
Qed.
Lemma NewScratch_calm s ctx name media n : inv s -> calm s (NewScratch env s ctx name media n).1.
Proof.
  intros Hi. unfold NewScratch. destruct (n <? 0); [apply calm_refl|]. destruct (reserveLocked s n) as [s1 e1] eqn:Er. apply reserve_spec in Er.
  destruct e1; [subst; apply calm_refl|]. destruct Er as (-> & _ & Hq). destruct (newStage _ _ _ _ _ _ _) as [s2 r] eqn:En. apply newStage_spec, made_scratch in En.
  destruct r as [id|e]; cbn [fst]; [|by apply (calm_new _ _ _ En Hi)].
  eapply (calm_trans _ (s2 <| s_used ::= fun u => u - n |> <| s_stages ::= alter (fun st => st <| st_reserved := n |>) id |>)); [by apply made_calm|by apply calm_same].
Qed.
Lemma run_calm s op : inv s -> calm s (run env lib s op).
Proof.
  intros Hi. destruct op; cbn [run].
  - unfold Reserve. destruct (n <? 1); [apply calm_refl|]. destruct (_ <=? _); [apply calm_refl|]. destruct (reserveLocked s n) as [s1 e1] eqn:Er.
    apply reserve_spec in Er. destruct e1; [subst; apply calm_refl|]. destruct Er as (-> & _). by apply calm_same.
  - unfold Release. destruct (s_reservations s !! r); [by apply calm_same|apply calm_refl].
  - unfold retain. destruct (s_reservations s !! r); [destruct (_ && _)|]; by apply calm_same.
  - by apply Write_calm.
  - unfold CloseStage. destruct (stage s id) eqn:Es; [by apply seal_calm|apply calm_refl].
  - by apply Finish_calm.
  - by apply AbortStage_calm.
  - by apply close_calm.
  - unfold BeginInput. destruct (available s); [apply calm_refl|]. cbv zeta. repeat case_match; first [apply calm_refl|by apply calm_same].
  - by apply NewFile_calm.
  - by apply Complete_calm.
  - apply with_request_calm. intros r Hr. destruct (ValidateInput _ _ _ _) as [[m leaves]|]; [|apply calm_refl]. destruct (negb _); [apply calm_refl|].
    destruct (negb _); [apply calm_refl|apply calm_request].
  - apply with_request_calm. intros r Hr. destruct (bool_decide _); [apply calm_refl|]. by apply calm_same.
  - apply with_request_calm. intros r Hr. destruct (rq_files r !! _) as [id|]; [|apply calm_refl]. destruct (stage s id) as [st|] eqn:Es; [|apply calm_refl].
    destruct (_ || _); [apply calm_refl|]. destruct (_ || _ || _ || _); [apply calm_refl|]. by apply open_calm.
  - unfold AbortRequest. destruct (s_request_heap s !! rid); [|apply calm_refl]. destruct (bool_decide _); [apply abort_calm|apply calm_refl].
  - unfold ReleaseStopped. destruct (s_request_heap s !! rid); [|apply calm_refl]. destruct (bool_decide _); [by apply release_calm|apply calm_refl].
  - unfold Output. destruct (available s); [apply calm_refl|]. destruct (_ || _); [apply calm_refl|by apply calm_same].
  - by apply BeginOutput_calm.
  - by apply Retain_calm.
  - unfold OpenOutput. destruct (available s); [apply calm_refl|]. destruct (s_stages s !! id) as [st|] eqn:El; [|apply calm_refl].
    destruct (_ || _); [apply calm_refl|]. apply open_calm; [done|]. unfold stage. by rewrite El.
  - by apply Sweep_calm.
  - eapply calm_trans; [apply requests_calm, revoke_request_calm|]. apply revoke_stages_calm. by apply revoke_requests_inv.
  - by apply NewScratch_calm.
  - unfold BeginScratch. destruct (newStage _ _ _ _ _ _ _) as [s1 r] eqn:En. apply newStage_spec in En. by apply (calm_new _ _ _ En Hi).
  - by apply CloseStore_calm.
Qed.
End Lifetime.

Lemma runs_calm env lib (random_distinct : forall i j, random env i = random env j -> i = j) ops :
  forall extra s, inv env extra s -> calm s (foldl (run env lib) s ops).
Proof.
  induction ops as [|op ops IH]; intros extra s Hi; [apply calm_refl|]. cbn. eapply calm_trans; [by eapply run_calm|]. by eapply IH, run_inv.
Qed.
