(* ===== verification/Artifacts.v ===== *)
(** * The guarantees of the private artifact store
    The accounts, the lifetimes and the end of the store of [ArtifactStore], for every
    sequence of calls and every behaviour of the operating system, and what it promises
    about the files of a committed input. *)
From Stdlib Require Import ZArith Lia.
From stdpp Require Import base gmap sets list option strings.
From coqutil Require Import Datatypes.RecordSettersUsingExistingGetters.
From S2P Require Import Prelude Utf8 Sha256 Strconv Json JsonText Canonical GoStrings InputValue ValueFormat Schema Pointer Validation Publish ArtifactStore ArtifactInvariant ArtifactSafety.
Local Open Scope Z_scope.

Section Shutdown.
Context (env : environment) (extra : N).
Abbreviation inv := (inv env extra).

(** Readers are only lost and retirement is final on the way from [s] to [s']. *)
Definition shrinks (s s' : Store) : Prop :=
  forall id st', s_stages s' !! id = Some st' ->
    exists st, s_stages s !! id = Some st /\ st_readers st' ⊆ st_readers st /\ (st_retired st = true -> st_retired st' = true).
Lemma shrinks_refl s : shrinks s s.
Proof. intros id st Hs. by exists st. Qed.
Lemma shrinks_same s s' : s_stages s' = s_stages s -> shrinks s s'.
Proof. intros He id st. rewrite He. intros Hs. by exists st. Qed.
Lemma shrinks_trans a b c : shrinks a b -> shrinks b c -> shrinks a c.
Proof.
  intros H1 H2 id st3 H3. destruct (H2 id st3 H3) as (st2 & E2 & R2 & T2). destruct (H1 id st2 E2) as (st1 & E1 & R1 & T1).
  exists st1. split_and!; [done|set_solver|auto].
Qed.
Lemma shrinks_set s s' id st st' : stage s id = Some st -> s_stages s' = s_stages (set_stage s id st') ->
  st_readers st' ⊆ st_readers st -> (st_retired st = true -> st_retired st' = true) -> shrinks s s'.
Proof.
  intros Hs He Hr Ht id0 st0. rewrite He. unfold stage, set_stage in *. destruct (s_stages s !! id) as [st1|] eqn:El; [|intros H0; by exists st0].
  injection Hs as ->. cbn. intros [[<- <-]|[_ Hl]]%lookup_insert_Some; [by exists st|by exists st0].
Qed.
Lemma shrinks_delete s s' id : s_stages s' = delete id (s_stages s) -> shrinks s s'.
Proof. intros He id0 st0. rewrite He. intros [_ Hl]%lookup_delete_Some. by exists st0. Qed.

Lemma remove_facts s id st : exists s', (match call env s with
    | (s, Some _) => (poison s, Some "EXECUTION_FAILED"%string)
    | (s, None) => let s := s <| s_used ::= fun u => u - (st_size st + st_reserved st) |>
                       <| s_stages ::= delete id |> <| s_gone ::= insert id (st <| st_reserved := 0 |>) |> in
        (match st_request st with Some rid => releaseSlotLocked s rid | None => s end, None) end).1 = s' /\
    shrinks s s' /\ s_reader_heap s' = s_reader_heap s.
Proof.
  eexists. split; [done|]. cbn [call]. destruct (io_error env _); cbn [fst]; [split; [by apply shrinks_same|done]|].
  destruct (st_request st) as [rid|]; [|split; [by apply (shrinks_delete _ _ id)|done]].
  match goal with |- shrinks _ (releaseSlotLocked ?x _) /\ _ => pose proof (slot_stages x rid) as (H1 & _) end.
  split; [by apply (shrinks_delete _ _ id); rewrite H1|]. unfold releaseSlotLocked. by repeat case_match.
Qed.
Lemma cleanup_facts s id : shrinks s (cleanupLocked env s id).1 /\ s_reader_heap (cleanupLocked env s id).1 = s_reader_heap s.
Proof.
  unfold cleanupLocked. destruct (stage s id) as [st|] eqn:Es; [|split; [by apply shrinks_same|done]].
  destruct (_ || _); [split; [by apply shrinks_same|done]|]. destruct (st_file st).
  - destruct (call env s) as [s1 [e1|]] eqn:Ec; injection Ec as <- Ec; [split; [by apply shrinks_same|done]|].
    match goal with |- context [set_stage ?x id ?y] => set (s2 := set_stage x id y) end.
    assert (shrinks s s2 /\ s_reader_heap s2 = s_reader_heap s) as [S2 R2].
    { split; [eapply shrinks_trans; [by apply (shrinks_same s (s <| s_tick ::= S |>))|by eapply shrinks_set]|]. unfold s2, set_stage. by case_match. }
    destruct (s_stages s2 !! id); [|done]. destruct (remove_facts s2 id (st <| st_file := false |>)) as (s3 & <- & S3 & R3).
    split; [eapply shrinks_trans; [exact S2|exact S3]|etrans; [exact R3|exact R2]].
  - destruct (s_stages s !! id); [|split; [by apply shrinks_same|done]]. by destruct (remove_facts s id st) as (s3 & <- & S3 & R3).
Qed.
Lemma close_facts s r : inv s -> shrinks s (closeLocked env s r).1 /\
  (s_poisoned (closeLocked env s r).1 = false -> forall id st, s_stages (closeLocked env s r).1 !! id = Some st -> r ∉ st_readers st).
Proof.
  intros Hi. pose proof (close_inv env extra s r Hi) as Hi'. unfold closeLocked in *. destruct (s_reader_heap s !! r) as [rd|] eqn:Er; cycle 1.
  { split; [by apply shrinks_same|]. intros _ id st Hl Hr. destruct (v_held _ _ _ Hi _ _ _ Hl Hr) as [c Hc]. congruence. }
  destruct (rd_closed rd) eqn:Ec.
  { split; [by apply shrinks_same|]. intros _ id st Hl Hr. destruct (v_held _ _ _ Hi _ _ _ Hl Hr) as [c Hc]. rewrite Er in Hc. by injection Hc as ->. }
  destruct (call env (cancel s (rd_ctx rd))) as [s1 [e1|]] eqn:Eca; injection Eca as <- Eca; [split; [by apply shrinks_same|done]|].
  set (s2 := match stage _ _ with Some _ => _ | None => _ end) in *.
  assert (shrinks s s2 /\ s_reader_heap s2 !! r = Some {| rd_stage := rd_stage rd; rd_ctx := rd_ctx rd; rd_closed := true |}) as [S2 R2].
  { unfold s2. match goal with |- context [stage ?x ?y] => set (s1 := x); destruct (stage s1 y) as [st|] eqn:Es end.
    - split; [eapply shrinks_trans; [by apply (shrinks_same s s1)|]; eapply (shrinks_set s1 _ _ st); [exact Es|done|cbn; set_solver|done]|]. unfold set_stage. case_match; cbn; by rewrite lookup_insert_eq.
    - split; [by apply shrinks_same|]. cbn. by rewrite lookup_insert_eq. }
  destruct (cleanup_facts s2 (rd_stage rd)) as [S3 R3]. split; [by eapply shrinks_trans|]. intros _ id st Hl Hr.
  destruct (v_held _ _ _ Hi' _ _ _ Hl Hr) as [c Hc]. rewrite R3, R2 in Hc. by injection Hc.
Qed.
Lemma close_all_facts l : forall s, inv s -> shrinks s (close_all env s l).1 /\
  (s_poisoned (close_all env s l).1 = false -> forall id st r, r ∈ l -> s_stages (close_all env s l).1 !! id = Some st -> r ∉ st_readers st).
Proof.
  induction l as [|r l IH]; intros s Hi; [split; [by apply shrinks_same|set_solver]|]. cbn [close_all].
  pose proof (close_inv env extra s r Hi) as H1. destruct (close_facts s r Hi) as [S1 N1]. destruct (closeLocked env s r) as [s1 e1]. cbn [fst] in *.
  destruct (IH s1 H1) as [S2 N2]. pose proof (close_all_calm env extra l s1 H1) as C2. destruct (close_all env s1 l) as [s2 e2]. cbn [fst] in *.
  split; [by eapply shrinks_trans|]. intros Hp id st r' [->|Hr]%elem_of_cons Hl; [|by eapply N2].
  destruct (S2 id st Hl) as (st1 & E1 & R1 & _). destruct (s_poisoned s1) eqn:Ep; [by rewrite (ca_poisoned _ _ C2 Ep) in Hp|].
  pose proof (N1 eq_refl id st1 E1). set_solver.
Qed.
Lemma retire_shrinks s id : shrinks s (retire s id) /\ (forall st, s_stages (retire s id) !! id = Some st -> st_retired st = true).
Proof.
  unfold retire. destruct (stage s id) as [st|] eqn:Es; cycle 1.
  { split; [by apply shrinks_same|]. intros st Hl. unfold stage in Es. by rewrite Hl in Es. }
  split; [by eapply (shrinks_set s _ id st)|]. intros st1. unfold stage, set_stage in *. destruct (s_stages s !! id) eqn:El; cbn.
  - rewrite lookup_insert_eq. by intros [= <-].
  - intros Hl. congruence.
Qed.
Lemma shutdown_facts l : forall s, inv s -> shrinks s (shutdown_stages env s l).1 /\
  (s_poisoned (shutdown_stages env s l).1 = false -> forall id st, id ∈ l -> s_stages (shutdown_stages env s l).1 !! id = Some st -> dirty st).
Proof.
  induction l as [|id l IH]; intros s Hi; [split; [by apply shrinks_same|set_solver]|]. cbn [shutdown_stages].
  set (rs := match s_stages s !! id with Some _ => _ | None => _ end). destruct (close_all_facts rs s Hi) as [S1 N1].
  pose proof (close_all_inv env extra rs s Hi) as H1. destruct (close_all env s rs) as [s1 e1]. cbn [fst] in *.
  destruct (retire_shrinks s1 id) as [S2 T2]. destruct (cleanup_facts (retire s1 id) id) as [S3 _].
  pose proof (cleanup_inv env extra _ id (retire_stage_inv env extra _ id H1)) as H3. pose proof (retire_cleanup_calm env extra s1 id H1) as C3.
  destruct (cleanupLocked env (retire s1 id) id) as [s3 e3]. cbn [fst] in *. destruct (IH s3 H3) as [S4 N4].
  destruct (shutdown_stages_calm env extra l s3 H3) as [C4 _]. destruct (shutdown_stages env s3 l) as [s4 e4]. cbn [fst] in *.
  split; [by eapply shrinks_trans; [exact S1|]; eapply shrinks_trans; [exact S2|]; eapply shrinks_trans|].
  intros Hp id' st [->|Hin]%elem_of_cons Hl; [|by eapply N4]. destruct (S4 id st Hl) as (st3 & E3 & R3 & T3).
  destruct (S3 id st3 E3) as (st2 & E2 & R2 & T2'). destruct (S2 id st2 E2) as (st1 & E1 & R1 & _). destruct (S1 id st1 E1) as (st0 & E0 & R0 & _).
  assert (s_poisoned s1 = false) as Hp1 by (destruct (s_poisoned s1) eqn:Ep; [rewrite (ca_poisoned _ _ C4 (ca_poisoned _ _ C3 Ep)) in Hp|]; done).
  split; [apply T3, T2', T2, E2|]. apply set_eq. intros r. split; [|set_solver]. intros Hr.
  exfalso. apply (N1 Hp1 id st1 r); [|done|set_solver]. unfold rs. rewrite E0. apply elem_of_elements. set_solver.
Qed.
(** A store that closes cleanly has no stages left. *)
Lemma CloseStore_empties s : inv s -> (forall id st, s_stages s !! id = Some st -> ~ dirty st) -> s_closed s = false ->
  s_poisoned (CloseStore env s).1 = false -> s_stages (CloseStore env s).1 = ∅.
Proof.
  intros Hi Hd Hc. pose proof (CloseStore_calm env extra s Hi) as HC. unfold CloseStore in *. rewrite Hc in *. set (s1 := foldl shutdown_request _ _) in *.
  assert (inv s1) as H1 by (apply (shutdown_requests_inv env extra); eapply (inv_frame env extra s); [done|by split|done|done]).
  destruct (shutdown_facts (map_to_list (s_stages s1)).*1 s1 H1) as [S2 N2]. destruct (shutdown_stages env s1 _) as [s2 e2]. cbn [call fst] in *. cbn in *.
  intros Hp. apply map_empty. intros id. destruct (s_stages s2 !! id) as [st|] eqn:El; [exfalso|done].
  destruct (S2 id st El) as (st1 & E1 & _). destruct (ca_dirty _ _ HC) as [Hq|Hq]; cbn in Hq; [congruence|].
  destruct (Hq id st El) as (st0 & E0 & D0); [|by apply (Hd id st0)]. apply (N2 Hp id st); [|done]. apply list_elem_of_fmap.
  exists (id, st1). split; [done|]. by apply elem_of_map_to_list.
Qed.
End Shutdown.

(** ** Committed inputs *)

Definition committed (s : Store) (v : FileValue) : Prop :=
  exists st, stage s (fv_ID v) = Some st /\ st_ready st = true /\ fv_SizeBytes v = Z.of_nat (length (st_data st)) /\
    fv_SHA256 v = hex_sha256 (st_data st) /\ fv_Name v = in_name (st_info st) /\ fv_MIMEType v = in_mime (st_info st).

Lemma leaf_matches_spec env extra s r o seen leaf id : inv env extra s -> leaf_matches s r o seen leaf = Some id ->
  id = fv_ID (leaf_Value leaf) /\ (id ∉ seen) /\ fv_RequestID (leaf_Value leaf) = RequestID o /\ committed s (leaf_Value leaf).
Proof.
  intros Hi. unfold leaf_matches. destruct (rq_files r !! _) as [id'|]; [|done]. destruct (stage s id') as [st|] eqn:Es; [|done]. cbv zeta.
  destruct (_ || _) eqn:E1; [done|]. destruct (_ || _) eqn:E2 in |- *; [done|]. intros [= ->]. breflect.
  repeat match goal with H : bytes_eqb _ _ = true |- _ => apply bytes_eqb_true in H end. eapply stage_live in Es as Hl; [|exact Hi|left; done]. pose proof (v_stages _ _ _ Hi _ _ Hl) as [K1 _ _ _ _ _].
  split_and!; [done|done|done|]. exists st. split_and!; congruence.
Qed.
Lemma leaves_match_spec env extra s r o l : forall seen, inv env extra s -> leaves_match s r o seen l = true ->
  NoDup ((fun leaf => fv_ID (leaf_Value leaf)) <$> l) /\ (forall leaf, leaf ∈ l -> fv_ID (leaf_Value leaf) ∉ seen) /\
  Forall (fun leaf => fv_RequestID (leaf_Value leaf) = RequestID o /\ committed s (leaf_Value leaf)) l.
Proof.
  induction l as [|leaf l IH]; intros seen Hi; cbn [leaves_match]; [split; [constructor|split; [by intros leaf Hin%elem_of_nil|constructor]]|].
  destruct (leaf_matches s r o seen leaf) as [id|] eqn:El; [|done]. apply (leaf_matches_spec env extra) in El as (-> & Hn & Hr & Hc); [|done].
  intros H. apply IH in H as (H1 & H2 & H3); [|done]. split_and!.
  - cbn. constructor; [|done]. intros Hin. apply list_elem_of_fmap in Hin as (leaf' & Heq & Hin). apply (H2 leaf' Hin). rewrite <- Heq. left.
  - intros leaf' [->|Hin]%elem_of_cons; [done|]. intros Hs. apply (H2 _ Hin). by right.
  - by constructor.
Qed.
Lemma committed_calm s s' v : calm s s' -> committed s v -> committed s' v.
Proof.
  intros [_ _ H] (st & Hs & Hr & Hn & Hd & H1 & H2). destruct (H _ _ Hs) as (st' & Hs' & Hi' & Hb). destruct (Hb Hr) as (R & D & _).
  exists st'. split_and!; congruence.
Qed.

Section Guarantees.
Context (env : environment) (lib : engines) (o : Options).
Context (random_distinct : forall i j, random env i = random env j -> i = j) (Ho : options_valid o = true).

Lemma reached_inv ops : inv env (overcharge env lib (new_store o) ops) (foldl (run env lib) (new_store o) ops).
Proof. apply (runs_inv env lib ops random_distinct 0). by apply new_store_inv. Qed.
Lemma reached_clean ops id st : s_poisoned (foldl (run env lib) (new_store o) ops) = false ->
  s_stages (foldl (run env lib) (new_store o) ops) !! id = Some st -> ~ dirty st.
Proof.
  intros Hp Hs Hd. destruct (runs_calm env lib random_distinct ops 0 (new_store o)) as [_ [H|H] _]; [by apply new_store_inv|congruence|].
  destruct (H id st Hs Hd) as (st0 & H0 & _). cbn in H0. by rewrite lookup_empty in H0.
Qed.
Lemma overcharge_poisons ops : forall extra s, inv env extra s -> overcharge env lib s ops <> 0%N -> s_poisoned (foldl (run env lib) s ops) = true.
Proof.
  induction ops as [|op ops IH]; intros extra s Hi Hne; [done|]. cbn [foldl overcharge] in *. apply (run_inv env lib extra s op random_distinct) in Hi.
  destruct (decide (charged s op = 0%N)) as [E|E]; [rewrite E in Hne; by eapply IH|].
  apply (ca_poisoned _ _ (runs_calm env lib random_distinct ops _ _ Hi)). by destruct op.
Qed.
End Guarantees.

(** ** Guarantees *)

(** C20: whatever the callers, the operating system, the contexts and the clock do, the
    counters of the artifact store are exact and within their bounds: the bytes in use are
    those written and reserved by the stages in the table and by the explicit reservations,
    and exceed the quota at most by what saves whose clean-up failed have charged for the
    files they left, after which the store is poisoned and admits nothing more; stages and reservations together, and open
    readers, are at most [MaxObjects]; requests in progress are at most [MaxPending]. *)
Theorem store_accounting env lib o ops :
  (forall i j, random env i = random env j -> i = j) -> options_valid o = true ->
  let s := foldl (run env lib) (new_store o) ops in
  s_used s = msum (fun st => Z.of_nat (length (st_data st)) + st_reserved st) (s_stages s) + msum (fun n => n) (s_reservations s) /\
  0 <= s_used s <= QuotaBytes (s_options s) + Z.of_N (overcharge env lib (new_store o) ops) /\
  (overcharge env lib (new_store o) ops = 0%N \/ s_poisoned s = true) /\ Z.of_nat (size (s_stages s)) + Z.of_nat (size (s_reservations s)) <= MaxObjects (s_options s) /\
  s_readers s = msum leases (s_stages s) /\ s_readers s <= MaxObjects (s_options s) /\ Z.of_nat (size (s_requests s)) <= MaxPending (s_options s).
Proof.
  intros Hr Ho s. pose proof (reached_inv env lib o Hr Ho ops) as Hi. fold s in Hi. pose proof (v_objects _ _ _ Hi) as Hob.
  assert (msum weight (s_stages s) = msum (fun st => Z.of_nat (length (st_data st)) + st_reserved st) (s_stages s)) as E.
  { apply msum_agree. intros id st Hl. unfold weight. by rewrite (sk_size _ (v_stages _ _ _ Hi _ _ Hl)). }
  rewrite <- E. split_and!; [apply Hi| |apply Hi| |exact Hob|apply Hi|apply Hi|apply Hi].
  2: { destruct (decide (overcharge env lib (new_store o) ops = 0%N)) as [|Hne]; [by left|right].
       by apply (overcharge_poisons env lib Hr ops 0 (new_store o)); [apply new_store_inv|]. }
  rewrite (v_used _ _ _ Hi). apply Z.add_nonneg_nonneg; apply msum_nonneg.
  - intros id st Hl. unfold weight. pose proof (v_stages _ _ _ Hi _ _ Hl) as [K1 K2 _ _ _ _]. lia.
  - intros r n Hl. destruct (v_reservations _ _ _ Hi _ _ Hl) as [Hn _]. lia.
Qed.

(** C25: a completed artifact is immutable and outlives its readers: after any calls that
    follow, a completed stage has the same bytes, name, media type and owner, and the stage
    of a reader that is still open is in the table, completed and holding that reader. *)
Theorem artifact_immutable env lib o ops ops' :
  (forall i j, random env i = random env j -> i = j) -> options_valid o = true ->
  let s := foldl (run env lib) (new_store o) ops in let s' := foldl (run env lib) s ops' in
  (forall id st, stage s id = Some st -> st_ready st = true -> exists st', stage s' id = Some st' /\ st_ready st' = true /\
     st_data st' = st_data st /\ st_info st' = st_info st /\ metadata st' = metadata st) /\
  (forall r rd, s_reader_heap s' !! r = Some rd -> rd_closed rd = false -> exists st, s_stages s' !! rd_stage rd = Some st /\ r ∈ st_readers st /\ st_ready st = true).
Proof.
  intros Hr Ho s s'. pose proof (reached_inv env lib o Hr Ho ops) as Hi. pose proof (runs_inv env lib ops' Hr _ s Hi) as Hi'.
  destruct (runs_calm env lib Hr ops' _ s Hi) as [_ _ Hb]. split.
  - intros id st Hs Hst. destruct (Hb id st Hs) as (st' & Hs' & E & H). destruct (H Hst) as (H1 & H2 & H3). exists st'.
    split_and!; [done..|]. unfold metadata. by rewrite E, H2, H3.
  - intros r rd Hl Hc. destruct (v_open _ _ _ Hi' r rd Hl) as [_ H]. destruct (H Hc) as (st & Hs & Hin). exists st. split_and!; [done..|].
    apply (sk_readers _ (v_stages _ _ _ Hi' _ _ Hs)). set_solver.
Qed.

(** C26: nothing leaks: unless a failed clean-up has poisoned the store, every retired stage
    in the table is held by an open reader; and closing the store, unless it is poisoned,
    removes every stage, closes every reader, and leaves in use only the reservations that
    the callers have not released. *)
Theorem artifacts_reclaimed env lib o ops :
  (forall i j, random env i = random env j -> i = j) -> options_valid o = true ->
  let s := foldl (run env lib) (new_store o) ops in let s' := (CloseStore env s).1 in
  (s_poisoned s = false -> forall id st, s_stages s !! id = Some st -> st_retired st = true -> st_readers st <> ∅) /\
  (s_closed s = false -> s_poisoned s' = false -> s_stages s' = ∅ /\ s_used s' = msum (fun n => n) (s_reservations s') /\
     forall r rd, s_reader_heap s' !! r = Some rd -> rd_closed rd = true).
Proof.
  intros Hr Ho s s'. pose proof (reached_inv env lib o Hr Ho ops) as Hi. split.
  - intros Hp id st Hs Ht He. by apply (reached_clean env lib o Hr Ho ops id st Hp Hs).
  - intros Hc Hp. assert (s_stages s' = ∅) as E.
    { eapply CloseStore_empties; [exact Hi| |done|done]. intros id st Hs. apply (reached_clean env lib o Hr Ho ops id st); [|done].
      apply not_true_is_false. intros Ep. unfold s' in Hp. by rewrite (ca_poisoned _ _ (CloseStore_calm env _ s Hi) Ep) in Hp. }
    pose proof (CloseStore_inv env _ s Hi) as Hi'. fold s' in Hi'. split_and!; [done|by rewrite (v_used _ _ _ Hi'), E, msum_empty|].
    intros r rd Hl. destruct (rd_closed rd) eqn:Ec; [done|]. destruct (v_open _ _ _ Hi' r rd Hl) as [_ H].
    destruct (H Ec) as (st & Hs & _). rewrite E in Hs. by rewrite lookup_empty in Hs.
Qed.

(** C24: a committed input is fixed for good: when [Commit] accepts the parameters, every file
    leaf of the validated input names its own completed stage of this request, and after any
    calls that follow that stage still holds bytes of the size, name, media type and SHA-256
    digest that the validated input states. *)
Theorem committed_files_fixed env lib o ops ops' rid ow params s1 m :
  (forall i j, random env i = random env j -> i = j) -> options_valid o = true ->
  Commit env lib (foldl (run env lib) (new_store o) ops) rid ow params = (s1, Ok m) ->
  exists schema limits leaves, ValidateInput lib schema params limits = Ok (m, leaves) /\
    NoDup ((fun leaf => fv_ID (leaf_Value leaf)) <$> leaves) /\
    Forall (fun leaf => fv_RequestID (leaf_Value leaf) = RequestID ow /\ committed (foldl (run env lib) s1 ops') (leaf_Value leaf)) leaves.
Proof.
  intros Hr Ho E. pose proof (reached_inv env lib o Hr Ho ops) as Hi. set (s := foldl _ _ ops) in *.
  assert (run env lib s (OpCommit rid ow params) = s1) as Es1 by (cbn [run]; by rewrite E).
  assert (calm s (foldl (run env lib) s1 ops')) as C.
  { rewrite <- Es1. by eapply (runs_calm env lib Hr (OpCommit rid ow params :: ops')). }
  unfold Commit, with_request in E. destruct (s_request_heap s !! rid) as [r|]; [|done]. destruct (check _ _ _ _ _); [done|].
  destruct (ValidateInput _ _ _ _) as [[m' leaves]|] eqn:Ev; [|done]. destruct (negb _); [done|].
  destruct (leaves_match s r ow [] leaves) eqn:El; [|done]. injection E as _ <-. exists (rq_schema r), (rq_limits r), leaves.
  eapply (leaves_match_spec env) in El as (H1 & _ & H3); [|done]. split_and!; [done..|]. eapply Forall_impl; [exact H3|].
  intros leaf [H4 H5]. split; [done|]. by eapply committed_calm.
Qed.

(** ** Examples *)

Definition example_env : environment :=
  {| io_error := fun _ => None; io_count := fun _ => 5; ctx_state := fun _ _ => None; clock := fun _ => 0; random := fun n => lit "f" ++ [Z.of_nat n] |}.
Definition example_options : Options := {| QuotaBytes := 100; MaxPending := 1; MaxObjects := 4; TransferTimeout := 10 ^ 9 |}.
Definition example_owner : Owner :=
  {| RequestID := lit "r1"; CallerBinding := lit "c"; ow_Capability := lit "cap"; DefinitionHash := lit "h"; AuthGeneration := lit "g" |}.
Definition example_capability : capability := {| ca_Name := lit "cap"; ca_Input := example_schema; ca_Limits := example_limits |}.
Definition example_id : bytes := lit "f" ++ [1].
Definition example_upload : FileValue :=
  {| fv_Pointer := lit "/doc"; fv_ID := example_id; fv_Name := lit "a.txt"; fv_MIMEType := lit "text/plain";
     fv_SHA256 := hex_sha256 (lit "hello"); fv_RequestID := lit "r1"; fv_SizeBytes := 5 |}.
Definition example_params : list (bytes * value) := [(lit "doc", VFile example_upload); (lit "title", VStr (lit "hello"))].
(** One request uploads a file, is committed and started, and a handler reads the file. *)
Definition example_ops : list operation :=
  [OpBeginInput 0 None example_owner example_capability None; OpNewFile 1 example_owner (lit "/doc") (lit "a.txt") (lit "text/plain");
   OpWrite example_id (lit "hello"); OpCloseStage example_id; OpComplete 1 example_owner example_id 5 (hex_sha256 (lit "hello"))].
Definition example_more : list operation :=
  [OpCommit 1 example_owner example_params; OpStart 1 example_owner 0; OpOpenInput 1 example_owner example_upload].

Lemma example_random : forall i j, random example_env i = random example_env j -> i = j.
Proof. intros i j [= H]. lia. Qed.

(** A save reserves seven bytes; its clean-up fails and it measures 200 bytes, beyond the quota. *)
Definition example_failed_save : list operation := [OpReserve 7; OpRetainSave 6 200].
Lemma store_accounting_witness :
  let s := foldl (run example_env example_engines) (new_store example_options) (example_ops ++ example_more) in
  let s' := foldl (run example_env example_engines) (new_store example_options) (example_ops ++ example_more ++ example_failed_save) in
  let over := overcharge example_env example_engines (new_store example_options) in
  s_used s = 5 /\ 0 <= s_used s <= QuotaBytes (s_options s) + Z.of_N (over (example_ops ++ example_more)) /\ over (example_ops ++ example_more) = 0%N /\
  s_used s' = 205 /\ over (example_ops ++ example_more ++ example_failed_save) = 193%N /\ s_poisoned s' = true.
Proof.
  cbv zeta. split; [vm_compute; reflexivity|]. split; [|split; [vm_compute; reflexivity|split; [vm_compute; reflexivity|split; [vm_compute; reflexivity|]]]].
  - destruct (store_accounting example_env example_engines example_options (example_ops ++ example_more) example_random eq_refl) as (_ & H & _). exact H.
  - destruct (store_accounting example_env example_engines example_options (example_ops ++ example_more ++ example_failed_save) example_random eq_refl)
      as (_ & _ & [E|E] & _); [vm_compute in E; discriminate|exact E].
Defined.
Lemma artifact_immutable_witness : exists st,
  stage (foldl (run example_env example_engines) (foldl (run example_env example_engines) (new_store example_options) example_ops) (example_more ++ [OpWrite example_id (lit "x"); OpClose])) example_id
    = Some st /\ st_data st = lit "hello".
Proof.
  destruct (artifact_immutable example_env example_engines example_options example_ops (example_more ++ [OpWrite example_id (lit "x"); OpClose]))
    as [H _]; [exact example_random|reflexivity|].
  edestruct (H example_id) as (st & Hs & _ & Hd & _); [vm_compute; reflexivity|reflexivity|]. exists st. split; [exact Hs|exact Hd].
Defined.
Lemma artifacts_reclaimed_witness :
  let s := foldl (run example_env example_engines) (new_store example_options) (example_ops ++ example_more ++ [OpReserve 7]) in
  size (s_stages s) = 1%nat /\ s_stages (CloseStore example_env s).1 = ∅ /\ s_used (CloseStore example_env s).1 = 7.
Proof.
  destruct (artifacts_reclaimed example_env example_engines example_options (example_ops ++ example_more ++ [OpReserve 7]))
    as [_ H]; [exact example_random|reflexivity|].
  split; [vm_compute; reflexivity|]. split; [|vm_compute; reflexivity].
  destruct H as [H _]; [vm_compute; reflexivity|vm_compute; reflexivity|exact H].
Defined.
Lemma committed_files_fixed_witness : exists s1 m schema limits leaves,
  Commit example_env example_engines (foldl (run example_env example_engines) (new_store example_options) example_ops) 1%nat example_owner example_params = (s1, Ok m) /\
  ValidateInput example_engines schema example_params limits = Ok (m, leaves) /\
  Forall (fun leaf => committed (foldl (run example_env example_engines) s1 [OpStart 1 example_owner 0; OpOpenInput 1 example_owner example_upload; OpClose])
    (leaf_Value leaf)) leaves.
Proof.
  assert (exists s1 m, Commit example_env example_engines (foldl (run example_env example_engines) (new_store example_options) example_ops) 1%nat
    example_owner example_params = (s1, Ok m)) as (s1 & m & E) by (eexists _, _; vm_compute; reflexivity).
  destruct (committed_files_fixed example_env example_engines example_options example_ops
    [OpStart 1 example_owner 0; OpOpenInput 1 example_owner example_upload; OpClose] 1%nat example_owner example_params s1 m)
    as (schema & limits & leaves & H1 & _ & H3); [exact example_random|reflexivity|exact E|].
  exists s1, m, schema, limits, leaves. split; [exact E|]. split; [exact H1|]. eapply Forall_impl; [exact H3|]. intros leaf [_ H]. exact H.
Defined.
