(* ===== verification/GatewayCalls.v ===== *)
(** * Calls from the gateway to the agent
    Models the life of a request on one agent connection: [callAgentOn], [writeAgent],
    [readAgent], [requestAgentCancel] and [disconnectPending] of
    [internal/gateway/agent_conn.go], with the body leases of
    [internal/gateway/input_ingress.go]. Every critical section under [ac.mu], every
    channel operation and every write is a step of its own; [step] interleaves any number
    of callers with the writer and the reader, whose program counters are explicit.
    Contexts expire, writes fail and messages arrive when the environment chooses. *)
From Stdlib Require Import ZArith Lia.
From stdpp Require Import base gmap sets list option strings.
From coqutil Require Import Datatypes.RecordSettersUsingExistingGetters.
From S2P Require Import Prelude.
Local Open Scope nat_scope.
#[global] Arguments const {E} newValue / _.

(** ** Data *)

Definition agentWriteQueueSize : nat := 128.
Inductive send_phase := Queued | Sending | Sent | Canceling | PhaseCanceled.
#[export] Instance send_phase_eq_dec : EqDecision send_phase.
Proof. solve_decision. Defined.
Record requestSendState := { rs_phase : send_phase; cancelAfterSend : bool }.
#[export] Instance requestSendState_eq_dec : EqDecision requestSendState.
Proof. solve_decision. Defined.

Inductive call_outcome := not_started | unknown.
(** What the caller gets: the reply of the agent, numbered by the message that brought it,
    the reply made up for a lost connection, or a failure of the gateway. *)
Inductive call_reply := AgentReply (message : nat) | LostReply.
Inductive call_result := Answered (r : call_reply) | Failed (code : string) (o : call_outcome).
(** The errors that [callAgentOn] tells apart: a context error, or a failed connection. *)
Inductive write_error := ContextError | WireError.
#[export] Instance write_error_eq_dec : EqDecision write_error.
Proof. solve_decision. Defined.

(** [bodyLease]: [lease_held] is the [hold] of the queued write, not yet released. *)
Record bodyLease := { lease_refs : Z; lease_closed : bool; lease_held : bool }.

(** Where a caller is in [callAgentOn]. *)
Inductive caller_pc :=
| CEnqueue | CWriteResult | CResponse
| CRemove (close : bool) (code : string) (cancel : bool)   (* [removePending] next, then the connection may be closed *)
| CJudge (code : string) (cancel : bool)                   (* [agentTimeoutFor] or [agentOfflineFor] next *)
| CCancel (r : call_result) | CControl (r : call_result) | CForget (r : call_result) (close : bool)
| CFinish (r : call_reply)
| CReturned (r : call_result).
Record caller := {
  c_pc : caller_pc; c_ctx : bool; c_response : list call_reply; c_result : list (option write_error); c_lease : option bodyLease
}.

(** Where the writer is in [writeAgent]. *)
Inductive agent_write := WRequest (c : nat) | WControl (id : bytes).
Inductive writer_pc :=
| WTop | WSelect | WMark (c : nat) | WCheck (w : agent_write) | WPost (w : agent_write)
| WFail (w : agent_write) (e : write_error) (close : bool)
| WReply (w : agent_write) (e : write_error) (close : bool)
| WReplyOk (w : agent_write) | WMarkSent (c : nat) | WControlDone (id : bytes)
| WCancel (id : bytes) | WSendControl (id : bytes) | WForget (id : bytes) (close : bool)
| WDrain | WExited.
Inductive reader_pc := RLoop | RDeliver (c : nat) (message : nat) | RClosing (l : list nat) | RLost (l : list nat) | RExited.

Record agentConn := {
  pending : gmap bytes nat; sendStates : gmap bytes requestSendState; ac_closed : bool; ac_done : bool; conn_closed : bool;
  send : list nat; ac_control : list bytes; callers : gmap nat caller; writer : writer_pc; reader : reader_pc;
  wire : list agent_write; bodySlots : Z
}.
Definition newAgentConn : agentConn :=
  {| pending := ∅; sendStates := ∅; ac_closed := false; ac_done := false; conn_closed := false; send := []; ac_control := [];
     callers := ∅; writer := WTop; reader := RLoop; wire := []; bodySlots := 0 |}.

Section Calls.
(** The identifiers of the calls ([newID]) and the capacity of [Server.bodySlots]. *)
Context (ident : nat -> bytes) (slots : Z).

(** ** Operations under the mutex *)

Definition removePending (s : agentConn) (id : bytes) : agentConn := s <| pending ::= delete id |>.
Definition finishSendState (s : agentConn) (id : bytes) : agentConn := s <| sendStates ::= delete id |>.
Definition close_conn (close : bool) (s : agentConn) : agentConn := if close then s <| conn_closed := true |> else s.
Definition set_caller (s : agentConn) (c : nat) (k : caller) : agentConn := s <| callers ::= insert c k |>.
Definition goto (s : agentConn) (c : nat) (pc : caller_pc) : agentConn := s <| callers ::= alter (fun k => k <| c_pc := pc |>) c |>.

(** The phase decides the outcome, in [agentTimeoutFor] and [agentOfflineFor]. *)
Definition phase_outcome (s : agentConn) (id : bytes) : call_outcome :=
  match sendStates s !! id with
  | Some st => match rs_phase st with Queued | PhaseCanceled => not_started | _ => unknown end
  | None => unknown
  end.

(** The first part of [requestAgentCancel]; the flag says that a cancel frame must be sent. *)
Definition cancel_section (s : agentConn) (id : bytes) : agentConn * bool :=
  match sendStates s !! id with
  | None => (s, false)
  | Some st =>
      match rs_phase st with
      | Queued => (s <| sendStates ::= delete id |>, false)
      | Sending => (s <| sendStates ::= insert id {| rs_phase := Sending; cancelAfterSend := true |} |>, false)
      | Sent => (s <| sendStates ::= insert id {| rs_phase := Canceling; cancelAfterSend := cancelAfterSend st |} |>, true)
      | Canceling | PhaseCanceled => (s, false)
      end
  end.
(** Its second part: the cancel frame is queued, or given up because the connection is done
    or the queue is full, in which case the connection is closed. *)
Inductive control_choice := ControlQueued | ControlDone | ControlFull.
Definition control_section (s : agentConn) (id : bytes) (ch : control_choice) : option agentConn :=
  match ch with
  | ControlQueued => if length (ac_control s) <? agentWriteQueueSize then Some (s <| ac_control ::= fun l => l ++ [id] |>) else None
  | ControlDone => if ac_done s then Some s else None
  | ControlFull => if (length (ac_control s) <? agentWriteQueueSize) || ac_done s then None else Some s
  end.

(** ** Body leases *)

Definition drop_ref (s : agentConn) (c : nat) (k : caller) (l : bodyLease) : agentConn :=
  let refs := (lease_refs l - 1)%Z in
  let s := set_caller s c (k <| c_lease := Some (l <| lease_refs := refs |>) |>) in
  if (refs =? 0)%Z then s <| bodySlots ::= fun n => (n - 1)%Z |> else s.
(** [releaseInput], under its [sync.Once]. *)
Definition releaseInput (s : agentConn) (c : nat) : agentConn :=
  match callers s !! c with
  | Some k => match c_lease k with
              | Some l => if lease_held l then drop_ref s c k (l <| lease_held := false |>) else s
              | None => s
              end
  | None => s
  end.
(** [bodyLease.Close]. *)
Definition CloseLease (s : agentConn) (c : nat) : agentConn :=
  match callers s !! c with
  | Some k => match c_lease k with
              | Some l => if lease_closed l then s else drop_ref s c k (l <| lease_closed := true |>)
              | None => s
              end
  | None => s
  end.
Definition hold (l : bodyLease) : bodyLease := l <| lease_refs ::= Z.add 1 |> <| lease_held := true |>.

(** ** Channels of capacity one *)

Definition reply (s : agentConn) (c : nat) (r : call_reply) : option agentConn :=
  match callers s !! c with
  | Some k => if bool_decide (c_response k = []) then Some (set_caller s c (k <| c_response := [r] |>)) else None
  | None => None
  end.
Definition write_result (s : agentConn) (c : nat) (e : option write_error) : option agentConn :=
  match callers s !! c with
  | Some k => if bool_decide (c_result k = []) then Some (set_caller s c (k <| c_result := [e] |>)) else None
  | None => None
  end.

(** ** Callers *)

Inductive caller_action :=
| Begin (lease : bool) | Expire
| Enqueue | EnqueueDone | EnqueueExpired
| TakeResult | ResultDone | ResultExpired
| TakeResponse | ResponseExpired
| Continue | ChooseControl (ch : control_choice) | HandlerReturns.

(** The critical section that registers a call, after [acquireBody]; the queued write holds the lease. *)
Definition register (s : agentConn) (c : nat) (lease : option bodyLease) : agentConn :=
  let failed code := {| c_pc := CReturned (Failed code not_started); c_ctx := false; c_response := []; c_result := []; c_lease := lease |} in
  let id := ident c in
  if ac_closed s then set_caller s c (failed "AGENT_OFFLINE"%string)
  else if (128 <=? size (pending s)) || bool_decide (is_Some (pending s !! id)) || bool_decide (is_Some (sendStates s !! id))
  then set_caller s c (failed "BUSY"%string)
  else (set_caller s c {| c_pc := CEnqueue; c_ctx := false; c_response := []; c_result := []; c_lease := hold <$> lease |})
         <| pending ::= insert id c |> <| sendStates ::= insert id {| rs_phase := Queued; cancelAfterSend := false |} |>.
Definition begin_call (s : agentConn) (c : nat) (lease : bool) : option agentConn :=
  if bool_decide (is_Some (callers s !! c)) then None
  else if lease then
    if (bodySlots s <? slots)%Z then Some (register (s <| bodySlots ::= Z.add 1 |>) c (Some {| lease_refs := 1; lease_closed := false; lease_held := false |})) else None
  else Some (register s c None).

Definition caller_step (s : agentConn) (c : nat) (k : caller) (a : caller_action) : option agentConn :=
  let id := ident c in
  match a, c_pc k with
  | Expire, _ => Some (set_caller s c (k <| c_ctx := true |>))
  | Enqueue, CEnqueue => if length (send s) <? agentWriteQueueSize then Some ((goto s c CWriteResult) <| send ::= fun l => l ++ [c] |>) else None
  | EnqueueDone, CEnqueue => if ac_done s then Some (releaseInput (goto s c (CRemove false "AGENT_OFFLINE" false)) c) else None
  | EnqueueExpired, CEnqueue => if c_ctx k then Some (releaseInput (goto s c (CRemove false "EXECUTION_TIMEOUT" true)) c) else None
  | TakeResult, CWriteResult =>
      match c_result k with
      | [] => None
      | e :: l =>
          let s := set_caller s c (k <| c_result := l |>) in
          Some match e with
               | None => CloseLease (goto s c CResponse) c
               | Some ContextError => goto s c (CRemove false "EXECUTION_TIMEOUT" false)
               | Some WireError => goto s c (CRemove true "AGENT_OFFLINE" false)
               end
      end
  | ResultDone, CWriteResult => if ac_done s then Some (goto s c (CRemove false "AGENT_OFFLINE" false)) else None
  | ResultExpired, CWriteResult => if c_ctx k then Some (goto s c (CRemove false "EXECUTION_TIMEOUT" true)) else None
  | TakeResponse, CResponse =>
      match c_response k with [] => None | r :: l => Some (goto (set_caller s c (k <| c_response := l |>)) c (CFinish r)) end
  | ResponseExpired, CResponse => if c_ctx k then Some (goto s c (CRemove false "EXECUTION_TIMEOUT" true)) else None
  | Continue, CRemove close code cancel => Some (goto (close_conn close (removePending s id)) c (CJudge code cancel))
  | Continue, CJudge code cancel =>
      let r := Failed code (phase_outcome s id) in Some (goto s c (if cancel then CCancel r else CReturned r))
  | Continue, CCancel r => let '(s, control) := cancel_section s id in Some (goto s c (if control then CControl r else CReturned r))
  | ChooseControl ch, CControl r =>
      (fun s => goto s c (match ch with ControlQueued => CReturned r | ControlDone => CForget r false | ControlFull => CForget r true end)) <$> control_section s id ch
  | Continue, CForget r close => Some (goto (close_conn close (finishSendState s id)) c (CReturned r))
  | Continue, CFinish r => Some (goto (finishSendState s id) c (CReturned (Answered r)))
  | HandlerReturns, CReturned _ => Some (CloseLease s c)
  | _, _ => None
  end.

(** ** The writer *)

Inductive writer_action :=
| WContinue | PickControl | PickSend | PickDone | Look (expired : bool) | PostOk | PostFails (e : write_error) (written : bool)
| WChooseControl (ch : control_choice) | DrainSend | DrainControl | DrainEnd.
Definition write_id (w : agent_write) : bytes := match w with WRequest c => ident c | WControl id => id end.
Definition is_control (w : agent_write) : bool := match w with WRequest _ => false | WControl _ => true end.
Definition release_write (s : agentConn) (w : agent_write) : agentConn := match w with WRequest c => releaseInput s c | WControl _ => s end.
(** The result channel of a control write is not read. *)
Definition send_result (s : agentConn) (w : agent_write) (e : option write_error) : option agentConn :=
  match w with WRequest c => write_result s c e | WControl _ => Some s end.
Definition wgoto (s : agentConn) (pc : writer_pc) : agentConn := s <| writer := pc |>.
(** Whether the context of a write is done: that of its call, or the clean-up context of a cancel frame. *)
Definition write_expired (s : agentConn) (w : agent_write) (expired : bool) : bool :=
  match w with WRequest c => match callers s !! c with Some k => c_ctx k | None => false end | WControl _ => expired end.

Definition writer_step (s : agentConn) (a : writer_action) : option agentConn :=
  match a, writer s with
  | WContinue, WTop =>
      Some match ac_control s with id :: l => wgoto (s <| ac_control := l |>) (WCheck (WControl id)) | [] => wgoto s WSelect end
  | PickControl, WSelect => match ac_control s with id :: l => Some (wgoto (s <| ac_control := l |>) (WCheck (WControl id))) | [] => None end
  | PickSend, WSelect => match send s with c :: l => Some (wgoto (s <| send := l |>) (WMark c)) | [] => None end
  | PickDone, WSelect => if ac_done s then Some (wgoto s WDrain) else None
  | WContinue, WMark c =>
      Some match sendStates s !! ident c with
           | None => wgoto s (WReply (WRequest c) ContextError false)
           | Some st =>
               if bool_decide (rs_phase st = PhaseCanceled) then wgoto s (WReply (WRequest c) ContextError false)
               else wgoto (s <| sendStates ::= insert (ident c) {| rs_phase := Sending; cancelAfterSend := cancelAfterSend st |} |>) (WCheck (WRequest c))
           end
  | Look expired, WCheck w => Some (wgoto s (if write_expired s w expired then WFail w ContextError (is_control w) else WPost w))
  | PostOk, WPost w => Some (wgoto (release_write (s <| wire ::= fun l => l ++ [w] |>) w) (WReplyOk w))
  | PostFails e written, WPost w =>
      let s := (if written then s <| wire ::= fun l => l ++ [w] |> else s) in
      Some (wgoto (release_write s w) (WFail w e (is_control w || bool_decide (e = WireError))))
  | WContinue, WFail w e close => Some (wgoto (finishSendState s (write_id w)) (WReply w e close))
  | WContinue, WReply w e close =>
      (fun s => wgoto (close_conn close s) (if close then WDrain else WTop)) <$> send_result (release_write s w) w (Some e)
  | WContinue, WReplyOk w =>
      (fun s => wgoto s (match w with WRequest c => WMarkSent c | WControl id => WControlDone id end)) <$> send_result s w None
  | WContinue, WControlDone id => Some (wgoto (finishSendState s id) WTop)
  | WContinue, WMarkSent c =>
      Some match sendStates s !! ident c with
           | None => wgoto s WTop
           | Some st => wgoto (s <| sendStates ::= insert (ident c) {| rs_phase := Sent; cancelAfterSend := cancelAfterSend st |} |>)
                          (if cancelAfterSend st then WCancel (ident c) else WTop)
           end
  | WContinue, WCancel id => let '(s, control) := cancel_section s id in Some (wgoto s (if control then WSendControl id else WTop))
  | WChooseControl ch, WSendControl id =>
      (fun s => wgoto s (match ch with ControlQueued => WTop | ControlDone => WForget id false | ControlFull => WForget id true end)) <$> control_section s id ch
  | WContinue, WForget id close => Some (wgoto (close_conn close (finishSendState s id)) WTop)
  | DrainSend, WDrain => match send s with c :: l => write_result (releaseInput (s <| send := l |>) c) c (Some ContextError) | [] => None end
  | DrainControl, WDrain => match ac_control s with _ :: l => Some (s <| ac_control := l |>) | [] => None end
  | DrainEnd, WDrain => if bool_decide (send s = []) && bool_decide (ac_control s = []) then Some (wgoto s WExited) else None
  | _, _ => None
  end.

(** ** The reader *)

Inductive reader_action := Message (id : bytes) (message : nat) | Stop | RContinue.
Definition rgoto (s : agentConn) (pc : reader_pc) : agentConn := s <| reader := pc |>.
(** The critical section of [disconnectPending]; the replies follow. *)
Definition disconnectPending (s : agentConn) : agentConn :=
  if ac_closed s then rgoto (s <| conn_closed := true |>) RExited
  else rgoto (s <| ac_closed := true |> <| pending := ∅ |> <| sendStates := ∅ |>) (RClosing (map_to_list (pending s)).*2).
Definition reader_step (s : agentConn) (a : reader_action) : option agentConn :=
  match a, reader s with
  | Message id m, RLoop =>
      let s' := s <| pending ::= delete id |> <| sendStates ::= delete id |> in
      Some (rgoto s' (match pending s !! id with Some c => RDeliver c m | None => RLoop end))
  | RContinue, RDeliver c m => (fun s => rgoto s RLoop) <$> reply s c (AgentReply m)
  | Stop, RLoop => Some (disconnectPending s)
  | RContinue, RClosing l => Some (rgoto (s <| ac_done := true |>) (RLost l))
  | RContinue, RLost (c :: l) => (fun s => rgoto s (RLost l)) <$> reply s c LostReply
  | RContinue, RLost [] => Some (rgoto (s <| conn_closed := true |>) RExited)
  | _, _ => None
  end.

(** ** The connection *)

Inductive action := ACaller (c : nat) (a : caller_action) | AWriter (a : writer_action) | AReader (a : reader_action).
Definition step (s : agentConn) (a : action) : option agentConn :=
  match a with
  | ACaller c (Begin lease) => begin_call s c lease
  | ACaller c a => match callers s !! c with Some k => caller_step s c k a | None => None end
  | AWriter a => writer_step s a
  | AReader a => reader_step s a
  end.
Inductive reachable : agentConn -> Prop :=
| reach_new : reachable newAgentConn
| reach_step s a s' : reachable s -> step s a = Some s' -> reachable s'.
(** A schedule, for examples. *)
Fixpoint schedule (s : agentConn) (l : list action) : option agentConn :=
  match l with [] => Some s | a :: l => step s a ≫= fun s => schedule s l end.
End Calls.
