(* ===== verification/GatewayInvariant.v ===== *)
(** * What holds of every interleaving of gateway calls
    The invariant of [GatewayCalls]: for each call, where its write is, what its send state
    can be and what its channels hold; for the connection, its bounds. *)
From Stdlib Require Import ZArith Lia.
From stdpp Require Import base gmap sets list option strings.
From coqutil Require Import Datatypes.RecordSettersUsingExistingGetters.
From S2P Require Import Prelude GatewayCalls.
Local Open Scope nat_scope.

(** Where the writer is with the request of one call. *)
Inductive wstage := VOff | VMark | VCheck | VPost | VFail | VReply | VReplyOk | VMarkSent.
Definition wview_write (w : agent_write) (c : nat) (v : wstage) : wstage :=
  match w with WRequest c' => if decide (c' = c) then v else VOff | WControl _ => VOff end.
Definition wview (pc : writer_pc) (c : nat) : wstage :=
  match pc with
  | WMark c' => if decide (c' = c) then VMark else VOff
  | WCheck w => wview_write w c VCheck | WPost w => wview_write w c VPost
  | WFail w _ _ => wview_write w c VFail | WReply w _ _ => wview_write w c VReply | WReplyOk w => wview_write w c VReplyOk
  | WMarkSent c' => if decide (c' = c) then VMarkSent else VOff
  | _ => VOff
  end.
Definition in_hand (v : wstage) : nat := match v with VOff | VMarkSent => 0 | _ => 1 end.
(** Until the write is done, the writer also holds the lease of the body. *)
Definition holds (v : wstage) : nat := match v with VOff | VReplyOk | VMarkSent => 0 | _ => 1 end.
Definition stopped (s : agentConn) : Prop := match writer s with WDrain | WExited => True | _ => False end.
Definition count (c : nat) (l : list nat) : nat := count_occ Nat.eq_dec l c.
#[local] Arguments count : simpl never.
Definition is_enqueue (pc : caller_pc) : nat := match pc with CEnqueue => 1 | _ => 0 end.

(** The decision a caller has come to. *)
Definition decided (pc : caller_pc) : option call_result :=
  match pc with CCancel r | CControl r | CForget r _ | CReturned r => Some r | _ => None end.
(** [removePending] and the verdict are still to come; the flag says that the context expired. *)
Definition judging (pc : caller_pc) : option bool :=
  match pc with CRemove _ _ cancel | CJudge _ cancel => Some cancel | _ => None end.
Definition phase_is (st : option requestSendState) (p : send_phase) : Prop := rs_phase <$> st = Some p.

(** The invariant of one call: its send state, whether its request is on the wire, where the
    writer is with it, how often it is queued, and whether the writer has stopped. *)
Record call_ok (st : option requestSendState) (written : Prop) (v : wstage) (n : nat) (stop : Prop) (k : caller) : Prop := {
  k_tokens : is_enqueue (c_pc k) + n + in_hand v + length (c_result k) <= 1;
  k_queued : phase_is st Queued -> ~ written /\ (v = VOff \/ v = VMark);
  k_canceled : ~ phase_is st PhaseCanceled;
  k_reply : v = VReply -> st = None;
  k_failed : (exists e, Some e ∈ c_result k) \/ judging (c_pc k) = Some false -> st = None \/ stop;
  k_expired : judging (c_pc k) = Some true -> c_ctx k = true;
  k_decided : forall code, decided (c_pc k) = Some (Failed code not_started) ->
    ~ written /\ v <> VPost /\ (c_ctx k = true \/ stop \/ is_enqueue (c_pc k) + n + in_hand v = 0);
  k_lease : forall l, c_lease k = Some l -> lease_refs l = ((if lease_closed l then 0 else 1) + (if lease_held l then 1 else 0))%Z /\
    (lease_held l = true -> is_enqueue (c_pc k) + n + holds v = 1)
}.
(** A call that has not begun. *)
Definition unborn (st : option requestSendState) (written : Prop) (v : wstage) (n : nat) : Prop :=
  st = None /\ ~ written /\ v = VOff /\ n = 0.

Definition lost_to (pc : reader_pc) : list nat :=
  match pc with RDeliver c _ => [c] | RClosing l | RLost l => l | _ => [] end.
Definition closing (pc : reader_pc) : bool := match pc with RClosing _ | RLost _ => true | _ => false end.
Definition occupied (k : caller) : Z := match c_lease k with Some l => if (lease_refs l =? 0)%Z then 0 else 1 | None => 0 end.

Section Invariant.
Context (ident : nat -> bytes) (slots : Z) (ident_inj : forall i j, ident i = ident j -> i = j).
Abbreviation step := (step ident slots).

Definition ok_at (s : agentConn) (c : nat) (k : caller) : Prop :=
  call_ok (sendStates s !! ident c) (WRequest c ∈ wire s) (wview (writer s) c) (count c (send s)) (stopped s) k.
Definition unborn_at (s : agentConn) (c : nat) : Prop :=
  unborn (sendStates s !! ident c) (WRequest c ∈ wire s) (wview (writer s) c) (count c (send s)).
Definition awaited (s : agentConn) (c : nat) : nat :=
  (if decide (pending s !! ident c = Some c) then 1 else 0) + count c (lost_to (reader s)).

Record inv (s : agentConn) : Prop := {
  i_calls : forall c k, callers s !! c = Some k -> ok_at s c k;
  i_unborn : forall c, callers s !! c = None -> unborn_at s c;
  i_responses : forall c k, callers s !! c = Some k -> awaited s c + length (c_response k) <= 1;
  i_unawaited : forall c, callers s !! c = None -> awaited s c = 0;
  i_pending : forall id c, pending s !! id = Some c -> id = ident c;
  i_closed : ac_closed s = true -> sendStates s = ∅;
  i_done : ac_done s = true -> ac_closed s = true;
  i_closing : closing (reader s) = true -> ac_closed s = true;
  i_size : size (pending s) <= 128;
  i_send : length (send s) <= agentWriteQueueSize;
  i_control : length (ac_control s) <= agentWriteQueueSize;
  i_slots : bodySlots s = msum occupied (callers s)
}.

(** ** Frames *)

(** Nothing the invariant says of [c] has changed. *)
Definition same_for (s s' : agentConn) (c : nat) : Prop :=
  sendStates s' !! ident c = sendStates s !! ident c /\ (WRequest c ∈ wire s' <-> WRequest c ∈ wire s) /\
  wview (writer s') c = wview (writer s) c /\ count c (send s') = count c (send s) /\ (stopped s -> stopped s').
Lemma same_for_eq s s' c : sendStates s' = sendStates s -> wire s' = wire s -> writer s' = writer s -> send s' = send s -> same_for s s' c.
Proof. unfold same_for, stopped. intros -> -> -> ->. done. Qed.
Lemma ok_same s s' c k : same_for s s' c -> ok_at s c k -> ok_at s' c k.
Proof.
  intros (E1 & E2 & E3 & E4 & E5) [K1 K2 K3 K4 K5 K6 K7 K8]. unfold ok_at. rewrite E1, E3, E4. split; try done.
  - intros H. rewrite E2. auto.
  - intros H. destruct (K5 H); auto.
  - intros code H. rewrite E2. destruct (K7 code H) as (A & B & [C|[C|C]]); auto 6.
Qed.
Lemma unborn_same s s' c : same_for s s' c -> unborn_at s c -> unborn_at s' c.
Proof. intros (E1 & E2 & E3 & E4 & _) (H1 & H2 & H3 & H4). unfold unborn_at, unborn. rewrite E1, E2, E3, E4. done. Qed.

(** A step that concerns at most the call [c]. *)
Lemma calls_update s s' c k' : inv s -> callers s' = <[c := k']> (callers s) -> (forall c', c' <> c -> same_for s s' c') -> ok_at s' c k' ->
  (forall c0 k0, callers s' !! c0 = Some k0 -> ok_at s' c0 k0) /\ (forall c0, callers s' !! c0 = None -> unborn_at s' c0).
Proof.
  intros Hi Hc Hs Hk. rewrite Hc. split.
  - intros c0 k0 [[<- <-]|[Hne Hl]]%lookup_insert_Some; [done|]. eapply ok_same; [apply Hs; congruence|]. by apply Hi.
  - intros c0 [Hl Hne]%lookup_insert_None. eapply unborn_same; [apply Hs; congruence|]. by apply Hi.
Qed.
Lemma calls_keep s s' : inv s -> callers s' = callers s -> (forall c, same_for s s' c) ->
  (forall c0 k0, callers s' !! c0 = Some k0 -> ok_at s' c0 k0) /\ (forall c0, callers s' !! c0 = None -> unborn_at s' c0).
Proof.
  intros Hi Hc Hs. rewrite Hc. split; [intros c0 k0 Hl; eapply ok_same; [apply Hs|by apply Hi]|].
  intros c0 Hl. eapply unborn_same; [apply Hs|by apply Hi].
Qed.

(** ** Updates of one caller *)

Definition charge (s : agentConn) (c : nat) (k k' : caller) : agentConn :=
  s <| callers ::= insert c k' |> <| bodySlots ::= fun n => (n - occupied k + occupied k')%Z |>.
Lemma charge_charge s c k k1 k2 : charge (charge s c k k1) c k1 k2 = charge s c k k2.
Proof. destruct s. unfold charge, tset, set. cbn. f_equal; [apply insert_insert_eq|lia]. Qed.
Lemma charge_id s c k : callers s !! c = Some k -> charge s c k k = s.
Proof. destruct s. unfold charge, tset, set. cbn. intros H. f_equal; [by apply insert_id|lia]. Qed.
Lemma goto_charge s c k pc : callers s !! c = Some k -> goto s c pc = charge s c k (k <| c_pc := pc |>).
Proof.
  destruct s. unfold goto, charge, tset, set. cbn. intros H. f_equal; [|unfold occupied; cbn; lia]. apply map_eq. intros i.
  destruct (decide (i = c)) as [->|Hne]; [by rewrite lookup_alter_eq, lookup_insert_eq, H|by rewrite lookup_alter_ne, lookup_insert_ne].
Qed.
Lemma set_charge s c k k' : callers s !! c = Some k -> c_lease k' = c_lease k -> set_caller s c k' = charge s c k k'.
Proof. destruct s. unfold set_caller, charge, tset, set. cbn. intros H E. f_equal. unfold occupied. rewrite E. lia. Qed.

Definition lease_ok (k : caller) : Prop :=
  forall l, c_lease k = Some l -> lease_refs l = ((if lease_closed l then 0 else 1) + (if lease_held l then 1 else 0))%Z.
Definition unheld (l : bodyLease) : bodyLease :=
  if lease_held l then l <| lease_held := false |> <| lease_refs := (lease_refs l - 1)%Z |> else l.
Definition unleased (l : bodyLease) : bodyLease :=
  if lease_closed l then l else l <| lease_closed := true |> <| lease_refs := (lease_refs l - 1)%Z |>.
Lemma drop_charge s c k l l' : callers s !! c = Some k -> c_lease k = Some l -> (lease_refs l > 0)%Z -> lease_refs l' = lease_refs l ->
  drop_ref s c k l' = charge s c k (k <| c_lease := Some (l' <| lease_refs := (lease_refs l - 1)%Z |>) |>).
Proof.
  intros Hk Hl Hp Hr. unfold drop_ref, charge, set_caller, tset, set. rewrite Hr. destruct s. cbn. unfold occupied. cbn. rewrite Hl.
  replace (lease_refs l =? 0)%Z with false by (symmetry; apply Z.eqb_neq; lia). destruct (lease_refs l - 1 =? 0)%Z eqn:E; cbn; f_equal; lia.
Qed.
Lemma release_charge s c k : callers s !! c = Some k -> lease_ok k -> releaseInput s c = charge s c k (k <| c_lease := unheld <$> c_lease k |>).
Proof.
  intros Hk Ho. unfold releaseInput. rewrite Hk. destruct (c_lease k) as [l|] eqn:El.
  - specialize (Ho l El). cbn. unfold unheld. destruct (lease_held l) eqn:Eh.
    + rewrite (drop_charge s c k l) by (done || (destruct (lease_closed l); lia)). done.
    + rewrite <- El. destruct k. cbn in *. by rewrite charge_id.
  - cbn. rewrite <- El. destruct k. cbn in *. by rewrite charge_id.
Qed.
Lemma close_charge s c k : callers s !! c = Some k -> lease_ok k -> CloseLease s c = charge s c k (k <| c_lease := unleased <$> c_lease k |>).
Proof.
  intros Hk Ho. unfold CloseLease. rewrite Hk. destruct (c_lease k) as [l|] eqn:El.
  - specialize (Ho l El). cbn. unfold unleased. destruct (lease_closed l) eqn:Eh.
    + rewrite <- El. destruct k. cbn in *. by rewrite charge_id.
    + rewrite (drop_charge s c k l) by (done || (destruct (lease_held l); lia)). done.
  - cbn. rewrite <- El. destruct k. cbn in *. by rewrite charge_id.
Qed.
Lemma charge_lookup s c k k' : callers (charge s c k k') !! c = Some k'.
Proof. apply lookup_insert_eq. Qed.

(** ** Steps that keep the invariant *)

(** The parts of the connection that only the reader and the registration change. *)
Record quiet (s s' : agentConn) : Prop := {
  q_reader : reader s' = reader s;
  q_pending : pending s' = pending s;
  q_closed : ac_closed s' = ac_closed s;
  q_done : ac_done s' = ac_done s;
  q_states : ac_closed s' = true -> sendStates s' = ∅;
  q_send : length (send s') <= agentWriteQueueSize;
  q_control : length (ac_control s') <= agentWriteQueueSize
}.
Lemma inv_one s s' c k k' : inv s -> callers s !! c = Some k -> callers s' = <[c := k']> (callers s) ->
  bodySlots s' = (bodySlots s - occupied k + occupied k')%Z -> length (c_response k') <= length (c_response k) -> quiet s s' ->
  (forall c', c' <> c -> same_for s s' c') -> ok_at s' c k' -> inv s'.
Proof.
  intros Hi Hk Hc Hb Hr [Q1 Q2 Q3 Q4 Q5 Q6 Q7] Hs Ho. destruct (calls_update s s' c k' Hi Hc Hs Ho) as [U1 U2].
  assert (forall c0, awaited s' c0 = awaited s c0) as Ha by (intros c0; unfold awaited; by rewrite Q1, Q2).
  split; try done; rewrite ?Q1, ?Q2, ?Q3, ?Q4; try apply Hi.
  - intros c0 k0. rewrite Hc, Ha. intros [[<- <-]|[Hne Hl]]%lookup_insert_Some; [|by apply Hi]. pose proof (i_responses _ Hi c k Hk). lia.
  - intros c0. rewrite Hc, Ha. intros [Hl Hne]%lookup_insert_None. by apply Hi.
  - rewrite Hb, Hc, (msum_update occupied _ c k k') by done. rewrite (i_slots _ Hi). done.
Qed.
Lemma inv_none s s' : inv s -> callers s' = callers s -> bodySlots s' = bodySlots s -> quiet s s' -> (forall c, same_for s s' c) -> inv s'.
Proof.
  intros Hi Hc Hb [Q1 Q2 Q3 Q4 Q5 Q6 Q7] Hs. destruct (calls_keep s s' Hi Hc Hs) as [U1 U2].
  assert (forall c0, awaited s' c0 = awaited s c0) as Ha by (intros c0; unfold awaited; by rewrite Q1, Q2).
  split; try done; rewrite ?Q1, ?Q2, ?Q3, ?Q4, ?Hc, ?Hb; try apply Hi.
  - intros c k. rewrite Ha. by apply Hi.
  - intros c. rewrite Ha. by apply Hi.
Qed.
Lemma quiet_refl s : inv s -> quiet s s.
Proof. intros Hi. split; try done; apply Hi. Qed.
Lemma charge_inv s c k k' : inv s -> callers s !! c = Some k -> length (c_response k') <= length (c_response k) -> ok_at s c k' -> inv (charge s c k k').
Proof.
  intros Hi Hk Hr Ho. eapply (inv_one s _ c k k'); [done|done|done|done|done|split; try done; apply Hi| |exact Ho]. intros. by apply same_for_eq.
Qed.

(** Send states only lose entries and move away from the queued phase. *)
Definition weaker (st st' : option requestSendState) : Prop :=
  (st = None -> st' = None) /\ (phase_is st' Queued -> phase_is st Queued) /\ (phase_is st' PhaseCanceled -> phase_is st PhaseCanceled).
Lemma weaker_refl st : weaker st st.
Proof. done. Qed.
Lemma weaker_None st : weaker st None.
Proof. done. Qed.
Lemma states_inv s f : inv s -> (forall id, weaker (sendStates s !! id) (f (sendStates s) !! id)) -> inv (s <| sendStates ::= f |>).
Proof.
  intros Hi Hm. split; try apply Hi.
  - intros c k Hk. pose proof (i_calls _ Hi c k Hk) as [K1 K2 K3 K4 K5 K6 K7 K8]. destruct (Hm (ident c)) as (M1 & M2 & M3). split; cbn; try done; auto.
    intros H. destruct (K5 H); auto.
  - intros c Hc. destruct (i_unborn _ Hi c Hc) as (U1 & U2). split; [|done]. by apply (Hm (ident c)).
  - cbn. intros Hc. apply map_empty. intros id. apply (Hm id). rewrite (i_closed _ Hi Hc). apply lookup_empty.
Qed.
Lemma weaker_delete (m : gmap bytes requestSendState) id0 id : weaker (m !! id) (delete id0 m !! id).
Proof. destruct (decide (id = id0)) as [->|Hne]; [by rewrite lookup_delete_eq|by rewrite lookup_delete_ne]. Qed.
Lemma weaker_insert (m : gmap bytes requestSendState) id0 st id : is_Some (m !! id0) -> rs_phase st <> Queued -> rs_phase st <> PhaseCanceled ->
  weaker (m !! id) (<[id0 := st]> m !! id).
Proof.
  intros [st0 Hs] Hq Hp. destruct (decide (id = id0)) as [->|Hne]; [|by rewrite lookup_insert_ne]. rewrite lookup_insert_eq, Hs.
  split; [done|]. split; intros [= E]; congruence.
Qed.
Lemma finish_inv s id : inv s -> inv (finishSendState s id).
Proof. intros Hi. apply (states_inv s (delete id) Hi). intros. apply weaker_delete. Qed.
Lemma cancel_inv s id : inv s -> inv (cancel_section s id).1.
Proof.
  intros Hi. unfold cancel_section. destruct (sendStates s !! id) as [st|] eqn:Es; [|done]. destruct (rs_phase st); cbn [fst]; try done.
  - by apply finish_inv.
  - apply (states_inv s (insert id _) Hi). intros. by apply weaker_insert.
  - apply (states_inv s (insert id _) Hi). intros. by apply weaker_insert.
Qed.
Lemma cancel_callers s id : callers (cancel_section s id).1 = callers s.
Proof. unfold cancel_section. by repeat case_match. Qed.
Lemma remove_inv s id : inv s -> inv (removePending s id).
Proof.
  intros Hi. assert (forall c, awaited (removePending s id) c <= awaited s c) as Ha.
  { intros c. unfold awaited. cbn. destruct (decide (delete id (pending s) !! ident c = Some c)) as [E|]; [|lia].
    apply lookup_delete_Some in E as [_ E]. rewrite decide_True by done. lia. }
  split; try apply Hi.
  - intros c k Hk. pose proof (i_responses _ Hi c k Hk). specialize (Ha c). lia.
  - intros c Hc. pose proof (i_unawaited _ Hi c Hc). specialize (Ha c). lia.
  - cbn. intros id' c [_ H]%lookup_delete_Some. by apply Hi.
  - cbn. pose proof (i_size _ Hi). pose proof (map_subseteq_size _ _ (delete_subseteq (pending s) id)). lia.
Qed.
Lemma close_conn_inv b s : inv s -> inv (close_conn b s).
Proof. intros Hi. destruct b; [|done]. split; apply Hi. Qed.
Lemma control_inv s id ch s' : inv s -> control_section s id ch = Some s' -> inv s' /\ callers s' = callers s /\ sendStates s' = sendStates s.
Proof.
  intros Hi. unfold control_section. destruct ch; [|by case_match; intros [= <-]..]. destruct (_ <? _) eqn:El; intros [= <-]. split; [|done].
  apply Nat.ltb_lt in El. split; try apply Hi. cbn. rewrite length_app. cbn. lia.
Qed.

(** ** Callers *)

Lemma ok_lease s c k : ok_at s c k -> lease_ok k.
Proof. intros K l Hl. by apply (k_lease _ _ _ _ _ _ K). Qed.
Lemma unheld_ok k l : lease_ok k -> unheld <$> c_lease k = Some l ->
  lease_refs l = ((if lease_closed l then 0 else 1) + (if lease_held l then 1 else 0))%Z /\ lease_held l = false.
Proof.
  intros Ho. destruct (c_lease k) as [l0|] eqn:El; [|done]. intros [= <-]. specialize (Ho l0 El). unfold unheld.
  destruct (lease_held l0) eqn:Eh; cbn; [split; [lia|done]|]. rewrite Eh. done.
Qed.
Lemma unleased_ok k l : lease_ok k -> unleased <$> c_lease k = Some l ->
  lease_refs l = ((if lease_closed l then 0 else 1) + (if lease_held l then 1 else 0))%Z /\ exists l0, c_lease k = Some l0 /\ lease_held l = lease_held l0.
Proof.
  intros Ho. destruct (c_lease k) as [l0|] eqn:El; [|done]. intros [= <-]. specialize (Ho l0 El). unfold unleased.
  destruct (lease_closed l0) eqn:Eh; cbn; [rewrite Eh|split; [lia|]]; eauto.
Qed.

(** A caller moves on, its write aside. *)
Record moves (s : agentConn) (c : nat) (k k' : caller) : Prop := {
  m_response : length (c_response k') <= length (c_response k);
  m_enqueue : is_enqueue (c_pc k') = 0;
  m_results : length (c_result k') <= length (c_result k) /\ forall e, e ∈ c_result k' -> e ∈ c_result k;
  m_ctx : c_ctx k = true -> c_ctx k' = true;
  m_failed : judging (c_pc k') = Some false -> sendStates s !! ident c = None \/ stopped s;
  m_expired : judging (c_pc k') = Some true -> c_ctx k' = true;
  m_decided : forall code, decided (c_pc k') = Some (Failed code not_started) -> decided (c_pc k) = Some (Failed code not_started) \/
    phase_is (sendStates s !! ident c) Queued /\ (c_ctx k' = true \/ stopped s);
  m_lease : (c_lease k' = c_lease k \/ c_lease k' = unleased <$> c_lease k) /\ is_enqueue (c_pc k) = 0 \/ c_lease k' = unheld <$> c_lease k
}.
Lemma moves_inv s c k k' : inv s -> callers s !! c = Some k -> moves s c k k' -> inv (charge s c k k').
Proof.
  intros Hi Hk [M1 M2 [M3 M3'] M4 M5 M6 M7 M8]. apply charge_inv; [done..|]. pose proof (i_calls _ Hi c k Hk) as K. pose proof (ok_lease _ _ _ K) as Ho.
  destruct K as [K1 K2 K3 K4 K5 K6 K7 K8]. split; try done.
  - lia.
  - intros [[e He]|H]; [|by apply M5]. apply K5. left. exists e. by apply M3'.
  - intros code H. destruct (M7 code H) as [H'|[H1 H2]].
    + destruct (K7 code H') as (A & B & [C|[C|C]]); split_and!; auto. right. right. lia.
    + destruct (K2 H1) as [A B]. split_and!; [done|destruct B; congruence|tauto].
  - intros l Hl. destruct M8 as [[[E|E] E0]|E]; rewrite E in Hl.
    + destruct (K8 l Hl) as [A B]. split; [done|]. intros H. specialize (B H). lia.
    + destruct (unleased_ok k l Ho Hl) as (A & l0 & Hl0 & E1). split; [done|]. rewrite E1. intros H. destruct (K8 l0 Hl0) as [_ B]. specialize (B H). lia.
    + destruct (unheld_ok k l Ho Hl) as [A B]. split; [done|]. congruence.
Qed.
Lemma done_gone s c : inv s -> ac_done s = true -> sendStates s !! ident c = None.
Proof. intros Hi Hd. rewrite (i_closed _ Hi (i_done _ Hi Hd)). apply lookup_empty. Qed.
Lemma phase_outcome_queued s c k : inv s -> callers s !! c = Some k -> phase_outcome s (ident c) = not_started -> phase_is (sendStates s !! ident c) Queued.
Proof.
  intros Hi Hk. pose proof (k_canceled _ _ _ _ _ _ (i_calls _ Hi c k Hk)) as Hn. unfold phase_outcome, phase_is in *.
  destruct (sendStates s !! ident c) as [st|]; [|done]. cbn in *. by destruct (rs_phase st).
Qed.

Lemma goto_inv s c k pc : inv s -> callers s !! c = Some k -> moves s c k (k <| c_pc := pc |>) -> inv (goto s c pc).
Proof. intros Hi Hk M. rewrite (goto_charge s c k) by done. by apply moves_inv. Qed.
Lemma enqueue_write_inv s c k : inv s -> callers s !! c = Some k -> c_pc k = CEnqueue -> length (send s) < agentWriteQueueSize ->
  inv ((goto s c CWriteResult) <| send ::= fun l => l ++ [c] |>).
Proof.
  intros Hi Hk Ep Hl. rewrite (goto_charge s c k) by done. pose proof (i_calls _ Hi c k Hk) as [K1 K2 K3 K4 K5 K6 K7 K8]. rewrite Ep in *. cbn in K1.
  apply (inv_one s _ c k (k <| c_pc := CWriteResult |>)); [done|done|done|done|done| | |].
  - split; try done; try apply Hi. cbn. rewrite length_app. cbn. lia.
  - intros c' Hne. unfold same_for. cbn. split_and!; try done. unfold count. rewrite count_occ_app. cbn. destruct (Nat.eq_dec c c'); [congruence|lia].
  - unfold ok_at. cbn. unfold count in *. rewrite count_occ_app. cbn. destruct (Nat.eq_dec c c); [|done]. split; cbn; try done; [lia|].
    intros l El. destruct (K8 l El) as [A B]. split; [done|]. intros H. specialize (B H). cbn in B. lia.
Qed.
Lemma goto_release s c k pc : callers s !! c = Some k -> lease_ok k ->
  releaseInput (goto s c pc) c = charge s c k (k <| c_pc := pc |> <| c_lease := unheld <$> c_lease k |>).
Proof.
  intros Hk Ho. rewrite (goto_charge s c k) by done. by rewrite (release_charge _ c (k <| c_pc := pc |>)), charge_charge by (done || apply charge_lookup).
Qed.
Ltac move_solve := split; cbn; repeat match goal with H : c_pc ?k = _ |- context [c_pc ?k] => rewrite H end; try done; auto.
Lemma caller_step_inv s c k a s' : inv s -> callers s !! c = Some k -> caller_step ident s c k a = Some s' -> inv s'.
Proof.
  intros Hi Hk. pose proof (i_calls _ Hi c k Hk) as K. pose proof (ok_lease _ _ _ K) as Ho. pose proof (done_gone s c Hi) as Hd.
  pose proof (phase_outcome_queued s c k Hi Hk) as Hq. destruct K as [K1 K2 K3 K4 K5 K6 K7 K8].
  destruct a, (c_pc k) eqn:Ep; unfold caller_step; rewrite ?Ep; try done.
  all: try (intros [= <-]; rewrite (set_charge s c k) by done; apply charge_inv; [done..|];
    split; cbn; rewrite ?Ep; try done; auto; intros code H; destruct (K7 code H) as (A & B & _); split_and!; auto).
  - destruct (_ <? _) eqn:El; intros [= <-]. apply Nat.ltb_lt in El. by eapply enqueue_write_inv.
  - destruct (ac_done s) eqn:Ed; intros [= <-]. rewrite (goto_release s c k) by done. apply moves_inv; [done|done|]. move_solve.
  - destruct (c_ctx k) eqn:Ec; intros [= <-]. rewrite (goto_release s c k) by done. apply moves_inv; [done|done|]. move_solve.
  - destruct (c_result k) as [|e l] eqn:Er; [done|]. intros [= <-]. rewrite (set_charge s c k) by done.
    assert (forall e', e = Some e' -> sendStates s !! ident c = None \/ stopped s) as Hf by (intros e' ->; apply K5; left; exists e'; left).
    destruct e as [e|].
    + specialize (Hf e eq_refl). destruct e; rewrite (goto_charge _ c _ _ (charge_lookup _ _ _ _)), charge_charge; (apply moves_inv; [done|done|]); move_solve; rewrite Er; cbn; (split; [lia|]); intros; by right.
    + rewrite (goto_charge _ c _ _ (charge_lookup _ _ _ _)), charge_charge, (close_charge _ c _ (charge_lookup _ _ _ _)), charge_charge by done.
      apply moves_inv; [done|done|]. move_solve. rewrite Er; cbn; (split; [lia|]); intros; by right.
  - destruct (ac_done s) eqn:Ed; intros [= <-]. apply (goto_inv _ _ k); [done|done|]. move_solve.
  - destruct (c_ctx k) eqn:Ec; intros [= <-]. apply (goto_inv _ _ k); [done|done|]. move_solve.
  - destruct (c_response k) as [|r l] eqn:Er; [done|]. intros [= <-]. rewrite (set_charge s c k) by done.
    rewrite (goto_charge _ c _ _ (charge_lookup _ _ _ _)), charge_charge. apply moves_inv; [done|done|]. move_solve. rewrite Er. cbn. lia.
  - destruct (c_ctx k) eqn:Ec; intros [= <-]. apply (goto_inv _ _ k); [done|done|]. move_solve.
  - intros [= <-]. assert (inv (close_conn close (removePending s (ident c)))) as Hi' by (by apply close_conn_inv, remove_inv).
    apply (goto_inv _ _ k); [done|by destruct close|]. destruct close, cancel; move_solve; intros _; by apply K5; right.
  - intros [= <-]. apply (goto_inv _ _ k); [done|done|]. destruct cancel; move_solve; intros ? [= _ Ho']; right; (split; [by apply Hq|]);
      [by left; apply K6|right]. destruct (K5 (or_intror eq_refl)) as [E|E]; [|done]. apply Hq in Ho'. by rewrite E in Ho'.
  - destruct (cancel_section s (ident c)) as [s1 control] eqn:Ec. intros [= <-]. pose proof (cancel_inv s (ident c) Hi) as Hi'. rewrite Ec in Hi'.
    apply (goto_inv _ _ k); [done| |destruct control; move_solve]. pose proof (cancel_callers s (ident c)) as E. rewrite Ec in E. cbn in E. by rewrite E.
  - intros [= <-]. assert (inv (close_conn close (finishSendState s (ident c)))) as Hi' by (by apply close_conn_inv, finish_inv).
    apply (goto_inv _ _ k); [done|by destruct close|]. move_solve.
  - intros [= <-]. apply (goto_inv _ _ k); [by apply finish_inv|done|]. move_solve.
  - destruct (control_section s (ident c) ch) as [s1|] eqn:Ec; [|done]. intros [= <-]. destruct (control_inv s (ident c) ch s1 Hi Ec) as (Hi' & E & _).
    apply (goto_inv _ _ k); [done|by rewrite E|]. destruct ch; move_solve.
  - intros [= <-]. rewrite (close_charge s c k) by done. apply moves_inv; [done|done|]. move_solve.
Qed.

(** ** New calls *)

Lemma born_ok s c k s' : inv s -> callers s !! c = None -> callers s' = <[c := k]> (callers s) -> c_result k = [] ->
  wire s' = wire s -> writer s' = writer s -> send s' = send s -> (forall c', c' <> c -> sendStates s' !! ident c' = sendStates s !! ident c') ->
  ~ phase_is (sendStates s' !! ident c) PhaseCanceled -> judging (c_pc k) = None -> (forall l, c_lease k = Some l -> lease_refs l =
    ((if lease_closed l then 0 else 1) + (if lease_held l then 1 else 0))%Z /\ (lease_held l = true -> is_enqueue (c_pc k) = 1)) ->
  (forall code, decided (c_pc k) = Some (Failed code not_started) -> is_enqueue (c_pc k) = 0) ->
  (forall c0 k0, callers s' !! c0 = Some k0 -> ok_at s' c0 k0) /\ (forall c0, callers s' !! c0 = None -> unborn_at s' c0).
Proof.
  intros Hi Hn Hc Hr Hw Hwr Hs Hst Hp Hj Hl Hd. apply (calls_update s s' c k Hi Hc).
  - intros c' Hne. unfold same_for, stopped. rewrite Hw, Hwr, Hs, (Hst c' Hne). done.
  - destruct (i_unborn _ Hi c Hn) as (U1 & U2 & U3 & U4). unfold ok_at, stopped. rewrite Hw, Hwr, Hs, U3, U4. split; rewrite ?Hr; cbn; try done; auto.
    + destruct (c_pc k); cbn; lia.
    + intros [[e He]|H]; [by apply elem_of_nil in He|congruence].
    + rewrite Hj. done.
    + intros code H. split_and!; [done|done|]. right. right. rewrite (Hd code H). lia.
    + intros l El. destruct (Hl l El) as [A B]. split; [done|]. intros H. rewrite (B H). lia.
Qed.
Definition new_call (pc : caller_pc) (lease : option bodyLease) : caller :=
  {| c_pc := pc; c_ctx := false; c_response := []; c_result := []; c_lease := lease |}.
Definition new_lease (lease : option bodyLease) (b : Z) : Prop :=
  lease = None /\ b = 0%Z \/ lease = Some {| lease_refs := 1; lease_closed := false; lease_held := false |} /\ b = 1%Z.
Lemma refused_inv s c b lease code : inv s -> callers s !! c = None -> new_lease lease b ->
  inv (set_caller (s <| bodySlots ::= Z.add b |>) c (new_call (CReturned (Failed code not_started)) lease)).
Proof.
  intros Hi Hn Hl. match goal with |- inv ?s1 => assert (callers s1 = <[c := new_call (CReturned (Failed code not_started)) lease]> (callers s)) as E by done end.
  eapply born_ok in E as [B1 B2]; try done; try apply Hi.
  - split; try done; try apply Hi; cbn.
    + intros c0 k0 [[<- <-]|[Hne H0]]%lookup_insert_Some; [|by apply Hi]. pose proof (i_unawaited _ Hi c Hn). unfold awaited in *. cbn in *. lia.
    + intros c0 [H0 Hne]%lookup_insert_None. by apply Hi.
    + rewrite msum_insert, (i_slots _ Hi) by done. destruct Hl as [[-> ->]|[-> ->]]; cbn; lia.
  - destruct (i_unborn _ Hi c Hn) as (U1 & _). cbn. by rewrite U1.
  - intros l. destruct Hl as [[-> _]|[-> _]]; [done|]. by intros [= <-].
Qed.
Lemma accepted_inv s c b lease : inv s -> callers s !! c = None -> new_lease lease b -> ac_closed s = false -> size (pending s) < 128 -> pending s !! ident c = None ->
  inv ((set_caller (s <| bodySlots ::= Z.add b |>) c (new_call CEnqueue (hold <$> lease)))
    <| pending ::= insert (ident c) c |> <| sendStates ::= insert (ident c) {| rs_phase := Queued; cancelAfterSend := false |} |>).
Proof.
  intros Hi Hn Hl Hc Hz Hp. match goal with |- inv ?s1 => assert (callers s1 = <[c := new_call CEnqueue (hold <$> lease)]> (callers s)) as E by done end.
  assert (forall c', c' <> c -> <[ident c := c]> (pending s) !! ident c' = pending s !! ident c') as Hne'.
  { intros c' Hne. apply lookup_insert_ne. intros H. by apply ident_inj in H. }
  eapply born_ok in E as [B1 B2]; try done; try apply Hi.
  - split; try done; try apply Hi; cbn; rewrite ?Hc; try done.
    + intros c0 k0 [[<- <-]|[Hne H0]]%lookup_insert_Some.
      * pose proof (i_unawaited _ Hi c Hn) as Ha. unfold awaited in *. cbn in *. repeat case_decide; lia.
      * unfold awaited. cbn. rewrite Hne' by done. by apply Hi.
    + intros c0 [H0 Hne]%lookup_insert_None. unfold awaited. cbn. rewrite Hne' by done. by apply Hi.
    + intros id c0 [[<- <-]|[Hne H0]]%lookup_insert_Some; [done|]. by apply Hi.
    + rewrite map_size_insert_None by done. lia.
    + rewrite msum_insert, (i_slots _ Hi) by done. f_equal. by destruct Hl as [[-> ->]|[-> ->]].
  - intros c' Hne. cbn. apply lookup_insert_ne. intros H. by apply ident_inj in H.
  - cbn. by rewrite lookup_insert_eq.
  - intros l. destruct Hl as [[-> _]|[-> _]]; [done|]. by intros [= <-].
Qed.
Lemma begin_inv s c lease s' : inv s -> begin_call ident slots s c lease = Some s' -> inv s'.
Proof.
  intros Hi. unfold begin_call. destruct (bool_decide _) eqn:En; [done|]. breflect. rewrite <- eq_None_not_Some in En.
  assert (forall b l, new_lease l b -> inv (register ident (s <| bodySlots ::= Z.add b |>) c l)) as H.
  { intros b l Hl. unfold register. cbn [ac_closed]. destruct (ac_closed _) eqn:Ec; [by apply refused_inv|]. destruct (_ || _) eqn:Eb; [by apply refused_inv|].
    breflect. apply accepted_inv; try done. by apply eq_None_not_Some. }
  destruct lease; [destruct (_ <? _)%Z; [|done]|]; intros [= <-].
  - by apply (H 1%Z); right.
  - specialize (H 0%Z None). replace s with (s <| bodySlots ::= Z.add 0 |>) by (by destruct s). by apply H; left.
Qed.

(** ** The writer *)

Lemma wgoto_inv s pc : inv s -> (forall c, wview pc c = wview (writer s) c) -> (stopped s -> stopped (wgoto s pc)) -> inv (wgoto s pc).
Proof. intros Hi Hv Hs. apply (inv_none s); [done|done|done|split; try done; apply Hi|]. intros c. unfold same_for. cbn. rewrite Hv. done. Qed.
Lemma writer_one s s' c k k' : inv s -> callers s !! c = Some k -> callers s' = <[c := k']> (callers s) ->
  bodySlots s' = (bodySlots s - occupied k + occupied k')%Z -> c_response k' = c_response k -> quiet s s' ->
  (forall id, id <> ident c -> sendStates s' !! id = sendStates s !! id) -> (wire s' = wire s \/ wire s' = wire s ++ [WRequest c]) ->
  (forall c', c' <> c -> wview (writer s') c' = VOff /\ wview (writer s) c' = VOff) -> (forall c', c' <> c -> count c' (send s') = count c' (send s)) ->
  (stopped s -> stopped s') -> ok_at s' c k' -> inv s'.
Proof.
  intros Hi Hk Hc Hb Hr Hq Hs Hw Hv Hn Hst Ho. eapply (inv_one s s' c k k'); try done; [by rewrite Hr|]. intros c' Hne. destruct (Hv c' Hne) as [V1 V2].
  split_and!; [apply Hs; intros E; by apply ident_inj in E| |congruence|auto|auto]. destruct Hw as [->| ->]; [done|]. rewrite elem_of_app, list_elem_of_singleton.
  split; [intros [?|[= ?]]; [done|congruence]|auto].
Qed.
Lemma view_other c c' v : c' <> c -> wview_write (WRequest c) c' v = VOff.
Proof. intros Hne. cbn. rewrite decide_False; [done|congruence]. Qed.
Lemma view_self c v : wview_write (WRequest c) c v = v.
Proof. cbn. by rewrite decide_True. Qed.
Lemma in_hand_known s c : inv s -> wview (writer s) c <> VOff -> exists k, callers s !! c = Some k.
Proof. intros Hi Hv. destruct (callers s !! c) as [k|] eqn:E; [by exists k|]. by destruct (i_unborn _ Hi c E) as (_ & _ & ? & _). Qed.

Lemma pick_send_inv s c l : inv s -> writer s = WSelect -> send s = c :: l -> inv (wgoto (s <| send := l |>) (WMark c)).
Proof.
  intros Hi Ew Es. assert (exists k, callers s !! c = Some k) as [k Hk].
  { destruct (callers s !! c) as [k|] eqn:E; [by exists k|]. destruct (i_unborn _ Hi c E) as (_ & _ & _ & H). rewrite Es in H. unfold count in H. cbn in H. by destruct (Nat.eq_dec c c). }
  pose proof (i_calls _ Hi c k Hk) as [K1 K2 K3 K4 K5 K6 K7 K8]. rewrite Es, Ew in *. cbn in *. unfold count in *. cbn in *. destruct (Nat.eq_dec c c) as [_|]; [|done].
  apply (writer_one s _ c k k); try done; cbn.
  - by rewrite insert_id.
  - lia.
  - split; try done; try apply Hi. cbn. pose proof (i_send _ Hi) as H. rewrite Es in H. cbn in H. lia.
  - by left.
  - intros c' Hne. rewrite Ew, decide_False by congruence. done.
  - intros c' Hne. rewrite Es. unfold count. cbn. by destruct (Nat.eq_dec c c').
  - unfold stopped. by rewrite Ew.
  - unfold ok_at. cbn. rewrite decide_True by done. unfold stopped, count in *. cbn. rewrite Ew in *. split; cbn; try done.
    + lia.
    + intros H. destruct (K2 H). auto.
    + intros code H. destruct (K7 code H) as (A & B & C). split_and!; [done|done|]. destruct C as [C|[C|C]]; [by left|done|lia].
    + intros l0 El. destruct (K8 l0 El) as [A B]. split; [done|]. intros H. specialize (B H). lia.
Qed.

(** The writer has the request of [c] in hand, and keeps everything but its place, the send state and the caller. *)
Lemma hand_inv s s' c k k' v : inv s -> callers s !! c = Some k -> callers s' = <[c := k']> (callers s) ->
  bodySlots s' = (bodySlots s - occupied k + occupied k')%Z -> c_response k' = c_response k -> wview (writer s) c = v -> v <> VOff ->
  reader s' = reader s -> pending s' = pending s -> ac_closed s' = ac_closed s -> ac_done s' = ac_done s -> send s' = send s -> ac_control s' = ac_control s ->
  (forall id, weaker (sendStates s !! id) (sendStates s' !! id) /\ (id <> ident c -> sendStates s' !! id = sendStates s !! id)) ->
  (wire s' = wire s \/ wire s' = wire s ++ [WRequest c]) -> (forall c', c' <> c -> wview (writer s') c' = VOff) -> ok_at s' c k' -> inv s'.
Proof.
  intros Hi Hk Hc Hb Hr Hv Hne Q1 Q2 Q3 Q4 Q5 Q6 Hs Hw Hv' Ho. assert (forall c', c' <> c -> wview (writer s) c' = VOff) as Hv0.
  { intros c' Hne'. destruct (writer s) eqn:Ew; cbn in *; try done; repeat match goal with w : agent_write |- _ => destruct w end; cbn in *; repeat case_decide; congruence. }
  apply (writer_one s s' c k k'); try done.
  - split; try done; [|rewrite Q5; apply Hi|rewrite Q6; apply Hi]. rewrite Q3. intros Hcl. apply map_empty. intros id. apply (proj1 (Hs id)).
    rewrite (i_closed _ Hi Hcl). apply lookup_empty.
  - intros id. apply (Hs id).
  - intros c' H. split; auto.
  - by rewrite Q5.
  - unfold stopped. intros H. destruct (writer s); try done; cbn in Hv; congruence.
Qed.
(** The same, when only the writer and the send state of [c] change. *)
Lemma hand_keep s c k pc f v : inv s -> callers s !! c = Some k -> wview (writer s) c = v -> v <> VOff ->
  (forall id, weaker (sendStates s !! id) (f (sendStates s) !! id)) -> (forall id, id <> ident c -> f (sendStates s) !! id = sendStates s !! id) ->
  (forall c', c' <> c -> wview pc c' = VOff) -> ok_at (wgoto (s <| sendStates ::= f |>) pc) c k -> inv (wgoto (s <| sendStates ::= f |>) pc).
Proof.
  intros Hi Hk Hv Hne Hw Hf Hpc Ho. eapply (hand_inv s _ c k k v); try done; cbn; [by rewrite insert_id|lia| |by left]. intros id. split; auto.
Qed.
Lemma wgoto_close b s pc : wgoto (close_conn b s) pc = close_conn b (wgoto s pc).
Proof. by destruct b. Qed.
Lemma wgoto_same s pc : wgoto s pc = wgoto (s <| sendStates ::= id |>) pc.
Proof. by destruct s. Qed.
Ltac in_hand Hi c k Hv := 
  destruct (in_hand_known _ c Hi) as [k ?Hk]; [by rewrite Hv|]; pose proof (i_calls _ Hi c k Hk) as [K1 K2 K3 K4 K5 K6 K7 K8]; rewrite Hv in *.

Lemma mark_inv s c s' : inv s -> writer s = WMark c -> writer_step ident s WContinue = Some s' -> inv s'.
Proof.
  intros Hi Ew. assert (wview (writer s) c = VMark) as Hv by (rewrite Ew; cbn; by rewrite decide_True). in_hand Hi c k Hv.
  assert (~ stopped s) as Hst by (unfold stopped; rewrite Ew; tauto).
  unfold writer_step. rewrite Ew. intros [= <-]. destruct (sendStates s !! ident c) as [st|] eqn:Es.
  - rewrite bool_decide_eq_false_2 by (intros E; apply K3; unfold phase_is; cbn; by rewrite E).
    apply (hand_keep s c k _ _ VMark); try done; [intros; by apply weaker_insert|intros; by rewrite lookup_insert_ne|intros c' Hne; by apply view_other|].
    unfold ok_at. cbn -[wview_write]. rewrite view_self. cbn. rewrite lookup_insert_eq. split; cbn; try done.
    + intros H. destruct (K5 H); done.
    + intros code H. destruct (K7 code H) as (A & B & C). split_and!; [done|done|]. destruct C as [C|[C|C]]; [by left|done|by right; right].
  - rewrite wgoto_same. apply (hand_keep s c k _ _ VMark); try done; [intros c' Hne; by apply view_other|].
    unfold ok_at. cbn -[wview_write]. rewrite view_self. cbn. rewrite Es. split; cbn; try done; auto.
    intros code H. destruct (K7 code H) as (A & B & C). split_and!; [done|done|]. destruct C as [C|[C|C]]; [by left|done|by right; right].
Qed.
Lemma look_inv s c e s' : inv s -> writer s = WCheck (WRequest c) -> writer_step ident s (Look e) = Some s' -> inv s'.
Proof.
  intros Hi Ew. assert (wview (writer s) c = VCheck) as Hv by (rewrite Ew; apply view_self). in_hand Hi c k Hv.
  assert (~ stopped s) as Hst by (unfold stopped; rewrite Ew; tauto).
  unfold writer_step. rewrite Ew. intros [= <-]. unfold write_expired. rewrite Hk, wgoto_same.
  apply (hand_keep s c k _ _ VCheck); try done; [intros c' Hne; destruct (c_ctx k); by apply view_other|]. unfold ok_at.
  destruct (c_ctx k) eqn:Ec; cbn -[wview_write]; rewrite view_self; cbn; (split; cbn; try done).
  - intros H. by destruct (K2 H) as [_ [?|?]].
  - intros H. destruct (K5 H); [by left|done].
  - intros code H. destruct (K7 code H) as (A & B & C). split_and!; [done|done|]. by left.
  - intros H. by destruct (K2 H) as [_ [?|?]].
  - intros H. destruct (K5 H); [by left|done].
  - rewrite Ec. auto.
  - intros code H. destruct (K7 code H) as (A & B & [C|[C|C]]); [done|done|cbn in C; lia].
Qed.

(** The write itself: the request may be on the wire from now on. *)
Lemma post_inv s c s1 pc : inv s -> writer s = WPost (WRequest c) -> (s1 = s \/ s1 = s <| wire ::= fun l => l ++ [WRequest c] |>) ->
  (pc = WReplyOk (WRequest c) \/ exists e close, pc = WFail (WRequest c) e close) -> inv (wgoto (releaseInput s1 c) pc).
Proof.
  intros Hi Ew Hs1 Hpc. assert (wview (writer s) c = VPost) as Hv by (rewrite Ew; apply view_self). in_hand Hi c k Hv.
  assert (~ stopped s) as Hst by (unfold stopped; rewrite Ew; tauto). pose proof (ok_lease s c k (i_calls _ Hi c k Hk)) as Ho.
  assert (callers s1 !! c = Some k) as Hk1 by (by destruct Hs1 as [->| ->]). rewrite (release_charge s1 c k) by done.
  apply (hand_inv s _ c k (k <| c_lease := unheld <$> c_lease k |>) VPost); try done; try (by destruct Hs1 as [->| ->]); cbn.
  - destruct Hs1 as [->| ->]; auto.
  - intros c' Hne. destruct Hpc as [->|(e & close & ->)]; by apply view_other.
  - assert (exists v, wview pc c = v /\ (v = VReplyOk \/ v = VFail)) as (v & Ev & Hv').
    { destruct Hpc as [->|(e & close & ->)]; cbn; rewrite decide_True by done; eauto. }
    assert (sendStates s1 = sendStates s /\ send s1 = send s) as [E1 E2] by (by destruct Hs1 as [->| ->]).
    unfold ok_at. cbn. rewrite E1, E2, Ev. split; cbn; try done.
    + destruct Hv' as [->| ->]; done.
    + intros H. by destruct (K2 H) as [_ [?|?]].
    + by destruct Hv' as [->| ->].
    + intros H. destruct (K5 H); [by left|done].
    + intros code H. by destruct (K7 code H) as (A & B & C).
    + intros l El. destruct (unheld_ok k l Ho El) as [A B]. split; [done|congruence].
Qed.
Lemma fail_inv s c e close : inv s -> writer s = WFail (WRequest c) e close -> inv (wgoto (finishSendState s (ident c)) (WReply (WRequest c) e close)).
Proof.
  intros Hi Ew. assert (wview (writer s) c = VFail) as Hv by (rewrite Ew; apply view_self). in_hand Hi c k Hv.
  assert (~ stopped s) as Hst by (unfold stopped; rewrite Ew; tauto).
  apply (hand_keep s c k _ (delete (ident c)) VFail); try done; [intros; by apply weaker_delete|intros; by rewrite lookup_delete_ne|intros c' Hne; by apply view_other|].
  unfold ok_at. cbn -[wview_write]. rewrite view_self. cbn. rewrite lookup_delete_eq. split; cbn; try done; auto.
  intros code H. destruct (K7 code H) as (A & B & C). split_and!; [done|done|]. destruct C as [C|[C|C]]; [by left|done|by right; right].
Qed.
(** A result is sent on a channel that is empty: the writer never blocks on it. *)
Lemma result_ready s c k : inv s -> callers s !! c = Some k -> in_hand (wview (writer s) c) = 1 \/ 0 < count c (send s) -> c_result k = [].
Proof.
  intros Hi Hk H. pose proof (k_tokens _ _ _ _ _ _ (i_calls _ Hi c k Hk)). destruct (c_result k); [done|]. cbn in *. lia.
Qed.
Lemma result_charge s c k e : callers s !! c = Some k -> c_result k = [] -> write_result s c e = Some (charge s c k (k <| c_result := [e] |>)).
Proof. intros Hk Hr. unfold write_result. rewrite Hk, Hr. cbn. by rewrite (set_charge s c k). Qed.
Lemma reply_inv s c e close s' : inv s -> writer s = WReply (WRequest c) e close -> writer_step ident s WContinue = Some s' -> inv s'.
Proof.
  intros Hi Ew. assert (wview (writer s) c = VReply) as Hv by (rewrite Ew; apply view_self). pose proof (result_ready s c) as Hrr. in_hand Hi c k Hv.
  assert (~ stopped s) as Hst by (unfold stopped; rewrite Ew; tauto). pose proof (ok_lease s c k (i_calls _ Hi c k Hk)) as Ho.
  assert (c_result k = []) as Er by (apply Hrr; auto). unfold writer_step. rewrite Ew. cbn [release_write send_result]. rewrite (release_charge s c k) by done.
  rewrite (result_charge _ c _ _ (charge_lookup _ _ _ _)), charge_charge by done. cbn [fmap option_fmap option_map]. intros [= <-].
  rewrite wgoto_close. apply close_conn_inv.
  apply (hand_inv s _ c k (k <| c_lease := unheld <$> c_lease k |> <| c_result := [Some e] |>) VReply); try done; cbn; auto.
  - by destruct close.
  - unfold ok_at. cbn. assert (wview (if close then WDrain else WTop) c = VOff) as -> by (by destruct close). rewrite (K4 eq_refl) in *. split; cbn; auto; try done.
    + rewrite Er in K1. cbn in K1. lia.
    + intros code H. destruct (K7 code H) as (A & B & C). split_and!; [done|done|]. destruct C as [C|[C|C]]; [by left|done|lia].
    + intros l El. destruct (unheld_ok k l Ho El) as [A B]. split; [done|congruence].
Qed.
Lemma reply_ok_inv s c s' : inv s -> writer s = WReplyOk (WRequest c) -> writer_step ident s WContinue = Some s' -> inv s'.
Proof.
  intros Hi Ew. assert (wview (writer s) c = VReplyOk) as Hv by (rewrite Ew; apply view_self). pose proof (result_ready s c) as Hrr. in_hand Hi c k Hv.
  assert (~ stopped s) as Hst by (unfold stopped; rewrite Ew; tauto).
  assert (c_result k = []) as Er by (apply Hrr; auto). unfold writer_step. rewrite Ew. cbn [send_result].
  rewrite (result_charge _ c k) by done. cbn [fmap option_fmap option_map]. intros [= <-].
  apply (hand_inv s _ c k (k <| c_result := [None] |>) VReplyOk); try done; cbn; auto.
  - intros c' Hne. by rewrite decide_False.
  - unfold ok_at. cbn. rewrite decide_True by done. split; cbn; auto; try done.
    + rewrite Er in K1. cbn in K1. lia.
    + intros H. by destruct (K2 H) as [_ [?|?]].
    + intros [[e He]|H]; [apply list_elem_of_singleton in He; congruence|]. destruct (K5 (or_intror H)); [by left|done].
    + intros code H. destruct (K7 code H) as (A & B & C). split_and!; [done|done|]. destruct C as [C|[C|C]]; [by left|done|lia].
Qed.
Lemma mark_sent_inv s c s' : inv s -> writer s = WMarkSent c -> writer_step ident s WContinue = Some s' -> inv s'.
Proof.
  intros Hi Ew. assert (wview (writer s) c = VMarkSent) as Hv by (rewrite Ew; cbn; by rewrite decide_True). in_hand Hi c k Hv.
  assert (~ stopped s) as Hst by (unfold stopped; rewrite Ew; tauto). unfold writer_step. rewrite Ew. intros [= <-].
  assert (forall f pc, (forall id, weaker (sendStates s !! id) (f (sendStates s) !! id)) -> (forall id, id <> ident c -> f (sendStates s) !! id = sendStates s !! id) ->
    (forall c', wview pc c' = VOff) -> inv (wgoto (s <| sendStates ::= f |>) pc)) as H.
  { intros f pc Hf Hf' Hpc. apply (hand_keep s c k _ _ VMarkSent); try done. unfold ok_at. cbn. rewrite Hpc. destruct (Hf (ident c)) as (M1 & M2 & M3).
    split; cbn; auto; try done.
    - intros H. destruct (K2 (M2 H)); auto.
    - intros H. destruct (K5 H); [auto|done].
    - intros code H. destruct (K7 code H) as (A & B & C). split_and!; [done|done|]. destruct C as [C|[C|C]]; [by left|done|by right; right]. }
  destruct (sendStates s !! ident c) as [st|] eqn:Es; [|rewrite wgoto_same; by apply H].
  apply H; [intros; by apply weaker_insert|intros; by rewrite lookup_insert_ne|intros; by case_match].
Qed.
Lemma drain_send_inv s c l s' : inv s -> writer s = WDrain -> send s = c :: l ->
  write_result (releaseInput (s <| send := l |>) c) c (Some ContextError) = Some s' -> inv s'.
Proof.
  intros Hi Ew Es. assert (0 < count c (send s)) as Hn by (rewrite Es; unfold count; cbn; destruct (Nat.eq_dec c c); [lia|done]).
  assert (exists k, callers s !! c = Some k) as [k Hk].
  { destruct (callers s !! c) as [k|] eqn:E; [by exists k|]. destruct (i_unborn _ Hi c E) as (_ & _ & _ & H). lia. }
  pose proof (result_ready s c k Hi Hk (or_intror Hn)) as Er. pose proof (i_calls _ Hi c k Hk) as K. pose proof (ok_lease s c k K) as Ho.
  assert (stopped s) as Hst by (unfold stopped; by rewrite Ew). destruct K as [K1 K2 K3 K4 K5 K6 K7 K8].
  assert (count c (send s) = S (count c l)) as Hcl by (rewrite Es; unfold count; cbn; by destruct (Nat.eq_dec c c)).
  rewrite (release_charge _ c k), (result_charge _ c _ _ (charge_lookup _ _ _ _)), charge_charge by done. intros [= <-].
  apply (writer_one s _ c k (k <| c_lease := unheld <$> c_lease k |> <| c_result := [Some ContextError] |>)); try done; cbn; auto.
  - split; try done; try apply Hi. cbn. pose proof (i_send _ Hi) as H. rewrite Es in H. cbn in H. lia.
  - intros c' Hne. by rewrite Ew.
  - intros c' Hne. rewrite Es. unfold count. cbn. by destruct (Nat.eq_dec c c').
  - unfold ok_at. cbn. rewrite Ew in *. cbn in *. split; cbn; auto; try done.
    + rewrite Er in K1. cbn in K1. lia.
    + intros code H. destruct (K7 code H) as (A & B & C). auto.
    + intros l0 El. destruct (unheld_ok k l0 Ho El) as [A B]. split; [done|congruence].
Qed.
Lemma pop_control_inv s id l : inv s -> ac_control s = id :: l -> inv (s <| ac_control := l |>).
Proof. intros Hi E. split; try apply Hi. cbn. pose proof (i_control _ Hi) as H. rewrite E in H. cbn in H. lia. Qed.
Lemma control_written s id : inv s -> inv (s <| wire ::= fun l => l ++ [WControl id] |>).
Proof.
  intros Hi. apply (inv_none s); [done|done|done|split; try done; apply Hi|]. intros c. unfold same_for. cbn. split_and!; try done.
  rewrite elem_of_app, list_elem_of_singleton. split; [intros [?|?]; done|auto].
Qed.
Lemma cancel_writer s id : writer (cancel_section s id).1 = writer s.
Proof. unfold cancel_section. by repeat case_match. Qed.
Lemma control_writer s id ch s' : control_section s id ch = Some s' -> writer s' = writer s.
Proof. unfold control_section. repeat case_match; by intros [= <-]. Qed.
Ltac neutral Ew := apply wgoto_inv; [done|intros; cbn; rewrite Ew|unfold stopped; cbn; rewrite Ew].
Lemma writer_step_inv s a s' : inv s -> writer_step ident s a = Some s' -> inv s'.
Proof.
  intros Hi. destruct (writer s) eqn:Ew; destruct a; try (unfold writer_step; rewrite Ew; done).
  - unfold writer_step. rewrite Ew. destruct (ac_control s) eqn:Ec; intros [= <-]; [by neutral Ew|]. apply pop_control_inv in Ec; [|done]. by neutral Ew.
  - unfold writer_step. rewrite Ew. destruct (ac_control s) eqn:Ec; intros [= <-]. apply pop_control_inv in Ec; [|done]. by neutral Ew.
  - unfold writer_step. rewrite Ew. destruct (send s) eqn:Ec; intros [= <-]. by apply pick_send_inv.
  - unfold writer_step. rewrite Ew. destruct (ac_done s); intros [= <-]. by neutral Ew.
  - by apply (mark_inv s c).
  - destruct w as [c|id]; [by apply (look_inv s c expired)|]. unfold writer_step. rewrite Ew. intros [= <-]. by neutral Ew; case_match.
  - destruct w as [c|id]; unfold writer_step; rewrite Ew; intros [= <-]; [apply (post_inv s); auto|].
    apply (wgoto_inv (s <| wire ::= fun l => l ++ [WControl id] |>)); [by apply control_written|intros; cbn; by rewrite Ew|unfold stopped; cbn; by rewrite Ew].
  - destruct w as [c|id]; unfold writer_step; rewrite Ew; intros [= <-]; [apply (post_inv s); destruct written; eauto|].
    destruct written; [|by neutral Ew].
    apply (wgoto_inv (s <| wire ::= fun l => l ++ [WControl id] |>)); [by apply control_written|intros; cbn; by rewrite Ew|unfold stopped; cbn; by rewrite Ew].
  - destruct w as [c|id]; unfold writer_step; rewrite Ew; intros [= <-]; [by apply fail_inv|]. apply (finish_inv s id) in Hi. by neutral Ew.
  - destruct w as [c|id]; [by apply (reply_inv s c e close)|]. unfold writer_step; rewrite Ew; cbn; intros [= <-]. rewrite wgoto_close. apply close_conn_inv.
    by neutral Ew; case_match.
  - destruct w as [c|id]; [by apply (reply_ok_inv s c)|]. unfold writer_step; rewrite Ew; cbn; intros [= <-]. by neutral Ew.
  - by apply (mark_sent_inv s c).
  - unfold writer_step; rewrite Ew; intros [= <-]. apply (finish_inv s id) in Hi. by neutral Ew.
  - unfold writer_step; rewrite Ew. pose proof (cancel_inv s id Hi) as Hi'. pose proof (cancel_writer s id) as Ew'.
    destruct (cancel_section s id) as [s1 b]. cbn [fst] in *. rewrite Ew in Ew'. intros [= <-]. by neutral Ew'; case_match.
  - unfold writer_step; rewrite Ew. destruct (control_section s id ch) as [s1|] eqn:Ec; [|done]. cbn. intros [= <-].
    pose proof (control_inv s id ch s1 Hi Ec) as (Hi' & _). pose proof (control_writer s id ch s1 Ec) as Ew'. rewrite Ew in Ew'. by neutral Ew'; case_match.
  - unfold writer_step; rewrite Ew. intros [= <-]. rewrite wgoto_close. apply close_conn_inv. apply (finish_inv s id) in Hi. by neutral Ew.
  - unfold writer_step; rewrite Ew. destruct (send s) eqn:Es; [done|]. by apply drain_send_inv.
  - unfold writer_step; rewrite Ew. destruct (ac_control s) eqn:Es; [done|]. intros [= <-]. by eapply pop_control_inv.
  - unfold writer_step; rewrite Ew. destruct (_ && _); intros [= <-]. by neutral Ew.
Qed.

(** ** The reader *)

(** Only the reader and what callers are awaiting change. *)
Lemma reader_inv s s' : inv s -> callers s' = callers s -> bodySlots s' = bodySlots s -> wire s' = wire s -> writer s' = writer s -> send s' = send s ->
  ac_control s' = ac_control s -> (forall id, weaker (sendStates s !! id) (sendStates s' !! id)) ->
  (forall c, awaited s' c = awaited s c) -> (forall id c, pending s' !! id = Some c -> pending s !! id = Some c) ->
  (ac_closed s = true -> ac_closed s' = true) -> (ac_closed s' = true -> sendStates s' = ∅) -> (ac_done s' = true -> ac_closed s' = true) ->
  (closing (reader s') = true -> ac_closed s' = true) -> inv s'.
Proof.
  intros Hi H1 H2 H3 H4 H5 H6 Hw Ha Hp Hc Hc' Hd Hcl. assert (size (pending s') <= 128) as Hz.
  { pose proof (i_size _ Hi). assert (pending s' ⊆ pending s) as Hs%map_subseteq_size by (apply map_subseteq_spec; auto). lia. }
  pose proof (states_inv s (fun _ => sendStates s') Hi Hw) as [J1 J2 _ _ _ _ _ _ _ _ _ _]. cbn in *.
  split; try done; rewrite ?H1, ?H2, ?H5, ?H6; try apply Hi.
  - intros c k Hk. specialize (J1 c k Hk). unfold ok_at, stopped in *. cbn in *. by rewrite H3, H4, H5.
  - intros c Hk. specialize (J2 c Hk). unfold unborn_at in *. cbn in *. by rewrite H3, H4, H5.
  - intros c k. rewrite Ha. by apply Hi.
  - intros c. rewrite Ha. by apply Hi.
  - intros id c H. apply Hi. auto.
Qed.
Lemma count_pending (m : gmap bytes nat) c : (forall id c', m !! id = Some c' -> id = ident c') ->
  count c (map_to_list m).*2 = if decide (m !! ident c = Some c) then 1 else 0.
Proof.
  induction m as [|id c' m Hn IH] using map_ind; intros Hm; [by rewrite map_to_list_empty, lookup_empty|].
  assert (id = ident c') as -> by (apply Hm, lookup_insert_eq). assert (forall id c0, m !! id = Some c0 -> id = ident c0) as Hm'.
  { intros id c0 H. apply Hm. rewrite lookup_insert_ne; [done|]. intros <-. congruence. }
  specialize (IH Hm'). assert (count c (map_to_list (<[ident c' := c']> m)).*2 = count c (c' :: (map_to_list m).*2)) as ->.
  { unfold count. apply Permutation_count_occ. change (c' :: (map_to_list m).*2) with (((ident c', c') :: map_to_list m).*2). by rewrite map_to_list_insert. }
  unfold count in *. cbn. rewrite IH. destruct (Nat.eq_dec c' c) as [->|Hne].
  - rewrite lookup_insert_eq, Hn. by repeat case_decide.
  - rewrite lookup_insert_ne; [done|]. intros E. by apply ident_inj in E.
Qed.

(** A reply is put into a channel that is empty: the reader never blocks on it. *)
Lemma response_ready s c : inv s -> 0 < count c (lost_to (reader s)) -> exists k, callers s !! c = Some k /\ c_response k = [].
Proof.
  intros Hi Hn. destruct (callers s !! c) as [k|] eqn:Hk.
  - exists k. split; [done|]. pose proof (i_responses _ Hi c k Hk) as H. unfold awaited in H. destruct (c_response k); [done|]. cbn in H. lia.
  - pose proof (i_unawaited _ Hi c Hk) as H. unfold awaited in H. lia.
Qed.
Lemma deliver_inv s c r pc : inv s -> lost_to (reader s) = c :: lost_to pc -> (closing pc = true -> closing (reader s) = true) ->
  exists s', reply s c r = Some s' /\ inv (rgoto s' pc).
Proof.
  intros Hi Hl Hcl. destruct (response_ready s c Hi) as (k & Hk & Hr); [rewrite Hl; unfold count; cbn; destruct (Nat.eq_dec c c); [lia|done]|].
  unfold reply. rewrite Hk, Hr. cbn. eexists. split; [done|]. rewrite (set_charge s c k) by done.
  assert (forall c', awaited (rgoto (charge s c k (k <| c_response := [r] |>)) pc) c' = awaited s c' - (if decide (c' = c) then 1 else 0)) as Ha.
  { intros c'. unfold awaited. cbn. rewrite Hl. unfold count. cbn. repeat case_decide; destruct (Nat.eq_dec c c'); try congruence; lia. }
  destruct (calls_update s (rgoto (charge s c k (k <| c_response := [r] |>)) pc) c (k <| c_response := [r] |>) Hi) as [U1 U2]; [done| | |].
  { intros. by apply same_for_eq. }
  { pose proof (i_calls _ Hi c k Hk) as [K1 K2 K3 K4 K5 K6 K7 K8]. by split. }
  split; try done; try apply Hi.
  - intros c' k'. cbn. rewrite Ha. intros [[<- <-]|[Hne H']]%lookup_insert_Some.
    + rewrite decide_True by done. pose proof (i_responses _ Hi c k Hk). cbn. lia.
    + pose proof (i_responses _ Hi c' k' H'). lia.
  - intros c'. cbn. rewrite Ha. intros [Hn Hne]%lookup_insert_None. pose proof (i_unawaited _ Hi c' Hn). lia.
  - cbn. intros H. apply (i_closing _ Hi). auto.
  - cbn. rewrite (msum_update occupied _ c k) by done. rewrite (i_slots _ Hi). done.
Qed.
Lemma reader_step_inv s a s' : inv s -> reader_step s a = Some s' -> inv s'.
Proof.
  intros Hi. destruct (reader s) as [|c m|l|l|] eqn:Er; destruct a as [id m'| |]; unfold reader_step, disconnectPending; rewrite Er; try done.
  - intros [= <-]. apply (reader_inv s); try done; cbn; rewrite ?Er; try apply Hi.
    + intros. apply weaker_delete.
    + intros c. unfold awaited. cbn. rewrite Er. destruct (pending s !! id) as [c0|] eqn:Ep.
      * apply (i_pending _ Hi) in Ep as E. subst id. unfold count. cbn. destruct (Nat.eq_dec c0 c) as [->|Hne].
        -- rewrite lookup_delete_eq, Ep. by repeat case_decide.
        -- rewrite lookup_delete_ne; [done|]. intros E. by apply ident_inj in E.
      * destruct (decide (id = ident c)) as [->|Hne]; [by rewrite lookup_delete_eq, Ep|by rewrite lookup_delete_ne].
    + intros id' c [_ H]%lookup_delete_Some. done.
    + intros H. rewrite (i_closed _ Hi H). apply delete_empty.
    + by case_match.
  - intros [= <-]. destruct (ac_closed s) eqn:Ec.
    + apply (reader_inv s); try done; cbn; rewrite ?Er; try apply Hi; try done. intros c. unfold awaited. cbn. by rewrite Er.
    + apply (reader_inv s); try done; cbn; rewrite ?Er, ?Ec; try done. intros c. unfold awaited. cbn. rewrite Er, lookup_empty, count_pending by apply Hi.
      unfold count. cbn. repeat case_decide; done || lia.
  - destruct (deliver_inv s c (AgentReply m) RLoop Hi) as (s1 & E1 & H1); [by rewrite Er|done|]. rewrite E1. by intros [= <-].
  - intros [= <-]. pose proof (i_closing _ Hi) as Hcl. rewrite Er in Hcl. apply (reader_inv s); try done; cbn; rewrite ?Er; try apply Hi; auto.
    intros c. unfold awaited. cbn. by rewrite Er.
  - pose proof (i_closing _ Hi) as Hcl. rewrite Er in Hcl. destruct l as [|c l].
    + intros [= <-]. apply (reader_inv s); try done; cbn; rewrite ?Er; try apply Hi; auto. intros c. unfold awaited. cbn. by rewrite Er.
    + destruct (deliver_inv s c LostReply (RLost l) Hi) as (s1 & E1 & H1); [by rewrite Er|by rewrite Er|]. rewrite E1. by intros [= <-].
Qed.

Lemma gateway_step_inv s a s' : inv s -> step s a = Some s' -> inv s'.
Proof.
  intros Hi. destruct a as [c a|a|a]; cbn.
  - destruct a; [by apply begin_inv|..]; (destruct (callers s !! c) as [k|] eqn:Hk; [|done]); by apply (caller_step_inv s c k).
  - by apply writer_step_inv.
  - by apply reader_step_inv.
Qed.
Lemma new_inv : inv newAgentConn.
Proof.
  split; try done; cbn; unfold agentWriteQueueSize; try lia.
  - intros c _. split_and!; [done|by intros ?%elem_of_nil|done|done].
  - rewrite map_size_empty. lia.
Qed.
Lemma gateway_inv s : reachable ident slots s -> inv s.
Proof. induction 1; [apply new_inv|by eapply gateway_step_inv]. Qed.
End Invariant.
