(* ===== verification/Gateway.v ===== *)
(** * The guarantees of gateway calls
    For every interleaving of callers, writer and reader of [GatewayCalls]: what a caller is
    told about its request is true, nobody blocks on a channel, calls end, and the slots of
    request bodies are accounted for. *)
From Stdlib Require Import ZArith Lia.
From stdpp Require Import base gmap sets list option strings.
From coqutil Require Import Datatypes.RecordSettersUsingExistingGetters.
From S2P Require Import Prelude GatewayCalls GatewayInvariant.
Local Open Scope nat_scope.

(** The steps a caller still has to take. *)
Definition remaining (pc : caller_pc) : nat :=
  match pc with
  | CEnqueue => 8 | CWriteResult => 7 | CResponse => 6 | CRemove _ _ _ => 5 | CJudge _ _ => 4 | CCancel _ => 3 | CControl _ => 2
  | CForget _ _ | CFinish _ => 1 | CReturned _ => 0
  end.

Section Schedules.
Context (ident : nat -> bytes) (slots : Z).
Lemma schedule_reachable l : forall s s', reachable ident slots s -> schedule ident slots s l = Some s' -> reachable ident slots s'.
Proof.
  induction l as [|a l IH]; intros s s' Hr; cbn; [by intros [= <-]|]. destruct (step ident slots s a) as [s1|] eqn:E; [|done]. cbn.
  apply IH. by eapply reach_step.
Qed.
Lemma new_schedule l s : schedule ident slots newAgentConn l = Some s -> reachable ident slots s.
Proof. apply schedule_reachable. constructor. Qed.

(** A caller's own steps, other than the expiry of its context and the return of its handler. *)
Definition progress (a : caller_action) : bool := match a with Begin _ | Expire | HandlerReturns => false | _ => true end.

(** ** Whose program counter a step moves *)

Definition pc_of (s : agentConn) (c : nat) : option caller_pc := c_pc <$> callers s !! c.
Lemma pc_insert s c k k' c' : callers s !! c = Some k -> c_pc k' = c_pc k -> pc_of (set_caller s c k') c' = pc_of s c'.
Proof.
  intros Hk Hp. unfold pc_of, set_caller. cbn. destruct (decide (c' = c)) as [->|Hne]; [|by rewrite lookup_insert_ne].
  rewrite lookup_insert_eq, Hk. cbn. by rewrite Hp.
Qed.
Lemma pc_drop s c k l c' : callers s !! c = Some k -> pc_of (drop_ref s c k l) c' = pc_of s c'.
Proof. intros Hk. unfold drop_ref. cbv zeta. case_match; by apply (pc_insert s c k). Qed.
Lemma pc_release s c c' : pc_of (releaseInput s c) c' = pc_of s c'.
Proof. unfold releaseInput. destruct (callers s !! c) as [k|] eqn:Hk; [|done]. destruct (c_lease k); [|done]. case_match; [by apply pc_drop|done]. Qed.
Lemma pc_close s c c' : pc_of (CloseLease s c) c' = pc_of s c'.
Proof. unfold CloseLease. destruct (callers s !! c) as [k|] eqn:Hk; [|done]. destruct (c_lease k); [|done]. case_match; [done|by apply pc_drop]. Qed.
Lemma pc_goto s c pc c' : pc_of (goto s c pc) c' = if decide (c' = c) then (fun _ => pc) <$> callers s !! c else pc_of s c'.
Proof.
  unfold pc_of, goto. cbn. destruct (decide (c' = c)) as [->|Hne]; [|by rewrite lookup_alter_ne]. rewrite lookup_alter_eq. by destruct (callers s !! c).
Qed.
Lemma pc_result s c e s' c' : write_result s c e = Some s' -> pc_of s' c' = pc_of s c'.
Proof. unfold write_result. destruct (callers s !! c) as [k|] eqn:Hk; [|done]. case_match; [|done]. intros [= <-]. by apply (pc_insert s c k). Qed.
Lemma pc_reply s c r s' c' : reply s c r = Some s' -> pc_of s' c' = pc_of s c'.
Proof. unfold reply. destruct (callers s !! c) as [k|] eqn:Hk; [|done]. case_match; [|done]. intros [= <-]. by apply (pc_insert s c k). Qed.
Lemma pc_release_write s w c : pc_of (release_write s w) c = pc_of s c.
Proof. destruct w; [apply pc_release|done]. Qed.
Lemma pc_close_conn b s c : pc_of (close_conn b s) c = pc_of s c.
Proof. by destruct b. Qed.
Lemma pc_send_result s w e s' c : send_result s w e = Some s' -> pc_of s' c = pc_of s c.
Proof. destruct w; [apply pc_result|by intros [= <-]]. Qed.
Lemma pc_cancel s id c : pc_of (cancel_section s id).1 c = pc_of s c.
Proof. unfold pc_of. by rewrite cancel_callers. Qed.
Lemma pc_control s id ch s' c : control_section s id ch = Some s' -> pc_of s' c = pc_of s c.
Proof. unfold control_section. repeat case_match; by intros [= <-]. Qed.
Lemma pc_writer s a s' c : writer_step ident s a = Some s' -> pc_of s' c = pc_of s c.
Proof.
  unfold writer_step. destruct a, (writer s); try done.
  - intros [= <-]. by case_match.
  - intros [= <-]. by repeat case_match.
  - by intros [= <-].
  - destruct (send_result _ _ _) as [s1|] eqn:E; [|done]. intros [= <-]. apply (pc_send_result _ _ _ _ c) in E. rewrite pc_release_write in E.
    etrans; [|exact E]. apply (pc_close_conn close).
  - destruct (send_result _ _ _) as [s1|] eqn:E; [|done]. intros [= <-]. by apply (pc_send_result _ _ _ _ c) in E.
  - intros [= <-]. by case_match.
  - by intros [= <-].
  - pose proof (pc_cancel s id c) as E. destruct (cancel_section s id) as [s1 b]. by intros [= <-].
  - intros [= <-]. etrans; [apply (pc_close_conn close (finishSendState s id))|done].
  - by case_match; intros [= <-].
  - by case_match; intros [= <-].
  - by case_match; intros [= <-].
  - by intros [= <-].
  - intros [= <-]. etrans; [apply (pc_release_write (s <| wire ::= fun l => l ++ [w] |>) w)|done].
  - intros [= <-]. destruct written; [etrans; [apply (pc_release_write (s <| wire ::= fun l => l ++ [w] |>) w)|done]|apply (pc_release_write s w)].
  - destruct (control_section _ _ _) as [s1|] eqn:E; [|done]. intros [= <-]. by apply (pc_control _ _ _ _ c) in E.
  - destruct (send s) as [|c0 l]; [done|]. intros E. apply (pc_result _ _ _ _ c) in E. by rewrite pc_release in E.
  - by case_match; intros [= <-].
  - by case_match; intros [= <-].
Qed.
Lemma pc_reader s a s' c : reader_step s a = Some s' -> pc_of s' c = pc_of s c.
Proof.
  unfold reader_step, disconnectPending. destruct a, (reader s) as [|c0 m|l|[|c0 l]|]; try done.
  - by intros [= <-].
  - intros [= <-]. by case_match.
  - destruct (reply _ _ _) as [s1|] eqn:E; [|done]. intros [= <-]. by apply (pc_reply _ _ _ _ c) in E.
  - by intros [= <-].
  - by intros [= <-].
  - destruct (reply _ _ _) as [s1|] eqn:E; [|done]. intros [= <-]. by apply (pc_reply _ _ _ _ c) in E.
Qed.
(** What a step of its own does to the counter of [c]: it moves on, or stays for [Expire] and [HandlerReturns]. *)
Definition moved (s s' : agentConn) (c : nat) (k : caller) (a : caller_action) : Prop :=
  (forall c', c' <> c -> pc_of s' c' = pc_of s c') /\
  exists pc', pc_of s' c = Some pc' /\ if progress a then remaining pc' < remaining (c_pc k) else pc' = c_pc k.
Lemma moved_goto s x c k pc a : callers s !! c = Some k -> (forall c', pc_of x c' = pc_of s c') -> progress a = true ->
  remaining pc < remaining (c_pc k) -> moved s (goto x c pc) c k a.
Proof.
  intros Hk Hx Ha Hr. unfold moved. rewrite Ha. split.
  - intros c' Hne. by rewrite pc_goto, decide_False.
  - exists pc. split; [|done]. rewrite pc_goto, decide_True by done. specialize (Hx c). unfold pc_of in Hx. rewrite Hk in Hx. by destruct (callers x !! c).
Qed.
Lemma moved_after s x y c k a : moved s x c k a -> (forall c', pc_of y c' = pc_of x c') -> moved s y c k a.
Proof. intros [H1 (pc & H2 & H3)] Hy. split; [intros c' Hne; rewrite Hy; auto|]. exists pc. by rewrite Hy. Qed.
Lemma moved_stay s x c k a : callers s !! c = Some k -> progress a = false -> (forall c', pc_of x c' = pc_of s c') -> moved s x c k a.
Proof. intros Hk Ha Hx. unfold moved. rewrite Ha. split; [auto|]. exists (c_pc k). split; [|done]. rewrite Hx. unfold pc_of. by rewrite Hk. Qed.
Lemma pc_caller s c k a s' : callers s !! c = Some k -> caller_step ident s c k a = Some s' -> moved s s' c k a.
Proof.
  intros Hk. unfold caller_step. destruct a, (c_pc k) eqn:Ep; try done;
    try (intros [= <-]; apply moved_stay; [done|done|]; intros c'; by apply (pc_insert s c k)).
  - case_match; intros [= <-]. by eapply moved_after; [apply (moved_goto s s c k CWriteResult); rewrite ?Ep; cbn; try done; lia|].
  - case_match; intros [= <-]. eapply moved_after; [|intros; apply pc_release]. apply moved_goto; rewrite ?Ep; cbn; try done; lia.
  - case_match; intros [= <-]. eapply moved_after; [|intros; apply pc_release]. apply moved_goto; rewrite ?Ep; cbn; try done; lia.
  - destruct (c_result k) as [|e l]; [done|]. intros [= <-]. destruct e as [[]|]; [..|eapply moved_after; [|intros; apply pc_close]];
      (apply moved_goto; rewrite ?Ep; cbn; [done|intros; by apply (pc_insert s c k)|done|lia]).
  - case_match; intros [= <-]. apply moved_goto; rewrite ?Ep; cbn; try done; lia.
  - case_match; intros [= <-]. apply moved_goto; rewrite ?Ep; cbn; try done; lia.
  - destruct (c_response k) as [|r l]; [done|]. intros [= <-]. apply moved_goto; rewrite ?Ep; cbn; [done|intros; by apply (pc_insert s c k)|done|lia].
  - case_match; intros [= <-]. apply moved_goto; rewrite ?Ep; cbn; try done; lia.
  - intros [= <-]. apply moved_goto; rewrite ?Ep; cbn; [done|intros; apply (pc_close_conn close (removePending s (ident c)))|done|lia].
  - intros [= <-]. apply moved_goto; rewrite ?Ep; cbn; try done. destruct cancel; cbn; lia.
  - pose proof (pc_cancel s (ident c)) as E. destruct (cancel_section s (ident c)) as [s1 b]. cbn [fst] in E. intros [= <-].
    apply moved_goto; rewrite ?Ep; cbn; try done. destruct b; cbn; lia.
  - intros [= <-]. apply moved_goto; rewrite ?Ep; cbn; [done|intros; apply (pc_close_conn close (finishSendState s (ident c)))|done|lia].
  - intros [= <-]. apply moved_goto; rewrite ?Ep; cbn; try done; lia.
  - destruct (control_section _ _ _) as [s1|] eqn:E; [|done]. intros [= <-]. apply moved_goto; rewrite ?Ep; cbn; [done|intros; by eapply pc_control|done|].
    destruct ch; cbn; lia.
  - intros [= <-]. apply moved_stay; [done|done|intros; apply pc_close].
Qed.
Lemma returned_stable s a s' c r : pc_of s c = Some (CReturned r) -> step ident slots s a = Some s' -> pc_of s' c = Some (CReturned r).
Proof.
  intros Hp. destruct a as [c' a|a|a]; cbn.
  - assert (forall k, callers s !! c' = Some k -> caller_step ident s c' k a = Some s' -> pc_of s' c = Some (CReturned r)) as H.
    { intros k Hk E. destruct (pc_caller _ _ _ _ _ Hk E) as [H1 (pc' & H2 & H3)]. destruct (decide (c = c')) as [->|Hne]; [|by rewrite H1].
      unfold pc_of in Hp. rewrite Hk in Hp. injection Hp as Hp. rewrite Hp in H3. destruct (progress a); [cbn in H3; lia|]. by subst. }
    destruct a; try (destruct (callers s !! c') eqn:Hk; [by eapply H|done]).
    unfold begin_call. destruct (bool_decide _) eqn:En; [done|]. breflect. assert (c <> c') as Hne by (intros ->; apply En; unfold pc_of in Hp; destruct (callers s !! c'); [by eexists|done]).
    assert (forall s0 l, callers s0 = callers s -> pc_of (register ident s0 c' l) c = Some (CReturned r)) as Hg.
    { intros s0 l E. unfold register, pc_of. repeat case_match; cbn; rewrite lookup_insert_ne, E by done; exact Hp. }
    repeat case_match; intros [= <-]; by apply Hg.
  - intros E. by rewrite (pc_writer _ _ _ _ E).
  - intros E. by rewrite (pc_reader _ _ _ _ E).
Qed.
Lemma returned_forever l : forall s s' c r, pc_of s c = Some (CReturned r) -> schedule ident slots s l = Some s' -> pc_of s' c = Some (CReturned r).
Proof.
  induction l as [|a l IH]; intros s s' c r Hp; cbn; [by intros [= <-]|]. destruct (step ident slots s a) as [s1|] eqn:E; [|done]. cbn.
  apply IH. by eapply returned_stable.
Qed.
Lemma returned_quiet s c code : (forall i j, ident i = ident j -> i = j) -> reachable ident slots s -> pc_of s c = Some (CReturned (Failed code not_started)) ->
  WRequest c ∉ wire s.
Proof.
  intros Hj Hr Hp. apply (gateway_inv ident slots Hj) in Hr. unfold pc_of in Hp. destruct (callers s !! c) as [k|] eqn:Hk; [|done]. injection Hp as Hp.
  destruct (k_decided _ _ _ _ _ _ (i_calls _ _ Hr c k Hk) code) as [H _]; [by rewrite Hp|done].
Qed.
End Schedules.

(** ** Guarantees *)

(** C17: a caller is told that its request was not started only when that is true and stays
    true: whatever the callers, the writer, the reader, the contexts and the connection do
    before and after, the request is not on the wire and is never written. *)
Theorem not_started_sound ident slots s l s' c code :
  (forall i j, ident i = ident j -> i = j) -> reachable ident slots s ->
  c_pc <$> callers s !! c = Some (CReturned (Failed code not_started)) -> schedule ident slots s l = Some s' ->
  (WRequest c ∉ wire s) /\ (WRequest c ∉ wire s').
Proof.
  intros Hj Hr Hp Hs. split; [by apply (returned_quiet ident slots s c code)|]. apply (returned_quiet ident slots s' c code Hj).
  - by eapply schedule_reachable.
  - by eapply returned_forever.
Qed.

(** C19: every call ends. Each step of a caller, the expiry of its context and the return of
    its handler aside, brings it closer to returning, at most eight steps away, and moves no
    other caller; and once its context has expired a caller always has such a step to take,
    whatever the writer, the reader and the other callers do. *)
Theorem calls_end ident slots s c k :
  reachable ident slots s -> callers s !! c = Some k ->
  remaining (c_pc k) <= 8 /\
  (forall a s', caller_step ident s c k a = Some s' -> moved s s' c k a) /\
  (c_ctx k = true -> remaining (c_pc k) <> 0 -> exists a s', progress a = true /\ step ident slots s (ACaller c a) = Some s').
Proof.
  intros Hr Hk. split; [destruct (c_pc k); cbn; lia|]. split; [intros a s' E; by apply (pc_caller ident)|]. intros Hc Hn.
  assert (forall a s', progress a = true -> caller_step ident s c k a = Some s' -> exists a s', progress a = true /\ step ident slots s (ACaller c a) = Some s') as H.
  { intros a s' Ha E. exists a, s'. split; [done|]. cbn. destruct a; try done; by rewrite Hk. }
  destruct (c_pc k) eqn:Ep.
  - eapply (H EnqueueExpired); [done|]. unfold caller_step. by rewrite Ep, Hc.
  - eapply (H ResultExpired); [done|]. unfold caller_step. by rewrite Ep, Hc.
  - eapply (H ResponseExpired); [done|]. unfold caller_step. by rewrite Ep, Hc.
  - eapply (H Continue); [done|]. unfold caller_step. by rewrite Ep.
  - eapply (H Continue); [done|]. unfold caller_step. by rewrite Ep.
  - unfold caller_step in H. destruct (cancel_section s (ident c)) as [s1 b] eqn:E. eapply (H Continue); [done|]. by rewrite Ep.
  - destruct (length (ac_control s) <? agentWriteQueueSize) eqn:El; [eapply (H (ChooseControl ControlQueued))|
      destruct (ac_done s) eqn:Ed; [eapply (H (ChooseControl ControlDone))|eapply (H (ChooseControl ControlFull))]];
      try done; unfold caller_step, control_section; rewrite Ep, ?El, ?Ed; done.
  - eapply (H Continue); [done|]. unfold caller_step. by rewrite Ep.
  - eapply (H Continue); [done|]. unfold caller_step. by rewrite Ep.
  - done.
Qed.

Lemma writer_enabled ident slots s : (forall i j, ident i = ident j -> i = j) -> reachable ident slots s -> writer s <> WExited ->
  (writer s = WSelect -> send s <> [] \/ ac_control s <> [] \/ ac_done s = true) -> exists a s', writer_step ident s a = Some s'.
Proof.
  intros Hj Hr Hx Hsel. apply (gateway_inv ident slots Hj) in Hr as Hi. unfold writer_step.
  assert (forall c k e, callers s !! c = Some k -> c_result k = [] -> is_Some (write_result s c e)) as Hres by (intros c k e Hk Hn; unfold write_result; rewrite Hk, Hn; cbn; eauto).
  assert (forall w e, writer s = WReplyOk w -> is_Some (send_result s w e)) as Hok.
  { intros [c|id] e Ew; [|cbn; eauto]. destruct (in_hand_known ident s c Hi) as [k Hk]; [by rewrite Ew; cbn; rewrite decide_True|].
    apply (Hres c k e Hk). apply (result_ready ident s c k Hi Hk). left. rewrite Ew. cbn. by rewrite decide_True. }
  assert (forall c e, in_hand (wview (writer s) c) = 1 \/ 0 < count c (send s) -> forall s0, callers s0 = callers s -> is_Some (write_result (releaseInput s0 c) c e)) as Hrel.
  { intros c e Hh s0 E0. assert (exists k, callers s !! c = Some k) as [k Hk].
    { destruct (callers s !! c) as [k|] eqn:E; [by exists k|]. destruct (i_unborn _ _ Hi c E) as (_ & _ & V & N). rewrite V, N in Hh. cbn in Hh. lia. }
    rewrite (release_charge s0 c k), (result_charge _ c _ _ (charge_lookup _ _ _ _)) by
      (rewrite ?E0; (done || apply (ok_lease ident s c k), Hi, Hk || (cbn; by apply (result_ready ident s c k)))). eauto. }
  destruct (writer s) eqn:Ew; try done.
  - exists WContinue. eauto.
  - destruct (Hsel eq_refl) as [H|[H|H]].
    + destruct (send s) eqn:E; [done|]. exists PickSend. eauto.
    + destruct (ac_control s) eqn:E; [done|]. exists PickControl. eauto.
    + exists PickDone. rewrite H. eauto.
  - exists WContinue. eauto.
  - exists (Look false). eauto.
  - exists PostOk. eauto.
  - exists WContinue. eauto.
  - exists WContinue. destruct w as [c|id]; [|cbn; eauto]. cbn [release_write send_result].
    destruct (Hrel c (Some e)) with (s0 := s) as [s1 E]; [left; cbn; by rewrite decide_True|done|]. rewrite E. cbn. eauto.
  - exists WContinue. destruct (Hok w None eq_refl) as [s1 E]. rewrite E. cbn. eauto.
  - exists WContinue. eauto.
  - exists WContinue. eauto.
  - exists WContinue. destruct (cancel_section s id). eauto.
  - unfold control_section. destruct (length (ac_control s) <? agentWriteQueueSize) eqn:El; [exists (WChooseControl ControlQueued)|
      destruct (ac_done s) eqn:Ed; [exists (WChooseControl ControlDone)|exists (WChooseControl ControlFull)]]; rewrite ?El, ?Ed; cbn; eauto.
  - exists WContinue. eauto.
  - destruct (send s) as [|c l] eqn:Es.
    + destruct (ac_control s) eqn:Ec; [exists DrainEnd|exists DrainControl]; cbn; eauto.
    + exists DrainSend. apply Hrel; [|done]. right. unfold count. cbn. destruct (Nat.eq_dec c c); [lia|done].
Qed.

(** C18: nobody blocks for good and no queue overflows: at most 128 calls are pending and each
    queue holds at most 128 writes; the writer always has a step to take unless it has ended
    or waits for work on a live connection, since the channel for a write's result is always
    empty; and so does the reader once it has a reply to hand over, since the channel of the
    call is always empty; and a message reaches only the call whose identifier it names. *)
Theorem connection_never_stuck ident slots s :
  (forall i j, ident i = ident j -> i = j) -> reachable ident slots s ->
  size (pending s) <= 128 /\ length (send s) <= 128 /\ length (ac_control s) <= 128 /\
  (writer s <> WExited -> (writer s = WSelect -> send s <> [] \/ ac_control s <> [] \/ ac_done s = true) -> exists a s', writer_step ident s a = Some s') /\
  (reader s <> RLoop -> reader s <> RExited -> exists s', reader_step s RContinue = Some s') /\
  (forall id m s' c, reader_step s (Message id m) = Some s' -> reader s' = RDeliver c m -> id = ident c).
Proof.
  intros Hj Hr. apply (gateway_inv ident slots Hj) in Hr as Hi. split_and!; [apply Hi|apply Hi|apply Hi|by apply (writer_enabled ident slots)| |].
  - intros H1 H2. unfold reader_step, disconnectPending. destruct (reader s) as [|c m|l|[|c l]|] eqn:Er; try done; eauto.
    + destruct (deliver_inv ident s c (AgentReply m) RLoop Hi) as (s1 & E1 & _); [by rewrite Er|done|]. rewrite E1. cbn. eauto.
    + destruct (deliver_inv ident s c LostReply (RLost l) Hi) as (s1 & E1 & _); [by rewrite Er|by rewrite Er|]. rewrite E1. cbn. eauto.
  - intros id m s' c. unfold reader_step, disconnectPending. destruct (reader s) eqn:Er; try done. intros [= <-]. cbn. destruct (pending s !! id) as [c0|] eqn:Ep; [|done].
    intros [= ->]. by apply (i_pending _ _ Hi).
Qed.

(** ** Body slots *)

Section Slots.
Context (ident : nat -> bytes) (slots : Z).
Local Open Scope Z_scope.
Lemma slots_drop s c k l : bodySlots (drop_ref s c k l) <= bodySlots s.
Proof. unfold drop_ref. cbv zeta. case_match; cbn; lia. Qed.
Lemma slots_release s c : bodySlots (releaseInput s c) <= bodySlots s.
Proof. unfold releaseInput. repeat case_match; try lia. apply slots_drop. Qed.
Lemma slots_close s c : bodySlots (CloseLease s c) <= bodySlots s.
Proof. unfold CloseLease. repeat case_match; try lia. apply slots_drop. Qed.
Lemma slots_write s w : bodySlots (release_write s w) <= bodySlots s.
Proof. destruct w; cbn; [apply slots_release|lia]. Qed.
Lemma slots_result s w e s' : send_result s w e = Some s' -> bodySlots s' = bodySlots s.
Proof. destruct w; cbn; [unfold write_result; repeat case_match; by intros [= <-]|by intros [= <-]]. Qed.
Lemma slots_reply s c r s' : reply s c r = Some s' -> bodySlots s' = bodySlots s.
Proof. unfold reply. repeat case_match; by intros [= <-]. Qed.
Lemma slots_cancel s id : bodySlots (cancel_section s id).1 = bodySlots s.
Proof. unfold cancel_section. by repeat case_match. Qed.
Lemma slots_control s id ch s' : control_section s id ch = Some s' -> bodySlots s' = bodySlots s.
Proof. unfold control_section. repeat case_match; by intros [= <-]. Qed.
Lemma slots_conn b s : bodySlots (close_conn b s) = bodySlots s.
Proof. by destruct b. Qed.
Lemma slots_writer s a s' : writer_step ident s a = Some s' -> bodySlots s' <= bodySlots s.
Proof.
  unfold writer_step. destruct a, (writer s); try done; try (repeat case_match; intros [= <-]; cbn; lia).
  - destruct (send_result _ _ _) as [s1|] eqn:E; [|done]. intros [= <-]. apply slots_result in E. pose proof (slots_write s w). cbn. rewrite slots_conn. lia.
  - destruct (send_result _ _ _) as [s1|] eqn:E; [|done]. intros [= <-]. apply slots_result in E. cbn. lia.
  - pose proof (slots_cancel s id). destruct (cancel_section s id) as [s1 b]. intros [= <-]. cbn in *. lia.
  - intros [= <-]. cbn. rewrite slots_conn. cbn. lia.
  - intros [= <-]. cbn. etrans; [apply slots_write|done].
  - intros [= <-]. cbn. etrans; [apply slots_write|by destruct written].
  - destruct (control_section _ _ _) as [s1|] eqn:E; [|done]. intros [= <-]. apply slots_control in E. cbn. lia.
  - destruct (send s) as [|c0 l]; [done|]. intros E. apply (slots_result _ (WRequest c0)) in E. rewrite E. etrans; [apply slots_release|done].
Qed.
Lemma slots_reader s a s' : reader_step s a = Some s' -> bodySlots s' <= bodySlots s.
Proof.
  unfold reader_step, disconnectPending. destruct a, (reader s) as [|c0 m|l|[|c0 l]|]; try done; try (by intros [= <-]; repeat case_match; cbn; lia).
  all: destruct (reply _ _ _) as [s1|] eqn:E; [|done]; intros [= <-]; apply slots_reply in E; cbn; lia.
Qed.
Lemma slots_caller s c k a s' : caller_step ident s c k a = Some s' -> bodySlots s' <= bodySlots s.
Proof.
  unfold caller_step. destruct a, (c_pc k); try done; try (repeat case_match; intros [= <-]; cbn; lia).
  - case_match; intros [= <-]. etrans; [apply slots_release|done].
  - case_match; intros [= <-]. etrans; [apply slots_release|done].
  - destruct (c_result k) as [|e l]; [done|]. intros [= <-]. destruct e as [[]|]; [done|done|etrans; [apply slots_close|done]].
  - intros [= <-]. cbn. rewrite slots_conn. cbn. lia.
  - pose proof (slots_cancel s (ident c)). destruct (cancel_section s _) as [s1 b]. intros [= <-]. cbn in *. lia.
  - intros [= <-]. cbn. rewrite slots_conn. cbn. lia.
  - destruct (control_section _ _ _) as [s1|] eqn:E; [|done]. intros [= <-]. apply slots_control in E. cbn. lia.
  - intros [= <-]. apply slots_close.
Qed.
Lemma slots_bounded s : 0 <= slots -> reachable ident slots s -> bodySlots s <= slots.
Proof.
  intros H0. induction 1 as [|s a s' Hr IH E]; [done|]. destruct a as [c a|a|a]; cbn in E.
  - destruct a; try (destruct (callers s !! c); [apply slots_caller in E; lia|done]). unfold begin_call in E. destruct (bool_decide _); [done|].
    assert (forall s0 l, bodySlots (register ident s0 c l) = bodySlots s0) as Hg by (intros; unfold register; by repeat case_match).
    destruct lease; [destruct (bodySlots s <? slots) eqn:El; [|done]; apply Z.ltb_lt in El|]; injection E as <-; rewrite Hg; cbn; lia.
  - apply slots_writer in E. lia.
  - apply slots_reader in E. lia.
Qed.
End Slots.

(** ** Writes that are queued too late *)

Section Late.
Context (ident : nat -> bytes) (slots : Z).
Definition holds_lease (s : agentConn) (c : nat) : Prop := exists k l, callers s !! c = Some k /\ c_lease k = Some l /\ lease_held l = true.
Lemma holds_set s c c' k k' : holds_lease s c -> callers s !! c' = Some k ->
  (c' = c -> lease_held <$> c_lease k' = lease_held <$> c_lease k) -> holds_lease (set_caller s c' k') c.
Proof.
  intros (k0 & l0 & Hk0 & Hl0 & Hh) Hk Hs. unfold holds_lease, set_caller. cbn. destruct (decide (c' = c)) as [->|Hne].
  - rewrite lookup_insert_eq. specialize (Hs eq_refl). rewrite Hk0 in Hk. injection Hk as <-. rewrite Hl0 in Hs. cbn in Hs. rewrite Hh in Hs.
    destruct (c_lease k') as [l'|] eqn:El; [|done]. injection Hs as Hs. by exists k', l'.
  - rewrite lookup_insert_ne by done. eauto 6.
Qed.
Lemma holds_goto s c c' pc : holds_lease s c -> holds_lease (goto s c' pc) c.
Proof.
  intros (k0 & l0 & Hk0 & Hl0 & Hh). unfold holds_lease, goto. cbn. destruct (decide (c' = c)) as [->|Hne].
  - rewrite lookup_alter_eq, Hk0. eexists _, l0. split; [done|]. done.
  - rewrite lookup_alter_ne by done. eauto 6.
Qed.
Lemma holds_drop s c c' k l l' : holds_lease s c -> callers s !! c' = Some k -> c_lease k = Some l -> (c' = c -> lease_held l' = lease_held l) ->
  holds_lease (drop_ref s c' k l') c.
Proof.
  intros H Hk Hl Hs. assert (forall s0, callers s0 = callers (set_caller s c' (k <| c_lease := Some (l' <| lease_refs := (lease_refs l' - 1)%Z |>) |>)) -> holds_lease s0 c) as Hg.
  { intros s0 E. unfold holds_lease. rewrite E. apply (holds_set s c c' k _ H Hk). intros Hc. cbn. rewrite Hl. cbn. by rewrite Hs. }
  unfold drop_ref. cbv zeta. case_match; by apply Hg.
Qed.
Lemma holds_release s c c' : holds_lease s c -> c' <> c -> holds_lease (releaseInput s c') c.
Proof.
  intros H Hne. unfold releaseInput. destruct (callers s !! c') as [k|] eqn:Hk; [|done]. destruct (c_lease k) as [l|] eqn:El; [|done].
  case_match; [|done]. by apply (holds_drop s c c' k l).
Qed.
Lemma holds_close s c c' : holds_lease s c -> holds_lease (CloseLease s c') c.
Proof.
  intros H. unfold CloseLease. destruct (callers s !! c') as [k|] eqn:Hk; [|done]. destruct (c_lease k) as [l|] eqn:El; [|done].
  case_match; [done|]. by apply (holds_drop s c c' k l).
Qed.
(** The writer has ended, and the write of [c] is in its queue. *)
Definition late (s : agentConn) (c : nat) : Prop := writer s = WExited /\ c ∈ send s /\ holds_lease s c.
Lemma late_frame s s' c : late s c -> writer s' = writer s -> (forall c, c ∈ send s -> c ∈ send s') -> holds_lease s' c -> late s' c.
Proof. intros (H1 & H2 & H3) Hw Hs Hh. split_and!; [congruence|auto|done]. Qed.
Lemma send_release s c : send (releaseInput s c) = send s /\ writer (releaseInput s c) = writer s.
Proof. unfold releaseInput, drop_ref. cbv zeta. by repeat case_match. Qed.
Lemma send_close s c : send (CloseLease s c) = send s /\ writer (CloseLease s c) = writer s.
Proof. unfold CloseLease, drop_ref. cbv zeta. by repeat case_match. Qed.
Lemma late_caller s c c' k a s' : (forall i j, ident i = ident j -> i = j) -> inv ident s -> late s c -> callers s !! c' = Some k -> caller_step ident s c' k a = Some s' -> late s' c.
Proof.
  intros Hj Hi Hl Hk. assert (c_pc k = CEnqueue -> c' <> c) as Hne.
  { intros Ep ->. pose proof (k_tokens _ _ _ _ _ _ (i_calls _ _ Hi c k Hk)) as Ht. rewrite Ep in Ht. cbn in Ht. destruct Hl as (_ & Hin & _).
    apply list_elem_of_In, (count_occ_In Nat.eq_dec) in Hin. unfold count in Ht. lia. }
  destruct Hl as (Hw & Hin & Hh).
  unfold caller_step. destruct a, (c_pc k) eqn:Ep; try done.
  all: try (intros [= <-]; split_and!; [done|done|]; by apply (holds_set s c c' k)).
  - case_match; intros [= <-]. split_and!; [done|cbn; apply elem_of_app; by left|]. by apply (holds_goto s).
  - case_match; intros [= <-]. destruct (send_release (goto s c' (CRemove false "AGENT_OFFLINE" false)) c') as [E1 E2].
    split_and!; [by rewrite E2|by rewrite E1|]. apply holds_release; [by apply holds_goto|auto].
  - case_match; intros [= <-]. destruct (send_release (goto s c' (CRemove false "EXECUTION_TIMEOUT" true)) c') as [E1 E2].
    split_and!; [by rewrite E2|by rewrite E1|]. apply holds_release; [by apply holds_goto|auto].
  - destruct (c_result k) as [|e l]; [done|]. intros [= <-]. assert (holds_lease (set_caller s c' (k <| c_result := l |>)) c) as H by (by apply (holds_set s c c' k)).
    destruct e as [[]|]; [split_and!; [done|done|by apply holds_goto]..|].
    match goal with |- late (CloseLease ?x _) _ => destruct (send_close x c') as [E1 E2] end. split_and!; [by rewrite E2|by rewrite E1|]. by apply holds_close, holds_goto.
  - case_match; intros [= <-]. split_and!; [done|done|by apply holds_goto].
  - case_match; intros [= <-]. split_and!; [done|done|by apply holds_goto].
  - destruct (c_response k) as [|r l]; [done|]. intros [= <-]. split_and!; [done|done|]. apply holds_goto. by apply (holds_set s c c' k).
  - case_match; intros [= <-]. split_and!; [done|done|by apply holds_goto].
  - intros [= <-]. split_and!; [by destruct close|by destruct close|apply holds_goto; by destruct close].
  - intros [= <-]. split_and!; [done|done|by apply holds_goto].
  - pose proof (cancel_callers s (ident c')) as E. pose proof (cancel_writer s (ident c')) as E'. assert (send (cancel_section s (ident c')).1 = send s) as E'' by (unfold cancel_section; by repeat case_match).
    destruct (cancel_section s (ident c')) as [s1 b]. cbn [fst] in *. intros [= <-]. split_and!; [by cbn; rewrite E'|by cbn; rewrite E''|]. apply holds_goto. unfold holds_lease. by rewrite E.
  - intros [= <-]. split_and!; [by destruct close|by destruct close|apply holds_goto; by destruct close].
  - intros [= <-]. split_and!; [done|done|by apply holds_goto].
  - destruct (control_section _ _ _) as [s1|] eqn:E; [|done]. intros [= <-]. assert (callers s1 = callers s /\ send s1 = send s /\ writer s1 = writer s) as (E1 & E2 & E3).
    { unfold control_section in E. by repeat case_match; simplify_eq. }
    split_and!; [by cbn; rewrite E3|by cbn; rewrite E2|]. apply holds_goto. unfold holds_lease. by rewrite E1.
  - intros [= <-]. destruct (send_close s c') as [E1 E2]. split_and!; [by rewrite E2|by rewrite E1|]. by apply holds_close.
Qed.
Lemma late_step s a s' c : (forall i j, ident i = ident j -> i = j) -> inv ident s -> late s c -> step ident slots s a = Some s' -> late s' c.
Proof.
  intros Hj Hi Hl. destruct a as [c' a|a|a]; cbn.
  - destruct a; try (destruct (callers s !! c') as [k|] eqn:Hk; [by apply late_caller|done]). destruct Hl as (Hw & Hin & k & l & Hk & Hlk & Hh).
    unfold begin_call. destruct (bool_decide _) eqn:En; [done|]. breflect. assert (c' <> c) as Hne by (intros ->; apply En; by eexists).
    assert (forall s0 b, callers s0 = callers s -> send s0 = send s -> writer s0 = writer s -> late (register ident s0 c' b) c) as Hg.
    { intros s0 b E1 E2 E3. unfold register. repeat case_match; (split_and!; cbn; [by rewrite E3|by rewrite E2|]);
        exists k, l; cbn; rewrite E1, lookup_insert_ne by done; done. }
    repeat case_match; intros [= <-]; by apply Hg.
  - destruct Hl as (Hw & _). unfold writer_step. rewrite Hw. by destruct a.
  - destruct Hl as (Hw & Hin & Hh). assert (forall c0 r s1 pc, reply s c0 r = Some s1 -> late (rgoto s1 pc) c) as Hg.
    { intros c0 r s1 pc. unfold reply. destruct (callers s !! c0) as [k|] eqn:Hk; [|done]. case_match; [|done]. intros [= <-]. split_and!; [done|done|].
      by apply (holds_set s c c0 k). }
    unfold reader_step, disconnectPending. destruct a, (reader s) as [|c0 m|l|[|c0 l]|]; try done; try (intros [= <-]; by repeat case_match).
    all: destruct (reply _ _ _) as [s1|] eqn:E; [|done]; intros [= <-]; by eapply Hg.
Qed.
Lemma late_forever l : (forall i j, ident i = ident j -> i = j) -> forall s s' c, inv ident s -> late s c -> schedule ident slots s l = Some s' -> inv ident s' /\ late s' c.
Proof.
  intros Hj. induction l as [|a l IH]; intros s s' c Hi Hl; cbn; [by intros [= <-]|]. destruct (step ident slots s a) as [s1|] eqn:E; [|done]. cbn.
  apply IH; [by eapply gateway_step_inv|by eapply late_step].
Qed.
Lemma late_slot s c : inv ident s -> late s c -> (1 <= bodySlots s)%Z.
Proof.
  intros Hi (_ & _ & k & l & Hk & Hl & Hh). rewrite (i_slots _ _ Hi). rewrite <- (insert_delete_id _ _ _ Hk), msum_insert by apply lookup_delete_eq.
  destruct (k_lease _ _ _ _ _ _ (i_calls _ _ Hi c k Hk) l Hl) as [A _]. rewrite Hh in A.
  assert (occupied k = 1%Z) as -> by (unfold occupied; rewrite Hl, A; by destruct (lease_closed l)).
  assert (0 <= msum occupied (delete c (callers s)))%Z; [|lia]. apply msum_nonneg. intros c' k' _. unfold occupied. repeat case_match; lia.
Qed.
End Late.

(** the slots of request bodies are accounted for: the number taken is that of the calls
    whose lease has references left, never above the capacity, and a call keeps its slot only
    while its handler has not closed the lease, or while its write, which holds the lease, is
    waiting to be queued, is queued, or is in the hands of the writer. *)
Theorem body_slots_accounted ident slots s :
  (forall i j, ident i = ident j -> i = j) -> (0 <= slots)%Z -> reachable ident slots s ->
  bodySlots s = msum occupied (callers s) /\ (0 <= bodySlots s <= slots)%Z /\
  (forall c k, callers s !! c = Some k -> occupied k = 1%Z -> exists l, c_lease k = Some l /\
     (lease_closed l = false \/ c_pc k = CEnqueue \/ c ∈ send s \/ holds (wview (writer s) c) = 1)).
Proof.
  intros Hj H0 Hr. apply (gateway_inv ident slots Hj) in Hr as Hi. pose proof (i_slots _ _ Hi) as Hs. split_and!; [done| |by apply (slots_bounded ident)|].
  - rewrite Hs. apply msum_nonneg. intros c k _. unfold occupied. repeat case_match; lia.
  - intros c k Hk Ho. unfold occupied in Ho. destruct (c_lease k) as [l|] eqn:El; [|done]. exists l. split; [done|].
    destruct (k_lease _ _ _ _ _ _ (i_calls _ _ Hi c k Hk) l El) as [A B]. destruct (lease_closed l); [right|by left].
    destruct (lease_held l); [specialize (B eq_refl)|by rewrite A in Ho]. destruct (holds _) eqn:Eh; [|right; right; destruct (c_pc k); cbn in *; lia].
    destruct (c_pc k); cbn in B; [by left|..]; right; left; unfold count in B; apply list_elem_of_In, (count_occ_In Nat.eq_dec); lia.
Qed.

(** ** Examples *)

Definition example_ident (c : nat) : bytes := [Z.of_nat c].
Lemma example_ident_inj : forall i j, example_ident i = example_ident j -> i = j.
Proof. intros i j [= H]. lia. Qed.
(** The connection is lost between the registration of a call and the queueing of its write. *)
Definition late_actions : list action :=
  [ACaller 0 (Begin true); AReader Stop; AReader RContinue; AWriter WContinue; AWriter PickDone; AWriter DrainEnd;
   ACaller 0 Enqueue; ACaller 0 ResultDone; ACaller 0 Continue; ACaller 0 Continue; ACaller 0 HandlerReturns; AReader RContinue; AReader RContinue].
Definition late_state : agentConn := default newAgentConn (schedule example_ident 1 newAgentConn late_actions).

(** A call expires while its write is queued; the writer takes the write afterwards. *)
Definition expired_actions : list action :=
  [ACaller 0 (Begin true); ACaller 0 Enqueue; ACaller 0 Expire; ACaller 0 ResultExpired; ACaller 0 Continue; ACaller 0 Continue; ACaller 0 Continue].
Definition expired_state : agentConn := default newAgentConn (schedule example_ident 1 newAgentConn expired_actions).
Lemma expired_reachable : reachable example_ident 1 expired_state.
Proof. apply (new_schedule _ _ expired_actions). vm_compute. reflexivity. Qed.
Definition writer_actions : list action := [AWriter WContinue; AWriter PickSend; AWriter WContinue; AWriter WContinue].

Lemma not_started_sound_witness : exists s',
  schedule example_ident 1 expired_state writer_actions = Some s' /\ writer s' = WTop /\ WRequest 0 ∉ wire s'.
Proof.
  assert (exists s', schedule example_ident 1 expired_state writer_actions = Some s' /\ writer s' = WTop) as (s' & E & Ew) by (eexists; split; vm_compute; reflexivity).
  exists s'. split; [exact E|]. split; [exact Ew|].
  apply (not_started_sound example_ident 1 expired_state writer_actions s' 0 "EXECUTION_TIMEOUT" example_ident_inj expired_reachable); [vm_compute; reflexivity|exact E].
Defined.
Lemma calls_end_witness : exists s k a s', reachable example_ident 1 s /\ callers s !! 0 = Some k /\ c_pc k = CWriteResult /\
  progress a = true /\ step example_ident 1 s (ACaller 0 a) = Some s'.
Proof.
  pose (l := [ACaller 0 (Begin true); ACaller 0 Enqueue; ACaller 0 Expire]).
  assert (exists s, schedule example_ident 1 newAgentConn l = Some s) as [s E] by (eexists; vm_compute; reflexivity).
  pose proof (new_schedule _ _ _ _ E) as Hr. assert (exists k, callers s !! 0 = Some k /\ c_pc k = CWriteResult /\ c_ctx k = true) as (k & Hk & Hp & Hc).
  { vm_compute in E. injection E as <-. eexists. vm_compute. split; [reflexivity|split; reflexivity]. }
  destruct (calls_end example_ident 1 s 0 k Hr Hk) as (_ & _ & H). destruct H as (a & s' & Ha & Hs); [exact Hc|rewrite Hp; discriminate|].
  exists s, k, a, s'. split_and!; assumption.
Defined.
Lemma connection_never_stuck_witness : size (pending expired_state) <= 128 /\ exists a s', writer_step example_ident expired_state a = Some s'.
Proof.
  destruct (connection_never_stuck example_ident 1 expired_state example_ident_inj expired_reachable) as (H1 & _ & _ & H2 & _).
  split; [exact H1|]. apply H2; vm_compute; discriminate.
Defined.
Lemma body_slots_accounted_witness : bodySlots expired_state = 1%Z /\ bodySlots expired_state = msum occupied (callers expired_state).
Proof.
  split; [vm_compute; reflexivity|]. apply (body_slots_accounted example_ident 1 expired_state example_ident_inj); [lia|exact expired_reachable].
Defined.

(** C36: a slot for request bodies can be lost for good. When the connection ends after a call
    has registered, [callAgentOn] may still choose to queue its write although [writeAgent]
    has emptied its queues and returned. The call and its handler return, but nothing
    releases the lease that the queued write holds: with a capacity of one, every later
    request with a body is refused, whatever happens. *)
Theorem body_slot_lost :
  reachable example_ident 1 late_state /\ writer late_state = WExited /\ reader late_state = RExited /\
  c_pc <$> callers late_state !! 0 = Some (CReturned (Failed "AGENT_OFFLINE" unknown)) /\
  forall l s, schedule example_ident 1 late_state l = Some s -> (1 <= bodySlots s)%Z /\ forall c, begin_call example_ident 1 s c true = None.
Proof.
  assert (schedule example_ident 1 newAgentConn late_actions = Some late_state) as E by (vm_compute; reflexivity).
  pose proof (new_schedule _ _ _ _ E) as Hr. split_and!; [done|done|done|vm_compute; reflexivity|]. intros l s Hs.
  apply (gateway_inv _ _ example_ident_inj) in Hr as Hi. assert (late late_state 0) as Hl.
  { split_and!; [done|vm_compute; left|]. eexists _, _. split_and!; vm_compute; reflexivity. }
  destruct (late_forever _ _ l example_ident_inj _ _ _ Hi Hl Hs) as [Hi' Hl']. pose proof (late_slot _ _ _ Hi' Hl') as H1. split; [done|].
  intros c. unfold begin_call. case_match; [done|]. destruct (_ <? _)%Z eqn:El; [|done]. apply Z.ltb_lt in El. lia.
Qed.
