(* ===== verification/GatewayAuth.v ===== *)
(** * Authentication at the gateway ([gateway/auth.go], messages of [protocol/protocol.go])
    The challenges that an agent signs, the nonces it uses, and the API keys of callers with
    the cache of successful comparisons. Every section under [authMu] is one function on the
    state; requests interleave between sections. [ed25519.Verify] and bcrypt's comparison
    are arguments of the model, about which nothing is assumed; [crypto/rand] gives the
    bytes of a challenge. Instants are nanoseconds on the gateway's clock. *)
From Stdlib Require Import ZArith Lia Sorted.
From stdpp Require Import base gmap sets list option strings.
From coqutil Require Import Datatypes.RecordSettersUsingExistingGetters.
From S2P Require Import Prelude GoTime Utf8 Base64 Sha256 Strconv Json JsonText GoStrings GoDate ValueFormat.
Local Open Scope Z_scope.
#[global] Arguments const {E} newValue / _.

(** ** [base64.RawURLEncoding] *)

Definition url_char (v : Z) : Z := if v =? 62 then 45 else if v =? 63 then 95 else b64_char v.
Definition url_value (c : Z) : option Z :=
  if c =? 45 then Some 62 else if c =? 95 then Some 63 else if (c =? 43) || (c =? 47) then None else b64_value c.
Fixpoint raw_url_encode (s : bytes) : bytes :=
  match s with
  | [] => []
  | [a] => [url_char (a / 4); url_char (a mod 4 * 16)]
  | [a; b] => [url_char (a / 4); url_char (a mod 4 * 16 + b / 16); url_char (b mod 16 * 4)]
  | a :: b :: c :: s =>
      url_char (a / 4) :: url_char (a mod 4 * 16 + b / 16) :: url_char (b mod 16 * 4 + c / 64) :: url_char (c mod 64) :: raw_url_encode s
  end.
(** Without padding the last quantum may have two or three characters; unused bits are ignored. *)
Fixpoint raw_url_quanta (s : bytes) : option bytes :=
  match s with
  | [] => Some []
  | [_] => None
  | [c1; c2] => v1 ← url_value c1; v2 ← url_value c2; Some [v1 * 4 + v2 / 16]
  | [c1; c2; c3] => v1 ← url_value c1; v2 ← url_value c2; v3 ← url_value c3; Some [v1 * 4 + v2 / 16; v2 mod 16 * 16 + v3 / 4]
  | c1 :: c2 :: c3 :: c4 :: s =>
      v1 ← url_value c1; v2 ← url_value c2; v3 ← url_value c3; v4 ← url_value c4; r ← raw_url_quanta s;
      Some (v1 * 4 + v2 / 16 :: v2 mod 16 * 16 + v3 / 4 :: v3 mod 4 * 64 + v4 :: r)
  end.
Definition raw_url_decode (s : bytes) : option bytes := raw_url_quanta (strip_newlines s).

(** ** [time.Parse(time.RFC3339, s)] *)

Definition rfc_date (s : bytes) : option (Z * bytes) :=
  '(y, s) ← long_year s; s ← read_char 45 s; '(m, s) ← field true 1 12 s; s ← read_char 45 s;
  '(d, s) ← getnum true s; if (1 <=? d) && (d <=? days_in m y) then Some (days_of_civil y m d - epoch_days, s) else None.
Definition rfc_fraction (s : bytes) : Z * bytes :=
  match s with
  | c :: d :: r =>
      if ((c =? 46) || (c =? 44)) && isdigit d then
        let '(ds, t) := span_digits (d :: r) in (digits_value (take 9 (ds ++ replicate 9 48)), t)
      else (0, s)
  | _ => (0, s)
  end.
Definition rfc_zone (s : bytes) : option (Z * bytes) :=
  match s with
  | c :: r =>
      if c =? 90 then Some (0, r) else
      if (Z.of_nat (length s) <? 6) || negb (byte_at s 3 =? 58) then None else
      '(h, _) ← getnum true (slice s 1 3); '(m, _) ← getnum true (slice s 4 6);
      if (24 <? h) || (60 <? m) || negb ((c =? 43) || (c =? 45)) then None
      else Some ((if c =? 45 then -1 else 1) * (h * 3600 + m * 60), drop 6 s)
  | [] => None
  end.
Definition ParseRFC3339 (s : bytes) : option Z :=
  '(day, s) ← rfc_date s; s ← read_char 84 s; '(h, s) ← field false 0 23 s; s ← read_char 58 s;
  '(mi, s) ← field true 0 59 s; s ← read_char 58 s; '(sec, s) ← field true 0 59 s;
  let '(ns, s) := rfc_fraction s in
  '(z, s) ← rfc_zone s;
  if bool_decide (s = []) then Some ((day * 86400 + h * 3600 + mi * 60 + sec - z) * nanos_per_second + ns) else None.

(** ** Messages *)

Definition AgentAuthVersion : bytes := lit "onprest-agent-v2".
Definition AgentVerifyAuthVersion : bytes := lit "onprest-agent-verify-v1".
Definition AgentAuthMessage (path timestamp nonce challenge handshakeKey : bytes) : bytes :=
  AgentAuthVersion ++ [10] ++ path ++ [10] ++ timestamp ++ [10] ++ nonce ++ [10] ++ challenge ++ [10] ++ handshakeKey.
Definition AgentVerifyAuthMessage (path timestamp nonce challenge : bytes) : bytes :=
  AgentVerifyAuthVersion ++ [10] ++ path ++ [10] ++ timestamp ++ [10] ++ nonce ++ [10] ++ challenge.

(** ** The agent's credentials *)

Definition minute : Z := 60 * nanos_per_second.
Definition maxAgentChallenges : nat := 1024.
Definition agentChallengeTTL : Z := minute.
Record credentials := { agentChallenges : gmap bytes Z; nonces : gmap bytes Z }.
(** [Header.Get] of the headers that an agent sends, and the path of the request. *)
Record agent_request := { ag_path : bytes; ag_timestamp : bytes; ag_nonce : bytes; ag_signature : bytes; ag_challenge : bytes; ag_handshake : bytes }.

Definition cleanupAgentAuthState (s : credentials) (now : Z) : credentials :=
  {| agentChallenges := filter (fun kv => negb (kv.2 <? now - agentChallengeTTL) = true) (agentChallenges s);
     nonces := filter (fun kv => negb (kv.2 <? now - 5 * minute) = true) (nonces s) |}.
(** The entry with the least instant, the first of several. *)
Definition older (o : option (bytes * Z)) (kv : bytes * Z) : option (bytes * Z) :=
  match o with Some old => if kv.2 <? old.2 then Some kv else Some old | None => Some kv end.
Definition oldest_entry (l : list (bytes * Z)) : option (bytes * Z) := foldl older None l.
Definition evictOldestChallenge (s : credentials) : credentials :=
  match oldest_entry (map_to_list (agentChallenges s)) with
  | Some (c, _) => s <| agentChallenges ::= delete c |>
  | None => s
  end.
(** [handleAgentChallenge], on the random bytes it draws. *)
Definition issueChallenge (s : credentials) (raw : bytes) (now : Z) : credentials * bytes :=
  let challenge := raw_url_encode raw in
  let s := cleanupAgentAuthState s now in
  let s := if (maxAgentChallenges <=? size (agentChallenges s))%nat then evictOldestChallenge s else s in
  (s <| agentChallenges ::= insert challenge now |>, challenge).
Definition takeAgentCredentials (s : credentials) (challenge nonce : bytes) (ts now : Z) : credentials * bool :=
  let s := cleanupAgentAuthState s now in
  match agentChallenges s !! challenge with
  | None => (s, false)
  | Some issued =>
      if agentChallengeTTL <? time_sub now issued then (s, false)
      else if bool_decide (is_Some (nonces s !! nonce)) then (s, false)
      else (s <| agentChallenges ::= delete challenge |> <| nonces ::= insert nonce ts |>, true)
  end.

Section Agent.
Context (Verify : bytes -> bytes -> bytes -> bool).   (* public key, message, signature *)
Context (AgentPublicKey : bytes).

(** The checks before the credentials are taken: the instant of the timestamp, if the
    signature is good and the timestamp is recent. *)
Definition check_signature (r : agent_request) (message : bytes) (present : bool) (now : Z) : option Z :=
  publicKey ← raw_url_decode AgentPublicKey;
  if negb (length publicKey =? 32)%nat || negb present then None else
  ts ← ParseRFC3339 (ag_timestamp r);
  let d := time_sub now ts in
  if (d <? - minute) || (5 * minute <? d) then None else
  signature ← raw_url_decode (ag_signature r);
  if negb (length signature =? 64)%nat || negb (Verify publicKey message signature) then None else Some ts.
Definition fields_present (r : agent_request) : bool :=
  negb (bytes_eqb (ag_timestamp r) [] || bytes_eqb (ag_nonce r) [] || bytes_eqb (ag_challenge r) [] || bytes_eqb (ag_signature r) []).
Definition connect_check (r : agent_request) (now : Z) : option Z :=
  check_signature r (AgentAuthMessage (ag_path r) (ag_timestamp r) (ag_nonce r) (ag_challenge r) (ag_handshake r))
    (fields_present r && negb (bytes_eqb (ag_handshake r) [])) now.
Definition verify_check (r : agent_request) (now : Z) : option Z :=
  ts ← check_signature r (AgentVerifyAuthMessage (ag_path r) (ag_timestamp r) (ag_nonce r) (ag_challenge r))
    (fields_present r && bytes_eqb (ag_handshake r) []) now;
  if bytes_eqb (ag_path r) (lit "/ws/agent/verify") then Some ts else None.
(** [authenticateAgent] and [authenticateAgentVerify]: the clock is read for the checks and again under the mutex. *)
Definition authenticateAgent (s : credentials) (r : agent_request) (t1 t2 : Z) : credentials * bool :=
  match connect_check r t1 with Some ts => takeAgentCredentials s (ag_challenge r) (ag_nonce r) ts t2 | None => (s, false) end.
Definition authenticateAgentVerify (s : credentials) (r : agent_request) (t1 t2 : Z) : credentials * bool :=
  match verify_check r t1 with Some ts => takeAgentCredentials s (ag_challenge r) (ag_nonce r) ts t2 | None => (s, false) end.

(** The requests that reach the gateway, with what was issued and accepted. *)
Inductive agent_op := Issue (raw : bytes) (now : Z) | Connect (r : agent_request) (t1 t2 : Z) | VerifyKey (r : agent_request) (t1 t2 : Z).
Record agent_world := { creds : credentials; issued : list (bytes * Z); accepted : list (agent_request * Z * Z) }.
Definition op_check (op : agent_op) : option (agent_request * Z * Z) :=
  match op with
  | Issue _ _ => None
  | Connect r t1 t2 => (fun ts => (r, ts, t2)) <$> connect_check r t1
  | VerifyKey r t1 t2 => (fun ts => (r, ts, t2)) <$> verify_check r t1
  end.
Definition agent_step (w : agent_world) (op : agent_op) : agent_world :=
  match op with
  | Issue raw now => let '(c, ch) := issueChallenge (creds w) raw now in w <| creds := c |> <| issued ::= fun l => l ++ [(ch, now)] |>
  | Connect r t1 t2 =>
      let '(c, ok) := authenticateAgent (creds w) r t1 t2 in
      w <| creds := c |> <| accepted ::= fun l => l ++ (if ok then option_list (op_check op) else []) |>
  | VerifyKey r t1 t2 =>
      let '(c, ok) := authenticateAgentVerify (creds w) r t1 t2 in
      w <| creds := c |> <| accepted ::= fun l => l ++ (if ok then option_list (op_check op) else []) |>
  end.
End Agent.
Definition new_agent_world : agent_world := {| creds := {| agentChallenges := ∅; nonces := ∅ |}; issued := []; accepted := [] |}.
Definition raws (ops : list agent_op) : list bytes := omap (fun op => match op with Issue raw _ => Some raw | _ => None end) ops.
(** The time with which an operation cleans up and looks: a challenge's is read before the
    mutex is taken, the others' with the mutex held. *)
Definition op_time (op : agent_op) : Z := match op with Issue _ t => t | Connect _ _ t | VerifyKey _ _ t => t end.
(** What a clock that does not go back gives two operations that hold the mutex in this order:
    a time read with the mutex held is not before the time of an earlier holder. The time of
    a challenge may be: its request may have waited for the mutex. *)
Definition clock_order (a b : agent_op) : Prop := match b with Issue _ _ => True | _ => op_time a <= op_time b end.

(** ** API keys *)

Record APIKey := { key_Name : bytes; KeyHash : bytes; Capabilities : list bytes }.
Record cachedAPIKey := { ce_key : APIKey; ce_expires : Z; ce_lastUsed : Z }.
Definition maxAPIKeyCacheEntries : nat := 1024.
Definition maxConcurrentAPIKeyAuthentications : nat := 4.
Definition apiKeyCacheTTL : Z := 5 * minute.
Abbreviation key_cache := (gmap bytes cachedAPIKey).

(** The lookup, which forgets an expired entry and marks a valid one as used. *)
Definition cachedKey (m : key_cache) (digest : bytes) (now : Z) : key_cache * option APIKey :=
  match m !! digest with
  | None => (delete digest m, None)
  | Some e =>
      if ce_expires e <? now then (delete digest m, None)
      else (<[digest := e <| ce_lastUsed := now |>]> m, Some (ce_key e))
  end.
Definition cacheAPIKey (m : key_cache) (digest : bytes) (key : APIKey) (now : Z) : key_cache :=
  let m := filter (fun kv => negb (ce_expires kv.2 <? now) = true) m in
  let m := if (maxAPIKeyCacheEntries <=? size m)%nat then
             match oldest_entry (prod_map id ce_lastUsed <$> map_to_list m) with Some (h, _) => delete h m | None => m end
           else m in
  <[digest := {| ce_key := key; ce_expires := now + apiKeyCacheTTL; ce_lastUsed := now |}]> m.
Definition bearer_token (authorization apiKey : bytes) : bytes :=
  let token := (if bytes_eqb (take 7 authorization) (lit "Bearer ") then drop 7 authorization else authorization) in
  if bytes_eqb token [] then apiKey else token.
Definition allowed (key : APIKey) (cap : bytes) : bool := existsb (fun v => bytes_eqb v (lit "*") || bytes_eqb v cap) (Capabilities key).

Section Keys.
Context (CompareHashAndPassword : bytes -> bytes -> bool) (APIKeys : list APIKey).

(** Where a request is in [authenticate]: a slot is held from [KRecheck] to the end. *)
Inductive key_pc := KLookup | KSlot | KRecheck | KCompare (l : list APIKey) | KStore (key : APIKey) | KReturned (r : option APIKey) (status : Z).
Record key_request := { kr_token : bytes; kr_pc : key_pc }.
Record key_world := { kw_cache : key_cache; kw_slots : nat; kw_requests : gmap nat key_request; kw_stores : list (bytes * APIKey * Z) }.
Definition key_goto (w : key_world) (n : nat) (pc : key_pc) : key_world :=
  w <| kw_requests ::= alter (fun r => {| kr_token := kr_token r; kr_pc := pc |}) n |>.
Definition free_slot (w : key_world) : key_world := w <| kw_slots ::= pred |>.
Inductive key_action := KBegin (authorization apiKey : bytes) | KStep (now : Z).
(** One section of the request [n]. What is put into the cache is recorded with its time. *)
Definition key_step (w : key_world) (n : nat) (a : key_action) : option key_world :=
  match a, kw_requests w !! n with
  | KBegin authorization apiKey, None =>
      let token := bearer_token authorization apiKey in
      Some (w <| kw_requests ::= insert n {| kr_token := token; kr_pc := if bytes_eqb token [] then KReturned None 401 else KLookup |} |>)
  | KStep now, Some r =>
      let digest := sha256 (kr_token r) in
      match kr_pc r with
      | KLookup =>
          let '(m, k) := cachedKey (kw_cache w) digest now in
          Some (key_goto (w <| kw_cache := m |>) n (match k with Some k => KReturned (Some k) 0 | None => KSlot end))
      | KSlot =>
          Some (if (kw_slots w <? maxConcurrentAPIKeyAuthentications)%nat then key_goto (w <| kw_slots ::= S |>) n KRecheck
                else key_goto w n (KReturned None 429))
      | KRecheck =>
          let '(m, k) := cachedKey (kw_cache w) digest now in
          let w := w <| kw_cache := m |> in
          Some (match k with Some k => key_goto (free_slot w) n (KReturned (Some k) 0) | None => key_goto w n (KCompare APIKeys) end)
      | KCompare [] => Some (key_goto (free_slot w) n (KReturned None 401))
      | KCompare (key :: l) =>
          Some (if CompareHashAndPassword (KeyHash key) (kr_token r) then key_goto w n (KStore key) else key_goto w n (KCompare l))
      | KStore key =>
          let w := w <| kw_cache ::= fun m => cacheAPIKey m digest key now |> <| kw_stores ::= fun l => l ++ [(kr_token r, key, now)] |> in
          Some (key_goto (free_slot w) n (KReturned (Some key) 0))
      | KReturned _ _ => None
      end
  | _, _ => None
  end.
End Keys.

(* ------------------------------------------------------------------ *)
(** ** Lemmas: text *)

Lemma url_value_char v : 0 <= v < 64 -> url_value (url_char v) = Some v.
Proof.
  intros Hv. unfold url_char, url_value. destruct (v =? 62) eqn:E1; breflect; [by subst|]. destruct (v =? 63) eqn:E2; breflect; [by subst|].
  rewrite b64_value_char by done. unfold b64_char. repeat case_test; breflect; try done; exfalso; lia.
Qed.
Lemma raw_url_quanta_encode s : Forall is_byte s -> raw_url_quanta (raw_url_encode s) = Some s.
Proof.
  induction s as [|a|a b|a b c s IH] using three_bytes_ind; intros Hs; [done|..];
    repeat (apply Forall_cons in Hs as [? Hs]); unfold is_byte in *;
    cbn [raw_url_encode raw_url_quanta]; rewrite !url_value_char by zdiv; cbn -[Z.mul Z.add Z.div Z.modulo].
  - repeat f_equal; zdiv.
  - repeat f_equal; zdiv.
  - rewrite IH by done. cbn -[Z.mul Z.add Z.div Z.modulo]. repeat f_equal; zdiv.
Qed.
(** Different random bytes give different challenges. *)
Lemma raw_url_encode_inj a b : Forall is_byte a -> Forall is_byte b -> raw_url_encode a = raw_url_encode b -> a = b.
Proof. intros Ha Hb E. apply raw_url_quanta_encode in Ha, Hb. congruence. Qed.

Lemma split_at_newline a b a' b' : 10 ∉ a -> 10 ∉ a' -> a ++ 10 :: b = a' ++ 10 :: b' -> a = a' /\ b = b'.
Proof.
  revert a'. induction a as [|x a IH]; intros [|y a'] H1 H2 E; cbn in E; injection E.
  - by intros ->.
  - intros _ <-. by destruct H2; left.
  - intros _ ->. by destruct H1; left.
  - intros E' ->. destruct (IH a') as [-> ->]; [set_solver..|done|done].
Qed.
(** No message for the key check is one for a connection. *)
Lemma messages_differ p t n c k p' t' n' c' : AgentAuthMessage p t n c k <> AgentVerifyAuthMessage p' t' n' c'.
Proof. unfold AgentAuthMessage, AgentVerifyAuthMessage. by vm_compute. Qed.

(** ** Lemmas: challenges *)

Lemma insert_size_le {A} (m : gmap bytes A) k v n : (S (size m) <= n)%nat -> (size (<[k := v]> m) <= n)%nat.
Proof. intros H. rewrite map_size_insert. destruct (m !! k); cbn; lia. Qed.

Lemma cleanup_challenges s now c t : agentChallenges (cleanupAgentAuthState s now) !! c = Some t -> agentChallenges s !! c = Some t.
Proof. cbn. by intros [H _]%map_lookup_filter_Some. Qed.
Lemma cleanup_nonces s now n t : nonces s !! n = Some t -> now - 5 * minute <= t -> nonces (cleanupAgentAuthState s now) !! n = Some t.
Proof. cbn. intros H Ht. apply map_lookup_filter_Some. split; [done|]. cbn. apply negb_true_iff, Z.ltb_ge. lia. Qed.
Lemma oldest_in l : forall kv, oldest_entry l = Some kv -> kv ∈ l.
Proof.
  assert (forall l o kv, foldl older o l = Some kv ->
    o = Some kv \/ kv ∈ l) as H.
  { clear l. induction l as [|x l IH]; intros o kv; cbn; [by left|]. intros E. apply IH in E as [E|E]; [|right; by right].
    unfold older in E. destruct o as [old|]; [|injection E as ->; right; left]. destruct (x.2 <? old.2); injection E as ->; [right; left|by left]. }
  intros kv E. by apply H in E as [?|?].
Qed.
Lemma oldest_some l : l <> [] -> is_Some (oldest_entry l).
Proof.
  assert (forall l o, is_Some o -> is_Some (foldl older o l)) as H.
  { clear l. induction l as [|x l IH]; intros o Ho; cbn; [done|]. apply IH. destruct Ho as [old ->]. cbn. destruct (_ <? _); eauto. }
  destruct l as [|x l]; [done|]. intros _. apply (H l (Some x)). by exists x.
Qed.
Lemma evict_subset s c t : agentChallenges (evictOldestChallenge s) !! c = Some t -> agentChallenges s !! c = Some t.
Proof. unfold evictOldestChallenge. destruct (oldest_entry _) as [[c0 t0]|]; [|done]. cbn. by intros [_ H]%lookup_delete_Some. Qed.
Lemma evict_nonces s : nonces (evictOldestChallenge s) = nonces s.
Proof. unfold evictOldestChallenge. by destruct (oldest_entry _) as [[c0 t0]|]. Qed.
Lemma evict_size s : (size (agentChallenges (evictOldestChallenge s)) <= pred (size (agentChallenges s)))%nat.
Proof.
  unfold evictOldestChallenge. destruct (oldest_entry _) as [[c t]|] eqn:E.
  - apply oldest_in, elem_of_map_to_list in E. cbn. rewrite map_size_delete_Some by (by exists t). done.
  - destruct (map_to_list (agentChallenges s)) as [|x l] eqn:El; [|destruct (oldest_some (x :: l)) as [? H]; [done|congruence]].
    apply map_to_list_empty_iff in El. rewrite El, map_size_empty. lia.
Qed.
Lemma take_credentials_spec s ch n ts now s' ok : takeAgentCredentials s ch n ts now = (s', ok) ->
  (forall c t, agentChallenges s' !! c = Some t -> agentChallenges s !! c = Some t) /\
  (ok = false -> nonces s' = nonces (cleanupAgentAuthState s now)) /\
  (ok = true -> exists t, agentChallenges s !! ch = Some t /\ time_sub now t <= minute /\ agentChallenges s' !! ch = None /\
     nonces (cleanupAgentAuthState s now) !! n = None /\ nonces s' = <[n := ts]> (nonces (cleanupAgentAuthState s now))).
Proof.
  unfold takeAgentCredentials. pose proof (cleanup_challenges s now) as Hc. destruct (agentChallenges (cleanupAgentAuthState s now) !! ch) as [t|] eqn:E; [|by intros [= <- <-]].
  destruct (_ <? _) eqn:El; [by intros [= <- <-]|]. destruct (bool_decide _) eqn:En; [by intros [= <- <-]|]. intros [= <- <-]. breflect.
  split_and!; [|done|]; cbn.
  - intros c t0 [_ H]%lookup_delete_Some. by apply Hc.
  - intros _. exists t. split_and!; [by apply Hc|done|by rewrite lookup_delete_eq|by apply eq_None_not_Some|done].
Qed.

Lemma issue_spec s raw now s' ch : issueChallenge s raw now = (s', ch) -> ch = raw_url_encode raw /\
  (forall c t, agentChallenges s' !! c = Some t -> c = ch /\ t = now \/ agentChallenges s !! c = Some t) /\
  ((size (agentChallenges s) <= maxAgentChallenges)%nat -> (size (agentChallenges s') <= maxAgentChallenges)%nat) /\
  nonces s' = nonces (cleanupAgentAuthState s now).
Proof.
  unfold issueChallenge. set (s1 := cleanupAgentAuthState s now). set (s2 := if Nat.leb _ _ then _ else _). intros [= <- <-].
  assert (forall c t, agentChallenges s1 !! c = Some t -> agentChallenges s !! c = Some t) as H1 by (intros c t; apply cleanup_challenges).
  split_and!; [done| | |].
  - cbn. intros c t [[<- <-]|[Hne H]]%lookup_insert_Some; [by left|right]. unfold s2 in H. case_match; [apply evict_subset in H|]; auto.
  - intros Hz. cbn. apply insert_size_le. assert (size (agentChallenges s1) <= maxAgentChallenges)%nat as Hz1.
    { etrans; [|exact Hz]. by apply map_subseteq_size, map_subseteq_spec. }
    unfold s2. destruct (_ <=? _)%nat eqn:E; breflect; [pose proof (evict_size s1); unfold maxAgentChallenges in *; lia|lia].
  - cbn. unfold s2. case_match; [by rewrite evict_nonces|done].
Qed.

(** ** The invariant of the credentials *)

Section AgentInvariant.
Context (Verify : bytes -> bytes -> bytes -> bool) (AgentPublicKey : bytes).
Abbreviation agent_step := (agent_step Verify AgentPublicKey).
Abbreviation op_check := (op_check Verify AgentPublicKey).

Record agent_inv (w : agent_world) : Prop := {
  ai_issued : forall c t, agentChallenges (creds w) !! c = Some t -> (c, t) ∈ issued w;
  ai_once : NoDup (issued w).*1;
  ai_used : forall x, x ∈ accepted w -> agentChallenges (creds w) !! ag_challenge x.1.1 = None;
  ai_accepted : NoDup ((fun x => ag_challenge x.1.1) <$> accepted w);
  ai_valid : Forall (fun x => exists t, (ag_challenge x.1.1, t) ∈ issued w /\ time_sub x.2 t <= minute) (accepted w);
  ai_size : (size (agentChallenges (creds w)) <= maxAgentChallenges)%nat
}.
Lemma issue_inv w raw now : agent_inv w -> raw_url_encode raw ∉ (issued w).*1 -> agent_inv (agent_step w (Issue raw now)).
Proof.
  intros [I1 I2 I3 I4 I5 I6] Hf. cbn [GatewayAuth.agent_step]. destruct (issueChallenge (creds w) raw now) as [s' ch] eqn:E.
  apply issue_spec in E as (-> & H1 & H2 & _). split; cbn.
  - intros c t H. apply elem_of_app. destruct (H1 c t H) as [[-> ->]|H']; [right; by left|left; auto].
  - rewrite fmap_app. apply NoDup_app. split_and!; [done| |apply NoDup_singleton]. intros c Hc Hc2. apply list_elem_of_singleton in Hc2. by subst.
  - intros x Hx. destruct (agentChallenges s' !! ag_challenge x.1.1) as [t|] eqn:E; [|done]. exfalso. destruct (H1 _ _ E) as [[Ec _]|H'].
    + rewrite Forall_forall in I5. destruct (I5 x Hx) as (t0 & Ht & _). apply Hf. rewrite <- Ec. by apply (list_elem_of_fmap_2 fst) in Ht.
    + by rewrite (I3 x Hx) in H'.
  - done.
  - eapply Forall_impl; [exact I5|]. intros x (t & Ht & Hm). exists t. split; [apply elem_of_app; by left|done].
  - auto.
Qed.
(** The other operations take the credentials of a request, or do nothing. *)
Lemma take_inv w r ts t2 s' ok : agent_inv w -> takeAgentCredentials (creds w) (ag_challenge r) (ag_nonce r) ts t2 = (s', ok) ->
  agent_inv (w <| creds := s' |> <| accepted ::= fun l => l ++ (if ok then [(r, ts, t2)] else []) |>).
Proof.
  intros [I1 I2 I3 I4 I5 I6] E. apply take_credentials_spec in E as (H1 & _ & H3). split; cbn; [auto|done| | | |].
  - intros x [Hx|Hx]%elem_of_app.
    + destruct (agentChallenges s' !! ag_challenge x.1.1) as [t|] eqn:E; [|done]. apply H1 in E. by rewrite (I3 x Hx) in E.
    + destruct ok; [|by apply elem_of_nil in Hx]. apply list_elem_of_singleton in Hx as ->. by destruct (H3 eq_refl) as (t & _ & _ & H & _).
  - rewrite fmap_app. apply NoDup_app. split_and!; [done| |destruct ok; [apply NoDup_singleton|constructor]].
    intros c Hc Hc2. destruct ok; [|by apply elem_of_nil in Hc2]. apply list_elem_of_singleton in Hc2 as ->.
    destruct (H3 eq_refl) as (t & Ht & _). apply list_elem_of_fmap in Hc as (x & Ex & Hx). cbn in Ex. rewrite Ex, (I3 x Hx) in Ht. done.
  - apply Forall_app. split; [done|]. destruct ok; [|done]. destruct (H3 eq_refl) as (t & Ht & Hm & _). constructor; [|done]. exists t. auto.
  - etrans; [|exact I6]. by apply map_subseteq_size, map_subseteq_spec.
Qed.
Lemma agent_step_inv w op : agent_inv w -> (forall raw now, op = Issue raw now -> raw_url_encode raw ∉ (issued w).*1) -> agent_inv (agent_step w op).
Proof.
  intros Hi Hf. destruct op as [raw now|r t1 t2|r t1 t2]; [by apply issue_inv; [|by eapply Hf]|..].
  - cbn. unfold authenticateAgent. destruct (connect_check _ _ r t1) as [ts|]; cbn.
    + destruct (takeAgentCredentials _ _ _ _ _) as [s' ok] eqn:E. eapply take_inv in E; [|done]. by destruct ok.
    + destruct Hi. split; cbn; rewrite ?app_nil_r; auto.
  - cbn. unfold authenticateAgentVerify. destruct (verify_check _ _ r t1) as [ts|]; cbn.
    + destruct (takeAgentCredentials _ _ _ _ _) as [s' ok] eqn:E. eapply take_inv in E; [|done]. by destruct ok.
    + destruct Hi. split; cbn; rewrite ?app_nil_r; auto.
Qed.

(** ** Signatures and nonces of accepted requests *)

(** The operation [op] brought a good signature of the configured key over the message of its
    kind with its path, timestamp, nonce and challenge, and was checked near its timestamp. *)
Definition signed (op : agent_op) (x : agent_request * Z * Z) : Prop :=
  let good_for r msg t1 := ParseRFC3339 (ag_timestamp r) = Some x.1.2 /\ - minute <= time_sub t1 x.1.2 <= 5 * minute /\
    exists key sig, raw_url_decode AgentPublicKey = Some key /\ length key = 32%nat /\ raw_url_decode (ag_signature r) = Some sig /\ length sig = 64%nat /\
      Verify key msg sig = true in
  match op with
  | Issue _ _ => False
  | Connect r t1 t2 => x = (r, x.1.2, t2) /\ good_for r (AgentAuthMessage (ag_path r) (ag_timestamp r) (ag_nonce r) (ag_challenge r) (ag_handshake r)) t1
  | VerifyKey r t1 t2 =>
      x = (r, x.1.2, t2) /\ ag_path r = lit "/ws/agent/verify" /\ good_for r (AgentVerifyAuthMessage (ag_path r) (ag_timestamp r) (ag_nonce r) (ag_challenge r)) t1
  end.
Lemma check_signature_spec r msg present now ts : check_signature Verify AgentPublicKey r msg present now = Some ts ->
  ParseRFC3339 (ag_timestamp r) = Some ts /\ - minute <= time_sub now ts <= 5 * minute /\
  exists key sig, raw_url_decode AgentPublicKey = Some key /\ length key = 32%nat /\ raw_url_decode (ag_signature r) = Some sig /\ length sig = 64%nat /\
    Verify key msg sig = true.
Proof.
  unfold check_signature. destruct (raw_url_decode AgentPublicKey) as [key|]; [|done]. cbn.
  destruct (negb (_ =? 32)%nat || _) eqn:E1; [done|]. destruct (ParseRFC3339 _) as [ts0|]; [|done]. cbn.
  match goal with |- (if ?b then _ else _) = _ -> _ => destruct b eqn:E2 end; [done|]. destruct (raw_url_decode (ag_signature r)) as [sig|]; [|done]. cbn.
  match goal with |- (if ?b then _ else _) = _ -> _ => destruct b eqn:E3 end; [done|].
  intros [= ->]. breflect. split_and!; [done|lia|lia|]. exists key, sig. split_and!; done.
Qed.
Lemma op_check_signed op x : op_check op = Some x -> signed op x.
Proof.
  destruct op as [|r t1 t2|r t1 t2]; cbn [GatewayAuth.op_check signed]; [done|..].
  - unfold connect_check. destruct (check_signature _ _ _ _ _ _) as [ts|] eqn:E; [|done]. intros [= <-]. by apply check_signature_spec in E.
  - unfold verify_check. destruct (check_signature _ _ _ _ _ _) as [ts|] eqn:E; [|done]. cbn [mbind option_bind].
    destruct (bytes_eqb (ag_path r) _) eqn:Ep; [|done]. intros [= <-]. apply bytes_eqb_true in Ep. by apply check_signature_spec in E.
Qed.
(** An operation issues a challenge, is refused, or is accepted with what it was checked for. *)
Lemma agent_step_cases w op : 
  (exists raw now, op = Issue raw now /\ issued (agent_step w op) = issued w ++ [(raw_url_encode raw, now)] /\ accepted (agent_step w op) = accepted w /\
     nonces (creds (agent_step w op)) = nonces (cleanupAgentAuthState (creds w) now)) \/
  (raws [op] = [] /\ issued (agent_step w op) = issued w /\ accepted (agent_step w op) = accepted w /\
     (creds (agent_step w op) = creds w \/ nonces (creds (agent_step w op)) = nonces (cleanupAgentAuthState (creds w) (op_time op)))) \/
  (exists r ts, raws [op] = [] /\ op_check op = Some (r, ts, op_time op) /\ issued (agent_step w op) = issued w /\ accepted (agent_step w op) = accepted w ++ [(r, ts, op_time op)] /\
     nonces (cleanupAgentAuthState (creds w) (op_time op)) !! ag_nonce r = None /\
     nonces (creds (agent_step w op)) = <[ag_nonce r := ts]> (nonces (cleanupAgentAuthState (creds w) (op_time op)))).
Proof.
  destruct op as [raw now|r t1 t2|r t1 t2]; cbn [GatewayAuth.agent_step].
  - left. exists raw, now. destruct (issueChallenge (creds w) raw now) as [s' ch] eqn:E. apply issue_spec in E as (-> & _ & _ & H). done.
  - right. unfold authenticateAgent. cbn. destruct (connect_check _ _ r t1) as [ts|]; cbn; [|left; rewrite app_nil_r; auto].
    destruct (takeAgentCredentials _ _ _ _ _) as [s' ok] eqn:E. apply take_credentials_spec in E as (_ & H2 & H3). destruct ok; cbn; [right|left; rewrite app_nil_r; specialize (H2 eq_refl); auto].
    destruct (H3 eq_refl) as (t & _ & _ & _ & H4 & H5). exists r, ts. done.
  - right. unfold authenticateAgentVerify. cbn. destruct (verify_check _ _ r t1) as [ts|]; cbn; [|left; rewrite app_nil_r; auto].
    destruct (takeAgentCredentials _ _ _ _ _) as [s' ok] eqn:E. apply take_credentials_spec in E as (_ & H2 & H3). destruct ok; cbn; [right|left; rewrite app_nil_r; specialize (H2 eq_refl); auto].
    destruct (H3 eq_refl) as (t & _ & _ & _ & H4 & H5). exists r, ts. done.
Qed.

Lemma issued_raws ops : (issued (foldl agent_step new_agent_world ops)).*1 = raw_url_encode <$> raws ops.
Proof.
  induction ops as [|op ops IH] using rev_ind; [done|]. rewrite foldl_snoc. unfold raws in *. rewrite omap_app, fmap_app, <- IH.
  destruct (agent_step_cases (foldl agent_step new_agent_world ops) op) as [(raw & now & -> & -> & _)|[(H & -> & _)|(r & ts & H & _ & -> & _)]].
  - by rewrite fmap_app.
  - unfold raws in H. rewrite H. by rewrite app_nil_r.
  - unfold raws in H. rewrite H. by rewrite app_nil_r.
Qed.
Lemma run_agent_inv ops : NoDup (raws ops) -> Forall (Forall is_byte) (raws ops) ->
  agent_inv (foldl agent_step new_agent_world ops) /\
  Forall (fun x => exists op, op ∈ ops /\ signed op x) (accepted (foldl agent_step new_agent_world ops)).
Proof.
  induction ops as [|op ops IH] using rev_ind; intros Hn Hb.
  - split; [|constructor]. split; cbn; try done. rewrite map_size_empty. unfold maxAgentChallenges. lia.
  - assert (NoDup (raws ops) /\ Forall (Forall is_byte) (raws ops)) as [Hn1 Hb1].
    { unfold raws in *. rewrite omap_app in Hn, Hb. apply NoDup_app in Hn as (? & _). by apply Forall_app in Hb as [? _]. }
    destruct (IH Hn1 Hb1) as [Hi Hs]. rewrite foldl_snoc. split.
    + apply agent_step_inv; [done|]. intros raw now ->. rewrite issued_raws. intros (raw' & E & Hin)%list_elem_of_fmap.
      unfold raws in Hn, Hb. rewrite omap_app in Hn, Hb. apply NoDup_app in Hn as (_ & Hd & _). apply Forall_app in Hb as [Hb2 Hb3]. cbn in *.
      apply (Hd raw'); [done|]. apply raw_url_encode_inj in E; [subst; left|by apply Forall_inv in Hb3|]. rewrite Forall_forall in Hb2. by apply Hb2.
    + apply (Forall_impl _ (fun x => exists op', op' ∈ ops ++ [op] /\ signed op' x)) in Hs; [|intros x (op' & ? & ?); exists op'; split; [apply elem_of_app; by left|done]].
      destruct (agent_step_cases (foldl agent_step new_agent_world ops) op) as [(raw & now & _ & _ & -> & _)|[(_ & _ & -> & _)|(r & ts & _ & Ho & _ & -> & _)]]; [done..|].
      apply Forall_app. split; [done|]. constructor; [|done]. exists op. split; [apply elem_of_app; right; left|by apply op_check_signed].
Qed.

(** The nonce of an accepted request is remembered as long as its timestamp is recent. *)
Definition nonce_later (x y : agent_request * Z * Z) : Prop := ag_nonce x.1.1 = ag_nonce y.1.1 -> x.1.2 + 5 * minute < y.2.
Lemma sorted_snoc {A} (R : A -> A -> Prop) l y : StronglySorted R l -> Forall (fun x => R x y) l -> StronglySorted R (l ++ [y]).
Proof.
  induction 1 as [|x l Hs IH Hx]; intros Hy; cbn; [repeat constructor|]. apply Forall_cons in Hy as [H1 H2]. constructor; [auto|]. apply Forall_app. split; [done|by constructor].
Qed.
Definition remembered (s : credentials) (ops : list agent_op) (x : agent_request * Z * Z) : Prop :=
  nonces s !! ag_nonce x.1.1 = Some x.1.2 \/ exists op, op ∈ ops /\ x.1.2 < op_time op - 5 * minute.
Lemma remembered_more s ops op x : remembered s ops x -> remembered s (ops ++ [op]) x.
Proof. intros [H|(op' & Hin & H)]; [by left|right]. exists op'. split; [apply elem_of_app; by left|done]. Qed.
Lemma remembered_cleanup s s' ops op x : nonces s' = nonces (cleanupAgentAuthState s (op_time op)) -> remembered s ops x -> remembered s' (ops ++ [op]) x.
Proof.
  intros Hn [H|H]; [|by apply remembered_more; right]. destruct (decide (op_time op - 5 * minute <= x.1.2)); [left; rewrite Hn; by apply cleanup_nonces|].
  right. exists op. split; [apply elem_of_app; right; left|lia].
Qed.
Lemma nonce_step w ops op : Forall (fun op' => clock_order op' op) ops -> StronglySorted nonce_later (accepted w) ->
  Forall (remembered (creds w) ops) (accepted w) ->
  StronglySorted nonce_later (accepted (agent_step w op)) /\ Forall (remembered (creds (agent_step w op)) (ops ++ [op])) (accepted (agent_step w op)).
Proof.
  intros Hl Hs Hr. destruct (agent_step_cases w op) as [(raw & now & E & _ & -> & Hn)|[(_ & _ & -> & Hn)|(r & ts & _ & Hck & _ & -> & Hf & Hn)]].
  - split; [done|]. eapply Forall_impl; [exact Hr|]. intros x. subst op. by apply remembered_cleanup.
  - split; [done|]. eapply Forall_impl; [exact Hr|]. intros x Hx. destruct Hn as [->|Hn]; [by apply remembered_more|by eapply remembered_cleanup].
  - assert (forall x, x ∈ accepted w -> nonces (cleanupAgentAuthState (creds w) (op_time op)) !! ag_nonce x.1.1 = Some x.1.2 \/ x.1.2 < op_time op - 5 * minute) as H.
    { intros x Hx. rewrite Forall_forall in Hr. pose proof (proj1 (Forall_forall _ _) Hl) as Hl'. destruct (remembered_cleanup _ (cleanupAgentAuthState (creds w) (op_time op)) ops op x eq_refl (Hr x Hx)) as [H|(op' & Hin & H)];
        [by left|right]. apply elem_of_app in Hin as [Hin|Hin%list_elem_of_singleton]; [|by subst]. specialize (Hl' op' Hin). destruct op; [done|cbn in *; lia..]. }
    split; [apply sorted_snoc; [done|]|apply Forall_app; split].
    + apply Forall_forall. intros x Hx. unfold nonce_later. cbn. intros En. destruct (H x Hx) as [Hc|Hc]; [|lia]. rewrite En in Hc. congruence.
    + apply Forall_forall. intros x Hx. destruct (H x Hx) as [Hc|Hc]; [|right; exists op; split; [apply elem_of_app; right; left|done]].
      left. rewrite Hn. rewrite lookup_insert_ne; [done|]. congruence.
    + constructor; [|done]. left. rewrite Hn. cbn. apply lookup_insert_eq.
Qed.
Lemma sorted_snoc_inv {A} (R : A -> A -> Prop) l x : StronglySorted R (l ++ [x]) -> StronglySorted R l /\ Forall (fun y => R y x) l.
Proof.
  induction l as [|y l IHl]; cbn; intros H; [split; constructor|]. apply StronglySorted_inv in H as [H1 H2].
  destruct (IHl H1) as [H3 H4]. apply Forall_app in H2 as [H5 H6]. split; [by constructor|]. constructor; [by apply Forall_inv in H6|done].
Qed.
Lemma run_nonces ops : StronglySorted clock_order ops ->
  StronglySorted nonce_later (accepted (foldl agent_step new_agent_world ops)) /\
  Forall (remembered (creds (foldl agent_step new_agent_world ops)) ops) (accepted (foldl agent_step new_agent_world ops)).
Proof.
  induction ops as [|op ops IH] using rev_ind; intros Hs; [split; constructor|]. apply sorted_snoc_inv in Hs as [Hs1 Hs2].
  destruct (IH Hs1) as [H1 H2]. rewrite foldl_snoc. by apply nonce_step.
Qed.
End AgentInvariant.

(** ** Properties of agent credentials *)

(** C21: for every sequence of requests in which the random bytes of the issued challenges
    differ, no two accepted agents (connections and key checks together) used the same
    challenge; each used one that the gateway had issued no more than a minute before, and
    brought a signature of the configured key over the message of its kind, checked within
    the window around its timestamp; and at most 1024 challenges are remembered. *)
Theorem challenge_single_use (Verify : bytes -> bytes -> bytes -> bool) (AgentPublicKey : bytes) ops :
  NoDup (raws ops) -> Forall (Forall is_byte) (raws ops) ->
  let w := foldl (agent_step Verify AgentPublicKey) new_agent_world ops in
  NoDup ((fun x => ag_challenge x.1.1) <$> accepted w) /\
  Forall (fun x => exists t, (ag_challenge x.1.1, t) ∈ issued w /\ time_sub x.2 t <= minute) (accepted w) /\
  Forall (fun x => exists op, op ∈ ops /\ signed Verify AgentPublicKey op x) (accepted w) /\
  (size (agentChallenges (creds w)) <= maxAgentChallenges)%nat.
Proof. intros Hn Hb. cbv zeta. destruct (run_agent_inv Verify AgentPublicKey ops Hn Hb) as [Hi Hs]. split_and!; [apply Hi..|done|apply Hi]. Qed.

(** C22: if the clock does not go back, so that a request which reads it under the mutex sees
    no time before that of an earlier holder of the mutex (the time of a challenge, read
    before the mutex, is not constrained), then an accepted nonce is accepted again only when
    more than five minutes have passed since the timestamp it came with. *)
Theorem nonce_fresh (Verify : bytes -> bytes -> bytes -> bool) (AgentPublicKey : bytes) ops :
  StronglySorted clock_order ops ->
  StronglySorted nonce_later (accepted (foldl (agent_step Verify AgentPublicKey) new_agent_world ops)).
Proof. apply run_nonces. Qed.

(** the signed messages determine what was signed: when the fields hold no newline, equal
    messages have equal fields, and a message for a connection is never one for a key check. *)
Theorem messages_unambiguous p t n c k p' t' n' c' k' :
  Forall (fun f => 10 ∉ f) [p; t; n; c; p'; t'; n'; c'] ->
  (AgentAuthMessage p t n c k = AgentAuthMessage p' t' n' c' k' -> (p, t, n, c, k) = (p', t', n', c', k')) /\
  (AgentVerifyAuthMessage p t n c = AgentVerifyAuthMessage p' t' n' c' -> (p, t, n, c) = (p', t', n', c')) /\
  AgentAuthMessage p t n c k <> AgentVerifyAuthMessage p' t' n' c'.
Proof.
  intros H. repeat (apply Forall_cons in H as [? H]). split_and!; [..|apply messages_differ];
    unfold AgentAuthMessage, AgentVerifyAuthMessage; intros E; apply app_inv_head in E; injection E as E;
    repeat (apply split_at_newline in E as [-> E]; [|done..]); by subst.
Qed.

(** ** The invariant of API keys *)

Section KeyInvariant.
Context (CompareHashAndPassword : bytes -> bytes -> bool) (APIKeys : list APIKey).
Abbreviation key_step := (key_step CompareHashAndPassword APIKeys).
Inductive key_reachable : key_world -> Prop :=
| key_new : key_reachable {| kw_cache := ∅; kw_slots := 0; kw_requests := ∅; kw_stores := [] |}
| key_next w n a w' : key_reachable w -> key_step w n a = Some w' -> key_reachable w'.

Definition good (token : bytes) (key : APIKey) : Prop := key ∈ APIKeys /\ CompareHashAndPassword (KeyHash key) token = true.
Definition backed (w : list (bytes * APIKey * Z)) (digest : bytes) (key : APIKey) (expires : Z) : Prop :=
  exists token t, (token, key, t) ∈ w /\ sha256 token = digest /\ expires = t + apiKeyCacheTTL.
Definition in_slot (r : key_request) : Z := match kr_pc r with KRecheck | KCompare _ | KStore _ => 1 | _ => 0 end.
Record key_inv (w : key_world) : Prop := {
  ki_cache : forall d e, kw_cache w !! d = Some e -> backed (kw_stores w) d (ce_key e) (ce_expires e);
  ki_stores : Forall (fun x => good x.1.1 x.1.2) (kw_stores w);
  ki_compare : forall n r l, kw_requests w !! n = Some r -> kr_pc r = KCompare l -> l ⊆ APIKeys;
  ki_store : forall n r key, kw_requests w !! n = Some r -> kr_pc r = KStore key -> good (kr_token r) key;
  ki_slots : Z.of_nat (kw_slots w) = msum in_slot (kw_requests w);
  ki_bound : (kw_slots w <= maxConcurrentAPIKeyAuthentications)%nat;
  ki_size : (size (kw_cache w) <= maxAPIKeyCacheEntries)%nat
}.
Lemma cachedKey_spec m d now m' k : cachedKey m d now = (m', k) ->
  (forall d' e', m' !! d' = Some e' -> exists e, m !! d' = Some e /\ ce_key e' = ce_key e /\ ce_expires e' = ce_expires e) /\ (size m' <= size m)%nat /\
  (forall key, k = Some key -> exists e, m !! d = Some e /\ ce_key e = key /\ now <= ce_expires e).
Proof.
  unfold cachedKey. assert (forall d' e', delete d m !! d' = Some e' -> exists e, m !! d' = Some e /\ ce_key e' = ce_key e /\ ce_expires e' = ce_expires e) as Hd.
  { intros d' e' [_ H]%lookup_delete_Some. eauto. }
  assert (size (delete d m) <= size m)%nat by (apply map_subseteq_size, delete_subseteq).
  destruct (m !! d) as [e|] eqn:E; [|by intros [= <- <-]]. destruct (_ <? _) eqn:El; intros [= <- <-]; [done|]. breflect. split_and!.
  - intros d' e' [[<- <-]|[_ H']]%lookup_insert_Some; [exists e|exists e']; done.
  - rewrite map_size_insert, E. done.
  - intros key [= <-]. eauto.
Qed.
Lemma cache_spec m d key now d' e' : cacheAPIKey m d key now !! d' = Some e' ->
  (d' = d /\ e' = {| ce_key := key; ce_expires := now + apiKeyCacheTTL; ce_lastUsed := now |}) \/ m !! d' = Some e'.
Proof.
  unfold cacheAPIKey. cbv zeta. intros [[<- <-]|[_ H]]%lookup_insert_Some; [by left|right].
  assert (filter (fun kv => negb (ce_expires kv.2 <? now) = true) m !! d' = Some e') as Hf; [|by apply map_lookup_filter_Some in Hf as [? _]].
  destruct (_ <=? _)%nat in H; [|done]. destruct (oldest_entry _) as [[h t]|] in H; [|done]. by apply lookup_delete_Some in H as [_ ?].
Qed.
Lemma cache_size m d key now : (size m <= maxAPIKeyCacheEntries)%nat -> (size (cacheAPIKey m d key now) <= maxAPIKeyCacheEntries)%nat.
Proof.
  intros Hz. unfold cacheAPIKey. cbv zeta. set (m1 := filter _ m). assert (size m1 <= maxAPIKeyCacheEntries)%nat as Hz1.
  { etrans; [|exact Hz]. apply map_subseteq_size, map_filter_subseteq. }
  apply insert_size_le.
  destruct (_ <=? _)%nat eqn:El; breflect; [|lia]. destruct (oldest_entry _) as [[h t]|] eqn:E.
  - apply oldest_in, list_elem_of_fmap in E as ([h' e] & [= -> _] & Hin%elem_of_map_to_list). rewrite map_size_delete_Some by (by exists e). unfold maxAPIKeyCacheEntries in *. lia.
  - destruct (map_to_list m1) as [|x l] eqn:Em; [|destruct (oldest_some (prod_map id ce_lastUsed <$> x :: l)) as [? H]; [done|congruence]].
    apply map_to_list_empty_iff in Em. rewrite Em, map_size_empty in El. unfold maxAPIKeyCacheEntries in El. lia.
Qed.

Lemma goto_request w n pc r : kw_requests w !! n = Some r -> kw_requests (key_goto w n pc) = <[n := {| kr_token := kr_token r; kr_pc := pc |}]> (kw_requests w).
Proof. intros H. cbn. apply map_eq. intros k. destruct (decide (k = n)) as [->|Hk]; [by rewrite lookup_alter_eq, lookup_insert_eq, H|by rewrite lookup_alter_ne, lookup_insert_ne]. Qed.
(** What the request at [n] has to satisfy at its new position. *)
Definition pc_ok (token : bytes) (pc : key_pc) : Prop :=
  match pc with KCompare l => l ⊆ APIKeys | KStore key => good token key | _ => True end.
Definition pc_slot (pc : key_pc) : Z := match pc with KRecheck | KCompare _ | KStore _ => 1 | _ => 0 end.
Lemma key_goto_inv w w' n r pc : key_inv w -> kw_requests w !! n = Some r -> kw_requests w' = kw_requests w -> pc_ok (kr_token r) pc ->
  (forall d e, kw_cache w' !! d = Some e -> backed (kw_stores w') d (ce_key e) (ce_expires e)) -> Forall (fun x => good x.1.1 x.1.2) (kw_stores w') ->
  (size (kw_cache w') <= maxAPIKeyCacheEntries)%nat -> (kw_slots w' <= maxConcurrentAPIKeyAuthentications)%nat ->
  Z.of_nat (kw_slots w') = Z.of_nat (kw_slots w) - in_slot r + pc_slot pc -> key_inv (key_goto w' n pc).
Proof.
  intros Hi Hr Hq Hpc Hc Hs Hz Hb Hn. assert (kw_requests w' !! n = Some r) as Hr' by congruence. pose proof (goto_request w' n pc r Hr') as Hg.
  constructor; [done|done| | | |done|done].
  - intros k r0 l. rewrite Hg, Hq. intros [[<- <-]|[_ H]]%lookup_insert_Some; cbn; [by intros ->|by apply (ki_compare _ Hi) with (n := k)].
  - intros k r0 key. rewrite Hg, Hq. intros [[<- <-]|[_ H]]%lookup_insert_Some; cbn; [by intros ->|by apply (ki_store _ Hi) with (n := k)].
  - rewrite Hg, (msum_update _ _ _ r) by done. rewrite Hq, <- (ki_slots _ Hi). cbn. exact Hn.
Qed.
Lemma in_slot_le w n r : key_inv w -> kw_requests w !! n = Some r -> in_slot r <= Z.of_nat (kw_slots w).
Proof.
  intros Hi Hr. rewrite (ki_slots _ Hi). rewrite <- (insert_delete_id _ _ _ Hr), msum_insert by apply lookup_delete_eq.
  assert (0 <= msum in_slot (delete n (kw_requests w))); [|lia]. apply msum_nonneg. intros k v _. unfold in_slot. by destruct (kr_pc v).
Qed.
Lemma cached_inv w m k d now : key_inv w -> cachedKey (kw_cache w) d now = (m, k) ->
  (forall d e, m !! d = Some e -> backed (kw_stores w) d (ce_key e) (ce_expires e)) /\ (size m <= maxAPIKeyCacheEntries)%nat.
Proof.
  intros Hi E. apply cachedKey_spec in E as (H1 & H2 & _). split; [|pose proof (ki_size _ Hi); lia].
  intros d' e' H. apply H1 in H as (e & He & -> & ->). by apply (ki_cache _ Hi).
Qed.
Lemma key_step_inv w n a w' : key_inv w -> key_step w n a = Some w' -> key_inv w'.
Proof.
  intros Hi E. pose proof (ki_cache _ Hi) as I1. pose proof (ki_stores _ Hi) as I2. pose proof (ki_bound _ Hi) as I5. pose proof (ki_size _ Hi) as I6.
  unfold GatewayAuth.key_step in E. destruct a as [au ak|now], (kw_requests w !! n) as [r|] eqn:Er; try done.
  - injection E as <-. constructor; try done; cbn.
    + intros k r l [[<- <-]|[_ H]]%lookup_insert_Some; [cbn; by destruct (bytes_eqb _ _)|by apply (ki_compare _ Hi) with (n := k)].
    + intros k r l [[<- <-]|[_ H]]%lookup_insert_Some; [cbn; by destruct (bytes_eqb _ _)|by apply (ki_store _ Hi) with (n := k)].
    + rewrite msum_insert by done. rewrite (ki_slots _ Hi). unfold in_slot at 2. cbn. by destruct (bytes_eqb _ _).
  - pose proof (in_slot_le w n r Hi Er) as Hle. destruct (kr_pc r) as [| | |[|key l]|key|] eqn:Epc; unfold in_slot in Hle; rewrite Epc in Hle.
    + destruct (cachedKey _ _ _) as [m k] eqn:Ec in E. injection E as <-. apply (cached_inv w) in Ec as [? ?]; [|done].
      eapply key_goto_inv; try done; [by destruct k|]. unfold in_slot. rewrite Epc. cbn. destruct k; cbn; lia.
    + injection E as <-. destruct (_ <? _)%nat eqn:El; breflect; (eapply key_goto_inv; try done); unfold in_slot; rewrite ?Epc; cbn -[Nat.pred maxConcurrentAPIKeyAuthentications]; lia.
    + destruct (cachedKey _ _ _) as [m k] eqn:Ec in E. injection E as <-. apply (cached_inv w) in Ec as [? ?]; [|done].
      destruct k; (eapply key_goto_inv; try done); unfold in_slot; rewrite ?Epc; cbn -[Nat.pred maxConcurrentAPIKeyAuthentications]; first [lia|done].
    + injection E as <-. eapply key_goto_inv; try done; unfold in_slot; rewrite ?Epc; cbn -[Nat.pred maxConcurrentAPIKeyAuthentications]; lia.
    + pose proof (ki_compare _ Hi _ _ _ Er Epc) as Hsub. injection E as <-.
      destruct (CompareHashAndPassword _ _) eqn:Eq; (eapply key_goto_inv; try done); try (unfold in_slot; rewrite ?Epc; cbn -[Nat.pred maxConcurrentAPIKeyAuthentications]; lia); cbn; [split; [|done]|]; set_solver.
    + pose proof (ki_store _ Hi _ _ _ Er Epc) as Hg. injection E as <-. eapply key_goto_inv; try done; try (unfold in_slot; rewrite ?Epc; cbn -[Nat.pred maxConcurrentAPIKeyAuthentications]; lia).
      * cbn. intros d e [[-> ->]|H]%cache_spec; cbn; [exists (kr_token r), now; split_and!; [apply elem_of_app; right; left|done|done]|].
        apply I1 in H as (token & t & H & H'). exists token, t. split; [apply elem_of_app; by left|done].
      * cbn. apply Forall_app. split; [done|]. constructor; [done|constructor].
      * cbn. by apply cache_size.
    + done.
Qed.
(** A key that a section returns is backed by a comparison whose lifetime has not ended. *)
Lemma key_step_returns w n now w' : key_step w n (KStep now) = Some w' -> forall r key status, key_inv w ->
  kw_requests w' !! n = Some r -> kr_pc r = KReturned (Some key) status ->
  exists token t, (token, key, t) ∈ kw_stores w' /\ sha256 token = sha256 (kr_token r) /\ now <= t + apiKeyCacheTTL.
Proof.
  intros E r' key status Hi Hr' Hpc'. unfold GatewayAuth.key_step in E. destruct (kw_requests w !! n) as [r|] eqn:Er; [|done].
  assert (forall w0 pc, kw_requests w0 = kw_requests w -> kw_requests (key_goto w0 n pc) !! n = Some r' -> kr_token r' = kr_token r /\ kr_pc r' = pc) as Hgo.
  { intros w0 pc Hq. rewrite (goto_request w0 n pc r) by congruence. rewrite lookup_insert_eq. by intros [= <-]. }
  assert (forall m k, cachedKey (kw_cache w) (sha256 (kr_token r)) now = (m, k) -> kr_token r' = kr_token r -> k = Some key ->
    exists token t, (token, key, t) ∈ kw_stores w /\ sha256 token = sha256 (kr_token r') /\ now <= t + apiKeyCacheTTL) as Hca.
  { intros m k Ec Et Ek. apply cachedKey_spec in Ec as (_ & _ & H). destruct (H _ Ek) as (e & He & <- & Hn).
    apply (ki_cache _ Hi) in He as (token & t & H1 & H2 & H3). exists token, t. rewrite Et. split_and!; [done|done|lia]. }
  destruct (kr_pc r) as [| | |[|key0 l]|key0|] eqn:Epc.
  - destruct (cachedKey _ _ _) as [m k] eqn:Ec in E. injection E as <-. apply Hgo in Hr' as [Et Ep]; [|done]. apply (Hca _ _ Ec Et). destruct k; congruence.
  - injection E as <-. destruct (_ <? _)%nat in Hr'; (apply Hgo in Hr' as [_ Ep]; [congruence|done]).
  - destruct (cachedKey _ _ _) as [m k] eqn:Ec in E. destruct k as [k|]; injection E as <-; (apply Hgo in Hr' as [Et Ep]; [|done]); [apply (Hca _ _ Ec Et)|]; congruence.
  - injection E as <-. apply Hgo in Hr' as [_ Ep]; [congruence|done].
  - injection E as <-. destruct (CompareHashAndPassword _ _) in Hr'; (apply Hgo in Hr' as [_ Ep]; [congruence|done]).
  - injection E as <-. apply Hgo in Hr' as [Et Ep]; [|done]. exists (kr_token r), now. rewrite Et. split_and!; [|done|unfold apiKeyCacheTTL, minute, nanos_per_second; lia].
    cbn. apply elem_of_app. right. rewrite Ep in Hpc'. injection Hpc' as <-. left.
  - done.
Qed.
Lemma key_reachable_inv w : key_reachable w -> key_inv w.
Proof. induction 1 as [|w n a w' _ IH E]; [constructor; try done; cbn; rewrite ?map_size_empty; unfold maxAPIKeyCacheEntries, maxConcurrentAPIKeyAuthentications; lia|by eapply key_step_inv]. Qed.
End KeyInvariant.

(** ** Properties of API keys *)

(** C23: when a request is given a key, the key is one of the configured ones and its hash
    matched, within the last five minutes, a token with the digest of the request's token. *)
Theorem api_key_sound (CompareHashAndPassword : bytes -> bytes -> bool) (APIKeys : list APIKey) w n now w' r key status :
  key_reachable CompareHashAndPassword APIKeys w -> key_step CompareHashAndPassword APIKeys w n (KStep now) = Some w' ->
  kw_requests w' !! n = Some r -> kr_pc r = KReturned (Some key) status ->
  key ∈ APIKeys /\ exists token t, (token, key, t) ∈ kw_stores w' /\ CompareHashAndPassword (KeyHash key) token = true /\
    sha256 token = sha256 (kr_token r) /\ now <= t + apiKeyCacheTTL.
Proof.
  intros Hw E. pose proof (key_reachable_inv _ _ _ Hw) as Hi. pose proof (key_step_returns _ _ _ _ _ _ E) as H. intros Hr Hpc. 
  destruct (H r key status Hi Hr Hpc) as (token & t & Hin & Hd & Hl). pose proof (ki_stores _ _ _ (key_step_inv _ _ _ _ _ _ Hi E)) as Hs.
  rewrite Forall_forall in Hs. destruct (Hs _ Hin) as [? ?]. split; [done|]. by exists token, t.
Qed.

(** at most four requests compare a token at the same time, the slots in use are exactly
    those of the requests that hold one, and at most 1024 successes are cached. *)
Theorem api_key_bounds (CompareHashAndPassword : bytes -> bytes -> bool) (APIKeys : list APIKey) w :
  key_reachable CompareHashAndPassword APIKeys w ->
  Z.of_nat (kw_slots w) = msum in_slot (kw_requests w) /\ msum in_slot (kw_requests w) <= 4 /\ (size (kw_cache w) <= maxAPIKeyCacheEntries)%nat.
Proof.
  intros Hi%key_reachable_inv. pose proof (ki_slots _ _ _ Hi) as H1. pose proof (ki_bound _ _ _ Hi) as H2. split_and!; [done| |apply Hi].
  unfold maxConcurrentAPIKeyAuthentications in H2. lia.
Qed.

(** ** Witnesses *)

Definition sample_time : Z := default 0 (ParseRFC3339 (lit "2026-01-01T00:00:00Z")).
Definition sample_agent : agent_request :=
  {| ag_path := lit "/ws/agent"; ag_timestamp := lit "2026-01-01T00:00:00Z"; ag_nonce := lit "n1"; ag_signature := replicate 86 65;
     ag_challenge := raw_url_encode (replicate 32 7); ag_handshake := lit "k" |}.
(** A challenge is issued and used; the same request again is refused. *)
Definition sample_ops : list agent_op :=
  [Issue (replicate 32 7) sample_time; Connect sample_agent sample_time (sample_time + 1); Connect sample_agent (sample_time + 2) (sample_time + 3)].
Definition sample_world : agent_world := foldl (agent_step (fun _ _ _ => true) (replicate 43 65)) new_agent_world sample_ops.

Lemma challenge_single_use_witness : length (accepted sample_world) = 1%nat /\ NoDup ((fun x => ag_challenge x.1.1) <$> accepted sample_world).
Proof.
  split; [by vm_compute|]. destruct (challenge_single_use (fun _ _ _ => true) (replicate 43 65) sample_ops) as [H _]; [| |exact H].
  - cbn. apply NoDup_singleton.
  - constructor; [apply Forall_replicate; unfold is_byte; lia|constructor].
Defined.

(** The nonce of an accepted request comes again with a second challenge: refused after five
    minutes, accepted after six. A third challenge waited for the mutex with an older time. *)
Definition again (timestamp : bytes) : agent_request :=
  sample_agent <| ag_timestamp := timestamp |> <| ag_challenge := raw_url_encode (replicate 32 8) |>.
Definition nonce_ops : list agent_op :=
  [Issue (replicate 32 7) sample_time; Connect sample_agent sample_time (sample_time + 1); Issue (replicate 32 8) (sample_time + 5 * minute);
   Connect (again (lit "2026-01-01T00:05:00Z")) (sample_time + 5 * minute) (sample_time + 5 * minute); Issue (replicate 32 9) (sample_time + 4 * minute);
   VerifyKey sample_agent (sample_time + 5 * minute) (sample_time + 5 * minute);
   Connect (again (lit "2026-01-01T00:06:00Z")) (sample_time + 6 * minute) (sample_time + 6 * minute)].
Definition nonce_world : agent_world := foldl (agent_step (fun _ _ _ => true) (replicate 43 65)) new_agent_world nonce_ops.
Lemma nonce_fresh_witness :
  (fun x => (ag_nonce x.1.1, x.2 - sample_time)) <$> accepted nonce_world = [(lit "n1", 1); (lit "n1", 6 * minute)] /\
  StronglySorted nonce_later (accepted nonce_world).
Proof.
  split; [vm_compute; reflexivity|]. apply (nonce_fresh (fun _ _ _ => true) (replicate 43 65) nonce_ops). unfold nonce_ops.
  repeat first [apply SSorted_nil|apply SSorted_cons|apply Forall_nil_2|apply Forall_cons_2]; cbn [clock_order op_time]; first [exact I|unfold minute, nanos_per_second; lia].
Defined.

Lemma messages_unambiguous_witness : AgentAuthMessage [1] [2] [3] [4] [5] <> AgentVerifyAuthMessage [1] [2] [3] [4].
Proof. apply (messages_unambiguous [1] [2] [3] [4] [5] [1] [2] [3] [4] [5]). repeat constructor; set_solver. Defined.

Definition sample_keys : list APIKey := [{| key_Name := lit "a"; KeyHash := lit "x"; Capabilities := [] |}; {| key_Name := lit "b"; KeyHash := lit "y"; Capabilities := [lit "*"] |}].
Definition key_run (compare : bytes -> bytes -> bool) (keys : list APIKey) : list (nat * key_action) -> option key_world :=
  foldl (fun w na => w ← w; key_step compare keys w na.1 na.2) (Some {| kw_cache := ∅; kw_slots := 0; kw_requests := ∅; kw_stores := [] |}).
Lemma key_run_reachable compare keys l w : key_run compare keys l = Some w -> key_reachable compare keys w.
Proof.
  revert w. induction l as [|na l IH] using rev_ind; intros w; [intros [= <-]; constructor|]. unfold key_run in *. rewrite foldl_snoc.
  destruct (foldl _ _ l) as [w0|]; [|done]. cbn. intros E. eapply key_next; [by apply IH|exact E].
Qed.
Definition sample_requests : list (nat * key_action) :=
  [(0%nat, KBegin (lit "Bearer y") []); (0%nat, KStep 0); (0%nat, KStep 0); (0%nat, KStep 0); (0%nat, KStep 0); (0%nat, KStep 0); (0%nat, KStep 1);
   (1%nat, KBegin [] (lit "y"))].

Lemma api_key_sound_witness : exists w w' r key, key_run bytes_eqb sample_keys sample_requests = Some w /\ key_step bytes_eqb sample_keys w 1 (KStep 9) = Some w' /\
  kw_requests w' !! 1%nat = Some r /\ kr_pc r = KReturned (Some key) 0 /\ key ∈ sample_keys.
Proof.
  assert (exists w w' r key, key_run bytes_eqb sample_keys sample_requests = Some w /\ key_step bytes_eqb sample_keys w 1 (KStep 9) = Some w' /\
    kw_requests w' !! 1%nat = Some r /\ kr_pc r = KReturned (Some key) 0) as (w & w' & r & key & H1 & H2 & H3 & H4).
  { eexists _, _, _, _. split; [vm_compute; reflexivity|]. split; [vm_compute; reflexivity|]. split; vm_compute; reflexivity. }
  exists w, w', r, key. split_and!; try done. apply key_run_reachable in H1. by destruct (api_key_sound bytes_eqb sample_keys w 1 9 w' r key 0 H1 H2 H3 H4) as [H _].
Defined.

Lemma api_key_bounds_witness : exists w, key_run bytes_eqb sample_keys (take 4 sample_requests) = Some w /\ kw_slots w = 1%nat /\ msum in_slot (kw_requests w) <= 4.
Proof.
  assert (exists w, key_run bytes_eqb sample_keys (take 4 sample_requests) = Some w /\ kw_slots w = 1%nat) as (w & H1 & H2).
  { eexists. split; vm_compute; reflexivity. }
  exists w. split_and!; [done|done|]. apply key_run_reachable in H1. by destruct (api_key_bounds bytes_eqb sample_keys w H1) as (_ & H & _).
Defined.
