(* ===== verification/HostFs.v ===== *)
(** * Files, directories and crashes
    What [agent/filesystem] and [agent/artifacts] use of the operating system through [os],
    [golang.org/x/sys/unix] and [crypto/rand]: files known by their identity, directories
    as maps from names to identities, and the calls on them. Every call takes a [choice],
    what is decided outside the program: whether the call fails, how much of a write is
    taken, the inode of a new file, random bytes, the order of a listing.

    A change of a directory is visible at once and survives a crash for sure only after
    the directory was synced: until then a crash may keep it or lose it, independently of
    other changes, but never half of it. The data of a file that was written since its
    last sync is arbitrary after a crash, though no longer than what was written. Programs
    are trees of calls, so that other programs and crashes can come between any two calls. *)
From Stdlib Require Import ZArith Lia.
From stdpp Require Import base gmap sets list option strings countable.
From coqutil Require Import Datatypes.RecordSettersUsingExistingGetters.
From S2P Require Import Prelude Strconv Json JsonText GoStrings ArtifactStore.
Local Open Scope Z_scope.
#[global] Arguments const {E} newValue / _.

(** ** Errors *)

(** An error is the list of errors that [errors.Is] and [errors.As] find in it, in order;
    [nil] is the empty list and [errors.Join] is concatenation. *)
Inductive leaf :=
| Art (code : string)   (* [*artifacts.Error] *)
| Fs (code : string)    (* [*filesystem.Error] *)
| ErrNotExist | ErrExist | ErrPermission | ErrInvalid | ErrClosed | ErrUnsupported
| ErrShortWrite | ErrNoProgress | ErrEOF | ErrDraftCleanup | ErrContext | ErrOther.
#[export] Instance leaf_eq_dec : EqDecision leaf.
Proof. solve_decision. Defined.
Abbreviation error := (list leaf).
Definition Is (e : error) (l : leaf) : bool := bool_decide (l ∈ e).
Definition failed (e : error) : bool := match e with [] => false | _ => true end.
(** A value or an error. *)
Abbreviation res A := (error + A)%type.

(** ** Files and directories *)

Record Identity := { Device : Z; Inode : Z; Extra : Z; Mount : bytes }.
#[export] Instance Identity_eq_dec : EqDecision Identity.
Proof. solve_decision. Defined.
#[export] Instance Identity_countable : Countable Identity.
Proof.
  refine (inj_countable' (fun i => (Device i, Inode i, Extra i, Mount i))
    (fun '(a, b, c, d) => {| Device := a; Inode := b; Extra := c; Mount := d |}) _).
  by intros [].
Defined.

Record file := {
  f_data : bytes;
  f_dirty : bool;            (* written since the last sync *)
  f_regular : bool; f_links : Z; f_uid : Z; f_mode : Z; f_modified : Z; f_changed : Z * Z
}.
(** One change of a directory: all of its entries at once. *)
Abbreviation update := (list (bytes * option Identity)).
Record dir := { d_cur : gmap bytes Identity; d_dur : gmap bytes Identity; d_pend : list update; d_private : bool (* 0700, of the agent's user *) }.
Definition apply_update (m : gmap bytes Identity) (u : update) : gmap bytes Identity :=
  foldl (fun m nv => partial_alter (fun _ => nv.2) nv.1 m) m u.

(** The machine: its files and directories, where directories are, the user of the agent,
    and the agent's memory: its artifact store and the counters of its save journal. *)
Record world := {
  w_files : gmap Identity file; w_dirs : gmap Identity dir; w_paths : gmap bytes Identity; w_euid : Z;
  w_store : Store;
  w_journal : option (Identity * bytes);   (* the journal's directory and the agent's name, once opened *)
  w_active : Z; w_stopped : bool;
  w_drawn : list bytes                     (* the random names drawn so far *)
}.

(** ** Crashes *)

Definition crash_map (pick : list bool) (pend : list update) (m : gmap bytes Identity) : gmap bytes Identity :=
  foldl (fun m (pu : bool * update) => if pu.1 then apply_update m pu.2 else m) m (zip pick pend).
Definition crash_dir (pick : list bool) (d : dir) : dir :=
  let m := crash_map pick (d_pend d) (d_dur d) in {| d_cur := m; d_dur := m; d_pend := []; d_private := d_private d |}.
Definition crash_file (torn : bytes) (f : file) : file :=
  if f_dirty f then f <| f_data := take (length (f_data f)) torn |> <| f_dirty := false |> else f.
(** The machine after a crash: which changes were kept and what torn files hold is arbitrary. *)
Definition crash (pick : Identity -> list bool) (torn : Identity -> bytes) (w : world) : world :=
  {| w_files := map_imap (fun i f => Some (crash_file (torn i) f)) (w_files w);
     w_dirs := map_imap (fun i d => Some (crash_dir (pick i) d)) (w_dirs w);
     w_paths := w_paths w; w_euid := w_euid w;
     w_store := new_store (s_options (w_store w)); w_journal := None; w_active := 0; w_stopped := false; w_drawn := w_drawn w |}.

(** ** Programs *)

Record choice := {
  ch_fault : option bool;          (* the call fails: [Some true] for lack of permission *)
  ch_canceled : bool; ch_count : Z; ch_inode : Z; ch_time : Z; ch_text : bytes; ch_names : list bytes;
  ch_reads : list (bytes * error)  (* what a reader will return *)
}.
Abbreviation act A := (choice -> world -> A * world).
Inductive prog (A : Type) : Type :=
| Ret (a : A)
| Act {B : Type} (f : choice -> world -> B * world) (k : B -> prog A).
Arguments Ret {A} a.
Arguments Act {A B} f k.
Fixpoint prog_bind {A B} (p : prog A) (f : A -> prog B) : prog B :=
  match p with Ret a => f a | Act g k => Act g (fun x => prog_bind (k x) f) end.
Definition act_ {A} (f : act A) : prog A := Act f Ret.

Declare Scope prog_scope.
Delimit Scope prog_scope with prog.
Notation "'let^' x ':=' p 'in' k" := (prog_bind p (fun x => k))
  (at level 10, x pattern, p at level 100, k at level 200) : prog_scope.
(** [if e := p; e != nil { return e }] and [x, e := p; if e != nil { return e }]. *)
Notation "'check^' p 'in' k" := (prog_bind p (fun e => if failed e then Ret e else k))
  (at level 10, p at level 100, k at level 200) : prog_scope.
Notation "'try^' x ':=' p 'in' k" := (prog_bind p (fun r => match r with inl e => Ret e | inr x => k end))
  (at level 10, x pattern, p at level 100, k at level 200) : prog_scope.
Notation "'tryr^' x ':=' p 'in' k" := (prog_bind p (fun r => match r with inl e => Ret (inl e) | inr x => k end))
  (at level 10, x pattern, p at level 100, k at level 200) : prog_scope.
Open Scope prog_scope.

(** A run without interference or crashes, with the choices in turn. *)
Fixpoint run {A} (p : prog A) (cs : nat -> choice) (w : world) : A * world :=
  match p with
  | Ret a => (a, w)
  | Act f k => let '(x, w) := f (cs O) w in run (k x) (fun n => cs (S n)) w
  end.

(** ** Calls *)

Definition fault (c : choice) : error := match ch_fault c with None => [] | Some true => [ErrPermission] | Some false => [ErrOther] end.
Definition or_fault {A} (f : act (res A)) : act (res A) := fun c w => if failed (fault c) then (inl (fault c), w) else f c w.
Definition or_fault_e (f : act error) : act error := fun c w => if failed (fault c) then (fault c, w) else f c w.
Definition change_dir (d : Identity) (u : update) (w : world) : world :=
  w <| w_dirs ::= alter (fun dr => dr <| d_cur ::= fun m => apply_update m u |> <| d_pend ::= fun l => l ++ [u] |>) d |>.
Definition entry (w : world) (d : Identity) (name : bytes) : option Identity := dr ← w_dirs w !! d; d_cur dr !! name.
(** The time of the last change of a file's state. *)
Definition touch (i : Identity) (t : Z) (w : world) : world := w <| w_files ::= alter (fun f => f <| f_changed := (t / 10 ^ 9, t mod 10 ^ 9) |>) i |>.

Definition open_at (d : Identity) (name : bytes) : act (res Identity) :=
  or_fault (fun _ w => (match entry w d name with Some i => inr i | None => inl [ErrNotExist] end, w)).
(** A directory is a file that is not regular. *)
Definition dir_file : file := {| f_data := []; f_dirty := false; f_regular := false; f_links := 1; f_uid := 0; f_mode := 0; f_modified := 0; f_changed := (0, 0) |}.
Definition stat (i : Identity) : act (res file) :=
  or_fault (fun _ w => (match w_files w !! i, w_dirs w !! i with Some f, _ => inr f | None, Some _ => inr dir_file | None, None => inl [ErrOther] end, w)).
(** A new file on the directory's file system, with [O_EXCL] and mode 0600. Files stay known
    after their last name is gone, so that the inode of a new file is never one used before. *)
Definition new_file (w : world) (t : Z) : file :=
  {| f_data := []; f_dirty := false; f_regular := true; f_links := 1; f_uid := w_euid w; f_mode := 384; f_modified := t; f_changed := (t / 10 ^ 9, t mod 10 ^ 9) |}.
Definition create_at (d : Identity) (name : bytes) : act (res Identity) :=
  or_fault (fun c w =>
    let i := {| Device := Device d; Inode := ch_inode c; Extra := Extra d; Mount := Mount d |} in
    match w_dirs w !! d, entry w d name with
    | None, _ => (inl [ErrNotExist], w)
    | _, Some _ => (inl [ErrExist], w)
    | Some _, None =>
        if bool_decide (is_Some (w_files w !! i)) || bool_decide (is_Some (w_dirs w !! i)) then (inl [ErrOther], w)
        else (inr i, change_dir d [(name, Some i)] (w <| w_files ::= insert i (new_file w (ch_time c)) |>))
    end).
(** The count and the error of a write; a write that does not take everything fails. *)
Definition write_file (i : Identity) (b : bytes) : act (Z * error) := fun c w =>
  let n := (if failed (fault c) then Nat.min (Z.to_nat (ch_count c)) (length b) else length b) in
  (Z.of_nat n, fault c,
   w <| w_files ::= alter (fun f => f <| f_data ::= fun d => d ++ take n b |> <| f_dirty := true |> <| f_modified := ch_time c |>) i |>).
Definition sync_file (i : Identity) : act error :=
  or_fault_e (fun _ w => ([], w <| w_files ::= alter (fun f => f <| f_dirty := false |>) i |>)).
Definition read_file (i : Identity) : act (res bytes) :=
  or_fault (fun _ w => (match w_files w !! i with Some f => inr (f_data f) | None => inl [ErrOther] end, w)).
Definition close_file : act error := or_fault_e (fun _ w => ([], w)).
Definition rename_at (d : Identity) (a b : bytes) : act error :=
  or_fault_e (fun c w => match entry w d a with
    | Some i => ([], touch i (ch_time c) (change_dir d [(a, None); (b, Some i)] w))
    | None => ([ErrNotExist], w)
    end).
Definition renameExclusive (d : Identity) (a b : bytes) : act error :=
  or_fault_e (fun c w => match entry w d a, entry w d b with
    | Some i, None => ([], touch i (ch_time c) (change_dir d [(a, None); (b, Some i)] w))
    | Some _, Some _ => ([ErrExist], w)
    | None, _ => ([ErrNotExist], w)
    end).
Definition renameExchange (d : Identity) (a b : bytes) : act error :=
  or_fault_e (fun c w => match entry w d a, entry w d b with
    | Some i, Some j => ([], touch i (ch_time c) (touch j (ch_time c) (change_dir d [(a, Some j); (b, Some i)] w)))
    | _, _ => ([ErrNotExist], w)
    end).
Definition unlink_at (d : Identity) (name : bytes) : act error :=
  or_fault_e (fun _ w => match entry w d name with Some _ => ([], change_dir d [(name, None)] w) | None => ([ErrNotExist], w) end).
Definition sync_dir (d : Identity) : act error :=
  or_fault_e (fun _ w => ([], w <| w_dirs ::= alter (fun dr => dr <| d_dur := d_cur dr |> <| d_pend := [] |>) d |>)).
(** At most [n] names, in any order. *)
Definition read_dir (d : Identity) (n : Z) : act (res (list bytes)) :=
  or_fault (fun c w => match w_dirs w !! d with
    | Some dr => let names := (map_to_list (d_cur dr)).*1 in
                 (inr (take (Z.to_nat n) (if bool_decide (ch_names c ≡ₚ names) then ch_names c else names)), w)
    | None => (inl [ErrOther], w)
    end).
Definition open_dir (path : bytes) : act (res Identity) :=
  or_fault (fun _ w => (match i ← w_paths w !! path; d ← w_dirs w !! i; Some i with Some i => inr i | None => inl [ErrNotExist] end, w)).
Definition ctx_err : act error := fun c w => (if ch_canceled c then [ErrContext] else [], w).
Definition is_hex (c : Z) : bool := ((48 <=? c) && (c <=? 57)) || ((97 <=? c) && (c <=? 102)).
(** A new directory, of mode 0700. *)
Definition mkdir_at (d : Identity) (name : bytes) : act (res Identity) :=
  or_fault (fun c w =>
    let i := {| Device := Device d; Inode := ch_inode c; Extra := Extra d; Mount := Mount d |} in
    match w_dirs w !! d, entry w d name with
    | None, _ => (inl [ErrNotExist], w)
    | _, Some _ => (inl [ErrExist], w)
    | Some _, None =>
        if bool_decide (is_Some (w_files w !! i)) || bool_decide (is_Some (w_dirs w !! i)) then (inl [ErrOther], w)
        else (inr i, change_dir d [(name, Some i)] (w <| w_dirs ::= insert i {| d_cur := ∅; d_dur := ∅; d_pend := []; d_private := true |} |>))
    end).
(** 16 random bytes in hexadecimal; [crypto/rand] does not repeat itself. *)
Definition random_hex : act (res bytes) :=
  or_fault (fun c w =>
    if (length (ch_text c) =? 32)%nat && forallb is_hex (ch_text c) && negb (bool_decide (ch_text c ∈ w_drawn w))
    then (inr (ch_text c), w <| w_drawn ::= cons (ch_text c) |>) else (inl [ErrOther], w)).
(** The reads that a newly opened source will answer. *)
Definition open_source : act (res (list (bytes * error))) := or_fault (fun c w => (inr (ch_reads c), w)).
Definition store_act {A} (f : Store -> Store * A) : act A := fun _ w => let '(s, a) := f (w_store w) in (a, w <| w_store := s |>).

(* ------------------------------------------------------------------ *)
(** ** Lemmas: directories *)

(** What the entry of a name may be after a crash. *)
Definition may (dr : dir) (n : bytes) (v : option Identity) : Prop := d_dur dr !! n = v \/ exists u, u ∈ d_pend dr /\ (n, v) ∈ u.
Definition wf_dir (dr : dir) : Prop := d_cur dr = foldl apply_update (d_dur dr) (d_pend dr).

Lemma apply_update_lookup m u n : apply_update m u !! n = m !! n \/ exists v, (n, v) ∈ u /\ apply_update m u !! n = v.
Proof.
  revert m. induction u as [|[n' v] u IH]; intros m; [by left|].
  change (apply_update m ((n', v) :: u)) with (apply_update (partial_alter (fun _ => v) n' m) u). destruct (IH (partial_alter (fun _ => v) n' m)) as [E|(v' & Hin & E)].
  - rewrite E. destruct (decide (n = n')) as [->|Hne]; [right|left].
    + exists v. split; [left|]. by rewrite lookup_partial_alter_eq.
    + by rewrite lookup_partial_alter_ne.
  - right. exists v'. split; [by right|done].
Qed.
Lemma apply_update_other m u n : n ∉ u.*1 -> apply_update m u !! n = m !! n.
Proof. intros Hn. destruct (apply_update_lookup m u n) as [E|(v & Hin & _)]; [done|]. destruct Hn. apply list_elem_of_fmap. by exists (n, v). Qed.
Lemma crash_map_may pick pend m n : crash_map pick pend m !! n = m !! n \/ exists u v, u ∈ pend /\ (n, v) ∈ u /\ crash_map pick pend m !! n = v.
Proof.
  revert pick m. induction pend as [|u pend IH]; intros [|b pick] m; try by left.
  change (crash_map (b :: pick) (u :: pend) m) with (crash_map pick pend (if b then apply_update m u else m)).
  destruct (IH pick (if b then apply_update m u else m)) as [E|(u' & v & Hu & Hv & E)].
  - rewrite E. destruct b; [|by left]. destruct (apply_update_lookup m u n) as [->|(v & Hv & ->)]; [by left|].
    right. exists u, v. split; [left|done].
  - right. exists u', v. split; [by right|done].
Qed.
Lemma crash_dir_may pick dr n : may dr n (d_cur (crash_dir pick dr) !! n).
Proof. cbn. destruct (crash_map_may pick (d_pend dr) (d_dur dr) n) as [->|(u & v & Hu & Hv & ->)]; [by left|right; eauto]. Qed.
Lemma crash_dir_only pick dr n v : may (crash_dir pick dr) n v -> may dr n v.
Proof. intros [<-|(u & []%not_elem_of_nil & _)]. apply (crash_dir_may pick). Qed.
Lemma cur_may dr n : wf_dir dr -> may dr n (d_cur dr !! n).
Proof.
  intros ->. pose proof (crash_map_may (replicate (length (d_pend dr)) true) (d_pend dr) (d_dur dr) n) as H.
  assert (forall l m, crash_map (replicate (length l) true) l m = foldl apply_update m l) as Hc.
  { induction l as [|u l IH]; intros m; [done|]. cbn. apply (IH (apply_update m u)). }
  rewrite Hc in H. destruct H as [->|(u & v & Hu & Hv & ->)]; [by left|right; eauto].
Qed.
