(* ===== verification/SaveFiles.v ===== *)
(** * Files below a pinned directory ([agent/filesystem/write.go], [write_unix.go], [write_linux.go])
    Creating, publishing and removing the temporary files of a save. The functions are
    programs over the calls of [HostFs]; closing a handle whose error the code ignores is
    left out. The pins of a directory, handles that keep a temporary file's inode in use,
    are passed along: a map from the directory's handle and the temporary name. *)
From Stdlib Require Import ZArith Lia.
From stdpp Require Import base gmap sets list option strings.
From coqutil Require Import Datatypes.RecordSettersUsingExistingGetters.
From S2P Require Import Prelude Utf8 Strconv Json JsonText GoStrings InputValue HostFs.
Local Open Scope Z_scope.
#[global] Arguments const {E} newValue / _.

(** ** Names *)

Definition has_literal_prefix (p s : bytes) : bool := bytes_eqb (take (length p) s) p.
Definition has_literal_suffix (p s : bytes) : bool := bytes_eqb (drop (length s - length p) s) p && (length p <=? length s)%nat.
(** [strings.ToLower] and [strings.ToUpper] as far as a comparison with ASCII text goes: the
    only other runes that they map to ASCII are the dotted capital I and the Kelvin sign, and
    the dotless i and the long s. *)
Definition lower_rune (r : Z) : Z := if r =? 304 then 105 else if r =? 8490 then 107 else lower r.
Definition upper_rune (r : Z) : Z := if (97 <=? r) && (r <=? 122) then r - 32 else if r =? 305 then 73 else if r =? 383 then 83 else r.
Definition map_runes (f : Z -> Z) (s : bytes) : bytes := concat ((fun p => EncodeRune (f p.1)) <$> runes s).

Definition device_names : list bytes :=
  (lit <$> ["CON"; "PRN"; "AUX"; "NUL"; "CONIN$"; "CONOUT$"]%string) ++
  (p ← [lit "COM"; lit "LPT"]; n ← (lit <$> ["1"; "2"; "3"; "4"; "5"; "6"; "7"; "8"; "9"]%string) ++ (EncodeRune <$> [185; 178; 179]); [p ++ n]).
Definition failure (code : string) (e : error) : error := if Is e ErrContext then e else Fs code :: e.
Definition changed (e : error) : error := failure "SOURCE_CHANGED" e.
(** Characters that Windows does not allow. *)
Definition windows_chars : bytes := [58; 60; 62; 34; 124; 63; 42].
Definition SaveName (name : bytes) : error :=
  if negb (is_ok (ValidateBasename name)) then failure "VALIDATION_FAILED" [ErrOther]
  else if has_literal_prefix (lit ".onprest-") (map_runes lower_rune name) || existsb (fun c => bool_decide (c ∈ windows_chars)) name ||
          has_literal_suffix (lit ".") name || has_literal_suffix (lit " ") name then failure "VALIDATION_FAILED" [ErrInvalid]
  else if bool_decide (map_runes upper_rune (cut_at (Z.eqb 46) name).1 ∈ device_names) then failure "VALIDATION_FAILED" [ErrInvalid]
  else [].
Definition validTempName (s : bytes) : bool :=
  if negb (has_literal_prefix (lit ".onprest-") s) || negb (length s =? 45)%nat || negb (has_literal_suffix (lit ".tmp") s) then false
  else forallb (fun p => is_hex p.1) (runes (slice s 9 (length s - 4))).

(** ** Identities of files *)

Record FileIdentity := {
  fi_Identity : Identity; fi_Size : Z; fi_Owner : bytes; fi_Mode : Z; fi_Modified : Z; fi_ChangedSeconds : Z; fi_ChangedNanos : Z
}.
#[export] Instance FileIdentity_eq_dec : EqDecision FileIdentity.
Proof. solve_decision. Defined.
Definition MatchesDisplaced (v i : FileIdentity) : bool :=
  bool_decide (fi_Identity v = fi_Identity i) && bytes_eqb (fi_Owner v) (fi_Owner i) && (fi_Mode v =? fi_Mode i) &&
  (fi_Size v =? fi_Size i) && (fi_Modified v =? fi_Modified i).
Definition file_identity (i : Identity) (f : file) : FileIdentity :=
  {| fi_Identity := i; fi_Size := Z.of_nat (length (f_data f)); fi_Owner := FormatInt (f_uid f); fi_Mode := f_mode f;
     fi_Modified := f_modified f; fi_ChangedSeconds := (f_changed f).1; fi_ChangedNanos := (f_changed f).2 |}.

(** [privateTemp] compares with the user of the process: a call of its own. *)
Definition is_private (euid : Z) (f : file) : bool := (f_uid f =? euid) && (Z.land (f_mode f) 63 =? 0).
Definition privateTemp (i : Identity) : act error :=
  or_fault_e (fun _ w => (match w_files w !! i with Some f => if is_private (w_euid w) f then [] else [ErrPermission] | None => [ErrOther] end, w)).
Definition inspectRegular (i : Identity) (private : bool) : prog (res FileIdentity) :=
  tryr^ s := act_ (stat i) in
  if negb (f_regular s) || negb (f_links s =? 1) then Ret (inl [ErrPermission]) else
  let^ e := (if private then act_ (privateTemp i) else Ret []) in
  if failed e then Ret (inl e) else
  tryr^ o := act_ (stat i) in
  Ret (inr ((file_identity i s) <| fi_Owner := FormatInt (f_uid o) |>)).

(** ** A pinned directory *)

Record Directory := { dr_handle : nat; dr_id : Identity; dr_path : bytes; dr_open : bool }.
Abbreviation pinmap := (gmap (nat * bytes) Identity).

Definition releasePin (pins : pinmap) (d : Directory) (name : bytes) : prog (error * pinmap) :=
  match pins !! (dr_handle d, name) with
  | None => Ret ([], pins)
  | Some _ => let^ e := act_ close_file in Ret (e, delete (dr_handle d, name) pins)
  end.
Definition pinned (pins : pinmap) (d : Directory) (name : bytes) (actual : FileIdentity) : prog error :=
  match pins !! (dr_handle d, name) with
  | None => Ret []
  | Some pin =>
      let^ r := inspectRegular pin true in
      match r with
      | inl e => Ret (changed (e ++ [ErrPermission]))
      | inr held => Ret (if bool_decide (fi_Identity held = fi_Identity actual) then [] else changed [ErrPermission])
      end
  end.
Definition Sync (d : Directory) : prog error := if negb (dr_open d) then Ret [ErrClosed] else act_ (sync_dir (dr_id d)).
Definition same_filesystem (a b : Identity) : bool := (Device a =? Device b) && (Extra a =? Extra b) && bytes_eqb (Mount a) (Mount b).
Definition Inspect (d : Directory) (name : bytes) (private : bool) : prog (res FileIdentity) :=
  if negb (dr_open d) then Ret (inl [ErrClosed]) else
  tryr^ i := act_ (open_at (dr_id d) name) in
  tryr^ v := inspectRegular i private in
  Ret (if same_filesystem (fi_Identity v) (dr_id d) then inr v else inl [ErrPermission]).

(** The new file is opened again by its name, and the second handle kept. *)
Definition pinTemp (d : Directory) (name : bytes) (created : Identity) : prog (res Identity) :=
  tryr^ pin := act_ (open_at (dr_id d) name) in
  let^ a := act_ (stat created) in
  let^ b := act_ (stat pin) in
  match a, b with
  | inr _, inr _ =>
      if bool_decide (created = pin) then Ret (inr pin) else let^ e := act_ close_file in Ret (inl (ErrPermission :: e))
  | _, _ =>
      let^ e := act_ close_file in
      Ret (inl ((match a with inl x => x | inr _ => [] end) ++ (match b with inl x => x | inr _ => [] end) ++ ErrPermission :: e))
  end.
Definition CreateTemp (pins : pinmap) (d : Directory) (name : bytes) : prog (res (Identity * FileIdentity * pinmap)) :=
  if negb (validTempName name) then Ret (inl [ErrInvalid])
  else if negb (dr_open d) then Ret (inl [ErrClosed]) else
  tryr^ f := act_ (create_at (dr_id d) name) in
  tryr^ v := inspectRegular f true in
  tryr^ pin := pinTemp d name f in
  Ret (inr (f, v, <[(dr_handle d, name) := pin]> pins)).

(** ** Publication *)

(** Whether the file was installed, and the error. *)
Definition publishBelow (d : Identity) (temp name : bytes) (overwrite : bool) (expected : option FileIdentity) : prog (bool * error) :=
  match (if overwrite then expected else None) with
  | None =>
      let^ e := act_ (renameExclusive d temp name) in
      Ret (negb (failed e), if Is e ErrExist then failure "CONFLICT" e else e)
  | Some expected =>
      let^ existing := act_ (open_at d name) in
      match existing with
      | inl e => Ret (false, changed e)
      | inr existing =>
          let^ v := inspectRegular existing false in
          let^ c := act_ close_file in
          match v, c with
          | inl e, _ => Ret (false, changed (e ++ c))
          | _, _ :: _ => Ret (false, changed c)
          | inr v, [] =>
              if bool_decide (v <> expected) then Ret (false, changed [ErrPermission]) else
              let^ e := act_ (renameExchange d temp name) in
              if failed e then Ret (false, e) else
              let^ displaced := act_ (open_at d temp) in
              match displaced with
              | inl e => Ret (true, changed e)
              | inr displaced =>
                  let^ v := inspectRegular displaced false in
                  let^ c := act_ close_file in
                  match v with
                  | inl e => Ret (true, changed (e ++ c ++ [ErrPermission]))
                  | inr v => Ret (true, if failed c || negb (MatchesDisplaced v expected) then changed (c ++ [ErrPermission]) else [])
                  end
              end
          end
      end
  end.
Definition same_temp (a b : FileIdentity) : bool :=
  bool_decide (fi_Identity a = fi_Identity b) && bytes_eqb (fi_Owner a) (fi_Owner b) && (fi_Size a =? fi_Size b).
(** The file that [name] names is [temporary]. *)
Definition check_temp (d : Identity) (name : bytes) (temporary : FileIdentity) : prog (res FileIdentity) :=
  let^ f := act_ (open_at d name) in
  match f with
  | inl e => Ret (inl (changed e))
  | inr f =>
      let^ actual := inspectRegular f true in
      let^ c := act_ close_file in
      match actual with
      | inl e => Ret (inl (changed (e ++ c ++ [ErrPermission])))
      | inr actual => Ret (if failed c || negb (same_temp actual temporary) then inl (changed (c ++ [ErrPermission])) else inr actual)
      end
  end.
Definition Publish (pins : pinmap) (d : Directory) (temp name : bytes) (overwrite : bool) (temporary : FileIdentity) (expected : option FileIdentity)
    : prog (bool * error * pinmap) :=
  let^ e := act_ ctx_err in
  if failed e then Ret (false, e, pins)
  else if negb (validTempName temp) then Ret (false, [ErrInvalid], pins)
  else if failed (SaveName name) then Ret (false, SaveName name, pins)
  else if negb (dr_open d) then Ret (false, [ErrClosed], pins) else
  let^ r := check_temp (dr_id d) temp temporary in
  match r with
  | inl e => Ret (false, e, pins)
  | inr actual =>
  let^ e := pinned pins d temp actual in
  if failed e then Ret (false, e, pins) else
  let^ (installed, e) := publishBelow (dr_id d) temp name overwrite expected in
  let^ e := (if failed e then Ret e
             else let^ r := check_temp (dr_id d) name temporary in
                  match r with inl e => Ret e | inr _ => act_ (sync_dir (dr_id d)) end) in
  if installed : bool then let^ (e', pins) := releasePin pins d temp in Ret (true, e ++ e', pins) else Ret (false, e, pins)
  end.

(** ** Removal *)

Definition unlinkBelow (d : Identity) (name : bytes) (f : Identity) : prog error :=
  try^ current := act_ (open_at d name) in
  let^ a := act_ (stat f) in
  let^ b := act_ (stat current) in
  let^ c := act_ close_file in
  match a, b, c with
  | inr _, inr _, [] => if bool_decide (f = current) then act_ (unlink_at d name) else Ret [ErrPermission]
  | _, _, _ => Ret ((match a with inl x => x | inr _ => [] end) ++ (match b with inl x => x | inr _ => [] end) ++ c)
  end.
Definition identity_match (v : FileIdentity) (first : Identity) (i : FileIdentity) : bool :=
  bool_decide (fi_Identity v = fi_Identity i) && bytes_eqb (fi_Owner v) (fi_Owner i) &&
  (bool_decide (fi_Identity i = first) || MatchesDisplaced v i).
(** The checks of [RemoveTemp] on the file that has the name now. *)
Definition removable (pins : pinmap) (d : Directory) (name : bytes) (f : Identity) (identities : list FileIdentity) (emptyOnly : bool) : prog error :=
  try^ v := inspectRegular f (emptyOnly || bool_decide (identities = [])) in
  if emptyOnly && negb (fi_Size v =? 0) then Ret [ErrPermission] else
  check^ pinned pins d name v in
  match identities with
  | [] => Ret []
  | first :: _ =>
      if negb (existsb (identity_match v (fi_Identity first)) identities) then Ret [ErrPermission]
      else if bool_decide (fi_Identity v = fi_Identity first) then act_ (privateTemp f) else Ret []
  end.
Definition RemoveTemp (pins : pinmap) (d : Directory) (name : bytes) (identities : list FileIdentity) (emptyOnly : bool) : prog (error * pinmap) :=
  if negb (validTempName name) then Ret ([ErrInvalid], pins)
  else if negb (dr_open d) then Ret ([ErrClosed], pins) else
  let^ f := act_ (open_at (dr_id d) name) in
  match f with
  | inl e => if Is e ErrNotExist then releasePin pins d name else Ret (e, pins)
  | inr f =>
      let^ e := removable pins d name f identities emptyOnly in
      let^ e := (if failed e then Ret e else unlinkBelow (dr_id d) name f) in
      let^ (e, pins) := (if failed e then Ret (e, pins) else releasePin pins d name) in
      let^ c := act_ close_file in
      Ret (e ++ c, pins)
  end.
