(* ===== verification/SaveManifest.v ===== *)
(** * Cleanup manifests ([agent/artifacts/save.go], [json.Marshal] and the reading side)
    What the save journal writes before it touches a directory, as JSON text, and how a
    restart reads it. *)
From Stdlib Require Import ZArith Lia.
From stdpp Require Import base gmap sets list option strings.
From coqutil Require Import Datatypes.RecordSettersUsingExistingGetters.
From S2P Require Import Prelude Utf8 Strconv Json JsonText Canonical JsonReads GoStrings HostFs SaveFiles.
Local Open Scope Z_scope.
#[global] Arguments const {E} newValue / _.

Definition manifestLimit : Z := 2 ^ 20.
Definition manifestReservation : Z := 2 * manifestLimit.

Record saveEntry := {
  se_Directory : bytes; se_DirectoryID : Identity; se_Temp : bytes; se_Reserved : Z;
  se_Identity : option FileIdentity; se_Replaced : option FileIdentity
}.
Record saveManifest := { Version : Z; Agent : bytes; sm_Request : bytes; Entries : list saveEntry }.

(** ** Text *)

(** [json.Marshal] escapes HTML on top of what [encode_json] does; these characters only
    occur in strings. *)
Definition html_char (c : Z) : bytes := if (c =? 38) || (c =? 60) || (c =? 62) then lit "\u00" ++ [hexdigit (c / 16); hexdigit (c mod 16)] else [c].
Definition html_escape (s : bytes) : bytes := concat (html_char <$> s).
Definition Marshal (v : json) : result bytes := let* s := encode_json v in Ok (html_escape s).

(** The values of the structs, in the order of their fields. *)
Definition identity_json (i : Identity) : json :=
  JObj [(lit "Device", JInt (Device i)); (lit "Inode", JInt (Inode i)); (lit "Extra", JInt (Extra i)); (lit "Mount", JStr (Mount i))].
Definition file_identity_json (f : FileIdentity) : json :=
  JObj [(lit "Identity", identity_json (fi_Identity f)); (lit "Size", JInt (fi_Size f)); (lit "Owner", JStr (fi_Owner f)); (lit "Mode", JInt (fi_Mode f));
        (lit "Modified", JInt (fi_Modified f)); (lit "ChangedSeconds", JInt (fi_ChangedSeconds f)); (lit "ChangedNanos", JInt (fi_ChangedNanos f))].
Definition omitempty (k : bytes) (f : option FileIdentity) : list (bytes * json) :=
  match f with Some f => [(k, file_identity_json f)] | None => [] end.
Definition entry_json (e : saveEntry) : json :=
  JObj ([(lit "directory", JStr (se_Directory e)); (lit "directory_id", identity_json (se_DirectoryID e)); (lit "temp", JStr (se_Temp e));
         (lit "reserved", JInt (se_Reserved e))] ++ omitempty (lit "identity") (se_Identity e) ++ omitempty (lit "replaced") (se_Replaced e)).
Definition manifest_json (m : saveManifest) : json :=
  JObj [(lit "version", JInt (Version m)); (lit "agent", JStr (Agent m)); (lit "request", JStr (sm_Request m)); (lit "entries", JArr (entry_json <$> Entries m))].

(** ** Reading *)

(** A key of an object names a field if they are equal up to the case folding of
    [encoding/json]; an exact match is preferred, which matters only for keys that differ in
    case alone. *)
Definition fold_rune (r : Z) : Z := upper_rune (if r =? 8490 then 107 else r).
Definition names_field (key field : bytes) : bool := bytes_eqb (map_runes fold_rune key) (map_runes fold_rune field).
(** A struct: every member must name a field, and at most one each. *)
Definition known (fields : list bytes) (m : list (bytes * json)) : bool := forallb (fun kv => existsb (names_field kv.1) fields) m.
Definition member (field : bytes) (m : list (bytes * json)) : option json :=
  match filter (fun kv => names_field kv.1 field = true) m with [] => Some JNull | [(_, v)] => Some v | _ => None end.
(** [null] leaves a field at its zero value. *)
Definition get_int (lo hi : Z) (j : json) : option Z :=
  match j with JNull => Some 0 | JInt n => if (lo <=? n) && (n <=? hi) then Some n else None | _ => None end.
Definition get_string (j : json) : option bytes := match j with JNull => Some [] | JStr s => Some s | _ => None end.
Definition get_int64 : json -> option Z := get_int int64_min int64_max.
Definition get_uint64 : json -> option Z := get_int 0 (2 ^ 64 - 1).
Definition get_uint32 : json -> option Z := get_int 0 (2 ^ 32 - 1).
Definition zero_identity : Identity := {| Device := 0; Inode := 0; Extra := 0; Mount := [] |}.
Definition read_identity (j : json) : option Identity :=
  match j with
  | JNull => Some zero_identity
  | JObj m =>
      if negb (known [lit "Device"; lit "Inode"; lit "Extra"; lit "Mount"] m) then None else
      a ← member (lit "Device") m ≫= get_uint64; b ← member (lit "Inode") m ≫= get_uint64; c ← member (lit "Extra") m ≫= get_uint64;
      d ← member (lit "Mount") m ≫= get_string; Some {| Device := a; Inode := b; Extra := c; Mount := d |}
  | _ => None
  end.
Definition read_file_identity (j : json) : option (option FileIdentity) :=
  match j with
  | JNull => Some None
  | JObj m =>
      if negb (known [lit "Identity"; lit "Size"; lit "Owner"; lit "Mode"; lit "Modified"; lit "ChangedSeconds"; lit "ChangedNanos"] m) then None else
      i ← member (lit "Identity") m ≫= read_identity; s ← member (lit "Size") m ≫= get_int64; o ← member (lit "Owner") m ≫= get_string;
      md ← member (lit "Mode") m ≫= get_uint32; t ← member (lit "Modified") m ≫= get_int64; cs ← member (lit "ChangedSeconds") m ≫= get_int64;
      cn ← member (lit "ChangedNanos") m ≫= get_int64;
      Some (Some {| fi_Identity := i; fi_Size := s; fi_Owner := o; fi_Mode := md; fi_Modified := t; fi_ChangedSeconds := cs; fi_ChangedNanos := cn |})
  | _ => None
  end.
Definition zero_entry : saveEntry := {| se_Directory := []; se_DirectoryID := zero_identity; se_Temp := []; se_Reserved := 0; se_Identity := None; se_Replaced := None |}.
Definition read_entry (j : json) : option saveEntry :=
  match j with
  | JNull => Some zero_entry
  | JObj m =>
      if negb (known [lit "directory"; lit "directory_id"; lit "temp"; lit "reserved"; lit "identity"; lit "replaced"] m) then None else
      d ← member (lit "directory") m ≫= get_string; i ← member (lit "directory_id") m ≫= read_identity; t ← member (lit "temp") m ≫= get_string;
      r ← member (lit "reserved") m ≫= get_int64; f ← member (lit "identity") m ≫= read_file_identity; o ← member (lit "replaced") m ≫= read_file_identity;
      Some {| se_Directory := d; se_DirectoryID := i; se_Temp := t; se_Reserved := r; se_Identity := f; se_Replaced := o |}
  | _ => None
  end.
Definition read_entries (j : json) : option (list saveEntry) :=
  match j with JNull => Some [] | JArr l => mapM read_entry l | _ => None end.
Definition read_manifest (j : json) : option saveManifest :=
  match j with
  | JNull => Some {| Version := 0; Agent := []; sm_Request := []; Entries := [] |}
  | JObj m =>
      if negb (known [lit "version"; lit "agent"; lit "request"; lit "entries"] m) then None else
      v ← member (lit "version") m ≫= get_int64; a ← member (lit "agent") m ≫= get_string; r ← member (lit "request") m ≫= get_string;
      e ← member (lit "entries") m ≫= read_entries; Some {| Version := v; Agent := a; sm_Request := r; Entries := e |}
  | _ => None
  end.
(** The two decoders of a restart: the text must satisfy both. *)
Definition manifest_limits : Limits := {| MaxBytes := manifestLimit; MaxDepth := 32; MaxItems := 100000; MaxFileBytes := 0; MaxTotalFileBytes := 0; MaxFiles := 0 |}.
Definition decode_manifest (b : bytes) : option saveManifest :=
  match DecodeJSON b manifest_limits with Some (Ok v) => read_manifest v | _ => None end.

(* ------------------------------------------------------------------ *)
(** ** Lemmas: escaped HTML reads the same *)

Definition html_free (s : bytes) : Prop := Forall (fun c => c <> 38 /\ c <> 60 /\ c <> 62) s.
Lemma html_escape_app a b : html_escape (a ++ b) = html_escape a ++ html_escape b.
Proof. unfold html_escape. by rewrite fmap_app, concat_app. Qed.
Lemma html_escape_id s : html_free s -> html_escape s = s.
Proof.
  induction 1 as [|c s (H1 & H2 & H3) Hs IH]; [done|]. unfold html_escape in *. cbn. rewrite IH. unfold html_char.
  by rewrite (proj2 (Z.eqb_neq c 38)), (proj2 (Z.eqb_neq c 60)), (proj2 (Z.eqb_neq c 62)).
Qed.
Lemma html_free_test s : forallb (fun c => negb ((c =? 38) || (c =? 60) || (c =? 62))) s = true -> html_free s.
Proof. rewrite forallb_forall. intros H. apply Forall_forall. intros c Hc%list_elem_of_In. apply H in Hc. breflect. lia. Qed.
Lemma escape_html_free r : valid_rune r = true -> r <> 38 -> r <> 60 -> r <> 62 -> html_free (escape r).
Proof.
  intros Hv H1 H2 H3. unfold escape, escape_rune. rewrite encoded_not_bad by done. cbn [fst].
  assert (0 <= r) by (unfold valid_rune in Hv; apply orb_true_iff in Hv as [H|H]; breflect; lia).
  destruct (Z.ltb_spec r 128).
  - destruct (_ || _) eqn:E; [apply orb_true_iff in E as [E|E]; breflect; subst; by apply html_free_test|].
    destruct (Z.leb_spec 32 r); [by repeat constructor|]. repeat (destruct (r =? _); [by apply html_free_test|]).
    apply Forall_app. split; [by apply html_free_test|]. assert (forall v, 0 <= v < 16 -> hexdigit v <> 38 /\ hexdigit v <> 60 /\ hexdigit v <> 62) as Hh
      by (intros v Hv'; unfold hexdigit; case_test; breflect; lia).
    repeat (apply Forall_cons_2; [apply Hh; Z.to_euclidean_division_equations; lia|]). apply Forall_nil_2.
  - destruct (r =? 8232); [by apply html_free_test|]. destruct (r =? 8233); [by apply html_free_test|].
    unfold EncodeRune. rewrite Hv, (proj2 (Z.ltb_ge r 128)) by lia.
    destruct (Z.ltb_spec r 2048); [|destruct (Z.ltb_spec r 65536)];
      repeat (apply Forall_cons_2; [Z.to_euclidean_division_equations; lia|]); apply Forall_nil_2.
Qed.
Lemma html_rune_cases r : valid_rune r = true -> r = 38 \/ r = 60 \/ r = 62 \/ html_escape (escape r) = escape r.
Proof.
  intros Hv. destruct (decide (r = 38)); [auto|]. destruct (decide (r = 60)); [auto|]. destruct (decide (r = 62)); [auto|].
  do 3 right. apply html_escape_id. by apply escape_html_free.
Qed.
Ltac html_cases r Hv := destruct (html_rune_cases r Hv) as [->|[->|[->| ->]]].
Lemma html_lex fuel rs t : Forall (fun r => valid_rune r = true) rs -> (length rs < fuel)%nat ->
  lex_string fuel (html_escape (concat (escape <$> rs)) ++ 34 :: t) = Some (concat (EncodeRune <$> rs), t).
Proof.
  intros Hv. revert fuel. induction Hv as [|r rs Hr Hrs IH]; intros fuel Hf; [destruct fuel; [simpl in Hf; lia|done]|].
  destruct fuel as [|fuel]; [simpl in Hf; lia|]. rewrite !fmap_cons. cbn [concat]. rewrite html_escape_app, <- app_assoc.
  assert (lex_string (S fuel) (html_escape (escape r) ++ html_escape (concat (escape <$> rs)) ++ 34 :: t) =
    prepend (EncodeRune r) (lex_string fuel (html_escape (concat (escape <$> rs)) ++ 34 :: t))) as ->.
  { html_cases r Hr; [done..|]. by apply lex_escape. }
  rewrite IH by (simpl in Hf; lia). done.
Qed.
Lemma html_length rs : Forall (fun r => valid_rune r = true) rs -> (length rs <= length (html_escape (concat (escape <$> rs))))%nat.
Proof.
  induction 1 as [|r rs Hr Hrs IH]; [done|]. rewrite fmap_cons. cbn [concat length]. rewrite html_escape_app, length_app.
  assert (0 < length (html_escape (escape r)))%nat; [|lia]. html_cases r Hr; [cbn; lia..|].
  pose proof (length_escapes [r] ltac:(by repeat constructor)) as Hl. cbn in Hl. rewrite app_nil_r in Hl. lia.
Qed.
Lemma html_utf8 rs : Forall (fun r => valid_rune r = true) rs -> utf8_text (html_escape (concat (escape <$> rs))).
Proof.
  induction 1 as [|r rs Hr Hrs IH]; [by exists []|]. rewrite fmap_cons. cbn [concat]. rewrite html_escape_app. apply utf8_text_app; [|done].
  html_cases r Hr; [by apply utf8_text_ascii, ascii_text..|]. by apply utf8_escape.
Qed.
Lemma html_clean rs : Forall (fun r => valid_rune r = true) rs -> clean true (html_escape (concat (escape <$> rs))).
Proof.
  induction 1 as [|r rs Hr Hrs IH]; [apply clean_nil|]. rewrite fmap_cons. cbn [concat]. rewrite html_escape_app. apply clean_app; [|done].
  html_cases r Hr; [by apply (clean_unicode (lit "0026") 38)|by apply (clean_unicode (lit "003c") 60)|by apply (clean_unicode (lit "003e") 62)|]. by apply clean_escaped.
Qed.
Lemma html_str s : Forall is_byte s -> ValidString s = true -> reads (JStr s) (html_escape (quote s)).
Proof.
  intros Hb Hv. destruct (valid_string_runes s Hb Hv) as (rs & Hr & Es & E).
  assert (html_escape (quote s) = 34 :: html_escape (concat (escape <$> rs)) ++ [34]) as ->.
  { unfold quote. rewrite E. change (34 :: concat (escape <$> rs) ++ [34]) with ([34] ++ concat (escape <$> rs) ++ [34]). by rewrite !html_escape_app. }
  split.
  - by eexists 34, _.
  - intros t. cbn [app]. rewrite validate_cons. change (34 =? 34) with true. cbv iota. simpl negb.
    rewrite <- app_assoc, (html_clean rs Hr). cbn [app]. by rewrite validate_cons.
  - apply (utf8_text_app [34]); [by apply utf8_text_ascii, ascii_text|]. apply utf8_text_app; [by apply html_utf8|by apply utf8_text_ascii, ascii_text].
  - eapply (decodes_scalar (JStr s) 34 _ (TStr s)); try done. intros r _. unfold scan_value. change (34 =? 34) with true. cbv iota.
    rewrite <- app_assoc. cbn [app]. rewrite html_lex; [by rewrite Es|done|]. pose proof (html_length rs Hr). cbn [length]. rewrite length_app. lia.
Qed.

(** Keys without HTML, in every object. *)
Fixpoint html_keys (v : json) : bool :=
  match v with
  | JArr l => forallb html_keys l
  | JObj m => forallb (fun kv => forallb (fun c => negb ((c =? 38) || (c =? 60) || (c =? 62))) (quote kv.1) && html_keys kv.2) m
  | _ => true
  end.
Lemma html_item_texts first ss : html_escape (item_texts first ss) = item_texts first (html_escape <$> ss).
Proof. revert first. induction ss as [|s ss IH]; intros first; [done|]. rewrite fmap_cons. cbn [item_texts]. rewrite !html_escape_app, IH. by destruct first. Qed.
Lemma html_member_texts first ms : Forall (fun ks => html_free (quote ks.1)) ms ->
  html_escape (member_texts first ms) = member_texts first (prod_map id html_escape <$> ms).
Proof.
  revert first. induction ms as [|[k s] ms IH]; intros first Hk; [done|]. apply Forall_cons in Hk as [Hk Hms]. rewrite fmap_cons. cbn [member_texts prod_map id fst snd].
  change (58 :: s ++ member_texts false ms) with ([58] ++ s ++ member_texts false ms). rewrite !html_escape_app, IH by done.
  rewrite (html_escape_id (quote k)) by done. by destruct first.
Qed.
Lemma int_html_free n : in_int64 n -> html_free (FormatInt n).
Proof. intros Hn. destruct (FormatInt_chars n Hn) as [_ Hc]. eapply Forall_impl; [exact Hc|]. intros c [H|H]; [apply isdigit_range in H|]; lia. Qed.

(** What is marshalled: no number but [int64]. *)
Fixpoint int_only (v : json) : bool :=
  match v with JArr l => forallb int_only l | JObj m => forallb (fun kv => int_only kv.2) m | JNumber _ | JFloat _ => false | _ => true end.
Lemma marshal_reads v : encodable v -> html_keys v = true -> int_only v = true -> exists s, Marshal v = Ok s /\ reads (normal v) s.
Proof.
  intros He Hk Hi. assert (exists s, encode_json v = Ok s /\ reads (normal v) (html_escape s)) as (s & Es & Hs); [|exists (html_escape s); unfold Marshal; by rewrite Es].
  revert He Hk Hi. induction v as [|b|s|n|t|f|l IH|m IH] using json_ind; intros Hp Hk Hi; inversion Hp as [| | | |? Hl Hf Hpf|? Hal|? Hnd Hkv Ham]; subst; try done.
  - eexists; split; [done|]. rewrite html_escape_id by by apply html_free_test. apply text_null.
  - eexists; split; [done|]. rewrite html_escape_id by (destruct b; by apply html_free_test). apply text_bool.
  - eexists; split; [done|]. by apply html_str.
  - eexists; split; [done|]. rewrite html_escape_id by by apply int_html_free. by apply text_int.
  - assert (exists ss, map encode_json l = map Ok ss /\ Forall2 reads (map normal l) (html_escape <$> ss)) as (ss & E & Hss).
    { clear Hp. cbn in Hk, Hi. induction IH as [|x l Hx Hl IH]; [by exists []|]. apply Forall_cons in Hal as [Hx' Hal]. cbn in Hk, Hi. breflect.
      destruct Hx as (s & Es & Hs); [done..|]. destruct IH as (ss & E & Hss); [done..|]. exists (s :: ss). simpl. rewrite Es, E. split; [done|by constructor]. }
    exists (91 :: item_texts true ss ++ [93]). cbn [encode_json normal]. rewrite E, encode_items_texts. split; [done|].
    change (91 :: item_texts true ss ++ [93]) with ([91] ++ item_texts true ss ++ [93]). rewrite !html_escape_app, html_item_texts. by apply reads_arr.
  - assert (exists ms, map (fun kv => (kv.1, encode_json kv.2)) m = map (fun ks => (ks.1, Ok ks.2)) ms /\ Forall (fun ks => html_free (quote ks.1)) ms /\
      Forall2 member_reads (map (fun kv => (kv.1, normal kv.2)) m) (prod_map id html_escape <$> ms)) as (ms & E & Hq & Hms).
    { clear Hp Hnd. cbn in Hk, Hi. induction IH as [|[k x] m Hx Hm IH]; [by exists []|]. apply Forall_cons in Ham as [Hx' Ham]. rewrite fmap_cons in Hkv. apply Forall_cons in Hkv as [[Hkb Hkvd] Hkv].
      cbn in Hk, Hi. breflect. destruct Hx as (s & Es & Hs); [done..|]. destruct IH as (ms & E & Hq & Hms); [done..|]. exists ((k, s) :: ms).
      simpl in *. rewrite Es, E. split_and!; [done|constructor; [by apply html_free_test|done]|by constructor]. }
    exists (123 :: member_texts true ms ++ [125]). cbn [encode_json normal]. rewrite E, encode_members_texts. split; [done|].
    change (123 :: member_texts true ms ++ [125]) with ([123] ++ member_texts true ms ++ [125]). rewrite !html_escape_app, html_member_texts by done.
    apply reads_obj; [done|by rewrite normal_keys].
Qed.

(** ** Lemmas: manifests read back *)

Definition text_ok (s : bytes) : Prop := Forall is_byte s /\ ValidString s = true.
(** Numbers of an identity that the reading side accepts. *)
Record id_ok (i : Identity) : Prop := {
  ok_device : 0 <= Device i <= int64_max; ok_inode : 0 <= Inode i <= int64_max; ok_extra : 0 <= Extra i <= int64_max; ok_mount : text_ok (Mount i)
}.
Record fid_ok (f : FileIdentity) : Prop := {
  ok_identity : id_ok (fi_Identity f); ok_size : in_int64 (fi_Size f); ok_owner : text_ok (fi_Owner f); ok_mode : 0 <= fi_Mode f < 2 ^ 32;
  ok_modified : in_int64 (fi_Modified f); ok_seconds : in_int64 (fi_ChangedSeconds f); ok_nanos : in_int64 (fi_ChangedNanos f)
}.
Record entry_ok (e : saveEntry) : Prop := {
  ok_directory : text_ok (se_Directory e); ok_directory_id : id_ok (se_DirectoryID e); ok_temp : text_ok (se_Temp e); ok_reserved : in_int64 (se_Reserved e);
  ok_temporary : forall f, se_Identity e = Some f -> fid_ok f; ok_replaced : forall f, se_Replaced e = Some f -> fid_ok f
}.
Record manifest_ok (m : saveManifest) : Prop := {
  ok_version : in_int64 (Version m); ok_agent : text_ok (Agent m); ok_request : text_ok (sm_Request m);
  ok_entries : Forall entry_ok (Entries m); ok_count : Z.of_nat (length (Entries m)) <= 1500
}.

Lemma get_int_ok lo hi n : lo <= n <= hi -> get_int lo hi (JInt n) = Some n.
Proof. intros H. cbn. by rewrite (proj2 (Z.leb_le lo n)), (proj2 (Z.leb_le n hi)) by lia. Qed.
Lemma read_identity_json i : id_ok i -> read_identity (normal (identity_json i)) = Some i.
Proof.
  intros [H1 H2 H3 _]. unfold int64_max in *. change (read_identity (normal (identity_json i))) with
    (a ← get_uint64 (JInt (Device i)); b ← get_uint64 (JInt (Inode i)); c ← get_uint64 (JInt (Extra i)); Some {| Device := a; Inode := b; Extra := c; Mount := Mount i |}).
  unfold get_uint64. rewrite !get_int_ok by lia. by destruct i.
Qed.
Lemma read_file_identity_json f : fid_ok f -> read_file_identity (normal (file_identity_json f)) = Some (Some f).
Proof.
  intros [H1 H2 _ H4 H5 H6 H7]. change (read_file_identity (normal (file_identity_json f))) with
    (i ← read_identity (normal (identity_json (fi_Identity f))); s ← get_int64 (JInt (fi_Size f)); md ← get_uint32 (JInt (fi_Mode f)); t ← get_int64 (JInt (fi_Modified f));
     cs ← get_int64 (JInt (fi_ChangedSeconds f)); cn ← get_int64 (JInt (fi_ChangedNanos f));
     Some (Some {| fi_Identity := i; fi_Size := s; fi_Owner := fi_Owner f; fi_Mode := md; fi_Modified := t; fi_ChangedSeconds := cs; fi_ChangedNanos := cn |})).
  rewrite read_identity_json by done. unfold get_int64, get_uint32, in_int64 in *. cbn [mbind option_bind]. rewrite !get_int_ok by lia. by destruct f.
Qed.
Lemma read_entry_json e : entry_ok e -> read_entry (normal (entry_json e)) = Some e.
Proof.
  intros [_ H2 _ H4 H5 H6]. assert (read_entry (normal (entry_json e)) =
    (i ← read_identity (normal (identity_json (se_DirectoryID e))); r ← get_int64 (JInt (se_Reserved e));
     f ← match se_Identity e with Some f => read_file_identity (normal (file_identity_json f)) | None => Some None end;
     o ← match se_Replaced e with Some f => read_file_identity (normal (file_identity_json f)) | None => Some None end;
     Some {| se_Directory := se_Directory e; se_DirectoryID := i; se_Temp := se_Temp e; se_Reserved := r; se_Identity := f; se_Replaced := o |})) as ->.
  { by destruct e as [? ? ? ? [?|] [?|]]. }
  rewrite read_identity_json by done. unfold get_int64, in_int64 in *. cbn [mbind option_bind]. rewrite get_int_ok by lia. cbn [mbind option_bind].
  destruct e as [? ? ? ? [f|] [o|]]; cbn -[read_file_identity file_identity_json normal] in *; rewrite ?read_file_identity_json by auto; done.
Qed.
Lemma read_manifest_json m : manifest_ok m -> read_manifest (normal (manifest_json m)) = Some m.
Proof.
  intros [H1 _ _ H4 _]. change (read_manifest (normal (manifest_json m))) with
    (v ← get_int64 (JInt (Version m)); e ← mapM read_entry (map normal (entry_json <$> Entries m));
     Some {| Version := v; Agent := Agent m; sm_Request := sm_Request m; Entries := e |}).
  unfold get_int64, in_int64 in *. rewrite get_int_ok by lia. cbn [mbind option_bind].
  assert (mapM read_entry (map normal (entry_json <$> Entries m)) = Some (Entries m)) as ->; [|by destruct m].
  change (mapM read_entry (map normal (map entry_json (Entries m))) = Some (Entries m)).
  induction H4 as [|e l He Hl IH]; [done|]. cbn [map]. cbn [mapM]. rewrite read_entry_json by done. cbn [mbind option_bind]. by rewrite IH.
Qed.

(** ** Lemmas: size and encodability *)

Lemma encodable_struct m : NoDup m.*1 -> Forall (fun kv => forallb (fun c => (0 <=? c) && (c <? 128)) kv.1 = true /\ ValidString kv.1 = true /\ encodable kv.2) m -> encodable (JObj m).
Proof.
  intros Hn Hm. constructor; [done| |]; [apply Forall_fmap|]; (eapply Forall_impl; [exact Hm|]); intros [k v] (H1 & H2 & H3); [|done]. cbn.
  split; [|done]. eapply Forall_impl; [by apply ascii_text|]. unfold is_byte. cbn. lia.
Qed.
Ltac struct_fields := apply encodable_struct; [by apply (bool_decide_unpack _); vm_compute|]; repeat (constructor; [split_and!; [done|done|]|]); [..|constructor].
Lemma identity_encodable i : id_ok i -> encodable (identity_json i).
Proof. intros [? ? ? [? ?]]. struct_fields; constructor; try done; unfold in_int64, int64_min, int64_max in *; lia. Qed.
Lemma file_identity_encodable f : fid_ok f -> encodable (file_identity_json f).
Proof. intros [? ? [? ?] ? ? ? ?]. struct_fields; [by apply identity_encodable|..]; constructor; try done; unfold in_int64, int64_min, int64_max in *; lia. Qed.
Lemma entry_encodable e : entry_ok e -> encodable (entry_json e).
Proof.
  intros [[? ?] ? [? ?] ? H5 H6]. destruct e as [? ? ? ? [f|] [o|]]; cbn [se_Identity se_Replaced] in *; struct_fields;
    first [by apply identity_encodable|by apply file_identity_encodable; auto|by constructor].
Qed.
Lemma manifest_encodable m : manifest_ok m -> encodable (manifest_json m).
Proof.
  intros [? [? ?] [? ?] H4 _]. struct_fields; try by constructor. constructor. apply Forall_fmap. eapply Forall_impl; [exact H4|]. apply entry_encodable.
Qed.
Lemma identity_items i : items (normal (identity_json i)) = 9.
Proof. done. Qed.
Lemma file_identity_items f : items (normal (file_identity_json f)) = 23.
Proof. done. Qed.
Lemma entry_items e : items (normal (entry_json e)) <= 65.
Proof. destruct e as [? ? ? ? [f|] [o|]]; vm_compute; discriminate. Qed.
Lemma entry_nesting e : nesting (normal (entry_json e)) <= 4.
Proof. destruct e as [? ? ? ? [f|] [o|]]; vm_compute; discriminate. Qed.
Lemma manifest_items m : items (normal (manifest_json m)) <= 9 + 65 * Z.of_nat (length (Entries m)).
Proof.
  change (items (normal (manifest_json m))) with (1 + (1 + 1 + (1 + (1 + items_list (map normal (map entry_json (Entries m)))) + (1 + 1 + (1 + 1 + 0))))).
  assert (items_list (map normal (map entry_json (Entries m))) <= 65 * Z.of_nat (length (Entries m))); [|lia].
  induction (Entries m) as [|e l IH]; [done|]. cbn [map length]. pose proof (entry_items e). unfold items_list in *. cbn [foldr]. lia.
Qed.
Lemma manifest_nesting m : nesting (normal (manifest_json m)) <= 6.
Proof.
  change (nesting (normal (manifest_json m))) with (1 + Z.max 1 (Z.max (1 + nesting_list (map normal (map entry_json (Entries m)))) (Z.max 1 (Z.max 1 0)))).
  assert (nesting_list (map normal (map entry_json (Entries m))) <= 4); [|lia].
  induction (Entries m) as [|e l IH]; [done|]. cbn [map]. pose proof (entry_nesting e). unfold nesting_list in *. cbn [foldr]. lia.
Qed.
Lemma manifest_marshals m : manifest_ok m -> exists b, Marshal (manifest_json m) = Ok b /\ (Z.of_nat (length b) <= manifestLimit -> decode_manifest b = Some m).
Proof.
  intros Hm. destruct (marshal_reads (manifest_json m)) as (b & E & Hr).
  - by apply manifest_encodable.
  - cbn [html_keys manifest_json forallb]. cbn. rewrite !andb_true_r. apply forallb_forall. intros j Hj%list_elem_of_In. apply list_elem_of_fmap in Hj as (e & -> & _).
    by destruct e as [? ? ? ? [f|] [o|]].
  - cbn. rewrite !andb_true_r. apply forallb_forall. intros j Hj%list_elem_of_In. apply list_elem_of_fmap in Hj as (e & -> & _).
    by destruct e as [? ? ? ? [f|] [o|]].
  - exists b. split; [done|]. intros Hl. unfold decode_manifest. rewrite (decode_reads _ _ _ Hr); [by apply read_manifest_json|done|cbn [MaxDepth manifest_limits]..].
    + pose proof (manifest_nesting m). lia.
    + pose proof (manifest_items m). pose proof (ok_count m Hm). cbn [MaxItems manifest_limits]. lia.
Qed.

