(* ===== verification/SaveJournal.v ===== *)
(** * Crash-safe saving of files ([agent/artifacts/save.go])
    A save writes a manifest into the cleanup journal before it creates anything in a
    business directory, records the identity of every temporary file before it fills it,
    installs each complete file atomically and removes what is left over. A restart reads
    the manifests and finishes the removal. [Save], [recoverSaves] and [openSaveJournal]
    are programs over the calls of [HostFs]. *)
From Stdlib Require Import ZArith Lia.
From stdpp Require Import base gmap sets list option strings.
From coqutil Require Import Datatypes.RecordSettersUsingExistingGetters.
From S2P Require Import Prelude Utf8 Sha256 Strconv Json JsonText Canonical JsonReads GoStrings InputValue ArtifactStore HostFs SaveFiles SaveManifest.
Local Open Scope Z_scope.
#[global] Arguments const {E} newValue / _.

(** ** Names and errors *)

Definition trim_prefix (p s : bytes) : bytes := if has_literal_prefix p s then drop (length p) s else s.
Definition trim_suffix (p s : bytes) : bytes := if has_literal_suffix p s then take (length s - length p) s else s.
Definition hex_name (prefix suffix s : bytes) : bool :=
  has_literal_prefix prefix s && has_literal_suffix suffix s && (length s =? length prefix + 32 + length suffix)%nat &&
  forallb is_hex (take 32 (drop (length prefix) s)).
Definition manifestName : bytes -> bool := hex_name (lit "m-") (lit ".json").
Definition draftName : bytes -> bool := hex_name (lit ".draft-") [].
Definition manifest_id (name : bytes) : bytes := trim_suffix (lit ".json") (trim_prefix (lit "m-") name).
Definition draft_of (name : bytes) : bytes := lit ".draft-" ++ manifest_id name.
Definition randomName (prefix suffix : bytes) : prog (res bytes) :=
  tryr^ b := act_ random_hex in Ret (inr (prefix ++ b ++ suffix)).
Definition Fail (code : string) (cause : error) : error := Art code :: cause.
Definition first_art (e : error) : option string := head (omap (fun l => match l with Art c => Some c | _ => None end) e).
Definition first_fs (e : error) : option string := head (omap (fun l => match l with Fs c => Some c | _ => None end) e).
Definition safe_error (e : error) : error :=
  if negb (failed e) then [] else match first_art e with Some c => Fail c e | None => Fail "EXECUTION_FAILED" e end.
(** The category that [Save] gives its error. *)
Definition save_error (e : error) : error :=
  match first_art e, first_fs e with
  | Some _, _ => safe_error e
  | None, Some c => Fail c e
  | None, None =>
      if Is e ErrPermission then Fail "PERMISSION_DENIED" e else if Is e ErrNotExist then Fail "NOT_FOUND" e
      else if Is e ErrExist then Fail "CONFLICT" e else safe_error e
  end.

(** ** The manifest *)

(** The draft is removed in any case; after the rename there is none. *)
Definition persist (j : Identity) (name : bytes) (m : saveManifest) : prog error :=
  match Marshal (manifest_json m) with
  | Err _ => Ret [ErrOther]
  | Ok b =>
      if manifestLimit <? Z.of_nat (length b) then Ret (Fail "LIMIT_EXCEEDED" []) else
      try^ f := act_ (create_at j (draft_of name)) in
      let^ err := (let^ (_, e) := act_ (write_file f b) in
                   let^ e := (if failed e then Ret e else act_ (sync_file f)) in
                   let^ c := act_ close_file in
                   if failed (e ++ c) then Ret (e ++ c) else
                   check^ act_ (rename_at j (draft_of name) name) in
                   act_ (sync_dir j)) in
      let^ e := act_ (unlink_at j (draft_of name)) in
      Ret (if failed e && negb (Is e ErrNotExist) then err ++ ErrDraftCleanup :: e else err)
  end.

(** ** Planning *)

Record SaveFile := { sf_Directory : option Directory; sf_Name : bytes; sf_Overwrite : bool; sf_Value : FileValue }.
(** A file to save with its directory and its entry of the manifest. *)
Record saving := { sv_file : SaveFile; sv_dir : Directory; sv_entry : saveEntry }.
Definition reserved_bytes (v : FileValue) (old : option FileIdentity) : Z :=
  match old with Some o => if fv_SizeBytes v <? fi_Size o then fi_Size o else fv_SizeBytes v | None => fv_SizeBytes v end.
Fixpoint plan_files (files : list SaveFile) (planned : list saving) (total : Z) (seen : list (Identity * bytes)) : prog (res (list saving * Z)) :=
  match files with
  | [] => Ret (inr (planned, total))
  | v :: files =>
      let^ e := act_ ctx_err in
      if failed e then Ret (inl e) else
      match sf_Directory v with
      | None => Ret (inl (Fail "VALIDATION_FAILED" [ErrInvalid]))
      | Some d =>
          if fv_SizeBytes (sf_Value v) <? 0 then Ret (inl (Fail "VALIDATION_FAILED" [ErrInvalid]))
          else if failed (SaveName (sf_Name v)) then Ret (inl (SaveName (sf_Name v)))
          else if bool_decide ((dr_id d, sf_Name v) ∈ seen) then Ret (inl (Fail "CONFLICT" [])) else
          let^ value := Inspect d (sf_Name v) false in
          tryr^ old := Ret (match value with
                            | inr value => if sf_Overwrite v then inr (Some value) else inl (Fail "CONFLICT" [])
                            | inl e => if Is e ErrNotExist then inr None else inl e
                            end) in
          tryr^ temp := randomName (lit ".onprest-") (lit ".tmp") in
          let n := reserved_bytes (sf_Value v) old in
          if int64_max - total <? n then Ret (inl (Fail "LIMIT_EXCEEDED" [])) else
          let entry := {| se_Directory := dr_path d; se_DirectoryID := dr_id d; se_Temp := temp; se_Reserved := n; se_Identity := None; se_Replaced := old |} in
          plan_files files (planned ++ [{| sv_file := v; sv_dir := d; sv_entry := entry |}]) (total + n) ((dr_id d, sf_Name v) :: seen)
      end
  end.
Definition manifest_of (agent request : bytes) (l : list saving) : saveManifest :=
  {| Version := 1; Agent := agent; sm_Request := request; Entries := sv_entry <$> l |}.

(** ** Creating and filling *)

(** The copy loop: what was copied and what the hash was given, with the error. *)
Fixpoint copy_reads (f : Identity) (reads : list (bytes * error)) (size copied : Z) (h : bytes) : prog (error * Z * bytes) :=
  let^ e := act_ ctx_err in
  if failed e then Ret (e, copied, h) else
  match reads with
  | [] => Ret ([ErrNoProgress], copied, h)
  | (b, re) :: reads =>
      let^ (e, copied, h) :=
        (if bool_decide (b = []) then Ret ([], copied, h)
         else if size - copied <? Z.of_nat (length b) then Ret (Fail "VALIDATION_FAILED" [], copied, h) else
         let^ (wn, we) := act_ (write_file f b) in
         if (wn <? 0) || (Z.of_nat (length b) <? wn) then Ret ([ErrShortWrite], copied, h) else
         Ret (if failed we then we else if negb (wn =? Z.of_nat (length b)) then [ErrShortWrite] else [], copied + wn, h ++ take (Z.to_nat wn) b)) in
      if failed e then Ret (e, copied, h)
      else if bool_decide (re = [ErrEOF]) then Ret ([], copied, h)
      else if failed re then Ret (re, copied, h)
      else if bool_decide (b = []) then Ret ([ErrNoProgress], copied, h)
      else copy_reads f reads size copied h
  end.
Definition fill_temp (f : Identity) (v : FileValue) : prog error :=
  try^ reads := act_ open_source in
  let^ (e, copied, h) := copy_reads f reads (fv_SizeBytes v) 0 [] in
  let^ e := (if failed e then Ret e
             else if negb (copied =? fv_SizeBytes v) || negb (bytes_eqb (hex_sha256 h) (fv_SHA256 v)) then Ret (Fail "VALIDATION_FAILED" [])
             else act_ (sync_file f)) in
  let^ rc := act_ close_file in
  let^ fc := act_ close_file in
  Ret (e ++ rc ++ fc).
(** The temporary files, one after the other; [done] have theirs. *)
Fixpoint create_files (j : Identity) (agent request name : bytes) (done todo : list saving) (pins : pinmap) : prog (error * list saving * pinmap) :=
  match todo with
  | [] => Ret ([], done, pins)
  | v :: todo =>
      let^ e := act_ ctx_err in
      if failed e then Ret (e, done ++ v :: todo, pins) else
      let^ r := CreateTemp pins (sv_dir v) (se_Temp (sv_entry v)) in
      match r with
      | inl e => Ret (e, done ++ v :: todo, pins)
      | inr (f, id, pins) =>
          let v := v <| sv_entry := (sv_entry v) <| se_Identity := Some id |> |> in
          let^ e := persist j name (manifest_of agent request (done ++ v :: todo)) in
          if failed e then Ret (e, done ++ v :: todo, pins) else
          let^ e := fill_temp f (sf_Value (sv_file v)) in
          if failed e then Ret (e, done ++ v :: todo, pins) else
          create_files j agent request name (done ++ [v]) todo pins
      end
  end.

(** ** Publishing *)

(** The files in order; [installed] is what the caller was told. *)
Fixpoint publish_files (l : list saving) (pins : pinmap) (installed : list bool) : prog (error * pinmap * list bool) :=
  match l with
  | [] => Ret ([], pins, installed)
  | v :: l =>
      let^ e := act_ ctx_err in
      if failed e then Ret (e, pins, installed) else
      match se_Identity (sv_entry v) with
      | None => Ret ([], pins, installed)   (* a nil pointer: every file has its identity here *)
      | Some id =>
          let^ (did, e, pins) := Publish pins (sv_dir v) (se_Temp (sv_entry v)) (sf_Name (sv_file v)) (sf_Overwrite (sv_file v))
                                   (id <| fi_Size := fv_SizeBytes (sf_Value (sv_file v)) |>) (se_Replaced (sv_entry v)) in
          let installed := (if did : bool then installed ++ [negb (failed e)] else installed) in
          if failed e then Ret (e, pins, installed) else publish_files l pins installed
      end
  end.

(** ** Cleaning up *)

Definition temp_ids (e : saveEntry) : list FileIdentity :=
  match se_Identity e, se_Replaced e with None, _ => [] | Some i, None => [i] | Some i, Some r => [i; r] end.
Definition unidentified (e : saveEntry) : bool := match se_Identity e with None => true | Some _ => false end.
Fixpoint remove_temps (l : list (Directory * saveEntry)) (pins : pinmap) : prog (error * pinmap) :=
  match l with
  | [] => Ret ([], pins)
  | (d, v) :: l =>
      let^ (e, pins) := RemoveTemp pins d (se_Temp v) (temp_ids v) (unidentified v) in
      if failed e then Ret (e, pins) else
      let^ e := Sync d in
      if failed e then Ret (e, pins) else remove_temps l pins
  end.
Definition cleanup (j : Identity) (name : bytes) (err : error) (l : list saving) (pins : pinmap) : prog error :=
  let^ (e, _) := remove_temps ((fun v => (sv_dir v, sv_entry v)) <$> l) pins in
  if failed e then Ret e
  else if Is err ErrDraftCleanup then Ret [ErrDraftCleanup] else
  let^ e := act_ (unlink_at j name) in
  if failed e && negb (Is e ErrNotExist) then Ret e else act_ (sync_dir j).
(** What is still there when the clean-up fails. *)
Fixpoint measure_temps (l : list saving) (total : Z) : prog Z :=
  match l with
  | [] => Ret total
  | v :: l =>
      let^ r := Inspect (sv_dir v) (se_Temp (sv_entry v)) false in
      let n := (match r with inr a => Z.max (se_Reserved (sv_entry v)) (fi_Size a) | inl _ => se_Reserved (sv_entry v) end) in
      if int64_max - total <? n then Ret int64_max else measure_temps l (total + n)
  end.

(** ** [Save] *)

Definition reserve (n : Z) : prog (res nat) :=
  let^ r := act_ (store_act (fun s => Reserve s n)) in
  Ret (match r with Ok r => inr r | Err code => inl (Fail code []) end).
Definition release (r : nat) : prog unit := act_ (store_act (fun s => (Release s r, tt))).
Definition enter_journal : act error := fun _ w =>
  if w_stopped w then (Fail "DEPENDENCY_UNAVAILABLE" [], w)
  else if MaxPending (s_options (w_store w)) <=? w_active w then (Fail "BUSY" [], w)
  else ([], w <| w_active ::= Z.add 1 |>).
Definition leave_journal : act unit := fun _ w => (tt, w <| w_active ::= fun n => n - 1 |>).
Definition stop_journal : act unit := fun _ w => (tt, w <| w_stopped := true |>).
(** The save with its manifest durable: the outcome, the files with their entries and the notifications. *)
Definition save_body (j : Identity) (agent request name : bytes) (l : list saving) : prog (error * list saving * pinmap * list bool) :=
  let^ e := persist j name (manifest_of agent request l) in
  if failed e then Ret (e, l, ∅, []) else
  let^ (e, l, pins) := create_files j agent request name [] l ∅ in
  if failed e then Ret (e, l, pins, []) else
  let^ (e, pins, installed) := publish_files l pins [] in
  Ret (e, l, pins, installed).
(** After the body: clean up, and release or retain the reservation and the slot. *)
Definition finish_save (j : Identity) (name : bytes) (r : nat) (err : error) (l : list saving) (pins : pinmap) : prog error :=
  let^ c := cleanup j name err l pins in
  if failed c then
    let^ total := measure_temps l manifestReservation in
    let^ _ := act_ (store_act (retain r total)) in
    let^ _ := act_ stop_journal in
    Ret (err ++ Fail "EXECUTION_FAILED" c)
  else
    let^ _ := release r in
    let^ _ := act_ leave_journal in
    Ret err.
Definition save_request_ok (request : bytes) : bool :=
  negb (bytes_eqb request [] || (256 <? Z.of_nat (length request)) || negb (ValidString request) || ContainsRune request 0).
(** A save on the open journal, from the check of its arguments on. *)
Definition save_files (j : Identity) (agent request : bytes) (files : list SaveFile) : prog (error * list bool) :=
  if bool_decide (files = []) || negb (save_request_ok request) then Ret (Fail "VALIDATION_FAILED" [ErrInvalid], []) else
  let^ e := act_ enter_journal in
  if failed e then Ret (e, []) else
  let^ r := plan_files files [] manifestReservation [] in
  match r with
  | inl e => let^ _ := act_ leave_journal in Ret (e, [])
  | inr (l, total) =>
      let^ r := reserve total in
      match r with
      | inl e => let^ _ := act_ leave_journal in Ret (e, [])
      | inr r =>
          let^ name := randomName (lit "m-") (lit ".json") in
          match name with
          | inl e => let^ _ := release r in let^ _ := act_ leave_journal in Ret (e, [])
          | inr name =>
              let^ (err, l, pins, installed) := save_body j agent request name l in
              let^ err := finish_save j name r err l pins in
              Ret (err, installed)
          end
      end
  end.

(** ** Recovery *)

Definition protect (i : Identity) : act error :=
  or_fault_e (fun _ w => (match w_files w !! i with
    | Some f => if is_private (w_euid w) f && f_regular f && (f_links f =? 1) then [] else [ErrOther]
    | None => [ErrOther]
    end, w)).
(** [openPrivate] of a file that exists: the name is looked at before it is opened. *)
Definition lstat (d : Identity) (name : bytes) : act (res (Identity * file)) :=
  or_fault (fun c w => match entry w d name with
    | Some i => match stat i c w with (inr f, _) => (inr (i, f), w) | (inl e, _) => (inl e, w) end
    | None => (inl [ErrNotExist], w)
    end).
Definition openPrivate (j : Identity) (name : bytes) : prog (res Identity) :=
  tryr^ (i, info) := act_ (lstat j name) in
  if negb (f_regular info) then Ret (inl [ErrPermission]) else
  tryr^ f := act_ (open_at j name) in
  tryr^ _ := act_ (stat f) in
  if negb (bool_decide (i = f)) then Ret (inl [ErrPermission]) else
  let^ e := act_ (protect f) in
  Ret (if failed e then inl e else inr f).

Definition osFailure (e : error) : error :=
  if Is e ErrNotExist then failure "NOT_FOUND" e else if Is e ErrPermission then failure "PERMISSION_DENIED" e else failure "EXECUTION_FAILED" e.
(** The root and then [.] below it. *)
Definition OpenDirectory (handle : nat) (path : bytes) : prog (res Directory) :=
  if negb (has_prefix 47 path) || negb (ValidString path) || ContainsRune path 0 then Ret (inl (failure "VALIDATION_FAILED" [ErrInvalid])) else
  let^ i := act_ (open_dir path) in
  match i with
  | inl e => Ret (inl (osFailure e))
  | inr i =>
      let^ a := act_ (stat i) in
      let^ b := act_ (stat i) in
      match a, b with
      | inr _, inr _ => Ret (inr {| dr_handle := handle; dr_id := i; dr_path := path; dr_open := true |})
      | inl e, _ => Ret (inl (osFailure e))
      | _, inl e => Ret (inl (osFailure e))
      end
  end.

Definition file_identity_valid (f : option FileIdentity) (limit : Z) : bool :=
  match f with Some f => negb (bytes_eqb (fi_Owner f) []) && (0 <=? fi_Size f) && (fi_Size f <=? limit) | None => true end.
(** What may be at the temporary name. *)
Definition check_current (d : Directory) (v : saveEntry) (current : FileIdentity) : prog error :=
  match se_Identity v with
  | None => Ret (if fi_Size current =? 0 then [] else [ErrPermission])
  | Some id =>
      if bool_decide (fi_Identity current = fi_Identity id) then
        if negb (bytes_eqb (fi_Owner current) (fi_Owner id)) then Ret [ErrPermission] else
        let^ r := Inspect d (se_Temp v) true in Ret (match r with inl e => e | inr _ => [] end)
      else Ret (match se_Replaced v with Some o => if MatchesDisplaced current o then [] else [ErrPermission] | None => [ErrPermission] end)
  end.
Definition check_entry (handle : nat) (v : saveEntry) (total : Z) (temps : list (Identity * bytes)) : prog (res (Directory * Z)) :=
  if negb (has_prefix 47 (se_Directory v)) || (se_Reserved v <? 0) || (int64_max - total <? se_Reserved v) then Ret (inl [ErrInvalid])
  else if negb (validTempName (se_Temp v)) then Ret (inl [ErrPermission])
  else if negb (file_identity_valid (se_Identity v) int64_max) || negb (file_identity_valid (se_Replaced v) (se_Reserved v)) then Ret (inl [ErrInvalid]) else
  tryr^ d := OpenDirectory handle (se_Directory v) in
  if negb (bool_decide (dr_id d = se_DirectoryID v)) then Ret (inl [ErrPermission])
  else if bool_decide ((se_DirectoryID v, se_Temp v) ∈ temps) then Ret (inl [ErrPermission]) else
  let^ current := Inspect d (se_Temp v) (unidentified v) in
  tryr^ n := (match current with
              | inl e => Ret (if Is e ErrNotExist then inr (se_Reserved v) else inl e)
              | inr c => let^ e := check_current d v c in Ret (if failed e then inl e else inr (Z.max (se_Reserved v) (fi_Size c)))
              end) in
  Ret (if int64_max - total <? n then inl (Fail "LIMIT_EXCEEDED" []) else inr (d, total + n)).
Fixpoint check_entries (l : list saveEntry) (dirs : list Directory) (total : Z) (temps : list (Identity * bytes))
    : prog (res (list Directory * Z * list (Identity * bytes))) :=
  match l with
  | [] => Ret (inr (dirs, total, temps))
  | v :: l =>
      tryr^ (d, total) := check_entry (length dirs) v total temps in
      check_entries l (dirs ++ [d]) total ((se_DirectoryID v, se_Temp v) :: temps)
  end.

Record pending := { pd_name : bytes; pd_manifest : saveManifest; pd_dirs : list Directory; pd_reservation : nat }.
Record scan := { sn_saves : list pending; sn_drafts : list bytes; sn_temps : list (Identity * bytes); sn_requests : list bytes }.
Definition manifest_accepted (agent : bytes) (m : saveManifest) : bool :=
  (Version m =? 1) && bytes_eqb (Agent m) agent && save_request_ok (sm_Request m) && negb (bool_decide (Entries m = [])) && (Z.of_nat (length (Entries m)) <=? 65536).
#[export] Instance saveEntry_eq_dec : EqDecision saveEntry.
Proof. solve_decision. Defined.
Definition scan_manifest (agent name b : bytes) (s : scan) : prog (res scan) :=
  match decode_manifest b with
  | None => Ret (inl [ErrOther])
  | Some m =>
      if negb (manifest_accepted agent m) then Ret (inl [ErrPermission])
      else if bool_decide (sm_Request m ∈ sn_requests s) then Ret (inl [ErrPermission]) else
      tryr^ (dirs, total, temps) := check_entries (Entries m) [] manifestReservation (sn_temps s) in
      tryr^ r := reserve total in
      Ret (inr {| sn_saves := sn_saves s ++ [{| pd_name := name; pd_manifest := m; pd_dirs := dirs; pd_reservation := r |}];
                  sn_drafts := sn_drafts s; sn_temps := temps; sn_requests := sm_Request m :: sn_requests s |})
  end.
Fixpoint scan_entries (j : Identity) (agent : bytes) (max : Z) (names : list bytes) (s : scan) : prog (res scan) :=
  match names with
  | [] => Ret (inr s)
  | n :: names =>
      if bytes_eqb n (lit ".lock") || bytes_eqb n (lit "identity") then scan_entries j agent max names s
      else if negb (manifestName n) && negb (draftName n) then Ret (inl [ErrPermission]) else
      tryr^ f := openPrivate j n in
      let^ info := act_ (stat f) in
      match info with
      | inl e => Ret (inl (Fail "LIMIT_EXCEEDED" e))
      | inr info =>
          if manifestLimit <? Z.of_nat (length (f_data info)) then Ret (inl (Fail "LIMIT_EXCEEDED" [])) else
          let^ b := act_ (read_file f) in
          let^ c := act_ close_file in
          match b, c with
          | inl e, _ => Ret (inl (e ++ c))
          | _, _ :: _ => Ret (inl c)
          | inr b, [] =>
              if draftName n then scan_entries j agent max names (s <| sn_drafts ::= fun l => l ++ [n] |>)
              else if max <=? Z.of_nat (length (sn_saves s)) then Ret (inl (Fail "LIMIT_EXCEEDED" [])) else
              tryr^ s := scan_manifest agent n (take (Z.to_nat (manifestLimit + 1)) b) s in
              scan_entries j agent max names s
          end
      end
  end.
(** Room for the drafts without a manifest. *)
Fixpoint reserve_drafts (drafts : list bytes) (ids : list bytes) (saves max orphans : Z) (rs : list nat) : prog (res (list nat)) :=
  match drafts with
  | [] => Ret (inr rs)
  | name :: drafts =>
      if bool_decide (trim_prefix (lit ".draft-") name ∈ ids) then reserve_drafts drafts ids saves max orphans rs
      else if max <? saves + (orphans + 1) then Ret (inl (Fail "LIMIT_EXCEEDED" [])) else
      tryr^ r := reserve manifestReservation in
      reserve_drafts drafts ids saves max (orphans + 1) (rs ++ [r])
  end.
Fixpoint remove_saves (j : Identity) (l : list pending) : prog error :=
  match l with
  | [] => Ret []
  | p :: l =>
      let^ (e, _) := remove_temps (zip (pd_dirs p) (Entries (pd_manifest p))) ∅ in
      if failed e then Ret e else
      check^ act_ (unlink_at j (pd_name p)) in
      check^ act_ (sync_dir j) in
      remove_saves j l
  end.
Fixpoint remove_drafts (j : Identity) (l : list bytes) : prog error :=
  match l with
  | [] => Ret []
  | n :: l => check^ act_ (unlink_at j n) in remove_drafts j l
  end.
Fixpoint release_all (l : list nat) : prog unit :=
  match l with [] => Ret tt | r :: l => let^ _ := release r in release_all l end.
Definition max_pending : act Z := fun _ w => (MaxPending (s_options (w_store w)), w).
Definition recoverSaves (j : Identity) (agent : bytes) : prog error :=
  let^ max := act_ max_pending in
  let^ names := act_ (read_dir j (max * 2 + 3)) in
  let^ c := act_ close_file in
  match names, c with
  | inl e, _ => Ret (c ++ e)
  | _, _ :: _ => Ret c
  | inr names, [] =>
      if max * 2 + 2 <? Z.of_nat (length names) then Ret (Fail "LIMIT_EXCEEDED" []) else
      try^ s := scan_entries j agent max names {| sn_saves := []; sn_drafts := []; sn_temps := []; sn_requests := [] |} in
      try^ rs := reserve_drafts (sn_drafts s) (manifest_id ∘ pd_name <$> sn_saves s) (Z.of_nat (length (sn_saves s))) max 0 [] in
      check^ remove_saves j (sn_saves s) in
      check^ remove_drafts j (sn_drafts s) in
      check^ act_ (sync_dir j) in
      let^ _ := release_all (pd_reservation <$> sn_saves s) in
      let^ _ := release_all rs in
      Ret []
  end.

(** ** Opening the journal *)

Definition namespace : bytes := lit "file-write-cleanup".
Definition protectDirectory (i : Identity) : act error :=
  or_fault_e (fun _ w => (match w_dirs w !! i with Some d => if d_private d then [] else [ErrOther] | None => [ErrOther] end, w)).
(** [openPrivate] that may create the file. *)
Definition openLock (j : Identity) : prog (res Identity) :=
  let^ info := act_ (lstat j (lit ".lock")) in
  match info with
  | inr _ => openPrivate j (lit ".lock")
  | inl e =>
      if negb (Is e ErrNotExist) then Ret (inl e) else
      tryr^ f := act_ (create_at j (lit ".lock")) in
      let^ e := act_ (protect f) in
      Ret (if failed e then inl e else inr f)
  end.
(** The agent's name: read, or drawn and written. *)
Definition open_identity (j : Identity) : prog (res bytes) :=
  let^ f := openPrivate j (lit "identity") in
  match f with
  | inr f =>
      let^ b := act_ (read_file f) in
      let^ c := act_ close_file in
      match b, c with
      | inr b, [] => Ret (if (length b =? 32)%nat && forallb is_hex b then inr b else inl [ErrPermission])
      | _, _ => Ret (inl [ErrPermission])
      end
  | inl e =>
      if negb (Is e ErrNotExist) then Ret (inl e) else
      tryr^ id := randomName [] [] in
      tryr^ f := act_ (create_at j (lit "identity")) in
      let^ (_, e) := act_ (write_file f id) in
      let^ e := (if failed e then Ret e else act_ (sync_file f)) in
      let^ c := act_ close_file in
      let^ s := act_ (sync_dir j) in
      Ret (if failed (e ++ c ++ s) then inl (e ++ c ++ s) else inr id)
  end.
Definition set_journal (j : Identity) (agent : bytes) : act unit := fun _ w => (tt, w <| w_journal := Some (j, agent) |>).
(** The journal's directory, if there is one: [Mkdir] finds it there. *)
Definition open_namespace (spool : Identity) : prog (res (option Identity)) :=
  let^ l := act_ (lstat spool namespace) in
  match l with
  | inl e => Ret (if Is e ErrNotExist then inr None else inl e)
  | inr _ =>
      let^ m := act_ (mkdir_at spool namespace) in
      if (match m with inl e => negb (Is e ErrExist) | inr _ => false end) then Ret (inl (match m with inl e => e | inr _ => [] end)) else
      let^ l := act_ (lstat spool namespace) in
      match l with
      | inl _ => Ret (inl [ErrPermission])
      | inr (_, info) =>
          if f_regular info then Ret (inl [ErrPermission]) else
          tryr^ i := act_ (open_at spool namespace) in
          let^ e := act_ (protectDirectory i) in
          let^ c := act_ close_file in
          if failed (e ++ c) then Ret (inl (e ++ c)) else
          tryr^ root := act_ (open_at spool namespace) in
          tryr^ _ := act_ (stat root) in
          Ret (inr (Some root))
      end
  end.
Definition openSaveJournal (spool : Identity) : prog error :=
  try^ ns := open_namespace spool in
  match ns with
  | None => Ret []
  | Some j =>
      try^ lock := openLock j in
      let^ info := act_ (stat lock) in
      match info with
      | inl _ => Ret [ErrPermission]
      | inr info =>
          if negb (bool_decide (f_data info = [])) then Ret [ErrPermission] else
          let^ busy := act_ close_file in   (* [flock]: fails when another process has it *)
          if failed busy then Ret (Fail "BUSY" busy) else
          try^ agent := open_identity j in
          check^ recoverSaves j agent in
          let^ _ := act_ (set_journal j agent) in
          Ret []
      end
  end.

(** ** The first save *)

Definition syncSpoolDirectory (spool : Identity) : prog error :=
  try^ _ := act_ (stat spool) in
  let^ e := act_ (sync_dir spool) in
  let^ c := act_ close_file in
  Ret (e ++ c).
Definition ProbeDurableSaves (spool : Identity) : prog error :=
  let^ e := syncSpoolDirectory spool in
  Ret (if failed e then ErrOther :: e else []).
Definition journal_state : act (option (Identity * bytes) * bool) := fun _ w => ((w_journal w, w_stopped w), w).
(** The new namespace is taken back when it cannot be made durable. *)
Definition create_namespace (spool : Identity) : prog (error * bool) :=
  let^ m := act_ (mkdir_at spool namespace) in
  match m with
  | inl e => Ret (e, false)
  | inr _ =>
      let^ e := syncSpoolDirectory spool in
      if negb (failed e) then Ret ([], false) else
      let^ r := act_ (unlink_at spool namespace) in
      if failed r then Ret (e, false) else
      let^ s := syncSpoolDirectory spool in
      Ret (e, negb (failed s))
  end.
Definition ensure_journal (spool : Identity) : prog error :=
  let^ (journal, stopped) := act_ journal_state in
  if stopped : bool then Ret (Fail "DEPENDENCY_UNAVAILABLE" []) else
  match journal with
  | Some _ => Ret []
  | None =>
      let^ e := ProbeDurableSaves spool in
      if failed e then Ret (Fail "DEPENDENCY_UNAVAILABLE" e) else
      let^ (e, undone) := create_namespace spool in
      if undone : bool then Ret (Fail "DEPENDENCY_UNAVAILABLE" e) else
      let^ e := (if negb (failed e) || Is e ErrExist then openSaveJournal spool else Ret e) in
      if failed e then let^ _ := act_ stop_journal in Ret (safe_error e) else Ret []
  end.
Definition Save (spool : Identity) (request : bytes) (files : list SaveFile) : prog (error * list bool) :=
  let^ e := ensure_journal spool in
  if failed e then Ret (save_error e, []) else
  let^ (journal, _) := act_ journal_state in
  match journal with
  | None => Ret (Fail "VALIDATION_FAILED" [ErrInvalid], [])
  | Some (j, agent) => let^ (e, installed) := save_files j agent request files in Ret (save_error e, installed)
  end.
