(* ===== verification/SaveLogic.v ===== *)
(** * Reasoning about programs on files
    A program owns keys, names in directories that nobody else changes, and files. For each
    key it knows the entry and what the entry may be after a crash; for each file its
    contents. [safe] says of a program that it keeps an invariant of what it knows at every
    point, whatever its calls answer and whatever others do to the rest of the machine, and
    that it changes nothing that is not its own. The rules give the effect of each call. *)
From Stdlib Require Import ZArith Lia.
From stdpp Require Import base gmap sets list option strings.
From coqutil Require Import Datatypes.RecordSettersUsingExistingGetters.
From S2P Require Import Prelude GoStrings ArtifactStore HostFs SaveFiles SaveManifest SaveJournal.
Local Open Scope Z_scope.
#[global] Arguments const {E} newValue / _.

Abbreviation key := (Identity * bytes)%type.
(** What a program knows. *)
Record resources := {
  r_keys : gmap key (option Identity * list (option Identity));   (* the entry, and what a crash may leave *)
  r_files : gmap Identity file;
  r_new : gset Identity;                                            (* the files it created *)
  r_dirs : gset Identity; r_euid : Z;
  r_reserved : option (nat * Z);                                    (* its reservation in the store *)
  r_active : bool;                                                  (* it is counted among the active saves *)
  r_store : option Store;                                           (* the store, when nobody else runs *)
  r_plan : list (key * Z)                                           (* the temporary names of a save, with what is reserved for them *)
}.

Definition mayw (w : world) (d : Identity) (n : bytes) (v : option Identity) : Prop := exists dr, w_dirs w !! d = Some dr /\ may dr n v.
(** Equal files, up to the time of their last change of state. *)
Definition same (f f' : file) : Prop := f' = f <| f_changed := f_changed f' |>.

(** Numbers of a file that a manifest can hold. *)
Record meta_ok (i : Identity) (f : file) : Prop := {
  mo_id : id_ok i; mo_uid : in_int64 (f_uid f); mo_mode : 0 <= f_mode f < 2 ^ 32; mo_modified : in_int64 (f_modified f);
  mo_changed : in_int64 (f_changed f).1 /\ in_int64 (f_changed f).2
}.
(** What the accounting of the store guarantees to a save. *)
Record store_ok (s : Store) : Prop := {
  so_used : msum (fun n => n) (s_reservations s) <= s_used s <= QuotaBytes (s_options s);
  so_objects : Z.of_nat (size (s_reservations s)) <= objects s <= MaxObjects (s_options s);
  so_reservations : map_Forall (fun r n => 1 <= n /\ (r < s_next s)%nat) (s_reservations s)
}.
Definition b2z (b : bool) : Z := if b then 1 else 0.

(** ** Updates of what is known, and of a directory *)

Definition put (d : Identity) (nv : bytes * option Identity) (r : resources) : resources :=
  r <| r_keys ::= alter (fun cl : option Identity * list (option Identity) => (nv.2, cl.2 ++ [nv.2])) (d, nv.1) |>.
Definition put_all (d : Identity) (u : update) (r : resources) : resources := foldl (fun r nv => put d nv r) r u.
Lemma put_all_cons d nv u r : put_all d (nv :: u) r = put_all d u (put d nv r).
Proof. done. Qed.
Lemma put_all_rest d u r : exists ks, put_all d u r = r <| r_keys := ks |>.
Proof. revert r. induction u as [|nv u IH]; intros r; [exists (r_keys r); by destruct r|]. rewrite put_all_cons. destruct (IH (put d nv r)) as (ks & ->). by exists ks. Qed.
Lemma put_all_other d u r d' n : (d' = d -> n ∉ u.*1) -> r_keys (put_all d u r) !! (d', n) = r_keys r !! (d', n).
Proof.
  revert r. induction u as [|nv u IH]; intros r H; [done|]. rewrite put_all_cons, IH by (intros ->; specialize (H eq_refl); cbn in H; set_solver).
  cbn. rewrite lookup_alter_ne; [done|]. intros [= -> <-]. apply (H eq_refl). cbn. left.
Qed.
Lemma put_all_key d u r n v cl : NoDup u.*1 -> (n, v) ∈ u -> r_keys r !! (d, n) = Some cl -> r_keys (put_all d u r) !! (d, n) = Some (v, cl.2 ++ [v]).
Proof.
  revert r cl. induction u as [|nv u IH]; intros r cl Hn Hin Hk; [by apply not_elem_of_nil in Hin|]. cbn in Hn. apply NoDup_cons in Hn as [Hn1 Hn2]. rewrite put_all_cons.
  apply elem_of_cons in Hin as [<-|Hin].
  - rewrite put_all_other by (intros _; exact Hn1). cbn. rewrite lookup_alter_eq, Hk. done.
  - apply IH; [done..|]. cbn. rewrite lookup_alter_ne; [done|]. intros [= E]. apply Hn1. rewrite E. apply list_elem_of_fmap. by exists (n, v).
Qed.
Lemma put_all_dom d u r k : is_Some (r_keys (put_all d u r) !! k) <-> is_Some (r_keys r !! k).
Proof. revert r. induction u as [|nv u IH]; intros r; [done|]. rewrite put_all_cons, IH. cbn. destruct (decide (k = (d, nv.1))) as [->|Hk]; [rewrite lookup_alter_eq, fmap_is_Some; done|by rewrite lookup_alter_ne]. Qed.

Lemma apply_update_in m u n v : NoDup u.*1 -> (n, v) ∈ u -> apply_update m u !! n = v.
Proof.
  revert m. induction u as [|nv u IH]; intros m Hn Hin; [by apply not_elem_of_nil in Hin|]. cbn in Hn. apply NoDup_cons in Hn as [Hn1 Hn2].
  change (apply_update m (nv :: u)) with (apply_update (partial_alter (fun _ => nv.2) nv.1 m) u).
  apply elem_of_cons in Hin as [<-|Hin]; [|by apply IH]. rewrite apply_update_other by done. by rewrite lookup_partial_alter_eq.
Qed.
Lemma entry_change d u w d' n : is_Some (w_dirs w !! d) ->
  entry (change_dir d u w) d' n = if decide (d' = d) then (dr ← w_dirs w !! d; apply_update (d_cur dr) u !! n) else entry w d' n.
Proof.
  intros [dr E]. unfold entry, change_dir. cbn. destruct (decide (d' = d)) as [->|Hd]; [by rewrite lookup_alter_eq, E|by rewrite lookup_alter_ne].
Qed.
Lemma may_change d u w d' n v : mayw (change_dir d u w) d' n v -> mayw w d' n v \/ d' = d /\ (n, v) ∈ u.
Proof.
  intros (dr & E & H). unfold change_dir in E. cbn in E. destruct (decide (d' = d)) as [->|Hd]; [|rewrite lookup_alter_ne in E by done; left; by exists dr].
  rewrite lookup_alter_eq in E. destruct (w_dirs w !! d) as [dr0|] eqn:E0; [|done]. injection E as <-. destruct H as [H|(u' & Hu & H)]; cbn in *.
  - left. exists dr0. split; [done|by left].
  - apply elem_of_app in Hu as [Hu|Hu%list_elem_of_singleton]; [left; exists dr0; split; [done|right; eauto]|subst; auto].
Qed.
Lemma wf_change d u w : (forall d dr, w_dirs w !! d = Some dr -> wf_dir dr) -> forall d' dr, w_dirs (change_dir d u w) !! d' = Some dr -> wf_dir dr.
Proof.
  intros H d' dr. unfold change_dir. cbn. destruct (decide (d' = d)) as [->|Hd]; [|rewrite lookup_alter_ne by done; eauto].
  rewrite lookup_alter_eq. destruct (w_dirs w !! d) as [dr0|] eqn:E; [|done]. intros [= <-]. unfold wf_dir. cbn. rewrite foldl_snoc. f_equal. by apply H in E.
Qed.

Section Safe.
Context (J : Identity).
(** With [calm] no call fails; [located] says where directories are; the options of the store. *)
Context (calm : bool) (located : bytes -> Identity -> Prop) (opts : Options).

(** Choices of the operating system within the range of its types, with inodes below 2^63. *)
Definition sane (c : choice) : Prop := 0 <= ch_inode c <= int64_max /\ in_int64 (ch_time c) /\ (calm = true -> ch_fault c = None).

(** The random part of a name that is drawn. *)
Definition temp_hex (n : bytes) : bytes := take 32 (drop 9 n).
Definition name_hex (d : Identity) (n : bytes) : option bytes :=
  if validTempName n then Some (temp_hex n)
  else if bool_decide (d = J) then if manifestName n then Some (manifest_id n) else if draftName n then Some (trim_prefix (lit ".draft-") n) else None
  else None.

Record wf (w : world) : Prop := {
  wf_dirs : forall d dr, w_dirs w !! d = Some dr -> wf_dir dr;
  wf_alloc : forall d n i, mayw w d n (Some i) -> is_Some (w_files w !! i) \/ is_Some (w_dirs w !! i);
  wf_drawn : forall d n i h, mayw w d n (Some i) -> name_hex d n = Some h -> h ∈ w_drawn w;
  wf_meta : forall i f, w_files w !! i = Some f -> meta_ok i f;
  wf_ids : forall d, is_Some (w_dirs w !! d) -> id_ok d;
  wf_euid : in_int64 (w_euid w);
  wf_located : forall p i, located p i -> w_paths w !! p = Some i /\ is_Some (w_dirs w !! i);
  wf_store : store_ok (w_store w);
  wf_options : s_options (w_store w) = opts;
  wf_active : w_active w <= MaxPending opts
}.
Record owned (r : resources) (w : world) : Prop := {
  ow_cur : forall d n c l, r_keys r !! (d, n) = Some (c, l) -> entry w d n = c;
  ow_may : forall d n c l v, r_keys r !! (d, n) = Some (c, l) -> mayw w d n v -> v ∈ l;
  ow_file : forall i f, r_files r !! i = Some f -> exists f', w_files w !! i = Some f' /\ same f f';
  ow_only : forall i d n, i ∈ r_new r -> mayw w d n (Some i) -> is_Some (r_keys r !! (d, n));
  ow_new : forall i, i ∈ r_new r -> is_Some (r_files r !! i);
  ow_dirs : forall d, d ∈ r_dirs r -> is_Some (w_dirs w !! d);
  ow_key_dir : forall d n, is_Some (r_keys r !! (d, n)) -> d ∈ r_dirs r;
  ow_hex : forall d n h, is_Some (r_keys r !! (d, n)) -> name_hex d n = Some h -> h ∈ w_drawn w;
  ow_euid : w_euid w = r_euid r;
  ow_reserved : forall k n, r_reserved r = Some (k, n) -> s_reservations (w_store w) !! k = Some n;
  ow_store : forall s, r_store r = Some s -> w_store w = s;
  ow_journal : forall n i, is_Some (r_store r) -> mayw w J n (Some i) -> is_Some (r_keys r !! (J, n))
}.

Context (publishable : Identity -> bytes -> file -> Prop).

(** A name that is neither temporary nor the journal's. *)
Definition business (d : Identity) (n : bytes) : Prop := d <> J /\ validTempName n = false.
(** What a step of a program with the resources [r] does to the machine: it changes only
    its own keys and files, and puts under a name that is neither temporary nor the
    journal's only what may be published there. *)
Record local (r r' : resources) (w w' : world) : Prop := {
  lo_entry : forall d n, r_keys r' !! (d, n) = None -> entry w' d n = entry w d n;
  lo_may : forall d n v, r_keys r' !! (d, n) = None -> mayw w' d n v -> mayw w d n v;
  lo_file : forall i f, i ∉ r_new r' -> w_files w !! i = Some f -> exists f', w_files w' !! i = Some f' /\ same f f';
  lo_moved : forall d n i, mayw w' d n (Some i) -> mayw w d n (Some i) \/ is_Some (r_keys r' !! (d, n)) /\ (i ∈ r_new r' \/ exists d' n', is_Some (r_keys r' !! (d', n')) /\ mayw w d' n' (Some i));
  lo_dirs : forall d, is_Some (w_dirs w' !! d) <-> is_Some (w_dirs w !! d);
  lo_same : w_paths w' = w_paths w /\ w_euid w' = w_euid w;
  lo_drawn : w_drawn w ⊆ w_drawn w';
  lo_fresh : forall i, i ∈ r_new r' -> i ∈ r_new r \/ w_files w !! i = None;
  lo_files : forall i, is_Some (r_files r' !! i) -> is_Some (r_files r !! i) \/ i ∈ r_new r';
  lo_grow : r_new r ⊆ r_new r' /\ forall k, is_Some (r_keys r !! k) -> is_Some (r_keys r' !! k);
  lo_keys : forall d n, is_Some (r_keys r' !! (d, n)) -> is_Some (r_keys r !! (d, n)) \/ exists h, name_hex d n = Some h /\ h ∉ w_drawn w;
  lo_publish : forall d n v, business d n -> mayw w' d n v -> mayw w d n v \/ exists i f, v = Some i /\ w_files w' !! i = Some f /\ publishable d n f;
  lo_settled : forall d n i f, business d n -> mayw w d n (Some i) -> w_files w !! i = Some f -> exists f', w_files w' !! i = Some f' /\ same f f';
  lo_active : w_active w' - b2z (r_active r') = w_active w - b2z (r_active r);
  lo_kept : forall k n, r_store r = None -> s_reservations (w_store w) !! k = Some n -> (forall m, r_reserved r <> Some (k, m)) -> s_reservations (w_store w') !! k = Some n;
  lo_reserved : forall k n, r_reserved r' = Some (k, n) -> r_reserved r = Some (k, n) \/ s_reservations (w_store w) !! k = None;
  lo_store : r_store r' = None <-> r_store r = None
}.

Context (I : resources -> Prop).
Fixpoint safe {A} (p : prog A) (r : resources) (Q : A -> resources -> Prop) : Prop :=
  match p with
  | Ret a => I r /\ Q a r
  | Act f k => I r /\ forall w c, sane c -> wf w -> owned r w -> exists r', wf (f c w).2 /\ owned r' (f c w).2 /\ local r r' w (f c w).2 /\ safe (k (f c w).1) r' Q
  end.

Lemma safe_mono {A} (p : prog A) r (Q Q' : A -> resources -> Prop) : safe p r Q -> (forall a r', I r' -> Q a r' -> Q' a r') -> safe p r Q'.
Proof.
  intros Hs HQ. revert r Hs. induction p as [a|B f k IH]; cbn; intros r [HI Hs]; [split; [done|by apply HQ]|]. split; [done|].
  intros w c Hc Hw Ho. destruct (Hs w c Hc Hw Ho) as (r' & H1 & H2 & H3 & H4). exists r'. split_and!; auto.
Qed.
Lemma safe_bind {A B} (p : prog A) (f : A -> prog B) r Q : safe p r (fun a r' => safe (f a) r' Q) -> safe (prog_bind p f) r Q.
Proof.
  revert r. induction p as [a|C g k IH]; cbn; intros r [HI Hs]; [done|]. split; [done|].
  intros w c Hc Hw Ho. destruct (Hs w c Hc Hw Ho) as (r' & H1 & H2 & H3 & H4). exists r'. split_and!; auto.
Qed.
Lemma safe_ret {A} (a : A) r (Q : A -> resources -> Prop) : I r -> Q a r -> safe (Ret a) r Q.
Proof. done. Qed.

(** ** Calls that change no file *)

(** The same files and directories. *)
Definition same_fs (w w' : world) : Prop :=
  w_files w' = w_files w /\ w_dirs w' = w_dirs w /\ w_paths w' = w_paths w /\ w_euid w' = w_euid w /\ w_drawn w' = w_drawn w /\ w_store w' = w_store w /\ w_active w' = w_active w.
Lemma same_refl f : same f f.
Proof. by destruct f. Qed.
Lemma same_trans f g h : same f g -> same g h -> same f h.
Proof. unfold same. intros -> ->. done. Qed.
Lemma same_inv f f' : same f f' -> f_data f' = f_data f /\ f_dirty f' = f_dirty f /\ f_regular f' = f_regular f /\ f_links f' = f_links f /\ f_uid f' = f_uid f /\
  f_mode f' = f_mode f /\ f_modified f' = f_modified f.
Proof. destruct f, f'. unfold same. cbn. by intros [= -> -> -> -> -> -> ->]. Qed.
Lemma same_private euid f f' : same f f' -> is_private euid f' = is_private euid f.
Proof. intros (_ & _ & _ & _ & E1 & E2 & _)%same_inv. unfold is_private. by rewrite E1, E2. Qed.
Lemma same_fs_may w w' d n v : same_fs w w' -> mayw w' d n v <-> mayw w d n v.
Proof. intros (_ & E & _). unfold mayw. by rewrite E. Qed.
Lemma same_fs_entry w w' d n : same_fs w w' -> entry w' d n = entry w d n.
Proof. intros (_ & E & _). unfold entry. by rewrite E. Qed.
Lemma same_fs_wf w w' : same_fs w w' -> wf w -> wf w'.
Proof.
  intros Hs [H1 H2 H3 H4 H5 H6 H7 H8 H9 H10]. pose proof (same_fs_may w w') as Hm. destruct Hs as (E1 & E2 & E3 & E4 & E5 & E6 & E7).
  split; rewrite ?E1, ?E2, ?E3, ?E4, ?E5, ?E6, ?E7; try done; intros d n i.
  - rewrite Hm by done. eauto.
  - intros h. rewrite Hm by done. eauto.
Qed.
Lemma same_fs_owned r w w' : same_fs w w' -> owned r w -> owned r w'.
Proof.
  intros Hs [H1 H2 H3 H4 H5 H6 H7 H8 H9 H10 H11 H12]. pose proof (same_fs_may w w') as Hm. pose proof (fun d n => same_fs_entry w w' d n Hs) as He.
  destruct Hs as (E1 & E2 & E3 & E4 & E5 & E6 & E7). split; rewrite ?E1, ?E2, ?E4, ?E5, ?E6; try done; intros *; rewrite ?He, ?Hm by done; eauto.
Qed.
Lemma same_fs_local r w w' : same_fs w w' -> local r r w w'.
Proof.
  intros Hs. pose proof (same_fs_may w w') as Hm. pose proof (fun d n => same_fs_entry w w' d n Hs) as He.
  destruct Hs as (E1 & E2 & E3 & E4 & E5 & E6 & E7). split; rewrite ?E1, ?E2, ?E4, ?E5, ?E6, ?E7; try done; intros *; rewrite ?He, ?Hm by done; eauto using same_refl.
Qed.
Lemma safe_read {A B} (f : act B) (k : B -> prog A) r Q :
  I r -> (forall w c, wf w -> owned r w -> same_fs w (f c w).2 /\ safe (k (f c w).1) r Q) -> safe (Act f k) r Q.
Proof.
  intros HI H. cbn. split; [done|]. intros w c _ Hw Ho. destruct (H w c Hw Ho) as [Hs Hk]. exists r.
  split_and!; [by eapply same_fs_wf|by eapply same_fs_owned|by apply same_fs_local|done].
Qed.

(** ** Changes of a directory *)

Lemma entry_may w d n : wf w -> is_Some (w_dirs w !! d) -> mayw w d n (entry w d n).
Proof. intros Hw [dr E]. exists dr. split; [done|]. unfold entry. rewrite E. cbn. apply cur_may. by apply (wf_dirs w Hw d). Qed.
Lemma entry_none_dir w d n : w_dirs w !! d = None -> entry w d n = None.
Proof. unfold entry. by intros ->. Qed.

(** The files of the machine, up to their times. *)
Definition retouched (w w' : world) : Prop :=
  (forall i f, w_files w !! i = Some f -> exists f', w_files w' !! i = Some f' /\ same f f') /\ (forall i, is_Some (w_files w' !! i) -> is_Some (w_files w !! i)) /\ (forall i f, w_files w' !! i = Some f -> meta_ok i f).
Context (Hpub : forall d n f f', same f f' -> publishable d n f -> publishable d n f').

Record changes (r : resources) (w : world) (d : Identity) (u : update) : Prop := {
  cg_nodup : NoDup u.*1;
  cg_keys : forall n v, (n, v) ∈ u -> is_Some (r_keys r !! (d, n));
  cg_source : forall n i, (n, Some i) ∈ u -> i ∈ r_new r \/ exists n', is_Some (r_keys r !! (d, n')) /\ mayw w d n' (Some i);
  cg_publish : forall n v, (n, v) ∈ u -> d = J \/ validTempName n = true \/ exists i f, v = Some i /\ w_files w !! i = Some f /\ publishable d n f
}.

(** A change of the directory [d] of the machine [w] into [w']. *)
Section Change.
Context (r : resources) (w w' : world) (d : Identity) (u : update) (Hw : wf w) (Ho : owned r w) (Hc : changes r w d u) (Ht : retouched w w').
Context (Ed : w_dirs w' = w_dirs (change_dir d u w)).
Context (Es : w_paths w' = w_paths w /\ w_euid w' = w_euid w /\ w_drawn w' = w_drawn w /\ w_store w' = w_store w /\ w_active w' = w_active w).

Lemma changed_may d' n v : mayw w' d' n v -> mayw w d' n v \/ d' = d /\ (n, v) ∈ u.
Proof. unfold mayw. rewrite Ed. apply may_change. Qed.
Lemma changed_dirs d' : is_Some (w_dirs w' !! d') <-> is_Some (w_dirs w !! d').
Proof. rewrite Ed. unfold change_dir. cbn. destruct (decide (d' = d)) as [->|?]; [rewrite lookup_alter_eq, fmap_is_Some; done|by rewrite lookup_alter_ne]. Qed.
Lemma changed_other d' n : (d' = d -> n ∉ u.*1) -> entry w' d' n = entry w d' n.
Proof.
  intros Hn. destruct (w_dirs w !! d) as [dr|] eqn:E.
  - transitivity (entry (change_dir d u w) d' n); [unfold entry; by rewrite Ed|]. rewrite entry_change by (by rewrite E). destruct (decide (d' = d)) as [->|?]; [|done].
    rewrite E. cbn. rewrite apply_update_other by auto. unfold entry. by rewrite E.
  - unfold entry. rewrite Ed. unfold change_dir. cbn. destruct (decide (d' = d)) as [->|?]; [by rewrite lookup_alter_eq, E|by rewrite lookup_alter_ne].
Qed.
Lemma changed_in n v : (n, v) ∈ u -> entry w' d n = v.
Proof.
  intros Hn. assert (is_Some (w_dirs w !! d)) as [dr E] by (apply (ow_dirs _ _ Ho), (ow_key_dir _ _ Ho d n); by eapply (cg_keys _ _ _ _ Hc)).
  transitivity (entry (change_dir d u w) d n); [unfold entry; by rewrite Ed|].
  rewrite entry_change by (by rewrite E). rewrite decide_True by done. rewrite E. cbn. by apply apply_update_in; [apply Hc|].
Qed.
Lemma changed_fst n : n ∈ u.*1 -> exists v, (n, v) ∈ u.
Proof. intros ([n' v] & -> & H)%list_elem_of_fmap. by exists v. Qed.
Lemma changed_wf : wf w'.
Proof.
  destruct Es as (E1 & E2 & E3 & E4 & E5), Ht as (Ht1 & Ht2 & Ht3).
  assert (forall i, is_Some (w_files w !! i) -> is_Some (w_files w' !! i)) as Hkeep by (intros i [f Hf]; destruct (Ht1 i f Hf) as (f' & E & _); by exists f').
  split; rewrite ?E1, ?E2, ?E4, ?E5; try (by apply Hw); try done.
  - intros d' dr. rewrite Ed. apply wf_change. apply (wf_dirs _ Hw).
  - intros d' n i Hm. rewrite !changed_dirs. apply changed_may in Hm as [Hm|[-> Hm]]; [destruct (wf_alloc _ Hw _ _ _ Hm); auto|].
    destruct (cg_source _ _ _ _ Hc n i Hm) as [Hi|(n' & _ & Hm')]; [|destruct (wf_alloc _ Hw _ _ _ Hm'); auto].
    left. apply Hkeep. destruct (ow_new _ _ Ho i Hi) as [f Hf]. destruct (ow_file _ _ Ho i f Hf) as (f' & E & _). by exists f'.
  - intros d' n i h Hm Hh. rewrite E3. apply changed_may in Hm as [Hm|[-> Hm]]; [by eapply (wf_drawn _ Hw)|]. eapply (ow_hex _ _ Ho); [by eapply (cg_keys _ _ _ _ Hc)|done].
  - intros d' H%changed_dirs. by apply (wf_ids _ Hw).
  - intros p i. rewrite changed_dirs. apply Hw.
Qed.
Lemma changed_owned : owned (put_all d u r) w'.
Proof.
  destruct Es as (E1 & E2 & E3 & E4 & E5), Ht as (Ht1 & Ht2 & Ht3). destruct Hc as [C1 C2 C3 C4].
  pose proof (put_all_dom d u r) as P5. pose proof (put_all_other d u r) as P6. pose proof (fun n v cl => put_all_key d u r n v cl C1) as P7.
  destruct (put_all_rest d u r) as (ks & Er). rewrite Er in *. split; cbn in *; rewrite ?E2, ?E4; try (by apply Ho).
  - intros d' n c l Hk. destruct (decide (d' = d /\ n ∈ u.*1)) as [[-> Hn]|Hn].
    + destruct (changed_fst n Hn) as [v Hv]. rewrite (changed_in n v Hv). destruct (C2 n v Hv) as [cl Hcl]. rewrite (P7 n v cl Hv Hcl) in Hk. by injection Hk as <- _.
    + rewrite P6 in Hk by tauto. rewrite changed_other by tauto. by eapply (ow_cur _ _ Ho).
  - intros d' n c l v Hk Hm. destruct (decide (d' = d /\ n ∈ u.*1)) as [[-> Hn]|Hn].
    + destruct (changed_fst n Hn) as [v0 Hv0]. destruct (C2 n v0 Hv0) as [[c0 l0] Hcl]. rewrite (P7 n v0 _ Hv0 Hcl) in Hk. injection Hk as <- <-.
      apply elem_of_app. cbn. apply changed_may in Hm as [Hm|[_ Hm]]; [left; by eapply (ow_may _ _ Ho)|right].
      assert (v = v0) as ->; [|left]. pose proof (changed_in n v Hm). pose proof (changed_in n v0 Hv0). congruence.
    + rewrite P6 in Hk by tauto. apply changed_may in Hm as [Hm|[-> Hm]]; [by eapply (ow_may _ _ Ho)|].
      destruct Hn. split; [done|]. apply list_elem_of_fmap. by exists (n, v).
  - intros i f Hf. destruct (ow_file _ _ Ho i f Hf) as (f' & E & Hs). destruct (Ht1 i f' E) as (f'' & E' & Hs'). exists f''. split; [done|by eapply same_trans].
  - intros i d' n Hi Hm. apply P5. apply changed_may in Hm as [Hm|[-> Hm]]; [by eapply (ow_only _ _ Ho)|by eapply C2].
  - intros d' Hd'. apply changed_dirs. by apply (ow_dirs _ _ Ho).
  - intros d' n Hk%P5. by eapply (ow_key_dir _ _ Ho).
  - intros d' n h Hk%P5 Hh. rewrite E3. by eapply (ow_hex _ _ Ho).
  - intros n i Hr Hm. apply P5. apply changed_may in Hm as [Hm|[E Hm]]; [by eapply (ow_journal _ _ Ho)|rewrite E; by eapply C2].
Qed.
Lemma changed_local : local r (put_all d u r) w w'.
Proof.
  destruct Es as (E1 & E2 & E3 & E4 & E5), Ht as (Ht1 & Ht2 & Ht3). destruct Hc as [C1 C2 C3 C4].
  pose proof (put_all_dom d u r) as P5. destruct (put_all_rest d u r) as (ks & Er). rewrite Er in *. split; cbn in *; rewrite ?E1, ?E2, ?E3, ?E4, ?E5; try done; try (by left).
  - intros d' n Hk. apply changed_other. intros -> ([n' v] & -> & Hv)%list_elem_of_fmap. destruct (proj2 (P5 (d, n')) (C2 n' v Hv)) as [x Hx]. cbn in Hk. congruence.
  - intros d' n v Hk Hm. apply changed_may in Hm as [Hm|[-> Hm]]; [done|]. destruct (proj2 (P5 (d, n)) (C2 n v Hm)) as [x Hx]. congruence.
  - intros i f _ Hf. by apply Ht1.
  - intros d' n i Hm. apply changed_may in Hm as [Hm|[-> Hm]]; [by left|right]. split; [apply P5; by eapply C2|].
    destruct (C3 n i Hm) as [Hi|(n' & Hk & Hm')]; [by left|right]. exists d, n'. split; [by apply P5|done].
  - apply changed_dirs.
  - split; [done|]. intros k. by rewrite P5.
  - intros d' n Hk%P5. by left.
  - intros d' n v [Hb1 Hb2] Hm. apply changed_may in Hm as [Hm|[-> Hv]]; [by left|right]. destruct (C4 n v Hv) as [?|[?|(i & f & -> & Hf & Hp)]]; [done|congruence|].
    destruct (Ht1 i f Hf) as (f' & E' & Hs). exists i, f'. split_and!; [done|done|by eapply Hpub].
  - intros d' n i f _ _ Hf. by apply Ht1.
Qed.
End Change.
Lemma change_step r w w' d u : wf w -> owned r w -> changes r w d u -> retouched w w' -> w_dirs w' = w_dirs (change_dir d u w) ->
  w_paths w' = w_paths w /\ w_euid w' = w_euid w /\ w_drawn w' = w_drawn w /\ w_store w' = w_store w /\ w_active w' = w_active w ->
  wf w' /\ owned (put_all d u r) w' /\ local r (put_all d u r) w w'.
Proof. intros. split_and!; [by eapply changed_wf|by eapply changed_owned|by eapply changed_local]. Qed.

(** ** Changes of a file *)

Lemma same_fields f g : f_data f = f_data g -> f_dirty f = f_dirty g -> f_regular f = f_regular g -> f_links f = f_links g -> f_uid f = f_uid g -> f_mode f = f_mode g -> f_modified f = f_modified g -> same f g.
Proof. destruct f, g. unfold same. cbn. by intros -> -> -> -> -> -> ->. Qed.
(** A file that is under no name but temporary ones and the journal's. *)
Definition unpublished (r : resources) (i : Identity) : Prop := forall d n c l, r_keys r !! (d, n) = Some (c, l) -> business d n -> Some i ∉ l.
Lemma file_step r w w' i (g : file -> file) : wf w -> owned r w -> i ∈ r_new r -> unpublished r i -> (forall f f', same f f' -> same (g f) (g f')) -> (forall f, meta_ok i f -> meta_ok i (g f)) ->
  w_files w' = alter g i (w_files w) -> w_dirs w' = w_dirs w -> w_paths w' = w_paths w /\ w_euid w' = w_euid w /\ w_drawn w' = w_drawn w /\ w_store w' = w_store w /\ w_active w' = w_active w ->
  let r' := r <| r_files ::= alter g i |> in wf w' /\ owned r' w' /\ local r r' w w'.
Proof.
  intros Hw Ho Hi Hu Hg Hmeta Ef Ed (Ep & Ee & Er & Es & Ea) r'.
  assert (forall d n v, mayw w' d n v <-> mayw w d n v) as Hm by (intros; unfold mayw; by rewrite Ed).
  assert (forall d n, entry w' d n = entry w d n) as He by (intros; unfold entry; by rewrite Ed).
  assert (forall j, is_Some (w_files w' !! j) <-> is_Some (w_files w !! j)) as Hf.
  { intros j. rewrite Ef. destruct (decide (j = i)) as [->|?]; [rewrite lookup_alter_eq, fmap_is_Some; done|by rewrite lookup_alter_ne]. }
  assert (forall j, is_Some (r_files r' !! j) <-> is_Some (r_files r !! j)) as Hrf.
  { intros j. cbn. destruct (decide (j = i)) as [->|?]; [rewrite lookup_alter_eq, fmap_is_Some; done|by rewrite lookup_alter_ne]. }
  split; [|split].
  - destruct Hw as [W1 W2 W3 W4 W5 W6 W7 W8 W9 W10]. split; rewrite ?Ed, ?Er, ?Ee, ?Ep, ?Es, ?Ea; try done; try (intros *; rewrite Hm, ?Hf; by eauto).
    intros j f. rewrite Ef. destruct (decide (j = i)) as [->|?]; [|rewrite lookup_alter_ne by done; auto]. rewrite lookup_alter_eq. destruct (w_files w !! i) eqn:E; [|done]. intros [= <-]. auto.
  - split; rewrite ?Es; try (by apply Ho); try (intros *; rewrite ?He, ?Hm, ?Ed, ?Er, ?Ee; apply Ho).
    + intros j f. cbn. rewrite Ef. destruct (decide (j = i)) as [->|?]; [|rewrite !lookup_alter_ne by done; apply Ho]. rewrite !lookup_alter_eq.
      destruct (r_files r !! i) as [f0|] eqn:E; [|done]. intros [= <-]. destruct (ow_file _ _ Ho i f0 E) as (f1 & E1 & Hs). rewrite E1. exists (g f1). auto.
    + intros j Hj. apply Hrf. by apply (ow_new _ _ Ho).
  - split; rewrite ?Ed, ?Er, ?Es, ?Ea; try done; try (by left); try (intros *; rewrite ?He, ?Hm; eauto; fail).
    + intros j f Hj Hjf. rewrite Ef, lookup_alter_ne by (by intros ->). eauto using same_refl.
    + intros j Hj. left. by apply Hrf.
    + intros d n j f Hb Hj Hjf. rewrite Ef, lookup_alter_ne; [eauto using same_refl|]. intros <-. destruct (ow_only _ _ Ho i d n Hi Hj) as [[c l] Hk].
      apply (Hu d n c l Hk Hb). by eapply (ow_may _ _ Ho).
Qed.
Lemma alloc_step r w w' i f : wf w -> owned r w -> meta_ok i f -> w_files w !! i = None -> w_dirs w !! i = None ->
  w_files w' = <[i := f]> (w_files w) -> w_dirs w' = w_dirs w -> w_paths w' = w_paths w /\ w_euid w' = w_euid w /\ w_drawn w' = w_drawn w /\ w_store w' = w_store w /\ w_active w' = w_active w ->
  let r' := r <| r_files ::= insert i f |> <| r_new ::= union {[i]} |> in wf w' /\ owned r' w' /\ local r r' w w'.
Proof.
  intros Hw Ho Hmeta Hi Hi' Ef Ed (Ep & Ee & Er & Es & Ea) r'.
  assert (forall d n v, mayw w' d n v <-> mayw w d n v) as Hm by (intros; unfold mayw; by rewrite Ed).
  assert (forall d n, entry w' d n = entry w d n) as He by (intros; unfold entry; by rewrite Ed).
  assert (forall j, is_Some (w_files w !! j) -> is_Some (w_files w' !! j)) as Hf.
  { intros j [x Hx]. rewrite Ef. destruct (decide (j = i)) as [->|?]; [by rewrite lookup_insert_eq|by rewrite lookup_insert_ne, Hx]. }
  assert (forall d n, ~ mayw w d n (Some i)) as Hno.
  { intros d n H. destruct (wf_alloc _ Hw _ _ _ H) as [[x Hx]|[x Hx]]; congruence. }
  assert (forall j, is_Some (r_files r !! j) -> j <> i) as Hne.
  { intros j [x Hx] ->. destruct (ow_file _ _ Ho i x Hx) as (y & Hy & _). congruence. }
  split; [|split].
  - destruct Hw as [W1 W2 W3 W4 W5 W6 W7 W8 W9 W10]. split; rewrite ?Ed, ?Er, ?Ee, ?Ep, ?Es, ?Ea; try done; try (intros *; rewrite Hm; by eauto).
    + intros d n j. rewrite Hm. intros H. destruct (W2 _ _ _ H); auto.
    + intros j f0. rewrite Ef. intros [[<- <-]|[_ H]]%lookup_insert_Some; auto.
  - split; rewrite ?Es; try (by apply Ho); try (intros *; rewrite ?He, ?Hm, ?Ed, ?Er, ?Ee; apply Ho).
    + intros j f0. cbn. rewrite Ef. intros [[<- <-]|[Hj H]]%lookup_insert_Some; [rewrite lookup_insert_eq; eauto using same_refl|]. rewrite lookup_insert_ne by done. by apply Ho.
    + intros j d n. cbn. rewrite Hm, elem_of_union, elem_of_singleton. intros [->|Hj] H; [by apply Hno in H|by eapply (ow_only _ _ Ho)].
    + intros j. cbn. rewrite elem_of_union, elem_of_singleton. intros [->|Hj]; [by rewrite lookup_insert_eq|]. pose proof (ow_new _ _ Ho j Hj) as H. rewrite lookup_insert_ne; [done|]. intros ->. by apply Hne in H.
  - split; rewrite ?Ed, ?Er, ?Es, ?Ea; try done; try (by left); try (intros *; rewrite ?He, ?Hm; eauto; fail).
    + intros j f0 Hj Hjf. rewrite Ef, lookup_insert_ne by (intros <-; congruence). eauto using same_refl.
    + intros j. cbn. rewrite elem_of_union, elem_of_singleton. intros [->|Hj]; auto.
    + intros j. cbn. intros [x [[<- _]|[_ H]]%lookup_insert_Some]; [right; set_solver|left; by exists x].
    + split; [cbn; set_solver|done].
    + intros d n j f0 _ _ Hjf. rewrite Ef, lookup_insert_ne by (intros <-; congruence). eauto using same_refl.
Qed.
Lemma local_trans r1 r2 r3 w1 w2 w3 : local r1 r2 w1 w2 -> local r2 r3 w2 w3 -> w_drawn w2 = w_drawn w1 -> w_store w2 = w_store w1 -> r_reserved r2 = r_reserved r1 -> r_store r2 = r_store r1 -> (forall d n v, mayw w2 d n v <-> mayw w1 d n v) -> local r1 r3 w1 w3.
Proof.
  intros [A1 A2 A3 A4 A5 A6 A7 A8 A9 [A10 A10'] A11 A12 A17 A13 A14 A15 A16] [B1 B2 B3 B4 B5 B6 B7 B8 B9 [B10 B10'] B11 B12 B17 B13 B14 B15 B16] Ed Es Er Et He.
  assert (forall d n, r_keys r3 !! (d, n) = None -> r_keys r2 !! (d, n) = None) as Hk.
  { intros d n H. destruct (r_keys r2 !! (d, n)) eqn:E; [|done]. destruct (B10' (d, n)) as [x Hx]; [by rewrite E|congruence]. }
  assert (forall i f, i ∉ r_new r3 -> w_files w1 !! i = Some f -> exists f', w_files w3 !! i = Some f' /\ same f f') as Hfile.
  { intros i f Hi Hf. destruct (A3 i f) as (f' & E & Hs); [set_solver|done|]. destruct (B3 i f' Hi E) as (f'' & E' & Hs'). eauto using same_trans. }
  split.
  - intros d n H. rewrite B1, A1; auto.
  - intros d n v H Hm. apply A2; auto.
  - exact Hfile.
  - intros d n i Hm. apply B4 in Hm as [Hm|[Hm1 Hm2]].
    + apply A4 in Hm as [?|[Hm1 [?|(d' & n' & Hk' & ?)]]]; [by left|right; split; [auto|left; set_solver]|right; split; [auto|right; exists d', n'; auto]].
    + destruct Hm2 as [?|(d' & n' & Hk' & Hm)]; [right; auto|]. apply A4 in Hm as [?|[_ [?|(d'' & n'' & Hk'' & ?)]]]; right; (split; [done|]).
      * right. eauto.
      * left. set_solver.
      * right. exists d'', n''. auto.
  - intros d. by rewrite B5, A5.
  - destruct A6, B6. split; congruence.
  - set_solver.
  - intros i Hi. destruct (B8 i Hi) as [?|H]; [auto|]. destruct (w_files w1 !! i) as [f|] eqn:E; [|by right]. left.
    destruct (decide (i ∈ r_new r2)) as [Hi2|Hi2]; [destruct (A8 i Hi2); [done|congruence]|]. destruct (A3 i f Hi2 E) as (f' & E' & _). congruence.
  - intros i Hi. destruct (B9 i Hi) as [Hi'|?]; [|auto]. destruct (A9 i Hi'); [auto|right; set_solver].
  - split; [set_solver|auto].
  - intros d n Hn. destruct (B11 d n Hn) as [Hn'|(h & Hh & Hd)]; [auto|]. right. exists h. split; [done|]. by rewrite <- Ed.
  - intros d n v Hb Hm. destruct (B12 d n v Hb Hm) as [Hm2|?]; [|by right]. destruct (A12 d n v Hb Hm2) as [?|(i & f & -> & Hf & Hp)]; [by left|right].
    destruct (B17 d n i f Hb Hm2 Hf) as (f' & Hf' & Hs). exists i, f'. split_and!; [done|done|by eapply Hpub].
  - intros d n i f Hb Hm Hf. destruct (A17 d n i f Hb Hm Hf) as (f' & Hf' & Hs). apply He in Hm. destruct (B17 d n i f' Hb Hm Hf') as (f'' & Hf'' & Hs'). eauto using same_trans.
  - lia.
  - intros k n Hs Hkn Hr. rewrite <- Es in Hkn. rewrite <- Er in Hr. rewrite <- Et in Hs. auto.
  - intros k n Hkn. rewrite <- Es, <- Er. auto.
  - by rewrite B16.
Qed.

(** ** Syncing a directory and drawing a name *)

Definition settle (d : Identity) (r : resources) : resources :=
  r <| r_keys ::= map_imap (fun (k : key) (cl : option Identity * list (option Identity)) => Some (if decide (k.1 = d) then (cl.1, [cl.1]) else cl)) |>.
Lemma settle_lookup d r k : r_keys (settle d r) !! k = (fun cl : option Identity * list (option Identity) => if decide (k.1 = d) then (cl.1, [cl.1]) else cl) <$> r_keys r !! k.
Proof. cbn. rewrite map_lookup_imap. by destruct (r_keys r !! k). Qed.
Lemma settle_in d r n c l : r_keys r !! (d, n) = Some (c, l) -> r_keys (settle d r) !! (d, n) = Some (c, [c]).
Proof. intros H. rewrite settle_lookup, H. simpl. by destruct (decide (d = d)). Qed.
Lemma settle_out d r d' n : d' <> d -> r_keys (settle d r) !! (d', n) = r_keys r !! (d', n).
Proof. intros H. rewrite settle_lookup. destruct (r_keys r !! (d', n)); simpl; [|done]. by destruct (decide (d' = d)). Qed.
Definition synced (d : Identity) (w : world) : world := w <| w_dirs ::= alter (fun dr => dr <| d_dur := d_cur dr |> <| d_pend := [] |>) d |>.
Lemma synced_entry d w d' n : entry (synced d w) d' n = entry w d' n.
Proof. unfold entry, synced. cbn. destruct (decide (d' = d)) as [->|?]; [rewrite lookup_alter_eq; by destruct (w_dirs w !! d)|by rewrite lookup_alter_ne]. Qed.
Lemma synced_may d w d' n v : wf w -> mayw (synced d w) d' n v -> mayw w d' n v /\ (d' = d -> v = entry w d n).
Proof.
  intros Hw (dr & E & H). unfold synced in E. cbn in E. destruct (decide (d' = d)) as [->|?]; [|rewrite lookup_alter_ne in E by done; split; [by exists dr|done]].
  rewrite lookup_alter_eq in E. destruct (w_dirs w !! d) as [dr0|] eqn:E0; [|done]. injection E as <-. destruct H as [H|(u & []%not_elem_of_nil & _)]. cbn in H.
  assert (v = entry w d n) as Hv by (unfold entry; rewrite E0; done). split; [|done]. rewrite Hv. by apply entry_may; [|rewrite E0].
Qed.
Lemma sync_step r w d : wf w -> owned r w -> wf (synced d w) /\ owned (settle d r) (synced d w) /\ local r (settle d r) w (synced d w).
Proof.
  intros Hw Ho. pose proof (synced_entry d w) as He. pose proof (fun d' n v => synced_may d w d' n v Hw) as Hm.
  assert (forall d', is_Some (w_dirs (synced d w) !! d') <-> is_Some (w_dirs w !! d')) as Hd.
  { intros d'. unfold synced. cbn. destruct (decide (d' = d)) as [->|?]; [rewrite lookup_alter_eq, fmap_is_Some; done|by rewrite lookup_alter_ne]. }
  assert (forall k, is_Some (r_keys (settle d r) !! k) <-> is_Some (r_keys r !! k)) as Hk by (intros k; rewrite settle_lookup, fmap_is_Some; done).
  split; [|split].
  - split.
    + intros d' dr. unfold synced. cbn. destruct (decide (d' = d)) as [->|?]; [|rewrite lookup_alter_ne by done; apply Hw].
      rewrite lookup_alter_eq. destruct (w_dirs w !! d); [|done]. by intros [= <-].
    + intros d' n i [H _]%Hm. rewrite Hd. by apply (wf_alloc _ Hw) in H.
    + intros d' n i h [H _]%Hm. by apply (wf_drawn _ Hw d' n i h).
    + apply Hw.
    + intros d' H%Hd. by apply (wf_ids _ Hw).
    + apply Hw.
    + intros q i. rewrite Hd. apply Hw.
    + apply Hw.
    + apply Hw.
    + apply Hw.
  - split; try (by apply Ho).
    + intros d' n c l. rewrite settle_lookup, He. destruct (r_keys r !! (d', n)) as [[c0 l0]|] eqn:E; [|done]. cbn. intros E'.
      assert (c0 = c) as <- by (destruct (decide (d' = d)); by injection E' as <- _). by eapply (ow_cur _ _ Ho).
    + intros d' n c l v. rewrite settle_lookup. destruct (r_keys r !! (d', n)) as [[c0 l0]|] eqn:E; [|done]. cbn. intros E' [H1 H2]%Hm.
      destruct (decide (d' = d)) as [->|?]; injection E' as <- <-; [|by eapply (ow_may _ _ Ho)]. rewrite (H2 eq_refl), (ow_cur _ _ Ho _ _ _ _ E). left.
    + intros i d' n Hi [H _]%Hm. apply Hk. by eapply (ow_only _ _ Ho).
    + intros d' H. apply Hd. by apply (ow_dirs _ _ Ho).
    + intros d' n H%Hk. by eapply (ow_key_dir _ _ Ho).
    + intros d' n h H%Hk. by eapply (ow_hex _ _ Ho).
    + intros n i Hr [H _]%Hm. apply Hk. by eapply (ow_journal _ _ Ho).
  - split; try done; try (by left).
    + intros d' n v _ [H _]%Hm. done.
    + intros i f _ H. eauto using same_refl.
    + intros d' n i [H _]%Hm. by left.
    + split; [done|]. intros k. by rewrite Hk.
    + intros d' n H%Hk. by left.
    + intros d' n v _ [H _]%Hm. by left.
    + intros d' n i f _ _ H. eauto using same_refl.
Qed.

Definition claim (ks : list key) (r : resources) : resources :=
  r <| r_keys ::= fun m => foldr (fun k m => <[k := (None, [None])]> m) m ks |>.
Lemma claim_in ks r k : k ∈ ks -> r_keys (claim ks r) !! k = Some (None, [None]).
Proof. induction ks as [|k' ks IH]; [by intros ?%not_elem_of_nil|]. cbn. intros [->|H]%elem_of_cons; [by rewrite lookup_insert_eq|]. destruct (decide (k = k')) as [->|?]; [by rewrite lookup_insert_eq|]. rewrite lookup_insert_ne by done. by apply IH. Qed.
Lemma claim_out ks r k : k ∉ ks -> r_keys (claim ks r) !! k = r_keys r !! k.
Proof. induction ks as [|k' ks IH]; [done|]. cbn. intros [H1 H2]%not_elem_of_cons. rewrite lookup_insert_ne by done. by apply IH. Qed.
Lemma draw_step r w w' hex ks : wf w -> owned r w -> hex ∉ w_drawn w -> Forall (fun k => k.1 ∈ r_dirs r /\ name_hex k.1 k.2 = Some hex) ks ->
  w_files w' = w_files w -> w_dirs w' = w_dirs w -> w_paths w' = w_paths w /\ w_euid w' = w_euid w /\ w_drawn w' = hex :: w_drawn w /\ w_store w' = w_store w /\ w_active w' = w_active w ->
  wf w' /\ owned (claim ks r) w' /\ local r (claim ks r) w w'.
Proof.
  intros Hw Ho Hh Hks Ef Ed (Ep & Ee & Er & Es & Ea).
  assert (forall d n v, mayw w' d n v <-> mayw w d n v) as Hm by (intros; unfold mayw; by rewrite Ed).
  assert (forall d n, entry w' d n = entry w d n) as He by (intros; unfold entry; by rewrite Ed).
  rewrite Forall_forall in Hks.
  assert (forall k, is_Some (r_keys r !! k) -> k ∉ ks) as Hout.
  { intros [d n] Hk H. destruct (Hks _ H) as [_ Hn]. by apply Hh, (ow_hex _ _ Ho d n). }
  assert (forall d n i, (d, n) ∈ ks -> ~ mayw w d n (Some i)) as Hno.
  { intros d n i H Hmay. destruct (Hks _ H) as [_ Hn]. by apply Hh, (wf_drawn _ Hw d n i). }
  assert (forall k, is_Some (r_keys (claim ks r) !! k) <-> k ∈ ks \/ is_Some (r_keys r !! k)) as Hk.
  { intros k. destruct (decide (k ∈ ks)) as [H|H]; [rewrite claim_in by done; naive_solver|rewrite claim_out by done; naive_solver]. }
  split; [|split].
  - destruct Hw as [W1 W2 W3 W4 W5 W6 W7 W8 W9 W10]. split; rewrite ?Ed, ?Er, ?Ef, ?Ee, ?Ep, ?Es, ?Ea; try done; intros *; rewrite Hm; [eauto|]. intros H1 H2. right. eauto.
  - split; rewrite ?Er, ?Ef, ?Es; try (by apply Ho).
    + intros d n c l. rewrite He. destruct (decide ((d, n) ∈ ks)) as [H|H]; [|rewrite claim_out by done; by apply Ho].
      rewrite claim_in by done. intros [= <- _]. destruct (entry w d n) as [i|] eqn:E; [|done]. exfalso. apply (Hno d n i H). rewrite <- E. apply entry_may; [done|].
      apply (ow_dirs _ _ Ho), (Hks _ H).
    + intros d n c l v. rewrite Hm. destruct (decide ((d, n) ∈ ks)) as [H|H]; [|rewrite claim_out by done; by apply Ho].
      rewrite claim_in by done. intros [= _ <-] H'. destruct v as [i|]; [by apply Hno in H'|left].
    + intros i d n Hi. rewrite Hm. intros H. apply Hk. right. by eapply (ow_only _ _ Ho).
    + rewrite Ed. apply Ho.
    + intros d n [H|H]%Hk; [apply (Hks _ H)|by eapply (ow_key_dir _ _ Ho)].
    + intros d n h [H|H]%Hk Hn; [|right; by eapply (ow_hex _ _ Ho)]. destruct (Hks _ H) as [_ Hn']. cbn in Hn'. rewrite Hn in Hn'. injection Hn' as ->. left.
    + rewrite Ee. apply Ho.
    + intros n i Hr. rewrite Hm. intros H. apply Hk. right. by eapply (ow_journal _ _ Ho).
  - split; rewrite ?Ef, ?Ed, ?Er, ?Es, ?Ea; try done; try (by left).
    + intros d n v _. by rewrite Hm.
    + intros i f _ H. eauto using same_refl.
    + intros d n i. rewrite Hm. by left.
    + set_solver.
    + split; [done|]. intros k H. apply Hk. by right.
    + intros d n [H|H]%Hk; [right|by left]. exists hex. split; [apply (Hks _ H)|done].
    + intros d n v _. rewrite Hm. by left.
    + intros d n i f _ _ H. eauto using same_refl.
Qed.

(** ** Rules *)

(** What a call that fails returns. *)
Definition oops (e : error) : Prop := failed e = true /\ Is e ErrNotExist = false /\ Is e ErrExist = false /\ calm = false.
Lemma oops_fault c : sane c -> failed (fault c) = true -> oops (fault c).
Proof. intros (_ & _ & H). unfold oops, fault. destruct (ch_fault c) as [[]|]; cbn; intros Hf; try done; split_and!; try done; destruct calm; try done; by specialize (H eq_refl). Qed.
Lemma rule_step {A} (f : act A) r (Q : A -> resources -> Prop) : I r ->
  (forall w c, sane c -> wf w -> owned r w -> exists r', wf (f c w).2 /\ owned r' (f c w).2 /\ local r r' w (f c w).2 /\ I r' /\ Q (f c w).1 r') -> safe (act_ f) r Q.
Proof. intros HI H. split; [done|]. exact H. Qed.
Lemma rule_read {A} (f : act A) r (Q : A -> resources -> Prop) : I r ->
  (forall w c, sane c -> wf w -> owned r w -> same_fs w (f c w).2 /\ Q (f c w).1 r) -> safe (act_ f) r Q.
Proof.
  intros HI H. apply rule_step; [done|]. intros w c Hc Hw Ho. destruct (H w c Hc Hw Ho) as [Hs HQ]. exists r.
  split_and!; [by eapply same_fs_wf|by eapply same_fs_owned|by apply same_fs_local|done|done].
Qed.
Lemma same_fs_refl w : same_fs w w.
Proof. done. Qed.
(** Calls that only read: a call fails, or answers as the machine is. *)
Lemma rule_or_fault {A} (f : act (res A)) r (Q : res A -> resources -> Prop) : I r -> (forall e, oops e -> Q (inl e) r) ->
  (forall w c, wf w -> owned r w -> same_fs w (f c w).2 /\ Q (f c w).1 r) -> safe (act_ (or_fault f)) r Q.
Proof.
  intros HI H1 H2. apply rule_read; [done|]. intros w c Hc Hw Ho. unfold or_fault. destruct (failed (fault c)) eqn:Ef; cbn; [|by apply H2]. split; [done|].
  apply H1. by apply oops_fault.
Qed.
Lemma rule_or_fault_e (f : act error) r (Q : error -> resources -> Prop) : I r -> (forall e, oops e -> Q e r) ->
  (forall w c, wf w -> owned r w -> same_fs w (f c w).2 /\ Q (f c w).1 r) -> safe (act_ (or_fault_e f)) r Q.
Proof.
  intros HI H1 H2. apply rule_read; [done|]. intros w c Hc Hw Ho. unfold or_fault_e. destruct (failed (fault c)) eqn:Ef; cbn; [|by apply H2]. split; [done|].
  apply H1. by apply oops_fault.
Qed.
Lemma rule_open d n c l r (Q : res Identity -> resources -> Prop) : I r -> r_keys r !! (d, n) = Some (c, l) ->
  (forall e, oops e -> Q (inl e) r) -> Q (match c with Some i => inr i | None => inl [ErrNotExist] end) r -> safe (act_ (open_at d n)) r Q.
Proof. intros HI Hk H1 H2. apply rule_or_fault; [done..|]. intros w ch Hw Ho. cbn. split; [done|]. by rewrite (ow_cur _ _ Ho d n c l Hk). Qed.
Lemma rule_stat i f r (Q : res file -> resources -> Prop) : I r -> r_files r !! i = Some f ->
  (forall e, oops e -> Q (inl e) r) -> (forall f', same f f' -> meta_ok i f' -> Q (inr f') r) -> safe (act_ (stat i)) r Q.
Proof.
  intros HI Hf H1 H2. apply rule_or_fault; [done..|]. intros w ch Hw Ho. cbn. split; [done|]. destruct (ow_file _ _ Ho i f Hf) as (f' & E & Hs). rewrite E.
  apply H2; [done|]. by apply (wf_meta _ Hw).
Qed.
Lemma rule_stat_dir d r (Q : res file -> resources -> Prop) : I r -> d ∈ r_dirs r -> (forall e, oops e -> Q (inl e) r) -> (forall f, Q (inr f) r) -> safe (act_ (stat d)) r Q.
Proof.
  intros HI Hd H1 H2. apply rule_or_fault; [done..|]. intros w ch Hw Ho. cbn. split; [done|]. destruct (ow_dirs _ _ Ho d Hd) as [dr ->]. by destruct (w_files w !! d).
Qed.
Lemma rule_private i f r (Q : error -> resources -> Prop) : I r -> r_files r !! i = Some f -> (forall e, oops e -> Q e r) ->
  Q (if is_private (r_euid r) f then [] else [ErrPermission]) r -> safe (act_ (privateTemp i)) r Q.
Proof.
  intros HI Hf H1 H2. apply rule_or_fault_e; [done..|]. intros w ch Hw Ho. cbn. split; [done|]. destruct (ow_file _ _ Ho i f Hf) as (f' & E & Hs). by rewrite E, (ow_euid _ _ Ho), (same_private _ _ _ Hs).
Qed.
Lemma rule_protect i f r (Q : error -> resources -> Prop) : I r -> r_files r !! i = Some f -> (forall e, oops e -> Q e r) ->
  Q (if is_private (r_euid r) f && f_regular f && (f_links f =? 1) then [] else [ErrOther]) r -> safe (act_ (protect i)) r Q.
Proof.
  intros HI Hf H1 H2. apply rule_or_fault_e; [done..|]. intros w ch Hw Ho. cbn. split; [done|]. destruct (ow_file _ _ Ho i f Hf) as (f' & E & Hs).
  rewrite E, (ow_euid _ _ Ho), (same_private _ _ _ Hs). apply same_inv in Hs as (_ & _ & -> & -> & _). done.
Qed.
Lemma rule_lstat d n i l f r (Q : res (Identity * file) -> resources -> Prop) : I r -> r_keys r !! (d, n) = Some (Some i, l) -> r_files r !! i = Some f ->
  (forall e, oops e -> Q (inl e) r) -> (forall f', same f f' -> Q (inr (i, f')) r) -> safe (act_ (lstat d n)) r Q.
Proof.
  intros HI Hk Hf H1 H2. apply rule_read; [done|]. intros w ch Hc Hw Ho. unfold lstat, stat, or_fault. destruct (failed (fault ch)) eqn:Ef; cbn.
  - split; [done|]. apply H1. by apply oops_fault.
  - rewrite (ow_cur _ _ Ho d n _ l Hk). destruct (ow_file _ _ Ho i f Hf) as (f' & E & Hs). rewrite ?Ef, E. cbn. auto using same_fs_refl.
Qed.
Lemma rule_read_file i f r (Q : res bytes -> resources -> Prop) : I r -> r_files r !! i = Some f -> (forall e, oops e -> Q (inl e) r) -> Q (inr (f_data f)) r -> safe (act_ (read_file i)) r Q.
Proof.
  intros HI Hf H1 H2. apply rule_or_fault; [done..|]. intros w ch Hw Ho. cbn. split; [done|]. destruct (ow_file _ _ Ho i f Hf) as (f' & E & (Ed & _)%same_inv). by rewrite E, Ed.
Qed.
Lemma rule_open_dir p d r (Q : res Identity -> resources -> Prop) : I r -> located p d -> (forall e, oops e -> Q (inl e) r) -> Q (inr d) r -> safe (act_ (open_dir p)) r Q.
Proof. intros HI Hp H1 H2. apply rule_or_fault; [done..|]. intros w ch Hw Ho. cbn. split; [done|]. destruct (wf_located _ Hw p d Hp) as [E [dr Ed]]. rewrite E. cbn. by rewrite Ed. Qed.
(** All names of the journal, when nobody else runs. *)
Lemma rule_read_dir m r (Q : res (list bytes) -> resources -> Prop) : I r -> is_Some (r_store r) -> J ∈ r_dirs r -> (forall e, oops e -> Q (inl e) r) ->
  (forall names, NoDup names -> (forall n, n ∈ names <-> exists i l, r_keys r !! (J, n) = Some (Some i, l)) -> Q (inr (take (Z.to_nat m) names)) r) -> safe (act_ (read_dir J m)) r Q.
Proof.
  intros HI Hr HJ H1 H2. apply rule_or_fault; [done..|]. intros w ch Hw Ho. destruct (ow_dirs _ _ Ho J HJ) as [dr E]. cbn. rewrite E. split; [done|]. cbn.
  set (names := (map_to_list (d_cur dr)).*1). assert (exists l, (if bool_decide (ch_names ch ≡ₚ names) then ch_names ch else names) = l /\ l ≡ₚ names) as (l & -> & Hl).
  { destruct (bool_decide_reflect (ch_names ch ≡ₚ names)); eauto. }
  apply H2; [rewrite Hl; apply NoDup_fst_map_to_list|]. intros n. rewrite Hl. unfold names. rewrite list_elem_of_fmap. split.
  - intros ([n' i] & -> & Hin%elem_of_map_to_list). cbn. assert (entry w J n' = Some i) as He by (unfold entry; by rewrite E).
    destruct (ow_journal _ _ Ho n' i Hr) as [[c l'] Hk]; [rewrite <- He; apply entry_may; [done|by rewrite E]|]. rewrite (ow_cur _ _ Ho _ _ _ _ Hk) in He. subst. eauto.
  - intros (i & l' & Hk). exists (n, i). split; [done|]. apply elem_of_map_to_list. pose proof (ow_cur _ _ Ho _ _ _ _ Hk) as He. unfold entry in He. by rewrite E in He.
Qed.
Lemma rule_close r (Q : error -> resources -> Prop) : I r -> (forall e, oops e -> Q e r) -> Q [] r -> safe (act_ close_file) r Q.
Proof. intros HI H1 H2. by apply rule_or_fault_e. Qed.
Lemma rule_ctx r (Q : error -> resources -> Prop) : I r -> (forall e, Q e r) -> safe (act_ ctx_err) r Q.
Proof. intros HI H. apply rule_read; [done|]. intros w ch _ Hw Ho. cbn. split; done. Qed.
Lemma rule_source r (Q : res (list (bytes * error)) -> resources -> Prop) : I r -> (forall e, oops e -> Q (inl e) r) -> (forall l, Q (inr l) r) -> safe (act_ open_source) r Q.
Proof. intros HI H1 H2. apply rule_or_fault; [done..|]. intros w ch Hw Ho. cbn. split; done. Qed.

(** ** The store and the counter of saves *)

(** What a call on the store may do for a program with the resources [r]. *)
Record store_call {A} (f : Store -> Store * A) (r : resources) (s : Store) (res' : option (nat * Z)) : Prop := {
  sc_ok : store_ok (f s).1;
  sc_options : s_options (f s).1 = s_options s;
  sc_kept : forall k n, r_store r = None -> s_reservations s !! k = Some n -> (forall m, r_reserved r <> Some (k, m)) -> s_reservations (f s).1 !! k = Some n;
  sc_reserved : forall k n, res' = Some (k, n) -> s_reservations (f s).1 !! k = Some n /\ (r_reserved r = Some (k, n) \/ s_reservations s !! k = None)
}.
Lemma rule_store {A} (f : Store -> Store * A) r (Q : A -> resources -> Prop) : I r ->
  (forall s, store_ok s -> s_options s = opts -> (forall s0, r_store r = Some s0 -> s = s0) -> (forall k n, r_reserved r = Some (k, n) -> s_reservations s !! k = Some n) ->
    exists res' plan', store_call f r s res' /\ let r' := r <| r_reserved := res' |> <| r_plan := plan' |> <| r_store := (fun _ => (f s).1) <$> r_store r |> in I r' /\ Q (f s).2 r') ->
  safe (act_ (store_act f)) r Q.
Proof.
  intros HI H. apply rule_step; [done|]. intros w c _ Hw Ho. destruct (H (w_store w)) as (res' & plan' & [C1 C2 C3 C4] & HI' & HQ); [apply Hw|apply Hw|apply Ho|apply Ho|].
  unfold store_act in *. destruct (f (w_store w)) as [s' a]. cbn in *. eexists. split_and!; [..|exact HI'|exact HQ].
  - destruct Hw. split; try done. cbn. by rewrite C2.
  - destruct Ho. split; try done; cbn.
    + intros k n Hk. by apply C4.
    + intros s0. destruct (r_store r); [|done]. by intros [= <-].
    + intros n i Hs. apply ow_journal0. destruct (r_store r); [done|by destruct Hs].
  - split; cbn; try done; eauto using same_refl; [intros k n Hk; apply (C4 k n Hk)|by destruct (r_store r)].
Qed.
Lemma rule_enter r (Q : error -> resources -> Prop) : I r -> r_active r = false -> (forall e, failed e = true -> Q e r) ->
  I (r <| r_active := true |>) /\ Q [] (r <| r_active := true |>) -> safe (act_ enter_journal) r Q.
Proof.
  intros HI Hr H1 [H2 H3]. apply rule_step; [done|]. intros w c _ Hw Ho. unfold enter_journal.
  destruct (w_stopped w); [exists r; split_and!; [done|done|by apply same_fs_local|done|by apply H1]|].
  destruct (Z.leb_spec (MaxPending (s_options (w_store w))) (w_active w)); [exists r; split_and!; [done|done|by apply same_fs_local|done|by apply H1]|].
  exists (r <| r_active := true |>). split_and!; [..|done|done].
  - destruct Hw as [? ? ? ? ? ? ? ? W9 ?]. split; try done. cbn. rewrite W9 in *. lia.
  - by destruct Ho.
  - split; cbn; try done; eauto using same_refl. rewrite Hr. cbn. lia.
Qed.
Lemma rule_leave r (Q : unit -> resources -> Prop) : I r -> r_active r = true -> I (r <| r_active := false |>) /\ Q tt (r <| r_active := false |>) -> safe (act_ leave_journal) r Q.
Proof.
  intros HI Hr [H2 H3]. apply rule_step; [done|]. intros w c _ Hw Ho. exists (r <| r_active := false |>). split_and!; [..|done|done].
  - destruct Hw as [? ? ? ? ? ? ? ? ? ?]. split; try done. cbn. lia.
  - by destruct Ho.
  - split; cbn; try done; eauto using same_refl. rewrite Hr. cbn. lia.
Qed.
Lemma rule_stop r (Q : unit -> resources -> Prop) : I r -> Q tt r -> safe (act_ stop_journal) r Q.
Proof. intros HI H. by apply rule_read. Qed.
Lemma rule_max_pending r (Q : Z -> resources -> Prop) : I r -> Q (MaxPending opts) r -> safe (act_ max_pending) r Q.
Proof. intros HI H. apply rule_read; [done|]. intros w c _ Hw Ho. cbn. by rewrite (wf_options _ Hw). Qed.

(** A new file. *)
Definition is_new_file (euid : Z) (f : file) : Prop :=
  f_data f = [] /\ f_dirty f = false /\ f_regular f = true /\ f_links f = 1 /\ f_uid f = euid /\ f_mode f = 384.
Lemma time_ok t : in_int64 t -> in_int64 (t / 10 ^ 9) /\ in_int64 (t mod 10 ^ 9).
Proof. unfold in_int64, int64_min, int64_max. intros H. split; Z.to_euclidean_division_equations; lia. Qed.
Lemma touch_meta i t f : in_int64 t -> meta_ok i f -> meta_ok i (f <| f_changed := (t / 10 ^ 9, t mod 10 ^ 9) |>).
Proof. intros Ht [? ? ? ? ?]. split; try done. by apply time_ok. Qed.
Definition created (d : Identity) (n : bytes) (i : Identity) (f : file) (r : resources) : resources :=
  put d (n, Some i) (r <| r_files ::= insert i f |> <| r_new ::= union {[i]} |>).
Lemma rule_create d n c l r (Q : res Identity -> resources -> Prop) : I r -> r_keys r !! (d, n) = Some (c, l) -> d = J \/ validTempName n = true ->
  (forall e, failed e = true -> Q (inl e) r) ->
  (forall i f, c = None -> r_files r !! i = None -> same_filesystem i d = true -> is_new_file (r_euid r) f -> I (created d n i f r) /\ Q (inr i) (created d n i f r)) ->
  safe (act_ (create_at d n)) r Q.
Proof.
  intros HI Hk Hd H1 H2. apply rule_step; [done|]. intros w ch Hsane Hw Ho. unfold create_at, or_fault.
  assert (forall e, failed e = true -> exists r', wf w /\ owned r' w /\ local r r' w w /\ I r' /\ Q (inl e) r') as Hfail.
  { intros e He. exists r. split_and!; [done|done|by apply same_fs_local|done|by apply H1]. }
  destruct (failed (fault ch)) eqn:Ef; cbn; [by apply Hfail|].
  destruct (w_dirs w !! d) as [dr|] eqn:Edr; [|by apply Hfail]. rewrite (ow_cur _ _ Ho d n c l Hk). destruct c as [c|]; [by apply Hfail|].
  set (i := {| Device := Device d; Inode := ch_inode ch; Extra := Extra d; Mount := Mount d |}).
  destruct (bool_decide (is_Some (w_files w !! i))) eqn:Ei; [by apply Hfail|]. destruct (bool_decide (is_Some (w_dirs w !! i))) eqn:Ei'; [by apply Hfail|].
  apply bool_decide_eq_false, eq_None_not_Some in Ei, Ei'. cbn. set (f := new_file w (ch_time ch)). set (w1 := w <| w_files ::= insert i f |>).
  assert (meta_ok i f) as Hmeta.
  { destruct Hsane as (? & Ht & _). destruct (wf_ids _ Hw d ltac:(by rewrite Edr)). split; [by split|apply (wf_euid _ Hw)|unfold f, new_file; cbn; lia|done|by apply time_ok]. }
  destruct (alloc_step r w w1 i f Hw Ho Hmeta Ei Ei') as (A1 & A2 & A3); [done..|]. set (r1 := r <| r_files ::= insert i f |> <| r_new ::= union {[i]} |>) in *.
  assert (retouched w1 (change_dir d [(n, Some i)] w1)) as Hret by (split_and!; [intros j x Hx; exists x; split; [done|apply same_refl]|done|apply (wf_meta _ A1)]).
  destruct (change_step r1 w1 (change_dir d [(n, Some i)] w1) d [(n, Some i)] A1 A2) as (B1 & B2 & B3); [|done..|].
  { split.
    - apply NoDup_singleton.
    - intros n' v [= -> ->]%list_elem_of_singleton. cbn. by rewrite Hk.
    - intros n' j [= -> ->]%list_elem_of_singleton. left. cbn. set_solver.
    - intros n' v [= -> ->]%list_elem_of_singleton. tauto. }
  exists (created d n i f r). split_and!; [exact B1|exact B2| |apply H2..]; try done.
  - eapply local_trans; [exact A3|exact B3|done..].
  - destruct (r_files r !! i) as [x|] eqn:E; [|done]. destruct (ow_file _ _ Ho i x E) as (y & Hy & _). congruence.
  - unfold same_filesystem. cbn. rewrite !Z.eqb_refl. by unfold bytes_eqb; rewrite bool_decide_true.
  - unfold is_new_file, f, new_file. cbn. rewrite (ow_euid _ _ Ho). done.
  - destruct (r_files r !! i) as [x|] eqn:E; [|done]. destruct (ow_file _ _ Ho i x E) as (y & Hy & _). congruence.
  - unfold same_filesystem. cbn. rewrite !Z.eqb_refl. by unfold bytes_eqb; rewrite bool_decide_true.
  - unfold is_new_file, f, new_file. cbn. rewrite (ow_euid _ _ Ho). done.
Qed.

Definition written (i : Identity) (b : bytes) (t : Z) (r : resources) : resources :=
  r <| r_files ::= alter (fun f => f <| f_data ::= fun d => d ++ b |> <| f_dirty := true |> <| f_modified := t |>) i |>.
Lemma rule_write i b r (Q : Z * error -> resources -> Prop) : I r -> i ∈ r_new r -> unpublished r i ->
  (forall n t e, (n <= length b)%nat -> (e = [] -> n = length b) -> I (written i (take n b) t r) /\ Q (Z.of_nat n, e) (written i (take n b) t r)) ->
  safe (act_ (write_file i b)) r Q.
Proof.
  intros HI Hi Hu H. apply rule_step; [done|]. intros w ch Hsane Hw Ho. unfold write_file. cbn. set (n := if failed (fault ch) then _ else _).
  exists (written i (take n b) (ch_time ch) r). set (g := fun f : file => f <| f_data ::= fun d => d ++ take n b |> <| f_dirty := true |> <| f_modified := ch_time ch |>).
  destruct (file_step r w (w <| w_files ::= alter g i |>) i g Hw Ho Hi Hu) as (A1 & A2 & A3); [| |done..|].
  - intros f f' ->. by apply same_fields.
  - intros f [? ? ? ? ?]. split; try done. apply Hsane.
  - destruct (H n (ch_time ch) (fault ch)) as [H1 H2]; [unfold n; destruct (failed _); lia|unfold n; by intros ->|]. split_and!; done.
Qed.
Definition flushed (i : Identity) (r : resources) : resources := r <| r_files ::= alter (fun f => f <| f_dirty := false |>) i |>.
Lemma rule_sync_file i r (Q : error -> resources -> Prop) : I r -> i ∈ r_new r -> unpublished r i -> (forall e, oops e -> Q e r) -> I (flushed i r) /\ Q [] (flushed i r) ->
  safe (act_ (sync_file i)) r Q.
Proof.
  intros HI Hi Hu H1 [H2 H3]. apply rule_step; [done|]. intros w ch Hsane Hw Ho. unfold sync_file, or_fault_e. destruct (failed (fault ch)) eqn:Ef.
  - exists r. split_and!; [done|done|by apply same_fs_local|done|]. apply H1. by apply oops_fault.
  - cbn. exists (flushed i r). set (g := fun f : file => f <| f_dirty := false |>). destruct (file_step r w (w <| w_files ::= alter g i |>) i g Hw Ho Hi Hu) as (A1 & A2 & A3); [| |done..|split_and!; done].
    + intros f f' ->. by apply same_fields.
    + by intros f [? ? ? ? ?].
Qed.
Lemma rule_sync_dir d r (Q : error -> resources -> Prop) : I r -> (forall e, oops e -> Q e r) -> I (settle d r) /\ Q [] (settle d r) -> safe (act_ (sync_dir d)) r Q.
Proof.
  intros HI H1 [H2 H3]. apply rule_step; [done|]. intros w ch Hsane Hw Ho. unfold sync_dir, or_fault_e. destruct (failed (fault ch)) eqn:Ef.
  - exists r. split_and!; [done|done|by apply same_fs_local|done|]. apply H1. by apply oops_fault.
  - cbn. exists (settle d r). destruct (sync_step r w d Hw Ho) as (A1 & A2 & A3). split_and!; done.
Qed.
Lemma rule_random ks r (Q : res bytes -> resources -> Prop) : I r -> (forall e, oops e -> Q (inl e) r) -> Q (inl [ErrOther]) r ->
  (forall hex, length hex = 32%nat -> forallb is_hex hex = true -> Forall (fun k => k.1 ∈ r_dirs r /\ name_hex k.1 k.2 = Some hex) (ks hex)) ->
  (forall hex, length hex = 32%nat -> forallb is_hex hex = true -> Forall (fun k => r_keys r !! k = None) (ks hex) -> I (claim (ks hex) r) /\ Q (inr hex) (claim (ks hex) r)) ->
  safe (act_ random_hex) r Q.
Proof.
  intros HI H1 H1' Hks H2. apply rule_step; [done|]. intros w ch Hsane Hw Ho. unfold random_hex, or_fault. destruct (failed (fault ch)) eqn:Ef; cbn.
  { exists r. split_and!; [done|done|by apply same_fs_local|done|]. apply H1. by apply oops_fault. }
  destruct (_ && _ && _) eqn:E; cbn; [|exists r; split_and!; [done|done|by apply same_fs_local|done|done]]. breflect.
  exists (claim (ks (ch_text ch)) r). destruct (draw_step r w (w <| w_drawn ::= cons (ch_text ch) |>) (ch_text ch) (ks (ch_text ch)) Hw Ho) as (A1 & A2 & A3); [done|auto|done..|].
  destruct (H2 (ch_text ch)) as [B1 B2]; [done|done| |split_and!; done].
  eapply Forall_impl; [by apply Hks|]. intros [d n] [_ Hn]. destruct (r_keys r !! (d, n)) as [x|] eqn:Ex; [|done]. exfalso.
  match goal with H : ch_text ch ∉ _ |- _ => apply H end. eapply (ow_hex _ _ Ho d n); [by rewrite Ex|done].
Qed.

(** Moving names within a directory. *)
Lemma touch_retouched i t w w' : in_int64 t -> retouched w w' -> retouched w (touch i t w').
Proof.
  intros Ht (A1 & A2 & A3). split_and!; [intros k f Hk|intros k|intros k f]; cbn; (destruct (decide (k = i)) as [->|?]; [rewrite lookup_alter_eq|rewrite lookup_alter_ne by done]); eauto.
  - destruct (A1 i f Hk) as (f' & -> & Hs). cbn. eexists. split; [done|]. eapply same_trans; [exact Hs|]. by apply same_fields.
  - rewrite fmap_is_Some. eauto.
  - destruct (w_files w' !! i) as [f0|] eqn:E; [|done]. intros [= <-]. apply touch_meta; [done|]. by apply A3.
Qed.
Lemma change_retouched d u w : wf w -> retouched w (change_dir d u w).
Proof. intros Hw. split_and!; [intros j x Hx; exists x; split; [done|apply same_refl]|done|apply Hw]. Qed.
Definition publish_ok (r : resources) (d : Identity) (n : bytes) (i : Identity) : Prop :=
  d = J \/ validTempName n = true \/ exists f, r_files r !! i = Some f /\ publishable d n f.
Lemma publish_file r w d n i : owned r w -> publish_ok r d n i -> d = J \/ validTempName n = true \/ exists j f, Some i = Some j /\ w_files w !! j = Some f /\ publishable d n f.
Proof.
  intros Ho [?|[?|(f & Hf & Hp)]]; [auto..|]. right; right. destruct (ow_file _ _ Ho i f Hf) as (f' & E & Hs). exists i, f'. split_and!; [done..|by eapply Hpub].
Qed.
Lemma move_changes r w d a b i ca la cb lb : wf w -> owned r w -> a <> b -> r_keys r !! (d, a) = Some (ca, la) -> r_keys r !! (d, b) = Some (cb, lb) -> ca = Some i ->
  d = J \/ validTempName a = true -> publish_ok r d b i -> forall v, v = None \/ v = cb /\ is_Some cb -> changes r w d [(a, v); (b, Some i)].
Proof.
  intros Hw Ho Hab Ha Hb -> Hda Hp v Hv. assert (is_Some (w_dirs w !! d)) as Hd by (apply (ow_dirs _ _ Ho), (ow_key_dir _ _ Ho d a); by rewrite Ha). split.
  - cbn. apply NoDup_cons. split; [|apply NoDup_singleton]. by intros ->%list_elem_of_singleton.
  - intros n x [[= -> ->]|[= -> ->]%list_elem_of_singleton]%elem_of_cons; [by rewrite Ha|by rewrite Hb].
  - intros n j [[= -> Hj]|[= -> ->]%list_elem_of_singleton]%elem_of_cons; right.
    + destruct Hv as [->|[-> _]]; [done|]. exists b. split; [by rewrite Hb|]. rewrite Hj, <- (ow_cur _ _ Ho d b _ _ Hb). by apply entry_may.
    + exists a. split; [by rewrite Ha|]. rewrite <- (ow_cur _ _ Ho d a _ _ Ha). by apply entry_may.
  - intros n x [[= -> ->]|[= -> ->]%list_elem_of_singleton]%elem_of_cons; [tauto|]. by eapply publish_file.
Qed.
Ltac unchanged r := exists r; split_and!; [done|done|by apply same_fs_local|done|].
Lemma rule_rename d a b ca la cb lb r (Q : error -> resources -> Prop) : I r -> a <> b -> r_keys r !! (d, a) = Some (ca, la) -> r_keys r !! (d, b) = Some (cb, lb) ->
  d = J \/ validTempName a = true -> (forall i, ca = Some i -> publish_ok r d b i) -> (forall e, failed e = true -> Q e r) ->
  (forall i, ca = Some i -> I (put_all d [(a, None); (b, Some i)] r) /\ Q [] (put_all d [(a, None); (b, Some i)] r)) -> safe (act_ (rename_at d a b)) r Q.
Proof.
  intros HI Hab Ha Hb Hd Hp H1 H2. apply rule_step; [done|]. intros w ch Hsane Hw Ho. unfold rename_at, or_fault_e. destruct (failed (fault ch)) eqn:Ef; [unchanged r; auto|].
  rewrite (ow_cur _ _ Ho d a _ _ Ha). destruct ca as [i|]; [|unchanged r; by apply H1]. cbn -[touch put_all]. exists (put_all d [(a, None); (b, Some i)] r).
  destruct (change_step r w (touch i (ch_time ch) (change_dir d [(a, None); (b, Some i)] w)) d [(a, None); (b, Some i)] Hw Ho) as (A1 & A2 & A3);
    [eapply move_changes; eauto|apply touch_retouched; [apply Hsane|by apply change_retouched]|done..|]. destruct (H2 i eq_refl). split_and!; done.
Qed.
Lemma rule_exclusive d a b ca la cb lb r (Q : error -> resources -> Prop) : I r -> a <> b -> r_keys r !! (d, a) = Some (ca, la) -> r_keys r !! (d, b) = Some (cb, lb) ->
  d = J \/ validTempName a = true -> (forall i, ca = Some i -> publish_ok r d b i) -> (forall e, failed e = true -> Q e r) ->
  (forall i, ca = Some i -> cb = None -> I (put_all d [(a, None); (b, Some i)] r) /\ Q [] (put_all d [(a, None); (b, Some i)] r)) -> safe (act_ (renameExclusive d a b)) r Q.
Proof.
  intros HI Hab Ha Hb Hd Hp H1 H2. apply rule_step; [done|]. intros w ch Hsane Hw Ho. unfold renameExclusive, or_fault_e. destruct (failed (fault ch)) eqn:Ef; [unchanged r; auto|].
  rewrite (ow_cur _ _ Ho d a _ _ Ha), (ow_cur _ _ Ho d b _ _ Hb). destruct ca as [i|]; [|unchanged r; by apply H1]. destruct cb as [j|]; [unchanged r; by apply H1|].
  cbn -[touch put_all]. exists (put_all d [(a, None); (b, Some i)] r).
  destruct (change_step r w (touch i (ch_time ch) (change_dir d [(a, None); (b, Some i)] w)) d [(a, None); (b, Some i)] Hw Ho) as (A1 & A2 & A3);
    [eapply move_changes; eauto|apply touch_retouched; [apply Hsane|by apply change_retouched]|done..|]. destruct (H2 i eq_refl eq_refl). split_and!; done.
Qed.
Lemma rule_exchange d a b ca la cb lb r (Q : error -> resources -> Prop) : I r -> a <> b -> r_keys r !! (d, a) = Some (ca, la) -> r_keys r !! (d, b) = Some (cb, lb) ->
  d = J \/ validTempName a = true -> (forall i, ca = Some i -> publish_ok r d b i) -> (forall e, failed e = true -> Q e r) ->
  (forall i j, ca = Some i -> cb = Some j -> I (put_all d [(a, Some j); (b, Some i)] r) /\ Q [] (put_all d [(a, Some j); (b, Some i)] r)) -> safe (act_ (renameExchange d a b)) r Q.
Proof.
  intros HI Hab Ha Hb Hd Hp H1 H2. apply rule_step; [done|]. intros w ch Hsane Hw Ho. unfold renameExchange, or_fault_e. destruct (failed (fault ch)) eqn:Ef; [unchanged r; auto|].
  rewrite (ow_cur _ _ Ho d a _ _ Ha), (ow_cur _ _ Ho d b _ _ Hb). destruct ca as [i|]; [|unchanged r; by apply H1]. destruct cb as [j|]; [|unchanged r; by apply H1].
  cbn -[touch put_all]. exists (put_all d [(a, Some j); (b, Some i)] r).
  destruct (change_step r w (touch i (ch_time ch) (touch j (ch_time ch) (change_dir d [(a, Some j); (b, Some i)] w))) d [(a, Some j); (b, Some i)] Hw Ho) as (A1 & A2 & A3);
    [eapply move_changes; eauto|do 2 (apply touch_retouched; [apply Hsane|]); by apply change_retouched|done..|]. destruct (H2 i j eq_refl eq_refl). split_and!; done.
Qed.
Lemma rule_unlink d n c l r (Q : error -> resources -> Prop) : I r -> r_keys r !! (d, n) = Some (c, l) -> d = J \/ validTempName n = true ->
  (forall e, oops e -> Q e r) -> (c = None -> Q [ErrNotExist] r) -> (forall i, c = Some i -> I (put d (n, None) r) /\ Q [] (put d (n, None) r)) -> safe (act_ (unlink_at d n)) r Q.
Proof.
  intros HI Hk Hd H1 H1' H2. apply rule_step; [done|]. intros w ch Hsane Hw Ho. unfold unlink_at, or_fault_e. destruct (failed (fault ch)) eqn:Ef; [unchanged r; apply H1; by apply oops_fault|].
  rewrite (ow_cur _ _ Ho d n _ _ Hk). destruct c as [i|]; [|unchanged r; by apply H1']. cbn -[put]. exists (put d (n, None) r).
  assert (retouched w (change_dir d [(n, None)] w)) as Hret by (split_and!; [intros j x Hx; exists x; split; [done|apply same_refl]|done|apply (wf_meta _ Hw)]).
  destruct (change_step r w (change_dir d [(n, None)] w) d [(n, None)] Hw Ho) as (A1 & A2 & A3); [|done..|destruct (H2 i eq_refl); split_and!; done].
  split.
  - apply NoDup_singleton.
  - intros n' v [= -> ->]%list_elem_of_singleton. by rewrite Hk.
  - by intros n' j ?%list_elem_of_singleton.
  - intros n' v [= -> ->]%list_elem_of_singleton. tauto.
Qed.
End Safe.
