(* ===== verification/SaveNames.v ===== *)
(** * The names of a save
    Temporary names, names of manifests and of drafts: what is drawn has the form that the
    recovery expects, and the forms exclude each other and the names of saved files. *)
From Stdlib Require Import ZArith Lia.
From stdpp Require Import base gmap sets list option strings.
From S2P Require Import Prelude Utf8 Strconv Json JsonText JsonReads GoStrings InputValue HostFs SaveFiles SaveManifest SaveJournal SaveLogic.
Local Open Scope Z_scope.

Definition hexs (h : bytes) : Prop := length h = 32%nat /\ forallb is_hex h = true.
Definition temp_name (h : bytes) : bytes := lit ".onprest-" ++ h ++ lit ".tmp".
Definition man_name (h : bytes) : bytes := lit "m-" ++ h ++ lit ".json".
Definition draft_name (h : bytes) : bytes := lit ".draft-" ++ h.

Lemma prefix_true p s : has_literal_prefix p s = true <-> exists t, s = p ++ t.
Proof.
  unfold has_literal_prefix. rewrite bytes_eqb_true. split.
  - intros H. exists (drop (length p) s). rewrite <- (take_drop (length p) s) at 1. by rewrite H.
  - intros [t ->]. by rewrite take_app_length.
Qed.
Lemma suffix_true p s : has_literal_suffix p s = true <-> exists t, s = t ++ p.
Proof.
  unfold has_literal_suffix. rewrite andb_true_iff, bytes_eqb_true, Nat.leb_le. split.
  - intros [H _]. exists (take (length s - length p) s). rewrite <- (take_drop (length s - length p) s) at 1. by rewrite H.
  - intros [t ->]. rewrite length_app. split; [|lia]. replace (length t + length p - length p)%nat with (length t) by lia. by rewrite drop_app_length.
Qed.
Lemma hex_ascii h : forallb is_hex h = true -> Forall (fun c => 0 <= c < 128) h.
Proof. intros H. apply Forall_forall. intros c Hc%list_elem_of_In. eapply forallb_forall in H; [|exact Hc]. unfold is_hex in H. breflect; lia. Qed.
Lemma ascii_text_ok s : Forall (fun c => 0 <= c < 128) s -> text_ok s.
Proof.
  intros H. split; [eapply Forall_impl; [exact H|]; unfold is_byte; cbn; lia|]. unfold ValidString. rewrite runes_ascii by done.
  apply forallb_forall. intros [c w] Hc%list_elem_of_In. apply list_elem_of_fmap in Hc as (b & [= -> ->] & Hb). rewrite Forall_forall in H. specialize (H b Hb).
  unfold bad_rune, runeError. cbn. destruct (Z.eqb_spec b 65533); [lia|done].
Qed.
Lemma temp_name_ascii h : hexs h -> Forall (fun c => 0 <= c < 128) (temp_name h).
Proof. intros [_ H]. unfold temp_name. rewrite !Forall_app. split_and!; [by apply ascii_text|by apply hex_ascii|by apply ascii_text]. Qed.
Lemma temp_name_valid h : hexs h -> validTempName (temp_name h) = true /\ temp_hex (temp_name h) = h.
Proof.
  intros [Hl Hh]. split.
  - unfold validTempName. rewrite (proj2 (prefix_true _ _)) by (by eexists). rewrite (proj2 (suffix_true _ _)) by (exists (lit ".onprest-" ++ h); unfold temp_name; by rewrite app_assoc).
    assert (length (temp_name h) = 45%nat) as E by (unfold temp_name; rewrite !length_app, Hl; done). rewrite E. cbn -[temp_name runes slice].
    assert (slice (temp_name h) 9 41 = h) as ->.
    { unfold slice, temp_name. rewrite drop_app_length' by done. by rewrite take_app_length' by (by rewrite Hl). }
    rewrite runes_ascii by (by apply hex_ascii). apply forallb_forall. intros [c w] Hc%list_elem_of_In. apply list_elem_of_fmap in Hc as (b & [= -> ->] & Hb). cbn.
    eapply forallb_forall in Hh; [exact Hh|]. by apply list_elem_of_In.
  - unfold temp_hex, temp_name. rewrite drop_app_length' by done. by rewrite take_app_length' by done.
Qed.
Lemma man_name_valid h : hexs h -> manifestName (man_name h) = true /\ manifest_id (man_name h) = h /\ draft_of (man_name h) = draft_name h.
Proof.
  intros [Hl Hh]. assert (manifest_id (man_name h) = h) as Hid.
  { unfold manifest_id, trim_prefix, man_name. rewrite (proj2 (prefix_true _ _)) by (by eexists). rewrite drop_app_length. unfold trim_suffix. rewrite (proj2 (suffix_true _ _)) by (by eexists).
    rewrite length_app. replace (length h + length (lit ".json") - length (lit ".json"))%nat with (length h) by lia. by rewrite take_app_length. }
  split_and!; [|done|unfold draft_of, draft_name; by rewrite Hid].
  unfold manifestName, hex_name. rewrite (proj2 (prefix_true _ _)) by (by eexists). rewrite (proj2 (suffix_true _ _)) by (exists (lit "m-" ++ h); unfold man_name; by rewrite app_assoc).
  unfold man_name at 1. rewrite !length_app, Hl. cbn [andb]. rewrite Nat.eqb_refl. unfold man_name. rewrite drop_app_length. by rewrite take_app_length' by done.
Qed.
Lemma draft_name_valid h : hexs h -> draftName (draft_name h) = true /\ trim_prefix (lit ".draft-") (draft_name h) = h.
Proof.
  intros [Hl Hh]. split; [|unfold trim_prefix, draft_name; rewrite (proj2 (prefix_true _ _)) by (by eexists); by rewrite drop_app_length].
  unfold draftName, hex_name. rewrite (proj2 (prefix_true _ _)) by (by eexists). rewrite (proj2 (suffix_true _ _)) by (exists (draft_name h); by rewrite app_nil_r).
  unfold draft_name at 1. rewrite !length_app, Hl. cbn [andb]. change (length (lit ".draft-") + 32 =? length (lit ".draft-") + 32 + length (@nil Z))%nat with true. cbn [andb].
  unfold draft_name. rewrite drop_app_length. rewrite take_ge by lia. done.
Qed.
Lemma manifest_name_inv n : manifestName n = true -> hexs (manifest_id n) /\ n = man_name (manifest_id n).
Proof.
  unfold manifestName, hex_name. intros H. breflect. match goal with H : has_literal_prefix _ _ = true |- _ => apply prefix_true in H as [t ->] end.
  match goal with H : has_literal_suffix _ _ = true |- _ => apply suffix_true in H as [u E] end. rewrite drop_app_length in *. rewrite length_app in *.
  assert (exists h, t = h ++ lit ".json") as [h ->].
  { exists (take 32 t). rewrite <- (take_drop 32 t) at 1. f_equal. rewrite <- (take_drop 32 t), app_assoc in E. apply app_inj_2 in E as [_ E]; [done|]. rewrite length_drop. cbn in *. lia. }
  rewrite length_app in *. assert (length h = 32%nat) as Hl by (cbn in *; lia). rewrite take_app_length' in * by done.
  assert (hexs h) as Hh by done. destruct (man_name_valid h Hh) as (_ & E2 & _). unfold man_name in E2. rewrite E2. done.
Qed.
Lemma prefix_exclusive p q n : has_literal_prefix p n = true -> has_literal_prefix q n = true -> take (length q) p = take (length p) q.
Proof.
  intros [t ->]%prefix_true [u E]%prefix_true. destruct (decide (length p <= length q)%nat) as [Hl|Hl].
  - pose proof (f_equal (take (length p)) E) as E1. rewrite take_app_length, take_app_le in E1 by done. by rewrite take_ge by done.
  - pose proof (f_equal (take (length q)) E) as E1. rewrite take_app_length, take_app_le in E1 by lia. by rewrite (take_ge q) by lia.
Qed.
Lemma hex_name_prefix p q n : hex_name p q n = true -> has_literal_prefix p n = true.
Proof. unfold hex_name. intros H. by breflect. Qed.
Lemma temp_name_prefix n : validTempName n = true -> has_literal_prefix (lit ".onprest-") n = true.
Proof. unfold validTempName. by destruct (has_literal_prefix _ n). Qed.
(** The forms exclude each other. *)
Lemma temp_not_journal n : validTempName n = true -> manifestName n = false /\ draftName n = false.
Proof.
  intros H%temp_name_prefix. split; apply not_true_iff_false; intros H2%hex_name_prefix; by pose proof (prefix_exclusive _ _ _ H H2) as E.
Qed.
Lemma manifest_not_draft n : manifestName n = true -> draftName n = false.
Proof. intros H%hex_name_prefix. apply not_true_iff_false. intros H2%hex_name_prefix. by pose proof (prefix_exclusive _ _ _ H H2) as E. Qed.
Lemma runes_ascii_app p s : Forall (fun b => 0 <= b < 128) p -> runes (p ++ s) = ((fun b => (b, 1%nat)) <$> p) ++ runes s.
Proof.
  induction 1 as [|b p Hb Hp IH]; [done|]. change ((b :: p) ++ s) with (b :: p ++ s). rewrite runes_cons by done.
  assert (DecodeRune (b :: p ++ s) = (b, 1%nat)) as -> by (cbn [DecodeRune]; by destruct (Z.ltb_spec b 128); [|lia]).
  change (drop (b, 1%nat).2 (b :: p ++ s)) with (p ++ s). by rewrite IH.
Qed.
(** No file is saved under a temporary name. *)
Lemma saved_name n : SaveName n = [] -> validTempName n = false.
Proof.
  intros Hs. apply not_true_iff_false. intros [t ->]%temp_name_prefix%prefix_true. unfold SaveName in Hs. destruct (negb (is_ok _)); [done|].
  assert (has_literal_prefix (lit ".onprest-") (map_runes lower_rune (lit ".onprest-" ++ t)) = true) as E.
  { apply prefix_true. unfold map_runes. rewrite runes_ascii_app by (by apply ascii_text). rewrite fmap_app, concat_app. eexists. reflexivity. }
  rewrite E in Hs. done.
Qed.
