(* ===== verification/SaveInvariant.v ===== *)
(** * What a save keeps recoverable
    At every point of a save, whatever a crash leaves of its names in the journal and of
    its temporary files, a manifest that is there describes the temporary files that are
    there, and without a manifest there are none. *)
From Stdlib Require Import ZArith Lia.
From stdpp Require Import base gmap sets list option strings.
From coqutil Require Import Datatypes.RecordSettersUsingExistingGetters.
From S2P Require Import Prelude Utf8 Sha256 Strconv Json JsonText JsonReads GoStrings InputValue ArtifactStore HostFs SaveFiles SaveManifest SaveJournal SaveLogic SaveNames.
Local Open Scope Z_scope.
#[global] Arguments const {E} newValue / _.

Definition entry_key (e : saveEntry) : key := (se_DirectoryID e, se_Temp e).
Definition entry_total (l : list saveEntry) : Z := foldr (fun e t => se_Reserved e + t) 0 l.
Lemma entry_total_nonneg l : (forall e, e ∈ l -> 0 <= se_Reserved e) -> 0 <= entry_total l.
Proof.
  induction l as [|e l IH]; intros H; [done|]. cbn. pose proof (H e ltac:(left)). unfold entry_total in IH. assert (forall e', e' ∈ l -> 0 <= se_Reserved e') as H' by (intros e' He; apply H; by right).
  specialize (IH H'). lia.
Qed.
(** A file of the agent's own. *)
Definition ordinary (r : resources) (f : file) : Prop := f_regular f = true /\ f_links f = 1 /\ is_private (r_euid r) f = true.

Section Recoverable.
Context (J : Identity) (located : bytes -> Identity -> Prop) (agent request : bytes).

Record entry_static (e : saveEntry) : Prop := {
  es_ok : entry_ok e;
  es_path : has_prefix 47 (se_Directory e) = true /\ ContainsRune (se_Directory e) 0 = false;
  es_located : located (se_Directory e) (se_DirectoryID e);
  es_temp : validTempName (se_Temp e) = true;
  es_reserved : 0 <= se_Reserved e;
  es_identity : file_identity_valid (se_Identity e) int64_max = true;
  es_replaced : file_identity_valid (se_Replaced e) (se_Reserved e) = true
}.
(** The file [i] under the temporary name of [e]: an empty one that is not recorded yet,
    the recorded one, or the one that it replaced. *)
Definition occupant (r : resources) (e : saveEntry) (i : Identity) : Prop :=
  exists f, r_files r !! i = Some f /\ f_regular f = true /\ f_links f = 1 /\ same_filesystem i (se_DirectoryID e) = true /\
  match se_Identity e with
  | None => f_data f = [] /\ f_dirty f = false /\ is_private (r_euid r) f = true
  | Some id =>
      (i = fi_Identity id /\ fi_Owner id = FormatInt (f_uid f) /\ is_private (r_euid r) f = true /\ Z.of_nat (length (f_data f)) <= se_Reserved e) \/
      (i <> fi_Identity id /\ f_dirty f = false /\ exists o, se_Replaced e = Some o /\ MatchesDisplaced (file_identity i f) o = true)
  end.
Record covers (r : resources) (m : saveManifest) : Prop := {
  cv_ok : manifest_ok m; cv_accepted : manifest_accepted agent m = true; cv_request : sm_Request m = request;
  cv_active : r_active r = true;
  cv_reserved : exists k n, r_reserved r = Some (k, n) /\ n = manifestReservation + entry_total (Entries m) /\ n <= int64_max;
  cv_plan : (fun e => (entry_key e, se_Reserved e)) <$> Entries m = r_plan r;
  cv_keys : NoDup (entry_key <$> Entries m);
  cv_entries : forall e, e ∈ Entries m -> entry_static e /\ exists c l, r_keys r !! entry_key e = Some (c, l) /\ forall i, Some i ∈ l -> occupant r e i;
  cv_all : forall d n c l i, r_keys r !! (d, n) = Some (c, l) -> validTempName n = true -> Some i ∈ l -> (d, n) ∈ entry_key <$> Entries m
}.
Lemma covers_reserved r m : covers r m -> exists k t, r_reserved r = Some (k, t) /\ manifestReservation <= t.
Proof.
  intros [_ _ _ _ (k & n & Hk & -> & _) _ _ He _]. exists k, (manifestReservation + entry_total (Entries m)). split; [done|].
  pose proof (entry_total_nonneg (Entries m) (fun e H => es_reserved _ (proj1 (He e H)))). lia.
Qed.
Definition manifest_file (r : resources) (i : Identity) (m : saveManifest) : Prop :=
  exists f, r_files r !! i = Some f /\ ordinary r f /\ f_dirty f = false /\ Z.of_nat (length (f_data f)) <= manifestLimit /\ decode_manifest (f_data f) = Some m.
Definition draft_file (r : resources) (i : Identity) : Prop :=
  exists f, r_files r !! i = Some f /\ ordinary r f /\ Z.of_nat (length (f_data f)) <= manifestLimit.
(** The names of a save in the journal: its manifest and its draft, claimed together. *)
Definition journal_names (r : resources) : Prop := exists h, hexs h /\ (forall n, is_Some (r_keys r !! (J, n)) -> n = man_name h \/ n = draft_name h) /\
  (is_Some (r_keys r !! (J, man_name h)) <-> is_Some (r_keys r !! (J, draft_name h))).
Record recoverable (r : resources) : Prop := {
  rc_names : journal_names r;
  rc_draft : forall n c l i, r_keys r !! (J, n) = Some (c, l) -> draftName n = true -> Some i ∈ l ->
    draft_file r i /\ r_active r = true /\ exists k t, r_reserved r = Some (k, t) /\ manifestReservation <= t;
  rc_manifest : forall n c l i, r_keys r !! (J, n) = Some (c, l) -> manifestName n = true -> Some i ∈ l -> exists m, manifest_file r i m /\ covers r m;
  rc_temps : forall d n c l i, r_keys r !! (d, n) = Some (c, l) -> validTempName n = true -> Some i ∈ l ->
    exists n' c' l', r_keys r !! (J, n') = Some (c', l') /\ manifestName n' = true /\ None ∉ l';
  rc_known : forall k c l i, r_keys r !! k = Some (c, l) -> Some i ∈ l -> is_Some (r_files r !! i);
  rc_cur : forall k c l, r_keys r !! k = Some (c, l) -> c ∈ l
}.

(* ------------------------------------------------------------------ *)
(** ** Changes in the journal only *)

(** [r'] differs from [r] in the journal's names and in files that [r] does not know. *)
Record extends (r r' : resources) : Prop := {
  ex_keys : forall d n, d <> J -> r_keys r' !! (d, n) = r_keys r !! (d, n);
  ex_files : forall i f, r_files r !! i = Some f -> r_files r' !! i = Some f;
  ex_new : r_new r ⊆ r_new r';
  ex_rest : r_dirs r' = r_dirs r /\ r_euid r' = r_euid r /\ r_reserved r' = r_reserved r /\ r_active r' = r_active r /\ r_store r' = r_store r /\ r_plan r' = r_plan r;
  ex_fresh : forall i, i ∈ r_new r' -> i ∈ r_new r \/ r_files r !! i = None
}.
Lemma extends_refl r : extends r r.
Proof. split; try done; auto. Qed.
Lemma extends_trans r1 r2 r3 : extends r1 r2 -> extends r2 r3 -> extends r1 r3.
Proof.
  intros [A1 A2 A3 (A4 & A5 & A6 & A7 & A8 & A8') A9] [B1 B2 B3 (B4 & B5 & B6 & B7 & B8 & B8') B9]. split; [|auto|set_solver|split_and!; congruence|].
  - intros d n Hd. rewrite B1 by done. auto.
  - intros i Hi. destruct (B9 i Hi) as [?|Hn]; [auto|]. right. destruct (r_files r1 !! i) eqn:E; [|done]. apply A2 in E. congruence.
Qed.
Lemma name_not_temp h n : hexs h -> n = man_name h \/ n = draft_name h -> validTempName n = false.
Proof.
  intros Hh Hn. apply not_true_iff_false. intros [H1 H2]%temp_not_journal. destruct (man_name_valid h Hh) as [H3 _], (draft_name_valid h Hh) as [H4 _].
  destruct Hn as [-> | ->]; congruence.
Qed.
Lemma temp_key_dir r d n : recoverable r -> is_Some (r_keys r !! (d, n)) -> validTempName n = true -> d <> J.
Proof. intros Hr Hk Hv ->. destruct (rc_names _ Hr) as (h & Hh & Hn & _). by rewrite (name_not_temp h n Hh (Hn _ Hk)) in Hv. Qed.
Lemma occupant_files r r' e i : r_euid r' = r_euid r -> (forall f, r_files r !! i = Some f -> r_files r' !! i = Some f) -> occupant r e i -> occupant r' e i.
Proof. intros He Hf (f & H1 & H2). exists f. rewrite He. auto. Qed.
Lemma covers_extends r r' m : recoverable r -> (forall n, is_Some (r_keys r' !! (J, n)) -> is_Some (r_keys r !! (J, n))) -> extends r r' -> covers r m -> covers r' m.
Proof.
  intros Hr Hn [E1 E2 E3 (E4 & E5 & E6 & E7 & E8 & E9)] [C1 C2 C3 C4 C5 C5' C6 C7 C8]. split; try done; try (by rewrite ?E6, ?E7, ?E9).
  - intros e He. destruct (C7 e He) as (Hs & c & l & Hk & Ho). split; [done|]. exists c, l. split.
    + unfold entry_key in *. rewrite E1; [done|]. eapply temp_key_dir; [done|by rewrite Hk|]. apply Hs.
    + intros i Hi. eapply occupant_files; [done|apply E2|by apply Ho].
  - intros d n c l i Hk Hv Hi. assert (d <> J) as Hd.
    { intros ->. eapply temp_key_dir; [exact Hr| |exact Hv|reflexivity]. apply Hn. by rewrite Hk. }
    rewrite E1 in Hk by done. eauto.
Qed.
Lemma recoverable_extends r r' : recoverable r -> extends r r' ->
  (forall n c' l', r_keys r' !! (J, n) = Some (c', l') -> exists c l, r_keys r !! (J, n) = Some (c, l) /\
    (forall i, Some i ∈ l' -> Some i ∈ l \/
      (draftName n = true -> draft_file r' i /\ r_active r' = true /\ exists k t, r_reserved r' = Some (k, t) /\ manifestReservation <= t) /\
      (manifestName n = true -> exists m, manifest_file r' i m /\ covers r m)) /\ (manifestName n = true -> None ∈ l' -> None ∈ l)) ->
  (forall n, is_Some (r_keys r !! (J, n)) -> is_Some (r_keys r' !! (J, n))) -> (forall n c l, r_keys r' !! (J, n) = Some (c, l) -> c ∈ l) -> recoverable r'.
Proof.
  intros Hr He HJ Hdom Hcur. pose proof He as [E1 E2 E3 (E4 & E5 & E6 & E7 & E8 & E9)].
  assert (forall n, is_Some (r_keys r' !! (J, n)) -> is_Some (r_keys r !! (J, n))) as Hn by (intros n [[c' l'] H]; destruct (HJ n c' l' H) as (c & l & -> & _); done).
  split.
  - destruct (rc_names _ Hr) as (h & Hh & H & Hb). exists h. split_and!; [done|eauto|]. split; intros ?; apply Hdom, Hb, Hn; done.
  - intros n c' l' i Hk Hd Hi. destruct (HJ n c' l' Hk) as (c & l & Hk0 & H1 & _). destruct (H1 i Hi) as [Hi0|[H2 _]]; [|auto].
    destruct (rc_draft _ Hr n c l i Hk0 Hd Hi0) as ((f & Hf & Hf') & Ha & Ht). rewrite E6, E7. split; [|done]. exists f. split; [auto|]. unfold ordinary in *. by rewrite E5.
  - intros n c' l' i Hk Hm Hi. destruct (HJ n c' l' Hk) as (c & l & Hk0 & H1 & _). destruct (H1 i Hi) as [Hi0|[_ H2]].
    + destruct (rc_manifest _ Hr n c l i Hk0 Hm Hi0) as (m & (f & Hf & Hf') & Hc). exists m. split; [|by eapply covers_extends]. exists f. split; [auto|]. unfold ordinary in *. by rewrite E5.
    + destruct (H2 Hm) as (m & Hf & Hc). exists m. split; [done|by eapply covers_extends].
  - intros d n c l i Hk Hv Hi. assert (d <> J) as Hd by (intros ->; eapply temp_key_dir; [exact Hr|apply Hn; by rewrite Hk|exact Hv|reflexivity]).
    rewrite E1 in Hk by done. destruct (rc_temps _ Hr d n c l i Hk Hv Hi) as (n' & c0 & l0 & Hk' & Hm & Hno).
    destruct (Hdom n') as [[c' l'] Hk'']; [by rewrite Hk'|]. exists n', c', l'. split_and!; [done..|]. intros H. destruct (HJ n' c' l' Hk'') as (c1 & l1 & Hk1 & _ & H1).
    rewrite Hk' in Hk1. injection Hk1 as <- <-. by apply Hno, H1.
  - intros [d n] c' l' i Hk Hi. destruct (decide (d = J)) as [->|Hd].
    + destruct (HJ n c' l' Hk) as (c & l & Hk0 & H1 & _). destruct (H1 i Hi) as [Hi0|[H2 H3]].
      * destruct (rc_known _ Hr _ _ _ _ Hk0 Hi0) as [f Hf]. rewrite (E2 _ _ Hf). done.
      * destruct (rc_names _ Hr) as (h & Hh & H & _). destruct (H n) as [-> | ->]; [by rewrite Hk0|..].
        -- destruct H3 as (m & (f & -> & _) & _); [by apply man_name_valid|done].
        -- destruct H2 as ((f & -> & _) & _); [by apply draft_name_valid|done].
    + rewrite E1 in Hk by done. destruct (rc_known _ Hr _ _ _ _ Hk Hi) as [f Hf]. rewrite (E2 _ _ Hf). done.
  - intros [d n] c l Hk. destruct (decide (d = J)) as [->|Hd]; [by eapply Hcur|]. rewrite E1 in Hk by done. by eapply (rc_cur _ Hr).
Qed.

(** ** Changes of what a crash may leave *)

(** The file [i] may be put under the temporary name [k]: the manifests are durable and know it. *)
Definition joins (r : resources) (k : key) (i : Identity) : Prop :=
  (exists n c l, r_keys r !! (J, n) = Some (c, l) /\ manifestName n = true /\ None ∉ l) /\
  forall n c l x m, r_keys r !! (J, n) = Some (c, l) -> manifestName n = true -> Some x ∈ l -> manifest_file r x m -> covers r m ->
    exists e, e ∈ Entries m /\ entry_key e = k /\ occupant r e i.
Definition same_rest (r r' : resources) : Prop := r_euid r' = r_euid r /\ r_reserved r' = r_reserved r /\ r_active r' = r_active r /\ r_plan r' = r_plan r.
Lemma entry_unique m e e' : NoDup (entry_key <$> Entries m) -> e ∈ Entries m -> e' ∈ Entries m -> entry_key e = entry_key e' -> e = e'.
Proof.
  intros Hn [i Hi]%list_elem_of_lookup [j Hj]%list_elem_of_lookup E.
  assert (i = j) as -> by (eapply (NoDup_lookup _ i j (entry_key e) Hn); rewrite list_lookup_fmap, ?Hi, ?Hj; cbn; by rewrite ?E). congruence.
Qed.
Section Lists.
Context (r r' : resources) (Hr : recoverable r) (Ef : r_files r' = r_files r) (Er : same_rest r r') (Hdom : forall k, is_Some (r_keys r' !! k) <-> is_Some (r_keys r !! k)).
Context (Hl : forall k c' l' c l i, r_keys r' !! k = Some (c', l') -> r_keys r !! k = Some (c, l) -> Some i ∈ l' ->
  Some i ∈ l \/ k.1 <> J /\ is_Some (r_files r !! i) /\ (validTempName k.2 = true -> joins r k i)).
Lemma lists_old k c' l' : r_keys r' !! k = Some (c', l') -> exists c l, r_keys r !! k = Some (c, l).
Proof. intros H. destruct (proj1 (Hdom k)) as [[c l] ->]; [by rewrite H|]. eauto. Qed.
Lemma lists_journal n c' l' i : r_keys r' !! (J, n) = Some (c', l') -> Some i ∈ l' -> exists c l, r_keys r !! (J, n) = Some (c, l) /\ Some i ∈ l.
Proof. intros H Hi. destruct (lists_old _ _ _ H) as (c & l & Hk). exists c, l. split; [done|]. destruct (Hl _ _ _ _ _ i H Hk Hi) as [?|[? _]]; done. Qed.
Lemma lists_occupant e i : occupant r e i -> occupant r' e i.
Proof. destruct Er as (E1 & _). apply occupant_files; [done|]. by rewrite Ef. Qed.
Lemma lists_manifest_file x m : manifest_file r x m <-> manifest_file r' x m.
Proof. destruct Er as (E1 & _). unfold manifest_file, ordinary. by rewrite Ef, E1. Qed.
Lemma lists_covers n c l x m : r_keys r !! (J, n) = Some (c, l) -> manifestName n = true -> Some x ∈ l -> manifest_file r x m -> covers r m -> covers r' m.
Proof.
  intros Hk Hn Hx Hm Hc. pose proof Hc as [C1 C2 C3 C4 C5 C5' C6 C7 C8]. destruct Er as (E1 & E2 & E3 & E4). split; try done; try (by rewrite ?E2, ?E3, ?E4).
  - intros e He. destruct (C7 e He) as (Hs & c0 & l0 & Hk0 & Ho). split; [done|]. destruct (proj2 (Hdom (entry_key e))) as [[c' l'] Hk']; [by rewrite Hk0|].
    exists c', l'. split; [done|]. intros i Hi. apply lists_occupant. destruct (Hl _ _ _ _ _ i Hk' Hk0 Hi) as [?|(_ & _ & Hj)]; [auto|].
    destruct (Hj (es_temp _ Hs)) as [_ Hj']. destruct (Hj' n c l x m Hk Hn Hx Hm Hc) as (e' & He' & Ee & Ho'). by rewrite (entry_unique m e e' C6 He He' (eq_sym Ee)).
  - intros d n' c' l' i Hk' Hv Hi. destruct (lists_old _ _ _ Hk') as (c0 & l0 & Hk0). destruct (Hl _ _ _ _ _ i Hk' Hk0 Hi) as [?|(_ & _ & Hj)]; [eauto|].
    destruct (Hj Hv) as [_ Hj']. destruct (Hj' n c l x m Hk Hn Hx Hm Hc) as (e' & He' & <- & _). apply list_elem_of_fmap. eauto.
Qed.
Lemma recoverable_lists :
  (forall n c' l' c l, r_keys r' !! (J, n) = Some (c', l') -> r_keys r !! (J, n) = Some (c, l) -> manifestName n = true -> None ∈ l' ->
    None ∈ l \/ forall d n c l i, r_keys r' !! (d, n) = Some (c, l) -> validTempName n = true -> Some i ∉ l) -> (forall k c l, r_keys r' !! k = Some (c, l) -> c ∈ l) -> recoverable r'.
Proof.
  intros Hnone Hcur. destruct Er as (E1 & E2 & E3 & _). split.
  - destruct (rc_names _ Hr) as (h & Hh & H & Hb). exists h. split_and!; [done|intros n Hn; by apply H, Hdom|]. by rewrite !Hdom.
  - intros n c' l' i Hk Hd Hi. destruct (lists_journal _ _ _ _ Hk Hi) as (c & l & Hk0 & Hi0). unfold draft_file, ordinary. rewrite Ef, E1, E2, E3. by apply (rc_draft _ Hr n c l i).
  - intros n c' l' i Hk Hm Hi. destruct (lists_journal _ _ _ _ Hk Hi) as (c & l & Hk0 & Hi0). destruct (rc_manifest _ Hr n c l i Hk0 Hm Hi0) as (m & Hf & Hc).
    exists m. split; [by apply lists_manifest_file|]. by eapply lists_covers.
  - intros d n c' l' i Hk Hv Hi. destruct (lists_old _ _ _ Hk) as (c & l & Hk0).
    assert (exists n c l, r_keys r !! (J, n) = Some (c, l) /\ manifestName n = true /\ None ∉ l) as (n1 & c1 & l1 & Hk1 & Hm & Hno).
    { destruct (Hl _ _ _ _ _ i Hk Hk0 Hi) as [Hi0|(_ & _ & Hj)]; [by eapply (rc_temps _ Hr d n c l i)|by apply Hj]. }
    destruct (proj2 (Hdom (J, n1))) as [[c2 l2] Hk2]; [by rewrite Hk1|]. exists n1, c2, l2. split_and!; [done..|]. intros H.
    destruct (Hnone n1 c2 l2 c1 l1 Hk2 Hk1 Hm H) as [?|Hno']; [done|]. by apply (Hno' d n c' l' i).
  - intros k c' l' i Hk Hi. rewrite Ef. destruct (lists_old _ _ _ Hk) as (c & l & Hk0). destruct (Hl _ _ _ _ _ i Hk Hk0 Hi) as [Hi0|(_ & ? & _)]; [by eapply (rc_known _ Hr)|done].
  - done.
Qed.
End Lists.

(** ** Changes of a file's contents *)

Definition with_file (i : Identity) (f : file) (r : resources) : resources := r <| r_files ::= insert i f |>.
Definition rewritten (f f' : file) : Prop := f_regular f' = f_regular f /\ f_links f' = f_links f /\ f_uid f' = f_uid f /\ f_mode f' = f_mode f.
(** [i] is nowhere but under [k]. *)
Definition apart (r : resources) (i : Identity) (k : key) : Prop := forall k' c l, r_keys r !! k' = Some (c, l) -> Some i ∈ l -> k' = k.
Section Contents.
Context (r : resources) (i : Identity) (f f' : file) (k : key) (Hr : recoverable r) (Hf : r_files r !! i = Some f) (Hap : apart r i k) (HkJ : k.1 <> J) (Hw : rewritten f f').
Context (He : forall n c l x m e, r_keys r !! (J, n) = Some (c, l) -> manifestName n = true -> Some x ∈ l -> manifest_file r x m -> e ∈ Entries m -> entry_key e = k ->
  exists id, se_Identity e = Some id /\ fi_Identity id = i /\ Z.of_nat (length (f_data f')) <= se_Reserved e).
Local Abbreviation r' := (with_file i f' r).
Lemma contents_other j : j <> i -> r_files r' !! j = r_files r !! j.
Proof. intros H. cbn. by rewrite lookup_insert_ne. Qed.
Lemma contents_journal n c l x : r_keys r !! (J, n) = Some (c, l) -> Some x ∈ l -> x <> i.
Proof. intros H Hx ->. pose proof (Hap _ _ _ H Hx) as E. by rewrite <- E in HkJ. Qed.
Lemma contents_occupant n c l x m e j : r_keys r !! (J, n) = Some (c, l) -> manifestName n = true -> Some x ∈ l -> manifest_file r x m -> covers r m -> e ∈ Entries m ->
  (exists c' l', r_keys r !! entry_key e = Some (c', l') /\ Some j ∈ l') -> occupant r e j -> occupant r' e j.
Proof.
  intros Hk Hn Hx Hm Hc Hin (c' & l' & Hk' & Hj) Ho. destruct (decide (j = i)) as [->|Hne]; [|apply (occupant_files r); [done|intros g; by rewrite contents_other|done]].
  destruct (He n c l x m e Hk Hn Hx Hm Hin (Hap _ _ _ Hk' Hj)) as (id & Eid & Ei & Hlen). destruct Ho as (g & Hg & G1 & G2 & G3 & G4). rewrite Hf in Hg. injection Hg as <-.
  destruct Hw as (W1 & W2 & W3 & W4). exists f'. cbn. rewrite lookup_insert_eq, W1, W2. split_and!; try done. rewrite Eid in *. left.
  destruct G4 as [(_ & G5 & G6 & _)|(G5 & _)]; [|congruence]. unfold is_private in *. rewrite W3, W4. split_and!; try done.
Qed.
Lemma recoverable_file : recoverable r'.
Proof.
  assert (forall n c l x, r_keys r !! (J, n) = Some (c, l) -> Some x ∈ l -> r_files r' !! x = r_files r !! x) as HJ by (intros; eapply contents_other, contents_journal; eauto).
  split; try (by apply Hr).
  - intros n c l x Hk Hd Hx. destruct (rc_draft _ Hr n c l x Hk Hd Hx) as ((g & Hg & Hg') & H). split; [|done]. exists g. by rewrite (HJ n c l x Hk Hx).
  - intros n c l x Hk Hm Hx. destruct (rc_manifest _ Hr n c l x Hk Hm Hx) as (m & Hmf & Hc). exists m. split.
    + destruct Hmf as (g & Hg & Hg'). exists g. by rewrite (HJ n c l x Hk Hx).
    + pose proof Hc as [C1 C2 C3 C4 C5 C5' C6 C7 C8]. split; try done. intros e Hin. destruct (C7 e Hin) as (Hs & c0 & l0 & Hk0 & Ho). split; [done|]. exists c0, l0. split; [done|].
      intros j Hj. eapply contents_occupant; eauto.
  - intros k' c l x Hk Hx. cbn. destruct (decide (x = i)) as [->|?]; [by rewrite lookup_insert_eq|]. rewrite lookup_insert_ne by done. by eapply (rc_known _ Hr).
Qed.
End Contents.

(** ** A program without manifests and temporary files *)

Definition idle (r : resources) : Prop :=
  journal_names r /\
  (forall d n c l i, r_keys r !! (d, n) = Some (c, l) -> d = J \/ validTempName n = true -> Some i ∉ l) /\
  (forall k c l i, r_keys r !! k = Some (c, l) -> Some i ∈ l -> is_Some (r_files r !! i)) /\ (forall k c l, r_keys r !! k = Some (c, l) -> c ∈ l).
Lemma idle_recoverable r : idle r -> recoverable r.
Proof.
  intros (H1 & H2 & H3 & H4). split; [done|..|done|done].
  - intros n c l i Hk _ Hi. by destruct (H2 J n c l i Hk (or_introl eq_refl)).
  - intros n c l i Hk _ Hi. by destruct (H2 J n c l i Hk (or_introl eq_refl)).
  - intros d n c l i Hk Hv Hi. by destruct (H2 d n c l i Hk (or_intror Hv)).
Qed.
End Recoverable.
