(* ===== verification/SavePersist.v ===== *)
(** * Writing a manifest keeps a save recoverable *)
From Stdlib Require Import ZArith Lia.
From stdpp Require Import base gmap sets list option strings.
From coqutil Require Import Datatypes.RecordSettersUsingExistingGetters.
From S2P Require Import Prelude Utf8 Sha256 Strconv Json JsonText JsonReads GoStrings InputValue ArtifactStore HostFs SaveFiles SaveManifest SaveJournal SaveLogic SaveNames SaveInvariant.
Local Open Scope Z_scope.
#[global] Arguments const {E} newValue / _.
#[local] Arguments draft_of : simpl never.
#[local] Arguments lit : simpl never.
#[local] Arguments safe : simpl never.
#[local] Arguments prog_bind : simpl never.
#[local] Arguments put_all : simpl never.

(** What may be put under the name of a file to save: a complete copy that was synced. *)
Definition complete (v : FileValue) (f : file) : Prop :=
  f_dirty f = false /\ f_regular f = true /\ Z.of_nat (length (f_data f)) = fv_SizeBytes v /\ hex_sha256 (f_data f) = fv_SHA256 v.
Definition publishable (files : list SaveFile) (d : Identity) (n : bytes) (f : file) : Prop :=
  exists v dir, v ∈ files /\ sf_Directory v = Some dir /\ dr_id dir = d /\ sf_Name v = n /\ complete (sf_Value v) f.
Lemma complete_same v f f' : same f f' -> complete v f -> complete v f'.
Proof. intros (E1 & E2 & E3 & _)%same_inv. unfold complete. by rewrite E1, E2, E3. Qed.
Lemma publishable_same files d n f f' : same f f' -> publishable files d n f -> publishable files d n f'.
Proof. intros Hs (v & dir & H1 & H2 & H3 & H4 & H5). exists v, dir. split_and!; try done. by eapply complete_same. Qed.

Section Persist.
Context (J : Identity) (calm : bool) (located : bytes -> Identity -> Prop) (opts : Options) (agent request : bytes) (files : list SaveFile).
Local Abbreviation inv := (recoverable J located agent request).
Local Abbreviation safe := (safe J calm located opts (publishable files) inv).

(** The journal with a new file [i] in it: the entries of the draft and of the manifest. *)
Record journal_at (name : bytes) (r r' : resources) (i : Identity) (f : file) (D M : option Identity * list (option Identity)) : Prop := {
  ja_extends : extends J r r';
  ja_file : r_files r' !! i = Some f;
  ja_new : i ∈ r_new r';
  ja_draft : r_keys r' !! (J, draft_of name) = Some D;
  ja_manifest : r_keys r' !! (J, name) = Some M;
  ja_only : forall n, n <> draft_of name -> n <> name -> r_keys r' !! (J, n) = None
}.
Lemma draft_not_manifest name : manifestName name = true -> draftName (draft_of name) = true /\ draft_of name <> name /\ manifestName (draft_of name) = false.
Proof.
  intros Hm. destruct (manifest_name_inv name Hm) as [Hh E]. assert (draft_of name = draft_name (manifest_id name)) as Ed by done.
  destruct (draft_name_valid _ Hh) as [Hd _]. rewrite Ed. split_and!; [done| |].
  - intros En. pose proof (manifest_not_draft name Hm). congruence.
  - apply not_true_iff_false. intros H%manifest_not_draft. congruence.
Qed.
Lemma journal_names r name D0 : inv r -> manifestName name = true -> r_keys r !! (J, name) = Some D0 -> forall n, n <> draft_of name -> n <> name -> r_keys r !! (J, n) = None.
Proof.
  intros Hr Hm Hk n Hn1 Hn2. destruct (rc_names _ _ _ _ _ Hr) as (h & Hh & H & _). apply eq_None_not_Some. intros Hs.
  assert (name = man_name h) as ->.
  { destruct (H name) as [?|E]; [by rewrite Hk|done|]. destruct (draft_name_valid h Hh) as [Hd _]. rewrite <- E in Hd. by rewrite (manifest_not_draft name Hm) in Hd. }
  destruct (man_name_valid h Hh) as (_ & _ & E). rewrite E in Hn1. by destruct (H n Hs).
Qed.
Lemma ja_create r name i f c l M : inv r -> manifestName name = true -> r_keys r !! (J, draft_of name) = Some (c, l) -> r_keys r !! (J, name) = Some M -> r_files r !! i = None ->
  journal_at name r (created J (draft_of name) i f r) i f (Some i, l ++ [Some i]) M.
Proof.
  intros Hr Hm Hd Hk Hi. pose proof (draft_not_manifest name Hm) as (_ & Hne & _). pose proof (journal_names r name M Hr Hm Hk) as Ho. unfold created, put. split; cbn.
  - split; cbn; [|intros j g Hj; rewrite lookup_insert_ne; [done|congruence]|set_solver|done|intros j; rewrite elem_of_union, elem_of_singleton; intros [->|?]; auto]. intros d n Hd'. rewrite lookup_alter_ne; [done|]. congruence.
  - apply lookup_insert_eq.
  - set_solver.
  - by rewrite lookup_alter_eq, Hd.
  - rewrite lookup_alter_ne; [done|]. by intros [= E].
  - intros n Hn1 Hn2. rewrite lookup_alter_ne; [by apply Ho|]. by intros [= E].
Qed.
Lemma ja_modify name r r' i f D M g : r_files r !! i = None -> journal_at name r r' i f D M -> journal_at name r (r' <| r_files ::= alter g i |>) i (g f) D M.
Proof.
  intros Hi [[E1 E2 E3 E4 E5] H2 H3 H4 H5 H6]. split; try done; cbn.
  - split; try done. intros j x Hj. cbn. rewrite lookup_alter_ne; [auto|congruence].
  - by rewrite lookup_alter_eq, H2.
Qed.
Lemma ja_put name r r' i f D M u D' M' : (forall n, n ∈ u.*1 -> n = draft_of name \/ n = name) -> journal_at name r r' i f D M ->
  r_keys (put_all J u r') !! (J, draft_of name) = Some D' -> r_keys (put_all J u r') !! (J, name) = Some M' -> journal_at name r (put_all J u r') i f D' M'.
Proof.
  intros Hs [[E1 E2 E3 E4 E5] H2 H3 H4 H5 H6] P1 P2. pose proof (put_all_other J u r') as Ho. destruct (put_all_rest J u r') as (ks & E). rewrite E in *. split; cbn in *; try done.
  - split; cbn; try done. intros d n Hd. rewrite Ho by done. auto.
  - intros n Hn1 Hn2. rewrite Ho; [auto|]. intros _ Hin. by destruct (Hs n Hin).
Qed.
Lemma ja_rename name r r' i f D M : manifestName name = true -> journal_at name r r' i f D M ->
  journal_at name r (put_all J [(draft_of name, None); (name, Some i)] r') i f (None, D.2 ++ [None]) (Some i, M.2 ++ [Some i]).
Proof.
  intros Hm H. pose proof (draft_not_manifest name Hm) as (_ & Hne & _).
  assert (NoDup [draft_of name; name]) as Hnd by (constructor; [by intros ?%list_elem_of_singleton|apply NoDup_singleton]).
  eapply ja_put; [|exact H|apply put_all_key; [exact Hnd|left|apply H]|apply put_all_key; [exact Hnd|right; left|apply H]].
  intros n [->| ->%list_elem_of_singleton]%elem_of_cons; auto.
Qed.
Lemma ja_unlink name r r' i f D M : manifestName name = true -> journal_at name r r' i f D M -> journal_at name r (put J (draft_of name, None) r') i f (None, D.2 ++ [None]) M.
Proof.
  intros Hm H. pose proof (draft_not_manifest name Hm) as (_ & Hne & _). eapply (ja_put name r r' i f D M [(draft_of name, None)]); [|exact H|apply put_all_key; [apply NoDup_singleton|left|apply H]|].
  - intros n ->%list_elem_of_singleton. by left.
  - rewrite put_all_other; [apply H|]. by intros _ E%list_elem_of_singleton.
Qed.
Lemma ja_settle name r r' i f D M : journal_at name r r' i f D M -> journal_at name r (settle J r') i f (D.1, [D.1]) (M.1, [M.1]).
Proof.
  intros [[E1 E2 E3 E4 E5] H2 H3 H4 H5 H6]. split; try done.
  - split; try done. intros d n Hd. rewrite settle_out by done. auto.
  - destruct D. by eapply settle_in.
  - destruct M. by eapply settle_in.
  - intros n Hn1 Hn2. by rewrite settle_lookup, H6.
Qed.

Section Manifest.
Context (name : bytes) (m : saveManifest) (r : resources) (l0 : list (option Identity)) (c1 : option Identity) (l1 : list (option Identity)).
Context (Hr : inv r) (Hname : manifestName name = true).
Context (Hdraft : r_keys r !! (J, draft_of name) = Some (None, l0)) (Hman : r_keys r !! (J, name) = Some (c1, l1)) (Hcov : covers located agent request r m).

(** While the manifest is being written: the entries that a crash may leave. *)
Record writing (r' : resources) (i : Identity) (f : file) (D M : option Identity * list (option Identity)) : Prop := {
  wr_at : journal_at name r r' i f D M;
  wr_fresh : r_files r !! i = None;
  wr_file : ordinary r f /\ Z.of_nat (length (f_data f)) <= manifestLimit;
  wr_draft : forall x, Some x ∈ D.2 -> Some x ∈ l0 \/ x = i;
  wr_manifest : forall x, Some x ∈ M.2 -> Some x ∈ l1 \/ x = i /\ f_dirty f = false /\ decode_manifest (f_data f) = Some m;
  wr_none : None ∈ M.2 -> None ∈ l1;
  wr_cur : D.1 ∈ D.2 /\ M.1 ∈ M.2
}.
Lemma writing_keys r' i f D M : writing r' i f D M -> i ∈ r_new r' /\ r_keys r' !! (J, draft_of name) = Some D /\ r_keys r' !! (J, name) = Some M.
Proof. by intros [[] _ _ _ _ _ _]. Qed.
Lemma writing_unpublished r' i f D M : writing r' i f D M -> unpublished J r' i.
Proof.
  intros [[[E1 _ _ _ _] _ _ _ _ _] Hi _ _ _ _ _] d n c l Hk [Hd _] Hin. rewrite E1 in Hk by done. destruct (rc_known _ _ _ _ _ Hr _ _ _ _ Hk Hin) as [x Hx]. congruence.
Qed.
Lemma writing_recoverable r' i f D M : writing r' i f D M -> inv r'.
Proof.
  intros [Hat Hi [Hf Hl] HD HM HN HC]. pose proof Hat as [He Hf' _ Hd Hm Ho]. pose proof He as [E1 E2 E3 (E4 & E5 & E6 & E7 & E8 & E9)].
  assert (ordinary r' f) as Hf2 by (unfold ordinary in *; by rewrite E5). eapply recoverable_extends; [exact Hr|exact He|..].
  - intros n c' l' Hk. destruct (decide (n = draft_of name)) as [->|Hn1]; [|destruct (decide (n = name)) as [->|Hn2]; [|by rewrite Ho in Hk]].
    + rewrite Hd in Hk. injection Hk as ->. exists None, l0. split_and!; [done| |]; cbn in *.
      * intros x Hx. destruct (HD x Hx) as [?| ->]; [by left|right]. split; [|intros Hm'; destruct (draft_not_manifest name Hname) as (_ & _ & ?); congruence]. intros _.
        split; [by exists f|]. rewrite E6, E7. split; [apply Hcov|by eapply covers_reserved].
      * intros Hm'. destruct (draft_not_manifest name Hname) as (_ & _ & ?); congruence.
    + rewrite Hm in Hk. injection Hk as ->. exists c1, l1. split_and!; [done| |done]. cbn in *.
      intros x Hx. destruct (HM x Hx) as [?|(-> & Hdirty & Hdec)]; [by left|right]. split; [intros Hd'; rewrite (manifest_not_draft name Hname) in Hd'; done|]. intros _. exists m. split; [|done]. by exists f.
  - intros n Hn. destruct (decide (n = draft_of name)) as [->|Hn1]; [by rewrite Hd|]. destruct (decide (n = name)) as [->|Hn2]; [by rewrite Hm|].
    rewrite (journal_names r name _ Hr Hname Hman n Hn1 Hn2) in Hn. by destruct Hn.
  - intros n c l Hk. destruct (decide (n = draft_of name)) as [->|Hn1]; [rewrite Hd in Hk; injection Hk as ->; apply HC|].
    destruct (decide (n = name)) as [->|Hn2]; [rewrite Hm in Hk; injection Hk as ->; apply HC|]. by rewrite Ho in Hk.
Qed.
Lemma writing_create i f : r_files r !! i = None -> is_new_file (r_euid r) f -> writing (created J (draft_of name) i f r) i f (Some i, l0 ++ [Some i]) (c1, l1).
Proof.
  intros Hi (F1 & F2 & F3 & F4 & F5 & F6). split; cbn; [by apply ja_create with None|done| |by intros x [?|[= ->]%list_elem_of_singleton]%elem_of_app; auto|auto|done|split; [set_solver|by eapply (rc_cur _ _ _ _ _ Hr)]].
  rewrite F1. split; [|done]. split_and!; [done..|]. unfold is_private. by rewrite F5, F6, Z.eqb_refl.
Qed.
Lemma writing_modify r' i f D g : writing r' i f D (c1, l1) -> Z.of_nat (length (f_data (g f))) <= manifestLimit ->
  f_regular (g f) = f_regular f -> f_links (g f) = f_links f -> f_uid (g f) = f_uid f -> f_mode (g f) = f_mode f -> writing (r' <| r_files ::= alter g i |>) i (g f) D (c1, l1).
Proof.
  intros [Hat Hi [(F1 & F2 & F3) Hl] HD HM HN HC] Hl' G1 G2 G3 G4. split; try done; [by apply ja_modify| |cbn; auto].
  split; [|done]. unfold ordinary, is_private in *. by rewrite G1, G2, G3, G4.
Qed.
Lemma writing_rename r' i f D : writing r' i f D (c1, l1) -> f_dirty f = false -> decode_manifest (f_data f) = Some m ->
  writing (put_all J [(draft_of name, None); (name, Some i)] r') i f (None, D.2 ++ [None]) (Some i, l1 ++ [Some i]).
Proof.
  intros [Hat Hi Hf HD HM HN HC] Hd Hm. split; try done; [by apply ja_rename in Hat|..]; cbn.
  - by intros x [?|[= ]%list_elem_of_singleton]%elem_of_app; auto.
  - intros x [?|[= ->]%list_elem_of_singleton]%elem_of_app; auto.
  - intros [?|[= ]%list_elem_of_singleton]%elem_of_app; auto.
  - split; set_solver.
Qed.
Lemma writing_settle r' i f lD lM : writing r' i f (None, lD) (Some i, lM) -> f_dirty f = false -> decode_manifest (f_data f) = Some m ->
  writing (settle J r') i f (None, [None]) (Some i, [Some i]).
Proof.
  intros [Hat Hi Hf HD HM HN HC] Hd Hm. split; try done; [by apply ja_settle in Hat|..]; cbn.
  - by intros x ?%list_elem_of_singleton.
  - intros x [= ->]%list_elem_of_singleton. auto.
  - by intros ?%list_elem_of_singleton.
  - split; left.
Qed.
Lemma writing_unlink r' i f D M : writing r' i f D M -> writing (put J (draft_of name, None) r') i f (None, D.2 ++ [None]) M.
Proof.
  intros [Hat Hi Hf HD HM HN HC]. split; try done; [by apply ja_unlink| |]; cbn; [by intros x [?|[= ]%list_elem_of_singleton]%elem_of_app; auto|]. destruct HC. split; set_solver.
Qed.

(** After [persist]: the draft is gone or its removal failed, and on success the manifest is durable. *)
Record persisted (e : error) (r' : resources) : Prop := {
  ps_extends : extends J r r';
  ps_draft : exists c l, r_keys r' !! (J, draft_of name) = Some (c, l) /\ (c = None \/ Is e ErrDraftCleanup = true);
  ps_manifest : is_Some (r_keys r' !! (J, name));
  ps_lists : forall n c' l' x, r_keys r' !! (J, n) = Some (c', l') -> Some x ∈ l' -> r_files r !! x = None \/ exists c l, r_keys r !! (J, n) = Some (c, l) /\ Some x ∈ l;
  ps_dom : forall n, is_Some (r_keys r' !! (J, n)) <-> is_Some (r_keys r !! (J, n));
  ps_done : e = [] -> exists i, r_keys r' !! (J, name) = Some (Some i, [Some i]) /\ manifest_file r' i m
}.
Definition written_ok (e : error) (r' : resources) (i : Identity) : Prop := exists f D M, writing r' i f D M /\ (e = [] -> exists lD, D = (None, lD) /\ M = (Some i, [Some i]) /\ f_dirty f = false /\ decode_manifest (f_data f) = Some m).
Lemma written_inv e r' i : written_ok e r' i -> inv r'.
Proof. intros (f & D & M & H & _). by eapply writing_recoverable. Qed.
Lemma publish_journal n i : publish_ok J (publishable files) r J n i.
Proof. by left. Qed.

Lemma persist_body_safe b i f r1 : writing r1 i f (Some i, l0 ++ [Some i]) (c1, l1) -> f_data f = [] ->
  Z.of_nat (length b) <= manifestLimit -> decode_manifest b = Some m ->
  safe (let^ (_, e) := act_ (write_file i b) in
        let^ e := (if failed e then Ret e else act_ (sync_file i)) in
        let^ c := act_ close_file in
        if failed (e ++ c) then Ret (e ++ c) else
        check^ act_ (rename_at J (draft_of name) name) in
        act_ (sync_dir J)) r1 (fun e r' => written_ok e r' i).
Proof.
  intros W1 Hf Hb Hdec. pose proof (writing_recoverable _ _ _ _ _ W1) as I1. apply safe_bind. eapply rule_write; [done|apply (writing_keys _ _ _ _ _ W1)|by eapply writing_unpublished|]. intros n t e Hn He.
  set (g := fun f : file => f <| f_data ::= fun d => d ++ take n b |> <| f_dirty := true |> <| f_modified := t |>). set (r2 := written i (take n b) t r1).
  assert (writing r2 i (g f) (Some i, l0 ++ [Some i]) (c1, l1)) as W2.
  { apply writing_modify; try done. cbn. rewrite Hf, length_app, length_take. cbn. lia. }
  pose proof (writing_recoverable _ _ _ _ _ W2) as I2. split; [done|]. apply safe_bind.
  assert (forall e r' f' D, writing r' i f' D (c1, l1) -> failed e = true -> written_ok e r' i) as Hbad by (intros e' r' f' D W Hf'; exists f', D, (c1, l1); split; [done|by intros ->]).
  assert (safe (if failed e then Ret e else act_ (sync_file i)) r2 (fun e r3 => exists f3, writing r3 i f3 (Some i, l0 ++ [Some i]) (c1, l1) /\ (failed e = false -> f_dirty f3 = false /\ f_data f3 = b))) as Hsync.
  { destruct e as [|x e]; cbn [failed].
    - set (h := fun f : file => f <| f_dirty := false |>). assert (writing (flushed i r2) i (h (g f)) (Some i, l0 ++ [Some i]) (c1, l1)) as W3.
      { apply writing_modify; try done. apply W2. }
      eapply rule_sync_file; [done|apply (writing_keys _ _ _ _ _ W2)|by eapply writing_unpublished| |split; [by eapply writing_recoverable|]]; [intros e (Hx & _); exists (g f); split; [done|congruence]|].
      exists (h (g f)). split; [done|]. intros _. cbn. rewrite Hf, (He eq_refl), firstn_all. done.
    - apply safe_ret; [done|]. exists (g f). by split. }
  eapply safe_mono; [exact Hsync|]. intros e1 r3 I3 (f3 & W3 & Hok). cbn. apply safe_bind. apply rule_close; [done| |].
  { intros c (Hc & _). destruct (failed (e1 ++ c)) eqn:E; [apply safe_ret; [done|by eapply Hbad]|]. destruct e1; [|done]. cbn in E. congruence. }
  rewrite app_nil_r. destruct (failed e1) eqn:E1; [apply safe_ret; [done|by eapply Hbad]|]. destruct (Hok eq_refl) as [Hd Hdata].
  apply safe_bind. eapply rule_rename; [apply publishable_same|done|by apply draft_not_manifest|apply (writing_keys _ _ _ _ _ W3)|apply (writing_keys _ _ _ _ _ W3)|by left|by left| |].
  { intros e2 He2. rewrite He2. apply safe_ret; [done|by eapply Hbad]. }
  intros x [= <-]. cbn -[put_all]. eapply writing_rename in W3 as W4; [|done|by rewrite Hdata]. pose proof (writing_recoverable _ _ _ _ _ W4) as I4. split; [done|].
  apply rule_sync_dir; [done| |].
  - intros e2 (He2 & _). eexists _, _, _. split; [exact W4|]. by intros ->.
  - eapply writing_settle in W4 as W5; [|done|by rewrite Hdata]. split; [by eapply writing_recoverable|]. eexists _, _, _. split; [exact W5|]. intros _. exists [None]. by rewrite Hdata.
Qed.
Lemma draft_gone r' i f D M e : writing r' i f D M -> (e = [] -> M = (Some i, [Some i]) /\ f_dirty f = false /\ decode_manifest (f_data f) = Some m) ->
  D.1 = None \/ Is e ErrDraftCleanup = true -> persisted e r'.
Proof.
  intros [Hat Hi [Hf Hl] HD HM HN HC] He Hd. pose proof Hat as [Hx Hf' _ Hkd Hkm Ho]. split; [done|destruct D as [c l]; by exists c, l|by rewrite Hkm|..].
  { intros n c' l' x Hk Hin. destruct (decide (n = draft_of name)) as [->|Hn1]; [|destruct (decide (n = name)) as [->|Hn2]; [|by rewrite Ho in Hk]].
    - rewrite Hkd in Hk. injection Hk as ->. destruct (HD x Hin) as [?| ->]; eauto.
    - rewrite Hkm in Hk. injection Hk as ->. destruct (HM x Hin) as [?|(-> & _)]; eauto. }
  { intros n. destruct (decide (n = draft_of name)) as [->|Hn1]; [by rewrite Hkd, Hdraft|]. destruct (decide (n = name)) as [->|Hn2]; [by rewrite Hkm, Hman|].
    by rewrite Ho, (journal_names r name _ Hr Hname Hman) by done. }
  intros E. destruct (He E) as (-> & Hd1 & Hdec). exists i. split; [done|]. exists f. split_and!; try done. destruct (ex_rest _ _ _ Hx) as (_ & E5 & _). unfold ordinary in *. by rewrite E5.
Qed.
Lemma persist_safe : safe (persist J name m) r persisted.
Proof.
  assert (forall e, failed e = true -> persisted e r) as Hfail.
  { intros e He. split; [apply extends_refl|exists None, l0; auto|by rewrite Hman|eauto|done|by intros ->]. }
  unfold persist. destruct (manifest_marshals m (cv_ok _ _ _ _ _ Hcov)) as (b & -> & Hdec). destruct (Z.ltb_spec manifestLimit (Z.of_nat (length b))); [apply safe_ret; [done|by apply Hfail]|].
  apply safe_bind. eapply rule_create; [apply publishable_same|done|exact Hdraft|by left|intros e He; apply safe_ret; [done|by apply Hfail]|]. intros i f _ Hi _ Hnew.
  pose proof (writing_create i f Hi Hnew) as W1. pose proof (writing_recoverable _ _ _ _ _ W1) as I1. split; [done|]. apply safe_bind.
  eapply safe_mono; [eapply persist_body_safe; [exact W1|apply Hnew|done|auto]|]. intros e r2 I2 (f2 & [c l] & M & W2 & Hok). cbv beta. apply safe_bind.
  eapply rule_unlink; [apply publishable_same|done|apply (writing_keys _ _ _ _ _ W2)|by left| | |].
  - intros e2 (Hf2 & -> & _). rewrite Hf2. cbn [negb andb]. apply safe_ret; [done|]. eapply draft_gone; [exact W2| |].
    + destruct e; [done|]. by intros.
    + right. unfold Is. apply bool_decide_true. set_solver.
  - intros ->. cbn. apply safe_ret; [done|]. eapply draft_gone; [exact W2| |by left]. intros E. by destruct (Hok E) as (lD & _ & ?).
  - intros x ->. pose proof (writing_unlink _ _ _ _ _ W2) as W3. split; [by eapply writing_recoverable|]. cbn. apply safe_ret; [by eapply writing_recoverable|].
    eapply draft_gone; [exact W3| |by left]. intros E. by destruct (Hok E) as (lD & _ & ?).
Qed.
End Manifest.
End Persist.
