(* ===== verification/SaveCalls.v ===== *)
(** * What the operations on temporary files do to a program's resources *)
From Stdlib Require Import ZArith Lia.
From stdpp Require Import base gmap sets list option strings.
From coqutil Require Import Datatypes.RecordSettersUsingExistingGetters.
From S2P Require Import Prelude Utf8 Strconv Json JsonText GoStrings InputValue ArtifactStore HostFs SaveFiles SaveManifest SaveJournal SaveLogic.
Local Open Scope Z_scope.
#[global] Arguments const {E} newValue / _.
#[local] Arguments safe : simpl never.
#[local] Arguments prog_bind : simpl never.
#[local] Arguments put_all : simpl never.

Section Calls.
Context (J : Identity) (calm : bool) (located : bytes -> Identity -> Prop) (opts : Options) (publishable : Identity -> bytes -> file -> Prop) (I : resources -> Prop).
Context (Hpub : forall d n f f', same f f' -> publishable d n f -> publishable d n f').
Local Abbreviation safe := (safe J calm located opts publishable I).
Local Abbreviation oops := (oops calm).

(** An error that does not say that a name is missing; without faults only for a reason. *)
Definition denied (reason : Prop) (e : error) : Prop := failed e = true /\ Is e ErrNotExist = false /\ (calm = true -> reason).
Lemma oops_denied P e : oops e -> denied P e.
Proof. intros (H1 & H2 & _ & H3). split_and!; [done..|congruence]. Qed.
Lemma permission_denied (P : Prop) : (calm = true -> P) -> denied P [ErrPermission].
Proof. intros H. by split_and!. Qed.
Lemma denied_mono (P Q : Prop) e : (P -> Q) -> denied P e -> denied Q e.
Proof. intros H (H1 & H2 & H3). split_and!; auto. Qed.

Definition inspectable (euid : Z) (f : file) (private : bool) : Prop := f_regular f = true /\ f_links f = 1 /\ (private = true -> is_private euid f = true).
Lemma same_identity i f f' : same f f' -> f_changed f' = f_changed f -> file_identity i f' = file_identity i f.
Proof. intros (E1 & _ & _ & _ & E2 & E3 & E4)%same_inv E5. unfold file_identity. by rewrite E1, E2, E3, E4, E5. Qed.
Lemma inspect_safe i f private r Q : I r -> r_files r !! i = Some f ->
  (forall e, denied (~ inspectable (r_euid r) f private) e -> Q (inl e) r) ->
  (forall s, same f s -> meta_ok i s -> inspectable (r_euid r) f private -> Q (inr (file_identity i s)) r) -> safe (inspectRegular i private) r Q.
Proof.
  intros HI Hf H1 H2. unfold inspectRegular. apply safe_bind. eapply rule_stat; [done..|intros e He; apply safe_ret; [done|by apply H1, oops_denied]|]. intros s Hs Hm.
  pose proof (same_inv _ _ Hs) as (S1 & S2 & S3 & S4 & S5 & S6 & S7). rewrite S3, S4.
  destruct (f_regular f) eqn:Er; [|apply safe_ret; [done|]; apply H1, permission_denied; intros _ (? & _); congruence].
  destruct (Z.eqb_spec (f_links f) 1) as [El|El]; [|apply safe_ret; [done|]; apply H1, permission_denied; intros _ (_ & ? & _); done]. cbn [negb orb]. apply safe_bind.
  assert (forall e, denied (~ inspectable (r_euid r) f private) e -> safe (if failed e then Ret (inl e) else tryr^ o := act_ (stat i) in Ret (inr ((file_identity i s) <| fi_Owner := FormatInt (f_uid o) |>))) r Q) as Hbad.
  { intros e He. rewrite (proj1 He). apply safe_ret; [done|]. by apply H1. }
  assert ((private = true -> is_private (r_euid r) f = true) -> safe (tryr^ o := act_ (stat i) in Ret (inr ((file_identity i s) <| fi_Owner := FormatInt (f_uid o) |>))) r Q) as Hgood.
  { intros Hp. apply safe_bind. eapply rule_stat; [done..|intros e He; apply safe_ret; [done|by apply H1, oops_denied]|]. intros o Ho _. apply safe_ret; [done|].
    pose proof (same_inv _ _ Ho) as (_ & _ & _ & _ & O5 & _). replace ((file_identity i s) <| fi_Owner := FormatInt (f_uid o) |>) with (file_identity i s) by (unfold file_identity; cbn; by rewrite O5, S5).
    by apply H2. }
  destruct private; [|apply safe_ret; [done|]; by apply Hgood]. eapply rule_private; [done..|intros e He; apply Hbad; by apply oops_denied|].
  destruct (is_private (r_euid r) f) eqn:Ep; [by apply Hgood|]. apply Hbad, permission_denied. intros _ (_ & _ & H). by rewrite H in Ep.
Qed.
Lemma Inspect_safe d n private c l r Q : I r -> r_keys r !! (dr_id d, n) = Some (c, l) -> (forall i, c = Some i -> is_Some (r_files r !! i)) ->
  (forall e, denied (dr_open d = false \/ exists i f, c = Some i /\ r_files r !! i = Some f /\ ~ (inspectable (r_euid r) f private /\ same_filesystem i (dr_id d) = true)) e -> Q (inl e) r) ->
  (c = None -> dr_open d = true -> Q (inl [ErrNotExist]) r) ->
  (forall i f s, c = Some i -> r_files r !! i = Some f -> same f s -> meta_ok i s -> inspectable (r_euid r) f private -> same_filesystem i (dr_id d) = true -> dr_open d = true -> Q (inr (file_identity i s)) r) ->
  safe (Inspect d n private) r Q.
Proof.
  intros HI Hk Hf H1 H2 H3. unfold Inspect. destruct (dr_open d) eqn:Eo; [|apply safe_ret; [done|]; apply H1; split_and!; auto]. cbn [negb]. apply safe_bind.
  eapply rule_open; [done..|intros e He; apply safe_ret; [done|by apply H1, oops_denied]|]. destruct c as [i|]; [|apply safe_ret; [done|by apply H2]].
  destruct (Hf i eq_refl) as [f Ef]. apply safe_bind. eapply inspect_safe; [done..| |].
  - intros e He. apply safe_ret; [done|]. apply H1. eapply denied_mono; [|exact He]. intros Hn. right. exists i, f. tauto.
  - intros s Hs Hm Hi. apply safe_ret; [done|]. cbn [fi_Identity file_identity]. destruct (same_filesystem i (dr_id d)) eqn:Es; [by eapply H3|].
    apply H1, permission_denied. intros _. right. exists i, f. split_and!; [done..|]. intros [_ ?]. congruence.
Qed.

(** ** Removal *)

Definition pins_ok (pins : pinmap) (r : resources) : Prop := forall k i, pins !! k = Some i -> is_Some (r_files r !! i).
Lemma releasePin_safe pins d n r Q : I r -> (forall e pins', pins' ⊆ pins -> (calm = true -> e = []) -> Q (e, pins') r) -> safe (releasePin pins d n) r Q.
Proof.
  intros HI H. unfold releasePin. destruct (pins !! _); [|apply safe_ret; [done|by apply H]]. apply safe_bind. apply rule_close; [done|..].
  - intros e (_ & _ & _ & Hc). apply safe_ret; [done|]. apply H; [apply delete_subseteq|congruence].
  - apply safe_ret; [done|]. apply H; [apply delete_subseteq|done].
Qed.
Lemma pinned_safe pins d n v r Q : I r -> pins_ok pins r -> (forall e, denied (pins !! (dr_handle d, n) <> None) e -> Q e r) -> Q [] r -> safe (pinned pins d n v) r Q.
Proof.
  clear Hpub. intros HI Hp H1 H2. unfold pinned. destruct (pins !! (dr_handle d, n)) as [pin|] eqn:E; [|by apply safe_ret]. destruct (Hp _ _ E) as [f Ef]. apply safe_bind.
  assert (forall e, Is e ErrNotExist = false -> denied (Some pin <> None) (changed (e ++ [ErrPermission]))) as Hd.
  { intros e He. unfold changed, failure. unfold Is in *. apply bool_decide_eq_false in He. case_bool_decide as Hc.
    - split_and!; [by destruct e|apply bool_decide_eq_false; set_solver|done].
    - split_and!; [done|apply bool_decide_eq_false; set_solver|done]. }
  eapply inspect_safe; [done..| |].
  - intros e (_ & He & _). apply safe_ret; [done|]. by apply H1, Hd.
  - intros s _ _ _. apply safe_ret; [done|]. destruct (bool_decide _); [done|]. apply H1. by apply (Hd []).
Qed.
(** What [RemoveTemp] asks of the file. *)
Definition removal_ok (euid : Z) (f : file) (i : Identity) (identities : list FileIdentity) (emptyOnly : bool) : Prop :=
  f_regular f = true /\ f_links f = 1 /\ (emptyOnly = true \/ identities = [] -> is_private euid f = true) /\ (emptyOnly = true -> f_data f = []) /\
  forall first rest, identities = first :: rest -> existsb (identity_match (file_identity i f) (fi_Identity first)) identities = true /\ (i = fi_Identity first -> is_private euid f = true).
Lemma identity_match_same i f s first x : same f s -> identity_match (file_identity i s) first x = identity_match (file_identity i f) first x.
Proof. intros (E1 & _ & _ & _ & E2 & E3 & E4)%same_inv. unfold identity_match, MatchesDisplaced, file_identity. cbn. by rewrite E1, E2, E3, E4. Qed.
Lemma removable_safe pins d n i f ids emptyOnly r Q : I r -> r_files r !! i = Some f -> pins_ok pins r ->
  (forall e, denied (pins !! (dr_handle d, n) <> None \/ ~ removal_ok (r_euid r) f i ids emptyOnly) e -> Q e r) -> Q [] r -> safe (removable pins d n i ids emptyOnly) r Q.
Proof.
  intros HI Hf Hp H1 H2. unfold removable. apply safe_bind. eapply inspect_safe; [done..| |].
  { intros e He. apply safe_ret; [done|]. apply H1. eapply denied_mono; [|exact He]. intros Hn. right. intros (R1 & R2 & R3 & _). apply Hn. split_and!; try done.
    intros E%orb_true_iff. apply R3. destruct E as [?|E]; [by left|right]. by apply bool_decide_eq_true in E. }
  intros s Hs _ _. pose proof (same_inv _ _ Hs) as (S1 & _). cbn [fi_Size file_identity]. rewrite S1. destruct (emptyOnly && negb _) eqn:Ee.
  { apply safe_ret; [done|]. apply H1, permission_denied. intros _. right. intros (_ & _ & _ & R4 & _). apply andb_true_iff in Ee as [E1 E2]. rewrite (R4 E1) in E2. done. }
  apply safe_bind. eapply pinned_safe; [done..| |].
  { intros e He. rewrite (proj1 He). apply safe_ret; [done|]. apply H1. eapply denied_mono; [|exact He]. tauto. }
  cbn [failed]. destruct ids as [|first ids]; [by apply safe_ret|]. assert (existsb (identity_match (file_identity i s) (fi_Identity first)) (first :: ids) = existsb (identity_match (file_identity i f) (fi_Identity first)) (first :: ids)) as ->.
  { generalize (first :: ids) as l. induction l as [|x l IH]; [done|]. simpl. by rewrite IH, (identity_match_same i f s). }
  destruct (existsb _ _) eqn:Ex; cbn [negb].
  2:{ apply safe_ret; [done|]. apply H1, permission_denied. intros _. right. intros (_ & _ & _ & _ & R5). destruct (R5 first ids eq_refl). congruence. }
  case_bool_decide as Eb; [|by apply safe_ret]. eapply rule_private; [done..|intros e He; by apply H1, oops_denied|].
  destruct (is_private (r_euid r) f) eqn:Ep; [done|]. apply H1, permission_denied. intros _. right. intros (_ & _ & _ & _ & R5). destruct (R5 first ids eq_refl) as [_ R6]. by rewrite R6 in Ep.
Qed.
(** Faults that are joined. *)
Lemma joined_denied (es : list error) : Forall (fun e => e = [] \/ oops e) es -> concat es <> [] -> denied False (concat es).
Proof.
  induction 1 as [|e es [-> | He] Hes IH]; intros Hne; [done|by apply IH|]. destruct He as (H1 & H2 & _ & H3). split_and!; [by destruct e| |congruence].
  unfold Is in *. rewrite bool_decide_eq_false in *. cbn. intros [?|Hin]%elem_of_app; [done|]. destruct (concat es) eqn:E; [by apply not_elem_of_nil in Hin|].
  destruct IH as (_ & H4 & _); [done|]. apply bool_decide_eq_false in H4. done.
Qed.
Definition err_of {A} (x : res A) : error := match x with inl e => e | inr _ => [] end.
Lemma stat_safe i f r Q : I r -> r_files r !! i = Some f -> (forall a, err_of a = [] \/ oops (err_of a) -> (forall e, a = inl e -> e <> []) -> Q a r) -> safe (act_ (stat i)) r Q.
Proof.
  intros HI Hf H. eapply rule_stat; [done..| |].
  - intros e He. apply H; [by right|]. intros x [= <-] ->. by destruct He.
  - intros f' _ _. apply H; [by left|done].
Qed.
Lemma unlinkBelow_safe d n i l f r Q : I r -> r_keys r !! (d, n) = Some (Some i, l) -> r_files r !! i = Some f -> d = J \/ validTempName n = true ->
  (forall e, denied False e -> Q e r) -> I (put d (n, None) r) -> Q [] (put d (n, None) r) -> safe (unlinkBelow d n i) r Q.
Proof.
  intros HI Hk Hf Hd H1 HI' H2. unfold unlinkBelow. apply safe_bind. eapply rule_open; [done..|intros e He; apply safe_ret; [done|by apply H1, oops_denied]|].
  apply safe_bind. eapply stat_safe; [done..|]. intros a Ha Ha'. apply safe_bind. eapply stat_safe; [done..|]. intros b Hb Hb'. apply safe_bind.
  assert (forall c, c = [] \/ oops c -> err_of a ++ err_of b ++ c <> [] -> safe (Ret (err_of a ++ err_of b ++ c)) r Q) as Hj.
  { intros c Hc Hne. apply safe_ret; [done|]. apply H1. replace (err_of a ++ err_of b ++ c) with (concat [err_of a; err_of b; c]) in * by (cbn; by rewrite app_nil_r). apply joined_denied; [rewrite !Forall_cons, Forall_nil; by split_and!|done]. }
  assert (forall p : error -> prog error, (forall c, c = [] \/ oops c -> safe (p c) r Q) -> safe (act_ close_file) r (fun c r' => safe (p c) r' Q)) as Hclose.
  { intros p H. apply rule_close; [done|intros c ?; apply H; by right|apply H; by left]. }
  destruct a as [[|x e]|y]; [by destruct (Ha' [] eq_refl)|apply (Hclose (fun c => Ret _)); intros c Hc; by apply Hj|].
  destruct b as [[|x e]|y']; [by destruct (Hb' [] eq_refl)|apply (Hclose (fun c => Ret _)); intros c Hc; by apply (Hj c Hc)|].
  apply rule_close; [done| |].
  - intros [|x c] Hc; [by destruct Hc|]. apply (Hj (x :: c)); [by right|done].
  - rewrite bool_decide_true by done. eapply rule_unlink; [exact Hpub|done..|intros e He; by apply H1, oops_denied|done|]. intros j _. done.
Qed.
Lemma RemoveTemp_safe pins d n ids emptyOnly c l r Q : I r -> r_keys r !! (dr_id d, n) = Some (c, l) -> (forall i, c = Some i -> is_Some (r_files r !! i)) -> validTempName n = true -> pins_ok pins r ->
  (is_Some c -> I (put (dr_id d) (n, None) r)) ->
  (forall e pins' r', pins' ⊆ pins -> (r' = r /\ (e = [] -> c = None) \/ is_Some c /\ r' = put (dr_id d) (n, None) r) ->
    (calm = true -> dr_open d = true -> pins = ∅ -> (forall i f, c = Some i -> r_files r !! i = Some f -> removal_ok (r_euid r) f i ids emptyOnly) -> e = []) -> Q (e, pins') r') ->
  safe (RemoveTemp pins d n ids emptyOnly) r Q.
Proof.
  intros HI Hk Hf Hv Hp HI' HQ. unfold RemoveTemp. rewrite Hv. cbn [negb]. destruct (dr_open d) eqn:Eo; [|apply safe_ret; [done|]; apply HQ; [done|left; done|done]].
  cbn [negb]. apply safe_bind. eapply rule_open; [done..| |].
  { intros e (He1 & He2 & _ & He3). rewrite He2. apply safe_ret; [done|]. apply HQ; [done|left; split; [done|by intros ->]|congruence]. }
  destruct c as [i|]; cycle 1.
  { cbn. apply releasePin_safe; [done|]. intros e pins' Hs He. apply HQ; [done|by left|auto]. }
  destruct (Hf i eq_refl) as [f Ef]. apply safe_bind.
  set (P := calm = true -> pins = ∅ -> removal_ok (r_euid r) f i ids emptyOnly -> False).
  assert (forall e r' pins', pins' ⊆ pins -> (r' = r /\ failed e = true \/ r' = put (dr_id d) (n, None) r) -> I r' -> (e = [] \/ P) ->
    safe (let^ c := act_ close_file in Ret (e ++ c, pins')) r' Q) as Hend.
  { intros e r' pins' Hs Hr' HIr' He. apply safe_bind. assert (forall c, (c = [] \/ oops c) -> safe (Ret (e ++ c, pins')) r' Q) as H; [|apply rule_close; [done|intros; apply H; by right|apply H; by left]].
    intros c Hc. apply safe_ret; [done|]. apply HQ; [done| |].
    - destruct Hr' as [[-> Hr']| ->]; [left|right; done]. split; [done|]. by destruct e.
    - intros Hcalm _ Hpins Hrem. destruct He as [->|He]; [|destruct (He Hcalm Hpins); by apply Hrem]. destruct Hc as [-> |(_ & _ & _ & Hc)]; [done|congruence]. }
  assert (forall e r', (r' = r /\ denied (~ ~ P) e) -> safe (let^ (e0, pins0) := (if failed e then Ret (e, pins) else releasePin pins d n) in let^ c := act_ close_file in Ret (e0 ++ c, pins0)) r' Q) as Hbad.
  { intros e r' (-> & He1 & _ & He3). rewrite He1. apply safe_bind, safe_ret; [done|]. apply Hend; [done|left; done|done|right]. intros Hcalm Hpins Hrem. apply (He3 Hcalm). intros Hq. by apply Hq. }
  eapply removable_safe; [done..| |].
  - intros e He. apply safe_bind. rewrite (proj1 He). apply safe_ret; [done|]. apply Hbad. split; [done|]. eapply denied_mono; [|exact He]. intros [Hn|Hn] Hq; apply Hq; intros _ Hpins Hrem; [|done].
    apply Hn. by rewrite Hpins.
  - cbn [failed]. apply safe_bind. eapply unlinkBelow_safe; [done|exact Hk|done|by right| |by apply HI'|].
    + intros e He. apply Hbad. split; [done|]. by eapply denied_mono; [|exact He].
    + cbn [failed]. apply safe_bind. assert (I (put (dr_id d) (n, None) r)) as HI2 by by apply HI'. apply releasePin_safe; [done|]. intros e pins' Hs He. apply Hend; [done|by right|done|].
      destruct calm eqn:Ec; [left; by apply He|right]. unfold P. congruence.
Qed.

(** ** Checks before and after publication *)

Lemma changed_failed e : failed e = true -> failed (changed e) = true.
Proof. unfold changed, failure. by destruct (Is e ErrContext). Qed.
Lemma failed_app e e' : failed (e ++ e') = failed e || failed e'.
Proof. by destruct e. Qed.
Lemma check_temp_safe d n t c l r Q : I r -> r_keys r !! (d, n) = Some (c, l) -> (forall i, c = Some i -> is_Some (r_files r !! i)) ->
  (forall e, failed e = true -> Q (inl e) r) -> (forall v, Q (inr v) r) -> safe (check_temp d n t) r Q.
Proof.
  intros HI Hk Hf H1 H2. unfold check_temp. apply safe_bind. assert (forall e, failed e = true -> safe (Ret (inl (changed e))) r Q) as Hbad by (intros e He; apply safe_ret; [done|]; by apply H1, changed_failed).
  eapply rule_open; [done..|intros e (He & _); by apply Hbad|]. destruct c as [i|]; [|by apply Hbad]. destruct (Hf i eq_refl) as [f Ef]. apply safe_bind.
  assert (forall (p : error -> prog (res FileIdentity)), (forall c, safe (p c) r Q) -> safe (act_ close_file) r (fun c r' => safe (p c) r' Q)) as Hclose by (intros p H; apply rule_close; auto).
  eapply inspect_safe; [done..| |].
  - intros e _. apply safe_bind. apply (Hclose (fun c => Ret (inl (changed (e ++ c ++ [ErrPermission]))))). intros c. apply Hbad. rewrite !failed_app. by rewrite !orb_true_r.
  - intros s _ _ _. apply safe_bind. apply (Hclose (fun c => Ret (if failed c || negb (same_temp _ t) then inl (changed (c ++ [ErrPermission])) else inr _))). intros c.
    destruct (failed c || _); [apply Hbad; by rewrite failed_app, orb_true_r|]. apply safe_ret; [done|]. apply H2.
Qed.
End Calls.
