(* ===== verification/SaveTemps.v ===== *)
(** * Creating and filling the temporary files keeps a save recoverable *)
From Stdlib Require Import ZArith Lia.
From stdpp Require Import base gmap sets list option strings.
From coqutil Require Import Datatypes.RecordSettersUsingExistingGetters.
From S2P Require Import Prelude Utf8 Sha256 Strconv Json JsonText JsonReads GoStrings InputValue ArtifactStore HostFs SaveFiles SaveManifest SaveJournal SaveLogic SaveNames SaveInvariant SavePersist SaveCalls.
Local Open Scope Z_scope.
#[global] Arguments const {E} newValue / _.
#[local] Arguments draft_of : simpl never.
#[local] Arguments lit : simpl never.
#[local] Arguments safe : simpl never.
#[local] Arguments prog_bind : simpl never.
#[local] Arguments put_all : simpl never.

Section Temps.
Context (J : Identity) (calm : bool) (located : bytes -> Identity -> Prop) (opts : Options) (agent request : bytes) (files : list SaveFile).
Local Abbreviation inv := (recoverable J located agent request).
Local Abbreviation safe := (safe J calm located opts (publishable files) inv).

(** ** Progress of a save *)

(** What stays while temporary files are made: the targets, and the files that were known. *)
Record advances (r r' : resources) : Prop := {
  ad_dom : forall k, is_Some (r_keys r' !! k) <-> is_Some (r_keys r !! k);
  ad_rest : r_dirs r' = r_dirs r /\ r_euid r' = r_euid r /\ r_reserved r' = r_reserved r /\ r_active r' = r_active r /\ r_store r' = r_store r /\ r_plan r' = r_plan r;
  ad_new : r_new r ⊆ r_new r';
  ad_files : forall i f, r_files r !! i = Some f -> r_files r' !! i = Some f;
  ad_targets : forall d n, d <> J -> validTempName n = false -> r_keys r' !! (d, n) = r_keys r !! (d, n);
  ad_fresh : forall i, i ∈ r_new r' -> i ∈ r_new r \/ r_files r !! i = None
}.
Lemma advances_refl r : advances r r.
Proof. split; try done; auto. Qed.
Lemma advances_trans r1 r2 r3 : advances r1 r2 -> advances r2 r3 -> advances r1 r3.
Proof.
  intros [A1 (A2 & A3 & A4 & A5 & A6 & A6') A7 A8 A9 A10] [B1 (B2 & B3 & B4 & B5 & B6 & B6') B7 B8 B9 B10]. split.
  - intros k. by rewrite B1, A1.
  - split_and!; congruence.
  - set_solver.
  - auto.
  - intros d n Hd Hn. rewrite B9, A9; auto.
  - intros i Hi. destruct (B10 i Hi) as [?|Hn]; [auto|]. right. destruct (r_files r1 !! i) eqn:E; [|done]. apply A8 in E. congruence.
Qed.
Lemma persisted_advances name m r e r' : persisted J name m r e r' -> advances r r'.
Proof.
  intros [[E1 E2 E3 E4 E5] _ _ _ Hd _]. split; try done; [|intros d n ? _; auto]. intros [d n]. destruct (decide (d = J)) as [->|?]; [auto|by rewrite E1].
Qed.
Lemma created_advances d n i f r : validTempName n = true -> r_files r !! i = None -> advances r (created d n i f r).
Proof.
  intros Hn Hi. unfold created, put. split; cbn; [|done|set_solver|intros j g Hj; rewrite lookup_insert_ne; [done|congruence]| |intros j; rewrite elem_of_union, elem_of_singleton; intros [->|?]; auto].
  - intros k. destruct (decide (k = (d, n))) as [->|?]; [rewrite lookup_alter_eq, fmap_is_Some; done|by rewrite lookup_alter_ne].
  - intros d' n' _ Hn'. rewrite lookup_alter_ne; [done|]. congruence.
Qed.
Lemma with_file_advances r r' i f : r_files r !! i = None -> advances r r' -> advances r (with_file i f r').
Proof. intros Hi [A1 A2 A3 A4 A5 A6]. split; try done. intros j g Hj. cbn. rewrite lookup_insert_ne; [auto|congruence]. Qed.

(** ** The files of a save *)

(** A file of the save: its directory, its entry, and what is under its name. *)
Record slot (v : saving) : Prop := {
  sl_file : sv_file v ∈ files;
  sl_dir : sf_Directory (sv_file v) = Some (sv_dir v);
  sl_open : dr_open (sv_dir v) = true;
  sl_static : entry_static located (sv_entry v);
  sl_id : se_DirectoryID (sv_entry v) = dr_id (sv_dir v);
  sl_journal : dr_id (sv_dir v) <> J;
  sl_name : SaveName (sf_Name (sv_file v)) = [];
  sl_size : 0 <= fv_SizeBytes (sf_Value (sv_file v)) <= se_Reserved (sv_entry v);
  sl_overwrite : is_Some (se_Replaced (sv_entry v)) -> sf_Overwrite (sv_file v) = true
}.
(** What is under the name of [v]: nothing, or the file to be replaced. *)
Definition target (r : resources) (v : saving) : Prop :=
  exists l, r_keys r !! (dr_id (sv_dir v), sf_Name (sv_file v)) = Some (fi_Identity <$> se_Replaced (sv_entry v), l) /\
  forall o, se_Replaced (sv_entry v) = Some o -> exists f, r_files r !! fi_Identity o = Some f /\ f_regular f = true /\ f_links f = 1 /\ f_dirty f = false /\
    same_filesystem (fi_Identity o) (dr_id (sv_dir v)) = true /\ MatchesDisplaced (file_identity (fi_Identity o) f) o = true /\ fi_Identity o ∉ r_new r.
Definition unfilled (r : resources) (v : saving) : Prop := se_Identity (sv_entry v) = None /\ r_keys r !! entry_key (sv_entry v) = Some (None, [None]).
Definition filled (r : resources) (v : saving) : Prop :=
  exists id f l, se_Identity (sv_entry v) = Some id /\ r_keys r !! entry_key (sv_entry v) = Some (Some (fi_Identity id), l) /\
    r_files r !! fi_Identity id = Some f /\ complete (sf_Value (sv_file v)) f /\ ordinary r f /\ fi_Owner id = FormatInt (f_uid f) /\ fi_Identity id ∈ r_new r.
Lemma target_advances r r' v : slot v -> advances r r' -> target r v -> target r' v.
Proof.
  intros Hs [_ _ _ A4 A5 A6] (l & Hk & Ho). exists l. split; [rewrite A5; [done|apply Hs|by apply saved_name, Hs]|]. intros o Eo.
  destruct (Ho o Eo) as (f & Hf & H1 & H2 & H3 & H4 & H5 & H6). exists f. split_and!; auto. intros Hi. destruct (A6 _ Hi); [done|congruence].
Qed.
Lemma filled_advances r r' v : advances r r' -> r_keys r' !! entry_key (sv_entry v) = r_keys r !! entry_key (sv_entry v) -> filled r v -> filled r' v.
Proof.
  intros [_ (_ & A2 & _) A3 A4 _ _] Hk (id & f & l & H1 & H2 & H3 & H4 & H5 & H6 & H7). exists id, f, l. rewrite Hk. unfold ordinary in *. rewrite A2. split_and!; auto; set_solver.
Qed.
(** Before the temporary files of [todo] are made: the manifest describes all files and is durable. *)
Record preparing (name : bytes) (r : resources) (im : Identity) (fin todo : list saving) : Prop := {
  pr_inv : inv r;
  pr_name : manifestName name = true;
  pr_manifest : r_keys r !! (J, name) = Some (Some im, [Some im]);
  pr_file : manifest_file r im (manifest_of agent request (fin ++ todo));
  pr_draft : exists l, r_keys r !! (J, draft_of name) = Some (None, l);
  pr_slots : Forall slot (fin ++ todo);
  pr_targets : Forall (target r) (fin ++ todo);
  pr_filled : Forall (filled r) fin;
  pr_unfilled : Forall (unfilled r) todo
}.
Lemma manifest_file_det r i m m' : manifest_file r i m -> manifest_file r i m' -> m = m'.
Proof. intros (f & H1 & _ & _ & _ & H2) (f' & H1' & _ & _ & _ & H2'). congruence. Qed.
Lemma manifest_name_unique r n n' : inv r -> is_Some (r_keys r !! (J, n)) -> is_Some (r_keys r !! (J, n')) -> manifestName n = true -> manifestName n' = true -> n = n'.
Proof.
  intros Hr Hn Hn' Hm Hm'. destruct (rc_names _ _ _ _ _ Hr) as (h & Hh & H & _). destruct (draft_name_valid h Hh) as [Hd _].
  destruct (H n Hn) as [->|E]; [|rewrite <- E in Hd; by rewrite (manifest_not_draft n Hm) in Hd]. destruct (H n' Hn') as [->|E]; [done|rewrite <- E in Hd; by rewrite (manifest_not_draft n' Hm') in Hd].
Qed.
Lemma durable_covers name r im m : inv r -> manifestName name = true -> r_keys r !! (J, name) = Some (Some im, [Some im]) -> manifest_file r im m -> covers located agent request r m.
Proof. intros Hr Hn Hk Hm. destruct (rc_manifest _ _ _ _ _ Hr _ _ _ im Hk Hn) as (m' & Hm' & Hc); [left|]. by rewrite (manifest_file_det r im m m'). Qed.
(** Only the durable manifest can be there. *)
Lemma durable_only name r im m n c l x m' : inv r -> manifestName name = true -> r_keys r !! (J, name) = Some (Some im, [Some im]) -> manifest_file r im m ->
  r_keys r !! (J, n) = Some (c, l) -> manifestName n = true -> Some x ∈ l -> manifest_file r x m' -> m' = m.
Proof.
  intros Hr Hn Hk Hm Hk' Hn' Hx Hm'. assert (n = name) as -> by (eapply manifest_name_unique; [done|by rewrite Hk'|by rewrite Hk|done|done]).
  rewrite Hk in Hk'. injection Hk' as <- <-. apply list_elem_of_singleton in Hx as [= ->]. by eapply manifest_file_det.
Qed.
Lemma durable_joins name r im m k i e : inv r -> manifestName name = true -> r_keys r !! (J, name) = Some (Some im, [Some im]) -> manifest_file r im m -> e ∈ Entries m -> entry_key e = k -> occupant r e i ->
  joins J located agent request r k i.
Proof.
  intros Hr Hn Hk Hm He Ek Ho. split.
  - exists name, (Some im), [Some im]. split_and!; [done..|]. by intros ?%list_elem_of_singleton.
  - intros n c l x m' Hk' Hn' Hx Hm' _. rewrite (durable_only name r im m n c l x m') by done. eauto.
Qed.

(** ** A new temporary file *)

Lemma manifest_file_advances r r' i m : advances r r' -> manifest_file r i m -> manifest_file r' i m.
Proof. intros [_ (_ & A2 & _) _ A4 _ _] (f & H1 & H2). exists f. unfold ordinary in *. rewrite A2. auto. Qed.
Lemma create_temp_recoverable name r im m e i f : inv r -> manifestName name = true -> r_keys r !! (J, name) = Some (Some im, [Some im]) -> manifest_file r im m ->
  e ∈ Entries m -> se_Identity e = None -> r_keys r !! entry_key e = Some (None, [None]) -> r_files r !! i = None -> is_new_file (r_euid r) f ->
  same_filesystem i (se_DirectoryID e) = true -> inv (created (se_DirectoryID e) (se_Temp e) i f r).
Proof.
  intros Hr Hn Hk Hm He Eid Hke Hi (F1 & F2 & F3 & F4 & F5 & F6) Hs. set (r1 := r <| r_files ::= insert i f |> <| r_new ::= union {[i]} |>).
  assert (forall j g, r_files r !! j = Some g -> r_files r1 !! j = Some g) as Hsup by (intros j g Hj; cbn; rewrite lookup_insert_ne; [done|congruence]).
  assert (extends J r r1) as Hx by (split; [done|exact Hsup|cbn; set_solver|done|intros j; cbn; rewrite elem_of_union, elem_of_singleton; intros [->|?]; auto]).
  assert (inv r1) as Hr1 by (eapply recoverable_extends; [exact Hr|exact Hx|cbn; eauto 10|done|intros; by eapply (rc_cur _ _ _ _ _ Hr)]).
  assert (entry_static located e) as Hst by by apply (cv_entries _ _ _ _ _ (durable_covers name r im m Hr Hn Hk Hm)).
  assert (manifest_file r1 im m) as Hm1 by (destruct Hm as (g & G1 & G2); exists g; split; [by apply Hsup|done]).
  assert (forall k, k <> entry_key e -> r_keys (created (se_DirectoryID e) (se_Temp e) i f r) !! k = r_keys r1 !! k) as Hother by (intros k Hne; cbn; by rewrite lookup_alter_ne).
  assert (r_keys (created (se_DirectoryID e) (se_Temp e) i f r) !! entry_key e = Some (Some i, [None; Some i])) as Hnew by (cbn; unfold entry_key in *; by rewrite lookup_alter_eq, Hke).
  assert (entry_key e <> (J, name) /\ forall n, entry_key e <> (J, n)) as [_ HJ].
  { assert (forall n, entry_key e <> (J, n)) as H; [|by split]. intros n E. eapply (temp_key_dir _ _ _ _ r (se_DirectoryID e) (se_Temp e) Hr); [unfold entry_key in Hke; by rewrite Hke|apply Hst|]. by injection E. }
  apply (recoverable_lists J located agent request r1); [done|done|done|..].
  - intros k. destruct (decide (k = entry_key e)) as [->|Hne]; [|by rewrite Hother]. rewrite Hnew. change (r_keys r1) with (r_keys r). by rewrite Hke.
  - intros k c' l' c l j Hk' Hk0 Hj. destruct (decide (k = entry_key e)) as [->|Hne]; [|rewrite Hother in Hk' by done; left; congruence]. right.
    rewrite Hnew in Hk'. injection Hk' as <- <-. apply elem_of_cons in Hj as [?|[= ->]%list_elem_of_singleton]; [done|]. split_and!.
    + intros E. apply (HJ (se_Temp e)). unfold entry_key in *. cbn in E. by rewrite E.
    + cbn. by rewrite lookup_insert_eq.
    + intros _. eapply durable_joins; [exact Hr1|exact Hn|exact Hk|exact Hm1|exact He|done|]. exists f. cbn. rewrite lookup_insert_eq, Eid. split_and!; try done.
      unfold is_private. by rewrite F5, F6, Z.eqb_refl.
  - intros n c' l' c l Hk' Hk0 _ H. left. rewrite Hother in Hk' by (by apply not_eq_sym). congruence.
  - intros k c l Hkc. destruct (decide (k = entry_key e)) as [->|Hne]; [rewrite Hnew in Hkc; injection Hkc as <- <-; set_solver|]. rewrite Hother in Hkc by done. by eapply (rc_cur _ _ _ _ _ Hr).
Qed.
Lemma CreateTemp_safe pins d n c l r Q : inv r -> r_keys r !! (dr_id d, n) = Some (c, l) -> validTempName n = true ->
  (forall e, failed e = true -> Q (inl e) r) ->
  (forall i f, c = None -> r_files r !! i = None -> is_new_file (r_euid r) f -> same_filesystem i (dr_id d) = true ->
    let r' := created (dr_id d) n i f r in inv r' /\ (forall e, failed e = true -> Q (inl e) r') /\
    forall s, same f s -> meta_ok i s -> Q (inr (i, file_identity i s, <[(dr_handle d, n) := i]> pins)) r') ->
  safe (CreateTemp pins d n) r Q.
Proof.
  intros HI Hk Hv H1 H2. unfold CreateTemp. rewrite Hv. cbn [negb]. destruct (dr_open d); cbn [negb]; [|apply safe_ret; [done|by apply H1]]. apply safe_bind.
  eapply rule_create; [apply publishable_same|done|exact Hk|by right|intros e He; apply safe_ret; [done|by apply H1]|]. intros i f Hc Hi Hs Hnew.
  destruct (H2 i f Hc Hi Hnew Hs) as (HI' & H3 & H4). set (r' := created (dr_id d) n i f r) in *. split; [done|]. apply safe_bind.
  assert (r_files r' !! i = Some f) as Hf by (cbn; apply lookup_insert_eq). assert (r_keys r' !! (dr_id d, n) = Some (Some i, l ++ [Some i])) as Hk' by (cbn; by rewrite lookup_alter_eq, Hk).
  eapply inspect_safe; [exact HI'|exact Hf|intros e (He & _); apply safe_ret; [done|by apply H3]|]. intros s Hss Hm _. apply safe_bind. unfold pinTemp. apply safe_bind.
  eapply rule_open; [exact HI'|exact Hk'|intros e (He & _); apply safe_ret; [done|]; cbv beta; apply safe_ret; [done|by apply H3]|]. cbv beta iota.
  apply safe_bind. eapply stat_safe; [exact HI'|exact Hf|]. intros a Ha Ha'. apply safe_bind. eapply stat_safe; [exact HI'|exact Hf|]. intros b Hb Hb'.
  set (K := fun (x : res Identity) r => safe (match x with inl e => Ret (inl e) | inr pin => Ret (inr (i, file_identity i s, <[(dr_handle d, n) := pin]> pins)) end) r Q).
  assert (forall g : error -> error, (forall e, failed (g e) = true) -> safe (let^ e := act_ close_file in Ret (inl (g e))) r' K) as Hbad.
  { intros g Hg. apply safe_bind. assert (forall e, safe (Ret (inl (g e))) r' K) as H; [|apply rule_close; [done|intros; apply H|apply H]].
    intros e. apply safe_ret; [done|]. unfold K. apply safe_ret; [done|]. by apply H3. }
  destruct a as [x|y]; [apply (Hbad (fun e => x ++ err_of b ++ ErrPermission :: e)); intros e; by destruct x, (err_of b)|].
  destruct b as [x|y']; [apply (Hbad (fun e => x ++ ErrPermission :: e)); intros e; by destruct x|].
  rewrite bool_decide_true by done. apply safe_ret; [done|]. unfold K. apply safe_ret; [done|]. by apply H4.
Qed.
Lemma covers_update r m m' e e' a b : covers located agent request r m -> Entries m = a ++ e :: b -> Entries m' = a ++ e' :: b ->
  Version m' = Version m -> Agent m' = Agent m -> sm_Request m' = sm_Request m -> entry_key e' = entry_key e -> se_Reserved e' = se_Reserved e -> entry_static located e' ->
  (forall c l i, r_keys r !! entry_key e = Some (c, l) -> Some i ∈ l -> occupant r e' i) -> covers located agent request r m'.
Proof.
  intros [C1 C2 C3 C4 C5 C5' C6 C7 C8] Em Em' E1 E2 E3 E4 E5 Hs Ho. assert (entry_key <$> Entries m' = entry_key <$> Entries m) as Ek by (rewrite Em, Em', !fmap_app, !fmap_cons; by rewrite E4).
  assert (length (Entries m') = length (Entries m)) as El by (rewrite Em, Em', !length_app; done). split; rewrite ?Ek; try done.
  - destruct C1 as [M1 M2 M3 M4 M5]. split; rewrite ?E1, ?E2, ?E3, ?El; try done. rewrite Em in M4. rewrite Em'. apply Forall_app in M4 as [M4 M4']. apply Forall_cons in M4' as [_ M4'].
    apply Forall_app. split; [done|]. constructor; [apply Hs|done].
  - unfold manifest_accepted in *. rewrite E1, E2, E3, El. replace (bool_decide (Entries m' = [])) with (bool_decide (Entries m = [])); [done|]. rewrite Em, Em'. apply bool_decide_ext. by destruct a.
  - by rewrite E3.
  - destruct C5 as (k & n & H1 & H2 & H3). exists k, n. split_and!; try done. rewrite H2, Em, Em'. f_equal. clear -E5. unfold entry_total. induction a as [|x a IH]; cbn; lia.
  - rewrite <- C5', Em, Em', !fmap_app, !fmap_cons. by rewrite E4, E5.
  - intros e0 He0. rewrite Em' in He0. destruct (decide (e0 = e')) as [->|Hne].
    + split; [done|]. destruct (C7 e) as (_ & c & l & Hk & _); [rewrite Em; set_solver|]. exists c, l. rewrite E4. split; [done|]. intros i Hi. by eapply Ho.
    + apply C7. rewrite Em. set_solver.
Qed.

(** ** Filling a temporary file *)

Lemma with_file_alter i f g r : (with_file i f r) <| r_files ::= alter g i |> = with_file i (g f) r.
Proof. change (r <| r_files := alter g i (<[i := f]> (r_files r)) |> = r <| r_files := <[i := g f]> (r_files r) |>). by rewrite alter_insert_eq. Qed.
Lemma rewritten_trans f g h : rewritten f g -> rewritten g h -> rewritten f h.
Proof. intros (A1 & A2 & A3 & A4) (B1 & B2 & B3 & B4). unfold rewritten. by rewrite B1, B2, B3, B4. Qed.
Section Fill.
Context (r : resources) (i : Identity) (f0 : file) (size : Z) (Hi : i ∈ r_new r) (Hu : unpublished J r i) (Hinv : forall f, rewritten f0 f -> Z.of_nat (length (f_data f)) <= size -> inv (with_file i f r)).
(** The file holds what the hash was given. *)
Definition copied_to (f : file) (copied : Z) (h : bytes) : Prop := rewritten f0 f /\ f_data f = h /\ copied = Z.of_nat (length h) /\ copied <= size.
Lemma copied_inv f copied h : copied_to f copied h -> inv (with_file i f r).
Proof. intros (H1 & H2 & H3 & H4). apply Hinv; [done|]. rewrite H2. lia. Qed.
Lemma copy_reads_safe reads : forall f copied h, copied_to f copied h ->
  safe (copy_reads i reads size copied h) (with_file i f r) (fun x r' => exists f', r' = with_file i f' r /\ copied_to f' x.1.2 x.2).
Proof.
  induction reads as [|[b re] reads IH]; intros f copied h Hc; pose proof (copied_inv f copied h Hc) as HI; cbn [copy_reads]; apply safe_bind; (apply rule_ctx; [done|]; intros e);
    (destruct (failed e); [apply safe_ret; [done|]; exists f; by split|]); [apply safe_ret; [done|]; exists f; by split|]. apply safe_bind.
  set (Q := fun (x : error * Z * bytes) (r' : resources) => exists f', r' = with_file i f' r /\ copied_to f' x.1.2 x.2).
  eapply (safe_mono _ _ _ _ _ _ _ _ Q); cycle 1.
  { intros [[e' copied'] h'] r' HI' (f' & -> & Hc'). cbn in Hc'. assert (forall e, safe (Ret (e, copied', h')) (with_file i f' r) Q) as Hret by (intros x; apply safe_ret; [done|]; by exists f').
    destruct (failed e'); [apply Hret|]. case_bool_decide; [apply Hret|]. destruct (failed re); [apply Hret|]. case_bool_decide; [apply Hret|]. by apply IH. }
  assert (forall e, safe (Ret (e, copied, h)) (with_file i f r) Q) as Hret by (intros x; apply safe_ret; [done|]; by exists f).
  case_bool_decide; [apply Hret|]. destruct (Z.ltb_spec (size - copied) (Z.of_nat (length b))); [apply Hret|]. apply safe_bind.
  apply rule_write; [done|done|done|]. intros n t we Hn Hwe. unfold written. rewrite with_file_alter. set (f' := f <| f_data ::= _ |> <| f_dirty := true |> <| f_modified := t |>).
  assert (copied_to f' (copied + Z.of_nat n) (h ++ take n b)) as Hc'.
  { destruct Hc as (C1 & C2 & C3 & C4). split_and!; [done|cbn; by rewrite C2|rewrite length_app, length_take; lia|lia]. }
  pose proof (copied_inv _ _ _ Hc') as HI'. split; [done|]. cbv beta iota. destruct (_ || _) eqn:E; [breflect; lia|]. rewrite Nat2Z.id. apply safe_ret; [done|]. by exists f'.
Qed.
Lemma fill_temp_safe v : fv_SizeBytes v = size -> copied_to f0 0 [] ->
  safe (fill_temp i v) (with_file i f0 r) (fun e r' => exists f', r' = with_file i f' r /\ rewritten f0 f' /\ Z.of_nat (length (f_data f')) <= size /\
    (e = [] -> f_dirty f' = false /\ Z.of_nat (length (f_data f')) = fv_SizeBytes v /\ hex_sha256 (f_data f') = fv_SHA256 v)).
Proof.
  intros Hsize H0. pose proof (copied_inv _ _ _ H0) as HI0. unfold fill_temp.
  set (Q := fun (e : error) r' => exists f', r' = with_file i f' r /\ rewritten f0 f' /\ Z.of_nat (length (f_data f')) <= size /\
    (e = [] -> f_dirty f' = false /\ Z.of_nat (length (f_data f')) = fv_SizeBytes v /\ hex_sha256 (f_data f') = fv_SHA256 v)).
  assert (forall f' e, copied_to f' (Z.of_nat (length (f_data f'))) (f_data f') -> e <> [] -> Q e (with_file i f' r)) as Hbad.
  { intros f' e (C1 & C2 & C3 & C4) He. exists f'. split_and!; [done..|lia|done]. }
  apply safe_bind. apply rule_source; [done|intros e (He & _)|intros reads].
  { apply safe_ret; [done|]. apply Hbad; [destruct H0 as (C1 & C2 & _ & C4); split_and!; rewrite ?C2; done|by destruct e]. }
  apply safe_bind. rewrite Hsize. eapply safe_mono; [by apply copy_reads_safe|]. intros [[e copied] h] r' HI (f & -> & Hc). cbn in Hc. apply safe_bind.
  assert (safe (if failed e then Ret e else if negb (copied =? size) || negb (bytes_eqb (hex_sha256 h) (fv_SHA256 v)) then Ret (Fail "VALIDATION_FAILED" []) else act_ (sync_file i)) (with_file i f r) Q) as Hsync.
  { assert (forall e, e <> [] -> Q e (with_file i f r)) as Hbad' by (intros x Hx; apply Hbad; [destruct Hc as (C1 & C2 & C3 & C4); split_and!; rewrite ?C2; done || lia|done]).
    destruct (failed e) eqn:Ee; [apply safe_ret; [done|]; apply Hbad'; by destruct e|]. destruct (negb (copied =? size) || _) eqn:Ev; [apply safe_ret; [done|]; by apply Hbad'|].
    apply rule_sync_file; [done|done|done|intros x (Hx & _); apply Hbad'; by destruct x|]. unfold flushed. rewrite with_file_alter. destruct Hc as (C1 & C2 & C3 & C4). breflect. apply bytes_eqb_true in H1.
    split; [apply Hinv; [done|]; cbn; rewrite C2; lia|]. exists (f <| f_dirty := false |>). cbn. rewrite C2. split_and!; try done; [lia|]. intros _. split_and!; try done; lia. }
  eapply safe_mono; [exact Hsync|]. intros e1 r1 HI1 (f1 & -> & F1 & F2 & F3).
  assert (forall e', Q (e1 ++ e') (with_file i f1 r)) as Hend by (intros e'; exists f1; split_and!; try done; intros E; apply F3; by destruct e1).
  apply safe_bind. apply rule_close; [done|intros rc _|]; apply safe_bind; (apply rule_close; [done|intros fc _|]); (apply safe_ret; [done|apply Hend]).
Qed.
End Fill.

(** ** One file *)

Definition identify (v : saving) (id : FileIdentity) : saving := v <| sv_entry := (sv_entry v) <| se_Identity := Some id |> |>.
Lemma file_identity_ok i s : meta_ok i s -> Z.of_nat (length (f_data s)) <= int64_max -> fid_ok (file_identity i s) /\ fi_Owner (file_identity i s) <> [].
Proof.
  intros [M1 M2 M3 M4 [M5 M6]] Hl. destruct (FormatInt_chars _ M2) as [Hne Hc]. split; [|done]. split; try done; cbn.
  - unfold in_int64, int64_min, int64_max in *. lia.
  - apply ascii_text_ok. eapply Forall_impl; [exact Hc|]. intros c [H|H]; [apply isdigit_range in H|]; lia.
Qed.
Lemma slot_identify v id : slot v -> fid_ok id -> fi_Owner id <> [] -> 0 <= fi_Size id <= int64_max -> slot (identify v id).
Proof.
  intros [S1 S2 S3 [E1 E2 E3 E4 E5 E6 E7] S5 S6 S7 S8 S9] Hid Ho Hz. split; try done. split; try done.
  - destruct E1. split; try done. by intros f [= <-].
  - cbn. unfold file_identity_valid. rewrite !andb_true_iff, !Z.leb_le, negb_true_iff, bytes_eqb_false. tauto.
Qed.
Lemma target_identify r v id : target r (identify v id) <-> target r v.
Proof. done. Qed.
Lemma prepared_covers name r im fin todo : preparing name r im fin todo -> covers located agent request r (manifest_of agent request (fin ++ todo)).
Proof. intros [P1 P2 P3 P4 _ _ _ _ _]. by eapply durable_covers. Qed.
Lemma entries_split fin (v : saving) todo : Entries (manifest_of agent request (fin ++ v :: todo)) = (sv_entry <$> fin) ++ sv_entry v :: (sv_entry <$> todo).
Proof. cbn. by rewrite fmap_app, fmap_cons. Qed.
Lemma entry_key_other m l r v v' : covers located agent request r m -> Entries m = sv_entry <$> l -> forall a b, l = a ++ v :: b -> v' ∈ a ++ b -> entry_key (sv_entry v') <> entry_key (sv_entry v).
Proof.
  intros Hc Em a b -> Hv E. pose proof (cv_keys _ _ _ _ _ Hc) as Hn. rewrite Em, !fmap_app, !fmap_cons in Hn. rewrite <- Permutation_middle in Hn. apply NoDup_cons in Hn as [Hn _].
  apply Hn. rewrite <- E, <- !fmap_app. rewrite <- list_fmap_compose. apply list_elem_of_fmap. by exists v'.
Qed.
Section One.
Context (name : bytes) (r : resources) (im : Identity) (fin : list saving) (v : saving) (todo : list saving) (i : Identity) (f s : file).
Context (Hp : preparing name r im fin (v :: todo)) (Hi : r_files r !! i = None) (Hnew : is_new_file (r_euid r) f) (Hfs : same_filesystem i (dr_id (sv_dir v)) = true).
Local Abbreviation r1 := (created (dr_id (sv_dir v)) (se_Temp (sv_entry v)) i f r).
Local Abbreviation id := (file_identity i s).
Local Abbreviation v' := (identify v id).
Local Abbreviation m' := (manifest_of agent request (fin ++ v' :: todo)).
Lemma one_slot : slot v /\ unfilled r v /\ entry_key (sv_entry v) = (dr_id (sv_dir v), se_Temp (sv_entry v)).
Proof.
  destruct Hp as [_ _ _ _ _ P6 _ _ P9]. apply Forall_app in P6 as [_ P6]. apply Forall_cons in P6 as [P6 _]. apply Forall_cons in P9 as [P9 _]. split_and!; try done.
  unfold entry_key. by rewrite (sl_id _ P6).
Qed.
Lemma one_created : inv r1.
Proof.
  destruct one_slot as (Hs & [Hid Hk] & Ek). destruct Hp as [P1 P2 P3 P4 _ _ _ _ _]. unfold entry_key in Ek. injection Ek as Ek. rewrite <- Ek in *.
  eapply create_temp_recoverable; [done..| |done|done|done|done|done]. rewrite entries_split. set_solver.
Qed.
Lemma one_key : r_keys r1 !! entry_key (sv_entry v) = Some (Some i, [None; Some i]) /\ forall k, k <> entry_key (sv_entry v) -> r_keys r1 !! k = r_keys r !! k.
Proof.
  destruct one_slot as (_ & [_ Hk] & Ek). rewrite Ek in *. split; [cbn; by rewrite lookup_alter_eq, Hk|]. intros k Hne. cbn. by rewrite lookup_alter_ne.
Qed.
Lemma one_apart : apart r1 i (entry_key (sv_entry v)).
Proof.
  intros k c l Hk Hl. destruct (decide (k = entry_key (sv_entry v))) as [|Hne]; [done|]. rewrite (proj2 one_key) in Hk by done.
  destruct (rc_known _ _ _ _ _ (pr_inv _ _ _ _ _ Hp) _ _ _ _ Hk Hl) as [x Hx]. congruence.
Qed.
Lemma one_advances : advances r r1.
Proof. destruct one_slot as (Hs & _ & _). apply created_advances; [|done]. apply Hs. Qed.
Context (Hss : same f s) (Hmeta : meta_ok i s).
Lemma one_slot' : slot v'.
Proof.
  destruct one_slot as (Hs & _ & _). destruct Hnew as (F1 & _). apply same_inv in Hss as (S1 & _). destruct (file_identity_ok i s Hmeta) as [H1 H2]; [rewrite S1, F1; done|].
  apply slot_identify; try done. cbn. rewrite S1, F1. done.
Qed.
Lemma one_covers : covers located agent request r1 m'.
Proof.
  destruct one_slot as (Hs & _ & Ek). pose proof (prepared_covers _ _ _ _ _ Hp) as Hc. pose proof (sl_static _ one_slot') as Hst. pose proof one_key as [Hk _].
  assert (manifest_file r1 im (manifest_of agent request (fin ++ v :: todo))) as Hm by (eapply manifest_file_advances; [apply one_advances|apply Hp]).
  assert (r_keys r1 !! (J, name) = Some (Some im, [Some im])) as HkJ.
  { rewrite (proj2 one_key); [apply Hp|]. rewrite Ek. intros [= E _]. by apply (sl_journal _ Hs). }
  eapply (covers_update r1 _ m' (sv_entry v) (sv_entry v') (sv_entry <$> fin) (sv_entry <$> todo)); [eapply durable_covers; [apply one_created|apply Hp|exact HkJ|exact Hm]|apply entries_split..|done|done|done|done|done|done|].
  intros c l x Hk' Hx. rewrite Hk in Hk'. injection Hk' as <- <-. apply elem_of_cons in Hx as [?|[= ->]%list_elem_of_singleton]; [done|].
  destruct Hnew as (F1 & F2 & F3 & F4 & F5 & F6). exists f. cbn. rewrite lookup_insert_eq, F1. split_and!; try done; [by rewrite (sl_id _ Hs)|]. left. apply same_inv in Hss as (_ & _ & _ & _ & S5 & _).
  rewrite S5. split_and!; try done; [|apply Hs]. unfold is_private. by rewrite F5, F6, Z.eqb_refl.
Qed.

(** The new manifest is durable. *)
Context (r2 : resources) (Hr2 : inv r2) (Hps : persisted J name m' r1 [] r2).
Lemma one_files : r_files r2 !! i = Some f /\ i ∈ r_new r2 /\ forall k, k.1 <> J -> r_keys r2 !! k = r_keys r1 !! k.
Proof.
  destruct (ps_extends _ _ _ _ _ _ Hps) as [E1 E2 E3 _]. split_and!; [apply E2; cbn; apply lookup_insert_eq|apply E3; cbn; set_solver|]. intros [d n] Hd. by apply E1.
Qed.
Lemma one_apart2 : apart r2 i (entry_key (sv_entry v)).
Proof.
  intros [d n] c l Hk Hl. destruct (decide (d = J)) as [->|Hd]; [|rewrite (proj2 (proj2 one_files)) in Hk by done; by eapply one_apart].
  destruct (ps_lists _ _ _ _ _ _ Hps n c l i Hk Hl) as [Hn|(c' & l' & Hk' & Hl')]; [cbn in Hn; by rewrite lookup_insert_eq in Hn|by eapply one_apart].
Qed.
Lemma one_journal : (entry_key (sv_entry v)).1 <> J.
Proof. destruct one_slot as (Hs & _ & Ek). rewrite Ek. apply Hs. Qed.
Lemma one_unpublished : unpublished J r2 i.
Proof.
  intros d n c l Hk [_ Hn] Hl. pose proof (one_apart2 _ _ _ Hk Hl) as E. destruct one_slot as (Hs & _ & Ek). rewrite Ek in E. injection E as _ ->. rewrite (es_temp _ _ (sl_static _ Hs)) in Hn. done.
Qed.
Lemma one_fill f' : rewritten f f' -> Z.of_nat (length (f_data f')) <= fv_SizeBytes (sf_Value (sv_file v)) -> inv (with_file i f' r2).
Proof.
  intros Hw Hl. destruct one_files as (Hf & _ & _). destruct (ps_done _ _ _ _ _ _ Hps eq_refl) as (im2 & Hk & Hm). destruct one_slot as (Hs & _ & _).
  eapply (recoverable_file J located agent request r2 i f f' (entry_key (sv_entry v))); [done|done|apply one_apart2|apply one_journal|done|].
  intros n c l x m e Hk' Hn Hx Hmx He Ek. rewrite (durable_only name r2 im2 m' n c l x m) in He; [|done|apply Hp|done..].
  assert (e = sv_entry v') as ->.
  { eapply (entry_unique m'); [apply (cv_keys _ _ _ _ _ one_covers)|exact He| |exact Ek]. rewrite entries_split. set_solver. }
  exists id. split_and!; [done|done|]. etransitivity; [exact Hl|]. apply Hs.
Qed.
Lemma one_done f' : rewritten f f' -> complete (sf_Value (sv_file v)) f' -> inv (with_file i f' r2) -> exists im2, preparing name (with_file i f' r2) im2 (fin ++ [v']) todo.
Proof.
  intros Hw Hcomp Hr3. destruct one_files as (Hf & Hn2 & Hk2). destruct (ps_done _ _ _ _ _ _ Hps eq_refl) as (im2 & Hk & Hm). destruct one_slot as (Hs & _ & Ek). exists im2.
  set (r3 := with_file i f' r2). assert (advances r r3) as Hadv.
  { apply with_file_advances; [done|]. eapply advances_trans; [apply one_advances|by eapply persisted_advances]. }
  assert (forall v0, v0 ∈ fin ++ todo -> r_keys r3 !! entry_key (sv_entry v0) = r_keys r !! entry_key (sv_entry v0)) as Hkeys.
  { intros v0 Hv0. assert (slot v0) as Hs0. { pose proof (pr_slots _ _ _ _ _ Hp) as H. rewrite Forall_forall in H. apply H. set_solver. }
    change (r_keys r3) with (r_keys r2). rewrite Hk2; [|unfold entry_key; cbn; rewrite (sl_id _ Hs0); apply Hs0]. apply (proj2 one_key).
    eapply entry_key_other; [exact (prepared_covers _ _ _ _ _ Hp)|reflexivity|reflexivity|done]. }
  assert ((fin ++ [v']) ++ todo = fin ++ v' :: todo) as El by (by rewrite <- app_assoc).
  pose proof Hp as [P1 P2 P3 P4 _ P6 P7 P8 P9]. apply Forall_app in P6 as [P6 P6'], P7 as [P7 P7']. apply Forall_cons in P6' as [_ P6'], P7' as [P7v P7'], P9 as [_ P9]. split; try done; rewrite ?El.
  - destruct Hm as (g & Hg & Hg'). exists g. split; [|done]. cbn. rewrite lookup_insert_ne; [done|]. intros E. apply one_journal. rewrite <- (one_apart2 _ _ _ Hk); [done|]. rewrite E. left.
  - destruct (ps_draft _ _ _ _ _ _ Hps) as (c & l & Hkd & [->|E]); [by exists l|done].
  - apply Forall_app. split; [done|]. constructor; [apply one_slot'|done].
  - rewrite Forall_forall in P6, P6', P7, P7'. apply Forall_app. split; [|constructor; [apply target_identify; by eapply target_advances|]]; apply Forall_forall; intros v0 Hv0; eapply target_advances; eauto.
  - apply Forall_app. split; [rewrite Forall_forall in *; intros v0 Hv0; eapply filled_advances; [done|apply Hkeys; set_solver|auto]|]. constructor; [|constructor].
    exists id, f', [None; Some i]. split_and!; try done.
    + change (r_keys r3) with (r_keys r2). rewrite Hk2 by apply one_journal. apply (proj1 one_key).
    + cbn. apply lookup_insert_eq.
    + destruct Hnew as (F1 & F2 & F3 & F4 & F5 & F6), Hw as (W1 & W2 & W3 & W4). unfold ordinary, is_private. rewrite W1, W2, W3, W4, F3, F4, F5, F6. cbn.
      destruct (ad_rest _ _ Hadv) as (_ & E & _). cbn in E. rewrite E, Z.eqb_refl. done.
    + pose proof (same_inv _ _ Hss) as (_ & _ & _ & _ & S5 & _). destruct Hw as (_ & _ & W3 & _). cbn. by rewrite S5, W3.
  - rewrite Forall_forall in *. intros v0 Hv0. destruct (P9 v0 Hv0) as [H1 H2]. split; [done|]. rewrite Hkeys; [done|set_solver].
Qed.
End One.

(** ** All files *)

(** The same file with its entry, but for the identity of the temporary file. *)
Definition kin (v v' : saving) : Prop :=
  sv_file v' = sv_file v /\ sv_dir v' = sv_dir v /\ entry_key (sv_entry v') = entry_key (sv_entry v) /\ se_Replaced (sv_entry v') = se_Replaced (sv_entry v) /\
  se_Reserved (sv_entry v') = se_Reserved (sv_entry v).
Lemma kin_refl v : kin v v.
Proof. done. Qed.
Lemma kin_list_refl l : Forall2 kin l l.
Proof. induction l; constructor; [apply kin_refl|done]. Qed.
Lemma kin_trans a b c : kin a b -> kin b c -> kin a c.
Proof. intros (A1 & A2 & A3 & A4 & A5) (B1 & B2 & B3 & B4 & B5). unfold kin. by rewrite B1, B2, B3, B4, B5. Qed.
Definition draft_gone_or (name : bytes) (e : error) (r : resources) : Prop := exists c l, r_keys r !! (J, draft_of name) = Some (c, l) /\ (c = None \/ Is e ErrDraftCleanup = true).
(** How the creation ends for the files [l], now [l']. *)
Record outcome (name : bytes) (r0 : resources) (l : list saving) (e : error) (l' : list saving) (pins : pinmap) (r : resources) : Prop := {
  oc_advances : advances r0 r;
  oc_kin : Forall2 kin l l';
  oc_slots : Forall slot l';
  oc_targets : Forall (target r) l';
  oc_pins : pins_ok pins r;
  oc_draft : draft_gone_or name e r;
  oc_done : e = [] -> exists im, preparing name r im l' []
}.
Lemma with_file_id i f r : r_files r !! i = Some f -> with_file i f r = r.
Proof. intros H. change (r <| r_files := <[i := f]> (r_files r) |> = r). rewrite insert_id by done. by destruct r. Qed.
Lemma outcome_step name r0 r1 l l1 e l2 pins r : advances r0 r1 -> Forall2 kin l l1 -> outcome name r1 l1 e l2 pins r -> outcome name r0 l e l2 pins r.
Proof.
  intros Ha Hk [O1 O2 O3 O4 O5 O6 O7]. split; try done; [by eapply advances_trans|]. clear -Hk O2. revert l2 O2. induction Hk as [|a b l l1 Hab Hk IH]; intros l2 O2; inversion O2; subst; constructor; eauto using kin_trans.
Qed.
Lemma pins_ok_advances pins r r' : advances r r' -> pins_ok pins r -> pins_ok pins r'.
Proof. intros Ha Hp k i Hk. destruct (Hp k i Hk) as [f Hf]. rewrite (ad_files _ _ Ha _ _ Hf). done. Qed.
Lemma slots_kin r r' l : Forall slot l -> Forall (target r) l -> advances r r' -> Forall (target r') l.
Proof. rewrite !Forall_forall. intros Hs Ht Ha v Hv. eapply target_advances; eauto. Qed.
Lemma create_files_safe name todo : forall fin pins r im, preparing name r im fin todo -> pins_ok pins r ->
  safe (create_files J agent request name fin todo pins) r (fun x r' => outcome name r (fin ++ todo) x.1.1 x.1.2 x.2 r').
Proof.
  induction todo as [|v todo IH]; intros fin pins r im Hp Hpins; pose proof (pr_inv _ _ _ _ _ Hp) as HI; cbn [create_files].
  { rewrite app_nil_r. apply safe_ret; [done|]. pose proof Hp as [_ _ _ _ (ld & Hd) P6 P7 _ _]. rewrite app_nil_r in *. split; cbn; eauto using advances_refl, kin_list_refl. exists None, ld. auto. }
  set (l := fin ++ v :: todo). pose proof (kin_list_refl l) as Hkin.
  assert (forall e pins' r' l', failed e = true -> advances r r' -> pins_ok pins' r' -> Forall2 kin l l' -> Forall slot l' -> Forall (target r) l' -> draft_gone_or name e r' -> outcome name r l e l' pins' r') as Hstop.
  { intros e pins' r' l' He Ha Hpi Hk Hs Ht Hd. split; try done; [by eapply slots_kin|by intros ->]. }
  assert (forall e, draft_gone_or name e r) as Hdr by (intros e; destruct (pr_draft _ _ _ _ _ Hp) as (ld & Hd); exists None, ld; auto).
  pose proof (pr_slots _ _ _ _ _ Hp) as Hslots. pose proof (pr_targets _ _ _ _ _ Hp) as Htar. destruct (one_slot _ _ _ _ _ _ Hp) as (Hs & [Hid Hkey] & Ek).
  apply safe_bind. apply rule_ctx; [done|]. intros e. destruct (failed e) eqn:Ee; [apply safe_ret; [done|]; apply Hstop; auto using advances_refl|]. clear e Ee.
  apply safe_bind. rewrite Ek in Hkey. eapply CreateTemp_safe; [done|exact Hkey|apply Hs|intros e He; apply safe_ret; [done|]; apply Hstop; auto using advances_refl|].
  intros i f _ Hi Hnew Hfs r1. pose proof (one_created _ _ _ _ _ _ _ _ Hp Hi Hnew Hfs) as HI1. pose proof (one_advances _ _ _ _ _ _ i f Hp Hi) as Ha1. fold r1 in HI1, Ha1. split; [done|].
  assert (forall n, r_keys r1 !! (J, n) = r_keys r !! (J, n)) as HJ1.
  { intros n. apply (proj2 (one_key _ _ _ _ _ _ i f Hp)). rewrite Ek. intros [= E _]. by apply (sl_journal _ Hs). }
  assert (forall e, draft_gone_or name e r1) as Hdr1 by (intros e; unfold draft_gone_or; rewrite HJ1; apply Hdr).
  split; [intros e He; apply safe_ret; [done|]; apply Hstop; eauto using pins_ok_advances|]. intros s Hss Hmeta. cbv zeta.
  set (id := file_identity i s). set (v' := identify v id). set (l1 := fin ++ v' :: todo). assert (Forall2 kin l l1) as Hkin1 by (apply Forall2_app; [apply kin_list_refl|constructor; [done|apply kin_list_refl]]).
  pose proof (one_slot' _ _ _ _ _ _ i f s Hp Hnew Hss Hmeta) as Hs'. pose proof (one_covers _ _ _ _ _ _ i f s Hp Hi Hnew Hfs Hss Hmeta) as Hc1. fold r1 id v' in Hs', Hc1.
  assert (Forall slot l1 /\ Forall (target r) l1) as [Hslots1 Htar1].
  { apply Forall_app in Hslots as [A1 A2], Htar as [B1 B2]. apply Forall_cons in A2 as [_ A2], B2 as [B2 B3]. split; apply Forall_app; (split; [done|]); by constructor. }
  set (pins1 := <[_ := i]> pins). assert (pins_ok pins1 r1) as Hpins1.
  { intros k j [[_ <-]|[_ Hj]]%lookup_insert_Some; [cbn; by rewrite lookup_insert_eq|by eapply pins_ok_advances]. }
  apply safe_bind. destruct (pr_draft _ _ _ _ _ Hp) as (ld & Hd). eapply safe_mono; [eapply (persist_safe _ _ _ _ _ _ _ name _ r1 ld (Some im) [Some im]); [done|apply Hp|by rewrite HJ1|rewrite HJ1; apply Hp|exact Hc1]|].
  intros e r2 HI2 Hps. pose proof (persisted_advances _ _ _ _ _ Hps) as Ha2. assert (advances r r2) as Har2 by by eapply advances_trans.
  destruct (failed e) eqn:Ee; [apply safe_ret; [done|]; apply Hstop; eauto using pins_ok_advances; apply Hps|]. destruct e; [|done].
  pose proof (one_files _ _ _ _ _ _ i f s Hp Hi Hnew Hfs Hss Hmeta r2 HI2 Hps) as (Hf2 & Hn2 & _). pose proof (fun f' => one_fill _ _ _ _ _ _ i f s Hp Hi Hnew Hfs Hss Hmeta r2 HI2 Hps f') as Hfill.
  assert (forall f' e', draft_gone_or name e' (with_file i f' r2)) as Hdr2.
  { intros f' e'. destruct (ps_draft _ _ _ _ _ _ Hps) as (c & l' & Hk & [->|E]); [|done]. exists None, l'. auto. }
  apply safe_bind. rewrite <- (with_file_id i f r2 Hf2). eapply safe_mono; [eapply (fill_temp_safe r2 i f _ Hn2 (one_unpublished _ _ _ _ _ _ i f s Hp Hi Hnew Hfs Hss Hmeta r2 HI2 Hps) Hfill); [done|]|].
  { destruct Hnew as (F1 & _). split_and!; [done|done|done|]. apply Hs. }
  intros e r3 HI3 (f' & -> & Hw & Hlen & Hok). assert (advances r (with_file i f' r2)) as Har3 by (by apply with_file_advances).
  assert (pins_ok pins1 (with_file i f' r2)) as Hpins3.
  { intros k j Hj. cbn. destruct (decide (j = i)) as [->|?]; [by rewrite lookup_insert_eq|]. rewrite lookup_insert_ne by done. by eapply pins_ok_advances in Hpins1; [apply (Hpins1 _ _ Hj)|]. }
  destruct (failed e) eqn:Ee2; [apply safe_ret; [done|]; apply Hstop; auto|]. destruct e; [|done]. destruct (Hok eq_refl) as (Hd1 & Hd2 & Hd3).
  destruct (one_done _ _ _ _ _ _ i f s Hp Hi Hnew Hfs Hss Hmeta r2 HI2 Hps f' Hw) as (im2 & Hp2); [|done|].
  { split_and!; try done. destruct Hw as (-> & _). apply Hnew. }
  eapply safe_mono; [by eapply IH|]. intros [[e l'] pins'] r4 _ Ho. cbn in *. eapply outcome_step; [exact Har3|exact Hkin1|]. by rewrite <- app_assoc in Ho.
Qed.
End Temps.
