(* ===== verification/SavePublish.v ===== *)
(** * Publishing the files keeps a save recoverable *)
From Stdlib Require Import ZArith Lia.
From stdpp Require Import base gmap sets list option strings.
From coqutil Require Import Datatypes.RecordSettersUsingExistingGetters.
From S2P Require Import Prelude Utf8 Sha256 Strconv Json JsonText JsonReads GoStrings InputValue ArtifactStore HostFs SaveFiles SaveManifest SaveJournal SaveLogic SaveNames SaveInvariant SavePersist SaveCalls SaveTemps.
Local Open Scope Z_scope.
#[global] Arguments const {E} newValue / _.
#[local] Arguments draft_of : simpl never.
#[local] Arguments lit : simpl never.
#[local] Arguments safe : simpl never.
#[local] Arguments prog_bind : simpl never.
#[local] Arguments put_all : simpl never.

Section Publication.
Context (J : Identity) (calm : bool) (located : bytes -> Identity -> Prop) (opts : Options) (agent request : bytes) (files : list SaveFile).
Local Abbreviation inv := (recoverable J located agent request).
Local Abbreviation safe := (safe J calm located opts (publishable files) inv).
Local Abbreviation slot := (slot J located files).

Definition target_key (v : saving) : key := (dr_id (sv_dir v), sf_Name (sv_file v)).
(** The complete file is under its name; for sure, or as long as there is no crash. *)
Definition published (r : resources) (v : saving) : Prop :=
  exists i f, r_keys r !! target_key v = Some (Some i, [Some i]) /\ r_files r !! i = Some f /\ complete (sf_Value (sv_file v)) f.
Definition shown (r : resources) (v : saving) : Prop :=
  exists i f l, r_keys r !! target_key v = Some (Some i, l) /\ r_files r !! i = Some f /\ complete (sf_Value (sv_file v)) f.

(** The entries outside [ks] are as before, or settled. *)
Record steady (r r' : resources) (ks : list key) : Prop := {
  sd_files : r_files r' = r_files r /\ r_new r' = r_new r;
  sd_rest : r_dirs r' = r_dirs r /\ r_euid r' = r_euid r /\ r_reserved r' = r_reserved r /\ r_active r' = r_active r /\ r_store r' = r_store r /\ r_plan r' = r_plan r;
  sd_dom : forall k, is_Some (r_keys r' !! k) <-> is_Some (r_keys r !! k);
  sd_keys : forall k c l, k ∉ ks -> r_keys r !! k = Some (c, l) -> exists l', r_keys r' !! k = Some (c, l') /\ (l' = l \/ k.1 <> J /\ l' = [c])
}.
Lemma steady_refl r ks : steady r r ks.
Proof. split; try done. intros. eauto. Qed.
Lemma steady_trans r1 r2 r3 ks ks' : steady r1 r2 ks -> steady r2 r3 ks' -> steady r1 r3 (ks ++ ks').
Proof.
  intros [[A1 A1'] (A2 & A3 & A4 & A5 & A6 & A6') A7 A8] [[B1 B1'] (B2 & B3 & B4 & B5 & B6 & B6') B7 B8]. split; [split; congruence|split_and!; congruence|intros k; by rewrite B7, A7|].
  intros k c l [Hk1 Hk2]%not_elem_of_app Hk. destruct (A8 k c l Hk1 Hk) as (l' & Hk' & Hl'). destruct (B8 k c l' Hk2 Hk') as (l'' & Hk'' & Hl''). exists l''. split; [done|]. naive_solver.
Qed.
Lemma steady_settle d r : d <> J -> steady r (settle d r) [].
Proof.
  intros Hd. split; try done.
  - intros k. by rewrite settle_lookup, fmap_is_Some.
  - intros [d' n] c l _ Hk. destruct (decide (d' = d)) as [->|Hne]; [rewrite (settle_in _ _ _ _ _ Hk); eauto|]. rewrite settle_out by done. eauto.
Qed.
Lemma steady_put d u r : NoDup u.*1 -> steady r (put_all d u r) ((fun n => (d, n)) <$> u.*1).
Proof.
  intros Hu. pose proof (put_all_dom d u r) as Hd. pose proof (put_all_other d u r) as Ho. destruct (put_all_rest d u r) as (ks & E). rewrite E in *. split; try done.
  intros [d' n] c l Hk Hl. exists l. split; [|by left]. rewrite Ho; [done|]. intros -> Hn. apply Hk. apply list_elem_of_fmap. eauto.
Qed.
Lemma filled_steady r r' ks v : steady r r' ks -> entry_key (sv_entry v) ∉ ks -> filled r v -> filled r' v.
Proof.
  intros [[A1 A1'] (_ & A3 & _) _ A8] Hk (id & f & l & H1 & H2 & H3 & H4 & H5 & H6 & H7). destruct (A8 _ _ _ Hk H2) as (l' & Hl' & _). exists id, f, l'. unfold ordinary in *. by rewrite A1, A1', A3.
Qed.
Lemma target_steady r r' ks v : steady r r' ks -> target_key v ∉ ks -> target r v -> target r' v.
Proof. intros [[A1 A1'] _ _ A8] Hk (l & Hl & Ho). destruct (A8 _ _ _ Hk Hl) as (l' & Hl' & _). exists l'. split; [done|]. by rewrite A1, A1'. Qed.
Lemma published_steady r r' ks v : steady r r' ks -> target_key v ∉ ks -> published r v -> published r' v.
Proof. intros [[A1 _] _ _ A8] Hk (i & f & H1 & H2). destruct (A8 _ _ _ Hk H1) as (l' & Hl' & [->|[_ ->]]); exists i, f; by rewrite A1. Qed.
Lemma manifest_file_steady r r' ks i m : steady r r' ks -> manifest_file r i m -> manifest_file r' i m.
Proof. intros [[A1 _] (_ & A3 & _) _ _] (f & H). exists f. unfold ordinary in *. by rewrite A1, A3. Qed.
Lemma settle_recoverable d r : d <> J -> inv r -> inv (settle d r).
Proof.
  intros Hd Hr. pose proof (steady_settle d r Hd) as [_ _ S3 S4].
  assert (forall k c' l' c l, r_keys (settle d r) !! k = Some (c', l') -> r_keys r !! k = Some (c, l) -> l' = l \/ k.1 <> J /\ l' = [c]) as Hkey.
  { intros k c' l' c l Hk' Hk. destruct (S4 k c l) as (l2 & Hk2 & Hl2); [apply not_elem_of_nil|done|]. rewrite Hk' in Hk2. injection Hk2 as -> <-. done. }
  apply (recoverable_lists J located agent request r); try done.
  - intros k c' l' c l i Hk' Hk Hi. left. destruct (Hkey _ _ _ _ _ Hk' Hk) as [->|[_ ->]]; [done|]. apply list_elem_of_singleton in Hi as ->. by eapply (rc_cur _ _ _ _ _ Hr).
  - intros n c' l' c l Hk' Hk _ H. left. destruct (Hkey _ _ _ _ _ Hk' Hk) as [->|[Hj _]]; done.
  - intros k c' l' Hk'. destruct (proj1 (S3 k)) as [[c l] Hk]; [by rewrite Hk'|]. destruct (S4 k c l) as (l2 & Hk2 & Hl2); [apply not_elem_of_nil|done|]. rewrite Hk' in Hk2. injection Hk2 as -> ->.
    destruct Hl2 as [->|[_ ->]]; [by eapply (rc_cur _ _ _ _ _ Hr)|left].
Qed.

(** ** Publishing one file *)

(** While the files are published, [fin] are done. *)
Record publishing (name : bytes) (r : resources) (im : Identity) (fin todo : list saving) : Prop := {
  pb_inv : inv r;
  pb_name : manifestName name = true;
  pb_manifest : r_keys r !! (J, name) = Some (Some im, [Some im]);
  pb_file : manifest_file r im (manifest_of agent request (fin ++ todo));
  pb_slots : Forall slot (fin ++ todo);
  pb_distinct : NoDup (target_key <$> fin ++ todo);
  pb_fin : Forall (published r) fin;
  pb_targets : Forall (target r) todo;
  pb_filled : Forall (filled r) todo
}.
Section One.
Context (name : bytes) (r : resources) (im : Identity) (fin : list saving) (v : saving) (todo : list saving) (Hp : publishing name r im fin (v :: todo)).
Local Abbreviation d := (dr_id (sv_dir v)).
Local Abbreviation temp := (se_Temp (sv_entry v)).
Local Abbreviation nm := (sf_Name (sv_file v)).
Definition swapped (i : Identity) : resources := put_all d [(temp, fi_Identity <$> se_Replaced (sv_entry v)); (nm, Some i)] r.
Lemma head_facts : slot v /\ target r v /\ filled r v /\ entry_key (sv_entry v) = (d, temp) /\ temp <> nm /\ target_key v = (d, nm).
Proof.
  destruct Hp as [_ _ _ _ P5 _ _ P8 P9]. apply Forall_app in P5 as [_ P5]. apply Forall_cons in P5 as [P5 _], P8 as [P8 _], P9 as [P9 _]. split_and!; try done.
  - unfold entry_key. by rewrite (sl_id _ _ _ _ P5).
  - intros E. pose proof (saved_name _ (sl_name _ _ _ _ P5)) as H. rewrite <- E in H. by rewrite (es_temp _ _ (sl_static _ _ _ _ P5)) in H.
Qed.
Lemma swapped_nodup i : NoDup [(temp, fi_Identity <$> se_Replaced (sv_entry v)); (nm, Some i)].*1.
Proof. destruct head_facts as (_ & _ & _ & _ & Hne & _). cbn. constructor; [by intros ?%list_elem_of_singleton|apply NoDup_singleton]. Qed.
Lemma swapped_keys i lt ln c : r_keys r !! (d, temp) = Some (c, lt) -> r_keys r !! (d, nm) = Some (fi_Identity <$> se_Replaced (sv_entry v), ln) ->
  r_keys (swapped i) !! (d, temp) = Some (fi_Identity <$> se_Replaced (sv_entry v), lt ++ [fi_Identity <$> se_Replaced (sv_entry v)]) /\
  r_keys (swapped i) !! (d, nm) = Some (Some i, ln ++ [Some i]).
Proof.
  intros H1 H2. split; [apply (put_all_key d _ r temp _ (c, lt))|apply (put_all_key d _ r nm _ (fi_Identity <$> se_Replaced (sv_entry v), ln))]; try apply swapped_nodup; try done; [left|right; left].
Qed.
Lemma swapped_steady i : steady r (swapped i) [(d, temp); (d, nm)].
Proof. apply steady_put. apply swapped_nodup. Qed.
Lemma replaced_occupant o : se_Replaced (sv_entry v) = Some o -> occupant r (sv_entry v) (fi_Identity o).
Proof.
  intros Eo. destruct head_facts as (Hs & (ln & Hn & Ho) & (id & f & lt & E1 & Hk & Hf & Hc & Hord & Hown & Hnew) & Ek & _ & _). destruct (Ho o Eo) as (g & G1 & G2 & G3 & G4 & G5 & G6 & G7).
  exists g. rewrite E1, (sl_id _ _ _ _ Hs). split_and!; try done. right. split_and!; [by intros Heq; rewrite Heq in G7|done|eauto].
Qed.
Lemma swapped_recoverable i : is_Some (r_files r !! i) -> inv (swapped i).
Proof.
  intros Hi. destruct head_facts as (Hs & (ln & Hn & Ho) & (id & f & lt & E1 & Hk & _) & Ek & Hne & _). rewrite Ek in Hk. pose proof Hp as [P1 P2 P3 P4 _ _ _ _ _].
  destruct (swapped_keys i lt ln _ Hk Hn) as [K1 K2]. pose proof (swapped_steady i) as [_ _ S3 _].
  assert (forall k, k <> (d, temp) -> k <> (d, nm) -> r_keys (swapped i) !! k = r_keys r !! k) as Hother.
  { intros [d' n] H1 H2. apply put_all_other. intros -> [->|[->|[]%not_elem_of_nil]%elem_of_cons]%elem_of_cons; done. }
  destruct (put_all_rest d [(temp, fi_Identity <$> se_Replaced (sv_entry v)); (nm, Some i)] r) as (ks & Eks).
  apply (recoverable_lists J located agent request r); [done|unfold swapped; by rewrite Eks|unfold swapped; by rewrite Eks|done|..].
  - intros k c' l' c l j Hk' Hk0 Hj. destruct (decide (k = (d, temp))) as [->|N1]; [|destruct (decide (k = (d, nm))) as [->|N2]; [|left; rewrite Hother in Hk' by done; congruence]].
    + rewrite K1 in Hk'. injection Hk' as <- <-. rewrite Hk in Hk0. injection Hk0 as <- <-. apply elem_of_app in Hj as [?|Hj%list_elem_of_singleton]; [by left|right].
      destruct (se_Replaced (sv_entry v)) as [o|] eqn:Eo; [|done]. injection Hj as ->. split_and!; [apply Hs|destruct (Ho o eq_refl) as (g & -> & _); done|].
      intros _. eapply (durable_joins J located agent request name r im); [done..| |by rewrite <- Ek|by apply replaced_occupant]. rewrite (entries_split agent request). set_solver.
    + rewrite K2 in Hk'. injection Hk' as <- <-. rewrite Hn in Hk0. injection Hk0 as <- <-. apply elem_of_app in Hj as [?|[= ->]%list_elem_of_singleton]; [by left|right].
      split_and!; [apply Hs|done|]. cbn. by rewrite (saved_name _ (sl_name _ _ _ _ Hs)).
  - intros n c' l' c l Hk' Hk0 _ H. left. rewrite Hother in Hk'; [congruence|..]; intros [= E _]; by apply (sl_journal _ _ _ _ Hs).
  - intros k c l Hkc. destruct (decide (k = (d, temp))) as [->|N1]; [rewrite K1 in Hkc; injection Hkc as <- <-; set_solver|]. destruct (decide (k = (d, nm))) as [->|N2]; [rewrite K2 in Hkc; injection Hkc as <- <-; set_solver|].
    rewrite Hother in Hkc by done. by eapply (rc_cur _ _ _ _ _ P1).
Qed.
Lemma head_publishable id f : se_Identity (sv_entry v) = Some id -> r_files r !! fi_Identity id = Some f -> filled r v -> publish_ok J (publishable files) r d nm (fi_Identity id).
Proof.
  intros E1 Hf (id' & f' & lt & E1' & _ & Hf' & Hc & _). right; right. exists f. split; [done|]. destruct head_facts as (Hs & _). exists (sv_file v), (sv_dir v). split_and!; try done; [apply Hs|apply Hs|]. congruence.
Qed.
(** The result of [publishBelow]: nothing happened, or the file was installed. *)
Definition swap_result (id : FileIdentity) (x : bool * error) (r' : resources) : Prop :=
  if x.1 then r' = swapped (fi_Identity id) else r' = r /\ failed x.2 = true.
Lemma publishBelow_safe id : se_Identity (sv_entry v) = Some id ->
  safe (publishBelow d temp nm (sf_Overwrite (sv_file v)) (se_Replaced (sv_entry v))) r (swap_result id).
Proof.
  intros E1. pose proof head_facts as (Hs & (ln & Hn & Ho) & Hfill & Ek & Hne & _). pose proof Hfill as (id' & f & lt & E1' & Hk & Hf & _). rewrite E1 in E1'. injection E1' as <-. rewrite Ek in Hk.
  pose proof (pb_inv _ _ _ _ _ Hp) as HI. pose proof (swapped_recoverable (fi_Identity id) ltac:(by rewrite Hf)) as HI'. pose proof (es_temp _ _ (sl_static _ _ _ _ Hs)) as Hv.
  pose proof (head_publishable id f E1 Hf Hfill) as Hpub. destruct (swapped_keys (fi_Identity id) lt ln _ Hk Hn) as [K1 K2]. unfold publishBelow, swapped, target_key in *.
  assert (forall e, failed e = true -> forall e', failed e' = true -> safe (Ret (negb (failed e), e')) r (swap_result id)) as Hbad by (intros e He e' He'; apply safe_ret; [done|]; by rewrite He).
  destruct (se_Replaced (sv_entry v)) as [o|] eqn:Eo; cycle 1.
  { replace (if sf_Overwrite (sv_file v) then @None FileIdentity else None) with (@None FileIdentity) by (by destruct (sf_Overwrite _)). apply safe_bind.
    eapply rule_exclusive; [apply publishable_same|done|exact Hne|exact Hk|exact Hn|by right|intros j [= <-]; exact Hpub| |].
    - intros e He. apply Hbad; [done|]. destruct (Is e ErrExist); [|done]. unfold failure. by destruct (Is e ErrContext).
    - intros j [= <-] _. split; [done|]. apply safe_ret; [done|]. unfold swap_result, swapped. by rewrite Eo. }
  rewrite (sl_overwrite _ _ _ _ Hs) by (by rewrite Eo). destruct (Ho o eq_refl) as (g & Hg & _).
  assert (forall e, failed e = true -> safe (Ret (false, e)) r (swap_result id)) as Hno by (intros e He; apply safe_ret; [done|]; by split).
  assert (forall e, safe (Ret (true, e)) (put_all d [(temp, Some (fi_Identity o)); (nm, Some (fi_Identity id))] r) (swap_result id)) as Hyes by (intros e; apply safe_ret; [done|]; unfold swap_result, swapped; by rewrite Eo).
  apply safe_bind. eapply rule_open; [done|exact Hn|intros e (He & _); by apply Hno, changed_failed|]. cbn [fmap option_fmap option_map]. apply safe_bind.
  eapply inspect_safe; [done|exact Hg|intros e (He & _); apply safe_bind; apply rule_close; [done|intros c _|]; apply Hno, changed_failed; rewrite failed_app, He; done|]. intros s0 _ _ _.
  apply safe_bind. apply rule_close; [done|intros c (Hc & _); destruct c; [done|]; by apply Hno, changed_failed|]. case_bool_decide; [by apply Hno|]. apply safe_bind.
  eapply rule_exchange; [apply publishable_same|done|exact Hne|exact Hk|exact Hn|by right|intros j [= <-]; exact Hpub|intros e He; rewrite He; by apply Hno|].
  intros i' j [= <-] [= <-]. split; [done|]. cbn [failed]. apply safe_bind. eapply rule_open; [done|exact K1|intros e _; apply Hyes|]. cbv beta iota. apply safe_bind.
  destruct (put_all_rest d [(temp, Some (fi_Identity o)); (nm, Some (fi_Identity id))] r) as (ks & Eks).
  eapply inspect_safe; [done|rewrite Eks; exact Hg|intros e _; apply safe_bind; apply rule_close; [done|intros c _|]; apply Hyes|]. intros s1 _ _ _. apply safe_bind. apply rule_close; [done|intros c _|]; apply Hyes.
Qed.
Definition publish_result (id : FileIdentity) (pins : pinmap) (x : bool * error * pinmap) (r' : resources) : Prop :=
  x.2 ⊆ pins /\ if x.1.1 then (x.1.2 = [] /\ r' = settle d (swapped (fi_Identity id))) \/ (x.1.2 <> [] /\ (r' = swapped (fi_Identity id) \/ r' = settle d (swapped (fi_Identity id))))
                else r' = r /\ failed x.1.2 = true.
Lemma Publish_safe id pins temporary : se_Identity (sv_entry v) = Some id -> pins_ok pins r ->
  safe (Publish pins (sv_dir v) temp nm (sf_Overwrite (sv_file v)) temporary (se_Replaced (sv_entry v))) r (publish_result id pins).
Proof.
  intros E1 Hpins. pose proof head_facts as (Hs & (ln & Hn & Ho) & Hfill & Ek & Hne & _). pose proof Hfill as (id' & f & lt & E1' & Hk & Hf & _). rewrite E1 in E1'. injection E1' as <-. rewrite Ek in Hk.
  pose proof (pb_inv _ _ _ _ _ Hp) as HI. pose proof (swapped_recoverable (fi_Identity id) ltac:(by rewrite Hf)) as HI'. destruct (swapped_keys (fi_Identity id) lt ln _ Hk Hn) as [_ K2].
  assert (forall e, failed e = true -> safe (Ret (false, e, pins)) r (publish_result id pins)) as Hno by (intros e He; apply safe_ret; [done|]; by split).
  unfold Publish. apply safe_bind. apply rule_ctx; [done|]. intros e. destruct (failed e) eqn:Ee; [by apply Hno|]. rewrite (es_temp _ _ (sl_static _ _ _ _ Hs)), (sl_name _ _ _ _ Hs), (sl_open _ _ _ _ Hs).
  cbn [negb failed]. apply safe_bind. eapply check_temp_safe; [done|exact Hk|intros j [= <-]; by rewrite Hf|intros e1 He1; by apply Hno|]. intros actual. cbv beta iota. apply safe_bind.
  eapply pinned_safe; [done|done|intros e1 (He1 & _); rewrite He1; by apply Hno|]. cbn [failed]. apply safe_bind. eapply safe_mono; [by apply publishBelow_safe|].
  intros [[] e1] r' _ Hr'; cbn in Hr'; cycle 1.
  { destruct Hr' as [-> He1]. rewrite He1. apply safe_bind, safe_ret; [done|]. by apply Hno. }
  subst r'. apply safe_bind.
  assert (safe (if failed e1 then Ret e1 else let^ r := check_temp d nm temporary in match r with inl e => Ret e | inr _ => act_ (sync_dir d) end) (swapped (fi_Identity id))
    (fun e2 r2 => (e2 = [] /\ r2 = settle d (swapped (fi_Identity id))) \/ (e2 <> [] /\ r2 = swapped (fi_Identity id)))) as Hcheck.
  { destruct (failed e1) eqn:E; [apply safe_ret; [done|]; right; split; [by destruct e1|done]|]. apply safe_bind. eapply check_temp_safe; [done|exact K2| | |].
    - intros j [= <-]. unfold swapped. destruct (put_all_rest d [(temp, fi_Identity <$> se_Replaced (sv_entry v)); (nm, Some (fi_Identity id))] r) as (ks & ->). cbn. by rewrite Hf.
    - intros e2 He2. apply safe_ret; [done|]. right. split; [by destruct e2|done].
    - intros _. apply rule_sync_dir; [done|intros e2 (He2 & _); right; split; [by destruct e2|done]|]. split; [apply settle_recoverable; [apply Hs|done]|by left]. }
  eapply safe_mono; [exact Hcheck|]. intros e2 r2 HI2 Hr2. cbv beta. apply safe_bind. apply releasePin_safe; [done|]. intros e3 pins' Hsub _. apply safe_ret; [done|]. split; [done|]. cbn.
  destruct Hr2 as [[-> ->]|[Hne2 ->]]; [destruct e3; [by left|right; auto]|right]. split; [by destruct e2|by left].
Qed.
End One.

(** ** Publishing all files *)

(** What the caller was told of [v]. *)
Definition told (r : resources) (v : saving) (b : bool) : Prop := if b then published r v else shown r v.
Lemma publishing_apart name r im fin v todo v0 : publishing name r im fin (v :: todo) -> v0 ∈ fin ++ todo ->
  (target_key v0 ∉ [entry_key (sv_entry v); target_key v]) /\ (entry_key (sv_entry v0) ∉ [entry_key (sv_entry v); target_key v]).
Proof.
  intros Hp Hv0. pose proof Hp as [P1 P2 P3 P4 P5 P6 P7 P8 P9]. rewrite Forall_forall in P5.
  assert (forall v0 v1 : saving, slot v0 -> slot v1 -> target_key v0 <> entry_key (sv_entry v1)) as Hcross.
  { intros a b H0 H1 E. pose proof (saved_name _ (sl_name _ _ _ _ H0)) as H. unfold target_key, entry_key in E. injection E as _ E. rewrite E in H. by rewrite (es_temp _ _ (sl_static _ _ _ _ H1)) in H. }
  assert (slot v /\ slot v0) as [Hs Hs0] by (split; apply P5; set_solver).
  split; intros [E|E%list_elem_of_singleton]%elem_of_cons.
  - by apply (Hcross v0 v) in E.
  - rewrite fmap_app, fmap_cons, <- Permutation_middle, <- fmap_app in P6. apply NoDup_cons in P6 as [P6 _]. apply P6. apply list_elem_of_fmap. by exists v0.
  - revert E. eapply (entry_key_other located agent request); [by eapply durable_covers|reflexivity|reflexivity|done].
  - symmetry in E. by apply (Hcross v v0) in E.
Qed.
Lemma publishing_next name r im fin v todo id : publishing name r im fin (v :: todo) -> se_Identity (sv_entry v) = Some id -> let r' := settle (dr_id (sv_dir v)) (swapped r v (fi_Identity id)) in
  inv r' -> publishing name r' im (fin ++ [v]) todo /\ steady r r' [entry_key (sv_entry v); target_key v].
Proof.
  intros Hp E1 r' HI'. pose proof (head_facts _ _ _ _ _ _ Hp) as (Hs & (ln & Hn & _) & (id' & f & lt & E1' & Hk & Hf & Hc & _) & Ek & Hne & Et). rewrite E1 in E1'. injection E1' as <-. rewrite Ek in Hk.
  assert (steady r r' [entry_key (sv_entry v); target_key v]) as Hst.
  { rewrite Ek, Et. rewrite <- (app_nil_r [_; _]). eapply (steady_trans _ _ _ _ []); [by eapply swapped_steady|]. apply steady_settle. apply Hs. }
  split; [|done]. destruct (swapped_keys _ _ _ _ _ _ Hp (fi_Identity id) lt ln _ Hk Hn) as [_ K2]. pose proof Hp as [P1 P2 P3 P4 P5 P6 P7 P8 P9].
  assert ((fin ++ [v]) ++ todo = fin ++ v :: todo) as El by (by rewrite <- app_assoc). rewrite Forall_forall in P5.
  assert (forall v0, v0 ∈ fin ++ todo -> target_key v0 ∉ [entry_key (sv_entry v); target_key v]) as Hk1 by (intros; by eapply publishing_apart).
  assert (forall v0, v0 ∈ fin ++ todo -> entry_key (sv_entry v0) ∉ [entry_key (sv_entry v); target_key v]) as Hk2 by (intros; by eapply publishing_apart).
  rewrite Forall_forall in P7, P8, P9. split; rewrite ?El; try done.
  - destruct (sd_keys _ _ _ Hst (J, name) _ _ ltac:(rewrite Ek, Et; intros [[= E _]|[= E _]%list_elem_of_singleton]%elem_of_cons; by apply (sl_journal _ _ _ _ Hs)) P3) as (l' & Hl' & [->|[? _]]); done.
  - by apply Forall_forall.
  - apply Forall_app. split; [apply Forall_forall; intros v0 Hv0; eapply published_steady; [exact Hst|apply Hk1; set_solver|auto]|]. constructor; [|constructor]. exists (fi_Identity id), f.
    split_and!; [rewrite Et; by eapply settle_in| |done]. destruct (sd_files _ _ _ Hst) as [-> _]. done.
  - apply Forall_forall. intros v0 Hv0. eapply target_steady; [exact Hst|apply Hk1; set_solver|apply P8; set_solver].
  - apply Forall_forall. intros v0 Hv0. eapply filled_steady; [exact Hst|apply Hk2; set_solver|apply P9; set_solver].
Qed.
(** The same files, and the same journal. *)
Record quiet (r r' : resources) : Prop := {
  qt_files : r_files r' = r_files r /\ r_new r' = r_new r;
  qt_rest : r_dirs r' = r_dirs r /\ r_euid r' = r_euid r /\ r_reserved r' = r_reserved r /\ r_active r' = r_active r /\ r_store r' = r_store r /\ r_plan r' = r_plan r;
  qt_dom : forall k, is_Some (r_keys r' !! k) <-> is_Some (r_keys r !! k);
  qt_journal : forall n, r_keys r' !! (J, n) = r_keys r !! (J, n)
}.
Lemma steps_refl r : quiet r r.
Proof. by split. Qed.
Lemma quiet_trans r1 r2 r3 : quiet r1 r2 -> quiet r2 r3 -> quiet r1 r3.
Proof.
  intros [[A1 A1'] (A2 & A3 & A4 & A5 & A6 & A6') A7 A8] [[B1 B1'] (B2 & B3 & B4 & B5 & B6 & B6') B7 B8]. split; [split; congruence|split_and!; congruence|intros k; by rewrite B7, A7|intros n; by rewrite B8, A8].
Qed.
Lemma steady_quiet r r' ks : (forall k, k ∈ ks -> k.1 <> J) -> steady r r' ks -> quiet r r'.
Proof.
  intros Hks [S1 S2 S3 S4]. split; try done. intros n. destruct (r_keys r !! (J, n)) as [[c l]|] eqn:E.
  - destruct (S4 (J, n) c l) as (l' & -> & [->|[? _]]); try done. intros H. by apply Hks in H.
  - apply eq_None_not_Some. rewrite S3, E. by intros [].
Qed.
(** How publication ends: [installed] is what the caller was told of the files [a], and the others are as before. *)
Record announced (l : list saving) (e : error) (installed : list bool) (r : resources) : Prop := {
  an_split : exists a b, l = a ++ b /\ Forall2 (told r) a installed /\ Forall (target r) b /\ (e = [] -> b = [] /\ Forall (eq true) installed)
}.
Lemma published_told r l : Forall (published r) l -> Forall2 (told r) l (replicate (length l) true).
Proof. induction 1; constructor; done. Qed.
Lemma published_shown r v : published r v -> shown r v.
Proof. intros (i & f & H1 & H2). by exists i, f, [Some i]. Qed.
Lemma failed_publish name r im fin v todo id r' : publishing name r im fin (v :: todo) -> se_Identity (sv_entry v) = Some id ->
  r' = swapped r v (fi_Identity id) \/ r' = settle (dr_id (sv_dir v)) (swapped r v (fi_Identity id)) -> inv (settle (dr_id (sv_dir v)) (swapped r v (fi_Identity id))) ->
  quiet r r' /\ forall e, e <> [] -> announced (fin ++ v :: todo) e (replicate (length fin) true ++ [false]) r'.
Proof.
  intros Hp E1 Hr' HI'. destruct (publishing_next _ _ _ _ _ _ _ Hp E1 HI') as [Hp' Hst']. pose proof (head_facts _ _ _ _ _ _ Hp) as (Hs & (ln & Hn & _) & (id' & f & lt & E1' & Hk & Hf & Hc & _) & Ek & Hne & Et).
  rewrite E1 in E1'. injection E1' as <-. rewrite Ek in Hk. destruct (swapped_keys _ _ _ _ _ _ Hp (fi_Identity id) lt ln _ Hk Hn) as [_ K2].
  assert (steady r r' [entry_key (sv_entry v); target_key v]) as Hst by (destruct Hr' as [-> | ->]; [rewrite Ek, Et; by eapply swapped_steady|done]).
  assert (forall k, k ∈ [entry_key (sv_entry v); target_key v] -> k.1 <> J) as HkJ by (rewrite Ek, Et; intros k [->| ->%list_elem_of_singleton]%elem_of_cons; apply Hs).
  split; [by eapply steady_quiet|]. intros e He. split. exists (fin ++ [v]), todo. split_and!; [by rewrite <- app_assoc| | |done].
  - pose proof (pb_fin _ _ _ _ _ Hp) as Hfin. apply Forall2_app; [apply published_told|constructor; [|constructor]].
    + rewrite Forall_forall in *. intros v0 Hv0. eapply published_steady; [exact Hst| |auto]. eapply publishing_apart; [done|set_solver].
    + destruct Hr' as [-> | ->]; [|by apply published_shown; apply pb_fin, Forall_app in Hp' as [_ Hp']; apply Forall_cons in Hp' as [? _]]. exists (fi_Identity id), f, (ln ++ [Some (fi_Identity id)]).
      rewrite Et. split_and!; [done| |done]. by rewrite (proj1 (sd_files _ _ _ Hst)).
  - pose proof (pb_targets _ _ _ _ _ Hp) as Ht. apply Forall_cons in Ht as [_ Ht]. rewrite Forall_forall in *. intros v0 Hv0. eapply target_steady; [exact Hst| |auto]. eapply publishing_apart; [done|set_solver].
Qed.
Lemma publish_files_safe name todo : forall fin pins r im, publishing name r im fin todo -> pins_ok pins r ->
  safe (publish_files todo pins (replicate (length fin) true)) r (fun x r' => quiet r r' /\ pins_ok x.1.2 r' /\ announced (fin ++ todo) x.1.1 x.2 r').
Proof.
  induction todo as [|v todo IH]; intros fin pins r im Hp Hpins; pose proof (pb_inv _ _ _ _ _ Hp) as HI; cbn [publish_files].
  { apply safe_ret; [done|]. split_and!; [apply steps_refl|done|]. cbn. split. exists fin, []. rewrite app_nil_r. split_and!; [done|apply published_told, Hp|done|]. intros _. split; [done|]. by apply Forall_replicate. }
  assert (forall e, failed e = true -> safe (Ret (e, pins, replicate (length fin) true)) r (fun x r' => quiet r r' /\ pins_ok x.1.2 r' /\ announced (fin ++ v :: todo) x.1.1 x.2 r')) as Hstop.
  { intros e He. apply safe_ret; [done|]. split_and!; [apply steps_refl|done|]. cbn. split. exists fin, (v :: todo). split_and!; [done|apply published_told, Hp|apply Hp|by intros ->]. }
  apply safe_bind. apply rule_ctx; [done|]. intros e. destruct (failed e) eqn:Ee; [by apply Hstop|]. clear e Ee.
  pose proof (head_facts _ _ _ _ _ _ Hp) as (Hs & _ & (id & f & lt & E1 & Hk & Hf & _) & _). rewrite E1. apply safe_bind. eapply safe_mono; [by eapply Publish_safe|].
  assert (inv (settle (dr_id (sv_dir v)) (swapped r v (fi_Identity id)))) as HI' by (apply settle_recoverable; [apply Hs|]; eapply swapped_recoverable; [exact Hp|by rewrite Hf]).
  intros [[did e] pins'] r' HIr' [Hsub Hres]. cbn in Hsub, Hres. destruct did; cycle 1.
  { destruct Hres as [-> He]. rewrite He. apply safe_ret; [done|]. split_and!; [apply steps_refl|intros k i Hki; eapply Hpins, lookup_weaken; done|]. cbn. split. exists fin, (v :: todo).
    split_and!; [done|apply published_told, Hp|apply Hp|by intros ->]. }
  assert (quiet r r' -> pins_ok pins' r') as Hpins' by (intros [[Q1 _] _ _ _] k i Hki; rewrite Q1; eapply Hpins, lookup_weaken; done).
  destruct Hres as [[-> ->]|[Hne Hr']].
  - cbn [failed negb]. destruct (publishing_next _ _ _ _ _ _ _ Hp E1 HI') as [Hp' Hst]. assert (quiet r (settle (dr_id (sv_dir v)) (swapped r v (fi_Identity id)))) as Hq.
    { eapply failed_publish; [done|done|by right|done]. }
    replace (replicate (length fin) true ++ [true]) with (replicate (length (fin ++ [v])) true) by (rewrite length_app; cbn; by rewrite Nat.add_1_r, replicate_S_end).
    eapply safe_mono; [eapply IH; [exact Hp'|by apply Hpins']|]. intros [[e pins2] inst] r2 _ (Q & P & A). cbn in *. rewrite <- app_assoc in A. split_and!; try done. by eapply quiet_trans.
  - destruct (failed_publish _ _ _ _ _ _ _ r' Hp E1 Hr' HI') as [Hq Ha]. replace (failed e) with true by (by destruct e). cbn [negb]. apply safe_ret; [done|]. cbn. split_and!; auto.
Qed.
End Publication.
