(* ===== verification/SaveRemoval.v ===== *)
(** * Removing temporary files
    The loop that a save runs at its end and the recovery after a restart. *)
From Stdlib Require Import ZArith Lia.
From stdpp Require Import base gmap sets list option strings.
From coqutil Require Import Datatypes.RecordSettersUsingExistingGetters.
From S2P Require Import Prelude Utf8 Strconv Json JsonText GoStrings InputValue ArtifactStore HostFs SaveFiles SaveManifest SaveJournal SaveLogic SaveCalls.
Local Open Scope Z_scope.
#[global] Arguments const {E} newValue / _.
#[local] Arguments safe : simpl never.
#[local] Arguments prog_bind : simpl never.
#[local] Arguments put_all : simpl never.

Section Removal.
Context (J : Identity) (calm : bool) (located : bytes -> Identity -> Prop) (opts : Options) (publishable : Identity -> bytes -> file -> Prop) (I : resources -> Prop).
Context (Hpub : forall d n f f', same f f' -> publishable d n f -> publishable d n f').
Context (Hput : forall r d n, I r -> is_Some (r_keys r !! (d, n)) -> validTempName n = true -> I (put d (n, None) r)).
Context (Hsettle : forall r d, d <> J -> I r -> I (settle d r)).
Context (Hknown : forall r d n i l, I r -> validTempName n = true -> r_keys r !! (d, n) = Some (Some i, l) -> is_Some (r_files r !! i)).
Local Abbreviation safe := (safe J calm located opts publishable I).

(** Temporary names may go, others stay as they are or are settled. *)
Definition clears (k : key) (x y : option Identity * list (option Identity)) : Prop :=
  (y.1 = x.1 \/ validTempName k.2 = true /\ y.1 = None) /\ (validTempName k.2 = false -> y.2 = x.2 \/ k.1 <> J /\ y.2 = [x.1]) /\ (x = (None, [None]) -> y = (None, [None])).
Record clearing (r r' : resources) : Prop := {
  cl_files : r_files r' = r_files r /\ r_new r' = r_new r;
  cl_rest : r_dirs r' = r_dirs r /\ r_euid r' = r_euid r /\ r_reserved r' = r_reserved r /\ r_active r' = r_active r /\ r_store r' = r_store r /\ r_plan r' = r_plan r;
  cl_dom : forall k, is_Some (r_keys r' !! k) <-> is_Some (r_keys r !! k);
  cl_keys : forall k x y, r_keys r !! k = Some x -> r_keys r' !! k = Some y -> clears k x y
}.
Lemma clearing_refl r : clearing r r.
Proof. split; try done. intros k x y Hx Hy. simplify_eq. split_and!; auto. Qed.
Lemma clearing_trans r1 r2 r3 : clearing r1 r2 -> clearing r2 r3 -> clearing r1 r3.
Proof.
  intros [[A1 A1'] (A2 & A3 & A4 & A5 & A6 & A6') A7 A8] [[B1 B1'] (B2 & B3 & B4 & B5 & B6 & B6') B7 B8]. split; [split; congruence|split_and!; congruence|intros k; by rewrite B7, A7|].
  intros k x z Hx Hz. destruct (proj2 (A7 k)) as [y Hy]; [by rewrite Hx|]. destruct (A8 k x y Hx Hy) as (C1 & C2 & C3), (B8 k y z Hy Hz) as (D1 & D2 & D3). split_and!; [destruct D1 as [->|?]; [exact C1|by right]| |auto].
  intros Hv. destruct (C2 Hv) as [E2|[? E2]], (D2 Hv) as [F2|[? F2]]; rewrite ?F2, ?E2; auto; right; (split; [done|]); f_equal; destruct C1 as [?|[? _]]; congruence.
Qed.
Lemma clearing_settle d r : d <> J -> clearing r (settle d r).
Proof.
  intros Hd. split; try done; [intros k; by rewrite settle_lookup, fmap_is_Some|]. intros [d' n] [c l] y Hx Hy. destruct (decide (d' = d)) as [->|Hne].
  - rewrite (settle_in _ _ _ _ _ Hx) in Hy. injection Hy as <-. split_and!; cbn; [by left|by right|by intros [= -> ->]].
  - rewrite settle_out in Hy by done. simplify_eq. split_and!; auto.
Qed.
Lemma clearing_put d n r i l : validTempName n = true -> r_keys r !! (d, n) = Some (Some i, l) -> clearing r (put d (n, None) r).
Proof.
  intros Hn Hk. pose proof (put_all_dom d [(n, None)] r) as Hdom. pose proof (put_all_other d [(n, None)] r) as Ho. split; try done. intros [d' n'] x y Hx Hy.
  destruct (decide ((d', n') = (d, n))) as [E|Hne].
  - injection E as -> ->. rewrite Hk in Hx. injection Hx as <-. pose proof (put_all_key d [(n, None)] r n None (Some i, l) (NoDup_singleton _) ltac:(left) Hk) as Hk'. change (put_all d [(n, None)] r) with (put d (n, None) r) in Hk'.
    rewrite Hk' in Hy. injection Hy as <-. split_and!; cbn; [by right|by rewrite Hn|done].
  - assert (r_keys (put d (n, None) r) !! (d', n') = r_keys r !! (d', n')) as E by (apply (Ho d' n'); intros -> ->%list_elem_of_singleton; done). rewrite E in Hy. simplify_eq. split_and!; auto.
Qed.
Definition gone (r : resources) (k : key) : Prop := r_keys r !! k = Some (None, [None]).
Lemma gone_clearing r r' k : clearing r r' -> gone r k -> gone r' k.
Proof. intros [_ _ A3 A4] Hg. destruct (proj2 (A3 k)) as [y Hy]; [by rewrite Hg|]. destruct (A4 k _ y Hg Hy) as (_ & _ & E). unfold gone. by rewrite Hy, E. Qed.

Definition removal_key (p : Directory * saveEntry) : key := (dr_id p.1, se_Temp p.2).
(** The file that is there may be removed. *)
Definition removal_known (r : resources) (p : Directory * saveEntry) : Prop :=
  dr_open p.1 = true /\ forall i l f, r_keys r !! removal_key p = Some (Some i, l) -> r_files r !! i = Some f -> removal_ok (r_euid r) f i (temp_ids p.2) (unidentified p.2).
Lemma removal_known_clearing r r' p : clearing r r' -> removal_known r p -> removal_known r' p.
Proof.
  intros [[A1 _] (_ & A2 & _) A3 A4] [H1 H2]. split; [done|]. intros i l f Hk Hf. rewrite A1 in Hf. rewrite A2. destruct (proj1 (A3 (removal_key p))) as [[c l0] Hk0]; [by rewrite Hk|].
  destruct (A4 _ _ _ Hk0 Hk) as ([E|[_ E]] & _); [|done]. cbn in E. subst. eauto.
Qed.
Definition removed (l : list (Directory * saveEntry)) (r : resources) (e : error) (pins' : pinmap) (r' : resources) : Prop :=
  clearing r r' /\ (e = [] -> forall p, p ∈ l -> gone r' (removal_key p)) /\ (calm = true -> Forall (removal_known r) l -> e = []).
Lemma remove_temps_safe l : forall pins r, I r -> pins_ok pins r -> Forall (fun p => is_Some (r_keys r !! removal_key p) /\ validTempName (se_Temp p.2) = true /\ dr_id p.1 <> J) l -> (calm = true -> pins = ∅) ->
  safe (remove_temps l pins) r (fun x r' => pins_ok x.2 r' /\ removed l r x.1 x.2 r').
Proof.
  induction l as [|[d v] l IH]; intros pins r HI Hpins Hl Hcalm; cbn [remove_temps].
  { apply safe_ret; [done|]. split; [done|]. cbn [fst snd]. split_and!; [apply clearing_refl|by intros _ p ?%not_elem_of_nil|done]. }
  apply Forall_cons in Hl as [([[c lt] Hk] & Hv & Hd) Hl]. cbn in Hv, Hd. unfold removal_key in Hk. cbn in Hk. apply safe_bind.
  eapply RemoveTemp_safe; [exact Hpub|done|exact Hk|intros i ->; by eapply Hknown|done|done|intros _; apply Hput; [done|by rewrite Hk|done]|].
  intros e pins' r' Hsub Hr' Hc. assert (I r' /\ clearing r r' /\ (e = [] -> exists l', r_keys r' !! (dr_id d, se_Temp v) = Some (None, l'))) as (HI' & Hcl & Hgone).
  { destruct Hr' as [[-> He]|[[i ->] ->]].
    - split_and!; [done|apply clearing_refl|]. intros E. rewrite (He E) in Hk. eauto.
    - split_and!; [apply Hput; [done|by rewrite Hk|done]|by eapply clearing_put|]. intros _. eexists. by apply (put_all_key (dr_id d) [(se_Temp v, None)] r (se_Temp v) None _ (NoDup_singleton _) ltac:(left) Hk). }
  assert (pins_ok pins' r') as Hpins' by (intros k i Hi; destruct Hcl as [[-> _] _ _ _]; eapply Hpins, lookup_weaken; done).
  destruct (failed e) eqn:Ee.
  { apply safe_ret; [done|]. split; [done|]. cbn [fst snd]. split_and!; [done|by intros ->|]. cbn. intros Hcm Hkn. apply Forall_cons in Hkn as [[Ho Hkn] _]. apply Hc; [done|done|auto|]. intros i f -> Hf. by eapply Hkn. }
  destruct e; [|done]. destruct (Hgone eq_refl) as (lt' & Hk'). apply safe_bind. unfold Sync. destruct (dr_open d) eqn:Eo; cbn [negb]; cycle 1.
  { apply safe_ret; [done|]. apply safe_ret; [done|]. split; [done|]. cbn [fst snd]. split_and!; [done|done|]. intros _ Hkn. apply Forall_cons in Hkn as [[Ho _] _]. cbn in Ho. congruence. }
  apply rule_sync_dir; [done| |].
  { intros e (He & _ & _ & Hcm). rewrite He. apply safe_ret; [done|]. split; [done|]. cbn [fst snd]. split_and!; [done|by intros ->|congruence]. }
  split; [by apply Hsettle|]. cbn [failed]. pose proof (clearing_settle (dr_id d) r' Hd) as Hcs. assert (clearing r (settle (dr_id d) r')) as Hcl2 by by eapply clearing_trans.
  eapply safe_mono; [eapply IH; [by apply Hsettle|by intros k i Hi; apply (Hpins' k i Hi)| |]|].
  - eapply Forall_impl; [exact Hl|]. intros p (H1 & H2 & H3). split_and!; try done. by apply (cl_dom _ _ Hcl2).
  - intros E. specialize (Hcalm E). subst pins. apply map_empty. intros k. destruct (pins' !! k) eqn:Ek; [|done]. eapply lookup_weaken in Ek; [|exact Hsub]. done.
  - intros [e pins2] r2 _ (Hp2 & C1 & C2 & C3). cbn in *. split; [done|]. cbn [fst snd]. split_and!; [by eapply clearing_trans| |].
    + intros E p [->|Hp]%elem_of_cons; [|auto]. eapply gone_clearing; [exact C1|]. unfold gone, removal_key. cbn. by eapply settle_in.
    + intros Hcm Hkn. apply Forall_cons in Hkn as [_ Hkn]. apply C3; [done|]. eapply Forall_impl; [exact Hkn|]. intros p. by apply removal_known_clearing.
Qed.
End Removal.
