(* ===== verification/SaveStore.v ===== *)
(** * Reservations of a save in the artifact store *)
From Stdlib Require Import ZArith Lia.
From stdpp Require Import base gmap sets list option strings.
From coqutil Require Import Datatypes.RecordSettersUsingExistingGetters.
From S2P Require Import Prelude Json GoStrings ArtifactStore ArtifactInvariant HostFs SaveFiles SaveManifest SaveJournal SaveLogic.
Local Open Scope Z_scope.
#[global] Arguments const {E} newValue / _.

(** The invariant of the store gives what a save needs. *)
Lemma inv_store_ok env s : inv env 0 s -> store_ok s.
Proof.
  intros Hi. destruct Hi as [U Q S _ _ R O _ _ _ _ _ _ _ _]. split; [|unfold objects in *; lia|done].
  assert (0 <= msum weight (s_stages s)); [|lia]. apply msum_nonneg. intros k st Hk. destruct (S k st Hk) as [S1 S2 _ _ _ _]. unfold weight. lia.
Qed.
Lemma reserveLocked_cases s n : match reserveLocked s n with
  | (s', Some _) => s' = s
  | (s', None) => s' = s <| s_used ::= Z.add n |> /\ 0 <= n /\ n + s_used s <= QuotaBytes (s_options s)
  end.
Proof. unfold reserveLocked. destruct (available s); [done|]. destruct (_ || _) eqn:E; [done|]. breflect. split_and!; [done|lia|lia]. Qed.
Lemma next_free s : store_ok s -> s_reservations s !! s_next s = None.
Proof. intros [_ _ R]. apply eq_None_not_Some. intros [x Hx]. destruct (R _ _ Hx). lia. Qed.
Lemma Reserve_cases s n : store_ok s -> match Reserve s n with
  | (s', Err _) => s' = s
  | (s', Ok k) => store_ok s' /\ s_options s' = s_options s /\ k = s_next s /\ s_reservations s' = <[k := n]> (s_reservations s) /\ s_used s' = s_used s + n /\
      objects s' = objects s + 1 /\ s_closed s' = s_closed s /\ s_poisoned s' = s_poisoned s /\ 1 <= n
  end.
Proof.
  intros Hok. pose proof (next_free s Hok) as Hn. destruct Hok as [U O R]. unfold Reserve. destruct (Z.ltb_spec n 1); [done|]. destruct (Z.leb_spec (MaxObjects (s_options s)) (objects s)); [done|].
  pose proof (reserveLocked_cases s n) as H1. destruct (reserveLocked s n) as [s1 [e|]]; [done|]. destruct H1 as (-> & _ & Hq). unfold objects in *.
  split_and!; cbn; try done; try lia; [|rewrite map_size_insert_None by done; lia]. split; cbn; unfold objects; cbn.
  - rewrite msum_insert by done. lia.
  - rewrite map_size_insert_None by done. lia.
  - apply map_Forall_insert_2; [lia|]. intros r m Hr. destruct (R r m Hr). lia.
Qed.
(** A reservation within the limits is granted. *)
Lemma Reserve_ok s n : s_closed s = false -> s_poisoned s = false -> 1 <= n -> n + s_used s <= QuotaBytes (s_options s) -> objects s < MaxObjects (s_options s) -> exists k, (Reserve s n).2 = Ok k.
Proof.
  intros Hc Hp Hn Hq Ho. unfold Reserve, reserveLocked, available. rewrite Hc, Hp. destruct (Z.ltb_spec n 1); [lia|]. destruct (Z.leb_spec (MaxObjects (s_options s)) (objects s)); [lia|].
  destruct (Z.ltb_spec n 0); [lia|]. destruct (Z.ltb_spec (QuotaBytes (s_options s) - s_used s) n); [lia|]. cbn. eauto.
Qed.
Lemma Release_cases s k n : store_ok s -> s_reservations s !! k = Some n ->
  store_ok (Release s k) /\ s_options (Release s k) = s_options s /\ s_reservations (Release s k) = delete k (s_reservations s).
Proof.
  intros [U O R] Hk. unfold Release. rewrite Hk. split_and!; [|done|done]. pose proof (R k n Hk) as [Hn _]. split; cbn; unfold objects in *; cbn.
  - rewrite (msum_delete _ _ _ _ Hk). lia.
  - rewrite map_size_delete_Some by eauto. lia.
  - by apply map_Forall_delete.
Qed.
Lemma retain_same s k n : s_reservations s !! k = Some n -> (retain k n s).1 = s <| s_poisoned := true |>.
Proof. intros Hk. unfold retain. rewrite Hk, Z.ltb_irrefl. done. Qed.
