(* ===== verification/SaveFinish.v ===== *)
(** * The end of a save: removing what is left over *)
From Stdlib Require Import ZArith Lia.
From stdpp Require Import base gmap sets list option strings.
From coqutil Require Import Datatypes.RecordSettersUsingExistingGetters.
From S2P Require Import Prelude Utf8 Sha256 Strconv Json JsonText JsonReads GoStrings InputValue ArtifactStore HostFs SaveFiles SaveManifest SaveJournal SaveLogic SaveNames SaveInvariant SavePersist SaveCalls SaveTemps SavePublish SaveRemoval SaveStore.
Local Open Scope Z_scope.
#[global] Arguments const {E} newValue / _.
#[local] Arguments draft_of : simpl never.
#[local] Arguments lit : simpl never.
#[local] Arguments safe : simpl never.
#[local] Arguments prog_bind : simpl never.
#[local] Arguments put_all : simpl never.

Section Finish.
Context (J : Identity) (calm : bool) (located : bytes -> Identity -> Prop) (opts : Options) (agent request : bytes) (files : list SaveFile).
Local Abbreviation inv := (recoverable J located agent request).
Local Abbreviation safe := (safe J calm located opts (publishable files) inv).
Local Abbreviation slot := (slot J located files).
Local Abbreviation clearing := (clearing J).

(** No temporary file can be left by a crash. *)
Definition no_temps (r : resources) : Prop := forall d n c l i, r_keys r !! (d, n) = Some (c, l) -> validTempName n = true -> Some i ∉ l.
Lemma put_other d n v r k : k <> (d, n) -> r_keys (put d (n, v) r) !! k = r_keys r !! k.
Proof. intros H. cbn. by rewrite lookup_alter_ne. Qed.
Lemma put_here d n v r c l : r_keys r !! (d, n) = Some (c, l) -> r_keys (put d (n, v) r) !! (d, n) = Some (v, l ++ [v]).
Proof. intros H. cbn. by rewrite lookup_alter_eq, H. Qed.
Lemma put_none_recoverable d n r : (d = J -> manifestName n = true -> no_temps r) -> inv r -> inv (put d (n, None) r).
Proof.
  intros Hno Hr. destruct (r_keys r !! (d, n)) as [[c0 l0]|] eqn:E; cycle 1.
  { replace (put d (n, None) r) with r; [done|]. unfold put. cbn. symmetry. change (r <| r_keys := alter (fun cl : option Identity * list (option Identity) => (None, cl.2 ++ [None])) (d, n) (r_keys r) |> = r).
    rewrite alter_id; [by destruct r|]. intros x. by rewrite E. }
  pose proof (put_here d n None r c0 l0 E) as K. pose proof (put_all_dom d [(n, None)] r) as Hdom. change (put_all d [(n, None)] r) with (put d (n, None) r) in Hdom.
  assert (forall k c' l' c l, r_keys (put d (n, None) r) !! k = Some (c', l') -> r_keys r !! k = Some (c, l) -> l' = l /\ c' = c \/ k = (d, n) /\ l' = l ++ [None] /\ c' = None) as Hk.
  { intros k c' l' c l H1 H2. destruct (decide (k = (d, n))) as [->|Hne]; [right|left; rewrite put_other in H1 by done; split; congruence]. rewrite K in H1. rewrite E in H2. by simplify_eq. }
  apply (recoverable_lists J located agent request r); try done.
  - intros k c' l' c l i H1 H2 Hi. left. destruct (Hk _ _ _ _ _ H1 H2) as [[-> _]|(_ & -> & _)]; [done|]. apply elem_of_app in Hi as [?|?%list_elem_of_singleton]; done.
  - intros n' c' l' c l H1 H2 Hm Hin. destruct (Hk _ _ _ _ _ H1 H2) as [[-> _]|([= <- <-] & _)]; [by left|right]. intros d1 n1 c1 l1 i H3 Hv. destruct (proj1 (Hdom (d1, n1))) as [[c2 l2] H4]; [by rewrite H3|].
    destruct (Hk _ _ _ _ _ H3 H4) as [[-> _]|([= -> ->] & _)]; [by apply (Hno eq_refl Hm d1 n1 c2 l2)|]. apply temp_not_journal in Hv as [? _]. congruence.
  - intros k c' l' H1. destruct (proj1 (Hdom k)) as [[c l] H2]; [by rewrite H1|]. destruct (Hk _ _ _ _ _ H1 H2) as [[-> ->]|(_ & -> & ->)]; [by eapply (rc_cur _ _ _ _ _ Hr)|set_solver].
Qed.
Lemma settle_journal_recoverable r : no_temps r -> inv r -> inv (settle J r).
Proof.
  intros Hno Hr. assert (forall k, is_Some (r_keys (settle J r) !! k) <-> is_Some (r_keys r !! k)) as Hdom by (intros k; by rewrite settle_lookup, fmap_is_Some).
  assert (forall k c' l' c l, r_keys (settle J r) !! k = Some (c', l') -> r_keys r !! k = Some (c, l) -> c' = c /\ (l' = l \/ k.1 = J /\ l' = [c])) as Hk.
  { intros [d n] c' l' c l H1 H2. destruct (decide (d = J)) as [->|Hne]; [rewrite (settle_in _ _ _ _ _ H2) in H1|rewrite settle_out in H1 by done]; simplify_eq; auto. }
  apply (recoverable_lists J located agent request r); try done.
  - intros k c' l' c l i H1 H2 Hi. left. destruct (Hk _ _ _ _ _ H1 H2) as [-> [->|[_ ->]]]; [done|]. apply list_elem_of_singleton in Hi as ->. by eapply (rc_cur _ _ _ _ _ Hr).
  - intros n c' l' c l _ _ _ _. right. intros d1 n1 c1 l1 i H3 Hv. destruct (proj1 (Hdom (d1, n1))) as [[c2 l2] H4]; [by rewrite H3|]. destruct (Hk _ _ _ _ _ H3 H4) as [-> [->|[E ->]]]; [by eapply Hno|].
    cbn in E. subst d1. intros Hin. apply list_elem_of_singleton in Hin. subst c2. by eapply (Hno J n1 _ _ i H4 Hv), (rc_cur _ _ _ _ _ Hr).
  - intros k c' l' H1. destruct (proj1 (Hdom k)) as [[c l] H2]; [by rewrite H1|]. destruct (Hk _ _ _ _ _ H1 H2) as [-> [->|[_ ->]]]; [by eapply (rc_cur _ _ _ _ _ Hr)|left].
Qed.

(** ** [cleanup] *)

Definition temps_of (l : list saving) (r : resources) : Prop := forall d n, is_Some (r_keys r !! (d, n)) -> validTempName n = true -> (d, n) ∈ (entry_key ∘ sv_entry) <$> l.
(** After [cleanup]: nothing is left when it succeeded. *)
Record cleaned (name : bytes) (l : list saving) (r : resources) (e : error) (r' : resources) : Prop := {
  ce_files : r_files r' = r_files r /\ r_new r' = r_new r;
  ce_rest : r_dirs r' = r_dirs r /\ r_euid r' = r_euid r /\ r_reserved r' = r_reserved r /\ r_active r' = r_active r /\ r_store r' = r_store r /\ r_plan r' = r_plan r;
  ce_dom : forall k, is_Some (r_keys r' !! k) <-> is_Some (r_keys r !! k);
  ce_keys : forall k x y, k.1 <> J -> r_keys r !! k = Some x -> r_keys r' !! k = Some y -> clears J k x y;
  ce_done : e = [] -> no_temps r' /\ gone r' (J, name) /\ gone r' (J, draft_of name)
}.
Lemma clearing_cleaned name l r e r' : clearing r r' -> e <> [] -> cleaned name l r e r'.
Proof. intros [A1 A2 A3 A4] He. split; try done. intros k x y _. apply A4. Qed.
Lemma gone_no_temps l r : temps_of l r -> (forall v, v ∈ l -> gone r (entry_key (sv_entry v))) -> no_temps r.
Proof.
  intros Ht Hg d n c l0 i Hk Hv Hi. assert ((d, n) ∈ (entry_key ∘ sv_entry) <$> l) as (v & E & Hin)%list_elem_of_fmap by (apply Ht; [by rewrite Hk|done]).
  specialize (Hg v Hin). cbn in E. rewrite <- E in Hg. unfold gone in Hg. rewrite Hk in Hg. injection Hg as _ ->. by apply list_elem_of_singleton in Hi.
Qed.
Lemma cleanup_safe name err l pins r : calm = false -> inv r -> pins_ok pins r -> manifestName name = true -> Forall slot l -> Forall (fun v => is_Some (r_keys r !! entry_key (sv_entry v))) l -> temps_of l r ->
  is_Some (r_keys r !! (J, name)) -> draft_gone_or J name err r -> safe (cleanup J name err l pins) r (cleaned name l r).
Proof.
  intros Hcalm Hr Hpins Hname Hs Hk Ht Hj Hd. unfold cleanup. apply safe_bind. eapply safe_mono.
  { apply (remove_temps_safe J calm located opts (publishable files) inv); [apply publishable_same|..|done|done| |by rewrite Hcalm].
    - intros r0 d n H0 _ Hv. apply put_none_recoverable; [|done]. intros _ Hm. apply temp_not_journal in Hv as [? _]. congruence.
    - intros r0 d. apply settle_recoverable.
    - intros r0 d n i l0 H0 _ H1. eapply (rc_known _ _ _ _ _ H0); [exact H1|]. by eapply (rc_cur _ _ _ _ _ H0).
    - rewrite Forall_forall in Hs, Hk. apply Forall_forall. intros p (v & -> & Hv)%list_elem_of_fmap. specialize (Hs v Hv). specialize (Hk v Hv). unfold removal_key, entry_key in *. cbn. rewrite <- (sl_id _ _ _ _ Hs).
      split_and!; [done|apply Hs|rewrite (sl_id _ _ _ _ Hs); apply Hs]. }
  intros [e pins1] r1 Hr1 (_ & Hcl & Hgone & _). cbn in Hcl, Hgone. cbv beta iota.
  destruct (failed e) eqn:Ee; [apply safe_ret; [done|]; apply clearing_cleaned; [done|by destruct e]|]. destruct e; [|done].
  assert (forall n, validTempName n = false -> forall c l0, r_keys r !! (J, n) = Some (c, l0) -> r_keys r1 !! (J, n) = Some (c, l0)) as HJ.
  { intros n Hn c l0 H0. destruct (proj2 (cl_dom _ _ _ Hcl (J, n))) as [[c' l'] H1]; [by rewrite H0|]. destruct (cl_keys _ _ _ Hcl _ _ _ H0 H1) as ([E|[? _]] & F & _); [|cbn in *; congruence].
    destruct (F Hn) as [F'|[? _]]; [|done]. cbn in *. by subst. }
  assert (validTempName name = false /\ validTempName (draft_of name) = false) as [V1 V2].
  { destruct (manifest_name_inv name Hname) as [Hh En]. split; (eapply name_not_temp; [exact Hh|]); [by left|by right]. }
  assert (no_temps r1) as Hno.
  { apply (gone_no_temps l); [intros d n H1; apply Ht; by apply (cl_dom _ _ _ Hcl)|]. intros v Hv. rewrite Forall_forall in Hs. specialize (Hs v Hv). unfold entry_key. rewrite (sl_id _ _ _ _ Hs).
    apply (Hgone eq_refl (sv_dir v, sv_entry v)). apply list_elem_of_fmap. eauto. }
  destruct (Is err ErrDraftCleanup) eqn:Ed; [apply safe_ret; [done|]; by apply clearing_cleaned|]. destruct Hd as (cd & ld & Hkd & [->|?]); [|congruence].
  destruct Hj as [[c lm] Hkm]. apply (HJ name V1) in Hkm as Hkm1. apply (HJ _ V2) in Hkd as Hkd1.
  assert (forall e r2, e <> [] -> r2 = r1 \/ r2 = put J (name, None) r1 -> cleaned name l r e r2) as Hbad.
  { intros e r2 He [-> | ->]; [by apply clearing_cleaned|]. destruct Hcl as [A1 A2 A3 A4]. split; try done; [intros k; rewrite <- A3; apply (put_all_dom J [(name, None)] r1)|].
    intros k x y Hkj Hx Hy. apply (A4 k x y Hx). rewrite <- (put_other J name None r1); [done|]. by intros ->. }
  assert (forall r2 l2, r2 = r1 \/ r2 = put J (name, None) r1 -> r_keys r2 !! (J, name) = Some (None, l2) -> inv r2 -> no_temps r2 -> safe (act_ (sync_dir J)) r2 (cleaned name l r)) as Hsync.
  { intros r2 l2 Hr2 H1 HI2 Hno2. apply rule_sync_dir; [done|intros e (He & _); apply Hbad; [by destruct e|done]|]. split; [by apply settle_journal_recoverable|].
    assert (cleaned name l r [ErrOther] r2) as [B1 B2 B3 B4 _] by (by apply Hbad). assert (r_keys r2 !! (J, draft_of name) = Some (None, ld)) as H2.
    { destruct Hr2 as [-> | ->]; [done|]. rewrite put_other; [done|]. intros [= E]. destruct (draft_not_manifest name Hname) as (_ & ? & _). done. }
    split; try done.
    - intros k. by rewrite settle_lookup, fmap_is_Some.
    - intros [d n] x y Hd0 Hx Hy. rewrite settle_out in Hy by done. by apply (B4 (d, n)).
    - intros _. split_and!; [|by eapply settle_in..]. intros d n c' l' i H3 Hv. destruct (decide (d = J)) as [->|Hne]; [|rewrite settle_out in H3 by done; by eapply Hno2].
      rewrite settle_lookup in H3. destruct (r_keys r2 !! (J, n)) as [[c2 l3]|] eqn:E; [|done]. exfalso. by eapply (temp_key_dir _ _ _ _ r2 J n HI2); [rewrite E|..]. }
  apply safe_bind. eapply rule_unlink; [apply publishable_same|done|exact Hkm1|by left| | |].
  - intros e (He & En & _). rewrite He, En. cbn. apply safe_ret; [done|]. apply Hbad; [by destruct e|by left].
  - intros ->. cbn. eapply Hsync; [by left|done..].
  - intros i ->. assert (inv (put J (name, None) r1)) as HI2 by (by apply put_none_recoverable). split; [done|]. cbn [failed andb]. eapply Hsync; [by right|by eapply put_here|done|].
    intros d n c' l' j H3 Hv. rewrite put_other in H3; [by eapply Hno|]. intros [= -> ->]. congruence.
Qed.

(** ** Retaining the reservation *)

Definition plan_of (l : list saving) : list (key * Z) := (fun v => (entry_key (sv_entry v), se_Reserved (sv_entry v))) <$> l.
Definition plan_total (p : list (key * Z)) : Z := foldr (fun x t => x.2 + t) 0 p.
(** The temporary files are no larger than what is reserved for them. *)
Lemma temp_reserved r d n i l f : inv r -> r_keys r !! (d, n) = Some (Some i, l) -> validTempName n = true -> r_files r !! i = Some f ->
  exists t, ((d, n), t) ∈ r_plan r /\ Z.of_nat (length (f_data f)) <= t.
Proof.
  intros Hr Hk Hv Hf. assert (Some i ∈ l) as Hi by (by eapply (rc_cur _ _ _ _ _ Hr)). destruct (rc_temps _ _ _ _ _ Hr d n _ l i Hk Hv Hi) as (n' & c' & l' & Hk' & Hm & Hno).
  pose proof (rc_cur _ _ _ _ _ Hr _ _ _ Hk') as Hc. destruct c' as [x|]; [|done]. destruct (rc_manifest _ _ _ _ _ Hr n' _ l' x Hk' Hm Hc) as (m & _ & Hcov).
  assert ((d, n) ∈ entry_key <$> Entries m) as (e & Ee & He)%list_elem_of_fmap by (by eapply (cv_all _ _ _ _ _ Hcov)). exists (se_Reserved e).
  split; [rewrite <- (cv_plan _ _ _ _ _ Hcov), Ee; apply list_elem_of_fmap; by exists e|]. destruct (cv_entries _ _ _ _ _ Hcov e He) as (Hst & c0 & l0 & Hk0 & Ho).
  rewrite <- Ee, Hk in Hk0. injection Hk0 as <- <-. destruct (Ho i Hi) as (g & Hg & _ & _ & _ & G). rewrite Hf in Hg. injection Hg as <-. pose proof (es_reserved _ _ Hst).
  destruct (se_Identity e); [|destruct G as (-> & _); done]. destruct G as [(_ & _ & _ & ?)|(_ & _ & o & Eo & Hmd)]; [done|].
  pose proof (es_replaced _ _ Hst) as Hrep. rewrite Eo in Hrep. unfold file_identity_valid, MatchesDisplaced in *. cbn in Hmd. breflect. lia.
Qed.
Lemma measure_temps_safe l : forall total r Q, inv r -> Forall slot l -> Forall (fun v => is_Some (r_keys r !! entry_key (sv_entry v))) l -> NoDup (r_plan r).*1 -> plan_of l ⊆ r_plan r ->
  0 <= total -> total + plan_total (plan_of l) <= int64_max -> Q (total + plan_total (plan_of l)) r -> safe (measure_temps l total) r Q.
Proof.
  induction l as [|v l IH]; intros total r Q Hr Hs Hk Hn Hsub Ht Hmax HQ; cbn [measure_temps]; [apply safe_ret; [done|]; by rewrite Z.add_0_r in HQ|].
  apply Forall_cons in Hs as [Hv Hs], Hk as [[[c lt] Hkv] Hk]. assert (0 <= plan_total (plan_of l)) as Hpos.
  { clear -Hs. induction Hs as [|x l Hx _ IH]; [done|]. change (0 <= se_Reserved (sv_entry x) + plan_total (plan_of l)). pose proof (es_reserved _ _ (sl_static _ _ _ _ Hx)). lia. }
  change (plan_total (plan_of (v :: l))) with (se_Reserved (sv_entry v) + plan_total (plan_of l)) in *. pose proof (es_reserved _ _ (sl_static _ _ _ _ Hv)) as Hres.
  assert (safe (if int64_max - total <? se_Reserved (sv_entry v) then Ret int64_max else measure_temps l (total + se_Reserved (sv_entry v))) r Q) as Hnext.
  { destruct (Z.ltb_spec (int64_max - total) (se_Reserved (sv_entry v))); [lia|]. apply IH; try done; [|lia|lia|by rewrite Z.add_assoc in HQ].
    intros x Hx. apply Hsub. cbn. by right. }
  pose proof (sl_id _ _ _ _ Hv) as Eid. unfold entry_key in Hkv. rewrite Eid in Hkv. apply safe_bind.
  eapply Inspect_safe; [done|exact Hkv|intros i ->; eapply (rc_known _ _ _ _ _ Hr); [exact Hkv|by eapply (rc_cur _ _ _ _ _ Hr)]|intros e _; exact Hnext|intros _ _; exact Hnext|].
  intros i f s -> Hf Hss _ _ _ _. cbv beta iota zeta. destruct (temp_reserved r _ _ i lt f Hr Hkv) as (t & Hin & Hlen); [apply Hv|done|].
  assert (t = se_Reserved (sv_entry v)) as ->.
  { assert (((dr_id (sv_dir v), se_Temp (sv_entry v)), se_Reserved (sv_entry v)) ∈ r_plan r) as Hin'. { apply Hsub. cbn. unfold entry_key. rewrite Eid. left. }
    apply list_elem_of_lookup in Hin as [a Ha], Hin' as [b Hb]. assert (a = b) as -> by (eapply (NoDup_lookup _ a b _ Hn); rewrite list_lookup_fmap, ?Ha, ?Hb; done). congruence. }
  pose proof (same_inv _ _ Hss) as (S1 & _). cbn [fi_Size file_identity]. rewrite S1, Z.max_l by done. exact Hnext.
Qed.

(** ** [finish_save] *)

(** A save in progress: what it reserved and planned, and its names. *)
Record in_progress (name : bytes) (k : nat) (l : list saving) (r : resources) : Prop := {
  ip_name : manifestName name = true;
  ip_slots : Forall slot l;
  ip_keys : Forall (fun v => is_Some (r_keys r !! entry_key (sv_entry v))) l;
  ip_temps : temps_of l r;
  ip_manifest : is_Some (r_keys r !! (J, name));
  ip_plan : r_plan r = plan_of l /\ NoDup (plan_of l).*1;
  ip_total : manifestReservation + plan_total (plan_of l) <= int64_max;
  ip_reserved : r_reserved r = Some (k, manifestReservation + plan_total (plan_of l));
  ip_active : r_active r = true;
  ip_shared : r_store r = None
}.
(** At the end of a save: nothing is left when it succeeded; the names of files are as they were. *)
Record finished (l : list saving) (r : resources) (err e : error) (r' : resources) : Prop := {
  fn_files : r_files r' = r_files r /\ r_new r' = r_new r;
  fn_keys : forall k x y, k.1 <> J -> r_keys r !! k = Some x -> r_keys r' !! k = Some y -> clears J k x y;
  fn_dom : forall k, is_Some (r_keys r' !! k) <-> is_Some (r_keys r !! k);
  fn_err : err <> [] -> e <> [];
  fn_idle : e = [] -> idle J r' /\ r_active r' = false /\ r_reserved r' = None
}.
Lemma gone_idle name l r e r' : inv r' -> manifestName name = true -> cleaned name l r e r' -> e = [] -> idle J r'.
Proof.
  intros Hr Hname Hc E. destruct (ce_done _ _ _ _ _ Hc E) as (Hno & G1 & G2). unfold gone in G1, G2. split_and!; [apply Hr| |apply (rc_known _ _ _ _ _ Hr)|apply (rc_cur _ _ _ _ _ Hr)].
  intros d n c l0 i Hk [->|Hv] Hi; [|by eapply Hno]. destruct (decide (n = draft_of name)) as [->|N1]; [rewrite Hk in G2; injection G2 as _ ->; by apply list_elem_of_singleton in Hi|].
  destruct (decide (n = name)) as [->|N2]; [rewrite Hk in G1; injection G1 as _ ->; by apply list_elem_of_singleton in Hi|].
  by rewrite (journal_names J located agent request r' name _ Hr Hname G1 n N1 N2) in Hk.
Qed.
Lemma finish_save_safe name k err l pins r : calm = false -> inv r -> pins_ok pins r -> in_progress name k l r -> draft_gone_or J name err r ->
  safe (finish_save J name k err l pins) r (finished l r err).
Proof.
  intros Hcalm Hr Hpins [P1 P2 P3 P4 P5 [P6 P6'] P7 P8 P9 P10] Hd. unfold finish_save. apply safe_bind. eapply safe_mono; [by apply cleanup_safe|]. intros c r1 Hr1 Hcl.
  pose proof Hcl as [C1 (C2 & C3 & C4 & C5 & C6 & C7) C8 C9 C10]. destruct (failed c) eqn:Ec; cycle 1.
  - destruct c; [|done]. pose proof (gone_idle name l r [] r1 Hr1 P1 Hcl eq_refl) as Hidle. apply safe_bind. apply rule_store; [done|]. intros s Hok Hopt _ Hres.
    rewrite C4, P8 in Hres. specialize (Hres _ _ eq_refl). destruct (Release_cases s k _ Hok Hres) as (H1 & H2 & H3). exists None, (r_plan r1). split.
    + split; cbn; [done|done| |done]. intros k' n' _ Hk' Hne. rewrite H3, lookup_delete_ne; [done|]. intros <-. rewrite C4, P8 in Hne. by eapply Hne.
    + rewrite C6, P10. set (r2 := r1 <| r_reserved := None |> <| r_plan := r_plan r1 |> <| r_store := _ |>). assert (idle J r2) as Hi2 by exact Hidle. split; [by apply idle_recoverable|]. cbv beta.
      apply safe_bind. apply rule_leave; [by apply idle_recoverable|cbn; congruence|]. set (r3 := r2 <| r_active := false |>). assert (idle J r3) as Hi3 by exact Hidle.
      split; [by apply idle_recoverable|]. apply safe_ret; [by apply idle_recoverable|]. split; cbn; try done.
  - apply safe_bind. apply (measure_temps_safe l manifestReservation r1); try done.
    + eapply Forall_impl; [exact P3|]. intros v. by rewrite C8.
    + by rewrite C7, P6.
    + by rewrite C7, P6.
    + apply safe_bind. apply rule_store; [done|]. intros s Hok Hopt _ Hres. rewrite C4, P8 in Hres. specialize (Hres _ _ eq_refl). exists (r_reserved r1), (r_plan r1).
      pose proof (retain_same s k _ Hres) as Hret. split.
      * split; rewrite Hret; cbn; [by destruct Hok|done|done|]. rewrite C4, P8. intros k' n' [= <- <-]. auto.
      * rewrite C6, P10. change ((fun _ : Store => (retain k (manifestReservation + plan_total (plan_of l)) s).1) <$> None) with (@None Store).
        assert (r1 <| r_reserved := r_reserved r1 |> <| r_plan := r_plan r1 |> <| r_store := None |> = r1) as E by (rewrite P10 in C6; destruct r1; cbn in *; by subst). rewrite E. split; [done|].
        apply safe_bind. apply rule_stop; [done|]. apply safe_ret; [done|]. split; try done; [by destruct err|]. by destruct err.
Qed.
End Finish.
