(* ===== verification/SaveRuns.v ===== *)
(** * A save from its arguments to its end *)
From Stdlib Require Import ZArith Lia.
From stdpp Require Import base gmap sets list option strings.
From coqutil Require Import Datatypes.RecordSettersUsingExistingGetters.
From S2P Require Import Prelude Utf8 Sha256 Strconv Json JsonText JsonReads GoStrings InputValue ArtifactStore HostFs SaveFiles SaveManifest SaveJournal SaveLogic SaveNames SaveInvariant SavePersist SaveCalls SaveTemps SavePublish SaveRemoval SaveStore SaveFinish.
Local Open Scope Z_scope.
#[global] Arguments const {E} newValue / _.
#[local] Arguments draft_of : simpl never.
#[local] Arguments lit : simpl never.
#[local] Arguments safe : simpl never.
#[local] Arguments prog_bind : simpl never.
#[local] Arguments put_all : simpl never.
#[local] Arguments claim : simpl never.

Section Runs.
Context (J : Identity) (located : bytes -> Identity -> Prop) (opts : Options) (agent request : bytes) (files : list SaveFile).
Local Abbreviation inv := (recoverable J located agent request).
Local Abbreviation safe := (safe J false located opts (publishable files) inv).
Local Abbreviation slot := (slot J located files).

(** Where a file is to be saved: the directory, its path and what is under the name. *)
Record site (r : resources) (v : SaveFile) (d : Directory) : Prop := {
  si_journal : dr_id d <> J;
  si_dir : dr_id d ∈ r_dirs r /\ id_ok (dr_id d);
  si_path : located (dr_path d) (dr_id d) /\ has_prefix 47 (dr_path d) = true /\ ContainsRune (dr_path d) 0 = false /\ text_ok (dr_path d);
  si_key : exists c l, r_keys r !! (dr_id d, sf_Name v) = Some (c, l) /\ forall i, c = Some i -> exists f, r_files r !! i = Some f /\ f_dirty f = false /\ i ∉ r_new r
}.
Definition sites (r : resources) : Prop := forall v d, v ∈ files -> sf_Directory v = Some d -> SaveName (sf_Name v) = [] -> site r v d.
(** Between the beginning of a save and its first manifest. *)
Record fresh_save (r : resources) : Prop := {
  fs_journal : forall n, r_keys r !! (J, n) = None;
  fs_temps : forall d n x, r_keys r !! (d, n) = Some x -> validTempName n = true -> x = (None, [None]);
  fs_known : forall k c l i, r_keys r !! k = Some (c, l) -> Some i ∈ l -> is_Some (r_files r !! i);
  fs_cur : forall k c l, r_keys r !! k = Some (c, l) -> c ∈ l;
  fs_sites : sites r;
  fs_dir : J ∈ r_dirs r;
  fs_shared : r_store r = None /\ r_reserved r = None
}.
Lemma fresh_idle r : fresh_save r -> idle J r.
Proof.
  intros [F1 F2 F3 F4 _ _ _]. split_and!; [| |done|done].
  - exists (replicate 32 48). split_and!; [split; done|intros n; rewrite F1; by intros []|by rewrite !F1].
  - intros d n c l i Hk [->|Hv] Hi; [by rewrite F1 in Hk|]. pose proof (F2 d n _ Hk Hv) as [= -> ->]. by apply list_elem_of_singleton in Hi.
Qed.
Lemma fresh_same r r' : fresh_save r -> r_keys r' = r_keys r -> r_files r' = r_files r -> r_new r' = r_new r -> r_dirs r' = r_dirs r -> r_store r' = None -> r_reserved r' = None -> fresh_save r'.
Proof.
  intros [F1 F2 F3 F4 F5 F6 F7] E1 E2 E3 E4 E5 E6. split; rewrite ?E1, ?E2, ?E4; try done. intros v d H1 H2 H3. destruct (F5 v d H1 H2 H3) as [S1 S2 S3 S4]. split; rewrite ?E1, ?E2, ?E3, ?E4; done.
Qed.
Lemma fresh_inv r : fresh_save r -> inv r.
Proof. intros H. by apply idle_recoverable, fresh_idle. Qed.

(** ** Planning *)

(** More names are claimed; what was known stays. *)
Record claims (r r' : resources) : Prop := {
  cm_keys : forall k x, r_keys r !! k = Some x -> r_keys r' !! k = Some x;
  cm_rest : r_files r' = r_files r /\ r_new r' = r_new r /\ r_dirs r' = r_dirs r /\ r_euid r' = r_euid r /\ r_reserved r' = r_reserved r /\ r_active r' = r_active r /\ r_store r' = r_store r
}.
Lemma claims_refl r : claims r r.
Proof. by split. Qed.
Lemma claims_trans r1 r2 r3 : claims r1 r2 -> claims r2 r3 -> claims r1 r3.
Proof. intros [A1 (A2 & A3 & A4 & A5 & A6 & A7 & A8)] [B1 (B2 & B3 & B4 & B5 & B6 & B7 & B8)]. split; [auto|split_and!; congruence]. Qed.
Lemma claim_claims ks r : Forall (fun k => r_keys r !! k = None) ks -> claims r (claim ks r).
Proof. intros H. split; [|done]. intros k x Hk. rewrite claim_out; [done|]. intros Hin. rewrite Forall_forall in H. specialize (H k Hin). cbn in H. congruence. Qed.
Lemma target_claims r r' v : claims r r' -> target r v -> target r' v.
Proof. intros [C1 (C2 & C3 & _)] (l & Hk & Ho). exists l. split; [by apply C1|]. by rewrite C2, C3. Qed.
Lemma unfilled_claims r r' v : claims r r' -> unfilled r v -> unfilled r' v.
Proof. intros [C1 _] [H1 H2]. split; [done|by apply C1]. Qed.
Lemma sites_claims r r' : claims r r' -> sites r -> sites r'.
Proof.
  intros [C1 (C2 & C3 & C4 & _)] Hs v d H1 H2 H3. destruct (Hs v d H1 H2 H3) as [S1 S2 S3 (c & l & Hk & Hf)]. split; rewrite ?C4; try done. exists c, l. rewrite C2, C3. split; [by apply C1|done].
Qed.
Record planning (r : resources) (planned : list saving) (total : Z) (seen : list key) : Prop := {
  pg_fresh : fresh_save r;
  pg_slots : Forall slot planned;
  pg_targets : Forall (target r) planned;
  pg_unfilled : Forall (unfilled r) planned;
  pg_distinct : NoDup (plan_of planned).*1 /\ NoDup (target_key <$> planned);
  pg_temps : temps_of planned r;
  pg_seen : forall v, v ∈ planned -> target_key v ∈ seen;
  pg_total : total = manifestReservation + plan_total (plan_of planned) /\ total <= int64_max
}.
Lemma plan_of_app a b : plan_of (a ++ b) = plan_of a ++ plan_of b.
Proof. apply fmap_app. Qed.
Lemma plan_total_app a b : plan_total (a ++ b) = plan_total a + plan_total b.
Proof. unfold plan_total. induction a as [|x a IH]; cbn; lia. Qed.
(** A new temporary name for one more file. *)
Lemma fresh_claim_temp r d hex : fresh_save r -> hexs hex -> d <> J -> r_keys r !! (d, temp_name hex) = None -> fresh_save (claim [(d, temp_name hex)] r).
Proof.
  intros Hf Hh Hd Hn. pose proof (claim_claims [(d, temp_name hex)] r ltac:(by constructor)) as Hc. pose proof Hf as [F1 F2 F3 F4 F5 F6 F7].
  assert (forall k x, r_keys (claim [(d, temp_name hex)] r) !! k = Some x -> k = (d, temp_name hex) /\ x = (None, [None]) \/ r_keys r !! k = Some x) as Hk.
  { intros k x. destruct (decide (k = (d, temp_name hex))) as [->|Hne]; [rewrite claim_in by left; intros [= <-]; by left|]. rewrite claim_out by (by intros ?%list_elem_of_singleton). auto. }
  split; try done.
  - intros n. apply eq_None_not_Some. intros [x [[[= E _] _]|Hx]%Hk]; [done|]. by rewrite F1 in Hx.
  - intros d' n x [[_ ->]|Hx]%Hk Hv; [done|by eapply F2].
  - intros k c l i [[_ [= -> ->]]|Hx]%Hk Hi; [by apply list_elem_of_singleton in Hi|by eapply F3].
  - intros k c l [[_ [= -> ->]]|Hx]%Hk; [left|by eapply F4].
  - by eapply sites_claims.
Qed.
(** What planning found under the name of a file. *)
Definition found (r : resources) (v : SaveFile) (d : Directory) (old : option FileIdentity) : Prop :=
  exists l, r_keys r !! (dr_id d, sf_Name v) = Some (fi_Identity <$> old, l) /\
  forall o, old = Some o -> sf_Overwrite v = true /\ exists i f s, o = file_identity i s /\ r_files r !! i = Some f /\ same f s /\ meta_ok i s /\
    f_regular f = true /\ f_links f = 1 /\ f_dirty f = false /\ same_filesystem i (dr_id d) = true /\ i ∉ r_new r.
Definition new_saving (v : SaveFile) (d : Directory) (hex : bytes) (old : option FileIdentity) : saving :=
  {| sv_file := v; sv_dir := d; sv_entry := {| se_Directory := dr_path d; se_DirectoryID := dr_id d; se_Temp := temp_name hex; se_Reserved := reserved_bytes (sf_Value v) old;
     se_Identity := None; se_Replaced := old |} |}.
Lemma reserved_bounds v old : 0 <= fv_SizeBytes v -> 0 <= fv_SizeBytes v <= reserved_bytes v old /\ forall o, old = Some o -> fi_Size o <= reserved_bytes v old.
Proof. intros H. unfold reserved_bytes. destruct old as [o|]; [|split; [lia|done]]. destruct (Z.ltb_spec (fv_SizeBytes v) (fi_Size o)); (split; [lia|]); intros o' [= <-]; lia. Qed.
Lemma new_slot r v d hex old : v ∈ files -> sf_Directory v = Some d -> dr_open d = true -> site r v d -> SaveName (sf_Name v) = [] -> 0 <= fv_SizeBytes (sf_Value v) -> hexs hex ->
  found r v d old -> reserved_bytes (sf_Value v) old <= int64_max -> slot (new_saving v d hex old).
Proof.
  intros H1 H2 H3 [S1 [S2 S2'] (S3 & S4 & S5 & S6) _] H4 H5 Hh (l & Hk & Ho) Hmax. destruct (reserved_bounds (sf_Value v) old H5) as [Hb Hb'].
  assert (forall o, old = Some o -> fid_ok o /\ fi_Owner o <> [] /\ 0 <= fi_Size o) as Hold.
  { intros o Eo. destruct (Ho o Eo) as (_ & i & f & s & -> & _ & _ & Hm & _). specialize (Hb' _ Eo). cbn in Hb'. destruct (file_identity_ok i s Hm) as [? ?]; [lia|]. split_and!; try done. cbn. lia. }
  split; cbn; try done; [|intros [o Eo]; by destruct (Ho o Eo)]. split; cbn; try done; [|apply temp_name_valid, Hh|lia|].
  - split; cbn; try done; [apply ascii_text_ok, temp_name_ascii, Hh|unfold in_int64, int64_min; lia|]. intros f Ef. by apply Hold.
  - unfold file_identity_valid. destruct old as [o|]; [|done]. destruct (Hold o eq_refl) as (_ & Hne & Hz). specialize (Hb' o eq_refl). rewrite !andb_true_iff, !Z.leb_le, negb_true_iff, bytes_eqb_false. lia || tauto.
Qed.
Lemma new_target r v d hex old : found r v d old -> target r (new_saving v d hex old).
Proof.
  intros (l & Hk & Ho). exists l. split; [done|]. cbn. intros o Eo. destruct (Ho o Eo) as (_ & i & f & s & -> & Hf & Hss & _ & F1 & F2 & F3 & F4 & F5). exists f. split_and!; try done.
  pose proof (same_inv _ _ Hss) as (E1 & _ & _ & _ & E2 & E3 & E4). unfold MatchesDisplaced, file_identity. cbn. by rewrite E1, E2, E3, E4, bytes_eqb_refl, !Z.eqb_refl, bool_decide_true.
Qed.
Lemma planning_next r planned total seen v d hex old : planning r planned total seen -> v ∈ files -> sf_Directory v = Some d -> dr_open d = true -> SaveName (sf_Name v) = [] ->
  0 <= fv_SizeBytes (sf_Value v) -> (dr_id d, sf_Name v) ∉ seen -> hexs hex -> r_keys r !! (dr_id d, temp_name hex) = None -> found r v d old ->
  total + reserved_bytes (sf_Value v) old <= int64_max ->
  planning (claim [(dr_id d, temp_name hex)] r) (planned ++ [new_saving v d hex old]) (total + reserved_bytes (sf_Value v) old) ((dr_id d, sf_Name v) :: seen).
Proof.
  intros [P1 P2 P3 P4 [P5 P5'] P6 P7 [P8 P8']] H1 H2 H3 H4 H5 H6 Hh Hn Hf Hmax. pose proof (fs_sites _ P1 v d H1 H2 H4) as Hsite.
  pose proof (claim_claims [(dr_id d, temp_name hex)] r ltac:(by constructor)) as Hc. set (r' := claim [(dr_id d, temp_name hex)] r) in *. set (nv := new_saving v d hex old).
  assert (r_keys r' !! (dr_id d, temp_name hex) = Some (None, [None])) as Hk by (apply claim_in; left).
  assert (entry_key (sv_entry nv) ∉ (plan_of planned).*1) as Hfresh.
  { unfold plan_of. rewrite <- list_fmap_compose. intros (v0 & E & Hv0)%list_elem_of_fmap. rewrite Forall_forall in P4. destruct (P4 v0 Hv0) as [_ Hk0]. cbn in E. rewrite <- E in Hk0. unfold entry_key in Hk0. cbn in Hk0. congruence. }
  pose proof (reserved_bounds (sf_Value v) old H5) as [Hb _]. assert (0 <= plan_total (plan_of planned)) as Hpos.
  { clear -P2. induction P2 as [|x l Hx _ IH]; [done|]. change (0 <= se_Reserved (sv_entry x) + plan_total (plan_of l)). pose proof (es_reserved _ _ (sl_static _ _ _ _ Hx)). lia. }
  split.
  - apply fresh_claim_temp; try done. apply Hsite.
  - apply Forall_app. split; [done|]. constructor; [|constructor]. eapply new_slot; try done. unfold manifestReservation, manifestLimit in P8. lia.
  - apply Forall_app. split; [eapply Forall_impl; [exact P3|]; intros x; by apply target_claims|]. constructor; [|constructor]. eapply target_claims; [exact Hc|]. by apply new_target.
  - apply Forall_app. split; [eapply Forall_impl; [exact P4|]; intros x; by apply unfilled_claims|]. constructor; [|constructor]. by split.
  - rewrite plan_of_app, !fmap_app. split; apply NoDup_app; (split_and!; [done| |apply NoDup_singleton]).
    + intros k Hin ->%list_elem_of_singleton. by apply Hfresh.
    + intros k (v0 & -> & Hv0)%list_elem_of_fmap E%list_elem_of_singleton. apply H6. specialize (P7 v0 Hv0). by rewrite E in P7.
  - intros d' n Hs Hv. rewrite fmap_app. apply elem_of_app. destruct (decide ((d', n) = (dr_id d, temp_name hex))) as [E|Hne]; [right; rewrite E; left|left].
    apply P6; [|done]. unfold r' in Hs. by rewrite claim_out in Hs by (by intros ?%list_elem_of_singleton).
  - intros v0 [Hv0| ->%list_elem_of_singleton]%elem_of_app; [right; by apply P7|left].
  - rewrite plan_of_app, plan_total_app. cbn. split; [lia|done].
Qed.
Lemma temp_hex_key d hex r : hexs hex -> d ∈ r_dirs r -> Forall (fun k : key => k.1 ∈ r_dirs r /\ name_hex J k.1 k.2 = Some hex) [(d, temp_name hex)].
Proof. intros Hh Hd. constructor; [|constructor]. split; [done|]. destruct (temp_name_valid hex Hh) as [H1 H2]. unfold name_hex. cbn [fst snd]. by rewrite H1, H2. Qed.
Definition plan_result (r : resources) (planned : list saving) (rest : list SaveFile) (x : res (list saving * Z)) (r' : resources) : Prop :=
  claims r r' /\ match x with
  | inl e => failed e = true /\ fresh_save r'
  | inr (l, total) => exists seen, planning r' l total seen /\ sv_file <$> l = (sv_file <$> planned) ++ rest
  end.
Lemma plan_files_safe rest : forall planned total seen r, rest ⊆ files -> planning r planned total seen -> safe (plan_files rest planned total seen) r (plan_result r planned rest).
Proof.
  induction rest as [|v rest IH]; intros planned total seen r Hsub Hp; pose proof (fresh_inv _ (pg_fresh _ _ _ _ Hp)) as HI; cbn [plan_files].
  { apply safe_ret; [done|]. split; [apply claims_refl|]. exists seen. by rewrite app_nil_r. }
  assert (v ∈ files) as Hv by (apply Hsub; left).
  assert (forall e, failed e = true -> safe (Ret (inl e)) r (plan_result r planned (v :: rest))) as Hstop by (intros e He; apply safe_ret; [done|]; split; [apply claims_refl|split; [done|apply Hp]]).
  apply safe_bind. apply rule_ctx; [done|]. intros e. destruct (failed e) eqn:Ee; [by apply Hstop|]. clear e Ee.
  destruct (sf_Directory v) as [d|] eqn:Ed; [|by apply Hstop]. destruct (Z.ltb_spec (fv_SizeBytes (sf_Value v)) 0); [by apply Hstop|].
  destruct (failed (SaveName (sf_Name v))) eqn:En; [by apply Hstop|]. assert (SaveName (sf_Name v) = []) as Hname by (by destruct (SaveName (sf_Name v))).
  case_bool_decide as Eseen; [by apply Hstop|]. destruct (fs_sites _ (pg_fresh _ _ _ _ Hp) v d Hv Ed Hname) as [S1 [S2 S2'] S3 (c & l & Hk & Hcf)].
  assert (forall old : option FileIdentity, found r v d old -> dr_open d = true ->
    safe (tryr^ temp := randomName (lit ".onprest-") (lit ".tmp") in
          let n := reserved_bytes (sf_Value v) old in
          if int64_max - total <? n then Ret (inl (Fail "LIMIT_EXCEEDED" [])) else
          let entry := {| se_Directory := dr_path d; se_DirectoryID := dr_id d; se_Temp := temp; se_Reserved := n; se_Identity := None; se_Replaced := old |} in
          plan_files rest (planned ++ [{| sv_file := v; sv_dir := d; sv_entry := entry |}]) (total + n) ((dr_id d, sf_Name v) :: seen)) r (plan_result r planned (v :: rest))) as Hnext.
  { intros old Hfound Hopen. apply safe_bind. unfold randomName. apply safe_bind. apply rule_random with (ks := fun hex => [(dr_id d, temp_name hex)]); [apply publishable_same|done|..].
    - intros e (He & _). apply safe_ret; [done|]. by apply Hstop.
    - apply safe_ret; [done|]. by apply Hstop.
    - intros hex Hl Hh. by apply temp_hex_key.
    - intros hex Hl Hh Hnone. assert (hexs hex) as Hhex by done. pose proof (claim_claims _ _ Hnone) as Hc. apply Forall_cons in Hnone as [Hnone _]. set (r' := claim [(dr_id d, temp_name hex)] r) in *.
      assert (fresh_save r') as Hf' by (apply fresh_claim_temp; [apply Hp|done|done|done]). pose proof (fresh_inv _ Hf') as HI'. split; [done|]. apply safe_ret; [done|]. cbv beta iota zeta.
      destruct (Z.ltb_spec (int64_max - total) (reserved_bytes (sf_Value v) old)); [apply safe_ret; [done|]; split; [done|by split]|].
      eapply safe_mono; [apply IH; [intros x Hx; apply Hsub; by right|]; eapply (planning_next r planned total seen v d hex old); done || lia|].
      intros x r2 _ [Hc2 Hx]. split; [by eapply claims_trans|]. destruct x as [e|[l2 t2]]; [done|]. destruct Hx as (seen2 & Hp2 & Hl2). exists seen2. split; [done|]. rewrite Hl2, fmap_app, <- app_assoc. done. }
  apply safe_bind. eapply Inspect_safe; [done|exact Hk|intros i ->; by destruct (Hcf i eq_refl) as (f & -> & _)| | |].
  - intros e (He & En' & _). apply safe_bind, safe_ret; [done|]. cbv beta iota. rewrite En'. by apply Hstop.
  - intros -> Ho. apply safe_bind, safe_ret; [done|]. cbn. apply Hnext; [|done]. exists l. split; [done|]. done.
  - intros i f s -> Hf Hss Hm (I1 & I2 & _) Hfs Ho. apply safe_bind, safe_ret; [done|]. cbv beta iota. destruct (sf_Overwrite v) eqn:Eo; [|by apply Hstop]. apply Hnext; [|done].
    exists l. split; [done|]. intros o [= <-]. split; [done|]. destruct (Hcf i eq_refl) as (f' & Hf' & Hd & Hnew). rewrite Hf in Hf'. injection Hf' as <-. exists i, f, s. by split_and!.
Qed.

(** ** The body of a save *)

(** Everything is planned and reserved; the manifest [name] is not written yet. *)
Record started (name : bytes) (k : nat) (l : list saving) (r : resources) : Prop := {
  sr_progress : in_progress J located files name k l r;
  sr_idle : idle J r;
  sr_manifest : r_keys r !! (J, name) = Some (None, [None]);
  sr_draft : r_keys r !! (J, draft_of name) = Some (None, [None]);
  sr_targets : Forall (target r) l;
  sr_unfilled : Forall (unfilled r) l;
  sr_distinct : NoDup (target_key <$> l)
}.
Context (Hagent : hexs agent) (Hrequest : Forall is_byte request) (Hok : save_request_ok request = true) (Hne : files <> []) (Hcount : (length files <= 1500)%nat).
Lemma plan_keys l : (plan_of l).*1 = entry_key <$> (sv_entry <$> l).
Proof. unfold plan_of. rewrite <- !list_fmap_compose. done. Qed.
Lemma plan_entries l : plan_total (plan_of l) = entry_total (sv_entry <$> l).
Proof. induction l as [|v l IH]; [done|]. change (se_Reserved (sv_entry v) + plan_total (plan_of l) = se_Reserved (sv_entry v) + entry_total (sv_entry <$> l)). by rewrite IH. Qed.
Lemma started_covers name k l r : started name k l r -> sv_file <$> l = files -> covers located agent request r (manifest_of agent request l).
Proof.
  intros [[P1 P2 P3 P4 P5 [P6 P6'] P7 P8 P9 P10] S2 S3 S4 S5 S6 S7] Hl. rewrite Forall_forall in P2, S6.
  assert (length l = length files) as Hlen by (rewrite <- Hl; by rewrite length_fmap). assert (l <> []) as Hl0 by (intros ->; by destruct Hne; rewrite <- Hl).
  assert (ValidString request = true) as Hvalid by (unfold save_request_ok in Hok; by breflect). split; cbn; try done.
  - split; cbn; [done|apply ascii_text_ok, hex_ascii, Hagent|done| |rewrite length_fmap; lia]. apply Forall_fmap, Forall_forall. intros v Hv. apply (P2 v Hv).
  - unfold manifest_accepted. cbn. rewrite bytes_eqb_refl, Hok, length_fmap. rewrite bool_decide_false by (by destruct l). cbn. apply Z.leb_le. lia.
  - exists k, (manifestReservation + plan_total (plan_of l)). split_and!; [done|by rewrite plan_entries|done].
  - rewrite P6. unfold plan_of. by rewrite <- list_fmap_compose.
  - by rewrite <- plan_keys.
  - intros e (v & -> & Hv)%list_elem_of_fmap. split; [apply (P2 v Hv)|]. destruct (S6 v Hv) as [_ Hk]. exists None, [None]. split; [done|]. by intros i ?%list_elem_of_singleton.
  - intros d n c l0 i Hk Hv _. rewrite <- list_fmap_compose. apply P4; [by rewrite Hk|done].
Qed.
(** After the body: the files are as the caller was told, and the save can be finished. *)
Record body_done (name : bytes) (k : nat) (l0 : list saving) (e : error) (l : list saving) (pins : pinmap) (installed : list bool) (r : resources) : Prop := {
  bd_progress : in_progress J located files name k l r;
  bd_pins : pins_ok pins r;
  bd_draft : draft_gone_or J name e r;
  bd_kin : Forall2 kin l0 l;
  bd_told : announced l e installed r
}.
Lemma kin_plan l l' : Forall2 kin l l' -> plan_of l' = plan_of l.
Proof. induction 1 as [|v v' l l' (K1 & K2 & K3 & K4 & K5) _ IH]; [done|]. unfold plan_of in *. rewrite !fmap_cons, IH. by rewrite K3, K5. Qed.
Lemma kin_keys l l' : Forall2 kin l l' -> (entry_key ∘ sv_entry) <$> l' = (entry_key ∘ sv_entry) <$> l.
Proof. induction 1 as [|v v' l l' (K1 & K2 & K3 & K4 & K5) _ IH]; [done|]. rewrite !fmap_cons, IH. cbn. by rewrite K3. Qed.
Lemma kin_targets l l' : Forall2 kin l l' -> target_key <$> l' = target_key <$> l.
Proof. induction 1 as [|v v' l l' (K1 & K2 & K3 & K4 & K5) _ IH]; [done|]. rewrite !fmap_cons, IH. unfold target_key. by rewrite K1, K2. Qed.
Lemma kin_files l l' : Forall2 kin l l' -> sv_file <$> l' = sv_file <$> l.
Proof. induction 1 as [|v v' l l' (K1 & _) _ IH]; [done|]. by rewrite !fmap_cons, IH, K1. Qed.
Lemma progress_kin name k l l' r r' : in_progress J located files name k l r -> Forall2 kin l l' -> Forall slot l' -> (forall x, is_Some (r_keys r' !! x) <-> is_Some (r_keys r !! x)) ->
  r_reserved r' = r_reserved r /\ r_active r' = r_active r /\ r_store r' = r_store r /\ r_plan r' = r_plan r -> in_progress J located files name k l' r'.
Proof.
  intros [P1 P2 P3 P4 P5 [P6 P6'] P7 P8 P9 P10] Hk Hs Hd (E1 & E2 & E3 & E4). pose proof (kin_plan _ _ Hk) as Ep. split; rewrite ?E1, ?E2, ?E3, ?E4, ?Ep; try done.
  - apply Forall_forall. intros v Hv. apply Hd. assert (entry_key (sv_entry v) ∈ (entry_key ∘ sv_entry) <$> l') as Hin by (apply list_elem_of_fmap; by exists v). rewrite (kin_keys _ _ Hk) in Hin.
    apply list_elem_of_fmap in Hin as (v0 & E & Hv0). cbn in E. rewrite E. rewrite Forall_forall in P3. by apply P3.
  - intros d n H. rewrite (kin_keys _ _ Hk). by apply P4, Hd.
  - by apply Hd.
Qed.
Lemma nothing_told l e r : e <> [] -> Forall (target r) l -> announced l e [] r.
Proof. intros He Ht. split. exists [], l. by split_and!. Qed.
Lemma persisted_started name k l r r' : started name k l r -> sv_file <$> l = files -> inv r' -> persisted J name (manifest_of agent request l) r [] r' ->
  exists im, preparing J located agent request files name r' im [] l.
Proof.
  intros [S1 S2 S3 S4 S5 S6 S7] Hl HI Hps. pose proof (persisted_advances _ _ _ _ _ _ Hps) as Ha. destruct (ps_done _ _ _ _ _ _ Hps eq_refl) as (im & Hk & Hm). exists im.
  destruct (ps_draft _ _ _ _ _ _ Hps) as (c & ld & Hd & [->|?]); [|done]. pose proof (ip_slots _ _ _ _ _ _ _ S1) as Hs. split; cbn; try done; [apply S1|by exists ld|by eapply slots_kin|].
  rewrite Forall_forall in *. intros v Hv. destruct (S6 v Hv) as [H1 H2]. split; [done|]. specialize (Hs v Hv). unfold entry_key in *.
  rewrite (ex_keys _ _ _ (ps_extends _ _ _ _ _ _ Hps)); [done|]. rewrite (sl_id _ _ _ _ Hs). apply Hs.
Qed.
Lemma preparing_publishing name r im l : preparing J located agent request files name r im l [] -> NoDup (target_key <$> l) -> publishing J located agent request files name r im [] l.
Proof. intros [P1 P2 P3 P4 P5 P6 P7 P8 P9] Hn. rewrite app_nil_r in *. split; cbn; try done. Qed.
Lemma save_body_safe name k l r : started name k l r -> sv_file <$> l = files ->
  safe (save_body J agent request name l) r (fun x r' => body_done name k l x.1.1.1 x.1.1.2 x.1.2 x.2 r').
Proof.
  intros Hst Hl. pose proof Hst as [S1 S2 S3 S4 S5 S6 S7]. pose proof (idle_recoverable J located agent request r S2) as HI. pose proof (ip_slots _ _ _ _ _ _ _ S1) as Hslots.
  pose proof (kin_list_refl l) as Hkin. unfold save_body. apply safe_bind.
  eapply safe_mono; [eapply (persist_safe J false located opts agent request files name _ r [None] None [None]); [done|apply S1|done|done|by eapply started_covers]|].
  intros e r1 HI1 Hps. pose proof (persisted_advances _ _ _ _ _ _ Hps) as Ha1. pose proof (ad_rest _ _ _ Ha1) as (_ & _ & R1 & R2 & R3 & R4).
  destruct (failed e) eqn:Ee.
  { apply safe_ret; [done|]. split; cbn; [eapply progress_kin; [exact S1|done|done|apply Ha1|done]|done|apply Hps|done|]. apply nothing_told; [by destruct e|by eapply slots_kin]. }
  destruct e; [|done]. destruct (persisted_started _ _ _ _ _ Hst Hl HI1 Hps) as (im & Hpr). apply safe_bind. eapply safe_mono; [eapply create_files_safe; [exact Hpr|done]|].
  intros [[e l2] pins] r2 HI2 Hout. cbn in Hout. pose proof Hout as [O1 O2 O3 O4 O5 O6 O7]. assert (advances J r r2) as Ha2 by (by eapply advances_trans). pose proof (ad_rest _ _ _ Ha2) as (_ & _ & T1 & T2 & T3 & T4).
  assert (in_progress J located files name k l2 r2) as Hip2 by (eapply progress_kin; [exact S1|done|done|apply Ha2|done]).
  clear Ee. destruct (failed e) eqn:Ee.
  { apply safe_ret; [done|]. split; cbn; try done. apply nothing_told; [by destruct e|done]. }
  destruct e; [|done]. destruct (O7 eq_refl) as (im2 & Hpr2). assert (NoDup (target_key <$> l2)) as Hn2 by (by rewrite (kin_targets _ _ O2)).
  apply safe_bind. eapply safe_mono; [eapply (publish_files_safe J false located opts agent request files name l2 []); [by eapply preparing_publishing|done]|].
  intros [[e pins2] inst] r3 HI3 (Hq & Hpins & Han). cbn in Hq, Hpins, Han. destruct Hq as [Q1 (Q2 & Q3 & Q4 & Q5 & Q6 & Q7) Q8 Q9]. apply safe_ret; [done|]. split; cbn; try done.
  - eapply progress_kin; [exact Hip2|apply kin_list_refl|done|done|done].
  - destruct (pr_draft _ _ _ _ _ _ _ _ _ _ Hpr2) as (ld & Hd). exists None, ld. rewrite Q9. auto.
Qed.
End Runs.

(** ** [save_files] *)

(** The file that the caller was told of is complete under its name, for sure if it was told so. *)
Definition installed_file (r : resources) (v : SaveFile) (durable : bool) : Prop :=
  exists d i f l, sf_Directory v = Some d /\ r_keys r !! (dr_id d, sf_Name v) = Some (Some i, l) /\ r_files r !! i = Some f /\ complete (sf_Value v) f /\ (durable = true -> l = [Some i]).
Definition untouched (r r' : resources) (v : SaveFile) : Prop :=
  forall d x, sf_Directory v = Some d -> r_keys r !! (dr_id d, sf_Name v) = Some x -> exists y, r_keys r' !! (dr_id d, sf_Name v) = Some y /\ y.1 = x.1.
Record save_result (J : Identity) (files : list SaveFile) (r : resources) (x : error * list bool) (r' : resources) : Prop := {
  sz_told : exists a b, files = a ++ b /\ Forall2 (installed_file r') a x.2 /\ Forall (untouched r r') b /\ (x.1 = [] -> b = [] /\ Forall (eq true) x.2);
  sz_clean : x.1 = [] -> idle J r' /\ r_active r' = false /\ r_reserved r' = None
}.
Section Save.
Context (J : Identity) (located : bytes -> Identity -> Prop) (opts : Options) (agent request : bytes) (files : list SaveFile).
Context (Hagent : hexs agent) (Hrequest : Forall is_byte request) (Hcount : (length files <= 1500)%nat).
Local Abbreviation inv := (recoverable J located agent request).
Local Abbreviation safe := (safe J false located opts (publishable files) inv).
Local Abbreviation slot := (slot J located files).
Local Abbreviation fresh_save := (fresh_save J located files).

Lemma early_result r r' e : (forall k x, r_keys r !! k = Some x -> r_keys r' !! k = Some x) -> failed e = true -> save_result J files r (e, []) r'.
Proof.
  intros Hk He. split; cbn; [|by intros ->]. exists [], files. split_and!; [done|constructor| |by intros ->]. apply Forall_forall. intros v _ d x _ Hx. exists x. split; [by apply Hk|done].
Qed.
Lemma told_finished r r' l err e v b : finished J l r err e r' -> slot v -> told r v b -> installed_file r' (sv_file v) b.
Proof.
  intros [[F1 _] F2 F3 _ _] Hs Ht. assert (exists i f l0, r_keys r !! target_key v = Some (Some i, l0) /\ r_files r !! i = Some f /\ complete (sf_Value (sv_file v)) f /\ (b = true -> l0 = [Some i])) as (i & f & l0 & Hk & Hf & Hc & Hb).
  { destruct b; [destruct Ht as (i & f & H1 & H2 & H3); by exists i, f, [Some i]|destruct Ht as (i & f & l0 & H1 & H2 & H3); by exists i, f, l0]. }
  destruct (proj2 (F3 (target_key v))) as [[c' l'] Hk']; [by rewrite Hk|]. destruct (F2 (target_key v) _ _ (sl_journal _ _ _ _ Hs) Hk Hk') as (C1 & C2 & _).
  pose proof (saved_name _ (sl_name _ _ _ _ Hs)) as Hv. cbn in C1, C2. destruct C1 as [->|[? _]]; [|congruence]. exists (sv_dir v), i, f, l'. split_and!; [apply Hs|done|by rewrite F1|done|].
  intros Eb. destruct (C2 Hv) as [->|[_ ->]]; [auto|done].
Qed.
Lemma target_untouched r0 r r' l err e v v0 : finished J l r err e r' -> slot v -> target r v -> target r0 v0 -> kin v0 v -> untouched r0 r' (sv_file v).
Proof.
  intros [_ F2 F3 _ _] Hs (l1 & H1 & _) (l0 & H0 & _) (K1 & K2 & _ & K4 & _) d x Hd Hx. rewrite (sl_dir _ _ _ _ Hs) in Hd. injection Hd as <-. rewrite <- K1, <- K2, <- K4 in H0. rewrite H0 in Hx. injection Hx as <-.
  change (dr_id (sv_dir v), sf_Name (sv_file v)) with (target_key v) in *. destruct (proj2 (F3 (target_key v))) as [[c' l'] Hk']; [by rewrite H1|]. destruct (F2 (target_key v) _ _ (sl_journal _ _ _ _ Hs) H1 Hk') as (C1 & _). exists (c', l'). split; [done|].
  pose proof (saved_name _ (sl_name _ _ _ _ Hs)) as Hv. cbn in *. destruct C1 as [?|[? _]]; congruence.
Qed.
Lemma finished_result r0 r r' rp l0 l err e installed : (forall k x, r_keys r0 !! k = Some x -> r_keys rp !! k = Some x) -> Forall (target rp) l0 -> Forall2 kin l0 l -> Forall slot l -> sv_file <$> l0 = files -> announced l err installed r ->
  finished J l r err e r' -> save_result J files r0 (e, installed) r'.
Proof.
  intros Hc Ht0 Hkin Hs Hl [(a & b & -> & Htold & Hb & Hend)] Hf. split; cbn; [|apply (fn_idle _ _ _ _ _ _ Hf)]. apply Forall2_app_inv_r in Hkin as (a0 & b0 & Ka & Kb & ->).
  apply Forall_app in Hs as [Hsa Hsb], Ht0 as [_ Ht0]. exists (sv_file <$> a), (sv_file <$> b). split_and!.
  - by rewrite <- Hl, fmap_app, (kin_files _ _ Ka), (kin_files _ _ Kb).
  - revert Hf. generalize (a ++ b) as L. intros L Hf. clear -Hf Hsa Htold. induction Htold as [|v x a inst Hv Htold IH]; [constructor|]. apply Forall_cons in Hsa as [Hs Hsa]. constructor; [by eapply told_finished|auto].
  - revert Hf. generalize (a ++ b) as L. intros L Hf. clear -Hf Hsb Hb Kb Ht0 Hc. induction Kb as [|v0 v b0 b Kv Kb IH]; [constructor|]. apply Forall_cons in Hsb as [Hs Hsb], Hb as [Hv Hb], Ht0 as [H0 Ht0]. constructor; [|auto].
    intros d x Hd Hx. eapply (target_untouched rp); [exact Hf|done|done|exact H0|done|done|by apply Hc].
  - intros ->. destruct (decide (err = [])) as [E|E]; [|by destruct (fn_err _ _ _ _ _ _ Hf E)]. destruct (Hend E) as [-> ?]. done.
Qed.
(** The names of the manifest and of the draft are drawn. *)
Lemma journal_keys hex r : hexs hex -> J ∈ r_dirs r -> Forall (fun k : key => k.1 ∈ r_dirs r /\ name_hex J k.1 k.2 = Some hex) [(J, man_name hex); (J, draft_name hex)].
Proof.
  intros Hh HJ. destruct (man_name_valid hex Hh) as (M1 & M2 & _), (draft_name_valid hex Hh) as [D1 D2].
  pose proof (name_not_temp hex (man_name hex) Hh (or_introl eq_refl)) as V1. pose proof (name_not_temp hex (draft_name hex) Hh (or_intror eq_refl)) as V2.
  assert (manifestName (draft_name hex) = false) as M3 by (apply not_true_iff_false; intros H%manifest_not_draft; congruence). unfold name_hex.
  constructor; [|constructor; [|constructor]]; (split; [done|]); cbn [fst snd]; rewrite ?V1, ?V2, bool_decide_true by done; [by rewrite M1, M2|by rewrite M3, D1, D2].
Qed.
Lemma planning_started r l total seen k hex : planning J located files r l total seen -> hexs hex -> r_active r = true ->
  let r1 := r <| r_reserved := Some (k, total) |> <| r_plan := plan_of l |> <| r_store := None |> in
  let r2 := claim [(J, man_name hex); (J, draft_name hex)] r1 in Forall (fun k => r_keys r1 !! k = None) [(J, man_name hex); (J, draft_name hex)] -> started J located files (man_name hex) k l r2 /\ claims r1 r2.
Proof.
  intros [P1 P2 P3 P4 [P5 P5'] P6 P7 [P8 P8']] Hh Ha r1 r2 Hn. destruct (man_name_valid hex Hh) as (M1 & M2 & M3). pose proof (claim_claims _ _ Hn) as Hc. fold r2 in Hc. split; [|done].
  assert (r_keys r2 !! (J, man_name hex) = Some (None, [None])) as Km by (apply claim_in; left). assert (r_keys r2 !! (J, draft_name hex) = Some (None, [None])) as Kd by (apply claim_in; right; left).
  assert (forall k x, r_keys r2 !! k = Some x -> k.1 = J /\ (k.2 = man_name hex \/ k.2 = draft_name hex) /\ x = (None, [None]) \/ r_keys r !! k = Some x) as Hk.
  { intros k0 x Hx. destruct (decide (k0 ∈ [(J, man_name hex); (J, draft_name hex)])) as [Hin|Hin]; [left|right; unfold r2 in Hx; by rewrite claim_out in Hx].
    unfold r2 in Hx. rewrite claim_in in Hx by done. injection Hx as <-. apply elem_of_cons in Hin as [->| ->%list_elem_of_singleton]; auto. }
  pose proof P1 as [F1 F2 F3 F4 F5 F6 [F7 F7']]. split; rewrite ?M3; try done.
  - split; try done.
    + rewrite Forall_forall in *. intros v Hv. destruct (P4 v Hv) as [_ H]. by rewrite (cm_keys _ _ Hc _ _ H).
    + intros d n [x Hx] Hv. apply P6; [|done]. destruct (Hk _ _ Hx) as [(E & En & _)|H]; [|by rewrite H]. cbn in *. by rewrite (name_not_temp hex n Hh En) in Hv.
    + by rewrite P8 in P8'.
    + change (Some (k, total) = Some (k, manifestReservation + plan_total (plan_of l))). congruence.
  - split_and!.
    + exists hex. split_and!; [done| |by rewrite Km, Kd]. intros n [x Hx]. destruct (Hk _ _ Hx) as [(_ & ? & _)|H]; [done|]. by rewrite F1 in H.
    + intros d n c l0 i Hx Hd Hi. destruct (Hk _ _ Hx) as [(_ & _ & [= -> ->])|H]; [by apply list_elem_of_singleton in Hi|]. destruct Hd as [->|Hv]; [by rewrite F1 in H|].
      pose proof (F2 _ _ _ H Hv) as [= -> ->]. by apply list_elem_of_singleton in Hi.
    + intros k0 c l0 i Hx Hi. destruct (Hk _ _ Hx) as [(_ & _ & [= -> ->])|H]; [by apply list_elem_of_singleton in Hi|by eapply F3].
    + intros k0 c l0 Hx. destruct (Hk _ _ Hx) as [(_ & _ & [= -> ->])|H]; [left|by eapply F4].
  - eapply Forall_impl; [exact P3|]. intros v. by apply (target_claims r1).
  - eapply Forall_impl; [exact P4|]. intros v. by apply (unfilled_claims r1).
Qed.
(** A save that stops before its manifest leaves the journal. *)
Lemma leave_safe r r' e : fresh_save r' -> r_active r' = true -> (forall k x, r_keys r !! k = Some x -> r_keys r' !! k = Some x) -> failed e = true ->
  safe (let^ _ := act_ leave_journal in Ret (e, [])) r' (save_result J files r).
Proof.
  intros Hf Ha Hc He. assert (idle J (r' <| r_active := false |>)) as Hi by exact (fresh_idle J located files r' Hf). apply safe_bind. apply rule_leave; [by apply (fresh_inv J located agent request files)|done|].
  split; [by apply idle_recoverable|]. apply safe_ret; [by apply idle_recoverable|]. by apply early_result.
Qed.
Lemma reserve_safe r l total seen Q : planning J located files r l total seen -> (forall e, failed e = true -> Q (inl e) r) ->
  (forall k, let r' := r <| r_reserved := Some (k, total) |> <| r_plan := plan_of l |> <| r_store := None |> in inv r' -> Q (inr k) r') -> safe (reserve total) r Q.
Proof.
  intros Hp H1 H2. pose proof (pg_fresh _ _ _ _ _ _ _ Hp) as Hf. pose proof (fs_shared _ _ _ _ Hf) as [Es Er]. pose proof (fresh_inv J located agent request files r Hf) as HI. unfold reserve. apply safe_bind. apply rule_store; [done|].
  intros s Hok Hopt _ Hres. pose proof (Reserve_cases s total Hok) as Hcase. destruct (Reserve s total) as [s' [k|code]] eqn:E; rewrite Es; cbn [fst snd fmap option_fmap option_map].
  - destruct Hcase as (C1 & C2 & -> & C4 & _). exists (Some (s_next s, total)), (plan_of l). pose proof (next_free s Hok) as Hn. split.
    + split; rewrite E; cbn; [done|done|..].
      * intros k' n' _ Hk' _. rewrite C4, lookup_insert_ne; [done|]. congruence.
      * intros k' n' [= <- <-]. rewrite C4, lookup_insert_eq. auto.
    + assert (inv (r <| r_reserved := Some (s_next s, total) |> <| r_plan := plan_of l |> <| r_store := None |>)) as HI' by (apply idle_recoverable; exact (fresh_idle J located files r Hf)).
      split; [done|]. apply safe_ret; [done|]. by apply H2.
  - subst s'. exists None, (r_plan r). split.
    + split; rewrite E; cbn; [done|done|done|done].
    + assert (r <| r_reserved := None |> <| r_plan := r_plan r |> <| r_store := None |> = r) as Eq by (destruct r; cbn in *; by subst). rewrite Eq. split; [done|]. apply safe_ret; [done|]. by apply H1.
Qed.
Lemma release_safe r k n Q : idle J r -> r_reserved r = Some (k, n) -> r_store r = None -> (let r' := r <| r_reserved := None |> in inv r' -> Q tt r') -> safe (release k) r Q.
Proof.
  intros Hi Hr Hs HQ. pose proof (idle_recoverable J located agent request r Hi) as HI. apply rule_store; [done|]. intros s Hok Hopt _ Hres. specialize (Hres _ _ Hr).
  destruct (Release_cases s k n Hok Hres) as (H1 & H2 & H3). exists None, (r_plan r). split.
  - split; cbn; [done|done| |done]. intros k' n' _ Hk' Hne. rewrite H3, lookup_delete_ne; [done|]. intros <-. by eapply Hne.
  - rewrite Hs. cbn [fmap option_fmap option_map]. assert (r <| r_reserved := None |> <| r_plan := r_plan r |> <| r_store := None |> = r <| r_reserved := None |>) as Eq by (destruct r; cbn in *; by subst). rewrite Eq.
    assert (inv (r <| r_reserved := None |>)) as HI' by (apply idle_recoverable; exact Hi). split; [done|]. by apply HQ.
Qed.
Lemma save_files_safe r : fresh_save r -> (forall d n, validTempName n = true -> r_keys r !! (d, n) = None) -> r_active r = false ->
  safe (save_files J agent request files) r (save_result J files r).
Proof.
  intros Hf Hnot Hact. pose proof (fresh_inv J located agent request files r Hf) as HI. unfold save_files.
  assert (forall e, failed e = true -> safe (Ret (e, [])) r (save_result J files r)) as Hstop by (intros e He; apply safe_ret; [done|]; by apply early_result).
  destruct (bool_decide (files = []) || negb (save_request_ok request)) eqn:Eg; [by apply Hstop|]. apply orb_false_iff in Eg as [Hne%bool_decide_eq_false Hok%negb_false_iff].
  set (r1 := r <| r_active := true |>). assert (fresh_save r1) as Hf1 by (apply (fresh_same _ _ _ r); try done; apply Hf).
  apply safe_bind. apply rule_enter; [done|done|intros e He; rewrite He; by apply Hstop|]. pose proof (fresh_inv J located agent request files r1 Hf1) as HI1. split; [done|]. cbn [failed].
  apply safe_bind. eapply safe_mono.
  { apply (plan_files_safe J located opts agent request files files [] manifestReservation [] r1); [done|]. split; try done; try constructor; try constructor.
    - intros d n [x Hx] Hv. change (r_keys r1) with (r_keys r) in Hx. by rewrite Hnot in Hx.
    - by intros v ?%not_elem_of_nil. }
  intros x r2 HI2 [Hc Hx]. pose proof (cm_rest _ _ Hc) as (_ & _ & _ & _ & _ & Ra & _). change (r_active r2 = true) in Ra.
  assert (forall k x, r_keys r !! k = Some x -> r_keys r2 !! k = Some x) as Hck by apply (cm_keys _ _ Hc). destruct x as [e|[l total]].
  { destruct Hx as [He Hf2]. by apply (leave_safe r r2 e). }
  destruct Hx as (seen & Hp & Hl). cbn in Hl. pose proof (pg_fresh _ _ _ _ _ _ _ Hp) as Hf2. apply safe_bind. eapply reserve_safe; [exact Hp|intros e He; by apply (leave_safe r r2 e)|].
  intros k r3 HI3. cbv beta iota. apply safe_bind. unfold randomName. apply safe_bind. assert (idle J r3) as Hi3 by exact (fresh_idle J located files r2 Hf2).
  assert (forall e, failed e = true -> safe (let^ _ := release k in let^ _ := act_ leave_journal in Ret (e, [])) r3 (save_result J files r)) as Hback.
  { intros e He. apply safe_bind. eapply release_safe; [exact Hi3|reflexivity|reflexivity|]. intros r4 HI4. apply (leave_safe r r4 e); [|done|done|done]. by apply (fresh_same _ _ _ r2). }
  apply rule_random with (ks := fun hex => [(J, man_name hex); (J, draft_name hex)]); [apply publishable_same|done|..].
  - intros e (He & _). apply safe_ret; [done|]. by apply Hback.
  - apply safe_ret; [done|]. by apply Hback.
  - intros hex H1 H2. apply journal_keys; [done|]. exact (fs_dir _ _ _ _ Hf2).
  - intros hex H1 H2 Hn. destruct (planning_started r2 l total seen k hex Hp ltac:(done) Ra Hn) as [Hst _]. set (r4 := claim _ _) in *.
    pose proof (idle_recoverable J located agent request r4 (sr_idle _ _ _ _ _ _ _ Hst)) as HI4. split; [done|]. apply safe_ret; [done|]. cbv beta iota. apply safe_bind.
    eapply safe_mono; [by eapply (save_body_safe J located opts agent request files)|]. intros [[[err l'] pins] inst] r5 HI5 [B1 B2 B3 B4 B5]. cbn in B1, B2, B3, B4, B5. apply safe_bind.
    eapply safe_mono; [by apply (finish_save_safe J false located opts agent request files)|]. intros e r6 HI6 Hfin. apply safe_ret; [done|].
    eapply (finished_result r r5 r6 r2 l l'); [done|apply Hp|done|apply B1|done|exact B5|exact Hfin].
Qed.
End Save.
