(* ===== verification/SaveThreads.v ===== *)
(** * Programs that run together
    Several programs on one machine: at each step one of them makes its next call. What
    each of them knows stays true when another one moves, because their names, new files
    and reservations differ. So a theorem about one program ([safe]) holds for it among the
    others. *)
From Stdlib Require Import ZArith Lia.
From stdpp Require Import base gmap sets list option strings relations.
From coqutil Require Import Datatypes.RecordSettersUsingExistingGetters.
From S2P Require Import Prelude ArtifactStore HostFs SaveFiles SaveManifest SaveJournal SaveLogic.
Local Open Scope Z_scope.
#[global] Arguments const {E} newValue / _.
#[local] Arguments safe : simpl never.

(** One of the programs makes a call. *)
Inductive pool_step {A} : list (prog A) * world -> list (prog A) * world -> Prop :=
| pool_call ps w t B (f : choice -> world -> B * world) k c : ps !! t = Some (Act f k) -> sane false c -> pool_step (ps, w) (<[t := k (f c w).1]> ps, (f c w).2).

(** The calls in the order of a schedule. *)
Fixpoint pool_run {A} (l : list (nat * choice)) (ps : list (prog A)) (w : world) : list (prog A) * world :=
  match l with
  | [] => (ps, w)
  | (t, c) :: l => match ps !! t with Some (Act f k) => pool_run l (<[t := k (f c w).1]> ps) (f c w).2 | _ => pool_run l ps w end
  end.

(** Programs that do not get in each other's way. *)
Record disjoint (r q : resources) : Prop := {
  dj_keys : forall k, is_Some (r_keys r !! k) -> r_keys q !! k = None;
  dj_new : forall i, i ∈ r_new r -> r_files q !! i = None;
  dj_known : forall i, i ∈ r_new q -> r_files r !! i = None;
  dj_reserved : forall k n m, r_reserved r = Some (k, n) -> r_reserved q <> Some (k, m)
}.
Lemma disjoint_sym r q : disjoint r q -> disjoint q r.
Proof.
  intros [D1 D2 D3 D4]. split; [|done|done|].
  - intros k [x Hx]. apply eq_None_not_Some. intros H%D1. congruence.
  - intros k n m H H'. by apply (D4 k m n).
Qed.
Definition active_count (rs : list resources) : Z := foldr (fun r z => b2z (r_active r) + z) 0 rs.
Lemma pool_run_steps {A} l : Forall (fun tc => sane false tc.2) l -> forall (ps : list (prog A)) w, rtc pool_step (ps, w) ((pool_run l ps w).1, (pool_run l ps w).2).
Proof.
  induction 1 as [|[t c] l Hc _ IH]; intros ps w; [done|]. cbn [pool_run]. destruct (ps !! t) as [[a|B f k]|] eqn:E; [done| |done]. eapply rtc_l; [|apply IH]. by apply pool_call.
Qed.
Lemma active_count_insert rs t r r' : rs !! t = Some r -> active_count (<[t := r']> rs) = active_count rs - b2z (r_active r) + b2z (r_active r').
Proof. revert t. induction rs as [|q rs IH]; intros [|t] H; [done|done|injection H as ->; cbn; lia|]. specialize (IH t H). change (active_count (<[S t := r']> (q :: rs))) with (b2z (r_active q) + active_count (<[t := r']> rs)). change (active_count (q :: rs)) with (b2z (r_active q) + active_count rs). lia. Qed.

Section Interference.
Context (J : Identity) (located : bytes -> Identity -> Prop) (opts : Options) (pub : Identity -> bytes -> file -> Prop).
Context (r r' q : resources) (w w' : world) (Hw : wf J located opts w) (Ho : owned J r w) (Ho' : owned J r' w') (Hq : owned J q w) (Hl : local J pub r r' w w').
Context (Hd : disjoint r q) (Hs : r_store r = None) (Hsq : r_store q = None).

Lemma other_key d n : is_Some (r_keys q !! (d, n)) -> r_keys r' !! (d, n) = None.
Proof.
  intros Hk. apply eq_None_not_Some. intros H. destruct (lo_keys _ _ _ _ _ _ Hl d n H) as [H'|(h & Hh & Hn)].
  - apply (dj_keys _ _ Hd) in H'. rewrite H' in Hk. by destruct Hk.
  - apply Hn. by eapply (ow_hex _ _ _ Hq).
Qed.
Lemma other_file i : is_Some (r_files q !! i) -> i ∉ r_new r'.
Proof.
  intros [f Hf] Hi. destruct (ow_file _ _ _ Hq i f Hf) as (f' & Hf' & _). destruct (lo_fresh _ _ _ _ _ _ Hl i Hi) as [H|H]; [|congruence].
  apply (dj_new _ _ Hd) in H. congruence.
Qed.
Lemma other_disjoint : disjoint r' q.
Proof.
  split.
  - intros [d n] H. apply eq_None_not_Some. intros Hk%other_key. rewrite Hk in H. by destruct H.
  - intros i Hi. apply eq_None_not_Some. intros H. by apply (other_file i H).
  - intros i Hi. apply eq_None_not_Some. intros H. pose proof (ow_new _ _ _ Hq i Hi) as Hf. destruct (lo_files _ _ _ _ _ _ Hl i H) as [H'|H']; [|by apply (other_file i Hf)].
    rewrite (dj_known _ _ Hd i Hi) in H'. by destruct H'.
  - intros k n m H Hqk. destruct (lo_reserved _ _ _ _ _ _ Hl k n H) as [H'|H']; [by apply (dj_reserved _ _ Hd k n m)|].
    apply (ow_reserved _ _ _ Hq) in Hqk. congruence.
Qed.
Lemma other_owned : owned J q w'.
Proof.
  split.
  - intros d n c l H. rewrite (lo_entry _ _ _ _ _ _ Hl) by (apply other_key; by rewrite H). by eapply (ow_cur _ _ _ Hq).
  - intros d n c l v H Hm. apply (lo_may _ _ _ _ _ _ Hl) in Hm; [by eapply (ow_may _ _ _ Hq)|apply other_key; by rewrite H].
  - intros i f Hf. destruct (ow_file _ _ _ Hq i f Hf) as (f1 & Hf1 & H1). destruct (lo_file _ _ _ _ _ _ Hl i f1) as (f2 & Hf2 & H2); [apply other_file; by rewrite Hf|done|].
    exists f2. split; [done|by eapply same_trans].
  - intros i d n Hi Hm. pose proof (ow_new _ _ _ Hq i Hi) as Hf. destruct (lo_moved _ _ _ _ _ _ Hl d n i Hm) as [Hm'|[_ [H|(d' & n' & Hk & Hm')]]]; [by eapply (ow_only _ _ _ Hq)|by destruct (other_file i Hf)|].
    pose proof (ow_only _ _ _ Hq i d' n' Hi Hm') as Hk'. rewrite (other_key d' n' Hk') in Hk. by destruct Hk.
  - apply Hq.
  - intros d H. apply (lo_dirs _ _ _ _ _ _ Hl). by apply (ow_dirs _ _ _ Hq).
  - apply Hq.
  - intros d n h Hk Hh. apply (lo_drawn _ _ _ _ _ _ Hl). by eapply (ow_hex _ _ _ Hq).
  - rewrite (proj2 (lo_same _ _ _ _ _ _ Hl)). apply Hq.
  - intros k n H. apply (lo_kept _ _ _ _ _ _ Hl); [done|by apply (ow_reserved _ _ _ Hq)|]. intros m H'. by apply (dj_reserved _ _ Hd k m n).
  - rewrite Hsq. done.
  - rewrite Hsq. by intros n i [].
Qed.
End Interference.

Section Threads.
Context {A : Type} (J : Identity) (located : bytes -> Identity -> Prop) (opts : Options).
Context (pub : nat -> Identity -> bytes -> file -> Prop) (I : nat -> resources -> Prop) (Q : nat -> A -> resources -> Prop).
Context (Hpub : forall t d n f f', same f f' -> pub t d n f -> pub t d n f').

(** The programs with what each of them knows. *)
Record tracked (ps : list (prog A)) (rs : list resources) (w : world) : Prop := {
  tr_wf : wf J located opts w;
  tr_length : length rs = length ps;
  tr_safe : forall t p r, ps !! t = Some p -> rs !! t = Some r -> safe J false located opts (pub t) (I t) p r (Q t);
  tr_owned : forall t r, rs !! t = Some r -> owned J r w /\ r_store r = None;
  tr_disjoint : forall t u r q, t <> u -> rs !! t = Some r -> rs !! u = Some q -> disjoint r q;
  tr_active : w_active w = active_count rs
}.
(** What a business name may hold in [w]: what it may have held in [w0], as it was then, or
    what one of the programs may publish there. *)
Definition published (w0 w : world) : Prop := forall d n v, business J d n -> mayw w d n v ->
  (mayw w0 d n v /\ forall i f, v = Some i -> w_files w0 !! i = Some f -> exists f', w_files w !! i = Some f' /\ same f f') \/
  exists t i f, v = Some i /\ w_files w !! i = Some f /\ pub t d n f.
Lemma published_refl w : published w w.
Proof. intros d n v _ Hm. left. split; [done|]. intros i f _ Hf. eauto using same_refl. Qed.
Lemma published_step w0 w w' r r' t : wf J located opts w -> local J (pub t) r r' w w' -> published w0 w -> published w0 w'.
Proof.
  intros Hw Hl Hp d n v Hb Hm. destruct (lo_publish _ _ _ _ _ _ Hl d n v Hb Hm) as [Hm'|(i & f & -> & Hf & Hpf)]; [|right; by exists t, i, f].
  destruct (Hp d n v Hb Hm') as [[H1 H2]|(t' & i & f & -> & Hf & Hpf)].
  - left. split; [done|]. intros i f -> Hf. destruct (H2 i f eq_refl Hf) as (f1 & Hf1 & S1). destruct (lo_settled _ _ _ _ _ _ Hl d n i f1 Hb Hm' Hf1) as (f2 & Hf2 & S2). eauto using same_trans.
  - right. destruct (lo_settled _ _ _ _ _ _ Hl d n i f Hb Hm' Hf) as (f2 & Hf2 & S2). exists t', i, f2. split_and!; [done|done|by eapply Hpub].
Qed.

Lemma pool_step_tracked ps rs w s : tracked ps rs w -> pool_step (ps, w) s ->
  exists t r r', rs !! t = Some r /\ tracked s.1 (<[t := r']> rs) s.2 /\ local J (pub t) r r' w s.2.
Proof.
  intros [T1 T2 T3 T4 T5 T6] Hs. inversion Hs as [ps0 w0 t B f k c Hp Hc E]. subst. cbn.
  destruct (lookup_lt_is_Some_2 rs t) as [r Hr]; [rewrite T2; by eapply lookup_lt_Some|]. destruct (T4 t r Hr) as [Ho Hst].
  destruct (T3 t _ r Hp Hr) as [_ Hstep]. destruct (Hstep w c Hc T1 Ho) as (r' & Hw' & Ho' & Hl & Hk). exists t, r, r'. split; [done|]. split; [|done]. pose proof (proj2 (lo_store _ _ _ _ _ _ Hl) Hst) as Hst'.
  assert (forall u q, t <> u -> rs !! u = Some q -> owned J q (f c w).2 /\ disjoint r' q) as Hother.
  { intros u q Hu Hq. destruct (T4 u q Hq) as [Hoq Hsq]. pose proof (T5 t u r q Hu Hr Hq) as Hd. split; [by eapply other_owned|by eapply other_disjoint]. }
  split; [done|by rewrite !length_insert|..].
  - intros u p q Hup Huq. destruct (decide (t = u)) as [<-|Hu].
    + rewrite list_lookup_insert_eq in Hup by (by eapply lookup_lt_Some). rewrite list_lookup_insert_eq in Huq by (by eapply lookup_lt_Some). simplify_eq. done.
    + rewrite list_lookup_insert_ne in Hup by done. rewrite list_lookup_insert_ne in Huq by done. eauto.
  - intros u q Huq. destruct (decide (t = u)) as [<-|Hu]; [rewrite list_lookup_insert_eq in Huq by (by eapply lookup_lt_Some); by simplify_eq|].
    rewrite list_lookup_insert_ne in Huq by done. split; [by eapply Hother|by eapply T4].
  - intros u v q q' Huv Hu Hv. destruct (decide (t = u)) as [<-|Htu]; [|destruct (decide (t = v)) as [<-|Htv]].
    + rewrite list_lookup_insert_eq in Hu by (by eapply lookup_lt_Some). rewrite list_lookup_insert_ne in Hv by done. simplify_eq. by eapply Hother.
    + rewrite list_lookup_insert_eq in Hv by (by eapply lookup_lt_Some). rewrite list_lookup_insert_ne in Hu by done. simplify_eq. apply disjoint_sym. by eapply Hother.
    + rewrite list_lookup_insert_ne in Hu, Hv by done. eauto.
  - pose proof (lo_active _ _ _ _ _ _ Hl). rewrite (active_count_insert _ _ _ _ Hr). lia.
Qed.
(** Names that are nobody's are as they were in [w0], and so are the directories. *)
Record elsewhere (w0 : world) (rs : list resources) (w : world) : Prop := {
  el_dirs : forall d, is_Some (w_dirs w !! d) <-> is_Some (w_dirs w0 !! d);
  el_names : forall d n, (forall r, r ∈ rs -> r_keys r !! (d, n) = None) -> entry w d n = entry w0 d n /\ forall v, mayw w d n v -> mayw w0 d n v
}.
Lemma elsewhere_refl w rs : elsewhere w rs w.
Proof. by split. Qed.
Lemma elsewhere_step w0 rs w w' t r r' : rs !! t = Some r -> local J (pub t) r r' w w' -> elsewhere w0 rs w -> elsewhere w0 (<[t := r']> rs) w'.
Proof.
  intros Hr Hl [Hd He]. split; [intros d; by rewrite (lo_dirs _ _ _ _ _ _ Hl)|]. intros d n Hn. assert (r_keys r' !! (d, n) = None) as Hr'.
  { apply Hn. apply list_elem_of_lookup. exists t. apply list_lookup_insert_eq. by eapply lookup_lt_Some. }
  destruct (He d n) as [H1 H2].
  - intros q [u Hu]%list_elem_of_lookup. destruct (decide (t = u)) as [<-|Htu].
    + simplify_eq. apply eq_None_not_Some. intros [x Hx]%(proj2 (lo_grow _ _ _ _ _ _ Hl)). congruence.
    + apply Hn. apply list_elem_of_lookup. exists u. by rewrite list_lookup_insert_ne.
  - rewrite (lo_entry _ _ _ _ _ _ Hl) by done. split; [done|]. intros v Hm. apply H2. by eapply (lo_may _ _ _ _ _ _ Hl).
Qed.

Lemma pool_tracked s s' : rtc pool_step s s' -> forall w0 rs, tracked s.1 rs s.2 -> published w0 s.2 -> elsewhere w0 rs s.2 ->
  exists rs', tracked s'.1 rs' s'.2 /\ published w0 s'.2 /\ elsewhere w0 rs' s'.2.
Proof.
  induction 1 as [s|[ps w] s2 s3 Hs _ IH]; intros w0 rs Ht Hp He; [by exists rs|]. destruct (pool_step_tracked ps rs w s2 Ht Hs) as (t & r & r' & Hr & Ht2 & Hl).
  eapply IH; [exact Ht2|eapply published_step; [apply Ht|exact Hl|done]|by eapply elsewhere_step].
Qed.
End Threads.
