(* ===== verification/SaveSafety.v ===== *)
(** * Saves that run together
    Any number of saves with different targets, interleaved call by call, with calls that
    fail and a crash at any point: a business name holds what it held or a complete file, and
    what a save reports is true. *)
From Stdlib Require Import ZArith Lia.
From stdpp Require Import base gmap sets list option strings relations.
From coqutil Require Import Datatypes.RecordSettersUsingExistingGetters.
From S2P Require Import Prelude Sha256 JsonText Utf8 GoStrings InputValue ArtifactStore HostFs SaveFiles SaveManifest SaveJournal SaveLogic SaveNames SaveInvariant SavePersist SaveRuns SaveThreads.
Local Open Scope Z_scope.
#[global] Arguments const {E} newValue / _.
#[local] Arguments safe : simpl never.

(** A call of [Save] on the open journal. *)
Record save_call := { sc_request : bytes; sc_files : list SaveFile }.
Definition start_saves (J : Identity) (agent : bytes) (cs : list save_call) : list (prog (error * list bool)) :=
  (fun c => save_files J agent (sc_request c) (sc_files c)) <$> cs.
(** The names that a save may write. *)
Definition target_of (v : SaveFile) : list key :=
  match sf_Directory v with Some d => if failed (SaveName (sf_Name v)) then [] else [(dr_id d, sf_Name v)] | None => [] end.
Definition targets (files : list SaveFile) : list key := concat (target_of <$> files).

(** Where directories are in [w]. *)
Definition found (w : world) (p : bytes) (i : Identity) : Prop := w_paths w !! p = Some i /\ is_Some (w_dirs w !! i).
(** A directory outside of the journal under a path that a manifest can hold; what is under the name is a synced file, if any. *)
Record save_site (J : Identity) (w : world) (d : Directory) (n : bytes) : Prop := {
  ss_journal : dr_id d <> J;
  ss_path : found w (dr_path d) (dr_id d) /\ has_prefix 47 (dr_path d) = true /\ ContainsRune (dr_path d) 0 = false /\ text_ok (dr_path d);
  ss_file : forall i, mayw w (dr_id d) n (Some i) -> exists f, w_files w !! i = Some f /\ f_dirty f = false
}.
(** A machine on which the saves [cs] begin. *)
Record ready (J : Identity) (opts : Options) (agent : bytes) (cs : list save_call) (w : world) : Prop := {
  rd_wf : wf J (found w) opts w;
  rd_journal : is_Some (w_dirs w !! J);
  rd_active : w_active w = 0;
  rd_agent : hexs agent;
  rd_calls : forall c, c ∈ cs -> Forall is_byte (sc_request c) /\ (length (sc_files c) <= 1500)%nat;
  rd_sites : forall c v d, c ∈ cs -> v ∈ sc_files c -> sf_Directory v = Some d -> SaveName (sf_Name v) = [] -> save_site J w d (sf_Name v);
  rd_apart : forall t u c c' k, t <> u -> cs !! t = Some c -> cs !! u = Some c' -> k ∈ targets (sc_files c) -> k ∉ targets (sc_files c')
}.

(** What the name holds: what it may have held at first, as it was, or a complete file of a save. *)
Definition holds_old (w0 w : world) (d : Identity) (n : bytes) : Prop :=
  mayw w0 d n (entry w d n) /\ forall i f, entry w d n = Some i -> w_files w0 !! i = Some f -> f_dirty f = false -> exists f', w_files w !! i = Some f' /\ same f f'.
Definition holds_new (cs : list save_call) (w : world) (d : Identity) (n : bytes) : Prop :=
  exists c v dir i f, c ∈ cs /\ v ∈ sc_files c /\ sf_Directory v = Some dir /\ (dr_id dir, sf_Name v) = (d, n) /\ entry w d n = Some i /\ w_files w !! i = Some f /\ complete (sf_Value v) f.

(* ------------------------------------------------------------------ *)
(** ** What a save knows when it begins *)

Lemma elem_of_concat {A} (x : A) ll : x ∈ concat ll <-> exists l, l ∈ ll /\ x ∈ l.
Proof. rewrite list_elem_of_In, in_concat. split; intros (l & H1 & H2); exists l; by rewrite ?list_elem_of_In in *. Qed.
Definition dir_values (dr : dir) (n : bytes) : list (option Identity) := d_dur dr !! n :: (snd <$> filter (fun nv => nv.1 = n) (concat (d_pend dr))).
Lemma dir_values_may dr n v : may dr n v <-> v ∈ dir_values dr n.
Proof.
  unfold may, dir_values. rewrite elem_of_cons, list_elem_of_fmap. split.
  - intros [<-|(u & Hu & Hv)]; [by left|right]. exists (n, v). split; [done|]. apply list_elem_of_filter. split; [done|]. apply elem_of_concat. eauto.
  - intros [->|([n' v'] & -> & [<- (u & Hu & Hv)%elem_of_concat]%list_elem_of_filter)]; [by left|right; eauto].
Qed.
Definition known_key (w : world) (k : key) : option Identity * list (option Identity) :=
  (entry w k.1 k.2, match w_dirs w !! k.1 with Some dr => dir_values dr k.2 | None => [None] end).
Definition first_resources (w : world) (files : list SaveFile) : resources :=
  {| r_keys := list_to_map ((fun k => (k, known_key w k)) <$> targets files); r_files := w_files w; r_new := ∅; r_dirs := dom (w_dirs w); r_euid := w_euid w;
     r_reserved := None; r_active := false; r_store := None; r_plan := [] |}.

Lemma first_key w files k : r_keys (first_resources w files) !! k = if decide (k ∈ targets files) then Some (known_key w k) else None.
Proof.
  cbn. induction (targets files) as [|k' ks IH]; [done|]. rewrite fmap_cons. cbn [list_to_map foldr]. cbn. destruct (decide (k = k')) as [->|Hne].
  - rewrite lookup_insert_eq. by rewrite decide_True by left.
  - rewrite lookup_insert_ne by done. etransitivity; [exact IH|]. apply decide_ext. set_solver.
Qed.
Lemma first_key_some w files k x : r_keys (first_resources w files) !! k = Some x -> k ∈ targets files /\ x = known_key w k.
Proof. rewrite first_key. case_decide; [|done]. by intros [= <-]. Qed.
Lemma known_key_may w k v : is_Some (w_dirs w !! k.1) -> mayw w k.1 k.2 v <-> v ∈ (known_key w k).2.
Proof.
  intros [dr E]. unfold known_key, mayw. cbn. rewrite E, <- dir_values_may. split; [by intros (dr' & [= <-] & H)|eauto].
Qed.
Lemma target_inv files k : k ∈ targets files -> exists v d, v ∈ files /\ sf_Directory v = Some d /\ SaveName (sf_Name v) = [] /\ k = (dr_id d, sf_Name v).
Proof.
  intros (l & (v & -> & Hv)%list_elem_of_fmap & Hk)%elem_of_concat. unfold target_of in Hk. destruct (sf_Directory v) as [d|] eqn:Ed; [|by apply not_elem_of_nil in Hk].
  destruct (SaveName (sf_Name v)) eqn:En; cbn in Hk; [|by apply not_elem_of_nil in Hk]. apply list_elem_of_singleton in Hk as ->. eauto 10.
Qed.
Lemma target_intro files v d : v ∈ files -> sf_Directory v = Some d -> SaveName (sf_Name v) = [] -> (dr_id d, sf_Name v) ∈ target_of v /\ (dr_id d, sf_Name v) ∈ targets files.
Proof.
  intros Hv Hd Hn. assert ((dr_id d, sf_Name v) ∈ target_of v) as Ht by (unfold target_of; rewrite Hd, Hn; left). split; [done|].
  apply elem_of_concat. exists (target_of v). split; [|done]. apply list_elem_of_fmap. eauto.
Qed.

Section Ready.
Context (J : Identity) (opts : Options) (agent : bytes) (cs : list save_call) (w : world) (Hr : ready J opts agent cs w).
Local Abbreviation located := (found w).

Lemma target_site c k : c ∈ cs -> k ∈ targets (sc_files c) -> exists d n, k = (dr_id d, n) /\ save_site J w d n /\ validTempName n = false /\ is_Some (w_dirs w !! k.1).
Proof.
  intros Hc (v & d & Hv & Hd & Hn & ->)%target_inv. exists d, (sf_Name v). pose proof (rd_sites _ _ _ _ _ Hr c v d Hc Hv Hd Hn) as Hs. split_and!; [done|done|by apply saved_name|apply Hs].
Qed.
Lemma first_owned c : c ∈ cs -> owned J (first_resources w (sc_files c)) w.
Proof.
  intros Hc. split; try done.
  - intros d n c' l [_ E]%first_key_some. unfold known_key in E. by injection E as -> _.
  - intros d n c' l v [Hk E]%first_key_some Hm. destruct (target_site c _ Hc Hk) as (_ & _ & _ & _ & _ & Hd). apply (known_key_may w (d, n) v Hd) in Hm. by rewrite <- E in Hm.
  - intros i f Hf. exists f. split; [done|apply same_refl].
  - intros d Hd. cbn in Hd. by apply elem_of_dom.
  - intros d n [x [Hk _]%first_key_some]. destruct (target_site c _ Hc Hk) as (_ & _ & _ & _ & _ & Hd). cbn. by apply elem_of_dom.
  - intros d n h [x [Hk _]%first_key_some] Hh. destruct (target_site c _ Hc Hk) as (d' & n' & [= -> ->] & Hs & Hv & _). unfold name_hex in Hh. rewrite Hv in Hh.
    rewrite bool_decide_eq_false_2 in Hh; [done|apply Hs].
  - by intros n i [].
Qed.
Lemma first_fresh c : c ∈ cs -> fresh_save J located (sc_files c) (first_resources w (sc_files c)).
Proof.
  intros Hc. split; try done.
  - intros n. apply eq_None_not_Some. intros [x [Hk _]%first_key_some]. destruct (target_site c _ Hc Hk) as (d' & n' & [= E _] & Hs & _). by apply (ss_journal _ _ _ _ Hs).
  - intros d n x [Hk _]%first_key_some Hv. destruct (target_site c _ Hc Hk) as (d' & n' & [= _ <-] & _ & Hv' & _). congruence.
  - intros k c' l i [Hk E]%first_key_some Hi. destruct (target_site c _ Hc Hk) as (d & n & -> & Hs & _ & Hd). change l with ((c', l).2) in Hi. rewrite E in Hi.
    apply (known_key_may w _ _ Hd) in Hi. destruct (ss_file _ _ _ _ Hs i Hi) as (f & Hf & _). by exists f.
  - intros k c' l [Hk E]%first_key_some. destruct (target_site c _ Hc Hk) as (d & n & _ & _ & _ & Hd). change l with ((c', l).2). rewrite E. apply (known_key_may w k _ Hd).
    replace c' with (entry w k.1 k.2) by (unfold known_key in E; by injection E as -> _). eapply entry_may; [apply Hr|done].
  - intros v d Hv Hd Hn. pose proof (rd_sites _ _ _ _ _ Hr c v d Hc Hv Hd Hn) as [S1 S2 S3]. destruct S2 as ([S2 S2'] & S4 & S5 & S6). split; try done.
    + split; [cbn; by apply elem_of_dom|]. by apply (wf_ids _ _ _ _ (rd_wf _ _ _ _ _ Hr)).
    + exists (known_key w (dr_id d, sf_Name v)).1, (known_key w (dr_id d, sf_Name v)).2. rewrite first_key, decide_True by (eapply target_intro; done). split; [done|].
      intros i E. cbn in E. destruct (S3 i) as (f & Hf & Hd'); [rewrite <- E; eapply entry_may; [apply Hr|done]|]. by exists f.
  - cbn. apply elem_of_dom. apply Hr.
Qed.
Definition save_pub (t : nat) : Identity -> bytes -> file -> Prop := match cs !! t with Some c => publishable (sc_files c) | None => fun _ _ _ => False end.
Definition save_inv (t : nat) : resources -> Prop := match cs !! t with Some c => recoverable J located agent (sc_request c) | None => fun _ => False end.
Definition save_post (t : nat) : error * list bool -> resources -> Prop :=
  match cs !! t with Some c => save_result J (sc_files c) (first_resources w (sc_files c)) | None => fun _ _ => False end.
Local Abbreviation tracked := (tracked J located opts save_pub save_inv save_post).
Definition first_all : list resources := (fun c => first_resources w (sc_files c)) <$> cs.
Lemma save_pub_same t d n f f' : same f f' -> save_pub t d n f -> save_pub t d n f'.
Proof. unfold save_pub. destruct (cs !! t); [|done]. apply publishable_same. Qed.
Lemma first_tracked : tracked (start_saves J agent cs) first_all w.
Proof.
  split; [apply Hr|unfold first_all, start_saves; by rewrite !length_fmap|..].
  - intros t p r Hp Hq. unfold start_saves in Hp. unfold first_all in Hq. rewrite list_lookup_fmap in Hp. rewrite list_lookup_fmap in Hq. unfold save_pub, save_inv, save_post.
    destruct (cs !! t) as [c|] eqn:Ec; [|done]. injection Hp as <-. injection Hq as <-. assert (c ∈ cs) as Hc by (apply list_elem_of_lookup; eauto).
    destruct (rd_calls _ _ _ _ _ Hr c Hc) as [Hb Hl]. apply save_files_safe; [apply Hr|done|done|by apply first_fresh| |done].
    intros d n Hv. apply eq_None_not_Some. intros [x [Hk _]%first_key_some]. destruct (target_site c _ Hc Hk) as (d' & n' & [= _ <-] & _ & Hv' & _). congruence.
  - intros t r (c & -> & Hc)%list_lookup_fmap_Some. split; [|done]. apply first_owned. apply list_elem_of_lookup. eauto.
  - intros t u r q Htu (c & -> & Hc)%list_lookup_fmap_Some (c' & -> & Hc')%list_lookup_fmap_Some. split; try done.
    intros k [x [Hk _]%first_key_some]. apply eq_None_not_Some. intros [y [Hk' _]%first_key_some]. by apply (rd_apart _ _ _ _ _ Hr t u c c' k).
  - rewrite (rd_active _ _ _ _ _ Hr). unfold first_all. clear. induction cs as [|c l IH]; [done|]. exact IH.
Qed.
Lemma saves_tracked ps w' : rtc pool_step (start_saves J agent cs, w) (ps, w') -> exists rs, tracked ps rs w' /\ published J save_pub w w' /\ elsewhere w rs w'.
Proof.
  intros H. apply (pool_tracked _ _ _ _ _ _ save_pub_same _ _ H w first_all first_tracked (published_refl _ _ _) (elsewhere_refl _ _)).
Qed.

(** ** Crashes *)

Lemma crash_may pick torn w1 d n v : mayw (crash pick torn w1) d n v -> mayw w1 d n v.
Proof.
  intros (dr & Hd & Hm). unfold crash in Hd. cbn in Hd. rewrite map_lookup_imap in Hd. destruct (w_dirs w1 !! d) as [dr1|] eqn:E; [|done]. injection Hd as <-. exists dr1. split; [done|]. by eapply crash_dir_only.
Qed.
Lemma crash_entry pick torn w1 d n : is_Some (w_dirs w1 !! d) -> mayw (crash pick torn w1) d n (entry (crash pick torn w1) d n).
Proof.
  intros [dr E]. exists (crash_dir (pick d) dr). unfold entry, crash. cbn. rewrite map_lookup_imap, E. split; [done|]. by left.
Qed.
Lemma crash_clean pick torn w1 i f : w_files w1 !! i = Some f -> f_dirty f = false -> w_files (crash pick torn w1) !! i = Some f.
Proof. intros Hf Hd. unfold crash. cbn. rewrite map_lookup_imap, Hf. cbn. unfold crash_file. by rewrite Hd. Qed.

(** ** Business names *)

Lemma published_holds w1 w2 d n : published J save_pub w w1 -> business J d n -> mayw w1 d n (entry w2 d n) ->
  (forall i f, w_files w1 !! i = Some f -> f_dirty f = false -> w_files w2 !! i = Some f) -> holds_old w w2 d n \/ holds_new cs w2 d n.
Proof.
  intros Hp Hb Hm Hf. destruct (Hp d n _ Hb Hm) as [[H1 H2]|(t & i & f & E & Hi & Hpub)].
  - left. split; [done|]. intros i f E Hi Hd. destruct (H2 i f E Hi) as (f' & Hf' & Hs). exists f'. split; [|done]. apply Hf; [done|]. apply same_inv in Hs as (_ & -> & _). done.
  - right. unfold save_pub in Hpub. destruct (cs !! t) as [c|] eqn:Ec; [|done]. destruct Hpub as (v & dir & Hv & Hd & <- & <- & Hc). exists c, v, dir, i, f.
    split_and!; try done; [apply list_elem_of_lookup; eauto|apply Hf; [done|apply Hc]].
Qed.
Lemma finished_save ps w1 rs t c e told : tracked ps rs w1 -> ps !! t = Some (Ret (e, told)) -> cs !! t = Some c ->
  exists r, rs !! t = Some r /\ owned J r w1 /\ save_result J (sc_files c) (first_resources w (sc_files c)) (e, told) r.
Proof.
  intros Ht Hp Hc. destruct (lookup_lt_is_Some_2 rs t) as [r Hq]; [rewrite (tr_length _ _ _ _ _ _ _ _ _ Ht); by eapply lookup_lt_Some|]. exists r. split; [done|]. split; [by eapply (tr_owned _ _ _ _ _ _ _ _ _ Ht)|].
  destruct (tr_safe _ _ _ _ _ _ _ _ _ Ht t _ r Hp Hq) as [_ HQ]. unfold save_post in HQ. by rewrite Hc in HQ.
Qed.
Lemma all_clean ps w1 rs : tracked ps rs w1 -> Forall (fun p => exists told, p = Ret ([], told)) ps -> forall r, r ∈ rs -> owned J r w1 /\ idle J r /\ r_active r = false.
Proof.
  intros Ht Hd r [t Hq]%list_elem_of_lookup. destruct (lookup_lt_is_Some_2 ps t) as [p Hp]; [rewrite <- (tr_length _ _ _ _ _ _ _ _ _ Ht); by eapply lookup_lt_Some|].
  rewrite Forall_lookup in Hd. destruct (Hd t p Hp) as (told & ->). destruct (cs !! t) as [c|] eqn:Hc; cycle 1.
  { destruct (tr_safe _ _ _ _ _ _ _ _ _ Ht t _ r Hp Hq) as [_ HQ]. unfold save_post in HQ. by rewrite Hc in HQ. }
  destruct (finished_save _ _ _ _ _ _ _ Ht Hp Hc) as (r' & Hr' & Ho & [_ H]). simplify_eq. destruct (H eq_refl) as (H1 & H2 & _). done.
Qed.
End Ready.

(** The file is complete under its name. *)
Definition installed (w : world) (v : SaveFile) : Prop :=
  exists d i f, sf_Directory v = Some d /\ entry w (dr_id d) (sf_Name v) = Some i /\ w_files w !! i = Some f /\ complete (sf_Value v) f.
Definition unchanged_name (w0 w : world) (v : SaveFile) : Prop :=
  forall d, sf_Directory v = Some d -> SaveName (sf_Name v) = [] -> entry w (dr_id d) (sf_Name v) = entry w0 (dr_id d) (sf_Name v).
Lemma installed_now J r w v b : owned J r w -> installed_file r v b -> installed w v /\ (b = true -> forall pick torn, installed (crash pick torn w) v).
Proof.
  intros Ho (d & i & f & l & Hd & Hk & Hf & Hc & Hl). destruct (ow_file _ _ _ Ho i f Hf) as (f' & Hf' & Hs). pose proof (complete_same _ _ _ Hs Hc) as Hc'. split.
  - exists d, i, f'. split_and!; try done. by eapply (ow_cur _ _ _ Ho).
  - intros E pick torn. specialize (Hl E). subst. exists d, i, f'. split_and!; try done; [|apply crash_clean; [done|apply Hc']].
    assert (is_Some (w_dirs w !! dr_id d)) as Hdir by (apply (ow_dirs _ _ _ Ho), (ow_key_dir _ _ _ Ho _ (sf_Name v)); by rewrite Hk).
    pose proof (crash_may _ _ _ _ _ _ (crash_entry pick torn w (dr_id d) (sf_Name v) Hdir)) as Hm. by apply (ow_may _ _ _ Ho _ _ _ _ _ Hk), list_elem_of_singleton in Hm.
Qed.
Lemma untouched_now J opts agent cs w r w' c v : ready J opts agent cs w -> c ∈ cs -> v ∈ sc_files c -> owned J r w' -> untouched (first_resources w (sc_files c)) r v -> unchanged_name w w' v.
Proof.
  intros Hr Hc Hv Ho Hu d Hd Hn. destruct (target_intro _ v d Hv Hd Hn) as [_ Ht]. destruct (Hu d _ Hd (eq_trans (first_key w (sc_files c) (dr_id d, sf_Name v)) (decide_True _ _ Ht))) as ([y l] & Hy & E).
  cbn in E. subst y. by eapply (ow_cur _ _ _ Ho).
Qed.

(* ------------------------------------------------------------------ *)
(** ** An example *)

(** Two saves, one over a file that is there, by an agent whose journal is empty. *)
Module Example.
Definition id (n : Z) : Identity := {| Device := 1; Inode := n; Extra := 0; Mount := [] |}.
Definition spool := id 2.
Definition out := id 3.
Definition was := id 4.
Definition old : file := {| f_data := lit "old"; f_dirty := false; f_regular := true; f_links := 1; f_uid := 7; f_mode := 384; f_modified := 1; f_changed := (1, 0) |}.
Definition folder (m : gmap bytes Identity) : dir := {| d_cur := m; d_dur := m; d_pend := []; d_private := true |}.
Definition options : Options := {| QuotaBytes := 10 ^ 9; MaxPending := 4; MaxObjects := 100; TransferTimeout := 1000 |}.
Definition machine : world :=
  {| w_files := {[ was := old ]}; w_dirs := {[ spool := folder ∅; out := folder {[ lit "x.txt" := was ]} ]}; w_paths := {[ lit "/out" := out ]}; w_euid := 7;
     w_store := new_store options; w_journal := None; w_active := 0; w_stopped := false; w_drawn := [] |}.
Definition agent : bytes := replicate 32 97.
Definition value (text : bytes) : FileValue :=
  {| fv_Pointer := []; fv_ID := []; fv_Name := lit "a"; fv_MIMEType := []; fv_SHA256 := hex_sha256 text; fv_RequestID := lit "r"; fv_SizeBytes := Z.of_nat (length text) |}.
Definition to (name text : bytes) : SaveFile :=
  {| sf_Directory := Some {| dr_handle := 0; dr_id := out; dr_path := lit "/out"; dr_open := true |}; sf_Name := name; sf_Overwrite := true; sf_Value := value text |}.
Definition calls : list save_call := [{| sc_request := lit "r"; sc_files := [to (lit "x.txt") (lit "new")] |}; {| sc_request := lit "s"; sc_files := [to (lit "y.txt") (lit "more")] |}].
Definition pick (text : bytes) (n : nat) : choice :=
  {| ch_fault := None; ch_canceled := false; ch_count := 0; ch_inode := 100 + Z.of_nat (n mod 900); ch_time := 5;
     ch_text := hexdigit (Z.of_nat (n mod 16)) :: hexdigit (Z.of_nat (n / 16 mod 16)) :: replicate 30 97; ch_names := []; ch_reads := [(text, []); ([], [ErrEOF])] |}.
(** The saves in turn. *)
Definition turns (k : nat) : list (nat * choice) := (fun n => if Nat.even n then (0%nat, pick (lit "new") n) else (1%nat, pick (lit "more") n)) <$> seq 0 k.
Definition after (k : nat) := pool_run (turns k) (start_saves spool agent calls) machine.
Lemma machine_may d n i : mayw machine d n (Some i) -> d = out /\ n = lit "x.txt" /\ i = was.
Proof.
  intros (dr & Hd & [Hm|(u & Hu & _)]); cbn in Hd; apply lookup_insert_Some in Hd as [[<- <-]|[_ [<- <-]%lookup_singleton_Some]]; cbn in *; try by apply elem_of_nil in Hu.
  - by rewrite lookup_empty in Hm.
  - by apply lookup_singleton_Some in Hm as [<- <-].
Qed.
Lemma machine_wf : wf spool (found machine) options machine.
Proof.
  split; try done.
  - intros d dr. cbn. intros [[<- <-]|[_ [<- <-]%lookup_singleton_Some]]%lookup_insert_Some; done.
  - intros d n i (-> & -> & ->)%machine_may. left. by exists old.
  - intros d n i h (-> & -> & ->)%machine_may. by vm_compute.
  - intros i f. cbn. intros [<- <-]%lookup_singleton_Some. by repeat split.
  - intros d [dr Hd]. cbn in Hd. apply lookup_insert_Some in Hd as [[<- <-]|[_ [<- <-]%lookup_singleton_Some]]; by repeat split.
Qed.
Lemma machine_ready : ready spool options agent calls machine.
Proof.
  split; try done; [apply machine_wf|..].
  - intros c [->|[->|[]%elem_of_nil]%elem_of_cons]%elem_of_cons; (split; [by repeat constructor|cbn; lia]).
  - intros c v d Hc Hv Hd _.
    assert (d = {| dr_handle := 0; dr_id := out; dr_path := lit "/out"; dr_open := true |}) as ->.
    { apply elem_of_cons in Hc as [->|[->|[]%elem_of_nil]%elem_of_cons]; apply list_elem_of_singleton in Hv as ->; by injection Hd as <-. }
    split; [done|split_and!; [by split|done|done|by split; [repeat constructor|]]|]. intros i (_ & _ & ->)%machine_may. by exists old.
  - intros [|[|t]] [|[|u]] c c' k Ht; try done; intros [= <-] [= <-]; intros ->%list_elem_of_singleton; by intros [= ?]%list_elem_of_singleton.
Qed.
Lemma pick_sane calm text n : sane calm (pick text n).
Proof.
  split; [|done]. pose proof (Nat.mod_upper_bound n 900). change (0 <= 100 + Z.of_nat (n mod 900) <= int64_max). unfold int64_max. lia.
Qed.
Lemma turns_sane k : Forall (fun tc => sane false tc.2) (turns k).
Proof. apply Forall_fmap, Forall_forall. intros n _. cbn. destruct (Nat.even n); apply pick_sane. Qed.
Lemma after_steps k : rtc pool_step (start_saves spool agent calls, machine) ((after k).1, (after k).2).
Proof. unfold after. apply pool_run_steps, turns_sane. Qed.
End Example.
Import Example.
(* ------------------------------------------------------------------ *)
(** ** Properties *)

(** C3: saves that run together publish atomically. At every point of any interleaving of
    saves with different targets, whatever calls fail, and also after a crash at that point,
    each business name holds an entry that it may have had before, with the file as it was,
    or a complete, synced file of a save for that name, of the declared size and SHA-256. *)
Theorem saves_atomic J opts agent cs w0 ps w d n :
  ready J opts agent cs w0 -> rtc pool_step (start_saves J agent cs, w0) (ps, w) -> business J d n -> is_Some (w_dirs w0 !! d) ->
  (holds_old w0 w d n \/ holds_new cs w d n) /\ forall pick torn, holds_old w0 (crash pick torn w) d n \/ holds_new cs (crash pick torn w) d n.
Proof.
  intros Hr Hs Hb Hd. destruct (saves_tracked _ _ _ _ _ Hr _ _ Hs) as (rs & Ht & Hp & He). apply (el_dirs _ _ _ He) in Hd. split.
  - eapply published_holds; [exact Hp|done| |done]. eapply entry_may; [apply Ht|done].
  - intros pick torn. eapply published_holds; [exact Hp|done| |by apply crash_clean]. by eapply crash_may, crash_entry.
Qed.

(** C15: what a save reports is true. When it has returned, the files that it announced are
    complete under their names, and those announced as durable also after a crash; the names
    of the other files are as they were. Without an error all files are installed durably. *)
Theorem saves_reported J opts agent cs w0 ps w t c e told :
  ready J opts agent cs w0 -> rtc pool_step (start_saves J agent cs, w0) (ps, w) -> cs !! t = Some c -> ps !! t = Some (Ret (e, told)) ->
  exists a b, sc_files c = a ++ b /\
    Forall2 (fun v sure => installed w v /\ (sure = true -> forall pick torn, installed (crash pick torn w) v)) a told /\
    Forall (unchanged_name w0 w) b /\ (e = [] -> b = [] /\ Forall (eq true) told).
Proof.
  intros Hr Hs Hc Hp. destruct (saves_tracked _ _ _ _ _ Hr _ _ Hs) as (rs & Ht & _ & _). destruct (finished_save _ _ _ _ _ _ _ _ _ _ _ _ Ht Hp Hc) as (r & _ & Ho & [(a & b & E & H1 & H2 & H3) _]).
  assert (c ∈ cs) as Hin by (apply list_elem_of_lookup; eauto). exists a, b. split_and!; try done.
  - eapply Forall2_impl; [exact H1|]. intros v sure. by eapply installed_now.
  - apply Forall_forall. intros v Hv. rewrite Forall_forall in H2. eapply untouched_now; [exact Hr|exact Hin| |exact Ho|by apply H2]. rewrite E. set_solver.
Qed.

(** C16: saves that succeed leave nothing behind. When all saves have returned without an
    error, every temporary name and every name in the journal was there before, whatever a
    crash leaves, and no save is counted as active. *)
Theorem saves_leave_nothing J opts agent cs w0 ps w d n h i :
  ready J opts agent cs w0 -> rtc pool_step (start_saves J agent cs, w0) (ps, w) -> Forall (fun p => exists told, p = Ret ([], told)) ps ->
  (name_hex J d n = Some h -> mayw w d n (Some i) -> mayw w0 d n (Some i)) /\ w_active w = 0.
Proof.
  intros Hr Hs Hd. destruct (saves_tracked _ _ _ _ _ Hr _ _ Hs) as (rs & Ht & _ & He). pose proof (all_clean _ _ _ _ _ _ _ _ Ht Hd) as Hc. split.
  - intros Hh Hm. destruct (el_names _ _ _ He d n) as [_ H]; [|by apply H]. intros r Hr'. apply eq_None_not_Some. intros [[c l] Hk]. destruct (Hc r Hr') as (Ho & (_ & Hi & _) & _).
    apply (Hi d n c l i Hk); [|by eapply (ow_may _ _ _ Ho)]. unfold name_hex in Hh. destruct (validTempName n); [by right|]. case_bool_decide; [by left|done].
  - rewrite (tr_active _ _ _ _ _ _ _ _ _ Ht). clear -Hc. induction rs as [|r rs IH]; [done|]. destruct (Hc r ltac:(left)) as (_ & _ & Ha).
    change (active_count (r :: rs)) with (b2z (r_active r) + active_count rs). rewrite Ha, IH; [done|]. intros q Hq. apply Hc. by right.
Qed.

(** The saves of the example in the middle of their work. *)
Lemma saves_atomic_witness :
  (holds_old machine (after 100).2 out (lit "x.txt") \/ holds_new calls (after 100).2 out (lit "x.txt")) /\
  forall pick torn, holds_old machine (crash pick torn (after 100).2) out (lit "x.txt") \/ holds_new calls (crash pick torn (after 100).2) out (lit "x.txt").
Proof. refine (saves_atomic spool options agent calls machine (after 100).1 (after 100).2 out (lit "x.txt") _ _ _ _); [exact machine_ready|exact (after_steps 100)|split; [done|by vm_compute]|by eexists]. Defined.
Lemma saves_reported_witness :
  exists a b, [to (lit "x.txt") (lit "new")] = a ++ b /\
    Forall2 (fun v sure => installed (after 300).2 v /\ (sure = true -> forall pick torn, installed (crash pick torn (after 300).2) v)) a [true] /\
    Forall (unchanged_name machine (after 300).2) b /\ ([] = [] :> error -> b = [] /\ Forall (eq true) [true]).
Proof.
  apply (saves_reported spool options agent calls machine (after 300).1 (after 300).2 0 {| sc_request := lit "r"; sc_files := [to (lit "x.txt") (lit "new")] |});
    [exact machine_ready|exact (after_steps 300)|done|vm_compute; reflexivity].
Defined.
Lemma saves_leave_nothing_witness : w_active (after 300).2 = 0.
Proof.
  apply (saves_leave_nothing spool options agent calls machine (after 300).1 (after 300).2 out (lit "x.txt") [] was); [exact machine_ready|exact (after_steps 300)|].
  assert ((after 300).1 = [Ret ([], [true]); Ret ([], [true])]) as -> by (vm_compute; reflexivity). repeat constructor; by eexists.
Defined.
