(* ===== verification/SaveSound.v ===== *)
(** * What a crash leaves of saves
    The journal and the temporary files of any number of interrupted saves. A ticket stands
    for one of them: its random name, its request, its temporary names, and the number and size of
    its reservation. [sound] says that the journal describes what is there; removing
    what the journal says, in the right order, keeps it so. *)
From Stdlib Require Import ZArith Lia.
From stdpp Require Import base gmap sets list option strings.
From coqutil Require Import Datatypes.RecordSettersUsingExistingGetters.
From S2P Require Import Prelude Utf8 Sha256 Strconv Json JsonText JsonReads GoStrings InputValue ArtifactStore HostFs SaveFiles SaveManifest SaveJournal SaveLogic SaveNames SaveInvariant SaveCalls SaveRemoval SaveStore.
Local Open Scope Z_scope.
#[global] Arguments const {E} newValue / _.
#[local] Arguments lit : simpl never.

Record ticket := { tk_hex : bytes; tk_request : bytes; tk_plan : list (key * Z); tk_slot : nat; tk_weight : Z }.
Definition tk_keys (t : ticket) : list key := (tk_plan t).*1.
Definition tk_manifest (t : ticket) : bytes := man_name (tk_hex t).
Definition tk_draft (t : ticket) : bytes := draft_name (tk_hex t).
Definition weights (l : list ticket) : Z := foldr (fun t z => tk_weight t + z) 0 l.

(** ** Files after a crash *)

(** [f'] is [f] later: unless [f] was synced its contents may have been lost. *)
Record aged (f f' : file) : Prop := {
  ag_kind : f_regular f' = f_regular f /\ f_links f' = f_links f /\ f_uid f' = f_uid f /\ f_mode f' = f_mode f;
  ag_length : (length (f_data f') <= length (f_data f))%nat;
  ag_synced : f_dirty f = false -> f_data f' = f_data f /\ f_dirty f' = false /\ f_modified f' = f_modified f
}.
Lemma aged_same f f' : same f f' -> aged f f'.
Proof. intros (E1 & E2 & E3 & E4 & E5 & E6 & E7)%same_inv. split; [done|by rewrite E1|by rewrite E1, E2, E7]. Qed.
Lemma aged_crash torn f : aged f (crash_file torn f).
Proof. unfold crash_file. destruct (f_dirty f) eqn:E; [|by apply aged_same, same_refl]. split; [done|cbn; rewrite length_take; lia|congruence]. Qed.
Lemma aged_trans f g h : aged f g -> aged g h -> aged f h.
Proof.
  intros [(A1 & A2 & A3 & A4) A5 A6] [(B1 & B2 & B3 & B4) B5 B6]. split; [split_and!; congruence|lia|]. intros Hf. destruct (A6 Hf) as (E1 & E2 & E3). destruct (B6 E2) as (F1 & F2 & F3). split_and!; congruence.
Qed.
Definition aged_files (r r' : resources) : Prop := r_euid r' = r_euid r /\ forall i f, r_files r !! i = Some f -> exists f', r_files r' !! i = Some f' /\ aged f f'.
Lemma aged_files_same r r' : r_files r' = r_files r -> r_euid r' = r_euid r -> aged_files r r'.
Proof. intros E1 E2. split; [done|]. intros i f Hf. exists f. rewrite E1. split; [done|]. apply aged_same, same_refl. Qed.
Lemma aged_private euid f f' : aged f f' -> is_private euid f' = is_private euid f.
Proof. intros [(_ & _ & E1 & E2) _ _]. unfold is_private. by rewrite E1, E2. Qed.
Lemma ordinary_aged r r' f f' : r_euid r' = r_euid r -> aged f f' -> ordinary r f -> ordinary r' f'.
Proof. intros Ee Ha (H1 & H2 & H3). unfold ordinary. rewrite Ee, (aged_private _ _ _ Ha). destruct Ha as [(-> & -> & _) _ _]. done. Qed.
Lemma occupant_aged r r' e i : aged_files r r' -> occupant r e i -> occupant r' e i.
Proof.
  intros [Ee Hf] (f & Hi & O1 & O2 & O3 & O4). destruct (Hf i f Hi) as (f' & Hi' & Ha). exists f'. rewrite Ee, (aged_private _ _ _ Ha). destruct Ha as [(A1 & A2 & A3 & A4) A5 A6]. rewrite A1, A2. split_and!; try done.
  destruct (se_Identity e) as [id|].
  - destruct O4 as [(E & Eo & Hp & Hl)|(Hne & Hd & o & Eo & Hm)]; [left; rewrite A3; split_and!; try done; lia|right]. destruct (A6 Hd) as (D1 & D2 & D3). split_and!; try done. exists o. split; [done|].
    unfold MatchesDisplaced, file_identity in *. cbn in *. by rewrite D1, D3, A3, A4.
  - destruct O4 as (Hd1 & Hd2 & Hp). destruct (A6 Hd2) as (D1 & D2 & _). split_and!; [congruence|done|done].
Qed.
Lemma manifest_file_aged r r' i m : aged_files r r' -> manifest_file r i m -> manifest_file r' i m.
Proof.
  intros [Ee Hf] (f & Hi & Ho & Hd & Hl & Hdec). destruct (Hf i f Hi) as (f' & Hi' & Ha). exists f'. destruct (ag_synced _ _ Ha Hd) as (D1 & D2 & _). rewrite D1. split_and!; try done. by eapply ordinary_aged.
Qed.
Lemma draft_file_aged r r' i : aged_files r r' -> draft_file r i -> draft_file r' i.
Proof.
  intros [Ee Hf] (f & Hi & Ho & Hl). destruct (Hf i f Hi) as (f' & Hi' & Ha). exists f'. split_and!; [done|by eapply ordinary_aged|]. pose proof (ag_length _ _ Ha). lia.
Qed.

Section Sound.
Context (J : Identity) (located : bytes -> Identity -> Prop) (opts : Options) (agent : bytes) (T : list ticket).

Record tickets_ok : Prop := {
  to_hex : forall t, t ∈ T -> hexs (tk_hex t);
  to_hexes : NoDup (tk_hex <$> T);
  to_requests : NoDup (tk_request <$> T);
  to_plans : NoDup (concat (tk_keys <$> T));
  to_dirs : forall t k, t ∈ T -> k ∈ tk_keys t -> k.1 <> J;
  to_weights : forall t, t ∈ T -> manifestReservation <= tk_weight t;
  to_pending : Z.of_nat (length T) <= MaxPending opts;
  to_objects : Z.of_nat (length T) <= MaxObjects opts;
  to_quota : weights T <= QuotaBytes opts
}.
(** The manifest [m] of the ticket [t] describes what may be under its temporary names. *)
Record describes (r : resources) (t : ticket) (m : saveManifest) : Prop := {
  ds_accepted : manifest_accepted agent m = true;
  ds_request : sm_Request m = tk_request t;
  ds_weight : tk_weight t = manifestReservation + entry_total (Entries m) /\ tk_weight t <= int64_max;
  ds_plan : (fun e => (entry_key e, se_Reserved e)) <$> Entries m = tk_plan t;
  ds_entries : forall e, e ∈ Entries m -> entry_static located e /\ exists c l, r_keys r !! entry_key e = Some (c, l) /\ forall i, Some i ∈ l -> occupant r e i
}.
Record sound (r : resources) : Prop := {
  sd_names : forall n c l i, r_keys r !! (J, n) = Some (c, l) -> Some i ∈ l -> n = lit ".lock" \/ n = lit "identity" \/ exists t, t ∈ T /\ (n = tk_manifest t \/ n = tk_draft t);
  sd_draft : forall t c l i, t ∈ T -> r_keys r !! (J, tk_draft t) = Some (c, l) -> Some i ∈ l -> draft_file r i;
  sd_manifest : forall t c l i, t ∈ T -> r_keys r !! (J, tk_manifest t) = Some (c, l) -> Some i ∈ l -> exists m, manifest_file r i m /\ describes r t m;
  sd_temps : forall d n c l i, r_keys r !! (d, n) = Some (c, l) -> validTempName n = true -> Some i ∈ l ->
    exists t c' l', t ∈ T /\ (d, n) ∈ tk_keys t /\ r_keys r !! (J, tk_manifest t) = Some (c', l') /\ None ∉ l';
  sd_known : forall d n c l i, r_keys r !! (d, n) = Some (c, l) -> validTempName n = true -> Some i ∈ l -> is_Some (r_files r !! i);
  sd_cur : forall k c l, r_keys r !! k = Some (c, l) -> c ∈ l;
  sd_dirs : J ∈ r_dirs r /\ forall k, is_Some (r_keys r !! k) -> k.1 ∈ r_dirs r
}.

(* ------------------------------------------------------------------ *)
(** ** Tickets *)

Lemma weights_app a b : weights (a ++ b) = weights a + weights b.
Proof. induction a as [|t a IH]; [done|]. cbn. unfold weights in *. rewrite IH. lia. Qed.
Lemma weights_perm a b : a ≡ₚ b -> weights a = weights b.
Proof. induction 1; cbn; unfold weights in *; lia. Qed.
Context (HT : tickets_ok).
Lemma weights_sub P : NoDup P -> P ⊆ T -> weights P <= weights T /\ (length P <= length T)%nat.
Proof.
  intros Hn Hs. assert (P ⊆+ T) as Hsub by by apply NoDup_submseteq. split; [|by apply submseteq_length].
  apply submseteq_Permutation in Hsub as (k & Hk). rewrite (weights_perm _ _ Hk), weights_app. assert (forall t, t ∈ k -> 0 <= tk_weight t) as Hw.
  { intros t Ht. assert (t ∈ T) as HtT by (rewrite Hk; apply elem_of_app; by right). pose proof (to_weights HT t HtT). unfold manifestReservation, manifestLimit in *. lia. }
  assert (0 <= weights k); [|lia]. clear -Hw. induction k as [|t k IH]; [done|]. cbn. pose proof (Hw t ltac:(left)). assert (0 <= weights k) by (apply IH; intros; apply Hw; by right). unfold weights in *. lia.
Qed.
Lemma ticket_unique t u : t ∈ T -> u ∈ T -> tk_hex t = tk_hex u -> t = u.
Proof.
  intros [i Hi]%list_elem_of_lookup [j Hj]%list_elem_of_lookup E.
  assert (i = j) as -> by (eapply (NoDup_lookup _ i j (tk_hex t) (to_hexes HT)); rewrite list_lookup_fmap, ?Hi, ?Hj; cbn; by rewrite ?E). congruence.
Qed.
Lemma request_unique t u : t ∈ T -> u ∈ T -> tk_request t = tk_request u -> t = u.
Proof.
  intros [i Hi]%list_elem_of_lookup [j Hj]%list_elem_of_lookup E.
  assert (i = j) as -> by (eapply (NoDup_lookup _ i j (tk_request t) (to_requests HT)); rewrite list_lookup_fmap, ?Hi, ?Hj; cbn; by rewrite ?E). congruence.
Qed.
Lemma plan_unique t u k : t ∈ T -> u ∈ T -> k ∈ tk_keys t -> k ∈ tk_keys u -> t = u.
Proof.
  intros Ht Hu Hk Hk'. pose proof (to_plans HT) as Hn. clear HT. induction T as [|x l IH]; [by apply not_elem_of_nil in Ht|]. rewrite fmap_cons in Hn. cbn in Hn. apply NoDup_app in Hn as (_ & H1 & H2).
  assert (forall y, y ∈ l -> k ∈ tk_keys y -> k ∈ concat (tk_keys <$> l)) as Hin.
  { intros y Hy Hky. apply list_elem_of_In, in_concat. exists (tk_keys y). rewrite <- !list_elem_of_In. split; [|done]. apply list_elem_of_fmap. eauto. }
  apply elem_of_cons in Ht as [->|Ht], Hu as [->|Hu]; [done|destruct (H1 k); eauto|destruct (H1 k); eauto|auto].
Qed.
Lemma manifest_unique t u : t ∈ T -> u ∈ T -> tk_manifest t = tk_manifest u -> t = u.
Proof.
  intros Ht Hu E. apply ticket_unique; [done..|]. destruct (man_name_valid _ (to_hex HT t Ht)) as (_ & E1 & _), (man_name_valid _ (to_hex HT u Hu)) as (_ & E2 & _).
  unfold tk_manifest in E. rewrite <- E1, <- E2. by rewrite E.
Qed.
Lemma draft_unique t u : t ∈ T -> u ∈ T -> tk_draft t = tk_draft u -> t = u.
Proof.
  intros Ht Hu E. apply ticket_unique; [done..|]. destruct (draft_name_valid _ (to_hex HT t Ht)) as (_ & E1), (draft_name_valid _ (to_hex HT u Hu)) as (_ & E2).
  unfold tk_draft in E. rewrite <- E1, <- E2. by rewrite E.
Qed.
Lemma plan_nodup t : t ∈ T -> NoDup (tk_keys t).
Proof.
  intros Ht. pose proof (to_plans HT) as Hn. clear HT. induction T as [|x l IH]; [by apply not_elem_of_nil in Ht|]. rewrite fmap_cons in Hn. cbn in Hn. apply NoDup_app in Hn as (H0 & _ & H2).
  apply elem_of_cons in Ht as [->|Ht]; auto.
Qed.

(** ** Removals keep it sound *)

Section Shrink.
Context (r r' : resources) (Hs : sound r) (Ha : aged_files r r') (Hdom : forall k, is_Some (r_keys r' !! k) <-> is_Some (r_keys r !! k)).
Context (Hdirs : J ∈ r_dirs r' /\ forall k, is_Some (r_keys r' !! k) -> k.1 ∈ r_dirs r').
Context (Hl : forall k c' l' c l i, r_keys r' !! k = Some (c', l') -> r_keys r !! k = Some (c, l) -> Some i ∈ l' -> Some i ∈ l).
Lemma shrink_old k c' l' : r_keys r' !! k = Some (c', l') -> exists c l, r_keys r !! k = Some (c, l) /\ forall i, Some i ∈ l' -> Some i ∈ l.
Proof. intros H. destruct (proj1 (Hdom k)) as [[c l] Hk]; [by rewrite H|]. eauto 10. Qed.
Lemma shrink_describes t m : describes r t m -> describes r' t m.
Proof.
  intros [D1 D2 D3 D4 D5]. split; try done. intros e He. destruct (D5 e He) as (H1 & c & l & Hk & Ho). split; [done|]. destruct (proj2 (Hdom (entry_key e))) as [[c' l'] Hk']; [by rewrite Hk|].
  exists c', l'. split; [done|]. intros i Hi. eapply occupant_aged; [done|]. eauto.
Qed.
Lemma shrink_sound :
  (forall t c' l' c l, t ∈ T -> r_keys r' !! (J, tk_manifest t) = Some (c', l') -> r_keys r !! (J, tk_manifest t) = Some (c, l) -> None ∈ l' ->
    None ∈ l \/ forall k c l i, k ∈ tk_keys t -> r_keys r' !! k = Some (c, l) -> Some i ∉ l) -> (forall k c l, r_keys r' !! k = Some (c, l) -> c ∈ l) -> sound r'.
Proof.
  intros Hnone Hcur. split; [..|done|done].
  - intros n c l i Hk Hi. destruct (shrink_old _ _ _ Hk) as (c0 & l0 & Hk0 & H). by eapply (sd_names _ Hs); [exact Hk0|apply H].
  - intros t c l i Ht Hk Hi. destruct (shrink_old _ _ _ Hk) as (c0 & l0 & Hk0 & H). eapply draft_file_aged; [done|]. by eapply (sd_draft _ Hs); [exact Ht|exact Hk0|apply H].
  - intros t c l i Ht Hk Hi. destruct (shrink_old _ _ _ Hk) as (c0 & l0 & Hk0 & H). destruct (sd_manifest _ Hs t c0 l0 i Ht Hk0 (H i Hi)) as (m & Hm & Hd). exists m. split; [|by apply shrink_describes].
    by eapply manifest_file_aged.
  - intros d n c l i Hk Hv Hi. destruct (shrink_old _ _ _ Hk) as (c0 & l0 & Hk0 & H). destruct (sd_temps _ Hs d n c0 l0 i Hk0 Hv (H i Hi)) as (t & c1 & l1 & Ht & Hp & Hk1 & Hno).
    destruct (proj2 (Hdom (J, tk_manifest t))) as [[c2 l2] Hk2]; [by rewrite Hk1|]. exists t, c2, l2. split_and!; try done. intros H2.
    destruct (Hnone t c2 l2 c1 l1 Ht Hk2 Hk1 H2) as [?|H3]; [done|]. by apply (H3 (d, n) c l i).
  - intros d n c l i Hk Hv Hi. destruct (shrink_old _ _ _ Hk) as (c0 & l0 & Hk0 & H). destruct (sd_known _ Hs d n c0 l0 i Hk0 Hv (H i Hi)) as [f Hf]. destruct (proj2 Ha i f Hf) as (f' & Hf' & _). by exists f'.
Qed.
End Shrink.
Lemma same_dirs r r' : sound r -> r_dirs r' = r_dirs r -> (forall k, is_Some (r_keys r' !! k) <-> is_Some (r_keys r !! k)) -> J ∈ r_dirs r' /\ forall k, is_Some (r_keys r' !! k) -> k.1 ∈ r_dirs r'.
Proof. intros Hs -> Hdom. destruct (sd_dirs _ Hs) as [H1 H2]. split; [exact H1|]. intros k Hk%Hdom. by apply H2. Qed.
Lemma sound_store r st res plan : sound r -> sound (r <| r_reserved := res |> <| r_plan := plan |> <| r_store := st |>).
Proof.
  intros Hs. apply (shrink_sound r); [done|by apply aged_files_same|done|by apply (same_dirs r)| | |exact (sd_cur _ Hs)].
  - intros k c' l' c l i. cbn. intros -> [= -> ->]. done.
  - intros t c' l' c l _. cbn. intros -> [= -> ->]. by left.
Qed.
Lemma settle_sound r d : sound r -> sound (settle d r).
Proof.
  intros Hs. assert (forall k, is_Some (r_keys (settle d r) !! k) <-> is_Some (r_keys r !! k)) as Hdom by (intros k; by rewrite settle_lookup, fmap_is_Some).
  apply (shrink_sound r); [done|by apply aged_files_same|done|by apply (same_dirs r)|..].
  - intros k c' l' c l i Hk' Hk Hi. rewrite settle_lookup, Hk in Hk'. cbn in Hk'. case_decide; injection Hk' as <- <-; [|done]. apply list_elem_of_singleton in Hi as ->. by eapply (sd_cur _ Hs).
  - intros t c' l' c l Ht Hk' Hk Hi. left. rewrite settle_lookup, Hk in Hk'. cbn in Hk'. case_decide; injection Hk' as <- <-; [|done]. apply list_elem_of_singleton in Hi as ->. by eapply (sd_cur _ Hs).
  - intros k c l. rewrite settle_lookup. destruct (r_keys r !! k) as [[c0 l0]|] eqn:E; [|done]. cbn. case_decide; intros [= <- <-]; [left|by eapply (sd_cur _ Hs)].
Qed.
Lemma put_none_sound r d n : sound r -> (forall t, t ∈ T -> (d, n) = (J, tk_manifest t) -> forall k c l i, k ∈ tk_keys t -> r_keys r !! k = Some (c, l) -> Some i ∉ l) -> sound (put d (n, None) r).
Proof.
  intros Hs Hm. assert (forall k c' l', r_keys (put d (n, None) r) !! k = Some (c', l') -> exists c l, r_keys r !! k = Some (c, l) /\ ((c', l') = (c, l) \/ k = (d, n) /\ (c', l') = (None, l ++ [None]))) as Hput.
  { intros k c' l'. cbn. destruct (decide (k = (d, n))) as [->|Hne].
    - rewrite lookup_alter_eq. destruct (r_keys r !! (d, n)) as [[c l]|]; [|done]. cbn. intros [= <- <-]. eauto 10.
    - rewrite lookup_alter_ne by done. intros ->. eauto 10. }
  pose proof (put_all_dom d [(n, None)] r) as Hdom.
  apply (shrink_sound r); [done|by apply aged_files_same|done|by apply (same_dirs r)|..].
  - intros k c' l' c l i Hk' Hk Hi. destruct (Hput k c' l' Hk') as (c0 & l0 & Hk0 & H). rewrite Hk in Hk0. injection Hk0 as <- <-. destruct H as [[= -> ->]|[_ [= -> ->]]]; [done|].
    apply elem_of_app in Hi as [?|Hi%list_elem_of_singleton]; done.
  - intros t c' l' c l Ht Hk' Hk Hi. destruct (Hput _ c' l' Hk') as (c0 & l0 & Hk0 & H). rewrite Hk in Hk0. injection Hk0 as <- <-. destruct H as [[= -> ->]|[E _]]; [by left|right].
    intros k c1 l1 i Hkt Hk1 Hi1. destruct (Hput k c1 l1 Hk1) as (c2 & l2 & Hk2 & H). destruct H as [[= -> ->]|[-> [= -> ->]]]; [by apply (Hm t Ht (eq_sym E) k c2 l2 i)|].
    apply elem_of_app in Hi1 as [?|Hi1%list_elem_of_singleton]; [by apply (Hm t Ht (eq_sym E) (d, n) c2 l2 i)|done].
  - intros k c l Hk. destruct (Hput k c l Hk) as (c0 & l0 & Hk0 & H). destruct H as [[= -> ->]|[_ [= -> ->]]]; [by eapply (sd_cur _ Hs)|]. apply elem_of_app. right. left.
Qed.
Lemma temp_not_manifest n t : validTempName n = true -> t ∈ T -> n <> tk_manifest t.
Proof. intros Hv Ht ->. destruct (temp_not_journal _ Hv) as [H _]. destruct (man_name_valid _ (to_hex HT t Ht)) as [H' _]. unfold tk_manifest in H. congruence. Qed.
End Sound.
