(* ===== verification/SaveScan.v ===== *)
(** * The first pass of a recovery: reading the journal
    On a sound journal [scan_entries] accepts every manifest and reserves the room that the
    interrupted saves had, if no call fails. It changes nothing but the store. *)
From Stdlib Require Import ZArith Lia.
From stdpp Require Import base gmap sets list option strings.
From coqutil Require Import Datatypes.RecordSettersUsingExistingGetters.
From S2P Require Import Prelude Utf8 Sha256 Strconv Json JsonText JsonReads GoStrings InputValue ArtifactStore HostFs SaveFiles SaveManifest SaveJournal SaveLogic SaveNames SaveInvariant SaveCalls SaveRemoval SaveStore SaveSound.
Local Open Scope Z_scope.
#[global] Arguments const {E} newValue / _.
#[local] Arguments lit : simpl never.
#[local] Arguments safe : simpl never.
#[local] Arguments prog_bind : simpl never.

Section Scan.
Context (J : Identity) (calm : bool) (located : bytes -> Identity -> Prop) (opts : Options) (agent : bytes) (T : list ticket) (HT : tickets_ok J opts T).
Local Abbreviation inv := (sound J located agent T).
Local Abbreviation nothing := (fun (_ : Identity) (_ : bytes) (_ : file) => False).
Local Abbreviation safe := (safe J calm located opts nothing inv).
Lemma nothing_same d n f f' : same f f' -> nothing d n f -> nothing d n f'.
Proof. done. Qed.

(** An error of a call that failed. *)
Definition broken (e : error) : Prop := calm = false /\ failed e = true.
Lemma oops_broken e : oops calm e -> broken e.
Proof. by intros (H & _ & _ & Hc). Qed.
Lemma osFailure_broken e : broken e -> broken (osFailure e).
Proof. intros [H1 H2]. split; [done|]. unfold osFailure, failure. by repeat (destruct (Is e _)). Qed.
Lemma broken_cons l e : calm = false -> broken (l :: e).
Proof. done. Qed.

(** ** One entry of a manifest *)

Lemma OpenDirectory_safe h p d r (Q : res Directory -> resources -> Prop) : inv r -> located p d -> has_prefix 47 p = true -> text_ok p -> ContainsRune p 0 = false -> d ∈ r_dirs r ->
  (forall e, broken e -> Q (inl e) r) -> Q (inr {| dr_handle := h; dr_id := d; dr_path := p; dr_open := true |}) r -> safe (OpenDirectory h p) r Q.
Proof.
  intros HI Hp H1 [_ H2] H3 Hd HQ1 HQ2. unfold OpenDirectory. rewrite H1, H2, H3. cbn [negb orb]. apply safe_bind.
  eapply rule_open_dir; [done|exact Hp|intros e He%oops_broken; apply safe_ret; [done|by apply HQ1, osFailure_broken]|]. apply safe_bind.
  apply rule_stat_dir; [done|done|intros e He%oops_broken|intros f]; apply safe_bind.
  - apply rule_stat_dir; [done|done|intros e' _|intros f]; (apply safe_ret; [done|by apply HQ1, osFailure_broken]).
  - apply rule_stat_dir; [done|done|intros e He%oops_broken|intros f']; (apply safe_ret; [done|]); [by apply HQ1, osFailure_broken|done].
Qed.
Lemma denied_never P e : denied calm P e -> ~ P -> broken e.
Proof. unfold broken. intros (Hf & _ & H) Hn. split; [|done]. destruct calm; [by destruct Hn; apply H|done]. Qed.
(** What [check_current] asks holds of an occupant. *)
Lemma occupant_size r e i f : entry_static located e -> occupant r e i -> r_files r !! i = Some f -> Z.of_nat (length (f_data f)) <= se_Reserved e.
Proof.
  intros Hs (f' & Hf' & _ & _ & _ & Ho) Hf. rewrite Hf in Hf'. injection Hf' as <-. destruct (se_Identity e) as [id|].
  - destruct Ho as [(_ & _ & _ & ?)|(_ & _ & o & Eo & Hm)]; [done|]. pose proof (es_replaced _ _ Hs) as Hr. rewrite Eo in Hr. cbn in Hr. unfold MatchesDisplaced, file_identity in Hm. cbn in Hm. breflect. lia.
  - destruct Ho as (-> & _). apply (es_reserved _ _ Hs).
Qed.
Lemma check_current_safe d e i f s c l r (Q : error -> resources -> Prop) : inv r -> dr_open d = true -> r_keys r !! (dr_id d, se_Temp e) = Some (c, l) -> c = Some i -> dr_id d = se_DirectoryID e ->
  r_files r !! i = Some f -> same f s -> occupant r e i -> (forall e', broken e' -> Q e' r) -> Q [] r -> safe (check_current d e (file_identity i s)) r Q.
Proof.
  intros HI Hopen Hk -> Hd Hf Hs Ho HQ1 HQ2. destruct Ho as (f' & Hf' & O1 & O2 & O3 & O4). rewrite Hf in Hf'. injection Hf' as <-. pose proof (same_inv _ _ Hs) as (E1 & E2 & E3 & E4 & E5 & E6 & E7).
  unfold check_current. destruct (se_Identity e) as [id|].
  - cbn [file_identity fi_Identity]. case_bool_decide as Hi.
    + destruct O4 as [(_ & Hown & Hpriv & _)|(Hne & _)]; [|done]. cbn. rewrite E5, <- Hown, bytes_eqb_refl. cbn [negb]. apply safe_bind. eapply Inspect_safe; [done|exact Hk|intros j [= <-]; by rewrite Hf|..].
      * intros e' He. apply safe_ret; [done|]. apply HQ1. eapply denied_never; [exact He|]. intros [?|(j & g & [= <-] & Hg & Hn)]; [congruence|]. rewrite Hf in Hg. injection Hg as <-. apply Hn. rewrite Hd. by split_and!.
      * done.
      * intros j g s' _ _ _ _ _ _ _. apply safe_ret; [done|]. done.
    + apply safe_ret; [done|]. destruct O4 as [(? & _)|(_ & _ & o & -> & Hm)]; [done|]. assert (MatchesDisplaced (file_identity i s) o = true) as ->; [|done].
      unfold MatchesDisplaced, file_identity in *. cbn in *. by rewrite E1, E5, E6, E7.
  - destruct O4 as (E & _). apply safe_ret; [done|]. cbn. rewrite E1, E. done.
Qed.
Definition entry_checked (e : saveEntry) (total : Z) (r : resources) (x : res (Directory * Z)) (r' : resources) : Prop :=
  r' = r /\ match x with inl e' => broken e' | inr (d, total') => dr_id d = se_DirectoryID e /\ dr_open d = true /\ total' = total + se_Reserved e end.
Lemma check_entry_safe h e total temps r : inv r -> entry_static located e -> (exists c l, r_keys r !! entry_key e = Some (c, l) /\ forall i, Some i ∈ l -> occupant r e i) ->
  entry_key e ∉ temps -> total + se_Reserved e <= int64_max -> safe (check_entry h e total temps) r (entry_checked e total r).
Proof.
  intros HI Hs (c & l & Hk & Ho) Hn Hmax. pose proof Hs as [S1 [S2 S3] S4 S5 S6 S7 S8]. unfold check_entry. rewrite S2, S5, S7, S8.
  rewrite (proj2 (Z.ltb_ge _ _)), (proj2 (Z.ltb_ge _ _)) by lia. cbn [negb orb].
  assert (forall e', broken e' -> safe (Ret (inl e')) r (entry_checked e total r)) as Hbad by (intros e' Hc; apply safe_ret; done).
  apply safe_bind. eapply OpenDirectory_safe; [done|exact S4|done|apply S1|done| |intros e' Hc; by apply Hbad|].
  { apply (proj2 (sd_dirs _ _ _ _ _ HI) (entry_key e)). by rewrite Hk. }
  cbv beta iota. rewrite bool_decide_eq_true_2 by done. cbn [negb]. rewrite bool_decide_eq_false_2 by exact Hn.
  set (d := {| dr_handle := h; dr_id := se_DirectoryID e; dr_path := se_Directory e; dr_open := true |}).
  assert (forall n, n = se_Reserved e -> safe (Ret (if int64_max - total <? n then inl (Fail "LIMIT_EXCEEDED" []) else inr (d, total + n))) r (entry_checked e total r)) as Hok.
  { intros n ->. rewrite (proj2 (Z.ltb_ge _ _)) by lia. by apply safe_ret. }
  apply safe_bind. eapply Inspect_safe; [done|exact Hk|intros i ->; eapply (sd_known _ _ _ _ _ HI); [exact Hk|done|by eapply (sd_cur _ _ _ _ _ HI)]|..].
  - intros e' He. apply safe_bind. apply safe_ret; [done|]. pose proof He as (_ & -> & _). apply Hbad. eapply denied_never; [exact He|].
    intros [?|(i & f & -> & Hf & Hni)]; [done|]. destruct (Ho i) as (f' & Hf' & O1 & O2 & O3 & O4); [by eapply (sd_cur _ _ _ _ _ HI)|]. rewrite Hf in Hf'. injection Hf' as <-. apply Hni.
    split; [|done]. split_and!; [done..|]. unfold unidentified. destruct (se_Identity e); [done|]. intros _. apply O4.
  - intros _ _. apply safe_bind. apply safe_ret; [done|]. change (Is [ErrNotExist] ErrNotExist) with true. cbv iota. by apply Hok.
  - intros i f s -> Hf Hss Hmeta _ _ _. apply safe_bind. apply safe_bind. assert (occupant r e i) as Hoc by (apply Ho; by eapply (sd_cur _ _ _ _ _ HI)).
    assert (Z.max (se_Reserved e) (fi_Size (file_identity i s)) = se_Reserved e) as En.
    { pose proof (occupant_size r e i f Hs Hoc Hf). cbn. rewrite (proj1 (same_inv _ _ Hss)). lia. }
    eapply (check_current_safe d e i f s); [done|done|exact Hk|done|done|done|done|done|intros e' Hc|].
    + apply safe_ret; [done|]. destruct (failed e'); [by apply Hbad|by apply Hok].
    + apply safe_ret; [done|]. by apply Hok.
Qed.

(** ** The entries of a manifest *)

Definition dirs_ok (ds : list Directory) (es : list saveEntry) : Prop := Forall2 (fun d e => dr_id d = se_DirectoryID e /\ dr_open d = true) ds es.
Definition entries_checked (dirs : list Directory) (es : list saveEntry) (total : Z) (temps : list key) (r : resources) (x : res (list Directory * Z * list key)) (r' : resources) : Prop :=
  r' = r /\ match x with
            | inl e => broken e
            | inr (dirs', total', temps') => (exists ds, dirs' = dirs ++ ds /\ dirs_ok ds es) /\ total' = total + entry_total es /\ forall k, k ∈ temps' <-> k ∈ entry_key <$> es \/ k ∈ temps
            end.
Lemma check_entries_safe es : forall dirs total temps r, inv r ->
  (forall e, e ∈ es -> entry_static located e /\ exists c l, r_keys r !! entry_key e = Some (c, l) /\ forall i, Some i ∈ l -> occupant r e i) ->
  NoDup (entry_key <$> es) -> (forall k, k ∈ entry_key <$> es -> k ∉ temps) -> total + entry_total es <= int64_max -> safe (check_entries es dirs total temps) r (entries_checked dirs es total temps r).
Proof.
  induction es as [|e es IH]; intros dirs total temps r HI He Hn Ht Hmax; cbn [check_entries].
  { apply safe_ret; [done|]. split; [done|]. split_and!; [exists []; rewrite app_nil_r; split; [done|constructor]|cbn; lia|set_solver]. }
  destruct (He e) as [Hs Hk]; [left|]. rewrite fmap_cons in Hn, Ht. apply NoDup_cons in Hn as [Hn1 Hn2]. change (entry_total (e :: es)) with (se_Reserved e + entry_total es) in Hmax.
  assert (0 <= entry_total es) as Hpos by (apply entry_total_nonneg; intros e' He'; destruct (He e') as [H _]; [by right|apply H]).
  apply safe_bind. eapply safe_mono; [apply check_entry_safe; [done..|apply Ht; left|lia]|]. intros [e'|[d total']] r' HI' [-> H].
  { by apply safe_ret. }
  destruct H as (H1 & H2 & ->). eapply safe_mono; [apply IH; [done|intros e' He'; apply He; by right|done| |lia]|].
  - intros k Hk' [->|H]%elem_of_cons; [by apply Hn1|]. apply (Ht k); [by right|done].
  - intros [e'|[[dirs' total'] temps']] r' _ [-> H]; [done|]. destruct H as ((ds & -> & Hds) & -> & Htemps). split; [done|]. split_and!.
    + exists (d :: ds). rewrite <- app_assoc. split; [done|]. by constructor.
    + change (entry_total (e :: es)) with (se_Reserved e + entry_total es). lia.
    + intros k. rewrite Htemps, fmap_cons, !elem_of_cons. change (se_DirectoryID e, se_Temp e) with (entry_key e). tauto.
Qed.

(** ** The store *)

(** The store of a recovery that holds the reservations of the tickets [P]. *)
Record holding (s : Store) (P : list ticket) : Prop := {
  ho_ok : store_ok s; ho_open : s_closed s = false /\ s_poisoned s = false; ho_options : s_options s = opts;
  ho_used : s_used s <= weights P; ho_objects : objects s = Z.of_nat (length P)
}.
Definition with_store (s : Store) (r : resources) : resources := r <| r_reserved := None |> <| r_plan := [] |> <| r_store := Some s |>.
Lemma with_store_twice s s' r : with_store s' (with_store s r) = with_store s' r.
Proof. done. Qed.
Lemma scan_reserve_safe s P t n r (Q : res nat -> resources -> Prop) : inv (with_store s r) -> holding s P -> NoDup (P ++ [t]) -> P ++ [t] ⊆ T -> 1 <= n <= tk_weight t ->
  (forall k s', holding s' (P ++ [t]) -> Q (inr k) (with_store s' r)) -> safe (reserve n) (with_store s r) Q.
Proof.
  intros HI [H1 [H2 H2'] H3 H4 H5] Hn Hsub Hw HQ. destruct (weights_sub J opts T HT _ Hn Hsub) as [Hwt Hlen]. assert (weights (P ++ [t]) = weights P + tk_weight t) as Ew by (rewrite weights_app; cbn; lia). rewrite length_app in Hlen. cbn [length] in Hlen.
  pose proof (to_quota _ _ _ HT). pose proof (to_objects _ _ _ HT). unfold reserve. apply safe_bind. apply rule_store; [done|]. intros s0 _ _ E _. specialize (E s eq_refl). subst s0.
  destruct (Reserve_ok s n) as (k & Ek); [done|done|lia|rewrite H3; lia|rewrite H3; lia|]. pose proof (Reserve_cases s n H1) as Hc. destruct (Reserve s n) as [s' [k'|e]] eqn:Er; [|done].
  destruct Hc as (C1 & C2 & C3 & C4 & C5 & C6 & C7 & C8 & C9). exists None, []. split.
  { split; rewrite ?Er; done. }
  cbn [fst snd]. assert (holding s' (P ++ [t])) as Hh.
  { split; [done|split; congruence|congruence|lia|]. rewrite C6, H5, length_app. cbn [length]. lia. }
  split; [by apply (sound_store J located agent T (with_store s r))|]. apply safe_ret; [by apply (sound_store J located agent T (with_store s r))|]. by apply HQ.
Qed.

(** ** A file of the journal *)

Lemma openPrivate_safe n i l f r (Q : res Identity -> resources -> Prop) : inv r -> r_keys r !! (J, n) = Some (Some i, l) -> r_files r !! i = Some f -> ordinary r f ->
  (forall e, broken e -> Q (inl e) r) -> Q (inr i) r -> safe (openPrivate J n) r Q.
Proof.
  intros HI Hk Hf (O1 & O2 & O3) H1 H2. unfold openPrivate. apply safe_bind. eapply rule_lstat; [done|exact Hk|exact Hf|intros e He%oops_broken; apply safe_ret; [done|by apply H1]|].
  intros f' (_ & _ & E & _)%same_inv. cbv beta iota. rewrite E, O1. cbn [negb]. apply safe_bind. eapply rule_open; [done|exact Hk|intros e He%oops_broken; apply safe_ret; [done|by apply H1]|].
  cbv beta iota. apply safe_bind. eapply rule_stat; [done|exact Hf|intros e He%oops_broken; apply safe_ret; [done|by apply H1]|]. intros f2 _ _. rewrite bool_decide_eq_true_2 by done. cbn [negb].
  apply safe_bind. eapply rule_protect; [done|exact Hf|intros e He%oops_broken; rewrite (proj2 He); apply safe_ret; [done|by apply H1]|]. rewrite O1, O2, O3. by apply safe_ret.
Qed.
Definition read_journal {A} (n : bytes) (K : bytes -> prog (res A)) : prog (res A) :=
  tryr^ f := openPrivate J n in
  let^ info := act_ (stat f) in
  match info with
  | inl e => Ret (inl (Fail "LIMIT_EXCEEDED" e))
  | inr info =>
      if manifestLimit <? Z.of_nat (length (f_data info)) then Ret (inl (Fail "LIMIT_EXCEEDED" [])) else
      let^ b := act_ (read_file f) in
      let^ c := act_ close_file in
      match b, c with
      | inl e, _ => Ret (inl (e ++ c))
      | _, _ :: _ => Ret (inl c)
      | inr b, [] => K b
      end
  end.
Lemma read_journal_safe {A} n i l f (K : bytes -> prog (res A)) r (Q : res A -> resources -> Prop) : inv r -> r_keys r !! (J, n) = Some (Some i, l) -> r_files r !! i = Some f -> ordinary r f ->
  Z.of_nat (length (f_data f)) <= manifestLimit -> (forall e, broken e -> Q (inl e) r) -> safe (K (f_data f)) r Q -> safe (read_journal n K) r Q.
Proof.
  intros HI Hk Hf Ho Hlen H1 HK. assert (forall e, broken e -> safe (Ret (inl e)) r Q) as Hbad by (intros e Hc; apply safe_ret; [done|by apply H1]).
  unfold read_journal. apply safe_bind. eapply openPrivate_safe; [done|exact Hk|exact Hf|exact Ho|done|]. cbv beta iota. apply safe_bind.
  eapply rule_stat; [done|exact Hf|intros e He%oops_broken; apply Hbad; by destruct He|]. intros f' (E & _)%same_inv _. rewrite E. destruct (Z.ltb_spec manifestLimit (Z.of_nat (length (f_data f)))); [lia|].
  apply safe_bind. eapply rule_read_file; [done|exact Hf|intros e [Hc He]%oops_broken; destruct e as [|x e]; [done|]|]; apply safe_bind.
  - apply rule_close; [done|intros c _; by apply Hbad|by apply Hbad].
  - apply rule_close; [done|intros c [Hc He]%oops_broken; destruct c; [done|by apply Hbad]|done].
Qed.

(** ** The scan *)

Record pending_ok (r : resources) (p : pending) (t : ticket) : Prop := {
  po_ticket : t ∈ T; po_name : pd_name p = tk_manifest t;
  po_file : exists i l, r_keys r !! (J, pd_name p) = Some (Some i, l) /\ manifest_file r i (pd_manifest p);
  po_dirs : dirs_ok (pd_dirs p) (Entries (pd_manifest p))
}.
(** The names [done] were read: the tickets [P] are those of the manifests among them. *)
Record scanned (r : resources) (s : Store) (done : list bytes) (P : list ticket) (sn : scan) : Prop := {
  sc_holding : holding s P;
  sc_tickets : NoDup P /\ P ⊆ T;
  sc_saves : Forall2 (pending_ok r) (sn_saves sn) P;
  sc_drafts : NoDup (sn_drafts sn) /\ forall n, n ∈ sn_drafts sn -> n ∈ done /\ exists t, t ∈ T /\ n = tk_draft t;
  sc_temps : forall k, k ∈ sn_temps sn -> exists t, t ∈ P /\ k ∈ tk_keys t;
  sc_requests : forall q, q ∈ sn_requests sn -> exists t, t ∈ P /\ q = tk_request t;
  sc_done : forall t, t ∈ P -> tk_manifest t ∈ done;
  sc_seen : forall n, n ∈ done -> n = lit ".lock" \/ n = lit "identity" \/ (exists t, t ∈ P /\ n = tk_manifest t) \/ n ∈ sn_drafts sn
}.
Lemma scanned_more r s done P sn n : scanned r s done P sn -> n = lit ".lock" \/ n = lit "identity" -> scanned r s (done ++ [n]) P sn.
Proof.
  intros [S1 S2 S3 [S4 S4'] S5 S6 S7 S8] Hn. split; try done.
  - split; [done|]. intros n' H. destruct (S4' n' H) as [? ?]. split; [apply elem_of_app; by left|done].
  - intros t Ht. apply elem_of_app. left. auto.
  - intros n' [H|H%list_elem_of_singleton]%elem_of_app; [auto|subst; tauto].
Qed.
Lemma scanned_draft r s done P sn t : scanned r s done P sn -> t ∈ T -> tk_draft t ∉ done -> scanned r s (done ++ [tk_draft t]) P (sn <| sn_drafts ::= fun l => l ++ [tk_draft t] |>).
Proof.
  intros [S1 S2 S3 [S4 S4'] S5 S6 S7 S8] Ht Hn. split; try done; cbn.
  - split.
    + apply NoDup_app. split_and!; [done|intros n Hin ->%list_elem_of_singleton; by apply S4' in Hin as [? _]|apply NoDup_singleton].
    + intros n [H|H%list_elem_of_singleton]%elem_of_app; [destruct (S4' n H) as [? ?]; split; [apply elem_of_app; by left|done]|subst; split; [apply elem_of_app; right; left|eauto]].
  - intros t' Ht'. apply elem_of_app. left. auto.
  - intros n [H|H%list_elem_of_singleton]%elem_of_app; [|subst; do 3 right; apply elem_of_app; right; left]. destruct (S8 n H) as [?|[?|[?|?]]]; auto. do 3 right. apply elem_of_app. by left.
Qed.
Lemma fresh_ticket r s done P sn t : scanned r s done P sn -> t ∈ T -> tk_manifest t ∉ done -> NoDup (P ++ [t]) /\ P ++ [t] ⊆ T /\ t ∉ P.
Proof.
  intros Hs Ht Hn. assert (t ∉ P) as HtP by (intros H; by apply Hn, (sc_done _ _ _ _ _ Hs)). destruct (sc_tickets _ _ _ _ _ Hs) as [H1 H2]. split_and!; [|set_solver|done].
  apply NoDup_app. split_and!; [done|by intros x Hx ->%list_elem_of_singleton|apply NoDup_singleton].
Qed.
Lemma scanned_manifest r s s' done P sn t p temps q : scanned r s done P sn -> t ∈ T -> tk_manifest t ∉ done -> pending_ok r p t -> holding s' (P ++ [t]) ->
  (forall k, k ∈ temps -> k ∈ tk_keys t \/ k ∈ sn_temps sn) -> q = tk_request t ->
  scanned r s' (done ++ [tk_manifest t]) (P ++ [t]) {| sn_saves := sn_saves sn ++ [p]; sn_drafts := sn_drafts sn; sn_temps := temps; sn_requests := q :: sn_requests sn |}.
Proof.
  intros Hs Ht Hn Hp Hh Htemps ->. destruct (fresh_ticket _ _ _ _ _ _ Hs Ht Hn) as (F1 & F2 & _). destruct Hs as [S1 S2 S3 [S4 S4'] S5 S6 S7 S8]. split; try done; cbn.
  - apply Forall2_app; [done|]. by constructor.
  - split; [done|]. intros n H. destruct (S4' n H) as [? ?]. split; [apply elem_of_app; by left|done].
  - intros k [Hk|Hk]%Htemps; [exists t; split; [apply elem_of_app; right; left|done]|]. destruct (S5 k Hk) as (u & Hu & Hk'). exists u. split; [apply elem_of_app; by left|done].
  - intros q [->|Hq]%elem_of_cons; [exists t; split; [apply elem_of_app; right; left|done]|]. destruct (S6 q Hq) as (u & Hu & ->). exists u. split; [apply elem_of_app; by left|done].
  - intros u [Hu|Hu%list_elem_of_singleton]%elem_of_app; apply elem_of_app; [left; auto|right; subst; left].
  - intros n [H|H%list_elem_of_singleton]%elem_of_app.
    + destruct (S8 n H) as [?|[?|[(u & Hu & ->)|?]]]; auto. do 2 right; left. exists u. split; [apply elem_of_app; by left|done].
    + do 2 right; left. exists t. split; [apply elem_of_app; right; left|done].
Qed.
Definition scan_post (r : resources) (done : list bytes) (x : res scan) (r' : resources) : Prop :=
  exists s', r' = with_store s' r /\ match x with inl e => broken e | inr sn' => exists P', scanned r s' done P' sn' end.
Lemma scan_manifest_safe r s done P sn t i l f : inv r -> scanned r s done P sn -> t ∈ T -> tk_manifest t ∉ done -> r_keys r !! (J, tk_manifest t) = Some (Some i, l) -> r_files r !! i = Some f ->
  Z.of_nat (length (f_data f)) <= manifestLimit ->
  safe (scan_manifest agent (tk_manifest t) (take (Z.to_nat (manifestLimit + 1)) (f_data f)) sn) (with_store s r) (scan_post r (done ++ [tk_manifest t])).
Proof.
  intros HI Hs Ht Hn Hk Hf Hlen. destruct (fresh_ticket _ _ _ _ _ _ Hs Ht Hn) as (F1 & F2 & F3). pose proof (sd_cur _ _ _ _ _ HI _ _ _ Hk) as Hcur.
  destruct (sd_manifest _ _ _ _ _ HI t _ _ i Ht Hk Hcur) as (m & Hm & Hd). pose proof Hm as (f' & Hf' & _ & _ & _ & Edec). rewrite Hf in Hf'. injection Hf' as <-.
  assert (inv (with_store s r)) as HI' by by apply sound_store.
  assert (forall e, broken e -> safe (Ret (inl e)) (with_store s r) (scan_post r (done ++ [tk_manifest t]))) as Hbad by (intros e Hc; apply safe_ret; [done|]; by exists s).
  rewrite take_ge by lia. unfold scan_manifest. rewrite Edec. rewrite (ds_accepted _ _ _ _ _ Hd). cbn [negb]. rewrite bool_decide_eq_false_2; cycle 1.
  { intros (u & Hu & E)%(sc_requests _ _ _ _ _ Hs). apply F3. rewrite (ds_request _ _ _ _ _ Hd) in E. pose proof (proj2 (sc_tickets _ _ _ _ _ Hs) u Hu) as HuT.
    by rewrite (request_unique J opts T HT t u Ht HuT E). }
  assert (tk_keys t = entry_key <$> Entries m) as Ekeys by (unfold tk_keys; rewrite <- (ds_plan _ _ _ _ _ Hd), <- list_fmap_compose; done).
  pose proof (to_weights _ _ _ HT t Ht) as Hw. pose proof (ds_weight _ _ _ _ _ Hd) as [Ew Ew'].
  apply safe_bind. eapply safe_mono; [apply check_entries_safe; [done|apply (ds_entries _ _ _ _ _ Hd)|rewrite <- Ekeys; by apply (plan_nodup J opts T HT)| |lia]|].
  { intros k Hk' (u & Hu & Hku)%(sc_temps _ _ _ _ _ Hs). rewrite <- Ekeys in Hk'. apply F3. pose proof (proj2 (sc_tickets _ _ _ _ _ Hs) u Hu) as HuT. by rewrite (plan_unique J opts T HT t u k Ht HuT Hk' Hku). }
  intros [e|[[dirs total] temps]] r' _ [-> H]; [by apply Hbad|]. destruct H as ((ds & -> & Hds) & -> & Htemps). cbn [app] in *. apply safe_bind.
  eapply (scan_reserve_safe s P t); [done|apply Hs|done|done|unfold manifestReservation, manifestLimit in *; lia|]. intros k s' Hh. apply safe_ret; [by apply sound_store|]. exists s'. split; [done|]. exists (P ++ [t]).
  apply (scanned_manifest r s); try done; [|intros k' Hk'; rewrite Ekeys; by apply Htemps|apply Hd]. split; try done. by exists i, l.
Qed.
Lemma journal_name_cases n : hex_name (lit "m-") (lit ".json") n = true \/ hex_name (lit ".draft-") [] n = true -> bytes_eqb n (lit ".lock") || bytes_eqb n (lit "identity") = false.
Proof.
  intros H. apply orb_false_iff. split; apply not_true_iff_false; intros ->%bytes_eqb_true; vm_compute in H; by destruct H.
Qed.
(** The loop after the contents of the file [n] were read. *)
Definition scan_text (n : bytes) (names : list bytes) (sn : scan) (b : bytes) : prog (res scan) :=
  if draftName n then scan_entries J agent (MaxPending opts) names (sn <| sn_drafts ::= fun l => l ++ [n] |>)
  else if MaxPending opts <=? Z.of_nat (length (sn_saves sn)) then Ret (inl (Fail "LIMIT_EXCEEDED" [])) else
  tryr^ sn := scan_manifest agent n (take (Z.to_nat (manifestLimit + 1)) b) sn in
  scan_entries J agent (MaxPending opts) names sn.
Lemma scan_text_eq n names sn : manifestName n = true \/ draftName n = true -> scan_entries J agent (MaxPending opts) (n :: names) sn = read_journal n (scan_text n names sn).
Proof.
  intros H. cbn [scan_entries]. rewrite journal_name_cases by exact H. assert (negb (manifestName n) && negb (draftName n) = false) as -> by (apply andb_false_iff; destruct H as [-> | ->]; auto). done.
Qed.
Lemma scan_entries_safe r names : inv r -> forall done s P sn, scanned r s done P sn -> NoDup (done ++ names) -> (forall n, n ∈ names -> exists i l, r_keys r !! (J, n) = Some (Some i, l)) ->
  safe (scan_entries J agent (MaxPending opts) names sn) (with_store s r) (scan_post r (done ++ names)).
Proof.
  intros HI. induction names as [|n names IH]; intros done s P sn Hs Hnd Hnames.
  { apply safe_ret; [by apply sound_store|]. exists s. split; [done|]. exists P. by rewrite app_nil_r. }
  assert (inv (with_store s r)) as HI' by by apply sound_store. replace (done ++ n :: names) with ((done ++ [n]) ++ names) in * by (by rewrite <- app_assoc).
  assert (n ∉ done) as Hn. { apply NoDup_app in Hnd as (Hnd & _ & _). apply NoDup_app in Hnd as (_ & Hnd & _). intros H. apply (Hnd n H). left. }
  destruct (Hnames n) as (i & l & Hk); [left|]. pose proof (sd_cur _ _ _ _ _ HI _ _ _ Hk) as Hcur. assert (forall n', n' ∈ names -> exists i l, r_keys r !! (J, n') = Some (Some i, l)) as Hnames' by (intros; apply Hnames; by right).
  destruct (sd_names _ _ _ _ _ HI n _ _ i Hk Hcur) as [E|[E|(t & Ht & E)]].
  1, 2: subst n; eapply IH; [apply scanned_more; [exact Hs|tauto]|done|done].
  destruct (man_name_valid _ (to_hex _ _ _ HT t Ht)) as (Hm & _ & _). destruct (draft_name_valid _ (to_hex _ _ _ HT t Ht)) as (Hd & _). fold (tk_manifest t) in Hm. fold (tk_draft t) in Hd.
  assert (forall e, broken e -> scan_post r ((done ++ [n]) ++ names) (inl e) (with_store s r)) as Hbad by (intros e Hc; by exists s).
  destruct E as [-> | ->].
  - rewrite scan_text_eq by (left; exact Hm). destruct (sd_manifest _ _ _ _ _ HI t _ _ i Ht Hk Hcur) as (m & (f & Hf & Ho & _ & Hlen & _) & _).
    eapply read_journal_safe; [done|exact Hk|exact Hf|exact Ho|done|done|]. unfold scan_text.
    rewrite (manifest_not_draft _ Hm). destruct (Z.leb_spec (MaxPending opts) (Z.of_nat (length (sn_saves sn)))) as [Hge|_].
    { destruct (fresh_ticket _ _ _ _ _ _ Hs Ht Hn) as (F1 & F2 & _). destruct (weights_sub J opts T HT _ F1 F2) as [_ Hl]. rewrite length_app in Hl. cbn in Hl.
      rewrite (Forall2_length _ _ _ (sc_saves _ _ _ _ _ Hs)) in Hge. pose proof (to_pending _ _ _ HT). lia. }
    apply safe_bind. eapply safe_mono; [eapply scan_manifest_safe; done|]. intros [e|sn'] r' _ (s' & -> & H); [apply safe_ret; [by apply sound_store|by exists s']|]. destruct H as (P' & Hs'). by eapply IH.
  - rewrite scan_text_eq by (right; exact Hd). destruct (sd_draft _ _ _ _ _ HI t _ _ i Ht Hk Hcur) as (f & Hf & Ho & Hlen).
    eapply read_journal_safe; [done|exact Hk|exact Hf|exact Ho|done|done|]. unfold scan_text. rewrite Hd.
    eapply IH; [by apply scanned_draft|done|done].
Qed.

(** ** Drafts without a manifest *)

Lemma reserve_drafts_safe r ids P drafts : inv r -> (forall h, h ∈ ids <-> h ∈ tk_hex <$> P) -> forall O s rs, holding s (P ++ O) -> NoDup (P ++ O) -> P ++ O ⊆ T -> NoDup drafts ->
  (forall n, n ∈ drafts -> exists t, t ∈ T /\ n = tk_draft t /\ t ∉ O) ->
  safe (reserve_drafts drafts ids (Z.of_nat (length P)) (MaxPending opts) (Z.of_nat (length O)) rs) (with_store s r) (fun x r' => exists s', r' = with_store s' r /\ match x with inl e => broken e | inr _ => True end).
Proof.
  intros HI Hids. induction drafts as [|n drafts IH]; intros O s rs Hh Hn Hsub Hnd Hd; cbn [reserve_drafts].
  { apply safe_ret; [by apply sound_store|]. by exists s. }
  apply NoDup_cons in Hnd as [Hnd1 Hnd2]. destruct (Hd n) as (t & Ht & -> & HtO); [left|]. pose proof (proj2 (draft_name_valid _ (to_hex _ _ _ HT t Ht))) as Ehex. fold (tk_draft t) in Ehex. case_bool_decide as Hin; rewrite Ehex in Hin.
  { apply IH; try done. intros n Hn'. apply Hd. by right. }
  assert (t ∉ P) as HtP by (intros H; apply Hin, Hids, list_elem_of_fmap; eauto).
  assert (NoDup (P ++ O ++ [t]) /\ P ++ O ++ [t] ⊆ T) as [Hn' Hsub'].
  { rewrite app_assoc. split; [|set_solver]. apply NoDup_app. split_and!; [done| |apply NoDup_singleton]. intros x Hx ->%list_elem_of_singleton. set_solver. }
  destruct (weights_sub J opts T HT _ Hn' Hsub') as [_ Hl]. rewrite !length_app in Hl. cbn in Hl. pose proof (to_pending _ _ _ HT) as Hp.
  rewrite (proj2 (Z.ltb_ge _ _)) by lia. apply safe_bind. rewrite app_assoc in Hn', Hsub'. pose proof (to_weights _ _ _ HT t Ht). assert (1 <= manifestReservation) by (unfold manifestReservation, manifestLimit; lia).
  eapply (scan_reserve_safe s (P ++ O) t); [by apply sound_store|done|done|done|lia|]. intros k s' Hh'. rewrite <- app_assoc in *.
  replace (Z.of_nat (length O) + 1) with (Z.of_nat (length (O ++ [t]))) by (rewrite length_app; cbn; lia). apply IH; try done.
  intros n Hn2. destruct (Hd n) as (u & Hu & -> & HuO); [by right|]. exists u. split_and!; [done..|]. intros [?|E%list_elem_of_singleton]%elem_of_app; [done|]. subst u. done.
Qed.
End Scan.
