(* ===== verification/SaveRecovery.v ===== *)
(** * Recovery of interrupted saves
    [recoverSaves] on a sound journal: it keeps the journal sound at every point, so that it
    may be interrupted itself, touches no business name, and if no call fails it succeeds
    and leaves no manifest, no draft and no temporary file. *)
From Stdlib Require Import ZArith Lia.
From stdpp Require Import base gmap sets list option strings.
From coqutil Require Import Datatypes.RecordSettersUsingExistingGetters.
From S2P Require Import Prelude Utf8 Sha256 Strconv Json JsonText JsonReads GoStrings InputValue ArtifactStore HostFs SaveFiles SaveManifest SaveJournal SaveLogic SaveNames SaveInvariant SaveCalls SaveRemoval SaveStore SaveSound SaveScan.
Local Open Scope Z_scope.
#[global] Arguments const {E} newValue / _.
#[local] Arguments lit : simpl never.
#[local] Arguments safe : simpl never.
#[local] Arguments prog_bind : simpl never.
#[local] Arguments put_all : simpl never.

(** The entry under a key, if the key is owned. *)
Definition cur_of (r : resources) (k : key) : option (option Identity) := fst <$> r_keys r !! k.
(** The journal has lost some of the names [ns], and nothing else has changed in it. *)
Definition lost (J : Identity) (ns : list bytes) (r r' : resources) : Prop := forall n, cur_of r' (J, n) = cur_of r (J, n) \/ n ∈ ns /\ cur_of r' (J, n) = Some None.
Record progress (J : Identity) (ns : list bytes) (r r' : resources) : Prop := {
  pg_files : r_files r' = r_files r /\ r_euid r' = r_euid r /\ r_store r' = r_store r;
  pg_dom : forall k, is_Some (r_keys r' !! k) <-> is_Some (r_keys r !! k);
  pg_cur : lost J ns r r'
}.
Lemma progress_refl J ns r : progress J ns r r.
Proof. split; [done|done|]. intros n. by left. Qed.
Lemma progress_trans J a b c r1 r2 r3 : progress J a r1 r2 -> progress J b r2 r3 -> a ⊆ c -> b ⊆ c -> progress J c r1 r3.
Proof.
  intros [(A1 & A2 & A3) A4 A5] [(B1 & B2 & B3) B4 B5] Ha Hb. split; [split_and!; congruence|intros k; by rewrite B4, A4|].
  intros n. destruct (B5 n) as [->|[? ?]]; [destruct (A5 n) as [?|[? ?]]; [by left|right; set_solver]|right; set_solver].
Qed.
Lemma progress_none J ns r r' n : progress J ns r r' -> cur_of r (J, n) = Some None -> cur_of r' (J, n) = Some None.
Proof. intros [_ _ H] E. destruct (H n) as [->|[_ ?]]; done. Qed.
Lemma progress_settle J r d : progress J [] r (settle d r).
Proof.
  split; [done|intros k; by rewrite settle_lookup, fmap_is_Some|]. intros n. left. unfold cur_of. rewrite settle_lookup. destruct (r_keys r !! (J, n)) as [[c l]|]; [|done]. cbn. by case_decide.
Qed.
Lemma cur_put_same r d n c l : r_keys r !! (d, n) = Some (c, l) -> r_keys (put d (n, None) r) !! (d, n) = Some (None, l ++ [None]).
Proof. intros H. cbn. by rewrite lookup_alter_eq, H. Qed.
Lemma cur_put_other r d n k : k <> (d, n) -> r_keys (put d (n, None) r) !! k = r_keys r !! k.
Proof. intros H. cbn. by rewrite lookup_alter_ne. Qed.
Lemma progress_put J r n : progress J [n] r (put J (n, None) r).
Proof.
  split; [done|apply (put_all_dom J [(n, None)] r)|]. intros n'. unfold cur_of. destruct (decide (n' = n)) as [->|Hn]; [|left; rewrite cur_put_other; [done|congruence]].
  destruct (r_keys r !! (J, n)) as [[c l]|] eqn:E; [right; split; [left|]; by rewrite (cur_put_same _ _ _ _ _ E)|left]. cbn. by rewrite lookup_alter_eq, E.
Qed.

Section Recovery.
Context (J : Identity) (calm : bool) (located : bytes -> Identity -> Prop) (opts : Options) (agent : bytes) (T : list ticket) (HT : tickets_ok J opts T).
Local Abbreviation inv := (sound J located agent T).
Local Abbreviation nothing := (fun (_ : Identity) (_ : bytes) (_ : file) => False).
Local Abbreviation safe := (safe J calm located opts nothing inv).
Local Abbreviation pending_ok := (pending_ok J T).

Lemma pending_keep r r' p t : r_files r' = r_files r -> r_euid r' = r_euid r -> cur_of r' (J, pd_name p) = cur_of r (J, pd_name p) -> pending_ok r p t -> pending_ok r' p t.
Proof.
  intros Ef Ee Ek [P1 P2 (i & l & Hk & f & Hf & Ho & Hr) P4]. split; try done. unfold cur_of in Ek. rewrite Hk in Ek. destruct (r_keys r' !! (J, pd_name p)) as [[c l']|]; [|done]. cbn in Ek. injection Ek as ->.
  exists i, l'. split; [done|]. exists f. unfold ordinary in *. by rewrite Ef, Ee.
Qed.
Lemma occupant_removal r e i f : occupant r e i -> r_files r !! i = Some f -> removal_ok (r_euid r) f i (temp_ids e) (unidentified e).
Proof.
  intros (f' & Hf' & O1 & O2 & O3 & O4) Hf. rewrite Hf in Hf'. injection Hf' as <-. unfold removal_ok, temp_ids, unidentified. destruct (se_Identity e) as [id|].
  - assert (forall x, identity_match (file_identity i f) (fi_Identity id) x = bool_decide (i = fi_Identity x) && bytes_eqb (FormatInt (f_uid f)) (fi_Owner x) &&
      (bool_decide (fi_Identity x = fi_Identity id) || MatchesDisplaced (file_identity i f) x)) as Em by done.
    destruct O4 as [(-> & Eo & Hp & _)|(Hne & _ & o & -> & Hm)].
    + split_and!; [done|done|intros [?|H]; [done|by destruct (se_Replaced e)]|done|]. intros first rest E. assert (first = id) as -> by (by destruct (se_Replaced e); injection E as <-). split; [|done]. rewrite E. cbn [existsb].
      rewrite Em, bool_decide_eq_true_2, <- Eo, bytes_eqb_refl by done. done.
    + split_and!; [done|done|by intros [?|?]|done|]. intros first rest [= <- <-]. split; [|done]. cbn [existsb]. rewrite (Em o), Hm. unfold MatchesDisplaced in Hm. cbn in Hm. apply orb_true_iff. right. apply orb_true_iff. left.
      rewrite orb_true_r, andb_true_r. do 3 apply andb_true_iff in Hm as [Hm _]. done.
  - destruct O4 as (E & _ & Hp). split_and!; done.
Qed.
(** The removals that [remove_saves] asks for are allowed. *)
Lemma pending_removals r p t : inv r -> pending_ok r p t ->
  let l := zip (pd_dirs p) (Entries (pd_manifest p)) in
  Forall (fun q => is_Some (r_keys r !! removal_key q) /\ validTempName (se_Temp q.2) = true /\ dr_id q.1 <> J) l /\ Forall (removal_known r) l /\ tk_keys t = removal_key <$> l.
Proof.
  intros HI [P1 P2 (i & lt & Hk & Hm) P4] l. rewrite P2 in Hk. pose proof (sd_cur _ _ _ _ _ HI _ _ _ Hk) as Hcur. destruct (sd_manifest _ _ _ _ _ HI t _ _ i P1 Hk Hcur) as (m & Hm' & Hd).
  assert (m = pd_manifest p) as ->. { destruct Hm as (f & Hf & _ & _ & _ & E), Hm' as (f' & Hf' & _ & _ & _ & E'). congruence. }
  assert (tk_keys t = removal_key <$> l) as Ekeys.
  { unfold tk_keys. rewrite <- (ds_plan _ _ _ _ _ Hd), <- list_fmap_compose. subst l. clear -P4. induction P4 as [|d e ds es [E _] _ IH]; [done|]. cbn. f_equal; [|exact IH]. unfold removal_key, entry_key. cbn. by rewrite E. }
  assert (forall d e, (d, e) ∈ l -> e ∈ Entries (pd_manifest p) /\ dr_id d = se_DirectoryID e /\ dr_open d = true) as Hin.
  { intros d e [n Hn]%list_elem_of_lookup. apply lookup_zip_Some in Hn as [H1 H2]. split; [apply list_elem_of_lookup; eauto|]. by apply (Forall2_lookup_lr _ _ _ _ _ _ P4 H1 H2). }
  split_and!; [| |done]; apply Forall_forall; intros [d e] Hde; destruct (Hin d e Hde) as (He & Ed & Eo); destruct (ds_entries _ _ _ _ _ Hd e He) as (Hs & c & l1 & Hk1 & Ho).
  - cbn. assert (removal_key (d, e) = entry_key e) as -> by (unfold removal_key, entry_key; cbn; by rewrite Ed). rewrite Hk1. split_and!; [done|apply Hs|]. rewrite Ed.
    apply (to_dirs _ _ _ HT t (entry_key e) P1). rewrite Ekeys. apply list_elem_of_fmap. exists (d, e). split; [|done]. unfold removal_key, entry_key. cbn. by rewrite Ed.
  - split; [done|]. cbn. intros j l2 f Hk2 Hf. assert (removal_key (d, e) = entry_key e) as Ek by (unfold removal_key, entry_key; cbn; by rewrite Ed). rewrite Ek, Hk1 in Hk2. injection Hk2 as -> <-.
    pose proof (sd_cur _ _ _ _ _ HI _ _ _ Hk1) as Hc1.     by apply occupant_removal; [apply Ho|].
Qed.
Lemma journal_not_temp r n : inv r -> (forall i l, r_keys r !! (J, n) <> Some (Some i, l)) \/ validTempName n = false.
Proof.
  intros HI. destruct (validTempName n) eqn:Hv; [left|by right]. intros i l Hk. destruct (sd_temps _ _ _ _ _ HI J n _ _ i Hk Hv (sd_cur _ _ _ _ _ HI _ _ _ Hk)) as (t & _ & _ & Ht & Hkt & _).
  by apply (to_dirs _ _ _ HT t _ Ht Hkt).
Qed.
Lemma clearing_progress r r' : inv r -> clearing J r r' -> progress J [] r r'.
Proof.
  intros HI [[C1 _] (_ & C2 & _ & _ & C3 & _) C4 C5]. split; [done|done|]. intros n. left. unfold cur_of. destruct (r_keys r !! (J, n)) as [[c l]|] eqn:E.
  - destruct (proj2 (C4 (J, n))) as [y Hy]; [by rewrite E|]. rewrite Hy. cbn. f_equal. destruct (C5 _ _ _ E Hy) as [[Ec|[Hv Ec]] _]; [done|]. destruct c as [i|]; [|done].
    destruct (journal_not_temp r n HI) as [H|H]; [by apply H in E|cbn in Hv; congruence].
  - destruct (r_keys r' !! (J, n)) eqn:E'; [|done]. destruct (proj1 (C4 (J, n))) as [z Hz]; [by rewrite E'|congruence].
Qed.
Lemma manifest_not_temp t : t ∈ T -> validTempName (tk_manifest t) = false.
Proof. intros Ht. apply not_true_iff_false. intros Hv. by apply (temp_not_manifest _ _ _ HT _ t Hv Ht). Qed.
Lemma clearing_manifest r r' t x : clearing J r r' -> t ∈ T -> r_keys r !! (J, tk_manifest t) = Some x -> r_keys r' !! (J, tk_manifest t) = Some x.
Proof.
  intros [_ _ C4 C5] Ht Hk. destruct (proj2 (C4 (J, tk_manifest t))) as [y Hy]; [by rewrite Hk|]. destruct (C5 _ _ _ Hk Hy) as (E1 & E2 & _). cbn in E1, E2.
  rewrite (manifest_not_temp t Ht) in E1, E2. rewrite Hy. f_equal. destruct x as [c l], y as [c' l']. cbn in *. destruct E1 as [->|[? _]], (E2 eq_refl) as [->|[? _]]; done.
Qed.
Lemma temps_put r d n : inv r -> is_Some (r_keys r !! (d, n)) -> validTempName n = true -> inv (put d (n, None) r).
Proof. intros HI _ Hv. apply put_none_sound; [done|]. intros t Ht [= _ E]. by apply (temp_not_manifest _ _ _ HT n t Hv Ht) in E. Qed.

(** ** The second pass *)

Definition removed_saves (names : list bytes) (r : resources) (e : error) (r' : resources) : Prop :=
  (calm = true -> e = []) /\ (e = [] -> progress J names r r' /\ forall n, n ∈ names -> cur_of r' (J, n) = Some None).
Lemma removed_fail names r e r' : calm = false -> failed e = true -> removed_saves names r e r'.
Proof. intros Hc He. split; [congruence|by intros ->]. Qed.
Lemma remove_saves_safe ps : forall P r, inv r -> Forall2 (pending_ok r) ps P -> NoDup P -> safe (remove_saves J ps) r (removed_saves (pd_name <$> ps) r).
Proof.
  induction ps as [|p ps IH]; intros P r HI HP Hn; cbn [remove_saves].
  { apply safe_ret; [done|]. split; [done|]. intros _. split; [apply progress_refl|]. by intros n ?%not_elem_of_nil. }
  inversion HP as [|? t ? P' Hp HP' E1 E2]; subst. apply NoDup_cons in Hn as [Hn1 Hn2]. destruct (pending_removals r p t HI Hp) as (R1 & R2 & Ekeys). pose proof (po_ticket _ _ _ _ _ Hp) as Ht.
  destruct (po_file _ _ _ _ _ Hp) as (i & l & Hk & Hm). rewrite (po_name _ _ _ _ _ Hp) in Hk.
  apply safe_bind. eapply safe_mono; [apply remove_temps_safe; [exact (nothing_same)|exact temps_put|intros r0 d _ HI0; by apply settle_sound| |done|done|done|done]|].
  { intros r0 d n j l0 HI0 Hv0 Hk0. eapply (sd_known _ _ _ _ _ HI0); [exact Hk0|done|by eapply (sd_cur _ _ _ _ _ HI0)]. }
  intros [e pins] r1 HI1 (_ & Hcl & Hgone & Hcalm). cbn [fst snd] in *. destruct (failed e) eqn:Ee.
  { apply safe_ret; [done|]. apply removed_fail; [|done]. destruct calm; [|done]. by rewrite Hcalm in Ee. }
  destruct e; [|done]. specialize (Hgone eq_refl). pose proof (clearing_manifest _ _ _ _ Hcl Ht Hk) as Hk1. rewrite (po_name _ _ _ _ _ Hp). apply safe_bind.
  eapply rule_unlink; [exact nothing_same|done|exact Hk1|by left| |done|].
  { intros e (He & _ & _ & Hc). rewrite He. apply safe_ret; [done|]. by apply removed_fail. }
  intros _ _. set (r2 := put J (tk_manifest t, None) r1). assert (inv r2) as HI2.
  { apply put_none_sound; [done|]. intros u Hu E. assert (t = u) as <- by (apply (manifest_unique J opts T HT); [done|done|exact (f_equal snd E)]). intros k c l0 j Hkt Hk0 Hj. rewrite Ekeys in Hkt. apply list_elem_of_fmap in Hkt as (q & -> & Hq).
    rewrite (Hgone q Hq) in Hk0. injection Hk0 as <- <-. by apply list_elem_of_singleton in Hj. }
  split; [done|]. cbn [failed]. apply safe_bind. apply rule_sync_dir; [done|intros e (He & _ & _ & Hc); rewrite He; apply safe_ret; [done|]; by apply removed_fail|].
  assert (inv (settle J r2)) as HI3 by by apply settle_sound. split; [done|]. cbn [failed].
  assert (progress J [tk_manifest t] r (settle J r2)) as Hpg.
  { eapply progress_trans; [by apply clearing_progress|eapply progress_trans; [apply progress_put|apply progress_settle|reflexivity|set_solver]|set_solver|set_solver]. }
  eapply safe_mono; [apply (IH P'); [done| |done]|].
  - apply Forall2_same_length_lookup. split; [by eapply Forall2_length|]. intros n q u Hq Hu. pose proof (Forall2_lookup_lr _ _ _ _ _ _ HP' Hq Hu) as Hqu. pose proof (po_ticket _ _ _ _ _ Hqu) as HuT.
    assert (u <> t) as Hut by (intros ->; apply Hn1, list_elem_of_lookup; eauto). pose proof (po_name _ _ _ _ _ Hqu) as Enq. destruct (pg_files _ _ _ _ Hpg) as (Ef & Eu & _).
    apply (pending_keep r); [done|done| |done]. destruct (po_file _ _ _ _ _ Hqu) as (j & l' & Hkq & _). rewrite Enq in *. pose proof (clearing_manifest _ _ _ _ Hcl HuT Hkq) as Hkq1.
    unfold cur_of. rewrite settle_lookup, (cur_put_other r1 J (tk_manifest t)), Hkq1, Hkq by (intros E; apply Hut, (manifest_unique J opts T HT); [done|done|exact (f_equal snd E)]). cbn. by case_decide.
  - intros e r' _ [H1 H2]. split; [done|]. intros E. destruct (H2 E) as [Hpg' Hcur]. split; [eapply progress_trans; [exact Hpg|exact Hpg'| |]; rewrite fmap_cons, ?(po_name _ _ _ _ _ Hp); set_solver|]. intros n [->|Hn']%elem_of_cons; [|by apply Hcur].
    rewrite (po_name _ _ _ _ _ Hp). eapply progress_none; [exact Hpg'|]. unfold cur_of. rewrite settle_lookup. unfold r2. rewrite (cur_put_same _ _ _ _ _ Hk1). cbn. by case_decide.
Qed.
Lemma remove_drafts_safe ns : forall r, inv r -> NoDup ns -> (forall n, n ∈ ns -> (exists t, t ∈ T /\ n = tk_draft t) /\ exists i l, r_keys r !! (J, n) = Some (Some i, l)) -> safe (remove_drafts J ns) r (removed_saves ns r).
Proof.
  induction ns as [|n ns IH]; intros r HI Hn Hns; cbn [remove_drafts].
  { apply safe_ret; [done|]. split; [done|]. intros _. split; [apply progress_refl|]. by intros n ?%not_elem_of_nil. }
  apply NoDup_cons in Hn as [Hn1 Hn2]. destruct (Hns n) as ((t & Ht & ->) & i & l & Hk); [left|]. apply safe_bind. eapply rule_unlink; [exact nothing_same|done|exact Hk|by left| |done|].
  { intros e (He & _ & _ & Hc). rewrite He. apply safe_ret; [done|]. by apply removed_fail. }
  intros _ _. assert (inv (put J (tk_draft t, None) r)) as HI1.
  { apply put_none_sound; [done|]. intros u Hu E. exfalso. pose proof (f_equal snd E) as E'. cbn in E'. destruct (man_name_valid _ (to_hex _ _ _ HT u Hu)) as [H1 _]. apply manifest_not_draft in H1.
    destruct (draft_name_valid _ (to_hex _ _ _ HT t Ht)) as [H2 _]. unfold tk_draft, tk_manifest in E'. congruence. }
  split; [done|]. cbn [failed]. eapply safe_mono; [apply IH; [done|done|]|].
  - intros n' Hn'. destruct (Hns n') as (H1 & j & l' & Hk'); [by right|]. split; [done|]. exists j, l'. rewrite cur_put_other; [done|]. intros E. apply Hn1. by rewrite <- (f_equal snd E : n' = tk_draft t).
  - intros e r' _ [H1 H2]. split; [done|]. intros E. destruct (H2 E) as [Hpg' Hcur]. split; [eapply progress_trans; [apply progress_put|exact Hpg'|set_solver|set_solver]|]. intros n' [->|Hn']%elem_of_cons; [|by apply Hcur].
    eapply progress_none; [exact Hpg'|]. unfold cur_of. by rewrite (cur_put_same _ _ _ _ _ Hk).
Qed.

(** ** Releasing the room *)

Lemma Release_ok s k : store_ok s -> store_ok (Release s k) /\ s_options (Release s k) = s_options s.
Proof. intros Hs. destruct (s_reservations s !! k) as [n|] eqn:E; [by destruct (Release_cases s k n Hs E) as (? & ? & _)|]. unfold Release. by rewrite E. Qed.
(** Everything but the store. *)
Definition but_store (r r' : resources) : Prop := r_keys r' = r_keys r /\ r_files r' = r_files r.
Lemma release_all_safe l : forall r, inv r -> is_Some (r_store r) -> safe (release_all l) r (fun _ r' => but_store r r' /\ is_Some (r_store r')).
Proof.
  induction l as [|k l IH]; intros r HI [s Hs]; cbn [release_all]; [by apply safe_ret|]. apply safe_bind. apply rule_store; [done|]. intros s0 Hok Ho E _. specialize (E s Hs). subst s0.
  destruct (Release_ok s k Hok) as [R1 R2]. exists None, []. split; [split; cbn; [done|done|congruence|done]|]. cbn. rewrite Hs. assert (inv (r <| r_reserved := None |> <| r_plan := [] |> <| r_store := Some (Release s k) |>)) as HI' by by apply sound_store.
  split; [done|]. eapply safe_mono; [apply IH; [done|done]|]. intros x r' _ [[E1 E2] H]. done.
Qed.

(** ** The whole recovery *)

(** No temporary file, manifest or draft is left, whatever a crash leaves. *)
Definition swept (r : resources) : Prop := forall d n c l i, r_keys r !! (d, n) = Some (c, l) -> validTempName n = true \/ d = J /\ n <> lit ".lock" /\ n <> lit "identity" -> Some i ∉ l.
Lemma swept_sound r : inv r -> (forall n c l i, r_keys r !! (J, n) = Some (c, l) -> n <> lit ".lock" -> n <> lit "identity" -> Some i ∉ l) -> swept r.
Proof.
  intros HI Hj d n c l i Hk [Hv|(-> & H1 & H2)] Hi; [|by eapply Hj]. destruct (sd_temps _ _ _ _ _ HI d n c l i Hk Hv Hi) as (t & c' & l' & Ht & _ & Hk' & Hno).
  pose proof (sd_cur _ _ _ _ _ HI _ _ _ Hk') as Hcur. destruct c' as [j|]; [|done]. apply (Hj _ _ _ j Hk'); [| |done].
  - intros E. destruct (man_name_valid _ (to_hex _ _ _ HT t Ht)) as [H _]. unfold tk_manifest in E. rewrite E in H. vm_compute in H. done.
  - intros E. destruct (man_name_valid _ (to_hex _ _ _ HT t Ht)) as [H _]. unfold tk_manifest in E. rewrite E in H. vm_compute in H. done.
Qed.
Lemma journal_count names r : inv r -> NoDup names -> (forall n, n ∈ names -> exists i l, r_keys r !! (J, n) = Some (Some i, l)) -> Z.of_nat (length names) <= MaxPending opts * 2 + 2.
Proof.
  intros HI Hn Hk. assert (names ⊆+ lit ".lock" :: lit "identity" :: (tk_manifest <$> T) ++ (tk_draft <$> T)) as Hs.
  { apply NoDup_submseteq; [done|]. intros n Hn'. destruct (Hk n Hn') as (i & l & H). destruct (sd_names _ _ _ _ _ HI n _ _ i H (sd_cur _ _ _ _ _ HI _ _ _ H)) as [->|[->|(t & Ht & [-> | ->])]].
    - left.
    - right; left.
    - do 2 right. apply elem_of_app. left. apply list_elem_of_fmap. eauto.
    - do 2 right. apply elem_of_app. right. apply list_elem_of_fmap. eauto. }
  apply submseteq_length in Hs. cbn in Hs. rewrite length_app, !length_fmap in Hs. pose proof (to_pending _ _ _ HT). lia.
Qed.
Definition recovered (e : error) (r : resources) : Prop := (calm = true -> e = []) /\ (e = [] -> swept r).
Lemma recovered_fail e r : calm = false -> failed e = true -> recovered e r.
Proof. intros Hc He. split; [congruence|by intros ->]. Qed.
(** The passes over a journal that was read. *)
Definition recover_names (names : list bytes) : prog error :=
  try^ s := scan_entries J agent (MaxPending opts) names {| sn_saves := []; sn_drafts := []; sn_temps := []; sn_requests := [] |} in
  try^ rs := reserve_drafts (sn_drafts s) (manifest_id ∘ pd_name <$> sn_saves s) (Z.of_nat (length (sn_saves s))) (MaxPending opts) 0 [] in
  check^ remove_saves J (sn_saves s) in
  check^ remove_drafts J (sn_drafts s) in
  check^ act_ (sync_dir J) in
  let^ _ := release_all (pd_reservation <$> sn_saves s) in
  let^ _ := release_all rs in
  Ret [].
Section Names.
Context (r : resources) (names : list bytes) (HI : inv r) (Hnd : NoDup names) (Hnames : forall n, n ∈ names <-> exists i l, r_keys r !! (J, n) = Some (Some i, l)).
Context (s : Store) (P : list ticket) (sn : scan) (Hs : scanned J opts T r s names P sn).
Lemma scanned_ids h : h ∈ manifest_id ∘ pd_name <$> sn_saves sn <-> h ∈ tk_hex <$> P.
Proof.
  pose proof (sc_saves _ _ _ _ _ _ _ _ Hs) as Hp. clear Hs. induction Hp as [|p t ps P' Hpt _ IH]; [done|]. rewrite !fmap_cons, !elem_of_cons, IH. cbn. rewrite (po_name _ _ _ _ _ Hpt).
  unfold tk_manifest. by rewrite (proj1 (proj2 (man_name_valid _ (to_hex _ _ _ HT t (po_ticket _ _ _ _ _ Hpt))))).
Qed.
(** After both removals and the sync nothing is left. *)
Lemma removed_swept r1 r2 : inv (settle J r2) -> lost J (pd_name <$> sn_saves sn) r r1 -> (forall n, n ∈ pd_name <$> sn_saves sn -> cur_of r1 (J, n) = Some None) ->
  lost J (sn_drafts sn) r1 r2 -> (forall n, n ∈ sn_drafts sn -> cur_of r2 (J, n) = Some None) -> swept (settle J r2).
Proof.
  intros HI2 Hp1 H1 Hp2 H2. apply swept_sound; [done|]. intros n c l i Hk Hn1 Hn2 Hi. destruct (r_keys r2 !! (J, n)) as [[c2 l2]|] eqn:E2; [|rewrite settle_lookup, E2 in Hk; done].
  rewrite (settle_in _ _ _ _ _ E2) in Hk. injection Hk as <- <-. apply list_elem_of_singleton in Hi as <-.
  assert (cur_of r2 (J, n) = Some (Some i)) as Hcur by (unfold cur_of; by rewrite E2).
  assert (cur_of r1 (J, n) = Some (Some i)) as Hcur1 by (destruct (Hp2 n) as [E|[_ E]]; congruence).
  assert (cur_of r (J, n) = Some (Some i)) as Hcur0 by (destruct (Hp1 n) as [E|[_ E]]; congruence).
  assert (n ∈ names) as Hin. { apply Hnames. unfold cur_of in Hcur0. destruct (r_keys r !! (J, n)) as [[c0 l0]|]; [|done]. injection Hcur0 as ->. eauto. }
  destruct (sc_seen _ _ _ _ _ _ _ _ Hs n Hin) as [?|[?|[(t & Ht & E)|Hd]]]; [done|done| |by rewrite H2 in Hcur].
  assert (n ∈ pd_name <$> sn_saves sn) as Hns; [|by rewrite H1 in Hcur1]. apply list_elem_of_lookup in Ht as [j Hj]. destruct (Forall2_lookup_r _ _ _ _ _ (sc_saves _ _ _ _ _ _ _ _ Hs) Hj) as (p & Hp & Hpt).
  apply list_elem_of_fmap. exists p. split; [by rewrite (po_name _ _ _ _ _ Hpt)|]. apply list_elem_of_lookup. eauto.
Qed.
Lemma drafts_current r1 n : lost J (pd_name <$> sn_saves sn) r r1 -> n ∈ sn_drafts sn -> (exists t, t ∈ T /\ n = tk_draft t) /\ exists i l, r_keys r1 !! (J, n) = Some (Some i, l).
Proof.
  intros Hp Hn. destruct (proj2 (sc_drafts _ _ _ _ _ _ _ _ Hs) n Hn) as [Hin (t & Ht & E)]. split; [eauto|]. apply Hnames in Hin as (i & l & Hk). exists i.
  assert (cur_of r1 (J, n) = Some (Some i)) as Hc; [|unfold cur_of in Hc; destruct (r_keys r1 !! (J, n)) as [[c0 l0]|]; [injection Hc as ->; eauto|done]].
  destruct (Hp n) as [->|[Hns _]]; [unfold cur_of; by rewrite Hk|]. exfalso. apply list_elem_of_fmap in Hns as (p & -> & [j Hj]%list_elem_of_lookup).
  destruct (Forall2_lookup_l _ _ _ _ _ (sc_saves _ _ _ _ _ _ _ _ Hs) Hj) as (u & _ & Hpt). pose proof (po_ticket _ _ _ _ _ Hpt) as Hu. rewrite (po_name _ _ _ _ _ Hpt) in E.
  destruct (man_name_valid _ (to_hex _ _ _ HT u Hu)) as [H1 _]. apply manifest_not_draft in H1. destruct (draft_name_valid _ (to_hex _ _ _ HT t Ht)) as [H2 _]. unfold tk_draft, tk_manifest in E. congruence.
Qed.
End Names.
Lemma recover_names_safe r s names : inv r -> holding opts s [] -> NoDup names -> (forall n, n ∈ names <-> exists i l, r_keys r !! (J, n) = Some (Some i, l)) ->
  safe (recover_names names) (with_store s r) recovered.
Proof.
  intros HI Hh Hnd Hnames. unfold recover_names. apply safe_bind. eapply safe_mono; [apply (scan_entries_safe J calm located opts agent T HT r names HI [] s []); [|done|by intros n ?%Hnames]|].
  { split; cbn; [done|split; [apply NoDup_nil_2|set_solver]|constructor|split; [apply NoDup_nil_2|]|..]; by intros ? ?%not_elem_of_nil. }
  cbn [app]. intros [e|sn] r1 HI1 (s1 & -> & H); [apply safe_ret; [done|]; apply recovered_fail; apply H|]. destruct H as (P & Hs). pose proof (sc_tickets _ _ _ _ _ _ _ _ Hs) as [HP1 HP2].
  apply safe_bind. rewrite (Forall2_length _ _ _ (sc_saves _ _ _ _ _ _ _ _ Hs)). eapply safe_mono.
  { apply (reserve_drafts_safe J calm located opts agent T HT r _ P (sn_drafts sn) HI (scanned_ids r names s1 P sn Hs) [] s1 []); rewrite ?app_nil_r; [apply Hs|done|done|apply Hs|].
    intros n Hn. destruct (proj2 (sc_drafts _ _ _ _ _ _ _ _ Hs) n Hn) as [_ (t & Ht & E)]. exists t. split_and!; [done|done|]. by intros ?%not_elem_of_nil. }
  intros [e|rs] r2 HI2 (s2 & -> & H); [apply safe_ret; [done|]; apply recovered_fail; apply H|]. clear H. set (r2 := with_store s2 r) in *. apply safe_bind.
  eapply safe_mono; [apply (remove_saves_safe (sn_saves sn) P r2); [done| |done]|].
  { eapply Forall2_impl; [exact (sc_saves _ _ _ _ _ _ _ _ Hs)|]. intros p t. by apply pending_keep. }
  intros e r3 HI3 [H1 H2]. destruct (failed e) eqn:Ee.
  { apply safe_ret; [done|]. apply recovered_fail; [|done]. destruct calm; [by rewrite H1 in Ee|done]. }
  destruct e; [|done]. destruct (H2 eq_refl) as [Hp1 Hc1]. clear H1 H2. apply safe_bind. eapply safe_mono; [apply remove_drafts_safe; [done|apply Hs|]|].
  { intros n Hn. eapply (drafts_current r); [exact Hnames|exact Hs|exact (pg_cur _ _ _ _ Hp1)|done]. }
  clear Ee. intros e r4 HI4 [H1 H2]. destruct (failed e) eqn:Ee.
  { apply safe_ret; [done|]. apply recovered_fail; [|done]. destruct calm; [by rewrite H1 in Ee|done]. }
  destruct e; [|done]. destruct (H2 eq_refl) as [Hp2 Hc2]. clear H1 H2. apply safe_bind. apply rule_sync_dir; [done|intros e (He & _ & _ & Hc); rewrite He; apply safe_ret; [done|by apply recovered_fail]|].
  assert (inv (settle J r4)) as HI5 by by apply settle_sound. split; [done|]. cbn [failed]. assert (swept (settle J r4)) as Hsw by (eapply (removed_swept r); [exact Hnames|exact Hs|done|exact (pg_cur _ _ _ _ Hp1)|done|exact (pg_cur _ _ _ _ Hp2)|done]).
  assert (is_Some (r_store (settle J r4))) as Hst. { destruct (pg_files _ _ _ _ Hp2) as (_ & _ & E2), (pg_files _ _ _ _ Hp1) as (_ & _ & E1). cbn. rewrite E2, E1. done. }
  apply safe_bind. eapply safe_mono; [by apply release_all_safe|]. intros [] r6 HI6 [[E6 _] Hst6]. apply safe_bind. eapply safe_mono; [by apply release_all_safe|]. intros [] r7 HI7 [[E7 _] _].
  apply safe_ret; [done|]. split; [done|]. intros _ d n c l i Hk. rewrite E7, E6 in Hk. by eapply Hsw.
Qed.
Lemma recoverSaves_safe r s : inv r -> holding opts s [] -> safe (recoverSaves J agent) (with_store s r) recovered.
Proof.
  intros HI Hh. assert (inv (with_store s r)) as HI' by by apply sound_store. unfold recoverSaves. apply safe_bind. apply rule_max_pending; [done|]. apply safe_bind.
  apply rule_read_dir; [done|done|apply (proj1 (sd_dirs _ _ _ _ _ HI))|intros e (He & _ & _ & Hc)|intros names Hnd Hnames]; apply safe_bind.
  - apply rule_close; [done|intros c _|]; (apply safe_ret; [done|]; apply recovered_fail; [done|]; rewrite ?failed_app, He; by rewrite ?orb_true_r).
  - apply rule_close; [done|intros c (He & _ & _ & Hc); destruct c; [done|]; apply safe_ret; [done|by apply recovered_fail]|].
    assert (Z.of_nat (length names) <= MaxPending opts * 2 + 2) as Hcount by (by apply (journal_count names (with_store s r)); [done|done|intros n ?%Hnames]).
    rewrite take_ge by lia. rewrite (proj2 (Z.ltb_ge _ _)) by lia. by apply recover_names_safe.
Qed.
End Recovery.
