(* ===== verification/SaveTickets.v ===== *)
(** * The tickets of saves that run
    At any point of saves that run together, every one of them that has a name in the
    journal has a ticket, and the tickets fit into the limits of the store: their
    reservations are reservations of the store, and they are counted as active. *)
From Stdlib Require Import ZArith Lia.
From stdpp Require Import base gmap sets list option strings.
From coqutil Require Import Datatypes.RecordSettersUsingExistingGetters.
From S2P Require Import Prelude Utf8 GoStrings InputValue ArtifactStore HostFs SaveFiles SaveManifest SaveJournal SaveLogic SaveNames SaveInvariant SaveSound SaveThreads.
Local Open Scope Z_scope.
#[global] Arguments const {E} newValue / _.
#[local] Arguments lit : simpl never.

(** ** One save *)

Section Ticket.
Context (J : Identity) (located : bytes -> Identity -> Prop) (agent : bytes).
Record has_ticket (request : bytes) (r : resources) (t : ticket) : Prop := {
  ht_hex : hexs (tk_hex t);
  ht_names : forall n, is_Some (r_keys r !! (J, n)) <-> n = tk_manifest t \/ n = tk_draft t;
  ht_request : tk_request t = request;
  ht_reserved : r_reserved r = Some (tk_slot t, tk_weight t) /\ manifestReservation <= tk_weight t;
  ht_active : r_active r = true;
  ht_keys : forall k, k ∈ tk_keys t -> is_Some (r_keys r !! k) /\ validTempName k.2 = true /\ k.1 <> J;
  ht_nodup : NoDup (tk_keys t);
  ht_manifest : forall c l i, r_keys r !! (J, tk_manifest t) = Some (c, l) -> Some i ∈ l -> exists m, manifest_file r i m /\ describes located agent r t m;
  ht_draft : forall c l i, r_keys r !! (J, tk_draft t) = Some (c, l) -> Some i ∈ l -> draft_file r i;
  ht_temps : forall d n c l i, r_keys r !! (d, n) = Some (c, l) -> validTempName n = true -> Some i ∈ l ->
    (d, n) ∈ tk_keys t /\ exists c' l', r_keys r !! (J, tk_manifest t) = Some (c', l') /\ None ∉ l'
}.
(** Without a ticket there is nothing in the journal and no temporary file. *)
Definition no_ticket (r : resources) : Prop := forall d n c l i, r_keys r !! (d, n) = Some (c, l) -> d = J \/ validTempName n = true -> Some i ∉ l.
Definition ticket_for (request : bytes) (r : resources) (o : option ticket) : Prop := match o with Some t => has_ticket request r t | None => no_ticket r end.

Lemma covers_describes request r t m : covers located agent request r m -> tk_request t = request -> r_reserved r = Some (tk_slot t, tk_weight t) -> tk_plan t = r_plan r -> describes located agent r t m.
Proof. intros [C1 C2 C3 C4 (k & n & C5 & C5' & C5'') C6 C7 C8 C9] E1 E2 E3. assert (n = tk_weight t) as -> by congruence. split; try done; congruence. Qed.
Section Names.
Context (request : bytes) (r : resources) (Hr : recoverable J located agent request r) (h : bytes) (Hh : hexs h).
Context (Hn : forall n, is_Some (r_keys r !! (J, n)) -> n = man_name h \/ n = draft_name h) (Hb : is_Some (r_keys r !! (J, man_name h)) <-> is_Some (r_keys r !! (J, draft_name h))).
Lemma names_claimed n x : r_keys r !! (J, n) = Some x -> forall n', is_Some (r_keys r !! (J, n')) <-> n' = man_name h \/ n' = draft_name h.
Proof.
  intros Hk n'. split; [apply Hn|]. assert (is_Some (r_keys r !! (J, man_name h))) as H1 by (destruct (Hn n) as [<- | E]; [by rewrite Hk|by rewrite Hk|apply Hb; by rewrite <- E, Hk]).
  intros [-> | ->]; [done|by apply Hb].
Qed.
Lemma manifest_ticket c l i : r_keys r !! (J, man_name h) = Some (c, l) -> Some i ∈ l -> exists t, has_ticket request r t.
Proof.
  intros Hk Hi. destruct (man_name_valid h Hh) as [Hm _], (draft_name_valid h Hh) as [Hd _]. destruct (rc_manifest _ _ _ _ _ Hr _ _ _ i Hk Hm Hi) as (m & Hmf & Hc). pose proof Hc as [C1 C2 C3 C4 (k & n & C5 & C5' & C5'') C6 C7 C8 C9].
  set (t := {| tk_hex := h; tk_request := request; tk_plan := r_plan r; tk_slot := k; tk_weight := n |}).
  assert (tk_keys t = entry_key <$> Entries m) as Ek by (unfold tk_keys; cbn; rewrite <- C6, <- list_fmap_compose; done). exists t. split; try done.
  - by eapply names_claimed.
  - split; [done|]. cbn. pose proof (entry_total_nonneg (Entries m) (fun e H => es_reserved _ _ (proj1 (C8 e H)))). lia.
  - intros k' Hk'. rewrite Ek in Hk'. apply list_elem_of_fmap in Hk' as (e & -> & He). destruct (C8 e He) as (Hs & c' & l' & Hk' & _). split_and!; [by rewrite Hk'|apply Hs|].
    apply (temp_key_dir J located agent request r _ (se_Temp e) Hr); [by exists (c', l')|apply Hs].
  - by rewrite Ek.
  - intros c' l' j Hk' Hj. destruct (rc_manifest _ _ _ _ _ Hr _ _ _ j Hk' Hm Hj) as (m' & Hmf' & Hc'). exists m'. split; [done|]. by eapply covers_describes.
  - intros c' l' j Hk' Hj. by apply (rc_draft _ _ _ _ _ Hr _ _ _ j Hk' Hd Hj).
  - intros d n' c' l' j Hk' Hv Hj. rewrite Ek. split; [by eapply C9|]. destruct (rc_temps _ _ _ _ _ Hr d n' c' l' j Hk' Hv Hj) as (n2 & c2 & l2 & Hk2 & Hm2 & Hno).
    exists c2, l2. split; [|done]. destruct (Hn n2) as [-> | ->]; [by rewrite Hk2|done|]. apply manifest_not_draft in Hm2. congruence.
Qed.
Lemma draft_ticket c l i : r_keys r !! (J, draft_name h) = Some (c, l) -> Some i ∈ l -> (forall c l i, r_keys r !! (J, man_name h) = Some (c, l) -> Some i ∉ l) -> exists t, has_ticket request r t.
Proof.
  intros Hk Hi Hno. destruct (draft_name_valid h Hh) as [Hd _]. destruct (rc_draft _ _ _ _ _ Hr _ _ _ i Hk Hd Hi) as (_ & Ha & k & n & Hres & Hw).
  exists {| tk_hex := h; tk_request := request; tk_plan := []; tk_slot := k; tk_weight := n |}. split; try done.
  - by eapply names_claimed.
  - by intros k' ?%not_elem_of_nil.
  - apply NoDup_nil_2.
  - intros c' l' j Hk' Hj. by apply (Hno c' l' j Hk') in Hj.
  - intros c' l' j Hk' Hj. by apply (rc_draft _ _ _ _ _ Hr _ _ _ j Hk' Hd Hj).
  - intros d n' c' l' j Hk' Hv Hj. exfalso. destruct (rc_temps _ _ _ _ _ Hr d n' c' l' j Hk' Hv Hj) as (n2 & c2 & l2 & Hk2 & Hm2 & Hno2).
    destruct (Hn n2) as [-> | ->]; [by rewrite Hk2| |apply manifest_not_draft in Hm2; congruence]. pose proof (rc_cur _ _ _ _ _ Hr _ _ _ Hk2) as Hc. destruct c2 as [x|]; [|done]. by apply (Hno _ _ x Hk2).
Qed.
End Names.
Lemma list_some (l : list (option Identity)) : (exists i, Some i ∈ l) \/ forall i, Some i ∉ l.
Proof. induction l as [|[i|] l [[j Hj]|IH]]; [right; by intros i ?%not_elem_of_nil|left; exists i; left|left; exists i; left|left; exists j; by right|right; intros i [?|?]%elem_of_cons; [done|by apply (IH i)]]. Qed.
Lemma key_some r k : (exists c l i, r_keys r !! k = Some (c, l) /\ Some i ∈ l) \/ forall c l i, r_keys r !! k = Some (c, l) -> Some i ∉ l.
Proof.
  destruct (r_keys r !! k) as [[c l]|]; [|by right]. destruct (list_some l) as [[i Hi]|H]; [left; eauto|right]. intros c' l' i [= <- <-]. apply H.
Qed.
Lemma recoverable_ticket request r : recoverable J located agent request r -> exists o, ticket_for request r o.
Proof.
  intros Hr. destruct (rc_names _ _ _ _ _ Hr) as (h & Hh & Hn & Hb). destruct (key_some r (J, man_name h)) as [(c & l & i & Hk & Hi)|Hm].
  { destruct (manifest_ticket request r Hr h Hh Hn Hb c l i Hk Hi) as [t Ht]. by exists (Some t). }
  destruct (key_some r (J, draft_name h)) as [(c & l & i & Hk & Hi)|Hd].
  { destruct (draft_ticket request r Hr h Hh Hn Hb c l i Hk Hi Hm) as [t Ht]. by exists (Some t). }
  exists None. assert (forall n c l i, r_keys r !! (J, n) = Some (c, l) -> Some i ∉ l) as HJ by (intros n c l i Hk; destruct (Hn n) as [-> | ->]; [by rewrite Hk|eauto|eauto]).
  intros d n c l i Hk [->|Hv] Hi; [by eapply HJ|]. destruct (rc_temps _ _ _ _ _ Hr d n c l i Hk Hv Hi) as (n2 & c2 & l2 & Hk2 & _ & Hno).
  pose proof (rc_cur _ _ _ _ _ Hr _ _ _ Hk2) as Hc. destruct c2 as [x|]; [|done]. by apply (HJ _ _ _ x Hk2).
Qed.
End Ticket.

(** ** All saves *)

Lemma choose_all {A B} (P : nat -> A -> B -> Prop) (l : list A) : (forall t a, l !! t = Some a -> exists b, P t a b) ->
  exists bs, length bs = length l /\ forall t a b, l !! t = Some a -> bs !! t = Some b -> P t a b.
Proof.
  revert P. induction l as [|a l IH]; intros P H; [by exists []|]. destruct (H 0%nat a eq_refl) as [b Hb]. destruct (IH (fun t => P (S t))) as (bs & Hl & Hbs); [intros t; apply (H (S t))|].
  exists (b :: bs). split; [cbn; by rewrite Hl|]. intros [|t] x y; [by intros [= <-] [= <-]|apply Hbs].
Qed.
Lemma omap_lookup {A} (os : list (option A)) x : x ∈ omap id os <-> exists u, os !! u = Some (Some x).
Proof. rewrite list_elem_of_omap. split; [intros (o & [u Hu]%list_elem_of_lookup & E); cbn in E; subst; eauto|]. intros [u Hu]. exists (Some x). split; [|done]. apply list_elem_of_lookup. eauto. Qed.
Lemma omap_nodup {A B} (f : A -> B) (os : list (option A)) : (forall u v x y, u <> v -> os !! u = Some (Some x) -> os !! v = Some (Some y) -> f x <> f y) -> NoDup (f <$> omap id os).
Proof.
  induction os as [|o os IH]; intros H; [apply NoDup_nil_2|]. assert (NoDup (f <$> omap id os)) as Hn by (apply IH; intros u v x y Huv; apply (H (S u) (S v)); congruence).
  destruct o as [x|]; [|exact Hn]. change (NoDup (f x :: (f <$> omap id os))). apply NoDup_cons. split; [|done].
  intros (y & E & (v & Hv)%omap_lookup)%list_elem_of_fmap. by apply (H 0%nat (S v) x y).
Qed.
Lemma omap_concat {A B} (f : A -> list B) (os : list (option A)) : (forall u x, os !! u = Some (Some x) -> NoDup (f x)) ->
  (forall u v x y b, u <> v -> os !! u = Some (Some x) -> os !! v = Some (Some y) -> b ∈ f x -> b ∉ f y) -> NoDup (concat (f <$> omap id os)).
Proof.
  induction os as [|o os IH]; intros H1 H2; [apply NoDup_nil_2|]. assert (NoDup (concat (f <$> omap id os))) as Hn by (apply IH; [intros u; apply (H1 (S u))|intros u v x y b Huv; apply (H2 (S u) (S v)); congruence]).
  destruct o as [x|]; [|exact Hn]. change (NoDup (f x ++ concat (f <$> omap id os))). apply NoDup_app. split_and!; [by apply (H1 0%nat)| |done].
  intros b Hb Hb'. apply list_elem_of_In, in_concat in Hb' as (l & Hl%list_elem_of_In & Hb'%list_elem_of_In). apply list_elem_of_fmap in Hl as (y & -> & (v & Hv)%omap_lookup). by apply (H2 0%nat (S v) x y b).
Qed.
(** Tickets with different reservations fit into the store. *)
Lemma weights_store (T : list ticket) : forall m : gmap nat Z, NoDup (tk_slot <$> T) -> (forall t, t ∈ T -> m !! tk_slot t = Some (tk_weight t)) -> map_Forall (fun _ n => 1 <= n) m ->
  weights T <= msum (fun n => n) m /\ (length T <= size m)%nat.
Proof.
  induction T as [|t T IH]; intros m Hn Hm Hpos.
  - split; [|cbn; lia]. apply msum_nonneg. intros k n Hk. specialize (Hpos k n Hk). cbn in Hpos. lia.
  - rewrite fmap_cons in Hn. apply NoDup_cons in Hn as [Hn1 Hn2]. pose proof (Hm t ltac:(left)) as Ht. destruct (IH (delete (tk_slot t) m)) as [H1 H2].
    + done.
    + intros u Hu. rewrite lookup_delete_ne; [apply Hm; by right|]. intros E. apply Hn1, list_elem_of_fmap. eauto.
    + by apply map_Forall_delete.
    + rewrite (msum_delete _ _ _ _ Ht) in H1. rewrite map_size_delete_Some in H2 by eauto. assert (size m <> 0)%nat by (intros E%map_size_empty_inv; subst; done).
      change (weights (t :: T)) with (tk_weight t + weights T). cbn [length]. lia.
Qed.
Lemma active_tickets (os : list (option ticket)) rs : length os = length rs -> (forall u t r, os !! u = Some (Some t) -> rs !! u = Some r -> r_active r = true) -> Z.of_nat (length (omap id os)) <= active_count rs.
Proof.
  revert rs. induction os as [|o os IH]; intros [|r rs] Hl H; [done|done|done|]. specialize (IH rs ltac:(cbn in Hl; lia) (fun u => H (S u))). change (active_count (r :: rs)) with (b2z (r_active r) + active_count rs).
  destruct o as [t|]; [|unfold b2z; change (omap id (None :: os)) with (omap id os); destruct (r_active r); lia]. change (omap id (Some t :: os)) with (t :: omap id os). cbn [length]. rewrite (H 0%nat t r eq_refl eq_refl). cbn [b2z]. lia.
Qed.
