(* ===== verification/SaveCrash.v ===== *)
(** * Crashes and restarts
    After a crash at any point of saves that run together the journal is sound, and so it
    is after a crash of a recovery; a recovery without failing calls then succeeds. *)
From Stdlib Require Import ZArith Lia.
From stdpp Require Import base gmap sets list option strings relations.
From coqutil Require Import Datatypes.RecordSettersUsingExistingGetters.
From S2P Require Import Prelude Utf8 GoStrings InputValue ArtifactStore HostFs SaveFiles SaveManifest SaveJournal SaveLogic SaveNames SaveInvariant SaveStore SaveSound SaveScan SaveRecovery SaveThreads SaveTickets SaveSafety.
Local Open Scope Z_scope.
#[global] Arguments const {E} newValue / _.
#[local] Arguments lit : simpl never.
#[local] Arguments safe : simpl never.

(** ** What is on the machine *)

(** Everything there is to know of the names [ks] and of all files. *)
Definition snapshot (w : world) (ks : gset key) : resources :=
  {| r_keys := set_to_map (fun k => (k, known_key w k)) ks; r_files := w_files w; r_new := ∅; r_dirs := dom (w_dirs w); r_euid := w_euid w;
     r_reserved := None; r_active := false; r_store := None; r_plan := [] |}.
Lemma snapshot_key w ks k : r_keys (snapshot w ks) !! k = if decide (k ∈ ks) then Some (known_key w k) else None.
Proof.
  cbn. destruct (decide (k ∈ ks)) as [H|H].
  - apply lookup_set_to_map; [by intros ? ? _ _ [= ->]|]. by exists k.
  - apply eq_None_not_Some. intros [x Hx]. apply lookup_set_to_map in Hx; [|by intros ? ? _ _ [= ->]]. destruct Hx as (y & Hy & [= -> _]). done.
Qed.
Lemma snapshot_some w ks k x : r_keys (snapshot w ks) !! k = Some x <-> k ∈ ks /\ x = known_key w k.
Proof. rewrite snapshot_key. destruct (decide (k ∈ ks)); split; [by intros [= <-]|by intros [_ ->]|done|tauto]. Qed.
Lemma snapshot_dom w ks k : is_Some (r_keys (snapshot w ks) !! k) <-> k ∈ ks.
Proof. rewrite snapshot_key. destruct (decide (k ∈ ks)); split; [done|done|by intros []|done]. Qed.
(** Names whose directories exist and whose random parts were drawn; all of the journal's. *)
Record names_ok (J : Identity) (w : world) (ks : gset key) : Prop := {
  no_dirs : forall k, k ∈ ks -> is_Some (w_dirs w !! k.1);
  no_hex : forall d n h, (d, n) ∈ ks -> name_hex J d n = Some h -> h ∈ w_drawn w;
  no_journal : is_Some (w_dirs w !! J) /\ forall n i, mayw w J n (Some i) -> (J, n) ∈ ks
}.
Lemma snapshot_owned J located opts w ks : wf J located opts w -> names_ok J w ks -> owned J (with_store (w_store w) (snapshot w ks)) w.
Proof.
  intros Hw [N1 N2 N3]. split; try done.
  - intros d n c l [_ E]%snapshot_some. unfold known_key in E. by injection E as -> _.
  - intros d n c l v [Hk E]%snapshot_some Hm. apply (known_key_may w (d, n) v (N1 _ Hk)) in Hm. by rewrite <- E in Hm.
  - intros i f Hf. exists f. split; [done|apply same_refl].
  - intros d Hd. cbn in Hd. by apply elem_of_dom.
  - intros d n Hk%snapshot_dom. cbn. apply elem_of_dom. by apply (N1 _ Hk).
  - intros d n h Hk%snapshot_dom. by apply N2.
  - by intros s [= <-].
  - intros n i _ Hm. apply snapshot_dom. exact (proj2 N3 n i Hm).
Qed.

(** The machine [w'] is [w] later, with its files and names, some of them lost. *)
Record later (w w' : world) : Prop := {
  lt_may : forall d n v, mayw w' d n v -> mayw w d n v;
  lt_files : forall i f, w_files w !! i = Some f -> exists f', w_files w' !! i = Some f' /\ aged f f';
  lt_same : w_euid w' = w_euid w /\ w_drawn w' = w_drawn w /\ forall d, is_Some (w_dirs w' !! d) <-> is_Some (w_dirs w !! d)
}.
Lemma later_crash pick torn w : later w (crash pick torn w).
Proof.
  split; [by intros d n v; apply crash_may| |].
  - intros i f Hf. exists (crash_file (torn i) f). unfold crash. cbn. rewrite map_lookup_imap, Hf. split; [done|apply aged_crash].
  - split_and!; [done|done|]. intros d. unfold crash. cbn. rewrite map_lookup_imap. by destruct (w_dirs w !! d).
Qed.
Lemma crash_wf J located opts pick torn w : wf J located opts w -> 0 <= MaxPending opts -> wf J located opts (crash pick torn w).
Proof.
  intros Hw Hp. pose proof (crash_may pick torn w) as Hm. destruct (later_crash pick torn w) as [_ Hf (_ & _ & Hd)]. destruct Hw as [W1 W2 W3 W4 W5 W6 W7 W8 W9 W10].
  split; try done.
  - intros d dr Hdr. unfold crash in Hdr. cbn in Hdr. rewrite map_lookup_imap in Hdr. destruct (w_dirs w !! d); [|done]. by injection Hdr as <-.
  - intros d n i H%Hm. destruct (W2 _ _ _ H) as [[f Hif]|?]; [left; destruct (Hf i f Hif) as (f' & -> & _); done|right; by apply Hd].
  - intros d n i h H%Hm. by eapply W3.
  - intros i f Hif. unfold crash in Hif. cbn in Hif. rewrite map_lookup_imap in Hif. destruct (w_files w !! i) as [f0|] eqn:E; [|done]. cbn in Hif. injection Hif as <-. destruct (W4 i f0 E) as [M1 M2 M3 M4 M5].
    unfold crash_file. by destruct (f_dirty f0).
  - intros d. rewrite Hd. apply W5.
  - intros p i. rewrite Hd. apply W7.
  - destruct W8 as [[U1 U2] [O1 O2] R]. assert (0 <= msum (fun n => n) (s_reservations (w_store w))) by (apply msum_nonneg; intros k n Hk; destruct (R k n Hk); lia).
    split; cbn; [rewrite msum_empty; lia|unfold objects; cbn; rewrite !map_size_empty; lia|apply map_Forall_empty].
Qed.

(** ** Sound journals stay sound *)

Section Later.
Context (J : Identity) (located : bytes -> Identity -> Prop) (opts : Options) (agent : bytes) (T : list ticket).
Lemma snapshot_dirs w ks : names_ok J w ks -> J ∈ r_dirs (snapshot w ks) /\ forall k, is_Some (r_keys (snapshot w ks) !! k) -> k.1 ∈ r_dirs (snapshot w ks).
Proof. intros [N1 _ [N3 _]]. split; [cbn; by apply elem_of_dom|]. intros k Hk%snapshot_dom. cbn. apply elem_of_dom. by apply N1. Qed.
Lemma snapshot_cur w ks k c l : wf J located opts w -> names_ok J w ks -> r_keys (snapshot w ks) !! k = Some (c, l) -> c ∈ l.
Proof.
  intros Hw Hn [Hk E]%snapshot_some. pose proof (no_dirs _ _ _ Hn k Hk) as Hd. change l with ((c, l).2). rewrite E. apply (known_key_may w k _ Hd).
  replace c with (entry w k.1 k.2) by (unfold known_key in E; by injection E as -> _). by eapply entry_may.
Qed.
Lemma sound_snapshot r w ks : sound J located agent T r -> wf J located opts w -> names_ok J w ks -> (forall k, k ∈ ks <-> is_Some (r_keys r !! k)) -> r_euid r = w_euid w ->
  (forall d n c l v, r_keys r !! (d, n) = Some (c, l) -> mayw w d n v -> v ∈ l) -> (forall i f, r_files r !! i = Some f -> exists f', w_files w !! i = Some f' /\ aged f f') -> sound J located agent T (snapshot w ks).
Proof.
  intros Hs Hw Hn Hks He Hl Hf. assert (forall k c' l' c l v, r_keys (snapshot w ks) !! k = Some (c', l') -> r_keys r !! k = Some (c, l) -> v ∈ l' -> v ∈ l) as Hsub.
  { intros [d n] c' l' c l v [Hk E]%snapshot_some Hr Hv. change l' with ((c', l').2) in Hv. rewrite E in Hv. apply (known_key_may w (d, n) v (no_dirs _ _ _ Hn _ Hk)) in Hv. by eapply Hl. }
  apply (shrink_sound J located agent T r); [done|by split|intros k; by rewrite snapshot_dom, Hks|by apply snapshot_dirs|intros k c' l' c l i; apply Hsub| |intros k c l; by apply snapshot_cur].
  intros t c' l' c l _ Hk' Hk H. left. by eapply Hsub.
Qed.
Lemma names_later w w' ks : names_ok J w ks -> later w w' -> names_ok J w' ks.
Proof.
  intros [N1 N2 [N3 N3']] [L1 _ (_ & L2 & L3)]. split.
  - intros k Hk. by apply L3, N1.
  - intros d n h. rewrite L2. apply N2.
  - split; [by apply L3|]. intros n i H. by apply (N3' n i), L1.
Qed.
Lemma crash_sound pick torn w ks : 0 <= MaxPending opts -> sound J located agent T (snapshot w ks) -> wf J located opts w -> names_ok J w ks ->
  sound J located agent T (snapshot (crash pick torn w) ks) /\ wf J located opts (crash pick torn w) /\ names_ok J (crash pick torn w) ks.
Proof.
  intros Hp Hs Hw Hn. pose proof (later_crash pick torn w) as Hl. pose proof (crash_wf J located opts pick torn w Hw Hp) as Hw'. pose proof (names_later _ _ _ Hn Hl) as Hn'. split_and!; [|done|done].
  eapply (sound_snapshot (snapshot w ks)); [done|done|done|intros k; by rewrite snapshot_dom|by rewrite (proj1 (lt_same _ _ Hl))| |apply Hl].
  intros d n c l v [Hk E]%snapshot_some Hm. apply (lt_may _ _ Hl) in Hm. apply (known_key_may w (d, n) v (no_dirs _ _ _ Hn _ Hk)) in Hm. by rewrite <- E in Hm.
Qed.
(** What a program knows that keeps the journal sound is enough. *)
Lemma owned_sound r w : sound J located agent T r -> owned J r w -> wf J located opts w -> is_Some (r_store r) ->
  sound J located agent T (snapshot w (dom (r_keys r))) /\ names_ok J w (dom (r_keys r)).
Proof.
  intros Hs Ho Hw Hst. assert (names_ok J w (dom (r_keys r))) as Hn.
  { split.
    - intros [d n] Hk%elem_of_dom. apply (ow_dirs _ _ _ Ho). by eapply (ow_key_dir _ _ _ Ho).
    - intros d n h Hk%elem_of_dom. by apply (ow_hex _ _ _ Ho).
    - split; [apply (ow_dirs _ _ _ Ho), (proj1 (sd_dirs _ _ _ _ _ Hs))|]. intros n i Hm. apply elem_of_dom. by eapply (ow_journal _ _ _ Ho). }
  split; [|done]. eapply (sound_snapshot r); [done|done|done|intros k; apply elem_of_dom|by rewrite (ow_euid _ _ _ Ho)|apply Ho|].
  intros i f Hf. destruct (ow_file _ _ _ Ho i f Hf) as (f' & Hf' & Hsame). exists f'. split; [done|by apply aged_same].
Qed.
End Later.
