(* ===== verification/SavePool.v ===== *)
(** * Interrupted saves leave a sound journal *)
From Stdlib Require Import ZArith Lia.
From stdpp Require Import base gmap sets list option strings relations.
From coqutil Require Import Datatypes.RecordSettersUsingExistingGetters.
From S2P Require Import Prelude Utf8 GoStrings InputValue ArtifactStore HostFs SaveFiles SaveManifest SaveJournal SaveLogic SaveNames SaveInvariant SaveStore SaveSound SaveThreads SaveTickets SaveSafety SaveCrash.
Local Open Scope Z_scope.
#[global] Arguments const {E} newValue / _.
#[local] Arguments lit : simpl never.
#[local] Arguments safe : simpl never.

(** Before the saves the journal has its lock and its identity only. *)
Definition journal_clean (J : Identity) (w : world) : Prop := forall n i, mayw w J n (Some i) -> n = lit ".lock" \/ n = lit "identity".
(** The names of the journal, and the temporary ones, that some save owns. *)
Definition marked (J : Identity) (k : key) : Prop := k.1 = J \/ validTempName k.2 = true.
#[export] Instance marked_dec J k : Decision (marked J k).
Proof. unfold marked. apply _. Defined.
Definition pool_keys (J : Identity) (rs : list resources) : gset key :=
  {[(J, lit ".lock"); (J, lit "identity")]} ∪ ⋃ ((fun r => filter (marked J) (dom (r_keys r))) <$> rs).
Lemma pool_keys_in J rs k : k ∈ pool_keys J rs <-> k = (J, lit ".lock") \/ k = (J, lit "identity") \/ exists r, r ∈ rs /\ is_Some (r_keys r !! k) /\ marked J k.
Proof.
  unfold pool_keys. rewrite !elem_of_union, !elem_of_singleton, elem_of_union_list. split.
  - intros [[?|?]|(X & (r & -> & Hr)%list_elem_of_fmap & [Hm Hk%elem_of_dom]%elem_of_filter)]; eauto 10.
  - intros [?|[?|(r & Hr & Hk & Hm)]]; [by left; left|by left; right|right]. exists (filter (marked J) (dom (r_keys r))). split; [apply list_elem_of_fmap; eauto|]. apply elem_of_filter. split; [done|by apply elem_of_dom].
Qed.
Lemma safe_invariant {A} J calm located opts pub I (p : prog A) r Q : SaveLogic.safe J calm located opts pub I p r Q -> I r.
Proof. destruct p; by intros [H _]. Qed.

Section Pool.
Context (J : Identity) (opts : Options) (agent : bytes) (cs : list save_call) (w0 : world) (Hr : ready J opts agent cs w0) (Hreq : NoDup (sc_request <$> cs)) (Hclean : journal_clean J w0).
Context (ps : list (prog (error * list bool))) (rs : list resources) (w : world).
Context (Ht : tracked J (found w0) opts (save_pub cs) (save_inv J agent cs w0) (save_post J cs w0) ps rs w) (He : elsewhere w0 rs w).
Local Abbreviation located := (found w0).

Lemma thread_facts u r : rs !! u = Some r -> exists c, cs !! u = Some c /\ recoverable J located agent (sc_request c) r /\ owned J r w.
Proof.
  intros Hu. destruct (lookup_lt_is_Some_2 ps u) as [p Hp]; [rewrite <- (tr_length _ _ _ _ _ _ _ _ _ Ht); by eapply lookup_lt_Some|].
  pose proof (safe_invariant _ _ _ _ _ _ _ _ _ (tr_safe _ _ _ _ _ _ _ _ _ Ht u p r Hp Hu)) as HI. unfold save_inv in HI. destruct (cs !! u) as [c|]; [|done]. exists c. split_and!; [done|done|].
  by apply (tr_owned _ _ _ _ _ _ _ _ _ Ht u r Hu).
Qed.
Lemma thread_tickets : exists os, length os = length rs /\ forall u r o, rs !! u = Some r -> os !! u = Some o -> exists c, cs !! u = Some c /\ ticket_for J located agent (sc_request c) r o.
Proof.
  apply (choose_all (fun u r o => exists c, cs !! u = Some c /\ ticket_for J located agent (sc_request c) r o)). intros u r Hu. destruct (thread_facts u r Hu) as (c & Hc & Hrec & _).
  destruct (recoverable_ticket _ _ _ _ _ Hrec) as [o Ho]. eauto.
Qed.

Section Tickets.
Context (os : list (option ticket)) (Hlen : length os = length rs) (Hos : forall u r o, rs !! u = Some r -> os !! u = Some o -> exists c, cs !! u = Some c /\ ticket_for J located agent (sc_request c) r o).
Local Abbreviation T := (omap id os).
Lemma ticket_thread t : t ∈ T -> exists u r c, os !! u = Some (Some t) /\ rs !! u = Some r /\ cs !! u = Some c /\ has_ticket J located agent (sc_request c) r t /\ owned J r w.
Proof.
  intros (u & Hu)%omap_lookup. destruct (lookup_lt_is_Some_2 rs u) as [r Hru]; [rewrite <- Hlen; by eapply lookup_lt_Some|]. destruct (Hos u r _ Hru Hu) as (c & Hc & Htk). exists u, r, c. split_and!; try done.
  by destruct (thread_facts u r Hru) as (_ & _ & _ & Ho).
Qed.
Lemma thread_ticket u r d n c l i : rs !! u = Some r -> r_keys r !! (d, n) = Some (c, l) -> marked J (d, n) -> Some i ∈ l -> exists t q, t ∈ T /\ os !! u = Some (Some t) /\ has_ticket J located agent q r t.
Proof.
  intros Hu Hk Hm Hi. destruct (lookup_lt_is_Some_2 os u) as [o Ho]; [rewrite Hlen; by eapply lookup_lt_Some|]. destruct (Hos u r o Hu Ho) as (q & _ & Htk). destruct o as [t|].
  - exists t, (sc_request q). split_and!; [apply omap_lookup; eauto|done|done].
  - exfalso. by apply (Htk d n c l i Hk Hm).
Qed.
Lemma two_tickets u v t t' : u <> v -> os !! u = Some (Some t) -> os !! v = Some (Some t') -> exists r r' c c', rs !! u = Some r /\ rs !! v = Some r' /\ disjoint r r' /\ cs !! u = Some c /\ cs !! v = Some c' /\
  has_ticket J located agent (sc_request c) r t /\ has_ticket J located agent (sc_request c') r' t'.
Proof.
  intros Huv Hu Hv. destruct (lookup_lt_is_Some_2 rs u) as [r Hru]; [rewrite <- Hlen; by eapply lookup_lt_Some|]. destruct (lookup_lt_is_Some_2 rs v) as [r' Hrv]; [rewrite <- Hlen; by eapply lookup_lt_Some|].
  destruct (Hos u r _ Hru Hu) as (c & Hc & Htk), (Hos v r' _ Hrv Hv) as (c' & Hc' & Htk'). exists r, r', c, c'. split_and!; try done. by eapply (tr_disjoint _ _ _ _ _ _ _ _ _ Ht).
Qed.
Lemma pool_tickets_ok : tickets_ok J opts T.
Proof.
  assert (NoDup (tk_slot <$> T)) as Hslots.
  { apply omap_nodup. intros u v t t' Huv Hu Hv E. destruct (two_tickets u v t t' Huv Hu Hv) as (r & r' & c & c' & _ & _ & Hd & _ & _ & H1 & H2).
    destruct (ht_reserved _ _ _ _ _ _ H1) as [R1 _], (ht_reserved _ _ _ _ _ _ H2) as [R2 _]. rewrite E in R1. by apply (dj_reserved _ _ Hd _ _ (tk_weight t') R1). }
  pose proof (wf_store _ _ _ _ (tr_wf _ _ _ _ _ _ _ _ _ Ht)) as [[U1 U2] [O1 O2] R]. destruct (weights_store T (s_reservations (w_store w))) as [W1 W2]; [done| | |].
  { intros t (u & r & c & _ & _ & _ & H & Ho)%ticket_thread. apply (ow_reserved _ _ _ Ho). apply H. }
  { intros k n Hk. by destruct (R k n Hk). }
  pose proof (wf_options _ _ _ _ (tr_wf _ _ _ _ _ _ _ _ _ Ht)) as Eo. rewrite Eo in *. split; try lia.
  - intros t (u & r & c & _ & _ & _ & H & _)%ticket_thread. apply H.
  - apply omap_nodup. intros u v t t' Huv Hu Hv E. destruct (two_tickets u v t t' Huv Hu Hv) as (r & r' & c & c' & _ & _ & Hd & _ & _ & H1 & H2).
    pose proof (proj2 (ht_names _ _ _ _ _ _ H1 (tk_manifest t)) (or_introl eq_refl)) as K1. apply (dj_keys _ _ Hd) in K1. unfold tk_manifest in K1. rewrite E in K1. fold (tk_manifest t') in K1.
    destruct (proj2 (ht_names _ _ _ _ _ _ H2 (tk_manifest t')) (or_introl eq_refl)) as [x Hx]. congruence.
  - apply omap_nodup. intros u v t t' Huv Hu Hv E. destruct (two_tickets u v t t' Huv Hu Hv) as (r & r' & c & c' & _ & _ & _ & Hc & Hc' & H1 & H2). apply Huv.
    eapply (NoDup_lookup _ u v (sc_request c) Hreq); rewrite list_lookup_fmap, ?Hc, ?Hc'; cbn; [done|]. by rewrite <- (ht_request _ _ _ _ _ _ H1), <- (ht_request _ _ _ _ _ _ H2), E.
  - apply omap_concat.
    + intros u t Hu. destruct (ticket_thread t) as (u1 & r1 & c1 & _ & _ & _ & H & _); [apply omap_lookup; eauto|]. apply H.
    + intros u v t t' k Huv Hu Hv K1 K2. destruct (two_tickets u v t t' Huv Hu Hv) as (r & r' & c & c' & _ & _ & Hd & _ & _ & H1 & H2).
      destruct (ht_keys _ _ _ _ _ _ H1 k K1) as [D1 _], (ht_keys _ _ _ _ _ _ H2 k K2) as [[x D2] _]. apply (dj_keys _ _ Hd) in D1. congruence.
  - intros t k (u & r & c & _ & _ & _ & H & _)%ticket_thread Hk. by apply (ht_keys _ _ _ _ _ _ H).
  - intros t (u & r & c & _ & _ & _ & H & _)%ticket_thread. apply H.
  - pose proof (wf_active _ _ _ _ (tr_wf _ _ _ _ _ _ _ _ _ Ht)) as Ha. rewrite (tr_active _ _ _ _ _ _ _ _ _ Ht) in Ha. etransitivity; [|exact Ha]. apply active_tickets; [done|].
    intros u t r Hu Hru. destruct (Hos u r _ Hru Hu) as (c & _ & H). apply H.
Qed.

Local Abbreviation ks := (pool_keys J rs).
Lemma pool_names : names_ok J w ks.
Proof.
  assert (is_Some (w_dirs w !! J)) as HJ by (apply (el_dirs _ _ _ He), Hr). assert (forall n, n = lit ".lock" \/ n = lit "identity" -> name_hex J J n = None) as Hlock.
  { intros n Hn. unfold name_hex. rewrite bool_decide_eq_true_2 by done. by destruct Hn as [-> | ->]; vm_compute. }
  split.
  - intros k Hk. apply pool_keys_in in Hk as [->|[->|(r & [u Hu]%list_elem_of_lookup & Hk & _)]]; [done|done|]. destruct (thread_facts u r Hu) as (_ & _ & _ & Ho). destruct k as [d n].
    apply (ow_dirs _ _ _ Ho). by eapply (ow_key_dir _ _ _ Ho).
  - intros d n h Hk Hh. apply pool_keys_in in Hk as [[= -> ->]|[[= -> ->]|(r & [u Hu]%list_elem_of_lookup & Hk & _)]]; [by rewrite Hlock in Hh by tauto|by rewrite Hlock in Hh by tauto|].
    destruct (thread_facts u r Hu) as (_ & _ & _ & Ho). by eapply (ow_hex _ _ _ Ho).
  - split; [done|]. intros n i Hm. apply pool_keys_in. destruct (decide (Exists (fun r => is_Some (r_keys r !! (J, n))) rs)) as [H|H].
    + apply Exists_exists in H as (r & Hin & Hk). right; right. exists r. split_and!; [done|done|by left].
    + destruct (el_names _ _ _ He J n) as [_ Hold].
      * intros r Hin. apply eq_None_not_Some. intros Hk. apply H, Exists_exists. eauto.
      * apply Hold, Hclean in Hm as [-> | ->]; auto.
Qed.
(** A name of the journal or a temporary one that is there belongs to a save. *)
Lemma snapshot_thread d n c l i : r_keys (snapshot w ks) !! (d, n) = Some (c, l) -> Some i ∈ l -> (d, n) = (J, lit ".lock") \/ (d, n) = (J, lit "identity") \/
  exists u r c' l', rs !! u = Some r /\ r_keys r !! (d, n) = Some (c', l') /\ marked J (d, n) /\ forall v, v ∈ l -> v ∈ l'.
Proof.
  intros [Hk E]%snapshot_some Hi. pose proof (no_dirs _ _ _ pool_names _ Hk) as Hd. apply pool_keys_in in Hk as [->|[->|(r & [u Hu]%list_elem_of_lookup & [[c' l'] Hk] & Hm)]]; [by left|by right; left|right; right].
  exists u, r, c', l'. split_and!; try done. intros v Hv. destruct (thread_facts u r Hu) as (_ & _ & _ & Ho). change l with ((c, l).2) in Hv. rewrite E in Hv. apply (known_key_may w (d, n) v Hd) in Hv. by eapply (ow_may _ _ _ Ho).
Qed.
Lemma snapshot_owner u r d n c l c' l' v : rs !! u = Some r -> r_keys r !! (d, n) = Some (c', l') -> r_keys (snapshot w ks) !! (d, n) = Some (c, l) -> v ∈ l -> v ∈ l'.
Proof.
  intros Hu Hk [Hks E]%snapshot_some Hv. pose proof (no_dirs _ _ _ pool_names _ Hks) as Hd. destruct (thread_facts u r Hu) as (_ & _ & _ & Ho). change l with ((c, l).2) in Hv. rewrite E in Hv.
  apply (known_key_may w (d, n) v Hd) in Hv. by eapply (ow_may _ _ _ Ho).
Qed.
Lemma thread_key u r d n : rs !! u = Some r -> is_Some (r_keys r !! (d, n)) -> marked J (d, n) -> exists c l, r_keys (snapshot w ks) !! (d, n) = Some (c, l).
Proof.
  intros Hu Hk Hm. destruct (proj2 (snapshot_dom w ks (d, n))) as [[c l] H]; [|eauto]. apply pool_keys_in. right; right. exists r. split_and!; [apply list_elem_of_lookup; eauto|done|done].
Qed.
Lemma thread_aged u r : rs !! u = Some r -> aged_files r (snapshot w ks).
Proof.
  intros Hu. destruct (thread_facts u r Hu) as (_ & _ & _ & Ho). split; [apply Ho|]. intros i f Hf. destruct (ow_file _ _ _ Ho i f Hf) as (f' & Hf' & Hs). exists f'. split; [done|by apply aged_same].
Qed.
Lemma snapshot_describes u r t m : rs !! u = Some r -> describes located agent r t m -> describes located agent (snapshot w ks) t m.
Proof.
  intros Hu [D1 D2 D3 D4 D5]. split; try done. intros e Hin. destruct (D5 e Hin) as (Hs & c & l & Hk & Ho). split; [done|]. unfold entry_key in *.
  destruct (thread_key u r (se_DirectoryID e) (se_Temp e) Hu) as (c' & l' & Hk'); [by rewrite Hk|right; apply Hs|]. exists c', l'. split; [done|]. intros i Hi.
  eapply occupant_aged; [by eapply thread_aged|]. apply Ho. by eapply snapshot_owner.
Qed.
Lemma pool_sound : sound J located agent T (snapshot w ks).
Proof.
  assert (forall d n c l i, r_keys (snapshot w ks) !! (d, n) = Some (c, l) -> validTempName n = true -> Some i ∈ l -> exists u r c' l', rs !! u = Some r /\ r_keys r !! (d, n) = Some (c', l') /\ Some i ∈ l') as Htemp.
  { intros d n c l i Hk Hv Hi. destruct (snapshot_thread d n c l i Hk Hi) as [[= _ ->]|[[= _ ->]|(u & r & c' & l' & Hu & Hk' & Hm & Hl)]]; [by vm_compute in Hv|by vm_compute in Hv|]. exists u, r, c', l'. auto. }
  split.
  - intros n c l i Hk Hi. destruct (snapshot_thread J n c l i Hk Hi) as [[= ->]|[[= ->]|(u & r & c' & l' & Hu & Hk' & Hm & Hl)]]; [by left|by right; left|right; right].
    destruct (thread_ticket u r J n c' l' i Hu Hk' Hm (Hl _ Hi)) as (t & q & Ht' & _ & H). exists t. split; [done|]. apply (ht_names _ _ _ _ _ _ H). by rewrite Hk'.
  - intros t c l i (u & r & q & _ & Hu & _ & H & _)%ticket_thread Hk Hi. destruct (proj2 (ht_names _ _ _ _ _ _ H (tk_draft t)) (or_intror eq_refl)) as [[c' l'] Hk'].
    eapply draft_file_aged; [by eapply thread_aged|]. eapply (ht_draft _ _ _ _ _ _ H); [exact Hk'|]. by eapply snapshot_owner.
  - intros t c l i (u & r & q & _ & Hu & _ & H & _)%ticket_thread Hk Hi. destruct (proj2 (ht_names _ _ _ _ _ _ H (tk_manifest t)) (or_introl eq_refl)) as [[c' l'] Hk'].
    destruct (ht_manifest _ _ _ _ _ _ H c' l' i Hk') as (m & Hm & Hd); [by eapply snapshot_owner|]. exists m. split; [eapply manifest_file_aged; [by eapply thread_aged|done]|by eapply snapshot_describes].
  - intros d n c l i Hk Hv Hi. destruct (Htemp d n c l i Hk Hv Hi) as (u & r & c' & l' & Hu & Hk' & Hi'). destruct (thread_ticket u r d n c' l' i Hu Hk' (or_intror Hv) Hi') as (t & q & HtT & _ & H).
    destruct (ht_temps _ _ _ _ _ _ H d n c' l' i Hk' Hv Hi') as (Hin & c2 & l2 & Hk2 & Hno). destruct (thread_key u r J (tk_manifest t) Hu) as (c3 & l3 & Hk3); [by rewrite Hk2|by left|].
    exists t, c3, l3. split_and!; try done. intros Hn. apply Hno. by eapply snapshot_owner.
  - intros d n c l i Hk Hv Hi. destruct (Htemp d n c l i Hk Hv Hi) as (u & r & c' & l' & Hu & Hk' & Hi'). destruct (thread_facts u r Hu) as (q & _ & Hrec & Ho).
    destruct (rc_known _ _ _ _ _ Hrec _ _ _ i Hk' Hi') as [f Hf]. destruct (ow_file _ _ _ Ho i f Hf) as (f' & Hf' & _). by exists f'.
  - intros k c l Hk. eapply snapshot_cur; [apply Ht|apply pool_names|done].
  - apply snapshot_dirs, pool_names.
Qed.
End Tickets.
Lemma saves_sound : exists T, tickets_ok J opts T /\ sound J located agent T (snapshot w (pool_keys J rs)) /\ names_ok J w (pool_keys J rs).
Proof. destruct thread_tickets as (os & Hlen & Hos). exists (omap id os). split_and!; [by apply pool_tickets_ok|by apply pool_sound|apply pool_names]. Qed.
End Pool.
