(* ===== verification/SaveRestart.v ===== *)
(** * Restarts
    Saves that are interrupted by a crash, recoveries that are interrupted by a crash, and
    the recovery that is not. *)
From Stdlib Require Import ZArith Lia.
From stdpp Require Import base gmap sets list option strings relations.
From coqutil Require Import Datatypes.RecordSettersUsingExistingGetters.
From S2P Require Import Prelude Utf8 GoStrings InputValue ArtifactStore HostFs SaveFiles SaveManifest SaveJournal SaveLogic SaveNames SaveInvariant SavePersist SaveStore SaveSound SaveScan SaveRecovery SaveThreads SaveTickets SaveSafety SaveCrash SavePool.
Import SaveSafety.Example.
Local Open Scope Z_scope.
#[global] Arguments const {E} newValue / _.
#[local] Arguments lit : simpl never.
#[local] Arguments safe : simpl never.

(** A call of a program that runs alone. *)
Inductive solo_step {A} (calm : bool) : prog A * world -> prog A * world -> Prop :=
| solo_call B (f : choice -> world -> B * world) k w c : sane calm c -> solo_step calm (Act f k, w) (k (f c w).1, (f c w).2).
(** The machine after a crash of the saves [cs], or of a recovery from such a crash. *)
Inductive crashed (J : Identity) (agent : bytes) (cs : list save_call) (w0 : world) : world -> Prop :=
| crashed_saves ps w pick torn : rtc pool_step (start_saves J agent cs, w0) (ps, w) -> crashed J agent cs w0 (crash pick torn w)
| crashed_recovery w p w' pick torn : crashed J agent cs w0 w -> rtc (solo_step false) (recoverSaves J agent, w) (p, w') -> crashed J agent cs w0 (crash pick torn w').

(* ------------------------------------------------------------------ *)
(** ** Business names *)

(** An entry of [w']'s business names is one of [w]'s, with its file as it was. *)
Definition preserves (J : Identity) (w w' : world) : Prop := forall d n v, business J d n -> mayw w' d n v ->
  mayw w d n v /\ forall i f, v = Some i -> w_files w !! i = Some f -> f_dirty f = false -> exists f', w_files w' !! i = Some f' /\ same f f'.
Lemma preserves_refl J w : preserves J w w.
Proof. intros d n v _ Hm. split; [done|]. intros i f _ Hf _. exists f. split; [done|apply same_refl]. Qed.
Lemma preserves_trans J w1 w2 w3 : preserves J w1 w2 -> preserves J w2 w3 -> preserves J w1 w3.
Proof.
  intros H1 H2 d n v Hb Hm. destruct (H2 d n v Hb Hm) as [Hm2 F2], (H1 d n v Hb Hm2) as [Hm1 F1]. split; [done|]. intros i f E Hf Hd. destruct (F1 i f E Hf Hd) as (f' & Hf' & S1).
  destruct (F2 i f' E Hf') as (f'' & Hf'' & S2); [by apply same_inv in S1 as (_ & -> & _)|]. exists f''. split; [done|by eapply same_trans].
Qed.
Lemma preserves_crash J pick torn w : preserves J w (crash pick torn w).
Proof. intros d n v _ Hm. split; [by eapply crash_may|]. intros i f _ Hf Hd. exists f. split; [by apply crash_clean|apply same_refl]. Qed.
Lemma preserves_local J r r' w w' : local J (fun _ _ _ => False) r r' w w' -> preserves J w w'.
Proof.
  intros Hl d n v Hb Hm. destruct (lo_publish _ _ _ _ _ _ Hl d n v Hb Hm) as [Hm'|(i & f & _ & _ & [])]. split; [done|]. intros i f -> Hf _. by eapply (lo_settled _ _ _ _ _ _ Hl).
Qed.
(** What a business name may hold, as in [holds_old] and [holds_new]. *)
Definition kept (J : Identity) (cs : list save_call) (w0 w : world) : Prop := forall d n v, business J d n -> mayw w d n v ->
  (mayw w0 d n v /\ forall i f, v = Some i -> w_files w0 !! i = Some f -> f_dirty f = false -> exists f', w_files w !! i = Some f' /\ same f f') \/
  exists c s dir i f, c ∈ cs /\ s ∈ sc_files c /\ sf_Directory s = Some dir /\ (dr_id dir, sf_Name s) = (d, n) /\ v = Some i /\ w_files w !! i = Some f /\ complete (sf_Value s) f.
Lemma kept_published J cs w0 w : published J (save_pub cs) w0 w -> kept J cs w0 w.
Proof.
  intros Hp d n v Hb Hm. destruct (Hp d n v Hb Hm) as [[H1 H2]|(t & i & f & -> & Hf & Hpub)]; [left; split; [done|]; eauto|right].
  unfold save_pub in Hpub. destruct (cs !! t) as [c|] eqn:Ec; [|done]. destruct Hpub as (s & dir & Hs & Hd & <- & <- & Hc). exists c, s, dir, i, f. split_and!; try done. apply list_elem_of_lookup. eauto.
Qed.
Lemma kept_preserves J cs w0 w w' : kept J cs w0 w -> preserves J w w' -> kept J cs w0 w'.
Proof.
  intros Hk Hp d n v Hb Hm. destruct (Hp d n v Hb Hm) as [Hm' Hf']. destruct (Hk d n v Hb Hm') as [[H1 H2]|(c & s & dir & i & f & Hc & Hs & Hd & E & -> & Hf & Hcomp)].
  - left. split; [done|]. intros i f E Hf Hd. destruct (H2 i f E Hf Hd) as (f1 & Hf1 & S1). destruct (Hf' i f1 E Hf1) as (f2 & Hf2 & S2); [by apply same_inv in S1 as (_ & -> & _)|]. eauto using same_trans.
  - right. destruct (Hf' i f eq_refl Hf (proj1 Hcomp)) as (f2 & Hf2 & S2). exists c, s, dir, i, f2. split_and!; try done. by eapply complete_same.
Qed.
Lemma kept_holds J cs w0 w d n : kept J cs w0 w -> business J d n -> mayw w d n (entry w d n) -> holds_old w0 w d n \/ holds_new cs w d n.
Proof.
  intros Hk Hb Hm. destruct (Hk d n _ Hb Hm) as [H|(c & s & dir & i & f & H1 & H2 & H3 & H4 & H5 & H6 & H7)]; [by left|right]. by exists c, s, dir, i, f.
Qed.

(** ** A program alone *)

Section Solo.
Context {A : Type} (J : Identity) (calm : bool) (located : bytes -> Identity -> Prop) (opts : Options) (I : resources -> Prop) (Q : A -> resources -> Prop).
Local Abbreviation nothing := (fun (_ : Identity) (_ : bytes) (_ : file) => False).
Record alone (r : resources) (w : world) (r' : resources) (w' : world) : Prop := {
  al_preserves : preserves J w w';
  al_store : r_store r' = None <-> r_store r = None;
  al_keys : forall k, is_Some (r_keys r !! k) -> is_Some (r_keys r' !! k);
  al_outside : forall d n v, r_keys r' !! (d, n) = None -> mayw w' d n v -> mayw w d n v;
  al_dirs : forall d, is_Some (w_dirs w' !! d) <-> is_Some (w_dirs w !! d)
}.
Lemma solo_steps (s s' : prog A * world) : rtc (solo_step calm) s s' -> forall r, safe J calm located opts nothing I s.1 r Q -> wf J located opts s.2 -> owned J r s.2 ->
  exists r', safe J calm located opts nothing I s'.1 r' Q /\ wf J located opts s'.2 /\ owned J r' s'.2 /\ alone r s.2 r' s'.2.
Proof.
  induction 1 as [s|s s2 s3 Hs _ IH]; intros r Hsafe Hw Ho.
  { exists r. split_and!; try done. split; [apply preserves_refl|done..]. }
  inversion Hs as [B f k w c Hc E]. subst. cbn in *. destruct Hsafe as [_ Hstep]. destruct (Hstep w c Hc Hw Ho) as (r2 & Hw2 & Ho2 & Hl & Hk). destruct (IH r2 Hk Hw2 Ho2) as (r3 & H1 & H2 & H3 & [A1 A2 A3 A4 A5]).
  exists r3. split_and!; try done. split.
  - eapply preserves_trans; [by eapply preserves_local|done].
  - rewrite A2. apply Hl.
  - intros q Hq. apply A3. by apply (lo_grow _ _ _ _ _ _ Hl).
  - intros d n v Hn Hm. apply A4 in Hm; [|done]. apply (lo_may _ _ _ _ _ _ Hl) in Hm; [done|]. apply eq_None_not_Some. intros [x Hx]%A3. congruence.
  - intros d. rewrite A5. apply Hl.
Qed.
Lemma run_steps (p : prog A) : forall cs w, (forall n, sane calm (cs n)) -> rtc (solo_step calm) (p, w) (Ret (run p cs w).1, (run p cs w).2).
Proof.
  induction p as [a|B f k IH]; intros cs w Hc; [constructor|]. cbn [run]. specialize (IH (f (cs 0%nat) w).1 (fun n => cs (S n)) (f (cs 0%nat) w).2 (fun n => Hc (S n))).
  destruct (f (cs 0%nat) w) as [x w1] eqn:E. cbn in IH |- *. eapply rtc_l; [|exact IH]. pose proof (solo_call calm B f k w (cs 0%nat) (Hc 0%nat)) as H. by rewrite E in H.
Qed.
End Solo.

(** ** Crashed machines *)

Section Crashed.
Context (J : Identity) (opts : Options) (agent : bytes) (cs : list save_call) (w0 : world) (Hr : ready J opts agent cs w0) (Hreq : NoDup (sc_request <$> cs)) (Hclean : journal_clean J w0).
Local Abbreviation located := (found w0).
Record restartable (w : world) (T : list ticket) (ks : gset key) : Prop := {
  ra_tickets : tickets_ok J opts T;
  ra_sound : sound J located agent T (snapshot w ks);
  ra_wf : wf J located opts w;
  ra_names : names_ok J w ks;
  ra_store : w_store w = new_store opts;
  ra_kept : kept J cs w0 w;
  ra_outside : forall d n v, marked J (d, n) -> (d, n) ∉ ks -> mayw w d n v -> mayw w0 d n v;
  ra_dirs : forall d, is_Some (w_dirs w !! d) <-> is_Some (w_dirs w0 !! d);
  ra_settled : forall d n v, mayw w d n v -> v = entry w d n
}.
Lemma crash_settled pick torn w d n v : mayw (crash pick torn w) d n v -> v = entry (crash pick torn w) d n.
Proof.
  unfold mayw, entry. cbn. rewrite map_lookup_imap. destruct (w_dirs w !! d) as [dr|]; cbn; [|by intros (? & ? & _)]. intros (? & [= <-] & [H|(u & Hu & _)]); cbn in *; [done|by apply elem_of_nil in Hu].
Qed.
Lemma crash_dirs pick torn w d : is_Some (w_dirs (crash pick torn w) !! d) <-> is_Some (w_dirs w !! d).
Proof. cbn. rewrite map_lookup_imap. destruct (w_dirs w !! d); cbn; [by split|done]. Qed.
Lemma marked_hex d n h : name_hex J d n = Some h -> validTempName n = true \/ d = J /\ n <> lit ".lock" /\ n <> lit "identity".
Proof.
  unfold name_hex. destruct (validTempName n); [by left|right]. case_bool_decide; [|done]. split_and!; [done|intros ->; done..].
Qed.
Lemma pending_nonneg T : tickets_ok J opts T -> 0 <= MaxPending opts.
Proof. intros HT. pose proof (to_pending _ _ _ HT). lia. Qed.
Lemma crash_store pick torn w : wf J located opts w -> w_store (crash pick torn w) = new_store opts.
Proof. intros Hw. cbn. by rewrite (wf_options _ _ _ _ Hw). Qed.
Lemma saves_restartable ps w pick torn : rtc pool_step (start_saves J agent cs, w0) (ps, w) -> exists T ks, restartable (crash pick torn w) T ks.
Proof.
  intros Hs. destruct (saves_tracked _ _ _ _ _ Hr _ _ Hs) as (rs & Ht & Hp & He). destruct (saves_sound _ _ _ _ _ Hr Hreq Hclean _ _ _ Ht He) as (T & HT & Hsound & Hn).
  pose proof (tr_wf _ _ _ _ _ _ _ _ _ Ht) as Hw. destruct (crash_sound J located opts agent T pick torn w _ (pending_nonneg T HT) Hsound Hw Hn) as (Hsound' & Hw' & Hn').
  exists T, (pool_keys J rs). split; try done; [by apply crash_store|eapply kept_preserves; [by apply kept_published|apply preserves_crash]|..].
  - intros d n v Hm Hk Hv. apply crash_may in Hv. apply (el_names _ _ _ He d n); [|done]. intros r Hin. apply eq_None_not_Some. intros H. apply Hk, pool_keys_in. right; right. by exists r.
  - intros d. rewrite crash_dirs. apply (el_dirs _ _ _ He).
  - apply crash_settled.
Qed.
(** The recovery of a restartable machine. *)
Lemma recovery_safe calm w T ks : restartable w T ks ->
  safe J calm located opts (fun _ _ _ => False) (sound J located agent T) (recoverSaves J agent) (with_store (w_store w) (snapshot w ks)) (recovered J calm) /\ owned J (with_store (w_store w) (snapshot w ks)) w.
Proof.
  intros [R1 R2 R3 R4 R5 _ _ _ _]. split; [|by eapply snapshot_owned]. rewrite R5. apply recoverSaves_safe; [done|done|]. split; try done. rewrite <- R5. apply R3.
Qed.
Lemma recovery_restartable w T ks p w' pick torn : restartable w T ks -> rtc (solo_step false) (recoverSaves J agent, w) (p, w') -> exists ks', restartable (crash pick torn w') T ks'.
Proof.
  intros Hra Hs. pose proof Hra as [R1 R2 R3 R4 R5 R6 R7 R8 R9]. destruct (recovery_safe false w T ks Hra) as [Hsafe Ho]. destruct (solo_steps J false located opts _ _ _ _ Hs _ Hsafe R3 Ho) as (r' & Hsafe' & Hw' & Ho' & [A1 A2 A3 A4 A5]). cbn [fst snd] in *.
  pose proof (safe_invariant _ _ _ _ _ _ _ _ _ Hsafe') as HI. assert (is_Some (r_store r')) as Hst. { destruct (r_store r') eqn:E; [done|]. by pose proof (proj1 A2 eq_refl). }
  destruct (owned_sound J located opts agent T r' w' HI Ho' Hw' Hst) as [Hsound Hn]. destruct (crash_sound J located opts agent T pick torn w' _ (pending_nonneg T R1) Hsound Hw' Hn) as (Hsound2 & Hw2 & Hn2).
  exists (dom (r_keys r')). split; try done; [by apply crash_store|eapply kept_preserves; [exact R6|]; eapply preserves_trans; [exact A1|apply preserves_crash]|..].
  - intros d n v Hm Hk Hv. apply crash_may in Hv. apply R7; [done| |].
    + intros H. apply Hk, elem_of_dom, A3. by apply snapshot_dom.
    + apply A4; [|done]. by apply not_elem_of_dom.
  - intros d. rewrite crash_dirs, A5. apply R8.
  - apply crash_settled.
Qed.
Lemma crashed_restartable w : crashed J agent cs w0 w -> exists T ks, restartable w T ks.
Proof.
  induction 1 as [ps w pick torn Hs|w p w' pick torn _ (T & ks & Hra) Hs]; [by eapply saves_restartable|]. destruct (recovery_restartable w T ks p w' pick torn Hra Hs) as [ks' H]. eauto.
Qed.
End Crashed.

(** A crash that keeps the changes of the directories. *)

Definition keep (w : world) : world := crash (fun _ => replicate 100 true) (fun _ => []) w.
Definition interrupted : world := keep (after 100).2.
(** The first [k] calls of a program alone. *)
Definition first {A} (k : nat) (p : prog A) (w : world) : world := (pool_run ((fun n => (0%nat, pick (lit "new") n)) <$> seq 0 k) [p] w).2.
(** A directory whose inode is 2^63, and a save of one file into it. *)
Definition far : Identity := id (2 ^ 63).
Definition far_machine : world := machine <| w_dirs := {[ spool := folder ∅; far := folder ∅ ]} |> <| w_paths := {[ lit "/out" := far ]} |>.
Definition far_save : prog (error * list bool) := save_files spool agent (lit "r")
  [{| sf_Directory := Some {| dr_handle := 0; dr_id := far; dr_path := lit "/out"; dr_open := true |}; sf_Name := lit "x.txt"; sf_Overwrite := true; sf_Value := value (lit "new") |}].
Definition first_save : prog (error * list bool) := Save spool (lit "r") [to (lit "x.txt") (lit "new")].

(** ** What recovery does not survive *)

(** C37: a save into a directory with a large inode succeeds when it is not interrupted, but a
    crash after the manifest is there leaves a journal that no recovery accepts: an identity
    is written as an unsigned number of 64 bits, and [contract.DecodeJSON] reads signed ones. *)
Lemma large_inode_unrecoverable :
  (run far_save (pick (lit "new")) far_machine).1 = ([], [true]) /\ (run (recoverSaves spool agent) (pick []) (keep (first 30 far_save far_machine))).1 = [ErrOther].
Proof. split; vm_compute; reflexivity. Qed.

(* ------------------------------------------------------------------ *)
(** ** Properties *)

(** C2: interrupted saves are recovered. After a crash at any point of any interleaving of
    saves with different targets and requests, and after any number of recoveries that were
    themselves cut off by a crash, a recovery whose calls do not fail returns no error. It
    leaves no temporary file, manifest or draft that was not there before the saves, whatever
    another crash would leave. Each business name keeps its entry: one that it may have had
    before the saves, with the file as it was, or a complete file of a save. *)
Theorem saves_recovered J opts agent cs w0 w choices d n :
  ready J opts agent cs w0 -> NoDup (sc_request <$> cs) -> journal_clean J w0 -> crashed J agent cs w0 w -> (forall k, sane true (choices k)) ->
  let '(e, w') := run (recoverSaves J agent) choices w in
  e = [] /\ (forall h i, name_hex J d n = Some h -> mayw w' d n (Some i) -> mayw w0 d n (Some i)) /\
  (business J d n -> is_Some (w_dirs w0 !! d) -> entry w' d n = entry w d n /\ (holds_old w0 w' d n \/ holds_new cs w' d n)).
Proof.
  intros Hr Hreq Hclean Hc Hch. destruct (crashed_restartable J opts agent cs w0 Hr Hreq Hclean w Hc) as (T & ks & Hra). pose proof Hra as [R1 R2 R3 R4 R5 R6 R7 R8 R9].
  destruct (recovery_safe J opts agent cs w0 true w T ks Hra) as [Hsafe Ho]. pose proof (run_steps true (recoverSaves J agent) choices w Hch) as Hs.
  destruct (run (recoverSaves J agent) choices w) as [e w'] eqn:Er. cbn [fst snd] in Hs.
  destruct (solo_steps J true _ opts _ _ _ _ Hs _ Hsafe R3 Ho) as (r' & Hsafe' & Hw' & Ho' & [A1 A2 A3 A4 A5]). cbn [fst snd] in *. destruct Hsafe' as [HI [He Hswept]]. specialize (He eq_refl). specialize (Hswept He).
  split_and!; [done| |].
  - intros h i Hh Hm. apply marked_hex in Hh. destruct (r_keys r' !! (d, n)) as [[c l]|] eqn:Hk.
    + exfalso. apply (Hswept d n c l i Hk Hh). by eapply (ow_may _ _ _ Ho').
    + apply R7; [destruct Hh as [?|(-> & _)]; [by right|by left]| |by apply A4]. intros H%(proj2 (snapshot_dom w ks (d, n))). apply A3 in H. rewrite Hk in H. by destruct H.
  - intros Hb Hd. assert (mayw w' d n (entry w' d n)) as Hm by (eapply entry_may; [done|]; by apply A5, R8). split; [by apply R9, A1|]. eapply kept_holds; [by eapply kept_preserves|done|done].
Qed.

(** The example cut off by a crash: one file is published, the other not yet. *)
Lemma saves_recovered_witness :
  let '(e, w) := run (recoverSaves spool agent) (pick []) interrupted in
  e = [] /\ (forall h i, name_hex spool out (lit "x.txt") = Some h -> mayw w out (lit "x.txt") (Some i) -> mayw machine out (lit "x.txt") (Some i)) /\
  (business spool out (lit "x.txt") -> is_Some (w_dirs machine !! out) -> entry w out (lit "x.txt") = entry interrupted out (lit "x.txt") /\ (holds_old machine w out (lit "x.txt") \/ holds_new calls w out (lit "x.txt"))).
Proof.
  refine (saves_recovered spool options agent calls machine interrupted (pick []) out (lit "x.txt") _ _ _ _ _);
    [exact machine_ready|vm_compute; repeat constructor; set_solver|by intros n i (? & _)%machine_may|exact (crashed_saves _ _ _ _ _ _ _ _ (after_steps 100))|intros k; apply pick_sane].
Defined.
