(* ===== verification/SaveIdentity.v ===== *)
(** * A torn identity
    The first save of an agent creates the file [identity] of its journal under its final name
    and then writes and syncs it. What a crash in between leaves is what [openSaveJournal]
    refuses: as [Open] calls it before anything else, the agent cannot be started again. *)
From Stdlib Require Import ZArith Lia.
From stdpp Require Import base gmap sets list option strings.
From coqutil Require Import Datatypes.RecordSettersUsingExistingGetters.
From S2P Require Import Prelude GoStrings InputValue ArtifactStore HostFs SaveFiles SaveManifest SaveJournal SaveSafety SaveRestart.
Import SaveSafety.Example.
Local Open Scope Z_scope.
#[global] Arguments const {E} newValue / _.
#[local] Arguments lit : simpl never.

(** ** Torn journals *)

(** The name [n] of the directory [d] is [i], also after a crash. *)
Definition fixed_entry (w : world) (d : Identity) (n : bytes) (i : Identity) : Prop :=
  exists dr, w_dirs w !! d = Some dr /\ d_cur dr !! n = Some i /\ forall v, may dr n v -> v = Some i.
Definition identity_text (b : bytes) : bool := (length b =? 32)%nat && forallb is_hex b.
(** The journal [j] of the spool has an identity [f] that is no text of an identity. *)
Record torn (spool j f : Identity) (w : world) : Prop := {
  to_space : fixed_entry w spool namespace j;
  to_identity : fixed_entry w j (lit "identity") f;
  to_file : exists fl, w_files w !! f = Some fl /\ f_dirty fl = false /\ identity_text (f_data fl) = false
}.

Lemma fixed_crash w d n i pick t : fixed_entry w d n i -> fixed_entry (crash pick t w) d n i.
Proof.
  intros (dr & Hd & Hc & Hm). exists (crash_dir (pick d) dr). split; [|split].
  - cbn. by rewrite map_lookup_imap, Hd.
  - apply Hm, crash_dir_may.
  - intros v Hv. by eapply Hm, crash_dir_only.
Qed.
Lemma torn_crash spool j f w pick t : torn spool j f w -> torn spool j f (crash pick t w).
Proof.
  intros [H1 H2 (fl & Hf & Hd & Ht)]. split; [by apply fixed_crash..|]. exists fl. split; [|done]. cbn. rewrite map_lookup_imap, Hf. cbn.
  unfold crash_file. by rewrite Hd.
Qed.
Lemma fixed_change w d n i d' n' v : n <> n' -> fixed_entry w d n i -> fixed_entry (change_dir d' [(n', v)] w) d n i.
Proof.
  intros Hne (dr & Hd & Hc & Hm). unfold fixed_entry, change_dir. cbn. destruct (decide (d' = d)) as [->|Hdd]; cycle 1.
  { rewrite lookup_alter_ne by done. by exists dr. }
  rewrite lookup_alter_eq, Hd. eexists. split; [done|]. cbn. split; [by rewrite lookup_partial_alter_ne|].
  intros v' [H|(u & [Hu| ->%list_elem_of_singleton]%elem_of_app & Hin)]; [apply Hm; by left|apply Hm; right; eauto|].
  apply list_elem_of_singleton in Hin. congruence.
Qed.
(** A new file of another name changes nothing of it. *)
Lemma torn_create spool j f w d n c : n <> namespace -> n <> lit "identity" -> torn spool j f w -> torn spool j f (create_at d n c w).2.
Proof.
  intros H1 H2 Ht. unfold create_at, or_fault. destruct (failed (fault c)); [done|]. destruct (w_dirs w !! d); [|done]. destruct (entry w d n); [done|].
  set (i := {| Device := _ |}). destruct (bool_decide (is_Some (w_files w !! i)) || _) eqn:E; [done|]. breflect. destruct Ht as [T1 T2 (fl & Hf & Hd & Hx)].
  split; [by apply fixed_change|by apply fixed_change|]. exists fl. split; [|done]. cbn. rewrite lookup_insert_ne; [done|]. intros Ei. rewrite Ei in *. eauto.
Qed.

(** ** Programs that keep it *)

(** From a world with [I], every run of the program ends in one, with a result in [Q]. *)
Fixpoint ensures {A} (I : world -> Prop) (Q : A -> Prop) (p : prog A) : Prop :=
  match p with
  | Ret a => Q a
  | Act f k => forall c w, I w -> I (f c w).2 /\ ensures I Q (k (f c w).1)
  end.
Lemma ensures_bind {A B} I (Q : B -> Prop) (p : prog A) (k : A -> prog B) : ensures I (fun a => ensures I Q (k a)) p -> ensures I Q (prog_bind p k).
Proof.
  induction p as [a|B' f g IH]; cbn; [done|]. intros H c w Hw. destruct (H c w Hw) as [H1 H2]. split; [done|]. by apply IH.
Qed.
Lemma ensures_mono {A} (I : world -> Prop) (Q R : A -> Prop) (p : prog A) : ensures I Q p -> (forall a, Q a -> R a) -> ensures I R p.
Proof.
  intros H HR. induction p as [a|B f g IH]; cbn in *; [by apply HR|]. intros c w Hw. destruct (H c w Hw) as [H1 H2]. split; [done|by apply IH].
Qed.
Lemma ensures_act {A} (I : world -> Prop) (Q : A -> Prop) (f : act A) : (forall c w, I w -> I (f c w).2 /\ Q (f c w).1) -> ensures I Q (act_ f).
Proof. intros H c w Hw. by apply H. Qed.
Lemma ensures_run {A} I (Q : A -> Prop) (p : prog A) : ensures I Q p -> forall cs w, I w -> Q (run p cs w).1 /\ I (run p cs w).2.
Proof.
  induction p as [a|B f k IH]; cbn; [done|]. intros H cs w Hw. destruct (H (cs O) w Hw) as [H1 H2]. destruct (f (cs O) w) as [x w']. by apply IH.
Qed.

(** ** Opening a torn journal *)

(** An error that is one, and not that of a missing name. *)
Definition refusal (e : error) : Prop := e <> [] /\ Is e ErrNotExist = false.
Lemma fault_refusal c : failed (fault c) = true -> refusal (fault c).
Proof. unfold fault. destruct (ch_fault c) as [[]|]; [by split|by split|done]. Qed.
Definition answers {A} (P : A -> Prop) (r : res A) : Prop := match r with inl e => refusal e | inr x => P x end.

Section Torn.
Context (spool j f : Identity).
Abbreviation torn := (torn spool j f).
Abbreviation ensures := (ensures torn).

(** Calls that only look. *)
Lemma look_ensures {A} (g : act (res A)) P : (forall c w, torn w -> (g c w).2 = w /\ answers P (g c w).1) -> ensures (answers P) (act_ (or_fault g)).
Proof.
  intros H. apply ensures_act. intros c w Hw. unfold or_fault. destruct (failed (fault c)) eqn:E; [by split; [|apply fault_refusal]|].
  destruct (H c w Hw) as [-> H2]. done.
Qed.
Lemma probe_ensures (g : act error) : (forall c w, (g c w).2 = w) -> ensures (fun _ => True) (act_ (or_fault_e g)).
Proof. intros H. apply ensures_act. intros c w Hw. unfold or_fault_e. destruct (failed (fault c)); [done|]. by rewrite H. Qed.
Lemma entry_fixed w d n i : fixed_entry w d n i -> entry w d n = Some i.
Proof. intros (dr & Hd & Hc & _). unfold entry. by rewrite Hd. Qed.
Lemma stat_looks i c w : (stat i c w).2 = w /\ answers (fun _ => True) (stat i c w).1.
Proof.
  unfold stat, or_fault. destruct (failed (fault c)) eqn:E; [by split; [|apply fault_refusal]|]. destruct (w_files w !! i), (w_dirs w !! i); by repeat split.
Qed.
Lemma stat_ensures i : ensures (answers (fun _ => True)) (act_ (stat i)).
Proof. apply ensures_act. intros c w Hw. destruct (stat_looks i c w) as [-> H]. done. Qed.
(** Looking at a name that is there for good. *)
Lemma lstat_fixed d n i : (forall w, torn w -> fixed_entry w d n i) -> ensures (answers (fun x => x.1 = i)) (act_ (lstat d n)).
Proof.
  intros H. apply look_ensures. intros c w Hw. rewrite (entry_fixed w d n i (H w Hw)). destruct (stat_looks i c w) as [E1 E2].
  destruct (stat i c w) as [[e|x] w']; cbn in *; by subst.
Qed.
Lemma open_fixed d n i : (forall w, torn w -> fixed_entry w d n i) -> ensures (answers (fun x => x = i)) (act_ (open_at d n)).
Proof. intros H. apply look_ensures. intros c w Hw. by rewrite (entry_fixed w d n i (H w Hw)). Qed.
Lemma mkdir_fixed d n i : (forall w, torn w -> fixed_entry w d n i) -> ensures (answers (fun _ => False)) (act_ (mkdir_at d n)).
Proof.
  intros H. apply look_ensures. intros c w Hw. rewrite (entry_fixed w d n i (H w Hw)). destruct (H w Hw) as (dr & -> & _). by repeat split.
Qed.
Lemma failed_some e : failed e = true -> e <> [].
Proof. by destruct e. Qed.

Definition fails_or {A} (P : A -> Prop) (r : res A) : Prop := match r with inl e => e <> [] | inr x => P x end.
(** The result of a call that is looked at: an error is returned. *)
Lemma ensures_try {A B} (P : A -> Prop) (Q : B -> Prop) (p : prog (res A)) (h : error -> B) k :
  ensures (fails_or P) p -> (forall e, e <> [] -> Q (h e)) -> (forall x, P x -> ensures Q (k x)) ->
  ensures Q (prog_bind p (fun r => match r with inl e => Ret (h e) | inr x => k x end)).
Proof. intros H He Hk. apply ensures_bind. eapply ensures_mono; [exact H|]. intros [e|x] Hr; [by apply He|by apply Hk]. Qed.
Lemma look_try {A B} (P : A -> Prop) (Q : B -> Prop) (p : prog (res A)) (h : error -> B) k :
  ensures (answers P) p -> (forall e, refusal e -> Q (h e)) -> (forall x, P x -> ensures Q (k x)) ->
  ensures Q (prog_bind p (fun r => match r with inl e => Ret (h e) | inr x => k x end)).
Proof. intros H He Hk. apply ensures_bind. eapply ensures_mono; [exact H|]. intros [e|x] Hr; [by apply He|by apply Hk]. Qed.
Lemma ensures_probe {B} (Q : B -> Prop) (g : act error) k :
  (forall c w, (g c w).2 = w) -> (forall e, ensures Q (k e)) -> ensures Q (prog_bind (act_ (or_fault_e g)) k).
Proof. intros Hg Hk. apply ensures_bind. eapply ensures_mono; [by apply probe_ensures|]. intros e _. apply Hk. Qed.

Lemma namespace_ensures : ensures (fails_or (fun x => x = Some j)) (open_namespace spool).
Proof.
  unfold open_namespace. assert (forall w, torn w -> fixed_entry w spool namespace j) as Hf by (by intros w []).
  apply ensures_bind. eapply ensures_mono; [by apply lstat_fixed|]. intros [e|x] Hr; [destruct Hr as [H1 H2]; by rewrite H2|].
  apply ensures_bind. eapply ensures_mono; [by eapply mkdir_fixed|]. intros [e|] He; [|done]. destruct He as [He _]. destruct (negb _); [done|].
  apply ensures_bind. eapply ensures_mono; [by apply lstat_fixed|]. intros [e'|[i info]] Hi; [done|]. destruct (f_regular info); [done|].
  eapply look_try; [by apply open_fixed|by intros ? []|]. intros ? ->. apply ensures_probe; [done|]. intros e1. apply ensures_probe; [done|]. intros e2.
  destruct (failed (e1 ++ e2)) eqn:E; [by apply failed_some|]. eapply look_try; [by apply open_fixed|by intros ? []|]. intros ? ->.
  eapply look_try; [apply stat_ensures|by intros ? []|]. done.
Qed.
(** Opening the identity. *)
Lemma private_fixed d n i : (forall w, torn w -> fixed_entry w d n i) -> ensures (answers (fun x => x = i)) (openPrivate d n).
Proof.
  intros Hf. unfold openPrivate. eapply look_try; [by apply lstat_fixed|done|]. intros [x info] Hx. cbn in Hx. subst x. destruct (negb _); [by split|].
  eapply look_try; [by apply open_fixed|done|]. intros ? ->. eapply look_try; [apply stat_ensures|done|]. intros _ _. rewrite bool_decide_true by done. cbn [negb].
  apply ensures_bind, ensures_act. intros c w Hw. unfold protect, or_fault_e. destruct (failed (fault c)) eqn:E; [cbn; rewrite E; by split; [|apply fault_refusal]|].
  cbn. split; [done|]. destruct (w_files w !! i) as [fl|]; [destruct (_ && _)|]; by repeat split.
Qed.
Lemma read_torn : ensures (fun r => exists b, r = inr b /\ identity_text b = false \/ exists e, r = inl e) (act_ (read_file f)).
Proof.
  apply ensures_act. intros c w Hw. unfold read_file, or_fault. destruct (failed (fault c)); [split; [done|]; exists []; right; by eexists|].
  split; [done|]. destruct Hw as [_ _ (fl & -> & _ & Ht)]. exists (f_data fl). by left.
Qed.
Lemma identity_ensures : ensures (fails_or (fun _ => False)) (open_identity j).
Proof.
  unfold open_identity. apply ensures_bind. eapply ensures_mono; [apply (private_fixed j (lit "identity") f); by intros w []|].
  intros [e|i] Hr; [destruct Hr as [H1 H2]; by rewrite H2|]. cbn in Hr. subst i. apply ensures_bind. eapply ensures_mono; [apply read_torn|].
  intros r Hb. apply ensures_probe; [done|]. intros c. destruct Hb as (b & [[-> Hb]|[e ->]]); [|done]. destruct c; [|done].
  unfold identity_text in Hb. by rewrite Hb.
Qed.
(** Opening or creating the lock. *)
Lemma lock_ensures : ensures (fails_or (fun _ => True)) (openLock j).
Proof.
  assert (forall n, ensures (fails_or (fun _ => True)) (act_ (lstat j n)) /\ ensures (fails_or (fun _ => True)) (act_ (open_at j n))) as Hlook.
  { intros n. split; apply ensures_act; intros c w Hw; unfold lstat, open_at, or_fault; destruct (failed (fault c)) eqn:E;
      [split; [done|]; by apply fault_refusal| |split; [done|]; by apply fault_refusal|]; destruct (entry w j n) as [i|]; try by split.
    destruct (stat_looks i c w) as [_ H]. destruct (stat i c w) as [[e|x] w']; [|by split]. split; [done|]. by destruct H. }
  assert (forall i (k : unit), ensures (fails_or (fun _ => True)) (let^ e := act_ (protect i) in Ret (if failed e then inl e else inr i))) as Hp.
  { intros i _. apply ensures_probe; [done|]. intros e. destruct (failed e) eqn:E; [by apply failed_some|done]. }
  unfold openLock. apply ensures_bind. eapply ensures_mono; [apply Hlook|]. intros [e|x] He; cycle 1.
  - unfold openPrivate. eapply ensures_try; [apply Hlook|done|]. intros [i info] _. destruct (negb _); [done|]. eapply ensures_try; [apply Hlook|done|].
    intros g _. eapply look_try; [apply stat_ensures|by intros ? []|]. intros _ _. destruct (negb _); [done|]. by apply Hp.
  - destruct (negb _); [done|]. eapply (ensures_try (fun _ => True)); [|done|intros g _; by apply Hp]. apply ensures_act. intros c w Hw.
    split; [by apply torn_create|]. unfold create_at, or_fault. destruct (failed (fault c)) eqn:E; [by apply fault_refusal|].
    destruct (w_dirs w !! j); [|done]. destruct (entry w j _); [done|]. by destruct (_ || _).
Qed.
Lemma open_torn : ensures (fun e => e <> []) (openSaveJournal spool).
Proof.
  unfold openSaveJournal. eapply ensures_try; [apply namespace_ensures|done|]. intros ? ->. eapply ensures_try; [apply lock_ensures|done|]. intros lock _.
  apply ensures_bind. eapply ensures_mono; [apply stat_ensures|]. intros [e|info] _; [done|]. destruct (negb _); [done|].
  apply ensures_probe; [done|]. intros busy. destruct (failed busy); [done|]. by eapply ensures_try; [apply identity_ensures|done|].
Qed.
End Torn.

(** ** The defect *)

(** Starts of the agent one after the other: [Open] opens the journal, and a crash follows. *)
Fixpoint starts (spool : Identity) (l : list ((nat -> choice) * (Identity -> list bool) * (Identity -> bytes))) (w : world) : list error * world :=
  match l with
  | [] => ([], w)
  | (choices, pick, t) :: l =>
      let '(e, w) := run (openSaveJournal spool) choices w in
      let '(es, w) := starts spool l (crash pick t w) in (e :: es, w)
  end.
Lemma starts_torn spool j f l : forall w, torn spool j f w -> Forall (fun e => e <> []) (starts spool l w).1 /\ torn spool j f (starts spool l w).2.
Proof.
  induction l as [|[[choices pick] t] l IH]; intros w Hw; [done|]. cbn [starts]. destruct (ensures_run _ _ _ (open_torn spool j f) choices w Hw) as [H1 H2].
  destruct (run (openSaveJournal spool) choices w) as [e w']. cbn in H1, H2. specialize (IH (crash pick t w') (torn_crash _ _ _ _ _ _ H2)).
  destruct (starts spool l (crash pick t w')) as [es w'']. cbn in *. destruct IH as [I1 I2]. split; [by constructor|done].
Qed.

(** C38: once the identity of the journal is torn, no later start succeeds: whatever the
    operating system answers, however often the agent is started and the machine crashes,
    [openSaveJournal] returns an error, and the identity stays as it is. *)
Theorem torn_identity_unusable spool j f w l :
  torn spool j f w -> Forall (fun e => e <> []) (starts spool l w).1 /\ torn spool j f (starts spool l w).2.
Proof. apply starts_torn. Qed.

(** The first save of an agent, alone, succeeds; a crash after its 24th call tears the identity. *)
Definition torn_machine : world := keep (first 24 first_save machine).
Definition journal_dir : Identity := default spool (entry torn_machine spool namespace).
Definition identity_file : Identity := default spool (entry torn_machine journal_dir (lit "identity")).
Lemma torn_identity_unusable_witness :
  (run first_save (pick (lit "new")) machine).1 = ([], [true]) /\
  (starts spool [((fun n => pick [] (n + 300)), (fun _ => []), (fun _ => [])); ((fun n => pick [] (n + 500)), (fun _ => []), (fun _ => []))] torn_machine).1
    = [[ErrPermission]; [ErrPermission]] /\
  forall l, Forall (fun e => e <> []) (starts spool l torn_machine).1.
Proof.
  split; [vm_compute; reflexivity|]. split; [vm_compute; reflexivity|]. intros l. apply (torn_identity_unusable spool journal_dir identity_file).
  split; [eexists; split; [vm_compute; reflexivity|]; split; [vm_compute; reflexivity|];
    intros v [Hv|(u & Hu & _)]; [vm_compute in Hv; symmetry; exact Hv|inversion Hu]..|].
  eexists. split; [vm_compute; reflexivity|]. split; reflexivity.
Defined.
