(* ===== verification/Programs.v ===== *)
(** * Programs that run together
    Go code that shares state with other goroutines, as a tree of atomic sections. A section
    reads and changes the shared state at once (a critical section, a channel or atomic
    operation, or a call to the outside) and may have to wait. What the outside decides is a
    choice. Between any two sections of a program others may run.

    Programs are verified with a ghost state per program: a section must keep an invariant on
    all ghost states and the shared state by changing its own ghost state only, and it waits
    only when its ghost state allows for it. *)
From stdpp Require Import base list relations option.

Section Programs.
Context {C W : Type}.

(** A section that is [None] has to wait. *)
Inductive prog (A : Type) : Type :=
| Ret (a : A)
| Act {B : Type} (f : C -> W -> option (B * W)) (k : B -> prog A).
Arguments Ret {_} _.
Arguments Act {_ _} _ _.
Fixpoint prog_bind {A B} (p : prog A) (h : A -> prog B) : prog B :=
  match p with
  | Ret a => h a
  | Act f k => Act f (fun x => prog_bind (k x) h)
  end.
Definition act {B} (f : C -> W -> B * W) : prog B := Act (fun c w => Some (f c w)) Ret.
(** What the outside answers, without a change of the shared state. *)
Definition ask {B} (f : C -> B) : prog B := act (fun c w => (f c, w)).
Definition wait {B} (f : C -> W -> option (B * W)) : prog B := Act f Ret.

Inductive pool_step {A} (sane : C -> Prop) : list (prog A) * W -> list (prog A) * W -> Prop :=
| pool_act ps w t B (f : C -> W -> option (B * W)) k c x w' :
    ps !! t = Some (Act f k) -> sane c -> f c w = Some (x, w') -> pool_step sane (ps, w) (<[t := k x]> ps, w').
(** The sections in the order of a schedule; one that has to wait is skipped. *)
Fixpoint schedule_run {A} (l : list (nat * C)) (ps : list (prog A)) (w : W) : list (prog A) * W :=
  match l with
  | [] => (ps, w)
  | (t, c) :: l =>
      match ps !! t with
      | Some (Act f k) => match f c w with Some (x, w) => schedule_run l (<[t := k x]> ps) w | None => schedule_run l ps w end
      | _ => schedule_run l ps w
      end
  end.

(** ** Verification *)

Section Logic.
Context {G : Type} (sane : C -> Prop) (inv : list G -> W -> Prop) (stuck : G -> W -> Prop).
Fixpoint keeps {A} (p : prog A) (g : G) (Q : A -> G -> Prop) : Prop :=
  match p with
  | Ret a => Q a g
  | Act f k => forall t gs w c, sane c -> inv gs w -> gs !! t = Some g ->
      match f c w with Some (x, w') => exists g', inv (<[t := g']> gs) w' /\ keeps (k x) g' Q | None => stuck g w end
  end.
Lemma keeps_ret {A} (a : A) g (Q : A -> G -> Prop) : Q a g -> keeps (Ret a) g Q.
Proof. done. Qed.
Lemma keeps_mono {A} (p : prog A) : forall g (Q R : A -> G -> Prop), keeps p g Q -> (forall a g', Q a g' -> R a g') -> keeps p g R.
Proof.
  induction p as [a|B f k IH]; intros g Q R Hp HQ; cbn in *; [by apply HQ|]. intros t gs w c Hc Hi Hg. specialize (Hp t gs w c Hc Hi Hg). destruct (f c w) as [[x w']|]; [|done]. destruct Hp as (g' & Hi' & Hk). eauto.
Qed.
Lemma keeps_bind {A B} (p : prog A) (h : A -> prog B) : forall g Q, keeps p g (fun a g' => keeps (h a) g' Q) -> keeps (prog_bind p h) g Q.
Proof.
  induction p as [a|X f k IH]; intros g Q Hp; cbn in *; [done|]. intros t gs w c Hc Hi Hg. specialize (Hp t gs w c Hc Hi Hg). destruct (f c w) as [[x w']|]; [|done]. destruct Hp as (g' & Hi' & Hk). eauto.
Qed.
Lemma keeps_act {B} (f : C -> W -> B * W) g (Q : B -> G -> Prop) :
  (forall t gs w c, sane c -> inv gs w -> gs !! t = Some g -> exists g', inv (<[t := g']> gs) (f c w).2 /\ Q (f c w).1 g') -> keeps (act f) g Q.
Proof. intros H t gs w c Hc Hi Hg. destruct (H t gs w c Hc Hi Hg) as (g' & Hi' & HQ). destruct (f c w). eauto. Qed.
Lemma keeps_ask {B} (f : C -> B) g (Q : B -> G -> Prop) : (forall c, sane c -> Q (f c) g) -> keeps (ask f) g Q.
Proof. intros H. apply keeps_act. intros t gs w c Hc Hi Hg. exists g. cbn. rewrite list_insert_id by done. auto. Qed.
Lemma keeps_wait {B} (f : C -> W -> option (B * W)) g (Q : B -> G -> Prop) :
  (forall t gs w c x w', sane c -> inv gs w -> gs !! t = Some g -> f c w = Some (x, w') -> exists g', inv (<[t := g']> gs) w' /\ Q x g') ->
  (forall t gs w c, sane c -> inv gs w -> gs !! t = Some g -> f c w = None -> stuck g w) -> keeps (wait f) g Q.
Proof. intros H Hs t gs w c Hc Hi Hg. destruct (f c w) as [[x w']|] eqn:E; [by apply (H t gs w c x w')|eauto]. Qed.
Lemma pool_keeps {A} (R : A -> G -> Prop) s s' : rtc (pool_step sane) s s' -> forall gs, inv gs s.2 -> Forall2 (fun p g => keeps p g R) s.1 gs ->
  exists gs', inv gs' s'.2 /\ Forall2 (fun p g => keeps p g R) s'.1 gs'.
Proof.
  induction 1 as [s|s s2 s3 Hs _ IH]; intros gs Hi Hf; [by exists gs|]. inversion Hs as [ps w t B f k c x w' Ht Hc Hx]. subst. cbn in *.
  destruct (Forall2_lookup_l _ _ _ _ _ Hf Ht) as (g & Hg & Hsafe). pose proof (Hsafe t gs w c Hc Hi Hg) as H. rewrite Hx in H. destruct H as (g' & Hi' & Hk). apply (IH _ Hi'). by apply Forall2_insert.
Qed.
(** A program that has not returned takes a step, or it is stuck. *)
Lemma keeps_progress {A} (R : A -> G -> Prop) (ps : list (prog A)) w gs t p g c : inv gs w -> gs !! t = Some g -> keeps p g R -> ps !! t = Some p -> sane c ->
  (exists a, p = Ret a /\ R a g) \/ (exists s, pool_step sane (ps, w) s) \/ stuck g w.
Proof.
  intros Hi Hg Hk Hp Hc. destruct p as [a|B f k]; [eauto|]. right. specialize (Hk t gs w c Hc Hi Hg). destruct (f c w) as [[x w']|] eqn:E; [|by right]. left. eexists. by eapply pool_act.
Qed.
End Logic.

(** ** Termination *)

Definition child {A} (q p : prog A) : Prop := match p with Ret _ => False | Act _ k => exists x, q = k x end.
Definition shrinks {A} (qs ps : list (prog A)) : Prop := exists t p q, ps !! t = Some p /\ child q p /\ qs = <[t := q]> ps.
Lemma shrinks_wf {A} (ps : list (prog A)) : Acc shrinks ps.
Proof.
  induction ps as [|p ps IH]; [constructor; by intros q (t & ? & ? & ? & _)|]. revert p. induction IH as [ps _ IHps]. intros p. induction p as [a|B f k IHp]; constructor; intros qs ([|t] & p & q & Ht & Hc & ->); cbn in Ht |- *.
  - by injection Ht as <-.
  - apply (IHps (<[t := q]> ps)). by exists t, p, q.
  - injection Ht as <-. destruct Hc as [x ->]. apply IHp.
  - apply (IHps (<[t := q]> ps)). by exists t, p, q.
Qed.
(** Programs that run together come to an end, one way or another. *)
Lemma pool_terminates {A} sane (s : list (prog A) * W) : sn (pool_step sane) s.
Proof.
  destruct s as [ps w]. revert w. induction (shrinks_wf ps) as [ps _ IH]. intros w. constructor. intros s' Hs. inversion Hs as [ps' w0 t B f k c x w' Ht Hc Hf E1 E2]. subst. apply IH. exists t, (Act f k), (k x). split_and!; [done|by exists x|done].
Qed.
Lemma schedule_steps {A} (sane : C -> Prop) l : Forall (fun tc => sane tc.2) l -> forall (ps : list (prog A)) w, rtc (pool_step sane) (ps, w) ((schedule_run l ps w).1, (schedule_run l ps w).2).
Proof.
  induction 1 as [|[t c] l Hc _ IH]; intros ps w; [done|]. cbn [schedule_run]. destruct (ps !! t) as [[a|B f k]|] eqn:E; [done| |done]. destruct (f c w) as [[x w']|] eqn:Ef; [|done]. eapply rtc_l; [|apply IH]. by eapply pool_act.
Qed.
End Programs.
Arguments prog : clear implicits.
Arguments Ret {_ _ _} _.
Arguments Act {_ _ _ _} _ _.
#[global] Arguments keeps : simpl never.
Declare Scope prog_scope.
Delimit Scope prog_scope with prog.
Notation "'let>' x := p 'in' q" := (prog_bind p (fun x => q)) (at level 10, x pattern, p at level 100, q at level 200) : prog_scope.
