(* ===== verification/Lifecycle.v ===== *)
(** * Prepared providers and observed effects
    [agent/providers/lifecycle.go]: the effects that an execution has observed and the outcome
    that is told to the caller; preparation of the providers of a configuration, leases on
    them, and their end. *)
From Stdlib Require Import ZArith Lia.
From stdpp Require Import base gmap sorting list option strings.
From coqutil Require Import Datatypes.RecordSettersUsingExistingGetters.
From S2P Require Import Prelude Json GoStrings.
Local Open Scope Z_scope.
#[global] Arguments const {E} newValue / _.

(* ------------------------------------------------------------------ *)
(** ** [Effects] *)

Inductive effect := EUnknown | ECommitted | ERolledBack | EUncertain.
#[export] Instance effect_eq_dec : EqDecision effect.
Proof. solve_decision. Defined.
Record Effects := { started : bool; noChange : bool; operations : list effect }.
Definition no_effects : Effects := {| started := false; noChange := false; operations := [] |}.
(** The methods of [Effects], and of the [Effect] that [Begin] returned as its [i]-th. *)
Inductive effect_op := OpStart | OpNoChange | OpNotStarted | OpBegin | OpCommitted (i : nat) | OpRolledBack (i : nat).
#[export] Instance effect_op_eq_dec : EqDecision effect_op.
Proof. solve_decision. Defined.
Definition finish (state old : effect) : effect :=
  if decide (old = EUnknown) then state else if decide (old = state) then old else EUncertain.
Definition effect_step (e : Effects) (o : effect_op) : Effects :=
  match o with
  | OpStart => e <| started := true |>
  | OpNoChange => e <| noChange := true |>
  | OpNotStarted => match operations e with [] => e <| started := false |> | _ => e end
  | OpBegin => e <| operations ::= fun l => l ++ [EUnknown] |>
  | OpCommitted i => e <| operations ::= alter (finish ECommitted) i |>
  | OpRolledBack i => e <| operations ::= alter (finish ERolledBack) i |>
  end.
Definition effect_run (e : Effects) (l : list effect_op) : Effects := foldl effect_step e l.
Definition effect_name (e : effect) : string :=
  match e with EUnknown => "unknown" | ECommitted => "committed" | ERolledBack => "rolled_back" | EUncertain => "uncertain" end.
Definition Outcome (e : Effects) : string :=
  if negb (started e) then "not_started" else
  match operations e with
  | [] => if noChange e then "no_change" else "unknown"
  | state :: rest =>
      if negb (bool_decide (state = ECommitted)) && negb (bool_decide (state = ERolledBack)) then "unknown"
      else if forallb (fun v => bool_decide (v = state)) rest then effect_name state else "unknown"
  end.

(* ------------------------------------------------------------------ *)
(** ** [Prepared] *)

(** The [sync.Once] of [Close]. *)
Inductive once := Idle | Running | Done.
(** The calls on providers, in order. *)
Inductive provider_event := PCall (name : bytes) | PReturn (name : bytes) | PClose (name : bytes).
Record Prepared := {
  order : list bytes;            (* the names of the entries, as they were prepared *)
  closing : bool;
  leases : Z;                    (* the wait group [active] *)
  closeOnce : once; closeErr : bool;
  provider_log : list provider_event
}.
Definition new_prepared : Prepared := {| order := []; closing := false; leases := 0; closeOnce := Idle; closeErr := false; provider_log := [] |}.
Definition Names (p : Prepared) : list bytes := if closing p then [] else order p.
Definition has_entry (p : Prepared) (name : bytes) : bool := negb (closing p) && bool_decide (name ∈ order p).
Definition Acquire (name : bytes) (p : Prepared) : bool * Prepared :=
  if has_entry p name then (true, p <| leases ::= Z.add 1 |>) else (false, p).
Definition Release (p : Prepared) : Prepared := p <| leases ::= fun n => n - 1 |>.
(** A call of a provider's method begins, and ends. *)
Definition provider_call (name : bytes) (p : Prepared) : Prepared := p <| provider_log ::= fun l => l ++ [PCall name] |>.
Definition provider_return (name : bytes) (p : Prepared) : Prepared := p <| provider_log ::= fun l => l ++ [PReturn name] |>.
(** The sections of [Close]: entering the once, the flag under the mutex, the wait, one
    provider, and leaving the once. *)
Definition once_enter (p : Prepared) : option (bool * Prepared) :=
  match closeOnce p with Idle => Some (true, p <| closeOnce := Running |>) | Running => None | Done => Some (false, p) end.
Definition set_closing (p : Prepared) : Prepared := p <| closing := true |>.
Definition wait_leases (p : Prepared) : option (unit * Prepared) := if leases p =? 0 then Some (tt, p) else None.
Definition closeProvider (failed : bool) (name : bytes) (p : Prepared) : Prepared :=
  p <| provider_log ::= fun l => l ++ [PClose name] |> <| closeErr ::= orb failed |>.
Definition once_leave (p : Prepared) : Prepared := p <| closeOnce := Done |>.

(* ------------------------------------------------------------------ *)
(** ** [Prepare] *)

(** What happens for one name: [Resolve] fails, or the factory returns a provider or none,
    with an error (or a panic) or without one, and the context is done or not. *)
Record preparation := { pr_resolved : bool; pr_provider : bool; pr_error : bool; pr_done : bool }.
Definition close_all (fails : bytes -> bool) (p : Prepared) : Prepared :=
  once_leave (foldl (fun p name => closeProvider (fails name) name p) (set_closing (p <| closeOnce := Running |>)) (rev (order p))).
Fixpoint prepare_each (answer : bytes -> preparation) (names : list bytes) (p : Prepared) : Prepared * bool :=
  match names with
  | [] => (p, true)
  | name :: names =>
      let a := answer name in
      if negb (pr_resolved a) then (p, false) else
      let p := (if pr_provider a then p <| order ::= fun l => l ++ [name] |> else p) in
      if pr_error a || negb (pr_provider a) || pr_done a then (p, false) else prepare_each answer names p
  end.
(** Names are prepared in order; [supported] says whether the executor of a name has a
    factory. On failure what was prepared is closed. *)
Definition Prepare (supported : bytes -> bool) (done : bool) (answer : bytes -> preparation) (fails : bytes -> bool) (names : list bytes) : Prepared * bool :=
  let names := sort_strings names in
  if negb (forallb supported names) || done then (new_prepared, false) else
  let '(p, ok) := prepare_each answer names new_prepared in
  if ok then (p, true) else (close_all fails p, false).

(* ------------------------------------------------------------------ *)
(** ** Histories of effects *)

Definition begins (l : list effect_op) : nat := length (filter (fun o => o = OpBegin) l).
(** Effects are finished after they were begun. *)
Definition scoped (l : list effect_op) : Prop := forall a o b i, l = a ++ o :: b -> o = OpCommitted i \/ o = OpRolledBack i -> (i < begins a)%nat.
(** No effect begins unless the work is marked as started. *)
Definition disciplined (e : Effects) (l : list effect_op) : Prop := forall a b, l = a ++ OpBegin :: b -> started (effect_run e a) = true.
(** What became of an effect that was reported committed, and rolled back. *)
Definition status (c r : bool) : effect := match c, r with true, false => ECommitted | false, true => ERolledBack | false, false => EUnknown | true, true => EUncertain end.
Definition reported (l : list effect_op) (i : nat) : effect := status (bool_decide (OpCommitted i ∈ l)) (bool_decide (OpRolledBack i ∈ l)).

Lemma effect_run_snoc e l o : effect_run e (l ++ [o]) = effect_step (effect_run e l) o.
Proof. unfold effect_run. by rewrite foldl_app. Qed.
Lemma step_operations e o : operations (effect_step e o) =
  match o with OpBegin => operations e ++ [EUnknown] | OpCommitted i => alter (finish ECommitted) i (operations e) | OpRolledBack i => alter (finish ERolledBack) i (operations e) | _ => operations e end.
Proof. destruct o; try done. cbn. by destruct e as [? ? []]. Qed.
Lemma begins_snoc l o : begins (l ++ [o]) = if decide (o = OpBegin) then S (begins l) else begins l.
Proof. unfold begins. rewrite filter_app, length_app. cbn. destruct (decide (o = OpBegin)); cbn; lia. Qed.
Lemma scoped_snoc l o : scoped (l ++ [o]) -> scoped l /\ forall i, o = OpCommitted i \/ o = OpRolledBack i -> (i < begins l)%nat.
Proof.
  intros H. split; [|by intros i Ho; apply (H l o [] i)]. intros a o' b i E Ho. apply (H a o' (b ++ [o]) i); [|done]. by rewrite E, <- app_assoc.
Qed.
Lemma finish_committed c r : finish ECommitted (status c r) = status true r.
Proof. by destruct c, r. Qed.
Lemma finish_rolled c r : finish ERolledBack (status c r) = status c true.
Proof. by destruct c, r. Qed.
Lemma reported_snoc l o i : (forall j, o = OpCommitted j \/ o = OpRolledBack j -> j <> i) -> reported (l ++ [o]) i = reported l i.
Proof.
  intros H. unfold reported. f_equal; apply bool_decide_ext; rewrite elem_of_app, list_elem_of_singleton; (split; [intros [?|E]; [done|]|by left]); subst; destruct (H i); auto.
Qed.
Lemma reported_committed l i : reported (l ++ [OpCommitted i]) i = finish ECommitted (reported l i).
Proof.
  unfold reported. rewrite finish_committed. f_equal; [apply bool_decide_eq_true; set_solver|]. apply bool_decide_ext. set_solver.
Qed.
Lemma reported_rolled l i : reported (l ++ [OpRolledBack i]) i = finish ERolledBack (reported l i).
Proof.
  unfold reported. rewrite finish_rolled. f_equal; [|apply bool_decide_eq_true; set_solver]. apply bool_decide_ext. set_solver.
Qed.
Lemma reported_fresh l : scoped l -> reported l (begins l) = EUnknown.
Proof.
  intros H. unfold reported. assert (forall o i, o ∈ l -> o = OpCommitted i \/ o = OpRolledBack i -> (i < begins l)%nat) as Hin.
  { intros o i (a & b & ->)%list_elem_of_split Ho. pose proof (H a o b i eq_refl Ho). unfold begins in *. rewrite filter_app, length_app. lia. }
  rewrite !bool_decide_eq_false_2; [done|..]; intros Hc; pose proof (Hin _ (begins l) Hc ltac:(auto)); lia.
Qed.
Lemma operations_reported l : scoped l -> operations (effect_run no_effects l) = reported l <$> seq 0 (begins l).
Proof.
  induction l as [|o l IH] using rev_ind; [done|]. intros [Hs Ho]%scoped_snoc. specialize (IH Hs). rewrite effect_run_snoc, begins_snoc.
  assert (forall (f : effect -> effect) i, (i < begins l)%nat -> (forall j, j <> i -> reported (l ++ [o]) j = reported l j) -> reported (l ++ [o]) i = f (reported l i) ->
    alter f i (reported l <$> seq 0 (begins l)) = reported (l ++ [o]) <$> seq 0 (begins l)) as Halter.
  { intros f i Hi Hne Hi'. apply list_eq. intros j. rewrite list_lookup_fmap. destruct (decide (j = i)) as [->|Hj].
    - rewrite list_lookup_alter_eq, list_lookup_fmap, lookup_seq_lt by done. cbn. by rewrite Hi'.
    - rewrite list_lookup_alter_ne, list_lookup_fmap by done. destruct (seq 0 (begins l) !! j) as [n|] eqn:E; [|done]. cbn. f_equal. symmetry. apply Hne. apply lookup_seq in E as [-> _]. done. }
  assert ((forall i, o <> OpCommitted i) -> (forall i, o <> OpRolledBack i) -> reported (l ++ [o]) <$> seq 0 (begins l) = reported l <$> seq 0 (begins l)) as Hsame.
  { intros H1 H2. apply list_fmap_ext. intros j i _. apply reported_snoc. intros k [?|?]; exfalso; naive_solver. }
  rewrite step_operations, IH. destruct o as [| | | |i|i]; [by rewrite decide_False, Hsame..| | |].
  - rewrite decide_True, seq_S, fmap_app, Hsame by done. cbn. f_equal. f_equal. rewrite reported_snoc by naive_solver. symmetry. by apply reported_fresh.
  - rewrite decide_False by done. apply Halter; [auto| |apply reported_committed]. intros j Hj. apply reported_snoc. naive_solver.
  - rewrite decide_False by done. apply Halter; [auto| |apply reported_rolled]. intros j Hj. apply reported_snoc. naive_solver.
Qed.
Lemma reported_eq l i s c r : s = status c r -> c <> r -> (reported l i = s <-> bool_decide (OpCommitted i ∈ l) = c /\ bool_decide (OpRolledBack i ∈ l) = r).
Proof. intros -> Hne. unfold reported. destruct c, r; try done; destruct (bool_decide _), (bool_decide _); cbn; naive_solver. Qed.
(** An outcome that all effects agree on. *)
Lemma outcome_uniform e s : s = ECommitted \/ s = ERolledBack -> Outcome e = effect_name s <-> started e = true /\ operations e <> [] /\ Forall (fun v => v = s) (operations e).
Proof.
  intros Hs. unfold Outcome. destruct (started e); cbn; [|destruct Hs as [-> | ->]; naive_solver]. destruct (operations e) as [|v rest].
  { destruct (noChange e), Hs as [-> | ->]; naive_solver. }
  rewrite Forall_cons. destruct (forallb _ rest) eqn:E.
  - assert (Forall (fun x => x = v) rest) as Hrest by (apply Forall_forall; intros x Hx; eapply forallb_forall in E; [|by apply list_elem_of_In]; by apply bool_decide_eq_true in E).
    assert (v = s -> Forall (fun x => x = s) rest) by (by intros <-). repeat case_bool_decide; destruct Hs as [-> | ->], v; naive_solver.
  - assert (v = s -> ~ Forall (fun x => x = s) rest). { intros <- H. apply not_true_iff_false in E. apply E, forallb_forall. intros x Hx. apply bool_decide_eq_true. eapply Forall_forall in H; [done|]. by apply list_elem_of_In. }
    repeat case_bool_decide; destruct Hs as [-> | ->], v; naive_solver.
Qed.
Lemma uniform_reported l s : scoped l -> (operations (effect_run no_effects l) <> [] /\ Forall (fun v => v = s) (operations (effect_run no_effects l)) <-> begins l <> 0%nat /\ forall i, (i < begins l)%nat -> reported l i = s).
Proof.
  intros Hl. rewrite operations_reported, Forall_fmap, Forall_seq by done. split; intros [H1 H2]; (split; [|intros i Hi; apply H2; lia]).
  - intros E. by rewrite E in H1.
  - destruct (begins l); [done|]. by cbn.
Qed.
Lemma noChange_run e l : noChange (effect_run e l) = noChange e || bool_decide (OpNoChange ∈ l).
Proof.
  induction l as [|o l IH] using rev_ind; [by rewrite orb_false_r|]. rewrite effect_run_snoc. destruct (decide (o = OpNoChange)) as [->|Ho].
  - cbn. symmetry. rewrite bool_decide_eq_true_2 by set_solver. apply orb_true_r.
  - replace (noChange (effect_step (effect_run e l) o)) with (noChange (effect_run e l)) by (destruct o; try done; cbn; by destruct (operations _)). rewrite IH. f_equal. apply bool_decide_ext. set_solver.
Qed.
Lemma started_run l : disciplined no_effects l -> started (effect_run no_effects l) = false -> operations (effect_run no_effects l) = [].
Proof.
  induction l as [|o l IH] using rev_ind; [done|]. intros Hd. rewrite effect_run_snoc, step_operations.
  assert (disciplined no_effects l) as Hl by (intros a b E; apply (Hd a (b ++ [o])); by rewrite E, <- app_assoc). specialize (IH Hl).
  destruct o as [| | | |i|i]; cbn; [done|by apply IH| | |intros H; by rewrite (IH H)..].
  - destruct (operations (effect_run no_effects l)) eqn:E; [done|]. intros H. by specialize (IH H).
  - intros H. specialize (Hd l [] eq_refl). congruence.
Qed.

(** ** Lemmas on preparation *)

Lemma close_each fails names p : provider_log (foldl (fun p name => closeProvider (fails name) name p) p names) = provider_log p ++ (PClose <$> names) /\
  order (foldl (fun p name => closeProvider (fails name) name p) p names) = order p /\ closing (foldl (fun p name => closeProvider (fails name) name p) p names) = closing p.
Proof.
  revert p. induction names as [|n names IH]; intros p; [by rewrite app_nil_r|]. cbn. destruct (IH (closeProvider (fails n) n p)) as (-> & -> & ->). cbn. by rewrite <- app_assoc.
Qed.
Lemma prepare_each_spec answer names p : forall p' ok, prepare_each answer names p = (p', ok) -> exists done, order p' = order p ++ done /\ done `prefix_of` names /\ (ok = true -> done = names) /\
  provider_log p' = provider_log p /\ closing p' = closing p /\ (forall n, n ∈ done -> pr_provider (answer n) = true).
Proof.
  revert p. induction names as [|n names IH]; intros p p' ok; cbn.
  { intros [= <- <-]. exists []. rewrite app_nil_r. split_and!; try done. set_solver. }
  destruct (pr_resolved (answer n)); cbn; cycle 1.
  { intros [= <- <-]. exists []. rewrite app_nil_r. split_and!; try done; [apply prefix_nil|set_solver]. }
  destruct (pr_provider (answer n)) eqn:Ep; cbn; cycle 1.
  { rewrite orb_true_r. cbn. intros [= <- <-]. exists []. rewrite app_nil_r. split_and!; try done; [apply prefix_nil|set_solver]. }
  rewrite orb_false_r. destruct (pr_error (answer n) || pr_done (answer n)).
  { intros [= <- <-]. exists [n]. split_and!; try done; [by apply prefix_cons, prefix_nil|set_solver]. }
  intros E. apply IH in E as (done & H1 & H2 & H3 & H4 & H5 & H6). exists (n :: done). cbn in *. rewrite H1, <- app_assoc. split_and!; try done; [by apply prefix_cons|intros ->; by rewrite H3|set_solver].
Qed.

(* ------------------------------------------------------------------ *)
(** ** Properties *)

(** C39: the outcome of an execution is exactly what was observed, for every sequence of
    calls that reports an effect only after it was begun. It is committed when the work was started, has effects, and every one of them was reported committed and none rolled
    back; rolled back likewise; no change when the work was started without effects and no
    change was asserted; and not started exactly when the work was not, which means that no
    effect was ever begun if effects begin after the work is marked as started. In all other cases it is unknown. *)
Theorem outcome_exact l : scoped l ->
  let e := effect_run no_effects l in
  (Outcome e = "committed" <-> started e = true /\ begins l <> 0%nat /\ forall i, (i < begins l)%nat -> OpCommitted i ∈ l /\ OpRolledBack i ∉ l) /\
  (Outcome e = "rolled_back" <-> started e = true /\ begins l <> 0%nat /\ forall i, (i < begins l)%nat -> OpRolledBack i ∈ l /\ OpCommitted i ∉ l) /\
  (Outcome e = "no_change" <-> started e = true /\ begins l = 0%nat /\ OpNoChange ∈ l) /\
  (Outcome e = "not_started" <-> started e = false) /\
  (disciplined no_effects l -> Outcome e = "not_started" -> begins l = 0%nat) /\
  Outcome e ∈ ["committed"; "rolled_back"; "no_change"; "not_started"; "unknown"].
Proof.
  intros Hl e. assert (length (operations e) = begins l) as Hlen by (unfold e; rewrite operations_reported, length_fmap, length_seq by done; done).
  assert (Outcome e = "not_started" <-> started e = false) as Hns. { unfold Outcome. destruct (started e); cbn; [|done]. destruct (operations e) as [|v rest]; [destruct (noChange e); naive_solver|]. destruct v, (forallb _ _); cbn; naive_solver. }
  split_and!.
  - rewrite (outcome_uniform e ECommitted) by auto. unfold e. rewrite uniform_reported by done. do 2 f_equiv. apply forall_proper. intros i. apply forall_proper. intros _. rewrite (reported_eq l i _ true false) by done. rewrite bool_decide_eq_true, bool_decide_eq_false. done.
  - rewrite (outcome_uniform e ERolledBack) by auto. unfold e. rewrite uniform_reported by done. do 2 f_equiv. apply forall_proper. intros i. apply forall_proper. intros _. rewrite (reported_eq l i _ false true) by done. rewrite bool_decide_eq_true, bool_decide_eq_false. tauto.
  - rewrite <- Hlen. pose proof (noChange_run no_effects l) as Hn. cbn in Hn. fold e in Hn. rewrite <- (bool_decide_eq_true (OpNoChange ∈ l)), <- Hn. unfold Outcome. destruct (started e); cbn; [|naive_solver]. destruct (operations e) as [|v rest]; cbn; [destruct (noChange e); naive_solver|]. destruct v, (forallb _ _); cbn; naive_solver.
  - exact Hns.
  - intros Hd H%Hns. rewrite <- Hlen. unfold e. by rewrite started_run.
  - unfold Outcome. destruct (started e); cbn; [|set_solver]. destruct (operations e) as [|v rest]; [destruct (noChange e); set_solver|]. destruct v, (forallb _ _); cbn; set_solver.
Qed.

(* ------------------------------------------------------------------ *)
(** ** Witnesses *)

Lemma outcome_exact_witness : Outcome (effect_run no_effects [OpStart; OpBegin; OpCommitted 0]) = "committed"%string.
Proof.
  apply (outcome_exact [OpStart; OpBegin; OpCommitted 0]).
  - intros a o b i E Ho. destruct a as [|? [|? [|? a]]]; cbn in E; simplify_eq; destruct Ho; simplify_eq; first [by vm_compute; lia|by destruct a].
  - split_and!; [done|done|]. intros i Hi. assert (i = 0%nat) as -> by (change (begins _) with 1%nat in Hi; lia). split; [set_solver|]. intros H. apply list_elem_of_In in H. cbn in H. intuition congruence.
Defined.
