(* ===== verification/DbProvider.v ===== *)
(** * The database provider
    [agent/provider_db.go] and the transactions of [agent/executor.go], on the shared state of
    an agent that executes capabilities. A transaction has a state at the server, which no
    error hides: a commit whose answer is lost may have happened or not, a rollback that fails
    may have happened or not, and the server may give up an open transaction at any time.
    What [database/sql] documents is kept: a commit or rollback that returns no error has
    happened, one of a finished transaction is an error, and the transaction of a context that
    is canceled is rolled back some time later. A transaction has a connection of its own,
    which the pool has back when it is closed. *)
From Stdlib Require Import ZArith Lia.
From stdpp Require Import base gmap list option strings.
From coqutil Require Import Datatypes.RecordSettersUsingExistingGetters.
From S2P Require Import Prelude GoTime Utf8 Json GoStrings InputValue ValueFormat Schema Output Publish RateLimit SqlSyntax Programs Lifecycle.
Local Open Scope Z_scope.
Local Open Scope prog_scope.
#[global] Arguments const {E} newValue / _.

(* ------------------------------------------------------------------ *)
(** ** Errors *)

(** An error is the list of what [errors.As] finds in it, in order, as
    [*providers.Failure], [*contract.OutputError] or [*providers.PublicTerminal]; [nil] is
    the empty list. A [Failure] does not unwrap to its cause. *)
Inductive leaf := LFailure (code reason : string) | LOutput (code : string) | LTerminal (code message : bytes) | LOther.
Abbreviation error := (list leaf).
Definition failed (e : error) : bool := match e with [] => false | _ => true end.
Definition as_failure (e : error) : option (string * string) := head (omap (fun l => match l with LFailure c r => Some (c, r) | _ => None end) e).
Definition as_output (e : error) : option string := head (omap (fun l => match l with LOutput c => Some c | _ => None end) e).
Definition as_terminal (e : error) : option (bytes * bytes) := head (omap (fun l => match l with LTerminal c m => Some (c, m) | _ => None end) e).
(** An error of [ProcessOutput]: an [OutputError], or the error of the context. *)
Definition output_error (e : string) : error :=
  if bool_decide (e = "OUTPUT_INVALID") || bool_decide (e = "LIMIT_EXCEEDED") then [LOutput e] else [LOther].

(* ------------------------------------------------------------------ *)
(** ** Shared state *)

(** Transactions at the server, with the execution that they belong to. *)
Inductive txstate := TxOpen | TxCommitted | TxRolledBack.
#[export] Instance txstate_eq_dec : EqDecision txstate.
Proof. solve_decision. Defined.
Record transaction := { tx_call : nat; tx_state : txstate }.
(** Connections of the pool: in use, back in the pool, or closed for good. *)
Inductive connection := InUse | Returned | Discarded.
#[export] Instance connection_eq_dec : EqDecision connection.
Proof. solve_decision. Defined.

Section State.
Context {O : Type} `{!OutputWorld O}.
(** A run of [ProcessOutput], with its output if there is one. *)
Record publication := { pb_call : nat; pb_source : ProviderResult; pb_state : @pstate O; pb_output : option PreparedOutput }.
Record world := {
  w_prepared : Prepared;
  w_active : Z; w_rates : gmap bytes capabilityRateLimiter;
  w_txs : list transaction;
  w_conns : list (nat * connection);   (* the connections that were taken, with the execution *)
  w_outputs : list publication;
  w_calls : list (nat * list (bytes * value));   (* the arguments that providers were called with *)
  w_inputs : list (nat * bool)         (* files of a request in use, and whether they were released *)
}.
(** What a provider other than the database does: effects, what it publishes or returns, more
    effects, an error or a panic. *)
Record foreign := { fo_before : list effect_op; fo_result : option ProviderResult; fo_after : list effect_op; fo_error : error; fo_panic : bool }.
(** What is decided outside: whether a context is done, the time, whether a call fails and
    what it leaves behind, the class of a database error, and what others return. *)
Inductive db_class := Constraint | Unreachable | Unclassified.
Record choice := {
  ch_done : bool; ch_now : Z; ch_fault : bool; ch_lost : bool; ch_gone : bool; ch_count : option Z; ch_class : db_class;
  ch_output : O; ch_foreign : foreign; ch_rows : ProviderResult
}.
End State.
Arguments world : clear implicits.
Arguments world O : assert.
Arguments choice : clear implicits.
Arguments choice O : assert.
Arguments publication : clear implicits.
Arguments publication O : assert.

Section Provider.
Context {O : Type} `{!OutputWorld O} (lib : engines).
Abbreviation program := (prog (choice O) (world O)).

(** ** Transactions *)

Definition new_tx (call : nat) (w : world O) : nat * world O := (length (w_txs w), w <| w_txs ::= fun l => l ++ [{| tx_call := call; tx_state := TxOpen |}] |>).
Definition state_of (i : nat) (w : world O) : txstate := default TxRolledBack (tx_state <$> w_txs w !! i).
Definition set_tx (i : nat) (s : txstate) (w : world O) : world O := w <| w_txs ::= alter (fun t => t <| tx_state := s |>) i |>.
(** The server may have given up the transaction before the call. *)
Definition settle (c : choice O) (i : nat) (w : world O) : world O :=
  if ch_gone c && bool_decide (state_of i w = TxOpen) then set_tx i TxRolledBack w else w.
(** [BeginTx]; when it fails, a transaction may be open at the server all the same. *)
Definition BeginTx (call : nat) (c : choice O) (w : world O) : option nat * world O :=
  if ch_fault c then (None, if ch_lost c then (new_tx call w).2 else w) else let '(i, w) := new_tx call w in (Some i, w).
Definition ExecContext (i : nat) (c : choice O) (w : world O) : bool * world O := (ch_fault c, settle c i w).
Inductive tx_error := TxFailed | ErrTxDone.
Definition Commit (i : nat) (c : choice O) (w : world O) : option tx_error * world O :=
  let w := settle c i w in
  match state_of i w with
  | TxOpen => if ch_fault c then (Some TxFailed, if ch_lost c then set_tx i TxCommitted w else w) else (None, set_tx i TxCommitted w)
  | _ => (Some ErrTxDone, w)
  end.
Definition Rollback (i : nat) (c : choice O) (w : world O) : option tx_error * world O :=
  let w := settle c i w in
  match state_of i w with
  | TxOpen => if ch_fault c then (Some TxFailed, if ch_lost c then set_tx i TxRolledBack w else w) else (None, set_tx i TxRolledBack w)
  | _ => (Some ErrTxDone, w)
  end.
Inductive rollbackState := rollbackConfirmed | rollbackAlreadyDone | rollbackFailed.
#[global] Instance rollbackState_eq_dec : EqDecision rollbackState.
Proof. solve_decision. Defined.
Definition rollbackMutation (i : nat) : program rollbackState :=
  let> e := act (Rollback i) in
  Ret (match e with None => rollbackConfirmed | Some ErrTxDone => rollbackAlreadyDone | Some TxFailed => rollbackFailed end).

(** [db.Conn], and [conn.Close] after [discardSQLConn] or not. *)
Definition Conn (call : nat) (c : choice O) (w : world O) : option nat * world O :=
  if ch_fault c then (None, w) else (Some (length (w_conns w)), w <| w_conns ::= fun l => l ++ [(call, InUse)] |>).
Definition conn_Close (i : nat) (discard : bool) (w : world O) : world O :=
  w <| w_conns ::= alter (fun x => (x.1, if discard then Discarded else Returned)) i |>.
(** A transaction with its connection. Its [discard] flag is passed along to [close], which
    every path but one reaches, deferred, as the last thing it does. *)
Record mutationTx := { mt_conn : nat; mt_tx : nat }.
Definition mt_close (m : mutationTx) (discard : bool) : program unit := act (fun _ w => (tt, conn_Close (mt_conn m) discard w)).
Definition is_oracle (driver : string) : bool := bool_decide (driver = "oracle"%string).

(** [beginMutationTx]. The gate is swapped once: by the goroutine that watches the context of
    the execution, by the first look at that context, or by the transaction that started. The
    watcher may come first at any point, and it is stopped before the return. Who swaps the
    gate to canceled cancels the context of the transaction, except on Oracle, where the
    transaction has a context that only [mutationTx.close] ends. *)
Inductive beginState := beginNotStarted | beginStarted | beginCanceledWithTx | beginOutcomeUnknown.
#[global] Instance beginState_eq_dec : EqDecision beginState.
Proof. solve_decision. Defined.
Inductive gate := Pending | Started | Canceled.
#[global] Instance gate_eq_dec : EqDecision gate.
Proof. solve_decision. Defined.
(** [gate.CompareAndSwap(0, v)]: the gate, and whether it was swapped. *)
Definition swap (v g : gate) : gate * bool := if decide (g = Pending) then (v, true) else (g, false).
(** The watcher runs, if the context is done. *)
Definition watch (g : gate) : program gate := let> done := ask ch_done in Ret (if done : bool then (swap Canceled g).1 else g).
(** [database/sql] may have rolled back the transaction of a canceled context by now. *)
Definition canceled_tx (driver : string) (i : nat) : program unit := act (fun c w => (tt, if is_oracle driver then w else settle c i w)).
Definition beginMutationTx (driver : string) (call : nat) : program (option mutationTx * beginState * error) :=
  let> conn := act (Conn call) in
  match conn with
  | None => Ret (None, beginNotStarted, [LOther])
  | Some conn =>
      let> g := watch Pending in
      let> done := ask ch_done in
      let g := (if done : bool then (swap Canceled g).1 else g) in
      let> tx := act (BeginTx call) in
      let> g := watch g in
      match tx with
      | Some i =>
          let m := {| mt_conn := conn; mt_tx := i |} in
          if (swap Started g).2 then Ret (Some m, beginStarted, []) else
          let> _ := canceled_tx driver i in Ret (Some m, beginCanceledWithTx, [LOther])
      | None =>
          let canceledFirst := bool_decide (g = Canceled) in
          let> _ := act (fun _ w => (tt, conn_Close conn canceledFirst w)) in
          Ret (None, if canceledFirst then beginOutcomeUnknown else beginNotStarted, [LOther])
      end
  end.

(** ** Publication *)

Definition publish (call : nat) (c : Capability) (delivery : bool) (source : ProviderResult) : program (error * option nat) :=
  act (fun ch w =>
    let '(s, r) := processOutput lib {| p_world := ch_output ch; p_log := [] |} c source delivery in
    let pb := {| pb_call := call; pb_source := source; pb_state := s; pb_output := match r with Ok o => Some o | Err _ => None end |} in
    (match r with Ok _ => ([], Some (length (w_outputs w))) | Err e => (output_error e, None) end, w <| w_outputs ::= fun l => l ++ [pb] |>)).
Definition close_publication (pb : publication O) : publication O :=
  match pb_output pb with Some o => let '(s, o) := Close (pb_state pb) o in pb <| pb_state := s |> <| pb_output := Some o |> | None => pb end.
Definition close_output (i : nat) : program unit := act (fun _ w => (tt, w <| w_outputs ::= alter close_publication i |>)).

(** ** [dbProvider] *)

Record database := { db_driver : string; db_sql : bytes; db_select : bool; db_max_affected : option Z }.
(** What an execution by a provider comes to. *)
Record executed := { ex_error : error; ex_output : option nat; ex_result : ProviderResult; ex_effects : Effects; ex_panic : bool }.
Definition no_result : ProviderResult := {| ps_ReturnedRows := None; ps_AffectedRows := None; ps_Data := VNull; ps_Columns := []; ps_Files := [] |}.
Definition ended (e : error) (out : option nat) (effects : Effects) : executed :=
  {| ex_error := e; ex_output := out; ex_result := no_result; ex_effects := effects; ex_panic := false |}.
Definition db_failure (e : error) : program error :=
  match as_output e with
  | Some _ => Ret e
  | None =>
      let> done := ask ch_done in
      let> class := ask ch_class in
      Ret [if done : bool then LFailure "EXECUTION_TIMEOUT" "DATABASE_TIMEOUT" else
           match class with
           | Constraint => LFailure "CONFLICT" "DATABASE_CONSTRAINT"
           | Unreachable => LFailure "DEPENDENCY_UNAVAILABLE" "DATABASE_UNAVAILABLE"
           | Unclassified => LFailure "EXECUTION_FAILED" "DATABASE_QUERY_FAILED"
           end]
  end.
(** The closure [rollback] of a mutation, and the deferred [close]; [discard] says whether the
    connection is discarded also when the rollback is confirmed. *)
Definition rollback (m : mutationTx) (discard : bool) (n : nat) (effects : Effects) (cause : error) : program executed :=
  let> rb := rollbackMutation (mt_tx m) in
  if decide (rb = rollbackConfirmed) then
    let> _ := mt_close m discard in
    Ret (ended cause None (effect_step effects (OpRolledBack n)))
  else
    let> _ := mt_close m true in
    Ret (ended [LFailure "OUTCOME_UNKNOWN" "ROLLBACK_UNKNOWN"] None effects).
Definition count_result (count : Z) : ProviderResult :=
  {| ps_ReturnedRows := None; ps_AffectedRows := Some count; ps_Data := VObj [(lit "count", VInt count)]; ps_Columns := []; ps_Files := [] |}.
(** A mutation with its transaction [m] after its statement; [n] is the number of its effect. *)
Definition conclude (call : nat) (cap : Capability) (delivery : bool) (db : database) (m : mutationTx) (n : nat) (effects : Effects) (fault : bool) : program executed :=
  if fault then let> e := db_failure [LOther] in rollback m false n effects e else
  let> count := ask ch_count in
  match count with
  | None => let> e := db_failure [LOther] in rollback m false n effects e
  | Some count =>
      if count <? 0 then let> e := db_failure [LOther] in rollback m false n effects e else
      if match db_max_affected db with Some limit => limit <? count | None => false end then rollback m false n effects [LFailure "LIMIT_EXCEEDED" "AFFECTED_ROWS_EXCEEDED"] else
      let> (e, out) := publish call cap delivery (count_result count) in
      match out with
      | None => rollback m false n effects e
      | Some o =>
          let> done := ask ch_done in
          if done : bool then
            let> _ := close_output o in
            let> e := db_failure [LOther] in
            rollback m false n effects e
          else
          let> e := act (Commit (mt_tx m)) in
          match e with
          | Some _ =>
              let> _ := close_output o in
              let> _ := mt_close m true in
              Ret (ended [LFailure "OUTCOME_UNKNOWN" "COMMIT_UNKNOWN"] None effects)
          | None =>
              let> _ := mt_close m false in
              Ret (ended [] (Some o) (effect_step effects (OpCommitted n)))
          end
      end
  end.
Definition mutate (call : nat) (cap : Capability) (delivery : bool) (db : database) (m : mutationTx) (n : nat) (effects : Effects) : program executed :=
  let> fault := act (ExecContext (mt_tx m)) in
  conclude call cap delivery db m n effects fault.
Definition db_ExecutePublication (call : nat) (cap : Capability) (delivery : bool) (db : database) (input : list (bytes * value)) (effects : Effects) : program executed :=
  if db_select db then
    let effects := effect_step effects OpNoChange in
    match buildSQL (db_driver db) (db_sql db) (list_to_map input : gmap bytes value) with
    | Err _ => Ret (ended [LOther] None effects)
    | Ok _ =>
        let> fault := ask ch_fault in
        if fault : bool then let> e := db_failure [LOther] in Ret (ended e None effects) else
        let> rows := ask ch_rows in
        let> (e, out) := publish call cap delivery rows in
        Ret (ended e out effects)
    end
  else
    match buildSQL (db_driver db) (db_sql db) (list_to_map input : gmap bytes value) with
    | Err _ => Ret (ended [LOther] None (effect_step effects OpNoChange))
    | Ok _ =>
        let> (tx, state, e) := beginMutationTx (db_driver db) call in
        let effects := (if decide (state = beginNotStarted) then effects else effect_step effects OpBegin) in
        match tx with
        | None =>
            if decide (state = beginOutcomeUnknown) then Ret (ended [LFailure "OUTCOME_UNKNOWN" "TRANSACTION_START_UNKNOWN"] None effects)
            else let> e := db_failure e in Ret (ended e None (effect_step effects OpNoChange))
        | Some m =>
            let n := pred (length (operations effects)) in
            if decide (state = beginCanceledWithTx) then let> e := db_failure [LOther] in rollback m (is_oracle (db_driver db)) n effects e
            else mutate call cap delivery db m n effects
        end
    end.
End Provider.
