(* ===== verification/Controller.v ===== *)
(** * The execution controller
    [agent/controller.go]: [Execute] from the first look at the request to the deferred
    functions, and the public errors of [contract/envelope.go]. Executions run
    together, and together with calls of [Prepared.Close]. *)
From Stdlib Require Import ZArith Lia.
From stdpp Require Import base gmap list option strings.
From coqutil Require Import Datatypes.RecordSettersUsingExistingGetters.
From S2P Require Import Prelude GoTime Utf8 Json Canonical GoStrings InputValue ValueFormat Schema Output Publish RateLimit SqlSyntax Programs Lifecycle DbProvider.
Local Open Scope Z_scope.
Local Open Scope prog_scope.
#[global] Arguments const {E} newValue / _.

(* ------------------------------------------------------------------ *)
(** ** Public errors *)

Record ErrorValue := { Code : bytes; Message : bytes; Reason : bytes; ev_Outcome : string }.
Definition systemErrorCodes : list bytes := lit <$> ["INVALID_REQUEST"; "VALIDATION_FAILED"; "AUTH_FAILED"; "CAPABILITY_DENIED"; "PERMISSION_DENIED"; "NOT_FOUND"; "SOURCE_CHANGED"; "CONFLICT"; "LIMIT_EXCEEDED"; "RATE_LIMITED"; "BUSY"; "AGENT_OFFLINE"; "DEPENDENCY_UNAVAILABLE"; "EXECUTION_TIMEOUT"; "EXECUTION_FAILED"; "OUTPUT_INVALID"; "OUTCOME_UNKNOWN"; "INTERNAL_ERROR"].
Definition outcomes : list string := ["not_started"; "no_change"; "rolled_back"; "committed"; "unknown"].
Definition HasPrefix (s p : bytes) : bool := bytes_eqb (firstn (length p) s) p.
Definition upper_char (c : Z) : bool := (65 <=? c) && (c <=? 90).
Definition code_char (c : Z) : bool := upper_char c || (48 <=? c) && (c <=? 57) || (c =? 95).
(** [^[A-Z][A-Z0-9_]*$] and [^APP_[A-Z][A-Z0-9_]{0,59}$]. *)
Definition reasonCode (s : bytes) : bool := match s with c :: r => upper_char c && forallb code_char r | [] => false end.
Definition appCode (s : bytes) : bool := HasPrefix s (lit "APP_") && reasonCode (skipn 4 s) && (length s <=? 64)%nat.
Definition IsControl (r : Z) : bool := (r <? 32) || (127 <=? r) && (r <? 160).
Definition Validate (e : ErrorValue) : bool :=
  (contains systemErrorCodes (Code e) || appCode (Code e)) &&
  (ValidString (Message e) && (1 <=? length (Message e))%nat && (length (Message e) <=? 1024)%nat) &&
  forallb (fun p => negb (IsControl p.1)) (runes (Message e)) &&
  (bytes_eqb (Reason e) [] || reasonCode (Reason e)) &&
  bool_decide (ev_Outcome e ∈ outcomes) &&
  negb (appCode (Code e) && negb (bytes_eqb (Reason e) [])).
Definition executionMessage (code : bytes) : bytes :=
  lit (if bytes_eqb code (lit "INVALID_REQUEST") then "request is invalid"
       else if bytes_eqb code (lit "VALIDATION_FAILED") then "input does not satisfy the configured contract"
       else if bytes_eqb code (lit "NOT_FOUND") then "capability is not available"
       else if bytes_eqb code (lit "CONFLICT") then "operation conflicts with current state"
       else if bytes_eqb code (lit "RATE_LIMITED") then "capability rate limit exceeded"
       else if bytes_eqb code (lit "BUSY") then "execution capacity is busy"
       else if bytes_eqb code (lit "EXECUTION_TIMEOUT") then "execution exceeded the configured deadline"
       else if bytes_eqb code (lit "OUTPUT_INVALID") then "output does not satisfy the configured contract"
       else if bytes_eqb code (lit "LIMIT_EXCEEDED") then "output exceeds the configured limit"
       else "capability execution failed").
(** The closure [fail]. *)
Definition fail (effects : Effects) (code : string) : ErrorValue :=
  {| Code := lit code; Message := executionMessage (lit code); Reason := []; ev_Outcome := Outcome effects |}.
(** The public error for an error of the provider. *)
Definition public_error (effects : Effects) (done : bool) (e : error) : ErrorValue :=
  match (match as_failure e with Some (code, reason) => if bool_decide (code = "OUTCOME_UNKNOWN"%string) then Some reason else None | None => None end) with
  | Some reason =>
      let v := fail effects "OUTCOME_UNKNOWN" in
      let r := {| Code := Code v; Message := Message v; Reason := lit reason; ev_Outcome := ev_Outcome v |} in
      if Validate r then r else v
  | None =>
      if done then fail effects "EXECUTION_TIMEOUT" else
      match as_output e, as_terminal e, as_failure e with
      | Some code, _, _ => fail effects code
      | None, Some (code, message), _ =>
          let v := {| Code := code; Message := message; Reason := []; ev_Outcome := Outcome effects |} in
          if HasPrefix code (lit "APP_") && Validate v then v else fail effects "EXECUTION_FAILED"
      | None, None, Some (code, reason) =>
          if HasPrefix (lit code) (lit "APP_") then fail effects "EXECUTION_FAILED" else
          let v := fail effects code in
          let r := {| Code := Code v; Message := Message v; Reason := lit reason; ev_Outcome := ev_Outcome v |} in
          if Validate r then r else fail effects "EXECUTION_FAILED"
      | None, None, None => fail effects "EXECUTION_FAILED"
      end
  end.

(* ------------------------------------------------------------------ *)
(** ** Configuration *)

Inductive provider := Database (db : database) | Foreign (transactional : bool).
(** The snapshot of a capability, with its provider. *)
Record entry := {
  en_cap : Capability; en_input : Schema; en_limits : Limits; en_hash : bytes; en_timeout : bytes; en_provider : provider
}.
Record ExecutionRequest := {
  rq_ID : bytes; rq_Capability : bytes; rq_DefinitionHash : bytes; rq_Params : list (bytes * value);
  rq_Deadline : option Z; rq_admitted : bool; rq_localOutput : bool; rq_input : bool
}.
Definition overdue (now : Z) (deadline : option Z) : bool := match deadline with Some d => negb (now <? d) | None => false end.

Section Controller.
Context {O : Type} `{!OutputWorld O} (lib : engines) (entries : bytes -> entry) (max : Z).
Abbreviation program := (prog (choice O) (world O)).

(** ** Sections *)

Definition prepared_act {B} (f : Prepared -> B * Prepared) : program B := act (fun _ w => let '(x, p) := f (w_prepared w) in (x, w <| w_prepared := p |>)).
Definition take_rate (name : bytes) (now : Z) (w : world O) : bool * world O :=
  match w_rates w !! name with
  | Some r => let '(r, allowed, _) := take r now in (allowed, w <| w_rates ::= <[name := r]> |>)
  | None => (true, w)
  end.
Definition enter (w : world O) : bool * world O := if max <=? w_active w then (false, w) else (true, w <| w_active ::= Z.add 1 |>).
Definition leave (w : world O) : world O := w <| w_active ::= fun n => n - 1 |>.
(** [req.input.Start], which numbers the use it begins unless it fails, and [ReleaseStopped] of a use. *)
Definition input_begin (call : nat) (c : choice O) (w : world O) : option nat * world O :=
  if ch_fault c then (None, w) else (Some (length (w_inputs w)), w <| w_inputs ::= fun l => l ++ [(call, false)] |>).
Definition input_release (i : nat) (c : choice O) (w : world O) : bool * world O := (ch_fault c, w <| w_inputs ::= alter (fun x => (x.1, true)) i |>).

(** ** The provider *)

(** A provider other than the database. One that publishes itself publishes at most once, closes
    what it published when it then fails, and never returns neither an output nor an error. *)
Definition foreign_execute (call : nat) (cap : Capability) (delivery transactional : bool) (effects : Effects) : program executed :=
  let> f := ask ch_foreign in
  let effects := effect_run effects (fo_before f) in
  if fo_panic f then Ret {| ex_error := []; ex_output := None; ex_result := no_result; ex_effects := effects; ex_panic := true |} else
  if negb transactional then
    Ret {| ex_error := fo_error f; ex_output := None; ex_result := default no_result (fo_result f); ex_effects := effects; ex_panic := false |} else
  match fo_result f with
  | None => Ret (ended (if failed (fo_error f) then fo_error f else [LOther]) None effects)
  | Some r =>
      let> (e, out) := publish lib call cap delivery r in
      let effects := effect_run effects (fo_after f) in
      match out with
      | None => Ret (ended (if failed e then e else [LOther]) None effects)
      | Some o => if failed (fo_error f) then let> _ := close_output o in Ret (ended (fo_error f) None effects) else Ret (ended [] (Some o) effects)
      end
  end.
(** [ExecutePublication], or [Execute] when there is none. *)
Definition provider_execute (call : nat) (e : entry) (delivery : bool) (params : list (bytes * value)) (effects : Effects) : program executed :=
  match en_provider e with
  | Database db => db_ExecutePublication lib call (en_cap e) delivery db params effects
  | Foreign transactional => foreign_execute call (en_cap e) delivery transactional effects
  end.
Definition transactional (e : entry) : bool := match en_provider e with Database _ => true | Foreign t => t end.

(** ** [Execute] *)

(** What the body leaves to the deferred functions: the named results, and whether it panics. *)
Record outcome := { oc_out : option nat; oc_failure : option ErrorValue; oc_effects : Effects; oc_panic : bool }.
Definition refused (effects : Effects) (code : string) : outcome := {| oc_out := None; oc_failure := Some (fail effects code); oc_effects := effects; oc_panic := false |}.
(** From [effects.Start()] on. *)
Definition execute_provider (call : nat) (req : ExecutionRequest) (e : entry) (params : list (bytes * value)) : program outcome :=
  let effects := effect_step no_effects OpStart in
  let delivery := negb (rq_localOutput req) in
  let> _ := act (fun _ w => (tt, w <| w_prepared ::= provider_call (rq_Capability req) |> <| w_calls ::= fun l => l ++ [(call, params)] |>)) in
  let> x := provider_execute call e delivery params effects in
  let> _ := prepared_act (fun p => (tt, provider_return (rq_Capability req) p)) in
  let effects := ex_effects x in
  if ex_panic x then Ret {| oc_out := None; oc_failure := None; oc_effects := effects; oc_panic := true |} else
  if failed (ex_error x) then
    let suppressed := (en_cap e) <| cap_Data := false |> <| cap_Files := None |> in
    let> _ := publish lib call suppressed true (ex_result x) in
    let> done := ask ch_done in
    Ret {| oc_out := None; oc_failure := Some (public_error effects done (ex_error x)); oc_effects := effects; oc_panic := false |}
  else
    let> (err, out) := (if transactional e then Ret ([], ex_output x) else publish lib call (en_cap e) delivery (ex_result x)) in
    if failed err then
      let> done := ask ch_done in
      Ret (refused effects (if done : bool then "EXECUTION_TIMEOUT" else default "OUTPUT_INVALID"%string (as_output err)))
    else
      let> done := ask ch_done in
      if done && negb (bool_decide (Outcome effects = "committed"%string)) then
        let> _ := (match out with Some o => close_output o | None => Ret tt end) in
        Ret (refused effects "EXECUTION_TIMEOUT")
      else Ret {| oc_out := out; oc_failure := None; oc_effects := effects; oc_panic := false |}.
Definition close_out (o : outcome) : program unit := match oc_out o with Some i => close_output i | None => Ret tt end.
(** With the files of the request, which are released in the end; after [Start], a failure of
    [Context] returns before the release is deferred. *)
Definition execute_input (call : nat) (req : ExecutionRequest) (e : entry) (params : list (bytes * value)) : program outcome :=
  if negb (rq_input req) then execute_provider call req e params else
  let> use := act (input_begin call) in
  match use with
  | None => Ret (refused no_effects "VALIDATION_FAILED")
  | Some i =>
      let> fault := ask ch_fault in
      if fault : bool then Ret (refused no_effects "VALIDATION_FAILED") else
      let> o := execute_provider call req e params in
      let> fault := act (input_release i) in
      if negb fault then Ret o else
      let> _ := close_out o in
      Ret (o <| oc_out := None |> <| oc_failure := Some (default (fail (oc_effects o) "EXECUTION_FAILED") (oc_failure o)) |>)
  end.
(** The deferred [recover]. *)
Definition recovered (o : outcome) : program outcome :=
  if negb (oc_panic o) then Ret o else
  let> _ := close_out o in
  let> done := ask ch_done in
  Ret {| oc_out := None; oc_failure := Some (fail (oc_effects o) (if done : bool then "EXECUTION_TIMEOUT" else "EXECUTION_FAILED")); oc_effects := oc_effects o; oc_panic := false |}.
(** With a place among the executions. *)
Definition execute_active (call : nat) (req : ExecutionRequest) (e : entry) (params : list (bytes * value)) : program outcome :=
  let> ok := act (fun _ => enter) in
  if negb ok then Ret (refused no_effects "BUSY") else
  let> done := ask ch_done in
  let> o := (if done : bool then Ret (refused no_effects "EXECUTION_TIMEOUT") else let> o := execute_input call req e params in recovered o) in
  let> _ := act (fun _ w => (tt, leave w)) in
  Ret o.
(** With a lease on the provider. *)
Definition execute_leased (call : nat) (req : ExecutionRequest) (e : entry) : program outcome :=
  if negb (bytes_eqb (rq_DefinitionHash req) []) && negb (bytes_eqb (rq_DefinitionHash req) (en_hash e)) then Ret (refused no_effects "CONFLICT") else
  match ParseDuration (en_timeout e) with
  | Err _ => Ret (refused no_effects "EXECUTION_FAILED")
  | Ok d =>
      if (d <=? 0) || (300 * 10 ^ 9 <? d) then Ret (refused no_effects "EXECUTION_FAILED") else
      match ValidateInput lib (en_input e) (rq_Params req) (en_limits e) with
      | Err _ => let> done := ask ch_done in Ret (refused no_effects (if done : bool then "EXECUTION_TIMEOUT" else "VALIDATION_FAILED"))
      | Ok (params, leaves) =>
          if existsb (fun leaf => negb (bytes_eqb (fv_RequestID (leaf_Value leaf)) (rq_ID req))) leaves then Ret (refused no_effects "VALIDATION_FAILED") else
          let> done := ask ch_done in
          if done : bool then Ret (refused no_effects "EXECUTION_TIMEOUT") else
          let> allowed := (if rq_admitted req then Ret true else act (fun c => take_rate (rq_Capability req) (ch_now c))) in
          if negb allowed then Ret (refused no_effects "RATE_LIMITED") else
          execute_active call req e params
      end
  end.
Definition Execute (call : nat) (req : ExecutionRequest) : program (option nat * option ErrorValue) :=
  let> done := ask ch_done in
  let> now := ask ch_now in
  if done || overdue now (rq_Deadline req) then Ret (None, Some (fail no_effects "EXECUTION_TIMEOUT")) else
  if bytes_eqb (rq_ID req) [] || (256 <? length (rq_ID req))%nat || negb (ValidString (rq_ID req)) then Ret (None, Some (fail no_effects "INVALID_REQUEST")) else
  let> ok := prepared_act (Acquire (rq_Capability req)) in
  if negb ok then Ret (None, Some (fail no_effects "NOT_FOUND")) else
  let> o := execute_leased call req (entries (rq_Capability req)) in
  let> _ := prepared_act (fun p => (tt, Release p)) in
  Ret (oc_out o, oc_failure o).

(** ** [Prepared.Close] *)

Fixpoint close_providers (names : list bytes) : program unit :=
  match names with
  | [] => Ret tt
  | name :: names =>
      let> _ := act (fun c w => (tt, w <| w_prepared ::= closeProvider (ch_fault c) name |>)) in
      close_providers names
  end.
Definition prepared_wait {B} (f : Prepared -> option (B * Prepared)) : program B :=
  wait (fun _ w => match f (w_prepared w) with Some (x, p) => Some (x, w <| w_prepared := p |>) | None => None end).
Definition close_prepared : program bool :=
  let> first := prepared_wait once_enter in
  let> _ := (if first : bool then
    let> _ := prepared_act (fun p => (tt, set_closing p)) in
    let> _ := prepared_wait wait_leases in
    let> names := prepared_act (fun p => (order p, p)) in
    let> _ := close_providers (rev names) in
    prepared_act (fun p => (tt, once_leave p)) else Ret tt) in
  prepared_act (fun p => (closeErr p, p)).
End Controller.
