(* ===== verification/Execution.v ===== *)
(** * Executions
    What holds for executions of [Controller] and calls of [Prepared.Close] that run together:
    the ghost state of each, the invariant, and the theorems. *)
From Stdlib Require Import ZArith Lia.
From stdpp Require Import base gmap sets list option strings relations.
From coqutil Require Import Datatypes.RecordSettersUsingExistingGetters.
From S2P Require Import Prelude GoTime Utf8 Json Canonical GoStrings InputValue ValueFormat Schema Conformance Output Publish RateLimit SqlSyntax Programs Lifecycle DbProvider Controller.
Local Open Scope Z_scope.
#[global] Arguments const {E} newValue / _.

Definition b2z (b : bool) : Z := if b then 1 else 0.
(** How far a call of [Close] is. *)
Inductive phase := Outside | Entered | Closing | Ending (closed : list bytes).
#[export] Instance phase_eq_dec : EqDecision phase.
Proof. solve_decision. Defined.
Definition closes (l : list provider_event) : list bytes := omap (fun e => match e with PClose n => Some n | _ => None end) l.
Definition calls_open (l : list provider_event) : Z := foldr (fun e z => match e with PCall _ => z + 1 | PReturn _ => z - 1 | PClose _ => z end) 0 l.
#[local] Arguments closes : simpl never.
#[local] Arguments calls_open : simpl never.
Definition is_close (e : provider_event) : bool := match e with PClose _ => true | _ => false end.

Section Execution.
Context {O : Type} `{!OutputWorld O} (lib : engines) (entries : bytes -> entry) (max : Z).

(** ** Ghost state *)

(** What belongs to one program: its lease, its place, whether it is in a call of a provider,
    its transactions, publications, inputs and connections, and the arguments it called a provider with. *)
Record ghost := {
  g_call : nat; g_lease : bool; g_slot : bool; g_in : bool; g_phase : phase; g_over : bool;   (* has seen the end of [Close] *)
  g_txs : gmap nat txstate; g_outs : gmap nat (publication O); g_inputs : gmap nat bool; g_conns : gmap nat connection; g_args : list (list (bytes * value))
}.
Definition fresh (call : nat) : ghost :=
  {| g_call := call; g_lease := false; g_slot := false; g_in := false; g_phase := Outside; g_over := false; g_txs := ∅; g_outs := ∅; g_inputs := ∅; g_conns := ∅; g_args := [] |}.
Definition total (f : ghost -> bool) (gs : list ghost) : Z := foldr (fun g z => b2z (f g) + z) 0 gs.

(** ** The invariant *)

(** The sections of [Close]. *)
Definition phase_ok (p : Prepared) (ph : phase) : Prop :=
  match ph with
  | Outside => False
  | Entered => closing p = false /\ closes (provider_log p) = []
  | Closing => closing p = true /\ closes (provider_log p) = []
  | Ending l => closing p = true /\ leases p = 0 /\ closes (provider_log p) = l /\ l `prefix_of` rev (order p)
  end.
Definition close_ok (gs : list ghost) (p : Prepared) : Prop :=
  match closeOnce p with
  | Idle => (forall g, g ∈ gs -> g_phase g = Outside) /\ closing p = false /\ closes (provider_log p) = []
  | Running => exists t g, gs !! t = Some g /\ (forall u h, u <> t -> gs !! u = Some h -> g_phase h = Outside) /\ phase_ok p (g_phase g)
  | Done => (forall g, g ∈ gs -> g_phase g = Outside) /\ closing p = true /\ leases p = 0 /\ closes (provider_log p) = rev (order p)
  end.
Record prepared_ok (names : list bytes) (gs : list ghost) (p : Prepared) : Prop := {
  po_order : order p = names;
  po_leases : leases p = total g_lease gs;
  po_log : exists a, provider_log p = a ++ (PClose <$> closes (provider_log p)) /\ closes a = [] /\ calls_open a = total g_in gs;
  po_close : close_ok gs p;
  po_over : forall g, g ∈ gs -> g_over g = true -> closeOnce p = Done
}.
Record inv (names : list bytes) (gs : list ghost) (w : world O) : Prop := {
  in_calls : forall t g, gs !! t = Some g -> g_call g = t;
  in_nested : forall g, g ∈ gs -> g_in g = true -> g_lease g = true;
  in_prepared : prepared_ok names gs (w_prepared w);
  in_active : w_active w = total g_slot gs /\ w_active w <= max;
  in_txs : forall g i s, g ∈ gs -> g_txs g !! i = Some s <-> w_txs w !! i = Some {| tx_call := g_call g; tx_state := s |};
  in_outs : forall g i pb, g ∈ gs -> g_outs g !! i = Some pb <-> w_outputs w !! i = Some pb /\ pb_call pb = g_call g;
  in_inputs : forall g i b, g ∈ gs -> g_inputs g !! i = Some b <-> w_inputs w !! i = Some (g_call g, b);
  in_conns : forall g i s, g ∈ gs -> g_conns g !! i = Some s <-> w_conns w !! i = Some (g_call g, s);
  in_args : forall g, g ∈ gs -> g_args g = omap (fun c => if decide (c.1 = g_call g) then Some c.2 else None) (w_calls w)
}.

(** The only waits: for another call of [Close], and for the leases to end. *)
Definition stuck (g : ghost) (w : world O) : Prop :=
  g_lease g = false /\ (g_phase g = Outside /\ closeOnce (w_prepared w) = Running \/ g_phase g = Closing /\ leases (w_prepared w) <> 0).

Lemma total_insert f gs t g g' : gs !! t = Some g -> total f (<[t := g']> gs) = total f gs - b2z (f g) + b2z (f g').
Proof.
  revert t. induction gs as [|h gs IH]; intros [|t] H; [done|done|injection H as ->; cbn; lia|]. specialize (IH t H).
  change (total f (<[S t := g']> (h :: gs))) with (b2z (f h) + total f (<[t := g']> gs)). change (total f (h :: gs)) with (b2z (f h) + total f gs). lia.
Qed.
Lemma total_same f gs t g g' : gs !! t = Some g -> f g' = f g -> total f (<[t := g']> gs) = total f gs.
Proof. intros Ht Hf. rewrite (total_insert _ _ _ g) by done. rewrite Hf. lia. Qed.
Lemma total_bounds f gs : 0 <= total f gs.
Proof. induction gs as [|g gs IH]; [done|]. change (total f (g :: gs)) with (b2z (f g) + total f gs). unfold b2z. destruct (f g); lia. Qed.
Lemma total_pos f gs g : g ∈ gs -> f g = true -> 1 <= total f gs.
Proof.
  induction 1 as [g gs|g h gs _ IH]; intros Hf; change (total f (?x :: gs)) with (b2z (f x) + total f gs); cbn [total foldr]; fold (total f gs); [rewrite Hf; pose proof (total_bounds f gs); cbn; lia|].
  specialize (IH Hf). unfold b2z. destruct (f h); lia.
Qed.

(** ** Updates of one program *)

Lemma insert_inv (gs : list ghost) t g' h : h ∈ <[t := g']> gs -> h = g' \/ exists u, u <> t /\ gs !! u = Some h.
Proof.
  intros [u Hu]%list_elem_of_lookup. destruct (decide (u = t)) as [->|Hne].
  - rewrite list_lookup_insert_eq in Hu by (apply lookup_lt_Some in Hu; by rewrite length_insert in Hu). left. congruence.
  - rewrite list_lookup_insert_ne in Hu by done. eauto.
Qed.
Lemma insert_outside (gs : list ghost) t g' : g_phase g' = Outside -> (forall h, h ∈ gs -> g_phase h = Outside) -> forall h, h ∈ <[t := g']> gs -> g_phase h = Outside.
Proof. intros Hg H h [->|(u & _ & Hu)]%insert_inv; [done|]. apply H, list_elem_of_lookup. eauto. Qed.
Lemma close_same gs t g g' p : gs !! t = Some g -> g_phase g' = g_phase g -> close_ok gs p -> close_ok (<[t := g']> gs) p.
Proof.
  intros Ht Hp. unfold close_ok. assert (g ∈ gs) as Hg by (apply list_elem_of_lookup; eauto). destruct (closeOnce p).
  - intros [H1 H2]. split; [|done]. apply insert_outside; [|done]. rewrite Hp. by apply H1.
  - intros (u & h & Hu & Hothers & Hm). destruct (decide (u = t)) as [->|Hne].
    + exists t, g'. replace h with g in * by congruence. rewrite list_lookup_insert_eq by (by eapply lookup_lt_Some). rewrite Hp. split_and!; try done. intros u k Hu' Hk. rewrite list_lookup_insert_ne in Hk by done. eauto.
    + exists u, h. rewrite list_lookup_insert_ne by done. split_and!; try done. intros v k Hv Hk. destruct (decide (v = t)) as [->|Hvt].
      * rewrite list_lookup_insert_eq in Hk by (by eapply lookup_lt_Some). injection Hk as <-. rewrite Hp. by apply (Hothers t).
      * rewrite list_lookup_insert_ne in Hk by done. eauto.
  - intros (H1 & H2 & H3). split; [|done]. apply insert_outside; [|done]. rewrite Hp. by apply H1.
Qed.
Lemma over_same (gs : list ghost) t g g' (P : Prop) : gs !! t = Some g -> g_over g' = g_over g -> (forall h, h ∈ gs -> g_over h = true -> P) -> forall h, h ∈ <[t := g']> gs -> g_over h = true -> P.
Proof. intros Ht E H h [->|(u & _ & Hu)]%insert_inv Hh; [apply (H g); [apply list_elem_of_lookup; eauto|congruence]|apply (H h); [apply list_elem_of_lookup; eauto|done]]. Qed.
Lemma prepared_same names gs t g g' p : gs !! t = Some g -> g_lease g' = g_lease g -> g_in g' = g_in g -> g_phase g' = g_phase g -> g_over g' = g_over g -> prepared_ok names gs p -> prepared_ok names (<[t := g']> gs) p.
Proof.
  intros Ht Hl Hi Hp Hov [H1 H2 H3 H4 H5]. split; [done| | |by eapply close_same|by eapply over_same].
  - by rewrite (total_same _ _ _ g).
  - by rewrite (total_same g_in _ _ g).
Qed.
(** What a step of the program [call] may do to a list of things that belong to programs. *)
Definition own_only {X} (owner : X -> nat) (call : nat) (l l' : list X) : Prop := forall i x, owner x <> call -> l' !! i = Some x <-> l !! i = Some x.
Lemma own_refl {X} (owner : X -> nat) call l : own_only owner call l l.
Proof. done. Qed.
Lemma own_snoc {X} (owner : X -> nat) call l x : owner x = call -> own_only owner call l (l ++ [x]).
Proof.
  intros Hx i y Hy. rewrite lookup_app. destruct (l !! i) eqn:E; [done|]. split; [|done]. rewrite list_lookup_singleton. destruct (i - length l)%nat; [|done]. naive_solver.
Qed.
Lemma own_alter {X} (owner : X -> nat) call l f i : (forall x, l !! i = Some x -> owner x = call /\ owner (f x) = call) -> own_only owner call l (alter f i l).
Proof.
  intros H j y Hy. destruct (decide (j = i)) as [->|Hne]; [|by rewrite list_lookup_alter_ne]. rewrite list_lookup_alter_eq. destruct (l !! i) as [x|] eqn:E; [|done]. destruct (H x eq_refl). cbn. naive_solver.
Qed.
Record steps_own (g g' : ghost) (w w' : world O) : Prop := {
  so_call : g_call g' = g_call g;
  so_txs : own_only tx_call (g_call g) (w_txs w) (w_txs w') /\ forall i s, g_txs g' !! i = Some s <-> w_txs w' !! i = Some {| tx_call := g_call g; tx_state := s |};
  so_outs : own_only pb_call (g_call g) (w_outputs w) (w_outputs w') /\ forall i pb, g_outs g' !! i = Some pb <-> w_outputs w' !! i = Some pb /\ pb_call pb = g_call g;
  so_inputs : own_only fst (g_call g) (w_inputs w) (w_inputs w') /\ forall i b, g_inputs g' !! i = Some b <-> w_inputs w' !! i = Some (g_call g, b);
  so_conns : own_only fst (g_call g) (w_conns w) (w_conns w') /\ forall i s, g_conns g' !! i = Some s <-> w_conns w' !! i = Some (g_call g, s);
  so_args : exists l, w_calls w' = w_calls w ++ ((fun a => (g_call g, a)) <$> l) /\ g_args g' = g_args g ++ l
}.
Lemma same_own names gs w t g : inv names gs w -> gs !! t = Some g -> forall g' w', g_call g' = g_call g -> g_txs g' = g_txs g -> g_outs g' = g_outs g -> g_inputs g' = g_inputs g -> g_conns g' = g_conns g -> g_args g' = g_args g ->
  w_txs w' = w_txs w -> w_outputs w' = w_outputs w -> w_inputs w' = w_inputs w -> w_conns w' = w_conns w -> w_calls w' = w_calls w -> steps_own g g' w w'.
Proof.
  intros [_ _ _ _ H1 H2 H3 H5 H4] Ht g' w' E1 E2 E3 E4 E6 E5 F1 F2 F3 F5 F4. assert (g ∈ gs) as Hg by (apply list_elem_of_lookup; eauto).
  split; [done|..]; rewrite ?F1, ?F2, ?F3, ?F5, ?E2, ?E3, ?E4, ?E6; try (split; [done|]; auto). exists []. rewrite F4, E5, !app_nil_r. done.
Qed.
Lemma inv_step names gs w t g g' w' : inv names gs w -> gs !! t = Some g -> steps_own g g' w w' -> (g_in g' = true -> g_lease g' = true) ->
  prepared_ok names (<[t := g']> gs) (w_prepared w') -> w_active w' = total g_slot (<[t := g']> gs) /\ w_active w' <= max -> inv names (<[t := g']> gs) w'.
Proof.
  intros [I1 I2 I3 I4 I5 I6 I7 I9 I8] Ht [S1 [S2 S2'] [S3 S3'] [S4 S4'] [S6 S6'] (l & S5 & S5')] Hn Hp Ha.
  assert (forall u h, u <> t -> gs !! u = Some h -> h ∈ gs /\ g_call h <> g_call g) as Hother.
  { intros u h Hu Hh. split; [apply list_elem_of_lookup; eauto|]. by rewrite (I1 u h), (I1 t g). }
  split; [|by intros h [->|(u & Hu & Hh)]%insert_inv Hin; [apply Hn|apply I2; [by eapply Hother|]]|done|done|..].
  - intros u h Hh. destruct (decide (u = t)) as [->|Hu].
    + rewrite list_lookup_insert_eq in Hh by (by eapply lookup_lt_Some). injection Hh as <-. rewrite S1. by apply I1.
    + rewrite list_lookup_insert_ne in Hh by done. by apply I1.
  - intros h i s [->|(u & Hu & Hh)]%insert_inv; [by rewrite S1|]. destruct (Hother u h Hu Hh) as [Hin Hne]. rewrite (I5 h i s Hin). symmetry. by apply S2.
  - intros h i s [->|(u & Hu & Hh)]%insert_inv; [by rewrite S1|]. destruct (Hother u h Hu Hh) as [Hin Hne]. rewrite (I6 h i s Hin). split; intros [E1 E2]; (split; [|done]); apply (S3 i s); congruence.
  - intros h i s [->|(u & Hu & Hh)]%insert_inv; [by rewrite S1|]. destruct (Hother u h Hu Hh) as [Hin Hne]. rewrite (I7 h i s Hin). symmetry. by apply S4.
  - intros h i s [->|(u & Hu & Hh)]%insert_inv; [by rewrite S1|]. destruct (Hother u h Hu Hh) as [Hin Hne]. rewrite (I9 h i s Hin). symmetry. by apply S6.
  - intros h [->|(u & Hu & Hh)]%insert_inv; rewrite S5, omap_app.
    + rewrite S5', S1, (I8 g) by (apply list_elem_of_lookup; eauto). f_equal. clear. induction l as [|a l IH]; [done|]. cbn. by rewrite decide_True, <- IH.
    + destruct (Hother u h Hu Hh) as [Hin Hne]. rewrite (I8 h Hin). symmetry. etrans; [|apply app_nil_r]. f_equal. clear -Hne. induction l as [|a l IH]; [done|]. cbn. by rewrite decide_False by congruence.
Qed.

(** ** Sections on [Prepared] *)

Lemma lease_held names gs t g p : prepared_ok names gs p -> gs !! t = Some g -> g_lease g = true -> 1 <= leases p /\ closes (provider_log p) = [] /\ closeOnce p <> Done.
Proof.
  intros [_ H2 _ H4 _] Ht Hg. assert (1 <= leases p) as Hl by (rewrite H2; eapply total_pos; [apply list_elem_of_lookup; eauto|done]). unfold close_ok in H4. destruct (closeOnce p); [by destruct H4 as (_ & _ & ?)| |destruct H4 as (_ & _ & ? & _); lia].
  destruct H4 as (u & h & _ & _ & Hm). split_and!; [done| |done]. unfold phase_ok in Hm. destruct (g_phase h) as [| | |l]; [done|by destruct Hm|by destruct Hm|]. destruct Hm as (_ & ? & _). lia.
Qed.
Lemma prepared_leases names gs t g g' p : prepared_ok names gs p -> gs !! t = Some g -> g_in g' = g_in g -> g_phase g' = g_phase g -> g_over g' = g_over g -> closing p = false \/ g_lease g = true -> forall n, n = leases p - b2z (g_lease g) + b2z (g_lease g') ->
  prepared_ok names (<[t := g']> gs) (p <| leases := n |>).
Proof.
  intros Hp Ht Hi Hph Hov Hc n ->. pose proof Hp as [H1 H2 H3 H4 H5]. split; [done|cbn; rewrite (total_insert _ _ _ g) by done; lia|cbn; by rewrite (total_same g_in _ _ g)| |by eapply over_same].
  eapply close_same; [done|done|]. unfold close_ok in *. cbn. destruct (closeOnce p); [done| |].
  - destruct H4 as (u & h & Hu & Ho & Hm). exists u, h. split_and!; try done. unfold phase_ok in *. destruct (g_phase h); [done..|]. destruct Hc as [Hc|Hc]; [by destruct Hm as [? _]; congruence|]. pose proof (lease_held _ _ _ _ _ Hp Ht Hc) as (? & _ & _). destruct Hm as (_ & ? & _). lia.
  - destruct Hc as [Hc|Hc]; [by destruct H4 as (_ & ? & _); congruence|]. pose proof (lease_held _ _ _ _ _ Hp Ht Hc) as (? & _ & _). destruct H4 as (_ & _ & ? & _). lia.
Qed.
Lemma closes_app a b : closes (a ++ b) = closes a ++ closes b.
Proof. apply omap_app. Qed.
Lemma calls_open_app a b : calls_open (a ++ b) = calls_open a + calls_open b.
Proof. induction a as [|e a IH]; [done|]. unfold calls_open in *. destruct e; cbn; lia. Qed.
Lemma prepared_event names gs t g g' p e : prepared_ok names gs p -> gs !! t = Some g -> g_lease g = true -> g_lease g' = true -> g_phase g' = g_phase g -> g_over g' = g_over g ->
  is_close e = false -> calls_open [e] = b2z (g_in g') - b2z (g_in g) -> prepared_ok names (<[t := g']> gs) (p <| provider_log ::= fun l => l ++ [e] |>).
Proof.
  intros Hp Ht Hl Hl' Hph Hov He Hc. pose proof (lease_held _ _ _ _ _ Hp Ht Hl) as (_ & Hn & _). destruct Hp as [H1 H2 (a & H3 & H3' & H3'') H4 H5]. rewrite Hn in H3. cbn in H3. rewrite app_nil_r in H3.
  assert (closes (provider_log p ++ [e]) = []) as Hn' by (rewrite closes_app, Hn; by destruct e). split; cbn; [done|by rewrite (total_same _ _ _ g) by congruence| | |by eapply over_same].
  - exists (a ++ [e]). rewrite Hn', H3. split_and!; [by rewrite app_nil_r|by rewrite <- H3|]. rewrite calls_open_app, (total_insert _ _ _ g) by done. lia.
  - eapply close_same; [done|done|]. unfold close_ok, phase_ok in *. cbn. rewrite Hn'. rewrite Hn in H4. done.
Qed.

(** ** Rules *)

Section Rules.
Context (names : list bytes).
Abbreviation kp p g Q := (keeps (fun _ : choice O => True) (inv names) stuck p g Q).
Lemma slots_same gs w t g g' : inv names gs w -> gs !! t = Some g -> g_slot g' = g_slot g -> w_active w = total g_slot (<[t := g']> gs) /\ w_active w <= max.
Proof. intros [_ _ _ [H1 H2] _ _ _ _ _] Ht E. split; [|done]. by rewrite (total_same _ _ _ g). Qed.
Lemma rule_prepared {B} (f : Prepared -> B * Prepared) g (Q : B -> ghost -> Prop) (upd : B -> ghost -> ghost) :
  (forall x h, g_call (upd x h) = g_call h /\ g_slot (upd x h) = g_slot h /\ g_txs (upd x h) = g_txs h /\ g_outs (upd x h) = g_outs h /\ g_inputs (upd x h) = g_inputs h /\ g_conns (upd x h) = g_conns h /\ g_args (upd x h) = g_args h) ->
  (forall t gs p, prepared_ok names gs p -> gs !! t = Some g -> (g_in g = true -> g_lease g = true) ->
    let g' := upd (f p).1 g in prepared_ok names (<[t := g']> gs) (f p).2 /\ (g_in g' = true -> g_lease g' = true) /\ Q (f p).1 g') -> kp (prepared_act f) g Q.
Proof.
  intros Hupd Hf. apply keeps_act. intros t gs w c _ Hi Ht. assert (g ∈ gs) as Hg by (apply list_elem_of_lookup; eauto). destruct (Hf t gs (w_prepared w) (in_prepared _ _ _ Hi) Ht (in_nested _ _ _ Hi g Hg)) as (H1 & H2 & H3).
  destruct (f (w_prepared w)) as [x p'] eqn:E. cbn in *. destruct (Hupd x g) as (E1 & E2 & E3 & E4 & E5 & E7 & E6). exists (upd x g). split; [|done].
  eapply inv_step; [done|done|eapply same_own; done|done|done|]. cbn. by eapply slots_same.
Qed.
Lemma rule_acquire n g (Q : bool -> ghost -> Prop) : g_lease g = false -> Q false g -> Q true (g <| g_lease := true |>) -> kp (prepared_act (Acquire n)) g Q.
Proof.
  intros Hl Hf Ht. apply (rule_prepared _ _ _ (fun ok h => if ok : bool then h <| g_lease := true |> else h)); [by intros [] h|]. intros t gs p Hp Hg Hn. unfold Acquire. destruct (has_entry p n) eqn:E; cbn.
  - split; [|done]. apply andb_true_iff in E as [E _]. apply negb_true_iff in E. change (p <| leases ::= Z.add 1 |>) with (p <| leases := 1 + leases p |>). apply (prepared_leases names gs t g); try done; [by left|]. rewrite Hl. cbn. lia.
  - by rewrite list_insert_id.
Qed.
Lemma rule_release g (Q : unit -> ghost -> Prop) : g_lease g = true -> g_in g = false -> Q tt (g <| g_lease := false |>) -> kp (prepared_act (fun p => (tt, Release p))) g Q.
Proof.
  intros Hl Hin HQ. apply (rule_prepared _ _ _ (fun _ h => h <| g_lease := false |>)); [done|]. intros t gs p Hp Hg _. cbn. split_and!; [|by rewrite Hin|done].
  change (Release p) with (p <| leases := leases p - 1 |>). apply (prepared_leases names gs t g); try done; [by right|]. rewrite Hl. cbn. lia.
Qed.
Lemma rule_return n g (Q : unit -> ghost -> Prop) : g_lease g = true -> g_in g = true -> Q tt (g <| g_in := false |>) -> kp (prepared_act (fun p => (tt, provider_return n p))) g Q.
Proof.
  intros Hl Hin HQ. apply (rule_prepared _ _ _ (fun _ h => h <| g_in := false |>)); [done|]. intros t gs p Hp Hg _. cbn. split; [|done].
  apply (prepared_event names gs t g (g <| g_in := false |>)); try done. cbn. by rewrite Hin.
Qed.
Lemma rule_call n params g (Q : unit -> ghost -> Prop) : g_lease g = true -> g_in g = false -> Q tt (g <| g_in := true |> <| g_args := g_args g ++ [params] |>) ->
  kp (act (fun _ w => (tt, w <| w_prepared ::= provider_call n |> <| w_calls ::= fun l => l ++ [(g_call g, params)] |>))) g Q.
Proof.
  intros Hl Hin HQ. apply keeps_act. intros t gs w c _ Hi Ht. exists (g <| g_in := true |> <| g_args := g_args g ++ [params] |>). split; [|done].
  eapply inv_step; [done|done| |done| |by cbn; eapply slots_same].
  - destruct (same_own _ _ _ _ _ Hi Ht g w) as [S1 S2 S3 S4 S6 S5]; try done. split; try done. by exists [params].
  - apply (prepared_event names gs t g); try done; [apply Hi|]. cbn. by rewrite Hin.
Qed.
Lemma rule_place g (Q : bool -> ghost -> Prop) : g_slot g = false -> Q false g -> Q true (g <| g_slot := true |>) -> kp (act (fun _ => enter max)) g Q.
Proof.
  intros Hs Hf Htr. apply keeps_act. intros t gs w c _ Hi Ht. unfold enter. destruct (max <=? w_active w) eqn:E; cbn; [exists g; by rewrite list_insert_id|]. exists (g <| g_slot := true |>). split; [|done].
  eapply inv_step; [done|done|by eapply same_own|by apply (in_nested _ _ _ Hi g); apply list_elem_of_lookup; eauto|eapply prepared_same; try done; apply Hi|]. cbn. destruct (in_active _ _ _ Hi) as [H1 _].
  rewrite (total_insert _ _ _ g), Hs by done. cbn. apply Z.leb_gt in E. lia.
Qed.
Lemma rule_give_place g (Q : unit -> ghost -> Prop) : g_slot g = true -> Q tt (g <| g_slot := false |>) -> kp (act (fun _ w => (tt, leave w))) g Q.
Proof.
  intros Hs HQ. apply keeps_act. intros t gs w c _ Hi Ht. exists (g <| g_slot := false |>). split; [|done].
  eapply inv_step; [done|done|by eapply same_own|by apply (in_nested _ _ _ Hi g); apply list_elem_of_lookup; eauto|eapply prepared_same; try done; apply Hi|]. cbn. destruct (in_active _ _ _ Hi) as [H1 H2].
  rewrite (total_insert _ _ _ g), Hs by done. cbn. lia.
Qed.
Lemma rule_rate n g (Q : bool -> ghost -> Prop) : (forall b, Q b g) -> kp (act (fun c => take_rate n (ch_now c))) g Q.
Proof.
  intros HQ. apply keeps_act. intros t gs w c _ Hi Ht. exists g. split; [|done]. rewrite list_insert_id by done. unfold take_rate. destruct (w_rates w !! n) as [r|]; [|done]. destruct (take r (ch_now c)) as [[r' a] b]. cbn. by destruct Hi.
Qed.

(** Sections that change what belongs to the program. *)
Lemma rule_own {B} (f : choice O -> world O -> B * world O) g (Q : B -> ghost -> Prop) :
  (forall c w, (forall i s, g_txs g !! i = Some s <-> w_txs w !! i = Some {| tx_call := g_call g; tx_state := s |}) ->
    (forall i pb, g_outs g !! i = Some pb <-> w_outputs w !! i = Some pb /\ pb_call pb = g_call g) ->
    (forall i b, g_inputs g !! i = Some b <-> w_inputs w !! i = Some (g_call g, b)) ->
    (forall i s, g_conns g !! i = Some s <-> w_conns w !! i = Some (g_call g, s)) ->
    exists g', steps_own g g' w (f c w).2 /\ g_lease g' = g_lease g /\ g_in g' = g_in g /\ g_slot g' = g_slot g /\ g_phase g' = g_phase g /\ g_over g' = g_over g /\
      w_prepared (f c w).2 = w_prepared w /\ w_active (f c w).2 = w_active w /\ Q (f c w).1 g') -> kp (act f) g Q.
Proof.
  intros H. apply keeps_act. intros t gs w c _ Hi Ht. assert (g ∈ gs) as Hg by (apply list_elem_of_lookup; eauto).
  destruct (H c w) as (g' & Hs & E1 & E2 & E3 & E4 & E7 & E5 & E6 & HQ); [intros; by apply (in_txs _ _ _ Hi)|intros; by apply (in_outs _ _ _ Hi)|intros; by apply (in_inputs _ _ _ Hi)|intros; by apply (in_conns _ _ _ Hi)|].
  exists g'. split; [|done]. eapply inv_step; [done|done|done| | |].
  - rewrite E1, E2. by apply (in_nested _ _ _ Hi).
  - rewrite E5. eapply prepared_same; try done. apply Hi.
  - rewrite E6. by eapply slots_same.
Qed.
Lemma snoc_own {X} (l : list X) i x y : (l ++ [x]) !! i = Some y <-> l !! i = Some y \/ i = length l /\ y = x.
Proof.
  rewrite lookup_app. destruct (l !! i) as [z|] eqn:E.
  - split; [by left|]. intros [?|[-> _]]; [done|]. apply lookup_lt_Some in E. lia.
  - apply lookup_ge_None in E. rewrite list_lookup_singleton. destruct (i - length l)%nat as [|k] eqn:Ek; split; naive_solver lia.
Qed.
Lemma rule_begin g (Q : option nat -> ghost -> Prop) : Q None g -> (forall i, g_txs g !! i = None -> Q None (g <| g_txs := <[i := TxOpen]> (g_txs g) |>) /\ Q (Some i) (g <| g_txs := <[i := TxOpen]> (g_txs g) |>)) -> kp (act (BeginTx (g_call g))) g Q.
Proof.
  intros H1 H2. apply rule_own. intros c w Ht Ho Hn Hk.
  assert (g_txs g !! length (w_txs w) = None) as Hnone. { apply eq_None_not_Some. intros [s Hs]. apply Ht, lookup_lt_Some in Hs. lia. }
  assert (steps_own g (g <| g_txs := <[length (w_txs w) := TxOpen]> (g_txs g) |>) w (new_tx (g_call g) w).2) as Hnew.
  { split; cbn; try done; [|by exists []; rewrite !app_nil_r]. split; [by apply own_snoc|]. intros i s. rewrite snoc_own, lookup_insert_Some, Ht. split.
    - intros [[<- <-]|[_ ?]]; [by right|by left].
    - intros [E|[-> [= ->]]]; [right|by left]. split; [|done]. apply lookup_lt_Some in E. lia. }
  destruct (H2 _ Hnone) as [Ha Hb]. unfold BeginTx. destruct (ch_fault c); [destruct (ch_lost c)|]; cbn; eauto 10.
  exists g. split_and!; try done. split; try done. by exists []; rewrite !app_nil_r.
Qed.
Lemma set_tx_own g i s s' w : (forall i s, g_txs g !! i = Some s <-> w_txs w !! i = Some {| tx_call := g_call g; tx_state := s |}) ->
  (forall i pb, g_outs g !! i = Some pb <-> w_outputs w !! i = Some pb /\ pb_call pb = g_call g) -> (forall i b, g_inputs g !! i = Some b <-> w_inputs w !! i = Some (g_call g, b)) ->
  (forall i s, g_conns g !! i = Some s <-> w_conns w !! i = Some (g_call g, s)) -> g_txs g !! i = Some s -> steps_own g (g <| g_txs := <[i := s']> (g_txs g) |>) w (set_tx i s' w).
Proof.
  intros Ht Ho Hn Hk Hi. pose proof (proj1 (Ht i s) Hi) as Hw. split; cbn; try done; [|by exists []; rewrite !app_nil_r]. split.
  - apply own_alter. intros x Hx. rewrite Hw in Hx. by injection Hx as <-.
  - intros j r. destruct (decide (j = i)) as [->|Hne]; [|by rewrite lookup_insert_ne, list_lookup_alter_ne by done]. rewrite lookup_insert_eq, list_lookup_alter_eq, Hw. cbn. split; [by intros [= <-]|by intros [= ->]].
Qed.
Lemma set_tx_same i t (w : world O) : w_txs w !! i = Some t -> set_tx i (tx_state t) w = w.
Proof.
  intros E. destruct w as [a b r l k o ca n]. cbn in E. unfold set_tx, set. cbn. f_equal. apply list_eq. intros j. destruct (decide (j = i)) as [->|Hne]; [|by rewrite list_lookup_alter_ne]. rewrite list_lookup_alter_eq, E. by destruct t.
Qed.
Lemma rule_tx {B} (f : choice O -> world O -> B * world O) i s g (Q : B -> ghost -> Prop) : g_txs g !! i = Some s ->
  (forall c w, state_of i w = s -> is_Some (w_txs w !! i) -> exists s', (f c w).2 = set_tx i s' w /\ Q (f c w).1 (g <| g_txs := <[i := s']> (g_txs g) |>)) -> kp (act f) g Q.
Proof.
  intros Hi H. apply rule_own. intros c w Ht Ho Hn Hk. pose proof (proj1 (Ht i s) Hi) as Hw. destruct (H c w) as (s' & E & HQ); [unfold state_of; by rewrite Hw|eauto|].
  exists (g <| g_txs := <[i := s']> (g_txs g) |>). split_and!; try done; [|by rewrite E..]. rewrite E. by eapply set_tx_own.
Qed.
Abbreviation with_tx g i s := (g <| g_txs := <[i := s]> (g_txs g) |>).
Lemma settle_cases (c : choice O) i (w : world O) : state_of i w = TxOpen -> is_Some (w_txs w !! i) -> settle c i w = w /\ state_of i (settle c i w) = TxOpen \/ settle c i w = set_tx i TxRolledBack w /\ state_of i (settle c i w) = TxRolledBack.
Proof.
  intros Hs [t Ht]. unfold settle. destruct (ch_gone c && bool_decide (state_of i w = TxOpen)); [right|by left]. split; [done|]. unfold state_of, set_tx. cbn. by rewrite list_lookup_alter_eq, Ht.
Qed.
Lemma set_tx_open i (w : world O) : state_of i w = TxOpen -> is_Some (w_txs w !! i) -> w = set_tx i TxOpen w.
Proof. intros Hs [t Ht]. unfold state_of in Hs. rewrite Ht in Hs. cbn in Hs. rewrite <- Hs. by rewrite set_tx_same. Qed.
Lemma rule_exec i g (Q : bool -> ghost -> Prop) : g_txs g !! i = Some TxOpen -> (forall b, Q b (with_tx g i TxOpen) /\ Q b (with_tx g i TxRolledBack)) -> kp (act (ExecContext i)) g Q.
Proof.
  intros Hi HQ. eapply rule_tx; [exact Hi|]. intros c w Hs Ht. cbn. destruct (settle_cases c i w Hs Ht) as [[E _]|[E _]]; rewrite E.
  - exists TxOpen. split; [by apply set_tx_open|apply HQ].
  - exists TxRolledBack. split; [done|apply HQ].
Qed.
Lemma rule_canceled driver i g (Q : unit -> ghost -> Prop) : g_txs g !! i = Some TxOpen -> (forall s, s = TxOpen \/ s = TxRolledBack -> Q tt (with_tx g i s)) -> kp (canceled_tx driver i) g Q.
Proof.
  intros Hi HQ. eapply rule_tx; [exact Hi|]. intros c w Hs Ht. cbn [fst snd]. destruct (is_oracle driver); [exists TxOpen; split; [by apply set_tx_open|auto]|].
  destruct (settle_cases c i w Hs Ht) as [[E _]|[E _]]; rewrite E; [exists TxOpen; split; [by apply set_tx_open|auto]|exists TxRolledBack; auto].
Qed.
(** A transaction that may have been given up. *)
Abbreviation unsettled g i := (g_txs g !! i = Some TxOpen \/ g_txs g !! i = Some TxRolledBack).
Lemma rule_commit i g (Q : option tx_error -> ghost -> Prop) : unsettled g i -> Q None (with_tx g i TxCommitted) -> (forall e s, Q (Some e) (with_tx g i s)) -> kp (act (Commit i)) g Q.
Proof.
  intros Hi H1 H2. destruct Hi as [Hi|Hi]; (eapply rule_tx; [exact Hi|]); intros c w Hs Ht; unfold Commit.
  - destruct (settle_cases c i w Hs Ht) as [[E E']|[E E']]; rewrite E'; [|by rewrite E; eauto]. destruct (ch_fault c); [destruct (ch_lost c)|]; cbn [fst snd]; rewrite E; [by eauto| |by eauto]. exists TxOpen. split; [by apply set_tx_open|apply H2].
  - assert (settle c i w = w) as -> by (unfold settle; rewrite Hs; cbn; by rewrite andb_false_r). rewrite Hs. cbn [fst snd]. exists TxRolledBack. split; [|done]. destruct Ht as [t Ht]. unfold state_of in Hs. rewrite Ht in Hs. cbn in Hs. rewrite <- Hs. by rewrite set_tx_same.
Qed.
Lemma rule_rollback i g (Q : option tx_error -> ghost -> Prop) : unsettled g i -> (forall e, Q e (with_tx g i TxRolledBack)) -> (forall e, Q (Some e) (with_tx g i TxOpen)) -> kp (act (Rollback i)) g Q.
Proof.
  intros Hi H1 H2. destruct Hi as [Hi|Hi]; (eapply rule_tx; [exact Hi|]); intros c w Hs Ht; unfold Rollback.
  - destruct (settle_cases c i w Hs Ht) as [[E E']|[E E']]; rewrite E'; [|by rewrite E; eauto]. destruct (ch_fault c); [destruct (ch_lost c)|]; cbn [fst snd]; rewrite E; [by eauto| |by eauto]. exists TxOpen. split; [by apply set_tx_open|apply H2].
  - assert (settle c i w = w) as -> by (unfold settle; rewrite Hs; cbn; by rewrite andb_false_r). rewrite Hs. cbn [fst snd]. exists TxRolledBack. split; [|done]. destruct Ht as [t Ht]. unfold state_of in Hs. rewrite Ht in Hs. cbn in Hs. rewrite <- Hs. by rewrite set_tx_same.
Qed.

(** Publications and inputs. *)
Definition published_as (g : ghost) (source : ProviderResult) (s : @pstate O) (r : result PreparedOutput) : publication O :=
  {| pb_call := g_call g; pb_source := source; pb_state := s; pb_output := match r with Ok o => Some o | Err _ => None end |}.
Lemma rule_publish cap delivery source g (Q : error * option nat -> ghost -> Prop) :
  (forall o i s r, g_outs g !! i = None -> processOutput lib {| p_world := o; p_log := [] |} cap source delivery = (s, r) ->
    Q (match r with Ok _ => ([], Some i) | Err e => (output_error e, None) end) (g <| g_outs := <[i := published_as g source s r]> (g_outs g) |>)) -> kp (publish lib (g_call g) cap delivery source) g Q.
Proof.
  intros HQ. apply rule_own. intros c w Ht Ho Hn Hk. destruct (processOutput lib _ cap source delivery) as [s r] eqn:E. cbn.
  assert (g_outs g !! length (w_outputs w) = None) as Hnone. { apply eq_None_not_Some. intros [x [Hx _]%Ho]. apply lookup_lt_Some in Hx. lia. }
  exists (g <| g_outs := <[length (w_outputs w) := published_as g source s r]> (g_outs g) |>). split_and!; try done; [|by apply (HQ (ch_output c))].
  split; cbn; try done; [|by exists []; rewrite !app_nil_r]. split; [by apply own_snoc|]. intros i pb. rewrite snoc_own, lookup_insert_Some, Ho. split.
  - intros [[<- <-]|[_ [? ?]]]; [split; [by right|done]|split; [by left|done]].
  - intros [[F|[-> ->]] Hc]; [right|by left]. split; [|done]. apply lookup_lt_Some in F. lia.
Qed.
Lemma close_publication_call pb : pb_call (close_publication pb) = pb_call pb.
Proof. unfold close_publication. destruct (pb_output pb); [|done]. by destruct (Close _ _). Qed.
Lemma rule_close_output i pb g (Q : unit -> ghost -> Prop) : g_outs g !! i = Some pb -> Q tt (g <| g_outs := <[i := close_publication pb]> (g_outs g) |>) -> kp (close_output i) g Q.
Proof.
  intros Hi HQ. apply rule_own. intros c w Ht Ho Hn Hk. exists (g <| g_outs := <[i := close_publication pb]> (g_outs g) |>). split_and!; try done. pose proof (proj1 (Ho i pb) Hi) as [Hw Hc].
  split; cbn; try done; [|by exists []; rewrite !app_nil_r]. split.
  - apply own_alter. intros x Hx. rewrite Hw in Hx. injection Hx as <-. by rewrite close_publication_call.
  - intros j x. destruct (decide (j = i)) as [->|Hne]; [|by rewrite lookup_insert_ne, list_lookup_alter_ne by done]. rewrite lookup_insert_eq, list_lookup_alter_eq, Hw. cbn. split; [|by intros [[= ->] _]]. intros [= <-]. by rewrite close_publication_call.
Qed.
Lemma rule_input_begin g (Q : option nat -> ghost -> Prop) : Q None g -> (forall i, g_inputs g !! i = None -> Q (Some i) (g <| g_inputs := <[i := false]> (g_inputs g) |>)) ->
  kp (act (input_begin (g_call g))) g Q.
Proof.
  intros H0 HQ. apply rule_own. intros c w Ht Ho Hn Hk. unfold input_begin. destruct (ch_fault c).
  { exists g. split_and!; try done. split; cbn; try done; [by split; [apply own_refl|]..|by exists []; rewrite !app_nil_r]. }
  assert (g_inputs g !! length (w_inputs w) = None) as Hnone. { apply eq_None_not_Some. intros [x Hx%Hn]. apply lookup_lt_Some in Hx. lia. }
  exists (g <| g_inputs := <[length (w_inputs w) := false]> (g_inputs g) |>). split_and!; try done; [|by apply HQ].
  split; cbn; try done; [|by exists []; rewrite !app_nil_r]. split; [by apply own_snoc|]. intros i b. rewrite snoc_own, lookup_insert_Some, Hn. split.
  - intros [[<- <-]|[_ ?]]; [by right|by left].
  - intros [F|[-> [= ->]]]; [right|by left]. split; [|done]. apply lookup_lt_Some in F. lia.
Qed.
Lemma rule_input_release i b g (Q : bool -> ghost -> Prop) : g_inputs g !! i = Some b -> (forall e, Q e (g <| g_inputs := <[i := true]> (g_inputs g) |>)) -> kp (act (input_release i)) g Q.
Proof.
  intros Hi HQ. apply rule_own. intros c w Ht Ho Hn Hk. exists (g <| g_inputs := <[i := true]> (g_inputs g) |>). split_and!; try done. pose proof (proj1 (Hn i b) Hi) as Hw.
  split; cbn; try done; [|by exists []; rewrite !app_nil_r]. split.
  - apply own_alter. intros x Hx. rewrite Hw in Hx. by injection Hx as <-.
  - intros j x. destruct (decide (j = i)) as [->|Hne]; [|by rewrite lookup_insert_ne, list_lookup_alter_ne by done]. rewrite lookup_insert_eq, list_lookup_alter_eq, Hw. cbn. split; [by intros [= <-]|by intros [= <-]].
Qed.
(** Connections. *)
Lemma rule_conn g (Q : option nat -> ghost -> Prop) : Q None g -> (forall i, g_conns g !! i = None -> Q (Some i) (g <| g_conns := <[i := InUse]> (g_conns g) |>)) ->
  kp (act (Conn (g_call g))) g Q.
Proof.
  intros H0 HQ. apply rule_own. intros c w Ht Ho Hn Hk. unfold Conn. destruct (ch_fault c).
  { exists g. split_and!; try done. split; cbn; try done; [by split; [apply own_refl|]..|by exists []; rewrite !app_nil_r]. }
  assert (g_conns g !! length (w_conns w) = None) as Hnone. { apply eq_None_not_Some. intros [x Hx%Hk]. apply lookup_lt_Some in Hx. lia. }
  exists (g <| g_conns := <[length (w_conns w) := InUse]> (g_conns g) |>). split_and!; try done; [|by apply HQ].
  split; cbn; try done; [|by exists []; rewrite !app_nil_r]. split; [by apply own_snoc|]. intros i b. rewrite snoc_own, lookup_insert_Some, Hk. split.
  - intros [[<- <-]|[_ ?]]; [by right|by left].
  - intros [F|[-> [= ->]]]; [right|by left]. split; [|done]. apply lookup_lt_Some in F. lia.
Qed.
Lemma rule_conn_Close i s discard g (Q : unit -> ghost -> Prop) : g_conns g !! i = Some s ->
  (forall s', s' <> InUse -> Q tt (g <| g_conns := <[i := s']> (g_conns g) |>)) -> kp (act (fun _ w => (tt, conn_Close i discard w))) g Q.
Proof.
  intros Hi HQ. apply rule_own. intros c w Ht Ho Hn Hk. set (s' := if discard then Discarded else Returned). exists (g <| g_conns := <[i := s']> (g_conns g) |>).
  assert (s' <> InUse) as Hs by (unfold s'; by destruct discard). split_and!; try done; [|by apply HQ]. pose proof (proj1 (Hk i s) Hi) as Hw. split; cbn; try done; [|by exists []; rewrite !app_nil_r]. split.
  - apply own_alter. intros x Hx. rewrite Hw in Hx. by injection Hx as <-.
  - intros j x. destruct (decide (j = i)) as [->|Hne]; [|by rewrite lookup_insert_ne, list_lookup_alter_ne by done]. rewrite lookup_insert_eq, list_lookup_alter_eq, Hw. cbn. split; [by intros [= <-]|by intros [= <-]].
Qed.
End Rules.
End Execution.
