(* ===== verification/ExecutionRuns.v ===== *)
(** * Runs of executions
    The programs of [DbProvider] and [Controller] keep the invariant of [Execution], and what
    they leave when they return. *)
From Stdlib Require Import ZArith Lia.
From stdpp Require Import base gmap sets list option strings relations.
From coqutil Require Import Datatypes.RecordSettersUsingExistingGetters.
From S2P Require Import Prelude GoTime Utf8 Json Canonical GoStrings InputValue ValueFormat Schema Conformance Output Publish RateLimit SqlSyntax Programs Lifecycle DbProvider Controller Execution.
Local Open Scope Z_scope.
#[global] Arguments const {E} newValue / _.
#[local] Arguments closes : simpl never.
#[local] Arguments calls_open : simpl never.

Section Runs.
Context {O : Type} `{!OutputWorld O} (lib : engines) (entries : bytes -> entry) (max : Z) (names : list bytes).
Abbreviation kp p g Q := (keeps (fun _ : choice O => True) (inv max names) stuck p g Q).
Abbreviation ghost := (@ghost O).

(** ** What is left behind *)

(** The readers of the source are closed once. *)
Definition drained (pb : publication O) : Prop := NoDup (sources_closed (p_log (pb_state pb))) /\ forall i, i ∈ sources_closed (p_log (pb_state pb)) <-> closable (ps_Files (pb_source pb)) i.
(** All stages and readers were given back, or none and closing would. *)
Definition handed_back (pb : publication O) : Prop := given_back (p_log (pb_state pb)).
Definition still_open (pb : publication O) : Prop :=
  is_Some (pb_output pb) /\ aborted (p_log (pb_state pb)) = [] /\ readers_closed (p_log (pb_state pb)) = [] /\ drained (close_publication pb) /\ handed_back (close_publication pb).
(** Every publication is closed, up to the one that is the result. *)
Definition settled (g : ghost) (result : option nat) : Prop :=
  (forall i pb, g_outs g !! i = Some pb -> drained pb /\ (handed_back pb \/ result = Some i /\ still_open pb)) /\ (forall i, result = Some i -> exists pb, g_outs g !! i = Some pb /\ still_open pb).
Definition committed (g : ghost) : Prop := exists i, g_txs g !! i = Some TxCommitted /\ forall j, g_txs g !! j = Some TxCommitted -> j = i.
Definition uncommitted (g : ghost) : Prop := forall j, g_txs g !! j <> Some TxCommitted.
(** The outcome that is told agrees with the server. *)
Definition truthful (o : string) (g : ghost) : Prop :=
  (o = "committed"%string -> committed g) /\ (o = "no_change"%string \/ o = "rolled_back"%string \/ o = "not_started"%string -> uncommitted g).
Record loose (g g' : ghost) : Prop := {
  lo_call : g_call g' = g_call g; lo_lease : g_lease g' = g_lease g; lo_slot : g_slot g' = g_slot g; lo_in : g_in g' = g_in g;
  lo_phase : g_phase g' = g_phase g; lo_over : g_over g' = g_over g; lo_inputs : g_inputs g' = g_inputs g; lo_args : g_args g' = g_args g
}.
Lemma loose_refl g : loose g g.
Proof. done. Qed.
Lemma loose_trans g1 g2 g3 : loose g1 g2 -> loose g2 g3 -> loose g1 g3.
Proof. intros [] []. split; congruence. Qed.
Lemma loose_txs g g' txs : loose g g' -> loose g (g' <| g_txs := txs |>).
Proof. by intros []. Qed.
Lemma loose_outs g g' outs : loose g g' -> loose g (g' <| g_outs := outs |>).
Proof. by intros []. Qed.
Lemma loose_conns g g' conns : loose g g' -> loose g (g' <| g_conns := conns |>).
Proof. by intros []. Qed.
Hint Resolve loose_refl loose_txs loose_outs loose_conns : core.
(** No connection is in use, or one. *)
Definition free (g : ghost) : Prop := forall i s, g_conns g !! i = Some s -> s <> InUse.
Definition holds (g : ghost) (i : nat) : Prop := g_conns g !! i = Some InUse /\ forall j s, j <> i -> g_conns g !! j = Some s -> s <> InUse.
(** The same, and no connection is left in use. *)
Record frame (g g' : ghost) : Prop := { fr_loose : loose g g'; fr_free : free g -> free g' }.
Lemma frame_same g : frame g g.
Proof. done. Qed.
Lemma frame_outs g g' outs : frame g g' -> frame g (g' <| g_outs := outs |>).
Proof. intros [H1 H2]. split; [by apply loose_outs|done]. Qed.
Hint Resolve frame_same frame_outs : core.

Definition bounded (c : Capability) : Prop := 0 <= policyInt c "max_output_file_bytes" /\ 0 <= policyInt c "max_total_output_file_bytes".
Lemma publication_facts o c source delivery s r g : bounded c -> processOutput lib {| p_world := o; p_log := [] |} c source delivery = (s, r) ->
  drained (published_as g source s r) /\ match r with Ok _ => still_open (published_as g source s r) | Err _ => handed_back (published_as g source s r) end.
Proof.
  intros [Hp1 Hp2] E. destruct (processOutput_outcome _ _ _ _ _ _ _ E Hp1 Hp2) as (q & [B1 B2 B3] & Hall & Hr). destruct (sources_all _ q B2 Hall) as [Hnd Hcl]. destruct (close_gives_back q B1) as [Hg Hsc].
  unfold drained, still_open, handed_back, published_as, close_publication. destruct r as [x|e]; cbn in *.
  - destruct Hr as [-> ->]. split; [done|]. split; [done|]. split; [apply B1|]. split; [by apply (B3 eq_refl)|]. destruct (Close (q_s q) (q_ready q)) as [s' o'] eqn:Ec. cbn in Hsc, Hg. unfold set, drained. cbn. by rewrite Hsc.
  - subst s. rewrite Hsc. done.
Qed.
(** Without files there is nothing to give back. *)
Lemma suppressed_facts o c source delivery s r g : bounded c -> cap_Files c = None -> processOutput lib {| p_world := o; p_log := [] |} c source delivery = (s, r) -> handed_back (published_as g source s r).
Proof.
  intros Hc Hn E. pose proof (publication_facts o c source delivery s r g Hc E) as [_ Hr]. destruct Hc as [Hp1 Hp2]. destruct r as [x|e]; [|done]. destruct (processOutput_outcome _ _ _ _ _ _ _ E Hp1 Hp2) as (q & [B1 _ B3] & _ & -> & ->).
  destruct (B3 eq_refl) as ([C1 _ _ _] & _ & proj & _ & Hf). unfold files_of in Hf. rewrite Hn in Hf. rewrite Hf in C1. apply Forall2_nil_inv_l in C1. unfold handed_back, given_back, published_as. cbn. rewrite (ho_begun _ B1), (ho_aborted _ B1), Hf.
  split; [done|]. rewrite (ho_readers _ B1), C1. by rewrite app_nil_r.
Qed.
Lemma settled_add g i pb result : settled g None -> g_outs g !! i = None -> drained pb -> (if result : bool then still_open pb else handed_back pb) ->
  settled (g <| g_outs := <[i := pb]> (g_outs g) |>) (if result then Some i else None).
Proof.
  intros [H1 _] Hi Hd Hr. split.
  - intros j x. cbn. rewrite lookup_insert_Some. intros [[<- <-]|[Hne Hx]]; [split; [done|]; destruct result; auto|]. destruct (H1 j x Hx) as [? [?|[? _]]]; [auto|done].
  - intros j E. destruct result; [|done]. injection E as <-. exists pb. cbn. by rewrite lookup_insert_eq.
Qed.
Lemma settled_close g i pb : settled g (Some i) -> g_outs g !! i = Some pb -> settled (g <| g_outs := <[i := close_publication pb]> (g_outs g) |>) None.
Proof.
  intros [H1 H2] Hi. split; [|done]. intros j x. cbn. rewrite lookup_insert_Some. intros [[<- <-]|[Hne Hx]].
  - destruct (H2 i eq_refl) as (pb' & Hpb & (_ & _ & _ & ? & ?)). rewrite Hi in Hpb. injection Hpb as <-. auto.
  - destruct (H1 j x Hx) as [? [?|[[= ->] _]]]; [auto|done].
Qed.
(** Publishing, and closing what was published. *)
Lemma publish_keeps call c delivery source g (Q : error * option nat -> ghost -> Prop) : g_call g = call -> bounded c -> settled g None ->
  (forall e outs, e <> [] -> settled (g <| g_outs := outs |>) None -> Q (e, None) (g <| g_outs := outs |>)) ->
  (forall i outs, settled (g <| g_outs := outs |>) (Some i) -> Q ([], Some i) (g <| g_outs := outs |>)) -> kp (publish lib call c delivery source) g Q.
Proof.
  intros <- Hc Hs He Hok. apply rule_publish. intros o i s r Hi E. destruct (publication_facts _ _ _ _ _ _ g Hc E) as [Hd Hr]. destruct r as [x|e].
  - exact (Hok i (<[i := published_as g source s (Ok x)]> (g_outs g)) (settled_add g i _ true Hs Hi Hd Hr)).
  - refine (He _ (<[i := published_as g source s (Err e)]> (g_outs g)) _ (settled_add g i _ false Hs Hi Hd Hr)). unfold output_error. by destruct (_ || _).
Qed.
Lemma suppressed_keeps call c source g (Q : error * option nat -> ghost -> Prop) : g_call g = call -> bounded c -> cap_Files c = None -> settled g None ->
  (forall x outs, settled (g <| g_outs := outs |>) None -> Q x (g <| g_outs := outs |>)) -> kp (publish lib call c true source) g Q.
Proof.
  intros <- Hc Hn Hs HQ. apply rule_publish. intros o i s r Hi E. pose proof (suppressed_facts _ _ _ _ _ _ g Hc Hn E) as Hb. destruct (publication_facts _ _ _ _ _ _ g Hc E) as [Hd _].
  apply (HQ _ (<[i := published_as g source s r]> (g_outs g))). by apply (settled_add g i _ false).
Qed.
Lemma close_keeps i g (Q : unit -> ghost -> Prop) : settled g (Some i) -> (forall outs, settled (g <| g_outs := outs |>) None -> Q tt (g <| g_outs := outs |>)) -> kp (close_output i) g Q.
Proof.
  intros Hs HQ. destruct (proj2 Hs i eq_refl) as (pb & Hpb & _). eapply rule_close_output; [exact Hpb|]. exact (HQ (<[i := close_publication pb]> (g_outs g)) (settled_close g i pb Hs Hpb)).
Qed.

Lemma settled_none g g' result : g_outs g' = g_outs g -> settled g result -> settled g' result.
Proof. unfold settled. by intros ->. Qed.
Lemma conn_keeps g (Q : option nat -> ghost -> Prop) : free g -> Q None g -> (forall i conns, holds (g <| g_conns := conns |>) i -> Q (Some i) (g <| g_conns := conns |>)) ->
  kp (act (Conn (g_call g))) g Q.
Proof.
  intros Hf H0 HQ. apply rule_conn; [done|]. intros i Hi. apply (HQ i (<[i := InUse]> (g_conns g))). unfold holds. cbn. rewrite lookup_insert_eq. split; [done|].
  intros j s Hj. rewrite lookup_insert_ne by done. apply Hf.
Qed.
Lemma close_conn_keeps i discard g (Q : unit -> ghost -> Prop) : holds g i -> (forall conns, free (g <| g_conns := conns |>) -> Q tt (g <| g_conns := conns |>)) ->
  kp (act (fun _ w => (tt, conn_Close i discard w))) g Q.
Proof.
  intros [H1 H2] HQ. eapply rule_conn_Close; [exact H1|]. intros s' Hs. apply (HQ (<[i := s']> (g_conns g))). intros j s. cbn.
  rewrite lookup_insert_Some. intros [[_ <-]|[Hj Hl]]; [done|]. by eapply H2.
Qed.

(** ** The database provider *)

Lemma db_failure_keeps e g (Q : error -> ghost -> Prop) : e <> [] -> (forall e', e' <> [] -> Q e' g) -> kp (db_failure e) g Q.
Proof.
  intros He HQ. unfold db_failure. destruct (as_output e); [by apply HQ|]. apply keeps_bind, keeps_ask. intros c _. apply keeps_bind, keeps_ask. intros c' _. by apply HQ.
Qed.
(** Whether there is an output; only transactional providers publish. *)
Definition has_output (tr : bool) (x : executed) : Prop := is_Some (ex_output x) <-> tr = true /\ ex_error x = [] /\ ex_panic x = false.
(** What a provider that was called in the state [g] leaves. *)
Record provider_post (sel : bool) (g : ghost) (x : executed) (g' : ghost) : Prop := {
  pp_loose : loose g g';
  pp_settled : settled g' (ex_output x);
  pp_free : free g';
  pp_output : has_output true x;
  pp_success : ex_error x = [] -> Outcome (ex_effects x) = if sel then "no_change"%string else "committed"%string;
  pp_truth : truthful (Outcome (ex_effects x)) g'
}.
Lemma no_output e x tr : ex_output x = None -> ex_error x = e -> e <> [] -> has_output tr x.
Proof. unfold has_output. intros -> -> He. split; [by intros [? ?]|]. by intros (_ & ? & _). Qed.
(** One effect, with its state. *)
Definition one_effect (e : effect) : Effects := {| started := true; noChange := false; operations := [e] |}.
Lemma truthful_uncommitted o g : o <> "committed"%string -> uncommitted g -> truthful o g.
Proof. intros H1 H2. by split. Qed.
Lemma truthful_unknown g : truthful "unknown" g.
Proof. split; [done|]. by intros [?|[?|?]]. Qed.
Abbreviation tx_only g i s := (g_txs g = <[i := s]> (∅ : gmap nat txstate)).
Lemma tx_only_uncommitted g i s : tx_only g i s -> s <> TxCommitted -> uncommitted g.
Proof. intros E Hs j. rewrite E, lookup_insert_Some. intros [[_ ?]|[_ ?%lookup_empty_Some]]; done. Qed.
Lemma tx_only_committed g i : tx_only g i TxCommitted -> committed g.
Proof. intros E. exists i. rewrite E, lookup_insert_eq. split; [done|]. intros j. rewrite lookup_insert_Some. intros [[-> _]|[_ ?%lookup_empty_Some]]; done. Qed.
Lemma rollback_keeps g0 g m discard cause : loose g0 g -> settled g None -> cause <> [] -> holds g (mt_conn m) -> tx_only g (mt_tx m) TxOpen \/ tx_only g (mt_tx m) TxRolledBack ->
  kp (rollback m discard 0 (one_effect EUnknown) cause) g (provider_post false g0).
Proof.
  intros Hf Hs Hc Hh Ht. unfold rollback, rollbackMutation. apply keeps_bind, keeps_bind. apply rule_rollback.
  { destruct Ht as [-> | ->]; rewrite lookup_insert_eq; auto. }
  - intros e. assert (tx_only (g <| g_txs := <[mt_tx m := TxRolledBack]> (g_txs g) |>) (mt_tx m) TxRolledBack) as E by (cbn; destruct Ht as [-> | ->]; by rewrite insert_insert_eq).
    destruct e as [[]|]; apply keeps_ret; [rewrite decide_False by done; apply keeps_bind, close_conn_keeps; [done|]; intros conns Hfree; apply keeps_ret; split; [auto|exact Hs|done|by eapply no_output|done|apply truthful_unknown]..|].
    rewrite decide_True by done. apply keeps_bind, close_conn_keeps; [done|]. intros conns Hfree. apply keeps_ret. split; [auto|exact Hs|done|by eapply no_output|done|]. apply truthful_uncommitted; [done|]. exact (tx_only_uncommitted _ _ _ E ltac:(done)).
  - intros e. destruct e; apply keeps_ret; rewrite decide_False by done; apply keeps_bind, close_conn_keeps; [done| |done|]; intros conns Hfree; apply keeps_ret; (split; [auto|exact Hs|done|by eapply no_output|done|apply truthful_unknown]).
Qed.
Lemma watch_keeps v g (Q : gate -> ghost -> Prop) : (forall v', Q v' g) -> kp (watch v) g Q.
Proof. intros HQ. apply keeps_bind, keeps_ask. intros c _. apply keeps_ret, HQ. Qed.
Lemma begin_keeps driver call g (Q : option mutationTx * beginState * error -> ghost -> Prop) : g_call g = call -> g_txs g = ∅ -> free g ->
  (forall st e g', e <> [] -> st = beginNotStarted \/ st = beginOutcomeUnknown -> loose g g' -> g_outs g' = g_outs g -> uncommitted g' -> free g' -> Q (None, st, e) g') ->
  (forall st e m g', st = beginStarted /\ tx_only g' (mt_tx m) TxOpen \/ st = beginCanceledWithTx /\ (tx_only g' (mt_tx m) TxOpen \/ tx_only g' (mt_tx m) TxRolledBack) ->
    loose g g' -> g_outs g' = g_outs g -> holds g' (mt_conn m) -> Q (Some m, st, e) g') -> kp (beginMutationTx driver call) g Q.
Proof.
  intros <- Ht Hf H1 H2. assert (forall g' : ghost, g_txs g' = ∅ -> uncommitted g') as Hu by (intros g' E j; by rewrite E, lookup_empty).
  unfold beginMutationTx. apply keeps_bind, conn_keeps; [done|apply keeps_ret, H1; auto|]. intros k conns Hk. apply keeps_bind, watch_keeps. intros v. apply keeps_bind, keeps_ask. intros c1 _.
  assert (forall v2 (g' : ghost), loose g g' -> g_outs g' = g_outs g -> uncommitted g' -> holds g' k ->
    kp (prog_bind (act (fun _ w => (tt, conn_Close k (bool_decide (v2 = Canceled)) w))) (fun _ => Ret (None, if bool_decide (v2 = Canceled) then beginOutcomeUnknown else beginNotStarted, [LOther]))) g' Q) as Hno.
  { intros v2 g' F E U H. apply keeps_bind, close_conn_keeps; [done|]. intros conns' Hfree. apply keeps_ret, H1; auto. destruct (bool_decide _); auto. }
  apply keeps_bind. change (g_call g) with (g_call (g <| g_conns := conns |>)). apply rule_begin.
  - apply keeps_bind, watch_keeps. intros v2. apply Hno; auto.
  - intros i _. change (g_txs (g <| g_conns := conns |>)) with (g_txs g). rewrite Ht. set (g' := _ <| g_txs := _ |>). assert (tx_only g' i TxOpen) as Hi by done.
    assert (loose g g' /\ g_outs g' = g_outs g /\ holds g' k) as (F & Eo & Hh) by (split; [by apply loose_txs, loose_conns|done]). clearbody g'.
    split; apply keeps_bind, watch_keeps; intros v2; [apply Hno; try done; by eapply tx_only_uncommitted|]. destruct (swap Started v2) as [v3 []]; [apply keeps_ret, H2; auto|].
    apply keeps_bind. apply rule_canceled; [by rewrite Hi, lookup_insert_eq|]. intros s Hs. apply keeps_ret, H2; auto.
    right. split; [done|]. destruct Hs as [-> | ->]; [left|right]; cbn; by rewrite Hi, insert_insert_eq.
Qed.
Lemma conclude_keeps call g0 g m c delivery db b s : g_call g = call -> s = TxOpen \/ s = TxRolledBack -> loose g0 g -> settled g None -> bounded c -> holds g (mt_conn m) -> tx_only g (mt_tx m) s ->
  kp (conclude lib call c delivery db m 0 (one_effect EUnknown) b) g (provider_post false g0).
Proof.
  intros Hcall Hst Hf Hs Hc Hh Ht. unfold conclude. assert (forall cause g2, loose g0 g2 -> settled g2 None -> holds g2 (mt_conn m) -> tx_only g2 (mt_tx m) s -> cause <> [] -> kp (rollback m false 0 (one_effect EUnknown) cause) g2 (provider_post false g0)) as Hrb.
  { intros cause g2 F S Hh2 T Hne. apply rollback_keeps; try done. destruct Hst as [-> | ->]; auto. }
  assert (forall g2, loose g0 g2 -> settled g2 None -> holds g2 (mt_conn m) -> tx_only g2 (mt_tx m) s -> kp (prog_bind (db_failure [LOther]) (fun e => rollback m false 0 (one_effect EUnknown) e)) g2 (provider_post false g0)) as Hfail.
  { intros g2 F S Hh2 T. apply keeps_bind, db_failure_keeps; [done|]. intros e He. by apply Hrb. }
  destruct b; [by apply Hfail|]. apply keeps_bind, keeps_ask. intros ch _. destruct (ch_count ch) as [count|]; [|by apply Hfail]. destruct (count <? 0); [by apply Hfail|].
  destruct (match db_max_affected db with Some limit => limit <? count | None => false end); [by apply Hrb|]. apply keeps_bind, publish_keeps; [done|done|done| |].
  { intros e outs He S. apply Hrb; auto. }
  intros o outs S. apply keeps_bind, keeps_ask. intros ch2 _. destruct (ch_done ch2).
  { apply keeps_bind, close_keeps; [exact S|]. intros outs2 S2. apply Hfail; auto. }
  apply keeps_bind, rule_commit; [cbn; rewrite Ht, lookup_insert_eq; destruct Hst as [-> | ->]; auto| |].
  - apply keeps_bind, close_conn_keeps; [exact Hh|]. intros conns Hfree. apply keeps_ret. split; [auto|exact S|done|by split|done|]. split; [|by intros [?|[?|?]]]. intros _. apply (tx_only_committed _ (mt_tx m)). cbn. by rewrite Ht, insert_insert_eq.
  - intros e s'. apply keeps_bind, close_keeps; [exact S|]. intros outs2 S2. apply keeps_bind, close_conn_keeps; [exact Hh|]. intros conns Hfree. apply keeps_ret. split; [auto|exact S2|done|by eapply no_output|done|apply truthful_unknown].
Qed.
Lemma mutate_keeps call g0 g m c delivery db : g_call g = call -> loose g0 g -> settled g None -> bounded c -> holds g (mt_conn m) -> tx_only g (mt_tx m) TxOpen ->
  kp (mutate lib call c delivery db m 0 (one_effect EUnknown)) g (provider_post false g0).
Proof.
  intros Hcall Hf Hs Hc Hh Ht. apply keeps_bind, rule_exec; [by rewrite Ht, lookup_insert_eq|]. intros b. split; [apply (conclude_keeps _ _ _ _ _ _ _ _ TxOpen)|apply (conclude_keeps _ _ _ _ _ _ _ _ TxRolledBack)]; auto; cbn; by rewrite Ht, insert_insert_eq.
Qed.
Abbreviation begun_effects := (effect_step no_effects OpStart).
Lemma db_keeps call g c delivery db input : g_call g = call -> settled g None -> free g -> bounded c -> g_txs g = ∅ ->
  kp (db_ExecutePublication lib call c delivery db input begun_effects) g (provider_post (db_select db) g).
Proof.
  intros Hcall Hs Hfr Hc Ht. assert (forall o g', loose g g' -> g_txs g' = ∅ -> o <> "committed"%string -> truthful o g') as Htr.
  { intros o g' _ E Ho. apply truthful_uncommitted; [done|]. intros j. by rewrite E, lookup_empty. }
  unfold db_ExecutePublication. destruct (db_select db).
  - destruct (buildSQL _ _ _); [|by apply keeps_ret; split; [auto|done|done|by eapply no_output|done|by apply Htr]]. apply keeps_bind, keeps_ask. intros ch _. destruct (ch_fault ch).
    { apply keeps_bind, db_failure_keeps; [done|]. intros e He. apply keeps_ret. split; [auto|done|done|by eapply no_output|done|by apply Htr]. }
    apply keeps_bind, keeps_ask. intros ch2 _. apply keeps_bind, publish_keeps; try done.
    + intros e outs He S. apply keeps_ret. split; [auto|exact S|done|by eapply no_output|by intros E; destruct He|]. apply Htr; auto.
    + intros i outs S. apply keeps_ret. split; [auto|exact S|done|by split|done|]. apply Htr; auto.
  - destruct (buildSQL _ _ _); [|by apply keeps_ret; split; [auto|done|done|by eapply no_output|done|by apply Htr]]. apply keeps_bind, begin_keeps; [done|done|done| |].
    + intros st e g' He Hst F Eo Hu Hfree. pose proof (settled_none _ _ _ Eo Hs) as S. destruct Hst as [-> | ->]; repeat (case_decide; try done).
      * apply keeps_bind, db_failure_keeps; [done|]. intros e' He'. apply keeps_ret. split; [auto|exact S|done|by eapply no_output|done|]. by apply truthful_uncommitted.
      * apply keeps_ret. split; [auto|exact S|done|by eapply no_output|done|apply truthful_unknown].
    + intros st e m g' Hst F Eo Hh. pose proof (settled_none _ _ _ Eo Hs) as S. assert (g_call g' = call) as Hcall' by (by rewrite (lo_call _ _ F)).
      destruct Hst as [[-> Hi]|[-> Hi]]; repeat (case_decide; try done).
      * by apply mutate_keeps.
      * apply keeps_bind, db_failure_keeps; [done|]. intros e' He'. by apply rollback_keeps.
Qed.

(** ** Other providers *)

Lemma foreign_keeps call g c delivery tr : g_call g = call -> settled g None -> bounded c -> g_txs g = ∅ ->
  kp (foreign_execute lib call c delivery tr begun_effects) g (fun x g' => frame g g' /\ settled g' (ex_output x) /\ has_output tr x /\ g_txs g' = ∅).
Proof.
  intros Hcall Hs Hc Ht. unfold foreign_execute. apply keeps_bind, keeps_ask. intros ch _. destruct (fo_panic (ch_foreign ch)).
  { apply keeps_ret. split_and!; auto. unfold has_output. cbn. split; [by intros [? ?]|by intros (_ & _ & ?)]. }
  destruct tr; cbn [negb].
  - destruct (fo_result (ch_foreign ch)) as [r|]; cycle 1.
    { apply keeps_ret. split_and!; auto. eapply no_output; [done|done|]. cbn. by destruct (fo_error (ch_foreign ch)). }
    apply keeps_bind, publish_keeps; [done|done|done| |].
    + intros e outs He S. apply keeps_ret. split_and!; auto. eapply no_output; [done|done|]. cbn. by destruct e.
    + intros i outs S. destruct (failed (fo_error (ch_foreign ch))) eqn:E.
      * apply keeps_bind, close_keeps; [exact S|]. intros outs2 S2. apply keeps_ret. split_and!; auto. eapply no_output; [done|done|]. cbn. by destruct (fo_error (ch_foreign ch)).
      * apply keeps_ret. split_and!; auto. by split.
  - apply keeps_ret. split_and!; auto. unfold has_output. cbn. split; [by intros [? ?]|by intros [? _]].
Qed.

(** ** [Execute] *)

Lemma public_error_outcome effects done e : ev_Outcome (public_error effects done e) = Outcome effects.
Proof.
  unfold public_error. repeat (case_match; try done); cbn; try done.
Qed.
Definition is_mutation (e : entry) : bool := match en_provider e with Database db => negb (db_select db) | Foreign _ => false end.
Definition is_database (e : entry) : bool := match en_provider e with Database _ => true | Foreign _ => false end.
(** What the body of an execution leaves to the deferred functions. *)
Record body_post (e : entry) (o : outcome) (g : ghost) : Prop := {
  bp_settled : settled g (oc_out o);
  bp_panic : oc_panic o = true -> oc_out o = None;
  bp_failure : forall f, oc_failure o = Some f -> oc_out o = None /\ ev_Outcome f = Outcome (oc_effects o);
  bp_success : oc_failure o = None -> oc_panic o = false -> is_Some (oc_out o) /\ (is_mutation e = true -> committed g);
  bp_truth : is_database e = true -> truthful (Outcome (oc_effects o)) g
}.
(** The part of [provider_post] that all providers have. *)
Lemma provider_keeps call g e delivery params : g_call g = call -> settled g None -> free g -> bounded (en_cap e) -> g_txs g = ∅ ->
  kp (provider_execute lib call e delivery params begun_effects) g (fun x g' => frame g g' /\ settled g' (ex_output x) /\ has_output (transactional e) x /\
    (is_database e = true -> truthful (Outcome (ex_effects x)) g') /\ (is_mutation e = true -> ex_error x = [] -> ex_panic x = false -> Outcome (ex_effects x) = "committed"%string)).
Proof.
  intros Hcall Hs Hfr Hc Ht. unfold provider_execute, transactional, is_database, is_mutation. destruct (en_provider e) as [db|tr].
  - eapply keeps_mono; [by apply db_keeps|]. intros x g' [P1 P2 P0 P3 P4 P5]. split_and!; try done. intros Hm Hx _. rewrite (P4 Hx). by destruct (db_select db).
  - eapply keeps_mono; [by apply foreign_keeps|]. intros x g' (P1 & P2 & P3 & P4). by split_and!.
Qed.
Lemma truthful_txs o g g' : g_txs g' = g_txs g -> truthful o g -> truthful o g'.
Proof. unfold truthful, committed, uncommitted. by intros ->. Qed.
Lemma committed_truth g : truthful "committed" g -> committed g.
Proof. intros [H _]. by apply H. Qed.
Lemma execute_provider_keeps call req g e params : g_call g = call -> g_lease g = true -> g_in g = false -> settled g None -> free g -> bounded (en_cap e) -> g_txs g = ∅ ->
  kp (execute_provider lib call req e params) g (fun o g' => frame (g <| g_args := g_args g ++ [params] |>) g' /\ body_post e o g').
Proof.
  intros Hcall Hl Hin Hs Hfr Hc Ht. unfold execute_provider. rewrite <- Hcall. apply keeps_bind, rule_call; [done|done|]. set (g1 := g <| g_in := true |> <| g_args := g_args g ++ [params] |>).
  apply keeps_bind. eapply keeps_mono; [by apply (provider_keeps (g_call g) g1)|]. intros x g2 (Hf & S2 & Hout & Htr & Hcm).
  apply keeps_bind, rule_return; [by rewrite (lo_lease _ _ (fr_loose _ _ Hf))|by rewrite (lo_in _ _ (fr_loose _ _ Hf))|]. set (g3 := g2 <| g_in := false |>).
  assert (frame (g <| g_args := g_args g ++ [params] |>) g3) as Hf3 by (destruct Hf as [[] Hf2]; split; [split; cbn in *; congruence|exact Hf2]).
  assert (g_call g3 = g_call g) as Hc3 by apply (fr_loose _ _ Hf3). assert (settled g3 (ex_output x)) as S3 by exact S2. assert (is_database e = true -> truthful (Outcome (ex_effects x)) g3) as Ht3 by exact Htr. clearbody g3. clear S2 Htr Hf.
  destruct (ex_panic x) eqn:Ep.
  { assert (ex_output x = None) as En by (destruct (ex_output x) eqn:E; [|done]; destruct (proj1 Hout ltac:(rewrite E; eauto)) as (_ & _ & ?); congruence). rewrite En in S3. apply keeps_ret. split; [done|]. by split. }
  destruct (failed (ex_error x)) eqn:Ee.
  { assert (ex_error x <> []) as Hne by (by destruct (ex_error x)). assert (ex_output x = None) as En by (destruct (ex_output x) eqn:E; [|done]; destruct (proj1 Hout ltac:(rewrite E; eauto)) as (_ & ? & _); congruence). rewrite En in S3.
    assert (forall outs, settled (g3 <| g_outs := outs |>) None -> kp (prog_bind (ask ch_done) (fun done => Ret {| oc_out := None; oc_failure := Some (public_error (ex_effects x) done (ex_error x)); oc_effects := ex_effects x; oc_panic := false |})) (g3 <| g_outs := outs |>) (fun o g' => frame (g <| g_args := g_args g ++ [params] |>) g' /\ body_post e o g')) as Hfin.
    { intros outs S. apply keeps_bind, keeps_ask. intros ch _. apply keeps_ret. split; [auto|]. split; [exact S|done| |done|done]. intros f [= <-]. split; [done|apply public_error_outcome]. }
    apply keeps_bind, suppressed_keeps; [done|exact Hc|done|exact S3|]. intros er outs S. by apply Hfin. }
  assert (ex_error x = []) as E0 by (by destruct (ex_error x)).
  assert (forall out (g4 : ghost), frame (g <| g_args := g_args g ++ [params] |>) g4 -> settled g4 (Some out) -> g_txs g4 = g_txs g3 ->
    kp (prog_bind (ask ch_done) (fun done => if done && negb (bool_decide (Outcome (ex_effects x) = "committed"%string)) then
        prog_bind (close_output out) (fun _ => Ret (refused (ex_effects x) "EXECUTION_TIMEOUT"))
      else Ret {| oc_out := Some out; oc_failure := None; oc_effects := ex_effects x; oc_panic := false |})) g4 (fun o g' => frame (g <| g_args := g_args g ++ [params] |>) g' /\ body_post e o g')) as Hfin.
  { intros out g4 F4 S4 T4. apply keeps_bind, keeps_ask. intros ch _. destruct (_ && _).
    - apply keeps_bind, close_keeps; [exact S4|]. intros outs S. apply keeps_ret. split; [auto|]. split; [exact S|done|by intros f [= <-]|done|]. intros Hd. eapply truthful_txs; [|by apply Ht3]. exact T4.
    - apply keeps_ret. split; [done|]. split; [done|done|done| |]; cbn.
      + intros _ _. split; [eauto|]. intros Hm. apply committed_truth. eapply truthful_txs; [exact T4|]. rewrite <- (Hcm Hm E0 eq_refl). apply Ht3. unfold is_mutation in Hm. unfold is_database. by destruct (en_provider e).
      + intros Hd. eapply truthful_txs; [exact T4|by apply Ht3]. }
  apply keeps_bind. destruct (transactional e) eqn:Etr.
  - apply keeps_ret. cbn [failed]. destruct (proj2 Hout ltac:(done)) as [out Eo]. rewrite Eo in S3 |- *. by apply Hfin.
  - assert (ex_output x = None) as En by (destruct (ex_output x) eqn:E; [|done]; by destruct (proj1 Hout ltac:(rewrite E; eauto))). rewrite En in S3. apply publish_keeps; [done|done|done| |].
    + intros er outs Her S. destruct er as [|l er]; [done|]. cbn [failed]. apply keeps_bind, keeps_ask. intros ch _. apply keeps_ret. split; [auto|]. split; [exact S|done|by intros f [= <-]|done|]. intros Hd. unfold is_database, transactional in *. by destruct (en_provider e).
    + intros i outs S. cbn [failed]. apply Hfin; auto.
Qed.

(** The files whose use a program began are released, unless it failed before the provider. *)
Definition released (failure : option ErrorValue) (g : ghost) : Prop :=
  forall i b, g_inputs g !! i = Some b -> b = true \/ g_args g = [] /\ failure = Some (fail no_effects "VALIDATION_FAILED").
(** A program between its lease and its release, from the state [g], with what it fails with:
    it may have called the provider with arguments in [valid]. *)
Record inside (valid : list (bytes * value) -> Prop) (failure : option ErrorValue) (g g' : ghost) : Prop := {
  is_call : g_call g' = g_call g; is_lease : g_lease g' = g_lease g; is_slot : g_slot g' = g_slot g; is_in : g_in g' = g_in g; is_phase : g_phase g' = g_phase g;
  is_inputs : released failure g'; is_free : free g';
  is_args : g_args g' = [] \/ exists a, g_args g' = [a] /\ valid a
}.
(** A program that has done nothing but take its lease and its place. *)
Record untouched (call : nat) (g : ghost) : Prop := {
  un_call : g_call g = call; un_in : g_in g = false; un_phase : g_phase g = Outside;
  un_txs : g_txs g = ∅; un_outs : g_outs g = ∅; un_inputs : g_inputs g = ∅; un_conns : g_conns g = ∅; un_args : g_args g = []
}.
Lemma untouched_settled call g : untouched call g -> settled g None.
Proof. intros H. split; [|done]. intros i pb. by rewrite (un_outs _ _ H), lookup_empty. Qed.
Lemma untouched_free call g : untouched call g -> free g.
Proof. intros H i s. by rewrite (un_conns _ _ H), lookup_empty. Qed.
Lemma untouched_inside valid failure call g : untouched call g -> inside valid failure g g.
Proof. intros H. split; try done; [|by eapply untouched_free|left; apply H]. intros i b. by rewrite (un_inputs _ _ H), lookup_empty. Qed.
Lemma untouched_truth call g o : untouched call g -> o <> "committed"%string -> truthful o g.
Proof. intros H Ho. apply truthful_uncommitted; [done|]. intros j. by rewrite (un_txs _ _ H), lookup_empty. Qed.
Lemma refused_post call g e code : untouched call g -> body_post e (refused no_effects code) g.
Proof. intros H. split; [by eapply untouched_settled|done|by intros f [= <-]|done|]. intros _. by eapply untouched_truth. Qed.
Lemma execute_input_keeps (valid : list (bytes * value) -> Prop) call req g e params : untouched call g -> g_lease g = true -> bounded (en_cap e) -> valid params ->
  kp (execute_input lib call req e params) g (fun o g' => (forall f, oc_panic o = true \/ f = oc_failure o -> inside valid f g g') /\ body_post e o g').
Proof.
  intros Hu Hl Hc Hv. unfold execute_input. destruct (rq_input req); cbn [negb]; cycle 1.
  { eapply keeps_mono; [apply execute_provider_keeps; try apply Hu; try done; [by eapply untouched_settled|by eapply untouched_free]|]. intros o g' [[[F1 F2 F3 F4 F5 F0 F6 F7] F8] Hb]. split; [|done]. intros f _. split; try done.
    - intros i b. rewrite F6. cbn. by rewrite (un_inputs _ _ Hu), lookup_empty.
    - apply F8. exact (untouched_free _ _ Hu).
    - right. exists params. split; [|done]. rewrite F7. cbn. by rewrite (un_args _ _ Hu). }
  rewrite <- (un_call _ _ Hu). apply keeps_bind, rule_input_begin.
  { apply keeps_ret. split; [intros f _; by eapply untouched_inside|by eapply refused_post]. }
  intros i _. rewrite (un_inputs _ _ Hu). set (g1 := g <| g_inputs := <[i := false]> ∅ |>). apply keeps_bind, keeps_ask. intros ch _. destruct (ch_fault ch).
  { apply keeps_ret. split; [|destruct (refused_post call g e "VALIDATION_FAILED" Hu); by split]. intros f [?| ->]; [done|]. split; try done; [|exact (untouched_free _ _ Hu)|left; exact (un_args _ _ Hu)]. intros j b _. right. split; [exact (un_args _ _ Hu)|done]. }
  apply keeps_bind. eapply keeps_mono; [apply (execute_provider_keeps (g_call g) req g1); try done; [apply Hu|exact (untouched_settled _ _ Hu)|exact (untouched_free _ _ Hu)|apply Hu]|].
  intros o g2 [[[F1 F2 F3 F4 F5 F0 F6 F7] F8] Hb]. apply keeps_bind. eapply rule_input_release; [rewrite F6; cbn; by rewrite lookup_insert_eq|]. intros fault. set (g3 := g2 <| g_inputs := <[i := true]> (g_inputs g2) |>).
  assert (forall f, inside valid f g g3) as Hin.
  { intros f. split; try done; cbn.
    - intros j b. cbn. rewrite F6. cbn. rewrite insert_insert_eq, lookup_insert_Some, lookup_empty. intros [[_ <-]|[_ ?]]; [by left|done].
    - apply F8. exact (untouched_free _ _ Hu).
    - right. exists params. split; [|done]. rewrite F7. cbn. by rewrite (un_args _ _ Hu). }
  assert (body_post e o g3) as Hb3 by (destruct Hb; by split). clearbody g3. destruct fault; cbn [negb]; [|by apply keeps_ret].
  assert (forall g4 : ghost, (forall f, inside valid f g g4) -> settled g4 None -> g_txs g4 = g_txs g3 -> (forall f, oc_panic o = true \/ f = Some (default (fail (oc_effects o) "EXECUTION_FAILED") (oc_failure o)) -> inside valid f g g4) /\
    body_post e (o <| oc_out := None |> <| oc_failure := Some (default (fail (oc_effects o) "EXECUTION_FAILED") (oc_failure o)) |>) g4) as Hfin.
  { intros g4 H4 S4 T4. split; [done|]. split; [done|done| |done|].
    - intros f [= <-]. split; [done|]. destruct (oc_failure o) as [f|] eqn:Ef; [|done]. by apply (bp_failure _ _ _ Hb3).
    - intros Hd. eapply truthful_txs; [exact T4|]. by apply (bp_truth _ _ _ Hb3). }
  apply keeps_bind. unfold close_out. pose proof (bp_settled _ _ _ Hb3) as S3. destruct (oc_out o) as [out|] eqn:Eo.
  - apply close_keeps; [done|]. intros outs S. apply keeps_ret. apply Hfin; [|done|done]. intros f. destruct (Hin f). by split.
  - apply keeps_ret, keeps_ret. by apply Hfin.
Qed.
Lemma recovered_keeps valid g0 g e o : (forall f, oc_panic o = true \/ f = oc_failure o -> inside valid f g0 g) -> body_post e o g ->
  kp (recovered o) g (fun o g' => inside valid (oc_failure o) g0 g' /\ body_post e o g' /\ oc_panic o = false).
Proof.
  intros Hin Hb. unfold recovered. destruct (oc_panic o) eqn:Ep; cbn [negb]; [|apply keeps_ret; auto]. unfold close_out. rewrite (bp_panic _ _ _ Hb Ep). apply keeps_bind, keeps_ret. apply keeps_bind, keeps_ask. intros ch _. apply keeps_ret.
  split; [auto|]. split; [|done]. destruct Hb as [B1 B2 B3 B4 B5]. rewrite (B2 Ep) in B1. split; [done|done|by intros f [= <-]|done|done].
Qed.
Lemma execute_active_keeps (valid : list (bytes * value) -> Prop) call req g e params : untouched call g -> g_lease g = true -> g_slot g = false -> bounded (en_cap e) -> valid params ->
  kp (execute_active lib max call req e params) g (fun o g' => inside valid (oc_failure o) g g' /\ body_post e o g' /\ oc_panic o = false).
Proof.
  intros Hu Hl Hs Hc Hv. unfold execute_active. apply keeps_bind, rule_place; [done|..].
  - apply keeps_ret. split; [by eapply untouched_inside|]. split; [by eapply refused_post|done].
  - set (g1 := g <| g_slot := true |>). assert (untouched call g1) as Hu1 by (destruct Hu; by split). apply keeps_bind, keeps_ask. intros ch _. apply keeps_bind.
    eapply (keeps_mono _ _ _ _ _ (fun o g' => inside valid (oc_failure o) g1 g' /\ body_post e o g' /\ oc_panic o = false)).
    + destruct (ch_done ch); [apply keeps_ret; split; [by eapply untouched_inside|]; split; [by eapply refused_post|done]|]. apply keeps_bind. eapply keeps_mono; [by apply (execute_input_keeps valid)|]. intros o g' [H1 H2]. by eapply recovered_keeps.
    + intros o g' (Hin & Hb & Hp). apply keeps_bind, rule_give_place; [by rewrite (is_slot _ _ _ _ Hin)|]. apply keeps_ret. split; [|split; [|done]].
      * destruct Hin as [I1 I2 I3 I4 I5 I6 I8 I7]. split; try done.
      * destruct Hb. by split.
Qed.

(** Arguments that a provider may be called with for a request. *)
Definition admissible (req : ExecutionRequest) (params : list (bytes * value)) : Prop :=
  let e := entries (rq_Capability req) in
  (exists leaves, ValidateInput lib (en_input e) (rq_Params req) (en_limits e) = Ok (params, leaves) /\ Forall (fun leaf => fv_RequestID (leaf_Value leaf) = rq_ID req) leaves) /\
  (rq_DefinitionHash req = [] \/ rq_DefinitionHash req = en_hash e).
Lemma execute_leased_keeps call req g : let e := entries (rq_Capability req) in untouched call g -> g_lease g = true -> g_slot g = false -> bounded (en_cap e) ->
  kp (execute_leased lib max call req e) g (fun o g' => inside (admissible req) (oc_failure o) g g' /\ body_post e o g' /\ oc_panic o = false).
Proof.
  intros e Hu Hl Hs Hc. assert (forall code, inside (admissible req) (oc_failure (refused no_effects code)) g g /\ body_post e (refused no_effects code) g /\ oc_panic (refused no_effects code) = false) as Href.
  { intros code. split; [by eapply untouched_inside|]. split; [by eapply refused_post|done]. }
  unfold execute_leased. destruct (_ && _) eqn:Eh; [by apply keeps_ret|]. destruct (ParseDuration (en_timeout e)) as [d|]; [|by apply keeps_ret]. destruct (_ || _); [by apply keeps_ret|].
  destruct (ValidateInput lib (en_input e) (rq_Params req) (en_limits e)) as [[params leaves]|] eqn:Ev; [|apply keeps_bind, keeps_ask; intros; by apply keeps_ret].
  destruct (existsb _ leaves) eqn:Ex; [by apply keeps_ret|]. apply keeps_bind, keeps_ask. intros ch _. destruct (ch_done ch); [by apply keeps_ret|]. apply keeps_bind.
  assert (admissible req params) as Had.
  { split.
    - exists leaves. split; [done|]. apply Forall_forall. intros l Hin. apply not_true_iff_false in Ex. destruct (bytes_eqb (fv_RequestID (leaf_Value l)) (rq_ID req)) eqn:E; [by apply bytes_eqb_true|]. destruct Ex. apply existsb_exists. exists l. rewrite E. split; [by apply list_elem_of_In|done].
    - apply andb_false_iff in Eh as [E|E]; apply negb_false_iff, bytes_eqb_true in E; auto. }
  assert (forall ok : bool, kp (if negb ok then Ret (refused no_effects "RATE_LIMITED") else execute_active lib max call req e params) g (fun o g' => inside (admissible req) (oc_failure o) g g' /\ body_post e o g' /\ oc_panic o = false)) as Hrest.
  { intros [|]; cbn [negb]; [by apply (execute_active_keeps (admissible req))|by apply keeps_ret]. }
  destruct (rq_admitted req); [apply keeps_ret, (Hrest true)|]. by apply rule_rate.
Qed.
(** What an execution leaves when it returns. *)
Record returned (req : ExecutionRequest) (call : nat) (r : option nat * option ErrorValue) (g : ghost) : Prop := {
  re_call : g_call g = call; re_lease : g_lease g = false; re_slot : g_slot g = false; re_in : g_in g = false; re_phase : g_phase g = Outside;
  re_inputs : released r.2 g; re_free : free g;
  re_args : g_args g = [] \/ exists a, g_args g = [a] /\ admissible req a;
  re_settled : settled g r.1;
  re_one : is_Some r.1 <-> r.2 = None;
  re_truth : is_database (entries (rq_Capability req)) = true -> forall f, r.2 = Some f -> truthful (ev_Outcome f) g;
  re_success : is_mutation (entries (rq_Capability req)) = true -> r.2 = None -> committed g
}.
Lemma Execute_keeps call req : bounded (en_cap (entries (rq_Capability req))) -> kp (Execute lib entries max call req) (fresh call) (returned req call).
Proof.
  intros Hc. assert (untouched call (@fresh O call)) as Hu by done. assert (forall code, returned req call (None, Some (fail no_effects code)) (fresh call)) as Href.
  { intros code. split; try done; [by left|by split; [intros [? ?]|]|]. intros _ f [= <-]. by eapply untouched_truth. }
  unfold Execute. apply keeps_bind, keeps_ask. intros ch _. apply keeps_bind, keeps_ask. intros ch2 _. destruct (_ || overdue _ _); [by apply keeps_ret|]. destruct (_ || _); [by apply keeps_ret|].
  apply keeps_bind, rule_acquire; [done|by apply keeps_ret|]. cbn [negb]. set (g1 := (fresh call) <| g_lease := true |>). apply keeps_bind.
  eapply keeps_mono; [by apply (execute_leased_keeps call req g1)|]. intros o g2 ([I1 I2 I3 I4 I5 I6 I8 I7] & [B1 B2 B3 B4 B5] & Hp). apply keeps_bind, rule_release; [done|done|]. apply keeps_ret.
  split; try done; cbn.
  - destruct (oc_failure o) as [f|] eqn:Ef; [destruct (B3 f eq_refl) as [-> _]; by split; [intros [? ?]|]|]. split; [done|]. intros _. by apply B4.
  - intros Hd f Hf. destruct (B3 f Hf) as [_ ->]. by apply B5.
  - intros Hm Hf. by apply B4.
Qed.

(** ** [Prepared.Close] *)

Lemma running gs p t (g : ghost) : close_ok gs p -> gs !! t = Some g -> g_phase g <> Outside ->
  closeOnce p = Running /\ (forall u h, u <> t -> gs !! u = Some h -> g_phase h = Outside) /\ phase_ok p (g_phase g).
Proof.
  unfold close_ok. intros H Ht Hne. assert (g ∈ gs) as Hg by (apply list_elem_of_lookup; eauto). destruct (closeOnce p); [by destruct H as [H _]; rewrite H in Hne| |by destruct H as [H _]; rewrite H in Hne].
  destruct H as (u & h & Hu & Ho & Hm). destruct (decide (u = t)) as [->|Hut]; [|by rewrite (Ho t g) in Hne]. rewrite Hu in Ht. by injection Ht as ->.
Qed.
(** A step of [Close] that goes on to another phase. *)
Lemma running_step gs t (g g' : ghost) p' : gs !! t = Some g -> (forall u h, u <> t -> gs !! u = Some h -> g_phase h = Outside) -> closeOnce p' = Running -> phase_ok p' (g_phase g') -> close_ok (<[t := g']> gs) p'.
Proof.
  intros Ht Ho Hr Hm. unfold close_ok. rewrite Hr. exists t, g'. rewrite list_lookup_insert_eq by (by eapply lookup_lt_Some). split_and!; try done. intros u h Hu Hh. rewrite list_lookup_insert_ne in Hh by done. eauto.
Qed.
Definition moved (g : ghost) (ph : phase) (over : bool) : ghost := g <| g_phase := ph |> <| g_over := over |>.
Lemma prepared_phase gs t (g : ghost) ph ov p p' : prepared_ok names gs p -> gs !! t = Some g -> order p' = order p -> leases p' = leases p -> (closeOnce p = Done -> closeOnce p' = Done) ->
  (ov = true -> g_over g = true \/ closeOnce p' = Done) -> (exists ns, provider_log p' = provider_log p ++ (PClose <$> ns)) -> close_ok (<[t := moved g ph ov]> gs) p' -> prepared_ok names (<[t := moved g ph ov]> gs) p'.
Proof.
  intros [H1 H2 (a & H3 & H3' & H3'') _ H5] Ht E1 E2 Ed Eo [ns E3] Hc. assert (closes (PClose <$> ns) = ns) as Hns by (clear; induction ns as [|n ns IH]; [done|]; change (n :: closes (PClose <$> ns) = n :: ns); by rewrite IH). split; [congruence|by rewrite E2, H2, (total_same _ _ _ g)| |done|].
  - exists a. split_and!; [|done|by rewrite (total_same _ _ _ g)]. rewrite E3, closes_app, Hns, fmap_app, app_assoc. by rewrite <- H3.
  - intros h [->|(u & _ & Hu)]%insert_inv Hh; [destruct (Eo Hh) as [Hg|?]; [|done]; apply Ed, (H5 g); [apply list_elem_of_lookup; eauto|done]|]. apply Ed, (H5 h); [apply list_elem_of_lookup; eauto|done].
Qed.
Lemma rule_prepared_wait {B} (f : Prepared -> option (B * Prepared)) g (Q : B -> ghost -> Prop) (upd : B -> phase * bool) : g_in g = false ->
  (forall t gs p x p', prepared_ok names gs p -> gs !! t = Some g -> f p = Some (x, p') -> prepared_ok names (<[t := moved g (upd x).1 (upd x).2]> gs) p' /\ Q x (moved g (upd x).1 (upd x).2)) ->
  (forall w : world O, f (w_prepared w) = None -> stuck g w) -> kp (prepared_wait f) g Q.
Proof.
  intros Hin Hf Hst. apply keeps_wait; [|intros t gs w c _ _ _ Hx; apply Hst; by destruct (f (w_prepared w)) as [[? ?]|]]. intros t gs w c x w' _ Hi Ht Hx. destruct (f (w_prepared w)) as [[y p']|] eqn:E; [|done]. injection Hx as -> <-.
  destruct (Hf t gs _ x p' (in_prepared _ _ _ _ Hi) Ht E) as [H1 H2]. exists (moved g (upd x).1 (upd x).2). split; [|done]. eapply inv_step; [done|done|by eapply same_own|cbn; by rewrite Hin|done|]. cbn. by eapply slots_same.
Qed.
Lemma once_keeps g (Q : bool -> ghost -> Prop) : g_lease g = false -> g_in g = false -> g_phase g = Outside -> Q true (moved g Entered (g_over g)) -> Q false (moved g Outside true) -> kp (prepared_wait once_enter) g Q.
Proof.
  intros Hl Hin Hp H1 H2. apply (rule_prepared_wait _ _ _ (fun b => if b : bool then (Entered, g_over g) else (Outside, true))); [done| |intros w Hx; split; [done|left; split; [done|]]; unfold once_enter in Hx; by destruct (closeOnce _)].
  intros t gs p x p' Hpr Ht Hx. pose proof (po_close _ _ _ Hpr) as Hc. unfold once_enter in Hx. destruct (closeOnce p) eqn:Eo; [|done|].
  - injection Hx as <- <-. split; [|done]. unfold close_ok in Hc. rewrite Eo in Hc. destruct Hc as (Ho & Hcl & Hlog). eapply prepared_phase; try done; [by rewrite Eo|by left|by exists []; rewrite app_nil_r|].
    eapply running_step; [done| |done|done]. intros u h _ Hh. apply Ho, list_elem_of_lookup. eauto.
  - injection Hx as <- <-. split; [|done]. eapply prepared_phase; try done; [by right|by exists []; rewrite app_nil_r|]. by eapply close_same.
Qed.
Lemma closing_keeps g (Q : unit -> ghost -> Prop) : g_in g = false -> g_phase g = Entered -> Q tt (moved g Closing (g_over g)) -> kp (prepared_act (fun p => (tt, set_closing p))) g Q.
Proof.
  intros Hin Hp HQ. apply (rule_prepared max names _ _ _ (fun _ h => moved h Closing (g_over h))); [done|]. intros t gs p Hpr Ht _. cbn [fst snd]. split; [|by cbn; rewrite Hin].
  destruct (running gs p t g (po_close _ _ _ Hpr) Ht) as (Hr & Ho & Hm); [by rewrite Hp|]. rewrite Hp in Hm. eapply prepared_phase; try done; [by left|by exists []; rewrite app_nil_r|]. eapply running_step; [done|done|done|]. by destruct Hm.
Qed.
Lemma leases_keeps g (Q : unit -> ghost -> Prop) : g_lease g = false -> g_in g = false -> g_phase g = Closing -> Q tt (moved g (Ending []) (g_over g)) -> kp (prepared_wait wait_leases) g Q.
Proof.
  intros Hl Hin Hp HQ. apply (rule_prepared_wait _ _ _ (fun _ => (Ending [], g_over g))); [done| |intros w Hx; split; [done|right; split; [done|]]; unfold wait_leases in Hx; destruct (Z.eqb_spec (leases (w_prepared w)) 0); done].
  intros t gs p [] p' Hpr Ht Hx. split; [|done]. unfold wait_leases in Hx. destruct (leases p =? 0) eqn:El; [|done]. injection Hx as <-. apply Z.eqb_eq in El.
  destruct (running gs p t g (po_close _ _ _ Hpr) Ht) as (Hr & Ho & Hm); [by rewrite Hp|]. rewrite Hp in Hm. eapply prepared_phase; try done; [by left|by exists []; rewrite app_nil_r|]. eapply running_step; [done|done|done|]. destruct Hm. split_and!; try done. apply prefix_nil.
Qed.
Lemma order_keeps g (Q : list bytes -> ghost -> Prop) : Q names g -> kp (prepared_act (fun p => (order p, p))) g Q.
Proof.
  intros HQ. apply (rule_prepared max names _ _ _ (fun _ h => h)); [done|]. intros t gs p Hpr Ht Hn. cbn [fst snd]. rewrite list_insert_id by done. split; [done|]. split; [done|]. by rewrite (po_order _ _ _ Hpr).
Qed.
Lemma close_providers_keeps ns g l (Q : unit -> ghost -> Prop) : g_in g = false -> g_phase g = Ending l -> l ++ ns = rev names -> Q tt (moved g (Ending (l ++ ns)) (g_over g)) -> kp (close_providers ns) g Q.
Proof.
  revert g l. induction ns as [|n ns IH]; intros g l Hin Hp Hl HQ; cbn [close_providers].
  { apply keeps_ret. rewrite app_nil_r in HQ. by destruct g; cbn in *; subst. }
  apply keeps_bind, keeps_act. intros t gs w c _ Hi Ht. exists (moved g (Ending (l ++ [n])) (g_over g)). split; [|apply (IH _ (l ++ [n])); [done|done|by rewrite <- app_assoc|]; by rewrite <- app_assoc].
  eapply inv_step; [done|done|by eapply same_own|cbn; by rewrite Hin| |cbn; by eapply slots_same]. pose proof (in_prepared _ _ _ _ Hi) as Hpr. destruct (running gs _ t g (po_close _ _ _ Hpr) Ht) as (Hr & Ho & Hm); [by rewrite Hp|]. rewrite Hp in Hm. destruct Hm as (M1 & M2 & M3 & M4).
  eapply prepared_phase; try done; [by left|by exists [n]|]. eapply running_step; [done|done|done|]. cbn. rewrite closes_app, M3. split_and!; try done. rewrite (po_order _ _ _ Hpr), <- Hl. exists ns. by rewrite <- app_assoc.
Qed.
Lemma leave_keeps g (Q : unit -> ghost -> Prop) : g_in g = false -> g_phase g = Ending (rev names) -> Q tt (moved g Outside true) -> kp (prepared_act (fun p => (tt, once_leave p))) g Q.
Proof.
  intros Hin Hp HQ. apply (rule_prepared max names _ _ _ (fun _ h => moved h Outside true)); [done|]. intros t gs p Hpr Ht _. cbn [fst snd]. split; [|by cbn; rewrite Hin].
  destruct (running gs p t g (po_close _ _ _ Hpr) Ht) as (Hr & Ho & Hm); [by rewrite Hp|]. rewrite Hp in Hm. destruct Hm as (M1 & M2 & M3 & _). eapply prepared_phase; try done; [by right|by exists []; rewrite app_nil_r|].
  unfold close_ok. cbn. split_and!; [|done|done|by rewrite M3, (po_order _ _ _ Hpr)]. intros h [->|(u & Hu & Hh)]%insert_inv; [done|by eapply Ho].
Qed.
Lemma close_prepared_keeps g : g_lease g = false -> g_in g = false -> g_phase g = Outside -> kp close_prepared g (fun _ g' => g' = moved g Outside true).
Proof.
  intros Hl Hin Hp. assert (forall g1 : ghost, g1 = moved g Outside true -> kp (prepared_act (fun p => (closeErr p, p))) g1 (fun _ g' => g' = moved g Outside true)) as Hfin.
  { intros g1 ->. apply (rule_prepared max names _ _ _ (fun _ h => h)); [done|]. intros t gs p Hpr Ht Hn. cbn [fst snd]. by rewrite list_insert_id. }
  unfold close_prepared. apply keeps_bind, once_keeps; [done|done|done| |].
  - apply keeps_bind, keeps_bind, closing_keeps; [done|done|]. apply keeps_bind, leases_keeps; [done|done|done|]. apply keeps_bind, order_keeps. apply keeps_bind. eapply (close_providers_keeps _ _ []); [done|done|done|]. apply leave_keeps; [done|done|]. by apply Hfin.
  - apply keeps_bind, keeps_ret. by apply Hfin.
Qed.
End Runs.
