(* ===== verification/Executions.v ===== *)
(** * Executions that run together
    The theorems on executions and calls of [Prepared.Close]: what callers are told about the
    database is true, executions are bounded, providers live as long as they are used, what
    was published is given back, and nothing waits for good. *)
From Stdlib Require Import ZArith Lia.
From stdpp Require Import base gmap sets list option strings relations.
From coqutil Require Import Datatypes.RecordSettersUsingExistingGetters.
From S2P Require Import Prelude GoTime Utf8 Json Canonical GoStrings InputValue ValueFormat Schema Validation Conformance Output Publish RateLimit SqlSyntax Programs Lifecycle DbProvider Controller Execution ExecutionRuns.
Local Open Scope Z_scope.
Local Open Scope prog_scope.
#[global] Arguments const {E} newValue / _.
#[local] Arguments closes : simpl never.
#[local] Arguments calls_open : simpl never.

Section Executions.
Context {O : Type} `{!OutputWorld O} (lib : engines) (entries : bytes -> entry) (max : Z).
Abbreviation result := ((option nat * option ErrorValue) + bool)%type.
Abbreviation program := (prog (choice O) (world O) result).

(** Executions of [reqs], and [n] calls of [Close]. *)
Definition start (reqs : list ExecutionRequest) (n : nat) : list program :=
  imap (fun t req => let> r := Execute lib entries max t req in Ret (inl r)) reqs ++ replicate n (let> e := close_prepared in Ret (inr e)).
Abbreviation steps := (rtc (pool_step (fun _ : choice O => True))).
(** An agent that has prepared the providers [names], and has done nothing else. *)
Record opened (names : list bytes) (w : world O) : Prop := {
  op_prepared : w_prepared w = new_prepared <| order := names |>;
  op_active : w_active w = 0;
  op_txs : w_txs w = []; op_outputs : w_outputs w = []; op_calls : w_calls w = []; op_inputs : w_inputs w = []; op_conns : w_conns w = []
}.
(** The configured limits on files are not negative. *)
Definition sane_entries : Prop := forall name, bounded (en_cap (entries name)).
(** The [i]-th transaction is one of the execution [t], and it is committed. *)
Definition committed_by (t : nat) (w : world O) (i : nat) : Prop := w_txs w !! i = Some {| tx_call := t; tx_state := TxCommitted |}.

Section Pool.
Context (reqs : list ExecutionRequest) (n : nat) (names : list bytes) (w0 : world O) (Hopen : opened names w0) (Hmax : 0 <= max) (Hsane : sane_entries).
Definition done (r : result) (g : ghost) : Prop :=
  match r with inl r => exists req, reqs !! g_call g = Some req /\ returned lib entries req (g_call g) r g | inr _ => g = moved (fresh (g_call g)) Outside true end.
Definition first_ghosts : list (@ghost O) := fresh <$> seq 0 (length reqs + n).
Lemma first_ghost t g : first_ghosts !! t = Some g -> g = fresh t.
Proof. unfold first_ghosts. rewrite list_lookup_fmap. intros (i & Hi & ->)%fmap_Some. apply lookup_seq in Hi as [-> _]. done. Qed.
Lemma total_first f : (forall t, f (@fresh O t) = false) -> total f first_ghosts = 0.
Proof. intros Hf. unfold first_ghosts. generalize 0%nat. induction (length reqs + n)%nat as [|m IH]; intros k; [done|]. cbn. rewrite Hf. cbn. apply IH. Qed.
Lemma first_inv : inv max names first_ghosts w0.
Proof.
  assert (forall g, g ∈ first_ghosts -> exists t, g = fresh t) as Hg by (intros g [t Ht]%list_elem_of_lookup; exists t; by apply first_ghost).
  destruct Hopen as [O1 O2 O3 O4 O5 O6 O7]. split.
  - intros t g ->%first_ghost. done.
  - intros g [t ->]%Hg. done.
  - rewrite O1. split; [done|by rewrite total_first| | |by intros g [t ->]%Hg].
    + exists []. split_and!; [done|done|by rewrite total_first].
    + split_and!; [|done|done]. intros g [t ->]%Hg. done.
  - rewrite O2, total_first by done. done.
  - intros g i s [t ->]%Hg. rewrite O3. done.
  - intros g i s [t ->]%Hg. rewrite O4. cbn. rewrite lookup_empty. split; [done|]. by intros [? _].
  - intros g i s [t ->]%Hg. rewrite O6. done.
  - intros g i s [t ->]%Hg. rewrite O7. done.
  - intros g [t ->]%Hg. by rewrite O5.
Qed.
Lemma first_keeps : Forall2 (fun p g => keeps (fun _ => True) (inv max names) stuck p g done) (start reqs n) first_ghosts.
Proof.
  unfold start, first_ghosts. rewrite seq_app, fmap_app. apply Forall2_app.
  - apply Forall2_same_length_lookup_2; [by rewrite length_imap, length_fmap, length_seq|]. intros t p g Hp Hg. rewrite list_lookup_imap in Hp. destruct (reqs !! t) as [req|] eqn:Er; [|done]. apply (inj Some) in Hp. rewrite <- Hp.
    rewrite list_lookup_fmap in Hg. destruct (seq 0 (length reqs) !! t) as [i|] eqn:Ei; [|done]. injection Hg as <-. apply lookup_seq in Ei as [-> _].
    apply keeps_bind. eapply keeps_mono; [apply (Execute_keeps lib entries max names); apply Hsane|]. intros r g Hr. apply keeps_ret. cbn. exists req. rewrite (re_call _ _ _ _ _ _ Hr). done.
  - apply Forall2_same_length_lookup_2; [by rewrite length_replicate, length_fmap, length_seq|]. intros t p g Hp Hg. apply lookup_replicate in Hp as [-> _]. rewrite list_lookup_fmap in Hg. destruct (seq _ _ !! t) as [i|]; [|done]. injection Hg as <-.
    apply keeps_bind. eapply keeps_mono; [by apply (close_prepared_keeps max names)|]. intros r g ->. by apply keeps_ret.
Qed.
Lemma pool_invariant ps w : steps (start reqs n, w0) (ps, w) -> exists gs, inv max names gs w /\ Forall2 (fun p g => keeps (fun _ => True) (inv max names) stuck p g done) ps gs.
Proof. intros Hs. apply (pool_keeps _ _ _ done _ _ Hs first_ghosts); [apply first_inv|apply first_keeps]. Qed.
(** The ghost state of an execution that has returned. *)
Lemma pool_returned ps w t r : steps (start reqs n, w0) (ps, w) -> ps !! t = Some (Ret (inl r)) -> exists gs g req, inv max names gs w /\ gs !! t = Some g /\ g ∈ gs /\ g_call g = t /\ reqs !! t = Some req /\ returned lib entries req t r g.
Proof.
  intros Hs Ht. destruct (pool_invariant ps w Hs) as (gs & Hi & Hf). destruct (Forall2_lookup_l _ _ _ _ _ Hf Ht) as (g & Hg & Hd). pose proof (in_calls _ _ _ _ Hi t g Hg) as Hc. destruct Hd as (req & Hr & Hret). rewrite Hc in Hr, Hret.
  exists gs, g, req. split_and!; try done. apply list_elem_of_lookup. eauto.
Qed.
End Pool.

Lemma committed_ghost names gs w t g : inv max names gs w -> g ∈ gs -> g_call g = t -> committed g -> exists i, committed_by t w i /\ forall j, committed_by t w j -> j = i.
Proof.
  intros Hi Hg <- (i & H1 & H2). exists i. unfold committed_by. split; [by apply (in_txs _ _ _ _ Hi)|]. intros j Hj. apply H2. by apply (in_txs _ _ _ _ Hi).
Qed.
Lemma uncommitted_ghost names gs w t g : inv max names gs w -> g ∈ gs -> g_call g = t -> uncommitted g -> forall j, ~ committed_by t w j.
Proof. intros Hi Hg <- Hu j Hj. apply (Hu j). by apply (in_txs _ _ _ _ Hi). Qed.
Lemma total_zero f (gs : list (@ghost O)) : (forall g, g ∈ gs -> f g = false) -> total f gs = 0.
Proof. induction gs as [|g gs IH]; intros H; [done|]. change (total f (g :: gs)) with (b2z (f g) + total f gs). rewrite (H g) by left. rewrite IH; [done|]. intros h Hh. apply H. by right. Qed.
Lemma total_witness f (gs : list (@ghost O)) : total f gs <> 0 -> exists t g, gs !! t = Some g /\ f g = true.
Proof.
  intros H. induction gs as [|g gs IH]; [done|]. destruct (f g) eqn:E; [by exists 0%nat, g|]. destruct IH as (t & h & Ht & Hh); [|by exists (S t), h]. change (total f (g :: gs)) with (b2z (f g) + total f gs) in H. rewrite E in H. cbn in H. done.
Qed.
Definition returns {A} (p : prog (choice O) (world O) A) : bool := match p with Ret _ => true | Act _ _ => false end.
(** Nothing is held by a program that has returned. *)
Lemma done_free reqs r g : done reqs r g -> g_lease g = false /\ g_slot g = false /\ g_in g = false /\ g_phase g = Outside.
Proof. destruct r as [r|b]; [intros (req & _ & [])|intros ->]; done. Qed.

(* ------------------------------------------------------------------ *)
(** ** Properties *)

(** C1: what a caller is told about a database is true. An execution for a database capability
    that fails with the outcome committed has committed exactly one transaction; one that
    fails with not started, no change or rolled back has committed none; a mutation that
    succeeds has committed exactly one. This holds whatever the connections, the context and
    the other executions do, also when the answer to a commit or a rollback is lost. *)
Theorem outcome_truthful reqs n names w0 ps w t req out failure :
  opened names w0 -> 0 <= max -> sane_entries -> steps (start reqs n, w0) (ps, w) -> reqs !! t = Some req -> ps !! t = Some (Ret (inl (out, failure))) ->
  is_database (entries (rq_Capability req)) = true ->
  match failure with
  | Some f =>
      (ev_Outcome f = "committed"%string -> exists i, committed_by t w i /\ forall j, committed_by t w j -> j = i) /\
      (ev_Outcome f = "no_change"%string \/ ev_Outcome f = "rolled_back"%string \/ ev_Outcome f = "not_started"%string -> forall j, ~ committed_by t w j)
  | None => is_mutation (entries (rq_Capability req)) = true -> exists i, committed_by t w i /\ forall j, committed_by t w j -> j = i
  end.
Proof.
  intros Ho Hm Hs Hst Hr Ht Hd. destruct (pool_returned reqs n names w0 Ho Hm Hs ps w t _ Hst Ht) as (gs & g & req' & Hi & _ & Hg & Hc & Hr' & Hret). rewrite Hr in Hr'. injection Hr' as <-. destruct failure as [f|].
  - destruct (re_truth _ _ _ _ _ _ Hret Hd f eq_refl) as [T1 T2]. split; [intros E; by eapply committed_ghost, T1|intros E; by eapply uncommitted_ghost, T2].
  - intros Hmu. eapply committed_ghost; [done|done|done|]. by apply (re_success _ _ _ _ _ _ Hret).
Qed.

(** C8: executions are bounded. Never more than the configured number of executions have a
    place, and when every program has returned no place and no lease is held. *)
Theorem executions_bounded reqs n names w0 ps w : opened names w0 -> 0 <= max -> sane_entries -> steps (start reqs n, w0) (ps, w) ->
  0 <= w_active w <= max /\ (Forall (fun p => exists r, p = Ret r) ps -> w_active w = 0 /\ leases (w_prepared w) = 0).
Proof.
  intros Ho Hm Hs Hst. destruct (pool_invariant reqs n names w0 Ho Hm Hs ps w Hst) as (gs & Hi & Hf). destruct (in_active _ _ _ _ Hi) as [A1 A2]. split; [rewrite A1 in *; pose proof (total_bounds g_slot gs); lia|].
  intros Hall. assert (forall g, g ∈ gs -> g_lease g = false /\ g_slot g = false) as Hfree.
  { intros g [t Hg]%list_elem_of_lookup. destruct (Forall2_lookup_r _ _ _ _ _ Hf Hg) as (p & Hp & Hk). destruct (Forall_lookup_1 _ _ _ _ Hall Hp) as [r ->]. by destruct (done_free reqs r g Hk) as (? & ? & _). }
  rewrite A1, (po_leases _ _ _ (in_prepared _ _ _ _ Hi)). rewrite !total_zero; [done|..]; intros g Hg; by apply Hfree.
Qed.

(** C7: providers outlive their executions. Providers are closed in the opposite order of their
    preparation, each at most once and only after the last call of a provider has returned,
    and no provider is called from then on. When a call of [Close] has returned, all of them
    are closed. *)
Theorem providers_outlive_calls reqs n names w0 ps w : opened names w0 -> 0 <= max -> sane_entries -> steps (start reqs n, w0) (ps, w) ->
  exists a closed, provider_log (w_prepared w) = a ++ (PClose <$> closed) /\ closes a = [] /\ closed `prefix_of` rev names /\ (closed <> [] -> calls_open a = 0) /\
    ((exists t e, ps !! t = Some (Ret (inr e))) -> closed = rev names).
Proof.
  intros Ho Hm Hs Hst. destruct (pool_invariant reqs n names w0 Ho Hm Hs ps w Hst) as (gs & Hi & Hf). pose proof (in_prepared _ _ _ _ Hi) as [P1 P2 (a & P3 & P4 & P5) P6 P7].
  exists a, (closes (provider_log (w_prepared w))). split_and!; [done|done|..].
  - unfold close_ok, phase_ok in P6. rewrite <- P1. destruct (closeOnce (w_prepared w)).
    + destruct P6 as (_ & _ & ->). apply prefix_nil.
    + destruct P6 as (t & g & _ & _ & Hph). destruct (g_phase g); [done|destruct Hph as [_ ->]; apply prefix_nil..|]. by destruct Hph as (_ & _ & -> & ?).
    + by destruct P6 as (_ & _ & _ & ->).
  - intros Hne. rewrite P5. apply total_zero. intros g Hg. destruct (g_in g) eqn:E; [|done]. pose proof (in_nested _ _ _ _ Hi g Hg E) as Hl. apply list_elem_of_lookup in Hg as [t Ht].
    by destruct (lease_held names gs t g _ (in_prepared _ _ _ _ Hi) Ht Hl) as (_ & ? & _).
  - intros (t & e & Ht). destruct (Forall2_lookup_l _ _ _ _ _ Hf Ht) as (g & Hg & Hd). cbn in Hd. pose proof (P7 g ltac:(apply list_elem_of_lookup; eauto) ltac:(by rewrite Hd)) as Hdone. unfold close_ok in P6. rewrite Hdone in P6. destruct P6 as (_ & _ & _ & ->). by rewrite P1.
Qed.

(** C6: executions give back what they take. When an execution has returned, every reader of
    a result that it published is closed exactly once, and the stages and readers of its
    outputs are given back, up to those of the one output that it returns; it returns an
    output exactly when it does not return an error, and closing that output gives back the
    rest. Every database connection that it took is closed. It has called [ReleaseStopped]
    for the files whose use it began with [Start], unless [Context] refused them right after:
    then it has called no provider and returns VALIDATION_FAILED, not started, and the release
    is left to its caller. *)
Theorem executions_give_back reqs n names w0 ps w t out failure :
  opened names w0 -> 0 <= max -> sane_entries -> steps (start reqs n, w0) (ps, w) -> ps !! t = Some (Ret (inl (out, failure))) ->
  (is_Some out <-> failure = None) /\
  (forall i pb, w_outputs w !! i = Some pb -> pb_call pb = t -> drained pb /\ (handed_back pb \/ out = Some i /\ still_open pb)) /\
  (forall i s, w_conns w !! i = Some (t, s) -> s <> InUse) /\
  (forall i b, w_inputs w !! i = Some (t, b) -> b = true \/ failure = Some (fail no_effects "VALIDATION_FAILED") /\ forall params, (t, params) ∉ w_calls w).
Proof.
  intros Ho Hm Hs Hst Ht. destruct (pool_returned reqs n names w0 Ho Hm Hs ps w t _ Hst Ht) as (gs & g & req & Hi & _ & Hg & Hc & Hr & Hret). split_and!.
  - apply (re_one _ _ _ _ _ _ Hret).
  - intros i pb Hpb Hcall. apply (proj1 (re_settled _ _ _ _ _ _ Hret)). apply (in_outs _ _ _ _ Hi); [done|]. by rewrite Hc.
  - intros i s Hk. apply (re_free _ _ _ _ _ _ Hret i). apply (in_conns _ _ _ _ Hi); [done|]. by rewrite Hc.
  - intros i b Hb. destruct (re_inputs _ _ _ _ _ _ Hret i b) as [->|[Ha Hf]]; [apply (in_inputs _ _ _ _ Hi); [done|]; by rewrite Hc|by left|right].
    split; [exact Hf|]. intros params Hin. rewrite (in_args _ _ _ _ Hi g Hg) in Ha. assert (params ∈ omap (fun c => if decide (c.1 = g_call g) then Some c.2 else None) (w_calls w)) as He.
    { apply list_elem_of_omap. exists (t, params). split; [done|]. cbn. by rewrite Hc, decide_True. }
    rewrite Ha in He. by apply elem_of_nil in He.
Qed.

(** C10: providers are called with valid arguments only. An execution that has returned has
    called its provider at most once, with the normalised arguments of its request: they
    satisfy the input schema and its limits, their files belong to the request, and the
    definition is the one that the request names, if it names one. *)
Theorem providers_called_validly reqs n names w0 ps w t req r args :
  opened names w0 -> 0 <= max -> sane_entries -> steps (start reqs n, w0) (ps, w) -> reqs !! t = Some req -> ps !! t = Some (Ret (inl r)) ->
  let e := entries (rq_Capability req) in schema_wf (en_input e) -> wf_value (VObj (rq_Params req)) ->
  omap (fun c => if decide (c.1 = t) then Some c.2 else None) (w_calls w) = args ->
  args = [] \/ exists params, args = [params] /\ conforms lib (Some (MaxFileBytes (en_limits e))) (en_input e) (VObj params) /\ checkJSONLimits (VObj params) (en_limits e) = Ok tt /\
    (exists leaves, ValidateInput lib (en_input e) (rq_Params req) (en_limits e) = Ok (params, leaves) /\ Forall (fun leaf => fv_RequestID (leaf_Value leaf) = rq_ID req) leaves) /\
    (rq_DefinitionHash req = [] \/ rq_DefinitionHash req = en_hash e).
Proof.
  intros Ho Hm Hs Hst Hr Ht e Hwf Hv <-. destruct (pool_returned reqs n names w0 Ho Hm Hs ps w t _ Hst Ht) as (gs & g & req' & Hi & _ & Hg & Hc & Hr' & Hret). rewrite Hr in Hr'. injection Hr' as <-.
  pose proof (in_args _ _ _ _ Hi g Hg) as Ha. rewrite Hc in Ha. rewrite <- Ha. destruct (re_args _ _ _ _ _ _ Hret) as [->|(params & -> & (leaves & Ev & Hl) & Hh)]; [by left|right]. exists params. split; [done|].
  pose proof Ev as Ev'. apply ValidateInput_inv in Ev as (_ & E & _ & _ & El). split; [by eapply validate_conforms|]. split_and!; try done. by exists leaves.
Qed.

(** C11: executions and calls of [Close] come to an end. Every run is finite, and as long as a
    program has not returned, one of them can take a step: nobody waits for good. *)
Theorem executions_end reqs n names w0 ps w (c : choice O) :
  opened names w0 -> 0 <= max -> sane_entries -> steps (start reqs n, w0) (ps, w) ->
  sn (pool_step (fun _ => True)) (ps, w) /\ (Forall (fun p => exists r, p = Ret r) ps \/ exists s, pool_step (fun _ => True) (ps, w) s).
Proof.
  intros Ho Hm Hs Hst. split; [apply pool_terminates|]. destruct (pool_invariant reqs n names w0 Ho Hm Hs ps w Hst) as (gs & Hi & Hf).
  assert (forall t p g, ps !! t = Some p -> gs !! t = Some g -> (exists r, p = Ret r /\ done reqs r g) \/ (exists s, pool_step (fun _ : choice O => True) (ps, w) s) \/ stuck g w) as Hprog.
  { intros t p g Hp Hg. pose proof (Forall2_lookup_lr _ _ _ _ _ _ Hf Hp Hg) as Hk. by eapply keeps_progress. }
  assert (forall t g, gs !! t = Some g -> exists p, ps !! t = Some p) as Hps by (intros t g Hg; destruct (Forall2_lookup_r _ _ _ _ _ Hf Hg) as (p & Hp & _); eauto).
  assert (leases (w_prepared w) <> 0 -> exists s, pool_step (fun _ : choice O => True) (ps, w) s) as Hlease.
  { intros Hl. rewrite (po_leases _ _ _ (in_prepared _ _ _ _ Hi)) in Hl. destruct (total_witness _ _ Hl) as (t & g & Hg & Hgl). destruct (Hps t g Hg) as [p Hp]. destruct (Hprog t p g Hp Hg) as [(r & _ & Hd)|[?|[? _]]]; [|done|congruence]. destruct (done_free _ _ _ Hd) as [? _]. congruence. }
  destruct (decide (Forall (fun p => returns p = true) ps)) as [Hall|Hnot]; [left; eapply Forall_impl; [exact Hall|]; intros [a|]; [eauto|done]|right].
  apply not_Forall_Exists in Hnot; [|apply _]. apply Exists_exists in Hnot as (p & [t Ht]%list_elem_of_lookup & Hp). destruct (Forall2_lookup_l _ _ _ _ _ Hf Ht) as (g & Hg & _).
  destruct (Hprog t p g Ht Hg) as [(r & -> & _)|[?|[_ [[_ Hr]|[_ Hl]]]]]; [by destruct Hp|done| |by apply Hlease]. pose proof (po_close _ _ _ (in_prepared _ _ _ _ Hi)) as Hc. unfold close_ok in Hc. rewrite Hr in Hc. destruct Hc as (u & h & Hu & _ & Hph).
  destruct (Hps u h Hu) as [q Hq]. destruct (Hprog u q h Hq Hu) as [(r & _ & Hd)|[?|[_ [[Ho2 _]|[_ Hl]]]]]; [|done|by rewrite Ho2 in Hph|by apply Hlease]. destruct (done_free _ _ _ Hd) as (_ & _ & _ & E). by rewrite E in Hph.
Qed.
End Executions.

(* ------------------------------------------------------------------ *)
(** ** Witnesses *)

(** A mutation that inserts a title, two requests for it, one call of [Close], and a schedule
    in which the second request finds no place, and [Close] waits for the first. *)
Module Example.
Definition insertion : database :=
  {| db_driver := "postgres"; db_sql := lit "insert into t (title) values (:title)"; db_select := false; db_max_affected := Some 10 |}.
Definition capability : Capability :=
  {| cap_Schema := free_schema; cap_Data := true; cap_Files := None; cap_Mode := lit "project"; cap_Type := lit "db"; cap_Operation := lit "insert";
     cap_Policy := [(lit "max_output_bytes", 1000); (lit "max_json_depth", 8); (lit "max_json_items", 100)] |}.
Definition insert : entry :=
  {| en_cap := capability; en_input := example_schema; en_limits := example_limits; en_hash := lit "h"; en_timeout := lit "5s"; en_provider := Database insertion |}.
Definition entries : bytes -> entry := fun _ => insert.
Definition request : ExecutionRequest :=
  {| rq_ID := lit "r1"; rq_Capability := lit "insert"; rq_DefinitionHash := lit "h"; rq_Params := example_input; rq_Deadline := None; rq_admitted := true; rq_localOutput := true; rq_input := true |}.
Definition agent : world example_world :=
  {| w_prepared := new_prepared <| order := [lit "insert"] |>; w_active := 0; w_rates := ∅; w_txs := []; w_conns := []; w_outputs := []; w_calls := []; w_inputs := [] |}.
Definition calm : choice example_world :=
  {| ch_done := false; ch_now := 0; ch_fault := false; ch_lost := false; ch_gone := false; ch_count := Some 1; ch_class := Unclassified;
     ch_output := {| ew_next := 0; ew_reads := 0 |}; ch_foreign := {| fo_before := []; fo_result := None; fo_after := []; fo_error := []; fo_panic := false |}; ch_rows := no_result |}.
(** The first request takes its place, the others run as far as they can, and all of them
    come to their end. *)
Definition schedule : list (nat * choice example_world) :=
  (fun t => (t, calm)) <$> (replicate 12 0 ++ replicate 40 1 ++ replicate 10 2 ++ replicate 40 0 ++ replicate 10 2)%nat.
Definition after (k : nat) := schedule_run (firstn k schedule) (start example_engines entries 1 [request; request] 1) agent.
Lemma agent_opened : opened [lit "insert"] agent.
Proof. by split. Qed.
Lemma entries_sane : sane_entries entries.
Proof. intros name. by vm_compute. Qed.
Lemma after_reached k : rtc (pool_step (fun _ : choice example_world => True)) (start example_engines entries 1 [request; request] 1, agent) ((after k).1, (after k).2).
Proof. apply schedule_steps. by apply Forall_forall. Qed.
End Example.
Import Example.
Lemma outcome_truthful_witness : exists i, committed_by 0 (after 200).2 i /\ forall j, committed_by 0 (after 200).2 j -> j = i.
Proof.
  refine (outcome_truthful example_engines Example.entries 1 [request; request] 1 [lit "insert"] agent (after 200).1 (after 200).2 0 request (Some 0%nat) None
    agent_opened _ entries_sane (after_reached 200) _ _ _ _); [done|done|by vm_compute..].
Defined.
Lemma executions_bounded_witness : 0 <= w_active (after 20).2 <= 1.
Proof.
  refine (proj1 (executions_bounded example_engines Example.entries 1 [request; request] 1 [lit "insert"] agent (after 20).1 (after 20).2
    agent_opened _ entries_sane (after_reached 20))); done.
Defined.
Lemma providers_outlive_calls_witness : exists a closed, provider_log (w_prepared (after 200).2) = a ++ (PClose <$> closed) /\ closes a = [] /\ closed `prefix_of` [lit "insert"] /\
  (closed <> [] -> calls_open a = 0) /\ ((exists t e, (after 200).1 !! t = Some (Ret (inr e))) -> closed = [lit "insert"]).
Proof.
  refine (providers_outlive_calls example_engines Example.entries 1 [request; request] 1 [lit "insert"] agent (after 200).1 (after 200).2
    agent_opened _ entries_sane (after_reached 200)); done.
Defined.
(** One request alone, whose [k]-th call fails: the 18th is its commit, the 7th [Context]. *)
Definition failing (k : nat) :=
  schedule_run ((fun n => (0%nat, if decide (n = k) then calm <| ch_fault := true |> else calm)) <$> seq 0 60) (start example_engines Example.entries 1 [request] 0) agent.
Lemma failing_reached k : rtc (pool_step (fun _ : choice example_world => True)) (start example_engines Example.entries 1 [request] 0, agent) ((failing k).1, (failing k).2).
Proof. apply schedule_steps. by apply Forall_forall. Qed.
Lemma executions_give_back_witness :
  w_conns (failing 18).2 = [(0%nat, Discarded)] /\ w_inputs (failing 18).2 = [(0%nat, true)] /\ (forall i s, w_conns (failing 18).2 !! i = Some (0%nat, s) -> s <> InUse) /\
  w_inputs (failing 7).2 = [(0%nat, false)] /\ forall params, (0%nat, params) ∉ w_calls (failing 7).2.
Proof.
  split; [vm_compute; reflexivity|]. split; [vm_compute; reflexivity|]. split; [|split; [vm_compute; reflexivity|]].
  - refine (proj1 (proj2 (proj2 (executions_give_back example_engines Example.entries 1 [request] 0 [lit "insert"] agent (failing 18).1 (failing 18).2 0 None
      (Some {| Code := lit "OUTCOME_UNKNOWN"; Message := lit "capability execution failed"; Reason := lit "COMMIT_UNKNOWN"; ev_Outcome := "unknown" |})
      agent_opened _ entries_sane (failing_reached 18) _)))); [done|by vm_compute].
  - assert (w_inputs (failing 7).2 !! 0%nat = Some (0%nat, false)) as E by (vm_compute; reflexivity).
    destruct (proj2 (proj2 (proj2 (executions_give_back example_engines Example.entries 1 [request] 0 [lit "insert"] agent (failing 7).1 (failing 7).2 0 None
      (Some (fail no_effects "VALIDATION_FAILED")) agent_opened ltac:(done) entries_sane (failing_reached 7) ltac:(by vm_compute)))) 0%nat false E) as [?|[_ H]]; [done|exact H].
Defined.
Lemma providers_called_validly_witness : exists params, conforms example_engines (Some 100) example_schema (VObj params) /\ checkJSONLimits (VObj params) example_limits = Ok tt.
Proof.
  pose proof (providers_called_validly example_engines Example.entries 1 [request; request] 1 [lit "insert"] agent (after 200).1 (after 200).2 0 request (Some 0%nat, None) [example_input]
    agent_opened ltac:(done) entries_sane (after_reached 200) eq_refl ltac:(by vm_compute) example_wf example_input_wf ltac:(by vm_compute)) as ps.
  destruct ps as [?|(params & _ & H1 & H2 & _)]; [done|by exists params].
Defined.
Lemma executions_end_witness : sn (pool_step (fun _ => True)) ((after 20).1, (after 20).2).
Proof.
  refine (proj1 (executions_end example_engines Example.entries 1 [request; request] 1 [lit "insert"] agent (after 20).1 (after 20).2 calm
    agent_opened _ entries_sane (after_reached 20))); done.
Defined.
