(* ===== verification/Admission.v ===== *)
(** * Admission of requests
    [admit] of [agent/controller.go], which runs before a request is queued, and the request
    that [agent/runtime_execution.go] executes after it. *)
From Stdlib Require Import ZArith Lia.
From stdpp Require Import base gmap list option strings.
From coqutil Require Import Datatypes.RecordSettersUsingExistingGetters.
From S2P Require Import Prelude GoTime Utf8 Json Canonical GoStrings InputValue ValueFormat Schema Validation Output Publish RateLimit SqlSyntax Normalised Programs Lifecycle DbProvider Controller Executions.
Local Open Scope Z_scope.
Local Open Scope prog_scope.
#[global] Arguments const {E} newValue / _.

Fixpoint schemaHasFile (s : Schema) : bool :=
  match s with
  | MkSchema d props items additional =>
      match File d with Some _ => true | None => false end ||
      match items with Some i => schemaHasFile i | None => false end ||
      existsb (fun kv => schemaHasFile kv.2) props
  end.

Section Admission.
Context {O : Type} `{!OutputWorld O} (lib : engines) (entries : bytes -> entry) (max : Z).
Abbreviation program := (prog (choice O) (world O)).

(** The normalised arguments, or the error for the caller. *)
Definition admit_request (req : ExecutionRequest) : program (list (bytes * value) + ErrorValue) :=
  let failed code := Ret (inr (fail no_effects code)) in
  let> now := ask ch_now in
  if overdue now (rq_Deadline req) then failed "EXECUTION_TIMEOUT" else
  let> ok := prepared_act (fun p => (has_entry p (rq_Capability req), p)) in
  let e := entries (rq_Capability req) in
  if negb ok then failed "NOT_FOUND" else
  if bytes_eqb (rq_DefinitionHash req) [] then failed "INVALID_REQUEST" else
  if negb (bytes_eqb (rq_DefinitionHash req) (en_hash e)) then failed "CONFLICT" else
  if schemaHasFile (en_input e) then failed "INVALID_REQUEST" else
  match ValidateInput lib (en_input e) (rq_Params req) (en_limits e) with
  | Err _ => failed "VALIDATION_FAILED"
  | Ok (params, leaves) =>
      if negb (length leaves =? 0)%nat then failed "VALIDATION_FAILED" else
      let> allowed := act (fun c => take_rate (rq_Capability req) (ch_now c)) in
      if negb allowed then failed "RATE_LIMITED" else Ret (inl params)
  end.
(** The request that is executed once it was admitted. *)
Definition admitted_request (req : ExecutionRequest) (params : list (bytes * value)) : ExecutionRequest :=
  req <| rq_Params := params |> <| rq_admitted := true |> <| rq_input := false |>.

(** The results that a program can come to, whatever others do in between. *)
Inductive results {A} : program A -> A -> Prop :=
| results_ret a : results (Ret a) a
| results_act {B} (f : choice O -> world O -> option (B * world O)) k c w x w' a : f c w = Some (x, w') -> results (k x) a -> results (Act f k) a.
Fixpoint ends {A} (P : A -> Prop) (p : program A) : Prop := match p with Ret a => P a | Act f k => forall x, ends P (k x) end.
Lemma ends_results {A} (P : A -> Prop) p a : results p a -> ends P p -> P a.
Proof. induction 1 as [a|B f k c w x w' a _ _ IH]; [done|]. intros H. apply IH, H. Qed.

Lemma admitted_conditions req params : results (admit_request req) (inl params) -> let e := entries (rq_Capability req) in
  rq_DefinitionHash req = en_hash e /\ ValidateInput lib (en_input e) (rq_Params req) (en_limits e) = Ok (params, []).
Proof.
  intros Hr e. revert Hr. set (P (r : list (bytes * value) + ErrorValue) := forall q, r = inl q -> rq_DefinitionHash req = en_hash e /\ ValidateInput lib (en_input e) (rq_Params req) (en_limits e) = Ok (q, [])).
  intros Hr. enough (P (inl params)) as H by by apply H. eapply ends_results; [exact Hr|]. clear Hr. unfold admit_request. intros now. cbn [prog_bind ends]. destruct (overdue now (rq_Deadline req)); [by cbn|].
  intros ok. cbn [prog_bind ends]. destruct ok; cbn [negb]; [|by cbn]. destruct (bytes_eqb (rq_DefinitionHash req) []); [by cbn|]. fold e. destruct (bytes_eqb (rq_DefinitionHash req) (en_hash e)) eqn:Eh; cbn [negb]; [|by cbn]. apply bytes_eqb_true in Eh.
  destruct (schemaHasFile (en_input e)); [by cbn|]. destruct (ValidateInput lib (en_input e) (rq_Params req) (en_limits e)) as [[q leaves]|] eqn:Ev; [|by cbn]. destruct leaves as [|? ?]; cbn [length Nat.eqb negb]; [|by cbn].
  intros allowed. cbn [prog_bind ends]. destruct allowed; [|by cbn]. intros q' [= <-]. done.
Qed.

(* ------------------------------------------------------------------ *)
(** ** Properties *)

(** C9: admission is final. If no part of the input schema lists both the types integer and
    number, a request that was admitted and is then executed with the normalised
    arguments is not checked again with another result: it is not refused for its definition,
    its arguments, its files or its rate, and once it has a lease it goes on to the place
    among the executions with the same arguments, unless its time is over. *)
Theorem admitted_executes req params call d :
  let e := entries (rq_Capability req) in
  results (admit_request req) (inl params) -> schema_wf (en_input e) -> numbers_apart (en_input e) = true -> wf_value (VObj (rq_Params req)) ->
  ParseDuration (en_timeout e) = Ok d -> 0 < d <= 300 * 10 ^ 9 ->
  execute_leased lib max call (admitted_request req params) e =
    (let> done := ask ch_done in
     if done : bool then Ret (refused no_effects "EXECUTION_TIMEOUT") else execute_active lib max call (admitted_request req params) e params).
Proof.
  intros e Hr Hs Ha Hv Hd Hrange. destruct (admitted_conditions req params Hr) as [Hh E]. fold e in Hh, E. unfold execute_leased. cbn [rq_DefinitionHash admitted_request].
  change (rq_DefinitionHash (admitted_request req params)) with (rq_DefinitionHash req). rewrite Hh, bytes_eqb_refl, andb_false_r, Hd.
  assert ((d <=? 0) || (300 * 10 ^ 9 <? d) = false) as -> by (apply orb_false_iff; split; [apply Z.leb_gt|apply Z.ltb_ge]; lia).
  change (rq_Params (admitted_request req params)) with params. rewrite (validated_again _ _ _ _ _ _ E Hs Ha Hv). reflexivity.
Qed.
End Admission.

(* ------------------------------------------------------------------ *)
(** ** Witness *)

(** A program that runs alone, with the same answer to every question. *)
Fixpoint alone {O A} (c : choice O) (w : world O) (p : prog (choice O) (world O) A) : option A :=
  match p with
  | Ret a => Some a
  | Act f k => match f c w with Some (x, w') => alone c w' (k x) | None => None end
  end.
Lemma alone_results {O A} (c : choice O) (p : prog (choice O) (world O) A) a : forall w, alone c w p = Some a -> results p a.
Proof. induction p as [b|B f k IH]; intros w; cbn; [intros [= <-]; constructor|]. destruct (f c w) as [[x w']|] eqn:E; [|done]. intros H. eapply results_act; [exact E|]. by eapply IH. Qed.

Module AdmissionExample.
Import Executions.Example.
Definition title_schema : Schema :=
  MkSchema {| Types := [lit "object"]; PropertyOrder := [lit "title"]; PropertiesSet := true; AdditionalAllowed := false; Required := [lit "title"]; Default := VNull; DefaultSet := false;
    Nullable := false; Constraints := []; File := None; SPattern := None; patternSource := []; normalized := []; output := false |} [(lit "title", example_string)] None None.
Definition titled : entry := insert <| en_input := title_schema |>.
Definition title_request : ExecutionRequest := request <| rq_Params := [(lit "title", VStr (lit "hello"))] |>.
Lemma title_schema_wf : schema_wf title_schema.
Proof.
  constructor; [split; simpl|repeat constructor|apply Forall_singleton, example_string_wf|done|done]; try done.
  - by apply (bool_decide_unpack _).
  - intros _ t ->%list_elem_of_singleton. by left.
  - constructor.
Qed.
Lemma admitted_executes_witness :
  execute_leased example_engines 1 0 (admitted_request title_request (rq_Params title_request)) titled =
    (let> done := ask ch_done in
     if done : bool then Ret (refused no_effects "EXECUTION_TIMEOUT") else execute_active example_engines 1 0 (admitted_request title_request (rq_Params title_request)) titled (rq_Params title_request)) :> prog (choice example_world) (world example_world) outcome.
Proof.
  refine (admitted_executes example_engines (fun _ => titled) 1 title_request (rq_Params title_request) 0 (5 * 10 ^ 9) _ title_schema_wf _ _ _ _).
  - apply (alone_results calm _ _ agent). vm_compute. reflexivity.
  - reflexivity.
  - repeat constructor.
  - vm_compute. reflexivity.
  - lia.
Defined.
End AdmissionExample.
