(* ===== verification/LegacyMutation.v ===== *)
(** * Mutations without a controller
    [executeMutation] of [agent/executor.go], which a runner without an execution controller
    uses, with the payload and the sizes of [agent/capability.go] it is bounded by. *)
From Stdlib Require Import ZArith Lia.
From stdpp Require Import base gmap sets list option strings relations.
From coqutil Require Import Datatypes.RecordSettersUsingExistingGetters.
From S2P Require Import Prelude GoTime Utf8 Strconv Json Canonical GoStrings InputValue ValueFormat Schema Validation Output Publish RateLimit SqlSyntax Programs Lifecycle DbProvider Controller Execution ExecutionRuns Executions.
Local Open Scope Z_scope.
Local Open Scope prog_scope.
#[global] Arguments const {E} newValue / _.
#[local] Arguments closes : simpl never.
#[local] Arguments calls_open : simpl never.

(* ------------------------------------------------------------------ *)
(** ** Sizes *)

(** [unicode.IsSpace]. *)
Definition IsSpace (r : Z) : bool :=
  (9 <=? r) && (r <=? 13) || existsb (Z.eqb r) [32; 133; 160; 5760; 8232; 8233; 8239; 8287; 12288] || (8192 <=? r) && (r <=? 8202).
Fixpoint trim_left (s : list Z) : list Z := match s with r :: s' => if IsSpace r then trim_left s' else s | [] => [] end.
Definition TrimSpace (s : list Z) : list Z := reverse (trim_left (reverse (trim_left s))).
(** [strings.ToUpper]: no character outside ASCII becomes a digit or a letter of a suffix. *)
Definition ToUpper (s : list Z) : list Z := (fun r => if (97 <=? r) && (r <=? 122) then r - 32 else r) <$> s.
Definition cut_suffix (s t : list Z) : option (list Z) :=
  let n := (length s - length t)%nat in if bytes_eqb (skipn n s) t && (length t <=? length s)%nat then Some (firstn n s) else None.
Definition suffixes : list (bytes * Z) := [(lit "KB", 2 ^ 10); (lit "MB", 2 ^ 20); (lit "GB", 2 ^ 30); (lit "B", 1)].
Fixpoint split_suffix (s : list Z) (l : list (bytes * Z)) : list Z * Z :=
  match l with
  | [] => (s, 1)
  | (t, mul) :: l => match cut_suffix s t with Some s' => (TrimSpace s', mul) | None => split_suffix s l end
  end.
Definition parseByteSize (raw : bytes) : result Z :=
  let '(s, multiplier) := split_suffix (TrimSpace (ToUpper (fst <$> runes raw))) suffixes in
  if bytes_eqb s [] then Err "missing integer value" else
  match ParseInt s with
  | None => Err "invalid syntax"
  | Some n => if n <=? 0 then Err "must be > 0" else if int64_max / multiplier <? n then Err "size overflows int64" else Ok (n * multiplier)
  end.
Definition maxBytes (raw : bytes) : result Z := if bytes_eqb raw [] then Ok (2 ^ 20) else parseByteSize raw.

(* ------------------------------------------------------------------ *)
(** ** [executeMutation] *)

(** The policy of a capability. *)
Record policy := { po_MaxBytes : bytes; po_MaxAffectedRows : option Z }.
Record mutationFailure := { mf_code : string; mf_message : string }.
Definition buildMutationPayload (count limit : Z) : option bytes :=
  let payload := lit "{" ++ [34] ++ lit "count" ++ [34] ++ lit ":" ++ FormatInt count ++ lit "}" in
  if limit <? Z.of_nat (length payload) then None else Some payload.
Definition mutationFailureForRollback (rb : rollbackState) (code message : string) : mutationFailure :=
  if decide (rb = rollbackConfirmed) then {| mf_code := code; mf_message := message |} else {| mf_code := "OUTCOME_UNKNOWN"; mf_message := "transaction outcome is unknown" |}.

Section Legacy.
Context {O : Type} `{!OutputWorld O}.
Abbreviation program := (prog (choice O) (world O)).
Abbreviation answer := ((bytes * Z) + mutationFailure)%type.

(** The failure, and whether the connection is discarded. *)
Definition rollbackMutationFailure (m : mutationTx) (code message : string) (discard : bool) : program (mutationFailure * bool) :=
  let> rb := rollbackMutation (mt_tx m) in
  Ret (mutationFailureForRollback rb code message, discard || negb (bool_decide (rb = rollbackConfirmed))).
Definition canceledMutationStartFailure (driver : string) (m : mutationTx) : program (mutationFailure * bool) :=
  rollbackMutationFailure m "EXECUTION_TIMEOUT" "query exceeded policy.timeout" (is_oracle driver).
(** The closure [failAfterRollback], and the deferred [close]. *)
Definition failAfterRollback (m : mutationTx) (code message : string) : program answer :=
  let> (f, discard) := rollbackMutationFailure m code message false in
  let> _ := mt_close m discard in
  Ret (inr f).
(** The error of the statement. *)
Definition statement_failure (m : mutationTx) : program answer :=
  let> done := ask ch_done in
  if done : bool then failAfterRollback m "EXECUTION_TIMEOUT" "query exceeded policy.timeout" else
  let> class := ask ch_class in
  match class with
  | Constraint => failAfterRollback m "CONFLICT" "database constraint violation"
  | Unreachable => failAfterRollback m "DEPENDENCY_UNAVAILABLE" "database is unreachable"
  | Unclassified => failAfterRollback m "EXECUTION_FAILED" "database query failed"
  end.
(** After the statement. *)
Definition conclude_mutation (p : policy) (m : mutationTx) : program answer :=
  let> count := ask ch_count in
  match count with
  | None => failAfterRollback m "EXECUTION_FAILED" "database query failed"
  | Some count =>
      if count <? 0 then failAfterRollback m "EXECUTION_FAILED" "database query failed" else
      if match po_MaxAffectedRows p with Some limit => limit <? count | None => false end then failAfterRollback m "LIMIT_EXCEEDED" "affected rows exceed policy.max_affected_rows" else
      match maxBytes (po_MaxBytes p) with
      | Err _ => failAfterRollback m "INTERNAL_ERROR" "agent internal error"
      | Ok limit =>
          match buildMutationPayload count limit with
          | None => failAfterRollback m "EXECUTION_FAILED" "response exceeds policy.max_bytes"
          | Some payload =>
              let> done := ask ch_done in
              if done : bool then failAfterRollback m "EXECUTION_TIMEOUT" "query exceeded policy.timeout" else
              let> e := act (Commit (mt_tx m)) in
              match e with
              | Some _ =>
                  let> _ := mt_close m true in
                  Ret (inr {| mf_code := "OUTCOME_UNKNOWN"; mf_message := "transaction outcome is unknown" |})
              | None =>
                  let> _ := mt_close m false in
                  Ret (inl (payload, count))
              end
          end
      end
  end.
(** The start failed. The code does not look whether there is a transaction all the same, as
    there is after [beginCanceledWithTx]: it returns before it defers [close], so that the
    connection stays in use, and on Oracle nothing ends the context of the transaction. *)
Definition start_failure (state : beginState) : program answer :=
  if decide (state = beginOutcomeUnknown) then Ret (inr {| mf_code := "OUTCOME_UNKNOWN"; mf_message := "transaction outcome is unknown" |}) else
  let> done := ask ch_done in
  if done : bool then Ret (inr {| mf_code := "EXECUTION_TIMEOUT"; mf_message := "query exceeded policy.timeout" |}) else
  let> class := ask ch_class in
  match class with
  | Unreachable => Ret (inr {| mf_code := "DEPENDENCY_UNAVAILABLE"; mf_message := "database is unreachable" |})
  | _ => Ret (inr {| mf_code := "EXECUTION_FAILED"; mf_message := "database query failed" |})
  end.
Definition executeMutation (driver : string) (call : nat) (p : policy) : program answer :=
  let> (tx, state, e) := beginMutationTx driver call in
  match tx with
  | Some m =>
      if failed e then start_failure state else
      if decide (state = beginCanceledWithTx) then
        let> (f, discard) := canceledMutationStartFailure driver m in
        let> _ := mt_close m discard in
        Ret (inr f)
      else
      let> fault := act (ExecContext (mt_tx m)) in
      if fault : bool then statement_failure m else conclude_mutation p m
  | None => start_failure state
  end.

(* ------------------------------------------------------------------ *)
(** ** Lemmas *)

Context (max : Z) (names : list bytes).
Abbreviation kp p g Q := (keeps (fun _ : choice O => True) (inv max names) stuck p g Q).
Abbreviation tx_only g i s := (g_txs g = <[i := s]> (∅ : gmap nat txstate)).
(** What an answer says of the transactions of its call. *)
Definition answered (p : policy) (call : nat) (r : answer) (g : @ghost O) : Prop :=
  g_call g = call /\
  match r with
  | inl (payload, count) => committed g /\ 0 <= count /\ (forall limit, po_MaxAffectedRows p = Some limit -> count <= limit) /\ exists limit, maxBytes (po_MaxBytes p) = Ok limit /\ buildMutationPayload count limit = Some payload
  | inr f => mf_code f <> "OUTCOME_UNKNOWN"%string -> uncommitted g
  end.
Lemma rollback_answered p call g m code message discard : g_call g = call -> holds g (mt_conn m) -> tx_only g (mt_tx m) TxOpen \/ tx_only g (mt_tx m) TxRolledBack ->
  kp (let> (f, discard) := rollbackMutationFailure m code message discard in let> _ := mt_close m discard in Ret (inr f)) g (answered p call).
Proof.
  intros Hc Hh Ht. unfold rollbackMutationFailure, rollbackMutation. apply keeps_bind, keeps_bind, keeps_bind. apply rule_rollback.
  { destruct Ht as [-> | ->]; rewrite lookup_insert_eq; auto. }
  - intros e. apply keeps_ret, keeps_ret, keeps_bind. eapply close_conn_keeps; [exact Hh|]. intros conns _. apply keeps_ret. split; [exact Hc|]. intros _. apply (tx_only_uncommitted _ (mt_tx m) TxRolledBack); [|done]. cbn. destruct Ht as [-> | ->]; by rewrite insert_insert_eq.
  - intros e. apply keeps_ret, keeps_ret, keeps_bind. eapply close_conn_keeps; [exact Hh|]. intros conns _. apply keeps_ret. split; [exact Hc|]. intros _. apply (tx_only_uncommitted _ (mt_tx m) TxOpen); [|done]. cbn. destruct Ht as [-> | ->]; by rewrite insert_insert_eq.
Qed.
Lemma start_answered p call st g : g_call g = call -> uncommitted g -> kp (start_failure st) g (answered p call).
Proof.
  intros Hc Hu. unfold start_failure. case_decide; [by apply keeps_ret|]. apply keeps_bind, keeps_ask. intros c _. destruct (ch_done c); [by apply keeps_ret|].
  apply keeps_bind, keeps_ask. intros c' _. destruct (ch_class c'); by apply keeps_ret.
Qed.
Lemma statement_answered p call g m : g_call g = call -> holds g (mt_conn m) -> tx_only g (mt_tx m) TxOpen \/ tx_only g (mt_tx m) TxRolledBack -> kp (statement_failure m) g (answered p call).
Proof.
  intros Hc Hh Ht. unfold statement_failure. apply keeps_bind, keeps_ask. intros c _. destruct (ch_done c); [by apply rollback_answered|]. apply keeps_bind, keeps_ask. intros c' _. destruct (ch_class c'); by apply rollback_answered.
Qed.
Lemma conclude_answered p call g m : g_call g = call -> holds g (mt_conn m) -> tx_only g (mt_tx m) TxOpen \/ tx_only g (mt_tx m) TxRolledBack -> kp (conclude_mutation p m) g (answered p call).
Proof.
  intros Hc Hh Ht. unfold conclude_mutation. apply keeps_bind, keeps_ask. intros c _. destruct (ch_count c) as [count|]; [|by apply rollback_answered]. destruct (Z.ltb_spec count 0); [by apply rollback_answered|].
  destruct (match po_MaxAffectedRows p with Some limit => limit <? count | None => false end) eqn:El; [by apply rollback_answered|].
  destruct (maxBytes (po_MaxBytes p)) as [limit|] eqn:Em; [|by apply rollback_answered]. destruct (buildMutationPayload count limit) as [payload|] eqn:Ep; [|by apply rollback_answered].
  apply keeps_bind, keeps_ask. intros c' _. destruct (ch_done c'); [by apply rollback_answered|]. apply keeps_bind, rule_commit; [destruct Ht as [-> | ->]; rewrite lookup_insert_eq; auto| |].
  - apply keeps_bind. eapply close_conn_keeps; [exact Hh|]. intros conns _. apply keeps_ret. split; [exact Hc|]. split_and!; [|done|intros n Hn; rewrite Hn in El; by apply Z.ltb_ge|by exists limit]. apply (tx_only_committed _ (mt_tx m)). cbn. destruct Ht as [-> | ->]; by rewrite insert_insert_eq.
  - intros e s. apply keeps_bind. eapply close_conn_keeps; [exact Hh|]. intros conns _. by apply keeps_ret.
Qed.
Lemma executeMutation_keeps driver call p : kp (executeMutation driver call p) (fresh call) (answered p call).
Proof.
  unfold executeMutation. apply keeps_bind, begin_keeps; [done|done|by apply (untouched_free call)| |].
  - intros st e g _ _ F _ Hu _. apply start_answered; [by rewrite (lo_call _ _ F)|done].
  - intros st e m g Hst F _ Hh. assert (g_call g = call) as Hc by (by rewrite (lo_call _ _ F)).
    assert (tx_only g (mt_tx m) TxOpen \/ tx_only g (mt_tx m) TxRolledBack) as Ht by (destruct Hst as [[_ ?]|[_ ?]]; auto).
    assert (uncommitted g) as Hu by (destruct Ht as [Ht|Ht]; by eapply tx_only_uncommitted). destruct (failed e); [by apply start_answered|]. case_decide.
    + by apply rollback_answered.
    + destruct Hst as [[_ Hi]|[? _]]; [|done]. apply keeps_bind, rule_exec; [by rewrite Hi, lookup_insert_eq|].
      intros fault. split; destruct fault; (apply statement_answered || apply conclude_answered); try done; cbn; rewrite Hi, insert_insert_eq; auto.
Qed.

Definition start_mutations (driver : string) (l : list policy) : list (program answer) := imap (executeMutation driver) l.
Definition answered_one (l : list policy) (r : answer) (g : @ghost O) : Prop := exists p, l !! g_call g = Some p /\ answered p (g_call g) r g.
Lemma mutations_keep driver l : Forall2 (fun p g => kp p g (answered_one l)) (start_mutations driver l) (first_ghosts [] (length l)).
Proof.
  unfold start_mutations, first_ghosts. cbn [length Nat.add]. apply Forall2_same_length_lookup_2; [by rewrite length_imap, length_fmap, length_seq|]. intros t p g Hp Hg. rewrite list_lookup_imap in Hp. destruct (l !! t) as [q|] eqn:Eq; [|done]. apply (inj Some) in Hp. rewrite <- Hp.
  rewrite list_lookup_fmap in Hg. destruct (seq 0 (length l) !! t) as [i|] eqn:Ei; [|done]. injection Hg as <-. apply lookup_seq in Ei as [-> _]. eapply keeps_mono; [apply executeMutation_keeps|]. intros r g [Hc Hr]. exists q. rewrite Hc. split; [done|]. by split.
Qed.
End Legacy.

(* ------------------------------------------------------------------ *)
(** ** Properties *)

Section Properties.
Context {O : Type} `{!OutputWorld O}.

(** C13: mutations without a controller tell the truth. However mutations that run together are
    interleaved, and whatever fails or is lost: one that answers with a payload has committed
    exactly one transaction, within the limits of its policy, and one that fails with a code
    other than OUTCOME_UNKNOWN has committed none. *)
Theorem mutations_truthful (driver : string) (l : list policy) names (w0 w : world O) ps t r :
  opened names w0 -> rtc (pool_step (fun _ : choice O => True)) (start_mutations driver l, w0) (ps, w) -> ps !! t = Some (Ret r) ->
  match r with
  | inl (payload, count) => (exists i, committed_by t w i /\ forall j, committed_by t w j -> j = i) /\
      exists p limit, l !! t = Some p /\ (forall n, po_MaxAffectedRows p = Some n -> 0 <= count <= n) /\ maxBytes (po_MaxBytes p) = Ok limit /\ Z.of_nat (length payload) <= limit
  | inr f => mf_code f <> "OUTCOME_UNKNOWN"%string -> forall j, ~ committed_by t w j
  end.
Proof.
  intros Ho Hs Ht. destruct (pool_keeps _ _ _ (answered_one l) _ _ Hs (first_ghosts [] (length l)) (first_inv 0 [] (length l) names w0 Ho ltac:(done)) (mutations_keep 0 names driver l)) as (gs & Hi & Hf).
  destruct (Forall2_lookup_l _ _ _ _ _ Hf Ht) as (g & Hg & p & Hp & Hc & Ha). pose proof (in_calls _ _ _ _ Hi t g Hg) as Hcall. rewrite Hcall in Hp. apply list_elem_of_lookup_2 in Hg. destruct r as [[payload count]|f].
  - destruct Ha as (Hcom & H0 & Hmax & limit & Hlim & Hpay). split; [by eapply committed_ghost|]. exists p, limit. split_and!; try done; [intros n Hn; split; [done|by apply Hmax]|].
    unfold buildMutationPayload in Hpay. destruct (Z.ltb_spec limit (Z.of_nat (length (lit "{" ++ [34] ++ lit "count" ++ [34] ++ lit ":" ++ FormatInt count ++ lit "}")))); [done|]. by injection Hpay as <-.
  - intros Hcode. eapply uncommitted_ghost; [done|done|done|]. by apply Ha.
Qed.

End Properties.

(** ** Witnesses *)

Module LegacyExample.
Import Executions.Example.
Definition small : policy := {| po_MaxBytes := lit "1 KB"; po_MaxAffectedRows := Some 10 |}.
Definition committed_run := schedule_run (replicate 20 (0%nat, calm)) (start_mutations "postgres" [small]) agent.
Lemma mutations_truthful_witness : exists i, committed_by 0 committed_run.2 i /\ forall j, committed_by 0 committed_run.2 j -> j = i.
Proof.
  refine (proj1 (mutations_truthful "postgres" [small] [lit "insert"] agent committed_run.2 committed_run.1 0 (inl (lit "{" ++ [34] ++ lit "count" ++ [34] ++ lit ":1}", 1)) agent_opened _ _)).
  - apply schedule_steps. by apply Forall_forall.
  - vm_compute. reflexivity.
Defined.
End LegacyExample.
